(* ===== verification/_CoqProject ===== *)
-Q . S2P
Prelude.v
Sorting.v
Heap.v
Codec.v
Json.v
Events.v
EventStore.v
EventStoreFacts.v
ReplayFacts.v
StateCache.v
Registry.v
DaemonFacts.v
Api.v
ApiStream.v
TimeTravel.v
Delivery.v
DeliveryFacts.v
Stories.v
Interestingness.v
Policy.v
PolicyFacts.v
AuthorizeFacts.v
ApiEntity.v
TokenScope.v
Carport.v
Dispatch.v
DriverKit.v
DriverKitRuns.v
Z2m.v
Triggers.v
Engine.v
EngineFacts.v
Rules.v
Scheduler.v
RulesFacts.v
ConfigDecode.v
Scene.v
Config.v
Script.v
ScriptRuns.v
Webhook.v
ConfigFacts.v
ConfigParse.v
ConfigManager.v
ConfigReload.v
Paths.v
Files.v
Glob.v
McpFiles.v
StarlarkRuntime.v
LspClient.v
Pages.v
Colorconv.v
HueBridge.v
Hue.v
StarlarkLS.v
Regen.v
Discovery.v
WidgetPack.v
WidgetPackFacts.v
EditSession.v
Tokens.v
Enrollment.v
Throttle.v
Sessions.v
Identity.v
Passwords.v
DaemonReload.v
Authn.v
AuthService.v
Expiring.v
Passkeys.v
Display.v
SavedQueries.v
Recovery.v
EngineControl.v
Devices.v
AuthAudit.v
Push.v
