(* ===== verification/Prelude.v ===== *)
(** * Switchyard: a verification library

    Switchyard (this repository, [internal/...]) is a home-automation daemon
    written in Go. Drivers run as separate processes and report entities and
    their states; everything that happens is appended to an event log in SQLite;
    in-memory and SQL projections are folds over that log; automations react to
    events and issue commands; a configuration evaluated from Pkl says which
    drivers and automations there are; and an RPC gate authenticates and
    authorizes every call.

    ** The parts and the files that model them

    File names below are under [internal/] unless they start with another top-level
    directory of the repository. A file [X.v] holds the definitions of a component and,
    after them, its theorems; where these are long they have a file [XFacts.v].

    - The log. [Events] (eventstore/event.go, filter.go), [EventStore]
      (store.go, query.go, replay.go, snapshot.go): appends as transactions
      that can fail at each statement, retries, projectors with a pending copy,
      replay from snapshots, retention. [EventStoreFacts], [ReplayFacts]: the
      positions are dense and unique, an append is atomic and a failed one
      invisible, replay rebuilds what the live run had. [Delivery] (subscribe.go,
      tailer.go) is one step function over subscribers, catch-up, tailer and
      dispatch; [DeliveryFacts]: every subscriber gets each matching event once
      and in order, under every interleaving in which the published position never goes
      back (only [AppendBatch], which the daemon does not call, can set it back).
    - Projections. [StateCache] (state/cache.go) and [Registry] (registry/*.go), related
      to folds over the log; [DaemonFacts] puts the projectors into the store.
      [Recovery] (observability/recovery.go, daemon/daemon.go): what the daemon does when
      replay stops at an event, and that skipping it makes progress.
    - Drivers. [Carport] (carport/fsm.go, supervisor.go, carport.go, control.go):
      the supervisor's loop, one [round] of the environment per attempt.
      [Dispatch] (instance.go, routing.go, dispatch.go, ingest.go): the pending
      table, channels and the two events of a command; the sends and closes of channels
      are steps of their own, after the lock is released. [DriverKit]
      (switchyard-driverkit/driver, protocol): the other side of that connection;
      [DriverKitRuns] interleaves its calls at their locks and sends and composes it with the
      reader of [Dispatch], the ingest and the cache: what a driver tracks is what the
      daemon shows, as long as the updates of an entity do not overlap. [Z2m]
      (drivers/z2m): the Zigbee driver over it, from device
      lists and state messages to the daemon's state, one handler at a time. [HueBridge], [Hue]
      (drivers/hue): the client of the Hue bridge and the driver's cache, with handlers that
      overlap; after a resync the driver has what the bridge reports. [Colorconv]
      (switchyard-driverkit/colorconv), in the arithmetic of doubles.
    - Automations. [Triggers] (automation/trigger), [Engine] (engine.go, mode.go,
      reload.go) as a step relation of goroutines, [EngineControl] (engine.go,
      api/service_automation.go): start, stop, listing and manual triggers with the contexts
      they run under, and that a queue is served; [Rules] (compile.go, run.go,
      condition, action), [Scheduler] (trigger/time.go): the queue of the time
      triggers, over the binary heap of [Heap] (container/heap), [Scene] (automation/scene): a relation between a scene
      and its traces, since scenes may invoke each other without end. [Regen]
      (automation/regen): automations, scenes and areas written back as Pkl.
    - Access. [Policy] (policy/*.go): the compiler and [Authorize];
      [TokenScope] (api/token_scope.go); [Tokens], [Enrollment], [Passwords],
      [Passkeys] (auth/credentials), [Sessions], [Throttle], [Identity]
      (auth/sessions, auth/throttle, auth/identity), [Authn] (auth/authn and the
      two interceptors of api/), [AuthService] (api/service_auth.go), [AuthAudit] (auth/audit).
    - Configuration. [ConfigDecode] (config/evaluator_decode.go, lifecycle.go),
      [ConfigParse] (evaluator.go): the whole snapshot from the text that Pkl renders,
      [Config] (diff.go, merge.go, compile.go, secrets.go, semantic_message.go),
      [Discovery] (discovery.go, watcher.go): the files found, evaluated in parallel and merged,
      whatever the order, and what the watcher announces; [ConfigManager] (manager.go),
      [ConfigReload] (reloader.go, pubsub.go), [EditSession] (editsession/*.go).
      [DaemonReload] (the hook of daemon/daemon.go, area_sync.go, auth_config.go): what an
      applied snapshot changes in the daemon, and what its policies then permit.
    - Editors. [LspClient] (pkllsp/*.go): the client of the Pkl language server as
      concurrent steps, every request answered by the first message with its id;
      [StarlarkLS] (starlarkls/*.go): the diagnosis of scripts, with examples of where its
      scopes are not Starlark's, and the word under the cursor; [Pages] (page/*.go): layouts as text, and the files of pages under every failure.
      [McpFiles] (mcp/fs, mcp/tools/files.go): the file tools of the MCP server over a tree with
      symbolic links, confined to the configuration directory.
    - The Starlark runtime. [StarlarkRuntime] (starlark/*.go, condition and action of
      automation, the adapter of daemon/api_adapters.go): modules that load each other, what
      each kind of context can do, and the runner of tests, for any interpreter.
    - Scripts. [Script] (script/*.go): compilation, arguments and a call with its
      two events; [ScriptRuns] (engine.go): the table of running scripts under
      every interleaving of calls and cancellations.
    - The RPC layer. [Api] (api/pagination.go, errors.go, service_event.go and
      the paging of daemon/api_adapters.go): following the page tokens
      gives every item once, and what crafted tokens and event queries do.
      [ApiStream] (streaming.go): the bounded forwarder and its handler as steps.
      [ApiEntity] (service_entity.go, subscription_filter.go): listings and
      subscriptions over the registry, the cache and the policy. [Devices]
      (service_device.go, service_area.go, service_zone.go and their adapters). [Webhook]
      (webhook.go): which requests are accepted.
    - Front-end services. [TimeTravel] (replay/*.go): the state at a position of
      the log and the chain of causes of an event, over the queries of
      [EventStore]. [WidgetPack] (widgetpack/*.go): installing a pack as a sequence
      of file system operations that can each fail; [WidgetPackFacts]: all or
      nothing, but for files that a failed removal leaves behind, confined to the staging
      directory, registered packs have their files. [Display] (display/*.go): pair codes and the files of displays.
      [Stories] (activity/service.go, activity/stories): the activity feed as
      groups of the log, with its tags and chains of causes; [SavedQueries]
      (activity/saved_queries.go): the files of saved queries; [Interestingness]
      (interestingness/*.go): the detectors that write the tags, when each fires,
      and the pipeline that reads its own output; [Push] (push/*.go): the subscriptions and
      the slices handed out of them.
    - What the sources use of the Go library: [Codec] (strings, strconv,
      encodings), [Json] (encoding/json), [Paths] and [Glob] (path/filepath, its
      [Clean], [Join] and [Match]), [Files] (a file system as a map from paths),
      [Sorting] (the sources' insertion sorts), [Heap] (container/heap), [Expiring] (maps with deadlines).

    The components meet in interfaces: [EventStoreFacts] is proved for any list of
    projectors with the laws of the class [TxMemory], which the cache and the
    registry discharge; [ConfigManager] for any driver manager with
    the laws of [CarportManagerOk], which [Carport] discharges; the gate of
    [Authn] composes [Tokens], [Sessions], [TokenScope] and [Policy].

    ** Conventions

    A Go call that returns a value and an error is a [result]; a nil error is
    [None]. State is passed explicitly. What the environment decides (the clock,
    random bytes, ULIDs, the order in which a map is ranged over, whether a
    statement of SQLite fails) is an argument, so a theorem holds for all of it.
    Third-party code (SHA-256, HMAC, Argon2, protobuf, zstd, WebAuthn, cron,
    Pkl, Starlark) is a parameter; where a theorem needs a law of it the law is a
    hypothesis, and a witness instantiates it. Integers are [Z] with [u64], [i64]
    where the code truncates. Goroutines are steps of a relation, cut at their
    synchronization points.

    ** Fuel

    [EventStore.Replay] takes fuel for its batches: one more than the number of
    events suffices ([Replay_terminates]). The graph walks of [Policy] take the
    number of nodes, proved enough by [ExpandAreas_reachability] and
    [resolveRoleInheritance_spec]. [Codec.Split] and [TrimSpace] take the length
    of their input. [ConfigDecode.decode_condition] and [decode_action] take the
    nesting depth of the JSON value, proved enough by [decode_condition_fuel] and
    [decode_action_fuel]. [Glob.match_loop] takes the length of the pattern,
    proved enough by [match_loop_fuel]. [ConfigParse.role_from_json] takes the depth of
    the value ([role_roundtrip]); [Scheduler.fireDue] the number of entries, enough when
    every schedule advances ([fireDue_exact]); [Heap.up] and [down] the length of the
    heap. [Api.follow] takes the number of pages, one
    more than the number of items being enough ([pages_enumerate]). [TimeTravel.walk_causes] takes the 256
    steps that the source allows and [Stories.walk_chain] its 32; [Stories.id_loop]
    and [itoa_go] take the 20 digits of a 64-bit integer ([eventPositionToID_pretty]). [ConfigReload.publish_loop] takes the capacity of the
    channel plus one. [LspClient.read_header] and [read_loop] take the length of the input, [Pages.dec_any]
    the depth of the value. [McpFiles.walk] follows as many links as the system does (255 in
    the Go library); [check_parents] takes the number of names of the path.
    [StarlarkRuntime.load_module] takes more than the number of files there are
    ([Execute_terminates]).

    ** Not modelled

    Metrics, logging and tracing; the RPC handlers and MCP tools that only
    translate messages and their heartbeats; the evaluation of Pkl and Starlark by their
    libraries; the clients of MQTT and gRPC; the OCI registry and signatures of widget
    packs (parameters); HTTP servers and listeners; the command line and the web
    application; generated code. *)

From stdpp Require Export prelude strings pretty gmap sorting list_numbers.
From Stdlib Require Export ZArith Lia.

Open Scope Z_scope.

(** ** Automation *)

(** [switchyard]: lengths and machine integers, for [autorewrite] and [auto]. *)
Create HintDb switchyard.
#[export] Hint Rewrite @length_app @length_replicate @length_fmap @length_take @length_drop
  : switchyard.

(** Splits off the conjuncts that are immediate. *)
Ltac conj_done := repeat (split; [done|]).

(** ** Results of fallible Go calls *)

(** A Go call returning [(A, error)]: either the value or the error. *)
Inductive result (E A : Type) : Type :=
  | Ok (a : A)
  | Err (e : E).
Arguments Ok {E A} a.
Arguments Err {E A} e.

#[export] Instance result_ret {E} : MRet (result E) := @Ok E.
#[export] Instance result_bind {E} : MBind (result E) :=
  fun A B f m => match m with Ok a => f a | Err e => Err e end.
#[export] Instance result_fmap {E} : FMap (result E) :=
  fun A B f m => match m with Ok a => Ok (f a) | Err e => Err e end.

#[export] Instance result_eq_dec {E A} `{EqDecision E, EqDecision A} :
  EqDecision (result E A).
Proof. solve_decision. Defined.

Definition is_ok {E A} (r : result E A) : bool :=
  match r with Ok _ => true | Err _ => false end.

Definition map_err {E E' A} (f : E -> E') (r : result E A) : result E' A :=
  match r with Ok a => Ok a | Err e => Err (f e) end.

Lemma result_bind_Ok {E A B} (m : result E A) (f : A -> result E B) b :
  m ≫= f = Ok b <-> exists a, m = Ok a /\ f a = Ok b.
Proof.
  destruct m as [a|e]; cbn; split; [eauto | by intros (?&[= ->]&?) | done |].
  by intros (?&?&?).
Qed.

(** ** Machine integers *)

(** [uint64(x)] and [int64(x)] of Go: two's complement truncation. *)
Definition u64 (z : Z) : Z := z `mod` 2 ^ 64.
Definition i64 (z : Z) : Z := (z + 2 ^ 63) `mod` 2 ^ 64 - 2 ^ 63.
Definition max_u64 : Z := 2 ^ 64 - 1.

Lemma u64_small z : 0 <= z < 2 ^ 64 -> u64 z = z.
Proof. intros. by apply Z.mod_small. Qed.

Lemma i64_small z : - 2 ^ 63 <= z < 2 ^ 63 -> i64 z = z.
Proof. intros. unfold i64. rewrite Z.mod_small; lia. Qed.

#[export] Hint Resolve u64_small i64_small : switchyard.

Lemma u64_i64 z : 0 <= z < 2 ^ 64 -> u64 (i64 z) = z.
Proof.
  intros. unfold u64, i64. rewrite Zminus_mod_idemp_l.
  replace (z + 2 ^ 63 - 2 ^ 63) with z by lia. by apply Z.mod_small.
Qed.

(** ** Time

    A [time.Time] is the number of nanoseconds since the Unix epoch; the Go
    zero time is January 1, year 1. A [time.Duration] is a number of
    nanoseconds. *)
Definition zero_time : Z := - 62135596800 * 10 ^ 9.
Definition IsZero (t : Z) : bool := t =? zero_time.
Definition Nanosecond : Z := 1.
Definition Millisecond : Z := 10 ^ 6.
Definition Second : Z := 10 ^ 9.
Definition Minute : Z := 60 * Second.
Definition Hour : Z := 60 * Minute.
(** [t.Unix()] of a time in nanoseconds: whole seconds, rounded down. *)
Definition Unix (t : Z) : Z := t / Second.

(** ** Strings: the functions of Go's package [strings] the sources use *)

Fixpoint has_prefix (s p : string) {struct p} : bool :=
  match p, s with
  | EmptyString, _ => true
  | String _ _, EmptyString => false
  | String c p', String d s' => Ascii.eqb c d && has_prefix s' p'
  end.

Fixpoint has_suffix (s suf : string) : bool :=
  String.eqb s suf ||
  match s with
  | EmptyString => false
  | String _ s' => has_suffix s' suf
  end.

Definition trim_suffix (s suf : string) : string :=
  if has_suffix s suf
  then String.substring 0 (String.length s - String.length suf) s
  else s.

Definition trim_prefix (s p : string) : string :=
  if has_prefix s p
  then String.substring (String.length p) (String.length s - String.length p) s
  else s.

Fixpoint str_contains (s sub : string) : bool :=
  has_prefix s sub ||
  match s with
  | EmptyString => false
  | String _ s' => str_contains s' sub
  end.

Definition is_empty (s : string) : bool := String.eqb s EmptyString.

Lemma has_prefix_spec s p : has_prefix s p = true <-> exists t, s = p +:+ t.
Proof.
  revert s. induction p as [|c p IH]; intros s; cbn.
  - split; [intros _; by exists s | done].
  - destruct s as [|d s]; [split; [done | by intros [??]] |].
    rewrite andb_true_iff, Ascii.eqb_eq, IH. split.
    + intros [-> [t ->]]. by exists t.
    + intros [t Ht]. injection Ht as -> ->. eauto.
Qed.

Lemma str_app_nil_r s : s +:+ "" = s.
Proof. induction s as [|c s IH]; [done |]. change (String c (s +:+ "") = String c s). by rewrite IH. Qed.

Lemma has_suffix_spec s suf : has_suffix s suf = true <-> exists t, s = t +:+ suf.
Proof.
  induction s as [|c s IH].
  - split.
    + destruct suf; [by exists "" | done].
    + intros [[|d t] Ht]; [|done]. by destruct suf.
  - change (has_suffix (String c s) suf)
      with (String.eqb (String c s) suf || has_suffix s suf).
    rewrite orb_true_iff, String.eqb_eq, IH. split.
    + intros [<- | [t ->]]; [by exists "" | by exists (String c t)].
    + intros [[|d t] Ht]; [by left|]. right. injection Ht as _ ->. by exists t.
Qed.

Lemma str_app_cons c s t : String c s +:+ t = String c (s +:+ t).
Proof. done. Qed.

Lemma str_app_assoc s t u : (s +:+ t) +:+ u = s +:+ (t +:+ u).
Proof. induction s as [|c s IH]; [done |]. by rewrite !str_app_cons, IH. Qed.

Lemma str_app_inj_l p s t : p +:+ s = p +:+ t -> s = t.
Proof. induction p as [|c p IH]; [done|]. rewrite !str_app_cons. intros H. injection H as H. by apply IH. Qed.

Lemma str_length_app s t :
  String.length (s +:+ t) = (String.length s + String.length t)%nat.
Proof.
  induction s as [|c s IH]; [done |].
  rewrite str_app_cons. cbn [String.length]. by rewrite IH.
Qed.

Lemma substring_app_l s t : String.substring 0 (String.length s) (s +:+ t) = s.
Proof.
  induction s as [|c s IH]; [by destruct t |].
  rewrite str_app_cons. cbn [String.length String.substring]. by rewrite IH.
Qed.

Lemma substring_0_all s : String.substring 0 (String.length s) s = s.
Proof. rewrite <- (str_app_nil_r s) at 2. apply substring_app_l. Qed.

Lemma substring_app_r s t :
  String.substring (String.length s) (String.length t) (s +:+ t) = t.
Proof. induction s as [|c s IH]; [apply substring_0_all | done]. Qed.

Lemma trim_suffix_app t suf : trim_suffix (t +:+ suf) suf = t.
Proof.
  unfold trim_suffix.
  assert (has_suffix (t +:+ suf) suf = true) as -> by (apply has_suffix_spec; eauto).
  rewrite str_length_app, Nat.add_sub. apply substring_app_l.
Qed.

Lemma trim_prefix_app p t : trim_prefix (p +:+ t) p = t.
Proof.
  unfold trim_prefix.
  assert (has_prefix (p +:+ t) p = true) as -> by (apply has_prefix_spec; eauto).
  rewrite str_length_app, Nat.add_comm, Nat.add_sub. apply substring_app_r.
Qed.

Lemma has_prefix_trans s p q :
  has_prefix s p = true -> has_prefix p q = true -> has_prefix s q = true.
Proof.
  rewrite !has_prefix_spec. intros [t ->] [u ->]. exists (u +:+ t).
  apply str_app_assoc.
Qed.

(** ** Boolean and list helpers *)

(** [for _, s := range haystack { if s == needle { return true } }]. *)
Definition contains_eq {A} `{EqDecision A} (haystack : list A) (needle : A) : bool :=
  existsb (fun s => bool_decide (s = needle)) haystack.

Lemma contains_eq_spec {A} `{EqDecision A} (l : list A) x :
  contains_eq l x = true <-> x ∈ l.
Proof.
  unfold contains_eq. rewrite existsb_exists, list_elem_of_In. split.
  - intros (y & Hy & ->%bool_decide_eq_true). done.
  - intros Hx. exists x. by rewrite bool_decide_eq_true.
Qed.

(** The last element of a non-empty slice, [l[len(l)-1]]. *)
Definition last_or {A} (d : A) (l : list A) : A := default d (last l).

(** ** Descending order, for [ORDER BY ... DESC] *)

Definition Z_desc (a b : Z) : Prop := b <= a.

#[export] Instance Z_desc_dec : RelDecision Z_desc.
Proof. unfold Z_desc, RelDecision. apply _. Defined.
#[export] Instance Z_desc_total : Total Z_desc.
Proof. intros a b. unfold Z_desc. lia. Qed.
#[export] Instance Z_desc_trans : Transitive Z_desc.
Proof. intros a b c. unfold Z_desc. lia. Qed.

(** ** Filters that keep everything or nothing *)

Lemma list_filter_all {A} (P : A -> Prop) `{!forall x, Decision (P x)} (l : list A) :
  (forall x, x ∈ l -> P x) -> filter P l = l.
Proof.
  induction l as [|x l IH]; intros Hl; [done|].
  rewrite filter_cons_True by (apply Hl; left). f_equal. apply IH.
  intros y Hy. apply Hl. by right.
Qed.

Lemma list_filter_none {A} (P : A -> Prop) `{!forall x, Decision (P x)} (l : list A) :
  (forall x, x ∈ l -> ~ P x) -> filter P l = [].
Proof.
  induction l as [|x l IH]; intros Hl; [done|].
  rewrite filter_cons_False by (apply Hl; left). apply IH.
  intros y Hy. apply Hl. by right.
Qed.

Lemma filter_fmap {A B} (f : A -> B) (P : B -> Prop) `{!forall x, Decision (P x)} (l : list A) :
  filter P (f <$> l) = f <$> filter (fun x => P (f x)) l.
Proof.
  induction l as [|x l IH]; [done|]. rewrite fmap_cons, !filter_cons.
  case_decide; by rewrite ?fmap_cons, IH.
Qed.

(** ** Contiguously numbered lists

    [contiguous f s l]: the elements of [l] carry the numbers [s], [s+1], ...
    under [f]. This is the shape of the event log, whose rows are numbered by
    SQLite's AUTOINCREMENT. *)
Section Contiguous.
Context {A : Type} (f : A -> Z).

Fixpoint contiguous (s : Z) (l : list A) : Prop :=
  match l with
  | [] => True
  | x :: l' => f x = s /\ contiguous (s + 1) l'
  end.

Lemma contiguous_app s l1 l2 :
  contiguous s (l1 ++ l2) <->
  contiguous s l1 /\ contiguous (s + Z.of_nat (length l1)) l2.
Proof.
  revert s. induction l1 as [|x l1 IH]; intros s; cbn.
  - rewrite Z.add_0_r. tauto.
  - rewrite IH, Nat2Z.inj_succ.
    replace (s + 1 + Z.of_nat (length l1)) with (s + Z.succ (Z.of_nat (length l1))) by lia.
    tauto.
Qed.

Lemma contiguous_bounds s l x :
  contiguous s l -> x ∈ l -> s <= f x < s + Z.of_nat (length l).
Proof.
  revert s. induction l as [|y l IH]; intros s; cbn; [by intros _ ?%not_elem_of_nil|].
  intros [Hy Hl] [->|Hx]%elem_of_cons; [lia|]. specialize (IH _ Hl Hx). lia.
Qed.

Lemma contiguous_last s l x :
  contiguous s l -> last l = Some x -> f x = s + Z.of_nat (length l) - 1.
Proof.
  intros Hl (l' & ->)%last_Some. apply contiguous_app in Hl as [_ [Hx _]].
  rewrite length_app. cbn. lia.
Qed.

Lemma contiguous_drop s n l :
  contiguous s l -> contiguous (s + Z.of_nat (n `min` length l)%nat) (drop n l).
Proof.
  intros Hl. rewrite <- (take_drop n l) in Hl. apply contiguous_app in Hl as [_ Hl].
  by rewrite length_take in Hl.
Qed.

Lemma contiguous_take s n l : contiguous s l -> contiguous s (take n l).
Proof.
  intros Hl. rewrite <- (take_drop n l) in Hl. by apply contiguous_app in Hl as [Hl _].
Qed.

Lemma contiguous_all s l p :
  contiguous s l -> p < s -> filter (fun x => p < f x) l = l.
Proof.
  intros Hl Hp. apply list_filter_all. intros x Hx.
  pose proof (contiguous_bounds _ _ _ Hl Hx). lia.
Qed.

(** [WHERE position > p]. *)
Lemma contiguous_filter_gt s l p :
  contiguous s l -> s - 1 <= p ->
  filter (fun x => p < f x) l = drop (Z.to_nat (p - (s - 1))) l.
Proof.
  revert s. induction l as [|x l IH]; intros s; cbn [contiguous].
  - by rewrite drop_nil.
  - intros [Hx Hl] Hp. destruct (decide (p = s - 1)) as [->|Hne].
    + replace (s - 1 - (s - 1)) with 0 by lia. rewrite Z2Nat.inj_0. cbn [drop].
      rewrite filter_cons_True by lia.
      f_equal. apply (contiguous_all (s + 1)); [done | lia].
    + rewrite filter_cons_False by lia.
      replace (Z.to_nat (p - (s - 1))) with (S (Z.to_nat (p - (s + 1 - 1)))) by lia.
      cbn [drop]. apply IH; [done | lia].
Qed.

(** [WHERE position <= q]. *)
Lemma contiguous_filter_le s l q :
  contiguous s l -> s - 1 <= q ->
  filter (fun x => f x <= q) l = take (Z.to_nat (q - (s - 1))) l.
Proof.
  revert s. induction l as [|x l IH]; intros s; cbn [contiguous].
  - by rewrite take_nil.
  - intros [Hx Hl] Hq. destruct (decide (q = s - 1)) as [->|Hne].
    + replace (s - 1 - (s - 1)) with 0 by lia. rewrite Z2Nat.inj_0. cbn [take].
      rewrite filter_cons_False by lia. apply list_filter_none. intros y Hy.
      pose proof (contiguous_bounds _ _ _ Hl Hy). lia.
    + rewrite filter_cons_True by lia.
      replace (Z.to_nat (q - (s - 1))) with (S (Z.to_nat (q - (s + 1 - 1)))) by lia.
      cbn [take]. f_equal. apply IH; [done | lia].
Qed.

(** [WHERE position > p AND position <= q]. *)
Lemma contiguous_filter_range s l p q :
  contiguous s l -> s - 1 <= p -> p <= q ->
  filter (fun x => p < f x /\ f x <= q) l =
  take (Z.to_nat (q - p)) (drop (Z.to_nat (p - (s - 1))) l).
Proof.
  intros Hl Hp Hq.
  transitivity (filter (fun x => f x <= q) (filter (fun x => p < f x) l)).
  { rewrite list_filter_filter. apply list_filter_iff. tauto. }
  rewrite (contiguous_filter_gt s) by done.
  set (n := Z.to_nat (p - (s - 1))).
  destruct (decide (n <= length l)%nat) as [Hn|Hn].
  - pose proof (contiguous_drop _ n _ Hl) as Hd. rewrite Nat.min_l in Hd by lia.
    rewrite (contiguous_filter_le _ _ _ Hd) by lia. f_equal. lia.
  - rewrite drop_ge by lia. by rewrite take_nil.
Qed.

End Contiguous.

(** ** [mapM] in the result monad: a loop that stops at the first error *)

Lemma result_mapM_Forall2 {E A B} (f : A -> result E B) l k :
  mapM f l = Ok k <-> Forall2 (fun x y => f x = Ok y) l k.
Proof.
  revert k. induction l as [|x l IH]; intros k; cbn.
  - split; [by intros [= <-] | by inversion 1].
  - split.
    + intros (y & Hy & Hk)%result_bind_Ok. apply result_bind_Ok in Hk as (ys & Hys & [= <-]).
      constructor; [done | by apply IH].
    + inversion 1 as [|? y ? ys Hy Hys]; subst. rewrite Hy. cbn.
      by apply IH in Hys as ->.
Qed.

Lemma result_mapM_take {E A B} (f : A -> result E B) l k n :
  mapM f l = Ok k -> mapM f (take n l) = Ok (take n k).
Proof. rewrite !result_mapM_Forall2. apply Forall2_take. Qed.

Lemma result_mapM_drop {E A B} (f : A -> result E B) l k n :
  mapM f l = Ok k -> mapM f (drop n l) = Ok (drop n k).
Proof. rewrite !result_mapM_Forall2. apply Forall2_drop. Qed.

Lemma result_mapM_app {E A B} (f : A -> result E B) l1 l2 k1 k2 :
  mapM f l1 = Ok k1 -> mapM f l2 = Ok k2 -> mapM f (l1 ++ l2) = Ok (k1 ++ k2).
Proof. rewrite !result_mapM_Forall2. apply Forall2_app. Qed.

Lemma result_mapM_length {E A B} (f : A -> result E B) l k :
  mapM f l = Ok k -> length k = length l.
Proof. rewrite result_mapM_Forall2. intros Hk%Forall2_length. done. Qed.
