(* ===== verification/Sorting.v ===== *)
(** * Insertion sort, as the sources write it

    [registry.ListAreasInMemory] and [policy.sortedRoles] sort a small slice in
    place with the same pair of loops; here it is on a list updated by index,
    with its correctness. Also lemmas on sorted lists. *)

From S2P Require Import Prelude.

Definition swap {A} (i j : nat) (l : list A) : list A :=
  match l !! i, l !! j with
  | Some x, Some y => <[i := y]> (<[j := x]> l)
  | _, _ => l
  end.

Section Sort.
Context {A : Type} (key : A -> string).

(** [for j := i; j > 0 && out[j-1] > out[j]; j-- { swap }]. *)
Fixpoint sift (j : nat) (out : list A) : list A :=
  match j with
  | O => out
  | S j' =>
      match out !! j', out !! j with
      | Some a, Some b =>
          if String.ltb (key b) (key a) then sift j' (swap j' j out) else out
      | _, _ => out
      end
  end.

(** [for i := 1; i < len(out); i++]. *)
Definition insertion_sort (out : list A) : list A :=
  foldl (fun l i => sift i l) out (seq 1 (length out - 1)).

End Sort.

(** ** Lemmas on sorted lists *)

Lemma StronglySorted_filter {A} (R : relation A) (P : A -> Prop) `{!forall x, Decision (P x)} l :
  StronglySorted R l -> StronglySorted R (filter P l).
Proof.
  induction 1 as [|x l Hs IH Hx]; [constructor|]. rewrite filter_cons. case_decide; [|done].
  constructor; [done|]. rewrite Forall_forall in *. intros y [_ Hy]%list_elem_of_filter. auto.
Qed.

Lemma StronglySorted_fmap {A B} (f : A -> B) (R : relation A) (R' : relation B) l :
  (forall x y, R x y -> R' (f x) (f y)) -> StronglySorted R l -> StronglySorted R' (f <$> l).
Proof.
  intros Hf. induction 1 as [|x l Hs IH Hx]; [constructor|]. rewrite fmap_cons.
  constructor; [done|]. rewrite Forall_fmap. eapply Forall_impl; [done|]. cbn. auto.
Qed.

Lemma ltb_le a b : String.ltb a b = true -> String.le a b.
Proof.
  unfold String.ltb, String.le, String.leb. by destruct (String.compare a b).
Qed.

Lemma ltb_false_le a b : String.ltb a b = false -> String.le b a.
Proof.
  unfold String.ltb, String.le, String.leb. rewrite (String.compare_antisym b a).
  by destruct (String.compare a b).
Qed.

Lemma swap_middle {A} (pre : list A) x y post :
  swap (length pre) (S (length pre)) (pre ++ y :: x :: post) = pre ++ x :: y :: post.
Proof.
  unfold swap. rewrite lookup_app_r, Nat.sub_diag by lia. cbn [lookup list_lookup].
  rewrite lookup_app_r by lia. replace (S (length pre) - length pre)%nat with 1%nat by lia.
  cbn [lookup list_lookup]. rewrite insert_app_r_alt by lia.
  replace (S (length pre) - length pre)%nat with 1%nat by lia.
  rewrite insert_app_r_alt by lia. by rewrite Nat.sub_diag.
Qed.

(** ** Correctness *)

Section Correct.
Context {A : Type} (key : A -> string).

Definition by_key (a b : A) : Prop := String.le (key a) (key b).

#[export] Instance by_key_trans : Transitive by_key.
Proof. intros a b c. unfold by_key. apply transitivity. Qed.

(** One pass of the inner loop inserts the element into the sorted prefix. *)
Lemma sift_spec pre x post :
  StronglySorted by_key pre ->
  exists pre', sift key (length pre) (pre ++ x :: post) = pre' ++ post /\
    pre' ≡ₚ x :: pre /\ StronglySorted by_key pre'.
Proof.
  revert post. induction pre as [|y pre IH] using rev_ind; intros post Hs.
  { exists [x]. split; [done|]. split; [done|]. repeat constructor. }
  apply StronglySorted_app in Hs as (Hle & Hs & _).
  rewrite length_app, Nat.add_1_r, <- app_assoc. cbn [length app sift].
  rewrite lookup_app_r, Nat.sub_diag by lia. cbn [lookup list_lookup].
  rewrite lookup_app_r by lia. replace (S (length pre) - length pre)%nat with 1%nat by lia.
  cbn [lookup list_lookup]. destruct (String.ltb (key x) (key y)) eqn:Hlt.
  - rewrite swap_middle. destruct (IH (y :: post) Hs) as (pre' & -> & Hp & Hs').
    exists (pre' ++ [y]). rewrite <- app_assoc. split; [done|]. split.
    + rewrite Hp. by rewrite app_comm_cons.
    + apply StronglySorted_app. split; [|split; [done | repeat constructor]].
      intros a b Ha ->%list_elem_of_singleton. rewrite Hp in Ha.
      apply elem_of_cons in Ha as [->|Ha]; [by apply ltb_le | apply Hle; set_solver].
  - exists (pre ++ [y; x]). rewrite <- app_assoc. split; [done|]. split.
    + rewrite (Permutation_app_comm pre [y; x]). cbn.
      rewrite (Permutation_app_comm pre [y]). cbn. apply perm_swap.
    + apply ltb_false_le in Hlt. apply StronglySorted_app. split; [|split; [done|]].
      * intros a b Ha [->| ->%list_elem_of_singleton]%elem_of_cons; [apply Hle; set_solver|].
        transitivity y; [apply Hle; set_solver | done].
      * repeat constructor. done.
Qed.

Lemma insertion_sort_spec l : insertion_sort key l ≡ₚ l /\ StronglySorted by_key (insertion_sort key l).
Proof.
  unfold insertion_sort. destruct l as [|a l]; [split; [done | constructor]|].
  cbn [length]. rewrite Nat.sub_succ, Nat.sub_0_r.
  assert (Hinv : forall k, (k <= length l)%nat -> exists pre post,
    foldl (fun l i => sift key i l) (a :: l) (seq 1 k) = pre ++ post /\
    length pre = S k /\ pre ++ post ≡ₚ a :: l /\ StronglySorted by_key pre).
  { induction k as [|k IH]; intros Hk.
    - exists [a], l. split; [done|]. split; [done|]. split; [done|]. repeat constructor.
    - destruct IH as (pre & post & Heq & Hlen & Hp & Hs); [lia|].
      destruct post as [|x post].
      { apply Permutation_length in Hp. rewrite app_nil_r in Hp. cbn in Hp. lia. }
      rewrite seq_S, foldl_snoc, Heq. cbn [Nat.add]. rewrite <- Hlen.
      destruct (sift_spec pre x post Hs) as (pre' & -> & Hp' & Hs').
      exists pre', post. split; [done|]. split; [by rewrite Hp'|]. split; [|done].
      rewrite Hp', <- Hp. cbn. apply Permutation_middle. }
  destruct (Hinv (length l)) as (pre & post & -> & Hlen & Hp & Hs); [lia|].
  assert (post = []) as ->.
  { apply Permutation_length in Hp. rewrite length_app in Hp. cbn in Hp.
    destruct post; [done | cbn in Hp; lia]. }
  rewrite app_nil_r in *. done.
Qed.

(** Two sorted lists of the same areas with distinct ids are equal. *)
Lemma by_key_unique l l' :
  NoDup (key <$> l) -> l ≡ₚ l' -> StronglySorted by_key l -> StronglySorted by_key l' -> l = l'.
Proof.
  intros Hnd Hp Hs Hs'. revert l' Hp Hs'. induction Hs as [|a l Hs IH Ha]; intros l' Hp Hs'.
  { by apply Permutation_nil_l in Hp. }
  destruct Hs' as [|b l' Hs' Hb]; [by apply Permutation_nil_r in Hp|].
  assert (a = b) as ->.
  { rewrite Forall_forall in Ha, Hb.
    assert (Hin : a ∈ b :: l') by (rewrite <- Hp; left).
    assert (Hin' : b ∈ a :: l) by (rewrite Hp; left).
    apply elem_of_cons in Hin as [|Hin]; [done|]. apply elem_of_cons in Hin' as [|Hin']; [done|].
    exfalso. apply NoDup_cons in Hnd as [Hni _]. apply Hni. apply list_elem_of_fmap. exists b.
    split; [|done]. apply (anti_symm String.le); [by apply Ha | by apply Hb]. }
  f_equal. apply NoDup_cons in Hnd as [_ Hnd]. apply IH; [done | by apply Permutation_cons_inv in Hp | done].
Qed.

End Correct.
