(* ===== verification/Heap.v ===== *)
(** * A binary heap

    What the sources use of Go's [container/heap]: [Push], and [Fix] at the root, on a
    slice whose [Less] compares an integer key. [Push_heap] and [Fix_heap]: both keep
    the heap order and the elements; [heap_root]: the root is a least element. *)

From S2P Require Import Prelude Sorting.

Section Heap.
Context {A : Type} (key : A -> Z).

Definition parent (j : nat) : nat := ((j - 1) / 2)%nat.

(** [up]; each turn at least halves [j]. *)
Fixpoint up (fuel j : nat) (h : list A) : list A :=
  match fuel with
  | O => h
  | S n =>
      let i := parent j in
      if (i =? j)%nat then h
      else match h !! j, h !! i with
           | Some x, Some y => if key x <? key y then up n i (swap i j h) else h
           | _, _ => h
           end
  end.

(** The lesser child of [i], the left one at [j1]. *)
Definition lesser_child (j1 : nat) (h : list A) : nat :=
  match h !! S j1, h !! j1 with
  | Some b, Some a => if key b <? key a then S j1 else j1
  | _, _ => j1
  end.

(** [down] to the end of the slice. *)
Fixpoint down (fuel i : nat) (h : list A) : list A :=
  match fuel with
  | O => h
  | S n =>
      let j := lesser_child (2 * i + 1) h in
      match h !! j, h !! i with
      | Some x, Some y => if key x <? key y then down n j (swap i j h) else h
      | _, _ => h
      end
  end.

Definition Push (x : A) (h : list A) : list A := up (S (length h)) (length h) (h ++ [x]).

(** [Fix(h, 0)]: [up] does nothing at the root. *)
Definition Fix_root (h : list A) : list A := down (length h) 0 h.

(** ** The heap order *)

Definition le_at (h : list A) (i j : nat) : Prop := forall x y, h !! i = Some x -> h !! j = Some y -> key x <= key y.
Definition heap (h : list A) : Prop := forall j, (0 < j)%nat -> le_at h (parent j) j.

Lemma parent_lt j : (0 < j)%nat -> (parent j < j)%nat.
Proof. intros Hj. unfold parent. apply Nat.Div0.div_lt_upper_bound. lia. Qed.

Lemma parent_child j i : (0 < j)%nat -> parent j = i -> j = (2 * i + 1)%nat \/ j = (2 * i + 2)%nat.
Proof. unfold parent. intros Hj <-. pose proof (Nat.div_mod_eq (j - 1) 2). pose proof (Nat.mod_upper_bound (j - 1) 2). lia. Qed.
Lemma parent_left i : parent (2 * i + 1) = i.
Proof. unfold parent. replace (2 * i + 1 - 1)%nat with (i * 2)%nat by lia. apply Nat.div_mul. lia. Qed.
Lemma parent_right i : parent (S (2 * i + 1)) = i.
Proof. unfold parent. replace (S (2 * i + 1) - 1)%nat with (1 + i * 2)%nat by lia. rewrite Nat.div_add by lia. done. Qed.

(** The root is a least element. *)
Lemma heap_root h r j x : heap h -> h !! 0%nat = Some r -> h !! j = Some x -> key r <= key x.
Proof.
  intros Hh Hr. revert x. induction j as [j IH] using lt_wf_ind. intros x Hx. destruct (decide (j = 0%nat)) as [->|Hj].
  - replace x with r by congruence. lia.
  - assert (Hp : (parent j < j)%nat) by (apply parent_lt; lia). assert (Hl : (j < length h)%nat) by (by eapply lookup_lt_Some).
    destruct (lookup_lt_is_Some_2 h (parent j)) as [y Hy]; [lia|]. pose proof (IH _ Hp y Hy). pose proof (Hh j ltac:(lia) y x Hy Hx). lia.
Qed.

Lemma swap_lookup i j (h : list A) x y k :
  i <> j -> h !! i = Some x -> h !! j = Some y ->
  swap i j h !! k = if decide (k = i) then Some y else if decide (k = j) then Some x else h !! k.
Proof.
  intros Hij Hx Hy. unfold swap. rewrite Hx, Hy. assert (Hi : (i < length h)%nat) by (by eapply lookup_lt_Some).
  assert (Hj : (j < length h)%nat) by (by eapply lookup_lt_Some). destruct (decide (k = i)) as [->|].
  - rewrite list_lookup_insert_eq; [done|by rewrite length_insert].
  - rewrite list_lookup_insert_ne by done. destruct (decide (k = j)) as [->|]; [by rewrite list_lookup_insert_eq|by rewrite list_lookup_insert_ne].
Qed.

Lemma swap_perm i j (h : list A) : (i < j)%nat -> swap i j h ≡ₚ h.
Proof.
  intros Hij. unfold swap. destruct (h !! i) as [x|] eqn:Hx; [|done]. destruct (h !! j) as [y|] eqn:Hy; [|done].
  apply list_elem_of_split_length in Hx as (l1 & t & -> & ->). rewrite lookup_app_r in Hy by lia.
  destruct (j - length l1)%nat as [|k] eqn:Hk; [lia|]. cbn [lookup list_lookup] in Hy.
  apply list_elem_of_split_length in Hy as (l2 & l3 & -> & ->). replace j with (length l1 + S (length l2))%nat by lia.
  rewrite (insert_app_r_alt l1) by lia. replace (length l1 + S (length l2) - length l1)%nat with (S (length l2)) by lia.
  cbn [insert list_insert]. change (list_insert (length l2) x (l2 ++ y :: l3)) with (<[length l2 := x]> (l2 ++ y :: l3)).
  rewrite (insert_app_r_alt l2), Nat.sub_diag by lia. cbn [insert list_insert].
  change (list_insert (length l1) y) with (insert (M := list A) (length l1) y). rewrite (insert_app_r_alt l1), Nat.sub_diag by lia. cbn [insert list_insert].
  apply Permutation_app_head. rewrite <- !Permutation_middle. constructor.
Qed.

(** ** [up] *)

(** Ordered but for the edge above [j]. *)
Definition heap_up (h : list A) (j : nat) : Prop :=
  (forall k, (0 < k)%nat -> k <> j -> le_at h (parent k) k) /\
  ((0 < j)%nat -> forall k, (0 < k)%nat -> parent k = j -> le_at h (parent j) k).

Lemma up_perm fuel j h : up fuel j h ≡ₚ h.
Proof.
  revert j h. induction fuel as [|n IH]; intros j h; [done|]. cbn [up]. destruct (Nat.eqb_spec (parent j) j) as [|Hne]; [done|].
  destruct (h !! j) as [x|]; [|done]. destruct (h !! parent j) as [y|]; [|done]. destruct (key x <? key y); [|done].
  rewrite IH. apply swap_perm. destruct (Nat.eq_0_gt_0_cases j) as [->|Hj]; [done|by apply parent_lt].
Qed.

Lemma up_heap fuel j h : (j < fuel)%nat -> heap_up h j -> heap (up fuel j h).
Proof.
  revert j h. induction fuel as [|n IH]; intros j h Hf [H1 H2]; [lia|]. cbn [up]. destruct (Nat.eqb_spec (parent j) j) as [He|Hne].
  { intros k Hk. apply H1; [done|]. intros ->. apply parent_lt in Hk. lia. }
  assert (Hj : (0 < j)%nat) by (destruct j; [done|lia]). pose proof (parent_lt j Hj) as Hp.
  assert (Hdone : (forall x y, h !! j = Some x -> h !! parent j = Some y -> key y <= key x) -> heap h).
  { intros Hle k Hk. destruct (decide (k = j)) as [->|]; [intros a b Ha Hb; by apply (Hle b a)|by apply H1]. }
  destruct (h !! j) as [x|] eqn:Hx; [|by apply Hdone]. destruct (h !! parent j) as [y|] eqn:Hy; [|by apply Hdone].
  destruct (key x <? key y) eqn:Hlt; [|apply Hdone; intros ? ? [= <-] [= <-]; lia]. apply IH; [lia|]. clear Hdone.
  assert (Hsw : forall k, swap (parent j) j h !! k = if decide (k = parent j) then Some x else if decide (k = j) then Some y else h !! k)
    by (intros k; apply swap_lookup; [lia|done|done]). split.
  - intros k Hk Hki a b. rewrite !Hsw. rewrite (decide_False (P := k = parent j)) by done.
    destruct (decide (k = j)) as [->|Hkj].
    + rewrite decide_True by done. intros [= <-] [= <-]. lia.
    + destruct (decide (parent k = parent j)) as [Hpk|Hpk].
      * intros [= <-] Hb. pose proof (H1 k Hk Hkj y b ltac:(by rewrite Hpk) Hb). lia.
      * destruct (decide (parent k = j)) as [Hpj|]; [|by apply H1].
        intros [= <-] Hb. by apply (H2 Hj k Hk Hpj y b).
  - intros Hi k Hk Hpk a b. rewrite !Hsw. pose proof (parent_lt _ Hi) as Hpp.
    rewrite (decide_False (P := parent (parent j) = parent j)), (decide_False (P := parent (parent j) = j)) by lia.
    pose proof (parent_lt k Hk). rewrite (decide_False (P := k = parent j)) by lia. intros Ha.
    pose proof (H1 (parent j) Hi ltac:(lia) a y Ha Hy) as Hay. destruct (decide (k = j)) as [->|Hkj].
    + by intros [= <-].
    + intros Hb. pose proof (H1 k Hk Hkj y b ltac:(by rewrite Hpk) Hb). lia.
Qed.

Lemma Push_perm x h : Push x h ≡ₚ x :: h.
Proof. unfold Push. rewrite up_perm. by rewrite Permutation_app_comm. Qed.

Lemma Push_heap x h : heap h -> heap (Push x h).
Proof.
  intros Hh. apply up_heap; [lia|]. split.
  - intros k Hk Hne a b Ha Hb. assert (Hl : (k < length h)%nat).
    { apply lookup_lt_Some in Hb. rewrite length_app in Hb. cbn in Hb. lia. }
    pose proof (parent_lt k Hk). rewrite lookup_app_l in Ha, Hb by lia. by apply (Hh k Hk a b).
  - intros _ k Hk Hp a b _ Hb. apply lookup_lt_Some in Hb. rewrite length_app in Hb. cbn in Hb. pose proof (parent_lt k Hk). lia.
Qed.

(** ** [down] *)

(** Ordered but for the edges below [i]. *)
Definition heap_down (h : list A) (i : nat) : Prop :=
  (forall k, (0 < k)%nat -> parent k <> i -> le_at h (parent k) k) /\
  ((0 < i)%nat -> forall k, (0 < k)%nat -> parent k = i -> le_at h (parent i) k).

Lemma lesser_child_cases i h : lesser_child (2 * i + 1) h = (2 * i + 1)%nat \/ lesser_child (2 * i + 1) h = S (2 * i + 1).
Proof. unfold lesser_child. repeat case_match; auto. Qed.

Lemma lesser_child_parent i h : parent (lesser_child (2 * i + 1) h) = i /\ (i < lesser_child (2 * i + 1) h)%nat.
Proof. destruct (lesser_child_cases i h) as [->| ->]; [rewrite parent_left|rewrite parent_right]; lia. Qed.

(** It is the least of the children. *)
Lemma lesser_child_least i h k x b :
  (0 < k)%nat -> parent k = i -> h !! lesser_child (2 * i + 1) h = Some x -> h !! k = Some b -> key x <= key b.
Proof.
  intros Hk Hp Hx Hb. pose proof (parent_child k i Hk Hp) as Hkc. unfold lesser_child in Hx.
  destruct (h !! S (2 * i + 1)) as [r|] eqn:Hr.
  - destruct (h !! (2 * i + 1)%nat) as [l|] eqn:Hl.
    + destruct (key r <? key l) eqn:Hlt; (destruct Hkc as [->| ->]; [|replace (2 * i + 2)%nat with (S (2 * i + 1)) in Hb by lia]); simplify_eq; try lia;
        rewrite ?Hl, ?Hr in *; simplify_eq; lia.
    + apply lookup_lt_Some in Hr. apply lookup_ge_None in Hl. lia.
  - assert (k = (2 * i + 1)%nat) as ->; [|rewrite Hb in Hx; simplify_eq; lia]. destruct Hkc as [->| ->]; [done|].
    replace (2 * i + 2)%nat with (S (2 * i + 1)) in Hb by lia. congruence.
Qed.

Lemma lesser_child_None i h : h !! lesser_child (2 * i + 1) h = None -> forall k, (0 < k)%nat -> parent k = i -> h !! k = None.
Proof.
  intros Hn k Hk Hp. destruct (h !! k) as [b|] eqn:Hb; [|done]. exfalso. unfold lesser_child in Hn.
  assert (Hl : (2 * i + 1 < length h)%nat) by (apply lookup_lt_Some in Hb; destruct (parent_child k i Hk Hp); lia).
  apply lookup_lt_is_Some in Hl as [l Hl]. rewrite Hl in Hn. destruct (h !! S (2 * i + 1)) as [r|] eqn:Hr; [|congruence].
  destruct (key r <? key l); congruence.
Qed.

Lemma down_perm fuel i h : down fuel i h ≡ₚ h.
Proof.
  revert i h. induction fuel as [|n IH]; intros i h; [done|]. cbn [down]. destruct (lesser_child_parent i h) as [_ Hlt].
  destruct (h !! lesser_child _ h) as [x|]; [|done]. destruct (h !! i) as [y|]; [|done]. destruct (key x <? key y); [|done].
  rewrite IH. by apply swap_perm.
Qed.

Lemma down_heap fuel i h : (length h <= fuel + i)%nat -> heap_down h i -> heap (down fuel i h).
Proof.
  revert i h. induction fuel as [|n IH]; intros i h Hf [H1 H2].
  { cbn [down]. intros k Hk a b Ha Hb. apply H1 with k; try done. intros Hp. apply lookup_lt_Some in Ha. lia. }
  cbn [down]. destruct (lesser_child_parent i h) as [Hpj Hij]. set (j := lesser_child (2 * i + 1) h) in *.
  assert (Hdone : (forall k, (0 < k)%nat -> parent k = i -> le_at h i k) -> heap h).
  { intros Hle k Hk. destruct (decide (parent k = i)) as [Hp|]; [rewrite Hp; by apply Hle|by apply H1]. }
  destruct (h !! j) as [x|] eqn:Hx.
  2: { apply Hdone. intros k Hk Hp a b _ Hb. by rewrite (lesser_child_None i h Hx k Hk Hp) in Hb. }
  destruct (h !! i) as [y|] eqn:Hy; [|apply Hdone; intros k Hk Hp a b Ha; congruence].
  destruct (key x <? key y) eqn:Hlt.
  2: { apply Hdone. intros k Hk Hp a b Ha Hb. pose proof (lesser_child_least i h k x b Hk Hp Hx Hb). simplify_eq. lia. }
  apply IH.
  { assert (Hlen : length (swap i j h) = length h) by (by rewrite (Permutation_length (swap_perm i j h Hij))). rewrite Hlen. lia. }
  assert (Hsw : forall k, swap i j h !! k = if decide (k = i) then Some x else if decide (k = j) then Some y else h !! k)
    by (intros k; apply swap_lookup; [lia|done|done]). split.
  - intros k Hk Hpk a b. rewrite !Hsw. pose proof (parent_lt k Hk) as Hkp. destruct (decide (parent k = i)) as [Hpi|Hpi].
    + intros [= <-]. rewrite (decide_False (P := k = i)) by lia. destruct (decide (k = j)) as [->|Hkj]; [intros [= <-]; lia|].
      intros Hb. by apply (lesser_child_least i h k).
    + rewrite (decide_False (P := parent k = j)) by done. assert (k <> j) by (intros ->; by rewrite Hpj in Hpi). intros Ha.
      destruct (decide (k = i)) as [->|Hki]; [|rewrite decide_False by done; intros Hb; by apply (H1 k)].
      intros [= <-]. by apply (H2 Hk j ltac:(lia) Hpj a x).
  - intros Hj k Hk Hpk a b. rewrite !Hsw, Hpj. rewrite decide_True by done. pose proof (parent_lt k Hk).
    rewrite (decide_False (P := k = i)), (decide_False (P := k = j)) by lia. intros [= <-] Hb. by apply (H1 k Hk ltac:(lia) x b); rewrite ?Hpk.
Qed.

Lemma Fix_perm h : Fix_root h ≡ₚ h.
Proof. apply down_perm. Qed.

(** After a change of the root's key. *)
Lemma Fix_heap e r h : heap (r :: h) -> heap (Fix_root (e :: h)).
Proof.
  intros Hh. apply down_heap; [lia|]. split; [|lia]. intros k Hk Hp a b Ha Hb. apply (Hh k Hk a b).
  - by destruct (parent k).
  - by destruct k.
Qed.

End Heap.
