(* ===== verification/Codec.v ===== *)
(** * Text encodings

    What the credential stores use of Go's standard library: [encoding/base32],
    [encoding/base64], [encoding/hex], [strings.SplitN], [strings.IndexByte],
    [strconv.ParseInt] and the verb [%d], printed and scanned. A byte slice is a
    [string].

    An encoding is a record; [decode_encode] is proved once for every record
    that satisfies the class [EncodingOk], and the four encodings are its
    instances. *)

From Stdlib Require Import Ascii String.
From S2P Require Import Prelude.

(** ** Bits *)

Definition byte_bits (c : ascii) : list bool :=
  match c with Ascii b0 b1 b2 b3 b4 b5 b6 b7 => [b7; b6; b5; b4; b3; b2; b1; b0] end.

Fixpoint string_bits (s : string) : list bool :=
  match s with
  | EmptyString => []
  | String c s' => byte_bits c ++ string_bits s'
  end.

Fixpoint bits_string (l : list bool) : string :=
  match l with
  | b7 :: b6 :: b5 :: b4 :: b3 :: b2 :: b1 :: b0 :: rest =>
      String (Ascii b0 b1 b2 b3 b4 b5 b6 b7) (bits_string rest)
  | _ => EmptyString
  end.

Definition bits_nat (l : list bool) : nat :=
  foldl (fun n (b : bool) => (2 * n + if b then 1 else 0)%nat) 0%nat l.

Fixpoint nat_bits (k n : nat) : list bool :=
  match k with
  | O => []
  | S k' => nat_bits k' (n / 2) ++ [Nat.odd n]
  end.

(** Groups of [k] bits, the last one filled up with zeros. *)
Fixpoint groups (k fuel : nat) (l : list bool) : list (list bool) :=
  match fuel, l with
  | S fuel', _ :: _ => (take k l ++ replicate (k - length l) false) :: groups k fuel' (drop k l)
  | _, _ => []
  end.

(** ** Encodings *)

(** [e_pre] is what decoding does to its input first; [e_bytes] is the number
    of bytes that a number of characters stands for, if any. *)
Record Encoding := mkEncoding {
  e_bits : nat;
  e_alphabet : list ascii;
  e_pre : list ascii -> list ascii;
  e_bytes : nat -> option nat;
}.

Definition encode_group (enc : Encoding) (g : list bool) : ascii :=
  nth (bits_nat g) (e_alphabet enc) zero.

Definition encode (enc : Encoding) (s : string) : string :=
  let l := string_bits s in
  string_of_list_ascii (encode_group enc <$> groups (e_bits enc) (length l) l).

Definition decode_char (enc : Encoding) (c : ascii) : option (list bool) :=
  (fun p : nat * ascii => nat_bits (e_bits enc) p.1) <$> list_find (eq c) (e_alphabet enc).

Definition decode (enc : Encoding) (s : string) : option string :=
  let cs := e_pre enc (list_ascii_of_string s) in
  bits ← mapM (decode_char enc) cs;
  n ← e_bytes enc (length cs);
  Some (bits_string (take (8 * n) (concat bits))).

(** [stripNewlines]. *)
Definition strip_newlines (l : list ascii) : list ascii :=
  filter (fun c => c <> "010"%char /\ c <> "013"%char) l.

(** [base32.StdEncoding.WithPadding(base32.NoPadding)]: the last group of eight
    characters may have 2, 4, 5 or 7; with 1, 3 or 6 it yields nothing. *)
Definition base32 : Encoding :=
  mkEncoding 5 (list_ascii_of_string "ABCDEFGHIJKLMNOPQRSTUVWXYZ234567") strip_newlines
    (fun m => Some (5 * (m / 8) + nth (m mod 8) [0; 0; 1; 0; 2; 3; 0; 4] 0)%nat).

Definition base64_bytes (m : nat) : option nat :=
  match (m mod 4)%nat with
  | 1%nat => None
  | r => Some (3 * (m / 4) + (r - 1))%nat
  end.

(** [base64.RawURLEncoding] and [base64.RawStdEncoding]. *)
Definition base64_url : Encoding :=
  mkEncoding 6
    (list_ascii_of_string "ABCDEFGHIJKLMNOPQRSTUVWXYZabcdefghijklmnopqrstuvwxyz0123456789-_")
    strip_newlines base64_bytes.
Definition base64_std : Encoding :=
  mkEncoding 6
    (list_ascii_of_string "ABCDEFGHIJKLMNOPQRSTUVWXYZabcdefghijklmnopqrstuvwxyz0123456789+/")
    strip_newlines base64_bytes.

(** [base64.StdEncoding]: filled up with [=] to a multiple of four. *)
Definition encode_padded (s : string) : string :=
  let r := encode base64_std s in
  r +:+ match (String.length r mod 4)%nat with 2%nat => "==" | 3%nat => "=" | _ => "" end.

(** At most two fill characters are taken off the end. *)
Definition strip_fill (l : list ascii) : list ascii :=
  match reverse l with
  | a :: b :: rest => if Ascii.eqb a "=" then if Ascii.eqb b "=" then reverse rest else reverse (b :: rest) else l
  | _ => l
  end.

Definition decode_padded (s : string) : option string :=
  let cs := strip_newlines (list_ascii_of_string s) in
  if (length cs mod 4 =? 0)%nat then decode base64_std (string_of_list_ascii (strip_fill cs)) else None.

Definition hex_lower (c : ascii) : ascii :=
  let n := N_of_ascii c in if ((65 <=? n) && (n <=? 70))%N then ascii_of_N (n + 32) else c.

(** [hex.EncodeToString] and [hex.DecodeString]. *)
Definition hex : Encoding :=
  mkEncoding 4 (list_ascii_of_string "0123456789abcdef") (fmap hex_lower)
    (fun m => if Nat.even m then Some (Nat.div2 m) else None).

(** What makes an encoding decodable. *)
Class EncodingOk (enc : Encoding) : Prop := {
  eo_pos : (0 < e_bits enc)%nat;
  eo_length : length (e_alphabet enc) = (2 ^ e_bits enc)%nat;
  eo_nodup : NoDup (e_alphabet enc);
  eo_pre : forall l, Forall (fun c => c ∈ e_alphabet enc) l -> e_pre enc l = l;
  eo_bytes : forall n, e_bytes enc ((8 * n + (e_bits enc - 1)) / e_bits enc) = Some n;
}.

(** ** Strings *)

(** The parts before and after the first [c]. *)
Fixpoint cut (c : ascii) (s : string) : option (string * string) :=
  match s with
  | EmptyString => None
  | String d s' =>
      if Ascii.eqb d c then Some (EmptyString, s')
      else match cut c s' with
           | Some (a, b) => Some (String d a, b)
           | None => None
           end
  end.

(** [strings.SplitN] with a one-byte separator and a positive [n]. *)
Fixpoint SplitN (c : ascii) (n : nat) (s : string) : list string :=
  match n with
  | O => []
  | S O => [s]
  | S n' => match cut c s with
            | Some (a, b) => a :: SplitN c n' b
            | None => [s]
            end
  end.

(** [strings.Split]. *)
Definition Split (c : ascii) (s : string) : list string := SplitN c (S (String.length s)) s.

Definition lacks (c : ascii) (s : string) : Prop := c ∉ list_ascii_of_string s.

(** Decimal digits to the end of the string. *)
Fixpoint parse_digits (s : string) (acc : Z) : option Z :=
  match s with
  | EmptyString => Some acc
  | String c s' =>
      let n := Z.of_N (N_of_ascii c) in
      if (48 <=? n) && (n <=? 57) then parse_digits s' (acc * 10 + (n - 48)) else None
  end.

(** [strconv.ParseInt(s, 10, 64)] and [strconv.Atoi]. *)
Definition ParseInt (s : string) : option Z :=
  let '(sign, digits) :=
    match s with
    | String c s' => if Ascii.eqb c "-" then (-1, s') else if Ascii.eqb c "+" then (1, s') else (1, s)
    | EmptyString => (1, s)
    end in
  match digits with
  | EmptyString => None
  | _ => n ← parse_digits digits 0;
         let v := sign * n in
         if (- 2 ^ 63 <=? v) && (v <? 2 ^ 63) then Some v else None
  end.

(** ** Scanning *)

Definition is_space (c : ascii) : bool :=
  let n := N_of_ascii c in (N.eqb n 32 || (N.leb 9 n && N.leb n 13))%N.

(** [SkipSpace] of [fmt.Sscanf] on ASCII input: a newline is an error. *)
Fixpoint skip_space (s : string) : option string :=
  match s with
  | EmptyString => Some EmptyString
  | String c s' =>
      if (N_of_ascii c =? 10)%N then None
      else if is_space c then skip_space s' else Some s
  end.

Definition digit_of (c : ascii) : option Z :=
  let n := Z.of_N (N_of_ascii c) in
  if (48 <=? n) && (n <=? 57) then Some (n - 48) else None.

(** The longest run of digits, as a number. *)
Fixpoint take_digits (s : string) (acc : Z) : Z * string :=
  match s with
  | EmptyString => (acc, s)
  | String c s' => match digit_of c with
                   | Some d => take_digits s' (acc * 10 + d)
                   | None => (acc, s)
                   end
  end.

(** The verb [%d]: spaces, a sign, digits; out of the range of an int64 is an
    error. *)
Definition scan_int (s : string) : option (Z * string) :=
  s1 ← skip_space s;
  let '(sign, s2) := match s1 with
                     | String c s' => if (N_of_ascii c =? 45)%N then (-1, s')
                                      else if (N_of_ascii c =? 43)%N then (1, s') else (1, s1)
                     | EmptyString => (1, s1)
                     end in
  match s2 with
  | EmptyString => None
  | String c _ =>
      match digit_of c with
      | None => None
      | Some _ =>
          let '(n, rest) := take_digits s2 0 in
          let v := sign * n in
          if (- 2 ^ 63 <=? v) && (v <? 2 ^ 63) then Some (v, rest) else None
      end
  end.

(** ** Lemmas on bits *)

Lemma length_byte_bits c : length (byte_bits c) = 8%nat.
Proof. by destruct c. Qed.

Lemma length_string_bits s : length (string_bits s) = (8 * String.length s)%nat.
Proof. induction s as [|c s IH]; [done|]. cbn [string_bits]. rewrite length_app, length_byte_bits, IH. cbn; lia. Qed.

Lemma bits_string_bits s : bits_string (string_bits s) = s.
Proof. induction s as [|[] s IH]; [done|]. cbn. by rewrite IH. Qed.

Lemma bits_nat_app l b : bits_nat (l ++ [b]) = (2 * bits_nat l + if b then 1 else 0)%nat.
Proof. unfold bits_nat. by rewrite foldl_app. Qed.

Lemma bits_nat_lt l : (bits_nat l < 2 ^ length l)%nat.
Proof.
  induction l as [|b l IH] using rev_ind; [cbn; lia|].
  rewrite bits_nat_app, length_app, (Nat.add_comm (length l)). cbn [length Nat.add].
  rewrite Nat.pow_succ_r'. destruct b; lia.
Qed.

Lemma nat_bits_nat l : nat_bits (length l) (bits_nat l) = l.
Proof.
  induction l as [|b l IH] using rev_ind; [done|].
  rewrite length_app, (Nat.add_comm (length l)), bits_nat_app. cbn [length Nat.add nat_bits].
  replace ((2 * bits_nat l + (if b then 1 else 0)) / 2)%nat with (bits_nat l)
    by (destruct b; [apply (Nat.div_unique _ 2 _ 1) | apply (Nat.div_unique _ 2 _ 0)]; lia).
  rewrite IH. do 2 f_equal. rewrite Nat.add_comm, Nat.odd_add_mul_2. by destruct b.
Qed.

Lemma groups_spec k fuel l :
  (0 < k)%nat -> (length l <= fuel)%nat ->
  Forall (fun g => length g = k) (groups k fuel l) /\
  length (groups k fuel l) = ((length l + (k - 1)) / k)%nat /\
  exists z, concat (groups k fuel l) = l ++ z.
Proof.
  intros Hk. revert l. induction fuel as [|fuel IH]; intros l Hl.
  - destruct l; [|cbn in Hl; lia]. split; [constructor|]. split; [|by exists []].
    cbn. rewrite Nat.div_small; lia.
  - destruct l as [|b l'].
    { split; [constructor|]. split; [|by exists []]. cbn. rewrite Nat.div_small; lia. }
    set (l := b :: l') in *. change (groups k (S fuel) l)
      with ((take k l ++ replicate (k - length l) false) :: groups k fuel (drop k l)).
    assert (0 < length l)%nat by (cbn; lia).
    destruct (IH (drop k l)) as (HF & HL & z & Hz); [rewrite length_drop; lia|].
    split; [constructor; [rewrite length_app, length_take, length_replicate; lia | done]|].
    split.
    + cbn [length]. rewrite HL, length_drop. destruct (decide (k <= length l)%nat) as [Hc|Hc].
      * replace (length l + (k - 1))%nat with ((length l - k + (k - 1)) + 1 * k)%nat by lia.
        rewrite Nat.div_add; lia.
      * replace (length l - k)%nat with 0%nat by lia.
        rewrite (Nat.div_small (0 + (k - 1)) k) by lia.
        apply (Nat.div_unique _ k 1 (length l - 1)); lia.
    + cbn [concat]. rewrite Hz. destruct (decide (k <= length l)%nat) as [Hc|Hc].
      * exists z. replace (k - length l)%nat with 0%nat by lia. cbn [replicate].
        rewrite app_nil_r, app_assoc, take_drop. done.
      * exists (replicate (k - length l) false ++ z).
        rewrite take_ge, drop_ge by lia. rewrite <- app_assoc. done.
Qed.

(** ** Decoding undoes encoding *)

Section Codec.
Context (enc : Encoding) `{!EncodingOk enc}.

Lemma encode_group_lookup g :
  length g = e_bits enc -> e_alphabet enc !! bits_nat g = Some (encode_group enc g).
Proof.
  intros Hg. pose proof (bits_nat_lt g) as Hlt. rewrite Hg in Hlt.
  unfold encode_group. destruct (lookup_lt_is_Some_2 (e_alphabet enc) (bits_nat g)) as [c Hc].
  { rewrite eo_length. done. }
  rewrite Hc. f_equal. symmetry. apply nth_lookup_Some with (d := zero) in Hc. done.
Qed.

Lemma decode_encode_group g :
  length g = e_bits enc -> decode_char enc (encode_group enc g) = Some g.
Proof.
  intros Hg. pose proof (encode_group_lookup g Hg) as Hl. unfold decode_char.
  assert (list_find (eq (encode_group enc g)) (e_alphabet enc) = Some (bits_nat g, encode_group enc g)) as ->.
  { apply list_find_Some. split_and!; [done|done|]. intros j y Hj Hjb Hy. subst y.
    pose proof (NoDup_lookup _ _ _ _ eo_nodup Hj Hl). lia. }
  cbn. rewrite <- Hg at 1. by rewrite nat_bits_nat.
Qed.

Lemma encode_alphabet s : Forall (fun c => c ∈ e_alphabet enc) (list_ascii_of_string (encode enc s)).
Proof.
  unfold encode. rewrite list_ascii_of_string_of_list_ascii.
  destruct (groups_spec (e_bits enc) _ (string_bits s) eo_pos (Nat.le_refl _)) as (HF & _).
  apply Forall_fmap. eapply Forall_impl; [exact HF|]. intros g Hg. cbn.
  by eapply list_elem_of_lookup_2, encode_group_lookup.
Qed.

Lemma encode_lacks c s : c ∉ e_alphabet enc -> lacks c (encode enc s).
Proof.
  intros Hc Hin. pose proof (encode_alphabet s) as HF. rewrite Forall_forall in HF. by apply Hc, HF.
Qed.

Lemma decode_encode s : decode enc (encode enc s) = Some s.
Proof.
  unfold decode. rewrite eo_pre by apply encode_alphabet.
  unfold encode. rewrite list_ascii_of_string_of_list_ascii.
  destruct (groups_spec (e_bits enc) _ (string_bits s) eo_pos (Nat.le_refl _)) as (HF & HL & z & Hz).
  set (gs := groups _ _ _) in *.
  assert (mapM (decode_char enc) (encode_group enc <$> gs) = Some gs) as ->.
  { apply mapM_Some_2, Forall2_fmap_l, Forall_Forall2_diag. eapply Forall_impl; [exact HF|].
    apply decode_encode_group. }
  cbn [mbind option_bind]. rewrite length_fmap, HL, length_string_bits, eo_bytes.
  cbn [mbind option_bind]. rewrite Hz, take_app_length', bits_string_bits; [done|].
  symmetry; apply length_string_bits.
Qed.

End Codec.

Lemma strip_newlines_id (alph l : list ascii) :
  "010"%char ∉ alph -> "013"%char ∉ alph -> Forall (fun c => c ∈ alph) l -> strip_newlines l = l.
Proof.
  intros H1 H2 HF. apply list_filter_all. intros c Hc.
  rewrite Forall_forall in HF. specialize (HF c Hc). split; intros ->; done.
Qed.

(** Settles a decidable closed goal by evaluation. *)
Ltac by_decision := refine (bool_decide_unpack _ _); vm_compute; exact I.

#[export] Instance base32_ok : EncodingOk base32.
Proof.
  split; [cbn; lia | done | by_decision | |].
  - intros l. apply strip_newlines_id; by_decision.
  - intros n. cbn [e_bytes e_bits base32]. f_equal.
    rewrite (Nat.div_mod_eq n 5) at 1 2 3.
    pose proof (Nat.mod_upper_bound n 5). set (q := (n / 5)%nat) in *. set (r := (n mod 5)%nat) in *.
    replace (8 * (5 * q + r) + (5 - 1))%nat with ((8 * r + 4) + (8 * q) * 5)%nat by lia.
    rewrite Nat.div_add by lia.
    replace ((8 * r + 4) / 5 + 8 * q)%nat with ((8 * r + 4) / 5 + q * 8)%nat by lia.
    rewrite Nat.div_add, Nat.Div0.mod_add by lia.
    pose proof (Nat.div_mod_eq n 5). fold q r in H0.
    do 5 (destruct r as [|r]; [cbn; lia|]). lia.
Qed.

Lemma base64_bytes_ok n : base64_bytes ((8 * n + (6 - 1)) / 6) = Some n.
Proof.
  pose proof (Nat.div_mod_eq n 3) as Hn. pose proof (Nat.mod_upper_bound n 3) as Hr.
  set (q := (n / 3)%nat) in *. set (r := (n mod 3)%nat) in *. rewrite Hn.
  replace (8 * (3 * q + r) + (6 - 1))%nat with ((8 * r + 5) + (4 * q) * 6)%nat by lia.
  rewrite Nat.div_add by lia.
  replace ((8 * r + 5) / 6 + 4 * q)%nat with ((8 * r + 5) / 6 + q * 4)%nat by lia.
  unfold base64_bytes. rewrite Nat.div_add, Nat.Div0.mod_add by lia.
  do 3 (destruct r as [|r]; [cbn; f_equal; lia|]). lia.
Qed.

#[export] Instance base64_url_ok : EncodingOk base64_url.
Proof.
  split; [cbn; lia | done | by_decision | | apply base64_bytes_ok].
  intros l. apply strip_newlines_id; by_decision.
Qed.

#[export] Instance base64_std_ok : EncodingOk base64_std.
Proof.
  split; [cbn; lia | done | by_decision | | apply base64_bytes_ok].
  intros l. apply strip_newlines_id; by_decision.
Qed.

#[export] Instance hex_ok : EncodingOk hex.
Proof.
  split; [cbn; lia | done | by_decision | |].
  - intros l HF. cbn [e_pre hex]. induction HF as [|c l Hc HF IH]; [done|]. rewrite fmap_cons, IH. f_equal.
    revert Hc. assert (Forall (fun c => hex_lower c = c) (e_alphabet hex)) as HH by by_decision.
    rewrite Forall_forall in HH. apply HH.
  - intros n. cbn [e_bytes e_bits hex].
    replace ((8 * n + (4 - 1)) / 4)%nat with (2 * n)%nat by (apply (Nat.div_unique _ 4 _ 3); lia).
    rewrite Nat.even_even, Nat.div2_double. done.
Qed.

(** ** The filled-up encoding *)

Lemma list_ascii_of_string_app s u :
  list_ascii_of_string (s +:+ u) = list_ascii_of_string s ++ list_ascii_of_string u.
Proof. induction s as [|c s IH]; [done|]. rewrite str_app_cons. cbn [list_ascii_of_string app]. by rewrite IH. Qed.

Lemma length_list_ascii s : length (list_ascii_of_string s) = String.length s.
Proof. induction s as [|c s IH]; [done|]. cbn. by rewrite IH. Qed.

Lemma length_encode enc `{!EncodingOk enc} s :
  String.length (encode enc s) = ((8 * String.length s + (e_bits enc - 1)) / e_bits enc)%nat.
Proof.
  unfold encode. rewrite <- length_list_ascii, list_ascii_of_string_of_list_ascii, length_fmap.
  destruct (groups_spec (e_bits enc) _ (string_bits s) eo_pos (Nat.le_refl _)) as (_ & -> & _).
  by rewrite length_string_bits.
Qed.

(** The length of an encoded text is never 1 modulo 4. *)
Lemma base64_length_mod s : (String.length (encode base64_std s) mod 4)%nat <> 1%nat.
Proof.
  intros H. pose proof (base64_bytes_ok (String.length s)) as Hb.
  rewrite length_encode in H by apply _. cbn [e_bits base64_std] in H. unfold base64_bytes in Hb. by rewrite H in Hb.
Qed.

Lemma strip_fill_app l k :
  (k = 1 \/ k = 2)%nat -> l <> [] -> Forall (fun c => c <> "="%char) l ->
  strip_fill (l ++ replicate k "="%char) = l.
Proof.
  intros Hk Hne HF. destruct l as [|c l _] using rev_ind; [done|]. apply Forall_app in HF as [_ Hc].
  rewrite Forall_singleton in Hc. apply Ascii.eqb_neq in Hc. unfold strip_fill.
  destruct Hk as [-> | ->]; rewrite reverse_app; cbn [replicate].
  - change (reverse ["="%char]) with ["="%char]. rewrite reverse_snoc. cbn [app].
    rewrite Ascii.eqb_refl, Hc, reverse_cons, reverse_involutive. done.
  - change (reverse ["="%char; "="%char]) with ["="%char; "="%char]. cbn [app].
    rewrite Ascii.eqb_refl, reverse_involutive. done.
Qed.

Lemma strip_fill_none l : Forall (fun c => c <> "="%char) l -> strip_fill l = l.
Proof.
  intros HF. unfold strip_fill. destruct (reverse l) as [|a [|b rest]] eqn:Hr; try done.
  assert (a <> "="%char) as Ha%Ascii.eqb_neq.
  { rewrite Forall_forall in HF. apply HF. apply elem_of_reverse. rewrite Hr. left. }
  by rewrite Ha.
Qed.

Lemma decode_encode_padded s : decode_padded (encode_padded s) = Some s.
Proof.
  unfold decode_padded, encode_padded. rewrite list_ascii_of_string_app.
  pose proof (encode_alphabet base64_std s) as Halph.
  assert (Heq : Forall (fun c => c <> "="%char) (list_ascii_of_string (encode base64_std s))).
  { eapply Forall_impl; [exact Halph|]. intros c Hc ->. revert Hc. by_decision. }
  assert (Hstrip : forall fill, Forall (fun c => c = "="%char) fill ->
    strip_newlines (list_ascii_of_string (encode base64_std s) ++ fill) =
    list_ascii_of_string (encode base64_std s) ++ fill).
  { intros fill Hf. apply list_filter_all. intros c [Hc|Hc]%elem_of_app.
    - rewrite Forall_forall in Halph. specialize (Halph c Hc).
      split; intros ->; revert Halph; by_decision.
    - rewrite Forall_forall in Hf. by rewrite (Hf c Hc). }
  pose proof (base64_length_mod s) as Hm1. pose proof (Nat.mod_upper_bound (String.length (encode base64_std s)) 4).
  set (r := encode base64_std s) in *.
  assert (Hmod : forall k, (String.length r mod 4 = k)%nat -> forall j, ((String.length r + j) mod 4 = (k + j) mod 4)%nat).
  { intros k <- j. by rewrite Nat.Div0.add_mod_idemp_l. }
  assert (Hdec : decode base64_std (string_of_list_ascii (list_ascii_of_string r)) = Some s).
  { rewrite string_of_list_ascii_of_string. unfold r. by rewrite decode_encode by apply _. }
  assert (r = EmptyString -> String.length r mod 4 = 0)%nat as Hemp by (by intros ->).
  destruct (String.length r mod 4)%nat as [|[|[|[|]]]] eqn:Hk; [|done|..|lia].
  - cbn [list_ascii_of_string]. rewrite (Hstrip []) by constructor. rewrite length_app, length_list_ascii. cbn [length].
    rewrite (Hmod 0%nat eq_refl). cbn [Nat.add Nat.modulo Nat.divmod fst Nat.sub Nat.eqb].
    rewrite app_nil_r, strip_fill_none by done. done.
  - cbn [list_ascii_of_string]. rewrite (Hstrip ["="; "="]%char) by (repeat constructor).
    rewrite length_app, length_list_ascii. cbn [length]. rewrite (Hmod 2%nat eq_refl).
    cbn [Nat.add Nat.modulo Nat.divmod fst Nat.sub Nat.eqb].
    rewrite (strip_fill_app _ 2) by (auto || (intros He; apply (f_equal (@length _)) in He;
      rewrite length_list_ascii in He; cbn in He; rewrite He in Hk; done)). done.
  - cbn [list_ascii_of_string]. rewrite (Hstrip ["="]%char) by (repeat constructor).
    rewrite length_app, length_list_ascii. cbn [length]. rewrite (Hmod 3%nat eq_refl).
    cbn [Nat.add Nat.modulo Nat.divmod fst Nat.sub Nat.eqb].
    rewrite (strip_fill_app _ 1) by (auto || (intros He; apply (f_equal (@length _)) in He;
      rewrite length_list_ascii in He; cbn in He; rewrite He in Hk; done)). done.
Qed.

(** ** Strings *)

Lemma lacks_app c s t : lacks c (s +:+ t) <-> lacks c s /\ lacks c t.
Proof.
  unfold lacks. induction s as [|d s IH]; [cbn; set_solver|].
  rewrite str_app_cons. cbn [list_ascii_of_string]. rewrite !not_elem_of_cons, IH. tauto.
Qed.

Lemma cut_app c a b : lacks c a -> cut c (a +:+ String c b) = Some (a, b).
Proof.
  unfold lacks. induction a as [|d a IH]; intros Ha.
  { change ("" +:+ String c b) with (String c b). cbn [cut]. by rewrite Ascii.eqb_refl. }
  cbn [list_ascii_of_string] in Ha. apply not_elem_of_cons in Ha as [Hd Ha].
  rewrite str_app_cons. cbn [cut]. rewrite (proj2 (Ascii.eqb_neq d c)) by congruence. by rewrite IH.
Qed.

Lemma cut_None c s : lacks c s -> cut c s = None.
Proof.
  unfold lacks. induction s as [|d s IH]; intros Ha; [done|].
  cbn [list_ascii_of_string] in Ha. apply not_elem_of_cons in Ha as [Hd Ha].
  cbn [cut]. rewrite (proj2 (Ascii.eqb_neq d c)) by congruence. by rewrite IH.
Qed.

Lemma cut_sound c s a b : cut c s = Some (a, b) -> s = a +:+ String c b /\ lacks c a.
Proof.
  unfold lacks. revert a. induction s as [|d s IH]; intros a; [done|]. cbn [cut].
  destruct (Ascii.eqb d c) eqn:Hd.
  - intros [= <- <-]. apply Ascii.eqb_eq in Hd as ->. split; [done|apply not_elem_of_nil].
  - destruct (cut c s) as [[a' b']|]; [|done]. intros [= <- <-]. destruct (IH a' eq_refl) as [-> Hl].
    split; [done|]. cbn [list_ascii_of_string]. apply not_elem_of_cons. split; [|done].
    apply Ascii.eqb_neq in Hd. congruence.
Qed.

Lemma SplitN_cut c n a b :
  lacks c a -> SplitN c (S (S n)) (a +:+ String c b) = a :: SplitN c (S n) b.
Proof. intros Ha. cbn [SplitN]. by rewrite cut_app. Qed.

Lemma SplitN_last c n s : lacks c s -> SplitN c (S n) s = [s].
Proof. intros Hs. destruct n; [done|]. cbn [SplitN]. by rewrite cut_None. Qed.

Lemma SplitN_SS c n s :
  SplitN c (S (S n)) s = match cut c s with Some (a, b) => a :: SplitN c (S n) b | None => [s] end.
Proof. done. Qed.

(** Any bound beyond the length gives the same parts. *)
Lemma SplitN_enough c n m s :
  (String.length s < n)%nat -> (String.length s < m)%nat -> SplitN c n s = SplitN c m s.
Proof.
  revert m s. induction n as [|n IH]; intros m s Hn Hm; [lia|]. destruct m as [|m]; [lia|].
  destruct n as [|n], m as [|m]; [done|..].
  - destruct s; [|cbn in Hn; lia]. done.
  - destruct s; [|cbn in Hm; lia]. done.
  - rewrite !SplitN_SS. destruct (cut c s) as [[a b]|] eqn:Hc; [|done]. f_equal.
    apply cut_sound in Hc as [-> _]. rewrite str_length_app in *. cbn [String.length] in *. apply IH; lia.
Qed.

Lemma Split_cut c a b : lacks c a -> Split c (a +:+ String c b) = a :: Split c b.
Proof.
  intros Ha. unfold Split.
  rewrite (SplitN_enough c _ (S (S (S (String.length (a +:+ String c b)))))) by lia.
  rewrite SplitN_cut by done. f_equal. apply SplitN_enough; rewrite ?str_length_app; cbn [String.length]; lia.
Qed.

Lemma Split_last c s : lacks c s -> Split c s = [s].
Proof. apply SplitN_last. Qed.

(** ** Numbers *)

Lemma pretty_N_char_value x :
  (x < 10)%N -> Z.of_N (N_of_ascii (pretty_N_char x)) = Z.of_N x + 48.
Proof.
  intros Hx. assert (x = 0 \/ x = 1 \/ x = 2 \/ x = 3 \/ x = 4 \/ x = 5 \/ x = 6 \/ x = 7 \/ x = 8 \/ x = 9)%N
    as H by lia. by destruct_or! H; subst.
Qed.

Lemma parse_digits_cons x s acc :
  (x < 10)%N -> parse_digits (String (pretty_N_char x) s) acc = parse_digits s (acc * 10 + Z.of_N x).
Proof.
  intros Hx. cbn [parse_digits]. rewrite pretty_N_char_value by done.
  rewrite (proj2 (andb_true_iff _ _)) by (rewrite !Z.leb_le; lia). f_equal. lia.
Qed.

Lemma parse_digits_pretty_go x s :
  parse_digits (pretty_N_go x s) 0 = parse_digits s (Z.of_N x).
Proof.
  revert s. induction (N.lt_wf_0 x) as [x _ IH]; intros s.
  assert (x = 0 \/ 0 < x)%N as [->|Hx] by lia; [done|].
  rewrite pretty_N_go_step by done. rewrite IH by (by apply N.div_lt).
  rewrite parse_digits_cons by (by apply N.mod_lt). f_equal.
  rewrite (N.div_mod x 10) at 3 by done. lia.
Qed.

Lemma parse_digits_pretty (x : N) : parse_digits (pretty x) 0 = Some (Z.of_N x).
Proof.
  unfold pretty, pretty_N. case_decide as Hx; [by subst|].
  rewrite parse_digits_pretty_go. done.
Qed.

(** A decimal has digits only. *)
Lemma pretty_digits (x : N) c :
  c ∈ list_ascii_of_string (pretty x) -> exists d, (d < 10)%N /\ c = pretty_N_char d.
Proof.
  assert (forall s, (forall c, c ∈ list_ascii_of_string s -> exists d, (d < 10)%N /\ c = pretty_N_char d) ->
          c ∈ list_ascii_of_string (pretty_N_go x s) -> exists d, (d < 10)%N /\ c = pretty_N_char d) as Hgo.
  { induction (N.lt_wf_0 x) as [x _ IH]; intros s Hs Hc.
    assert (x = 0 \/ 0 < x)%N as [->|Hx] by lia; [by apply Hs|].
    rewrite pretty_N_go_step in Hc by done. eapply (IH (x `div` 10)%N); [by apply N.div_lt| |exact Hc].
    intros d. cbn [list_ascii_of_string]. rewrite elem_of_cons. intros [->|Hd]; [|by apply Hs].
    eexists. split; [|done]. by apply N.mod_lt. }
  unfold pretty, pretty_N. case_decide as Hx; [|apply Hgo; intros c' Hc'; by apply not_elem_of_nil in Hc'].
  cbn. rewrite elem_of_cons. intros [->|Hc]; [by exists 0%N | by apply not_elem_of_nil in Hc].
Qed.

Lemma pretty_N_cons (x : N) : exists d s, (d < 10)%N /\ pretty x = String (pretty_N_char d) s.
Proof.
  destruct (pretty x) as [|c s] eqn:Hp.
  - pose proof (parse_digits_pretty x) as H. unfold pretty, pretty_N in Hp. case_decide as Hx; [done|].
    pose proof (parse_digits_pretty_go x "") as Hg. rewrite Hp in Hg. cbn in Hg. injection Hg. lia.
  - destruct (pretty_digits x c) as (d & Hd & ->); [rewrite Hp; left|]. by exists d, s.
Qed.

Lemma pretty_N_char_not_sign d : (d < 10)%N ->
  Ascii.eqb (pretty_N_char d) "-" = false /\ Ascii.eqb (pretty_N_char d) "+" = false.
Proof.
  intros Hd. assert (d = 0 \/ d = 1 \/ d = 2 \/ d = 3 \/ d = 4 \/ d = 5 \/ d = 6 \/ d = 7 \/ d = 8 \/ d = 9)%N
    as H by lia. by destruct_or! H; subst.
Qed.

(** Reading back what [%d] printed. *)
Lemma ParseInt_pretty (z : Z) : - 2 ^ 63 <= z < 2 ^ 63 -> ParseInt (pretty z) = Some z.
Proof.
  intros Hz. unfold ParseInt. destruct z as [|p|p].
  - done.
  - change (pretty (Z.pos p)) with (pretty (N.pos p)).
    destruct (pretty_N_cons (N.pos p)) as (d & s & Hd & Hs).
    rewrite Hs. destruct (pretty_N_char_not_sign d Hd) as [-> ->]. rewrite <- Hs, parse_digits_pretty.
    cbn [mbind option_bind]. rewrite (proj2 (andb_true_iff _ _)) by (rewrite Z.leb_le, Z.ltb_lt; lia).
    by rewrite ?Z.mul_1_l.
  - change (pretty (Z.neg p)) with ("-" +:+ pretty (N.pos p)). rewrite str_app_cons.
    change ("" +:+ pretty (N.pos p)) with (pretty (N.pos p)). cbn [Ascii.eqb Bool.eqb].
    destruct (pretty_N_cons (N.pos p)) as (d & s & Hd & Hs). rewrite Hs, <- Hs, parse_digits_pretty.
    cbn [mbind option_bind]. rewrite (proj2 (andb_true_iff _ _)) by (rewrite Z.leb_le, Z.ltb_lt; lia).
    done.
Qed.

Lemma lacks_String c d s : lacks c (String d s) <-> c <> d /\ lacks c s.
Proof. unfold lacks. cbn [list_ascii_of_string]. by rewrite not_elem_of_cons. Qed.

(** A natural number prints as digits. *)
Lemma pretty_lacks (z : Z) c :
  0 <= z -> (forall d, (d < 10)%N -> c <> pretty_N_char d) -> lacks c (pretty z).
Proof.
  intros Hz Hc. assert (pretty z = pretty (Z.to_N z)) as -> by (by destruct z).
  intros (d & Hd & ->)%pretty_digits. by apply (Hc d).
Qed.

Lemma not_digit c : Forall (fun d => c <> pretty_N_char d) [0; 1; 2; 3; 4; 5; 6; 7; 8; 9]%N ->
  forall d, (d < 10)%N -> c <> pretty_N_char d.
Proof.
  intros HF d Hd. rewrite Forall_forall in HF. apply HF.
  assert (d = 0 \/ d = 1 \/ d = 2 \/ d = 3 \/ d = 4 \/ d = 5 \/ d = 6 \/ d = 7 \/ d = 8 \/ d = 9)%N
    as H by lia. by destruct_or! H; subst; by_decision.
Qed.
