(* ===== verification/Json.v ===== *)
(** * JSON values and text

    What the configuration code uses of [encoding/json], [strings] and
    [unicode/utf8]. A JSON number keeps its literal, because Go decodes the
    literal again for every target type; the keys of an object are distinct and
    in the order in which Go visits them. Converting text to values, values to
    text and literals to floating point is the record [JSONLib].

    [field] looks a struct field up as [json.Unmarshal] does, without regard to
    the case of ASCII letters; a missing field or [null] leaves the zero value,
    and a value of the wrong type is an error. *)

From Stdlib Require Import Ascii String SpecFloat.
From S2P Require Import Prelude Codec.

Inductive json :=
  | JNull | JBool (b : bool) | JNumber (lit : string) | JString (s : string)
  | JArray (l : list json) | JObject (m : list (string * json)).

(** [json.Unmarshal] to a tree and [json.Marshal] of one, the conversion of a
    number literal to [float64], and [fmt.Sscanf] with the verb [%f]. *)
Record JSONLib := mkJSONLib {
  Unmarshal : string -> option json;
  Marshal : json -> string;
  ParseFloat : string -> option spec_float;
  Sscanf_f : string -> option spec_float;
}.

(** ** Struct fields *)

Definition lower_byte (c : ascii) : ascii :=
  let n := N_of_ascii c in
  if (N.leb 65 n && N.leb n 90)%N then ascii_of_N (n + 32) else c.
Fixpoint fold_case (s : string) : string :=
  match s with EmptyString => EmptyString | String c s' => String (lower_byte c) (fold_case s') end.

Definition same_field (name key : string) : bool := String.eqb (fold_case key) (fold_case name).

Fixpoint field (name : string) (m : list (string * json)) : option json :=
  match m with
  | [] => None
  | (k, v) :: m' => if same_field name k then Some v else field name m'
  end.

(** A value decoded into a struct; [None] is a type error. *)
Definition as_struct (j : json) : option (list (string * json)) :=
  match j with JObject m => Some m | JNull => Some [] | _ => None end.

Section Fields.
Context {A : Type} (zero : A) (dec : json -> option A).

Definition get (name : string) (m : list (string * json)) : option A :=
  match field name m with
  | None | Some JNull => Some zero
  | Some j => dec j
  end.

(** A pointer field: [None] inside when it stays nil. *)
Definition get_ptr (name : string) (m : list (string * json)) : option (option A) :=
  match field name m with
  | None | Some JNull => Some None
  | Some j => Some <$> dec j
  end.

End Fields.

Definition dec_string (j : json) : option string := match j with JString s => Some s | _ => None end.
Definition dec_bool (j : json) : option bool := match j with JBool b => Some b | _ => None end.
Definition dec_float (L : JSONLib) (j : json) : option spec_float :=
  match j with JNumber lit => ParseFloat L lit | _ => None end.

(** Integers of the range [lo, hi). *)
Definition dec_int (lo hi : Z) (j : json) : option Z :=
  match j with
  | JNumber lit => n ← ParseInt lit; if (lo <=? n) && (n <? hi) then Some n else None
  | _ => None
  end.

(** [[]json.RawMessage]: the elements as they are. *)
Definition dec_raw_list (j : json) : option (list json) := match j with JArray l => Some l | _ => None end.

(** [[]string]; a [null] element is the empty string. *)
Definition dec_string_elem (j : json) : option string :=
  match j with JNull => Some "" | _ => dec_string j end.
Definition dec_string_list (j : json) : option (list string) :=
  l ← dec_raw_list j; mapM dec_string_elem l.

(** [map[string]string]. *)
Definition dec_string_pairs (j : json) : option (list (string * string)) :=
  match j with
  | JObject m => mapM (fun p => s ← dec_string_elem p.2; Some (p.1, s)) m
  | _ => None
  end.
Definition dec_string_map (j : json) : option (gmap string string) := list_to_map <$> dec_string_pairs j.

(** ** White space *)

Definition bytes_of (l : list N) : string := string_of_list_ascii (ascii_of_N <$> l).

(** The encodings of the code points of [unicode.IsSpace]. *)
Definition space_runes : list string :=
  bytes_of <$> ([[9]; [10]; [11]; [12]; [13]; [32]; [194; 133]; [194; 160]; [225; 154; 128];
    [226; 128; 128]; [226; 128; 129]; [226; 128; 130]; [226; 128; 131]; [226; 128; 132];
    [226; 128; 133]; [226; 128; 134]; [226; 128; 135]; [226; 128; 136]; [226; 128; 137];
    [226; 128; 138]; [226; 128; 168]; [226; 128; 169]; [226; 128; 175]; [226; 129; 159];
    [227; 128; 128]]%N).

(** Removes one space at the front, or at the end. *)
Definition trim_one_left (s : string) : option string :=
  p ← list_find (fun r => has_prefix s r = true) space_runes; Some (trim_prefix s p.2).
Definition trim_one_right (s : string) : option string :=
  p ← list_find (fun r => has_suffix s r = true) space_runes; Some (trim_suffix s p.2).

(** Applies [f] until it has nothing to remove. *)
Fixpoint trim_all (f : string -> option string) (fuel : nat) (s : string) : string :=
  match fuel with
  | O => s
  | S n => match f s with Some s' => trim_all f n s' | None => s end
  end.

(** [strings.TrimSpace]: every round removes at least one byte. *)
Definition TrimSpace (s : string) : string :=
  let s1 := trim_all trim_one_left (String.length s) s in
  trim_all trim_one_right (String.length s1) s1.

(** No space at either end. *)
Definition trimmed (s : string) : bool :=
  match trim_one_left s, trim_one_right s with None, None => true | _, _ => false end.

Lemma trim_all_None f n s : f s = None -> trim_all f n s = s.
Proof. intros Hf. destruct n; cbn; by rewrite ?Hf. Qed.

Lemma TrimSpace_trimmed s : trimmed s = true -> TrimSpace s = s.
Proof.
  unfold trimmed, TrimSpace. intros Hs.
  destruct (trim_one_left s) eqn:Hl; [done|]. destruct (trim_one_right s) eqn:Hr; [done|].
  by rewrite (trim_all_None trim_one_left), (trim_all_None trim_one_right).
Qed.

(** ** UTF-8 *)

Definition in_range (lo hi : N) (c : ascii) : bool := (N.leb lo (N_of_ascii c) && N.leb (N_of_ascii c) hi)%N.
Definition continuation : ascii -> bool := in_range 128 191.

(** Whether decoding [s] gives one rune that takes all of it. A byte that starts
    no well-formed encoding is the rune [U+FFFD] of width one. *)
Definition one_rune (s : string) : bool :=
  match list_ascii_of_string s with
  | [_] => true
  | [a; b] => in_range 194 223 a && continuation b
  | [a; b; c] =>
      ((in_range 224 224 a && in_range 160 191 b) || (in_range 237 237 a && in_range 128 159 b)
       || ((in_range 225 236 a || in_range 238 239 a) && continuation b)) && continuation c
  | [a; b; c; d] =>
      ((in_range 240 240 a && in_range 144 191 b) || (in_range 244 244 a && in_range 128 143 b)
       || (in_range 241 243 a && continuation b)) && continuation c && continuation d
  | _ => false
  end.

(** ** Lemmas on fields *)

Lemma mapM_string_elems l : mapM dec_string_elem (JString <$> l) = Some l.
Proof. induction l as [|s l IH]; [done|]. cbn. by rewrite IH. Qed.

Lemma dec_string_list_render l : dec_string_list (JArray (JString <$> l)) = Some l.
Proof. apply mapM_string_elems. Qed.

Lemma mapM_string_pairs l :
  mapM (fun p : string * json => s ← dec_string_elem p.2; Some (p.1, s)) (prod_map id JString <$> l) = Some l.
Proof. induction l as [|[k v] l IH]; [done|]. cbn. by rewrite IH. Qed.

Lemma dec_string_map_render (m : gmap string string) :
  dec_string_map (JObject (prod_map id JString <$> map_to_list m)) = Some m.
Proof.
  unfold dec_string_map, dec_string_pairs. rewrite mapM_string_pairs. cbn.
  by rewrite list_to_map_to_list.
Qed.

(** ** Depth, as a bound for recursive decoders *)

Fixpoint depth (j : json) : nat :=
  match j with
  | JArray l => S ((fix go l := match l with [] => 0%nat | x :: l' => Nat.max (depth x) (go l') end) l)
  | JObject m => S ((fix go m := match m with [] => 0%nat | (_, x) :: m' => Nat.max (depth x) (go m') end) m)
  | _ => 1%nat
  end.

Lemma depth_pos j : (1 <= depth j)%nat.
Proof. destruct j; cbn; lia. Qed.

Lemma depth_elem l j : j ∈ l -> (depth j < depth (JArray l))%nat.
Proof.
  cbn. induction l as [|x l IH]; [by intros ?%not_elem_of_nil|].
  intros [->|Hj]%elem_of_cons; [lia|]. specialize (IH Hj). lia.
Qed.

Lemma depth_field name m j : field name m = Some j -> (depth j < depth (JObject m))%nat.
Proof.
  cbn. induction m as [|[k x] m IH]; cbn [field]; [done|].
  destruct (same_field name k); [intros [= ->]; lia|]. intros Hj. specialize (IH Hj). lia.
Qed.

(** The elements of a list under a field are less deep than the object. *)
Lemma depth_get_list name m l j :
  get [] dec_raw_list name m = Some l -> j ∈ l -> (depth j < depth (JObject m))%nat.
Proof.
  unfold get. destruct (field name m) as [x|] eqn:Hf; [|by intros [= <-] ?%not_elem_of_nil].
  apply depth_field in Hf. destruct x; try done; [by intros [= <-] ?%not_elem_of_nil|].
  intros [= <-] Hj%depth_elem. lia.
Qed.

(** A map in the result monad depends on the function at the elements only. *)
Lemma result_mapM_ext {E A B} (f g : A -> result E B) l :
  (forall x, x ∈ l -> f x = g x) -> mapM f l = mapM g l.
Proof.
  induction l as [|x l IH]; intros Hfg; [done|]. cbn. rewrite Hfg by left. f_equal.
  rewrite IH; [done|]. intros y Hy. apply Hfg. by right.
Qed.
