(* ===== verification/Events.v ===== *)
(** * Events

    The data every component exchanges: the event record of
    [internal/eventstore/event.go], the payload union of
    [proto/switchyard/event/v1/event.proto] it carries, and the filter of
    [internal/eventstore/filter.go]. A protobuf [oneof] that is unset is
    [None]; a Go [map[string]string] is a [gmap string string]; a double is
    kept as its 64-bit pattern. *)

From S2P Require Import Prelude.

Abbreviation string_map := (gmap string string).

(** ** Entity attributes ([entity.v1.Attributes]) *)

Inductive AttrKind :=
  | Attributes_Light (on : bool) (brightness color_temp color_rgb : Z)
  | Attributes_SwitchDevice (on : bool)
  | Attributes_NumericSensor (unit : string) (value : Z)
  | Attributes_BinarySensor (on : bool).

Record Attributes := mkAttributes {
  attr_kind : option AttrKind;
  available : bool;
}.

#[export] Instance AttrKind_eq_dec : EqDecision AttrKind.
Proof. solve_decision. Defined.
#[export] Instance Attributes_eq_dec : EqDecision Attributes.
Proof. solve_decision. Defined.

(** ** The payload union *)

Inductive RunOutcome :=
  | OUTCOME_UNSPECIFIED | OUTCOME_OK | OUTCOME_CONDITION_FAIL
  | OUTCOME_ACTION_ERROR | OUTCOME_LIMIT_EXCEEDED | OUTCOME_CANCELLED
  | OUTCOME_SKIPPED.

#[export] Instance RunOutcome_eq_dec : EqDecision RunOutcome.
Proof. solve_decision. Defined.

Record StateChanged := mkStateChanged {
  sc_attributes : option Attributes;
  sc_entity_id : string;
}.

Record EntityRegistered := mkEntityRegistered {
  er_driver_instance_id : string;
  er_device_id : string;
  er_entity_type : string;
  er_friendly_name : string;
  er_capabilities : option Attributes;
}.

Record EntityUnregistered := mkEntityUnregistered {
  eu_reason : string;
  eu_entity_id : string;
}.

Record DriverEvent := mkDriverEvent {
  de_driver_instance_id : string;
  de_kind : string;
  de_detail : string;
}.

Record AutomationTriggered := mkAutomationTriggered {
  at_automation_id : string;
  at_correlation_id : Z;
  at_trigger_event_position : Z;
  at_trigger_kind : string;
  at_invoked_by : string;
}.

(** Without the telemetry fields [elapsed_ms], [starlark_steps], [log_lines]. *)
Record AutomationFinished := mkAutomationFinished {
  af_automation_id : string;
  af_correlation_id : Z;
  af_outcome : RunOutcome;
  af_error : string;
}.

(** The variants of [Payload.kind]. Variants that no modelled component reads
    keep only their identifying fields. *)
Inductive PayloadKind :=
  | Payload_System (kind : string) (data : string_map)
  | Payload_StateChanged (m : StateChanged)
  | Payload_CommandIssued (command : string) (parameters : string_map)
  | Payload_CommandAck (success : bool) (error_message : string)
  | Payload_EntityRegistered (m : EntityRegistered)
  | Payload_EntityUnregistered (m : EntityUnregistered)
  | Payload_DriverEvent (m : DriverEvent)
  | Payload_ConfigApplied (added removed changed automations : Z) (message : string)
  | Payload_AutomationTriggered (m : AutomationTriggered)
  | Payload_AutomationFinished (m : AutomationFinished)
  | Payload_ScriptInvoked (name : string) (correlation_id : Z)
  | Payload_ScriptFinished (name : string) (correlation_id : Z) (o : RunOutcome)
  | Payload_SceneApplied (scene_id correlation_id : string) (o : RunOutcome)
  | Payload_WebhookReceived (slug : string)
  | Payload_DeviceRenamed (device_id new_name : string)
  | Payload_DeviceReassigned (device_id new_area : string)
  | Payload_AuthEvent (kind : string).

(** A non-nil [*eventv1.Payload]: [None] is a payload whose [oneof] is unset. *)
Definition Payload : Type := option PayloadKind.

#[export] Instance StateChanged_eq_dec : EqDecision StateChanged.
Proof. solve_decision. Defined.
#[export] Instance EntityRegistered_eq_dec : EqDecision EntityRegistered.
Proof. solve_decision. Defined.
#[export] Instance EntityUnregistered_eq_dec : EqDecision EntityUnregistered.
Proof. solve_decision. Defined.
#[export] Instance DriverEvent_eq_dec : EqDecision DriverEvent.
Proof. solve_decision. Defined.
#[export] Instance AutomationTriggered_eq_dec : EqDecision AutomationTriggered.
Proof. solve_decision. Defined.
#[export] Instance AutomationFinished_eq_dec : EqDecision AutomationFinished.
Proof. solve_decision. Defined.
#[export] Instance PayloadKind_eq_dec : EqDecision PayloadKind.
Proof. solve_decision. Defined.

(** ** The event record *)

(** [Position] is 0 on input to [Append]; a [uuid.UUID] is its 128-bit value,
    with [uuid.Nil] = 0; [CausePosition] is 0 if none; [PayloadPtr] is [None]
    for a nil pointer. *)
Record Event := mkEvent {
  Position : Z;
  Timestamp : Z;
  Kind : string;
  Entity : string;
  Source : string;
  CorrelationID : Z;
  CausePosition : Z;
  PayloadPtr : option Payload;
}.

#[export] Instance Event_eq_dec : EqDecision Event.
Proof. solve_decision. Defined.

Definition uuid_Nil : Z := 0.

Definition set_Position (p : Z) (e : Event) : Event :=
  mkEvent p (Timestamp e) (Kind e) (Entity e) (Source e) (CorrelationID e)
    (CausePosition e) (PayloadPtr e).

(** [e.Payload.GetKind()]: nil-safe. *)
Definition GetKind (e : Event) : option PayloadKind :=
  match PayloadPtr e with Some p => p | None => None end.

(** ** Filters *)

Record Filter := mkFilter {
  Kinds : list string;
  Entities : list string;
  Sources : list string;
  CorrelationIDs : list Z;
  MinTs : Z;
  MaxTs : Z;
}.

(** The Go zero value [Filter{}]. *)
Definition Filter_zero : Filter := mkFilter [] [] [] [] zero_time zero_time.

Definition containsString (haystack : list string) (needle : string) : bool :=
  contains_eq haystack needle.

Definition containsUUID (haystack : list Z) (needle : Z) : bool :=
  contains_eq haystack needle.

Definition nonempty {A} (l : list A) : bool :=
  match l with [] => false | _ => true end.

(** [Filter.Matches]: the early returns in source order. *)
Definition Matches (f : Filter) (e : Event) : bool :=
  if nonempty (Kinds f) && negb (containsString (Kinds f) (Kind e)) then false
  else if nonempty (Entities f) && negb (containsString (Entities f) (Entity e))
  then false
  else if nonempty (Sources f) && negb (containsString (Sources f) (Source e))
  then false
  else if nonempty (CorrelationIDs f) &&
          negb (containsUUID (CorrelationIDs f) (CorrelationID e)) then false
  else if negb (IsZero (MinTs f)) && (Timestamp e <? MinTs f) then false
  else if negb (IsZero (MaxTs f)) && (Timestamp e >? MaxTs f) then false
  else true.

(** ** Properties of filters *)

(** What the comment on [Filter] promises: populated fields are conjoined,
    within a slice field any match succeeds, zero time bounds are unbounded. *)
Definition field_ok {A} (l : list A) (x : A) : Prop := l = [] \/ x ∈ l.

Definition filter_spec (f : Filter) (e : Event) : Prop :=
  field_ok (Kinds f) (Kind e) /\ field_ok (Entities f) (Entity e) /\
  field_ok (Sources f) (Source e) /\ field_ok (CorrelationIDs f) (CorrelationID e) /\
  (MinTs f = zero_time \/ MinTs f <= Timestamp e) /\
  (MaxTs f = zero_time \/ Timestamp e <= MaxTs f).

Lemma field_guard {A} `{EqDecision A} (l : list A) x :
  nonempty l && negb (contains_eq l x) = false <-> field_ok l x.
Proof.
  unfold field_ok. rewrite andb_false_iff, negb_false_iff, contains_eq_spec.
  destruct l; cbn; naive_solver.
Qed.

Lemma Matches_spec (f : Filter) (e : Event) :
  Matches f e = true <-> filter_spec f e.
Proof.
  unfold Matches, filter_spec, containsString, containsUUID.
  rewrite <- !field_guard.
  assert (forall t (b : bool), negb (IsZero t) && b = false <-> t = zero_time \/ b = false)
    as Hts.
  { intros t b. unfold IsZero.
    rewrite andb_false_iff, negb_false_iff, Z.eqb_eq. done. }
  pose proof (Hts (MinTs f) (Timestamp e <? MinTs f)) as H1.
  pose proof (Hts (MaxTs f) (Timestamp e >? MaxTs f)) as H2.
  rewrite Z.ltb_ge in H1.
  assert (Hgt : (Timestamp e >? MaxTs f) = false <-> Timestamp e <= MaxTs f) by lia.
  rewrite Hgt in H2.
  rewrite <- H1, <- H2. repeat (case_match; [naive_solver congruence|]). naive_solver.
Qed.

(** The zero filter matches everything. *)
Lemma Matches_zero (e : Event) : Matches Filter_zero e = true.
Proof. apply Matches_spec. unfold filter_spec, field_ok. cbn. naive_solver. Qed.
