(* ===== verification/EventStore.v ===== *)
(** * The event store

    Models [internal/eventstore]: [store.go] (Open, RegisterProjector, Append,
    AppendBatch, the retry loop), [query.go], [replay.go], [snapshot.go],
    [projector.go] and [tracing.go] (applyProjector).

    The SQLite database is a record of tables; the list [events] is in rowid
    order, so that [ORDER BY position] is the list order (lemma
    [log_ok_positions]); a transaction works on a copy of the record that
    replaces it on commit. Which database calls fail, and with which message,
    is an argument ([TxFaults]), so every error path is a branch of the model.
    In-memory projector state ([M]) is shared and survives a rollback, the
    projectors' SQL tables ([T]) do not. Metrics, spans and logs are left out.

    The protobuf codec is a pair of section variables. *)

From S2P Require Import Prelude Events.

(** ** Tables *)

Record EventRow := mkEventRow {
  row_position : Z;
  row_ts : Z;
  row_kind : string;
  row_entity : option string;
  row_source : string;
  row_correlation_id : option Z;
  row_cause_position : option Z;
  row_payload : string;
}.

Record SnapshotRow := mkSnapshotRow {
  snap_position : Z;
  snap_ts : Z;
  snap_owner : string;
  snap_encoding : string;
  snap_state : string;
}.

#[export] Instance EventRow_eq_dec : EqDecision EventRow.
Proof. solve_decision. Defined.
#[export] Instance SnapshotRow_eq_dec : EqDecision SnapshotRow.
Proof. solve_decision. Defined.

(** The tables of [internal/storage/migrations] and, in [tables], those of the
    projectors. [events_seq] is SQLite's AUTOINCREMENT counter for [events]. *)
Record DB (T : Type) := mkDB {
  events : list EventRow;
  events_seq : Z;
  projection_cursors : gmap string Z;
  snapshots : list SnapshotRow;
  skipped_events : gset (Z * string);
  event_subscriptions : gmap string Z;
  tables : T;
}.
Arguments mkDB {T}.
Arguments events {T}.
Arguments events_seq {T}.
Arguments projection_cursors {T}.
Arguments snapshots {T}.
Arguments skipped_events {T}.
Arguments event_subscriptions {T}.
Arguments tables {T}.

Section Tables.
Context {T : Type}.
Implicit Type d : DB T.

Definition with_tables (t : T) d : DB T :=
  mkDB (events d) (events_seq d) (projection_cursors d) (snapshots d)
    (skipped_events d) (event_subscriptions d) t.

Definition with_snapshots (l : list SnapshotRow) d : DB T :=
  mkDB (events d) (events_seq d) (projection_cursors d) l
    (skipped_events d) (event_subscriptions d) (tables d).

Definition with_subscriptions (m : gmap string Z) d : DB T :=
  mkDB (events d) (events_seq d) (projection_cursors d) (snapshots d)
    (skipped_events d) m (tables d).

(** [INSERT INTO projection_cursors ... ON CONFLICT(name) DO UPDATE]. *)
Definition set_cursor (name : string) (pos : Z) d : DB T :=
  mkDB (events d) (events_seq d) (<[name := pos]> (projection_cursors d))
    (snapshots d) (skipped_events d) (event_subscriptions d) (tables d).

(** [SELECT MAX(position) FROM events]: NULL on an empty table. *)
Definition max_position d : option Z :=
  match events d with
  | [] => None
  | r :: rs => Some (foldl (fun acc r' => Z.max acc (row_position r'))
                           (row_position r) rs)
  end.

(** [LIMIT n]: a negative bound is no bound. *)
Definition sql_limit {A} (n : Z) (l : list A) : list A :=
  if n <? 0 then l else take (Z.to_nat n) l.

(** The column values [appendTx] and [AppendBatch] compute for an event. The time is a
    number that fits 64 bits, as [UnixNano] gives it until the year 2262. *)
Definition event_row (pos : Z) (e : Event) (payload : string) : EventRow :=
  mkEventRow pos (Timestamp e) (Kind e)
    (if is_empty (Entity e) then None else Some (Entity e))
    (Source e)
    (if CorrelationID e =? uuid_Nil then None else Some (CorrelationID e))
    (if CausePosition e >? 0 then Some (i64 (CausePosition e)) else None)
    payload.

(** [INSERT INTO events ...]; returns the new database and [LastInsertId()]. *)
Definition insert_event (e : Event) (payload : string) d : DB T * Z :=
  let pos := events_seq d + 1 in
  (mkDB (events d ++ [event_row pos e payload]) pos (projection_cursors d) (snapshots d)
     (skipped_events d) (event_subscriptions d) (tables d), pos).

End Tables.

(** ** Configuration *)

Record Config := mkConfig {
  SnapshotEveryEvents : Z;
  SnapshotEveryPeriod : Z;
  MaxSubscriberBuffer : Z;
  SnapshotRetainPerOwner : Z;
}.

Definition withDefaults (c : Config) : Config :=
  mkConfig
    (if SnapshotEveryEvents c =? 0 then 10000 else SnapshotEveryEvents c)
    (if SnapshotEveryPeriod c =? 0 then Hour else SnapshotEveryPeriod c)
    (if MaxSubscriberBuffer c =? 0 then 256 else MaxSubscriberBuffer c)
    (if SnapshotRetainPerOwner c =? 0 then 3 else SnapshotRetainPerOwner c).

(** ** Projectors *)

Inductive ProjectorMode := ProjectorModeSync | ProjectorModeAsync.

Definition is_sync (m : ProjectorMode) : bool :=
  match m with ProjectorModeSync => true | ProjectorModeAsync => false end.

(** The [Projector] interface. [Promote] and [Discard] are the optional
    interfaces [PostCommit] and [Discarder]: [None] for a projector that does
    not implement them. *)
Record Projector (M T : Type) := mkProjector {
  Name : string;
  Apply : Event -> M -> T -> M * T * option string;
  Snapshot : Z -> M -> DB T -> result string (DB T);
  Restore : M -> DB T -> M * result string Z;
  Promote : option (M -> M);
  Discard : option (M -> M);
}.
Arguments mkProjector {M T}.
Arguments Name {M T}.
Arguments Apply {M T}.
Arguments Snapshot {M T}.
Arguments Restore {M T}.
Arguments Promote {M T}.
Arguments Discard {M T}.

(** The embeddable [NoSnapshot]. *)
Definition NoSnapshot_Snapshot {M T} (_ : Z) (_ : M) (d : DB T) : result string (DB T) :=
  Ok d.
Definition NoSnapshot_Restore {M T} (m : M) (_ : DB T) : M * result string Z :=
  (m, Ok 0).

(** ** Faults: which database calls of one transaction fail

    [f_insert i] and [f_last_id i] are the outcomes of the [i]-th insert into
    [events] and of its [LastInsertId()]; [f_cursor name] that of advancing the
    cursor of projector [name]. *)

Record TxFaults := mkTxFaults {
  f_begin : option string;
  f_insert : nat -> option string;
  f_last_id : nat -> option string;
  f_cursor : string -> option string;
  f_commit : option string;
}.

Definition no_faults : TxFaults :=
  mkTxFaults None (fun _ => None) (fun _ => None) (fun _ => None) None.

(** ** The retry loop *)

Definition isSQLiteBusy (msg : string) : bool :=
  str_contains msg "SQLITE_BUSY" || str_contains msg "database is locked" ||
  str_contains msg "(5)".

(** [len(backoffs)] of [withRetry]. *)
Definition backoffs : list Z :=
  [100 * Millisecond; 200 * Millisecond; 400 * Millisecond; 800 * Millisecond].

(** The loop from attempt [attempt] on. [left] is [len(backoffs) - attempt];
    [done i] is [Some err] when the context is cancelled during the wait
    after attempt [i]. [fn] returns the new state and the error. *)
Fixpoint withRetry_from {S : Type} (fn : nat -> S -> S * option string)
    (done : nat -> option string) (left attempt : nat) (s : S) : S * option string :=
  let '(s', err) := fn attempt s in
  match err with
  | None => (s', None)
  | Some msg =>
      if negb (isSQLiteBusy msg) then (s', Some msg)
      else match left with
           | O => (s', Some msg)
           | Datatypes.S left' =>
               match done attempt with
               | Some cerr => (s', Some cerr)
               | None => withRetry_from fn done left' (Datatypes.S attempt) s'
               end
           end
  end.

Definition withRetry {S : Type} (fn : nat -> S -> S * option string)
    (done : nat -> option string) (s : S) : S * option string :=
  withRetry_from fn done (length backoffs) 0 s.

(** ** The store *)

Record Store (M T : Type) := mkStore {
  cfg : Config;
  db : DB T;
  projectors : list (Projector M T * ProjectorMode);
  mem : M;
  latestPosition : Z;
  started : bool;
}.
Arguments mkStore {M T}.
Arguments cfg {M T}.
Arguments db {M T}.
Arguments projectors {M T}.
Arguments mem {M T}.
Arguments latestPosition {M T}.
Arguments started {M T}.

Section Store.
Context {M T : Type}.
Context (marshal : Payload -> result string string).
Context (unmarshal : string -> result string Payload).

Implicit Type s : Store M T.
Implicit Type regs : list (Projector M T * ProjectorMode).

Definition with_db (d : DB T) s : Store M T :=
  mkStore (cfg s) d (projectors s) (mem s) (latestPosition s) (started s).
Definition with_mem (m : M) s : Store M T :=
  mkStore (cfg s) (db s) (projectors s) m (latestPosition s) (started s).
Definition with_latest (p : Z) s : Store M T :=
  mkStore (cfg s) (db s) (projectors s) (mem s) p (started s).

(** [Open]: the latest position is read back from the table. *)
Definition Open (c : Config) (d : DB T) (m : M) : Store M T :=
  mkStore (withDefaults c) d [] m
    (match max_position d with Some p => u64 p | None => 0 end) false.

Definition RegisterProjector (p : Projector M T) (mode : ProjectorMode) s :
    result string (Store M T) :=
  if started s then Err "RegisterProjector: already started"
  else Ok (mkStore (cfg s) (db s) (projectors s ++ [(p, mode)]) (mem s)
             (latestPosition s) (started s)).

Definition ProjectorNames s : list string := Name ∘ fst <$> projectors s.

(** [for _, reg := range s.projectors { if d, ok := reg.p.(Discarder) ... }] *)
Definition discard_all regs (m : M) : M :=
  foldl (fun m reg => match Discard (fst reg) with Some f => f m | None => m end) m regs.

(** [for _, reg := range s.projectors { if pc, ok := reg.p.(PostCommit) ... }] *)
Definition promote_all regs (m : M) : M :=
  foldl (fun m reg => match Promote (fst reg) with Some f => f m | None => m end) m regs.

(** [applyProjector]: one [Apply] inside the transaction. *)
Definition applyProjector (p : Projector M T) (e : Event) (m : M) (d : DB T) :
    M * DB T * option string :=
  let '(m', t', err) := Apply p e m (tables d) in
  match err with
  | Some msg => (m', d, Some msg)
  | None => (m', with_tables t' d, None)
  end.

(** The projector loop of [appendTx]: apply, then advance the cursor. *)
Fixpoint apply_and_advance regs (fl : TxFaults) (e : Event) (m : M) (d : DB T) :
    M * DB T * option string :=
  match regs with
  | [] => (m, d, None)
  | (p, mode) :: rest =>
      if negb (is_sync mode) then apply_and_advance rest fl e m d
      else
        let '(m1, d1, err) := applyProjector p e m d in
        match err with
        | Some msg => (m1, d1, Some ("projector " +:+ Name p +:+ " apply: " +:+ msg))
        | None =>
            match f_cursor fl (Name p) with
            | Some msg => (m1, d1, Some ("advance cursor " +:+ Name p +:+ ": " +:+ msg))
            | None => apply_and_advance rest fl e m1 (set_cursor (Name p) (Position e) d1)
            end
        end
  end.

(** [appendTx]. The deferred function discards in-memory projector state and
    rolls back unless the commit succeeded; it is not yet registered when
    [BeginTx] fails. The second component is [*outPos]. *)
Definition appendTx (e : Event) (payload : string) (fl : TxFaults) s :
    Store M T * Z * option string :=
  let fail m pos msg :=
    (with_mem (discard_all (projectors s) m) s, pos, Some msg) in
  match f_begin fl with
  | Some msg => (s, 0, Some msg)
  | None =>
      match f_insert fl 0%nat with
      | Some msg => fail (mem s) 0 ("insert event: " +:+ msg)
      | None =>
          let '(d1, pos) := insert_event e payload (db s) in
          match f_last_id fl 0%nat with
          | Some msg => fail (mem s) 0 ("last insert id: " +:+ msg)
          | None =>
              let e' := set_Position (u64 pos) e in
              let '(m2, d2, err) :=
                apply_and_advance (projectors s) fl e' (mem s) d1 in
              match err with
              | Some msg => fail m2 (u64 pos) msg
              | None =>
                  match f_commit fl with
                  | Some msg => fail m2 (u64 pos) ("commit: " +:+ msg)
                  | None =>
                      (with_mem (promote_all (projectors s) m2) (with_db d2 s),
                       u64 pos, None)
                  end
              end
          end
      end
  end.

(** The defaults [Append] and [AppendBatch] fill in: [now] is [time.Now()],
    [fresh] is [uuid.New()]. *)
Definition fill_defaults (now fresh : Z) (e : Event) : Event :=
  mkEvent (Position e)
    (if IsZero (Timestamp e) then now else Timestamp e)
    (Kind e) (Entity e) (Source e)
    (if CorrelationID e =? uuid_Nil then fresh else CorrelationID e)
    (CausePosition e) (PayloadPtr e).

(** [Append]. [fl i] are the faults of attempt [i], [done i] the context's
    error if it is cancelled during the wait after attempt [i]. *)
Definition Append (now fresh : Z) (fl : nat -> TxFaults) (done : nat -> option string)
    (e : Event) s : Store M T * result string Z :=
  if is_empty (Kind e) then (s, Err "Append: Kind required")
  else if is_empty (Source e) then (s, Err "Append: Source required")
  else match PayloadPtr e with
  | None => (s, Err "Append: Payload required")
  | Some p =>
      let e := fill_defaults now fresh e in
      match marshal p with
      | Err msg => (s, Err ("marshal payload: " +:+ msg))
      | Ok payload =>
          let '((s', pos), err) :=
            withRetry (fun i (st : Store M T * Z) =>
                         let '(s1, out, err) := appendTx e payload (fl i) (fst st) in
                         ((s1, out), err))
                      done (s, 0) in
          match err with
          | Some msg => (s', Err msg)
          | None =>
              (if pos >? latestPosition s' then with_latest pos s' else s', Ok pos)
          end
      end
  end.

(** [AppendAuth]. *)
Definition AppendAuth (now fresh : Z) (fl : nat -> TxFaults)
    (done : nat -> option string) (kind : string) s : Store M T * option string :=
  let e := mkEvent 0 zero_time "auth_event" "" "auth.audit" uuid_Nil 0
             (Some (Some (Payload_AuthEvent kind))) in
  let '(s', r) := Append now fresh fl done e s in
  (s', match r with Ok _ => None | Err msg => Some msg end).

(** *** AppendBatch *)

(** The projector loop inside a batch: apply only, no cursor. *)
Fixpoint apply_sync regs (e : Event) (m : M) (d : DB T) : M * DB T * option string :=
  match regs with
  | [] => (m, d, None)
  | (p, mode) :: rest =>
      if negb (is_sync mode) then apply_sync rest e m d
      else
        let '(m1, d1, err) := applyProjector p e m d in
        match err with
        | Some msg => (m1, d1, Some ("projector " +:+ Name p +:+ ": " +:+ msg))
        | None => apply_sync rest e m1 d1
        end
  end.

(** The loop over the events: the slice elements are updated in place
    (defaults, [Position]), so the updated prefix is returned also on error. *)
Fixpoint batch_loop regs (now : Z) (fresh : nat -> Z) (fl : TxFaults) (i : nat)
    (evs : list Event) (m : M) (d : DB T) :
    M * DB T * list Event * option string :=
  match evs with
  | [] => (m, d, [], None)
  | e :: rest =>
      let stop m d e msg := (m, d, e :: rest, Some msg) in
      if is_empty (Kind e) || is_empty (Source e) then
        stop m d e "AppendBatch: invalid event"
      else match PayloadPtr e with
      | None => stop m d e "AppendBatch: invalid event"
      | Some p =>
          let e := fill_defaults now (fresh i) e in
          match marshal p with
          | Err msg => stop m d e ("marshal[" +:+ pretty i +:+ "]: " +:+ msg)
          | Ok payload =>
              match f_insert fl i with
              | Some msg => stop m d e msg
              | None =>
                  let '(d1, pos) := insert_event e payload d in
                  match f_last_id fl i with
                  | Some msg => stop m d1 e msg
                  | None =>
                      let e := set_Position (u64 pos) e in
                      let '(m2, d2, err) := apply_sync regs e m d1 in
                      match err with
                      | Some msg => stop m2 d2 e msg
                      | None =>
                          let '(m3, d3, out, err) :=
                            batch_loop regs now fresh fl (S i) rest m2 d2 in
                          (m3, d3, e :: out, err)
                      end
                  end
              end
          end
      end
  end.

(** The cursor loop after the events, also used by [replayBatch]. *)
Fixpoint advance_cursors regs (fl : TxFaults) (pos : Z) (d : DB T) :
    DB T * option string :=
  match regs with
  | [] => (d, None)
  | (p, mode) :: rest =>
      if negb (is_sync mode) then advance_cursors rest fl pos d
      else match f_cursor fl (Name p) with
           | Some msg => (d, Some msg)
           | None => advance_cursors rest fl pos (set_cursor (Name p) pos d)
           end
  end.

(** The closure [AppendBatch] hands to [withRetry]; the events are part of
    the state because they are updated in place. *)
Definition batchTx (now : Z) (fresh : nat -> Z) (fl : TxFaults)
    (st : Store M T * list Event) : Store M T * list Event * option string :=
  let '(s, evs) := st in
  match f_begin fl with
  | Some msg => (s, evs, Some msg)
  | None =>
      let '(m1, d1, evs1, err) :=
        batch_loop (projectors s) now fresh fl 0 evs (mem s) (db s) in
      let fail msg := (with_mem (discard_all (projectors s) m1) s, evs1, Some msg) in
      match err with
      | Some msg => fail msg
      | None =>
          let lastp := default 0 (Position <$> last evs1) in
          let '(d2, err) := advance_cursors (projectors s) fl lastp d1 in
          match err with
          | Some msg => fail msg
          | None =>
              match f_commit fl with
              | Some msg => fail msg
              | None => (with_mem (promote_all (projectors s) m1) (with_db d2 s),
                         evs1, None)
              end
          end
      end
  end.

(** [AppendBatch]: [latestPosition] is set, not maximised. *)
Definition AppendBatch (now : Z) (fresh : nat -> Z) (fl : nat -> TxFaults)
    (done : nat -> option string) (evs : list Event) s :
    Store M T * result string (list Z) :=
  match evs with
  | [] => (s, Ok [])
  | _ =>
      let '((s', evs'), err) :=
        withRetry (fun i st => batchTx now fresh (fl i) st) done (s, evs) in
      match err with
      | Some msg => (s', Err msg)
      | None =>
          (with_latest (default 0 (Position <$> last evs')) s', Ok (Position <$> evs'))
      end
  end.

(** *** Queries *)

(** [scanEvent]. *)
Definition scanEvent (r : EventRow) : result string Event :=
  match unmarshal (row_payload r) with
  | Err msg => Err ("unmarshal payload: " +:+ msg)
  | Ok p =>
      Ok (mkEvent (u64 (row_position r)) (row_ts r) (row_kind r)
            (default "" (row_entity r)) (row_source r)
            (default uuid_Nil (row_correlation_id r))
            (match row_cause_position r with Some c => u64 c | None => 0 end)
            (Some p))
  end.

Record QueryOptions := mkQueryOptions {
  FromPosition : Z;
  ToPosition : Z;
  QFilter : Filter;
  Limit : Z;
}.

(** [WHERE position > ? AND (? = 0 OR position <= ?) ORDER BY position LIMIT ?]. *)
Definition select_range (from to limit : Z) (d : DB T) : list EventRow :=
  sql_limit limit
    (filter (fun r => from < row_position r /\ (to = 0 \/ row_position r <= to))
       (events d)).

(** [Query]: the LIMIT applies to the rows, the filter to what they decode to. *)
Definition Query (q : QueryOptions) (d : DB T) : result string (list Event) :=
  let limit := if Limit q <=? 0 then 1000 else Limit q in
  evs ← mapM scanEvent (select_range (FromPosition q) (ToPosition q) limit d);
  mret (filter (fun e => Matches (QFilter q) e = true) evs).

(** *** Replay *)

Inductive replay_error :=
  | ReplayError (position : Z) (projector : string) (err : string)
  | ReplayOther (err : string).

(** [restoreProjectors]: the smallest resume position over all projectors. *)
Fixpoint restore_loop regs (fl : string -> TxFaults) (minCursor : Z) (m : M) (d : DB T) :
    M * result replay_error Z :=
  match regs with
  | [] => (m, Ok minCursor)
  | (p, _) :: rest =>
      match f_begin (fl (Name p)) with
      | Some msg => (m, Err (ReplayOther msg))
      | None =>
          let '(m', r) := Restore p m d in
          match r with
          | Err msg => (m', Err (ReplayOther ("restore " +:+ Name p +:+ ": " +:+ msg)))
          | Ok pos =>
              match f_commit (fl (Name p)) with
              | Some msg => (m', Err (ReplayOther msg))
              | None => restore_loop rest fl (if pos <? minCursor then pos else minCursor) m' d
              end
          end
      end
  end.

Definition restoreProjectors (fl : string -> TxFaults) s : Store M T * result replay_error Z :=
  let '(m, r) := restore_loop (projectors s) fl max_u64 (mem s) (db s) in
  (with_mem m s,
   match r with
   | Ok minCursor => Ok (if minCursor =? max_u64 then 0 else minCursor)
   | Err e => Err e
   end).

Definition isSkipped (pos : Z) (projector : string) (d : DB T) : bool :=
  bool_decide ((pos, projector) ∈ skipped_events d).

(** The inner loop of [replayBatch] for one event. *)
Fixpoint replay_event regs (e : Event) (m : M) (d : DB T) : M * DB T * option replay_error :=
  match regs with
  | [] => (m, d, None)
  | (p, mode) :: rest =>
      if negb (is_sync mode) then replay_event rest e m d
      else if isSkipped (Position e) (Name p) d then replay_event rest e m d
      else
        let '(m1, d1, err) := applyProjector p e m d in
        match err with
        | Some msg => (m1, d1, Some (ReplayError (Position e) (Name p) msg))
        | None => replay_event rest e m1 d1
        end
  end.

Fixpoint replay_events regs (evs : list Event) (m : M) (d : DB T) :
    M * DB T * option replay_error :=
  match evs with
  | [] => (m, d, None)
  | e :: rest =>
      let '(m1, d1, err) := replay_event regs e m d in
      match err with
      | Some x => (m1, d1, Some x)
      | None => replay_events regs rest m1 d1
      end
  end.

(** [replayBatch]: unlike [appendTx], a failure rolls back without [Discard]. *)
Definition replayBatch (after limit : Z) (fl : TxFaults) s :
    Store M T * result replay_error Z :=
  match mapM scanEvent
          (sql_limit limit (filter (fun r => after < row_position r) (events (db s)))) with
  | Err msg => (s, Err (ReplayOther msg))
  | Ok [] => (s, Ok 0)
  | Ok batch =>
      match f_begin fl with
      | Some msg => (s, Err (ReplayOther msg))
      | None =>
          let '(m1, d1, err) := replay_events (projectors s) batch (mem s) (db s) in
          match err with
          | Some x => (with_mem m1 s, Err x)
          | None =>
              let lastp := default 0 (Position <$> last batch) in
              let '(d2, err) := advance_cursors (projectors s) fl lastp d1 in
              match err with
              | Some msg => (with_mem m1 s, Err (ReplayOther msg))
              | None =>
                  match f_commit fl with
                  | Some msg => (with_mem m1 s, Err (ReplayOther msg))
                  | None =>
                      (with_mem (promote_all (projectors s) m1) (with_db d2 s),
                       Ok (Z.of_nat (length batch)))
                  end
              end
          end
      end
  end.

(** [for cursor < latest { ... }]; [None] when the fuel runs out. *)
Fixpoint replay_loop (fuel : nat) (fl : Z -> TxFaults) (cursor latest : Z) s :
    option (Store M T * option replay_error) :=
  if negb (cursor <? latest) then Some (s, None)
  else match fuel with
  | O => None
  | S fuel' =>
      let '(s', r) := replayBatch cursor 1000 (fl cursor) s in
      match r with
      | Err x => Some (s', Some x)
      | Ok applied =>
          if applied =? 0 then Some (s', None)
          else replay_loop fuel' fl (u64 (cursor + applied)) latest s'
      end
  end.

(** [loadLatestPosition]. *)
Definition loadLatestPosition (d : DB T) : Z :=
  match max_position d with Some p => u64 p | None => 0 end.

(** [Replay]. [rfl] are the faults of the restore transactions, [fl c] those
    of the batch that starts at cursor [c]. *)
Definition Replay (fuel : nat) (rfl : string -> TxFaults) (fl : Z -> TxFaults) s :
    option (Store M T * option replay_error) :=
  if started s then Some (s, Some (ReplayOther "Replay: store already started"))
  else
    let '(s1, r) := restoreProjectors rfl s in
    match r with
    | Err x => Some (s1, Some x)
    | Ok cursor => replay_loop fuel fl cursor (loadLatestPosition (db s1)) s1
    end.

(** *** Snapshots *)

(** [DELETE FROM snapshots WHERE owner = ? AND position NOT IN (SELECT position
    FROM snapshots WHERE owner = ? ORDER BY position DESC LIMIT ?)]. *)
Definition owner_positions (owner : string) (l : list SnapshotRow) : list Z :=
  merge_sort Z_desc
    (snap_position <$> filter (fun r => snap_owner r = owner) l).

Definition prune (owner : string) (retain : Z) (d : DB T) : DB T :=
  let keep := sql_limit retain (owner_positions owner (snapshots d)) in
  with_snapshots
    (filter (fun r => snap_owner r <> owner \/ snap_position r ∈ keep) (snapshots d)) d.

(** The faults of one snapshot: the transaction's, the prune statement's and
    that of the final query. *)
Record SnapFaults := mkSnapFaults {
  sf_begin : option string;
  sf_prune : option string;
  sf_commit : option string;
  sf_query : option string;
}.

Definition no_snap_faults : SnapFaults := mkSnapFaults None None None None.

(** [runSnapshot]. *)
Definition runSnapshot (now : Z) (fl : SnapFaults) (p : Projector M T) s :
    Store M T * result string Z :=
  match sf_begin fl with
  | Some msg => (s, Err msg)
  | None =>
      match Snapshot p now (mem s) (db s) with
      | Err msg => (s, Err ("snapshot " +:+ Name p +:+ ": " +:+ msg))
      | Ok d1 =>
          match sf_prune fl with
          | Some msg => (s, Err ("prune snapshots: " +:+ msg))
          | None =>
              let d2 := prune (Name p) (SnapshotRetainPerOwner (cfg s)) d1 in
              match sf_commit fl with
              | Some msg => (s, Err msg)
              | None =>
                  let s' := with_db d2 s in
                  match sf_query fl with
                  | Some msg => (s', Err msg)
                  | None =>
                      match owner_positions (Name p) (snapshots d2) with
                      | [] => (s', Ok (latestPosition s'))
                      | pos :: _ => (s', Ok (u64 pos))
                      end
                  end
              end
          end
      end
  end.

(** The loop of [SnapshotNow] over its targets. *)
Fixpoint snapshot_targets (now : Z) (fl : string -> SnapFaults) regs (lastPos : Z) s :
    Store M T * result string Z :=
  match regs with
  | [] => (s, Ok lastPos)
  | (p, _) :: rest =>
      let '(s', r) := runSnapshot now (fl (Name p)) p s in
      match r with
      | Err msg => (s', Err msg)
      | Ok pos => snapshot_targets now fl rest (if pos >? lastPos then pos else lastPos) s'
      end
  end.

(** [SnapshotNow]. *)
Definition SnapshotNow (now : Z) (fl : string -> SnapFaults) (owner : string) s :
    Store M T * result string Z :=
  if is_empty owner then snapshot_targets now fl (projectors s) 0 s
  else match list_find (fun reg => Name (fst reg) = owner) (projectors s) with
       | None => (s, Err ("snapshot: unknown owner " +:+ owner))
       | Some (_, reg) => snapshot_targets now fl [reg] 0 s
       end.

Record snapshotEntry := mkSnapshotEntry {
  se_projector : Projector M T;
  se_lastRun : Z;
  se_lastPos : Z;
}.

(** One tick of the snapshotter goroutine over its entries: the cadence test
    and, when it runs, the update of [lastRun]/[lastPos]. *)
Definition snapshot_due (now : Z) (en : snapshotEntry) s : bool :=
  (u64 (latestPosition s - se_lastPos en) >=? u64 (SnapshotEveryEvents (cfg s))) ||
  (now - se_lastRun en >=? SnapshotEveryPeriod (cfg s)).

Fixpoint snapshotter_tick (now : Z) (fl : string -> SnapFaults)
    (entries : list snapshotEntry) s : Store M T * list snapshotEntry :=
  match entries with
  | [] => (s, [])
  | en :: rest =>
      let '(s1, en1) :=
        if snapshot_due now en s then
          let '(s', r) := runSnapshot now (fl (Name (se_projector en))) (se_projector en) s in
          (s', match r with
               | Ok pos => mkSnapshotEntry (se_projector en) now pos
               | Err _ => en
               end)
        else (s, en) in
      let '(s2, rest') := snapshotter_tick now fl rest s1 in
      (s2, en1 :: rest')
  end.

End Store.
Arguments snapshotEntry : clear implicits.
