(* ===== verification/EventStoreFacts.v ===== *)
(** * Correctness of the event store

    Atomicity and functional behaviour of [Append] and [AppendBatch], the log
    invariant (positions are 1, 2, 3, ... without gaps), exactness of [Query],
    the retry bound, snapshot pruning, and the termination and correctness of
    [Replay]. *)

From S2P Require Import Prelude Events EventStore.

(** ** The retry loop *)

Section Retry.
Context {S : Type} (fn : nat -> S -> S * option string) (done : nat -> option string).

(** What failing attempts preserve and a succeeding attempt establishes. *)
Lemma withRetry_inv (P Q : S -> Prop) s :
  (forall i x, P x -> match fn i x with (x', Some _) => P x' | (x', None) => Q x' end) ->
  P s ->
  match withRetry fn done s with (x', Some _) => P x' | (x', None) => Q x' end.
Proof.
  intros Hfn. unfold withRetry. generalize 0%nat as i. generalize (length backoffs) as n.
  intros n. revert s.
  induction n as [|n IH]; intros s i Hs; cbn; specialize (Hfn i s Hs);
    destruct (fn i s) as [s' [msg|]]; try done;
    destruct (isSQLiteBusy msg); cbn; try done.
  destruct (done i); [done | by apply IH].
Qed.

End Retry.

(** Instrumented with a call counter, for the bound on the attempts. *)
Definition counted {S} (fn : nat -> S -> S * option string) (i : nat) (st : nat * S) :
    (nat * S) * option string :=
  let '(s', err) := fn i (snd st) in ((Datatypes.S (fst st), s'), err).

Lemma withRetry_from_count {S} (fn : nat -> S -> S * option string) done left i n (s : S) :
  let '((n', s'), err) := withRetry_from (counted fn) done left i (n, s) in
  (n < n' <= n + left + 1)%nat /\
  (s', err) = withRetry_from fn done left i s.
Proof.
  revert i n s. induction left as [|left IH]; intros i n s; cbn; unfold counted; cbn;
    destruct (fn i s) as [s' [msg|]]; cbn; try (split; [lia | done]);
    destruct (isSQLiteBusy msg); cbn; try (split; [lia | done]).
  destruct (done i); [split; [lia | done] |].
  specialize (IH (Datatypes.S i) (Datatypes.S n) s').
  unfold counted in IH. destruct (withRetry_from _ done left _ _) as [[n' s''] err].
  split; [lia | apply IH].
Qed.

(** ** Frames: what an operation leaves alone *)

Section Frames.
Context {M T : Type}.

(** Two databases with the same log, snapshots, skip list and subscriptions. *)
Definition same_log (d d' : DB T) : Prop :=
  events d = events d' /\ events_seq d = events_seq d' /\
  snapshots d = snapshots d' /\ skipped_events d = skipped_events d' /\
  event_subscriptions d = event_subscriptions d'.

#[export] Instance same_log_equivalence : Equivalence same_log.
Proof. split; unfold same_log; [intros ? | intros ?? | intros ???]; naive_solver congruence. Qed.

(** Two stores that agree on everything but database and projector memory. *)
Definition same_frame (s s' : Store M T) : Prop :=
  cfg s' = cfg s /\ projectors s' = projectors s /\
  latestPosition s' = latestPosition s /\ started s' = started s.

#[export] Instance same_frame_preorder : PreOrder same_frame.
Proof. split; unfold same_frame; [intros ? | intros ???]; naive_solver congruence. Qed.

(** The names of the synchronous projectors. *)
Definition sync_names (regs : list (Projector M T * ProjectorMode)) : list string :=
  Name ∘ fst <$> filter (fun reg => is_sync (snd reg) = true) regs.

Lemma sync_names_cons (p : Projector M T) mode regs :
  sync_names ((p, mode) :: regs) =
  (if is_sync mode then [Name p] else []) ++ sync_names regs.
Proof. unfold sync_names. rewrite filter_cons. cbn. by destruct mode. Qed.

Lemma applyProjector_same_log (p : Projector M T) e m d :
  let '(_, d', _) := applyProjector p e m d in
  same_log d d' /\ projection_cursors d' = projection_cursors d.
Proof.
  unfold applyProjector. destruct (Apply p e m (tables d)) as [[m' t'] [msg|]];
    by unfold same_log.
Qed.

(** The projector loop of [appendTx] leaves the log alone and, if it succeeds,
    sets exactly the cursors of the synchronous projectors. *)
Lemma apply_and_advance_spec (regs : list (Projector M T * ProjectorMode)) fl e m d :
  let '(_, d', err) := apply_and_advance regs fl e m d in
  same_log d d' /\
  (err = None -> forall n, projection_cursors d' !! n =
     if decide (n ∈ sync_names regs) then Some (Position e) else projection_cursors d !! n).
Proof.
  revert m d. induction regs as [|[p mode] regs IH]; intros m d; cbn [apply_and_advance].
  - split; [done|]. intros _ n. by rewrite decide_False by apply not_elem_of_nil.
  - rewrite sync_names_cons. destruct mode; cbn [is_sync negb]; [|apply IH].
    pose proof (applyProjector_same_log p e m d) as Hp.
    destruct (applyProjector p e m d) as [[m1 d1] [msg|]]; [by split; [apply Hp|]|].
    destruct Hp as [Hlog Hcur].
    destruct (f_cursor fl (Name p)); [by split|].
    specialize (IH m1 (set_cursor (Name p) (Position e) d1)).
    destruct (apply_and_advance regs fl e m1 _) as [[m2 d2] err]. destruct IH as [IH1 IH2].
    split; [etrans; [exact Hlog | exact IH1] |].
    intros Herr n. rewrite (IH2 Herr). cbn [projection_cursors set_cursor].
    rewrite Hcur, lookup_insert. cbn [app].
    repeat case_decide; set_solver.
Qed.

End Frames.

(** ** Append *)

Section Append.
Context {M T : Type}.
Context (marshal : Payload -> result string string).
Implicit Type s : Store M T.

(** [s'] is [s] with exactly one more row, its position the next number of the
    AUTOINCREMENT sequence, and the synchronous projectors' cursors at it. *)
Definition appended (e : Event) (payload : string) s s' : Prop :=
  let pos := events_seq (db s) + 1 in
  events (db s') = events (db s) ++ [event_row pos e payload] /\
  events_seq (db s') = pos /\
  snapshots (db s') = snapshots (db s) /\
  skipped_events (db s') = skipped_events (db s) /\
  event_subscriptions (db s') = event_subscriptions (db s) /\
  forall n, projection_cursors (db s') !! n =
    if decide (n ∈ sync_names (projectors s)) then Some (u64 pos)
    else projection_cursors (db s) !! n.

Lemma appendTx_spec e payload fl s :
  let '(s', pos, err) := appendTx e payload fl s in
  same_frame s s' /\
  match err with
  | Some _ => db s' = db s
  | None => pos = u64 (events_seq (db s) + 1) /\ appended e payload s s'
  end.
Proof.
  unfold appendTx. destruct (f_begin fl); [done|]. destruct (f_insert fl 0%nat); [done|].
  cbn [insert_event]. destruct (f_last_id fl 0%nat); [done|].
  match goal with |- context [apply_and_advance ?r ?f ?x ?m ?d] =>
    pose proof (apply_and_advance_spec r f x m d) as Ha;
    destruct (apply_and_advance r f x m d) as [[m2 d2] [msg|]] end; [done|].
  destruct (f_commit fl); [done|]. split; [done|]. split; [done|].
  destruct Ha as [(Hev & Hseq & Hsn & Hsk & Hsub) Hcur]. cbn in *. unfold appended. cbn.
  rewrite <- Hev, <- Hseq, <- Hsn, <- Hsk, <- Hsub. do 5 (split; [done|]). by apply Hcur.
Qed.

(** [Append] either fails and changes neither the database nor the latest
    position, or commits one row. *)
Lemma Append_cases now fresh fl done e s :
  let '(s', r) := Append marshal now fresh fl done e s in
  match r with
  | Err _ => same_frame s s' /\ db s' = db s
  | Ok pos =>
      exists p payload, PayloadPtr e = Some p /\ marshal p = Ok payload /\
        Kind e <> "" /\ Source e <> "" /\
        pos = u64 (events_seq (db s) + 1) /\
        appended (fill_defaults now fresh e) payload s s' /\
        latestPosition s' = Z.max (latestPosition s) pos /\
        projectors s' = projectors s /\ cfg s' = cfg s /\ started s' = started s
  end.
Proof.
  unfold Append. unfold is_empty at 1 2.
  destruct (String.eqb_spec (Kind e) "") as [|Hk]; [done|].
  destruct (String.eqb_spec (Source e) "") as [|Hs]; [done|].
  destruct (PayloadPtr e) as [p|]; [|done]. destruct (marshal p) as [payload|] eqn:Hm; [|done].
  match goal with |- context [withRetry ?f done (s, 0)] =>
    pose proof (withRetry_inv f done
      (fun st => same_frame s st.1 /\ db st.1 = db s)
      (fun st => same_frame s st.1 /\ st.2 = u64 (events_seq (db s) + 1) /\
                 appended (fill_defaults now fresh e) payload s st.1) (s, 0)) as Hr;
    destruct (withRetry f done (s, 0)) as [[s' pos] err] end.
  lapply Hr; clear Hr.
  2: { intros i [s1 p1] [Hf Hd]. cbn in *.
    pose proof (appendTx_spec (fill_defaults now fresh e) payload (fl i) s1) as Ht.
    destruct (appendTx _ _ _ s1) as [[s2 pos2] [m2|]]; cbn; destruct Ht as [Hf' Ht].
    - split; [by etrans | congruence].
    - split; [by etrans|]. destruct Hf as (_&Hp&_). unfold appended in *.
      by rewrite Hp, Hd in Ht. }
  intros Hr. specialize (Hr (conj (reflexivity _) eq_refl)). destruct err; [done|].
  destruct Hr as ((Hc & Hp & Hl & Hst) & Hpos & Ha). cbn in *. subst pos.
  exists p, payload. do 5 (split; [done|]).
  destruct (u64 (events_seq (db s) + 1) >? latestPosition s') eqn:Hgt;
    (split; [exact Ha|]); cbn; (split; [lia | done]).
Qed.

End Append.

(** ** AppendBatch *)

Section Batch.
Context {M T : Type}.
Context (marshal : Payload -> result string string).
Implicit Type s : Store M T.
Implicit Type regs : list (Projector M T * ProjectorMode).

Lemma advance_cursors_spec regs fl pos (d : DB T) :
  let '(d', err) := advance_cursors regs fl pos d in
  same_log d d' /\ tables d' = tables d /\
  (err = None -> forall n, projection_cursors d' !! n =
     if decide (n ∈ sync_names regs) then Some pos else projection_cursors d !! n).
Proof.
  revert d. induction regs as [|[p mode] regs IH]; intros d; cbn [advance_cursors].
  - do 2 (split; [done|]). intros _ n. by rewrite decide_False by apply not_elem_of_nil.
  - rewrite sync_names_cons. destruct mode; cbn [is_sync negb]; [|apply IH].
    destruct (f_cursor fl (Name p)); [done|].
    specialize (IH (set_cursor (Name p) pos d)).
    destruct (advance_cursors regs fl pos _) as [d2 err]. destruct IH as (IH1 & IH2 & IH3).
    do 2 (split; [done|]). intros Herr n. rewrite (IH3 Herr).
    cbn [projection_cursors set_cursor]. rewrite lookup_insert. cbn [app].
    repeat case_decide; set_solver.
Qed.

Lemma apply_sync_same_log regs e m (d : DB T) :
  let '(_, d', _) := apply_sync regs e m d in
  same_log d d' /\ projection_cursors d' = projection_cursors d.
Proof.
  revert m d. induction regs as [|[p mode] regs IH]; intros m d; cbn [apply_sync]; [done|].
  destruct mode; cbn [is_sync negb]; [|apply IH].
  pose proof (applyProjector_same_log p e m d) as Hp.
  destruct (applyProjector p e m d) as [[m1 d1] [msg|]]; [done|].
  specialize (IH m1 d1). destruct (apply_sync regs e m1 d1) as [[m2 d2] err].
  destruct Hp as [Hp1 Hp2], IH as [IH1 IH2]. split; [by etrans | congruence].
Qed.

(** [d'] is [d] with the rows of [out] added, numbered from the next position. *)
Definition batch_added (out : list Event) (d d' : DB T) : Prop :=
  exists rows,
    events d' = events d ++ rows /\ length rows = length out /\
    contiguous row_position (events_seq d + 1) rows /\
    Forall2 (fun e r => Position e = u64 (row_position r) /\
                        exists payload, r = event_row (row_position r) e payload) out rows /\
    events_seq d' = events_seq d + Z.of_nat (length out) /\
    snapshots d' = snapshots d /\ skipped_events d' = skipped_events d /\
    event_subscriptions d' = event_subscriptions d.

Lemma batch_loop_spec regs now fresh fl i evs m (d : DB T) :
  let '(_, d', out, err) := batch_loop marshal regs now fresh fl i evs m d in
  length out = length evs /\
  (err = None -> batch_added out d d' /\ projection_cursors d' = projection_cursors d).
Proof.
  revert i m d. induction evs as [|e evs IH]; intros i m d; cbn [batch_loop].
  { split; [done|]. intros _. split; [|done]. exists []. rewrite app_nil_r, Z.add_0_r.
    repeat split; constructor. }
  destruct (is_empty (Kind e) || is_empty (Source e)); [done|].
  destruct (PayloadPtr e) as [p|]; [|done]. destruct (marshal p) as [payload|]; [|done].
  destruct (f_insert fl i); [done|]. cbn [insert_event]. destruct (f_last_id fl i); [done|].
  set (e' := set_Position _ _).
  match goal with |- context [apply_sync regs e' m ?d1] =>
    pose proof (apply_sync_same_log regs e' m d1) as Ha;
    destruct (apply_sync regs e' m d1) as [[m2 d2] [msg|]] end; [done|].
  specialize (IH (Datatypes.S i) m2 d2).
  destruct (batch_loop marshal regs now fresh fl (Datatypes.S i) evs m2 d2)
    as [[[m3 d3] out] err]. destruct IH as [Hlen IH]. split; [cbn; lia|].
  intros Herr. destruct (IH Herr) as ((rows & Hev & Hl & Hc & HF & Hseq & Hsn & Hsk & Hsub) & Hcur).
  destruct Ha as ((Aev & Aseq & Asn & Ask & Asub) & Acur). cbn in *.
  split; [|congruence].
  exists (event_row (events_seq d + 1) (fill_defaults now (fresh i) e) payload :: rows).
  rewrite Hev, <- Aev, <- app_assoc. cbn. rewrite <- Aseq in *.
  split; [done|]. split; [lia|]. split; [by split|].
  split; [constructor; [|done]; split; [done|by exists payload]|].
  rewrite Hseq, Hsn, Hsk, Hsub. repeat split; [lia | congruence..].
Qed.

Lemma batchTx_spec now fresh fl (st : Store M T * list Event) :
  let '(s', out, err) := batchTx marshal now fresh fl st in
  same_frame st.1 s' /\ length out = length st.2 /\
  match err with
  | Some _ => db s' = db st.1
  | None => batch_added out (db st.1) (db s') /\
      forall n, projection_cursors (db s') !! n =
        if decide (n ∈ sync_names (projectors st.1))
        then Some (default 0 (Position <$> last out))
        else projection_cursors (db st.1) !! n
  end.
Proof.
  destruct st as [s evs]. unfold batchTx. destruct (f_begin fl); [done|].
  pose proof (batch_loop_spec (projectors s) now fresh fl 0 evs (mem s) (db s)) as Hb.
  destruct (batch_loop _ _ _ _ _ _ _ _ _) as [[[m1 d1] out] [msg|]];
    destruct Hb as [Hlen Hb]; [done|].
  specialize (Hb eq_refl) as [(rows & ?&?&?&?&?&?&?&?) Hcur].
  pose proof (advance_cursors_spec (projectors s) fl (default 0 (Position <$> last out)) d1) as Ha.
  destruct (advance_cursors _ _ _ d1) as [d2 [msg|]]; [done|].
  destruct Ha as ((Aev & Aseq & Asn & Ask & Asub) & _ & Ac).
  destruct (f_commit fl); [done|]. do 2 (split; [done|]). cbn. split.
  - exists rows. rewrite <- Aev, <- Aseq, <- Asn, <- Ask, <- Asub. done.
  - intros n. rewrite (Ac eq_refl), Hcur. done.
Qed.

Lemma AppendBatch_cases now fresh fl done evs s :
  let '(s', r) := AppendBatch marshal now fresh fl done evs s in
  match r with
  | Err _ => same_frame s s' /\ db s' = db s
  | Ok ps =>
      (evs = [] /\ ps = [] /\ s' = s) \/
      exists out, evs <> [] /\ ps = Position <$> out /\ length out = length evs /\
        batch_added out (db s) (db s') /\
        latestPosition s' = default 0 (last ps) /\
        projectors s' = projectors s /\ cfg s' = cfg s /\ started s' = started s /\
        forall n, projection_cursors (db s') !! n =
          if decide (n ∈ sync_names (projectors s)) then Some (default 0 (last ps))
          else projection_cursors (db s) !! n
  end.
Proof.
  unfold AppendBatch. destruct evs as [|e0 evs0]; [by left|].
  set (evs := e0 :: evs0).
  match goal with |- context [withRetry ?f done (s, evs)] =>
    pose proof (withRetry_inv f done
      (fun st => same_frame s st.1 /\ db st.1 = db s /\ length st.2 = length evs)
      (fun st => same_frame s st.1 /\ length st.2 = length evs /\
         batch_added st.2 (db s) (db st.1) /\
         forall n, projection_cursors (db st.1) !! n =
           if decide (n ∈ sync_names (projectors s))
           then Some (default 0 (Position <$> last st.2))
           else projection_cursors (db s) !! n) (s, evs)) as Hr;
    destruct (withRetry f done (s, evs)) as [[s' out] err] end.
  lapply Hr; clear Hr.
  2: { intros i [s1 l1] (Hf & Hd & Hl). cbn in Hf, Hd, Hl.
    pose proof (batchTx_spec now fresh (fl i) (s1, l1)) as Ht. cbn [fst snd] in Ht.
    destruct (batchTx _ _ _ _ _) as [[s2 l2] [m2|]]; cbn [fst snd];
      destruct Ht as (Hf' & Hl' & Ht).
    - split; [by etrans | split; by etrans].
    - split; [by etrans|]. split; [by etrans|]. destruct Hf as (_&Hp&_).
      by rewrite Hp, Hd in Ht. }
  intros Hr. specialize (Hr (conj (reflexivity _) (conj eq_refl eq_refl))).
  destruct err; [split; apply Hr|].
  destruct Hr as ((Hc & Hp & Hl & Hst) & Hlen & Hb & Hcur). cbn [fst snd] in *.
  right. exists out. rewrite fmap_last. done.
Qed.

End Batch.

(** ** The log invariant *)

Section Invariant.
Context {M T : Type}.
Context (marshal : Payload -> result string string).
Implicit Type s : Store M T.

(** The rows are numbered 1, 2, 3, ... and the AUTOINCREMENT counter is their
    number. *)
Definition log_ok (d : DB T) : Prop :=
  contiguous row_position 1 (events d) /\ events_seq d = Z.of_nat (length (events d)).

(** The store's view of the log is current and no cursor runs ahead of it. *)
Definition store_ok s : Prop :=
  log_ok (db s) /\ latestPosition s = events_seq (db s) /\
  (forall n c, projection_cursors (db s) !! n = Some c -> c <= events_seq (db s)).

(** A write to the store, with its environment: time, fresh ids, faults. *)
Inductive store_op :=
  | OpAppend (now fresh : Z) (fl : nat -> TxFaults) (done : nat -> option string) (e : Event)
  | OpAppendBatch (now : Z) (fresh : nat -> Z) (fl : nat -> TxFaults)
      (done : nat -> option string) (evs : list Event).

Definition run_op (o : store_op) s : Store M T :=
  match o with
  | OpAppend now fresh fl done e => (Append marshal now fresh fl done e s).1
  | OpAppendBatch now fresh fl done evs => (AppendBatch marshal now fresh fl done evs s).1
  end.

(** How many rows the operation may add. *)
Definition op_size (o : store_op) : nat :=
  match o with OpAppend _ _ _ _ _ => 1 | OpAppendBatch _ _ _ _ evs => length evs end.

Definition grows s s' (k : nat) : Prop :=
  events_seq (db s') <= events_seq (db s) + Z.of_nat k /\
  exists rows, events (db s') = events (db s) ++ rows.

Lemma grows_same s s' k : db s' = db s -> grows s s' k.
Proof. intros Hd. unfold grows. rewrite Hd. split; [lia|]. exists []. by rewrite app_nil_r. Qed.

Lemma store_ok_frame s s' : same_frame s s' -> db s' = db s -> store_ok s -> store_ok s'.
Proof. intros (_&_&Hl&_) Hd. unfold store_ok. by rewrite Hl, Hd. Qed.

Lemma log_ok_app (d d' : DB T) rows :
  log_ok d -> events d' = events d ++ rows ->
  contiguous row_position (events_seq d + 1) rows ->
  events_seq d' = events_seq d + Z.of_nat (length rows) -> log_ok d'.
Proof.
  intros [Hc Hs] Hev Hrows Hseq. split.
  - rewrite Hev. apply contiguous_app. split; [done|].
    by replace (1 + Z.of_nat (length (events d))) with (events_seq d + 1) by lia.
  - rewrite Hseq, Hev, length_app. lia.
Qed.

Lemma run_op_ok o s :
  store_ok s -> events_seq (db s) + Z.of_nat (op_size o) < 2 ^ 63 ->
  store_ok (run_op o s) /\ grows s (run_op o s) (op_size o).
Proof.
  intros Hok Hroom. pose proof Hok as (Hlog & Hlat & Hcur).
  assert (0 <= events_seq (db s)) by (destruct Hlog; lia).
  destruct o as [now fresh fl done e|now fresh fl done evs]; cbn [run_op op_size] in *.
  - pose proof (Append_cases marshal now fresh fl done e s) as Ha.
    destruct (Append _ _ _ _ _ _ _) as [s' [pos|err]]; cbn.
    + destruct Ha as (p & payload & _ & _ & _ & _ & -> & Happ & Hl & _).
      destruct Happ as (Hev & Hseq & _ & _ & _ & Hc).
      assert (log_ok (db s')) by (eapply log_ok_app; [done | done | by cbn | done]).
      split.
      * split; [done|]. split.
        -- rewrite u64_small in Hl by lia. lia.
        -- intros n c. rewrite Hc, Hseq. case_decide; [intros [= <-]|intros ?%Hcur; lia].
           rewrite u64_small; lia.
      * split; [lia|]. eauto.
    + destruct Ha as [Hf Hd]. split; [by eapply store_ok_frame | by apply grows_same].
  - pose proof (AppendBatch_cases marshal now fresh fl done evs s) as Ha.
    destruct (AppendBatch _ _ _ _ _ _ _) as [s' [ps|err]]; cbn.
    + destruct Ha as [(-> & -> & ->)|(out & Hne & -> & Hlen & Hb & Hl & _ & _ & _ & Hc)];
        [split; [done | by apply grows_same] |].
      destruct Hb as (rows & Hev & Hlr & Hcr & HF & Hseq & _).
      assert (Hlast : default 0 (last (Position <$> out)) = events_seq (db s')).
      { destruct (last out) as [e|] eqn:He.
        2: { apply last_None in He. subst. by destruct evs. }
        rewrite fmap_last, He. cbn. apply last_Some in He as [out' ->].
        apply Forall2_app_inv_l in HF as (r1 & r2 & HF1 & HF2 & ->).
        inversion HF2 as [|? r ? ? [Hp _] HF3]; subst. inversion HF3; subst.
        apply contiguous_app in Hcr as [_ [Hr _]].
        apply Forall2_length in HF1. rewrite length_app in Hlen, Hseq, Hlr.
        cbn in Hlen, Hseq. rewrite Hp, u64_small; lia. }
      assert (log_ok (db s')) by (eapply log_ok_app; [done | done | done | by rewrite Hlr]).
      split.
      * split; [done|]. split.
        -- by rewrite Hl.
        -- intros n c. rewrite Hc. case_decide; [intros [= <-]; lia|intros ?%Hcur; lia].
      * split; [lia|]. eauto.
    + destruct Ha as [Hf Hd]. split; [by eapply store_ok_frame | by apply grows_same].
Qed.

Definition run_ops (os : list store_op) s : Store M T := foldl (fun s o => run_op o s) s os.

Definition ops_size (os : list store_op) : nat := foldr (fun o n => op_size o + n)%nat 0%nat os.

Lemma run_ops_ok os s :
  store_ok s -> events_seq (db s) + Z.of_nat (ops_size os) < 2 ^ 63 ->
  store_ok (run_ops os s) /\ exists rows, events (db (run_ops os s)) = events (db s) ++ rows.
Proof.
  revert s. induction os as [|o os IH]; intros s Hok Hroom.
  - split; [done|]. exists []. by rewrite app_nil_r.
  - change (ops_size (o :: os)) with (op_size o + ops_size os)%nat in Hroom.
    change (run_ops (o :: os) s) with (run_ops os (run_op o s)).
    destruct (run_op_ok o s Hok) as [Hok' [Hg [rows Hr]]]; [lia|].
    destruct (IH (run_op o s) Hok') as [Hok'' [rows' Hr']]; [lia|].
    split; [done|]. exists (rows ++ rows'). by rewrite app_assoc, <- Hr.
Qed.

End Invariant.

(** ** Queries *)

Section Query.
Context {T : Type}.
Context (unmarshal : string -> result string Payload).
Implicit Type d : DB T.

(** The rows a range query reads are a slice of the log. *)
Lemma select_range_slice d from to limit :
  log_ok d -> 0 <= from -> 0 <= limit -> to = 0 \/ from <= to ->
  select_range from to limit d =
  take (Z.to_nat limit)
    ((if to =? 0 then id else take (Z.to_nat (to - from))) (drop (Z.to_nat from) (events d))).
Proof.
  intros [Hc _] Hf Hl Hto. unfold select_range, sql_limit.
  destruct (Z.ltb_spec limit 0); [lia|]. f_equal.
  destruct (Z.eqb_spec to 0) as [->|Hne].
  - transitivity (filter (fun r => from < row_position r) (events d)).
    { apply list_filter_iff. tauto. }
    rewrite (contiguous_filter_gt _ 1) by (done || lia). unfold id. f_equal. lia.
  - transitivity (filter (fun r => from < row_position r /\ row_position r <= to) (events d)).
    { apply list_filter_iff. intros. split; [intros [? [?|?]] | intros []]; auto with lia. }
    rewrite (contiguous_filter_range _ 1) by (done || lia).
    replace (from - (1 - 1)) with from by lia. done.
Qed.

Definition page_size (limit : Z) : Z := if limit <=? 0 then 1000 else limit.

Lemma Query_slice d evs q :
  log_ok d -> mapM (scanEvent unmarshal) (events d) = Ok evs ->
  0 <= FromPosition q -> ToPosition q = 0 \/ FromPosition q <= ToPosition q ->
  Query unmarshal q d =
  Ok (filter (fun e => Matches (QFilter q) e = true)
        (take (Z.to_nat (page_size (Limit q)))
           ((if ToPosition q =? 0 then id
             else take (Z.to_nat (ToPosition q - FromPosition q)))
              (drop (Z.to_nat (FromPosition q)) evs)))).
Proof.
  intros Hlog Hevs Hf Hto. unfold Query. fold (page_size (Limit q)).
  rewrite select_range_slice; [|done..|unfold page_size; case_match; lia|done].
  assert (mapM (scanEvent unmarshal)
    (take (Z.to_nat (page_size (Limit q)))
           ((if ToPosition q =? 0 then id
             else take (Z.to_nat (ToPosition q - FromPosition q)))
              (drop (Z.to_nat (FromPosition q)) (events d)))) =
    Ok (take (Z.to_nat (page_size (Limit q)))
           ((if ToPosition q =? 0 then id
             else take (Z.to_nat (ToPosition q - FromPosition q)))
              (drop (Z.to_nat (FromPosition q)) evs)))) as ->; [|done].
  apply result_mapM_take. case_match; [|apply result_mapM_take]; by apply result_mapM_drop.
Qed.

(** What [scanEvent] reads back from the row [Append] wrote. *)
Lemma scanEvent_event_row pos e p payload :
  PayloadPtr e = Some p -> unmarshal payload = Ok p ->
  0 <= CausePosition e < 2 ^ 64 ->
  scanEvent unmarshal (event_row pos e payload) = Ok (set_Position (u64 pos) e).
Proof.
  intros Hp Hu Hc. unfold scanEvent, event_row, set_Position. cbn. rewrite Hu. cbn. f_equal.
  unfold is_empty.
  assert (default "" (if String.eqb (Entity e) "" then None else Some (Entity e)) = Entity e) as ->.
  { destruct (String.eqb_spec (Entity e) "") as [->|]; done. }
  assert (default uuid_Nil (if CorrelationID e =? uuid_Nil then None else Some (CorrelationID e))
          = CorrelationID e) as ->.
  { destruct (Z.eqb_spec (CorrelationID e) uuid_Nil) as [->|]; done. }
  assert ((match (if CausePosition e >? 0 then Some (i64 (CausePosition e)) else None)
           with Some c => u64 c | None => 0 end) = CausePosition e) as ->.
  { destruct (CausePosition e >? 0) eqn:Hgt; [by apply u64_i64 | lia]. }
  by rewrite Hp.
Qed.

End Query.

(** ** Transactional projector memory

    What the store needs of its projectors for a failed write to leave no
    trace in memory: a part [vis] of the memory that readers see and [Apply]
    does not touch, and a predicate [clean] of memories with no transaction
    under way, which [Discard] and [Promote] restore. *)
Class TxMemory {M T V : Type} (regs : list (Projector M T * ProjectorMode))
    (vis : M -> V) (clean : M -> Prop) : Prop := {
  tx_apply_vis : forall p mode e m t,
    (p, mode) ∈ regs -> vis (Apply p e m t).1.1 = vis m;
  tx_discard_vis : forall m, vis (discard_all regs m) = vis m;
  tx_discard_clean : forall m, clean (discard_all regs m);
  tx_promote_clean : forall m, clean (promote_all regs m);
  tx_clean_inj : forall m m', clean m -> clean m' -> vis m = vis m' -> m = m';
}.

Section TxMemory.
Context {M T V : Type} {vis : M -> V} {clean : M -> Prop}.
Context (marshal : Payload -> result string string).
Implicit Type s : Store M T.

Lemma with_mem_id s m : m = mem s -> with_mem m s = s.
Proof. intros ->. by destruct s. Qed.

Lemma applyProjector_vis (p : Projector M T) e m d v :
  vis (Apply p e m (tables d)).1.1 = v -> vis (applyProjector p e m d).1.1 = v.
Proof. unfold applyProjector. by destruct (Apply p e m (tables d)) as [[m' t'] [msg|]]. Qed.

Lemma apply_and_advance_vis all regs fl e m (d : DB T) `{!TxMemory all vis clean} :
  (forall x, x ∈ regs -> x ∈ all) -> vis (apply_and_advance regs fl e m d).1.1 = vis m.
Proof.
  revert m d. induction regs as [|[p mode] regs IH]; intros m d Hall; cbn [apply_and_advance];
    [done|].
  destruct mode; cbn [is_sync negb]; [|apply IH; set_solver].
  pose proof (applyProjector_vis p e m d (vis m)
    (tx_apply_vis p ProjectorModeSync e m (tables d) (Hall _ (list_elem_of_here _ _)))) as Hv.
  destruct (applyProjector p e m d) as [[m1 d1] [msg|]]; [done|].
  destruct (f_cursor fl (Name p)); [done|]. cbn in Hv. rewrite <- Hv. apply IH. set_solver.
Qed.

(** A failed attempt leaves the store exactly as it was. *)
Lemma appendTx_Err e payload fl s `{!TxMemory (projectors s) vis clean} :
  clean (mem s) ->
  let '(s', _, err) := appendTx e payload fl s in
  match err with Some _ => s' = s | None => clean (mem s') end.
Proof.
  intros Hc.
  assert (Hd : forall m, vis m = vis (mem s) -> with_mem (discard_all (projectors s) m) s = s).
  { intros m Hm. apply with_mem_id, tx_clean_inj; [apply tx_discard_clean | done |].
    by rewrite tx_discard_vis. }
  unfold appendTx. destruct (f_begin fl); [done|].
  destruct (f_insert fl 0%nat); [by apply Hd|].
  cbn [insert_event]. destruct (f_last_id fl 0%nat); [by apply Hd|].
  match goal with |- context [apply_and_advance ?r ?f ?x ?m ?d] =>
    pose proof (apply_and_advance_vis r r f x m d (fun _ H => H)) as Hv;
    destruct (apply_and_advance r f x m d) as [[m2 d2] [msg|]] end; [by apply Hd|].
  destruct (f_commit fl); [by apply Hd|]. apply tx_promote_clean.
Qed.

Lemma Append_tx now fresh fl done e s `{!TxMemory (projectors s) vis clean} :
  clean (mem s) ->
  let '(s', r) := Append marshal now fresh fl done e s in
  match r with
  | Err _ => s' = s
  | Ok pos => exists i payload s1,
      appendTx (fill_defaults now fresh e) payload (fl i) s = (s1, pos, None) /\
      s' = with_latest (Z.max (latestPosition s) pos) s1 /\ clean (mem s')
  end.
Proof.
  intros Hc. unfold Append.
  destruct (is_empty (Kind e)); [done|]. destruct (is_empty (Source e)); [done|].
  destruct (PayloadPtr e) as [p|]; [|done]. destruct (marshal p) as [payload|]; [|done].
  match goal with |- context [withRetry ?f done (s, 0)] =>
    pose proof (withRetry_inv f done (fun st => st.1 = s)
      (fun st => clean (mem st.1) /\ exists i,
         appendTx (fill_defaults now fresh e) payload (fl i) s = (st.1, st.2, None)) (s, 0)) as Hr;
    destruct (withRetry f done (s, 0)) as [[s' pos] err] end.
  lapply Hr; clear Hr.
  2: { intros i [s1 p1] Hs. cbn in Hs. subst s1. cbn [fst].
    pose proof (appendTx_Err (fill_defaults now fresh e) payload (fl i) s Hc) as Ht.
    destruct (appendTx _ _ _ s) as [[s2 pos2] [m2|]] eqn:Heq; cbn; [done|]. eauto. }
  intros Hr. specialize (Hr eq_refl). destruct err; [done|].
  destruct Hr as (Hcl & i & Hi). cbn in Hcl, Hi.
  pose proof (appendTx_spec (fill_defaults now fresh e) payload (fl i) s) as Hs.
  rewrite Hi in Hs. destruct Hs as ((_ & _ & Hl & _) & _).
  exists i, payload, s'. split; [done|]. rewrite <- Hl.
  destruct (pos >? latestPosition s') eqn:Hgt; (split; [|done]).
  - f_equal. lia.
  - rewrite Z.max_l by lia. by destruct s'.
Qed.

End TxMemory.

(** ** The store's guarantees *)

(** A codec and a store for the witnesses: only webhook payloads encode. *)
Module Example.

Definition marshal (p : Payload) : result string string :=
  match p with Some (Payload_WebhookReceived s) => Ok s | _ => Err "unsupported" end.
Definition unmarshal (b : string) : result string Payload :=
  Ok (Some (Payload_WebhookReceived b)).

Lemma codec p b : marshal p = Ok b -> unmarshal b = Ok p.
Proof. destruct p as [[]|]; cbn; by intros [= <-]. Qed.

Definition ev (s : string) : Event :=
  mkEvent 0 5 "webhook_received" "" "test" 7 0 (Some (Some (Payload_WebhookReceived s))).

Definition cfg0 : Config := withDefaults (mkConfig 0 0 0 0).
Definition db0 : DB unit := mkDB [] 0 ∅ [] ∅ ∅ ().
Definition store0 : Store unit unit := Open cfg0 db0 ().

(** The first attempt of the transaction finds the database locked. *)
Definition busy_once (i : nat) : TxFaults :=
  if (i =? 0)%nat then mkTxFaults (Some "database is locked") (fun _ => None)
                         (fun _ => None) (fun _ => None) None
  else no_faults.

Definition never (_ : nat) : option string := None.

Lemma store0_ok : store_ok store0.
Proof. split; [done|]. split; [done|]. intros n c Hc. cbn in Hc. by apply lookup_empty_Some in Hc. Qed.

End Example.

Section Guarantees.
Context {M T : Type}.
Context (marshal : Payload -> result string string).
Context (unmarshal : string -> result string Payload).
Implicit Type s : Store M T.

(** C1. The log invariant. Along any sequence of [Append] and [AppendBatch]
    calls, whatever database faults and cancellations strike them, the rows of
    the log stay numbered 1, 2, 3, ... without gap or reuse, the published
    latest position is the last row's, no projector cursor runs ahead of the
    log, and no committed row is ever changed or lost. *)
Theorem log_invariant os s :
  store_ok s -> events_seq (db s) + Z.of_nat (ops_size os) < 2 ^ 63 ->
  store_ok (run_ops marshal os s) /\
  exists rows, events (db (run_ops marshal os s)) = events (db s) ++ rows.
Proof. apply run_ops_ok. Qed.

(** C6. [Append] is atomic and its result is exact. On error neither the
    database nor the published position changes. On success exactly one row,
    holding the event with its defaults filled in, has been added at the next
    position; that position is returned, becomes the latest, and is the cursor
    of every synchronous projector and of no other. *)
Theorem Append_atomic now fresh fl done e s :
  let '(s', r) := Append marshal now fresh fl done e s in
  match r with
  | Err _ => same_frame s s' /\ db s' = db s
  | Ok pos =>
      exists p payload, PayloadPtr e = Some p /\ marshal p = Ok payload /\
        Kind e <> "" /\ Source e <> "" /\
        pos = u64 (events_seq (db s) + 1) /\
        appended (fill_defaults now fresh e) payload s s' /\
        latestPosition s' = Z.max (latestPosition s) pos /\
        projectors s' = projectors s /\ cfg s' = cfg s /\ started s' = started s
  end.
Proof. apply Append_cases. Qed.

(** [AppendBatch] is all-or-nothing: on error the log is untouched; on
    success every event of the batch is in the log, in order, at consecutive
    positions starting right after the old log, and those are the positions
    returned. *)
Theorem AppendBatch_all_or_nothing now fresh fl done evs s :
  let '(s', r) := AppendBatch marshal now fresh fl done evs s in
  match r with
  | Err _ => same_frame s s' /\ db s' = db s
  | Ok ps => exists out rows,
      length out = length evs /\ ps = Position <$> out /\
      events (db s') = events (db s) ++ rows /\
      contiguous row_position (events_seq (db s) + 1) rows /\
      Forall2 (fun e r => Position e = u64 (row_position r) /\
                          exists payload, r = event_row (row_position r) e payload) out rows
  end.
Proof.
  pose proof (AppendBatch_cases marshal now fresh fl done evs s) as Ha.
  destruct (AppendBatch _ _ _ _ _ _ _) as [s' [ps|err]]; [|done].
  destruct Ha as [(-> & -> & ->)|(out & _ & -> & Hlen & (rows & Hev & _ & Hc & HF & _) & _)].
  - exists [], []. by rewrite app_nil_r.
  - by exists out, rows.
Qed.

(** Write-read round trip: an event appended at [pos] is what a query for
    the range [(pos-1, pos]] returns, with its position and defaults filled
    in, if decoding inverts encoding. *)
Theorem append_query_roundtrip now fresh fl done e s s' pos lim :
  (forall p b, marshal p = Ok b -> unmarshal b = Ok p) ->
  store_ok s -> events_seq (db s) + 1 < 2 ^ 63 -> 0 <= CausePosition e < 2 ^ 64 ->
  Append marshal now fresh fl done e s = (s', Ok pos) ->
  Query unmarshal (mkQueryOptions (pos - 1) pos Filter_zero lim) (db s') =
  Ok [set_Position pos (fill_defaults now fresh e)].
Proof.
  intros Hcodec Hok Hroom Hcp Happ.
  pose proof (Append_cases marshal now fresh fl done e s) as Ha. rewrite Happ in Ha.
  destruct Ha as (p & payload & Hp & Hm & _ & _ & -> & (Hev & Hseq & _) & _).
  destruct Hok as ((Hc & Hlen) & _).
  assert (Hlog : log_ok (db s')) by (eapply log_ok_app; [by split | done | by cbn | done]).
  rewrite u64_small by lia. unfold Query. cbn [FromPosition ToPosition QFilter Limit].
  rewrite select_range_slice; [|done|lia|case_match; lia|lia].
  destruct (Z.eqb_spec (events_seq (db s) + 1) 0); [lia|].
  rewrite Hev, drop_app_length' by lia.
  rewrite (take_ge [_]) by (cbn; lia). rewrite (take_ge [_]) by (cbn; case_match; lia).
  cbn [mapM]. erewrite scanEvent_event_row; [|exact Hp|by apply Hcodec|done].
  cbn [mbind result_bind mret result_ret].
  rewrite filter_cons_True by apply Matches_zero. by rewrite u64_small by lia.
Qed.

(** C29. [Query] is exact on a log that decodes: it returns, in log order, the matching
    events of the page of at most [Limit] rows (1000 by default) that starts right after
    [FromPosition] and ends at [ToPosition], or at the end of the log when that is zero.
    The limit counts rows, not matches. *)
Theorem Query_exact (d : DB T) evs q :
  log_ok d -> mapM (scanEvent unmarshal) (events d) = Ok evs ->
  0 <= FromPosition q -> ToPosition q = 0 \/ FromPosition q <= ToPosition q ->
  Query unmarshal q d =
  Ok (filter (fun e => Matches (QFilter q) e = true)
        (take (Z.to_nat (page_size (Limit q)))
           ((if ToPosition q =? 0 then id
             else take (Z.to_nat (ToPosition q - FromPosition q)))
              (drop (Z.to_nat (FromPosition q)) evs)))).
Proof. apply Query_slice. Qed.

End Guarantees.

Section Faults.
Context {M T V : Type} {vis : M -> V} {clean : M -> Prop}.
Context (marshal : Payload -> result string string).
Implicit Type s : Store M T.

(** C8. A failed [Append] leaves no trace: with projectors whose memory is
    transactional, the whole store (log, tables, cursors, projector memory,
    published position) is the one before the call, however many attempts were
    made and wherever they failed; and a successful one is a single clean
    attempt, earlier failed attempts having had no effect. *)
Theorem Append_failure_invisible now fresh fl done e s `{!TxMemory (projectors s) vis clean} :
  clean (mem s) ->
  let '(s', r) := Append marshal now fresh fl done e s in
  match r with
  | Err _ => s' = s
  | Ok pos => exists i payload s1,
      appendTx (fill_defaults now fresh e) payload (fl i) s = (s1, pos, None) /\
      s' = with_latest (Z.max (latestPosition s) pos) s1 /\ clean (mem s')
  end.
Proof. exact (Append_tx marshal now fresh fl done e s). Qed.

End Faults.

(** The retry loop calls the transaction at least once and at most five
    times (one attempt and one per backoff), and counting the calls does not
    change what it computes. *)
Theorem withRetry_attempts {S} (fn : nat -> S -> S * option string) done (s : S) :
  let '((n, s'), err) := withRetry (counted fn) done (0%nat, s) in
  (1 <= n <= 5)%nat /\ (s', err) = withRetry fn done s.
Proof.
  unfold withRetry. pose proof (withRetry_from_count fn done (length backoffs) 0 0 s) as H.
  destruct (withRetry_from _ _ _ _ _) as [[n s'] err]. cbn in H. split; [lia | apply H].
Qed.

(** *** Witnesses *)

Lemma log_invariant_witness :
  store_ok (run_ops Example.marshal
    [OpAppend 1 2 Example.busy_once Example.never (Example.ev "a");
     OpAppendBatch 1 (fun _ => 3) Example.busy_once Example.never
       [Example.ev "b"; Example.ev "c"]] Example.store0) /\
  exists rows, events (db (run_ops Example.marshal
    [OpAppend 1 2 Example.busy_once Example.never (Example.ev "a");
     OpAppendBatch 1 (fun _ => 3) Example.busy_once Example.never
       [Example.ev "b"; Example.ev "c"]] Example.store0)) = events (db Example.store0) ++ rows.
Proof. apply log_invariant; [exact Example.store0_ok | vm_compute; reflexivity]. Defined.

Lemma append_query_roundtrip_witness :
  Query Example.unmarshal (mkQueryOptions 0 1 Filter_zero 0)
    (db (Append Example.marshal 1 2 Example.busy_once Example.never (Example.ev "a")
           Example.store0).1) =
  Ok [set_Position 1 (fill_defaults 1 2 (Example.ev "a"))].
Proof.
  apply (append_query_roundtrip Example.marshal Example.unmarshal 1 2 Example.busy_once
    Example.never (Example.ev "a") Example.store0 _ 1 0).
  - exact Example.codec.
  - exact Example.store0_ok.
  - vm_compute; reflexivity.
  - vm_compute; split; congruence.
  - vm_compute; reflexivity.
Defined.

Lemma Query_exact_witness :
  let d := db (run_ops Example.marshal
    [OpAppendBatch 1 (fun _ => 3) Example.busy_once Example.never
       [Example.ev "b"; Example.ev "c"]] Example.store0) in
  exists evs, mapM (scanEvent Example.unmarshal) (events d) = Ok evs /\
  Query Example.unmarshal (mkQueryOptions 1 2 Filter_zero 10) d =
  Ok (filter (fun e => Matches Filter_zero e = true)
        (take (Z.to_nat (page_size 10)) (take (Z.to_nat (2 - 1)) (drop (Z.to_nat 1) evs)))).
Proof.
  eexists. split; [vm_compute; reflexivity|].
  apply (Query_exact Example.unmarshal _ _ (mkQueryOptions 1 2 Filter_zero 10)).
  - split; vm_compute; [repeat split | reflexivity].
  - vm_compute. reflexivity.
  - cbn. lia.
  - cbn. lia.
Defined.
