(* ===== verification/ReplayFacts.v ===== *)
(** * Snapshots and replay

    Pruning keeps the newest snapshots; the batched, committing [Replay] of
    [internal/eventstore/replay.go] terminates and computes what one pass over
    the log would. *)

From S2P Require Import Prelude Events EventStore EventStoreFacts.

(** ** Pruning *)

Section Prune.
Context {T : Type}.
Implicit Type d : DB T.

Lemma elem_of_owner_positions owner l p :
  p ∈ owner_positions owner l <->
  exists r, r ∈ l /\ snap_owner r = owner /\ snap_position r = p.
Proof.
  unfold owner_positions. rewrite merge_sort_Permutation, list_elem_of_fmap.
  setoid_rewrite list_elem_of_filter. naive_solver.
Qed.

Lemma filter_elem_take {A} `{EqDecision A} (l : list A) n :
  NoDup l -> filter (fun x => x ∈ take n l) l = take n l.
Proof.
  intros Hnd. transitivity (filter (fun x => x ∈ take n l) (take n l ++ drop n l));
    [by rewrite take_drop|]. rewrite filter_app.
  rewrite <- (take_drop n l) in Hnd. apply NoDup_app in Hnd as (_ & Hd & _).
  rewrite list_filter_all by done. rewrite list_filter_none by (intros x ? ?; by eapply Hd).
  apply app_nil_r.
Qed.

Lemma sql_limit_take {A} n (l : list A) : 0 <= n -> sql_limit n l = take (Z.to_nat n) l.
Proof. intros. unfold sql_limit. by destruct (Z.ltb_spec n 0); [lia|]. Qed.

(** The positions of an owner's snapshots after pruning. *)
Lemma prune_owner_positions owner retain d :
  0 <= retain -> NoDup (snap_position <$> snapshots d) ->
  length (filter (fun r => snap_owner r = owner) (snapshots (prune owner retain d))) =
  (Z.to_nat retain `min`
   length (filter (fun r => snap_owner r = owner) (snapshots d)))%nat.
Proof.
  intros Hr Hnd. unfold prune. cbn [snapshots with_snapshots]. rewrite sql_limit_take by done.
  set (own := filter (fun r => snap_owner r = owner) (snapshots d)).
  set (srt := owner_positions owner (snapshots d)).
  assert (Hp : srt ≡ₚ snap_position <$> own) by apply merge_sort_Permutation.
  assert (Hs : NoDup srt).
  { rewrite Hp. eapply sublist_NoDup; [exact Hnd|]. apply fmap_sublist, sublist_filter. }
  transitivity (length (filter (fun p => p ∈ take (Z.to_nat retain) srt) (snap_position <$> own))).
  - rewrite list_filter_filter, filter_fmap, length_fmap. f_equal.
    unfold own. rewrite list_filter_filter. apply list_filter_iff. naive_solver.
  - rewrite <- Hp, filter_elem_take by done. rewrite length_take. f_equal.
    by rewrite Hp, length_fmap.
Qed.

(** Snapshot retention: pruning an owner leaves every other owner's
    snapshots alone, keeps exactly the newest [retain] snapshots of the owner
    (all of them if there are fewer), and touches nothing else. *)
Theorem prune_keeps_newest owner retain d :
  0 <= retain -> NoDup (snap_position <$> snapshots d) ->
  let d' := prune owner retain d in
  filter (fun r => snap_owner r <> owner) (snapshots d') =
    filter (fun r => snap_owner r <> owner) (snapshots d) /\
  length (filter (fun r => snap_owner r = owner) (snapshots d')) =
    (Z.to_nat retain `min` length (filter (fun r => snap_owner r = owner) (snapshots d)))%nat /\
  (forall r r', r ∈ snapshots d' -> snap_owner r = owner ->
     r' ∈ snapshots d -> snap_owner r' = owner -> r' ∉ snapshots d' ->
     snap_position r' < snap_position r) /\
  d' = with_snapshots (snapshots d') d.
Proof.
  intros Hr Hnd d'. split; [|split; [by apply prune_owner_positions|split; [|done]]].
  - cbn [d' prune snapshots with_snapshots]. rewrite list_filter_filter.
    apply list_filter_iff. naive_solver.
  - intros r r' Hin Ho Hin' Ho' Hout. cbn [d' prune snapshots with_snapshots] in *.
    rewrite list_elem_of_filter in Hin, Hout. destruct Hin as [[?|Hk] Hin]; [done|].
    assert (Hk' : snap_position r' ∉ sql_limit retain (owner_positions owner (snapshots d)))
      by naive_solver.
    rewrite sql_limit_take in Hk, Hk' by done.
    assert (Hs : snap_position r' ∈ owner_positions owner (snapshots d))
      by (apply elem_of_owner_positions; eauto).
    pose proof (StronglySorted_merge_sort Z_desc
      (snap_position <$> filter (fun r => snap_owner r = owner) (snapshots d))) as Hsort.
    change (merge_sort _ _) with (owner_positions owner (snapshots d)) in Hsort.
    rewrite <- (take_drop (Z.to_nat retain) (owner_positions owner (snapshots d))) in Hs, Hsort.
    apply elem_of_app in Hs as [?|Hs]; [done|].
    pose proof (StronglySorted_app_1_elem_of _ _ _ _ _ Hsort Hk Hs) as Hle.
    unfold Z_desc in Hle.
    assert (snap_position r <> snap_position r') by congruence. lia.
Qed.

End Prune.

Lemma prune_keeps_newest_witness :
  let d : DB unit := mkDB [] 0 ∅
    [mkSnapshotRow 1 0 "a" "" ""; mkSnapshotRow 2 0 "b" "" "";
     mkSnapshotRow 3 0 "a" "" ""; mkSnapshotRow 4 0 "a" "" ""] ∅ ∅ () in
  length (filter (fun r => snap_owner r = "a") (snapshots (prune "a" 2 d))) = 2%nat /\
  snap_position <$> snapshots (prune "a" 2 d) = [2; 3; 4].
Proof.
  intros d. split; [|by vm_compute].
  destruct (prune_keeps_newest "a" 2 d) as (_ & H & _);
    [lia | apply (bool_decide_unpack _); by vm_compute | exact H].
Defined.

(** ** Replay *)

(** What [Replay] needs of the projectors: an equivalence of memories that
    [Promote] does not leave and under which every [Apply] behaves the same.
    Committing between batches is then invisible to the result. *)
Class ReplayMemory {M T : Type} (regs : list (Projector M T * ProjectorMode))
    (R : relation M) : Prop := {
  rm_equiv :: Equivalence R;
  rm_promote : forall m, R (promote_all regs m) m;
  rm_apply : forall p mode e m m' t, (p, mode) ∈ regs -> R m m' ->
    R (Apply p e m t).1.1 (Apply p e m' t).1.1 /\
    (Apply p e m t).1.2 = (Apply p e m' t).1.2 /\ (Apply p e m t).2 = (Apply p e m' t).2;
}.

Section Replay.
Context {M T : Type} {R : relation M}.
Context (unmarshal : string -> result string Payload).
Implicit Type s : Store M T.
Implicit Type regs : list (Projector M T * ProjectorMode).

(** Databases that agree on what [replayBatch] reads. *)
Definition dsim (d d' : DB T) : Prop :=
  events d = events d' /\ skipped_events d = skipped_events d' /\ tables d = tables d'.

#[export] Instance dsim_equivalence : Equivalence dsim.
Proof. split; unfold dsim; [intros ? | intros ?? | intros ???]; naive_solver congruence. Qed.

(** Equal error, and equivalent states whatever it is. *)
Definition rsim (x y : M * DB T * option replay_error) : Prop :=
  R x.1.1 y.1.1 /\ dsim x.1.2 y.1.2 /\ x.2 = y.2.

Lemma replay_event_sim all regs e m m' d d' `{!ReplayMemory all R} :
  (forall x, x ∈ regs -> x ∈ all) -> R m m' -> dsim d d' ->
  rsim (replay_event regs e m d) (replay_event regs e m' d').
Proof.
  revert m m' d d'. induction regs as [|[p mode] regs IH]; intros m m' d d' Hall Hm Hd;
    cbn [replay_event]; [done|].
  destruct mode; cbn [is_sync negb]; [|apply IH; [set_solver | done..]].
  assert (isSkipped (Position e) (Name p) d = isSkipped (Position e) (Name p) d') as ->.
  { unfold isSkipped. by destruct Hd as (_ & -> & _). }
  destruct (isSkipped _ _ d'); [apply IH; [set_solver | done..]|].
  destruct (rm_apply p ProjectorModeSync e m m' (tables d)
    (Hall _ (list_elem_of_here _ _)) Hm) as (H1 & H2 & H3).
  unfold applyProjector. destruct Hd as (Hd1 & Hd2 & Hd3). rewrite <- Hd3.
  destruct (Apply p e m (tables d)) as [[m1 t1] err1],
    (Apply p e m' (tables d)) as [[m2 t2] err2]. cbn in H1, H2, H3. subst t2 err2.
  destruct err1 as [msg|]; [done|]. apply IH; [set_solver | done | done].
Qed.

Lemma replay_events_sim regs evs m m' d d' `{!ReplayMemory regs R} :
  R m m' -> dsim d d' -> rsim (replay_events regs evs m d) (replay_events regs evs m' d').
Proof.
  revert m m' d d'. induction evs as [|e evs IH]; intros m m' d d' Hm Hd;
    cbn [replay_events]; [done|].
  pose proof (replay_event_sim regs regs e m m' d d' (fun _ H => H) Hm Hd) as He.
  destruct (replay_event regs e m d) as [[m1 d1] err1],
    (replay_event regs e m' d') as [[m2 d2] err2]. destruct He as (H1 & H2 & H3).
  cbn in H1, H2, H3. subst err2. destruct err1; [done | by apply IH].
Qed.

Lemma replay_events_app regs evs1 evs2 m d :
  replay_events regs (evs1 ++ evs2) m d =
  let '(m1, d1, err) := replay_events regs evs1 m d in
  match err with Some x => (m1, d1, Some x) | None => replay_events regs evs2 m1 d1 end.
Proof.
  revert m d. induction evs1 as [|e evs1 IH]; intros m d; cbn [replay_events app]; [done|].
  destruct (replay_event regs e m d) as [[m1 d1] [x|]]; [done | apply IH].
Qed.

Lemma replay_event_log regs e m d :
  same_log d (replay_event regs e m d).1.2.
Proof.
  revert m d. induction regs as [|[p mode] regs IH]; intros m d; cbn [replay_event]; [done|].
  destruct (negb (is_sync mode)); [apply IH|]. destruct (isSkipped _ _ d); [apply IH|].
  pose proof (applyProjector_same_log p e m d) as Hp.
  destruct (applyProjector p e m d) as [[m1 d1] [msg|]]; [apply Hp|].
  etrans; [apply Hp | apply IH].
Qed.

Lemma replay_events_log regs evs m d : same_log d (replay_events regs evs m d).1.2.
Proof.
  revert m d. induction evs as [|e evs IH]; intros m d; cbn [replay_events]; [done|].
  pose proof (replay_event_log regs e m d) as He.
  destruct (replay_event regs e m d) as [[m1 d1] [msg|]]; [apply He|].
  etrans; [apply He | apply IH].
Qed.

(** The decoded event at index [i] of the log carries position [i + 1]. *)
Lemma scan_positions (d : DB T) evs i e :
  log_ok d -> events_seq d < 2 ^ 63 -> mapM (scanEvent unmarshal) (events d) = Ok evs ->
  evs !! i = Some e -> Position e = Z.of_nat i + 1.
Proof.
  intros [Hc Hs] Hb HF Hi. apply result_mapM_Forall2 in HF.
  destruct (Forall2_lookup_r _ _ _ _ _ HF Hi) as (r & Hr & Hsc).
  unfold scanEvent in Hsc. destruct (unmarshal (row_payload r)); [|done].
  injection Hsc as <-. cbn [Position].
  assert (Hp : row_position r = 1 + Z.of_nat i).
  { rewrite <- (take_drop_middle _ _ _ Hr) in Hc. apply contiguous_app in Hc as [_ [Hc _]].
    rewrite Hc, length_take_le; [done|]. apply lookup_lt_Some in Hr. lia. }
  apply lookup_lt_Some in Hr. rewrite u64_small; lia.
Qed.

(** The decoded log of the store, all of it readable. *)
Definition readable_log (d : DB T) (evs : list Event) : Prop :=
  log_ok d /\ events_seq d < 2 ^ 63 /\ mapM (scanEvent unmarshal) (events d) = Ok evs.

Lemma readable_log_length d evs : readable_log d evs -> Z.of_nat (length evs) = events_seq d.
Proof. intros ([_ Hs] & _ & Hm). apply result_mapM_length in Hm. lia. Qed.

Lemma readable_log_events d d' evs :
  events d' = events d -> events_seq d' = events_seq d -> readable_log d evs -> readable_log d' evs.
Proof. unfold readable_log, log_ok. by intros -> ->. Qed.

(** The rows a batch reads, decoded. *)
Lemma batch_read d evs c :
  readable_log d evs ->
  mapM (scanEvent unmarshal)
    (sql_limit 1000 (filter (fun r => Z.of_nat c < row_position r) (events d))) =
  Ok (take 1000 (drop c evs)).
Proof.
  intros ([Hc Hs] & _ & Hm). rewrite (contiguous_filter_gt _ 1) by (done || lia).
  replace (Z.to_nat (Z.of_nat c - (1 - 1))) with c by lia.
  apply result_mapM_take, result_mapM_drop, Hm.
Qed.

Lemma batch_last d evs c e0 batch :
  readable_log d evs -> take 1000 (drop c evs) = e0 :: batch ->
  default 0 (Position <$> last (e0 :: batch)) = Z.of_nat c + Z.of_nat (length (e0 :: batch)).
Proof.
  intros Hr Hb. pose proof Hr as (Hlog & Hlt & Hm).
  assert (Hl : (length (e0 :: batch) <= length evs - c)%nat).
  { rewrite <- Hb, length_take, length_drop. lia. }
  destruct (evs !! (c + length batch)%nat) as [e|] eqn:He.
  2: { apply lookup_ge_None in He. cbn in Hl. lia. }
  assert (last (e0 :: batch) = Some e) as ->.
  { rewrite last_lookup. cbn [length pred]. rewrite <- Hb, lookup_take_lt, lookup_drop; [done|].
    assert ((length (e0 :: batch) <= 1000)%nat) by (rewrite <- Hb, length_take; lia).
    cbn in *. lia. }
  cbn. rewrite (scan_positions _ _ _ _ Hlog Hlt Hm He). lia.
Qed.

(** One batch without faults. *)
Lemma replayBatch_ok s evs c :
  readable_log (db s) evs ->
  match take 1000 (drop c evs) with
  | [] => replayBatch unmarshal (Z.of_nat c) 1000 no_faults s = (s, Ok 0)
  | e0 :: batch =>
      let '(m1, d1, err) := replay_events (projectors s) (e0 :: batch) (mem s) (db s) in
      match err with
      | Some x => replayBatch unmarshal (Z.of_nat c) 1000 no_faults s = (with_mem m1 s, Err x)
      | None => exists d2,
          replayBatch unmarshal (Z.of_nat c) 1000 no_faults s =
            (with_mem (promote_all (projectors s) m1) (with_db d2 s),
             Ok (Z.of_nat (length (e0 :: batch)))) /\
          same_log d1 d2 /\ tables d2 = tables d1 /\
          forall n, n ∈ sync_names (projectors s) ->
            projection_cursors d2 !! n =
              Some (Z.of_nat c + Z.of_nat (length (e0 :: batch)))
      end
  end.
Proof.
  intros Hr. unfold replayBatch. rewrite (batch_read _ _ _ Hr).
  destruct (take 1000 (drop c evs)) as [|e0 batch] eqn:Hb; [done|].
  rewrite (batch_last _ _ _ _ _ Hr Hb). cbn [f_begin f_commit no_faults].
  destruct (replay_events _ (e0 :: batch) _ _) as [[m1 d1] [x|]]; [done|].
  set (pos := Z.of_nat c + _).
  pose proof (advance_cursors_spec (projectors s) no_faults pos d1) as Ha.
  assert (Hn : forall regs (d : DB T), (advance_cursors regs no_faults pos d).2 = None).
  { clear. intros regs. induction regs as [|[p mode] regs IH]; intros d; [done|].
    cbn [advance_cursors f_cursor no_faults]. destruct (negb _); apply IH. }
  specialize (Hn (projectors s) d1).
  destruct (advance_cursors _ _ _ _) as [d2 err]. cbn in Hn. subst err.
  destruct Ha as (Hl & Ht & Hcur). exists d2. do 3 (split; [done|]).
  intros n Hin. rewrite (Hcur eq_refl). by rewrite decide_True.
Qed.

(** What [Replay] owes, [ref] being the outcome of a single pass. *)
Definition replay_post (c n : nat) (ref : M * DB T * option replay_error) s s'
    (err : option replay_error) : Prop :=
  err = ref.2 /\ same_frame s s' /\ R (mem s') ref.1.1 /\
  (err = None -> dsim (db s') ref.1.2 /\
     (mem s' = mem s \/ exists m, mem s' = promote_all (projectors s) m) /\
     ((c < n)%nat -> forall name, name ∈ sync_names (projectors s) ->
        projection_cursors (db s') !! name = Some (Z.of_nat n))).

Lemma replay_loop_ok fuel c s evs m0 d0 `{!ReplayMemory (projectors s) R} :
  readable_log (db s) evs -> (length evs - c <= fuel)%nat ->
  R (mem s) m0 -> dsim (db s) d0 ->
  exists s' err,
    replay_loop unmarshal fuel (fun _ => no_faults) (Z.of_nat c) (Z.of_nat (length evs)) s
      = Some (s', err) /\
    replay_post c (length evs) (replay_events (projectors s) (drop c evs) m0 d0) s s' err.
Proof.
  revert c s m0 d0 ReplayMemory0.
  induction fuel as [|fuel IH]; intros c s m0 d0 HRM Hr Hfuel Hm Hd; cbn [replay_loop].
  - assert (Hge : (length evs <= c)%nat) by lia.
    destruct (Z.ltb_spec (Z.of_nat c) (Z.of_nat (length evs))); [lia|].
    exists s, None. split; [done|]. rewrite drop_ge by done. cbn [replay_events].
    split; [done|]. split; [done|]. split; [done|]. intros _. split; [done|]. split; [by left | lia].
  - destruct (Z.ltb_spec (Z.of_nat c) (Z.of_nat (length evs))) as [Hlt|Hge]; cbn [negb].
    2: { exists s, None. split; [done|]. rewrite drop_ge by lia. cbn [replay_events].
      split; [done|]. split; [done|]. split; [done|]. intros _. split; [done|]. split; [by left | lia]. }
    pose proof (replayBatch_ok s evs c Hr) as Hb.
    destruct (take 1000 (drop c evs)) as [|e0 batch] eqn:Hbt.
    { apply (f_equal length) in Hbt. rewrite length_take, length_drop in Hbt. cbn [length] in Hbt. lia. }
    set (k := length (e0 :: batch)) in *.
    assert (Hk : (k <= length evs - c)%nat).
    { unfold k. rewrite <- Hbt, length_take, length_drop. lia. }
    assert (Hsplit : drop c evs = (e0 :: batch) ++ drop (c + k) evs).
    { rewrite <- (take_drop 1000 (drop c evs)) at 1. rewrite Hbt, drop_drop. f_equal.
      destruct (decide (1000 <= length evs - c)%nat) as [Hf|Hf].
      - unfold k. by rewrite <- Hbt, length_take_le by (rewrite length_drop; lia).
      - assert (k = (length evs - c)%nat) by (unfold k; rewrite <- Hbt, length_take, length_drop; lia).
        rewrite !drop_ge by lia. done. }
    pose proof (replay_events_sim (projectors s) (e0 :: batch) (mem s) m0 (db s) d0 Hm Hd) as Hsim.
    pose proof (replay_events_log (projectors s) (e0 :: batch) (mem s) (db s)) as Hlog.
    rewrite Hsplit, replay_events_app.
    destruct (replay_events _ _ (mem s) (db s)) as [[m1 d1] err1],
      (replay_events _ _ m0 d0) as [[m1' d1'] err1'].
    destruct Hsim as (S1 & S2 & S3). cbn in S1, S2, S3, Hlog. subst err1'.
    destruct err1 as [x|].
    { rewrite Hb. exists (with_mem m1 s), (Some x). split; [done|].
      split; [done|]. split; [done|]. split; [done|]. done. }
    destruct Hb as (d2 & -> & Hl2 & Ht2 & Hc2).
    destruct (Z.eqb_spec (Z.of_nat k) 0); [unfold k in *; cbn in *; lia|].
    pose proof (readable_log_length _ _ Hr) as Hlen. destruct Hr as (Hlo & Hb63 & Hmm).
    rewrite u64_small by lia. rewrite <- Nat2Z.inj_add.
    destruct Hlog as (L1 & L2 & L3 & L4 & L5), Hl2 as (K1 & K2 & K3 & K4 & K5).
    destruct (IH (c + k)%nat (with_mem (promote_all (projectors s) m1) (with_db d2 s)) m1' d1')
      as (s' & err & Hrun & P1 & P2 & P3 & P4).
    + done.
    + eapply readable_log_events; [| |by split]; cbn; congruence.
    + lia.
    + cbn. etrans; [apply rm_promote | done].
    + cbn. destruct S2 as (S21 & S22 & S23). split; [congruence|]. split; congruence.
    + exists s', err. split; [done|]. split; [done|]. split; [exact P2|]. split; [exact P3|].
      intros He. destruct (P4 He) as (P5 & P7 & P6). split; [done|].
      split; [right; destruct P7 as [->|[m Hm']]; eauto|]. intros _ name Hn.
      destruct (decide (c + k < length evs)%nat); [by apply P6|].
      assert (s' = with_mem (promote_all (projectors s) m1) (with_db d2 s)) as ->.
      { destruct fuel; cbn [replay_loop] in Hrun;
          destruct (Z.ltb_spec (Z.of_nat (c + k)) (Z.of_nat (length evs))); try lia;
          by injection Hrun. }
      cbn. rewrite (Hc2 _ Hn). f_equal. fold k. lia.
Qed.

Lemma max_position_contiguous (d : DB T) :
  log_ok d -> events_seq d < 2 ^ 63 -> loadLatestPosition d = events_seq d.
Proof.
  intros [Hc Hs] Hb. unfold loadLatestPosition, max_position. rewrite Hs in *. clear Hs.
  destruct (events d) as [|r rs]; [done|]. destruct Hc as [Hr Hc].
  assert (Hfold : forall acc l, contiguous row_position (acc + 1) l ->
    foldl (fun a r' => Z.max a (row_position r')) acc l = acc + Z.of_nat (length l)).
  { clear. intros acc l. revert acc. induction l as [|r l IH]; intros acc; cbn; [lia|].
    intros [Hr Hl]. rewrite Hr, Z.max_r by lia. rewrite IH by done. lia. }
  rewrite Hr, Hfold by done. rewrite u64_small; cbn [length] in *; lia.
Qed.

Lemma restoreProjectors_frame rfl s :
  let '(s1, _) := restoreProjectors rfl s in exists m, s1 = with_mem m s.
Proof. unfold restoreProjectors. destruct (restore_loop _ _ _ _ _). eauto. Qed.

(** A batch applies at most the rows that are left, and none of them changes
    the log. *)
Lemma replayBatch_progress fl c s :
  log_ok (db s) -> 0 <= c ->
  let '(s', r) := replayBatch unmarshal c 1000 fl s in
  events (db s') = events (db s) /\ events_seq (db s') = events_seq (db s) /\
  match r with Ok n => 0 <= n /\ c + n <= Z.max c (events_seq (db s)) | Err _ => True end.
Proof.
  intros [Hc Hs] Hc0. unfold replayBatch. rewrite (contiguous_filter_gt _ 1) by (done || lia).
  destruct (mapM _ _) as [batch|] eqn:Hb; [|done].
  assert (Hl : Z.of_nat (length batch) <= Z.max 0 (events_seq (db s) - c)).
  { apply result_mapM_length in Hb. rewrite Hb, sql_limit_take, length_take, length_drop by lia.
    lia. }
  destruct batch as [|e0 batch]; [cbn [fst snd]; repeat split; lia|].
  destruct (f_begin fl); [done|].
  pose proof (replay_events_log (projectors s) (e0 :: batch) (mem s) (db s)) as Hlog.
  destruct (replay_events _ _ _ _) as [[m1 d1] [x|]]; [done|]. cbn in Hlog.
  destruct Hlog as (L1 & L2 & _).
  match goal with |- context [advance_cursors ?r fl ?p d1] =>
    pose proof (advance_cursors_spec r fl p d1) as Ha;
    destruct (advance_cursors r fl p d1) as [d2 [msg|]] end; [done|].
  destruct Ha as ((A1 & A2 & _) & _). destruct (f_commit fl); [done|].
  cbn [db with_mem with_db]. repeat split; [congruence | congruence | lia | lia].
Qed.

Lemma replay_loop_terminates fuel fl c s :
  log_ok (db s) -> events_seq (db s) < 2 ^ 63 -> 0 <= c ->
  (Z.to_nat (events_seq (db s) - c) <= fuel)%nat ->
  is_Some (replay_loop unmarshal fuel fl c (events_seq (db s)) s).
Proof.
  revert c s. induction fuel as [|fuel IH]; intros c s Hlog Hb Hc Hf; cbn [replay_loop];
    destruct (Z.ltb_spec c (events_seq (db s))) as [Hlt|Hge]; cbn [negb]; [lia | by eexists | |
      by eexists].
  pose proof (replayBatch_progress (fl c) c s Hlog Hc) as Hp.
  destruct (replayBatch _ _ _ _ s) as [s' [n|x]]; [|by eexists].
  destruct Hp as (Hev & Hseq & Hn). destruct (Z.eqb_spec n 0); [by eexists|].
  rewrite u64_small by lia. rewrite <- Hseq. apply IH; rewrite ?Hseq; [|lia..].
  unfold log_ok. by rewrite Hev, Hseq.
Qed.

(** Replay terminates: whatever database faults strike and whatever the
    projectors do, from any restored cursor the loop ends after at most one
    batch per remaining event. *)
Theorem Replay_terminates fuel rfl fl s :
  log_ok (db s) -> events_seq (db s) < 2 ^ 63 ->
  (forall s1 c, restoreProjectors rfl s = (s1, Ok c) -> 0 <= c) ->
  (length (events (db s)) <= fuel)%nat ->
  is_Some (Replay unmarshal fuel rfl fl s).
Proof.
  intros Hlog Hb Hc Hf. unfold Replay. destruct (started s); [by eexists|].
  pose proof (restoreProjectors_frame rfl s) as Hfr.
  destruct (restoreProjectors rfl s) as [s1 [c|x]]; [|by eexists].
  destruct Hfr as [m ->]. specialize (Hc _ _ eq_refl). cbn [db with_mem].
  rewrite max_position_contiguous by done.
  apply (replay_loop_terminates fuel fl c (with_mem m s)); try done. cbn.
  destruct Hlog as [_ ->]. lia.
Qed.

(** C9. Replay is correct: in batches of 1000, each committed and promoted on
    its own, it computes what one pass of the synchronous projectors over the
    events after the restored cursor computes: the same error if there is one,
    otherwise equivalent memory, the same tables, and every synchronous cursor
    at the end of the log. *)
Theorem Replay_correct fuel rfl s s1 c evs `{!ReplayMemory (projectors s) R} :
  started s = false -> restoreProjectors rfl s = (s1, Ok (Z.of_nat c)) ->
  readable_log (db s) evs -> (length evs <= fuel)%nat ->
  exists s' err, Replay unmarshal fuel rfl (fun _ => no_faults) s = Some (s', err) /\
    replay_post c (length evs) (replay_events (projectors s) (drop c evs) (mem s1) (db s)) s1 s' err.
Proof.
  intros Hst Hrp Hr Hf. unfold Replay. rewrite Hst, Hrp.
  pose proof (restoreProjectors_frame rfl s) as Hfr. rewrite Hrp in Hfr.
  destruct Hfr as [m ->]. cbn [db with_mem].
  rewrite max_position_contiguous by apply Hr. rewrite <- (readable_log_length _ _ Hr).
  destruct (replay_loop_ok fuel c (with_mem m s) evs m (db s)) as (s' & err & Hrun & Hpost);
    [done | lia | done | done|]. by exists s', err.
Qed.

End Replay.
