(* ===== verification/StateCache.v ===== *)
(** * The state cache

    Models [internal/state/cache.go]: the copy-on-write map of entity states
    that the event store drives as a synchronous projector, its snapshot and
    restore. The immutable HAMT behind [current] and [pending] is a [gmap];
    [pending] is [None] for nil. Protobuf and zstd are the fields of a record
    of functions; the corruption callback's calls are recorded in
    [reported]. *)

From S2P Require Import Prelude Events EventStore EventStoreFacts ReplayFacts.

(** ** State *)

Record State := mkState {
  EntityID : string;
  UpdatedAt : Z;
  UpdatedBy : string;
  StAttributes : option Attributes;
}.

#[export] Instance State_eq_dec : EqDecision State.
Proof. solve_decision. Defined.

Abbreviation StateMap := (gmap string State).

Record Cache := mkCache {
  current : StateMap;
  pending : option StateMap;
  reportSnapshotCorruption : bool;
  reported : list string;
}.

Definition Cache_New : Cache := mkCache ∅ None false [].

Definition View (c : Cache) : StateMap := current c.
Definition Cache_Get (id : string) (c : Cache) : option State := View c !! id.
Definition Cache_Len (c : Cache) : nat := size (View c).
Definition Cache_Name : string := "state_cache".

Definition SetSnapshotCorruptionReporter (set : bool) (c : Cache) : Cache :=
  mkCache (current c) (pending c) set (reported c).

Definition with_current (m : StateMap) (c : Cache) : Cache :=
  mkCache m (pending c) (reportSnapshotCorruption c) (reported c).
Definition with_pending (p : option StateMap) (c : Cache) : Cache :=
  mkCache (current c) p (reportSnapshotCorruption c) (reported c).

(** The body of the payload switch of [Apply], on the pending map. *)
Definition apply_payload (e : Event) (m : StateMap) : StateMap :=
  match GetKind e with
  | Some (Payload_StateChanged p) =>
      <[Entity e := mkState (Entity e) (Timestamp e) (Source e) (sc_attributes p)]> m
  | Some (Payload_EntityRegistered _) =>
      match m !! Entity e with
      | Some _ => m
      | None => <[Entity e := mkState (Entity e) (Timestamp e) (Source e) None]> m
      end
  | Some (Payload_EntityUnregistered _) => delete (Entity e) m
  | _ => m
  end.

(** [Apply]. *)
Definition Cache_Apply (e : Event) (c : Cache) : Cache :=
  let p := match pending c with Some p => p | None => current c end in
  with_pending (Some (apply_payload e p)) c.

(** [Promote]. *)
Definition Cache_Promote (c : Cache) : Cache :=
  match pending c with
  | None => c
  | Some p => with_pending None (with_current p c)
  end.

(** [Discard]. *)
Definition Cache_Discard (c : Cache) : Cache := with_pending None c.

(** ** Snapshot and restore *)

Record EntityState := mkEntityState {
  es_EntityId : string;
  es_UpdatedAt : Z;
  es_UpdatedBy : string;
  es_Attributes : option Attributes;
}.

Record StateCacheSnapshot := mkStateCacheSnapshot {
  scs_Ts : Z;
  scs_Position : Z;
  scs_Entities : list EntityState;
}.

(** The libraries the snapshot goes through: protobuf, zstd. *)
Record snapshot_codec := mkSnapshotCodec {
  proto_Marshal : StateCacheSnapshot -> result string string;
  proto_Unmarshal : string -> result string StateCacheSnapshot;
  zstd_NewWriter : option string;
  zstd_EncodeAll : string -> string;
  zstd_NewReader : option string;
  zstd_DecodeAll : string -> result string string;
}.

(** The database calls of a snapshot and a restore that may fail. *)
Record snap_db := mkSnapDb {
  sd_max : option string;
  sd_insert : option string;
  sd_query : option string;
}.
Definition snap_db_ok : snap_db := mkSnapDb None None None.

Section Snapshot.
Context {T : Type} (cdc : snapshot_codec) (sd : snap_db).
Implicit Type d : DB T.

Definition entity_state (v : State) : EntityState :=
  mkEntityState (EntityID v) (i64 (UpdatedAt v)) (UpdatedBy v) (StAttributes v).

(** [INSERT INTO snapshots ... ON CONFLICT(position) DO UPDATE]. *)
Definition upsert_snapshot (r : SnapshotRow) (l : list SnapshotRow) : list SnapshotRow :=
  if existsb (fun x => snap_position x =? snap_position r) l
  then (fun x => if snap_position x =? snap_position r then r else x) <$> l
  else l ++ [r].

(** [Snapshot]; [now] is [time.Now().UnixNano()]. *)
Definition Cache_Snapshot (now : Z) (c : Cache) d : result string (DB T) :=
  let entities := entity_state ∘ snd <$> map_to_list (View c) in
  match sd_max sd with
  | Some msg => Err ("read max position: " +:+ msg)
  | None =>
      let pos := match max_position d with Some p => p | None => 1 end in
      match proto_Marshal cdc (mkStateCacheSnapshot now (u64 pos) entities) with
      | Err msg => Err ("marshal snapshot: " +:+ msg)
      | Ok raw =>
          match zstd_NewWriter cdc with
          | Some msg => Err ("zstd writer: " +:+ msg)
          | None =>
              match sd_insert sd with
              | Some msg => Err ("insert snapshot: " +:+ msg)
              | None =>
                  Ok (with_snapshots
                        (upsert_snapshot
                           (mkSnapshotRow pos now Cache_Name "protobuf+zstd"
                              (zstd_EncodeAll cdc raw)) (snapshots d)) d)
              end
          end
      end
  end.

(** [decodeSnapshot]. *)
Definition decodeSnapshot (compressed : string) : result string StateCacheSnapshot :=
  match zstd_NewReader cdc with
  | Some msg => Err ("zstd reader: " +:+ msg)
  | None =>
      match zstd_DecodeAll cdc compressed with
      | Err msg => Err ("zstd decode: " +:+ msg)
      | Ok raw =>
          match proto_Unmarshal cdc raw with
          | Err msg => Err ("unmarshal snapshot: " +:+ msg)
          | Ok s => Ok s
          end
      end
  end.

(** [reportCorruptSnapshot]. *)
Definition reportCorruptSnapshot (c : Cache) : Cache :=
  if reportSnapshotCorruption c
  then mkCache (current c) (pending c) true (reported c ++ [Cache_Name])
  else c.

Definition state_of (es : EntityState) : State :=
  mkState (es_EntityId es) (es_UpdatedAt es) (es_UpdatedBy es) (es_Attributes es).

(** The builder loop: later entries overwrite earlier ones. *)
Definition build_map (l : list EntityState) : StateMap :=
  foldl (fun m es => <[es_EntityId es := state_of es]> m) ∅ l.

(** [for rows.Next()]. *)
Fixpoint restore_rows (rows : list SnapshotRow) (c : Cache) : Cache * result string Z :=
  match rows with
  | [] => (c, Ok 0)
  | r :: rest =>
      if negb (String.eqb (snap_encoding r) "protobuf+zstd")
      then (c, Err ("unknown snapshot encoding " +:+ snap_encoding r))
      else match decodeSnapshot (snap_state r) with
           | Err _ => restore_rows rest (reportCorruptSnapshot c)
           | Ok s => (with_current (build_map (scs_Entities s)) c, Ok (u64 (snap_position r)))
           end
  end.

Definition snap_desc (a b : SnapshotRow) : Prop := snap_position b <= snap_position a.
#[export] Instance snap_desc_dec : RelDecision snap_desc.
Proof. unfold snap_desc, RelDecision. apply _. Defined.

(** [SELECT ... WHERE owner = ? ORDER BY position DESC]. *)
Definition snapshot_rows (l : list SnapshotRow) : list SnapshotRow :=
  merge_sort snap_desc (filter (fun r => snap_owner r = Cache_Name) l).

(** [Restore]. *)
Definition Cache_Restore (c : Cache) d : Cache * result string Z :=
  match sd_query sd with
  | Some msg => (c, Err ("read snapshot rows: " +:+ msg))
  | None => restore_rows (snapshot_rows (snapshots d)) c
  end.

(** The cache as the store's projector. *)
Definition cache_projector : Projector Cache T :=
  mkProjector Cache_Name (fun e c t => (Cache_Apply e c, t, None))
    Cache_Snapshot Cache_Restore (Some Cache_Promote) (Some Cache_Discard).

End Snapshot.

(** ** Correctness of the state cache

    The cache is the fold of the event log, snapshots are faithful, a restore
    falls back past corrupt snapshots, and a restart (restore, then replay of
    the whole log over the restored map) rebuilds exactly that fold. *)

(** ** The reference: a fold over the log *)

Definition cache_fold (evs : list Event) (m : StateMap) : StateMap :=
  foldl (fun m e => apply_payload e m) m evs.

(** The effect of one event on one entity's entry. *)
Definition entry_step (k : string) (o : option State) (e : Event) : option State :=
  if decide (Entity e = k) then
    match GetKind e with
    | Some (Payload_StateChanged p) =>
        Some (mkState k (Timestamp e) (Source e) (sc_attributes p))
    | Some (Payload_EntityRegistered _) =>
        match o with Some s => Some s | None => Some (mkState k (Timestamp e) (Source e) None) end
    | Some (Payload_EntityUnregistered _) => None
    | _ => o
    end
  else o.

Lemma apply_payload_lookup e (m : StateMap) k :
  apply_payload e m !! k = entry_step k (m !! k) e.
Proof.
  unfold apply_payload, entry_step. case_decide as Hk; [subst k|];
    destruct (GetKind e) as [[]|]; try done.
  - by rewrite lookup_insert_eq.
  - destruct (m !! Entity e) eqn:Hm; [done | by rewrite lookup_insert_eq].
  - by rewrite lookup_delete_eq.
  - by rewrite lookup_insert_ne.
  - destruct (m !! Entity e); [done | by rewrite lookup_insert_ne].
  - by rewrite lookup_delete_ne.
Qed.

Lemma cache_fold_lookup evs (m : StateMap) k :
  cache_fold evs m !! k = foldl (entry_step k) (m !! k) evs.
Proof.
  revert m. induction evs as [|e evs IH]; intros m; [done|].
  change (cache_fold (e :: evs) m) with (cache_fold evs (apply_payload e m)).
  rewrite IH, apply_payload_lookup. done.
Qed.

(** A stretch of the log either fixes the entry whatever it was before, or
    keeps any entry that exists. *)
Lemma entry_fold_shape k evs :
  (forall o, foldl (entry_step k) o evs = foldl (entry_step k) None evs) \/
  (forall s, foldl (entry_step k) (Some s) evs = Some s).
Proof.
  induction evs as [|e evs IH] using rev_ind; [by right|].
  setoid_rewrite foldl_snoc. unfold entry_step at 1 3 5. case_decide; [|exact IH].
  destruct (GetKind e) as [[]|]; auto;
    destruct IH as [IH|IH]; try (left; intros o; by rewrite IH); right; intros s; by rewrite IH.
Qed.

Lemma entry_fold_idem k evs :
  foldl (entry_step k) (foldl (entry_step k) None evs) evs = foldl (entry_step k) None evs.
Proof.
  destruct (entry_fold_shape k evs) as [H|H]; [by rewrite H|].
  destruct (foldl (entry_step k) None evs) eqn:He; [apply H | done].
Qed.

Lemma cache_fold_over_prefix evs1 evs2 :
  cache_fold (evs1 ++ evs2) (cache_fold evs1 ∅) = cache_fold (evs1 ++ evs2) ∅.
Proof.
  apply map_eq. intros k. rewrite !cache_fold_lookup, !foldl_app, lookup_empty.
  by rewrite entry_fold_idem.
Qed.

(** The pending map if there is one, else the current one. *)
Definition eff (c : Cache) : StateMap := default (current c) (pending c).

Lemma eff_Apply e c : eff (Cache_Apply e c) = apply_payload e (eff c).
Proof. done. Qed.

(** ** The cache satisfies the store's interfaces *)

Section Interfaces.
Context {T : Type} (cdc : snapshot_codec) (sd : snap_db).

(** A projector that keeps no memory of its own, such as the registry. *)
Class Memoryless (p : Projector Cache T) : Prop := {
  ml_promote : Promote p = None;
  ml_discard : Discard p = None;
  ml_apply : forall e m m' t,
    (Apply p e m t).1.1 = m /\
    (Apply p e m t).1.2 = (Apply p e m' t).1.2 /\ (Apply p e m t).2 = (Apply p e m' t).2;
}.

(** The registrations of [internal/daemon/daemon.go]. *)
Definition daemon_regs (reg : Projector Cache T) : list (Projector Cache T * ProjectorMode) :=
  [(cache_projector cdc sd, ProjectorModeSync); (reg, ProjectorModeSync)].

Context (reg : Projector Cache T) `{!Memoryless reg}.

Lemma daemon_promote m : promote_all (daemon_regs reg) m = Cache_Promote m.
Proof. unfold promote_all, daemon_regs. cbn [foldl fst Promote cache_projector].
  by rewrite ml_promote. Qed.

Lemma daemon_discard m : discard_all (daemon_regs reg) m = Cache_Discard m.
Proof. unfold discard_all, daemon_regs. cbn [foldl fst Discard cache_projector].
  by rewrite ml_discard. Qed.

Lemma daemon_regs_elem p mode :
  (p, mode) ∈ daemon_regs reg -> p = cache_projector cdc sd \/ p = reg.
Proof. unfold daemon_regs. set_solver. Qed.

(** Readers see everything but the pending map. *)
Definition cache_visible (c : Cache) : StateMap * bool * list string :=
  (current c, reportSnapshotCorruption c, reported c).
Definition cache_clean (c : Cache) : Prop := pending c = None.

#[export] Instance daemon_TxMemory : TxMemory (daemon_regs reg) cache_visible cache_clean.
Proof.
  split.
  - intros p mode e m t [->| ->]%daemon_regs_elem; [done|].
    destruct (ml_apply e m m t) as (H & _). by rewrite H.
  - intros m. by rewrite daemon_discard.
  - intros m. by rewrite daemon_discard.
  - intros m. rewrite daemon_promote. unfold Cache_Promote, cache_clean.
    by destruct (pending m) eqn:H.
  - intros [] []. unfold cache_clean, cache_visible. cbn. naive_solver.
Qed.

#[export] Instance daemon_ReplayMemory :
  ReplayMemory (daemon_regs reg) (fun c c' => eff c = eff c').
Proof.
  split.
  - split; [done | by intros ??| intros ???; congruence].
  - intros m. rewrite daemon_promote. unfold Cache_Promote, eff. by destruct m as [? [] ? ?].
  - intros p mode e m m' t [->| ->]%daemon_regs_elem Hm.
    + cbn [Apply cache_projector fst snd]. by rewrite !eff_Apply, Hm.
    + destruct (ml_apply e m m' t) as (H1 & H2 & H3), (ml_apply e m' m' t) as (H4 & _).
      by rewrite H1, H4.
Qed.

End Interfaces.

(** ** The cache follows the log *)

Section Projection.
Context {T : Type} (cdc : snapshot_codec) (sd : snap_db).
Context (marshal : Payload -> result string string).
Context (unmarshal : string -> result string Payload).
Context (reg : Projector Cache T) `{!Memoryless reg}.
Implicit Type s : Store Cache T.

(** No transaction is under way and readers see the fold of the log. *)
Definition cache_consistent s : Prop :=
  cache_clean (mem s) /\ exists evs,
    mapM (scanEvent unmarshal) (events (db s)) = Ok evs /\ View (mem s) = cache_fold evs ∅.

Lemma daemon_apply_mem fl e m (d : DB T) m' d' :
  apply_and_advance (daemon_regs cdc sd reg) fl e m d = (m', d', None) -> m' = Cache_Apply e m.
Proof.
  unfold daemon_regs. cbn [apply_and_advance is_sync negb].
  unfold applyProjector at 1. cbn [Apply cache_projector]. destruct (f_cursor fl _); [done|].
  unfold applyProjector.
  match goal with |- context [Apply reg e ?m1 ?t1] =>
    destruct (ml_apply e m1 m1 t1) as (H & _); destruct (Apply reg e m1 t1) as [[m2 t2] [msg|]] end;
    [done|].
  destruct (f_cursor fl (Name reg)); [done|]. intros [= <- _]. exact H.
Qed.

Lemma appendTx_mem e payload fl s s' pos :
  projectors s = daemon_regs cdc sd reg ->
  appendTx e payload fl s = (s', pos, None) ->
  mem s' = Cache_Promote (Cache_Apply (set_Position pos e) (mem s)).
Proof.
  intros Hp. unfold appendTx. rewrite Hp. destruct (f_begin fl); [done|].
  destruct (f_insert fl 0%nat); [done|]. cbn [insert_event]. destruct (f_last_id fl 0%nat); [done|].
  match goal with |- context [apply_and_advance ?r ?f ?x ?m ?d] =>
    pose proof (daemon_apply_mem f x m d) as Hd;
    destruct (apply_and_advance r f x m d) as [[m2 d2] [msg|]] end; [done|].
  destruct (f_commit fl); [done|]. intros [= <- <-].
  change (promote_all (daemon_regs cdc sd reg) m2 = Cache_Promote (Cache_Apply (set_Position (u64 (events_seq (db s) + 1)) e) (mem s))).
  rewrite daemon_promote by done. by rewrite (Hd _ _ eq_refl).
Qed.

(** C7. The cache is a materialised projection of the log: with the daemon's
    projectors, if readers see the fold of the log's events before an
    [Append], they see the fold of the log's events after it, whether the call
    succeeds, fails, or is retried after failed attempts. *)
Theorem cache_follows_log now fresh fl done e s :
  (forall p b, marshal p = Ok b -> unmarshal b = Ok p) ->
  projectors s = daemon_regs cdc sd reg -> 0 <= CausePosition e < 2 ^ 64 ->
  cache_consistent s -> cache_consistent (Append marshal now fresh fl done e s).1.
Proof.
  intros Hcodec Hp Hcp (Hclean & evs & Hevs & Hview).
  assert (Htx : TxMemory (projectors s) cache_visible cache_clean) by (rewrite Hp; apply _).
  pose proof (Append_tx marshal now fresh fl done e s Hclean) as Ht.
  pose proof (Append_cases marshal now fresh fl done e s) as Ha.
  destruct (Append _ _ _ _ _ _ _) as [s' [pos|err]]; [|subst s'; cbn; split; eauto].
  destruct Ht as (i & payload' & s1 & Htx1 & -> & Hcl), Ha as (p & payload & Hpl & Hm & _ & _ & Hpos & Happ & _).
  split; [done|]. cbn [fst db mem with_latest] in *.
  destruct Happ as (Hev & _). cbn in Hev.
  exists (evs ++ [set_Position pos (fill_defaults now fresh e)]). split.
  - rewrite Hev. apply result_mapM_app; [done|]. cbn [mapM].
    erewrite scanEvent_event_row; [|exact Hpl|by apply Hcodec|done]. by rewrite Hpos.
  - rewrite (appendTx_mem _ _ _ _ _ _ Hp Htx1). unfold cache_fold. rewrite foldl_snoc.
    unfold Cache_Apply. unfold cache_clean in Hclean. rewrite Hclean.
    cbn. unfold cache_fold in Hview. by rewrite <- Hview.
Qed.

End Projection.

(** ** Snapshots *)

Section Snapshots.
Context {T : Type} (cdc : snapshot_codec) (sd : snap_db).
Implicit Type d : DB T.

(** Each entry is filed under its own id and its time fits [UnixNano]. *)
Definition cache_wf (m : StateMap) : Prop :=
  map_Forall (fun k v => EntityID v = k /\ - 2 ^ 63 <= UpdatedAt v < 2 ^ 63) m.

Lemma cache_fold_wf evs m :
  Forall (fun e => - 2 ^ 63 <= Timestamp e < 2 ^ 63) evs -> cache_wf m -> cache_wf (cache_fold evs m).
Proof.
  intros Hevs Hm. induction evs as [|e evs IH] using rev_ind; [done|].
  apply Forall_app in Hevs as [Hevs He]; rewrite Forall_singleton in He. specialize (IH Hevs).
  unfold cache_fold. rewrite foldl_snoc. fold (cache_fold evs m).
  intros k v. rewrite apply_payload_lookup. unfold entry_step.
  case_decide; [|by apply IH]. destruct (GetKind e) as [[]|]; try done; try by apply IH.
  - intros [= <-]. exact (conj eq_refl He).
  - destruct (cache_fold evs m !! k) eqn:Hl; intros [= <-]; [by apply IH | exact (conj eq_refl He)].
Qed.

Lemma foldl_insert_pairs {A} (l : list (string * A)) (m : gmap string A) :
  NoDup l.*1 -> foldl (fun m p => <[p.1 := p.2]> m) m l = list_to_map l ∪ m.
Proof.
  revert m. induction l as [|[k v] l IH]; intros m Hnd; cbn [foldl].
  { symmetry. apply (left_id_L ∅ (∪)). }
  apply NoDup_cons in Hnd as [Hk Hnd]. rewrite IH by done. rewrite list_to_map_cons.
  cbn [fst snd]. rewrite <- insert_union_l, insert_union_r; [done|]. by apply not_elem_of_list_to_map.
Qed.

(** What the snapshot stores builds the map back. *)
Lemma build_map_entities m :
  cache_wf m -> build_map (entity_state ∘ snd <$> map_to_list m) = m.
Proof.
  intros Hwf. transitivity (foldl (fun m p => <[p.1 := p.2]> m) (∅ : StateMap) (map_to_list m)).
  - unfold build_map. assert (Hall : forall k v, (k, v) ∈ map_to_list m -> m !! k = Some v)
      by (intros k v; apply elem_of_map_to_list).
    revert Hall. generalize (map_to_list m) as l, (∅ : StateMap) as acc.
    induction l as [|[k v] l IH]; intros acc Hall; [done|].
    rewrite fmap_cons. cbn [foldl fst snd compose].
    destruct (Hwf k v) as [Hk Ht]; [apply Hall; left|].
    assert (state_of (entity_state v) = v) as ->.
    { unfold state_of, entity_state. cbn. rewrite i64_small by done. by destruct v. }
    cbn [entity_state es_EntityId]. rewrite Hk. apply IH. intros. apply Hall. by right.
  - rewrite foldl_insert_pairs by apply NoDup_fst_map_to_list.
    rewrite list_to_map_to_list. apply (right_id_L ∅ (∪)).
Qed.

(** Decoding inverts encoding: documented behaviour of protobuf and zstd. *)
Class CodecRoundtrip : Prop := {
  cr_proto : forall x b, proto_Marshal cdc x = Ok b -> proto_Unmarshal cdc b = Ok x;
  cr_zstd : forall b, zstd_DecodeAll cdc (zstd_EncodeAll cdc b) = Ok b;
  cr_reader : zstd_NewReader cdc = None;
}.

(** The rows a restore reads, newest first. *)
Lemma snapshot_rows_newest l r :
  r ∈ l -> snap_owner r = Cache_Name ->
  (forall r', r' ∈ l -> snap_owner r' = Cache_Name -> r' <> r -> snap_position r' < snap_position r) ->
  exists rest, snapshot_rows l = r :: rest.
Proof.
  intros Hin Ho Hmax. unfold snapshot_rows.
  set (own := filter (fun r => snap_owner r = Cache_Name) l).
  assert (Hp : merge_sort snap_desc own ≡ₚ own) by apply merge_sort_Permutation.
  assert (Hs : Sorted snap_desc (merge_sort snap_desc own)).
  { apply Sorted_merge_sort. intros a b. unfold snap_desc. lia. }
  destruct (merge_sort snap_desc own) as [|h rest] eqn:Hms.
  { assert (Hr : r ∈ own) by (by apply list_elem_of_filter). rewrite <- Hp in Hr.
    by apply not_elem_of_nil in Hr. }
  exists rest. f_equal.
  assert (Hh : h ∈ own) by (rewrite <- Hp; left). apply list_elem_of_filter in Hh as [Hho Hhl].
  destruct (decide (snap_position h < snap_position r)) as [Hlt|Hge].
  2: { destruct (decide (h = r)) as [|Hne]; [done|].
    pose proof (Hmax h Hhl Hho Hne). lia. }
  assert (Hr : r ∈ h :: rest) by (rewrite Hp; by apply list_elem_of_filter).
  apply elem_of_cons in Hr as [->|Hr]; [done|].
  apply Sorted_StronglySorted in Hs; [|intros a b c; unfold snap_desc; lia].
  apply StronglySorted_inv in Hs as [_ Hall]. rewrite Forall_forall in Hall.
  apply Hall in Hr. unfold snap_desc in Hr. lia.
Qed.

Lemma upsert_snapshot_elem r l x :
  x ∈ upsert_snapshot r l -> x = r \/ x ∈ l /\ snap_position x <> snap_position r.
Proof.
  unfold upsert_snapshot. destruct (existsb _ l) eqn:Hex.
  - rewrite list_elem_of_fmap. intros (y & -> & Hy).
    destruct (Z.eqb_spec (snap_position y) (snap_position r)); auto.
  - rewrite elem_of_app, list_elem_of_singleton. intros [Hx|?]; [right|by left].
    split; [done|]. intros Heq. apply not_true_iff_false in Hex. apply Hex, existsb_exists.
    exists x. rewrite <- list_elem_of_In. split; [done | by apply Z.eqb_eq].
Qed.

Lemma upsert_snapshot_here r l : r ∈ upsert_snapshot r l.
Proof.
  unfold upsert_snapshot. destruct (existsb _ l) eqn:Hex; [|set_solver].
  apply existsb_exists in Hex as (x & Hx & Heq). apply list_elem_of_fmap. exists x.
  rewrite Heq. split; [done | by apply list_elem_of_In].
Qed.

(** The position a snapshot is filed under. *)
Definition snapshot_position d : Z := default 1 (max_position d).

Lemma Cache_Snapshot_inv now c d d' :
  Cache_Snapshot cdc sd now c d = Ok d' ->
  exists raw,
    proto_Marshal cdc (mkStateCacheSnapshot now (u64 (snapshot_position d))
      (entity_state ∘ snd <$> map_to_list (View c))) = Ok raw /\
    d' = with_snapshots (upsert_snapshot
           (mkSnapshotRow (snapshot_position d) now Cache_Name "protobuf+zstd"
              (zstd_EncodeAll cdc raw)) (snapshots d)) d.
Proof.
  unfold Cache_Snapshot, snapshot_position. destruct (sd_max sd); [done|].
  assert ((match max_position d with Some p => p | None => 1 end) = default 1 (max_position d))
    as -> by (by destruct (max_position d)).
  destruct (proto_Marshal _ _) as [raw|]; [|done]. destruct (zstd_NewWriter cdc); [done|].
  destruct (sd_insert sd); [done|]. intros [= <-]. eauto.
Qed.

(** Snapshot round trip: a snapshot taken of a cache and restored into any
    cache makes readers see the map the snapshot was taken of, and reports the
    log position it was filed under. *)
Theorem snapshot_restore_roundtrip now c c' d d' `{!CodecRoundtrip} :
  cache_wf (View c) -> sd_query sd = None ->
  (forall r, r ∈ snapshots d -> snap_owner r = Cache_Name ->
     snap_position r <= snapshot_position d) ->
  Cache_Snapshot cdc sd now c d = Ok d' ->
  Cache_Restore cdc sd c' d' = (with_current (View c) c', Ok (u64 (snapshot_position d))).
Proof.
  intros Hwf Hq Hmax (raw & Hraw & ->)%Cache_Snapshot_inv.
  unfold Cache_Restore. rewrite Hq. cbn [snapshots with_snapshots].
  set (r := mkSnapshotRow _ _ _ _ _).
  destruct (snapshot_rows_newest (upsert_snapshot r (snapshots d)) r) as [rest ->].
  - apply upsert_snapshot_here.
  - done.
  - intros r' [->|[Hr' Hne]]%upsert_snapshot_elem Ho Hn; [done|].
    specialize (Hmax _ Hr' Ho). cbn [snap_position r] in *. lia.
  - unfold restore_rows. cbn [snap_encoding snap_state snap_position r].
    unfold decodeSnapshot. rewrite cr_reader, cr_zstd, (cr_proto _ _ Hraw).
    cbn [scs_Entities]. by rewrite build_map_entities.
Qed.

(** Restore falls back past corrupt snapshots: given the owner's rows newest
    first, it installs the newest one that decodes, returns its position, and
    reports every corrupt one before it exactly once; with none that decodes
    the map is untouched and the resume position is 0. *)
Theorem restore_newest_valid c bad rest :
  Forall (fun r => snap_encoding r = "protobuf+zstd" /\ is_ok (decodeSnapshot cdc (snap_state r)) = false) bad ->
  reportSnapshotCorruption c = true ->
  restore_rows cdc (bad ++ rest) c =
  let c' := mkCache (current c) (pending c) true
              (reported c ++ replicate (length bad) Cache_Name) in
  match rest with
  | [] => (c', Ok 0)
  | r :: _ =>
      match decodeSnapshot cdc (snap_state r) with
      | Ok s => if String.eqb (snap_encoding r) "protobuf+zstd"
                then (with_current (build_map (scs_Entities s)) c', Ok (u64 (snap_position r)))
                else (c', Err ("unknown snapshot encoding " +:+ snap_encoding r))
      | Err _ => restore_rows cdc rest c'
      end
  end.
Proof.
  intros Hbad. revert c. induction Hbad as [|r bad [He Hd] Hbad IH]; intros c Hc.
  - cbn [app length replicate]. rewrite app_nil_r.
    assert (mkCache (current c) (pending c) true (reported c) = c) as -> by (destruct c; cbn in *; by subst).
    destruct rest as [|r rest]; [done|]. cbn [restore_rows].
    destruct (decodeSnapshot cdc (snap_state r)); [|done]. by destruct (String.eqb _ _).
  - cbn [app restore_rows length replicate]. rewrite He, String.eqb_refl. cbn [negb].
    destruct (decodeSnapshot cdc (snap_state r)); [done|].
    rewrite IH by (unfold reportCorruptSnapshot; by rewrite Hc).
    unfold reportCorruptSnapshot. rewrite Hc. cbn [current pending reported].
    by rewrite <- app_assoc.
Qed.

End Snapshots.

(** ** Restart *)

(** A projector whose [Apply] cannot fail and that keeps no snapshots. *)
Class Rebuilt {T} (p : Projector Cache T) : Prop := {
  rb_total : forall e m t, (Apply p e m t).2 = None;
  rb_restore : Restore p = NoSnapshot_Restore;
}.

Section Restart.
Context {T : Type} (cdc : snapshot_codec) (sd : snap_db).
Context (unmarshal : string -> result string Payload).
Context (reg : Projector Cache T) `{!Memoryless reg, !Rebuilt reg}.
Implicit Type s : Store Cache T.

Lemma isSkipped_empty pos n (d : DB T) : skipped_events d = ∅ -> isSkipped pos n d = false.
Proof. intros Hd. unfold isSkipped. rewrite Hd. apply bool_decide_false. set_solver. Qed.

Lemma daemon_replay_event e m (d : DB T) :
  skipped_events d = ∅ ->
  exists d', replay_event (daemon_regs cdc sd reg) e m d = (Cache_Apply e m, d', None) /\
    skipped_events d' = ∅.
Proof.
  intros Hsk. unfold daemon_regs. cbn [replay_event is_sync negb].
  rewrite isSkipped_empty by done. unfold applyProjector at 1. cbn [Apply cache_projector].
  rewrite isSkipped_empty by done. unfold applyProjector.
  match goal with |- context [Apply reg e ?m1 ?t1] =>
    pose proof (rb_total (p := reg) e m1 t1) as Ht;
    destruct (ml_apply e m1 m1 t1) as (Hm & _); destruct (Apply reg e m1 t1) as [[m2 t2] err] end.
  cbn in Ht, Hm. subst. by eexists.
Qed.

Lemma daemon_replay_events evs m (d : DB T) :
  skipped_events d = ∅ ->
  exists m' d', replay_events (daemon_regs cdc sd reg) evs m d = (m', d', None) /\
    eff m' = cache_fold evs (eff m).
Proof.
  revert m d. induction evs as [|e evs IH]; intros m d Hsk; cbn [replay_events]; [eauto|].
  destruct (daemon_replay_event e m d Hsk) as (d1 & -> & Hsk1).
  destruct (IH (Cache_Apply e m) d1 Hsk1) as (m' & d' & -> & Heff).
  exists m', d'. split; [done|]. by rewrite Heff, eff_Apply.
Qed.

(** The registry keeps no snapshots, so every restart replays from 0. *)
Lemma daemon_restore s c1 pos :
  projectors s = daemon_regs cdc sd reg ->
  Cache_Restore cdc sd (mem s) (db s) = (c1, Ok pos) -> 0 <= pos ->
  restoreProjectors (fun _ => no_faults) s = (with_mem c1 s, Ok 0).
Proof.
  intros Hp Hr Hpos. unfold restoreProjectors, daemon_regs in *. rewrite Hp.
  cbn [restore_loop f_begin f_commit no_faults Restore cache_projector]. rewrite Hr, rb_restore.
  cbn [NoSnapshot_Restore]. f_equal.
  destruct (Z.ltb_spec pos max_u64); destruct (Z.ltb_spec 0 (if pos <? max_u64 then pos else max_u64));
    rewrite ?Z.ltb_lt in *; unfold max_u64 in *; repeat case_match; f_equal; lia.
Qed.


End Restart.
