(* ===== verification/Registry.v ===== *)
(** * The registry

    Models [internal/registry]: [registry.go] (the projector that maintains the
    driver_instances, devices and entities tables inside the append
    transaction), [queries.go], [areas.go] and [types.go]. A table is a [gmap]
    from its primary key; a NULL-able column is an [option]; the foreign keys
    of [internal/registry/migrations] are checked on insert, as SQLite does
    with [foreign_keys=ON]. Which [ExecContext] calls fail otherwise is an
    argument. *)

From S2P Require Import Prelude Sorting Events EventStore EventStoreFacts StateCache.

(** ** Tables *)

Record DriverInstanceRow := mkDriverInstanceRow {
  di_driver_name : string;
  di_display_name : string;
  di_transport : string;
  di_endpoint : string;
  di_config_hash : string;
  di_status : string;
  di_last_error : option string;
  di_started_at : option Z;
  di_last_heartbeat : option Z;
  di_created_at : Z;
}.

(** The columns [manufacturer], [model], [sw_version] and [metadata] of
    [devices] are never written: they stay NULL. *)
Record DeviceRow := mkDeviceRow {
  dev_driver_instance_id : string;
  dev_friendly_name : string;
  dev_disabled : bool;
  dev_created_at : Z;
  dev_updated_at : Z;
}.

Record EntityRow := mkEntityRow {
  ent_device_id : option string;
  ent_driver_instance_id : string;
  ent_entity_type : string;
  ent_friendly_name : string;
  ent_capabilities : string;
  ent_disabled : bool;
  ent_created_at : Z;
  ent_updated_at : Z;
}.

#[export] Instance DriverInstanceRow_eq_dec : EqDecision DriverInstanceRow.
Proof. solve_decision. Defined.
#[export] Instance DeviceRow_eq_dec : EqDecision DeviceRow.
Proof. solve_decision. Defined.
#[export] Instance EntityRow_eq_dec : EqDecision EntityRow.
Proof. solve_decision. Defined.

Record RegTables := mkRegTables {
  driver_instances : gmap string DriverInstanceRow;
  devices : gmap string DeviceRow;
  entities : gmap string EntityRow;
}.

Definition RegTables_empty : RegTables := mkRegTables ∅ ∅ ∅.

Definition with_driver_instances m (t : RegTables) : RegTables :=
  mkRegTables m (devices t) (entities t).
Definition with_devices m (t : RegTables) : RegTables :=
  mkRegTables (driver_instances t) m (entities t).
Definition with_entities m (t : RegTables) : RegTables :=
  mkRegTables (driver_instances t) (devices t) m.

Definition Registry_Name : string := "registry".

(** ** The projector *)

(** The [ExecContext] calls of [Apply]. *)
Inductive reg_stmt :=
  | ensure_driver_instance | ensure_device | upsert_entity | disable_entity
  | driver_started | driver_stopped | driver_failed | driver_heartbeat.

Section Projector.
Context (marshal_caps : option Attributes -> result string string).
Context (exec : reg_stmt -> option string).
Implicit Type t : RegTables.

(** [INSERT INTO driver_instances ... ON CONFLICT(id) DO NOTHING]. *)
Definition ensure_instance (id : string) (now : Z) t : RegTables :=
  match driver_instances t !! id with
  | Some _ => t
  | None => with_driver_instances
      (<[id := mkDriverInstanceRow "" "" "local_subprocess" "" "" "starting" None None None now]>
         (driver_instances t)) t
  end.

(** [INSERT INTO devices ... ON CONFLICT(id) DO NOTHING], with its foreign key. *)
Definition ensure_dev (id driver : string) (now : Z) t : result string RegTables :=
  match devices t !! id with
  | Some _ => Ok t
  | None =>
      match driver_instances t !! driver with
      | None => Err "FOREIGN KEY constraint failed"
      | Some _ => Ok (with_devices (<[id := mkDeviceRow driver "" false now now]> (devices t)) t)
      end
  end.

(** [INSERT INTO entities ... ON CONFLICT(id) DO UPDATE], with its foreign keys. *)
Definition upsert_ent (id : string) (device : option string) (p : EntityRegistered)
    (caps : string) (now : Z) t : result string RegTables :=
  let fk_device := match device with
                   | None => true
                   | Some dv => bool_decide (is_Some (devices t !! dv))
                   end in
  if negb (fk_device && bool_decide (is_Some (driver_instances t !! er_driver_instance_id p)))
  then Err "FOREIGN KEY constraint failed"
  else
    let created := match entities t !! id with Some r => ent_created_at r | None => now end in
    Ok (with_entities
          (<[id := mkEntityRow device (er_driver_instance_id p) (er_entity_type p)
                     (er_friendly_name p) caps false created now]> (entities t)) t).

(** [applyEntityRegistered]. *)
Definition applyEntityRegistered (e : Event) (p : EntityRegistered) t : RegTables * option string :=
  match marshal_caps (er_capabilities p) with
  | Err msg => (t, Some ("marshal capabilities: " +:+ msg))
  | Ok caps =>
      let now := i64 (Timestamp e) in
      match exec ensure_driver_instance with
      | Some msg => (t, Some ("ensure driver_instance: " +:+ msg))
      | None =>
          let t1 := ensure_instance (er_driver_instance_id p) now t in
          let r2 :=
            if negb (is_empty (er_device_id p)) then
              match exec ensure_device with
              | Some msg => Err msg
              | None => ensure_dev (er_device_id p) (er_driver_instance_id p) now t1
              end
            else Ok t1 in
          match r2 with
          | Err msg => (t1, Some ("ensure device: " +:+ msg))
          | Ok t2 =>
              let deviceID := if negb (is_empty (er_device_id p)) then Some (er_device_id p)
                              else None in
              let r3 := match exec upsert_entity with
                        | Some msg => Err msg
                        | None => upsert_ent (Entity e) deviceID p caps now t2
                        end in
              match r3 with
              | Err msg => (t2, Some ("upsert entity: " +:+ msg))
              | Ok t3 => (t3, None)
              end
          end
      end
  end.

(** [applyEntityUnregistered]. *)
Definition applyEntityUnregistered (e : Event) t : RegTables * option string :=
  match exec disable_entity with
  | Some msg => (t, Some ("disable entity " +:+ Entity e +:+ ": " +:+ msg))
  | None =>
      match entities t !! Entity e with
      | None => (t, None)
      | Some r => (with_entities
          (<[Entity e := mkEntityRow (ent_device_id r) (ent_driver_instance_id r)
               (ent_entity_type r) (ent_friendly_name r) (ent_capabilities r) true
               (ent_created_at r) (i64 (Timestamp e))]> (entities t)) t, None)
      end
  end.

(** [UPDATE driver_instances SET ... WHERE id = ?]. *)
Definition update_instance (id : string) (f : DriverInstanceRow -> DriverInstanceRow) t :
    RegTables :=
  with_driver_instances (alter f id (driver_instances t)) t.

Definition set_status (st : string) (r : DriverInstanceRow) : DriverInstanceRow :=
  mkDriverInstanceRow (di_driver_name r) (di_display_name r) (di_transport r) (di_endpoint r)
    (di_config_hash r) st (di_last_error r) (di_started_at r) (di_last_heartbeat r)
    (di_created_at r).

Definition set_error (msg : option string) (r : DriverInstanceRow) : DriverInstanceRow :=
  mkDriverInstanceRow (di_driver_name r) (di_display_name r) (di_transport r) (di_endpoint r)
    (di_config_hash r) (di_status r) msg (di_started_at r) (di_last_heartbeat r)
    (di_created_at r).

Definition set_heartbeat (ts : Z) (r : DriverInstanceRow) : DriverInstanceRow :=
  mkDriverInstanceRow (di_driver_name r) (di_display_name r) (di_transport r) (di_endpoint r)
    (di_config_hash r) (di_status r) (di_last_error r) (di_started_at r) (Some ts)
    (di_created_at r).

Definition set_started (ts : Z) (r : DriverInstanceRow) : DriverInstanceRow :=
  mkDriverInstanceRow (di_driver_name r) (di_display_name r) (di_transport r) (di_endpoint r)
    (di_config_hash r) (di_status r) (di_last_error r) (Some ts) (di_last_heartbeat r)
    (di_created_at r).

(** The columns [ON CONFLICT(id) DO UPDATE] sets when a driver starts. *)
Definition restart_row (ts : Z) (r : DriverInstanceRow) : DriverInstanceRow :=
  set_heartbeat ts (set_started ts (set_error None (set_status "running" r))).

(** [applyDriverEvent]: unknown kinds do nothing. *)
Definition applyDriverEvent (e : Event) (p : DriverEvent) t : RegTables * option string :=
  let ts := i64 (Timestamp e) in
  let id := de_driver_instance_id p in
  let guarded st what t' :=
    match exec st with
    | Some msg => (t, Some ("driver " +:+ what +:+ " " +:+ id +:+ ": " +:+ msg))
    | None => (t', None)
    end in
  if String.eqb (de_kind p) "started" then
    guarded driver_started "started"
      (with_driver_instances
         (<[id := match driver_instances t !! id with
                  | Some r => restart_row ts r
                  | None => mkDriverInstanceRow id id "local_subprocess" "" "" "running" None
                              (Some ts) (Some ts) ts
                  end]> (driver_instances t)) t)
  else if String.eqb (de_kind p) "stopped" then
    guarded driver_stopped "stopped" (update_instance id (set_status "stopped") t)
  else if String.eqb (de_kind p) "failed" then
    guarded driver_failed "failed"
      (update_instance id (fun r => set_error (Some (de_detail p)) (set_status "failed" r)) t)
  else if String.eqb (de_kind p) "heartbeat" then
    guarded driver_heartbeat "heartbeat" (update_instance id (set_heartbeat ts) t)
  else (t, None).

(** [Apply]. *)
Definition Registry_Apply (e : Event) t : RegTables * option string :=
  match GetKind e with
  | Some (Payload_EntityRegistered p) => applyEntityRegistered e p t
  | Some (Payload_EntityUnregistered _) => applyEntityUnregistered e t
  | Some (Payload_DriverEvent p) => applyDriverEvent e p t
  | _ => (t, None)
  end.

(** The registry as the store's projector; it embeds [NoSnapshot]. *)
Definition registry_projector {M : Type} : Projector M RegTables :=
  mkProjector Registry_Name
    (fun e m t => let '(t', err) := Registry_Apply e t in (m, t', err))
    NoSnapshot_Snapshot NoSnapshot_Restore None None.

End Projector.

(** ** Areas *)

Record Area := mkArea { AreaID_ : string; DisplayName : string; ParentID : string }.

#[export] Instance Area_eq_dec : EqDecision Area.
Proof. solve_decision. Defined.

Record AreaState := mkAreaState {
  areas : gmap string Area;
  entityAreas : gmap string string;
}.

(** [SetAreas]. *)
Definition SetAreas (l : list Area) (st : AreaState) : AreaState :=
  mkAreaState
    (foldl (fun m a => if is_empty (AreaID_ a) then m else <[AreaID_ a := a]> m) ∅ l)
    (entityAreas st).

(** [SetEntityAreas]: [None] is a nil map. *)
Definition SetEntityAreas (m : option (gmap string string)) (st : AreaState) : AreaState :=
  mkAreaState (areas st) (match m with None => ∅ | Some m => m end).

(** [ListAreasInMemory]: [order] is the order in which Go happens to range
    over the map. *)
Definition ListAreasInMemory (order : list Area) : list Area := insertion_sort AreaID_ order.

Definition GetAreaInMemory (id : string) (st : AreaState) : option Area := areas st !! id.

(** [AreaForEntity]: a missing key reads as the empty string. *)
Definition AreaForEntity (id : string) (st : AreaState) : string :=
  default "" (entityAreas st !! id).

(** ** Queries *)

Record DriverInstance := mkDriverInstance {
  DI_ID : string; DI_DriverName : string; DI_DisplayName : string; DI_Transport : string;
  DI_Endpoint : string; DI_ConfigHash : string; DI_Status : string; DI_LastError : string;
  DI_StartedAt : Z; DI_LastHeartbeat : Z; DI_CreatedAt : Z;
}.

Record Device := mkDevice {
  D_ID : string; D_DriverInstanceID : string; D_FriendlyName : string; D_Manufacturer : string;
  D_Model : string; D_SwVersion : string; D_Disabled : bool; D_CreatedAt : Z; D_UpdatedAt : Z;
}.

Record RegEntity := mkRegEntity {
  E_ID : string; E_DeviceID : string; E_DriverInstanceID : string; E_EntityType : string;
  E_FriendlyName : string; E_Capabilities : string; E_Disabled : bool; E_CreatedAt : Z;
  E_UpdatedAt : Z; E_AreaID : string;
}.

Record DeviceFilter := mkDeviceFilter { DF_DriverInstanceID : string; DF_IncludeDisabled : bool }.

Record EntityFilter := mkEntityFilter {
  EF_DriverInstanceID : string; EF_DeviceID : string; EF_EntityType : string;
  EF_IncludeDisabled : bool;
}.

(** [scanDriverInstance] of the selected columns: unset times stay zero. *)
Definition scanDriverInstance (id : string) (r : DriverInstanceRow) : DriverInstance :=
  let ts o := let v := default 0 o in if v >? 0 then v else zero_time in
  mkDriverInstance id (di_driver_name r) (di_display_name r) (di_transport r) (di_endpoint r)
    (di_config_hash r) (di_status r) (default "" (di_last_error r)) (ts (di_started_at r))
    (ts (di_last_heartbeat r)) (di_created_at r).

Definition scanDevice (id : string) (r : DeviceRow) : Device :=
  mkDevice id (dev_driver_instance_id r) (dev_friendly_name r) "" "" "" (dev_disabled r)
    (dev_created_at r) (dev_updated_at r).

Definition scanEntity (id : string) (r : EntityRow) : RegEntity :=
  mkRegEntity id (default "" (ent_device_id r)) (ent_driver_instance_id r) (ent_entity_type r)
    (ent_friendly_name r) (ent_capabilities r) (ent_disabled r) (ent_created_at r)
    (ent_updated_at r) "".

Definition with_area (a : string) (e : RegEntity) : RegEntity :=
  mkRegEntity (E_ID e) (E_DeviceID e) (E_DriverInstanceID e) (E_EntityType e) (E_FriendlyName e)
    (E_Capabilities e) (E_Disabled e) (E_CreatedAt e) (E_UpdatedAt e) a.

(** The rows of a table, [ORDER BY id]. *)
Definition key_le {A} (a b : string * A) : Prop := String.le a.1 b.1.
#[export] Instance key_le_dec {A} : RelDecision (@key_le A).
Proof. unfold key_le, RelDecision. intros. apply _. Defined.

Definition order_by_id {A} (m : gmap string A) : list (string * A) :=
  merge_sort key_le (map_to_list m).

Definition GetDriverInstance (id : string) (t : RegTables) : result string DriverInstance :=
  match driver_instances t !! id with
  | None => Err "driver instance not found"
  | Some r => Ok (scanDriverInstance id r)
  end.

Definition ListDriverInstances (t : RegTables) : list DriverInstance :=
  (fun kr => scanDriverInstance kr.1 kr.2) <$> order_by_id (driver_instances t).

Definition GetDevice (id : string) (t : RegTables) : result string Device :=
  match devices t !! id with
  | None => Err "device not found"
  | Some r => Ok (scanDevice id r)
  end.

(** The WHERE clause [ListDevices] assembles. *)
Definition device_where (f : DeviceFilter) (r : DeviceRow) : bool :=
  (is_empty (DF_DriverInstanceID f) ||
     String.eqb (dev_driver_instance_id r) (DF_DriverInstanceID f)) &&
  (DF_IncludeDisabled f || negb (dev_disabled r)).

Definition ListDevices (f : DeviceFilter) (t : RegTables) : list Device :=
  (fun kr => scanDevice kr.1 kr.2) <$>
    filter (fun kr => device_where f kr.2 = true) (order_by_id (devices t)).

Definition GetEntity (id : string) (st : AreaState) (t : RegTables) : result string RegEntity :=
  match entities t !! id with
  | None => Err "entity not found"
  | Some r => Ok (with_area (AreaForEntity id st) (scanEntity id r))
  end.

(** The WHERE clause [ListEntities] assembles. *)
Definition entity_where (f : EntityFilter) (r : EntityRow) : bool :=
  (is_empty (EF_DriverInstanceID f) ||
     String.eqb (ent_driver_instance_id r) (EF_DriverInstanceID f)) &&
  (is_empty (EF_DeviceID f) || bool_decide (ent_device_id r = Some (EF_DeviceID f))) &&
  (is_empty (EF_EntityType f) || String.eqb (ent_entity_type r) (EF_EntityType f)) &&
  (EF_IncludeDisabled f || negb (ent_disabled r)).

Definition ListEntities (f : EntityFilter) (st : AreaState) (t : RegTables) : list RegEntity :=
  (fun kr => with_area (AreaForEntity kr.1 st) (scanEntity kr.1 kr.2)) <$>
    filter (fun kr => entity_where f kr.2 = true) (order_by_id (entities t)).

(** ** Correctness of the registry

    Foreign keys are never violated, replaying the log over the persisted
    tables changes nothing, listings are exact and ordered, and the area list
    does not depend on Go's map iteration order. *)

(** ** Foreign keys *)

(** Every device and entity names an existing driver instance, every entity's
    device exists. *)
Definition fk_ok (t : RegTables) : Prop :=
  map_Forall (fun _ d => is_Some (driver_instances t !! dev_driver_instance_id d)) (devices t) /\
  map_Forall (fun _ e => is_Some (driver_instances t !! ent_driver_instance_id e) /\
    (forall dv, ent_device_id e = Some dv -> is_Some (devices t !! dv))) (entities t).

Lemma fk_ok_instances m t :
  (forall k, is_Some (driver_instances t !! k) -> is_Some (m !! k)) ->
  fk_ok t -> fk_ok (with_driver_instances m t).
Proof.
  intros Hm [Hd He]. split; cbn.
  - intros k d Hk. apply Hm. by eapply Hd.
  - intros k e Hk. destruct (He k e Hk). auto.
Qed.

Section Apply.
Context (marshal_caps : option Attributes -> result string string).
Context (exec : reg_stmt -> option string).
Implicit Type t : RegTables.

Lemma ensure_instance_here id now t : is_Some (driver_instances (ensure_instance id now t) !! id).
Proof.
  unfold ensure_instance. destruct (driver_instances t !! id) eqn:Hi; [by rewrite Hi|].
  cbn. by rewrite lookup_insert_eq.
Qed.

Lemma ensure_instance_fk id now t : fk_ok t -> fk_ok (ensure_instance id now t).
Proof.
  intros Hfk. unfold ensure_instance. destruct (driver_instances t !! id); [done|].
  apply fk_ok_instances; [|done]. intros k. rewrite lookup_insert_is_Some'. auto.
Qed.

Lemma ensure_dev_ok id driver now t :
  is_Some (driver_instances t !! driver) ->
  exists t', ensure_dev id driver now t = Ok t' /\ is_Some (devices t' !! id) /\
    driver_instances t' = driver_instances t /\ (fk_ok t -> fk_ok t').
Proof.
  intros [r Hr]. unfold ensure_dev. destruct (devices t !! id) eqn:Hi.
  { exists t. rewrite Hi. eauto. }
  rewrite Hr. eexists. split; [done|]. split; [cbn; by rewrite lookup_insert_eq|].
  split; [done|]. intros [Hd He]. split; cbn.
  - apply map_Forall_insert_2; [cbn; eauto | done].
  - intros k e Hk. destruct (He k e Hk) as [H1 H2]. split; [done|].
    intros dv Hdv. rewrite lookup_insert_is_Some'. auto.
Qed.

Lemma upsert_ent_ok id device p caps now t :
  is_Some (driver_instances t !! er_driver_instance_id p) ->
  (forall dv, device = Some dv -> is_Some (devices t !! dv)) ->
  exists t', upsert_ent id device p caps now t = Ok t' /\ (fk_ok t -> fk_ok t').
Proof.
  intros Hi Hd. unfold upsert_ent. rewrite (bool_decide_true _ Hi).
  assert ((match device with None => true | Some dv => bool_decide (is_Some (devices t !! dv)) end)
    = true) as ->.
  { destruct device; [|done]. apply bool_decide_true. auto. }
  eexists. split; [done|]. intros [HD HE]. split; cbn; [done|].
  apply map_Forall_insert_2; [by cbn | done].
Qed.

Lemma update_instance_fk id f t : fk_ok t -> fk_ok (update_instance id f t).
Proof. apply fk_ok_instances. intros k. by rewrite lookup_alter_is_Some. Qed.

(** Without database faults [Apply] cannot fail and keeps the foreign keys. *)
Lemma Registry_Apply_ok e t :
  (forall a, is_ok (marshal_caps a) = true) -> (forall st, exec st = None) ->
  exists t', Registry_Apply marshal_caps exec e t = (t', None) /\ (fk_ok t -> fk_ok t').
Proof.
  intros Hm Hx. unfold Registry_Apply. destruct (GetKind e) as [[]|]; eauto.
  - unfold applyEntityRegistered. specialize (Hm (er_capabilities m)).
    destruct (marshal_caps _) as [caps|]; [|done]. rewrite !Hx.
    set (t1 := ensure_instance _ _ t).
    pose proof (ensure_instance_here (er_driver_instance_id m) (i64 (Timestamp e)) t) as Hi.
    pose proof (ensure_instance_fk (er_driver_instance_id m) (i64 (Timestamp e)) t) as Hfk.
    fold t1 in Hi, Hfk. unfold is_empty. destruct (String.eqb (er_device_id m) "") eqn:Hd; cbn [negb].
    + destruct (upsert_ent_ok (Entity e) None m caps (i64 (Timestamp e)) t1 Hi) as (t3 & -> & H3);
        [done|]. eauto.
    + destruct (ensure_dev_ok (er_device_id m) (er_driver_instance_id m) (i64 (Timestamp e)) t1 Hi)
        as (t2 & -> & Hd2 & Hdi & H2).
      destruct (upsert_ent_ok (Entity e) (Some (er_device_id m)) m caps (i64 (Timestamp e)) t2)
        as (t3 & -> & H3); [by rewrite Hdi | by intros dv [= <-] | exists t3; auto 10].
  - unfold applyEntityUnregistered. rewrite Hx. destruct (entities t !! Entity e) as [r|] eqn:Hr;
      [|eauto]. eexists. split; [done|]. intros [Hd He]. split; [done|]. cbn.
    apply map_Forall_insert_2; [|done]. by apply (He _ _ Hr).
  - unfold applyDriverEvent. rewrite !Hx. repeat case_match; eexists; (split; [done|]);
      auto using update_instance_fk; apply fk_ok_instances; intros k;
      rewrite lookup_insert_is_Some'; auto.
Qed.

End Apply.

Section Interfaces.
Context (marshal_caps : option Attributes -> result string string).
Context (exec : reg_stmt -> option string).

#[export] Instance registry_Memoryless : Memoryless (registry_projector marshal_caps exec).
Proof.
  split; [done..|]. intros e m m' t. cbn [Apply registry_projector].
  by destruct (Registry_Apply _ _ e t).
Qed.

End Interfaces.

#[export] Instance registry_Rebuilt marshal_caps :
  (forall a, is_ok (marshal_caps a) = true) ->
  Rebuilt (registry_projector marshal_caps (fun _ => None)).
Proof.
  intros Hm. split; [|done]. intros e m t. cbn [Apply registry_projector].
  by destruct (Registry_Apply_ok marshal_caps (fun _ => None) e t) as (t' & -> & _).
Qed.

(** ** Replaying the log over the persisted tables *)

Section Replay.
Context (marshal_caps : option Attributes -> result string string).
Context (Hcaps : forall a, is_ok (marshal_caps a) = true).
Implicit Type t : RegTables.

Definition reg_apply t (e : Event) : RegTables :=
  (Registry_Apply marshal_caps (fun _ => None) e t).1.
Definition reg_fold (evs : list Event) t : RegTables := foldl reg_apply t evs.

Definition caps_of (a : option Attributes) : string :=
  match marshal_caps a with Ok b => b | Err _ => "" end.

(** The effect of one event on one row of each table. *)
Definition inst_step (k : string) (o : option DriverInstanceRow) (e : Event) :
    option DriverInstanceRow :=
  let ts := i64 (Timestamp e) in
  match GetKind e with
  | Some (Payload_EntityRegistered p) =>
      if decide (er_driver_instance_id p = k) then
        match o with
        | Some r => Some r
        | None => Some (mkDriverInstanceRow "" "" "local_subprocess" "" "" "starting"
                          None None None ts)
        end
      else o
  | Some (Payload_DriverEvent p) =>
      if decide (de_driver_instance_id p = k) then
        if String.eqb (de_kind p) "started" then
          Some (match o with
                | Some r => restart_row ts r
                | None => mkDriverInstanceRow k k "local_subprocess" "" "" "running" None
                            (Some ts) (Some ts) ts
                end)
        else if String.eqb (de_kind p) "stopped" then set_status "stopped" <$> o
        else if String.eqb (de_kind p) "failed" then
          (fun r => set_error (Some (de_detail p)) (set_status "failed" r)) <$> o
        else if String.eqb (de_kind p) "heartbeat" then set_heartbeat ts <$> o
        else o
      else o
  | _ => o
  end.

Definition device_step (k : string) (o : option DeviceRow) (e : Event) : option DeviceRow :=
  let ts := i64 (Timestamp e) in
  match GetKind e with
  | Some (Payload_EntityRegistered p) =>
      if decide (er_device_id p = k /\ k <> "") then
        match o with
        | Some r => Some r
        | None => Some (mkDeviceRow (er_driver_instance_id p) "" false ts ts)
        end
      else o
  | _ => o
  end.

Definition entity_step (k : string) (o : option EntityRow) (e : Event) : option EntityRow :=
  let ts := i64 (Timestamp e) in
  if decide (Entity e = k) then
    match GetKind e with
    | Some (Payload_EntityRegistered p) =>
        Some (mkEntityRow (if is_empty (er_device_id p) then None else Some (er_device_id p))
                (er_driver_instance_id p) (er_entity_type p) (er_friendly_name p)
                (caps_of (er_capabilities p)) false
                (match o with Some r => ent_created_at r | None => ts end) ts)
    | Some (Payload_EntityUnregistered _) =>
        (fun r => mkEntityRow (ent_device_id r) (ent_driver_instance_id r) (ent_entity_type r)
           (ent_friendly_name r) (ent_capabilities r) true (ent_created_at r) ts) <$> o
    | _ => o
    end
  else o.

(** What registering an entity does to the three tables. *)
Lemma registered_tables e p t :
  GetKind e = Some (Payload_EntityRegistered p) ->
  let now := i64 (Timestamp e) in
  let t1 := ensure_instance (er_driver_instance_id p) now t in
  let t' := reg_apply t e in
  driver_instances t' = driver_instances t1 /\
  devices t' = (if is_empty (er_device_id p) then devices t
                else match devices t !! er_device_id p with
                     | Some _ => devices t
                     | None => <[er_device_id p :=
                         mkDeviceRow (er_driver_instance_id p) "" false now now]> (devices t)
                     end) /\
  entities t' = <[Entity e := mkEntityRow
                    (if is_empty (er_device_id p) then None else Some (er_device_id p))
                    (er_driver_instance_id p) (er_entity_type p) (er_friendly_name p)
                    (caps_of (er_capabilities p)) false
                    (match entities t !! Entity e with Some r => ent_created_at r | None => now end)
                    now]> (entities t).
Proof.
  intros He now t1. unfold reg_apply, Registry_Apply, caps_of. rewrite He.
  unfold applyEntityRegistered. specialize (Hcaps (er_capabilities p)).
  destruct (marshal_caps _) as [caps|]; [|done]. fold now. fold t1.
  pose proof (ensure_instance_here (er_driver_instance_id p) now t) as Hi. fold t1 in Hi.
  assert (Ht1 : devices t1 = devices t /\ entities t1 = entities t).
  { unfold t1, ensure_instance. by destruct (driver_instances t !! _). }
  destruct Ht1 as [Hd1 He1]. pose proof Hi as [r Hr].
  destruct (is_empty (er_device_id p)) eqn:Hemp; cbn [negb].
  - unfold upsert_ent. rewrite (bool_decide_true _ Hi), He1. cbn. by rewrite ?Hd1, ?He1.
  - unfold ensure_dev. rewrite Hd1, Hr. destruct (devices t !! er_device_id p) eqn:Hdv.
    + unfold upsert_ent. rewrite (bool_decide_true _ Hi), Hd1, Hdv, He1. cbn. by rewrite ?Hd1, ?He1.
    + unfold upsert_ent. cbn [driver_instances devices entities with_devices].
      rewrite (bool_decide_true _ Hi), lookup_insert_eq, He1. cbn. by rewrite ?He1, ?Hd1.
Qed.

Lemma reg_apply_inst t e k :
  driver_instances (reg_apply t e) !! k = inst_step k (driver_instances t !! k) e.
Proof.
  unfold inst_step. destruct (GetKind e) as [[]|] eqn:He;
    try (unfold reg_apply, Registry_Apply; by rewrite He).
  - destruct (registered_tables e m t He) as (-> & _). unfold ensure_instance.
    case_decide as Hk; [subst k|]; destruct (driver_instances t !! er_driver_instance_id m) eqn:Hl;
      rewrite ?Hl; try done; cbn.
    + by rewrite lookup_insert_eq.
    + by rewrite lookup_insert_ne.
  - unfold reg_apply, Registry_Apply. rewrite He. unfold applyEntityUnregistered.
    by destruct (entities t !! Entity e).
  - unfold reg_apply, Registry_Apply. rewrite He. unfold applyDriverEvent, update_instance.
    case_decide as Hk; [subst k|]; repeat (case_match; cbn); try done;
      by rewrite ?lookup_insert_eq, ?lookup_alter_eq, ?lookup_insert_ne, ?lookup_alter_ne.
Qed.

Lemma reg_apply_device t e k :
  devices (reg_apply t e) !! k = device_step k (devices t !! k) e.
Proof.
  unfold device_step. destruct (GetKind e) as [[]|] eqn:He;
    try (unfold reg_apply, Registry_Apply; by rewrite He).
  - destruct (registered_tables e m t He) as (_ & -> & _). unfold is_empty.
    destruct (String.eqb_spec (er_device_id m) "") as [Hd|Hd].
    + rewrite decide_False; [done|]. intros [<- Hn]. done.
    + case_decide as Hk.
      * destruct Hk as [<- _]. destruct (devices t !! er_device_id m) eqn:Hl; [done|].
        by rewrite lookup_insert_eq.
      * destruct (devices t !! er_device_id m); [done|].
        rewrite lookup_insert_ne; [done|]. intros <-. by apply Hk.
  - unfold reg_apply, Registry_Apply. rewrite He. unfold applyEntityUnregistered.
    by destruct (entities t !! Entity e).
  - unfold reg_apply, Registry_Apply. rewrite He. unfold applyDriverEvent.
    by repeat (case_match; cbn).
Qed.

Lemma reg_apply_entity t e k :
  entities (reg_apply t e) !! k = entity_step k (entities t !! k) e.
Proof.
  unfold entity_step. destruct (GetKind e) as [[]|] eqn:He;
    try (unfold reg_apply, Registry_Apply; rewrite He; by case_decide).
  - destruct (registered_tables e m t He) as (_ & _ & ->).
    case_decide as Hk; [subst k; by rewrite lookup_insert_eq | by rewrite lookup_insert_ne].
  - unfold reg_apply, Registry_Apply. rewrite He. unfold applyEntityUnregistered.
    case_decide as Hk; [subst k|]; destruct (entities t !! Entity e) as [r|] eqn:Hl;
      rewrite ?Hl; try done; cbn; [by rewrite lookup_insert_eq | by rewrite lookup_insert_ne].
  - unfold reg_apply, Registry_Apply. rewrite He. unfold applyDriverEvent.
    by repeat (case_match; cbn).
Qed.

(** *** Running the same events twice

    [r'] takes each column either from [s] or from [r]. *)
Definition mixed {R V} (c : R -> V) (s r r' : R) : Prop := c r' = c s \/ c r' = c r.

Definition inst_mix (s r r' : DriverInstanceRow) : Prop :=
  mixed di_driver_name s r r' /\ mixed di_display_name s r r' /\ mixed di_transport s r r' /\
  mixed di_endpoint s r r' /\ mixed di_config_hash s r r' /\ mixed di_status s r r' /\
  mixed di_last_error s r r' /\ mixed di_started_at s r r' /\ mixed di_last_heartbeat s r r' /\
  mixed di_created_at s r r'.

Definition entity_mix (s r r' : EntityRow) : Prop :=
  mixed ent_device_id s r r' /\ mixed ent_driver_instance_id s r r' /\
  mixed ent_entity_type s r r' /\ mixed ent_friendly_name s r r' /\
  mixed ent_capabilities s r r' /\ mixed ent_disabled s r r' /\
  mixed ent_created_at s r r' /\ mixed ent_updated_at s r r'.

(** Column by column: inherited, or written with the same value in both rows. *)
Ltac solve_mix :=
  unfold inst_mix, entity_mix in *; destruct_and?; split_and!;
  first [assumption | right; reflexivity | left; reflexivity | left; assumption].

Lemma mixed_refl {R V} (c : R -> V) r r' : mixed c r r r' -> c r' = c r.
Proof. by intros []. Qed.

Lemma inst_mix_refl r r' : inst_mix r r r' -> r' = r.
Proof.
  unfold inst_mix. intros Hm. destruct_and!. destruct r, r'.
  by repeat match goal with H : mixed _ _ _ _ |- _ => apply mixed_refl in H; cbn in H; subst end.
Qed.

Lemma entity_mix_refl r r' : entity_mix r r r' -> r' = r.
Proof.
  unfold entity_mix. intros Hm. destruct_and!. destruct r, r'.
  by repeat match goal with H : mixed _ _ _ _ |- _ => apply mixed_refl in H; cbn in H; subst end.
Qed.

(** The kinds of driver event that update an existing row. *)
Definition is_update (kind : string) : bool :=
  String.eqb kind "stopped" || String.eqb kind "failed" || String.eqb kind "heartbeat".

(** Every driver instance in the log is created (by a [started] event or by
    registering an entity) before an event updates it. *)
Fixpoint driver_log_ok (seen : gset string) (evs : list Event) : bool :=
  match evs with
  | [] => true
  | e :: evs' =>
      match GetKind e with
      | Some (Payload_EntityRegistered p) =>
          driver_log_ok ({[er_driver_instance_id p]} ∪ seen) evs'
      | Some (Payload_DriverEvent p) =>
          if String.eqb (de_kind p) "started"
          then driver_log_ok ({[de_driver_instance_id p]} ∪ seen) evs'
          else if is_update (de_kind p)
          then bool_decide (de_driver_instance_id p ∈ seen) && driver_log_ok seen evs'
          else driver_log_ok seen evs'
      | _ => driver_log_ok seen evs'
      end
  end.

(** Two runs of the same events on one row: [o] from no row, [o'] from [s]. *)
Definition inst_rel (s : DriverInstanceRow) (o o' : option DriverInstanceRow) : Prop :=
  match o with
  | None => o' = Some s
  | Some r => exists r', o' = Some r' /\ inst_mix s r r'
  end.

Lemma inst_rel_update s o o' f :
  (forall a b, inst_mix s a b -> inst_mix s (f a) (f b)) -> is_Some o ->
  inst_rel s o o' -> inst_rel s (f <$> o) (f <$> o').
Proof. intros Hf [r ->] (r' & -> & Hm). exists (f r'). auto. Qed.

Lemma inst_rel_fold k s evs seen o o' :
  driver_log_ok seen evs = true -> (k ∈ seen -> is_Some o) -> inst_rel s o o' ->
  inst_rel s (foldl (inst_step k) o evs) (foldl (inst_step k) o' evs).
Proof.
  revert seen o o'. induction evs as [|e evs IH]; intros seen o o' Hwf Hs Hr; [done|].
  cbn [foldl driver_log_ok] in *. unfold inst_step at 2 4.
  destruct (GetKind e) as [[]|]; try (by eapply IH).
  - eapply IH; [done| |]; case_decide as Hk; try done.
    + intros _. by destruct o.
    + set_solver.
    + destruct o as [r|]; [by destruct Hr as (r' & -> & Hm); exists r'|].
      cbn in Hr. subst o'. eexists. split; [done|]. repeat split; by left.
  - destruct (String.eqb (de_kind m) "started") eqn:H1.
    { eapply IH; [done| |]; case_decide as Hk; try done; [set_solver|].
      eexists. split; [done|]. destruct o as [r|].
      - destruct Hr as (r' & -> & Hm). solve_mix.
      - cbn in Hr. subst o'. solve_mix. }
    unfold is_update in Hwf.
    destruct (decide (de_driver_instance_id m = k)) as [Hk|Hk].
    2: { repeat case_match; try (by eapply IH); apply andb_true_iff in Hwf as [_ ?]; by eapply IH. }
    subst k. destruct (String.eqb (de_kind m) "stopped"); [|destruct (String.eqb (de_kind m) "failed");
      [|destruct (String.eqb (de_kind m) "heartbeat")]]; cbn [orb] in Hwf; try (by eapply IH);
      apply andb_true_iff in Hwf as [Hin%bool_decide_eq_true Hwf];
      (eapply IH; [done | by intros H%Hs; apply fmap_is_Some |]);
      apply inst_rel_update; auto; intros a b Hab; solve_mix.
Qed.

Definition entity_rel (s : EntityRow) (o o' : option EntityRow) : Prop :=
  exists r', o' = Some r' /\
  match o with
  | None => ent_created_at r' = ent_created_at s
  | Some r => entity_mix s r r' /\ ent_created_at r' = ent_created_at s
  end.

Lemma entity_rel_step k s o o' e :
  entity_rel s o o' -> entity_rel s (entity_step k o e) (entity_step k o' e).
Proof.
  intros (r' & -> & Hr). unfold entity_step. case_decide; [|by exists r'].
  destruct (GetKind e) as [[]|]; try (by exists r'); eexists; (split; [done|]); cbn.
  - destruct o as [r|].
    + destruct Hr as [Hm Hc]. split; [|done]. solve_mix.
    + split; [|done]. solve_mix.
  - destruct o as [r|]; cbn; [|done]. destruct Hr as [Hm Hc]. split; [|done].
    solve_mix.
Qed.

Lemma inst_fold_idem k evs :
  driver_log_ok ∅ evs = true ->
  foldl (inst_step k) (foldl (inst_step k) None evs) evs = foldl (inst_step k) None evs.
Proof.
  intros Hwf. destruct (foldl (inst_step k) None evs) as [r|] eqn:Hr; [|done].
  pose proof (inst_rel_fold k r evs ∅ None (Some r) Hwf) as Hrel. rewrite Hr in Hrel.
  destruct Hrel as (r' & -> & Hm); [set_solver | done |]. f_equal. by apply inst_mix_refl.
Qed.

Lemma entity_fold_idem k evs :
  foldl (entity_step k) (foldl (entity_step k) None evs) evs = foldl (entity_step k) None evs.
Proof.
  destruct (foldl (entity_step k) None evs) as [r|] eqn:Hr; [|done].
  assert (Hrel : forall o o', entity_rel r o o' ->
    entity_rel r (foldl (entity_step k) o evs) (foldl (entity_step k) o' evs)).
  { clear Hr. induction evs as [|e evs IH]; intros o o' Ho; [done|].
    cbn [foldl]. by apply IH, entity_rel_step. }
  destruct (Hrel None (Some r)) as (r' & -> & Hm); [by exists r|]. rewrite Hr in Hm.
  f_equal. apply entity_mix_refl, Hm.
Qed.

Lemma device_fold_keeps k evs r : foldl (device_step k) (Some r) evs = Some r.
Proof.
  induction evs as [|e evs IH]; [done|]. cbn [foldl]. unfold device_step at 2.
  destruct (GetKind e) as [[]|]; try done. by case_decide.
Qed.

Lemma device_fold_idem k evs :
  foldl (device_step k) (foldl (device_step k) None evs) evs = foldl (device_step k) None evs.
Proof. destruct (foldl (device_step k) None evs) eqn:H; [apply device_fold_keeps | done]. Qed.

Lemma reg_fold_lookup evs t k :
  driver_instances (reg_fold evs t) !! k = foldl (inst_step k) (driver_instances t !! k) evs /\
  devices (reg_fold evs t) !! k = foldl (device_step k) (devices t !! k) evs /\
  entities (reg_fold evs t) !! k = foldl (entity_step k) (entities t !! k) evs.
Proof.
  revert t. induction evs as [|e evs IH]; intros t; [done|].
  change (reg_fold (e :: evs) t) with (reg_fold evs (reg_apply t e)).
  destruct (IH (reg_apply t e)) as (-> & -> & ->).
  by rewrite reg_apply_inst, reg_apply_device, reg_apply_entity.
Qed.

Lemma RegTables_ext t t' :
  (forall k, driver_instances t !! k = driver_instances t' !! k) ->
  (forall k, devices t !! k = devices t' !! k) ->
  (forall k, entities t !! k = entities t' !! k) -> t = t'.
Proof. destruct t, t'. cbn. intros H1 H2 H3. f_equal; apply map_eq; done. Qed.

(** Replaying the log over the registry's persisted tables, as every
    restart does, changes nothing, if each driver instance in the log is
    created before it is updated. *)
Theorem registry_replay_idempotent evs :
  driver_log_ok ∅ evs = true ->
  reg_fold evs (reg_fold evs RegTables_empty) = reg_fold evs RegTables_empty.
Proof.
  intros Hwf.
  apply RegTables_ext; intros k;
    destruct (reg_fold_lookup evs RegTables_empty k) as (H1 & H2 & H3),
      (reg_fold_lookup evs (reg_fold evs RegTables_empty) k) as (H4 & H5 & H6);
    rewrite H1 in *; rewrite H2 in *; rewrite H3 in *;
    cbn [driver_instances devices entities RegTables_empty] in *; rewrite lookup_empty in *.
  - rewrite H4. by apply inst_fold_idem.
  - rewrite H5. apply device_fold_idem.
  - rewrite H6. apply entity_fold_idem.
Qed.


End Replay.

(** ** Areas *)

(** The area listing is sorted and deterministic: whatever order Go ranges
    over the map in, the swap loops return the areas in ascending order of id,
    each exactly once, always in the same order. *)
Theorem ListAreas_deterministic order order' :
  NoDup (AreaID_ <$> order) -> order ≡ₚ order' ->
  ListAreasInMemory order = ListAreasInMemory order' /\
  ListAreasInMemory order ≡ₚ order /\ StronglySorted (by_key AreaID_) (ListAreasInMemory order).
Proof.
  intros Hnd Hp. unfold ListAreasInMemory.
  destruct (insertion_sort_spec AreaID_ order) as [H1 H2],
    (insertion_sort_spec AreaID_ order') as [H3 H4].
  split; [|done]. apply (by_key_unique AreaID_); [by rewrite H1 | by rewrite H1, H3 | done | done].
Qed.

(** ** Listings *)

Lemma order_by_id_elem {A} (m : gmap string A) k r : (k, r) ∈ order_by_id m <-> m !! k = Some r.
Proof.
  unfold order_by_id. rewrite merge_sort_Permutation. apply elem_of_map_to_list.
Qed.

Lemma order_by_id_sorted {A} (m : gmap string A) : StronglySorted key_le (order_by_id m).
Proof.
  apply StronglySorted_merge_sort.
  - intros a b c. unfold key_le. apply transitivity.
  - intros a b. unfold key_le. apply (total String.le).
Qed.

(** [ListEntities] is exact: it returns, ordered by id, one record per
    entity row that meets every populated field of the filter (disabled rows
    only when asked for), each with the area assigned to it. *)
Theorem ListEntities_exact f st t :
  StronglySorted (fun a b => String.le (E_ID a) (E_ID b)) (ListEntities f st t) /\
  forall x, x ∈ ListEntities f st t <->
    exists r, entities t !! E_ID x = Some r /\
      x = with_area (AreaForEntity (E_ID x) st) (scanEntity (E_ID x) r) /\
      (EF_DriverInstanceID f = "" \/ ent_driver_instance_id r = EF_DriverInstanceID f) /\
      (EF_DeviceID f = "" \/ ent_device_id r = Some (EF_DeviceID f)) /\
      (EF_EntityType f = "" \/ ent_entity_type r = EF_EntityType f) /\
      (EF_IncludeDisabled f = true \/ ent_disabled r = false).
Proof.
  assert (Hw : forall r, entity_where f r = true <->
    (EF_DriverInstanceID f = "" \/ ent_driver_instance_id r = EF_DriverInstanceID f) /\
    (EF_DeviceID f = "" \/ ent_device_id r = Some (EF_DeviceID f)) /\
    (EF_EntityType f = "" \/ ent_entity_type r = EF_EntityType f) /\
    (EF_IncludeDisabled f = true \/ ent_disabled r = false)).
  { intros r. unfold entity_where, is_empty.
    rewrite !andb_true_iff, !orb_true_iff, !String.eqb_eq, bool_decide_eq_true, negb_true_iff.
    tauto. }
  unfold ListEntities. split.
  - eapply StronglySorted_fmap; [|apply StronglySorted_filter, order_by_id_sorted].
    by intros [] [].
  - intros x. rewrite list_elem_of_fmap. split.
    + intros ([k r] & -> & [Hr Hk]%list_elem_of_filter). apply order_by_id_elem in Hk.
      cbn in *. exists r. rewrite <- Hw. done.
    + intros (r & Hr & Hx & Hf). exists (E_ID x, r). split; [done|].
      apply list_elem_of_filter. rewrite order_by_id_elem, Hw. done.
Qed.
