(* ===== verification/DaemonFacts.v ===== *)
(** * The store with the daemon's projectors

    Instances of the general theorems on a store assembled as
    [internal/daemon/daemon.go] assembles it: the state cache and the registry
    as synchronous projectors. Also the shortcoming of snapshots of an empty
    log. *)

From S2P Require Import Prelude Events EventStore EventStoreFacts ReplayFacts StateCache Registry.

#[export] Instance EntityState_eq_dec : EqDecision EntityState.
Proof. solve_decision. Defined.
#[export] Instance StateCacheSnapshot_eq_dec : EqDecision StateCacheSnapshot.
Proof. solve_decision. Defined.

Module Demo.

(** A payload codec for two payloads. *)
Definition on : Payload :=
  Some (Payload_StateChanged (mkStateChanged (Some (mkAttributes (Some (Attributes_SwitchDevice true)) true)) "")).
Definition registered : Payload :=
  Some (Payload_EntityRegistered (mkEntityRegistered "hue" "dev1" "switch" "Lamp" None)).

Definition marshal (p : Payload) : result string string :=
  if decide (p = on) then Ok "on" else if decide (p = registered) then Ok "reg" else Err "unsupported".
Definition unmarshal (b : string) : result string Payload :=
  if decide (b = "on") then Ok on else if decide (b = "reg") then Ok registered else Err "bad bytes".

Lemma demo_codec p b : marshal p = Ok b -> unmarshal b = Ok p.
Proof. unfold marshal. repeat case_decide; by intros [= <-]; subst. Qed.

Definition caps (_ : option Attributes) : result string string := Ok "caps".

Definition ev (p : Payload) : Event := mkEvent 0 5 "k" "light.lamp" "driver" 7 0 (Some p).

(** The map after both events, and a snapshot codec that knows just it. *)
Definition lamp : State :=
  mkState "light.lamp" 5 "driver" (Some (mkAttributes (Some (Attributes_SwitchDevice true)) true)).
Definition snap : StateCacheSnapshot := mkStateCacheSnapshot 9 2 [entity_state lamp].

Definition cdc : snapshot_codec :=
  mkSnapshotCodec (fun x => if decide (x = snap) then Ok "snap" else Err "unsupported")
    (fun _ => Ok snap) None (fun b => b) None
    (fun b => if decide (b = "garbage") then Err "bad frame" else Ok b).

Definition cdc_rt : snapshot_codec :=
  mkSnapshotCodec (fun x => if decide (x = snap) then Ok "snap" else Err "unsupported")
    (fun _ => Ok snap) None (fun b => b) None Ok.

#[global] Instance cdc_rt_roundtrip : CodecRoundtrip cdc_rt.
Proof.
  split; [|done..]. intros x b. unfold cdc_rt. cbn. case_decide; [|done]. by intros [= <-]; subst.
Qed.

Definition regp : Projector Cache RegTables := registry_projector caps (fun _ => None).
Definition regs := daemon_regs cdc snap_db_ok regp.

Definition db0 : DB RegTables := mkDB [] 0 ∅ [] ∅ ∅ RegTables_empty.
Definition store0 : Store Cache RegTables :=
  mkStore Example.cfg0 db0 regs Cache_New 0 true.

Definition append (p : Payload) (s : Store Cache RegTables) : Store Cache RegTables :=
  (Append marshal 1 2 Example.busy_once Example.never (ev p) s).1.

(** Both events appended; then the process restarts with an empty cache. *)
Definition store2 : Store Cache RegTables := append on (append registered store0).
Definition restarted : Store Cache RegTables :=
  mkStore (cfg store2) (db store2) regs Cache_New (latestPosition store2) false.

#[global] Instance regp_Rebuilt : Rebuilt regp.
Proof. by apply registry_Rebuilt. Qed.

(** Every commit fails. *)
Definition disk_full (_ : nat) : TxFaults :=
  mkTxFaults None (fun _ => None) (fun _ => None) (fun _ => None) (Some "disk full").

Lemma readable :
  exists evs, readable_log unmarshal (db restarted) evs /\ length evs = 2%nat.
Proof.
  exists [set_Position 1 (ev registered); set_Position 2 (ev on)]. split; [|reflexivity].
  split; [|split; by vm_compute]. split; by vm_compute.
Qed.

Lemma store2_view : View (mem store2) = {["light.lamp" := lamp]}.
Proof. by vm_compute. Qed.

Lemma restored :
  restoreProjectors (fun _ => no_faults) restarted = (with_mem Cache_New restarted, Ok 0).
Proof. apply (daemon_restore cdc snap_db_ok regp _ _ 0); [done | by vm_compute | done]. Qed.

End Demo.

(** ** Witnesses *)

Lemma Append_failure_invisible_witness :
  (Append Demo.marshal 1 2 Demo.disk_full Example.never (Demo.ev Demo.on) Demo.store0).1
    = Demo.store0.
Proof.
  exact (Append_failure_invisible (vis := cache_visible) (clean := cache_clean)
    Demo.marshal 1 2 Demo.disk_full Example.never (Demo.ev Demo.on) Demo.store0 (eq_refl : cache_clean (mem Demo.store0))).
Defined.

Lemma cache_follows_log_witness :
  cache_consistent Demo.unmarshal (Append Demo.marshal 1 2 Example.busy_once Example.never
     (Demo.ev Demo.on) Demo.store0).1.
Proof.
  apply (cache_follows_log Demo.cdc snap_db_ok Demo.marshal Demo.unmarshal Demo.regp).
  - exact Demo.demo_codec.
  - reflexivity.
  - vm_compute. split; congruence.
  - split; [reflexivity|]. exists []. split; reflexivity.
Defined.

Lemma Replay_terminates_witness :
  is_Some (Replay Demo.unmarshal 2 (fun _ => no_faults)
    (fun _ => mkTxFaults (Some "database is locked") (fun _ => None) (fun _ => None) (fun _ => None) None)
    Demo.restarted).
Proof.
  apply (Replay_terminates Demo.unmarshal).
  - split; vm_compute; [repeat split | reflexivity].
  - vm_compute. reflexivity.
  - intros s1 c H. rewrite Demo.restored in H. injection H as _ <-. lia.
  - vm_compute. lia.
Defined.

Lemma Replay_correct_witness :
  exists evs s' err, Replay Demo.unmarshal 2 (fun _ => no_faults) (fun _ => no_faults) Demo.restarted
    = Some (s', err) /\
    replay_post (R := fun c c' => eff c = eff c') 0 (length evs)
      (replay_events (projectors Demo.restarted) (drop 0 evs)
         (mem (with_mem Cache_New Demo.restarted)) (db Demo.restarted))
      (with_mem Cache_New Demo.restarted) s' err.
Proof.
  destruct Demo.readable as (evs & Hr & Hl). exists evs.
  apply (Replay_correct (R := fun c c' => eff c = eff c') Demo.unmarshal 2 (fun _ => no_faults)
    Demo.restarted (with_mem Cache_New Demo.restarted) 0 evs).
  - reflexivity.
  - exact Demo.restored.
  - exact Hr.
  - rewrite Hl. constructor.
Defined.


Lemma snapshot_restore_roundtrip_witness :
  exists d', Cache_Snapshot Demo.cdc_rt snap_db_ok 9 (mem Demo.store2) (db Demo.store2) = Ok d' /\
  Cache_Restore Demo.cdc_rt snap_db_ok Cache_New d' =
    (with_current (View (mem Demo.store2)) Cache_New, Ok 2).
Proof.
  eexists. split; [vm_compute; reflexivity|].
  apply (snapshot_restore_roundtrip Demo.cdc_rt snap_db_ok 9 (mem Demo.store2) Cache_New (db Demo.store2)).
  - exact Demo.cdc_rt_roundtrip.
  - rewrite Demo.store2_view. apply map_Forall_singleton. cbn [EntityID UpdatedAt Demo.lamp]. split; [reflexivity|lia].
  - reflexivity.
  - intros r Hr. change (snapshots (db Demo.store2)) with (@nil SnapshotRow) in Hr.
    by apply not_elem_of_nil in Hr.
  - vm_compute. reflexivity.
Defined.

Lemma restore_newest_valid_witness :
  restore_rows Demo.cdc
    [mkSnapshotRow 3 0 "state_cache" "protobuf+zstd" "garbage";
     mkSnapshotRow 2 0 "state_cache" "protobuf+zstd" "snap"] (mkCache ∅ None true []) =
  (mkCache (build_map [entity_state Demo.lamp]) None true ["state_cache"], Ok 2).
Proof.
  apply (restore_newest_valid Demo.cdc (mkCache ∅ None true [])
    [mkSnapshotRow 3 0 "state_cache" "protobuf+zstd" "garbage"]
    [mkSnapshotRow 2 0 "state_cache" "protobuf+zstd" "snap"]).
  - repeat constructor.
  - reflexivity.
Defined.

Lemma registry_replay_idempotent_witness :
  let evs := [Demo.ev Demo.registered;
    mkEvent 2 6 "driver_event" "" "d" 7 0 (Some (Some (Payload_DriverEvent (mkDriverEvent "hue" "failed" "x"))))] in
  reg_fold Demo.caps evs (reg_fold Demo.caps evs RegTables_empty) = reg_fold Demo.caps evs RegTables_empty.
Proof.
  intros evs. apply (registry_replay_idempotent Demo.caps (fun _ => eq_refl) evs).
  vm_compute. reflexivity.
Defined.


Lemma ListAreas_deterministic_witness :
  ListAreasInMemory [mkArea "b" "" ""; mkArea "a" "" ""] =
  ListAreasInMemory [mkArea "a" "" ""; mkArea "b" "" ""].
Proof.
  apply (ListAreas_deterministic [mkArea "b" "" ""; mkArea "a" "" ""]).
  - apply (bool_decide_unpack _). vm_compute. exact I.
  - apply perm_swap.
Defined.

(** ** A snapshot of the empty log hides the first event

    [Snapshot] files a snapshot of an empty log under position 1, so a store
    whose only projector is the cache resumes after the first event. *)

(** The cache alone: snapshot while the log is empty, then one event, then a
    restart. *)
Definition lone : list (Projector Cache unit * ProjectorMode) :=
  [(cache_projector
      (mkSnapshotCodec (fun _ => Ok "empty") (fun _ => Ok (mkStateCacheSnapshot 0 1 [])) None
         (fun b => b) None Ok) snap_db_ok, ProjectorModeSync)].

Definition lone_after_snapshot : Store Cache unit :=
  (SnapshotNow 0 (fun _ => no_snap_faults) "state_cache"
     (mkStore Example.cfg0 (mkDB [] 0 ∅ [] ∅ ∅ ()) lone Cache_New 0 true)).1.

Definition lone_store : Store Cache unit :=
  (Append Demo.marshal 1 2 (fun _ => no_faults) Example.never (Demo.ev Demo.on) lone_after_snapshot).1.

Definition lone_restarted : Store Cache unit :=
  mkStore (cfg lone_store) (db lone_store) lone Cache_New (latestPosition lone_store) false.

(** A snapshot of an empty log is filed under position 1, the position the
    first event will get: after a restart of a store whose only projector is
    the cache, replay succeeds and the first event is missing from the cache,
    although readers saw it before the restart. *)
Theorem empty_log_snapshot_hides_event :
  Cache_Get "light.lamp" (mem lone_store) = Some Demo.lamp /\
  (fun r => (Cache_Get "light.lamp" (mem r.1), r.2)) <$>
    Replay Demo.unmarshal 2 (fun _ => no_faults) (fun _ => no_faults) lone_restarted
  = Some (None, None).
Proof. split; by vm_compute. Qed.
