(* ===== verification/Api.v ===== *)
(** * Pages, cursors and errors of the RPC services

    Models [internal/api/pagination.go] and [errors.go], the list handlers of the
    services with the [paginate...] helpers of [internal/daemon/api_adapters.go]
    (one generic [paginate], as their bodies are the same), and the event query
    with its adapter.

    [cursor_roundtrip]: tokens decode to the cursor they encode. [pages_enumerate]:
    a client that follows the tokens of a list sees every item once and in order.
    [crafted_token_panics], [event_pages_never_advance] and
    [event_query_hides_matches]: where that fails. [internal_errors_hidden]: what
    the text of an error reveals. *)

From Stdlib Require Import Ascii String.
From S2P Require Import Prelude Codec Events EventStore EventStoreFacts.

(** ** Cursors *)

Record Cursor := mkCursor { CPosition : Z; Tiebreak : string }.
Definition no_cursor : Cursor := mkCursor 0 "".

Definition DefaultPageSize : Z := 100.
Definition MaxPageSize : Z := 1000.

Definition ClampPageSize (n : Z) : Z := if n =? 0 then DefaultPageSize else if n >? MaxPageSize then MaxPageSize else n.

(** The [k] lowest bytes of a number, the highest first. *)
Fixpoint be_bytes (k : nat) (z : Z) : list ascii :=
  match k with O => [] | S k => be_bytes k (z / 256) ++ [ascii_of_N (Z.to_N (z mod 256))] end.

Definition be_value (l : list ascii) : Z := foldl (fun acc c => acc * 256 + Z.of_N (N_of_ascii c)) 0 l.

(** [binary.BigEndian.PutUint64] and [Uint64]. *)
Definition PutUint64 (z : Z) : string := string_of_list_ascii (be_bytes 8 z).
Definition Uint64 (s : string) : Z := be_value (list_ascii_of_string s).

Definition EncodeCursor (c : Cursor) : string :=
  if (CPosition c =? 0) && is_empty (Tiebreak c) then ""
  else encode base64_url (PutUint64 (CPosition c) +:+ Tiebreak c).

Inductive cursor_error := BadBase64 | ShortToken.

Definition DecodeCursor (token : string) : result cursor_error Cursor :=
  if is_empty token then Ok no_cursor
  else match decode base64_url token with
  | None => Err BadBase64
  | Some b =>
      if (String.length b <? 8)%nat then Err ShortToken
      else Ok (mkCursor (Uint64 (String.substring 0 8 b)) (String.substring 8 (String.length b - 8) b))
  end.

(** ** Pages of a list held in memory *)

Record PageReq := mkPageReq { Size : Z; PCursor : Cursor }.

(** [PagePanic]: the slice expression of the source panics. *)
Inductive page_result (A : Type) := PageOf (items : list A) (next : Cursor) | PagePanic.
Arguments PageOf {A}.
Arguments PagePanic {A}.

Definition paginate {A} (items : list A) (page : PageReq) : page_result A :=
  let start := i64 (CPosition (PCursor page)) in
  if start >? Z.of_nat (length items) then PageOf [] no_cursor
  else if start <? 0 then PagePanic
  else
    let items := drop (Z.to_nat start) items in
    let size := if Size page <=? 0 then DefaultPageSize else Size page in
    if Z.of_nat (length items) >? size
    then PageOf (take (Z.to_nat size) items) (mkCursor (u64 (start + size)) "")
    else PageOf items no_cursor.

(** The list handler of a service: the reply with its next page token. *)
Inductive reply (A : Type) := Reply (items : list A) (token : string) | BadPageToken | Failed (msg : string) | Panicked.
Arguments Reply {A}.
Arguments BadPageToken {A}.
Arguments Failed {A}.
Arguments Panicked {A}.

Definition list_handler {A} (items : list A) (size : Z) (token : string) : reply A :=
  match DecodeCursor token with
  | Err _ => BadPageToken
  | Ok cur =>
      match paginate items (mkPageReq (ClampPageSize size) cur) with
      | PagePanic => Panicked
      | PageOf out next => Reply out (EncodeCursor next)
      end
  end.

(** ** A client that follows the tokens *)

(** All items of at most [fuel] pages, if the last of them has no token. *)
Fixpoint follow {A} (h : string -> reply A) (fuel : nat) (token : string) : option (list A) :=
  match fuel with
  | O => None
  | S fuel =>
      match h token with
      | Reply items next => if is_empty next then Some items else (fun rest => items ++ rest) <$> follow h fuel next
      | _ => None
      end
  end.

(** The first [n] pages. *)
Fixpoint pages {A} (h : string -> reply A) (n : nat) (token : string) : list (list A) :=
  match n with
  | O => []
  | S n =>
      match h token with
      | Reply items next => items :: if is_empty next then [] else pages h n next
      | _ => []
      end
  end.

(** ** The event query *)

Record EventFilter := mkEventFilter {
  ef_Kinds : list string; ef_EntityPrefix : string; ef_Sources : list string; ef_FromCursor : Z; ef_ToCursor : Z;
  ef_FromTime : Z; ef_ToTime : Z;
}.

Section EventQuery.
Context {T : Type} (unmarshal : string -> result string Payload).
Implicit Type d : DB T.

(** [eventSourceAdapter.Query]. *)
Definition adapter_Query d (filter : EventFilter) (page : PageReq) : result string (list Event * Cursor) :=
  let opts := mkQueryOptions (ef_FromCursor filter) (ef_ToCursor filter)
                (mkFilter (ef_Kinds filter) [] (ef_Sources filter) [] zero_time zero_time) (Size page) in
  match Query unmarshal opts d with
  | Err e => Err e
  | Ok events =>
      let lastPos := match last events with Some e => Position e | None => 0 end in
      Ok (events, if (Size page <=? Z.of_nat (length events)) && (0 <? Size page) then mkCursor lastPos "" else no_cursor)
  end.

(** [EventService.Query]. *)
Definition EventService_Query d (filter : EventFilter) (size : Z) (token : string) : reply Event :=
  match DecodeCursor token with
  | Err _ => BadPageToken
  | Ok cur =>
      match adapter_Query d filter (mkPageReq (ClampPageSize size) cur) with
      | Err msg => Failed msg
      | Ok (events, next) => Reply events (EncodeCursor next)
      end
  end.

End EventQuery.

(** ** Errors *)

Inductive sentinel :=
  | EntityNotFound | DeviceNotFound | AreaNotFound | ZoneNotFound | DriverNotFound | InstanceNotFound
  | AutomationNotFound | ScriptNotFound | AutomationDisabled | RunNotFound | RunAlreadyFinished
  | CapabilityUnknown | DriverUnavailable | SubscriptionOverflow | ValidationFailed | NotImplemented | PathEscape
  | Unauthenticated | Forbidden | ContextCanceled | ContextDeadlineExceeded.

#[export] Instance sentinel_eq_dec : EqDecision sentinel.
Proof. solve_decision. Defined.

(** An error: its text and the sentinels it wraps. *)
Record go_error := mkError { error_text : string; wraps : list sentinel }.
Definition error_Is (e : go_error) (s : sentinel) : bool := contains_eq (wraps e) s.

Inductive code :=
  | CodeNotFound | CodeFailedPrecondition | CodeInvalidArgument | CodeUnavailable | CodeResourceExhausted
  | CodeUnimplemented | CodeUnauthenticated | CodePermissionDenied | CodeCanceled | CodeDeadlineExceeded | CodeInternal.

#[export] Instance code_eq_dec : EqDecision code.
Proof. solve_decision. Defined.

(** The cases of [classify], in their order. *)
Definition classes : list (list sentinel * code) :=
  [([EntityNotFound; DeviceNotFound; AreaNotFound; ZoneNotFound; DriverNotFound; InstanceNotFound;
     AutomationNotFound; ScriptNotFound; RunNotFound], CodeNotFound);
   ([AutomationDisabled; RunAlreadyFinished], CodeFailedPrecondition);
   ([CapabilityUnknown; ValidationFailed; PathEscape], CodeInvalidArgument);
   ([DriverUnavailable], CodeUnavailable);
   ([SubscriptionOverflow], CodeResourceExhausted);
   ([NotImplemented], CodeUnimplemented);
   ([Unauthenticated], CodeUnauthenticated);
   ([Forbidden], CodePermissionDenied);
   ([ContextCanceled], CodeCanceled);
   ([ContextDeadlineExceeded], CodeDeadlineExceeded)].

Definition classify (e : go_error) : code :=
  match find (fun c : list sentinel * code => existsb (error_Is e) c.1) classes with
  | Some (_, c) => c
  | None => CodeInternal
  end.

Record connect_error := mkConnectError { ce_Code : code; ce_Message : string; ce_Reason : string }.

Definition ToConnect (e : go_error) (reason : string) : connect_error :=
  let c := classify e in
  mkConnectError c (match c with CodeInternal => "internal error" | _ => error_text e end) reason.

(** * Facts about pages, cursors and errors *)


(** ** Cursors *)

Lemma foldl_be (l : list ascii) : forall acc,
  foldl (fun acc c => acc * 256 + Z.of_N (N_of_ascii c)) acc l = acc * 256 ^ Z.of_nat (length l) + be_value l.
Proof.
  unfold be_value. induction l as [|c l IH]; intros acc; cbn [foldl length]; [cbn; lia|].
  rewrite IH, (IH (0 * 256 + _)), Nat2Z.inj_succ, Z.pow_succ_r by lia. ring.
Qed.

Lemma be_value_bytes k : forall z, be_value (be_bytes k z) = z mod 256 ^ Z.of_nat k.
Proof.
  induction k as [|k IH]; intros z; [cbn; by rewrite Z.mod_1_r|].
  cbn [be_bytes]. unfold be_value. rewrite foldl_app. fold (be_value (be_bytes k (z / 256))). rewrite IH. cbn [foldl].
  rewrite N_ascii_embedding by (pose proof (Z.mod_pos_bound z 256); lia).
  rewrite Z2N.id by (apply Z.mod_pos_bound; lia). rewrite Nat2Z.inj_succ, Z.pow_succ_r by lia.
  rewrite Z.rem_mul_r by lia. lia.
Qed.

Lemma length_be_bytes k : forall z, length (be_bytes k z) = k.
Proof. induction k as [|k IH]; intros z; [done|]. cbn [be_bytes]. rewrite length_app, IH. cbn. lia. Qed.

Lemma length_PutUint64 z : String.length (PutUint64 z) = 8%nat.
Proof. unfold PutUint64. by rewrite <- length_list_ascii, list_ascii_of_string_of_list_ascii, length_be_bytes. Qed.

Lemma Uint64_Put z : 0 <= z < 2 ^ 64 -> Uint64 (PutUint64 z) = z.
Proof.
  intros Hz. unfold Uint64, PutUint64. rewrite list_ascii_of_string_of_list_ascii, be_value_bytes.
  change (256 ^ Z.of_nat 8) with (2 ^ 64). by apply Z.mod_small.
Qed.

Lemma encode_not_empty s : s <> "" -> is_empty (encode base64_url s) = false.
Proof.
  intros Hs. unfold is_empty. apply String.eqb_neq. intros He. apply Hs.
  pose proof (decode_encode base64_url s) as Hd. rewrite He in Hd. vm_compute in Hd. by injection Hd.
Qed.

Lemma DecodeEncodeCursor c : 0 <= CPosition c < 2 ^ 64 -> DecodeCursor (EncodeCursor c) = Ok c.
Proof.
  intros Hc. unfold DecodeCursor, EncodeCursor. destruct c as [p t]. cbn [CPosition Tiebreak] in *.
  destruct ((p =? 0) && is_empty t) eqn:Hz.
  - apply andb_true_iff in Hz as [->%Z.eqb_eq ->%String.eqb_eq]. done.
  - rewrite encode_not_empty, (decode_encode base64_url).
    2:{ intros H. pose proof (str_length_app (PutUint64 p) t) as Hl. rewrite H, length_PutUint64 in Hl. cbn in Hl. lia. }
    rewrite str_length_app, length_PutUint64. destruct (Nat.ltb_spec (8 + String.length t) 8); [lia|].
    assert (String.substring 0 8 (PutUint64 p +:+ t) = PutUint64 p) as ->.
    { pose proof (substring_app_l (PutUint64 p) t) as Hl. by rewrite length_PutUint64 in Hl. }
    replace (8 + String.length t - 8)%nat with (String.length t) by lia.
    assert (String.substring 8 (String.length t) (PutUint64 p +:+ t) = t) as ->.
    { pose proof (substring_app_r (PutUint64 p) t) as Hr. by rewrite length_PutUint64 in Hr. }
    by rewrite Uint64_Put.
Qed.

(** Page tokens are faithful: the token of any cursor, with any position of 64
    bits and any tiebreak, decodes to that cursor. *)
Theorem cursor_roundtrip (p : Z) (t : string) : 0 <= p < 2 ^ 64 -> DecodeCursor (EncodeCursor (mkCursor p t)) = Ok (mkCursor p t).
Proof. intros. by apply DecodeEncodeCursor. Qed.

(** ** Lists *)

Lemma ClampPageSize_bounds n : 0 <= n -> 1 <= ClampPageSize n <= 1000.
Proof. intros Hn. unfold ClampPageSize, DefaultPageSize, MaxPageSize. destruct (Z.eqb_spec n 0); [lia|]. destruct (n >? 1000) eqn:H; lia. Qed.

Section Lists.
Context {A : Type} (items : list A) (size : Z).
Hypothesis (Hitems : Z.of_nat (length items) < 2 ^ 63) (Hsize : 0 <= size).

Lemma list_page start :
  0 <= start <= Z.of_nat (length items) ->
  list_handler items size (EncodeCursor (mkCursor start "")) =
  let rest := drop (Z.to_nat start) items in
  if Z.of_nat (length rest) >? ClampPageSize size
  then Reply (take (Z.to_nat (ClampPageSize size)) rest) (EncodeCursor (mkCursor (start + ClampPageSize size) ""))
  else Reply rest "".
Proof.
  intros Hs. pose proof (ClampPageSize_bounds size Hsize) as Hc. unfold list_handler.
  rewrite DecodeEncodeCursor by (cbn; lia). unfold paginate. cbn [PCursor CPosition Size].
  rewrite i64_small by lia. destruct (start >? Z.of_nat (length items)) eqn:H1; [lia|]. destruct (start <? 0) eqn:H2; [lia|].
  destruct (ClampPageSize size <=? 0) eqn:H3; [lia|]. rewrite length_drop.
  destruct (_ >? ClampPageSize size) eqn:H4; [|done]. rewrite u64_small by lia. done.
Qed.

Lemma follow_from : forall fuel start,
  0 <= start <= Z.of_nat (length items) -> (Z.to_nat (Z.of_nat (length items) - start) < fuel)%nat ->
  follow (list_handler items size) fuel (EncodeCursor (mkCursor start "")) = Some (drop (Z.to_nat start) items).
Proof.
  pose proof (ClampPageSize_bounds size Hsize) as Hc.
  induction fuel as [|fuel IH]; intros start Hs Hf; [lia|]. cbn [follow]. rewrite list_page by done. cbn zeta.
  destruct (_ >? ClampPageSize size) eqn:Hg; [|done]. rewrite length_drop in Hg.
  assert (is_empty (EncodeCursor (mkCursor (start + ClampPageSize size) "")) = false) as ->.
  { unfold EncodeCursor. cbn [CPosition Tiebreak]. destruct (Z.eqb_spec (start + ClampPageSize size) 0); [lia|]. cbn [andb].
    apply encode_not_empty. intros H. apply (f_equal String.length) in H. rewrite str_length_app, length_PutUint64 in H. cbn in H. lia. }
  apply Z.gtb_lt in Hg. rewrite IH by lia. cbn [fmap option_fmap option_map]. f_equal.
  rewrite <- (take_drop (Z.to_nat (ClampPageSize size)) (drop (Z.to_nat start) items)) at 2. f_equal.
  rewrite drop_drop. f_equal. lia.
Qed.

End Lists.

(** C24. Following the page tokens of a list that does not change gives every item
    exactly once and in order, and ends, whatever page size the client asks for;
    no page has more than a thousand items. *)
Theorem pages_enumerate {A} (items : list A) (size : Z) :
  Z.of_nat (length items) < 2 ^ 63 -> 0 <= size ->
  follow (list_handler items size) (S (length items)) "" = Some items /\
  forall token out next, list_handler items size token = Reply out next -> (length out <= 1000)%nat.
Proof.
  intros Hi Hs. split.
  - change "" with (EncodeCursor (mkCursor 0 "")). rewrite follow_from by (done || lia). done.
  - intros token out next. unfold list_handler. destruct (DecodeCursor token) as [cur|]; [|done].
    pose proof (ClampPageSize_bounds size Hs). unfold paginate. cbn [Size PCursor].
    destruct (_ >? Z.of_nat (length items)); [by intros [= <- _]; cbn; lia|]. destruct (_ <? 0); [done|].
    destruct (ClampPageSize size <=? 0) eqn:H3; [lia|]. destruct (_ >? ClampPageSize size) eqn:Hg; intros [= <- _].
    + rewrite length_take. lia.
    + lia.
Qed.

(** A made-up token crashes the handler: any position of 2^63 or more becomes
    a negative index of the list. *)
Theorem crafted_token_panics {A} (items : list A) (size p : Z) :
  2 ^ 63 <= p < 2 ^ 64 -> list_handler items size (EncodeCursor (mkCursor p "")) = Panicked.
Proof.
  intros Hp. unfold list_handler. rewrite DecodeEncodeCursor by (cbn; lia). unfold paginate. cbn [PCursor CPosition].
  assert (i64 p = p - 2 ^ 64) as ->.
  { unfold i64. replace (p + 2 ^ 63) with (p - 2 ^ 63 + 1 * 2 ^ 64) by lia. rewrite Z.mod_add, Z.mod_small by lia. lia. }
  destruct (_ >? Z.of_nat (length items)) eqn:H; [apply Z.gtb_lt in H; lia|]. destruct (_ <? 0) eqn:H'; [done|apply Z.ltb_ge in H'; lia].
Qed.

(** ** Events *)

Section EventPages.
Context {T : Type} (unmarshal : string -> result string Payload).
Implicit Type d : DB T.

Lemma query_ignores_token d filter size token cur :
  DecodeCursor token = Ok cur -> EventService_Query unmarshal d filter size token = EventService_Query unmarshal d filter size "".
Proof. intros Hc. unfold EventService_Query. by rewrite Hc. Qed.

Lemma encoded_decodes p : exists cur, DecodeCursor (EncodeCursor (mkCursor (u64 p) "")) = Ok cur.
Proof. eexists. apply DecodeEncodeCursor. cbn. apply Z.mod_pos_bound. lia. Qed.

(** The pages of an event query never advance. The adapter does not read the
    cursor, so every token gives the first page again: when the first page has a
    token, a client that follows the tokens gets the same events for ever. *)
Theorem event_pages_never_advance d filter size events token :
  EventService_Query unmarshal d filter size "" = Reply events token -> is_empty token = false ->
  Forall (fun e => 0 <= Position e < 2 ^ 64) events ->
  forall n, pages (EventService_Query unmarshal d filter size) n "" = replicate n events /\
            follow (EventService_Query unmarshal d filter size) n "" = None.
Proof.
  intros Hq Ht Hpos.
  assert (Hd : exists cur, DecodeCursor token = Ok cur).
  { unfold EventService_Query in Hq. cbn [DecodeCursor is_empty String.eqb] in Hq. destruct (adapter_Query _ _ _ _) as [[evs next]|] eqn:Ha; [|done].
    injection Hq as -> <-. exists next. apply DecodeEncodeCursor. unfold adapter_Query in Ha.
    destruct (Query _ _ _) as [l|]; [|done]. injection Ha as -> <-. destruct (_ && _); cbn; [|lia].
    destruct (last events) as [e|] eqn:Hl; [|lia]. rewrite Forall_forall in Hpos. apply Hpos. by apply last_Some_elem_of. }
  destruct Hd as [cur Hd].
  assert (H : forall n tok, tok = "" \/ tok = token -> pages (EventService_Query unmarshal d filter size) n tok = replicate n events /\
    follow (EventService_Query unmarshal d filter size) n tok = None).
  { induction n as [|n IH]; intros tok Htok; [done|]. cbn [pages follow replicate].
    assert (EventService_Query unmarshal d filter size tok = Reply events token) as ->.
    { destruct Htok as [-> | ->]; [done|]. by rewrite (query_ignores_token _ _ _ _ _ Hd). }
    rewrite Ht. destruct (IH token) as [-> ->]; [by right|]. done. }
  intros n. apply H. by left.
Qed.

(** A filtered event query can end before its matches. The limit counts rows
    before the filter: if none of the first rows of the range matches, the answer is
    an empty last page, however many later events match. *)
Theorem event_query_hides_matches d evs filter size :
  log_ok d -> mapM (scanEvent unmarshal) (events d) = Ok evs -> 0 <= ef_FromCursor filter -> ef_ToCursor filter = 0 -> 0 <= size ->
  Forall (fun e => Matches (mkFilter (ef_Kinds filter) [] (ef_Sources filter) [] zero_time zero_time) e = false)
    (take (Z.to_nat (ClampPageSize size)) (drop (Z.to_nat (ef_FromCursor filter)) evs)) ->
  EventService_Query unmarshal d filter size "" = Reply [] "".
Proof.
  intros Hl He Hf Ht Hs Hno. pose proof (ClampPageSize_bounds size Hs). unfold EventService_Query. cbn [DecodeCursor is_empty String.eqb].
  unfold adapter_Query. rewrite (Query_slice unmarshal d evs) by (done || cbn; lia). cbn [FromPosition ToPosition QFilter Limit Size].
  rewrite Ht. cbn [Z.eqb id]. unfold page_size. destruct (ClampPageSize size <=? 0) eqn:H0; [lia|]. unfold id.
  rewrite list_filter_none.
  - cbn [length last]. destruct (ClampPageSize size <=? Z.of_nat 0) eqn:H1; [apply Z.leb_le in H1; lia|]. done.
  - intros e Hin Hm. rewrite Forall_forall in Hno. specialize (Hno e Hin). congruence.
Qed.

End EventPages.

(** ** Errors *)

(** Only errors that wrap a known sentinel are told to the caller: every other
    error is reported as an internal error, without its text. *)
Theorem internal_errors_hidden (e : go_error) (reason : string) :
  (wraps e = [] -> ToConnect e reason = mkConnectError CodeInternal "internal error" reason) /\
  (ce_Message (ToConnect e reason) <> "internal error" -> exists s, s ∈ wraps e).
Proof.
  assert (H : wraps e = [] -> classify e = CodeInternal).
  { intros Hw. unfold classify, error_Is. rewrite Hw. done. }
  split.
  - intros Hw. unfold ToConnect. by rewrite (H Hw).
  - intros Hm. destruct (wraps e) as [|s l] eqn:Hw; [|exists s; left].
    exfalso. apply Hm. unfold ToConnect. by rewrite (H eq_refl).
Qed.

Module ApiDemo.

Lemma cursor_roundtrip_witness : 0 <= 300 < 2 ^ 64 /\ DecodeCursor (EncodeCursor (mkCursor 300 "x")) = Ok (mkCursor 300 "x").
Proof. split; [lia|]. apply (cursor_roundtrip 300 "x"). lia. Defined.

Lemma pages_enumerate_witness :
  follow (list_handler ["a"; "b"; "c"; "d"; "e"] 2) 6 "" = Some ["a"; "b"; "c"; "d"; "e"].
Proof. apply (pages_enumerate ["a"; "b"; "c"; "d"; "e"] 2); cbn; lia. Defined.

Example pages_of_two : pages (list_handler ["a"; "b"; "c"; "d"; "e"] 2) 9 "" = [["a"; "b"]; ["c"; "d"]; ["e"]].
Proof. vm_compute. reflexivity. Qed.

Lemma crafted_token_panics_witness : list_handler ["a"] 0 (EncodeCursor (mkCursor (2 ^ 63) "")) = Panicked.
Proof. apply (crafted_token_panics ["a"] 0 (2 ^ 63)). lia. Defined.

Definition d : DB unit := db (run_ops Example.marshal
  [OpAppendBatch 1 (fun _ => 3) Example.busy_once Example.never [Example.ev "b"; Example.ev "c"; Example.ev "d"]] Example.store0).
Definition any : EventFilter := mkEventFilter [] "" [] 0 0 zero_time zero_time.

Definition first_page : list Event := match EventService_Query Example.unmarshal d any 2 "" with Reply l _ => l | _ => [] end.
Definition first_token : string := match EventService_Query Example.unmarshal d any 2 "" with Reply _ t => t | _ => "" end.

Lemma event_pages_never_advance_witness :
  length first_page = 2%nat /\ pages (EventService_Query Example.unmarshal d any 2) 3 "" = replicate 3 first_page.
Proof.
  split; [vm_compute; reflexivity|].
  apply (event_pages_never_advance Example.unmarshal d any 2 first_page first_token);
    [vm_compute; reflexivity | vm_compute; reflexivity | by_decision].
Defined.

Definition system_events : EventFilter := mkEventFilter ["system"] "" [] 0 0 zero_time zero_time.

Lemma event_query_hides_matches_witness : EventService_Query Example.unmarshal d system_events 2 "" = Reply [] "".
Proof.
  eapply (event_query_hides_matches Example.unmarshal d); [|vm_compute; reflexivity|cbn; lia|reflexivity|lia|by_decision].
  split; vm_compute; [repeat split | reflexivity].
Defined.

Lemma internal_errors_hidden_witness :
  ToConnect (mkError "script: unknown name" []) "run_failed" = mkConnectError CodeInternal "internal error" "run_failed".
Proof. by apply (internal_errors_hidden (mkError "script: unknown name" []) "run_failed"). Defined.

End ApiDemo.
