(* ===== verification/ApiStream.v ===== *)
(** * Streaming RPCs

    Models [BoundedFanOut] of [internal/api/streaming.go] and the loop of the
    streaming handlers (service_event.go, service_entity.go, service_automation.go,
    service_script.go) as two interleaved processes. A step is one communication;
    where [select] has several ready cases any of them may be taken. Heartbeats
    send no item and are left out.

    [stream_sends_prefix]: whatever is sent is a prefix of the source, in order.
    [stream_drained_complete]: when the loop sees the end of the buffer after a
    normal end of the source, everything was sent. [stream_end_loses_items] and
    [overflow_unreported]: the other choice of [select] loses items or the error. *)

From S2P Require Import Prelude.

Section Stream.
Context {A : Type}.

Inductive done_val := DoneNil | DoneOverflow | DoneCtx.
Inductive fan_state := FanRunning | FanStopped | FanClosed.
Inductive ret := RetNil | RetOverflow.

(** The source's remaining items and whether it then closes; the forwarder; its
    buffered output and [done] channel; what the handler has sent; the context; and
    the result of the handler. *)
Record stream := mkStream {
  src : list A; src_closes : bool; fan : fan_state; out : list A; done_ch : option done_val;
  sent : list A; ctx_done : bool; returned : option ret;
}.

Definition opened (l : list A) (closes : bool) : stream := mkStream l closes FanRunning [] None [] false None.

Inductive label :=
  | FForward | FOverflow | FEnd | FCtx | FClose
  | HSend | HDone | HClosed | HCtx | CancelCtx.

Definition with_fan (f : fan_state) (d : option done_val) (s : stream) : stream :=
  mkStream (src s) (src_closes s) f (out s) d (sent s) (ctx_done s) (returned s).
Definition with_returned (r : ret) (s : stream) : stream :=
  mkStream (src s) (src_closes s) (fan s) (out s) (done_ch s) (sent s) (ctx_done s) (Some r).

(** A step of the forwarder, with the capacity of its output. *)
Definition fan_step (bufSize : nat) (l : label) (s : stream) : option stream :=
  match fan s, l with
  | FanRunning, FForward =>
      match src s with
      | v :: rest => if (length (out s) <? bufSize)%nat
                     then Some (mkStream rest (src_closes s) FanRunning (out s ++ [v]) (done_ch s) (sent s) (ctx_done s) (returned s))
                     else None
      | [] => None
      end
  | FanRunning, FOverflow =>
      match src s with
      | v :: rest => if (length (out s) <? bufSize)%nat then None
                     else Some (mkStream rest (src_closes s) FanStopped (out s) (Some DoneOverflow) (sent s) (ctx_done s) (returned s))
      | [] => None
      end
  | FanRunning, FEnd => match src s with [] => if src_closes s then Some (with_fan FanStopped (Some DoneNil) s) else None | _ => None end
  | FanRunning, FCtx => if ctx_done s then Some (with_fan FanStopped (Some DoneCtx) s) else None
  | FanStopped, FClose => Some (with_fan FanClosed (done_ch s) s)
  | _, _ => None
  end.

(** A step of the handler; a subscription to entities can moreover skip items by a policy,
    which the daemon does not install. *)
Definition handler_step (l : label) (s : stream) : option stream :=
  match returned s, l with
  | None, HSend =>
      match out s with
      | v :: rest => Some (mkStream (src s) (src_closes s) (fan s) rest (done_ch s) (sent s ++ [v]) (ctx_done s) None)
      | [] => None
      end
  | None, HDone =>
      match done_ch s with
      | Some DoneOverflow => Some (with_returned RetOverflow s)
      | Some _ => Some (with_returned RetNil s)
      | None => None
      end
  | None, HClosed => match out s, fan s with [], FanClosed => Some (with_returned RetNil s) | _, _ => None end
  | None, HCtx => if ctx_done s then Some (with_returned RetNil s) else None
  | _, _ => None
  end.

Definition step (bufSize : nat) (l : label) (s : stream) : option stream :=
  match l with
  | FForward | FOverflow | FEnd | FCtx | FClose => fan_step bufSize l s
  | CancelCtx => Some (mkStream (src s) (src_closes s) (fan s) (out s) (done_ch s) (sent s) true (returned s))
  | _ => handler_step l s
  end.

Fixpoint steps (bufSize : nat) (ls : list label) (s : stream) : option stream :=
  match ls with [] => Some s | l :: ls' => match step bufSize l s with Some s' => steps bufSize ls' s' | None => None end end.

Lemma stream_steps_app n ls1 ls2 s : steps n (ls1 ++ ls2) s = match steps n ls1 s with Some s' => steps n ls2 s' | None => None end.
Proof. revert s. induction ls1 as [|l ls1 IH]; intros s; [done|]. cbn [app steps]. destruct (step n l s); [apply IH | done]. Qed.

(** ** Invariant *)

(** Everything not lost to an overflow is sent, buffered or still to come; the
    buffer is within its capacity; the end is only reported when nothing is left. *)
Record stream_ok (source : list A) (bufSize : nat) (s : stream) : Prop := mkStreamOk {
  so_prefix : sent s ++ out s `prefix_of` source;
  so_all : done_ch s <> Some DoneOverflow -> sent s ++ out s ++ src s = source;
  so_cap : (length (out s) <= bufSize)%nat;
  so_end : done_ch s = Some DoneNil -> src s = [];
  so_running : fan s = FanRunning <-> done_ch s = None;
}.

Lemma opened_ok source closes n : stream_ok source n (opened source closes).
Proof. split; cbn; try done; [apply prefix_nil | lia]. Qed.

Lemma stream_step_ok source n l s s' : stream_ok source n s -> step n l s = Some s' -> stream_ok source n s'.
Proof.
  intros [Hp Ha Hc He Hr] H. destruct l; cbn [step] in H; unfold fan_step, handler_step in H.
  - destruct (fan s) eqn:Hf; try done. destruct (src s) as [|v rest] eqn:Hsrc; [done|].
    destruct (Nat.ltb_spec (length (out s)) n); [|done]. injection H as <-. pose proof (proj1 Hr eq_refl) as Hd. split; cbn.
    + rewrite Hd in Ha. rewrite <- Ha by done. exists rest. by rewrite <- !app_assoc.
    + intros _. rewrite Hd in Ha. rewrite <- Ha by done. by rewrite <- !app_assoc.
    + rewrite length_app. cbn. lia.
    + by rewrite Hd.
    + done.
  - destruct (fan s) eqn:Hf; try done. destruct (src s) as [|v rest] eqn:Hsrc; [done|].
    destruct (Nat.ltb_spec (length (out s)) n); [done|]. injection H as <-. by split.
  - destruct (fan s) eqn:Hf; try done. destruct (src s) eqn:Hsrc; [|done]. destruct (src_closes s); [|done]. injection H as <-.
    pose proof (proj1 Hr eq_refl) as Hd. split; cbn; try done. intros _. rewrite Hsrc. apply Ha. by rewrite Hd.
  - destruct (fan s) eqn:Hf; try done. destruct (ctx_done s); [|done]. injection H as <-.
    pose proof (proj1 Hr eq_refl) as Hd. split; cbn; try done. intros _. apply Ha. by rewrite Hd.
  - destruct (fan s) eqn:Hf; try done. injection H as <-. split; cbn; try done. split; [done|]. intros Hd%Hr. done.
  - destruct (returned s); [done|]. destruct (out s) as [|v rest] eqn:Ho; [done|]. injection H as <-. split; cbn; try done.
    + by rewrite <- app_assoc.
    + intros Hd. by rewrite <- !app_assoc, <- Ha.
    + cbn in Hc. lia.
  - destruct (returned s); [done|]. destruct (done_ch s) as [[]|] eqn:Hd; [injection H as <-..|done]; by split; cbn; rewrite ?Hd.
  - destruct (returned s); [done|]. destruct (out s) eqn:Ho; [|done]. destruct (fan s) eqn:Hf; [done..|]. injection H as <-.
    split; cbn; rewrite ?Ho, ?Hf; done.
  - destruct (returned s); [done|]. destruct (ctx_done s); [|done]. injection H as <-. by split.
  - injection H as <-. by split.
Qed.

Lemma stream_steps_ok source n ls : forall s s', stream_ok source n s -> steps n ls s = Some s' -> stream_ok source n s'.
Proof.
  induction ls as [|l ls IH]; intros s s' Hok; cbn [steps]; [by intros [= <-]|].
  destruct (step n l s) as [s1|] eqn:Hs; [|done]. apply IH. by eapply stream_step_ok.
Qed.

(** C25. A stream sends its source in order, without gap or repetition, and buffers
    no more than its capacity, under every interleaving of the forwarder and the
    handler: what was sent is a prefix of what the source produced. *)
Theorem stream_sends_prefix source closes n ls s :
  steps n ls (opened source closes) = Some s -> sent s `prefix_of` source /\ (length (out s) <= n)%nat.
Proof.
  intros H. destruct (stream_steps_ok source n ls _ _ (opened_ok source closes n) H) as [Hp _ Hc _ _].
  split; [|done]. etransitivity; [|exact Hp]. by exists (out s).
Qed.

(** If the handler returns because the buffer is drained and closed, and the source
    ended by itself, everything was sent. *)
Theorem stream_drained_complete source closes n ls s s' :
  steps n ls (opened source closes) = Some s -> done_ch s = Some DoneNil -> step n HClosed s = Some s' -> sent s' = source.
Proof.
  intros H Hd Hc. destruct (stream_steps_ok source n ls _ _ (opened_ok source closes n) H) as [_ Ha _ He _].
  cbn in Hc. unfold handler_step in Hc. destruct (returned s); [done|]. destruct (out s) eqn:Ho; [|done].
  destruct (fan s); [done..|]. injection Hc as <-. cbn. specialize (Ha ltac:(congruence)). rewrite (He Hd), !app_nil_r in Ha. done.
Qed.

(** ** Runs *)

Lemma forward_some n k : forall l closes b,
  (length b + k <= n)%nat -> (k <= length l)%nat ->
  steps n (replicate k FForward) (mkStream l closes FanRunning b None [] false None) =
  Some (mkStream (drop k l) closes FanRunning (b ++ take k l) None [] false None).
Proof.
  induction k as [|k IH]; intros l closes b Hb Hl; cbn [replicate steps]; [by rewrite app_nil_r|].
  destruct l as [|v l]; cbn in Hl; [lia|]. unfold step at 1, fan_step. cbn [fan src out].
  destruct (Nat.ltb_spec (length b) n); [|lia]. cbn [src_closes done_ch sent ctx_done returned].
  rewrite IH by (rewrite ?length_app; cbn; lia). by rewrite <- app_assoc.
Qed.

Lemma send_some n k : forall sr closes f b d se c,
  (k <= length b)%nat ->
  steps n (replicate k HSend) (mkStream sr closes f b d se c None) = Some (mkStream sr closes f (drop k b) d (se ++ take k b) c None).
Proof.
  induction k as [|k IH]; intros sr closes f b d se c Hk; cbn [replicate steps]; [by rewrite app_nil_r|].
  destruct b as [|v b]; cbn in Hk; [lia|]. unfold step at 1, handler_step. cbn [returned out src src_closes fan done_ch sent ctx_done].
  rewrite IH by lia. cbn [drop take]. by rewrite <- app_assoc.
Qed.

(** A stream whose source ends normally can lose its last items and still report
    success: for every source that fits the buffer and every number [k] of its items
    there is a run in which the handler sends only the first [k] and returns nil. *)
Theorem stream_end_loses_items source n k :
  (length source <= n)%nat -> (k <= length source)%nat ->
  exists ls s, steps n ls (opened source true) = Some s /\ returned s = Some RetNil /\ ctx_done s = false /\ sent s = take k source.
Proof.
  intros Hn Hk.
  exists (replicate (length source) FForward ++ [FEnd] ++ replicate k HSend ++ [HDone]). eexists. split; [|split; [|split]].
  - rewrite stream_steps_app. unfold opened. rewrite forward_some by (cbn; lia).
    rewrite drop_ge, (take_ge source) by lia. cbn [app steps]. unfold step at 1, fan_step. cbn [fan src src_closes].
    unfold with_fan. cbn [src src_closes out sent ctx_done returned]. rewrite stream_steps_app, send_some by (cbn; lia).
    cbn [app steps]. unfold step, handler_step. cbn [returned done_ch]. reflexivity.
  - reflexivity.
  - reflexivity.
  - cbn. done.
Qed.

(** An overflow can go unreported: for every source longer than the buffer there
    is a run that drops an item for lack of room and whose handler returns nil, as if
    the stream had ended. *)
Theorem overflow_unreported source n closes :
  (n < length source)%nat ->
  exists ls s, steps n ls (opened source closes) = Some s /\ done_ch s = Some DoneOverflow /\ returned s = Some RetNil /\
    ctx_done s = false /\ sent s = take n source.
Proof.
  intros Hn. destruct (lookup_lt_is_Some_2 source n Hn) as [v Hv].
  exists (replicate n FForward ++ [FOverflow; FClose] ++ replicate n HSend ++ [HClosed]). eexists.
  split; [|split; [|split; [|split]]].
  - assert (Hlen : length (take n source) = n) by (rewrite length_take; lia).
    rewrite stream_steps_app. unfold opened. rewrite forward_some by (cbn; lia). rewrite (drop_S _ _ _ Hv).
    cbn [app steps]. unfold step at 1, fan_step. cbn [fan src out]. rewrite Hlen.
    destruct (Nat.ltb_spec n n); [lia|]. cbn [src_closes sent ctx_done returned].
    unfold step at 1, fan_step. cbn [fan]. unfold with_fan. cbn [src src_closes out done_ch sent ctx_done returned].
    rewrite stream_steps_app, send_some by (rewrite Hlen; lia). rewrite (drop_ge (take n source)) by (rewrite Hlen; lia).
    cbn [app steps]. unfold step, handler_step. cbn [returned out fan]. reflexivity.
  - reflexivity.
  - reflexivity.
  - reflexivity.
  - cbn. rewrite take_take, Nat.min_id. done.
Qed.

End Stream.

Arguments stream : clear implicits.

Module StreamDemo.

Lemma stream_sends_prefix_witness :
  exists s, steps 2 [FForward; HSend; FForward; FForward] (opened ["a"; "b"; "c"] true) = Some s /\ sent s `prefix_of` ["a"; "b"; "c"].
Proof.
  eexists. split; [reflexivity|]. apply (stream_sends_prefix ["a"; "b"; "c"] true 2 [FForward; HSend; FForward; FForward]). reflexivity.
Defined.

Lemma stream_end_loses_items_witness :
  exists ls s, steps 10 ls (opened ["test_a"; "test_b"] true) = Some s /\ returned s = Some RetNil /\ sent s = ["test_a"].
Proof.
  destruct (stream_end_loses_items ["test_a"; "test_b"] 10 1) as (ls & s & H1 & H2 & _ & H3); [cbn; lia | cbn; lia |].
  exists ls, s. split; [exact H1|]. split; [exact H2 | exact H3].
Defined.

Lemma overflow_unreported_witness :
  exists ls s, steps 1 ls (opened ["a"; "b"; "c"] false) = Some s /\ returned s = Some RetNil /\ sent s = ["a"].
Proof.
  destruct (overflow_unreported ["a"; "b"; "c"] 1 false) as (ls & s & H1 & _ & H2 & _ & H3); [cbn; lia|].
  exists ls, s. split; [exact H1|]. split; [exact H2 | exact H3].
Defined.

End StreamDemo.
