(* ===== verification/TimeTravel.v ===== *)
(** * Looking at the past

    Models [internal/replay]: the state of all entities at a position of the log,
    what changed there, and the chain of causes of an event. The service is
    composed with its adapter to the event store, so the queries are those of
    [EventStore]. The JSON of a payload is left out; the text of a double is a
    parameter. A map returned in some order is a map here.

    [time_travel_exact] and [cause_chain_exact] say what the two calls return;
    [time_travel_truncated] and [availability_sticks] where that is not the
    past. *)

From S2P Require Import Prelude Codec Events EventStore EventStoreFacts.

Abbreviation EntityStateMap := (gmap string string_map).

Record Snapshot_ := mkSnapshotAt { sn_Seq : Z; sn_Entities : EntityStateMap }.

Record EntityEvent := mkEntityEvent {
  ev_Seq : Z; ev_EntityID : string; ev_Fields : string_map; ev_EventID : string; ev_Kind : string; ev_Source : string;
  ev_CausationID : string; ev_CorrelationID : Z; ev_OccurredAt : Z;
}.

(** ** Events as fields *)

Section Replay.
(** [fmt.Sprintf("%g", x)] of a double. *)
Context (format_g : Z -> string).

Definition format_bool (b : bool) : string := if b then "true" else "false".

Definition kind_fields (k : AttrKind) : string_map :=
  match k with
  | Attributes_Light on brightness temp rgb =>
      let m : string_map := <["on" := format_bool on]> {["brightness" := pretty brightness]} in
      let m := if temp =? 0 then m else <["color_temp" := pretty temp]> m in
      if rgb =? 0 then m else <["color_rgb" := pretty rgb]> m
  | Attributes_SwitchDevice on => {["on" := format_bool on]}
  | Attributes_NumericSensor unit value => <["value" := format_g value]> {["unit" := unit]}
  | Attributes_BinarySensor on => {["on" := format_bool on]}
  end.

Definition extractFields (p : option Payload) : string_map :=
  match p with
  | Some (Some (Payload_StateChanged sc)) =>
      match sc_attributes sc with
      | None => ∅
      | Some a => let m := match attr_kind a with Some k => kind_fields k | None => ∅ end in
                  if available a then <["available" := "true"]> m else m
      end
  | _ => ∅
  end.

Definition storeEventToEntityEvent (e : Event) : EntityEvent :=
  mkEntityEvent (Position e) (Entity e) (extractFields (PayloadPtr e)) (pretty (Z.to_N (Position e))) (Kind e) (Source e)
    (if 0 <? CausePosition e then pretty (Z.to_N (CausePosition e)) else "") (CorrelationID e) (Timestamp e).

(** ** Replaying *)

(** One event: its fields overwrite those of its entity. *)
Definition apply_fields (m : EntityStateMap) (e : EntityEvent) : EntityStateMap :=
  <[ev_EntityID e := ev_Fields e ∪ default ∅ (m !! ev_EntityID e)]> m.

Definition replayForward (events : Z -> Z -> result string (list EntityEvent)) (snap : Snapshot_) (target : Z) :
    result string EntityStateMap :=
  if target <=? sn_Seq snap then Ok (sn_Entities snap)
  else match events (sn_Seq snap) target with
  | Err e => Err e
  | Ok l => Ok (foldl apply_fields (sn_Entities snap) l)
  end.

(** The changed fields of an entity: what they were and are, the empty text for a
    field that was or is not there. *)
Definition field_diffs (prev now : string_map) : gmap string (string * string) :=
  merge (fun p n => let was := default "" p in
                    match n with
                    | Some v => if String.eqb v was then None else Some (was, v)
                    | None => match p with Some _ => Some (was, "") | None => None end
                    end) prev now.

Definition computeDiff (prev now : EntityStateMap) : gmap string (gmap string (string * string)) :=
  map_imap (fun id fields => let d := field_diffs (default ∅ (prev !! id)) fields in
                             if bool_decide (d = ∅) then None else Some d) now.

(** ** The adapter to the store *)

Context {T : Type} (unmarshal : string -> result string Payload).
Implicit Type d : DB T.

Definition SnapshotBefore (seq : Z) : Snapshot_ := mkSnapshotAt 0 ∅.

Definition EventsInRange d (from to : Z) : result string (list EntityEvent) :=
  match Query unmarshal (mkQueryOptions from to Filter_zero 10000) d with
  | Err e => Err e
  | Ok l => Ok (storeEventToEntityEvent <$> l)
  end.

Definition EventBySeq d (seq : Z) : result string (option EntityEvent) :=
  if seq =? 0 then Ok None
  else match Query unmarshal (mkQueryOptions (seq - 1) seq Filter_zero 1) d with
  | Err e => Err e
  | Ok [] => Ok None
  | Ok (e :: _) => Ok (Some (storeEventToEntityEvent e))
  end.

(** [strconv.ParseUint(s, 10, 64)]. *)
Definition ParseUint (s : string) : option Z :=
  if is_empty s then None else z ← parse_digits s 0; if z <=? max_u64 then Some z else None.

Definition EventByID d (id : string) : result string (option EntityEvent) :=
  match ParseUint id with None => Ok None | Some pos => EventBySeq d pos end.

(** ** The service *)

Record LoadAtSeqResponse := mkLoadAtSeq {
  la_Entities : EntityStateMap; la_Diff : gmap string (gmap string (string * string)); la_Event : option EntityEvent;
}.

Definition LoadAtSeq d (seq : Z) : result string LoadAtSeqResponse :=
  match replayForward (EventsInRange d) (SnapshotBefore seq) seq with
  | Err e => Err e
  | Ok now =>
      match (if 0 <? seq then replayForward (EventsInRange d) (SnapshotBefore (seq - 1)) (seq - 1) else Ok ∅) with
      | Err e => Err e
      | Ok prev =>
          Ok (mkLoadAtSeq now (computeDiff prev now) (match EventBySeq d seq with Ok o => o | Err _ => None end))
      end
  end.

Definition maxDepth : nat := 256.

(** The loop of [CausationChain], newest first. *)
Fixpoint walk_causes d (fuel : nat) (currentID : string) (visited : list string) : result string (list EntityEvent) :=
  match fuel with
  | O => Ok []
  | S fuel =>
      if is_empty currentID then Ok []
      else if contains_eq visited currentID then Err "causation cycle detected"
      else match EventByID d currentID with
      | Err e => Err e
      | Ok None => Ok []
      | Ok (Some evt) => match walk_causes d fuel (ev_CausationID evt) (currentID :: visited) with
                         | Err e => Err e
                         | Ok l => Ok (evt :: l)
                         end
      end
  end.

Definition CausationChain d (eventID : string) : result string (list EntityEvent) :=
  match walk_causes d maxDepth eventID [] with Ok l => Ok (rev l) | Err e => Err e end.

Definition Window d (from to : Z) : result string (list EntityEvent) := EventsInRange d from to.

(** ** What the past is *)

Definition field (m : EntityStateMap) (id f : string) : option string := m !! id ≫= (fun fs => fs !! f).

Definition diff_at (m : gmap string (gmap string (string * string))) (id f : string) : option (string * string) :=
  m !! id ≫= (fun fs => fs !! f).

(** The value the last of [evs] that is about the entity and has the field gave it. *)
Definition last_set (evs : list Event) (id f : string) : option string :=
  last (omap (fun e => if String.eqb (Entity e) id then extractFields (PayloadPtr e) !! f else None) evs).

Lemma field_apply m e id f :
  field (apply_fields m (storeEventToEntityEvent e)) id f =
  match (if String.eqb (Entity e) id then extractFields (PayloadPtr e) !! f else None) with
  | Some v => Some v
  | None => field m id f
  end.
Proof.
  unfold field, apply_fields, storeEventToEntityEvent. cbn [ev_EntityID ev_Fields].
  destruct (String.eqb_spec (Entity e) id) as [->|Hne].
  - rewrite lookup_insert_eq. cbn. rewrite lookup_union.
    destruct (extractFields (PayloadPtr e) !! f); cbn.
    + by destruct (default ∅ (m !! id) !! f).
    + rewrite (left_id_L None _). by destruct (m !! id).
  - by rewrite lookup_insert_ne.
Qed.

Lemma field_replay evs id f :
  field (foldl apply_fields ∅ (storeEventToEntityEvent <$> evs)) id f = last_set evs id f.
Proof.
  induction evs as [|e evs IH] using rev_ind; [done|].
  unfold last_set. rewrite fmap_app, foldl_app, omap_app. cbn [foldl fmap list_fmap omap list_omap].
  rewrite field_apply. destruct (if String.eqb _ _ then _ else _) as [v|]; cbn.
  - by rewrite last_snoc.
  - by rewrite app_nil_r.
Qed.

Lemma lookup_field_diffs prev now f :
  field_diffs prev now !! f =
  let was := default "" (prev !! f) in
  match now !! f with
  | Some v => if String.eqb v was then None else Some (was, v)
  | None => match prev !! f with Some _ => Some (was, "") | None => None end
  end.
Proof. unfold field_diffs. rewrite lookup_merge. cbn. by destruct (prev !! f), (now !! f). Qed.

Lemma diff_at_computeDiff prev now id f :
  (field prev id f <> None -> field now id f <> None) ->
  diff_at (computeDiff prev now) id f =
  let was := default "" (field prev id f) in let is_now := default "" (field now id f) in
  if String.eqb is_now was then None else Some (was, is_now).
Proof.
  unfold diff_at, computeDiff, field. rewrite map_lookup_imap. intros Hmono.
  destruct (now !! id) as [fs|] eqn:Hnow; cbn.
  - assert (Hd : field_diffs (default ∅ (prev !! id)) fs !! f =
      (let was := default "" (prev !! id ≫= (fun g => g !! f)) in let is_now := default "" (fs !! f) in
       if String.eqb is_now was then None else Some (was, is_now))).
    { rewrite lookup_field_diffs. cbn. cbn in Hmono.
      destruct (prev !! id) as [g|]; cbn in *; [|by destruct (fs !! f)].
      destruct (g !! f), (fs !! f); cbn in *; try done. by destruct Hmono. }
    case_bool_decide as He; cbn; [|done]. rewrite He, lookup_empty in Hd. done.
  - destruct (prev !! id ≫= _) eqn:Hp; cbn; [|done]. by destruct Hmono.
Qed.

Lemma last_set_mono evs n m id f :
  (n <= m)%nat -> last_set (take n evs) id f <> None -> last_set (take m evs) id f <> None.
Proof.
  intros Hle. rewrite <- (take_drop n (take m evs)), take_take, Nat.min_l by lia.
  unfold last_set. rewrite omap_app. generalize (omap (fun e => if String.eqb (Entity e) id
    then extractFields (PayloadPtr e) !! f else None) (drop n (take m evs))). intros l Hn.
  destruct l as [|x l _] using rev_ind; [by rewrite app_nil_r|]. by rewrite app_assoc, last_snoc.
Qed.

Lemma extractFields_available p v : extractFields p !! "available" = Some v -> v = "true".
Proof.
  unfold extractFields. destruct p as [[[]|]|]; try done. destruct (sc_attributes _) as [[k b]|]; [|done]. cbn.
  assert (Hk : match k with Some k => kind_fields k | None => ∅ end !! "available" = None).
  { destruct k as [[]|]; cbn; repeat case_match; by simplify_map_eq. }
  destruct b; [rewrite lookup_insert_eq; by intros [= <-] | by rewrite Hk].
Qed.

(** ** Reading the log *)

Section Log.
Context d evs (Hlog : log_ok d) (Hevs : mapM (scanEvent unmarshal) (events d) = Ok evs).

Lemma filter_zero (l : list Event) : filter (fun e => Matches Filter_zero e = true) l = l.
Proof. induction l as [|e l IH]; [done|]. rewrite filter_cons_True by done. by rewrite IH. Qed.

Lemma EventsInRange_log to :
  0 < to -> EventsInRange d 0 to = Ok (storeEventToEntityEvent <$> take (Z.to_nat (to `min` 10000)) evs).
Proof.
  intros Hto. unfold EventsInRange.
  rewrite (Query_slice unmarshal d evs) by (done || cbn; lia). cbn [FromPosition ToPosition QFilter Limit].
  rewrite filter_zero. destruct (Z.eqb_spec to 0); [lia|]. cbn [page_size]. rewrite drop_0, take_take.
  do 3 f_equal. change (page_size 10000) with 10000. lia.
Qed.

Lemma replay_log target :
  0 <= target ->
  replayForward (EventsInRange d) (SnapshotBefore target) target =
  Ok (foldl apply_fields ∅ (storeEventToEntityEvent <$> take (Z.to_nat (target `min` 10000)) evs)).
Proof.
  intros Ht. unfold replayForward. cbn [SnapshotBefore sn_Seq sn_Entities].
  destruct (Z.leb_spec target 0).
  - replace target with 0 by lia. done.
  - rewrite EventsInRange_log by lia. done.
Qed.

Lemma EventBySeq_log seq :
  0 <= seq ->
  EventBySeq d seq = Ok (if seq =? 0 then None else storeEventToEntityEvent <$> evs !! Z.to_nat (seq - 1)).
Proof.
  intros Hs. unfold EventBySeq. destruct (Z.eqb_spec seq 0); [done|].
  rewrite (Query_slice unmarshal d evs) by (done || cbn; lia). cbn [FromPosition ToPosition QFilter Limit].
  rewrite filter_zero. destruct (Z.eqb_spec seq 0); [lia|].
  replace (Z.to_nat (seq - (seq - 1))) with 1%nat by lia. change (Z.to_nat (page_size 1)) with 1%nat.
  rewrite take_take. change (1 `min` 1)%nat with 1%nat.
  rewrite <- (Nat.add_0_r (Z.to_nat (seq - 1))) at 2. rewrite <- lookup_drop.
  by destruct (drop (Z.to_nat (seq - 1)) evs).
Qed.

Lemma LoadAtSeq_log seq :
  0 <= seq ->
  LoadAtSeq d seq =
  let at_ (n : Z) := foldl apply_fields ∅ (storeEventToEntityEvent <$> take (Z.to_nat (n `min` 10000)) evs) in
  Ok (mkLoadAtSeq (at_ seq) (computeDiff (at_ (seq - 1)) (at_ seq))
        (if seq =? 0 then None else storeEventToEntityEvent <$> evs !! Z.to_nat (seq - 1))).
Proof.
  intros Hs. unfold LoadAtSeq. rewrite replay_log, EventBySeq_log by lia.
  destruct (Z.ltb_spec 0 seq).
  - by rewrite replay_log by lia.
  - replace seq with 0 by lia. done.
Qed.

(** C19. Looking at a position up to 10000 shows the past: a field of an entity has
    the value that the last event about it up to that position gave it, the
    difference lists exactly the fields whose text differs from the position
    before, with both texts, and the event shown is the one at that position. *)
Theorem time_travel_exact seq :
  0 <= seq <= 10000 ->
  exists r, LoadAtSeq d seq = Ok r /\
  (forall id f, field (la_Entities r) id f = last_set (take (Z.to_nat seq) evs) id f) /\
  (forall id f, diff_at (la_Diff r) id f =
     let was := default "" (last_set (take (Z.to_nat (seq - 1)) evs) id f) in
     let is_now := default "" (last_set (take (Z.to_nat seq) evs) id f) in
     if String.eqb is_now was then None else Some (was, is_now)) /\
  la_Event r = if seq =? 0 then None else storeEventToEntityEvent <$> evs !! Z.to_nat (seq - 1).
Proof.
  intros Hs. eexists. split; [apply LoadAtSeq_log; lia|]. cbn [la_Entities la_Diff la_Event].
  rewrite !Z.min_l by lia. split; [|split; [|done]]; intros id f.
  - apply field_replay.
  - rewrite diff_at_computeDiff; rewrite !field_replay; [done|]. apply last_set_mono. lia.
Qed.

(** Past position 10000 it does not: the adapter reads at most 10000 events,
    from the start of the log, so every later position shows the entities as they
    were at position 10000 and no difference. *)
Theorem time_travel_truncated seq :
  10000 < seq ->
  exists r, LoadAtSeq d seq = Ok r /\
  (forall id f, field (la_Entities r) id f = last_set (take 10000 evs) id f /\ diff_at (la_Diff r) id f = None).
Proof.
  intros Hs. eexists. split; [apply LoadAtSeq_log; lia|]. cbn [la_Entities la_Diff].
  rewrite !Z.min_r by lia. change 10000%nat with (Z.to_nat 10000). intros id f. rewrite field_replay. split; [done|].
  rewrite diff_at_computeDiff by done. cbn. by rewrite String.eqb_refl.
Qed.

(** Availability is shown for good: once an event about an entity said it was
    available, every later position shows it available, whatever was said since. *)
Theorem availability_sticks seq i e sc a :
  evs !! i = Some e -> PayloadPtr e = Some (Some (Payload_StateChanged sc)) ->
  sc_attributes sc = Some a -> available a = true -> Z.of_nat i < seq <= 10000 ->
  exists r, LoadAtSeq d seq = Ok r /\ field (la_Entities r) (Entity e) "available" = Some "true".
Proof.
  intros Hi Hp Hsc Ha Hs. eexists. split; [apply LoadAtSeq_log; lia|]. cbn [la_Entities].
  rewrite Z.min_l, field_replay by lia. unfold last_set.
  set (g := fun e0 => if String.eqb (Entity e0) (Entity e) then _ else _).
  assert (Hall : Forall (fun v => v = "true") (omap g (take (Z.to_nat seq) evs))).
  { apply Forall_forall. intros v (e' & _ & Hv)%list_elem_of_omap. unfold g in Hv.
    destruct (String.eqb _ _); [|done]. by apply extractFields_available in Hv. }
  assert (Hin : "true" ∈ omap g (take (Z.to_nat seq) evs)).
  { apply list_elem_of_omap. exists e. split.
    - apply list_elem_of_lookup. exists i. rewrite lookup_take_lt by lia. done.
    - unfold g. rewrite String.eqb_refl, Hp. cbn. rewrite Hsc, Ha. apply lookup_insert_eq. }
  destruct (last (omap g _)) as [v|] eqn:Hl.
  - f_equal. rewrite Forall_forall in Hall. apply Hall. by apply last_Some_elem_of.
  - apply last_None in Hl. rewrite Hl in Hin. by apply not_elem_of_nil in Hin.
Qed.

(** The chain of causes of the event at position [p], the root first. *)
Inductive cause_path : Z -> list Event -> Prop :=
  | path_root p e : evs !! Z.to_nat (p - 1) = Some e -> 0 < p -> CausePosition e = 0 -> cause_path p [e]
  | path_step p e l :
      evs !! Z.to_nat (p - 1) = Some e -> 0 < p -> 0 < CausePosition e -> cause_path (CausePosition e) l ->
      cause_path p (l ++ [e]).

Lemma ParseUint_pretty p : 0 <= p <= max_u64 -> ParseUint (pretty (Z.to_N p)) = Some p.
Proof.
  intros Hp. unfold ParseUint. rewrite parse_digits_pretty. cbn. rewrite Z2N.id by lia.
  destruct (pretty_N_cons (Z.to_N p)) as (? & ? & _ & ->). cbn. by destruct (Z.leb_spec p max_u64); [|lia].
Qed.

Lemma EventByID_log p :
  0 < p <= max_u64 ->
  EventByID d (pretty (Z.to_N p)) = Ok (storeEventToEntityEvent <$> evs !! Z.to_nat (p - 1)).
Proof.
  intros Hp. unfold EventByID. rewrite ParseUint_pretty, EventBySeq_log by lia.
  by destruct (Z.eqb_spec p 0); [lia|].
Qed.

(** Causes come before their effects. *)
Definition causes_earlier : Prop := forall i e, evs !! i = Some e -> 0 <= CausePosition e <= Z.of_nat i.

Lemma cause_path_exists :
  causes_earlier -> forall p, 0 < p <= Z.of_nat (length evs) -> exists l, cause_path p l.
Proof.
  intros Hc p. induction (Z.lt_wf 0 p) as [p _ IH]. intros Hp.
  destruct (lookup_lt_is_Some_2 evs (Z.to_nat (p - 1))) as [e He]; [lia|].
  pose proof (Hc _ _ He). destruct (Z.eqb_spec (CausePosition e) 0).
  - exists [e]. constructor; [done | lia | done].
  - destruct (IH (CausePosition e)) as [l Hl]; [lia..|]. exists (l ++ [e]). by constructor; [|lia|lia|].
Qed.

Lemma walk_path :
  causes_earlier -> forall p l, cause_path p l -> forall fuel visited,
  p <= max_u64 ->
  (forall v, v ∈ visited -> exists q, v = pretty (Z.to_N q) /\ p < q) ->
  walk_causes d fuel (pretty (Z.to_N p)) visited = Ok (storeEventToEntityEvent <$> take fuel (rev l)).
Proof.
  intros Hc p l Hpath. induction Hpath as [p e He Hp H0 | p e l He Hp H0 Hpath IH]; intros [|fuel] visited Hm Hv;
    try done; cbn [walk_causes].
  all: assert (is_empty (pretty (Z.to_N p)) = false) as ->
      by (by destruct (pretty_N_cons (Z.to_N p)) as (? & ? & _ & ->)).
  all: assert (contains_eq visited (pretty (Z.to_N p)) = false) as ->.
  1,3: apply not_true_is_false; intros (q & Hq & Hlt)%contains_eq_spec%Hv; apply (inj pretty) in Hq; lia.
  all: rewrite EventByID_log, He by lia; cbn [fmap option_fmap option_map ev_CausationID storeEventToEntityEvent].
  - rewrite H0. cbn. rewrite (take_nil fuel). by destruct fuel.
  - destruct (Z.ltb_spec 0 (CausePosition e)); [|lia]. pose proof (Hc _ _ He).
    rewrite IH; [|lia|].
    + rewrite rev_app_distr. cbn. done.
    + intros v. rewrite elem_of_cons. intros [->|(q & -> & ?)%Hv]; eexists; split; [done|lia|done|lia].
Qed.

(** The chain of causes of an event is the path from its root cause to it,
    root first, cut to the 256 events nearest to it; when causes precede their
    effects it is never reported as a cycle. *)
Theorem cause_chain_exact p :
  causes_earlier -> 0 < p <= Z.of_nat (length evs) -> p <= max_u64 ->
  exists l, cause_path p l /\
    CausationChain d (pretty (Z.to_N p)) = Ok (storeEventToEntityEvent <$> drop (length l - 256) l).
Proof.
  intros Hc Hp Hm. destruct (cause_path_exists Hc p Hp) as [l Hl]. exists l. split; [done|].
  unfold CausationChain. rewrite (walk_path Hc p l Hl); [|done|intros v Hv; by apply not_elem_of_nil in Hv].
  f_equal. unfold maxDepth. rewrite firstn_rev, <- map_rev. by rewrite rev_involutive.
Qed.

End Log.

End Replay.

(** ** Witnesses *)

Module TimeDemo.

(** Payloads of a switch: on, off, and off and unreachable. *)
Definition unmarshal (b : string) : result string Payload :=
  let sc on av := Some (Payload_StateChanged (mkStateChanged (Some (mkAttributes (Some (Attributes_SwitchDevice on)) av)) "lamp")) in
  if String.eqb b "on" then Ok (sc true true) else if String.eqb b "off" then Ok (sc false true) else Ok (sc false false).

Definition format_g (_ : Z) : string := "".

(** A log whose row [i] has the payload [f i] and was caused by the row before. *)
Fixpoint rows (f : Z -> string) (i : Z) (n : nat) : list EventRow :=
  match n with
  | O => []
  | S n => mkEventRow (i + 1) 0 "state_changed" (Some "lamp") "driver" None (if i =? 0 then None else Some i) (f i)
             :: rows f (i + 1) n
  end.

Lemma rows_contiguous f n : forall i, contiguous row_position (i + 1) (rows f i n).
Proof. induction n as [|n IH]; intros i; cbn; [done|]. split; [done|]. apply IH. Qed.

Lemma rows_length f n : forall i, length (rows f i n) = n.
Proof. induction n as [|n IH]; intros i; cbn; [done|]. by rewrite IH. Qed.

Definition log (f : Z -> string) (n : nat) : DB unit := mkDB (rows f 0 n) (Z.of_nat n) ∅ [] ∅ ∅ ().

Lemma log_is_ok f n : log_ok (log f n).
Proof. split; [apply (rows_contiguous f n 0)|]. cbn. by rewrite rows_length. Qed.

Definition decoded (f : Z -> string) (n : nat) : list Event :=
  match mapM (scanEvent unmarshal) (events (log f n)) with Ok l => l | Err _ => [] end.

Definition short (i : Z) : string := if i =? 0 then "on" else if i =? 1 then "off" else "gone".

Lemma time_travel_exact_witness :
  exists r, LoadAtSeq format_g unmarshal (log short 3) 2 = Ok r /\
  field (la_Entities r) "lamp" "on" = Some "false" /\ diff_at (la_Diff r) "lamp" "on" = Some ("true", "false").
Proof.
  destruct (time_travel_exact format_g unmarshal (log short 3) (decoded short 3)) with (seq := 2)
    as (r & Hr & Hf & Hd & _); [apply log_is_ok | by vm_compute | lia |].
  exists r. split; [done|]. rewrite Hf, Hd. by vm_compute.
Defined.

(** The switch is turned on by the event at position 10001. *)
Definition long (i : Z) : string := if i =? 10000 then "on" else "off".

Lemma time_travel_truncated_witness :
  exists r, LoadAtSeq format_g unmarshal (log long 10001) 10001 = Ok r /\
  field (la_Entities r) "lamp" "on" = Some "false" /\ last_set format_g (decoded long 10001) "lamp" "on" = Some "true".
Proof.
  destruct (time_travel_truncated format_g unmarshal (log long 10001) (decoded long 10001)) with (seq := 10001)
    as (r & Hr & Hf); [apply log_is_ok | by vm_compute | lia |].
  exists r. split; [done|]. rewrite (proj1 (Hf "lamp" "on")). split; by vm_compute.
Defined.

Lemma availability_sticks_witness :
  exists r, LoadAtSeq format_g unmarshal (log short 3) 3 = Ok r /\
  field (la_Entities r) "lamp" "available" = Some "true" /\
  (fun e => PayloadPtr e) <$> last (decoded short 3) = Some (match unmarshal "gone" with Ok p => Some p | Err _ => None end).
Proof.
  destruct (availability_sticks format_g unmarshal (log short 3) (decoded short 3)) with
    (seq := 3) (i := 0%nat) (e := match decoded short 3 with e :: _ => e | [] => Example.ev "" end)
    (sc := mkStateChanged (Some (mkAttributes (Some (Attributes_SwitchDevice true)) true)) "lamp")
    (a := mkAttributes (Some (Attributes_SwitchDevice true)) true)
    as (r & Hr & Hf); [apply log_is_ok | by vm_compute.. | lia |].
  exists r. split; [done|]. split; [exact Hf | by vm_compute].
Defined.

Lemma cause_chain_exact_witness :
  exists l, cause_path (decoded short 3) 3 l /\
  CausationChain format_g unmarshal (log short 3) (pretty 3%N) = Ok (storeEventToEntityEvent format_g <$> drop (length l - 256) l).
Proof.
  apply (cause_chain_exact format_g unmarshal (log short 3) (decoded short 3)) with (p := 3).
  - apply log_is_ok.
  - by vm_compute.
  - intros [|[|[|i]]] e He; vm_compute in He; simplify_eq; cbn; lia.
  - by vm_compute.
  - by vm_compute.
Defined.

End TimeDemo.
