(* ===== verification/Delivery.v ===== *)
(** * Event delivery

    Models [internal/eventstore/subscribe.go] and [tailer.go]: subscriptions,
    catch-up, the tailer goroutine and dispatch, as functions and as a step
    relation whose interleavings are those of the goroutines. A buffered
    channel is its queue and capacity. A subscriber also records, for
    stating what was delivered, where it started ([sub_from]) and everything
    ever sent on its channel ([sub_sent]); no operation reads either. *)

From S2P Require Import Prelude Events EventStore EventStoreFacts ReplayFacts.

(** ** Subscribers *)

(** Where the goroutine started by [Subscribe] is: in [catchupAndRegister] with
    the events of the last query still to send, registered, or gone. *)
Inductive phase :=
  | Catching (rest : list Event)
  | Live
  | Stopped.

Record subscriber := mkSubscriber {
  sub_name : string;
  sub_filter : Filter;
  sub_ch : list Event;
  sub_cap : nat;
  sub_delivered : Z;
  sub_dropped : Z;
  lastSent : Z;
  sub_durable : bool;
  isClosed : bool;
  sub_phase : phase;
  sub_from : Z;
  sub_sent : list Event;
}.

Definition with_phase (p : phase) (s : subscriber) : subscriber :=
  mkSubscriber (sub_name s) (sub_filter s) (sub_ch s) (sub_cap s) (sub_delivered s)
    (sub_dropped s) (lastSent s) (sub_durable s) (isClosed s) p (sub_from s) (sub_sent s).

Definition with_lastSent (p : Z) (s : subscriber) : subscriber :=
  mkSubscriber (sub_name s) (sub_filter s) (sub_ch s) (sub_cap s) (sub_delivered s)
    (sub_dropped s) p (sub_durable s) (isClosed s) (sub_phase s) (sub_from s) (sub_sent s).

Definition with_closed (s : subscriber) : subscriber :=
  mkSubscriber (sub_name s) (sub_filter s) (sub_ch s) (sub_cap s) (sub_delivered s)
    (sub_dropped s) (lastSent s) (sub_durable s) true (sub_phase s) (sub_from s) (sub_sent s).

Definition count_dropped (s : subscriber) : subscriber :=
  mkSubscriber (sub_name s) (sub_filter s) (sub_ch s) (sub_cap s) (sub_delivered s)
    (u64 (sub_dropped s + 1)) (lastSent s) (sub_durable s) (isClosed s) (sub_phase s)
    (sub_from s) (sub_sent s).

(** [sub.ch <- e], then [delivered.Add(1)] and [lastSent.Store(e.Position)]. *)
Definition push (e : Event) (s : subscriber) : subscriber :=
  mkSubscriber (sub_name s) (sub_filter s) (sub_ch s ++ [e]) (sub_cap s)
    (u64 (sub_delivered s + 1)) (sub_dropped s) (Position e) (sub_durable s) (isClosed s)
    (sub_phase s) (sub_from s) (sub_sent s ++ [e]).

Definition has_room (s : subscriber) : bool := (length (sub_ch s) <? sub_cap s)%nat.

(** [trySend]: [(sent, dropped)]. *)
Definition trySend (s : subscriber) : bool * bool :=
  if isClosed s then (false, false)
  else if has_room s then (true, false)
  else (false, true).

Record SubscriptionStats := mkSubscriptionStats {
  Delivered : Z; Dropped : Z; LagEvents : Z; Buffered : nat;
}.

Definition Stats (s : subscriber) : SubscriptionStats :=
  mkSubscriptionStats (sub_delivered s) (sub_dropped s) 0 (length (sub_ch s)).

(** ** Durable cursors *)

Section Durable.
Context {T : Type}.
Implicit Type d : DB T.

(** [persistCursor]; [fault] is the failure of the UPDATE. *)
Definition persistCursor (fault : option string) (name : string) (position : Z) d :
    DB T * option string :=
  match fault with
  | Some msg => (d, Some ("persist cursor " +:+ name +:+ ": " +:+ msg))
  | None =>
      match event_subscriptions d !! name with
      | None => (d, Some ("persist cursor " +:+ name +:+ ": subscription not found"))
      | Some _ => (with_subscriptions (<[name := i64 position]> (event_subscriptions d)) d, None)
      end
  end.

(** [Ack]. *)
Definition Ack (fault : option string) (s : subscriber) (position : Z) d : DB T * option string :=
  if negb (sub_durable s) then (d, None)
  else persistCursor fault (sub_name s) position d.

(** [loadDurableCursor]; [fq] and [fi] are the failures of the query and of
    the insert. *)
Definition loadDurableCursor (fq fi : option string) (name : string) (fallback : Z) d :
    DB T * result string Z :=
  match fq with
  | Some msg => (d, Err ("load durable cursor: " +:+ msg))
  | None =>
      match event_subscriptions d !! name with
      | None =>
          match fi with
          | Some msg => (d, Err ("insert durable subscription: " +:+ msg))
          | None =>
              (with_subscriptions (<[name := i64 fallback]> (event_subscriptions d)) d,
               Ok fallback)
          end
      | Some cursor => (d, Ok (u64 cursor))
      end
  end.

Record SubscribeOptions := mkSubscribeOptions {
  SO_FromPosition : Z;
  SO_Filter : Filter;
  SO_Durable : bool;
  SO_Name : string;
  SO_ChannelBuffer : Z;
}.

(** [Subscribe], up to starting the catch-up goroutine. *)
Definition Subscribe (is_started : bool) (maxbuf : Z) (fq fi : option string)
    (opts : SubscribeOptions) d : DB T * result string subscriber :=
  if negb is_started then (d, Err "Subscribe: store not started")
  else if SO_Durable opts && is_empty (SO_Name opts)
  then (d, Err "Subscribe: Durable requires Name")
  else
    let buf := if SO_ChannelBuffer opts <=? 0 then maxbuf else SO_ChannelBuffer opts in
    let name := if is_empty (SO_Name opts) then "anon" else SO_Name opts in
    let '(d', r) := if SO_Durable opts
                    then loadDurableCursor fq fi name (SO_FromPosition opts) d
                    else (d, Ok (SO_FromPosition opts)) in
    match r with
    | Err msg => (d', Err msg)
    | Ok fromPos =>
        (d', Ok (mkSubscriber name (SO_Filter opts) [] (Z.to_nat buf) 0 0 fromPos
                   (SO_Durable opts) false (Catching []) fromPos []))
    end.

End Durable.

(** ** The running system *)

(** [runTailer]: its cursor, the events of the current batch, and, while one is
    being dispatched, the copied subscriber list still to serve. *)
Record tailer := mkTailer {
  t_cursor : Z;
  t_queue : list Event;
  t_copy : option (list nat);
}.

Record sys (T : Type) := mkSys {
  sdb : DB T;
  slatest : Z;
  ssubs : list nat;
  sheap : gmap nat subscriber;
  stail : tailer;
}.
Arguments mkSys {T}.
Arguments sdb {T}.
Arguments slatest {T}.
Arguments ssubs {T}.
Arguments sheap {T}.
Arguments stail {T}.

Section Run.
Context {T : Type} (unmarshal : string -> result string Payload).
Implicit Type s : sys T.

Definition with_sub (id : nat) (x : subscriber) s : sys T :=
  mkSys (sdb s) (slatest s) (ssubs s) (<[id := x]> (sheap s)) (stail s).
Definition with_tail (t : tailer) s : sys T :=
  mkSys (sdb s) (slatest s) (ssubs s) (sheap s) t.

(** [Start]: the tailer's cursor is the latest position at that moment. *)
Definition Start (d : DB T) (latest : Z) : sys T :=
  mkSys d latest [] ∅ (mkTailer latest [] None).

(** [unregisterSubscriber]. *)
Definition unregisterSubscriber (id : nat) s : sys T :=
  mkSys (sdb s) (slatest s) (filter (fun j => j <> id) (ssubs s)) (sheap s) (stail s).

(** [Close]. *)
Definition Close (id : nat) (x : subscriber) s : sys T :=
  if isClosed x then s
  else with_sub id (with_closed x) (unregisterSubscriber id s).

(** One round of the loop of [catchupAndRegister] with nothing left to send:
    register if caught up, else query the next page. *)
Definition catchup_round (id : nat) (x : subscriber) s : sys T :=
  let target := slatest s in
  let cursor := lastSent x in
  if cursor >=? target
  then mkSys (sdb s) (slatest s) (ssubs s ++ [id]) (<[id := with_phase Live x]> (sheap s)) (stail s)
  else match Query unmarshal (mkQueryOptions cursor target (sub_filter x) 1000) (sdb s) with
       | Err _ => Close id (with_phase Stopped x) (with_sub id (with_phase Stopped x) s)
       | Ok [] => with_sub id (with_lastSent target x) s
       | Ok evts => with_sub id (with_phase (Catching evts) x) s
       end.

(** [blockingSend] of the next event when the channel has room. *)
Definition catchup_send (id : nat) (x : subscriber) (e : Event) (rest : list Event) s : sys T :=
  with_sub id (with_phase (Catching rest) (push e x)) s.

(** The send gives up: with [ctx] cancelled the caller closes the
    subscription, after [Close] it just returns. *)
Definition catchup_abort (id : nat) (x : subscriber) s : sys T :=
  Close id (with_phase Stopped x) (with_sub id (with_phase Stopped x) s).

(** The body of [dispatch]'s loop for one subscriber. *)
Definition dispatch_one (e : Event) (id : nat) s : sys T :=
  match sheap s !! id with
  | None => s
  | Some x =>
      if negb (Matches (sub_filter x) e) then s
      else if lastSent x >=? Position e then s
      else match trySend x with
           | (true, _) => with_sub id (push e x) s
           | (false, true) => unregisterSubscriber id (with_sub id (count_dropped x) s)
           | (false, false) => s
           end
  end.

(** The tailer's query for its next batch; on error it tries again. *)
Definition tail_read s : sys T :=
  let t := stail s in
  match Query unmarshal (mkQueryOptions (t_cursor t) (slatest s) Filter_zero 1000) (sdb s) with
  | Err _ => s
  | Ok evts => with_tail (mkTailer (t_cursor t) evts None) s
  end.

(** The interleavings. A commit extends the log, keeping it numbered and
    readable (theorem [log_invariant]); [latestPosition] is published
    afterwards, each writer in its own time: [Append] never lowers it,
    [AppendBatch] sets it to its last position whatever it is. *)
Inductive sys_step : sys T -> sys T -> Prop :=
  | step_commit s d' rows evs' :
      events d' = events (sdb s) ++ rows -> readable_log unmarshal d' evs' ->
      sys_step s (mkSys d' (slatest s) (ssubs s) (sheap s) (stail s))
  | step_publish s p :
      p <= events_seq (sdb s) ->
      sys_step s (mkSys (sdb s) (Z.max (slatest s) p) (ssubs s) (sheap s) (stail s))
  | step_publish_batch s p :
      0 <= p <= events_seq (sdb s) ->
      sys_step s (mkSys (sdb s) p (ssubs s) (sheap s) (stail s))
  | step_subscribe s id maxbuf fq fi opts d' x :
      sheap s !! id = None -> 0 <= SO_FromPosition opts ->
      Subscribe true maxbuf fq fi opts (sdb s) = (d', Ok x) ->
      sys_step s (mkSys d' (slatest s) (ssubs s) (<[id := x]> (sheap s)) (stail s))
  | step_catchup_round s id x :
      sheap s !! id = Some x -> sub_phase x = Catching [] ->
      sys_step s (catchup_round id x s)
  | step_catchup_send s id x e rest :
      sheap s !! id = Some x -> sub_phase x = Catching (e :: rest) ->
      isClosed x = false -> has_room x = true ->
      sys_step s (catchup_send id x e rest s)
  | step_catchup_abort s id x e rest :
      sheap s !! id = Some x -> sub_phase x = Catching (e :: rest) ->
      sys_step s (catchup_abort id x s)
  | step_tail_read s :
      t_queue (stail s) = [] -> t_copy (stail s) = None -> t_cursor (stail s) < slatest s ->
      sys_step s (tail_read s)
  | step_dispatch_begin s e q :
      t_queue (stail s) = e :: q -> t_copy (stail s) = None ->
      sys_step s (with_tail (mkTailer (t_cursor (stail s)) (e :: q) (Some (ssubs s))) s)
  | step_dispatch_one s e q id ids :
      t_queue (stail s) = e :: q -> t_copy (stail s) = Some (id :: ids) ->
      sys_step s (with_tail (mkTailer (t_cursor (stail s)) (e :: q) (Some ids))
                    (dispatch_one e id s))
  | step_dispatch_end s e q :
      t_queue (stail s) = e :: q -> t_copy (stail s) = Some [] ->
      sys_step s (with_tail (mkTailer (Position e) q None) s)
  | step_receive s id x e ch :
      sheap s !! id = Some x -> sub_ch x = e :: ch ->
      sys_step s (with_sub id
        (mkSubscriber (sub_name x) (sub_filter x) ch (sub_cap x) (sub_delivered x) (sub_dropped x)
           (lastSent x) (sub_durable x) (isClosed x) (sub_phase x) (sub_from x) (sub_sent x)) s)
  | step_close s id x :
      sheap s !! id = Some x ->
      sys_step s (Close id x s).

(** A step that does not lower [latestPosition]: any but the publication of a batch
    that comes after that of a later commit. *)
Definition ordered_step s s' : Prop := sys_step s s' /\ slatest s <= slatest s'.

End Run.
