(* ===== verification/DeliveryFacts.v ===== *)
(** * Correctness of event delivery

    Whatever the interleaving of commits, catch-up, dispatch, receives and
    closes, what a subscriber has been sent is exactly the matching events of
    an initial stretch of the log after its start: none skipped, none twice,
    in order. While it is registered that stretch reaches at least as far as
    the tailer has dispatched. *)

From S2P Require Import Prelude Events EventStore EventStoreFacts ReplayFacts Delivery.

(** ** Stretches of the log *)

(** The events at positions [a + 1, ..., b]. *)
Definition slice (L : list Event) (a b : Z) : list Event :=
  take (Z.to_nat (b - a)) (drop (Z.to_nat a) L).

Definition matching (f : Filter) (l : list Event) : list Event :=
  filter (fun e => Matches f e = true) l.

(** The event at index [i] has position [i + 1]. *)
Definition numbered (L : list Event) : Prop :=
  forall i e, L !! i = Some e -> Position e = Z.of_nat i + 1.

(** Any 1000 consecutive events of the log contain a match. *)
Definition dense (f : Filter) (L : list Event) : Prop :=
  forall i, (i + 1000 <= length L)%nat -> matching f (take 1000 (drop i L)) <> [].

Lemma matching_app f l1 l2 : matching f (l1 ++ l2) = matching f l1 ++ matching f l2.
Proof. apply filter_app. Qed.

Lemma matching_zero l : matching Filter_zero l = l.
Proof. apply list_filter_all. intros e _. apply Matches_zero. Qed.

Lemma slice_empty L a b : b <= a -> slice L a b = [].
Proof. intros. unfold slice. by replace (Z.to_nat (b - a)) with 0%nat by lia. Qed.

Lemma slice_split L a b c :
  0 <= a -> a <= b -> b <= c -> slice L a c = slice L a b ++ slice L b c.
Proof.
  intros. unfold slice.
  replace (Z.to_nat (c - a)) with (Z.to_nat (b - a) + Z.to_nat (c - b))%nat by lia.
  rewrite <- take_take_drop, drop_drop. do 3 f_equal. lia.
Qed.

Lemma slice_grow L L' a b :
  0 <= a -> b <= Z.of_nat (length L) -> slice (L ++ L') a b = slice L a b.
Proof.
  intros. unfold slice. destruct (decide (b <= a)) as [|Hab].
  { by replace (Z.to_nat (b - a)) with 0%nat by lia. }
  rewrite drop_app_le by lia. apply take_app_le. rewrite length_drop. lia.
Qed.

Lemma dense_prefix f L L' : dense f (L ++ L') -> dense f L.
Proof.
  intros Hd i Hi. specialize (Hd i). rewrite length_app in Hd.
  rewrite drop_app_le, take_app_le in Hd by (rewrite ?length_drop; lia). apply Hd. lia.
Qed.

Lemma slice_cons L a b x :
  0 <= a -> a < b -> L !! Z.to_nat a = Some x -> slice L a b = x :: slice L (a + 1) b.
Proof.
  intros Ha Hab Hx. unfold slice. rewrite (drop_S _ _ _ Hx).
  replace (Z.to_nat (b - a)) with (S (Z.to_nat (b - (a + 1)))) by lia.
  cbn [take]. do 3 f_equal. lia.
Qed.

Lemma slice_head L a b :
  numbered L -> 0 <= a -> a < b -> b <= Z.of_nat (length L) ->
  exists x, L !! Z.to_nat a = Some x /\ Position x = a + 1.
Proof.
  intros Hn Ha Hab Hb. destruct (lookup_lt_is_Some_2 L (Z.to_nat a)) as [x Hx]; [lia|].
  exists x. split; [done|]. rewrite (Hn _ _ Hx). lia.
Qed.

Lemma slice_one L a x : 0 <= a -> L !! Z.to_nat a = Some x -> slice L a (a + 1) = [x].
Proof. intros. rewrite (slice_cons L a (a + 1) x) by (done || lia). by rewrite slice_empty by lia. Qed.

Lemma matching_cons f x l :
  matching f (x :: l) = (if Matches f x then [x] else []) ++ matching f l.
Proof. unfold matching. rewrite filter_cons. case_decide as H; [by rewrite H|].
  apply not_true_is_false in H. by rewrite H. Qed.

(** The first match of a stretch splits it. *)
Lemma matching_slice_cons f L a b e rest :
  numbered L -> 0 <= a -> b <= Z.of_nat (length L) -> matching f (slice L a b) = e :: rest ->
  a < Position e <= b /\
  matching f (slice L a (Position e)) = [e] /\ matching f (slice L (Position e) b) = rest.
Proof.
  intros Hn. remember (Z.to_nat (b - a)) as n eqn:Hnn. revert a Hnn.
  induction n as [|n IH]; intros a Hnn Ha Hb Hm.
  { rewrite slice_empty in Hm by lia. done. }
  destruct (slice_head L a b Hn Ha) as (x & Hx & Hp); [lia..|].
  rewrite (slice_cons L a b x), matching_cons in Hm by (done || lia).
  destruct (Matches f x) eqn:Hmx.
  - injection Hm as -> Hrest. rewrite Hp. split; [lia|]. split; [|done].
    rewrite (slice_one L a e) by done. rewrite matching_cons, Hmx. done.
  - destruct (IH (a + 1)) as (H1 & H3 & H4); [lia|lia|done|done|].
    split; [lia|]. split; [|done].
    rewrite (slice_cons L a (Position e) x), matching_cons, Hmx by (done || lia). done.
Qed.

(** ** The invariant *)

Section Delivery.
Context {T : Type} (unmarshal : string -> result string Payload).
Implicit Type s : sys T.

(** What [x] was sent is the matching events after its start up to [hw]. *)
Definition sent_upto (L : list Event) (x : subscriber) (hw : Z) : Prop :=
  sub_from x <= hw /\ (hw = sub_from x \/ hw <= Z.of_nat (length L)) /\
  sub_sent x = matching (sub_filter x) (slice L (sub_from x) hw).

(** Subscriber [id] may still be served by the tailer. *)
Definition attached s (id : nat) : Prop :=
  id ∈ ssubs s \/ exists ids, t_copy (stail s) = Some ids /\ id ∈ ids.

(** The position up to which the tailer has served subscriber [id]. *)
Definition progress s (id : nat) : Z :=
  match t_copy (stail s), t_queue (stail s) with
  | Some ids, e :: _ => if decide (id ∈ ids) then t_cursor (stail s) else Position e
  | _, _ => t_cursor (stail s)
  end.

(** The events still to send are the matches of a stretch after the last one. *)
Definition rest_ok (L : list Event) (x : subscriber) : Prop :=
  match sub_phase x with
  | Catching (e :: rest) => exists b, b <= Z.of_nat (length L) /\
      matching (sub_filter x) (slice L (lastSent x) b) = e :: rest
  | _ => True
  end.

Definition sub_ok (L : list Event) s (id : nat) (x : subscriber) : Prop :=
  0 <= sub_from x <= lastSent x /\ rest_ok L x /\
  (dense (sub_filter x) L ->
   match sub_phase x with
   | Catching _ => sent_upto L x (lastSent x)
   | Live => exists hw,
       sent_upto L x hw /\ lastSent x <= hw /\
       matching (sub_filter x) (slice L (lastSent x) hw) = [] /\
       (attached s id -> isClosed x = false -> progress s id <= hw)
   | Stopped => exists hw, sent_upto L x hw
   end).

Record sys_ok (L : list Event) s : Prop := {
  ok_log : readable_log unmarshal (sdb s) L;
  ok_latest : slatest s <= Z.of_nat (length L);
  ok_cursor : 0 <= t_cursor (stail s) <= slatest s;
  ok_queue : exists b, t_cursor (stail s) <= b <= slatest s /\
    t_queue (stail s) = slice L (t_cursor (stail s)) b;
  ok_nodup : NoDup (ssubs s);
  ok_copy : forall ids, t_copy (stail s) = Some ids -> t_queue (stail s) <> [] /\ NoDup ids;
  ok_live : forall id, attached s id -> exists x, sheap s !! id = Some x /\ sub_phase x = Live;
  ok_subs : forall id x, sheap s !! id = Some x -> sub_ok L s id x;
}.

(** The components of the invariant a step does not touch. *)
Ltac keep_ok H :=
  first [ exact (ok_log _ _ H) | exact (ok_latest _ _ H) | exact (ok_cursor _ _ H)
        | exact (ok_queue _ _ H) | exact (ok_nodup _ _ H) | exact (ok_copy _ _ H)
        | exact (ok_live _ _ H) | exact (ok_subs _ _ H) ].

Lemma readable_numbered (d : DB T) L : readable_log unmarshal d L -> numbered L.
Proof. intros (Hlog & Hlt & Hm) i e He. by eapply scan_positions. Qed.

Lemma sent_upto_grow L L' x hw :
  0 <= sub_from x -> sent_upto L x hw -> sent_upto (L ++ L') x hw.
Proof.
  intros H0 (H1 & H2 & H3). split; [done|]. rewrite length_app. split; [lia|].
  destruct H2 as [->|H2]; [|by rewrite slice_grow].
  rewrite H3. by rewrite !slice_empty by lia.
Qed.

(** Extending the stretch by one that holds no match. *)
Lemma sent_upto_skip L x hw hw' :
  0 <= sub_from x -> hw <= hw' -> hw' <= Z.of_nat (length L) ->
  matching (sub_filter x) (slice L hw hw') = [] -> sent_upto L x hw -> sent_upto L x hw'.
Proof.
  intros H0 Hle Hl Hm (H1 & H2 & H3). split; [lia|]. split; [by right|].
  rewrite H3, (slice_split L _ hw hw') by lia. by rewrite matching_app, Hm, app_nil_r.
Qed.

(** Sending the next match. *)
Lemma sent_upto_push L x hw e :
  0 <= sub_from x -> hw <= Position e <= Z.of_nat (length L) ->
  matching (sub_filter x) (slice L hw (Position e)) = [e] -> sent_upto L x hw ->
  sent_upto L (push e x) (Position e).
Proof.
  intros H0 Hle Hm (H1 & H2 & H3). split; [cbn; lia|]. split; [right; lia|]. cbn.
  rewrite H3, (slice_split L _ hw (Position e)) by lia. by rewrite matching_app, Hm.
Qed.

(** The tailer's head event is the one right after its cursor. *)
Lemma queue_head L s e q :
  sys_ok L s -> t_queue (stail s) = e :: q ->
  Position e = t_cursor (stail s) + 1 /\ Position e <= slatest s /\
  L !! Z.to_nat (t_cursor (stail s)) = Some e /\
  exists b, Position e <= b <= slatest s /\ q = slice L (Position e) b.
Proof.
  intros Hok Hq. destruct (ok_queue _ _ Hok) as (b & Hb & Hs).
  pose proof (ok_cursor _ _ Hok). pose proof (ok_latest _ _ Hok).
  pose proof (readable_numbered _ _ (ok_log _ _ Hok)) as Hn.
  destruct (decide (t_cursor (stail s) < b)) as [Hlt|].
  2: { rewrite slice_empty in Hs by lia. congruence. }
  destruct (slice_head L (t_cursor (stail s)) b Hn) as (x & Hx & Hp); [lia..|].
  rewrite (slice_cons L _ b x) in Hs by (done || lia).
  assert (x = e /\ q = slice L (t_cursor (stail s) + 1) b) as [-> ->] by (split; congruence).
  rewrite Hp. repeat split; [lia..|done|]. exists b. split; [lia|done].
Qed.

(** *** Preservation *)

Lemma sub_ok_mono L s s' id x :
  (attached s' id -> attached s id /\ progress s' id <= progress s id) ->
  sub_ok L s id x -> sub_ok L s' id x.
Proof.
  intros Ha (H0 & Hr & Hx). split; [done|]. split; [done|]. intros Hd. specialize (Hx Hd).
  destruct (sub_phase x); [done| |done]. destruct Hx as (hw & H1 & H2 & H3 & H4).
  exists hw. repeat (split; [done|]). intros Hat Hcl. destruct (Ha Hat) as [Hat' Hp].
  specialize (H4 Hat' Hcl). lia.
Qed.

Lemma sub_ok_grow L L' s s' id x :
  attached s' id = attached s id -> progress s' id = progress s id ->
  sub_ok L s id x -> sub_ok (L ++ L') s' id x.
Proof.
  intros Ha Hp (H0 & Hr & Hx). split; [done|]. split.
  { unfold rest_ok in *. destruct (sub_phase x) as [[|e rest]| |]; try done.
    destruct Hr as (b & Hb & Hm). exists b. rewrite length_app, slice_grow by lia. split; [lia|done]. }
  intros Hd. specialize (Hx (dense_prefix _ _ _ Hd)).
  rewrite Ha, Hp. destruct (sub_phase x) as [rest| |].
  - apply sent_upto_grow; [lia|done].
  - destruct Hx as (hw & H1 & H2 & H3 & H4). exists hw.
    split; [apply sent_upto_grow; [lia|done]|]. split; [done|]. split; [|done].
    destruct H1 as (H5 & [->|H6] & H7).
    + by rewrite slice_empty by lia.
    + by rewrite slice_grow by lia.
  - destruct Hx as (hw & H1). exists hw. apply sent_upto_grow; [lia|done].
Qed.

(** A change of one subscriber and of nothing the others depend on. *)
Lemma ok_subs_update L s s' id x' :
  sheap s' = <[id := x']> (sheap s) ->
  (forall j, j <> id -> attached s' j -> attached s j /\ progress s' j <= progress s j) ->
  (forall j x, sheap s !! j = Some x -> sub_ok L s j x) -> sub_ok L s' id x' ->
  forall j x, sheap s' !! j = Some x -> sub_ok L s' j x.
Proof.
  intros Hh Ho Hs Hx j x. rewrite Hh, lookup_insert_Some.
  intros [[<- <-]|[Hne Hj]]; [done|]. eapply sub_ok_mono; [|by apply Hs]. by apply Ho.
Qed.

(** Replacing a subscriber by one in the same phase. *)
Lemma sys_ok_with_sub L s id x x' :
  sys_ok L s -> sheap s !! id = Some x -> sub_ok L s id x' ->
  (sub_phase x = Live -> sub_phase x' = Live) -> sys_ok L (with_sub id x' s).
Proof.
  intros Hok Hid Hx' Hph. split; try keep_ok Hok.
  - intros j Hj. destruct (ok_live _ _ Hok j Hj) as (y & Hy & Hl). cbn.
    destruct (decide (j = id)) as [->|]; [|rewrite lookup_insert_ne; eauto].
    rewrite lookup_insert_eq. exists x'. split; [done|]. apply Hph. congruence.
  - eapply (ok_subs_update L s); [reflexivity|done|apply Hok|exact Hx'].
Qed.

Lemma ok_commit L s d' rows L' :
  sys_ok L s -> events d' = events (sdb s) ++ rows -> readable_log unmarshal d' L' ->
  sys_ok L' (mkSys d' (slatest s) (ssubs s) (sheap s) (stail s)).
Proof.
  intros Hok Hev Hr. destruct (ok_log _ _ Hok) as (_ & _ & Hm), Hr as (Hlo & Hlt & Hm').
  assert (exists L2, L' = L ++ L2) as [L2 ->].
  { pose proof (result_mapM_take _ _ _ (length (events (sdb s))) Hm') as Ht.
    rewrite Hev, take_app_length, Hm in Ht. injection Ht as Ht.
    exists (drop (length (events (sdb s))) L'). rewrite Ht. by rewrite take_drop. }
  pose proof (ok_latest _ _ Hok). pose proof (ok_cursor _ _ Hok).
  split; cbn; try keep_ok Hok.
  - done.
  - rewrite length_app. lia.
  - destruct (ok_queue _ _ Hok) as (b & Hb & ->). exists b. split; [done|].
    by rewrite slice_grow by lia.
  - intros id x Hx. eapply (sub_ok_grow L); [done|done|]. by apply (ok_subs _ _ Hok).
Qed.

Lemma ok_publish L s p :
  sys_ok L s -> slatest s <= p <= Z.max (slatest s) (events_seq (sdb s)) ->
  sys_ok L (mkSys (sdb s) p (ssubs s) (sheap s) (stail s)).
Proof.
  intros Hok Hp. pose proof (ok_cursor _ _ Hok). pose proof (ok_latest _ _ Hok).
  pose proof (readable_log_length _ _ _ (ok_log _ _ Hok)).
  split; cbn; try keep_ok Hok; [lia|lia|].
  destruct (ok_queue _ _ Hok) as (b & Hb & Hq). exists b. split; [lia|done].
Qed.

Lemma Subscribe_fresh maxbuf fq fi opts (d d' : DB T) x :
  0 <= SO_FromPosition opts -> Subscribe true maxbuf fq fi opts d = (d', Ok x) ->
  events d' = events d /\ events_seq d' = events_seq d /\ 0 <= sub_from x /\
  lastSent x = sub_from x /\ sub_sent x = [] /\ sub_phase x = Catching [].
Proof.
  intros H0. unfold Subscribe. cbn [negb]. destruct (SO_Durable opts && _); [done|].
  destruct (SO_Durable opts); cbn.
  - unfold loadDurableCursor. destruct fq; [done|].
    destruct (event_subscriptions d !! _) as [c|].
    + intros [= <- <-]. cbn. repeat split; unfold u64; try done. apply Z.mod_pos_bound. lia.
    + destruct fi; [done|]. by intros [= <- <-].
  - by intros [= <- <-].
Qed.

Lemma ok_subscribe L s id maxbuf fq fi opts d' x :
  sys_ok L s -> sheap s !! id = None -> 0 <= SO_FromPosition opts ->
  Subscribe true maxbuf fq fi opts (sdb s) = (d', Ok x) ->
  sys_ok L (mkSys d' (slatest s) (ssubs s) (<[id := x]> (sheap s)) (stail s)).
Proof.
  intros Hok Hid H0 Hsub.
  destruct (Subscribe_fresh _ _ _ _ _ _ _ H0 Hsub) as (Hev & Hseq & Hf & Hls & Hse & Hph).
  split; try keep_ok Hok.
  - eapply readable_log_events; [done|done|]. apply Hok.
  - intros j Hj. destruct (ok_live _ _ Hok j Hj) as (y & Hy & Hl). exists y.
    cbn. rewrite lookup_insert_ne by congruence. done.
  - apply (ok_subs_update L s
      (mkSys d' (slatest s) (ssubs s) (<[id := x]> (sheap s)) (stail s)) id x);
      [reflexivity|done|apply Hok|].
    split; [lia|]. unfold rest_ok. rewrite Hph. split; [done|]. intros _.
    split; [lia|]. split; [by left|]. rewrite Hse, slice_empty by lia. done.
Qed.

(** The page a catch-up or tailer query returns. *)
Lemma page L s c f :
  sys_ok L s -> 0 <= c -> c < slatest s ->
  Query unmarshal (mkQueryOptions c (slatest s) f 1000) (sdb s) =
  Ok (matching f (slice L c (Z.min (slatest s) (c + 1000)))).
Proof.
  intros Hok Hc Hlt. pose proof (ok_log _ _ Hok) as (Hlo & _ & Hm).
  rewrite (Query_slice unmarshal _ L) by (done || cbn; lia). cbn [QFilter Limit FromPosition ToPosition].
  change (page_size 1000) with 1000.
  destruct (Z.eqb_spec (slatest s) 0); [pose proof (ok_cursor _ _ Hok); lia|].
  unfold matching, slice. rewrite take_take. do 3 f_equal. lia.
Qed.

Lemma unregister_ok L s id : sys_ok L s -> sys_ok L (unregisterSubscriber id s).
Proof.
  intros Hok.
  assert (Hat : forall j, attached (unregisterSubscriber id s) j -> attached s j).
  { intros j [Hj|Hj]; [left|by right]. cbn in Hj. by apply list_elem_of_filter in Hj as [_ ?]. }
  split; try keep_ok Hok.
  - cbn. apply NoDup_filter, Hok.
  - intros j Hj. by apply (ok_live _ _ Hok), Hat.
  - intros j y Hy. eapply sub_ok_mono; [|by apply (ok_subs _ _ Hok)].
    intros Ha. split; [by apply Hat | done].
Qed.

Lemma closed_phase_ok L s id x :
  sys_ok L s -> sheap s !! id = Some x -> sys_ok L (Close id x s).
Proof.
  intros Hok Hid. unfold Close. destruct (isClosed x) eqn:Hc; [done|].
  pose proof (unregister_ok L s id Hok) as Hok'.
  eapply (sys_ok_with_sub L _ id x); [done|done| |done].
  destruct (ok_subs _ _ Hok' id x Hid) as (H0 & Hr & Hx). split; [done|]. split; [done|].
  intros Hd. specialize (Hx Hd). cbn [sub_phase with_closed]. destruct (sub_phase x); [done| |done].
  destruct Hx as (hw & H1 & H2 & H3 & _). exists hw. by repeat (split; [done|]).
Qed.

Lemma not_attached_catching L s id x :
  sys_ok L s -> sheap s !! id = Some x -> sub_phase x <> Live -> attached s id -> False.
Proof. intros Hok Hid Hph Ha. destruct (ok_live _ _ Hok id Ha) as (y & Hy & Hl). congruence. Qed.

Lemma stopped_ok L s id x rest :
  sys_ok L s -> sheap s !! id = Some x -> sub_phase x = Catching rest ->
  sys_ok L (catchup_abort id x s).
Proof.
  intros Hok Hid Hph. unfold catchup_abort. apply closed_phase_ok; [|cbn; by rewrite lookup_insert_eq].
  eapply (sys_ok_with_sub L s id x); [done|done| |by rewrite Hph].
  destruct (ok_subs _ _ Hok id x Hid) as (H0 & Hr & Hx). rewrite Hph in Hx.
  split; [done|]. split; [done|]. intros Hd. exists (lastSent x). by apply Hx.
Qed.

Lemma ok_register L s id x :
  sys_ok L s -> sheap s !! id = Some x -> sub_phase x = Catching [] -> slatest s <= lastSent x ->
  sys_ok L (mkSys (sdb s) (slatest s) (ssubs s ++ [id]) (<[id := with_phase Live x]> (sheap s)) (stail s)).
Proof.
  intros Hok Hid Hph Hge.
  assert (Hna : attached s id -> False) by (eapply not_attached_catching; eauto; by rewrite Hph).
  set (s' := mkSys _ _ _ _ _).
  assert (Hat : forall j, j <> id -> attached s' j -> attached s j).
  { intros j Hj [Hin|Hin]; [left|by right]. cbn in Hin. set_solver. }
  split; try keep_ok Hok.
  - cbn. apply NoDup_app. split; [apply Hok|]. split; [|apply NoDup_singleton].
    intros j Hj ->%list_elem_of_singleton. apply Hna. by left.
  - intros j Hj. cbn. destruct (decide (j = id)) as [->|Hne].
    + rewrite lookup_insert_eq. eauto.
    + rewrite lookup_insert_ne by done. apply (ok_live _ _ Hok). by apply Hat.
  - apply (ok_subs_update L s s' id (with_phase Live x)); [done| |apply Hok|].
    + intros j Hj Ha. split; [by apply Hat | done].
    + destruct (ok_subs _ _ Hok id x Hid) as (H0 & Hr & Hx). rewrite Hph in Hx.
      split; [done|]. split; [done|]. intros Hd. exists (lastSent x). split; [by apply Hx|].
      split; [cbn; lia|].
      split; [by rewrite slice_empty|]. intros _ _. cbn. unfold progress. cbn.
      pose proof (ok_cursor _ _ Hok) as Hcur.
      destruct (t_copy (stail s)) as [ids|] eqn:Hcp; [|lia].
      destruct (t_queue (stail s)) as [|e q] eqn:Hq; [lia|].
      destruct (queue_head _ _ _ _ Hok Hq) as (Hp & Hp' & _). case_decide; lia.
Qed.

Lemma ok_catchup_round L s id x :
  sys_ok L s -> sheap s !! id = Some x -> sub_phase x = Catching [] ->
  sys_ok L (catchup_round unmarshal id x s).
Proof.
  intros Hok Hid Hph. destruct (ok_subs _ _ Hok id x Hid) as (H1 & _ & Hx). rewrite Hph in Hx.
  unfold catchup_round.
  destruct (lastSent x >=? slatest s) eqn:Hge; [apply ok_register; [done..|lia]|].
  assert (Hlt : lastSent x < slatest s) by lia.
  pose proof (ok_latest _ _ Hok) as Hlat.
  rewrite (page L) by (done || lia). set (b := Z.min (slatest s) (lastSent x + 1000)).
  destruct (matching _ (slice L (lastSent x) b)) as [|e rest] eqn:Hm.
  - eapply (sys_ok_with_sub L s id x); [done|done| |done].
    unfold sub_ok, rest_ok. cbn [with_lastSent sub_phase sub_filter lastSent sub_from sub_sent isClosed].
    rewrite Hph. split; [lia|]. split; [done|]. intros Hd. specialize (Hx Hd).
    assert (Hb : b = slatest s).
    { unfold b. destruct (decide (slatest s <= lastSent x + 1000)); [lia|].
      exfalso. apply (Hd (Z.to_nat (lastSent x))); [lia|]. rewrite <- Hm.
      unfold b, slice. do 2 f_equal. lia. }
    rewrite Hb in Hm. apply (sent_upto_skip L (with_lastSent (slatest s) x) (lastSent x)); cbn; (lia || done).
  - eapply (sys_ok_with_sub L s id x); [done|done| |by rewrite Hph].
    split; [done|]. split; [|done]. exists b. split; [lia|done].
Qed.

Lemma ok_catchup_send L s id x e rest :
  sys_ok L s -> sheap s !! id = Some x -> sub_phase x = Catching (e :: rest) ->
  sys_ok L (catchup_send id x e rest s).
Proof.
  intros Hok Hid Hph. unfold catchup_send.
  pose proof (readable_numbered _ _ (ok_log _ _ Hok)) as Hn.
  eapply (sys_ok_with_sub L s id x); [done|done| |by rewrite Hph].
  destruct (ok_subs _ _ Hok id x Hid) as (H1 & Hr & Hx). unfold rest_ok in Hr. rewrite Hph in *.
  destruct Hr as (b & Hb & Hm).
  destruct (matching_slice_cons (sub_filter x) L (lastSent x) b e rest Hn)
    as (Hp & Hm1 & Hm2); [lia|lia|done|].
  unfold sub_ok, rest_ok. cbn [with_phase push sub_phase sub_filter lastSent sub_from sub_sent].
  split; [lia|]. split.
  - destruct rest; [done|]. eauto.
  - intros Hd. apply (sent_upto_push L x (lastSent x) e); [lia|lia|done|by apply Hx].
Qed.

Lemma ok_tail_read L s :
  sys_ok L s -> t_queue (stail s) = [] -> t_copy (stail s) = None ->
  t_cursor (stail s) < slatest s -> sys_ok L (tail_read unmarshal s).
Proof.
  intros Hok Hq Hc Hlt. pose proof (ok_cursor _ _ Hok). unfold tail_read.
  rewrite (page L) by (done || lia). rewrite matching_zero.
  set (s' := with_tail _ _).
  assert (Hat : forall j, attached s' j -> attached s j).
  { intros j [Hj|(ids & Hids & _)]; [by left | done]. }
  split; try keep_ok Hok.
  - cbn. eexists. split; [|done]. lia.
  - done.
  - intros j Hj. by apply (ok_live _ _ Hok), Hat.
  - intros j x Hj. eapply sub_ok_mono; [|by apply (ok_subs _ _ Hok)].
    intros Ha. split; [by apply Hat|]. unfold progress. rewrite Hc. cbn. lia.
Qed.

Lemma ok_dispatch_begin L s e q :
  sys_ok L s -> t_queue (stail s) = e :: q -> t_copy (stail s) = None ->
  sys_ok L (with_tail (mkTailer (t_cursor (stail s)) (e :: q) (Some (ssubs s))) s).
Proof.
  intros Hok Hq Hc. set (s' := with_tail _ _).
  assert (Hin : forall j, attached s' j -> j ∈ ssubs s).
  { intros j [Hj|(ids & [= <-] & Hj)]; done. }
  split; try keep_ok Hok.
  - cbn. rewrite <- Hq. apply Hok.
  - intros ids [= <-]. split; [done | apply Hok].
  - intros j Hj. apply (ok_live _ _ Hok). left. by apply Hin.
  - intros j x Hj. eapply sub_ok_mono; [|by apply (ok_subs _ _ Hok)].
    intros Ha%Hin. split; [by left|]. unfold progress. rewrite Hc. cbn. by rewrite decide_True.
Qed.

Lemma ok_dispatch_end L s e q :
  sys_ok L s -> t_queue (stail s) = e :: q -> t_copy (stail s) = Some [] ->
  sys_ok L (with_tail (mkTailer (Position e) q None) s).
Proof.
  intros Hok Hq Hc. set (s' := with_tail _ _).
  destruct (queue_head _ _ _ _ Hok Hq) as (Hp & Hp' & _ & b & Hb & Hqs).
  pose proof (ok_cursor _ _ Hok).
  assert (Hat : forall j, attached s' j -> attached s j).
  { intros j [Hj|(ids & Hids & _)]; [by left | done]. }
  split; try keep_ok Hok.
  - cbn. lia.
  - cbn. eauto.
  - done.
  - intros j Hj. by apply (ok_live _ _ Hok), Hat.
  - intros j x Hj. eapply sub_ok_mono; [|by apply (ok_subs _ _ Hok)].
    intros Ha. split; [by apply Hat|]. unfold progress. rewrite Hc, Hq. cbn.
    rewrite decide_False by apply not_elem_of_nil. lia.
Qed.

(** Advancing the copied list past a subscriber that needs nothing more. *)
Lemma ok_pop L s e q id ids :
  sys_ok L s -> t_queue (stail s) = e :: q -> t_copy (stail s) = Some (id :: ids) ->
  (forall x, sheap s !! id = Some x -> id ∈ ssubs s -> isClosed x = false ->
     dense (sub_filter x) L -> sub_phase x = Live -> exists hw,
       sent_upto L x hw /\ lastSent x <= hw /\
       matching (sub_filter x) (slice L (lastSent x) hw) = [] /\ Position e <= hw) ->
  sys_ok L (with_tail (mkTailer (t_cursor (stail s)) (e :: q) (Some ids)) s).
Proof.
  intros Hok Hq Hc Hid. set (s' := with_tail _ _).
  destruct (ok_copy _ _ Hok _ Hc) as [_ [Hni Hnd]%NoDup_cons].
  assert (Hat : forall j, attached s' j -> attached s j).
  { intros j [Hj|(ids' & [= <-] & Hj)]; [by left | right]. exists (id :: ids). split; [done|by right]. }
  split; try keep_ok Hok.
  - cbn. rewrite <- Hq. apply Hok.
  - intros ids' [= <-]. done.
  - intros j Hj. by apply (ok_live _ _ Hok), Hat.
  - intros j x Hj. destruct (decide (j = id)) as [->|Hne].
    + destruct (ok_subs _ _ Hok id x Hj) as (H0 & Hr & Hx). split; [done|]. split; [done|].
      intros Hd. specialize (Hx Hd). destruct (sub_phase x) eqn:Hph; [done| |done].
      destruct (decide (id ∈ ssubs s)) as [Hin|Hnin]; [destruct (isClosed x) eqn:Hcl|].
      * destruct Hx as (hw & H1 & H2 & H3 & _). exists hw. by repeat (split; [done|]).
      * destruct (Hid x Hj Hin Hcl Hd Hph) as (hw & H1 & H2 & H3 & H4). exists hw.
        repeat (split; [done|]). intros _ _. unfold progress. cbn. by rewrite decide_False.
      * destruct Hx as (hw & H1 & H2 & H3 & _). exists hw. repeat (split; [done|]).
        intros [?|(ids' & [= <-] & ?)]; done.
    + eapply sub_ok_mono; [|by apply (ok_subs _ _ Hok)].
      intros Ha. split; [by apply Hat|]. unfold progress. rewrite Hc, Hq. cbn.
      assert (j ∈ id :: ids <-> j ∈ ids) as Hiff by (rewrite elem_of_cons; naive_solver).
      repeat case_decide; naive_solver lia.
Qed.

Lemma Position_in_slice L a b e i :
  numbered L -> 0 <= a -> L !! i = Some e -> a < Position e <= b -> e ∈ slice L a b.
Proof.
  intros Hn Ha Hi Hp. rewrite (Hn _ _ Hi) in Hp. unfold slice.
  apply list_elem_of_lookup. exists (i - Z.to_nat a)%nat.
  rewrite lookup_take_lt by lia. rewrite lookup_drop.
  by replace (Z.to_nat a + (i - Z.to_nat a))%nat with i by lia.
Qed.

(** The stretch already served, extended by the event being dispatched. *)
Lemma served_extend L s e q id ids x hw :
  sys_ok L s -> t_queue (stail s) = e :: q -> t_copy (stail s) = Some (id :: ids) ->
  0 <= sub_from x <= lastSent x -> sent_upto L x hw -> lastSent x <= hw ->
  matching (sub_filter x) (slice L (lastSent x) hw) = [] -> progress s id <= hw ->
  Position e <= hw \/
  hw = Position e - 1 /\ Position e <= Z.of_nat (length L) /\ slice L hw (Position e) = [e].
Proof.
  intros Hok Hq Hc H0 H1 H2 H3 H4. destruct (queue_head _ _ _ _ Hok Hq) as (Hp & Hp' & Hl & _).
  pose proof (ok_latest _ _ Hok). pose proof (ok_cursor _ _ Hok).
  unfold progress in H4. rewrite Hc, Hq, decide_True in H4 by left.
  destruct (decide (Position e <= hw)); [by left|right].
  assert (hw = t_cursor (stail s)) as -> by lia.
  split; [lia|]. split; [lia|]. rewrite Hp. apply slice_one; [lia|done].
Qed.

Lemma ok_dispatch_one L s e q id ids :
  sys_ok L s -> t_queue (stail s) = e :: q -> t_copy (stail s) = Some (id :: ids) ->
  sys_ok L (with_tail (mkTailer (t_cursor (stail s)) (e :: q) (Some ids)) (dispatch_one e id s)).
Proof.
  intros Hok Hq Hc. pose proof (readable_numbered _ _ (ok_log _ _ Hok)) as Hn.
  destruct (queue_head _ _ _ _ Hok Hq) as (Hp & Hp' & Hl & _).
  assert (Hatt : attached s id) by (right; exists (id :: ids); split; [done|left]).
  destruct (ok_live _ _ Hok id Hatt) as (x & Hx & Hlive).
  destruct (ok_subs _ _ Hok id x Hx) as (H0 & Hr & Hs). rewrite Hlive in Hs.
  unfold dispatch_one. rewrite Hx.
  destruct (Matches (sub_filter x) e) eqn:Hm; cbn [negb].
  2: { eapply ok_pop; [done|done|exact Hc|]. intros x' Hx' _ Hcl Hd _.
    assert (x' = x) as -> by congruence. destruct (Hs Hd) as (hw & H1 & H2 & H3 & H4).
    specialize (H4 Hatt Hcl).
    destruct (served_extend _ _ _ _ _ _ _ _ Hok Hq Hc H0 H1 H2 H3 H4) as [Hge|(Hhw & Hlen & Hsl)].
    { exists hw. by repeat (split; [done|]). }
    assert (Hnone : matching (sub_filter x) (slice L hw (Position e)) = [])
      by (rewrite Hsl, matching_cons, Hm; done).
    exists (Position e). split; [by apply (sent_upto_skip L x hw); [lia|lia|lia|done|done]|].
    split; [lia|]. split; [|lia].
    rewrite (slice_split L _ hw) by lia. by rewrite matching_app, H3, Hnone. }
  destruct (lastSent x >=? Position e) eqn:Hge.
  { eapply ok_pop; [done|done|exact Hc|]. intros x' Hx' _ Hcl Hd _.
    assert (x' = x) as -> by congruence. destruct (Hs Hd) as (hw & H1 & H2 & H3 & H4).
    exists hw. repeat (split; [done|]). lia. }
  unfold trySend. destruct (isClosed x) eqn:Hcl.
  { eapply ok_pop; [done|done|exact Hc|]. intros x' Hx' _ Hcl'. congruence. }
  destruct (has_room x).
  - assert (Hnew : dense (sub_filter x) L -> sent_upto L (push e x) (Position e)).
    { intros Hd. destruct (Hs Hd) as (hw & H1 & H2 & H3 & H4). specialize (H4 Hatt eq_refl).
      destruct (served_extend _ _ _ _ _ _ _ _ Hok Hq Hc H0 H1 H2 H3 H4) as [Hge'|(Hhw & Hlen & Hsl)].
      - exfalso. apply (not_elem_of_nil e). rewrite <- H3. apply list_elem_of_filter.
        split; [done|]. eapply Position_in_slice; [done|lia|exact Hl|lia].
      - apply (sent_upto_push L x hw); [lia|lia| |done]. by rewrite Hsl, matching_cons, Hm. }
    apply (ok_pop L (with_sub id (push e x) s) e q id ids).
    + eapply (sys_ok_with_sub L s id x); [done|done| |done].
      unfold sub_ok, rest_ok. cbn [push sub_phase sub_filter lastSent sub_from isClosed].
      rewrite Hlive. split; [lia|]. split; [done|]. intros Hd. exists (Position e).
      split; [by apply Hnew|]. split; [lia|]. split; [by rewrite slice_empty|]. intros _ _.
      unfold progress. rewrite Hc, Hq. rewrite decide_True by left. lia.
    + done.
    + done.
    + intros x' Hx' _ _ Hd _. cbn in Hx'. rewrite lookup_insert_eq in Hx'. injection Hx' as <-.
      exists (Position e). split; [by apply Hnew|]. cbn. split; [lia|].
      split; [by rewrite slice_empty|lia].
  - apply (ok_pop L (unregisterSubscriber id (with_sub id (count_dropped x) s)) e q id ids).
    + apply unregister_ok. eapply (sys_ok_with_sub L s id x); [done|done| |done].
      unfold sub_ok, rest_ok. cbn [count_dropped sub_phase sub_filter lastSent sub_from isClosed].
      rewrite Hlive, Hcl. split; [done|]. split; [done|]. exact Hs.
    + done.
    + done.
    + intros x' _ Hin. cbn in Hin. apply list_elem_of_filter in Hin as [? _]. done.
Qed.

Lemma sys_step_ok L s s' :
  sys_ok L s -> ordered_step unmarshal s s' -> exists L', sys_ok L' s'.
Proof.
  intros Hok [Hst Hord]. destruct Hst.
  - eexists. by eapply ok_commit.
  - eexists. apply ok_publish; [done|lia].
  - eexists. apply ok_publish; [done|]. cbn in Hord. lia.
  - eexists. by eapply ok_subscribe.
  - eexists. by apply ok_catchup_round.
  - eexists. by apply ok_catchup_send.
  - eexists. by eapply stopped_ok.
  - eexists. by apply ok_tail_read.
  - eexists. by apply ok_dispatch_begin.
  - eexists. by apply ok_dispatch_one.
  - eexists. by apply ok_dispatch_end.
  - eexists. eapply (sys_ok_with_sub L s id x); [done|done| |done]. by apply (ok_subs _ _ Hok) in H.
  - eexists. by apply closed_phase_ok.
Qed.

Lemma Start_ok (d : DB T) L latest :
  readable_log unmarshal d L -> 0 <= latest <= Z.of_nat (length L) -> sys_ok L (Start d latest).
Proof.
  intros Hr Hl. split; cbn; try done; try lia.
  - exists latest. rewrite slice_empty by lia. split; [lia|done].
  - constructor.
  - intros id [Hin|(ids & Hids & _)]; [by apply not_elem_of_nil in Hin | done].
Qed.

Lemma reachable_ok (d : DB T) L latest s :
  readable_log unmarshal d L -> 0 <= latest <= Z.of_nat (length L) ->
  rtc (ordered_step unmarshal) (Start d latest) s -> exists L', sys_ok L' s.
Proof.
  intros Hr Hl. revert s. apply rtc_ind_r.
  - exists L. by apply Start_ok.
  - intros s s' _ Hst [L' Hok]. by eapply sys_step_ok.
Qed.

(** C2. Delivery is exact: in every state reachable under any interleaving of
    commits, publications, subscriptions, catch-up, dispatch, receives and
    closes in which [latestPosition] is never lowered (an [Append] never does;
    an [AppendBatch], which the daemon never calls, can, when it publishes after
    a later commit has: example [late_batch_skips]), what a subscriber has been sent is exactly the matching events of
    the log from its start up to some position, in log order, none missing and
    none twice; and while it is registered and open, that position is at least
    the tailer's cursor, so everything dispatched has reached it. The
    hypothesis is that any 1000 consecutive events contain a match (always so
    for a filter that matches everything). *)
Theorem delivery_exact (d : DB T) L0 latest s id x :
  readable_log unmarshal d L0 -> 0 <= latest <= Z.of_nat (length L0) ->
  rtc (ordered_step unmarshal) (Start d latest) s -> sheap s !! id = Some x ->
  exists L, readable_log unmarshal (sdb s) L /\
    (dense (sub_filter x) L ->
     exists hw, sub_from x <= hw /\
       sub_sent x = matching (sub_filter x) (slice L (sub_from x) hw) /\
       (id ∈ ssubs s -> isClosed x = false -> t_copy (stail s) = None -> t_cursor (stail s) <= hw)).
Proof.
  intros Hr Hl Hs Hx. destruct (reachable_ok d L0 latest s Hr Hl Hs) as [L Hok].
  exists L. split; [apply Hok|]. intros Hd.
  destruct (ok_subs _ _ Hok id x Hx) as (_ & _ & Hsub). specialize (Hsub Hd).
  assert (Hlive : id ∈ ssubs s -> sub_phase x = Live).
  { intros Hin. destruct (ok_live _ _ Hok id (or_introl Hin)) as (y & Hy & Hl'). congruence. }
  destruct (sub_phase x) as [rest| |].
  - destruct Hsub as (H1 & _ & H2). exists (lastSent x). repeat (split; [done|]).
    intros Hin. by specialize (Hlive Hin).
  - destruct Hsub as (hw & (H1 & _ & H2) & _ & _ & H4). exists hw. repeat (split; [done|]).
    intros Hin Hc Hcp. specialize (H4 (or_introl Hin) Hc). unfold progress in H4. by rewrite Hcp in H4.
  - destruct Hsub as (hw & H1 & _ & H2). exists hw. repeat (split; [done|]).
    intros Hin. by specialize (Hlive Hin).
Qed.

(** The tailer makes progress: whenever it is idle behind the published
    position, its next query returns the event right after its cursor, so it
    never spins on an empty batch. *)
Theorem tailer_progress (d : DB T) L0 latest s :
  readable_log unmarshal d L0 -> 0 <= latest <= Z.of_nat (length L0) ->
  rtc (ordered_step unmarshal) (Start d latest) s ->
  t_queue (stail s) = [] -> t_copy (stail s) = None -> t_cursor (stail s) < slatest s ->
  exists e q, t_queue (stail (tail_read unmarshal s)) = e :: q /\
    Position e = t_cursor (stail s) + 1.
Proof.
  intros Hr Hl Hs Hq Hc Hlt. destruct (reachable_ok d L0 latest s Hr Hl Hs) as [L Hok].
  pose proof (ok_tail_read _ _ Hok Hq Hc Hlt) as Hok'.
  pose proof (ok_cursor _ _ Hok) as Hcur. pose proof (ok_latest _ _ Hok) as Hlat.
  unfold tail_read in *. rewrite (page L) in * by (done || lia). cbn [stail with_tail t_queue].
  rewrite matching_zero.
  destruct (slice_head L (t_cursor (stail s)) (slatest s)
    (readable_numbered _ _ (ok_log _ _ Hok))) as (x & Hx & Hp); [lia..|].
  rewrite (slice_cons L _ _ x) by (done || lia). eauto.
Qed.

End Delivery.

(** ** A concrete run *)

Module DeliveryDemo.

(** [n] log rows, the last of kind "wanted", the others of kind "noise". *)
Definition row (i n : nat) : EventRow :=
  mkEventRow (Z.of_nat i + 1) 5 (if (i =? n - 1)%nat then "wanted" else "noise") None "src" None None "p".
Definition log (n : nat) : DB unit :=
  mkDB ((fun i => row i n) <$> seq 0 n) (Z.of_nat n) ∅ [] ∅ ∅ ().

Definition wanted : Filter := mkFilter ["wanted"] [] [] [] zero_time zero_time.

Definition sub (f : Filter) : subscriber :=
  mkSubscriber "anon" f [] 8 0 0 0 false false (Catching []) 0 [].

Definition events_of (n : nat) : list Event :=
  (fun i => mkEvent (Z.of_nat i + 1) 5 (if (i =? n - 1)%nat then "wanted" else "noise") "" "src" 0 0
              (Some (Some (Payload_WebhookReceived "p")))) <$> seq 0 n.

(** Subscribing to a three-event log, catching up and registering. *)
Definition s0 : sys unit := Start (log 3) 3.
Definition s1 : sys unit := mkSys (log 3) 3 [] {[0%nat := sub wanted]} (mkTailer 3 [] None).
Definition s2 : sys unit := catchup_round Example.unmarshal 0 (sub wanted) s1.

Lemma run : rtc (ordered_step Example.unmarshal) s0 s2.
Proof.
  apply rtc_l with s1; [|apply rtc_once]; (split; [|vm_compute; congruence]).
  - apply (step_subscribe _ s0 0 8 None None (mkSubscribeOptions 0 wanted false "" 8) (log 3) (sub wanted)).
    + reflexivity.
    + cbn. lia.
    + reflexivity.
  - apply (step_catchup_round _ s1 0 (sub wanted)); reflexivity.
Qed.

Lemma log3 : readable_log Example.unmarshal (log 3) (events_of 3).
Proof. split; [split; vm_compute; [repeat split|reflexivity]|]. split; vm_compute; reflexivity. Qed.

(** A batch that publishes its position after a later commit has: two events are in the
    log, the second has been published and dispatched to nobody, then the batch with the
    first sets [latestPosition] back to 1. A subscriber that comes now catches up to 1 and
    is registered behind the tailer, which has passed 2. *)
Definition all_kinds : Filter := Filter_zero.
Definition late1 : sys unit := tail_read Example.unmarshal (mkSys (log 2) 2 [] ∅ (mkTailer 0 [] None)).
Definition late2 : sys unit := mkSys (log 2) 1 [] {[0%nat := sub all_kinds]} (mkTailer 2 [] None).
Definition late3 : sys unit := catchup_round Example.unmarshal 0 (sub all_kinds) late2.
Definition late_sub (s : sys unit) : subscriber := default (sub all_kinds) (sheap s !! 0%nat).
Definition late4 : sys unit := catchup_send 0 (late_sub late3) (default (mkEvent 0 0 "" "" "" 0 0 None) (head (events_of 2))) [] late3.
Definition late5 : sys unit := catchup_round Example.unmarshal 0 (late_sub late4) late4.

Example late_batch_skips :
  rtc (sys_step Example.unmarshal) (Start (log 2) 0) late5 /\ ssubs late5 = [0%nat] /\
  isClosed (late_sub late5) = false /\ sub_filter (late_sub late5) = all_kinds /\
  Position <$> sub_sent (late_sub late5) = [1] /\ stail late5 = mkTailer 2 [] None.
Proof.
  split; [|vm_compute; by split_and!].
  eapply rtc_l; [apply (step_publish _ _ 2); vm_compute; congruence|].
  eapply rtc_l; [by apply step_tail_read|].
  eapply rtc_l; [by eapply step_dispatch_begin|].
  eapply rtc_l; [by eapply step_dispatch_end|].
  eapply rtc_l; [by eapply step_dispatch_begin|].
  eapply rtc_l; [by eapply step_dispatch_end|].
  eapply rtc_l; [apply (step_publish_batch _ _ 1); vm_compute; split; congruence|].
  apply rtc_l with late2.
  { match goal with |- sys_step _ ?s _ => apply (step_subscribe _ s 0 8 None None (mkSubscribeOptions 0 all_kinds false "" 8)) end;
      [done|done|reflexivity]. }
  apply rtc_l with late3; [by apply step_catchup_round|].
  apply rtc_l with late4; [by apply step_catchup_send|].
  apply rtc_once. by apply step_catchup_round.
Qed.

End DeliveryDemo.

Lemma delivery_exact_witness :
  exists x, sheap DeliveryDemo.s2 !! 0%nat = Some x /\
  exists L, readable_log Example.unmarshal (sdb DeliveryDemo.s2) L /\
    (dense (sub_filter x) L ->
     exists hw, sub_from x <= hw /\
       sub_sent x = matching (sub_filter x) (slice L (sub_from x) hw) /\
       (0%nat ∈ ssubs DeliveryDemo.s2 -> isClosed x = false -> t_copy (stail DeliveryDemo.s2) = None ->
        t_cursor (stail DeliveryDemo.s2) <= hw)).
Proof.
  eexists. split; [vm_compute; reflexivity|].
  apply (delivery_exact Example.unmarshal (DeliveryDemo.log 3) (DeliveryDemo.events_of 3) 3).
  - exact DeliveryDemo.log3.
  - vm_compute. split; congruence.
  - exact DeliveryDemo.run.
  - vm_compute. reflexivity.
Defined.

Lemma tailer_progress_witness :
  let s := mkSys (DeliveryDemo.log 3) 3 [] ∅ (mkTailer 1 [] None) in
  exists e q, t_queue (stail (tail_read Example.unmarshal s)) = e :: q /\ Position e = 1 + 1.
Proof.
  apply (tailer_progress Example.unmarshal (DeliveryDemo.log 3) (DeliveryDemo.events_of 3) 1
    (mkSys (DeliveryDemo.log 3) 3 [] ∅ (mkTailer 1 [] None))).
  - exact DeliveryDemo.log3.
  - vm_compute. split; congruence.
  - apply rtc_once. split; [|vm_compute; congruence].
    apply (step_publish _ (Start (DeliveryDemo.log 3) 1) 3). vm_compute. congruence.
  - reflexivity.
  - reflexivity.
  - cbn. lia.
Defined.

(** Catch-up with a selective filter can lose events: [Query] cuts the page
    at 1000 rows before filtering, and an empty page moves the watermark to the
    target. A subscriber from position 0 whose only matching event is at
    position 1001 is registered with everything up to 1001 marked as sent,
    having been sent nothing. *)
Theorem catchup_loses_sparse_match :
  let s := mkSys (DeliveryDemo.log 1001) 1001 [] ∅ (mkTailer 1001 [] None) in
  let x := DeliveryDemo.sub DeliveryDemo.wanted in
  let x1 := with_lastSent 1001 x in
  let s1 := catchup_round Example.unmarshal 0 x s in
  sheap s1 !! 0%nat = Some x1 /\
  ssubs (catchup_round Example.unmarshal 0 x1 s1) = [0%nat] /\
  sub_sent x1 = [] /\
  match Query Example.unmarshal (mkQueryOptions 1000 1001 DeliveryDemo.wanted 0) (sdb s1) with
  | Ok [e] => Position e = 1001
  | _ => False
  end.
Proof.
  intros s x x1 s1. split; [vm_compute; reflexivity|]. split; [vm_compute; reflexivity|].
  split; [reflexivity|]. vm_compute. reflexivity.
Qed.
