(* ===== verification/Stories.v ===== *)
(** * The activity feed

    Models [internal/activity/stories] and the live half of
    [internal/activity/service.go]: events of a time window grouped into stories
    by their correlation id, with the tags that the interestingness pipeline put
    on them; single events; and one event with the chain of its causes. The
    queries are those of [EventStore]. The text of a UUID and the JSON of a payload
    are parameters; the order in which Go ranges over a set is an argument. The
    synthetic data of the mock mode is left out.

    [coalesce_exact]: the stories of a window. [story_events_open]: every event of
    a story can be opened. [detail_chain]: the causes that are shown.
    [feed_frozen]: what happens once the log has a thousand events. *)

From Stdlib Require Import Ascii String.
From S2P Require Import Prelude Codec Events EventStore EventStoreFacts ReplayFacts TimeTravel.

Record Tag := mkTag { tg_Category : string; tg_Name : string; tg_Explanation : string }.

Record Story := mkStory {
  st_ID : string; st_Title : string; st_InnerEventIDs : list string; st_OccurredAt : Z; st_Tags : list Tag;
  st_Source : string; st_EntityIDs : list string;
}.
Definition Story_zero : Story := mkStory "" "" [] zero_time [] "" [].

(** ** Numbers as text *)

(** [string(rune('0'+d))] of a digit. *)
Definition rune0 (d : Z) : string := String (ascii_of_N (48 + Z.to_N d)) "".

(** [itoa] of a non-negative number; [fuel] bounds its digits. *)
Fixpoint itoa_go (fuel : nat) (n : Z) : string :=
  match fuel with
  | O => ""
  | S fuel => if n <? 10 then rune0 n else itoa_go fuel (n / 10) +:+ rune0 (n `mod` 10)
  end.
Definition itoa (n : Z) : string := if n <? 0 then "-" +:+ itoa_go 20 (- n) else itoa_go 20 n.

(** The loop of [eventPositionToID]; a [uint64] has at most 20 digits. *)
Fixpoint id_loop (fuel : nat) (pos : Z) (result : string) : string :=
  match fuel with
  | O => result
  | S fuel => if pos >? 0 then id_loop fuel (pos / 10) (rune0 (pos `mod` 10) +:+ result) else result
  end.
Definition eventPositionToID (pos : Z) : string := if pos =? 0 then "0" else id_loop 20 pos "".

(** ** Stories *)

Definition is_tagged (e : Event) : bool := String.eqb (Kind e) "interestingness.tagged".

(** The tag that an event of that kind carries. *)
Definition tag_of (e : Event) : option Tag :=
  match GetKind e with
  | Some (Payload_System _ data) =>
      Some (mkTag (default "" (data !! "category")) (default "" (data !! "name")) (default "" (data !! "explanation")))
  | _ => None
  end.

(** [m[k] = append(m[k], v)]. *)
Definition add_to {V} (k : Z) (v : V) (m : gmap Z (list V)) : gmap Z (list V) := <[k := default [] (m !! k) ++ [v]]> m.

(** One turn of the loop over the events: the groups and the tags by position. *)
Definition split_event (acc : gmap Z (list Event) * gmap Z (list Tag)) (e : Event) :
    gmap Z (list Event) * gmap Z (list Tag) :=
  let '(groups, tagged) := acc in
  if is_tagged e then (groups, match tag_of e with Some t => add_to (CausePosition e) t tagged | None => tagged end)
  else (add_to (CorrelationID e) e groups, tagged).

Definition initiating (e : Event) (rest : list Event) : Event :=
  foldl (fun i e => if Position e <? Position i then e else i) e rest.

Definition title_of_kind (k : string) : string :=
  if contains_eq ["cmd.issued"; "command.issued"] k then "Command issued"
  else if contains_eq ["state.changed"; "state_changed"] k then "State changed"
  else if String.eqb k "config.applied" then "Configuration applied"
  else if String.eqb k "automation.triggered" then "Automation triggered"
  else if String.eqb k "driver.restarted" then "Driver restarted"
  else if String.eqb k "auth.failed" then "Authentication failure"
  else if is_empty k then "Activity" else k.

Definition deriveTitle (e : Event) (entities : list string) : string :=
  match entities with
  | [] => title_of_kind (Kind e)
  | [x] => title_of_kind (Kind e) +:+ " — " +:+ x
  | x :: _ => title_of_kind (Kind e) +:+ " — " +:+ x +:+ " and " +:+ itoa (Z.of_nat (length entities) - 1) +:+ " more"
  end.

(** The inner loop of [sortStoriesDesc], over the sorted part from its end. *)
Fixpoint shift (key : Story) (sorted_rev : list Story) : list Story :=
  match sorted_rev with
  | s :: rest => if st_OccurredAt s <? st_OccurredAt key then s :: shift key rest else key :: sorted_rev
  | [] => [key]
  end.
Definition sortStoriesDesc (l : list Story) : list Story := rev (foldl (fun acc key => shift key acc) [] l).

(** ** Filters of the service *)

Record StoriesFilter := mkStoriesFilter {
  InterestingOnly : bool; InterestingCategory : string; EntityId : string; EntityIds : list string;
}.

Definition matchesStoriesFilter (s : Story) (filter : option StoriesFilter) : bool :=
  match filter with
  | None => true
  | Some f =>
      if InterestingOnly f && negb (nonempty (st_Tags s)) then false
      else if negb (is_empty (InterestingCategory f)) && negb (existsb (fun t => String.eqb (tg_Category t) (InterestingCategory f)) (st_Tags s)) then false
      else if (negb (is_empty (EntityId f)) || nonempty (EntityIds f)) &&
              negb (existsb (fun sid => (negb (is_empty (EntityId f)) && String.eqb sid (EntityId f)) || contains_eq (EntityIds f) sid) (st_EntityIDs s)) then false
      else true
  end.

Definition maxPageSize : nat := 200.

Record EventRecord := mkEventRecord {
  er_EventId : string; er_CorrelationId : string; er_Kind : string; er_Entity : string; er_Source : string;
  er_Sequence : Z; er_OccurredAt : Z; er_CausationId : string; er_PayloadJson : string; er_Tags : list Tag;
}.

(** A page: the first items, at most [maxPageSize]. *)
Definition page_of {A} (l : list A) : list A := take maxPageSize l.

Section Feed.
(** [uuid.UUID.String], [protojson.Marshal]. *)
Context (uuid_String : Z -> string) (payload_json : Payload -> option string).
(** The order in which Go ranges over a set of entities and over the groups. *)
Context (range_entities : gset string -> list string) (range_groups : gset Z -> list Z).
Context {T : Type} (unmarshal : string -> result string Payload).
Implicit Type d : DB T.

Definition entity_set (events : list Event) : gset string :=
  list_to_set (filter (fun x => x <> "") (Entity <$> events)).

Definition FromEvents (events : list Event) (tags : list Tag) : Story :=
  match events with
  | [] => Story_zero
  | e :: rest =>
      let i := initiating e rest in
      let entities := range_entities (entity_set events) in
      mkStory (uuid_String (CorrelationID i)) (deriveTitle i entities) ((fun e => eventPositionToID (Position e)) <$> events)
        (Timestamp i) tags (Source i) entities
  end.

Definition window (since until : Z) (kind : string) : QueryOptions :=
  mkQueryOptions 0 0 (mkFilter (if is_empty kind then [] else [kind]) [] [] [] since until) 0.

Definition QueryEvents (since until : Z) (kind : string) d : result string (list Event) :=
  Query unmarshal (window since until kind) d.

(** The story of one group. *)
Definition build_story (groups : gmap Z (list Event)) (tagged : gmap Z (list Tag)) (c : Z) : Story :=
  let events := default [] (groups !! c) in
  FromEvents events (events ≫= fun e => default [] (tagged !! Position e)).

Definition CoalesceWindow (since until : Z) d : result string (list Story) :=
  match QueryEvents since until "" d with
  | Err msg => Err msg
  | Ok events =>
      let '(groups, tagged) := foldl split_event (∅, ∅) events in
      Ok (sortStoriesDesc (filter (fun s => st_ID s <> "") (build_story groups tagged <$> range_groups (dom groups))))
  end.

(** ** The service *)

(** [filterWindow] with the clock. *)
Definition filterWindow (now : Z) (since until : option Z) : Z * Z :=
  (default (now - 24 * 3600 * Second) since, default zero_time until).

Definition storiesLive (now : Z) (since until : option Z) (f : option StoriesFilter) d : result string (list Story) :=
  let '(s, u) := filterWindow now since until in
  match CoalesceWindow s u d with
  | Err msg => Err ("coalesce: " +:+ msg)
  | Ok l => Ok (page_of (filter (fun x => matchesStoriesFilter x f = true) l))
  end.

Definition buildTagIndex (events : list Event) : gmap Z (list Tag) :=
  foldl (fun m e => if is_tagged e then match tag_of e with Some t => add_to (CausePosition e) t m | None => m end else m) ∅ events.

(** [eventToProtoWithPayload]. *)
Definition eventToProto (e : Event) (tags : list Tag) : EventRecord :=
  mkEventRecord (pretty (Z.to_N (Position e))) (uuid_String (CorrelationID e)) (Kind e) (Entity e) (Source e) (Position e)
    (Timestamp e) (if CausePosition e >? 0 then pretty (Z.to_N (CausePosition e)) else "")
    (match PayloadPtr e with Some p => default "" (payload_json p) | None => "" end) tags.

Definition eventsLive (now : Z) (since until : option Z) (kind : string) d : result string (list EventRecord) :=
  let '(s, u) := filterWindow now since until in
  match QueryEvents s u kind d with
  | Err msg => Err ("events query: " +:+ msg)
  | Ok events =>
      match (if is_empty kind then Ok events else QueryEvents s u "" d) with
      | Err msg => Err ("tag query: " +:+ msg)
      | Ok all =>
          let index := buildTagIndex all in
          Ok (page_of ((fun e => eventToProto e (default [] (index !! Position e))) <$> filter (fun e => is_tagged e = false) events))
      end
  end.

(** *** One event *)

Inductive detail_error := InvalidEventId | QueryFailed (msg : string) | EventNotFound (pos : Z).

Definition fetchEventAtPosition (pos : Z) d : result detail_error Event :=
  match Query unmarshal (mkQueryOptions (pos - 1) pos Filter_zero 1) d with
  | Err msg => Err (QueryFailed msg)
  | Ok (e :: _) => if Position e =? pos then Ok e else Err (EventNotFound pos)
  | Ok [] => Err (EventNotFound pos)
  end.

Definition maxChain : nat := 32.

(** The loop over the causes, newest first. *)
Fixpoint walk_chain (fuel : nat) (seen : gset Z) (cur : Z) d : list Event :=
  match fuel with
  | O => []
  | S fuel =>
      if (cur =? 0) || bool_decide (cur ∈ seen) then []
      else match fetchEventAtPosition cur d with
      | Err _ => []
      | Ok ancestor => ancestor :: walk_chain fuel ({[cur]} ∪ seen) (CausePosition ancestor) d
      end
  end.

(** The event and its causes, oldest first. *)
Definition eventDetailLive (event_id : string) d : result detail_error (Event * list Event) :=
  match ParseUint event_id with
  | None => Err InvalidEventId
  | Some pos =>
      if pos =? 0 then Err InvalidEventId
      else match fetchEventAtPosition pos d with
      | Err err => Err err
      | Ok e => Ok (e, rev (walk_chain maxChain {[pos]} (CausePosition e) d))
      end
  end.

End Feed.

(** ** Numbers *)

Lemma rune0_pretty (n : N) : (n < 10)%N -> rune0 (Z.of_N n) = String (pretty_N_char n) "".
Proof.
  intros Hn. unfold rune0. rewrite N2Z.id. f_equal.
  assert (n ∈ [0; 1; 2; 3; 4; 5; 6; 7; 8; 9]%N) as Hin by (rewrite !elem_of_cons; lia).
  repeat (apply elem_of_cons in Hin as [-> |Hin]; [done|]). by apply not_elem_of_nil in Hin.
Qed.

Lemma id_loop_pretty fuel (n : N) s : (n < 10 ^ N.of_nat fuel)%N -> id_loop fuel (Z.of_N n) s = pretty_N_go n s.
Proof.
  revert n s. induction fuel as [|fuel IH]; intros n s Hn.
  - change (10 ^ N.of_nat 0)%N with 1%N in Hn. assert (n = 0%N) as -> by lia. by rewrite pretty_N_go_0.
  - cbn [id_loop]. destruct (Z.gtb_spec (Z.of_N n) 0) as [Hp|Hp].
    + rewrite pretty_N_go_step by lia. rewrite <- IH.
      * change 10 with (Z.of_N 10). rewrite <- N2Z.inj_mod, <- N2Z.inj_div. rewrite rune0_pretty by (apply N.mod_lt; lia). done.
      * rewrite Nat2N.inj_succ, N.pow_succ_r' in Hn. apply N.Div0.div_lt_upper_bound; lia.
    + assert (n = 0%N) as -> by lia. by rewrite pretty_N_go_0.
Qed.

(** The ids of the stories are the decimal texts of the positions. *)
Lemma eventPositionToID_pretty pos : 0 <= pos < 2 ^ 64 -> eventPositionToID pos = pretty (Z.to_N pos).
Proof.
  intros Hp. unfold eventPositionToID. destruct (Z.eqb_spec pos 0) as [->|Hne]; [done|].
  rewrite <- (Z2N.id pos) at 1 by lia. rewrite id_loop_pretty by (change (10 ^ N.of_nat 20)%N with 100000000000000000000%N; lia).
  unfold pretty, pretty_N. by rewrite decide_False by lia.
Qed.

(** ** Grouping *)

(** The events of a correlation id, and the tags put on a position. *)
Definition grouped (c : Z) (evs : list Event) : list Event := filter (fun e => is_tagged e = false /\ CorrelationID e = c) evs.
Definition tags_at (p : Z) (evs : list Event) : list Tag :=
  omap (fun e => if is_tagged e && bool_decide (CausePosition e = p) then tag_of e else None) evs.

Lemma add_to_lookup {V} k (v : V) m i : default [] (add_to k v m !! i) = default [] (m !! i) ++ (if decide (k = i) then [v] else []).
Proof.
  unfold add_to. destruct (decide (k = i)) as [->|Hne]; [by rewrite lookup_insert_eq|]. by rewrite lookup_insert_ne, app_nil_r.
Qed.

Lemma tags_at_snoc p evs e :
  tags_at p (evs ++ [e]) = tags_at p evs ++ (if is_tagged e && bool_decide (CausePosition e = p) then option_list (tag_of e) else []).
Proof. unfold tags_at. rewrite omap_app. f_equal. cbn. by destruct (_ && _); [destruct (tag_of e)|]. Qed.

Lemma grouped_snoc c evs e :
  grouped c (evs ++ [e]) = grouped c evs ++ (if is_tagged e then [] else if decide (CorrelationID e = c) then [e] else []).
Proof.
  unfold grouped. rewrite filter_app, filter_cons, filter_nil. f_equal. destruct (is_tagged e).
  - by rewrite decide_False by naive_solver.
  - by destruct (decide (CorrelationID e = c)); [rewrite decide_True|rewrite decide_False by naive_solver].
Qed.

Lemma split_spec evs groups tagged :
  foldl split_event (∅, ∅) evs = (groups, tagged) ->
  (forall c, default [] (groups !! c) = grouped c evs) /\
  dom groups = list_to_set (CorrelationID <$> filter (fun e => is_tagged e = false) evs) /\
  (forall p, default [] (tagged !! p) = tags_at p evs).
Proof.
  revert groups tagged. induction evs as [|e evs IH] using rev_ind; intros groups tagged.
  - intros [= <- <-]. split_and!; [intros c; by rewrite lookup_empty | set_solver | intros p; by rewrite lookup_empty].
  - rewrite foldl_app. destruct (foldl split_event (∅, ∅) evs) as [g t] eqn:Hf. cbn [foldl split_event].
    destruct (IH g t eq_refl) as (Hg & Hd & Ht). clear IH. rewrite filter_app, filter_cons, filter_nil.
    setoid_rewrite grouped_snoc. setoid_rewrite tags_at_snoc. destruct (is_tagged e) eqn:He.
    + intros [= <- <-]. split_and!.
      * intros c. rewrite app_nil_r. apply Hg.
      * rewrite decide_False by done. by rewrite app_nil_r.
      * intros p. cbn [andb]. destruct (tag_of e) as [x|]; cbn [option_list].
        -- rewrite add_to_lookup, Ht. f_equal. case_decide; [by rewrite bool_decide_true|by rewrite bool_decide_false].
        -- rewrite Ht. case_match; by rewrite app_nil_r.
    + intros [= <- <-]. split_and!.
      * intros c. by rewrite add_to_lookup, Hg.
      * rewrite decide_True by done. unfold add_to. rewrite dom_insert_L, Hd, fmap_app, list_to_set_app_L. cbn. set_solver.
      * intros p. cbn [andb]. by rewrite app_nil_r.
Qed.

(** ** Sorting *)

Definition newer (a b : Story) : Prop := st_OccurredAt b <= st_OccurredAt a.

Lemma shift_spec key l : StronglySorted (flip newer) l ->
  shift key l ≡ₚ key :: l /\ StronglySorted (flip newer) (shift key l).
Proof.
  induction l as [|s l IH]; intros Hs; [split; [done|by repeat constructor]|]. cbn [shift].
  apply StronglySorted_inv in Hs as [Hs Hf]. destruct (Z.ltb_spec (st_OccurredAt s) (st_OccurredAt key)) as [Hlt|Hge].
  - destruct (IH Hs) as [Hp Hss]. split; [rewrite Hp; apply Permutation_swap|]. constructor; [done|].
    rewrite Hp. constructor; [unfold flip, newer; lia|done].
  - split; [done|]. constructor; [by constructor|]. constructor; [unfold flip, newer; lia|].
    eapply Forall_impl; [exact Hf|]. unfold flip, newer. intros x Hx. lia.
Qed.

Lemma sorted_rev l : StronglySorted (flip newer) l -> StronglySorted newer (rev l).
Proof.
  induction l as [|s l IH]; intros Hs; [constructor|]. apply StronglySorted_inv in Hs as [Hs Hf]. cbn [rev].
  apply StronglySorted_app. split_and!; [|by apply IH|by repeat constructor].
  intros x y Hx%list_elem_of_In Hy%list_elem_of_singleton. subst. apply in_rev, list_elem_of_In in Hx.
  rewrite Forall_forall in Hf. by apply Hf.
Qed.

Lemma sortStoriesDesc_spec l : sortStoriesDesc l ≡ₚ l /\ StronglySorted newer (sortStoriesDesc l).
Proof.
  unfold sortStoriesDesc. assert (H : forall acc, StronglySorted (flip newer) acc ->
    foldl (fun acc key => shift key acc) acc l ≡ₚ acc ++ l /\ StronglySorted (flip newer) (foldl (fun acc key => shift key acc) acc l)).
  { induction l as [|s l IH]; intros acc Ha; [by rewrite app_nil_r|]. cbn [foldl]. destruct (shift_spec s acc Ha) as [Hp Hs].
    destruct (IH _ Hs) as [Hp' Hs']. split; [|done]. rewrite Hp', Hp. cbn. apply Permutation_middle. }
  destruct (H [] ltac:(constructor)) as [Hp Hs]. split; [rewrite <- Permutation_rev; exact Hp|by apply sorted_rev].
Qed.

Section FeedFacts.
Context (uuid_String : Z -> string) (payload_json : Payload -> option string).
Context (range_entities : gset string -> list string) (range_groups : gset Z -> list Z).
Context {T : Type} (unmarshal : string -> result string Payload).
Context (uuid_nonempty : forall c, uuid_String c <> "") (range_ok : forall X, range_groups X ≡ₚ elements X).
Implicit Type d : DB T.

(** What a query of the feed reads: the matching events among the first thousand
    of the log. *)
Definition visible (since until : Z) (kind : string) (evs : list Event) : list Event :=
  filter (fun e => Matches (QFilter (window since until kind)) e = true) (take 1000 evs).

(** The story of a correlation id. *)
Definition story_of (evs : list Event) (c : Z) : Story :=
  FromEvents uuid_String range_entities (grouped c evs) (grouped c evs ≫= fun e => tags_at (Position e) evs).

Section Log.
Context d evs (Hlog : log_ok d) (Hevs : mapM (scanEvent unmarshal) (events d) = Ok evs).

Lemma QueryEvents_visible since until kind : QueryEvents unmarshal since until kind d = Ok (visible since until kind evs).
Proof. unfold QueryEvents. rewrite (Query_slice _ d evs) by (done || cbn; lia || by left). cbn. done. Qed.

Lemma group_nonempty c l : c ∈ (list_to_set (CorrelationID <$> filter (fun e => is_tagged e = false) l) : gset Z) <-> grouped c l <> [].
Proof.
  rewrite elem_of_list_to_set, list_elem_of_fmap. split.
  - intros (e & -> & [He Hin]%list_elem_of_filter) Hn. apply not_elem_of_nil with e. rewrite <- Hn. by apply list_elem_of_filter.
  - destruct (grouped c l) as [|e rest] eqn:Hg; [done|]. intros _. exists e.
    assert (e ∈ grouped c l) as [[He Hc] Hin]%list_elem_of_filter by (rewrite Hg; by left). split; [done|]. by apply list_elem_of_filter.
Qed.

Lemma initiating_elem e rest : initiating e rest ∈ e :: rest.
Proof.
  unfold initiating. assert (H : forall i, i ∈ e :: rest -> foldl (fun i e => if Position e <? Position i then e else i) i rest ∈ e :: rest).
  { assert (Hin : forall x, x ∈ rest -> x ∈ e :: rest) by (intros; by right). revert Hin. generalize (e :: rest) as all. intros all.
    induction rest as [|x rest IH]; intros Hin i Hi; [done|]. cbn [foldl]. apply IH; [intros; apply Hin; by right|].
    case_match; [apply Hin; by left|done]. }
  apply H. by left.
Qed.

Lemma story_of_ID l c : grouped c l <> [] -> st_ID (story_of l c) = uuid_String c.
Proof.
  intros Hg. unfold story_of. destruct (grouped c l) as [|e rest] eqn:He; [done|]. cbn.
  pose proof (initiating_elem e rest) as Hi. rewrite <- He in Hi. by apply list_elem_of_filter in Hi as [[_ ->] _].
Qed.

Lemma coalesced since until :
  let shown := visible since until "" evs in
  let ids := list_to_set (CorrelationID <$> filter (fun e => is_tagged e = false) shown) : gset Z in
  exists l, CoalesceWindow uuid_String range_entities range_groups unmarshal since until d = Ok l /\
  l ≡ₚ story_of shown <$> elements ids /\ StronglySorted newer l /\
  (forall c, c ∈ ids -> st_ID (story_of shown c) = uuid_String c /\
     st_InnerEventIDs (story_of shown c) = (fun e => eventPositionToID (Position e)) <$> grouped c shown /\
     st_Tags (story_of shown c) = (grouped c shown ≫= fun e => tags_at (Position e) shown)).
Proof.
  intros shown ids. unfold CoalesceWindow. rewrite QueryEvents_visible. fold shown.
  destruct (foldl split_event (∅, ∅) shown) as [groups tagged] eqn:Hf. destruct (split_spec _ _ _ Hf) as (Hg & Hd & Ht).
  assert (Hb : forall c, build_story uuid_String range_entities groups tagged c = story_of shown c).
  { intros c. unfold build_story, story_of. rewrite Hg. f_equal. apply list_bind_ext; [|done]. intros e. apply Ht. }
  eexists. split; [reflexivity|]. destruct (sortStoriesDesc_spec (filter (fun s => st_ID s <> "")
    (build_story uuid_String range_entities groups tagged <$> range_groups (dom groups)))) as [Hp Hs]. split_and!; [|exact Hs|].
  - rewrite Hp, list_filter_all.
    + rewrite (list_fmap_ext _ (story_of shown)) by (intros; apply Hb). rewrite range_ok, Hd. done.
    + intros s (c & -> & Hc)%list_elem_of_fmap. rewrite Hb. rewrite range_ok, elem_of_elements, Hd in Hc.
      apply group_nonempty in Hc. rewrite story_of_ID by done. apply uuid_nonempty.
  - intros c Hc%group_nonempty. split; [by apply story_of_ID|]. unfold story_of. by destruct (grouped c shown).
Qed.

(** The stories of a time window are exact, whatever order Go ranges over the
    groups in: over the events that the window shows there is one story for each
    correlation id of an event that is not a tag, no other and none twice; it has
    that id, the events of the id in the order of the log and exactly the tags put
    on them; and newer stories come first. *)
Theorem coalesce_exact since until :
  let shown := visible since until "" evs in
  let ids := list_to_set (CorrelationID <$> filter (fun e => is_tagged e = false) shown) : gset Z in
  exists l, CoalesceWindow uuid_String range_entities range_groups unmarshal since until d = Ok l /\
  l ≡ₚ story_of shown <$> elements ids /\ StronglySorted newer l /\
  (forall c, c ∈ ids -> st_ID (story_of shown c) = uuid_String c /\
     st_InnerEventIDs (story_of shown c) = (fun e => eventPositionToID (Position e)) <$> grouped c shown /\
     st_Tags (story_of shown c) = (grouped c shown ≫= fun e => tags_at (Position e) shown)).
Proof. apply coalesced. Qed.

(** ** Events *)

Lemma filter_all_zero (l : list Event) : filter (fun e => Matches Filter_zero e = true) l = l.
Proof. apply list_filter_all. intros e _. apply Matches_zero. Qed.

Lemma fetch_log (Hlt : events_seq d < 2 ^ 63) pos :
  0 < pos -> fetchEventAtPosition unmarshal pos d =
    match evs !! Z.to_nat (pos - 1) with Some e => Ok e | None => Err (EventNotFound pos) end.
Proof.
  intros Hpos. unfold fetchEventAtPosition. rewrite (Query_slice unmarshal d evs) by (done || cbn; lia).
  cbn [FromPosition ToPosition QFilter Limit]. rewrite filter_all_zero. destruct (Z.eqb_spec pos 0); [lia|].
  change (Z.to_nat (page_size 1)) with 1%nat. replace (Z.to_nat (pos - (pos - 1))) with 1%nat by lia. rewrite take_take.
  rewrite <- (Nat.add_0_r (Z.to_nat (pos - 1))) at 2. rewrite <- lookup_drop.
  destruct (drop (Z.to_nat (pos - 1)) evs) as [|e rest] eqn:Hd; [done|]. cbn.
  assert (He : evs !! Z.to_nat (pos - 1) = Some e) by (by rewrite <- (Nat.add_0_r (Z.to_nat (pos - 1))), <- lookup_drop, Hd).
  rewrite (scan_positions unmarshal d evs _ _ Hlog Hlt Hevs He). destruct (Z.eqb_spec (Z.of_nat (Z.to_nat (pos - 1)) + 1) pos); [done|lia].
Qed.

Lemma walk_chain_path (Hlt : events_seq d < 2 ^ 63) (Hc : causes_earlier evs) p l :
  cause_path evs p l -> forall fuel seen, (forall v, v ∈ seen -> p < v) -> walk_chain unmarshal fuel seen p d = take fuel (rev l).
Proof.
  intros Hp. induction Hp as [p e He Hp H0 | p e l He Hp H0 Hpath IH]; intros [|fuel] seen Hv; try done; cbn [walk_chain].
  all: rewrite (bool_decide_false (p ∈ seen)) by (intros ?%Hv; lia).
  all: destruct (Z.eqb_spec p 0); [lia|]; cbn [orb]; rewrite fetch_log, He by (done || lia).
  - rewrite H0. cbn. rewrite take_nil. by destruct fuel.
  - rewrite rev_app_distr. cbn. f_equal. apply IH. pose proof (Hc _ _ He).
    intros v [->%elem_of_singleton|Hin%Hv]%elem_of_union; lia.
Qed.

Lemma open_position (Hlt : events_seq d < 2 ^ 63) i e :
  evs !! i = Some e ->
  0 < Position e < 2 ^ 64 /\ Position e = Z.of_nat i + 1 /\
  exists chain, eventDetailLive unmarshal (eventPositionToID (Position e)) d = Ok (e, chain) /\
    chain = rev (walk_chain unmarshal maxChain {[Position e]} (CausePosition e) d).
Proof.
  intros He. pose proof (scan_positions unmarshal d evs _ _ Hlog Hlt Hevs He) as Hpos.
  assert (Hi : Z.of_nat i < 2 ^ 63).
  { destruct Hlog as [_ Hs]. apply lookup_lt_Some in He. rewrite (result_mapM_length _ _ _ Hevs) in He. lia. }
  split_and!; [lia..|]. eexists. split; [|reflexivity].
  unfold eventDetailLive. rewrite eventPositionToID_pretty, ParseUint_pretty by (unfold max_u64; lia).
  destruct (Z.eqb_spec (Position e) 0); [lia|]. rewrite fetch_log by (done || lia).
  replace (Z.to_nat (Position e - 1)) with i by lia. by rewrite He.
Qed.

(** Every event of a story can be opened: the ids that a story lists are those
    under which the details of its events are found, and each of these events has
    the story's correlation id. *)
Theorem story_events_open since until l s id :
  events_seq d < 2 ^ 63 ->
  CoalesceWindow uuid_String range_entities range_groups unmarshal since until d = Ok l -> s ∈ l -> id ∈ st_InnerEventIDs s ->
  exists e chain, eventDetailLive unmarshal id d = Ok (e, chain) /\ eventPositionToID (Position e) = id /\
    is_tagged e = false /\ uuid_String (CorrelationID e) = st_ID s.
Proof.
  intros Hlt Hl Hs Hid. destruct (coalesced since until) as (l' & Hl' & Hp & _ & Hst). rewrite Hl in Hl'. injection Hl' as <-.
  rewrite Hp in Hs. apply list_elem_of_fmap in Hs as (c & -> & Hc%elem_of_elements). destruct (Hst c Hc) as (Hu & Hi & _).
  rewrite Hi in Hid. apply list_elem_of_fmap in Hid as (e & -> & [[Ht He] Hin]%list_elem_of_filter).
  unfold visible in Hin. apply list_elem_of_filter in Hin as [_ (i & Hlook & _)%elem_of_take]. destruct (open_position Hlt i e Hlook) as (_ & _ & chain & Hd & _).
  exists e, chain. split_and!; [done..|]. by rewrite Hu, He.
Qed.

(** The causes shown with an event are the nearest 32 of the path from its root
    cause to it, oldest first. *)
Theorem detail_chain i e :
  events_seq d < 2 ^ 63 -> causes_earlier evs -> evs !! i = Some e ->
  exists causes, cause_path evs (Position e) (causes ++ [e]) /\
    eventDetailLive unmarshal (eventPositionToID (Position e)) d = Ok (e, drop (length causes - 32) causes).
Proof.
  intros Hlt Hc He. destruct (open_position Hlt i e He) as (Hb & Hpos & chain & Hd & ->). pose proof (Hc _ _ He) as Hce.
  assert (He' : evs !! Z.to_nat (Position e - 1) = Some e) by (replace (Z.to_nat (Position e - 1)) with i by lia; done).
  destruct (Z.eqb_spec (CausePosition e) 0) as [H0|H0].
  - exists []. split; [by apply path_root; [|lia|]|]. rewrite Hd, H0. done.
  - destruct (cause_path_exists evs Hc (CausePosition e)) as [l Hl]; [apply lookup_lt_Some in He; lia|].
    exists l. split; [by apply path_step; [|lia|lia|]|]. rewrite Hd. do 2 f_equal.
    rewrite (walk_chain_path Hlt Hc _ l Hl) by (intros v ->%elem_of_singleton; lia). by rewrite firstn_rev, rev_involutive.
Qed.

End Log.

(** The feed stops: a window is read from the first thousand events of the log,
    whatever its times, so that once a log has a thousand events nothing appended
    later ever shows up in the stories or the events of any window. *)
Theorem feed_frozen d d' evs more now since until kind f :
  log_ok d -> mapM (scanEvent unmarshal) (events d) = Ok evs ->
  log_ok d' -> mapM (scanEvent unmarshal) (events d') = Ok (evs ++ more) -> (1000 <= length evs)%nat ->
  storiesLive uuid_String range_entities range_groups unmarshal now since until f d' =
    storiesLive uuid_String range_entities range_groups unmarshal now since until f d /\
  eventsLive uuid_String payload_json unmarshal now since until kind d' =
    eventsLive uuid_String payload_json unmarshal now since until kind d.
Proof.
  intros Hlog Hevs Hlog' Hevs' Hlen.
  assert (Hq : forall s u k, QueryEvents unmarshal s u k d' = QueryEvents unmarshal s u k d).
  { intros s u k. rewrite (QueryEvents_visible d evs), (QueryEvents_visible d' (evs ++ more)) by done.
    unfold visible. by rewrite take_app_le by lia. }
  unfold storiesLive, eventsLive, CoalesceWindow. destruct (filterWindow now since until) as [s u]. by rewrite !Hq.
Qed.

End FeedFacts.

(** ** On a log of three events *)

Module StoriesDemo.

Definition uuid_text (c : Z) : string := "u" +:+ pretty c.
Definition no_json (_ : Payload) : option string := None.
Definition entities_of (X : gset string) : list string := elements X.
Definition groups_of (X : gset Z) : list Z := elements X.

Definition unmarshal (b : string) : result string Payload :=
  if String.eqb b "tag"
  then Ok (Some (Payload_System "interestingness.tagged" {["category" := "novelty"; "name" := "first_seen_entity"]}))
  else Ok None.

(** Two correlated events of a lamp, and a tag on the first. *)
Definition row (p ts : Z) (kind : string) (entity : option string) (corr : Z) (cause : option Z) (payload : string) : EventRow :=
  mkEventRow p ts kind entity "driver" (Some corr) cause payload.
Definition d : DB unit :=
  mkDB [row 1 10 "state_changed" (Some "lamp") 7 None ""; row 2 20 "command_issued" (Some "lamp") 7 (Some 1) "";
        row 3 30 "interestingness.tagged" None 7 (Some 1) "tag"] 3 ∅ [] ∅ ∅ ().
Definition evs : list Event := match mapM (scanEvent unmarshal) (events d) with Ok l => l | Err _ => [] end.

Lemma d_ok : log_ok d.
Proof. split; [cbn; auto|done]. Qed.

Definition the_story : Story :=
  mkStory "u7" "State changed — lamp" ["1"; "2"] 10 [mkTag "novelty" "first_seen_entity" ""] "driver" ["lamp"].

Lemma coalesce_exact_witness :
  CoalesceWindow uuid_text entities_of groups_of unmarshal zero_time zero_time d = Ok [the_story] /\
  exists l, CoalesceWindow uuid_text entities_of groups_of unmarshal zero_time zero_time d = Ok l /\ StronglySorted newer l.
Proof.
  split; [vm_compute; reflexivity|].
  destruct (coalesce_exact uuid_text entities_of groups_of unmarshal (fun c => ltac:(done)) (fun X => reflexivity _) d evs
    d_ok ltac:(vm_compute; reflexivity) zero_time zero_time) as (l & Hl & _ & Hs & _).
  by exists l.
Defined.

Lemma story_events_open_witness :
  exists e chain, eventDetailLive unmarshal "2" d = Ok (e, chain) /\ eventPositionToID (Position e) = "2" /\
    is_tagged e = false /\ uuid_text (CorrelationID e) = "u7".
Proof.
  apply (story_events_open uuid_text entities_of groups_of unmarshal (fun c => ltac:(done)) (fun X => reflexivity _) d evs
    d_ok ltac:(vm_compute; reflexivity) zero_time zero_time [the_story] the_story "2");
    [by vm_compute | vm_compute; reflexivity | by left | right; by left].
Defined.

Definition second : Event := mkEvent 2 20 "command_issued" "lamp" "driver" 7 1 (Some None).

Lemma detail_chain_witness :
  exists causes, cause_path evs 2 (causes ++ [second]) /\
    eventDetailLive unmarshal "2" d = Ok (second, drop (length causes - 32) causes).
Proof.
  apply (detail_chain unmarshal d evs d_ok ltac:(vm_compute; reflexivity) 1 second);
    [by vm_compute | | vm_compute; reflexivity].
  intros [|[|[|i]]] e He; vm_compute in He; simplify_eq; cbn; lia.
Defined.

(** The event at position 1001 shows up nowhere. *)
Lemma feed_frozen_witness :
  storiesLive uuid_text entities_of groups_of TimeDemo.unmarshal 0 (Some zero_time) None None (TimeDemo.log TimeDemo.long 1001) =
    storiesLive uuid_text entities_of groups_of TimeDemo.unmarshal 0 (Some zero_time) None None (TimeDemo.log TimeDemo.long 1000) /\
  length (TimeDemo.decoded TimeDemo.long 1001) = 1001%nat.
Proof.
  split; [|by vm_compute].
  apply (feed_frozen uuid_text no_json entities_of groups_of TimeDemo.unmarshal
    (TimeDemo.log TimeDemo.long 1000) (TimeDemo.log TimeDemo.long 1001) (TimeDemo.decoded TimeDemo.long 1000)
    (drop 1000 (TimeDemo.decoded TimeDemo.long 1001)) 0 (Some zero_time) None "" None);
    [apply TimeDemo.log_is_ok | vm_compute; reflexivity | apply TimeDemo.log_is_ok | vm_compute; reflexivity | by vm_compute; lia].
Defined.

End StoriesDemo.
