(* ===== verification/Interestingness.v ===== *)
(** * The interestingness detectors

    Models [internal/interestingness]: the seven detectors with their memory, and
    the pipeline that feeds them every event and appends their findings to the log
    as events of kind [interestingness.tagged]. A finding is its category and
    name; the explanation texts are left out. [time.Time.Hour] (the local time
    zone) is a parameter, the order in which the detectors' goroutines finish an
    argument.

    [repeated_failures_exact], [fan_out_once], [first_seen_once], [slow_ack_exact]:
    when the detectors fire. [quiet_hours_feed_themselves]: the pipeline examines
    its own findings. *)

From S2P Require Import Prelude Events EventStore.

Inductive Category := CategoryPerformance | CategoryAnomaly | CategoryCausation | CategoryFailure | CategorySecurity
  | CategoryConfiguration | CategoryNovelty.

Definition category_text (c : Category) : string :=
  match c with
  | CategoryPerformance => "performance" | CategoryAnomaly => "anomaly" | CategoryCausation => "causation"
  | CategoryFailure => "failure" | CategorySecurity => "security" | CategoryConfiguration => "configuration"
  | CategoryNovelty => "novelty"
  end.

Record Finding := mkFinding { fi_Category : Category; fi_Name : string }.

(** [Time.Sub]: a duration is a saturating [int64]. *)
Definition max_duration : Z := 2 ^ 63 - 1.
Definition time_Sub (t u : Z) : Z := Z.max (- 2 ^ 63) (Z.min max_duration (t - u)).

(** ** Performance *)

Record PerformanceConfig := mkPerformanceConfig { SLOThreshold : Z }.
Definition DefaultSLOThreshold : Z := 2 * Second.

(** [inflight], by correlation id. *)
Definition examine_performance (cfg : PerformanceConfig) (inflight : gmap Z Z) (e : Event) : gmap Z Z * list Finding :=
  if contains_eq ["cmd.issued"; "command.issued"] (Kind e) then (<[CorrelationID e := Timestamp e]> inflight, [])
  else if contains_eq ["cmd.ack"; "command.ack"] (Kind e) then
    match inflight !! CorrelationID e with
    | Some issuedAt =>
        (delete (CorrelationID e) inflight,
         if negb (IsZero issuedAt) && (time_Sub (Timestamp e) issuedAt >? SLOThreshold cfg)
         then [mkFinding CategoryPerformance "slow_ack"] else [])
    | None => (inflight, [])
    end
  else if contains_eq ["cmd.timeout"; "command.timeout"] (Kind e) then (inflight, [mkFinding CategoryPerformance "timeout"])
  else (inflight, []).

(** ** Anomaly *)

Record entityWindow := mkWindow { w_seen : Z; w_lastSeen : Z }.
Definition DefaultDormancyThreshold : Z := 24 * Hour.

Definition examine_anomaly (threshold : Z) (windows : gmap string entityWindow) (e : Event) :
    gmap string entityWindow * list Finding :=
  if is_empty (Entity e) then (windows, [])
  else
    let w := default (mkWindow 0 zero_time) (windows !! Entity e) in
    let dormant := match windows !! Entity e with
                   | Some w => (w_seen w >? 0) && negb (IsZero (w_lastSeen w)) && (time_Sub (Timestamp e) (w_lastSeen w) >? threshold)
                   | None => false
                   end in
    (<[Entity e := mkWindow (w_seen w + 1) (Timestamp e)]> windows,
     if dormant then [mkFinding CategoryAnomaly "dormant_entity_reappeared"] else []).

(** ** Causation *)

Definition DefaultFanOutThreshold : Z := 10.
Record correlationWindow := mkCorrelation { c_count : Z; c_fired : bool }.

Definition examine_causation (threshold : Z) (windows : gmap Z correlationWindow) (e : Event) :
    gmap Z correlationWindow * list Finding :=
  let tags := if String.eqb (Kind e) "automation.triggered" then [mkFinding CategoryCausation "automation_triggered"] else [] in
  if CorrelationID e =? uuid_Nil then (windows, tags)
  else
    let w := default (mkCorrelation 0 false) (windows !! CorrelationID e) in
    let count := c_count w + 1 in
    let fires := (threshold <=? count) && negb (c_fired w) in
    (<[CorrelationID e := mkCorrelation count (c_fired w || fires)]> windows,
     tags ++ if fires then [mkFinding CategoryCausation "high_fan_out"] else []).

(** ** Failure and configuration *)

Definition failureKinds : string_map :=
  list_to_map [("cmd.failed", "command_failed"); ("command.failed", "command_failed");
               ("driver.disconnected", "driver_disconnected"); ("auth.failed", "auth_failed"); ("policy.denied", "policy_denied")].
Definition configKinds : string_map :=
  list_to_map [("config.applied", "config_applied"); ("driver.restarted", "driver_restarted");
               ("automation.deployed", "automation_deployed"); ("widgetpack.installed", "widgetpack_installed")].

Definition examine_failure (e : Event) : list Finding :=
  match failureKinds !! Kind e with Some name => [mkFinding CategoryFailure name] | None => [] end.
Definition examine_configuration (e : Event) : list Finding :=
  match configKinds !! Kind e with Some name => [mkFinding CategoryConfiguration name] | None => [] end.

(** ** Security *)

Record SecurityConfig := mkSecurityConfig {
  RepeatedAuthFailedThreshold : Z; AuthFailedWindow : Z; QuietHoursStart : Z; QuietHoursEnd : Z;
}.

(** [withDefaults]: 3 failures in 5 minutes, quiet from 22 to 6. *)
Definition security_defaults (c : SecurityConfig) : SecurityConfig :=
  let quiet := (QuietHoursStart c =? 0) && (QuietHoursEnd c =? 0) in
  mkSecurityConfig
    (if RepeatedAuthFailedThreshold c =? 0 then 3 else RepeatedAuthFailedThreshold c)
    (if AuthFailedWindow c =? 0 then 5 * Minute else AuthFailedWindow c)
    (if quiet then 22 else QuietHoursStart c) (if quiet then 6 else QuietHoursEnd c).

Definition quiet (c : SecurityConfig) (hour : Z) : bool :=
  if QuietHoursStart c <? QuietHoursEnd c then (QuietHoursStart c <=? hour) && (hour <? QuietHoursEnd c)
  else (QuietHoursStart c <=? hour) || (hour <? QuietHoursEnd c).

Definition source_of (e : Event) : string := if is_empty (Source e) then "unknown" else Source e.

(** The failures kept for a source, and what the detector finds. *)
Definition examine_security (Hour_ : Z -> Z) (cfg : SecurityConfig) (authFail : gmap string (list Z)) (e : Event) :
    gmap string (list Z) * list Finding :=
  let '(authFail', tags) :=
    if String.eqb (Kind e) "auth.failed" then
      let cutoff := Timestamp e - AuthFailedWindow cfg in
      let fresh := filter (fun t => cutoff < t) (default [] (authFail !! source_of e)) ++ [Timestamp e] in
      (<[source_of e := fresh]> authFail,
       if RepeatedAuthFailedThreshold cfg <=? Z.of_nat (length fresh) then [mkFinding CategorySecurity "repeated_auth_failed"] else [])
    else (authFail, []) in
  (authFail', tags ++ if negb (IsZero (Timestamp e)) && quiet cfg (Hour_ (Timestamp e))
                      then [mkFinding CategorySecurity "after_hours_activity"] else []).

(** ** Novelty *)

Definition DefaultRareCommandThreshold : Z := 14 * 24 * Hour.
Record noveltyMemory := mkNovelty { seenEntities : gset string; lastCommand : gmap string Z }.

Definition examine_novelty (threshold : Z) (m : noveltyMemory) (e : Event) : noveltyMemory * list Finding :=
  let first := negb (is_empty (Entity e)) && negb (bool_decide (Entity e ∈ seenEntities m)) in
  let seen := if first then {[Entity e]} ∪ seenEntities m else seenEntities m in
  let tags := if first then [mkFinding CategoryNovelty "first_seen_entity"] else [] in
  if contains_eq ["cmd.issued"; "command.issued"] (Kind e) then
    let key := Source e +:+ "/" +:+ Kind e in
    let rare := match lastCommand m !! key with
                | Some t => negb (IsZero t) && (time_Sub (Timestamp e) t >? threshold)
                | None => false
                end in
    (mkNovelty seen (<[key := Timestamp e]> (lastCommand m)), tags ++ if rare then [mkFinding CategoryNovelty "rare_command"] else [])
  else (mkNovelty seen (lastCommand m), tags).

(** ** The pipeline *)

(** The memory of the [DefaultDetectors]. *)
Record Detectors := mkDetectors {
  d_performance : gmap Z Z; d_anomaly : gmap string entityWindow; d_causation : gmap Z correlationWindow;
  d_security : gmap string (list Z); d_novelty : noveltyMemory;
}.
Definition Detectors_new : Detectors := mkDetectors ∅ ∅ ∅ ∅ (mkNovelty ∅ ∅).

Section Pipeline.
Context (Hour_ : Z -> Z).

Definition default_security : SecurityConfig := security_defaults (mkSecurityConfig 0 0 0 0).

(** Every detector examines the event: what each of them finds, in the order of
    [DefaultDetectors]. *)
Definition examine_all (m : Detectors) (e : Event) : Detectors * list (list Finding) :=
  let '(performance, f1) := examine_performance (mkPerformanceConfig DefaultSLOThreshold) (d_performance m) e in
  let '(anomaly, f2) := examine_anomaly DefaultDormancyThreshold (d_anomaly m) e in
  let '(causation, f3) := examine_causation DefaultFanOutThreshold (d_causation m) e in
  let '(security, f5) := examine_security Hour_ default_security (d_security m) e in
  let '(novelty, f7) := examine_novelty DefaultRareCommandThreshold (d_novelty m) e in
  (mkDetectors performance anomaly causation security novelty,
   [f1; f2; f3; examine_failure e; f5; examine_configuration e; f7]).

(** [appendTaggedEvent]: the event it appends. *)
Definition tagged_event (source : Event) (f : Finding) : Event :=
  mkEvent 0 zero_time "interestingness.tagged" "" ("interestingness/" +:+ category_text (fi_Category f))
    (CorrelationID source) (Position source)
    (Some (Some (Payload_System "interestingness.tagged"
      (list_to_map [("target_event_position", pretty (Z.to_N (Position source))); ("category", category_text (fi_Category f));
                    ("name", fi_Name f)])))).

(** [processEvent]: [order] is the order in which the detectors answer. *)
Definition processEvent (order : list (list Finding) -> list (list Finding)) (m : Detectors) (e : Event) : Detectors * list Event :=
  let '(m', found) := examine_all m e in (m', tagged_event e <$> concat (order found)).

(** The pipeline, the events its subscription has still to deliver, and the next
    position of the log. The subscription has no filter, so what is appended is
    delivered too. *)
Record Pipeline := mkPipeline { p_detectors : Detectors; p_queue : list Event; p_next : Z }.

(** [Store.Append] of the findings, at the time [now]; the fresh correlation id of
    an event without one is [fresh]. *)
Fixpoint append_all (now fresh next : Z) (evs : list Event) : list Event :=
  match evs with
  | [] => []
  | e :: rest => set_Position next (fill_defaults now fresh e) :: append_all now fresh (next + 1) rest
  end.

(** One turn of the loop of [Start]. *)
Definition pipeline_step (order : list (list Finding) -> list (list Finding)) (now fresh : Z) (p : Pipeline) : Pipeline :=
  match p_queue p with
  | [] => p
  | e :: rest =>
      let '(m', found) := processEvent order (p_detectors p) e in
      mkPipeline m' (rest ++ append_all now fresh (p_next p) found) (p_next p + Z.of_nat (length found))
  end.

End Pipeline.

(** ** When the detectors fire *)

(** The memory of a detector after a history of events. *)
Definition after {M} (examine : M -> Event -> M * list Finding) (m0 : M) (h : list Event) : M :=
  foldl (fun m e => (examine m e).1) m0 h.
Lemma after_snoc {M} (examine : M -> Event -> M * list Finding) m0 h e : after examine m0 (h ++ [e]) = (examine (after examine m0 h) e).1.
Proof. unfold after. by rewrite foldl_app. Qed.

(** *** Fan-out *)

Definition of_group (c : Z) (h : list Event) : Z := Z.of_nat (length (filter (fun e => CorrelationID e = c) h)).

Lemma of_group_snoc c h e : of_group c (h ++ [e]) = of_group c h + if decide (CorrelationID e = c) then 1 else 0.
Proof. unfold of_group. rewrite filter_app, filter_cons, filter_nil, length_app. case_decide; cbn; lia. Qed.

Lemma causation_memory threshold h c :
  c <> uuid_Nil -> 0 < threshold ->
  default (mkCorrelation 0 false) (after (examine_causation threshold) ∅ h !! c) = mkCorrelation (of_group c h) (threshold <=? of_group c h).
Proof.
  intros Hc Ht. induction h as [|e h IH] using rev_ind.
  - unfold after. cbn [foldl]. rewrite lookup_empty. change (of_group c []) with 0. by destruct (Z.leb_spec threshold 0); [lia|].
  - rewrite after_snoc, of_group_snoc. set (m := after _ _ h) in *. unfold examine_causation. destruct (Z.eqb_spec (CorrelationID e) uuid_Nil) as [He|He].
    + rewrite decide_False by congruence. by rewrite Z.add_0_r.
    + destruct (decide (CorrelationID e = c)) as [<-|Hne].
      * cbn [fst]. rewrite lookup_insert_eq, IH. cbn [default c_count c_fired]. cbn. f_equal.
        destruct (Z.leb_spec threshold (of_group (CorrelationID e) h)), (Z.leb_spec threshold (of_group (CorrelationID e) h + 1)); cbn; lia || done.
      * cbn [fst]. by rewrite lookup_insert_ne, Z.add_0_r.
Qed.

(** A correlation group is reported as a high fan-out exactly once: by its
    event number [threshold], neither before nor ever again. *)
Theorem fan_out_once threshold h e :
  CorrelationID e <> uuid_Nil -> 0 < threshold ->
  mkFinding CategoryCausation "high_fan_out" ∈ (examine_causation threshold (after (examine_causation threshold) ∅ h) e).2 <->
  of_group (CorrelationID e) (h ++ [e]) = threshold.
Proof.
  intros Hc Ht. pose proof (causation_memory threshold h (CorrelationID e) Hc Ht) as Hm. set (m := after _ _ h) in *.
  unfold examine_causation. destruct (Z.eqb_spec (CorrelationID e) uuid_Nil); [done|]. rewrite Hm.
  cbn [snd c_count c_fired]. rewrite of_group_snoc, decide_True by done.
  assert (Htags : mkFinding CategoryCausation "high_fan_out" ∉
    (if String.eqb (Kind e) "automation.triggered" then [mkFinding CategoryCausation "automation_triggered"] else [])).
  { destruct (String.eqb _ _); [|apply not_elem_of_nil]. by intros ?%list_elem_of_singleton. }
  rewrite elem_of_app. set (k := of_group (CorrelationID e) h).
  destruct (Z.leb_spec threshold (k + 1)), (Z.leb_spec threshold k); cbn [andb negb]; rewrite ?list_elem_of_singleton, ?elem_of_nil; naive_solver lia.
Qed.

(** *** First sightings *)

Lemma novelty_memory threshold h x :
  x ∈ seenEntities (after (examine_novelty threshold) (mkNovelty ∅ ∅) h) <-> x <> "" /\ exists e, e ∈ h /\ Entity e = x.
Proof.
  induction h as [|e h IH] using rev_ind; [cbn; set_solver|]. rewrite after_snoc. set (m := after _ _ h) in *. unfold examine_novelty.
  assert (Hs : x ∈ (if negb (is_empty (Entity e)) && negb (bool_decide (Entity e ∈ seenEntities m))
    then {[Entity e]} ∪ seenEntities m else seenEntities m) <-> x <> "" /\ exists e', e' ∈ h ++ [e] /\ Entity e' = x).
  { setoid_rewrite elem_of_app. setoid_rewrite list_elem_of_singleton. unfold is_empty. destruct (String.eqb_spec (Entity e) "") as [He|He]; cbn [negb andb].
    - rewrite IH. split; [naive_solver|]. intros (Hx & e' & [Hin| ->] & Hee); [naive_solver|congruence].
    - case_bool_decide as Hin; cbn [negb].
      + rewrite IH in *. split; [naive_solver|]. intros (Hx & e' & [Hin'| ->] & Hee); [naive_solver|]. subst. naive_solver.
      + rewrite elem_of_union, elem_of_singleton, IH. split; [intros [->|?]; naive_solver|]. intros (Hx & e' & [Hin'| ->] & Hee); naive_solver. }
  by destruct (contains_eq _ (Kind e)).
Qed.

(** An entity is reported as seen for the first time exactly once: by the first
    event about it. *)
Theorem first_seen_once threshold h e :
  mkFinding CategoryNovelty "first_seen_entity" ∈ (examine_novelty threshold (after (examine_novelty threshold) (mkNovelty ∅ ∅) h) e).2 <->
  Entity e <> "" /\ forall e', e' ∈ h -> Entity e' <> Entity e.
Proof.
  pose proof (novelty_memory threshold h (Entity e)) as Hm. set (m := after _ _ h) in *. unfold examine_novelty.
  assert (Hf : negb (is_empty (Entity e)) && negb (bool_decide (Entity e ∈ seenEntities m)) = true <->
    Entity e <> "" /\ forall e', e' ∈ h -> Entity e' <> Entity e).
  { unfold is_empty. destruct (String.eqb_spec (Entity e) ""); cbn; [naive_solver|]. rewrite negb_true_iff, bool_decide_eq_false.
    rewrite Hm. naive_solver. }
  rewrite <- Hf. destruct (negb (is_empty (Entity e)) && _).
  - destruct (contains_eq _ _); cbn [snd]; rewrite ?elem_of_app; split; try done; intros _; [left|]; by left.
  - split; [|done]. destruct (contains_eq _ _); cbn [snd app]; [|by intros ?%not_elem_of_nil].
    case_match; [|by intros ?%not_elem_of_nil]. by intros ?%list_elem_of_singleton.
Qed.

(** *** Repeated failures *)

Definition failed_from (s : string) (e : Event) : Prop := Kind e = "auth.failed" /\ source_of e = s.
#[export] Instance failed_from_dec s e : Decision (failed_from s e).
Proof. unfold failed_from. apply _. Defined.
Definition failure_times (s : string) (h : list Event) : list Z := Timestamp <$> filter (failed_from s) h.

Lemma failure_times_snoc s h e : failure_times s (h ++ [e]) = failure_times s h ++ if decide (failed_from s e) then [Timestamp e] else [].
Proof. unfold failure_times. rewrite filter_app, fmap_app, filter_cons, filter_nil. by case_decide. Qed.

(** The events of a history in the order of their times. *)
Definition in_time_order (h : list Event) : Prop := StronglySorted (fun a b => Timestamp a <= Timestamp b) h.

Lemma security_memory Hour_ cfg h s cutoff :
  in_time_order h -> (forall e, e ∈ h -> Timestamp e - AuthFailedWindow cfg <= cutoff) ->
  filter (fun t => cutoff < t) (default [] (after (examine_security Hour_ cfg) ∅ h !! s)) = filter (fun t => cutoff < t) (failure_times s h).
Proof.
  revert cutoff. induction h as [|e h IH] using rev_ind; intros cutoff Hs Hc; [by rewrite (lookup_empty s : (after _ ∅ [] : gmap string (list Z)) !! s = None)|].
  apply StronglySorted_app in Hs as (Hle & Hs & _). rewrite after_snoc, failure_times_snoc. set (m := after _ _ h) in *. unfold examine_security.
  assert (Hc' : forall e', e' ∈ h -> Timestamp e' - AuthFailedWindow cfg <= cutoff) by (intros; apply Hc, elem_of_app; by left).
  specialize (Hc e ltac:(apply elem_of_app; right; by left)).
  destruct (String.eqb_spec (Kind e) "auth.failed") as [Hk|Hk]; cbn [fst].
  - destruct (decide (source_of e = s)) as [<-|Hne].
    + rewrite lookup_insert_eq, decide_True by done. cbn [default]. cbn. rewrite !filter_app. f_equal.
      rewrite list_filter_filter. rewrite <- IH by done. apply list_filter_iff. intros t. lia.
    + rewrite lookup_insert_ne, decide_False, app_nil_r by (done || intros [_ ?]; congruence). by apply IH.
  - rewrite decide_False, app_nil_r by (intros [? _]; congruence). by apply IH.
Qed.

(** Repeated failures are counted over the rolling window, as long as events
    arrive in the order of their times: a failure is reported as repeated exactly
    when its source failed at least [threshold] times, this one included, in the
    window that ends with it. *)
Theorem repeated_failures_exact Hour_ cfg h e :
  0 < AuthFailedWindow cfg -> in_time_order (h ++ [e]) ->
  mkFinding CategorySecurity "repeated_auth_failed" ∈ (examine_security Hour_ cfg (after (examine_security Hour_ cfg) ∅ h) e).2 <->
  Kind e = "auth.failed" /\
  RepeatedAuthFailedThreshold cfg <=
    Z.of_nat (length (filter (fun t => Timestamp e - AuthFailedWindow cfg < t) (failure_times (source_of e) (h ++ [e])))).
Proof.
  intros Hw Hs. apply StronglySorted_app in Hs as (Hle & Hs & _).
  pose proof (security_memory Hour_ cfg h (source_of e) (Timestamp e - AuthFailedWindow cfg) Hs) as Hm.
  set (m := after _ _ h) in *. unfold examine_security.
  assert (Hafter : mkFinding CategorySecurity "repeated_auth_failed" ∉
    (if negb (IsZero (Timestamp e)) && quiet cfg (Hour_ (Timestamp e)) then [mkFinding CategorySecurity "after_hours_activity"] else [])).
  { case_match; [|apply not_elem_of_nil]. by intros ?%list_elem_of_singleton. }
  destruct (String.eqb_spec (Kind e) "auth.failed") as [Hk|Hk]; cbn [snd]; [|rewrite app_nil_l; naive_solver].
  rewrite Hm by (intros e' He'; specialize (Hle e' e He' ltac:(by left)); lia).
  rewrite failure_times_snoc, decide_True, filter_app, (filter_cons _ (Timestamp e)), filter_nil, decide_True by (done || lia).
  rewrite elem_of_app. destruct (Z.leb_spec (RepeatedAuthFailedThreshold cfg)
    (Z.of_nat (length (filter (fun t => Timestamp e - AuthFailedWindow cfg < t) (failure_times (source_of e) h) ++ [Timestamp e])))).
  - split; [by split|]. intros _. left. by left.
  - split; [intros [?%not_elem_of_nil|?]; done|]. intros [_ ?]. lia.
Qed.

(** *** Slow acknowledgements *)

Definition is_issue (e : Event) : bool := contains_eq ["cmd.issued"; "command.issued"] (Kind e).
Definition is_ack (e : Event) : bool := contains_eq ["cmd.ack"; "command.ack"] (Kind e).
Lemma issue_not_ack e : is_issue e = true -> is_ack e = false.
Proof.
  unfold is_issue, is_ack. rewrite contains_eq_spec. intros H. apply not_true_is_false. rewrite contains_eq_spec.
  rewrite !elem_of_cons, elem_of_nil in *. destruct H as [->|[->|[]]]; intros [H|[H|[]]]; discriminate H.
Qed.

(** [i] is the last command of its correlation id in the history, and was not
    acknowledged since. *)
Definition outstanding (h : list Event) (i : Event) : Prop :=
  exists h1 h2, h = h1 ++ i :: h2 /\ is_issue i = true /\
    forall e, e ∈ h2 -> CorrelationID e = CorrelationID i -> is_issue e = false /\ is_ack e = false.

Lemma outstanding_snoc h e i :
  outstanding (h ++ [e]) i <->
  (e = i /\ is_issue i = true) \/ (outstanding h i /\ (CorrelationID e = CorrelationID i -> is_issue e = false /\ is_ack e = false)).
Proof.
  split.
  - intros (h1 & h2 & Heq & Hi & Hl). destruct h2 as [|x h2 _] using rev_ind.
    + apply app_inj_tail in Heq as [_ ->]. by left.
    + rewrite app_comm_cons, app_assoc in Heq. apply app_inj_tail in Heq as [-> ->]. right. split.
      * exists h1, h2. split_and!; [done..|]. intros y Hy. apply Hl, elem_of_app. by left.
      * apply Hl, elem_of_app. right. by left.
  - intros [[-> Hi]|[(h1 & h2 & -> & Hi & Hl) He]].
    + exists h, []. split_and!; [done..|]. by intros ? ?%not_elem_of_nil.
    + exists h1, (h2 ++ [e]). split_and!; [by rewrite <- app_assoc|done|].
      intros y [Hy|Hy%list_elem_of_singleton]%elem_of_app; [by apply Hl|by subst].
Qed.

Lemma performance_memory cfg h c t :
  after (examine_performance cfg) ∅ h !! c = Some t <-> exists i, outstanding h i /\ CorrelationID i = c /\ Timestamp i = t.
Proof.
  induction h as [|e h IH] using rev_ind.
  - split; [unfold after; cbn [foldl]; by rewrite lookup_empty|]. intros (i & (h1 & h2 & H & _) & _). by destruct h1.
  - setoid_rewrite outstanding_snoc. rewrite after_snoc. set (m := after _ _ h) in *. unfold examine_performance.
    fold (is_issue e) (is_ack e). destruct (is_issue e) eqn:Hi; cbn [fst].
    + rewrite lookup_insert_Some, IH. split.
      * intros [[<- <-]|[Hne (i & Ho & Hc & Ht)]]; [exists e; split; [by left|done]|]. exists i. split; [right; split; [done|congruence]|done].
      * intros (i & [[<- _]|[Ho Hn]] & <- & <-); [by left|]. right. split; [intros He; by destruct (Hn He)|by exists i].
    + assert (Hcase : (exists i, (e = i /\ is_issue i = true \/ outstanding h i /\ (CorrelationID e = CorrelationID i -> false = false /\ is_ack e = false))
        /\ CorrelationID i = c /\ Timestamp i = t) <-> (m !! c = Some t /\ (CorrelationID e = c -> is_ack e = false))).
      { rewrite IH. split; [intros (i & [[-> ?]|[Ho Hn]] & <- & <-); [congruence|]|].
        - split; [by exists i|]. intros H. by apply Hn.
        - intros [(i & Ho & <- & <-) Hn]. exists i. split; [right; split; [done|]|done]. auto. }
      rewrite Hcase. clear Hcase. destruct (is_ack e) eqn:Ha.
      * assert (Hd : delete (CorrelationID e) m !! c = Some t <-> m !! c = Some t /\ (CorrelationID e = c -> true = false)).
        { rewrite lookup_delete_Some. naive_solver. }
        destruct (m !! CorrelationID e) as [t'|] eqn:Hm; cbn [fst]; [exact Hd|]. rewrite <- Hd, delete_id; done.
      * destruct (contains_eq _ (Kind e)); cbn [fst]; naive_solver.
Qed.

(** An acknowledgement is reported as slow exactly when the last command of its
    correlation id, not acknowledged before, was issued more than the threshold
    earlier. *)
Theorem slow_ack_exact cfg h e :
  mkFinding CategoryPerformance "slow_ack" ∈ (examine_performance cfg (after (examine_performance cfg) ∅ h) e).2 <->
  is_ack e = true /\ exists i, outstanding h i /\ CorrelationID i = CorrelationID e /\ Timestamp i <> zero_time /\
    SLOThreshold cfg < time_Sub (Timestamp e) (Timestamp i).
Proof.
  pose proof (performance_memory cfg h (CorrelationID e)) as Hm. set (m := after _ _ h) in *. unfold examine_performance.
  fold (is_issue e) (is_ack e). destruct (is_issue e) eqn:Hi; cbn [snd].
  { rewrite (issue_not_ack e) by done. split; [by intros ?%not_elem_of_nil|naive_solver]. }
  destruct (is_ack e) eqn:Ha.
  2: { split; [|naive_solver]. case_match; cbn [snd]; [by intros ?%list_elem_of_singleton|by intros ?%not_elem_of_nil]. }
  destruct (m !! CorrelationID e) as [t|] eqn:Ht; cbn [snd].
  - destruct (proj1 (Hm t) eq_refl) as (i & Ho & Hc & Hit). unfold IsZero.
    destruct (Z.eqb_spec t zero_time) as [Hz|Hz]; cbn [negb andb].
    + split; [by intros ?%not_elem_of_nil|]. intros (_ & j & Hj & Hcj & Hjz & _).
      assert (Some t = Some (Timestamp j)) by (apply Hm; by exists j). congruence.
    + rewrite Z.gtb_ltb. destruct (Z.ltb_spec (SLOThreshold cfg) (time_Sub (Timestamp e) t)).
      * split; [|intros _; by left]. intros _. split; [done|]. exists i. rewrite Hit. done.
      * split; [by intros ?%not_elem_of_nil|]. intros (_ & j & Hj & Hcj & Hjz & Hlt).
        assert (Some t = Some (Timestamp j)) as [= ->] by (apply Hm; by exists j). lia.
  - split; [by intros ?%not_elem_of_nil|]. intros (_ & j & Hj & Hcj & _).
    assert (None = Some (Timestamp j)) by (apply Hm; by exists j). done.
Qed.

(** ** The pipeline feeds itself *)

Section Feedback.
Context (Hour_ : Z -> Z).

(** The time of an event is in the quiet hours. *)
Definition at_night (t : Z) : Prop := t <> zero_time /\ quiet default_security (Hour_ t) = true.

(** [n] turns of the loop: the order, the clock and the fresh ids of each. *)
Fixpoint pipeline_run (order : nat -> list (list Finding) -> list (list Finding)) (clock fresh : nat -> Z) (n : nat) (p : Pipeline) : Pipeline :=
  match n with O => p | S n => pipeline_step Hour_ (order n) (clock n) (fresh n) (pipeline_run order clock fresh n p) end.

Lemma night_found order m e :
  (forall l, order l ≡ₚ l) -> at_night (Timestamp e) ->
  exists f found, (processEvent Hour_ order m e).2 = f :: found.
Proof.
  intros Ho [Hz Hq]. unfold processEvent. destruct (examine_all Hour_ m e) as [m' found] eqn:He. cbn [snd].
  assert (Hin : mkFinding CategorySecurity "after_hours_activity" ∈ concat (order found)).
  { rewrite list_elem_of_In. apply in_concat. exists (examine_security Hour_ default_security (d_security m) e).2.
    rewrite <- !list_elem_of_In. unfold examine_all in He.
    destruct (examine_performance _ _ _), (examine_anomaly _ _ _), (examine_causation _ _ _), (examine_security _ _ _ _) as [sec f5] eqn:Hs,
      (examine_novelty _ _ _). injection He as _ <-. split; [rewrite Ho; set_solver|]. cbn [snd].
    unfold examine_security in Hs. destruct (if String.eqb (Kind e) "auth.failed" then _ else _) as [a tags]. injection Hs as _ <-.
    unfold IsZero. destruct (Z.eqb_spec (Timestamp e) zero_time); [done|]. rewrite Hq. cbn. apply elem_of_app. right. by left. }
  destruct (concat (order found)) as [|f rest]; [by apply not_elem_of_nil in Hin|]. by eexists _, _.
Qed.

Lemma append_all_night now fresh next m e order :
  at_night now -> Forall (fun e => at_night (Timestamp e)) (append_all now fresh next (processEvent Hour_ order m e).2).
Proof.
  intros Hn. unfold processEvent. destruct (examine_all Hour_ m e) as [m' found]. cbn [snd].
  generalize (concat (order found)). intros l. revert next. induction l as [|f l IH]; intros next; cbn [fmap list_fmap append_all]; [constructor|].
  constructor; [|apply IH]. done.
Qed.

(** The pipeline examines its own findings: it subscribes to every event, and
    each finding it appends is itself an event. An event in the quiet hours is
    always a finding, so that from the first event at night on the pipeline never
    comes to rest while the night lasts: after any number of turns there is an
    event left to examine, and each turn appended at least one. *)
Theorem quiet_hours_feed_themselves order clock fresh p :
  (forall n l, order n l ≡ₚ l) -> (forall n, at_night (clock n)) ->
  p_queue p <> [] -> Forall (fun e => at_night (Timestamp e)) (p_queue p) ->
  forall n, p_queue (pipeline_run order clock fresh n p) <> [] /\ p_next p + Z.of_nat n <= p_next (pipeline_run order clock fresh n p).
Proof.
  intros Ho Hc Hq Hn n.
  assert (H : (p_queue (pipeline_run order clock fresh n p) <> [] /\ p_next p + Z.of_nat n <= p_next (pipeline_run order clock fresh n p)) /\
    Forall (fun e => at_night (Timestamp e)) (p_queue (pipeline_run order clock fresh n p))); [|apply H].
  induction n as [|n IH]; [split; [split; [done|cbn; lia]|done]|]. destruct IH as ((Hq' & Hp) & Hf). cbn [pipeline_run].
  set (q := pipeline_run order clock fresh n p) in *. unfold pipeline_step. destruct (p_queue q) as [|e rest] eqn:He; [done|].
  apply Forall_cons in Hf as [Hne Hf].
  pose proof (append_all_night (clock n) (fresh n) (p_next q) (p_detectors q) e (order n) (Hc n)) as Ha.
  destruct (night_found (order n) (p_detectors q) e (Ho n) Hne) as (f & found & Hfound).
  destruct (processEvent Hour_ (order n) (p_detectors q) e) as [m' fs]. cbn [snd] in *. subst fs. cbn [p_queue p_next].
  split; [split|].
  - cbn [append_all]. by destruct rest.
  - cbn [length]. lia.
  - apply Forall_app. by split.
Qed.

End Feedback.

(** ** On small histories *)

Module FeedbackDemo.

Definition ev (kind source : string) (corr ts : Z) : Event := mkEvent 0 ts kind "" source corr 0 None.

Lemma fan_out_once_witness :
  mkFinding CategoryCausation "high_fan_out" ∈
    (examine_causation 2 (after (examine_causation 2) ∅ [ev "a" "s" 7 1; ev "a" "s" 8 2]) (ev "b" "s" 7 3)).2.
Proof. apply (fan_out_once 2); [done | lia | vm_compute; reflexivity]. Defined.

Definition at_noon (_ : Z) : Z := 12.
Definition fail (ts : Z) : Event := ev "auth.failed" "login" 7 (ts * Minute).

(** Three failures within five minutes; the one before does not count. *)
Lemma repeated_failures_exact_witness :
  mkFinding CategorySecurity "repeated_auth_failed" ∈
    (examine_security at_noon default_security (after (examine_security at_noon default_security) ∅ [fail 1; fail 7; fail 8]) (fail 11)).2.
Proof.
  apply (repeated_failures_exact at_noon default_security [fail 1; fail 7; fail 8] (fail 11)).
  - vm_compute; congruence.
  - repeat constructor; vm_compute; congruence.
  - split; [reflexivity | vm_compute; congruence].
Defined.

Definition at_eleven (_ : Z) : Z := 23.
Definition at_once (l : list (list Finding)) : list (list Finding) := l.

Lemma quiet_hours_feed_themselves_witness :
  let p := mkPipeline Detectors_new [ev "state_changed" "driver" 7 1] 2 in
  p_queue (pipeline_run at_eleven (fun _ => at_once) (fun n => Z.of_nat n) (fun _ => 9) 50 p) <> [] /\
  2 + Z.of_nat 50 <= p_next (pipeline_run at_eleven (fun _ => at_once) (fun n => Z.of_nat n) (fun _ => 9) 50 p).
Proof.
  intros p. apply (quiet_hours_feed_themselves at_eleven (fun _ => at_once) (fun n => Z.of_nat n) (fun _ => 9) p).
  - reflexivity.
  - intros n. split; [unfold zero_time; lia | reflexivity].
  - discriminate.
  - repeat constructor; vm_compute; congruence.
Defined.

(** The kinds the daemon appends for the same things are not those the detectors
    look for. *)
Example daemon_kinds_unseen :
  Forall (fun k => examine_failure (ev k "s" 7 1) = [] /\ examine_configuration (ev k "s" 7 1) = [] /\
                   is_issue (ev k "s" 7 1) = false /\ is_ack (ev k "s" 7 1) = false)
    ["command_issued"; "command_ack"; "config"; "automation_triggered"; "driver_event"; "auth_event"].
Proof. repeat constructor. Qed.

End FeedbackDemo.
