(* ===== verification/Policy.v ===== *)
(** * Access policy

    Models [internal/policy]: [schema.go], [selector.go], [compiler.go],
    [runtime.go], [intersect.go] and [explain.go]. A Go [map[K]struct{}] is a
    [gset]; where the source ranges over a map and the order can show, the
    order is an argument. SHA-256 (as a hexadecimal digest) is a parameter.
    Depth-first searches recurse on a fuel bounded by the number of nodes. *)

From S2P Require Import Prelude Sorting.

(** ** Schema *)

(** [Verb] is a string; the four constants are [AllVerbs]. *)
Definition VerbRead : string := "read".
Definition VerbCall : string := "call".
Definition VerbWrite : string := "write".
Definition VerbAdmin : string := "admin".
Definition AllVerbs : list string := [VerbRead; VerbCall; VerbWrite; VerbAdmin].

Abbreviation str_set := (gset string).

Record CompiledSelector := mkCompiledSelector {
  Hash : string;
  AreaSet : str_set;
  ClassSet : str_set;
  EntitySet : str_set;
  MatchAny : bool;
}.

Definition CompiledSelector_zero : CompiledSelector := mkCompiledSelector "" ∅ ∅ ∅ false.

Record CompiledRule := mkCompiledRule {
  PolicyName : string;
  Verbs : str_set;
  Services : str_set;
  Targets : CompiledSelector;
}.

(** [RoleVerb] keys are pairs. *)
Record Compiled := mkCompiled {
  Generation : Z;
  ActionAllowlist : gmap (string * string) str_set;
  AllowRules : gmap string (list CompiledRule);
  DenyRules : gmap string (list CompiledRule);
  AreaExpansion : gmap string str_set;
  RoleInheritance : gmap string str_set;
}.

(** [len(m) > 0]. *)
Definition set_nonempty (X : str_set) : bool := negb (bool_decide (X = ∅)).
Definition set_has (X : str_set) (x : string) : bool := bool_decide (x ∈ X).

(** [c.AllowRules[role]]: a missing key reads as the nil slice. *)
Definition rules_of (m : gmap string (list CompiledRule)) (role : string) : list CompiledRule :=
  default [] (m !! role).

(** [permitsAction]; [None] is a nil receiver. *)
Definition permitsAction (c : option Compiled) (role verb key : string) : bool :=
  match c with
  | None => false
  | Some c =>
      match ActionAllowlist c !! (role, verb) with
      | None => false
      | Some set => set_has set key
      end
  end.

Definition MakeActionKey (service method : string) : string := service +:+ "." +:+ method.

Section Hash.
Context (sha256_hex : string -> string).

Definition NUL : string := String (Ascii.ascii_of_N 0) "".
Definition SOH : string := String (Ascii.ascii_of_N 1) "".

(** [sort.Strings] of a copy. *)
Definition sort_strings (l : list string) : list string := merge_sort String.le l.

(** What [write] feeds the hash. *)
Definition hash_items (label : string) (items : list string) : string :=
  label +:+ NUL +:+ foldr (fun s acc => s +:+ NUL +:+ acc) SOH (sort_strings items).

(** [binary.BigEndian.PutUint64]. *)
Definition be64 (n : Z) : string :=
  foldr (fun i acc =>
           String (Ascii.ascii_of_N (Z.to_N (Z.land (Z.shiftr n (8 * i)) 255))) acc)
    "" [7; 6; 5; 4; 3; 2; 1; 0].

Definition hash_bytes (areas classes entityIDs : list string) : string :=
  hash_items "a" areas +:+ (hash_items "c" classes +:+ (hash_items "e" entityIDs +:+
    be64 (Z.of_nat (length areas + length classes + length entityIDs)))).

Definition HashSelector (areas classes entityIDs : list string) : string :=
  sha256_hex (hash_bytes areas classes entityIDs).

End Hash.

(** ** Selectors *)

Record Target := mkTarget {
  TKind : string; TID : string; TArea : string; TClass : string;
}.

(** [AreaTree]; only [Children] is read. *)
Abbreviation AreaTree := (gmap string (list string)).

Definition SelectorMatches (sel : CompiledSelector) (t : Target) : bool :=
  if MatchAny sel then true
  else if set_nonempty (AreaSet sel) && set_has (AreaSet sel) (TArea t) then true
  else if set_nonempty (ClassSet sel) && set_has (ClassSet sel) (TClass t) then true
  else if set_nonempty (EntitySet sel) && set_has (EntitySet sel) (TID t) then true
  else false.

(** [tree.Children[root]]. *)
Definition children (tree : AreaTree) (x : string) : list string := default [] (tree !! x).

(** Every slug of the tree: the keys and the children. *)
Definition tree_nodes (tree : AreaTree) : str_set :=
  dom tree ∪ list_to_set (concat (map_to_list tree).*2).

(** [walkDescendants], [out] being updated in place. *)
Fixpoint walkDescendants (fuel : nat) (tree : AreaTree) (root : string) (out : str_set) : str_set :=
  match fuel with
  | O => out
  | S fuel' =>
      if set_has out root then out
      else foldl (fun o c => walkDescendants fuel' tree c o) ({[root]} ∪ out) (children tree root)
  end.

(** Deep enough for any path without repetition. *)
Definition walk_fuel (tree : AreaTree) : nat := S (S (size (tree_nodes tree))).

(** [ExpandAreas]; [order] is the order in which Go ranges over the keys. *)
Definition ExpandAreas (order : list string) (tree : AreaTree) (decls : list string) : str_set :=
  foldl (fun out d =>
    if String.eqb d "*"
    then foldl (fun o slug => walkDescendants (walk_fuel tree) tree slug o) out order
    else match tree !! d with
         | None => out
         | Some _ => walkDescendants (walk_fuel tree) tree d out
         end) ∅ decls.

(** ** Compilation *)

Record RawSelector := mkRawSelector {
  RAreas : list string; RClasses : list string; REntityIDs : list string; RMatchAny : bool;
}.

Record RawRule := mkRawRule {
  RVerbs : list string; RTargets : RawSelector; RServices : list string;
}.

Record RawPolicy := mkRawPolicy {
  RName : string; Subjects : list string; Allow : list RawRule; Deny : list RawRule;
}.

(** [RoleGraph]: the [Inherits] list of each role. *)
Abbreviation RoleGraph := (gmap string (list string)).

Record CatalogAction := mkCatalogAction {
  CService : string; CMethod : string; CVerb : string; IsEntity : bool;
}.

Inductive compile_error :=
  | ErrCycle (through : string)
  | UnknownService (policy service : string)
  | DenyNonEntity (policy service method : string).

(** [g.Roles[s].Inherits]. *)
Definition inherits (g : RoleGraph) (s : string) : list string := default [] (g !! s).

Definition graph_nodes (g : RoleGraph) : str_set := tree_nodes g.

(** A loop over [l] that stops at the first error. *)
Fixpoint foldM {E S A} (f : S -> A -> result E S) (s : S) (l : list A) : result E S :=
  match l with
  | [] => Ok s
  | x :: l' => match f s x with Ok s' => foldM f s' l' | Err e => Err e end
  end.

(** The closure [visit]: [seen] is shared between the calls, [path] holds the
    nodes being visited, so deleting [s] at the end restores the caller's. *)
Fixpoint visit (fuel : nat) (g : RoleGraph) (s : string) (path seen : str_set) :
    result compile_error str_set :=
  match fuel with
  | O => Ok seen
  | S fuel' =>
      if set_has path s then Err (ErrCycle s)
      else if set_has seen s then Ok seen
      else foldM (fun sn parent => visit fuel' g parent ({[s]} ∪ path) sn)
             ({[s]} ∪ seen) (inherits g s)
  end.

Definition visit_fuel (g : RoleGraph) : nat := S (S (S (size (graph_nodes g)))).

(** [resolveRoleInheritance]; [order] is the order Go ranges over the roles. *)
Definition resolveRoleInheritance (order : list string) (g : RoleGraph) :
    result compile_error (gmap string str_set) :=
  foldM (fun out slug =>
    match visit (visit_fuel g) g slug ∅ ∅ with
    | Err e => Err e
    | Ok seen => Ok (<[slug := seen]> out)
    end) ∅ order.

Definition selectorIsEmpty (cs : CompiledSelector) : bool :=
  negb (MatchAny cs) && negb (set_nonempty (AreaSet cs)) && negb (set_nonempty (ClassSet cs)) &&
  negb (set_nonempty (EntitySet cs)).

Definition indexCatalog (catalog : list CatalogAction) : gmap string (list CatalogAction) :=
  foldl (fun m a => <[CService a := default [] (m !! CService a) ++ [a]]> m) ∅ catalog.

Definition known_services (catalog : list CatalogAction) : str_set :=
  foldl (fun m a => {[CService a]} ∪ m) ∅ catalog.

Section Compile.
Context (sha256_hex : string -> string).
Context (areas_order : list string) (areas : AreaTree).
Context (catalog : list CatalogAction).

(** [compileSelector]; the second component is [sink.AreaExpansion]. *)
Definition compileSelector (rs : RawSelector) (sink : gmap string str_set) :
    CompiledSelector * gmap string str_set :=
  if RMatchAny rs then (mkCompiledSelector "" ∅ ∅ ∅ true, sink)
  else
    let hash := HashSelector sha256_hex (RAreas rs) (RClasses rs) (REntityIDs rs) in
    let '(expansion, sink') :=
      match sink !! hash with
      | Some e => (e, sink)
      | None => let e := ExpandAreas areas_order areas (RAreas rs) in (e, <[hash := e]> sink)
      end in
    (mkCompiledSelector hash expansion (list_to_set (RClasses rs)) (list_to_set (REntityIDs rs))
       false, sink').

(** The loop over [rr.Services]. *)
Fixpoint check_services (name : string) (known : str_set) (l : list string) :
    option compile_error :=
  match l with
  | [] => None
  | s :: l' => if set_has known s then check_services name known l'
               else Some (UnknownService name s)
  end.

(** The nested loops over the denied services and their actions. *)
Definition deny_non_entity (name : string) (index : gmap string (list CatalogAction))
    (services : list string) : option compile_error :=
  match list_find (fun a => IsEntity a = false)
          (services ≫= fun svc => default [] (index !! svc)) with
  | None => None
  | Some (_, a) => Some (DenyNonEntity name (CService a) (CMethod a))
  end.

(** [compileRule]. *)
Definition compileRule (name : string) (rr : RawRule) (sink : gmap string str_set)
    (isDeny : bool) : result compile_error (CompiledRule * gmap string str_set) :=
  match check_services name (known_services catalog) (RServices rr) with
  | Some e => Err e
  | None =>
      let '(sel, sink') := compileSelector (RTargets rr) sink in
      let cr := mkCompiledRule name (list_to_set (RVerbs rr)) (list_to_set (RServices rr)) sel in
      if isDeny && negb (bool_decide (RServices rr = [])) && negb (selectorIsEmpty sel) then
        match deny_non_entity name (indexCatalog catalog) (RServices rr) with
        | Some e => Err e
        | None => Ok (cr, sink')
        end
      else Ok (cr, sink')
  end.

(** One (action, verb) of [addToActionAllowlist]'s loops. *)
Definition allow_one (role : string) (a : CatalogAction)
    (m : gmap (string * string) str_set) (v : string) : gmap (string * string) str_set :=
  if negb (String.eqb v (CVerb a)) then m
  else <[(role, v) := {[MakeActionKey (CService a) (CMethod a)]} ∪ default ∅ (m !! (role, v))]> m.

(** [addToActionAllowlist]. *)
Definition addToActionAllowlist (role : string) (rr : RawRule)
    (m : gmap (string * string) str_set) : gmap (string * string) str_set :=
  let verbs := match RVerbs rr with [] => AllVerbs | vs => vs end in
  foldl (fun m a =>
    if negb (bool_decide (RServices rr = [])) && negb (contains_eq (RServices rr) (CService a))
    then m else foldl (allow_one role a) m verbs) m catalog.

Definition add_allow (name role : string) (c : Compiled) (rr : RawRule) :
    result compile_error Compiled :=
  match compileRule name rr (AreaExpansion c) false with
  | Err e => Err e
  | Ok (cr, sink') =>
      Ok (mkCompiled (Generation c) (addToActionAllowlist role rr (ActionAllowlist c))
            (<[role := rules_of (AllowRules c) role ++ [cr]]> (AllowRules c)) (DenyRules c)
            sink' (RoleInheritance c))
  end.

Definition add_deny (name role : string) (c : Compiled) (rr : RawRule) :
    result compile_error Compiled :=
  match compileRule name rr (AreaExpansion c) true with
  | Err e => Err e
  | Ok (cr, sink') =>
      Ok (mkCompiled (Generation c) (ActionAllowlist c) (AllowRules c)
            (<[role := rules_of (DenyRules c) role ++ [cr]]> (DenyRules c))
            sink' (RoleInheritance c))
  end.

Definition add_subject (rp : RawPolicy) (c : Compiled) (role : string) :
    result compile_error Compiled :=
  match foldM (add_allow (RName rp) role) c (Allow rp) with
  | Err e => Err e
  | Ok c' => foldM (add_deny (RName rp) role) c' (Deny rp)
  end.

(** [Compile]; [generation] is the package counter, returned incremented. *)
Definition Compile (roles_order : list string) (generation : Z) (raw : list RawPolicy)
    (roles : RoleGraph) : Z * result compile_error Compiled :=
  match resolveRoleInheritance roles_order roles with
  | Err e => (generation, Err e)
  | Ok inheritance =>
      let generation' := u64 (generation + 1) in
      (generation',
       foldM (fun c rp => foldM (add_subject rp) c (Subjects rp))
         (mkCompiled generation' ∅ ∅ ∅ ∅ inheritance) raw)
  end.

End Compile.

(** [SortedActionsForRole]. *)
Definition SortedActionsForRole (c : Compiled) (role verb : string) : list string :=
  match ActionAllowlist c !! (role, verb) with
  | None => []
  | Some set => sort_strings (elements set)
  end.

(** ** Token scopes *)

Record CompiledTokenScope := mkCompiledTokenScope {
  AllowedActions : str_set;
  AllowedTools : list string;
  AllowedServices : list string;
  AllowedTargets : CompiledSelector;
}.

Definition tokenPatternMatches (pattern action : string) : bool :=
  if has_suffix pattern "*" then has_prefix action (trim_suffix pattern "*")
  else String.eqb pattern action.

Definition tokenPatternCovers (parent child : string) : bool :=
  let parentWildcard := has_suffix parent "*" in
  let childWildcard := has_suffix child "*" in
  if negb parentWildcard then negb childWildcard && String.eqb parent child
  else
    let parentPrefix := trim_suffix parent "*" in
    if negb childWildcard then has_prefix child parentPrefix
    else has_prefix (trim_suffix child "*") parentPrefix.

Definition actionAllowed (s : CompiledTokenScope) (action : string) : bool :=
  if negb (set_nonempty (AllowedActions s)) && bool_decide (AllowedTools s = []) &&
     bool_decide (AllowedServices s = []) then true
  else if set_has (AllowedActions s) action then true
  else if existsb (fun p => tokenPatternMatches p action) (AllowedTools s) then true
  else existsb (fun p => tokenPatternMatches p action) (AllowedServices s).

Definition targetAllowed (s : CompiledTokenScope) (t : Target) : bool :=
  let sel := AllowedTargets s in
  if MatchAny sel then true
  else if negb (set_nonempty (AreaSet sel)) && negb (set_nonempty (ClassSet sel)) &&
          negb (set_nonempty (EntitySet sel)) then true
  else SelectorMatches sel t.

Definition Scope_PermitsAction (s : CompiledTokenScope) (key : string) : bool := actionAllowed s key.
Definition Scope_PermitsTarget (s : CompiledTokenScope) (t : Target) : bool := targetAllowed s t.
Definition Scope_Allow (s : CompiledTokenScope) (action : string) (t : Target) : bool :=
  actionAllowed s action && targetAllowed s t.

Definition hasActionNarrowing (s : CompiledTokenScope) : bool :=
  set_nonempty (AllowedActions s) || negb (bool_decide (AllowedTools s = [])) ||
  negb (bool_decide (AllowedServices s = [])).

Definition coversPattern (s : CompiledTokenScope) (child : string) : bool :=
  existsb (fun p => tokenPatternCovers p child) (elements (AllowedActions s)) ||
  existsb (fun p => tokenPatternCovers p child) (AllowedTools s) ||
  existsb (fun p => tokenPatternCovers p child) (AllowedServices s).

Definition containsActions (s child : CompiledTokenScope) : bool :=
  if negb (hasActionNarrowing s) then true
  else if negb (hasActionNarrowing child) then false
  else forallb (actionAllowed s) (elements (AllowedActions child)) &&
       forallb (coversPattern s) (AllowedTools child) &&
       forallb (coversPattern s) (AllowedServices child).

Definition setContainsAll (parent child : str_set) : bool := bool_decide (child ⊆ parent).

Definition containsTargets (s child : CompiledTokenScope) : bool :=
  let parent := AllowedTargets s in
  let target := AllowedTargets child in
  if MatchAny parent then true
  else if selectorIsEmpty parent then true
  else if selectorIsEmpty target || MatchAny target then false
  else setContainsAll (AreaSet parent) (AreaSet target) &&
       setContainsAll (ClassSet parent) (ClassSet target) &&
       setContainsAll (EntitySet parent) (EntitySet target).

Definition Contains (s child : CompiledTokenScope) : bool :=
  containsActions s child && containsTargets s child.

(** ** The runtime *)

Record Principal := mkPrincipal { PrID : string; PrKind : string }.
Record Action := mkAction { AcService : string; AcMethod : string; AcVerb : string }.

(** [auth.Target]; [AuAttr] is [None] for a nil map. *)
Record AuthTarget := mkAuthTarget {
  AuKind : string; AuID : string; AuArea : string; AuClass : string;
  AuAttr : option (gmap string string);
}.

Record ErrForbidden := mkErrForbidden { Reason : string; RuleName : string }.

Definition targetFromAuth (t : AuthTarget) : Target :=
  let attr k := match AuAttr t with Some m => default "" (m !! k) | None => "" end in
  let area := if is_empty (AuArea t) && bool_decide (is_Some (AuAttr t)) then attr "area"
              else AuArea t in
  let cls := if is_empty (AuClass t) && bool_decide (is_Some (AuAttr t)) then attr "class"
             else AuClass t in
  mkTarget (AuKind t) (AuID t) area cls.

Definition ruleMatches (r : CompiledRule) (a : Action) (t : Target) : bool :=
  if set_nonempty (Verbs r) && negb (set_has (Verbs r) (AcVerb a)) then false
  else if set_nonempty (Services r) && negb (set_has (Services r) (AcService a)) then false
  else SelectorMatches (Targets r) t.

Record Runtime := mkRuntime {
  rt_roles : Principal -> list string;
  rt_compiled : option Compiled;
  rt_subs : list nat;
}.

Definition NewRuntime (roles : Principal -> list string) : Runtime := mkRuntime roles None [].

(** [Replace]: the new state and the callbacks it invokes, in order. *)
Definition Replace (c : Compiled) (r : Runtime) : Runtime * list nat :=
  (mkRuntime (rt_roles r) (Some c) (rt_subs r), rt_subs r).

Definition OnReload (fn : nat) (r : Runtime) : Runtime :=
  mkRuntime (rt_roles r) (rt_compiled r) (rt_subs r ++ [fn]).

Definition CurrentGeneration (r : Runtime) : Z :=
  match rt_compiled r with None => 0 | Some c => Generation c end.

(** The first deny rule that matches, over the roles in iteration order. *)
Definition first_deny (c : Compiled) (roles : list string) (a : Action) (t : Target) :
    option CompiledRule :=
  snd <$> list_find (fun r => ruleMatches r a t = true) (roles ≫= rules_of (DenyRules c)).

(** [Authorize]; [None] permits. [scope] is the token scope of the context;
    the role set is in iteration order. *)
Definition Authorize (r : Runtime) (scope : option CompiledTokenScope) (p : Principal)
    (a : Action) (t : AuthTarget) : option ErrForbidden :=
  if String.eqb (PrKind p) "system" then None
  else match rt_compiled r with
  | None => Some (mkErrForbidden "no_policy" "")
  | Some c =>
      let roles := rt_roles r p in
      let key := MakeActionKey (AcService a) (AcMethod a) in
      let verb := AcVerb a in
      if negb (existsb (fun role => permitsAction (Some c) role verb key) roles)
      then Some (mkErrForbidden "action_denied" "")
      else
        let entity := String.eqb (AuKind t) "entity" in
        let scoped :=
          match scope with
          | None => None
          | Some sc =>
              if entity then
                if negb (Scope_Allow sc key (targetFromAuth t)) then
                  if negb (Scope_PermitsAction sc key)
                  then Some (mkErrForbidden "token_action_denied" "")
                  else Some (mkErrForbidden "token_target_denied" "")
                else None
              else if negb (Scope_PermitsAction sc key)
              then Some (mkErrForbidden "token_action_denied" "")
              else None
          end in
        match scoped with
        | Some e => Some e
        | None =>
            if entity then
              let target := targetFromAuth t in
              if negb (existsb (fun role =>
                        existsb (fun rule => ruleMatches rule a target)
                          (rules_of (AllowRules c) role)) roles)
              then Some (mkErrForbidden "target_denied" "")
              else match first_deny c roles a target with
                   | Some rule => Some (mkErrForbidden "explicit_deny" (PolicyName rule))
                   | None => None
                   end
            else None
        end
  end.

(** Whether some deny rule of the roles covers the entity, whatever the verb. *)
Definition explicitly_denied (c : option Compiled) (roles : list string) (t : Target) : bool :=
  match c with
  | None => false
  | Some c =>
      existsb (fun role =>
        existsb (fun rule => SelectorMatches (Targets rule) t) (rules_of (DenyRules c) role)) roles
  end.

(** [FilterEntities]: [(allowed, denied)]. *)
Fixpoint FilterEntities (r : Runtime) (scope : option CompiledTokenScope) (p : Principal)
    (verb : string) (candidates : list Target) : list Target * list Target :=
  match candidates with
  | [] => ([], [])
  | t :: rest =>
      let '(al, dn) := FilterEntities r scope p verb rest in
      match Authorize r scope p (mkAction "EntityService" "Subscribe" verb)
              (mkAuthTarget "entity" (TID t) (TArea t) (TClass t) None) with
      | Some _ => (al, t :: dn)
      | None => if explicitly_denied (rt_compiled r) (rt_roles r p) t
                then (al, t :: dn) else (t :: al, dn)
      end
  end.

(** ** Explain *)

Record Trace := mkTrace { Decision : string; TrReason : string; TrRuleName : string }.

(** [sortedRoles]. *)
Definition sortedRoles (roles : list string) : list string := insertion_sort (fun s => s) roles.

(** [Explain], without the human-readable step lines; the scope of the token in
    the context is not consulted. *)
Definition Explain (r : Runtime) (p : Principal) (a : Action) (t : AuthTarget) : Trace :=
  if String.eqb (PrKind p) "system" then mkTrace "ALLOWED" "system_bypass" ""
  else
    let c := rt_compiled r in
    let roles := sortedRoles (rt_roles r p) in
    let key := MakeActionKey (AcService a) (AcMethod a) in
    if negb (existsb (fun role => permitsAction c role (AcVerb a) key) roles)
    then mkTrace "DENIED" "action_denied" ""
    else match c with
    | None => mkTrace "DENIED" "action_denied" ""
    | Some c =>
        let target := targetFromAuth t in
        if String.eqb (AuKind t) "entity" then
          if negb (existsb (fun role =>
                    existsb (fun rule => ruleMatches rule a target)
                      (rules_of (AllowRules c) role)) roles)
          then mkTrace "DENIED" "target_denied" ""
          else match first_deny c roles a target with
               | Some rule => mkTrace "DENIED" "explicit_deny" (PolicyName rule)
               | None => mkTrace "ALLOWED" "" ""
               end
        else mkTrace "ALLOWED" "" ""
    end.
