(* ===== verification/PolicyFacts.v ===== *)
(** * Correctness of the access policy: graphs

    The depth-first searches of [selector.go] and [compiler.go]: area expansion
    computes reachability, role inheritance computes the transitive closure or
    reports a genuine cycle. *)

From S2P Require Import Prelude Sorting Policy.

Lemma set_has_spec X x : set_has X x = true <-> x ∈ X.
Proof. unfold set_has. apply bool_decide_eq_true. Qed.

Lemma set_has_false X x : set_has X x = false <-> x ∉ X.
Proof. unfold set_has. apply bool_decide_eq_false. Qed.

Lemma set_nonempty_spec X : set_nonempty X = true <-> X <> ∅.
Proof. unfold set_nonempty. rewrite negb_true_iff. apply bool_decide_eq_false. Qed.

Lemma rtc_closed {A} (R : relation A) (F : A -> Prop) x y :
  (forall x y, F x -> R x y -> F y) -> rtc R x y -> F x -> F y.
Proof. intros HF Hr. induction Hr; eauto. Qed.

(** ** Descendants *)

Definition edge (tree : AreaTree) (x y : string) : Prop := y ∈ children tree x.
Definition reach (tree : AreaTree) : relation string := rtc (edge tree).

Lemma edge_node tree x y : edge tree x y -> y ∈ tree_nodes tree.
Proof.
  unfold edge, children, tree_nodes. destruct (tree !! x) as [l|] eqn:Hx; cbn;
    [|by intros ?%not_elem_of_nil].
  intros Hy. apply elem_of_union_r, elem_of_list_to_set, list_elem_of_In, in_concat. exists l.
  rewrite <- !list_elem_of_In.
  split; [|done]. apply list_elem_of_fmap. exists (x, l). split; [done|].
  by apply elem_of_map_to_list.
Qed.

Section Walk.
Context (tree : AreaTree).

(** [o'] extends [o] with what the nodes of [l] reach, and is closed there. *)
Definition walk_post (l : list string) (o o' : str_set) : Prop :=
  o ⊆ o' /\ (forall x, x ∈ l -> x ∈ o') /\
  (forall x, x ∈ o' -> x ∈ o \/ exists c, c ∈ l /\ reach tree c x) /\
  (forall x y, x ∈ o' -> x ∉ o -> edge tree x y -> y ∈ o').

Lemma walk_post_app l1 l2 o o1 o2 :
  walk_post l1 o o1 -> walk_post l2 o1 o2 -> walk_post (l1 ++ l2) o o2.
Proof.
  intros (A1 & A2 & A3 & A4) (B1 & B2 & B3 & B4). split; [set_solver|]. split.
  { intros x [?|?]%elem_of_app; auto. }
  split.
  - intros x [Hx|(c & Hc & Hr)]%B3; [destruct (A3 _ Hx) as [|(c & ? & ?)]|]; [by left|right..];
      exists c; rewrite elem_of_app; auto.
  - intros x y Hx Hn He. destruct (decide (x ∈ o1)) as [H1|H1]; [apply B1; by eapply A4|by eapply B4].
Qed.

Lemma fold_walk_post n l o :
  (forall x o, x ∈ tree_nodes tree -> (size (tree_nodes tree ∖ o) < n)%nat ->
     walk_post [x] o (walkDescendants n tree x o)) ->
  (forall x, x ∈ l -> x ∈ tree_nodes tree) -> (size (tree_nodes tree ∖ o) < n)%nat ->
  walk_post l o (foldl (fun o c => walkDescendants n tree c o) o l).
Proof.
  intros Hw. revert o. induction l as [|x l IH]; intros o Hl Hn; cbn [foldl].
  { split; [done|]. split; [by intros ? ?%not_elem_of_nil|]. split; [by left | done]. }
  assert (H1 : walk_post [x] o (walkDescendants n tree x o)) by (apply Hw; [apply Hl; left | done]).
  apply (walk_post_app [x] l _ (walkDescendants n tree x o)); [done|].
  apply IH; [intros y Hy; apply Hl; by right|]. destruct H1 as (Hs & _).
  eapply Nat.le_lt_trans; [|exact Hn]. apply subseteq_size. set_solver.
Qed.

Lemma walk_spec n root out :
  root ∈ tree_nodes tree -> (size (tree_nodes tree ∖ out) < n)%nat ->
  walk_post [root] out (walkDescendants n tree root out).
Proof.
  revert root out. induction n as [|n IH]; intros root out Hroot Hn; [lia|].
  cbn [walkDescendants]. destruct (set_has out root) eqn:Hin.
  { apply set_has_spec in Hin. split; [done|]. split; [set_solver|]. split; [by left|done]. }
  apply set_has_false in Hin.
  assert (Hlt : (size (tree_nodes tree ∖ ({[root]} ∪ out)) < n)%nat).
  { assert (size (tree_nodes tree ∖ ({[root]} ∪ out)) < size (tree_nodes tree ∖ out))%nat; [|lia].
    apply subset_size. set_solver. }
  destruct (fold_walk_post n (children tree root) ({[root]} ∪ out)) as (A1 & A2 & A3 & A4);
    [apply IH | by intros x Hx; eapply edge_node | done |].
  split; [set_solver|]. split; [set_solver|]. split.
  - intros x [Hx|(c & Hc & Hr)]%A3.
    + apply elem_of_union in Hx as [->%elem_of_singleton|]; [|by left].
      right. exists root. split; [left|apply rtc_refl].
    + right. exists root. split; [left|]. by eapply rtc_l.
  - intros x y Hx Hno He. destruct (decide (x = root)) as [->|Hne]; [by apply A2|].
    eapply A4; [done|set_solver|done].
Qed.

(** Closed and generated by the seeds: exactly what they reach. *)
Lemma walk_seeds l x :
  (forall x, x ∈ l -> x ∈ tree_nodes tree) ->
  x ∈ foldl (fun o c => walkDescendants (walk_fuel tree) tree c o) ∅ l <->
  exists c, c ∈ l /\ reach tree c x.
Proof.
  intros Hl. destruct (fold_walk_post (walk_fuel tree) l ∅) as (_ & A2 & A3 & A4).
  - intros y o Hy Ho. by apply walk_spec.
  - done.
  - unfold walk_fuel. rewrite difference_empty_L. lia.
  - split.
    + intros [?|?]%A3; [set_solver | done].
    + intros (c & Hc & Hr). apply A2 in Hc. revert Hc. induction Hr as [|a b d He _ IH]; [done|].
      intros Ha. apply IH. eapply A4; [done | set_solver | done].
Qed.

End Walk.

(** The slugs a declaration stands for. *)
Definition seeds (order : list string) (tree : AreaTree) (d : string) : list string :=
  if String.eqb d "*" then order
  else match tree !! d with None => [] | Some _ => [d] end.

Lemma ExpandAreas_seeds order tree decls :
  ExpandAreas order tree decls =
  foldl (fun o c => walkDescendants (walk_fuel tree) tree c o) ∅ (decls ≫= seeds order tree).
Proof.
  unfold ExpandAreas. generalize (∅ : str_set) as o.
  induction decls as [|d decls IH]; intros o; [done|].
  rewrite bind_cons, foldl_app. cbn [foldl]. rewrite IH. f_equal. unfold seeds.
  destruct (String.eqb d "*"); [done|]. by destruct (tree !! d).
Qed.

(** What a list of declarations denotes. *)
Definition area_denotes (tree : AreaTree) (decls : list string) (x : string) : Prop :=
  exists d, d ∈ decls /\
    ((d = "*" /\ exists k, is_Some (tree !! k) /\ reach tree k x) \/
     (d <> "*" /\ is_Some (tree !! d) /\ reach tree d x)).

Lemma ExpandAreas_spec order tree decls x :
  (forall k, k ∈ order <-> is_Some (tree !! k)) ->
  x ∈ ExpandAreas order tree decls <-> area_denotes tree decls x.
Proof.
  intros Hord. rewrite ExpandAreas_seeds, walk_seeds.
  2: { intros y. rewrite list_elem_of_bind. intros (d & Hy & _).
    unfold seeds in Hy. destruct (String.eqb d "*").
    - apply Hord in Hy. apply elem_of_union_l. by apply elem_of_dom.
    - destruct (tree !! d) eqn:Hd; [|by apply not_elem_of_nil in Hy].
      apply list_elem_of_singleton in Hy as ->. apply elem_of_union_l. by apply elem_of_dom. }
  unfold area_denotes. setoid_rewrite list_elem_of_bind. split.
  - intros (c & (d & Hc & Hd) & Hr). exists d. split; [done|]. unfold seeds in Hc.
    destruct (String.eqb_spec d "*") as [Heq|Hne]; [left | right].
    + split; [done|]. exists c. by rewrite <- Hord.
    + destruct (tree !! d) eqn:Ht; [|by apply not_elem_of_nil in Hc].
      apply list_elem_of_singleton in Hc as ->. split; [done|]. by split; [eexists|].
  - intros (d & Hd & [(-> & k & Hk & Hr)|(Hne & [l Hl] & Hr)]).
    + exists k. split; [|done]. exists "*". split; [|done]. by apply Hord.
    + exists d. split; [|done]. exists d. split; [|done]. unfold seeds.
      destruct (String.eqb_spec d "*"); [done|]. rewrite Hl. left.
Qed.

(** Area expansion is reachability: whatever order the map is ranged over,
    [ExpandAreas] returns exactly the declared areas that exist and all their
    transitive children (all areas and theirs for a star), terminating also on
    a cyclic tree. *)
Theorem ExpandAreas_reachability order tree decls x :
  (forall k, k ∈ order <-> is_Some (tree !! k)) ->
  x ∈ ExpandAreas order tree decls <-> area_denotes tree decls x.
Proof. apply ExpandAreas_spec. Qed.

Lemma ExpandAreas_reachability_witness :
  let tree : AreaTree := {["home" := ["kitchen"]; "kitchen" := ["home"]; "attic" := []]} in
  "kitchen" ∈ ExpandAreas ["attic"; "home"; "kitchen"] tree ["home"] <->
  area_denotes tree ["home"] "kitchen".
Proof.
  intros tree. apply (ExpandAreas_reachability ["attic"; "home"; "kitchen"] tree).
  intros k. rewrite <- elem_of_dom.
  assert (dom tree = {["home"; "kitchen"; "attic"]}) as -> by (vm_compute; reflexivity).
  set_solver.
Defined.

(** ** Role inheritance *)

Section Visit.
Context (g : RoleGraph).

Definition parent_of (x y : string) : Prop := y ∈ inherits g x.

(** [s] lies on a cycle. *)
Definition on_cycle (s : string) : Prop := tc parent_of s s.

Lemma parent_node x y : parent_of x y -> y ∈ graph_nodes g.
Proof. apply (edge_node g). Qed.

(** Finished nodes: closed under parents and on no cycle. *)
Definition finished (F : str_set) : Prop :=
  (forall x y, x ∈ F -> parent_of x y -> y ∈ F) /\ (forall x, x ∈ F -> ~ on_cycle x).

(** The nodes being visited all lead to [s]. *)
Definition path_to (path : str_set) (s : string) : Prop := forall p, p ∈ path -> tc parent_of p s.

Definition visit_post (l : list string) (path seen : str_set) (r : result compile_error str_set) : Prop :=
  match r with
  | Err (ErrCycle c) => on_cycle c /\ exists s, s ∈ l /\ rtc parent_of s c
  | Err _ => False
  | Ok seen' => seen ⊆ seen' /\ finished (seen' ∖ path) /\
      (forall s, s ∈ l -> s ∈ seen' ∖ path) /\
      (forall x, x ∈ seen' -> x ∈ seen \/ exists s, s ∈ l /\ rtc parent_of s x)
  end.

Lemma fold_visit_post n l path seen :
  (forall s seen, s ∈ graph_nodes g -> path_to path s ->
     path ⊆ seen -> finished (seen ∖ path) -> (size (graph_nodes g ∖ seen) < n)%nat ->
     visit_post [s] path seen (visit n g s path seen)) ->
  (forall s, s ∈ l -> s ∈ graph_nodes g /\ path_to path s) ->
  path ⊆ seen -> finished (seen ∖ path) -> (size (graph_nodes g ∖ seen) < n)%nat ->
  visit_post l path seen (foldM (fun sn p => visit n g p path sn) seen l).
Proof.
  intros Hv. revert seen. induction l as [|s l IH]; intros seen Hl Hp Hf Hn; cbn [foldM].
  { split; [done|]. split; [done|]. split; [by intros ? ?%not_elem_of_nil | by left]. }
  pose proof (Hv s seen (proj1 (Hl s (list_elem_of_here _ _))) (proj2 (Hl s (list_elem_of_here _ _)))
    Hp Hf Hn) as H1.
  destruct (visit n g s path seen) as [seen1|[c| |]]; cbn in H1; try done.
  2: { destruct H1 as (Hc & s' & Hs' & Hr). split; [done|]. exists s'. split; [set_solver|done]. }
  destruct H1 as (A1 & A2 & A3 & A4).
  assert (H2 : visit_post l path seen1 (foldM (fun sn p => visit n g p path sn) seen1 l)).
  { apply IH; [intros; apply Hl; by right | set_solver | done |].
    eapply Nat.le_lt_trans; [|exact Hn]. apply subseteq_size. set_solver. }
  destruct (foldM _ seen1 l) as [seen2|[c| |]]; cbn in H2; try done.
  - destruct H2 as (B1 & B2 & B3 & B4). split; [set_solver|]. split; [done|]. split.
    + intros x [->|Hx]%elem_of_cons; [|by apply B3].
      specialize (A3 s (list_elem_of_here _ _)). set_solver.
    + intros x [Hx|(s' & ? & ?)]%B4; [destruct (A4 _ Hx) as [|(s' & Hs & ?)]; [by left|] |];
        right; exists s'; split; try done; [set_solver | by right].
  - destruct H2 as (Hc & s' & Hs' & Hr). split; [done|]. exists s'. split; [by right|done].
Qed.

(** Finishing [s] once all its parents are finished. *)
Lemma finished_add F s :
  finished F -> s ∉ F -> (forall y, parent_of s y -> y ∈ F) -> finished ({[s]} ∪ F).
Proof.
  intros [Hc Ha] Hs Hy.
  assert (Hcl : forall x y, x ∈ F -> rtc parent_of x y -> y ∈ F).
  { intros x y Hx Hr. by eapply (rtc_closed parent_of (fun x => x ∈ F)). }
  split.
  - intros x y [->%elem_of_singleton|Hx]%elem_of_union Hp; apply elem_of_union_r; eauto.
  - intros x [->%elem_of_singleton|Hx]%elem_of_union; [|by apply Ha].
    intros Hcyc. apply Hs. inversion Hcyc as [|? y ? Hsy Hys]; subst; [by apply Hy|].
    eapply Hcl; [by apply Hy | by apply tc_rtc].
Qed.

Lemma visit_spec n s path seen :
  s ∈ graph_nodes g -> path_to path s -> path ⊆ seen -> finished (seen ∖ path) ->
  (size (graph_nodes g ∖ seen) < n)%nat -> visit_post [s] path seen (visit n g s path seen).
Proof.
  revert s path seen. induction n as [|n IH]; intros s path seen Hs Hpath Hp Hf Hn; [lia|].
  cbn [visit]. destruct (set_has path s) eqn:Hin.
  { apply set_has_spec in Hin. split; [by apply Hpath|]. exists s. split; [left|apply rtc_refl]. }
  apply set_has_false in Hin. destruct (set_has seen s) eqn:Hseen.
  { apply set_has_spec in Hseen. split; [done|]. split; [done|]. split; [set_solver|by left]. }
  apply set_has_false in Hseen.
  assert (Hlt : (size (graph_nodes g ∖ ({[s]} ∪ seen)) < n)%nat).
  { assert (size (graph_nodes g ∖ ({[s]} ∪ seen)) < size (graph_nodes g ∖ seen))%nat; [|lia].
    apply subset_size. set_solver. }
  assert (Hfold : visit_post (inherits g s) ({[s]} ∪ path) ({[s]} ∪ seen)
    (foldM (fun sn p => visit n g p ({[s]} ∪ path) sn) ({[s]} ∪ seen) (inherits g s))).
  { apply fold_visit_post; [intros; by apply IH| |set_solver| |done].
    - intros y Hy. split; [by eapply parent_node|].
      intros p [->%elem_of_singleton|Hpp]%elem_of_union; [by apply tc_once|].
      eapply tc_r; [by apply Hpath | done].
    - replace (({[s]} ∪ seen) ∖ ({[s]} ∪ path)) with (seen ∖ path) by set_solver. done. }
  destruct (foldM _ ({[s]} ∪ seen) (inherits g s)) as [seen'|[c| |]]; cbn in Hfold; [| |done..].
  - destruct Hfold as (A1 & A2 & A3 & A4). split; [set_solver|]. split; [|split].
    + assert (seen' ∖ path = {[s]} ∪ (seen' ∖ ({[s]} ∪ path))) as ->.
      { apply set_eq. intros x. destruct (decide (x = s)); set_solver. }
      apply finished_add; [done | set_solver | by apply A3].
    + set_solver.
    + intros x [Hx|(y & Hy & Hr)]%A4.
      * apply elem_of_union in Hx as [->%elem_of_singleton|]; [right|by left].
        exists s. split; [left|apply rtc_refl].
      * right. exists s. split; [left|]. by eapply rtc_l.
  - destruct Hfold as (Hc & y & Hy & Hr).
    split; [done|]. exists s. split; [left|]. by eapply rtc_l.
Qed.

(** The whole search for one role. The slug itself may not be a node of the
    graph: then it inherits nothing. *)
Lemma visit_root slug :
  match visit (visit_fuel g) g slug ∅ ∅ with
  | Err (ErrCycle c) => on_cycle c /\ rtc parent_of slug c
  | Err _ => False
  | Ok seen => (forall x, x ∈ seen <-> rtc parent_of slug x) /\
               (forall x, rtc parent_of slug x -> ~ on_cycle x)
  end.
Proof.
  assert (Hpost : visit_post [slug] ∅ ∅ (visit (visit_fuel g) g slug ∅ ∅)).
  { destruct (decide (slug ∈ graph_nodes g)) as [Hin|Hin].
    - apply visit_spec; [done | by intros p ?%not_elem_of_empty | done | | unfold visit_fuel; rewrite difference_empty_L; lia].
      split; set_solver.
    - assert (Hno : inherits g slug = []).
      { unfold inherits. destruct (g !! slug) eqn:Hg; [|done].
        exfalso. apply Hin, elem_of_union_l. by apply elem_of_dom. }
      unfold visit_fuel. cbn [visit]. rewrite (proj2 (set_has_false ∅ slug)) by set_solver.
      rewrite Hno. cbn [foldM].
      split; [set_solver|]. split; [|split; [set_solver|]].
      + split.
        * intros x y Hx Hy. assert (x = slug) as -> by set_solver. unfold parent_of in Hy.
          rewrite Hno in Hy. by apply not_elem_of_nil in Hy.
        * intros x Hx Hc. assert (x = slug) as -> by set_solver.
          inversion Hc as [? ? Hy|? ? ? Hy]; subst; unfold parent_of in Hy; rewrite Hno in Hy;
            by apply not_elem_of_nil in Hy.
      + intros x Hx. assert (x = slug) as -> by set_solver. right. exists slug.
        split; [left|apply rtc_refl]. }
  destruct (visit _ g slug ∅ ∅) as [seen|[c| |]]; cbn in Hpost; try done.
  - rewrite difference_empty_L in Hpost. destruct Hpost as (_ & [Hcl Hac] & Hs & Hx).
    assert (Hr : forall x, rtc parent_of slug x -> x ∈ seen).
    { intros x Hr. eapply (rtc_closed parent_of (fun x => x ∈ seen)); [exact Hcl | exact Hr | apply Hs; left]. }
    split; [|eauto]. intros x. split; [|by apply Hr].
    intros [?|(s & ->%list_elem_of_singleton & ?)]%Hx; [set_solver|done].
  - destruct Hpost as (Hc & s & ->%list_elem_of_singleton & Hr). done.
Qed.

End Visit.

(** [seen] is everything [slug] inherits, itself included, and no cycle is
    reachable from it. *)
Definition inherits_exactly (g : RoleGraph) (slug : string) (seen : str_set) : Prop :=
  (forall x, x ∈ seen <-> rtc (parent_of g) slug x) /\
  (forall x, rtc (parent_of g) slug x -> ~ on_cycle g x).

Lemma resolve_loop g order (m0 : gmap string str_set) :
  match foldM (fun out slug =>
    match visit (visit_fuel g) g slug ∅ ∅ with
    | Err e => Err e
    | Ok seen => Ok (<[slug := seen]> out)
    end) m0 order with
  | Err (ErrCycle c) => on_cycle g c
  | Err _ => False
  | Ok m => (forall k, k ∈ order -> exists seen, m !! k = Some seen /\ inherits_exactly g k seen) /\
            (forall k, k ∉ order -> m !! k = m0 !! k)
  end.
Proof.
  revert m0. induction order as [|s order IH]; intros m0; cbn [foldM].
  { split; [by intros k ?%not_elem_of_nil | done]. }
  pose proof (visit_root g s) as Hv. destruct (visit _ g s ∅ ∅) as [seen|[c| |]]; try done.
  2: apply Hv.
  specialize (IH (<[s := seen]> m0)).
  destruct (foldM _ (<[s := seen]> m0) order) as [m|]; [|done]. destruct IH as [H1 H2]. split.
  - intros k [->|Hk]%elem_of_cons; [|by apply H1].
    destruct (decide (s ∈ order)) as [Hin|Hni]; [by apply H1|].
    exists seen. rewrite H2, lookup_insert_eq by done. done.
  - intros k [Hne Hni]%not_elem_of_cons. rewrite H2, lookup_insert_ne by done. done.
Qed.

(** C13. Role inheritance: resolving either fails, naming a role that really
    inherits itself, or gives every declared role exactly the set of roles it
    transitively inherits, itself included, with no cycle reachable; in
    particular it succeeds on every acyclic graph and fails on every other. *)
Theorem resolveRoleInheritance_spec order g :
  match resolveRoleInheritance order g with
  | Err (ErrCycle c) => on_cycle g c
  | Err _ => False
  | Ok m => forall k, k ∈ order -> exists seen, m !! k = Some seen /\ inherits_exactly g k seen
  end.
Proof.
  unfold resolveRoleInheritance. pose proof (resolve_loop g order ∅) as H.
  destruct (foldM _ ∅ order); [apply H | done].
Qed.

(** ** Correctness of the policy compiler

    The compiled artifact holds exactly what the raw policies say: the rules of
    each role, and the allowlist of actions. The memo table of area expansions
    is sound because the bytes fed to the hash determine the selector. *)

(** ** The hashed bytes determine the selector *)

(** No NUL and no SOH byte, so the separators of [HashSelector] are unambiguous. *)
Fixpoint clean_str (s : string) : bool :=
  match s with
  | EmptyString => true
  | String c s' => negb (Ascii.eqb c (Ascii.ascii_of_N 0)) && negb (Ascii.eqb c (Ascii.ascii_of_N 1))
                   && clean_str s'
  end.

Lemma NUL_app x : NUL +:+ x = String (Ascii.ascii_of_N 0) x.
Proof. done. Qed.
Lemma SOH_app x : SOH +:+ x = String (Ascii.ascii_of_N 1) x.
Proof. done. Qed.
Lemma nil_app x : EmptyString +:+ x = x.
Proof. done. Qed.

Lemma clean_split s s' x x' :
  clean_str s = true -> clean_str s' = true ->
  s +:+ NUL +:+ x = s' +:+ NUL +:+ x' -> s = s' /\ x = x'.
Proof.
  revert s'. induction s as [|c s IH]; intros [|c' s'] Hs Hs' Heq;
    rewrite ?nil_app, ?str_app_cons, ?NUL_app in Heq.
  - by injection Heq as ->.
  - injection Heq as <- _. by cbn in Hs'.
  - injection Heq as -> _. by cbn in Hs.
  - rewrite <- !NUL_app in Heq. injection Heq as -> Heq. cbn in Hs, Hs'.
    apply andb_true_iff in Hs as [_ Hs], Hs' as [_ Hs'].
    destruct (IH s' Hs Hs' Heq) as [-> ->]. done.
Qed.

Lemma clean_not_SOH s x y : clean_str s = true -> s +:+ NUL +:+ x = SOH +:+ y -> False.
Proof.
  destruct s as [|c s]; intros Hs Heq;
    rewrite ?nil_app, ?str_app_cons, ?NUL_app, ?SOH_app in Heq; [done|].
  injection Heq as -> _. by cbn in Hs.
Qed.

Lemma items_inj l l' x x' :
  Forall (fun s => clean_str s = true) l -> Forall (fun s => clean_str s = true) l' ->
  foldr (fun s acc => s +:+ NUL +:+ acc) SOH l +:+ x =
  foldr (fun s acc => s +:+ NUL +:+ acc) SOH l' +:+ x' -> l = l' /\ x = x'.
Proof.
  intros Hl. revert l'. induction Hl as [|s l Hs Hl IH]; intros l' Hl'; destruct Hl' as [|s' l' Hs' Hl'];
    cbn [foldr]; intros Heq.
  - rewrite !SOH_app in Heq. by injection Heq as ->.
  - rewrite !str_app_assoc in Heq. symmetry in Heq. by apply clean_not_SOH in Heq.
  - rewrite !str_app_assoc in Heq. by apply clean_not_SOH in Heq.
  - rewrite !str_app_assoc in Heq. apply clean_split in Heq as [-> Heq]; [|done..].
    by apply IH in Heq as [-> ->].
Qed.

Definition sel_clean (rs : RawSelector) : Prop :=
  Forall (fun s => clean_str s = true) (RAreas rs).

Lemma hash_bytes_areas a c e a' c' e' :
  Forall (fun s => clean_str s = true) a -> Forall (fun s => clean_str s = true) a' ->
  hash_bytes a c e = hash_bytes a' c' e' -> a ≡ₚ a'.
Proof.
  intros Ha Ha'. unfold hash_bytes. intros Heq. unfold hash_items at 1 4 in Heq.
  rewrite !str_app_assoc in Heq.
  rewrite !str_app_cons, !nil_app, !NUL_app in Heq. injection Heq as Heq.
  assert (Hs : forall l, Forall (fun s => clean_str s = true) l ->
    Forall (fun s => clean_str s = true) (sort_strings l)).
  { intros l Hl. unfold sort_strings. by rewrite merge_sort_Permutation. }
  apply items_inj in Heq as [Heq _]; [|by apply Hs..].
  unfold sort_strings in Heq. rewrite <- (merge_sort_Permutation String.le a), Heq.
  apply merge_sort_Permutation.
Qed.

Section Compile.
Context (sha256_hex : string -> string) (sha_inj : forall x y, sha256_hex x = sha256_hex y -> x = y).
Context (areas_order : list string) (areas : AreaTree)
  (areas_ok : forall k, k ∈ areas_order <-> is_Some (areas !! k)).
Context (catalog : list CatalogAction).

Abbreviation hash_of rs :=
  (HashSelector sha256_hex (RAreas rs) (RClasses rs) (REntityIDs rs)).

Lemma ExpandAreas_perm l l' :
  l ≡ₚ l' -> ExpandAreas areas_order areas l = ExpandAreas areas_order areas l'.
Proof.
  intros Hp. apply set_eq. intros x. rewrite !ExpandAreas_spec by done.
  unfold area_denotes. by setoid_rewrite Hp.
Qed.

(** ** Selectors and rules, without the memo table *)

Definition plain_selector (rs : RawSelector) : CompiledSelector :=
  if RMatchAny rs then mkCompiledSelector "" ∅ ∅ ∅ true
  else mkCompiledSelector (hash_of rs) (ExpandAreas areas_order areas (RAreas rs))
         (list_to_set (RClasses rs)) (list_to_set (REntityIDs rs)) false.

Definition plain_rule (name : string) (rr : RawRule) : CompiledRule :=
  mkCompiledRule name (list_to_set (RVerbs rr)) (list_to_set (RServices rr))
    (plain_selector (RTargets rr)).

(** Every memoised expansion is right for every selector with that hash. *)
Definition sink_ok (sink : gmap string str_set) : Prop :=
  forall rs e, sel_clean rs -> sink !! hash_of rs = Some e ->
    e = ExpandAreas areas_order areas (RAreas rs).

Lemma compileSelector_ok rs sink :
  sel_clean rs -> sink_ok sink ->
  exists sink', compileSelector sha256_hex areas_order areas rs sink = (plain_selector rs, sink') /\
    sink_ok sink'.
Proof.
  intros Hc Hs. unfold compileSelector, plain_selector. destruct (RMatchAny rs); [eauto|].
  destruct (sink !! hash_of rs) as [e|] eqn:He.
  - rewrite (Hs rs e Hc He). eauto.
  - eexists. split; [done|]. intros rs' e' Hc'. rewrite lookup_insert_Some.
    intros [[Hh <-]|[_ He']]; [|by apply (Hs rs')].
    apply ExpandAreas_perm. by eapply hash_bytes_areas; [..|apply sha_inj].
Qed.

Lemma compileRule_Ok name rr sink isDeny cr sink' :
  sel_clean (RTargets rr) -> sink_ok sink ->
  compileRule sha256_hex areas_order areas catalog name rr sink isDeny = Ok (cr, sink') ->
  cr = plain_rule name rr /\ sink_ok sink'.
Proof.
  intros Hc Hs. unfold compileRule. destruct (check_services _ _ _); [done|].
  destruct (compileSelector_ok _ _ Hc Hs) as (sink1 & -> & Hs1).
  destruct (_ && _); [destruct (deny_non_entity _ _ _); [done|]|]; by intros [= <- <-].
Qed.

(** ** The allowlist *)

(** The rule allows the action [key] under [verb]. *)
Definition rule_allows (rr : RawRule) (verb key : string) : Prop :=
  verb ∈ (match RVerbs rr with [] => AllVerbs | vs => vs end) /\
  exists a, a ∈ catalog /\ CVerb a = verb /\ key = MakeActionKey (CService a) (CMethod a) /\
    (RServices rr = [] \/ CService a ∈ RServices rr).

Definition allowlisted (m : gmap (string * string) str_set) (role verb key : string) : Prop :=
  exists X, m !! (role, verb) = Some X /\ key ∈ X.

Lemma allow_one_spec role a m v r verb key :
  allowlisted (allow_one role a m v) r verb key <->
  allowlisted m r verb key \/
  (r = role /\ verb = v /\ v = CVerb a /\ key = MakeActionKey (CService a) (CMethod a)).
Proof.
  unfold allow_one. destruct (String.eqb_spec v (CVerb a)) as [Hv|Hv]; cbn [negb].
  2: naive_solver.
  unfold allowlisted. setoid_rewrite lookup_insert_Some. split.
  - intros (X & [[[= <- <-] <-]|[Hne HX]] & Hk); [|eauto].
    apply elem_of_union in Hk as [->%elem_of_singleton|Hk]; [naive_solver|].
    left. destruct (m !! (role, v)) as [Y|] eqn:HY; [eauto|set_solver].
  - intros [(X & HX & Hk)|(-> & -> & _ & ->)].
    + destruct (decide ((role, v) = (r, verb))) as [Heq|Hne]; [|eauto].
      rewrite Heq, HX. eexists. split; [by left|]. set_solver.
    + eexists. split; [by left|]. set_solver.
Qed.

Lemma allow_verbs_spec role a vs m r verb key :
  allowlisted (foldl (allow_one role a) m vs) r verb key <->
  allowlisted m r verb key \/
  (r = role /\ verb ∈ vs /\ verb = CVerb a /\ key = MakeActionKey (CService a) (CMethod a)).
Proof.
  revert m. induction vs as [|v vs IH]; intros m; cbn [foldl].
  - split; [by left|]. intros [?|(_ & H & _)]; [done|]. by apply not_elem_of_nil in H.
  - rewrite IH, allow_one_spec. setoid_rewrite elem_of_cons. naive_solver.
Qed.

Lemma addToActionAllowlist_spec role rr m r verb key :
  allowlisted (addToActionAllowlist catalog role rr m) r verb key <->
  allowlisted m r verb key \/ (r = role /\ rule_allows rr verb key).
Proof.
  unfold addToActionAllowlist, rule_allows.
  set (vs := match RVerbs rr with [] => AllVerbs | vs => vs end).
  revert m. induction catalog as [|a l IH]; intros m; cbn [foldl].
  - split; [by left|]. intros [?|(_ & _ & a & H & _)]; [done|]. by apply not_elem_of_nil in H.
  - rewrite IH. setoid_rewrite elem_of_cons.
    destruct (negb (bool_decide (RServices rr = [])) && negb (contains_eq (RServices rr) (CService a)))
      eqn:Hsv.
    + apply andb_true_iff in Hsv as [H1%negb_true_iff H2%negb_true_iff].
      apply bool_decide_eq_false in H1. apply not_true_iff_false in H2.
      rewrite contains_eq_spec in H2. naive_solver.
    + rewrite allow_verbs_spec. fold vs.
      assert (Hok : RServices rr = [] \/ CService a ∈ RServices rr).
      { apply andb_false_iff in Hsv as [H1%negb_false_iff|H2%negb_false_iff];
          [left; by apply bool_decide_eq_true in H1 | right; by apply contains_eq_spec in H2]. }
      naive_solver.
Qed.

(** ** The whole artifact *)

Abbreviation triple := (string * (string * RawRule))%type.

Definition rules_for (l : list triple) (role : string) : list CompiledRule :=
  (fun t => plain_rule t.2.1 t.2.2) <$> filter (fun t => t.1 = role) l.

(** [c] holds the allow rules [A] and the deny rules [D], each with its role
    and policy name. *)
Definition built (c : Compiled) (A D : list triple) : Prop :=
  sink_ok (AreaExpansion c) /\
  (forall role, rules_of (AllowRules c) role = rules_for A role) /\
  (forall role, rules_of (DenyRules c) role = rules_for D role) /\
  (forall role verb key, permitsAction (Some c) role verb key = true <->
     exists name rr, (role, (name, rr)) ∈ A /\ rule_allows rr verb key).

Lemma permitsAction_allowlisted c role verb key :
  permitsAction (Some c) role verb key = true <-> allowlisted (ActionAllowlist c) role verb key.
Proof.
  unfold permitsAction, allowlisted. destruct (ActionAllowlist c !! (role, verb)).
  - rewrite set_has_spec. naive_solver.
  - naive_solver.
Qed.

Lemma rules_of_insert m role cr r :
  rules_of (<[role := rules_of m role ++ [cr]]> m) r =
  rules_of m r ++ (if decide (role = r) then [cr] else []).
Proof.
  unfold rules_of. destruct (decide (role = r)) as [->|Hne].
  - by rewrite lookup_insert_eq.
  - by rewrite lookup_insert_ne, app_nil_r.
Qed.

Lemma rules_for_snoc l role name rr r :
  rules_for (l ++ [(role, (name, rr))]) r =
  rules_for l r ++ (if decide (role = r) then [plain_rule name rr] else []).
Proof.
  unfold rules_for. rewrite filter_app, fmap_app, filter_cons. cbn [fst snd]. by case_decide.
Qed.

Lemma add_allow_built name role c rr c' A D :
  sel_clean (RTargets rr) -> built c A D ->
  add_allow sha256_hex areas_order areas catalog name role c rr = Ok c' ->
  built c' (A ++ [(role, (name, rr))]) D.
Proof.
  intros Hc (Hs & Ha & Hd & Hp). unfold add_allow.
  destruct (compileRule _ _ _ _ _ _ _ _) as [[cr sink']|] eqn:Hcr; [|done]. intros [= <-].
  apply compileRule_Ok in Hcr as [-> Hs']; [|done..]. split; [done|]. split; [|split; [done|]].
  - intros r. cbn [AllowRules]. by rewrite rules_of_insert, rules_for_snoc, Ha.
  - intros r verb key. rewrite permitsAction_allowlisted. cbn [ActionAllowlist].
    rewrite addToActionAllowlist_spec, <- permitsAction_allowlisted, Hp.
    setoid_rewrite elem_of_app. setoid_rewrite list_elem_of_singleton. naive_solver.
Qed.

Lemma add_deny_built name role c rr c' A D :
  sel_clean (RTargets rr) -> built c A D ->
  add_deny sha256_hex areas_order areas catalog name role c rr = Ok c' ->
  built c' A (D ++ [(role, (name, rr))]).
Proof.
  intros Hc (Hs & Ha & Hd & Hp). unfold add_deny.
  destruct (compileRule _ _ _ _ _ _ _ _) as [[cr sink']|] eqn:Hcr; [|done]. intros [= <-].
  apply compileRule_Ok in Hcr as [-> Hs']; [|done..]. split; [done|]. split; [done|].
  split; [|done]. intros r. cbn [DenyRules]. by rewrite rules_of_insert, rules_for_snoc, Hd.
Qed.

(** A fold that extends the processed list element by element. *)
Lemma foldM_built {X} (f : Compiled -> X -> result compile_error Compiled)
    (P : Compiled -> list triple -> list triple -> Prop) (fa fd : X -> list triple) l c c' A D :
  (forall x c c' A D, x ∈ l -> P c A D -> f c x = Ok c' -> P c' (A ++ fa x) (D ++ fd x)) ->
  P c A D -> foldM f c l = Ok c' -> P c' (A ++ (l ≫= fa)) (D ++ (l ≫= fd)).
Proof.
  revert c A D. induction l as [|x l IH]; intros c A D Hf HP; cbn [foldM].
  - intros [= <-]. cbn. by rewrite !app_nil_r.
  - destruct (f c x) as [c1|] eqn:Hx; [|done]. intros Hl. rewrite !bind_cons, !app_assoc.
    eapply IH; [|by eapply Hf; [left|..]|done]. intros. eapply Hf; [by right|done|done].
Qed.

Definition triples (get : RawPolicy -> list RawRule) (rp : RawPolicy) : list triple :=
  Subjects rp ≫= fun role => (fun rr => (role, (RName rp, rr))) <$> get rp.

Definition allow_triples (raw : list RawPolicy) : list triple := raw ≫= triples Allow.
Definition deny_triples (raw : list RawPolicy) : list triple := raw ≫= triples Deny.

Definition raw_clean (raw : list RawPolicy) : Prop :=
  forall rp rr, rp ∈ raw -> rr ∈ Allow rp ++ Deny rp -> sel_clean (RTargets rr).

Lemma fmap_as_bind {X} (f : X -> triple) l : f <$> l = l ≫= (fun x => [f x]).
Proof. induction l as [|x l IH]; [done|]. by rewrite fmap_cons, bind_cons, IH. Qed.

Lemma add_subject_built rp c role c' A D :
  (forall rr, rr ∈ Allow rp ++ Deny rp -> sel_clean (RTargets rr)) -> built c A D ->
  add_subject sha256_hex areas_order areas catalog rp c role = Ok c' ->
  built c' (A ++ ((fun rr => (role, (RName rp, rr))) <$> Allow rp))
    (D ++ ((fun rr => (role, (RName rp, rr))) <$> Deny rp)).
Proof.
  intros Hc Hb. unfold add_subject.
  destruct (foldM _ c (Allow rp)) as [c1|] eqn:Ha; [|done]. intros Hd.
  assert (Hnil : forall (l : list RawRule), l ≫= (fun _ => []) = ([] : list triple)).
  { induction l; [done|]. by rewrite bind_cons. }
  assert (H1 : built c1 (A ++ (Allow rp ≫= fun rr => [(role, (RName rp, rr))]))
    (D ++ (Allow rp ≫= fun _ => []))).
  { eapply foldM_built; [|exact Hb|exact Ha]. intros rr c2 c3 A2 D2 Hin H2 H3. rewrite app_nil_r.
    eapply add_allow_built; [apply Hc; set_solver|done|done]. }
  rewrite Hnil, app_nil_r, <- fmap_as_bind in H1.
  assert (H2 : built c' ((A ++ ((fun rr => (role, (RName rp, rr))) <$> Allow rp)) ++ (Deny rp ≫= fun _ => []))
    (D ++ (Deny rp ≫= fun rr => [(role, (RName rp, rr))]))).
  { eapply foldM_built; [|exact H1|exact Hd]. intros rr c2 c3 A2 D2 Hin H2 H3. rewrite app_nil_r.
    eapply add_deny_built; [apply Hc; set_solver|done|done]. }
  by rewrite Hnil, app_nil_r, <- fmap_as_bind in H2.
Qed.

Lemma Compile_built roles_order generation raw roles c gen' :
  raw_clean raw ->
  Compile sha256_hex areas_order areas catalog roles_order generation raw roles = (gen', Ok c) ->
  built c (allow_triples raw) (deny_triples raw).
Proof.
  intros Hc. unfold Compile. destruct (resolveRoleInheritance roles_order roles) as [inh|]; [|done].
  intros [= <- Hf].
  assert (H0 : built (mkCompiled (u64 (generation + 1)) ∅ ∅ ∅ ∅ inh) [] []).
  { split; [intros rs e _ H; cbn in H; by apply lookup_empty_Some in H|].
    split; [intros r; unfold rules_of; cbn; by rewrite lookup_empty|].
    split; [intros r; unfold rules_of; cbn; by rewrite lookup_empty|].
    intros r v k. unfold permitsAction. cbn. rewrite lookup_empty. split; [done|].
    intros (? & ? & H & _). by apply not_elem_of_nil in H. }
  change (built c ([] ++ (raw ≫= triples Allow)) ([] ++ (raw ≫= triples Deny))).
  eapply foldM_built; [|exact H0|exact Hf].
  intros rp c1 c2 A D Hin HP Hs. unfold triples.
  eapply foldM_built; [|exact HP|exact Hs]. intros role c3 c4 A3 D3 _ H3 H4.
  eapply add_subject_built; [|done|done]. intros rr Hrr. by eapply Hc.
Qed.

End Compile.
