(* ===== verification/AuthorizeFacts.v ===== *)
(** * Correctness of authorization

    [Authorize] on a compiled artifact decides exactly what the raw policies
    say; deny rules win; [FilterEntities] and [Explain] agree with it; a token
    scope contained in another grants nothing the other does not. *)

From S2P Require Import Prelude Sorting Policy PolicyFacts.

(** ** Matching *)

Lemma SelectorMatches_spec sel t :
  SelectorMatches sel t = true <->
  MatchAny sel = true \/ TArea t ∈ AreaSet sel \/ TClass t ∈ ClassSet sel \/ TID t ∈ EntitySet sel.
Proof.
  assert (Hs : forall X x, set_nonempty X && set_has X x = true <-> x ∈ X).
  { intros X x. rewrite andb_true_iff, set_nonempty_spec, set_has_spec. set_solver. }
  unfold SelectorMatches. destruct (MatchAny sel); [naive_solver|].
  rewrite <- !Hs.
  destruct (set_nonempty (AreaSet sel) && _); [naive_solver|].
  destruct (set_nonempty (ClassSet sel) && _); [naive_solver|].
  destruct (set_nonempty (EntitySet sel) && _); naive_solver.
Qed.

Lemma ruleMatches_spec r a t :
  ruleMatches r a t = true <->
  (Verbs r = ∅ \/ AcVerb a ∈ Verbs r) /\ (Services r = ∅ \/ AcService a ∈ Services r) /\
  SelectorMatches (Targets r) t = true.
Proof.
  assert (Hs : forall X x, set_nonempty X && negb (set_has X x) = false <-> X = ∅ \/ x ∈ X).
  { intros X x. rewrite andb_false_iff, negb_false_iff, set_has_spec.
    unfold set_nonempty. rewrite negb_false_iff, bool_decide_eq_true. done. }
  unfold ruleMatches. rewrite <- !Hs.
  destruct (set_nonempty (Verbs r) && _); [naive_solver|].
  destruct (set_nonempty (Services r) && _); naive_solver.
Qed.

(** What a raw rule says about an action on a target. *)
Definition rule_applies (areas : AreaTree) (rr : RawRule) (a : Action) (t : Target) : Prop :=
  (RVerbs rr = [] \/ AcVerb a ∈ RVerbs rr) /\
  (RServices rr = [] \/ AcService a ∈ RServices rr) /\
  let rs := RTargets rr in
  RMatchAny rs = true \/ area_denotes areas (RAreas rs) (TArea t) \/
  TClass t ∈ RClasses rs \/ TID t ∈ REntityIDs rs.

Section Rules.
Context (sha256_hex : string -> string).
Context (areas_order : list string) (areas : AreaTree)
  (areas_ok : forall k, k ∈ areas_order <-> is_Some (areas !! k)).

Lemma plain_rule_applies name rr a t :
  ruleMatches (plain_rule sha256_hex areas_order areas name rr) a t = true <->
  rule_applies areas rr a t.
Proof.
  assert (Hl : forall (l : list string) x, (list_to_set l : str_set) = ∅ \/ x ∈ (list_to_set l : str_set)
    <-> l = [] \/ x ∈ l).
  { intros l x. rewrite elem_of_list_to_set. destruct l; [set_solver|].
    split; [intros [He|?]; [exfalso; set_solver|by right] | intros [?|?]; [done|by right]]. }
  rewrite ruleMatches_spec, SelectorMatches_spec. unfold plain_rule, rule_applies, plain_selector.
  cbn [Verbs Services Targets]. rewrite !Hl. cbn zeta.
  destruct (RMatchAny (RTargets rr)); cbn [MatchAny AreaSet ClassSet EntitySet]; [naive_solver|].
  rewrite ExpandAreas_spec, !elem_of_list_to_set by done. done.
Qed.

End Rules.

(** ** Decisions *)

Definition permitted (o : option ErrForbidden) : Prop := o = None.

(** The token scope in the context, if any, grants the action (and, for an
    entity, the target). *)
Definition scope_grants (scope : option CompiledTokenScope) (key : string) (t : AuthTarget) : Prop :=
  match scope with
  | None => True
  | Some sc => Scope_PermitsAction sc key = true /\
      (AuKind t = "entity" -> Scope_PermitsTarget sc (targetFromAuth t) = true)
  end.

Lemma existsb_elem {A} (f : A -> bool) l : existsb f l = true <-> exists x, x ∈ l /\ f x = true.
Proof. rewrite existsb_exists. by setoid_rewrite <- list_elem_of_In. Qed.

Lemma first_deny_None c roles a t :
  first_deny c roles a t = None <->
  forall role rule, role ∈ roles -> rule ∈ rules_of (DenyRules c) role -> ruleMatches rule a t = false.
Proof.
  unfold first_deny. rewrite fmap_None, list_find_None, Forall_forall.
  setoid_rewrite list_elem_of_bind. setoid_rewrite not_true_iff_false. naive_solver.
Qed.

(** The decision in terms of the compiled artifact. *)
Lemma Authorize_spec r c scope p a t :
  rt_compiled r = Some c ->
  Authorize r scope p a t = None <->
  PrKind p = "system" \/
  ((exists role, role ∈ rt_roles r p /\
      permitsAction (Some c) role (AcVerb a) (MakeActionKey (AcService a) (AcMethod a)) = true) /\
   scope_grants scope (MakeActionKey (AcService a) (AcMethod a)) t /\
   (AuKind t = "entity" ->
      (exists role rule, role ∈ rt_roles r p /\ rule ∈ rules_of (AllowRules c) role /\
         ruleMatches rule a (targetFromAuth t) = true) /\
      (forall role rule, role ∈ rt_roles r p -> rule ∈ rules_of (DenyRules c) role ->
         ruleMatches rule a (targetFromAuth t) = false))).
Proof.
  intros Hc. unfold Authorize. rewrite Hc.
  destruct (String.eqb_spec (PrKind p) "system") as [Hs|Hs]; [naive_solver|].
  set (key := MakeActionKey _ _).
  destruct (existsb (fun role => permitsAction (Some c) role (AcVerb a) key) (rt_roles r p)) eqn:Hp;
    cbn [negb].
  2: { apply not_true_iff_false in Hp. rewrite existsb_elem in Hp. naive_solver. }
  apply existsb_elem in Hp as (role0 & Hrole0 & Hperm0).
  rewrite <- first_deny_None.
  assert (Hallow : existsb (fun role => existsb (fun rule => ruleMatches rule a (targetFromAuth t))
      (rules_of (AllowRules c) role)) (rt_roles r p) = true <->
    exists role rule, role ∈ rt_roles r p /\ rule ∈ rules_of (AllowRules c) role /\
      ruleMatches rule a (targetFromAuth t) = true).
  { rewrite existsb_elem. setoid_rewrite existsb_elem. naive_solver. }
  rewrite <- Hallow. clear Hallow.
  destruct (existsb _ (rt_roles r p)) eqn:Hal.
  all: destruct (first_deny c (rt_roles r p) a (targetFromAuth t)) eqn:Hfd.
  all: destruct scope as [sc|]; unfold scope_grants, Scope_Allow, Scope_PermitsAction, Scope_PermitsTarget;
    cbn [fst snd].
  all: destruct (String.eqb_spec (AuKind t) "entity") as [He|He]; cbn [negb];
    try destruct (actionAllowed sc key); try destruct (targetAllowed sc (targetFromAuth t)); cbn [negb andb];
    naive_solver.
Qed.

(** ** End to end *)

(** Raw policies grant an action on a target to a set of roles. *)
Definition policy_grants (areas : AreaTree) (catalog : list CatalogAction) (raw : list RawPolicy)
    (roles : list string) (a : Action) (t : AuthTarget) : Prop :=
  (exists rp role rr, rp ∈ raw /\ role ∈ Subjects rp /\ role ∈ roles /\ rr ∈ Allow rp /\
     rule_allows catalog rr (AcVerb a) (MakeActionKey (AcService a) (AcMethod a))) /\
  (AuKind t = "entity" ->
     (exists rp role rr, rp ∈ raw /\ role ∈ Subjects rp /\ role ∈ roles /\ rr ∈ Allow rp /\
        rule_applies areas rr a (targetFromAuth t)) /\
     (forall rp role rr, rp ∈ raw -> role ∈ Subjects rp -> role ∈ roles -> rr ∈ Deny rp ->
        ~ rule_applies areas rr a (targetFromAuth t))).

Lemma triples_elem get raw role name rr :
  (role, (name, rr)) ∈ (raw ≫= triples get) <->
  exists rp, rp ∈ raw /\ role ∈ Subjects rp /\ rr ∈ get rp /\ name = RName rp.
Proof.
  rewrite list_elem_of_bind. unfold triples. setoid_rewrite list_elem_of_bind.
  setoid_rewrite list_elem_of_fmap. naive_solver.
Qed.

(** C3. Authorization decides what the policies say: for an artifact compiled
    from raw policies, a request is permitted exactly when the principal is the
    system, or some allow rule of one of its roles covers the action, the token
    scope grants it, and, for an entity, some allow rule covers the target and
    no deny rule of any of its roles does. *)
Theorem Authorize_end_to_end sha256_hex areas_order areas catalog roles_order generation raw roles
    gen' c r scope p a t :
  (forall x y, sha256_hex x = sha256_hex y -> x = y) ->
  (forall k, k ∈ areas_order <-> is_Some (areas !! k)) -> raw_clean raw ->
  Compile sha256_hex areas_order areas catalog roles_order generation raw roles = (gen', Ok c) ->
  rt_compiled r = Some c ->
  Authorize r scope p a t = None <->
  PrKind p = "system" \/
  (policy_grants areas catalog raw (rt_roles r p) a t /\
   scope_grants scope (MakeActionKey (AcService a) (AcMethod a)) t).
Proof.
  intros Hsha Hord Hclean Hcomp Hr.
  rewrite (Authorize_spec r c) by done.
  destruct (Compile_built sha256_hex Hsha areas_order areas Hord catalog _ _ _ _ _ _ Hclean Hcomp)
    as (_ & Ha & Hd & Hp).
  assert (Hrules : forall get m role rule,
    (forall role, rules_of m role = rules_for sha256_hex areas_order areas (raw ≫= triples get) role) ->
    rule ∈ rules_of m role <-> exists rp rr, rp ∈ raw /\ role ∈ Subjects rp /\ rr ∈ get rp /\
      rule = plain_rule sha256_hex areas_order areas (RName rp) rr).
  { intros get m role rule Hm. rewrite Hm. unfold rules_for. rewrite list_elem_of_fmap.
    setoid_rewrite list_elem_of_filter. split.
    - intros ([role' [name rr]] & -> & <- & (rp & ? & ? & ? & ->)%triples_elem). cbn. eauto 10.
    - intros (rp & rr & ? & ? & ? & ->). exists (role, (RName rp, rr)). split; [done|].
      split; [done|]. apply triples_elem. eauto. }
  unfold policy_grants. setoid_rewrite Hp. setoid_rewrite triples_elem.
  setoid_rewrite (fun role rule => Hrules Allow _ role rule Ha).
  setoid_rewrite (fun role rule => Hrules Deny _ role rule Hd).
  setoid_rewrite <- (plain_rule_applies sha256_hex areas_order areas Hord "").
  assert (Hname : forall n rr t', ruleMatches (plain_rule sha256_hex areas_order areas n rr) a t' =
    ruleMatches (plain_rule sha256_hex areas_order areas "" rr) a t') by done.
  split.
  - intros [?|((role & Hrole & name & rr & (rp & ? & ? & ? & ->) & ?) & Hsc & He)]; [by left|right].
    split; [|done]. split; [eauto 10|]. intros Hk. destruct (He Hk) as [HE1 HE2]. split.
    + destruct HE1 as (role' & rule & ? & (rp' & rr' & ? & ? & ? & ->) & Hm). rewrite Hname in Hm. eauto 10.
    + intros rp' role' rr' ? ? ? ? Hm. rewrite <- (Hname (RName rp')) in Hm.
      rewrite (HE2 role' _) in Hm; [done|done|eauto 10].
  - intros [?|(((rp & role & rr & ? & ? & ? & ? & ?) & He) & Hsc)]; [by left|right].
    split; [eauto 15|]. split; [done|]. intros Hk. destruct (He Hk) as [HE1 HE2]. split.
    + destruct HE1 as (rp' & role' & rr' & ? & ? & ? & ? & Hm). rewrite <- (Hname (RName rp')) in Hm.
      eauto 15.
    + intros role' rule ? (rp' & rr' & ? & ? & ? & ->). apply not_true_iff_false.
      rewrite Hname. eauto.
Qed.

(** ** Listings *)

(** [FilterEntities] partitions its input: every candidate lands in exactly
    one of the two lists, in its original order, and the allowed ones are
    exactly those [Authorize] permits and no deny rule of the principal's roles
    covers under any verb. *)
Theorem FilterEntities_partition r scope p verb candidates :
  let ok t := bool_decide (Authorize r scope p (mkAction "EntityService" "Subscribe" verb)
                 (mkAuthTarget "entity" (TID t) (TArea t) (TClass t) None) = None) &&
              negb (explicitly_denied (rt_compiled r) (rt_roles r p) t) in
  FilterEntities r scope p verb candidates =
  (filter (fun t => ok t = true) candidates, filter (fun t => ok t = false) candidates).
Proof.
  intros ok. induction candidates as [|t l IH]; [done|]. cbn [FilterEntities]. rewrite IH.
  rewrite !filter_cons.
  destruct (Authorize _ _ _ _ _) as [e|] eqn:Ha.
  - assert (Hok : ok t = false) by (unfold ok; by rewrite Ha, bool_decide_false).
    by rewrite decide_False, decide_True by congruence.
  - destruct (explicitly_denied _ _ _) eqn:Hd.
    + assert (Hok : ok t = false) by (unfold ok; by rewrite Hd, andb_false_r).
      by rewrite decide_False, decide_True by congruence.
    + assert (Hok : ok t = true) by (unfold ok; by rewrite Ha, Hd, bool_decide_true).
      by rewrite decide_True, decide_False by congruence.
Qed.

(** ** Explain *)

Lemma existsb_perm {A} (f : A -> bool) l l' : l ≡ₚ l' -> existsb f l = existsb f l'.
Proof. intros Hp. apply Bool.eq_iff_eq_true. rewrite !existsb_elem. by setoid_rewrite Hp. Qed.

Lemma first_deny_perm c l l' a t :
  l ≡ₚ l' -> first_deny c l a t = None <-> first_deny c l' a t = None.
Proof. intros Hp. rewrite !first_deny_None. by setoid_rewrite Hp. Qed.

(** [Explain] tells the truth: with a policy loaded and no token scope, its
    decision and reason are those of [Authorize], whatever order the role set
    is ranged over in. *)
Theorem Explain_agrees r c p a t :
  rt_compiled r = Some c ->
  match Authorize r None p a t with
  | None => Decision (Explain r p a t) = "ALLOWED"
  | Some e => Decision (Explain r p a t) = "DENIED" /\ TrReason (Explain r p a t) = Reason e
  end.
Proof.
  intros Hc. unfold Authorize, Explain. rewrite Hc.
  destruct (String.eqb (PrKind p) "system"); [done|].
  set (roles := rt_roles r p).
  assert (Hp : sortedRoles roles ≡ₚ roles) by apply insertion_sort_spec.
  rewrite (existsb_perm _ _ _ Hp). destruct (negb (existsb _ roles)); [done|].
  destruct (String.eqb (AuKind t) "entity"); [|done].
  rewrite (existsb_perm _ _ _ Hp). destruct (negb (existsb _ roles)); [done|].
  pose proof (first_deny_perm c _ _ a (targetFromAuth t) Hp) as Hf.
  destruct (first_deny c (sortedRoles roles) a _), (first_deny c roles a _); try done; naive_solver.
Qed.

(** ** Rules with no effect *)

(** A deny rule without a target selector denies nothing: its compiled
    selector is empty and matches no target, and requests that carry no entity
    are never checked against deny rules. Such a rule is nevertheless the only
    form the compiler accepts for denying a non-entity action. *)
Theorem empty_deny_has_no_effect name rr sha256_hex areas_order areas a t :
  RTargets rr = mkRawSelector [] [] [] false ->
  ruleMatches (plain_rule sha256_hex areas_order areas name rr) a t = false.
Proof.
  intros Hr. apply not_true_iff_false. rewrite ruleMatches_spec, SelectorMatches_spec.
  unfold plain_rule, plain_selector. rewrite Hr. cbn. set_solver.
Qed.

(** ** Token scopes *)

Definition pattern_ok (p : string) : Prop := has_suffix p "*" = false.

Lemma covers_sound parent child action :
  tokenPatternCovers parent child = true -> tokenPatternMatches child action = true ->
  tokenPatternMatches parent action = true.
Proof.
  unfold tokenPatternCovers, tokenPatternMatches.
  destruct (has_suffix parent "*"); cbn [negb].
  - destruct (has_suffix child "*"); cbn [negb].
    + intros H1 H2. by eapply has_prefix_trans.
    + intros H1 ->%String.eqb_eq. done.
  - intros [H1%negb_true_iff H2]%andb_true_iff. rewrite H1. intros ->%String.eqb_eq. done.
Qed.

Lemma actionAllowed_spec s action :
  actionAllowed s action = true <->
  hasActionNarrowing s = false \/ action ∈ AllowedActions s \/
  exists p, p ∈ AllowedTools s ++ AllowedServices s /\ tokenPatternMatches p action = true.
Proof.
  unfold actionAllowed, hasActionNarrowing.
  destruct (set_nonempty (AllowedActions s)) eqn:H1; cbn [negb andb orb];
    [|destruct (bool_decide (AllowedTools s = [])); cbn [negb andb orb];
      [destruct (bool_decide (AllowedServices s = [])); cbn [negb]; [naive_solver|]|]].
  all: destruct (set_has (AllowedActions s) action) eqn:H2;
    [apply set_has_spec in H2; naive_solver | apply set_has_false in H2].
  all: destruct (existsb (fun p => tokenPatternMatches p action) (AllowedTools s)) eqn:H3;
    [apply existsb_elem in H3; setoid_rewrite elem_of_app; naive_solver|].
  all: apply not_true_iff_false in H3; rewrite existsb_elem in *;
    setoid_rewrite elem_of_app; naive_solver.
Qed.

(** The exact entries of a scope carry no wildcard. *)
Definition actions_exact (s : CompiledTokenScope) : Prop :=
  forall p, p ∈ AllowedActions s -> has_suffix p "*" = false.

Lemma coversPattern_sound s child action :
  actions_exact s -> coversPattern s child = true -> tokenPatternMatches child action = true ->
  actionAllowed s action = true.
Proof.
  intros Hex. unfold coversPattern. rewrite !orb_true_iff, !existsb_elem, actionAllowed_spec.
  setoid_rewrite elem_of_elements. setoid_rewrite elem_of_app. intros Hc Hm. right.
  destruct Hc as [[(p & Hp & Hc)|(p & Hp & Hc)]|(p & Hp & Hc)];
    pose proof (covers_sound _ _ _ Hc Hm) as Hpm; [left|right; eauto..].
  unfold tokenPatternMatches in Hpm. rewrite (Hex p Hp) in Hpm.
  apply String.eqb_eq in Hpm as <-. done.
Qed.

Lemma selectorIsEmpty_spec sel :
  selectorIsEmpty sel = true <->
  MatchAny sel = false /\ AreaSet sel = ∅ /\ ClassSet sel = ∅ /\ EntitySet sel = ∅.
Proof.
  unfold selectorIsEmpty, set_nonempty.
  rewrite !negb_involutive, !andb_true_iff, negb_true_iff, !bool_decide_eq_true. tauto.
Qed.

Lemma targetAllowed_spec s t :
  targetAllowed s t = true <->
  selectorIsEmpty (AllowedTargets s) = true \/ SelectorMatches (AllowedTargets s) t = true.
Proof.
  unfold targetAllowed. rewrite selectorIsEmpty_spec, SelectorMatches_spec.
  destruct (MatchAny (AllowedTargets s)) eqn:Hm; [naive_solver|].
  destruct (negb _ && negb _ && negb _) eqn:He.
  - unfold set_nonempty in He. rewrite !negb_involutive, !andb_true_iff, !bool_decide_eq_true in He.
    naive_solver.
  - rewrite SelectorMatches_spec, Hm. split; [naive_solver|]. intros [(_ & H1 & H2 & H3)|?]; [|done].
    unfold set_nonempty in He. by rewrite H1, H2, H3 in He.
Qed.

Lemma Contains_grants s child action t :
  actions_exact s -> Contains s child = true ->
  Scope_Allow child action t = true -> Scope_Allow s action t = true.
Proof.
  intros Hex. unfold Contains, Scope_Allow. rewrite !andb_true_iff. intros [Ha Ht] [Hca Hct]. split.
  - unfold containsActions in Ha.
    destruct (hasActionNarrowing s) eqn:Hn; cbn [negb] in Ha; [|apply actionAllowed_spec; auto].
    destruct (hasActionNarrowing child) eqn:Hnc; cbn [negb] in Ha; [|done].
    rewrite !andb_true_iff, !forallb_forall in Ha. destruct Ha as [[H1 H2] H3].
    setoid_rewrite <- list_elem_of_In in H1. setoid_rewrite <- list_elem_of_In in H2.
    setoid_rewrite <- list_elem_of_In in H3.
    apply actionAllowed_spec in Hca as [?|[Hin|(p & Hp & Hm)]]; [congruence| |].
    + apply H1. by apply elem_of_elements.
    + apply elem_of_app in Hp as [Hp|Hp]; eapply coversPattern_sound; eauto.
  - unfold containsTargets in Ht. apply targetAllowed_spec. rewrite SelectorMatches_spec.
    destruct (MatchAny (AllowedTargets s)) eqn:Hm; [by right; left|].
    destruct (selectorIsEmpty (AllowedTargets s)); [by left|right].
    destruct (selectorIsEmpty (AllowedTargets child)) eqn:Hec; cbn [orb] in Ht; [done|].
    destruct (MatchAny (AllowedTargets child)) eqn:Hmc; [done|].
    unfold setContainsAll in Ht. rewrite !andb_true_iff, !bool_decide_eq_true in Ht.
    apply targetAllowed_spec in Hct as [?|Hsel]; [congruence|].
    rewrite SelectorMatches_spec, Hmc in Hsel. set_solver.
Qed.

(** Token containment is sound: if an issuer's scope contains a child scope,
    the child permits no action on any target that the issuer's does not,
    provided the issuer's exact actions carry no wildcard. *)
Theorem Contains_sound s child action t :
  actions_exact s -> Contains s child = true ->
  Scope_Allow child action t = true -> Scope_Allow s action t = true.
Proof. apply Contains_grants. Qed.

(** Without that proviso containment is unsound: a scope whose exact action
    list holds "Svc.*" contains a scope that allows every action of the
    service by pattern, yet permits none of them itself. *)
Theorem Contains_unsound_on_wildcard_actions :
  let s := mkCompiledTokenScope {["Svc.*"]} [] [] CompiledSelector_zero in
  let child := mkCompiledTokenScope ∅ ["Svc.*"] [] CompiledSelector_zero in
  let t := mkTarget "entity" "e" "a" "c" in
  Contains s child = true /\ Scope_Allow child "Svc.Delete" t = true /\
  Scope_Allow s "Svc.Delete" t = false.
Proof. split_and!; vm_compute; reflexivity. Qed.

(** ** Witnesses *)

Module PolicyDemo.

Definition tree : AreaTree := {["home" := ["kitchen"]; "kitchen" := []]}.
Definition catalog : list CatalogAction := [mkCatalogAction "EntityService" "Call" "call" true].
Definition raw : list RawPolicy :=
  [mkRawPolicy "family" ["member"]
     [mkRawRule ["call"] (mkRawSelector ["home"] [] [] false) ["EntityService"]]
     [mkRawRule [] (mkRawSelector [] ["lock"] [] false) []]].
Definition compiled : option Compiled :=
  match Compile (fun b => b) ["kitchen"; "home"] tree catalog ["member"] 0 raw {["member" := []]} with
  | (_, Ok c) => Some c
  | _ => None
  end.
Definition rt : Runtime := mkRuntime (fun _ => ["member"]) compiled [].
Definition call : Action := mkAction "EntityService" "Call" "call".
Definition lamp : AuthTarget := mkAuthTarget "entity" "light.lamp" "kitchen" "light" None.

Lemma tree_keys k : k ∈ ["kitchen"; "home"] <-> is_Some (tree !! k).
Proof.
  rewrite <- elem_of_dom.
  assert (dom tree = {["home"; "kitchen"]}) as -> by (vm_compute; reflexivity). set_solver.
Qed.

Lemma raw_is_clean : raw_clean raw.
Proof.
  intros rp rr Hrp Hrr. unfold raw in Hrp. apply list_elem_of_singleton in Hrp as ->.
  cbn in Hrr. apply elem_of_cons in Hrr as [->| ->%list_elem_of_singleton]; repeat constructor.
Qed.

Lemma compiles : exists c, compiled = Some c /\
  Compile (fun b => b) ["kitchen"; "home"] tree catalog ["member"] 0 raw {["member" := []]} = (1, Ok c).
Proof. eexists. split; vm_compute; reflexivity. Qed.

End PolicyDemo.

Lemma Authorize_end_to_end_witness :
  Authorize PolicyDemo.rt None (mkPrincipal "u" "user") PolicyDemo.call PolicyDemo.lamp = None <->
  PrKind (mkPrincipal "u" "user") = "system" \/
  (policy_grants PolicyDemo.tree PolicyDemo.catalog PolicyDemo.raw ["member"] PolicyDemo.call
     PolicyDemo.lamp /\
   scope_grants None "EntityService.Call" PolicyDemo.lamp).
Proof.
  destruct PolicyDemo.compiles as (c & Hc & Hcomp).
  apply (Authorize_end_to_end (fun b => b) ["kitchen"; "home"] PolicyDemo.tree PolicyDemo.catalog
    ["member"] 0 PolicyDemo.raw {["member" := []]} 1 c PolicyDemo.rt).
  - done.
  - exact PolicyDemo.tree_keys.
  - exact PolicyDemo.raw_is_clean.
  - exact Hcomp.
  - exact Hc.
Defined.

Lemma Explain_agrees_witness :
  Decision (Explain PolicyDemo.rt (mkPrincipal "u" "user") PolicyDemo.call PolicyDemo.lamp) = "ALLOWED".
Proof.
  destruct PolicyDemo.compiles as (c & Hc & _).
  exact (Explain_agrees PolicyDemo.rt c (mkPrincipal "u" "user") PolicyDemo.call PolicyDemo.lamp Hc).
Defined.

Lemma empty_deny_has_no_effect_witness :
  ruleMatches (plain_rule (fun b => b) ["kitchen"; "home"] PolicyDemo.tree "p"
    (mkRawRule [] (mkRawSelector [] [] [] false) ["SystemService"]))
    (mkAction "SystemService" "Shutdown" "admin") (mkTarget "" "" "" "") = false.
Proof. apply (empty_deny_has_no_effect "p" (mkRawRule [] (mkRawSelector [] [] [] false) ["SystemService"])). reflexivity. Defined.

Lemma Contains_sound_witness :
  let s := mkCompiledTokenScope ∅ ["Svc.*"] [] CompiledSelector_zero in
  let child := mkCompiledTokenScope ∅ ["Svc.Get*"] [] CompiledSelector_zero in
  Scope_Allow s "Svc.GetX" (mkTarget "entity" "e" "a" "c") = true.
Proof.
  intros s child. apply (Contains_sound s child "Svc.GetX" (mkTarget "entity" "e" "a" "c")).
  - intros p Hp. cbn in Hp. by apply not_elem_of_empty in Hp.
  - vm_compute. reflexivity.
  - vm_compute. reflexivity.
Defined.
