(* ===== verification/ApiEntity.v ===== *)
(** * The entity service

    Models [internal/api/service_entity.go] and [subscription_filter.go] with the
    adapters the daemon gives them ([entityReaderAdapter] and
    [entityStreamSourceAdapter] of [internal/daemon/api_adapters.go]), over
    [Registry], [StateCache], [Policy] and [EventStore].

    [entity_pages_exact]: the pages of a listing are the selected entities.
    [subscription_exact]: which changes a subscriber is sent.
    [strict_checks_first_page]: what the strict mode checks. *)

From S2P Require Import Prelude Sorting Events EventStore StateCache Registry Policy AuthorizeFacts Api.

Record EntitySelector := mkSelector {
  EntityIDs : list string; DeviceIDs : list string; SelAreas : list string; Zones : list string; Classes : list string;
}.

Record ApiEntity := mkApiEntity {
  A_ID : string; A_Type : string; A_DeviceID : string; A_AreaID : string; A_ZoneID : string; A_FriendlyName : string;
  A_State : option Attributes;
}.

Definition stringInSelector (values : list string) (got : string) : bool :=
  match values with [] => true | _ => contains_eq values got end.

Definition entityMatchesSelector (e : ApiEntity) (sel : EntitySelector) : bool :=
  stringInSelector (EntityIDs sel) (A_ID e) && stringInSelector (DeviceIDs sel) (A_DeviceID e) &&
  stringInSelector (SelAreas sel) (A_AreaID e) && stringInSelector (Zones sel) (A_ZoneID e) &&
  stringInSelector (Classes sel) (A_Type e).

Section Entities.
(** The registry's areas and tables, and the state cache. *)
Context (st : AreaState) (t : RegTables) (cache : option Cache).

(** [toAPIEntity]: the zone is never set. *)
Definition toAPIEntity (e : RegEntity) : ApiEntity :=
  mkApiEntity (E_ID e) (E_EntityType e) (E_DeviceID e) (E_AreaID e) "" (E_FriendlyName e)
    (c ← cache; s ← Cache_Get (E_ID e) c; StAttributes s).

(** The filter handed to the registry: one device and one class at most. *)
Definition registry_filter (sel : EntitySelector) : EntityFilter :=
  mkEntityFilter "" (match DeviceIDs sel with [d] => d | _ => "" end) (match Classes sel with [c] => c | _ => "" end) false.

(** [entityReaderAdapter.ListEntities] before and with its paging. *)
Definition selected (sel : EntitySelector) : list ApiEntity :=
  filter (fun e => entityMatchesSelector e sel = true) (toAPIEntity <$> ListEntities (registry_filter sel) st t).
Definition adapter_ListEntities (sel : EntitySelector) (page : PageReq) : page_result ApiEntity := paginate (selected sel) page.

Definition adapter_GetEntity (id : string) : result string ApiEntity :=
  match GetEntity id st t with Ok e => Ok (toAPIEntity e) | Err msg => Err msg end.

(** [EntityService.List]. *)
Definition EntityService_List (sel : EntitySelector) (size : Z) (token : string) : reply ApiEntity :=
  match DecodeCursor token with
  | Err _ => BadPageToken
  | Ok cur =>
      match adapter_ListEntities sel (mkPageReq (ClampPageSize size) cur) with
      | PagePanic => Panicked
      | PageOf out next => Reply out (EncodeCursor next)
      end
  end.

(** ** Subscriptions *)

Record EntityChange := mkChange { ec_EntityID : string; ec_Cursor : Z; ec_AtUnixMs : Z; ec_Entity : ApiEntity }.

(** [Time.UnixMilli] of a time in nanoseconds. *)
Definition UnixMilli (t : Z) : Z := t / 1000000.

Definition with_state (s : option Attributes) (e : ApiEntity) : ApiEntity :=
  mkApiEntity (A_ID e) (A_Type e) (A_DeviceID e) (A_AreaID e) (A_ZoneID e) (A_FriendlyName e) s.

Definition entityChangeFromEvent (sel : EntitySelector) (ev : Event) : option EntityChange :=
  match GetKind ev with
  | Some (Payload_StateChanged sc) =>
      let id := if is_empty (Entity ev) then sc_entity_id sc else Entity ev in
      if is_empty id then None
      else match adapter_GetEntity id with
      | Err _ => None
      | Ok ent =>
          let ent := match sc_attributes sc with Some a => with_state (Some a) ent | None => ent end in
          if entityMatchesSelector ent sel then Some (mkChange id (Position ev) (UnixMilli (Timestamp ev)) ent) else None
      end
  | _ => None
  end.

(** The position and filter [entityStreamSourceAdapter.Subscribe] subscribes with. *)
Definition stream_start (fromCursor latest : Z) : Z := if fromCursor =? 0 then latest else fromCursor.
Definition stream_filter (sel : EntitySelector) : Filter :=
  mkFilter ["state_changed"] (EntityIDs sel) [] [] zero_time zero_time.

(** *** Policy *)

Inductive PolicyMode := POLICY_MODE_UNSPECIFIED | POLICY_MODE_FILTER | POLICY_MODE_STRICT.

(** The runtime if it is wired, with the token scope of the caller. *)
Context (rt : option Runtime) (scope : option CompiledTokenScope) (p : Principal).

Definition policy_target (e : ApiEntity) : Target := mkTarget "entity" (A_ID e) (A_AreaID e) (A_Type e).

Definition Preflight (mode : PolicyMode) (candidates : list Target) : option (list Target) :=
  match rt with
  | None => Some candidates
  | Some r =>
      let '(allowed, denied) := FilterEntities r scope p "read" candidates in
      match mode, denied with POLICY_MODE_STRICT, _ :: _ => None | _, _ => Some allowed end
  end.

Definition AllowsEntity (tg : Target) : bool :=
  match rt with
  | None => true
  | Some r => match FilterEntities r scope p "read" [tg] with ([_], _) => true | _ => false end
  end.

(** [EntityService.Subscribe] up to the stream: it opens, or is denied. *)
Definition Subscribe_opens (mode : PolicyMode) (sel : EntitySelector) : bool :=
  match adapter_ListEntities sel (mkPageReq 1000 no_cursor) with
  | PageOf candidates _ => match Preflight mode (policy_target <$> candidates) with Some _ => true | None => false end
  | PagePanic => true
  end.

(** The changes the handler sends for the events of its subscription. *)
Definition change_target (c : EntityChange) : Target :=
  mkTarget "entity" (ec_EntityID c) (A_AreaID (ec_Entity c)) (A_Type (ec_Entity c)).
Definition Subscribe_sends (sel : EntitySelector) (evs : list Event) : list EntityChange :=
  filter (fun c => AllowsEntity (change_target c) = true) (omap (entityChangeFromEvent sel) evs).

(** ** Listings *)

(** What the selector selects among the enabled entities, in the order of their ids. *)
Definition selection (sel : EntitySelector) : list ApiEntity :=
  filter (fun e => entityMatchesSelector e sel = true) (toAPIEntity <$> ListEntities (mkEntityFilter "" "" "" false) st t).

Lemma registry_filter_sound sel x :
  entityMatchesSelector (toAPIEntity (with_area (AreaForEntity x.1 st) (scanEntity x.1 x.2))) sel = true ->
  entity_where (registry_filter sel) x.2 = entity_where (mkEntityFilter "" "" "" false) x.2.
Proof.
  destruct x as [k r]. unfold entityMatchesSelector. rewrite !andb_true_iff. intros ((((_ & Hd) & _) & _) & Hc). cbn in Hd, Hc.
  unfold entity_where, registry_filter. cbn [EF_DriverInstanceID EF_DeviceID EF_EntityType EF_IncludeDisabled fst snd].
  assert (is_empty (match DeviceIDs sel with [d] => d | _ => "" end) ||
    bool_decide (ent_device_id r = Some (match DeviceIDs sel with [d] => d | _ => "" end)) = true) as ->.
  { destruct (DeviceIDs sel) as [|d [|]]; try done. apply contains_eq_spec, list_elem_of_singleton in Hd.
    destruct (ent_device_id r) as [d'|]; cbn in Hd; subst; [|done]. rewrite bool_decide_true by done. apply orb_true_r. }
  assert (is_empty (match Classes sel with [c] => c | _ => "" end) ||
    String.eqb (ent_entity_type r) (match Classes sel with [c] => c | _ => "" end) = true) as ->.
  { destruct (Classes sel) as [|c [|]]; try done. apply contains_eq_spec, list_elem_of_singleton in Hc. subst.
    rewrite String.eqb_refl. apply orb_true_r. }
  done.
Qed.

Lemma selected_selection sel : selected sel = selection sel.
Proof.
  unfold selected, selection, ListEntities. rewrite !filter_fmap, !list_filter_filter. f_equal. f_equal.
  apply list_filter_iff. intros x. split; intros [H1 H2]; (split; [done|]).
  - by rewrite <- (registry_filter_sound sel x H1).
  - by rewrite (registry_filter_sound sel x H1).
Qed.

(** C23. The pages of an entity listing are the selection: a client that follows the
    tokens gets every enabled entity that the selector selects, with its state in
    the cache, exactly once and in the order of the ids, and the filter handed to the
    database never hides one. *)
Theorem entity_pages_exact sel size :
  Z.of_nat (length (selection sel)) < 2 ^ 63 -> 0 <= size ->
  follow (EntityService_List sel size) (S (length (selection sel))) "" = Some (selection sel).
Proof.
  intros Hl Hs. pose proof (follow_from (selection sel) size Hl Hs (S (length (selection sel))) 0) as H.
  change (EncodeCursor (mkCursor 0 "")) with "" in H. rewrite drop_0 in H. rewrite <- H by lia.
  assert (He : forall fuel token, follow (EntityService_List sel size) fuel token = follow (list_handler (selection sel) size) fuel token).
  { induction fuel as [|fuel IH]; intros token; [done|]. cbn [follow].
    assert (EntityService_List sel size token = list_handler (selection sel) size token) as ->.
    { unfold EntityService_List, list_handler, adapter_ListEntities. by rewrite selected_selection. }
    destruct (list_handler _ _ _); try done. by rewrite IH. }
  apply He.
Qed.

(** A selector with zones selects nothing, as no entity has a zone. *)
Theorem zone_selects_nothing sel : Zones sel <> [] -> "" ∉ Zones sel -> selection sel = [].
Proof.
  intros Hne Hz. unfold selection. apply list_filter_none. intros e (r & -> & _)%list_elem_of_fmap.
  unfold entityMatchesSelector. rewrite !andb_true_iff. intros ((_ & H) & _). cbn in H. unfold stringInSelector in H.
  destruct (Zones sel); [done|]. by apply contains_eq_spec in H.
Qed.

(** ** Subscriptions *)

Lemma AllowsEntity_spec r tg :
  rt = Some r -> AllowsEntity tg = true <-> (FilterEntities r scope p "read" [tg]).1 = [tg].
Proof.
  intros Hrt. unfold AllowsEntity. rewrite Hrt, FilterEntities_partition. cbn [fst]. rewrite !filter_cons, !filter_nil.
  case_decide; [done|]. by split.
Qed.

(** A subscriber is sent exactly these changes, in the order of the log: the
    state changes of registered entities that the selector selects and the policy
    lets the subscriber read, each with the new attributes; all of the selected
    ones when no policy is wired. *)
Theorem subscription_exact sel evs c :
  c ∈ Subscribe_sends sel evs <->
  (forall r, rt = Some r -> (FilterEntities r scope p "read" [change_target c]).1 = [change_target c]) /\
  exists ev sc e, ev ∈ evs /\ GetKind ev = Some (Payload_StateChanged sc) /\
    ec_EntityID c = (if is_empty (Entity ev) then sc_entity_id sc else Entity ev) /\ ec_EntityID c <> "" /\
    GetEntity (ec_EntityID c) st t = Ok e /\
    ec_Entity c = (match sc_attributes sc with Some a => with_state (Some a) | None => id end) (toAPIEntity e) /\
    entityMatchesSelector (ec_Entity c) sel = true /\ ec_Cursor c = Position ev /\ ec_AtUnixMs c = UnixMilli (Timestamp ev).
Proof.
  unfold Subscribe_sends. rewrite list_elem_of_filter, list_elem_of_omap.
  assert (Ha : AllowsEntity (change_target c) = true <->
    (forall r, rt = Some r -> (FilterEntities r scope p "read" [change_target c]).1 = [change_target c])).
  { destruct rt as [r|] eqn:Hrt.
    - rewrite (AllowsEntity_spec r) by done. split; [by intros H ? [= <-] | intros H; by apply H].
    - unfold AllowsEntity. rewrite Hrt. by split. }
  rewrite Ha. apply and_iff_compat_l. split.
  - intros (ev & Hin & Hc). unfold entityChangeFromEvent in Hc. destruct (GetKind ev) as [k|] eqn:Hk; [|done].
    destruct k as [|sc| | | | | | | | | | | | | | |]; try done. set (i := if is_empty (Entity ev) then _ else _) in *.
    unfold is_empty in Hc at 1. destruct (String.eqb_spec i ""); [done|]. unfold adapter_GetEntity in Hc.
    destruct (GetEntity i st t) as [e|] eqn:Hg; [|done]. destruct (entityMatchesSelector _ sel) eqn:Hm; [|done]. injection Hc as <-.
    exists ev, sc, e. cbn. split_and!; try done. by destruct (sc_attributes sc).
  - intros (ev & sc & e & Hin & Hk & Hid & Hne & Hg & He & Hm & Hcur & Hat). exists ev. split; [done|].
    unfold entityChangeFromEvent. rewrite Hk, <- Hid. unfold is_empty at 1. destruct (String.eqb_spec (ec_EntityID c) ""); [done|].
    unfold adapter_GetEntity. rewrite Hg. destruct c as [ci cc ca ce]. cbn [ec_EntityID ec_Cursor ec_AtUnixMs ec_Entity] in *. subst.
    destruct (sc_attributes sc); cbn [id] in *; by rewrite Hm.
Qed.

(** The strict mode is only checked against the first thousand entities: a
    subscription opens exactly when the policy denies none of those, whatever it
    says of the entities after them. *)
Theorem strict_checks_first_page r sel :
  rt = Some r ->
  Subscribe_opens POLICY_MODE_STRICT sel = true <->
  (FilterEntities r scope p "read" (policy_target <$> take 1000 (selection sel))).2 = [].
Proof.
  intros Hrt. unfold Subscribe_opens, adapter_ListEntities. rewrite selected_selection. unfold paginate.
  cbn [PCursor CPosition Size]. change (i64 (CPosition no_cursor)) with 0. destruct (0 >? _) eqn:H0; [apply Z.gtb_lt in H0; lia|].
  cbn [Z.ltb Z.compare Z.leb]. change (Z.to_nat 0) with 0%nat. rewrite drop_0.
  assert (H : forall l, (match Preflight POLICY_MODE_STRICT (policy_target <$> l) with Some _ => true | None => false end) = true <->
    (FilterEntities r scope p "read" (policy_target <$> l)).2 = []).
  { intros l. unfold Preflight. rewrite Hrt. by destruct (FilterEntities _ _ _ _ _) as [al [|x dn]]. }
  destruct (Z.of_nat (length (selection sel)) >? 1000) eqn:Hg.
  - change (Z.to_nat 1000) with 1000%nat. apply H.
  - rewrite H, take_ge; [done|]. rewrite Z.gtb_ltb in Hg. apply Z.ltb_ge in Hg. lia.
Qed.

End Entities.

(** ** On two lamps *)

Module EntityDemo.

Definition row (class name : string) : EntityRow := mkEntityRow (Some "dev") "drv" class name "{}" false 0 0.
Definition tables : RegTables :=
  mkRegTables ∅ ∅ {["light.hall" := row "light" "Hall"; "light.lamp" := row "light" "Lamp"; "lock.door" := row "lock" "Door"]}.
Definition areas_ : AreaState := mkAreaState ∅ {["light.lamp" := "kitchen"]}.
Definition lights : EntitySelector := mkSelector [] ["dev"] [] [] ["light"].

Lemma entity_pages_exact_witness :
  0 <= 1 /\
  option_map (fmap A_ID) (follow (EntityService_List areas_ tables None lights 1) 3 "") = Some ["light.hall"; "light.lamp"].
Proof.
  split; [lia|].
  assert (Hl : length (selection areas_ tables None lights) = 2%nat) by (vm_compute; reflexivity).
  pose proof (entity_pages_exact areas_ tables None lights 1) as H. rewrite Hl in H. rewrite H by (vm_compute; congruence).
  vm_compute. reflexivity.
Defined.

Definition nobody : Runtime := mkRuntime (fun _ => []) PolicyDemo.compiled [].
Definition ann : Principal := mkPrincipal "ann" "user".

Lemma strict_checks_first_page_witness :
  Subscribe_opens areas_ tables None (Some nobody) None ann POLICY_MODE_STRICT lights <> true.
Proof.
  intros H. apply (strict_checks_first_page areas_ tables None (Some nobody) None ann nobody lights eq_refl) in H.
  revert H. vm_compute. congruence.
Defined.

End EntityDemo.
