(* ===== verification/TokenScope.v ===== *)
(** * Token scopes on the wire

    Models [internal/api/token_scope.go]: validation and compilation of the
    [TokenScope] message a token is issued with. A nil message is [None]. *)

From S2P Require Import Prelude Sorting Policy PolicyFacts AuthorizeFacts.

Record TokenTargetSelector := mkTokenTargetSelector {
  ts_areas : list string; ts_classes : list string; ts_entity_ids : list string;
}.

Record TokenScopePB := mkTokenScopePB {
  allow_tools : list string;
  allow_services : list string;
  allow_targets : option TokenTargetSelector;
}.

Inductive scope_error :=
  | EmptyPattern | WildcardNotTrailing | EmptyArea | EmptyClass | EmptyEntity.

(** [strings.Count(s, "*")]. *)
Fixpoint count_star (s : string) : nat :=
  match s with
  | EmptyString => 0
  | String c s' => (if Ascii.eqb c (Ascii.ascii_of_N 42) then 1 else 0) + count_star s'
  end.

Definition validateTokenScopePattern (pattern : string) : option scope_error :=
  if is_empty pattern then Some EmptyPattern
  else
    let wildcards := count_star pattern in
    if (wildcards =? 0)%nat then None
    else if (wildcards =? 1)%nat && has_suffix pattern "*" then None
    else Some WildcardNotTrailing.

(** The first error of a loop. *)
Definition first_err {A} (f : A -> option scope_error) (l : list A) : option scope_error :=
  head (omap f l).

Definition nonempty_item (e : scope_error) (s : string) : option scope_error :=
  if is_empty s then Some e else None.

(** The getters of a nil message read as empty. *)
Definition sel_areas (o : option TokenTargetSelector) : list string :=
  match o with Some t => ts_areas t | None => [] end.
Definition sel_classes (o : option TokenTargetSelector) : list string :=
  match o with Some t => ts_classes t | None => [] end.
Definition sel_entities (o : option TokenTargetSelector) : list string :=
  match o with Some t => ts_entity_ids t | None => [] end.

Definition validateTokenScopePB (scope : option TokenScopePB) : option scope_error :=
  match scope with
  | None => None
  | Some s =>
      match first_err validateTokenScopePattern (allow_tools s) with
      | Some e => Some e
      | None =>
      match first_err validateTokenScopePattern (allow_services s) with
      | Some e => Some e
      | None =>
      match first_err (nonempty_item EmptyArea) (sel_areas (allow_targets s)) with
      | Some e => Some e
      | None =>
      match first_err (nonempty_item EmptyClass) (sel_classes (allow_targets s)) with
      | Some e => Some e
      | None => first_err (nonempty_item EmptyEntity) (sel_entities (allow_targets s))
      end end end end
  end.

Definition areaSet (items : list string) : str_set := list_to_set items.
Definition stringSet (items : list string) : str_set := list_to_set items.

Definition compileTokenTargetSelector (sel : option TokenTargetSelector) : CompiledSelector :=
  match sel with
  | None => CompiledSelector_zero
  | Some t => mkCompiledSelector "" (areaSet (ts_areas t)) (stringSet (ts_classes t))
                (stringSet (ts_entity_ids t)) false
  end.

Definition scope_zero : CompiledTokenScope := mkCompiledTokenScope ∅ [] [] CompiledSelector_zero.

Definition compileTokenScopePB (scope : option TokenScopePB) :
    result scope_error CompiledTokenScope :=
  match validateTokenScopePB scope with
  | Some e => Err e
  | None =>
      match scope with
      | None => Ok scope_zero
      | Some s => Ok (mkCompiledTokenScope ∅ (allow_tools s) (allow_services s)
                        (compileTokenTargetSelector (allow_targets s)))
      end
  end.

Definition emptyTokenScopePB (scope : option TokenScopePB) : bool :=
  match scope with
  | None => true
  | Some s =>
      (length (allow_tools s) =? 0)%nat && (length (allow_services s) =? 0)%nat &&
      (length (sel_areas (allow_targets s)) =? 0)%nat &&
      (length (sel_classes (allow_targets s)) =? 0)%nat &&
      (length (sel_entities (allow_targets s)) =? 0)%nat
  end.

(** [tokenScopeSummary]. *)
Definition tokenScopeSummary (scope : option TokenScopePB) : string :=
  if emptyTokenScopePB scope then "full"
  else match scope with
  | None => "full"
  | Some s =>
      let part label n := if (n =? 0)%nat then [] else [label +:+ pretty n] in
      String.concat ","
        (part "tools=" (length (allow_tools s)) ++ part "services=" (length (allow_services s)) ++
         part "areas=" (length (sel_areas (allow_targets s))) ++
         part "classes=" (length (sel_classes (allow_targets s))) ++
         part "entities=" (length (sel_entities (allow_targets s))))
  end.

Inductive mint_error :=
  | MintInvalid (e : scope_error)
  | TokenScopeBroader
  | MintMarshal (msg : string).

(** [tokenScopeBlobForMint] of [internal/api/service_auth.go]: [parent] is the
    scope of the token the caller authenticated with, if any. *)
Definition tokenScopeBlobForMint (marshal : option TokenScopePB -> result string string)
    (parent : option CompiledTokenScope) (scope : option TokenScopePB) :
    result mint_error (string * string) :=
  match compileTokenScopePB scope with
  | Err e => Err (MintInvalid e)
  | Ok compiled =>
      if match parent with Some p => negb (Contains p compiled) | None => false end
      then Err TokenScopeBroader
      else if emptyTokenScopePB scope then Ok ("", "full")
      else match marshal scope with
           | Err msg => Err (MintMarshal msg)
           | Ok blob => Ok (blob, tokenScopeSummary scope)
           end
  end.

(** ** Properties *)

Lemma compiled_exact scope c : compileTokenScopePB scope = Ok c -> AllowedActions c = ∅.
Proof.
  unfold compileTokenScopePB. destruct (validateTokenScopePB scope); [done|].
  destruct scope; by intros [= <-].
Qed.



Lemma length_zero {A} (l : list A) : (length l =? 0)%nat = true <-> l = [].
Proof. rewrite Nat.eqb_eq. apply length_zero_iff_nil. Qed.

(** An accepted pattern is non-empty and has no wildcard except possibly one at
    the end. *)
Lemma validate_pattern_spec p :
  validateTokenScopePattern p = None <->
  p <> "" /\ (count_star p = 0%nat \/ count_star p = 1%nat /\ exists q, p = q +:+ "*").
Proof.
  unfold validateTokenScopePattern, is_empty.
  destruct (String.eqb_spec p "") as [|Hne]; [naive_solver|].
  destruct (Nat.eqb_spec (count_star p) 0); [naive_solver|].
  rewrite <- has_suffix_spec.
  destruct (Nat.eqb_spec (count_star p) 1); cbn [andb]; [|naive_solver].
  destruct (has_suffix p "*"); naive_solver.
Qed.

(** The scopes shown as unrestricted are: a scope with no entries compiles
    and permits every action on every target. *)
Theorem empty_scope_unrestricted scope action t :
  emptyTokenScopePB scope = true ->
  exists c, compileTokenScopePB scope = Ok c /\ Scope_Allow c action t = true.
Proof.
  destruct scope as [s|]; [|by exists scope_zero]. cbn [emptyTokenScopePB].
  rewrite !andb_true_iff, !length_zero. intros [[[[H1 H2] H3] H4] H5].
  unfold compileTokenScopePB, validateTokenScopePB. rewrite H1, H2, H3, H4, H5. cbn.
  eexists. split; [done|]. unfold Scope_Allow. apply andb_true_iff. split.
  - apply actionAllowed_spec. by left.
  - apply targetAllowed_spec. left. apply selectorIsEmpty_spec. cbn.
    unfold compileTokenTargetSelector. destruct (allow_targets s) as [ts|]; [|done].
    cbn in *. rewrite H3, H4, H5. done.
Qed.

Lemma empty_scope_unrestricted_witness :
  exists c, compileTokenScopePB (Some (mkTokenScopePB [] [] None)) = Ok c /\
    Scope_Allow c "Any.Thing" (mkTarget "entity" "e" "a" "c") = true.
Proof. apply empty_scope_unrestricted. vm_compute. reflexivity. Defined.
