(* ===== verification/Carport.v ===== *)
(** * The driver supervisor

    Models [internal/carport]: [fsm.go], [config.go], [supervisor.go] (the
    lifecycle loop, backoff, health, shutdown), [carport.go] and [control.go]
    (the host's instance table). What the outside world does in one round of
    the loop (spawning, handshake, health probes, cancellation, the clock) is a
    record; the events the supervisor appends are a trace. *)

From S2P Require Import Prelude Events.

(** ** The state machine *)

Inductive State :=
  | StateDeclared | StateSpawning | StateAwaitingHandshake | StateRunning
  | StateFailed | StateBackoff | StateQuarantined | StateStopping | StateStopped.

#[export] Instance State_eq_dec : EqDecision State.
Proof. solve_decision. Defined.

Definition State_String (s : State) : string :=
  match s with
  | StateDeclared => "declared" | StateSpawning => "spawning"
  | StateAwaitingHandshake => "awaiting_handshake" | StateRunning => "running"
  | StateFailed => "failed" | StateBackoff => "backoff" | StateQuarantined => "quarantined"
  | StateStopping => "stopping" | StateStopped => "stopped"
  end.

Inductive Trigger :=
  | TriggerStart | TriggerSpawned | TriggerSpawnError | TriggerHandshakeOK
  | TriggerHandshakeFail | TriggerCrash | TriggerHealthFail | TriggerStreamError
  | TriggerBackoffScheduled | TriggerBackoffElapsed | TriggerBudgetExhausted
  | TriggerManualRestart | TriggerShutdown | TriggerExited.

#[export] Instance Trigger_eq_dec : EqDecision Trigger.
Proof. solve_decision. Defined.

Definition Trigger_String (t : Trigger) : string :=
  match t with
  | TriggerStart => "start" | TriggerSpawned => "spawned" | TriggerSpawnError => "spawn_error"
  | TriggerHandshakeOK => "handshake_ok" | TriggerHandshakeFail => "handshake_fail"
  | TriggerCrash => "crash" | TriggerHealthFail => "health_fail"
  | TriggerStreamError => "stream_error" | TriggerBackoffScheduled => "backoff_scheduled"
  | TriggerBackoffElapsed => "backoff_elapsed" | TriggerBudgetExhausted => "budget_exhausted"
  | TriggerManualRestart => "manual_restart" | TriggerShutdown => "shutdown"
  | TriggerExited => "exited"
  end.

(** The table [transitions]: the row of a state, [None] when it has none. *)
Definition transitions (s : State) : option (list (Trigger * State)) :=
  match s with
  | StateDeclared => Some [(TriggerStart, StateSpawning)]
  | StateSpawning => Some [(TriggerSpawned, StateAwaitingHandshake);
      (TriggerSpawnError, StateFailed); (TriggerShutdown, StateStopping)]
  | StateAwaitingHandshake => Some [(TriggerHandshakeOK, StateRunning);
      (TriggerHandshakeFail, StateFailed); (TriggerShutdown, StateStopping)]
  | StateRunning => Some [(TriggerCrash, StateFailed); (TriggerHealthFail, StateFailed);
      (TriggerStreamError, StateFailed); (TriggerShutdown, StateStopping)]
  | StateFailed => Some [(TriggerBackoffScheduled, StateBackoff); (TriggerShutdown, StateStopping)]
  | StateBackoff => Some [(TriggerBackoffElapsed, StateSpawning);
      (TriggerBudgetExhausted, StateQuarantined); (TriggerShutdown, StateStopping)]
  | StateQuarantined => Some [(TriggerManualRestart, StateSpawning);
      (TriggerShutdown, StateStopping)]
  | StateStopping => Some [(TriggerExited, StateStopped)]
  | StateStopped => None
  end.

Definition row_lookup (t : Trigger) (row : list (Trigger * State)) : option State :=
  snd <$> (snd <$> list_find (fun p => p.1 = t) row).

Definition IsLegal (from : State) (trigger : Trigger) (to : State) : bool :=
  match transitions from with
  | None => false
  | Some m => match row_lookup trigger m with
              | Some got => bool_decide (got = to)
              | None => false
              end
  end.

Definition Next (from : State) (trigger : Trigger) : result string State :=
  match transitions from with
  | None => Err ("no transitions from state " +:+ State_String from)
  | Some m => match row_lookup trigger m with
              | Some to => Ok to
              | None => Err ("illegal trigger " +:+ Trigger_String trigger +:+ " from state " +:+
                             State_String from)
              end
  end.

(** ** Configuration *)

Record LifecycleConfig := mkLifecycleConfig {
  HandshakeDeadline : Z;
  HealthProbeInterval : Z;
  HealthProbeTimeout : Z;
  HealthFailuresToRestart : Z;
  ShutdownGrace : Z;
  RestartBackoffInitial : Z;
  RestartBackoffMax : Z;
  RestartBudgetWindow : Z;
  RestartBudgetMax : Z;
}.

Definition DefaultLifecycleConfig : LifecycleConfig :=
  mkLifecycleConfig (5 * Second) (15 * Second) (3 * Second) 3 (10 * Second) Second (60 * Second)
    (10 * Minute) 10.

Record Instance_ := mkInstance {
  inst_ID : string; Binary : string; Enabled : bool; ConfigJSON : string;
  Lifecycle : LifecycleConfig;
}.

(** [managedInstance]: whether a connection is open, and whether a lifecycle
    goroutine is running. *)
Record managedInstance := mkManaged {
  m_cfg : Instance_;
  m_state : State;
  m_conn : bool;
  restartHistory : list Z;
  m_running : bool;
}.

Definition with_state (s : State) (m : managedInstance) : managedInstance :=
  mkManaged (m_cfg m) s (m_conn m) (restartHistory m) (m_running m).
Definition with_conn (c : bool) (m : managedInstance) : managedInstance :=
  mkManaged (m_cfg m) (m_state m) c (restartHistory m) (m_running m).
Definition with_history (h : list Z) (m : managedInstance) : managedInstance :=
  mkManaged (m_cfg m) (m_state m) (m_conn m) h (m_running m).
Definition with_running (b : bool) (m : managedInstance) : managedInstance :=
  mkManaged (m_cfg m) (m_state m) (m_conn m) (restartHistory m) b.

(** ** Health *)

(** [runHealth]: the probes in order, [true] for an answer that is ok. When the
    list is exhausted the context has ended, which returns [true]. *)
Fixpoint runHealth (max failures : Z) (probes : list bool) : bool :=
  match probes with
  | [] => true
  | ok :: rest =>
      if negb ok then
        if failures + 1 >=? max then false else runHealth max (failures + 1) rest
      else runHealth max 0 rest
  end.

(** ** Backoff *)

(** [for i := 1; i < used; i++ { backoff *= 2; if backoff > max { ...; break } }]. *)
Fixpoint double_backoff (n : nat) (backoff maxBackoff : Z) : Z :=
  match n with
  | O => backoff
  | S n' =>
      let b := i64 (backoff * 2) in
      if b >? maxBackoff then maxBackoff else double_backoff n' b maxBackoff
  end.

Inductive backoff_outcome :=
  | Quarantine
  | Retry (backoff : Z).

(** The bookkeeping of [scheduleBackoff] at time [now]: the new history and
    what to do. *)
Definition backoff_decision (lc : LifecycleConfig) (now : Z) (history : list Z) :
    list Z * backoff_outcome :=
  let cutoff := now - RestartBudgetWindow lc in
  let fresh := filter (fun ts => cutoff <= ts) history ++ [now] in
  let used := Z.of_nat (length fresh) in
  (fresh,
   if used >? RestartBudgetMax lc then Quarantine
   else Retry (double_backoff (Z.to_nat (used - 1)) (RestartBackoffInitial lc)
                 (RestartBackoffMax lc))).

(** What [emitDriverEvent] records: the kind, and the detail before it is
    formatted (an error's or a plain text, a process id printed with [%d], a
    duration printed by [Duration.String], the version of a handshake response
    that does not match). *)
Inductive Detail :=
  | DText (s : string)
  | DPid (pid : Z)
  | DDuration (d : Z)
  | DVersionMismatch (got : string).

(** An event the supervisor appends for its instance. *)
Inductive sup_event :=
  | EvDriver (kind : string) (detail : Detail)
  | EvRegistered (er : EntityRegistered).

(** [scheduleBackoff]; [cancelled] tells whether the context ends during the
    sleep. Returns the events appended and whether to retry. *)
Definition scheduleBackoff (now : Z) (cancelled : bool) (m : managedInstance) :
    managedInstance * list sup_event * bool :=
  let '(fresh, d) := backoff_decision (Lifecycle (m_cfg m)) now (restartHistory m) in
  let m1 := with_history fresh m in
  match d with
  | Quarantine => (with_state StateQuarantined m1,
                   [EvDriver "quarantined" (DText "restart budget exhausted")], false)
  | Retry b => (with_state StateBackoff m1, [EvDriver "backoff_scheduled" (DDuration b)],
                negb cancelled)
  end.

Definition transitionToFailed (m : managedInstance) : managedInstance := with_state StateFailed m.

Definition transitionToStopped (reason : string) (m : managedInstance) :
    managedInstance * list sup_event :=
  (with_state StateStopped m, [EvDriver "stopped" (DText reason)]).

(** ** The lifecycle loop *)

(** The driver's answer to the handshake. *)
Record HandshakeResponse := mkHandshakeResponse {
  ProtocolVersion : string;
  Manifest : option string;
  InitialEntities : list EntityRegistered;
}.

(** [handshake]: [dial] and [rpc] are what the dial and the RPC return, their
    errors as formatted texts. *)
Definition handshake (dial : option string) (rpc : result string HandshakeResponse) :
    result Detail HandshakeResponse :=
  match dial with
  | Some e => Err (DText ("dial instance: " +:+ e))
  | None =>
      match rpc with
      | Err e => Err (DText ("handshake RPC: " +:+ e))
      | Ok resp => if negb (String.eqb (ProtocolVersion resp) "v1alpha1")
                   then Err (DVersionMismatch (ProtocolVersion resp)) else Ok resp
      end
  end.

(** What happens outside during one round of [runLifecycle]: whether the
    context has ended at its head, what spawning, dialling and the RPC return,
    the answers to the health probes, whether the context has ended after
    them, the clock at [scheduleBackoff] and whether its sleep is cut short. *)
Record round := mkRound {
  r_cancelled : bool;
  r_spawn : result string Z;
  r_dial : option string;
  r_rpc : result string HandshakeResponse;
  r_probes : list bool;
  r_ctx_done : bool;
  r_now : Z;
  r_cancel_backoff : bool;
}.

(** [if er.DriverInstanceId == "" { er.DriverInstanceId = m.cfg.ID }]. *)
Definition own_entity (id : string) (er : EntityRegistered) : EntityRegistered :=
  if is_empty (er_driver_instance_id er)
  then mkEntityRegistered id (er_device_id er) (er_entity_type er) (er_friendly_name er)
         (er_capabilities er)
  else er.

(** What the rest of a round does: the new instance, the events appended, the
    states passed through in order, and whether the loop goes on. *)
Definition outcome : Type := managedInstance * list sup_event * list State * bool.

(** Events and states that came before. *)
Definition after (evs : list sup_event) (states : list State) (o : outcome) : outcome :=
  let '(m, e, s, go) := o in (m, evs ++ e, states ++ s, go).

(** The failure path: the specific event, [Failed], then [scheduleBackoff]. *)
Definition fail_round (r : round) (kind : string) (detail : Detail) (m : managedInstance) : outcome :=
  let '(m2, bev, retry) := scheduleBackoff (r_now r) (r_cancel_backoff r) (transitionToFailed m) in
  (m2, EvDriver kind detail :: bev, [StateFailed; m_state m2], retry).

(** From [runHealth] on. *)
Definition running_phase (r : round) (m : managedInstance) : outcome :=
  let healthy := runHealth (HealthFailuresToRestart (Lifecycle (m_cfg m))) 0 (r_probes r) in
  let m4 := with_conn false m in
  if r_ctx_done r then
    let '(m5, sev) := transitionToStopped "daemon shutdown" m4 in (m5, sev, [StateStopped], false)
  else fail_round r "failed" (DText (if negb healthy then "health failed" else "stream closed")) m4.

(** From [handshake] on. *)
Definition handshake_phase (r : round) (m : managedInstance) : outcome :=
  match handshake (r_dial r) (r_rpc r) with
  | Err d => fail_round r "handshake_failed" d m
  | Ok resp =>
      after (EvDriver "started" (DText (default "" (Manifest resp))) ::
               (EvRegistered ∘ own_entity (inst_ID (m_cfg m)) <$> InitialEntities resp))
        [StateRunning]
        (running_phase r (with_conn true (with_state StateRunning m)))
  end.

(** From [spawn] on. *)
Definition spawn_phase (r : round) (m : managedInstance) : outcome :=
  match r_spawn r with
  | Err msg => fail_round r "spawn_error" (DText msg) m
  | Ok pid =>
      after [EvDriver "spawned" (DPid pid)] [StateAwaitingHandshake]
        (handshake_phase r (with_state StateAwaitingHandshake m))
  end.

(** One round of the loop. *)
Definition lifecycle_round (r : round) (m : managedInstance) : outcome :=
  if r_cancelled r then (m, [], [], false)
  else after [] [StateSpawning] (spawn_phase r (with_state StateSpawning m)).

(** [runLifecycle] over the rounds the environment provides; the goroutine is
    still in the loop when they run out. *)
Fixpoint runLifecycle (rounds : list round) (m : managedInstance) :
    managedInstance * list sup_event * list State :=
  match rounds with
  | [] => (m, [], [])
  | r :: rest =>
      let '(m1, evs, states, go) := lifecycle_round r m in
      if go then
        let '(m2, evs2, states2) := runLifecycle rest m1 in (m2, evs ++ evs2, states ++ states2)
      else (with_running false m1, evs, states)
  end.

(** ** The host *)

Record Host := mkHost {
  h_started : bool;
  h_stopped : bool;
  h_instances : gmap string managedInstance;
}.

Inductive HostError :=
  | HostNotStarted
  | HostStopped
  | AlreadyRegistered (id : string)
  | InstanceNotFound (id : string)
  | UnknownInstance (id : string).

Definition Host_New : Host := mkHost false false ∅.
Definition Host_Start (h : Host) : Host := mkHost true (h_stopped h) (h_instances h).

Definition with_instances (i : gmap string managedInstance) (h : Host) : Host :=
  mkHost (h_started h) (h_stopped h) i.

(** What the lifecycle goroutine still does once its context is cancelled, by
    the point it had reached, which its last state tells: it finishes the round
    [r] it was in, and the loop head or the cut sleep then ends it. *)
Definition finish_round (r : round) (prev : State) (m : managedInstance) :
    managedInstance * list sup_event :=
  let drop o := let '(m', evs, _, _) := (o : outcome) in (m', evs) in
  match prev with
  | StateSpawning => drop (spawn_phase r m)
  | StateAwaitingHandshake => drop (handshake_phase r m)
  | StateRunning => drop (running_phase r m)
  | _ => (m, [])
  end.

(** [shutdownInstance]: [Stopping], the event unless the instance is quiesced,
    then cancel the goroutine and wait for its end. *)
Definition shutdownInstance (r : round) (m : managedInstance) : managedInstance * list sup_event :=
  let prev := m_state m in
  let evs := if negb (bool_decide (prev = StateQuarantined)) && negb (bool_decide (prev = StateStopped))
             then [EvDriver "stopping" (DText (State_String prev))] else [] in
  let '(m', evs') := if m_running m then finish_round r prev (with_state StateStopping m)
                     else (with_state StateStopping m, []) in
  (with_running false m', evs ++ evs').

(** [launchLifecycle]. *)
Definition launchLifecycle (m : managedInstance) : managedInstance := with_running true m.

Definition RegisterInstance (id binary params : string) (enabled : bool) (lc : LifecycleConfig)
    (h : Host) : result HostError Host :=
  if negb (h_started h) then Err HostNotStarted
  else if h_stopped h then Err HostStopped
  else match h_instances h !! id with
  | Some _ => Err (AlreadyRegistered id)
  | None =>
      Ok (with_instances
            (<[id := launchLifecycle
                       (mkManaged (mkInstance id binary enabled params lc) StateDeclared false [] false)]>
               (h_instances h)) h)
  end.

(** [UnregisterInstance]; also returns the removed instance as it ends. *)
Definition UnregisterInstance (r : round) (id : string) (h : Host) :
    result HostError (Host * managedInstance * list sup_event) :=
  match h_instances h !! id with
  | None => Err (InstanceNotFound id)
  | Some m => let '(m', evs) := shutdownInstance r m in
              Ok (with_instances (delete id (h_instances h)) h, m', evs)
  end.

(** [RestartInstance]: tear down, clear the budget, announce, relaunch. *)
Definition RestartInstance (r : round) (id : string) (h : Host) :
    result HostError (Host * list sup_event) :=
  match h_instances h !! id with
  | None => Err (UnknownInstance id)
  | Some m =>
      let '(m1, evs) := shutdownInstance r m in
      let m2 := launchLifecycle (with_state StateDeclared (with_conn false (with_history [] m1))) in
      Ok (with_instances (<[id := m2]> (h_instances h)) h,
          evs ++ [EvDriver "restart_manual" (DText "operator")])
  end.

(** [Stop]: once; [order] is the order Go ranges over the table. *)
Definition Stop (r : string -> round) (order : list string) (h : Host) : Host * list sup_event :=
  if h_stopped h then (h, [])
  else
    let '(i, evs) := foldl (fun acc id =>
        match acc.1 !! id with
        | None => acc
        | Some m => let '(m', ev) := shutdownInstance (r id) m in (<[id := m']> acc.1, acc.2 ++ ev)
        end) (h_instances h, []) order in
    (mkHost (h_started h) true i, evs).

(** [InstanceState]. *)
Definition InstanceState (id : string) (h : Host) : State :=
  match h_instances h !! id with None => StateDeclared | Some m => m_state m end.

(** ** The messages of a driver *)

(** [carport.v1alpha1.CommandResult]. *)
Record CommandResult := mkCommandResult {
  cr_command_id : string;
  cr_ok : bool;
  cr_error_message : string;
}.

(** [carport.v1alpha1.DriverToHost]. *)
Inductive DriverToHost :=
  | DH_Result (r : CommandResult) | DH_StateChanged (m : StateChanged) | DH_EntityRegistered (m : EntityRegistered)
  | DH_EntityUnregistered (m : EntityUnregistered) | DH_DriverEvent (m : DriverEvent)
  | DH_Pong | DH_Unset.

Definition messageKindLabel (msg : DriverToHost) : string :=
  match msg with
  | DH_Result _ => "result" | DH_StateChanged _ => "state_changed"
  | DH_EntityRegistered _ => "entity_registered" | DH_EntityUnregistered _ => "entity_unregistered"
  | DH_DriverEvent _ => "driver_event" | DH_Pong => "pong" | DH_Unset => "unknown"
  end.

(** ** The driver supervisor: its state machine, its budget and its backoff

    Theorems about [Carport]: the transition table as a function, the trace of
    states the loop really passes through, the restart budget, the backoff
    formula, the health rule and the host's table. *)

(** ** The table *)

Definition all_triggers : list Trigger :=
  [TriggerStart; TriggerSpawned; TriggerSpawnError; TriggerHandshakeOK; TriggerHandshakeFail;
   TriggerCrash; TriggerHealthFail; TriggerStreamError; TriggerBackoffScheduled;
   TriggerBackoffElapsed; TriggerBudgetExhausted; TriggerManualRestart; TriggerShutdown;
   TriggerExited].

(** Some trigger of the table leads from [a] to [b]. *)
Definition legal (a b : State) : bool := existsb (fun t => IsLegal a t b) all_triggers.

(** The two steps the loop takes that the table does not have. *)
Definition extra_step (a b : State) : Prop :=
  (a = StateFailed /\ b = StateQuarantined) \/ (a = StateRunning /\ b = StateStopped).

(** Every step of a trace that starts in [s] is in the table, or one of the two. *)
Fixpoint steps_ok (s : State) (trace : list State) : Prop :=
  match trace with
  | [] => True
  | b :: rest => (legal s b = true \/ extra_step s b) /\ steps_ok b rest
  end.

Lemma steps_ok_app s t1 t2 :
  steps_ok s (t1 ++ t2) <-> steps_ok s t1 /\ steps_ok (last_or s t1) t2.
Proof.
  revert s. induction t1 as [|b t1 IH]; intros s; cbn [steps_ok app]; [tauto|].
  rewrite IH. unfold last_or. rewrite last_cons. destruct (last t1); cbn; tauto.
Qed.

(** The states passed through in a round, and the state it leaves behind. *)
Definition round_ok (s : State) (o : outcome) : Prop :=
  let '(m', _, states, go) := o in
  steps_ok s states /\ m_state m' = last_or s states /\
  (go = true -> m_state m' = StateBackoff).

Lemma round_ok_after s b evs o :
  (legal s b = true \/ extra_step s b) -> round_ok b o -> round_ok s (after evs [b] o).
Proof.
  destruct o as [[[m' e] states] go]. unfold round_ok, after. intros Hb (Hs & Hl & Hgo).
  cbn [app steps_ok]. split; [done|]. split; [|done].
  rewrite Hl. unfold last_or. rewrite last_cons. by destruct (last states).
Qed.

Lemma fail_round_ok r kind d m s :
  legal s StateFailed = true -> round_ok s (fail_round r kind d m).
Proof.
  intros Hs. unfold fail_round, scheduleBackoff.
  destruct (backoff_decision _ _ _) as [h [|b]]; cbn; unfold extra_step;
    (split; [|done]); repeat split; auto.
Qed.

Lemma running_phase_ok r m : round_ok StateRunning (running_phase r m).
Proof.
  unfold running_phase. destruct (r_ctx_done r); [|by apply fail_round_ok].
  cbn. unfold extra_step. split; [auto | by split].
Qed.

Lemma lifecycle_round_ok r m :
  legal (m_state m) StateSpawning = true -> round_ok (m_state m) (lifecycle_round r m).
Proof.
  intros Hm. unfold lifecycle_round. destruct (r_cancelled r).
  { unfold round_ok. repeat split; done. }
  apply round_ok_after; [by left|]. unfold spawn_phase.
  destruct (r_spawn r) as [pid|msg]; [|by apply fail_round_ok].
  apply round_ok_after; [by left|]. unfold handshake_phase.
  destruct (handshake _ _) as [resp|d]; [|by apply fail_round_ok].
  apply round_ok_after; [by left|]. apply running_phase_ok.
Qed.

(** The supervisor follows the state machine: from a declared instance (or
    one whose backoff has elapsed) every step [runLifecycle] takes is a
    transition of the table in [fsm.go], with two exceptions the table does not
    list (failed to quarantined, running to stopped), and the state it leaves in
    the instance is the last one of that trace. *)
Theorem supervisor_follows_fsm rounds m :
  m_state m = StateDeclared \/ m_state m = StateBackoff ->
  let '(m', _, states) := runLifecycle rounds m in
  steps_ok (m_state m) states /\ m_state m' = last_or (m_state m) states.
Proof.
  revert m. induction rounds as [|r rounds IH]; intros m Hm; [done|].
  cbn [runLifecycle].
  assert (legal (m_state m) StateSpawning = true) as Hl by (by destruct Hm as [-> | ->]).
  pose proof (lifecycle_round_ok r m Hl) as Hr.
  destruct (lifecycle_round r m) as [[[m1 evs] states] [|]]; unfold round_ok in Hr.
  - destruct Hr as (Hs & Hlast & Hgo). specialize (IH m1 (or_intror (Hgo eq_refl))).
    destruct (runLifecycle rounds m1) as [[m2 evs2] states2]. destruct IH as [Hs2 Hl2].
    rewrite Hlast in Hs2, Hl2. split; [by apply steps_ok_app|].
    rewrite Hl2. unfold last_or. rewrite last_app. by destruct (last states2), (last states).
  - tauto.
Qed.

(** ** The budget *)

(** The times at which the loop decided to restart. *)
Fixpoint retry_times (rounds : list round) (m : managedInstance) : list Z :=
  match rounds with
  | [] => []
  | r :: rest =>
      let '(m1, _, _, go) := lifecycle_round r m in
      if go then r_now r :: retry_times rest m1 else []
  end.

(** What a round that goes on leaves: the history of [scheduleBackoff], within
    the budget. *)
Definition retried (now : Z) (m : managedInstance) (o : outcome) : Prop :=
  let '(m1, _, _, go) := o in
  go = true ->
  m_cfg m1 = m_cfg m /\
  restartHistory m1 = (backoff_decision (Lifecycle (m_cfg m)) now (restartHistory m)).1 /\
  Z.of_nat (length (restartHistory m1)) <= RestartBudgetMax (Lifecycle (m_cfg m)).

Lemma retried_after now m evs states o : retried now m o -> retried now m (after evs states o).
Proof. by destruct o as [[[??]?]?]. Qed.

Lemma fail_round_retried r kind d m m0 :
  m_cfg m = m_cfg m0 -> restartHistory m = restartHistory m0 ->
  retried (r_now r) m0 (fail_round r kind d m).
Proof.
  intros Hc Hh. unfold fail_round, scheduleBackoff, transitionToFailed, backoff_decision, retried.
  cbn [m_cfg with_state restartHistory]. rewrite Hc, Hh.
  destruct (_ >? _) eqn:Hb; cbn; [done|]. intros _.
  split; [done|]. split; [done|]. cbn in Hb. lia.
Qed.

Lemma lifecycle_round_retried r m : retried (r_now r) m (lifecycle_round r m).
Proof.
  unfold lifecycle_round. destruct (r_cancelled r); [by intros|].
  apply retried_after. unfold spawn_phase.
  destruct (r_spawn r) as [pid|msg]; [|by apply fail_round_retried].
  apply retried_after. unfold handshake_phase.
  destruct (handshake _ _) as [resp|d]; [|by apply fail_round_retried].
  apply retried_after. unfold running_phase.
  destruct (r_ctx_done r); [by intros | by apply fail_round_retried].
Qed.

Definition in_window (lo w ts : Z) : Prop := lo <= ts <= lo + w.
#[local] Instance in_window_dec lo w ts : Decision (in_window lo w ts).
Proof. unfold in_window. apply _. Defined.

(** The number of restarts in a window. *)
Definition count_in (lo w : Z) (l : list Z) : Z := Z.of_nat (length (filter (in_window lo w) l)).

Lemma filter_length_mono {A} (P Q : A -> Prop) `{!forall x, Decision (P x)} `{!forall x, Decision (Q x)} l :
  (forall x, x ∈ l -> P x -> Q x) -> (length (filter P l) <= length (filter Q l))%nat.
Proof.
  induction l as [|x l IH]; intros Himp; [done|].
  assert (length (filter P l) <= length (filter Q l))%nat as IHl.
  { apply IH. intros y Hy. apply Himp. by right. }
  rewrite !filter_cons. pose proof (Himp x (list_elem_of_here _ _)).
  destruct (decide (P x)), (decide (Q x)); cbn; try lia. tauto.
Qed.

(** The invariant of the budget: [past] holds the restart times so far, and the
    history is those within a window of the last. *)
Lemma retry_times_window rounds m past lastt lo :
  0 <= RestartBudgetWindow (Lifecycle (m_cfg m)) ->
  restartHistory m = filter (fun ts => lastt - RestartBudgetWindow (Lifecycle (m_cfg m)) <= ts) past ->
  Forall (fun ts => ts <= lastt) past ->
  Sorted Z.le (lastt :: (r_now <$> rounds)) ->
  count_in lo (RestartBudgetWindow (Lifecycle (m_cfg m))) past
    <= Z.max 0 (RestartBudgetMax (Lifecycle (m_cfg m))) ->
  count_in lo (RestartBudgetWindow (Lifecycle (m_cfg m))) (past ++ retry_times rounds m)
    <= Z.max 0 (RestartBudgetMax (Lifecycle (m_cfg m))).
Proof.
  revert m past lastt. induction rounds as [|r rounds IH]; intros m past lastt Hw Hh Hp Hs Hc.
  { cbn [retry_times]. by rewrite app_nil_r. }
  cbn [retry_times]. pose proof (lifecycle_round_retried r m) as Hr.
  destruct (lifecycle_round r m) as [[[m1 evs] states] [|]]; [|by rewrite app_nil_r].
  destruct Hr as (Hcfg & Hhist & Hlen); [done|].
  replace (past ++ r_now r :: retry_times rounds m1)
    with ((past ++ [r_now r]) ++ retry_times rounds m1) by (by rewrite <- app_assoc).
  rewrite <- Hcfg in *. set (lc := Lifecycle (m_cfg m1)) in *.
  set (w := RestartBudgetWindow lc) in *.
  apply Sorted_inv in Hs as [Hs Hhd]. apply HdRel_inv in Hhd as Hnow.
  assert (restartHistory m1 = filter (fun ts => r_now r - w <= ts) (past ++ [r_now r])) as Hm1.
  { rewrite Hhist. cbn. fold w. rewrite Hh, filter_app, list_filter_filter. f_equal.
    - apply list_filter_iff. intros ts. cbn. lia.
    - by rewrite filter_cons_True by lia. }
  apply (IH m1 _ (r_now r)); [done.. | | done | ].
  - apply Forall_app. split; [|by repeat constructor].
    eapply Forall_impl; [exact Hp | cbn; lia].
  - fold lc. fold w. unfold count_in in *. destruct (decide (in_window lo w (r_now r))) as [Hin|Hout].
    + transitivity (Z.of_nat (length (restartHistory m1))); [|lia]. rewrite Hm1.
      apply inj_le, filter_length_mono. intros ts _ [??]. destruct Hin. lia.
    + rewrite filter_app, (filter_cons_False _ (r_now r)), filter_nil, app_nil_r by done. done.
Qed.

(** C36. The restart budget holds: as long as the clock does not go back, in any
    stretch of time as long as [RestartBudgetWindow] the supervisor restarts a
    driver at most [RestartBudgetMax] times, however often it fails. *)
Theorem restart_budget rounds m lo :
  restartHistory m = [] ->
  0 <= RestartBudgetWindow (Lifecycle (m_cfg m)) ->
  Sorted Z.le (r_now <$> rounds) ->
  count_in lo (RestartBudgetWindow (Lifecycle (m_cfg m))) (retry_times rounds m)
    <= Z.max 0 (RestartBudgetMax (Lifecycle (m_cfg m))).
Proof.
  intros Hh Hw Hs. destruct rounds as [|r rounds]; [apply Z.le_max_l|].
  apply (retry_times_window (r :: rounds) m [] (r_now r)); [done | by rewrite Hh | done | | apply Z.le_max_l].
  rewrite fmap_cons in Hs |- *. apply Sorted_cons; [done|]. by constructor.
Qed.

(** ** Backoff *)

Lemma double_backoff_min n b mx :
  0 < b <= mx -> mx < 2 ^ 62 -> double_backoff n b mx = Z.min (b * 2 ^ Z.of_nat n) mx.
Proof.
  revert b. induction n as [|n IH]; intros b Hb Hm; cbn [double_backoff]; [cbn; lia|].
  rewrite i64_small by lia. rewrite Nat2Z.inj_succ, Z.pow_succ_r by lia.
  pose proof (Z.pow_pos_nonneg 2 (Z.of_nat n) ltac:(lia) ltac:(lia)).
  destruct (_ >? _) eqn:Hgt; [nia|]. rewrite IH by lia. f_equal. lia.
Qed.

(** The backoff formula and the quarantine rule of [scheduleBackoff]: the
    [n]-th failure within the window waits [initial * 2^(n-1)], capped at the
    maximum, when [n] is within the budget, and quarantines the instance
    otherwise; the doubling never overflows. *)
Theorem scheduleBackoff_formula now cancelled m :
  let lc := Lifecycle (m_cfg m) in
  let n := Z.of_nat (length (filter (fun ts => now - RestartBudgetWindow lc <= ts)
                               (restartHistory m))) + 1 in
  0 < RestartBackoffInitial lc <= RestartBackoffMax lc -> RestartBackoffMax lc < 2 ^ 62 ->
  let '(m', evs, retry) := scheduleBackoff now cancelled m in
  Z.of_nat (length (restartHistory m')) = n /\
  if decide (n <= RestartBudgetMax lc)
  then m_state m' = StateBackoff /\ retry = negb cancelled /\
       evs = [EvDriver "backoff_scheduled"
                (DDuration (Z.min (RestartBackoffInitial lc * 2 ^ (n - 1)) (RestartBackoffMax lc)))]
  else m_state m' = StateQuarantined /\ retry = false /\
       evs = [EvDriver "quarantined" (DText "restart budget exhausted")].
Proof.
  intros lc n Hi Hm. unfold scheduleBackoff, backoff_decision. fold lc.
  set (k := filter _ (restartHistory m)) in *.
  rewrite length_app, Nat2Z.inj_add. change (Z.of_nat (length [now])) with 1. fold n.
  destruct (n >? RestartBudgetMax lc) eqn:Hn.
  - cbn. rewrite decide_False by lia. rewrite length_app. cbn. split; [lia|done].
  - cbn. rewrite decide_True by lia. rewrite length_app. cbn. split; [lia|].
    rewrite double_backoff_min, Z2Nat.id by lia. done.
Qed.

(** ** Health *)

(** Somewhere in [probes] there are [max] failures in a row. *)
Definition has_failure_run (max : nat) (probes : list bool) : Prop :=
  exists i, forall j, (j < max)%nat -> probes !! (i + j)%nat = Some false.

Lemma lookup_replicate_app_r {A} n (x : A) l i :
  (n <= i)%nat -> (replicate n x ++ l) !! i = l !! (i - n)%nat.
Proof. intros. rewrite lookup_app_r; autorewrite with switchyard; [done | lia]. Qed.

Lemma has_failure_run_ok max k probes :
  (0 < max)%nat -> (k < max)%nat ->
  has_failure_run max (replicate k false ++ true :: probes) <-> has_failure_run max probes.
Proof.
  intros Hmax Hk. split; intros [i Hi].
  - destruct (decide (i <= k)%nat) as [Hik|Hik].
    + specialize (Hi (k - i)%nat). replace (i + (k - i))%nat with k in Hi by lia.
      rewrite list_lookup_middle in Hi by (by rewrite length_replicate).
      by specialize (Hi ltac:(lia)).
    + exists (i - k - 1)%nat. intros j Hj. rewrite <- (Hi j Hj).
      rewrite lookup_replicate_app_r by lia.
      by replace (i + j - k)%nat with (S (i - k - 1 + j))%nat by lia.
  - exists (S (k + i))%nat. intros j Hj. rewrite <- (Hi j Hj).
    rewrite lookup_replicate_app_r by lia.
    by replace (S (k + i) + j - k)%nat with (S (i + j))%nat by lia.
Qed.

Lemma runHealth_run max k probes :
  (0 < max)%nat -> (k < max)%nat ->
  runHealth (Z.of_nat max) (Z.of_nat k) probes = false <->
  has_failure_run max (replicate k false ++ probes).
Proof.
  intros Hmax. revert k. induction probes as [|ok probes IH]; intros k Hk; cbn [runHealth].
  - split; [done|]. intros [i Hi]. specialize (Hi (max - 1)%nat ltac:(lia)).
    rewrite app_nil_r in Hi. apply lookup_lt_Some in Hi. rewrite length_replicate in Hi. lia.
  - destruct ok; cbn [negb].
    + rewrite has_failure_run_ok by done. change 0 with (Z.of_nat 0). by rewrite IH by lia.
    + replace (replicate k false ++ false :: probes) with (replicate (S k) false ++ probes)
        by (by rewrite replicate_S_end, <- app_assoc).
      destruct (Z.of_nat k + 1 >=? Z.of_nat max) eqn:Hge.
      * split; [intros _|done]. exists O. intros j Hj. cbn [Nat.add].
        rewrite lookup_app_l by (rewrite length_replicate; lia).
        apply lookup_replicate. lia.
      * replace (Z.of_nat k + 1) with (Z.of_nat (S k)) by lia. apply IH. lia.
Qed.

(** The health rule: [runHealth] gives a driver up exactly when
    [HealthFailuresToRestart] probes in a row failed, somewhere among the probes
    made before the context ended; failures with a success between them never
    add up. *)
Theorem runHealth_consecutive max probes :
  1 <= max ->
  runHealth max 0 probes = false <-> has_failure_run (Z.to_nat max) probes.
Proof.
  intros Hmax. pose proof (runHealth_run (Z.to_nat max) 0 probes) as Hr.
  rewrite Z2Nat.id in Hr by lia. apply Hr; lia.
Qed.

Lemma runHealth_consecutive_witness :
  runHealth 2 0 [false; true; false; false; true] = false <->
  has_failure_run (Z.to_nat 2) [false; true; false; false; true].
Proof. apply runHealth_consecutive. lia. Defined.

(** ** The host's table *)

(** What an instance is once its shutdown has returned: the goroutine is gone,
    and a driver that was running has announced "stopped" and is [Stopped]. *)
Lemma shutdown_running r m :
  m_state m = StateRunning -> m_running m = true -> r_ctx_done r = true ->
  shutdownInstance r m =
    (with_running false (with_state StateStopped (with_conn false m)),
     [EvDriver "stopping" (DText "running"); EvDriver "stopped" (DText "daemon shutdown")]).
Proof.
  intros Hs Hr Hd. unfold shutdownInstance. rewrite Hs, Hr. cbn [finish_round].
  unfold running_phase. by rewrite Hd.
Qed.

Lemma shutdown_not_running r m : m_running (shutdownInstance r m).1 = false.
Proof.
  unfold shutdownInstance. destruct (if m_running m then _ else _). done.
Qed.

(** A manual restart gives a driver a clean slate, whatever state it was in
    (quarantined included): the goroutine of before has ended, the restart
    history is empty and a new lifecycle starts from [Declared], so the first
    failure after it is retried whenever the budget allows one; every other
    instance is untouched, and an unknown id is an error that changes nothing. *)
Theorem RestartInstance_clean r id h :
  match RestartInstance r id h with
  | Err e => e = UnknownInstance id /\ h_instances h !! id = None
  | Ok (h', evs) =>
      exists m m', h_instances h !! id = Some m /\ h_instances h' !! id = Some m' /\
        m_state m' = StateDeclared /\ restartHistory m' = [] /\ m_conn m' = false /\
        m_running m' = true /\ last evs = Some (EvDriver "restart_manual" (DText "operator")) /\
        (forall now c, 1 <= RestartBudgetMax (Lifecycle (m_cfg m')) ->
           m_state (scheduleBackoff now c m').1.1 = StateBackoff) /\
        (forall id', id' <> id -> h_instances h' !! id' = h_instances h !! id')
  end.
Proof.
  unfold RestartInstance. destruct (h_instances h !! id) as [m|] eqn:Hm; [|done].
  destruct (shutdownInstance r m) as [m1 evs]. eexists m, _.
  split; [done|]. split; [by apply lookup_insert_eq|]. cbn [launchLifecycle with_running].
  repeat split; [by rewrite last_snoc | | by intros; apply lookup_insert_ne].
  intros now c Hb. unfold scheduleBackoff, backoff_decision. cbn.
  cbn in Hb. destruct (_ >? _) eqn:Hgt; [|done].
  change (1 >? RestartBudgetMax (Lifecycle (m_cfg m1)) = true) in Hgt. lia.
Qed.

(** The host's instance table: registering succeeds exactly on a started,
    unstopped host with a free id, and then unregistering the same id gives back
    the table there was; unregistering an unknown id is an error. *)
Theorem Register_Unregister_roundtrip r id binary params enabled lc h :
  (is_ok (RegisterInstance id binary params enabled lc h) = true <->
     h_started h = true /\ h_stopped h = false /\ h_instances h !! id = None) /\
  match RegisterInstance id binary params enabled lc h with
  | Err _ => True
  | Ok h1 =>
      InstanceState id h1 = StateDeclared /\
      is_ok (RegisterInstance id binary params enabled lc h1) = false /\
      exists m evs, UnregisterInstance r id h1 = Ok (h, m, evs) /\ m_running m = false /\
        is_ok (UnregisterInstance r id h) = false
  end.
Proof.
  unfold RegisterInstance. destruct (h_started h) eqn:Hs, (h_stopped h) eqn:Ht; cbn;
    try (split; [naive_solver | done]).
  destruct (h_instances h !! id) as [m|] eqn:Hm; cbn; [split; [naive_solver | done]|].
  split; [done|]. unfold InstanceState, UnregisterInstance. cbn -[shutdownInstance launchLifecycle].
  rewrite Hs, Ht, lookup_insert_eq. cbn -[shutdownInstance launchLifecycle]. split; [done|]. split; [done|].
  pose proof (shutdown_not_running r
    (launchLifecycle (mkManaged (mkInstance id binary enabled params lc) StateDeclared false [] false)))
    as Hn.
  destruct (shutdownInstance _ _) as [m' evs]. eexists m', evs.
  split; [|split; [done | by rewrite Hm]].
  rewrite delete_insert_id by done. unfold with_instances. cbn -[shutdownInstance]. destruct h; cbn in *; by subst.
Qed.

(** ** Concrete runs *)

Module CarportDemo.

Definition lc : LifecycleConfig :=
  mkLifecycleConfig (5 * Second) Second Second 2 Second Second (4 * Second) (10 * Second) 2.
Definition inst : managedInstance :=
  mkManaged (mkInstance "hue" "/bin/hue" true "{}" lc) StateDeclared false [] true.
Definition crash (now : Z) : round :=
  mkRound false (Err "no socket") None (Err "unreachable") [] false now false.
Definition runs (now : Z) : round :=
  mkRound false (Ok 42) None (Ok (mkHandshakeResponse "v1alpha1" (Some "1.0") []))
    [true; false; false] false now false.

(** Two restarts within the window are granted; the third failure quarantines. *)
Example third_failure :
  (fun r => (m_state r.1.1, r.2)) (runLifecycle [crash 0; runs Second; crash (2 * Second)] inst) =
  (StateQuarantined,
   [StateSpawning; StateFailed; StateBackoff;
    StateSpawning; StateAwaitingHandshake; StateRunning; StateFailed; StateBackoff;
    StateSpawning; StateFailed; StateQuarantined]).
Proof. vm_compute. reflexivity. Qed.

End CarportDemo.

Lemma supervisor_follows_fsm_witness :
  let '(m', _, states) := runLifecycle [CarportDemo.crash 0; CarportDemo.runs Second] CarportDemo.inst in
  steps_ok (m_state CarportDemo.inst) states /\ m_state m' = last_or (m_state CarportDemo.inst) states.
Proof. apply (supervisor_follows_fsm _ CarportDemo.inst). left. reflexivity. Defined.

Lemma restart_budget_witness :
  count_in 0 (10 * Second)
    (retry_times [CarportDemo.crash 0; CarportDemo.runs Second; CarportDemo.crash (2 * Second)]
       CarportDemo.inst) <= Z.max 0 2.
Proof.
  apply (restart_budget _ CarportDemo.inst); [reflexivity | vm_compute; discriminate |].
  repeat constructor; vm_compute; discriminate.
Defined.

Lemma scheduleBackoff_formula_witness :
  scheduleBackoff 0 false CarportDemo.inst =
    (with_state StateBackoff (with_history [0] CarportDemo.inst),
     [EvDriver "backoff_scheduled" (DDuration Second)], true) /\
  (let '(m', evs, retry) := scheduleBackoff 0 false CarportDemo.inst in
   Z.of_nat (length (restartHistory m')) = 1 /\
   (m_state m' = StateBackoff /\ retry = negb false /\
    evs = [EvDriver "backoff_scheduled" (DDuration (Z.min (Second * 2 ^ (1 - 1)) (4 * Second)))])).
Proof.
  split; [reflexivity|].
  apply (scheduleBackoff_formula 0 false CarportDemo.inst);
    [split; vm_compute; [reflexivity | discriminate] | vm_compute; reflexivity].
Defined.
