(* ===== verification/Dispatch.v ===== *)
(** * Commands to drivers and messages from them

    Models [internal/carport/instance.go] (the connection: its table of pending
    commands, its channels, its reader), [routing.go], [dispatch.go],
    [ingest.go] and [errors.go]. A channel is a cell of a small heap, since the
    waiter keeps it after the table has dropped it. *)

From S2P Require Import Prelude Events EventStore EventStoreFacts Registry Carport.

(** ** Errors *)

Inductive sentinel :=
  | ErrEntityUnknown | ErrInstanceNotRunning | ErrDispatchTimeout | ErrStreamClosed
  | ErrContextCanceled | ErrHostStopped
  | Ctx_Canceled | Ctx_DeadlineExceeded.

#[export] Instance sentinel_eq_dec : EqDecision sentinel.
Proof. solve_decision. Defined.

(** A Go error: a sentinel, a plain text, or a text wrapping one ([%w]). *)
Inductive goerr :=
  | Sentinel (s : sentinel)
  | Text (msg : string)
  | Wrap (prefix : string) (e : goerr).

(** [errors.Is] against a sentinel. *)
Fixpoint errors_Is (e : goerr) (s : sentinel) : bool :=
  match e with
  | Sentinel s' => bool_decide (s' = s)
  | Text _ => false
  | Wrap _ e' => errors_Is e' s
  end.

Definition sentinel_text (s : sentinel) : string :=
  match s with
  | ErrEntityUnknown => "carport: entity unknown"
  | ErrInstanceNotRunning => "carport: driver instance not running"
  | ErrDispatchTimeout => "carport: dispatch timeout"
  | ErrStreamClosed => "carport: driver stream closed"
  | ErrContextCanceled => "carport: context canceled"
  | ErrHostStopped => "carport: host stopped"
  | Ctx_Canceled => "context canceled"
  | Ctx_DeadlineExceeded => "context deadline exceeded"
  end.

Fixpoint Error (e : goerr) : string :=
  match e with
  | Sentinel s => sentinel_text s
  | Text msg => msg
  | Wrap prefix e' => prefix +:+ Error e'
  end.

(** ** The connection *)

(** A buffered channel of capacity 1. *)
Record chan := mkChan { ch_buf : option CommandResult; ch_closed : bool }.

(** [instanceConn]: [pending] is [None] for the nil map; the hook is set or
    not, and [ingested] is what it has been called with. *)
Record instanceConn := mkConn {
  heap : gmap nat chan;
  pending : option (gmap string nat);
  ic_closed : bool;
  hooked : bool;
  preHookQueue : list DriverToHost;
  ingested : list DriverToHost;
}.

(** The outcome of an operation that can panic. *)
Inductive go (A : Type) := Done (a : A) | Panic (msg : string).
Arguments Done {A} a.
Arguments Panic {A} msg.

(** [DialInstance], when the dial succeeds. *)
Definition DialInstance : instanceConn := mkConn ∅ (Some ∅) false false [] [].

Definition with_pending (p : option (gmap string nat)) (ic : instanceConn) : instanceConn :=
  mkConn (heap ic) p (ic_closed ic) (hooked ic) (preHookQueue ic) (ingested ic).
Definition with_heap (h : gmap nat chan) (ic : instanceConn) : instanceConn :=
  mkConn h (pending ic) (ic_closed ic) (hooked ic) (preHookQueue ic) (ingested ic).

(** [close(ch)]: panics on a closed channel. *)
Definition close_chan (l : nat) (h : gmap nat chan) : go (gmap nat chan) :=
  match h !! l with
  | None => Panic "close of nil channel"
  | Some c => if ch_closed c then Panic "close of closed channel"
              else Done (<[l := mkChan (ch_buf c) true]> h)
  end.

(** [for _, ch := range pending { close(ch) }]. *)
Fixpoint close_all (ls : list nat) (h : gmap nat chan) : go (gmap nat chan) :=
  match ls with
  | [] => Done h
  | l :: rest => match close_chan l h with Done h' => close_all rest h' | Panic m => Panic m end
  end.

(** [select { case ch <- r: default: }]: panics on a closed channel, drops the
    value when the buffer is full. *)
Definition try_send_chan (l : nat) (r : CommandResult) (h : gmap nat chan) : go (gmap nat chan) :=
  match h !! l with
  | None => Done h
  | Some c => if ch_closed c then Panic "send on closed channel"
              else match ch_buf c with
                   | Some _ => Done h
                   | None => Done (<[l := mkChan (Some r) false]> h)
                   end
  end.

(** [deliver], the part under [ic.mu]: the channel of the command leaves the table. *)
Definition deliver_take (r : CommandResult) (ic : instanceConn) : instanceConn * option nat :=
  match pending ic ≫= (fun p => p !! cr_command_id r) with
  | None => (ic, None)
  | Some l => (with_pending (delete (cr_command_id r) <$> pending ic) ic, Some l)
  end.

(** The rest of [deliver], after [ic.mu] is released. *)
Definition deliver_send (l : nat) (r : CommandResult) (ic : instanceConn) : go instanceConn :=
  match try_send_chan l r (heap ic) with
  | Panic m => Panic m
  | Done h => Done (with_heap h ic)
  end.

(** [deliver], when nothing happens in between. *)
Definition deliver (r : CommandResult) (ic : instanceConn) : go instanceConn :=
  match deliver_take r ic with
  | (ic1, None) => Done ic1
  | (ic1, Some l) => deliver_send l r ic1
  end.

(** [failAll], the part under [ic.mu]: the channels left to close. *)
Definition failAll_take (ic : instanceConn) : instanceConn * list nat :=
  if ic_closed ic then (ic, [])
  else (mkConn (heap ic) None true (hooked ic) (preHookQueue ic) (ingested ic),
        (map_to_list (default ∅ (pending ic))).*2).

(** One turn of its loop, after [ic.mu] is released. *)
Definition failAll_close (l : nat) (ic : instanceConn) : go instanceConn :=
  match close_chan l (heap ic) with
  | Panic m => Panic m
  | Done h => Done (with_heap h ic)
  end.

(** [failAll], when nothing happens in between. *)
Definition failAll (ic : instanceConn) : go instanceConn :=
  let '(ic1, ls) := failAll_take ic in
  match close_all ls (heap ic1) with
  | Panic m => Panic m
  | Done h => Done (with_heap h ic1)
  end.

(** [SendCommand] up to the send: the channel [l] allocated for the command. A
    write to the nil map would panic. *)
Definition SendCommand_register (id : string) (l : nat) (ic : instanceConn) :
    go (result goerr instanceConn) :=
  if ic_closed ic then Done (Err (Sentinel ErrStreamClosed))
  else match pending ic with
  | None => Panic "assignment to entry in nil map"
  | Some p => Done (Ok (with_pending (Some (<[id := l]> p))
                          (with_heap (<[l := mkChan None false]> (heap ic)) ic)))
  end.

(** [delete(ic.pending, c.CommandId)], harmless on the nil map. *)
Definition forget (id : string) (ic : instanceConn) : instanceConn :=
  with_pending (delete id <$> pending ic) ic.

(** What a waiter's channel offers: a result, the end of the stream, or nothing. *)
Definition recv_chan (l : nat) (ic : instanceConn) : option (result goerr CommandResult) :=
  match heap ic !! l with
  | None => None
  | Some c => match ch_buf c with
              | Some r => Some (Ok r)
              | None => if ch_closed c then Some (Err (Sentinel ErrStreamClosed)) else None
              end
  end.

(** One case of the final [select] that fired. *)
Inductive wait_case :=
  | WaitRecv
  | WaitCtx (e : sentinel)
  | WaitDeadline.

(** [SendCommand] after registering, up to its outcome: [send] is what [stream.Send]
    returned, [left] the time until the command's deadline when it has one, [case] the
    case of the select that fired; and whether the entry is deleted before returning.
    [None]: that case is not ready. *)
Definition SendCommand_select (l : nat) (send : option string) (left : option Z)
    (case : wait_case) (ic : instanceConn) : option (bool * result goerr CommandResult) :=
  match send with
  | Some msg => Some (true, Err (Wrap "send command: " (Text msg)))
  | None =>
      if default false ((fun d => d <=? 0) <$> left)
      then Some (true, Err (Sentinel ErrDispatchTimeout))
      else match case with
      | WaitRecv => (fun r => (false, r)) <$> recv_chan l ic
      | WaitCtx e => Some (true, Err (Sentinel e))
      | WaitDeadline => if left then Some (true, Err (Sentinel ErrDispatchTimeout)) else None
      end
  end.

(** [SendCommand] after registering, when nothing happens before the deletion. *)
Definition SendCommand_wait (id : string) (l : nat) (send : option string) (left : option Z)
    (case : wait_case) (ic : instanceConn) : option (instanceConn * result goerr CommandResult) :=
  (fun br : bool * result goerr CommandResult => (if br.1 then forget id ic else ic, br.2)) <$>
    SendCommand_select l send left case ic.

(** The reader's handling of a message that is no result: the queue, or the hook. *)
Definition reader_ingest (m : DriverToHost) (ic : instanceConn) : instanceConn :=
  if negb (hooked ic)
  then mkConn (heap ic) (pending ic) (ic_closed ic) false (preHookQueue ic ++ [m]) (ingested ic)
  else mkConn (heap ic) (pending ic) (ic_closed ic) true (preHookQueue ic) (ingested ic ++ [m]).

(** The reader's handling of one message ([None]: [Recv] failed), when nothing happens
    meanwhile. *)
Definition reader_step (msg : option DriverToHost) (ic : instanceConn) : go instanceConn :=
  match msg with
  | None => failAll ic
  | Some (DH_Result r) => deliver r ic
  | Some m => Done (reader_ingest m ic)
  end.

(** [setIngestHook], its critical section: the queue it took is still to be
    handed to the hook. *)
Definition setIngestHook_swap (ic : instanceConn) : instanceConn * list DriverToHost :=
  (mkConn (heap ic) (pending ic) (ic_closed ic) true [] (ingested ic), preHookQueue ic).

(** [for _, msg := range queued { f(msg) }], one iteration. *)
Definition drain_one (m : DriverToHost) (ic : instanceConn) : instanceConn :=
  mkConn (heap ic) (pending ic) (ic_closed ic) (hooked ic) (preHookQueue ic) (ingested ic ++ [m]).

(** [Close]. *)
Definition Close (ic : instanceConn) : go instanceConn := failAll ic.

(** ** Routing, dispatch and ingest *)

(** [Router.Resolve]; the entity id in the texts is not quoted here. *)
Definition Resolve (entityID : string) (areas : AreaState) (t : RegTables) : result goerr string :=
  match GetEntity entityID areas t with
  | Err msg =>
      if str_contains msg "not found"
      then Err (Wrap ("resolve " +:+ entityID +:+ ": ") (Sentinel ErrEntityUnknown))
      else Err (Wrap ("resolve " +:+ entityID +:+ ": ") (Text msg))
  | Ok e =>
      if is_empty (E_DriverInstanceID e)
      then Err (Wrap ("resolve " +:+ entityID +:+ ": entity has no driver_instance_id: ")
                  (Sentinel ErrEntityUnknown))
      else Ok (E_DriverInstanceID e)
  end.

(** [mapSendError]. *)
Definition mapSendError (err : option goerr) : option goerr :=
  match err with
  | None => None
  | Some e =>
      Some (if errors_Is e Ctx_Canceled then Sentinel ErrContextCanceled
            else if errors_Is e Ctx_DeadlineExceeded then Sentinel ErrDispatchTimeout
            else if errors_Is e ErrStreamClosed then Sentinel ErrStreamClosed
            else if errors_Is e ErrDispatchTimeout then Sentinel ErrDispatchTimeout
            else e)
  end.

(** [errors.Is] on a possibly nil error. *)
Definition is_err (e : option goerr) (s : sentinel) : bool :=
  match e with Some e => errors_Is e s | None => false end.

(** [dispatchResultLabel]. *)
Definition dispatchResultLabel (sendErr mappedErr : option goerr) : string :=
  match sendErr with
  | None => "ok"
  | Some _ =>
      if is_err mappedErr ErrDispatchTimeout then "timeout"
      else if is_err mappedErr ErrStreamClosed then "stream_closed"
      else if is_err mappedErr ErrContextCanceled then "context_canceled"
      else if is_err mappedErr ErrInstanceNotRunning then "instance_not_running"
      else if is_err mappedErr ErrEntityUnknown then "entity_unknown"
      else "internal"
  end.

Definition err_of (r : result goerr CommandResult) : option goerr :=
  match r with Ok _ => None | Err e => Some e end.

(** The acknowledgement: success and message. *)
Definition ack_of (r : result goerr CommandResult) : bool * string :=
  let mapped := mapSendError (err_of r) in
  match r with
  | Ok res => (cr_ok res, cr_error_message res)
  | Err e =>
      if is_err mapped ErrDispatchTimeout then (false, "dispatch timeout")
      else if is_err mapped ErrContextCanceled then (false, "context canceled")
      else if is_err mapped ErrStreamClosed then (false, "driver stream closed")
      else (false, Error e)
  end.

(** [cause.FromCorrelation]: the automation and the correlation the caller
    attached. *)
Definition commandSource (corr : option (string * string)) : string :=
  match corr with
  | Some (automation, correlation) =>
      if negb (is_empty automation) then "automation:" +:+ automation +:+ "#" +:+ correlation
      else "carport:host"
  | None => "carport:host"
  end.

Definition issued_event (now : Z) (corr : option (string * string)) (entityID capability : string)
    (args : string_map) : Event :=
  mkEvent 0 now "command_issued" entityID (commandSource corr) uuid_Nil 0
    (Some (Some (Payload_CommandIssued capability args))).

Definition ack_event (now : Z) (entityID : string) (ack : bool * string) : Event :=
  mkEvent 0 now "command_ack" entityID "carport:host" uuid_Nil 0
    (Some (Some (Payload_CommandAck ack.1 ack.2))).

(** The clock, the fresh id and the database faults of one [Append]. *)
Record append_env := mkAppendEnv {
  ae_now : Z; ae_fresh : Z; ae_fl : nat -> TxFaults; ae_done : nat -> option string;
}.

Section Store.
Context {M : Type} (marshal : Payload -> result string string).
Implicit Type s : Store M RegTables.

Definition append_in (a : append_env) (e : Event) s : Store M RegTables * result string Z :=
  Append marshal (ae_now a) (ae_fresh a) (ae_fl a) (ae_done a) e s.

(** [Dispatch]. [mid] is what happens to the store while the command is out,
    [sent] what [SendCommand] returned. *)
Definition Dispatch (h : Host) (areas : AreaState) (a1 a2 : append_env)
    (corr : option (string * string)) (mid : Store M RegTables -> Store M RegTables)
    (sent : result goerr CommandResult) (entityID capability : string) (args : string_map) s :
    Store M RegTables * result goerr CommandResult :=
  match Resolve entityID areas (tables (db s)) with
  | Err e => (s, Err e)
  | Ok instanceID =>
      match h_instances h !! instanceID with
      | None => (s, Err (Sentinel ErrInstanceNotRunning))
      | Some m =>
          if negb (bool_decide (m_state m = StateRunning)) || negb (m_conn m)
          then (s, Err (Sentinel ErrInstanceNotRunning))
          else
            let '(s1, r1) := append_in a1 (issued_event (ae_now a1) corr entityID capability args) s in
            match r1 with
            | Err msg => (s1, Err (Wrap "append command_issued: " (Text msg)))
            | Ok _ =>
                let '(s2, _) := append_in a2 (ack_event (ae_now a2) entityID (ack_of sent)) (mid s1) in
                (s2, match sent with
                     | Err e => Err (default e (mapSendError (Some e)))
                     | Ok res => Ok res
                     end)
            end
      end
  end.

(** The event [IngestMessage] appends for a message, if any. *)
Definition ingest_event (now : Z) (instanceID : string) (msg : DriverToHost) :
    result string (option Event) :=
  let source := "driver:" +:+ instanceID in
  let ev kind entity p := Ok (Some (mkEvent 0 now kind entity source uuid_Nil 0 (Some (Some p)))) in
  match msg with
  | DH_StateChanged m => ev "state_changed" (sc_entity_id m) (Payload_StateChanged m)
  | DH_EntityRegistered m =>
      let m := own_entity instanceID m in
      ev "entity_registered" (er_device_id m) (Payload_EntityRegistered m)
  | DH_EntityUnregistered m => ev "entity_unregistered" (eu_entity_id m) (Payload_EntityUnregistered m)
  | DH_DriverEvent m =>
      let m := if is_empty (de_driver_instance_id m)
               then mkDriverEvent instanceID (de_kind m) (de_detail m) else m in
      ev "driver_event" "" (Payload_DriverEvent m)
  | DH_Pong => Ok None
  | DH_Result _ => Err "IngestMessage: Result should be consumed by instanceConn.deliver, not ingested"
  | DH_Unset => Err "IngestMessage: unknown message kind <nil>"
  end.

Definition IngestMessage (a : append_env) (instanceID : string) (msg : DriverToHost) s :
    Store M RegTables * option string :=
  match ingest_event (ae_now a) instanceID msg with
  | Err e => (s, Some e)
  | Ok None => (s, None)
  | Ok (Some e) =>
      let '(s', r) := append_in a e s in
      (s', match r with Ok _ => None | Err msg => Some msg end)
  end.

End Store.

(** ** Commands: no panic, no lost waiter, and the pairing of issue and ack

    Theorems about [Dispatch]. The connection is shared by the reader, the
    callers of [SendCommand], the supervisor and whoever calls [Close]; [cstep]
    interleaves them at the granularity of their critical sections, and of the
    operations on channels outside of them. *)

(** ** The connection under interleaving *)

(** The connection; the callers waiting (by the channel they wait on); the command ids
    used so far; the ids of the callers that have given up and have still to delete
    their entries; the send that the reader has still to do; and the channels that
    [failAll] has still to close. *)
Record csys := mkCSys {
  c_ic : instanceConn;
  waiters : gmap nat string;
  used : gset string;
  leaving : gset string;
  delivering : option (nat * CommandResult);
  closing : list nat;
}.

Definition c_init : csys := mkCSys DialInstance ∅ ∅ ∅ None [].

(** The reader is one goroutine: it receives when it has no send left to do. *)
Inductive cstep : csys -> csys -> Prop :=
  | c_register ic ic' ws us lv dl cl id l :
      id ∉ us -> heap ic !! l = None ->
      SendCommand_register id l ic = Done (Ok ic') ->
      cstep (mkCSys ic ws us lv dl cl) (mkCSys ic' (<[l := id]> ws) ({[id]} ∪ us) lv dl cl)
  | c_select ic ws us lv dl cl l id send left case gives_up r :
      ws !! l = Some id ->
      SendCommand_select l send left case ic = Some (gives_up, r) ->
      cstep (mkCSys ic ws us lv dl cl)
        (mkCSys ic (delete l ws) us (if gives_up : bool then {[id]} ∪ lv else lv) dl cl)
  | c_forget ic ws us lv dl cl id :
      id ∈ lv ->
      cstep (mkCSys ic ws us lv dl cl) (mkCSys (forget id ic) ws us (lv ∖ {[id]}) dl cl)
  | c_result ic ic' ws us lv cl r ch :
      deliver_take r ic = (ic', ch) ->
      cstep (mkCSys ic ws us lv None cl) (mkCSys ic' ws us lv ((fun l => (l, r)) <$> ch) cl)
  | c_deliver ic ic' ws us lv cl l r :
      deliver_send l r ic = Done ic' ->
      cstep (mkCSys ic ws us lv (Some (l, r)) cl) (mkCSys ic' ws us lv None cl)
  | c_ingest ic ws us lv cl m :
      cstep (mkCSys ic ws us lv None cl) (mkCSys (reader_ingest m ic) ws us lv None cl)
  | c_failAll ic ic' ws us lv dl cl ls :
      (failAll_take ic).1 = ic' -> ls ≡ₚ (failAll_take ic).2 ->
      cstep (mkCSys ic ws us lv dl cl) (mkCSys ic' ws us lv dl (cl ++ ls))
  | c_close_chan ic ic' ws us lv dl cl l :
      failAll_close l ic = Done ic' ->
      cstep (mkCSys ic ws us lv dl (l :: cl)) (mkCSys ic' ws us lv dl cl)
  | c_hook ic ws us lv dl cl :
      cstep (mkCSys ic ws us lv dl cl) (mkCSys (setIngestHook_swap ic).1 ws us lv dl cl)
  | c_drain ic ws us lv dl cl m :
      cstep (mkCSys ic ws us lv dl cl) (mkCSys (drain_one m ic) ws us lv dl cl).

Definition reachable (s : csys) : Prop := rtc cstep c_init s.

(** A channel that is open and empty. *)
Definition idle_chan : chan := mkChan None false.

(** Every open and empty channel with a waiter is held by exactly one of the table, the
    reader's send and the loop of [failAll]. *)
Record conn_ok (h : gmap nat chan) (p : option (gmap string nat)) (closed : bool)
    (ws : gmap nat string) (us lv : gset string) (dl : option (nat * CommandResult)) (cl : list nat) : Prop := {
  ok_closed : closed = true <-> p = None;
  ok_pending : forall pm id l, p = Some pm -> pm !! id = Some l -> h !! l = Some idle_chan /\ id ∈ us;
  ok_pinj : forall pm id1 id2 l, p = Some pm -> pm !! id1 = Some l -> pm !! id2 = Some l -> id1 = id2;
  ok_delivering : forall l r, dl = Some (l, r) ->
    h !! l = Some idle_chan /\ l ∉ cl /\ (forall pm id, p = Some pm -> pm !! id <> Some l) /\
    (forall id, ws !! l = Some id -> cr_command_id r = id);
  ok_closing : NoDup cl /\ (forall l, l ∈ cl -> h !! l = Some idle_chan /\ p = None);
  ok_waiters : forall l id, ws !! l = Some id ->
    id ∈ us /\ id ∉ lv /\
    ((exists pm, p = Some pm /\ pm !! id = Some l) \/ (exists r, dl = Some (l, r)) \/ l ∈ cl \/
     (exists r c, h !! l = Some (mkChan (Some r) c) /\ cr_command_id r = id) \/
     h !! l = Some (mkChan None true));
  ok_inj : forall l1 l2 id, ws !! l1 = Some id -> ws !! l2 = Some id -> l1 = l2;
  ok_leaving : lv ⊆ us;
}.

Arguments ok_closed {_ _ _ _ _ _ _ _} _.
Arguments ok_pending {_ _ _ _ _ _ _ _} _.
Arguments ok_pinj {_ _ _ _ _ _ _ _} _.
Arguments ok_delivering {_ _ _ _ _ _ _ _} _.
Arguments ok_closing {_ _ _ _ _ _ _ _} _.
Arguments ok_waiters {_ _ _ _ _ _ _ _} _.
Arguments ok_inj {_ _ _ _ _ _ _ _} _.
Arguments ok_leaving {_ _ _ _ _ _ _ _} _.

Definition csys_ok (s : csys) : Prop :=
  conn_ok (heap (c_ic s)) (pending (c_ic s)) (ic_closed (c_ic s)) (waiters s) (used s) (leaving s)
    (delivering s) (closing s).

(** What a waiter can read from its channel. *)
Lemma recv_correlated ic ws us lv dl cl l id r :
  csys_ok (mkCSys ic ws us lv dl cl) -> ws !! l = Some id -> recv_chan l ic = Some r ->
  match r with Ok res => cr_command_id res = id | Err e => e = Sentinel ErrStreamClosed end.
Proof.
  unfold recv_chan, csys_ok. cbn. intros Hok Hw Hr.
  destruct (ok_waiters Hok l id Hw) as (_ & _ & Hc).
  destruct (heap ic !! l) as [[[res|] [|]]|] eqn:Hh; cbn in Hr; try done;
    injection Hr as <-; try done;
    destruct Hc as [(pm & Hp & Hpm)|[[r Hr]|[Hl|[(r & c & [= <- <-] & ?)|?]]]]; try done.
  all: assert (heap ic !! l = Some (mkChan None false)) as Hidle;
    [|rewrite Hh in Hidle; discriminate].
  all: first [ by apply (ok_pending Hok pm id l Hp Hpm) | by apply (ok_delivering Hok l r Hr)
             | destruct (ok_closing Hok) as [_ Hcl]; by apply (Hcl l Hl) ].
Qed.

Lemma select_correlated ic ws us lv dl cl l id send left case b r :
  csys_ok (mkCSys ic ws us lv dl cl) -> ws !! l = Some id ->
  SendCommand_select l send left case ic = Some (b, r) ->
  match r with Ok res => cr_command_id res = id | Err _ => True end.
Proof.
  intros Hok Hw. unfold SendCommand_select. destruct send; [by intros [= _ <-]|].
  destruct (default _ _); [by intros [= _ <-]|].
  destruct case as [|e|]; [|by intros [= _ <-] | by destruct left; [intros [= _ <-]|]].
  intros (r' & Hr & [= _ ->])%fmap_Some. pose proof (recv_correlated _ _ _ _ _ _ _ _ _ Hok Hw Hr). by destruct r'.
Qed.

Lemma register_ok ic ws us lv dl cl id l :
  csys_ok (mkCSys ic ws us lv dl cl) -> id ∉ us -> heap ic !! l = None ->
  exists r, SendCommand_register id l ic = Done r /\
    match r with
    | Err e => ic_closed ic = true /\ e = Sentinel ErrStreamClosed
    | Ok ic' => csys_ok (mkCSys ic' (<[l := id]> ws) ({[id]} ∪ us) lv dl cl)
    end.
Proof.
  intros Hok Hid Hl. unfold SendCommand_register. unfold csys_ok in *. cbn in *.
  destruct (ic_closed ic) eqn:Hcl; [by eexists|].
  destruct (pending ic) as [pm|] eqn:Hp.
  2: { by destruct (ok_closed Hok) as [_ ?%(fun f => f eq_refl)]. }
  eexists. split; [done|]. cbn. rewrite Hcl.
  assert (Hnew : forall l' c, heap ic !! l' = Some c -> l' <> l) by congruence.
  split.
  - done.
  - intros pm' id' l' [= <-] [[<- <-]|[Hne Hpm]]%lookup_insert_Some.
    + rewrite lookup_insert_eq. set_solver.
    + destruct (ok_pending Hok pm id' l' eq_refl Hpm) as [Hh Hu].
      rewrite lookup_insert_ne by (intros ->; congruence). set_solver.
  - intros pm' id1 id2 l' [= <-] [[<- <-]|[Hne1 H1]]%lookup_insert_Some [[<- ?]|[Hne2 H2]]%lookup_insert_Some; try done.
    + destruct (ok_pending Hok pm id2 l eq_refl H2). congruence.
    + subst. destruct (ok_pending Hok pm id1 l' eq_refl H1). congruence.
    + by apply (ok_pinj Hok pm id1 id2 l').
  - intros l' r Hd. destruct (ok_delivering Hok l' r Hd) as (Hh & Hc & Hpe & Hw).
    pose proof (Hnew _ _ Hh) as Hne. rewrite !lookup_insert_ne by done. split_and!; [done..| |done].
    intros pm' id' [= <-] [[<- <-]|[_ Hpm]]%lookup_insert_Some; [done|]. by apply (Hpe pm id').
  - destruct (ok_closing Hok) as [Hnd Hc]. split; [done|]. intros l' Hin. destruct (Hc l' Hin) as [_ ?]. done.
  - intros l' id' [[<- <-]|[Hne Hw]]%lookup_insert_Some.
    + split; [set_solver|]. split; [pose proof (ok_leaving Hok); set_solver|]. left. eexists. split; [done|]. by rewrite lookup_insert_eq.
    + destruct (ok_waiters Hok l' id' Hw) as (Hu & Hlv & Hc). split; [set_solver|]. split; [done|].
      rewrite (lookup_insert_ne (heap ic)) by done.
      destruct Hc as [(pm' & [= <-] & Hpm)|Hc]; [|by right].
      left. eexists. split; [done|]. rewrite lookup_insert_ne; [done|]. intros ->. done.
  - intros l1 l2 id' [[<- <-]|[Hne1 H1]]%lookup_insert_Some [[<- ?]|[Hne2 H2]]%lookup_insert_Some; try done.
    + by destruct (ok_waiters Hok _ _ H2) as [? _].
    + subst. by destruct (ok_waiters Hok _ _ H1) as [? _].
    + by apply (ok_inj Hok l1 l2 id').
  - pose proof (ok_leaving Hok). set_solver.
Qed.

Lemma select_ok ic ws us lv dl cl l id (b : bool) :
  csys_ok (mkCSys ic ws us lv dl cl) -> ws !! l = Some id ->
  csys_ok (mkCSys ic (delete l ws) us (if b then {[id]} ∪ lv else lv) dl cl).
Proof.
  unfold csys_ok. cbn. intros Hok Hw. destruct (ok_waiters Hok l id Hw) as (Hu & _ & _).
  split; try apply Hok.
  - intros l' r Hd. destruct (ok_delivering Hok l' r Hd) as (Hh & Hc & Hpe & Hr). split_and!; [done..|].
    intros id' [_ H]%lookup_delete_Some. by apply Hr.
  - intros l' id' [Hne Hw']%lookup_delete_Some. destruct (ok_waiters Hok l' id' Hw') as (Hu' & Hlv & Hc).
    split_and!; [done| |done]. destruct b; [|done]. apply not_elem_of_union. split; [|done].
    intros ->%elem_of_singleton. by destruct Hne; apply (ok_inj Hok l l' id).
  - intros l1 l2 id' [_ H1]%lookup_delete_Some [_ H2]%lookup_delete_Some. by apply (ok_inj Hok l1 l2 id').
  - pose proof (ok_leaving Hok). destruct b; set_solver.
Qed.

Lemma forget_ok ic ws us lv dl cl id :
  csys_ok (mkCSys ic ws us lv dl cl) -> id ∈ lv ->
  csys_ok (mkCSys (forget id ic) ws us (lv ∖ {[id]}) dl cl).
Proof.
  unfold csys_ok. cbn. intros Hok Hin.
  assert (Hsub : forall pm', delete id <$> pending ic = Some pm' ->
    exists pm, pending ic = Some pm /\ forall id' l', pm' !! id' = Some l' <-> id <> id' /\ pm !! id' = Some l').
  { intros pm' (pm & -> & ->)%fmap_Some. exists pm. split; [done|]. intros. apply lookup_delete_Some. }
  split.
  - rewrite (ok_closed Hok). by destruct (pending ic).
  - intros pm' id' l' (pm & Hp & Hiff)%Hsub [_ H]%Hiff. by apply (ok_pending Hok pm).
  - intros pm' id1 id2 l' (pm & Hp & Hiff)%Hsub [_ H1]%Hiff [_ H2]%Hiff. by apply (ok_pinj Hok pm id1 id2 l').
  - intros l r Hd. destruct (ok_delivering Hok l r Hd) as (Hh & Hc & Hpe & Hr). split_and!; [done..| |done].
    intros pm' id' (pm & Hp & Hiff)%Hsub [_ H]%Hiff. by apply (Hpe pm id').
  - destruct (ok_closing Hok) as [Hnd Hc]. split; [done|]. intros l Hl. destruct (Hc l Hl) as [? ->]. done.
  - intros l id' Hw. destruct (ok_waiters Hok l id' Hw) as (Hu & Hlv & Hc). split_and!; [done|set_solver|].
    destruct Hc as [(pm & Hp & Hpm)|Hc]; [|by right]. left. rewrite Hp. cbn. eexists. split; [done|].
    rewrite lookup_delete_ne; [done|]. intros ->. done.
  - apply Hok.
  - pose proof (ok_leaving Hok). set_solver.
Qed.

Lemma result_ok ic ws us lv cl r ic' ch :
  csys_ok (mkCSys ic ws us lv None cl) -> deliver_take r ic = (ic', ch) ->
  csys_ok (mkCSys ic' ws us lv ((fun l => (l, r)) <$> ch) cl).
Proof.
  unfold csys_ok, deliver_take. cbn. intros Hok.
  destruct (pending ic) as [pm|] eqn:Hp; cbn; [|intros [= <- <-]; cbn; by rewrite Hp].
  destruct (pm !! cr_command_id r) as [l|] eqn:Hl; [|intros [= <- <-]; cbn; by rewrite Hp].
  intros [= <- <-]. cbn. destruct (ok_pending Hok pm _ l eq_refl Hl) as [Hh Hu]. split; cbn.
  - by rewrite (ok_closed Hok).
  - intros pm' id l' [= <-] [_ H]%lookup_delete_Some. by apply (ok_pending Hok pm).
  - intros pm' id1 id2 l' [= <-] [_ H1]%lookup_delete_Some [_ H2]%lookup_delete_Some. by apply (ok_pinj Hok pm id1 id2 l').
  - intros l' r' [= <- <-]. split; [done|]. split; [|split].
    + intros Hin. destruct (ok_closing Hok) as [_ Hc]. by destruct (Hc l Hin).
    + intros pm' id [= <-] [Hne H]%lookup_delete_Some. by destruct Hne; apply (ok_pinj Hok pm _ _ l).
    + intros id Hw. destruct (ok_waiters Hok l id Hw) as (_ & _ & Hc).
      destruct Hc as [(pm' & [= <-] & Hpm)|[[? ?]|[Hin|[(r' & c & H & _)|H]]]].
      * by apply (ok_pinj Hok pm _ _ l).
      * done.
      * destruct (ok_closing Hok) as [_ Hc]. by destruct (Hc l Hin).
      * unfold idle_chan in Hh. congruence.
      * unfold idle_chan in Hh. congruence.
  - destruct (ok_closing Hok) as [Hnd Hc]. split; [done|]. intros l' Hin. by destruct (Hc l' Hin).
  - intros l' id Hw. destruct (ok_waiters Hok l' id Hw) as (Hu' & Hlv & Hc). split_and!; [done..|].
    destruct Hc as [(pm' & [= <-] & Hpm)|[[? ?]|Hc]]; [|done|by right; right].
    destruct (decide (l' = l)) as [->|Hne]; [right; left; eauto|]. left. eexists. split; [done|].
    rewrite lookup_delete_ne; [done|]. intros <-. congruence.
  - apply Hok.
  - apply Hok.
Qed.

(** The reader's send finds the channel open and empty. *)
Lemma deliver_send_ok ic ws us lv cl l r :
  csys_ok (mkCSys ic ws us lv (Some (l, r)) cl) ->
  exists ic', deliver_send l r ic = Done ic' /\ csys_ok (mkCSys ic' ws us lv None cl).
Proof.
  unfold csys_ok, deliver_send, try_send_chan. cbn. intros Hok.
  destruct (ok_delivering Hok l r eq_refl) as (Hh & Hncl & Hpe & Hr). rewrite Hh. cbn. eexists. split; [done|].
  assert (Hne : forall l' c, (exists pm id, pending ic = Some pm /\ pm !! id = Some l') \/ l' ∈ cl ->
    heap ic !! l' = c -> <[l := mkChan (Some r) false]> (heap ic) !! l' = c).
  { intros l' c Hor <-. apply lookup_insert_ne. intros <-. destruct Hor as [(pm & id & Hp & Hpm)|Hin]; [by apply (Hpe pm id)|done]. }
  split; cbn; try apply Hok.
  - intros pm id l' Hp Hpm. destruct (ok_pending Hok pm id l' Hp Hpm). split; [|done]. apply Hne; [left; eauto|done].
  - done.
  - destruct (ok_closing Hok) as [Hnd Hc]. split; [done|]. intros l' Hin. destruct (Hc l' Hin). split; [|done]. apply Hne; [by right|done].
  - intros l' id Hw. destruct (ok_waiters Hok l' id Hw) as (Hu & Hlv & Hc). split_and!; [done..|].
    destruct (decide (l' = l)) as [->|Hnl].
    { right; right; right; left. exists r, false. rewrite lookup_insert_eq. split; [done|]. by apply Hr. }
    rewrite lookup_insert_ne by done. destruct Hc as [Hc|[[r' Hc]|Hc]]; [by left|congruence|by right; right].
Qed.

Lemma failAll_ok ic ws us lv dl cl ls :
  csys_ok (mkCSys ic ws us lv dl cl) -> ls ≡ₚ (failAll_take ic).2 ->
  csys_ok (mkCSys (failAll_take ic).1 ws us lv dl (cl ++ ls)).
Proof.
  unfold csys_ok, failAll_take. cbn. intros Hok. destruct (ic_closed ic) eqn:Hcl; cbn.
  { intros ->%Permutation_nil_r. rewrite app_nil_r, Hcl. done. }
  destruct (pending ic) as [pm|] eqn:Hp.
  2: { by destruct (ok_closed Hok) as [_ ?%(fun f => f eq_refl)]. }
  change (default ∅ (Some pm)) with pm. intros Hls.
  assert (cl = []) as ->.
  { destruct cl as [|l cl]; [done|]. destruct (ok_closing Hok) as [_ Hc]. by destruct (Hc l ltac:(left)). }
  assert (Hin : forall l, l ∈ ls <-> exists id, pm !! id = Some l).
  { intros l. rewrite Hls, list_elem_of_fmap. split.
    - intros ([id l'] & -> & H%elem_of_map_to_list). eauto.
    - intros [id H]. exists (id, l). split; [done|]. by apply elem_of_map_to_list. }
  split; cbn; try apply Hok; try done.
  - intros l r Hd. destruct (ok_delivering Hok l r Hd) as (Hh & _ & Hpe & Hr). split_and!; [done| |done|done].
    rewrite Hin. intros [id Hpm]. by apply (Hpe pm id).
  - split.
    + rewrite Hls. apply NoDup_fmap_2_strong; [|apply NoDup_map_to_list].
      intros [id1 l1] [id2 l2] H1 H2 Heq. cbn in Heq. subst. apply elem_of_map_to_list in H1, H2.
      by rewrite (ok_pinj Hok pm id1 id2 l2 eq_refl H1 H2).
    + intros l [id Hpm]%Hin. split; [|done]. by apply (ok_pending Hok pm id).
  - intros l id Hw. destruct (ok_waiters Hok l id Hw) as (Hu & Hlv & Hc). split_and!; [done..|].
    destruct Hc as [(pm' & [= <-] & Hpm)|[Hc|[Hc|Hc]]]; [|by right; left|by apply not_elem_of_nil in Hc|by right; right; right].
    right; right; left. apply Hin. eauto.
Qed.

(** Closing finds the channel open. *)
Lemma close_chan_ok ic ws us lv dl cl l :
  csys_ok (mkCSys ic ws us lv dl (l :: cl)) ->
  exists ic', failAll_close l ic = Done ic' /\ csys_ok (mkCSys ic' ws us lv dl cl).
Proof.
  unfold csys_ok, failAll_close, close_chan. cbn. intros Hok.
  destruct (ok_closing Hok) as [[Hncl Hnd]%NoDup_cons Hc]. destruct (Hc l ltac:(left)) as [Hh Hp]. rewrite Hh. cbn.
  eexists. split; [done|]. split; cbn; try apply Hok.
  - intros pm id l' Hp'. congruence.
  - intros l' r Hd. destruct (ok_delivering Hok l' r Hd) as (Hh' & [Hne Hn]%not_elem_of_cons & Hpe & Hr).
    rewrite lookup_insert_ne by done. done.
  - split; [done|]. intros l' Hin. rewrite lookup_insert_ne by (intros ->; done). apply Hc. by right.
  - intros l' id Hw. destruct (ok_waiters Hok l' id Hw) as (Hu & Hlv & Hw'). split_and!; [done..|].
    destruct (decide (l' = l)) as [->|Hne]; [right; right; right; right; by rewrite lookup_insert_eq|].
    rewrite lookup_insert_ne by done. destruct Hw' as [?|[?|[[?|?]%elem_of_cons|?]]]; tauto.
Qed.

Lemma csys_ok_step s s' : csys_ok s -> cstep s s' -> csys_ok s'.
Proof.
  intros Hok Hs. inversion Hs as [ic ic' ws us lv dl cl id l Hid Hl Hr | ic ws us lv dl cl l id send left case b r Hw Hr
    | ic ws us lv dl cl id Hid | ic ic' ws us lv cl r ch Hr | ic ic' ws us lv cl l r Hr | ic ws us lv cl m
    | ic ic' ws us lv dl cl ls Hr Hls | ic ic' ws us lv dl cl l Hr | ic ws us lv dl cl | ic ws us lv dl cl m]; subst.
  - destruct (register_ok _ _ _ _ _ _ _ _ Hok Hid Hl) as (r & Hr' & Hok'). rewrite Hr in Hr'. by injection Hr' as <-.
  - by apply select_ok.
  - by apply forget_ok.
  - by eapply result_ok.
  - destruct (deliver_send_ok _ _ _ _ _ _ _ Hok) as (ic2 & Hr' & Hok'). rewrite Hr in Hr'. by injection Hr' as ->.
  - unfold reader_ingest. destruct (hooked ic); exact Hok.
  - by apply failAll_ok.
  - destruct (close_chan_ok _ _ _ _ _ _ _ Hok) as (ic2 & Hr' & Hok'). rewrite Hr in Hr'. by injection Hr' as ->.
  - exact Hok.
  - exact Hok.
Qed.

Lemma conn_reachable_ok s : reachable s -> csys_ok s.
Proof.
  intros Hr. unfold reachable in Hr.
  assert (csys_ok c_init) as Hi by (split; [done | | | | | | | ]; cbn; try set_solver; split; [constructor|set_solver]).
  induction Hr as [|s1 s2 s3 Hs _ IH] in Hi |- *; [done|]. apply IH. by eapply csys_ok_step.
Qed.

(** C5. Commands and results are matched up correctly under every interleaving of the
    reader, the callers, [failAll] and [Close], cut at every critical section and every
    operation on a channel outside of one: a caller only ever receives the result carrying
    its own command id; no operation panics (the reader never sends on a closed channel,
    no channel is closed twice, nothing is written to the nil map); and once the stream has
    ended, every caller still waiting finds something on its channel, or its channel is the
    one the reader is about to send on or one that [failAll] is about to close, so nobody
    waits for ever. *)
Theorem conn_safe s :
  reachable s ->
  (forall l id send left case gives_up r, waiters s !! l = Some id ->
     SendCommand_select l send left case (c_ic s) = Some (gives_up, Ok r) -> cr_command_id r = id) /\
  (forall l r, delivering s = Some (l, r) -> exists ic', deliver_send l r (c_ic s) = Done ic') /\
  (forall l rest, closing s = l :: rest -> exists ic', failAll_close l (c_ic s) = Done ic') /\
  (forall id l, id ∉ used s -> heap (c_ic s) !! l = None ->
     exists r, SendCommand_register id l (c_ic s) = Done r) /\
  (ic_closed (c_ic s) = true -> forall l id, waiters s !! l = Some id ->
     is_Some (recv_chan l (c_ic s)) \/ (exists r, delivering s = Some (l, r)) \/ l ∈ closing s).
Proof.
  intros Hok%conn_reachable_ok. destruct s as [ic ws us lv dl cl]. cbn [c_ic waiters used delivering closing]. split_and!.
  - intros l id send left case b r Hw Hr. by apply (select_correlated _ _ _ _ _ _ _ _ _ _ _ _ _ Hok Hw Hr).
  - intros l r ->. destruct (deliver_send_ok _ _ _ _ _ _ _ Hok) as (ic2 & Hr & _). eauto.
  - intros l rest ->. destruct (close_chan_ok _ _ _ _ _ _ _ Hok) as (ic2 & Hr & _). eauto.
  - intros id l Hid Hl. destruct (register_ok _ _ _ _ _ _ _ _ Hok Hid Hl) as (r & Hr & _). eauto.
  - intros Hcl l id Hw. unfold csys_ok in Hok. cbn in Hok. apply (ok_closed Hok) in Hcl.
    destruct (ok_waiters Hok l id Hw) as (_ & _ & Hc). unfold recv_chan.
    destruct Hc as [(pm & Hp & _)|[Hd|[Hin|[(r & c & -> & _)| -> ]]]];
      [congruence | by right; left | by right; right | left; by eexists | left; by eexists].
Qed.

(** ** Issue and acknowledgement *)

Section Dispatch.
Context {M : Type} (marshal : Payload -> result string string).
Implicit Type s : Store M RegTables.

(** The instance that owns the entity is running with an open connection. *)
Definition reachable_instance (h : Host) (areas : AreaState) (entityID : string) (t : RegTables) : Prop :=
  exists id m, Resolve entityID areas t = Ok id /\ h_instances h !! id = Some m /\
    m_state m = StateRunning /\ m_conn m = true.

(** An [Append] that succeeded put [e] at the end of the log. *)
Definition logged (e : Event) (a : append_env) s s' : Prop :=
  exists p payload, PayloadPtr e = Some p /\ marshal p = Ok payload /\
    appended (fill_defaults (ae_now a) (ae_fresh a) e) payload s s'.

Lemma append_in_cases a e s :
  let '(s', r) := append_in marshal a e s in
  match r with
  | Err _ => db s' = db s
  | Ok _ => logged e a s s'
  end.
Proof.
  unfold append_in. pose proof (Append_cases marshal (ae_now a) (ae_fresh a) (ae_fl a) (ae_done a) e s) as H.
  destruct (Append _ _ _ _ _ _ _) as [s' [pos|msg]]; [|tauto].
  destruct H as (p & payload & Hp & Hm & _ & _ & _ & Happ & _). by exists p, payload.
Qed.

(** The pairing of issue and acknowledgement ([INV-1] of the carport
    design), stated with the case the code leaves open: [Dispatch] either
    refuses without touching the log (unknown entity, driver not running, or
    the issue itself could not be logged), or logs exactly one issue, sends,
    and then logs the acknowledgement carrying the outcome, whatever that was;
    only if that second append fails is there an issue without an ack. The
    value returned is the driver's result, or the mapped error. *)
Theorem Dispatch_issue_ack h areas a1 a2 corr mid sent entityID capability args s :
  let '(s', r) := Dispatch marshal h areas a1 a2 corr mid sent entityID capability args s in
  (db s' = db s /\ is_ok r = false /\
    (reachable_instance h areas entityID (tables (db s)) ->
     is_ok (append_in marshal a1 (issued_event (ae_now a1) corr entityID capability args) s).2 = false)) \/
  (reachable_instance h areas entityID (tables (db s)) /\
   exists s1, logged (issued_event (ae_now a1) corr entityID capability args) a1 s s1 /\
     r = match sent with Ok res => Ok res | Err e => Err (default e (mapSendError (Some e))) end /\
     let ack := ack_event (ae_now a2) entityID
                  (match sent with Ok res => (cr_ok res, cr_error_message res)
                                 | Err e => (false, (ack_of (Err e)).2) end) in
     (logged ack a2 (mid s1) s' \/
      (db s' = db (mid s1) /\ is_ok (append_in marshal a2 ack (mid s1)).2 = false))).
Proof.
  unfold Dispatch.
  destruct (Resolve entityID areas (tables (db s))) as [id|e] eqn:Hr.
  2: { left. conj_done. intros (? & ? & ? & _). congruence. }
  destruct (h_instances h !! id) as [m|] eqn:Hm.
  2: { left. conj_done. intros (? & ? & ? & ? & _). congruence. }
  destruct (negb (bool_decide (m_state m = StateRunning)) || negb (m_conn m)) eqn:Hst.
  { left. conj_done. intros (id0 & m0 & Hr0 & Hm0 & Hs & Hc).
    assert (id0 = id) as -> by congruence. assert (m0 = m) as -> by congruence. by rewrite Hc, bool_decide_eq_true_2 in Hst. }
  apply orb_false_iff in Hst as [Hs%negb_false_iff Hc%negb_false_iff].
  apply bool_decide_eq_true in Hs.
  pose proof (append_in_cases a1 (issued_event (ae_now a1) corr entityID capability args) s) as H1.
  destruct (append_in marshal a1 _ s) as [s1 [pos|msg]]; [|by left].
  assert (ack_of sent = match sent with Ok res => (cr_ok res, cr_error_message res)
                                      | Err e => (false, (ack_of (Err e)).2) end) as Hack.
  { destruct sent as [res|e]; [done|]. cbn. by repeat case_match. }
  rewrite <- Hack.
  pose proof (append_in_cases a2 (ack_event (ae_now a2) entityID (ack_of sent)) (mid s1)) as H2.
  destruct (append_in marshal a2 (ack_event _ _ _) (mid s1)) as [s2 [pos2|msg2]] eqn:Ha2;
    right; (split; [by exists id, m|]); exists s1; rewrite Ha2;
    (split; [done|]); (split; [by destruct sent|]); [by left | by right].
Qed.

End Dispatch.

(** ** Ingest *)

(** A driver that announces an entity becomes the route to it: the event
    [IngestMessage] appends for an [EntityRegistered] message, once the registry
    has applied it (without database faults), makes [Resolve] answer for the
    announced device, with the driver named in the message or, when it names
    none, the instance that sent it; whatever the tables held before. *)
Theorem ingest_registers_route marshal_caps now instanceID er areas t :
  instanceID <> "" -> (forall a, is_ok (marshal_caps a) = true) ->
  exists e, ingest_event now instanceID (DH_EntityRegistered er) = Ok (Some e) /\
    Resolve (er_device_id er) areas (Registry_Apply marshal_caps (fun _ => None) e t).1 =
      Ok (if is_empty (er_driver_instance_id er) then instanceID else er_driver_instance_id er).
Proof.
  intros Hi Hcaps. eexists. split; [reflexivity|].
  match goal with |- context [Registry_Apply _ _ ?e t] =>
    destruct (registered_tables marshal_caps Hcaps e (own_entity instanceID er) t eq_refl)
      as (_ & _ & Hent) end.
  unfold reg_apply in Hent. unfold Resolve, GetEntity. rewrite Hent. cbn [Entity].
  assert (er_device_id (own_entity instanceID er) = er_device_id er) as ->.
  { unfold own_entity. by destruct (is_empty (er_driver_instance_id er)). }
  rewrite lookup_insert_eq. clear Hent. unfold own_entity.
  apply String.eqb_neq in Hi.
  destruct (is_empty (er_driver_instance_id er)) eqn:He; cbn -[is_empty].
  - unfold is_empty at 1. by rewrite Hi.
  - by rewrite He.
Qed.

(** The order in which a driver's messages reach the store is not always the
    order it sent them: between the swap in [setIngestHook] and the drain of
    the messages it took, the reader already calls the hook with newer ones. *)
Example hook_reorders :
  let old := DH_StateChanged (mkStateChanged None "old") in
  let new := DH_StateChanged (mkStateChanged None "new") in
  let '(ic2, queued) := setIngestHook_swap (reader_ingest old DialInstance) in
  ingested (foldl (flip drain_one) (reader_ingest new ic2) queued) = [new; old].
Proof. reflexivity. Qed.

(** ** Concrete runs *)

Module DispatchDemo.

(** A caller waits for command [c1]; its result has been taken and is about to be sent on
    its channel when the stream is closed. *)
Definition answer : CommandResult := mkCommandResult "c1" true "".
Definition racing : csys :=
  mkCSys (mkConn {[ 0%nat := mkChan None false ]} None true false [] [])
    {[ 0%nat := "c1" ]} {[ "c1" ]} ∅ (Some (0%nat, answer)) [].

Lemma racing_reachable : reachable racing.
Proof.
  set (waiting := mkConn {[ 0%nat := mkChan None false ]} (Some {[ "c1" := 0%nat ]}) false false [] []).
  set (taken := mkConn {[ 0%nat := mkChan None false ]} (Some ∅) false false [] []).
  apply rtc_l with (mkCSys waiting {[ 0%nat := "c1" ]} {[ "c1" ]} ∅ None []).
  { assert ({[ "c1" ]} = ({["c1"]} ∪ ∅ : gset string)) as -> by set_solver.
    apply (c_register DialInstance waiting ∅ ∅ ∅ None [] "c1" 0%nat); [set_solver | done | vm_compute; reflexivity]. }
  apply rtc_l with (mkCSys taken {[ 0%nat := "c1" ]} {[ "c1" ]} ∅ (Some (0%nat, answer)) []).
  { apply (c_result waiting taken _ _ _ _ answer (Some 0%nat)). vm_compute. reflexivity. }
  apply rtc_once. apply (c_failAll taken _ _ _ _ _ [] []); done.
Qed.

End DispatchDemo.

Lemma conn_safe_witness :
  waiters DispatchDemo.racing !! 0%nat = Some "c1" /\
  (exists ic', deliver_send 0 DispatchDemo.answer (c_ic DispatchDemo.racing) = Done ic').
Proof.
  split; [reflexivity|]. destruct (conn_safe _ DispatchDemo.racing_reachable) as (_ & H & _).
  exact (H _ _ eq_refl).
Defined.

Lemma ingest_registers_route_witness :
  exists e, ingest_event 7 "hue" (DH_EntityRegistered (mkEntityRegistered "" "lamp" "light" "Lamp" None)) =
      Ok (Some e) /\
    Resolve "lamp" (mkAreaState ∅ ∅)
      (Registry_Apply (fun _ => Ok "caps") (fun _ => None) e RegTables_empty).1 = Ok "hue".
Proof.
  apply (ingest_registers_route (fun _ => Ok "caps") 7 "hue"
           (mkEntityRegistered "" "lamp" "light" "Lamp" None)); [discriminate | reflexivity].
Defined.
