(* ===== verification/DriverKit.v ===== *)
(** * The driver kit

    Models [switchyard-driverkit/driver/driver.go] and [protocol/conn.go]: the
    process on the other side of [Carport] and [Dispatch]. A driver tracks the
    state of its entities and sends it over the current stream; the daemon ingests
    the messages ([Dispatch.ingest_event]) into its state cache
    ([StateCache.apply_payload]). gRPC is the list of messages sent on a stream;
    what a capability handler returns is an argument.

    [in_step_run]: when the calls come one at a time, the daemon shows what the driver
    tracks; [DriverKitRuns] has the calls interleaved. [updates_can_be_reordered], [unregister_under_command_panics],
    [late_entity_unknown]: where it does not. [command_answered]: every command gets
    its result. [backoff_bounds]: the pauses of the reconnect loop. *)

From Stdlib Require Import Ascii String.
From S2P Require Import Prelude Sorting Events EventStore StateCache Registry Carport Dispatch.

Record EntitySpec := mkEntitySpec {
  sp_EntityType : string; sp_FriendlyName : string; sp_Capabilities : list string; sp_InitialState : option Attributes;
}.

(** [entityEntry]; of the handlers only which capabilities have one. *)
Record entityEntry := mkEntry { en_spec : EntitySpec; en_attrs : option Attributes; en_handlers : gset string }.

(** The driver, and what was sent on each stream; a closed stream takes nothing. *)
Record Driver := mkDriver {
  d_name : string; d_version : string; d_entities : gmap string entityEntry; d_emitter : option nat;
  d_wire : gmap nat (list DriverToHost); d_closed : gset nat;
}.

Definition New (name version : string) : Driver := mkDriver name version ∅ None ∅ ∅.

Definition with_entities_ (m : gmap string entityEntry) (d : Driver) : Driver :=
  mkDriver (d_name d) (d_version d) m (d_emitter d) (d_wire d) (d_closed d).
Definition with_emitter (e : option nat) (d : Driver) : Driver :=
  mkDriver (d_name d) (d_version d) (d_entities d) e (d_wire d) (d_closed d).
Definition set_attrs (a : option Attributes) (e : entityEntry) : entityEntry := mkEntry (en_spec e) a (en_handlers e).

Inductive driver_error := ErrEntityAlreadyRegistered | ErrUnknownEntity | ErrNotConnected | ErrSend.

(** [Emitter.Send] on the stream [s]. *)
Definition Send (s : nat) (m : DriverToHost) (d : Driver) : Driver * option driver_error :=
  if bool_decide (s ∈ d_closed d) then (d, Some ErrSend)
  else (mkDriver (d_name d) (d_version d) (d_entities d) (d_emitter d) (<[s := default [] (d_wire d !! s) ++ [m]]> (d_wire d)) (d_closed d), None).

Definition send_current (m : DriverToHost) (d : Driver) : Driver * option driver_error :=
  match d_emitter d with None => (d, Some ErrNotConnected) | Some s => Send s m d end.

Definition state_changed (id : string) (a : Attributes) : DriverToHost := DH_StateChanged (mkStateChanged (Some a) id).

(** ** Operations *)

Definition AddEntity (id : string) (spec : EntitySpec) (d : Driver) : Driver * option driver_error :=
  match d_entities d !! id with
  | Some _ => (d, Some ErrEntityAlreadyRegistered)
  | None => (with_entities_ (<[id := mkEntry spec (sp_InitialState spec) ∅]> (d_entities d)) d, None)
  end.

Definition OnCapability (id capability : string) (d : Driver) : go Driver :=
  match d_entities d !! id with
  | None => Panic "driver.OnCapability: entity not registered via AddEntity"
  | Some e => Done (with_entities_ (<[id := mkEntry (en_spec e) (en_attrs e) ({[capability]} ∪ en_handlers e)]> (d_entities d)) d)
  end.

Definition UnregisterEntity (id : string) (d : Driver) : Driver * option driver_error :=
  match d_entities d !! id with
  | None => (d, Some ErrUnknownEntity)
  | Some _ =>
      send_current (DH_EntityUnregistered (mkEntityUnregistered "removed_by_driver" id)) (with_entities_ (delete id (d_entities d)) d)
  end.

(** The two halves of [EmitState], between which the lock is released. *)
Definition EmitState_update (id : string) (a : Attributes) (d : Driver) : option Driver :=
  match d_entities d !! id with
  | None => None
  | Some e => Some (with_entities_ (<[id := set_attrs (Some a) e]> (d_entities d)) d)
  end.
Definition EmitState (id : string) (a : Attributes) (d : Driver) : Driver * option driver_error :=
  match EmitState_update id a d with
  | None => (d, Some ErrUnknownEntity)
  | Some d => send_current (state_changed id a) d
  end.

Definition EmitDriverEvent (kind detail : string) (d : Driver) : Driver * option driver_error :=
  send_current (DH_DriverEvent (mkDriverEvent "" kind detail)) d.

(** *** Handshake and stream *)

Record DriverManifest := mkManifest { mf_Name : string; mf_Version : string; mf_ProtocolVersion : string; mf_SupportedCapabilities : list string }.

(** [sort.Strings]. *)
Definition sort_caps (l : list string) : list string := merge_sort String.le l.

Definition registered (kv : string * entityEntry) : EntityRegistered :=
  mkEntityRegistered "" kv.1 (sp_EntityType (en_spec kv.2)) (sp_FriendlyName (en_spec kv.2)) (Some (mkAttributes None false)).

(** [OnHandshake]: the stable sort by id leaves one order, as the ids are keys. *)
Definition id_order (a b : string * entityEntry) : Prop := String.le a.1 b.1.
#[export] Instance id_order_dec a b : Decision (id_order a b).
Proof. unfold id_order. apply _. Defined.
Definition OnHandshake (d : Driver) : DriverManifest * list EntityRegistered :=
  (mkManifest (d_name d) (d_version d) "v1alpha1"
     (sort_caps (remove_dups ((map_to_list (d_entities d)) ≫= fun kv => sp_Capabilities (en_spec kv.2)))),
   registered <$> merge_sort id_order (map_to_list (d_entities d))).

Inductive grpc_status := Unauthenticated | InvalidArgument.

Definition Handshake (own_secret : string) (secret version : string) (d : Driver) :
    result grpc_status (DriverManifest * list EntityRegistered) :=
  if negb (String.eqb secret own_secret) then Err Unauthenticated
  else if negb (String.eqb version "v1alpha1") then Err InvalidArgument
  else Ok (OnHandshake d).

(** The states that [OnRunStart] collects; Go ranges over them in any order. *)
Definition tracked (d : Driver) : list (string * Attributes) :=
  omap (fun kv : string * entityEntry => (fun a => (kv.1, a)) <$> en_attrs kv.2) (map_to_list (d_entities d)).

Definition send_all (s : nat) (l : list (string * Attributes)) (d : Driver) : Driver :=
  foldl (fun d p => (Send s (state_changed p.1 p.2) d).1) d l.

Definition OnRunStart (order : list (string * Attributes) -> list (string * Attributes)) (s : nat) (d : Driver) : Driver :=
  let d := with_emitter (Some s) d in send_all s (order (tracked d)) d.

Definition OnShutdown (d : Driver) : Driver := with_emitter None d.

(** *** Commands *)

Record Command := mkCommand { cmd_id : string; cmd_entity : string; cmd_capability : string; cmd_args : string_map }.

(** [%q] of a text of printable ASCII characters. *)
Fixpoint escaped (s : string) : string :=
  match s with
  | "" => ""
  | String a s => if bool_decide (a = "034"%char) || bool_decide (a = "\"%char) then String "\" (String a (escaped s)) else String a (escaped s)
  end.
Definition quoted (s : string) : string := String "034" (escaped s +:+ String "034" "").
Example quoted_text : quoted "a\b" = String "034" ("a\\b" +:+ String "034" "").
Proof. reflexivity. Qed.

(** [OnCommand] up to the call of the handler: a result without it, or go on. *)
Definition OnCommand_lookup (c : Command) (d : Driver) : option CommandResult :=
  match d_entities d !! cmd_entity c with
  | None => Some (mkCommandResult (cmd_id c) false ("entity " +:+ quoted (cmd_entity c) +:+ " unknown"))
  | Some e =>
      if bool_decide (cmd_capability c ∈ en_handlers e) then None
      else Some (mkCommandResult (cmd_id c) false ("capability " +:+ quoted (cmd_capability c) +:+ " not registered for " +:+ quoted (cmd_entity c)))
  end.

(** [OnCommand] after the handler returned [h]; the entity is looked up again. *)
Definition OnCommand_finish (c : Command) (h : result string (option Attributes)) (s : nat) (d : Driver) : go (Driver * CommandResult) :=
  match h with
  | Err msg => Done (d, mkCommandResult (cmd_id c) false msg)
  | Ok None => Done (d, mkCommandResult (cmd_id c) true "")
  | Ok (Some a) =>
      match d_entities d !! cmd_entity c with
      | None => Panic "invalid memory address or nil pointer dereference"
      | Some e =>
          let d := with_entities_ (<[cmd_entity c := set_attrs (Some a) e]> (d_entities d)) d in
          Done ((Send s (state_changed (cmd_entity c) a) d).1, mkCommandResult (cmd_id c) true "")
      end
  end.

Definition OnCommand (c : Command) (h : result string (option Attributes)) (s : nat) (d : Driver) : go (Driver * CommandResult) :=
  match OnCommand_lookup c d with
  | Some r => Done (d, r)
  | None => OnCommand_finish c h s d
  end.

(** One message of the loop of [driverServer.Run]. *)
Inductive HostToDriver := HD_Command (c : Command) (h : result string (option Attributes)) | HD_Ping | HD_Unset.

Definition Run_one (s : nat) (m : HostToDriver) (d : Driver) : go (Driver * option driver_error) :=
  match m with
  | HD_Command c h =>
      match OnCommand c h s d with
      | Panic msg => Panic msg
      | Done (d, r) => Done (Send s (DH_Result r) d)
      end
  | HD_Ping => Done ((Send s DH_Pong d).1, None)
  | HD_Unset => Done (d, None)
  end.

(** *** The reconnect loop *)

Definition initial_backoff : Z := Second.
Definition max_backoff : Z := 30 * Second.

(** One turn of [RunConn] whose session took [elapsed]: the pause before the next
    and the backoff after it. *)
Definition RunConn_turn (elapsed backoff : Z) : Z * Z :=
  let b := if elapsed >? 5 * Second then initial_backoff else backoff in (b, Z.min (b * 2) max_backoff).

Fixpoint pauses (sessions : list Z) (backoff : Z) : list Z :=
  match sessions with
  | [] => []
  | elapsed :: rest => let '(p, b) := RunConn_turn elapsed backoff in p :: pauses rest b
  end.

(** ** What the daemon sees *)

(** The daemon's state map after the messages that its hook was given, one by one, when
    no append fails: each event is applied once it is appended. *)
Definition daemon_one (now : Z) (instanceID : string) (m : StateMap) (msg : DriverToHost) : StateMap :=
  match ingest_event now instanceID msg with Ok (Some e) => apply_payload e m | _ => m end.
Definition daemon_view (now : Z) (instanceID : string) (m0 : StateMap) (msgs : list DriverToHost) : StateMap :=
  foldl (daemon_one now instanceID) m0 msgs.

Definition sent (s : nat) (d : Driver) : list DriverToHost := default [] (d_wire d !! s).

(** What a driver does while a stream is open. *)
Inductive kit_op :=
  | OpAdd (id : string) (spec : EntitySpec) | OpCapability (id capability : string) | OpUnregister (id : string)
  | OpEmit (id : string) (a : Attributes) | OpEvent (kind detail : string) | OpHost (m : HostToDriver).

Definition kit_step (s : nat) (d : Driver) (o : kit_op) : go Driver :=
  match o with
  | OpAdd id spec => Done (AddEntity id spec d).1
  | OpCapability id capability => OnCapability id capability d
  | OpUnregister id => Done (UnregisterEntity id d).1
  | OpEmit id a => Done (EmitState id a d).1
  | OpEvent kind detail => Done (EmitDriverEvent kind detail d).1
  | OpHost m => match Run_one s m d with Done (d, _) => Done d | Panic msg => Panic msg end
  end.

Fixpoint kit_run (s : nat) (d : Driver) (ops : list kit_op) : go Driver :=
  match ops with
  | [] => Done d
  | o :: rest => match kit_step s d o with Done d' => kit_run s d' rest | Panic msg => Panic msg end
  end.

Definition adds (o : kit_op) : bool := match o with OpAdd _ _ => true | _ => false end.

Section View.
Context (now : Z) (instanceID : string) (m0 : StateMap).

Definition shown (s : nat) (d : Driver) (id : string) : option (option Attributes) :=
  StAttributes <$> daemon_view now instanceID m0 (sent s d) !! id.

(** The stream is current and open, and the daemon shows every tracked state. *)
Record in_step (s : nat) (d : Driver) : Prop := mkInStep {
  is_current : d_emitter d = Some s;
  is_open : s ∉ d_closed d;
  is_shown : forall id e a, d_entities d !! id = Some e -> en_attrs e = Some a -> shown s d id = Some (Some a);
}.

Lemma Send_open s m d : s ∉ d_closed d ->
  exists d', Send s m d = (d', None) /\ d_entities d' = d_entities d /\ d_emitter d' = d_emitter d /\ d_closed d' = d_closed d /\
    sent s d' = sent s d ++ [m] /\ (forall s', s' <> s -> sent s' d' = sent s' d).
Proof.
  intros Hs. unfold Send. rewrite bool_decide_false by done. eexists. split; [reflexivity|]. cbn. split_and!; [done..| |].
  - unfold sent. cbn. by rewrite lookup_insert_eq.
  - intros s' Hne. unfold sent. cbn. by rewrite lookup_insert_ne.
Qed.

Lemma view_snoc l m : daemon_view now instanceID m0 (l ++ [m]) = daemon_one now instanceID (daemon_view now instanceID m0 l) m.
Proof. unfold daemon_view. by rewrite foldl_app. Qed.

(** A message about another entity, or about none, changes nothing. *)
Lemma view_state_changed l id a id' :
  StAttributes <$> daemon_view now instanceID m0 (l ++ [state_changed id a]) !! id' =
  if decide (id' = id) then Some (Some a) else StAttributes <$> daemon_view now instanceID m0 l !! id'.
Proof.
  rewrite view_snoc. unfold daemon_one. cbn. destruct (decide (id' = id)) as [->|Hne]; [by rewrite lookup_insert_eq|by rewrite lookup_insert_ne].
Qed.

Lemma in_step_same s d d' :
  in_step s d -> d_emitter d' = Some s -> d_closed d' = d_closed d -> daemon_view now instanceID m0 (sent s d') = daemon_view now instanceID m0 (sent s d) ->
  (forall id e a, d_entities d' !! id = Some e -> en_attrs e = Some a -> exists e0, d_entities d !! id = Some e0 /\ en_attrs e0 = Some a) ->
  in_step s d'.
Proof.
  intros [Hc Ho Hsh] He Hcl Hv Hent. split; [done|by rewrite Hcl|]. intros id e a Hid Ha. unfold shown. rewrite Hv.
  destruct (Hent _ _ _ Hid Ha) as (e0 & H0 & Ha0). by eapply Hsh.
Qed.

(** An update that is announced. *)
Lemma in_step_update s d d1 id e a :
  in_step s d -> d_entities d !! id = Some e -> d1 = with_entities_ (<[id := set_attrs (Some a) e]> (d_entities d)) d ->
  in_step s (Send s (state_changed id a) d1).1.
Proof.
  intros [Hc Ho Hsh] He ->. set (d1 := with_entities_ _ d).
  destruct (Send_open s (state_changed id a) d1) as (d' & Hs & Hent & Hem & Hcl & Hsent & _); [done|]. rewrite Hs. cbn [fst].
  split; [by rewrite Hem|by rewrite Hcl|]. intros id' e' a' Hid Ha. rewrite Hent in Hid. unfold shown. rewrite Hsent, view_state_changed.
  unfold d1 in Hid. cbn in Hid. destruct (decide (id' = id)) as [->|Hne].
  - rewrite lookup_insert_eq in Hid. injection Hid as <-. cbn in Ha. by rewrite Ha.
  - rewrite lookup_insert_ne in Hid by done. by eapply Hsh.
Qed.

Lemma in_step_message s d m :
  in_step s d -> (forall l, daemon_view now instanceID m0 (l ++ [m]) = daemon_view now instanceID m0 l) -> in_step s (Send s m d).1.
Proof.
  intros Hin Hm. pose proof Hin as [Hc Ho _]. destruct (Send_open s m d Ho) as (d' & Hs & Hent & Hem & Hcl & Hsent & _). rewrite Hs. cbn [fst].
  eapply in_step_same; [exact Hin|by rewrite Hem|done|by rewrite Hsent|]. intros id e a. rewrite Hent. naive_solver.
Qed.

Lemma in_step_run_one s d m d' err : in_step s d -> Run_one s m d = Done (d', err) -> in_step s d'.
Proof.
  intros Hin. destruct m as [c h| |]; cbn [Run_one].
  - destruct (OnCommand c h s d) as [[d1 r]|] eqn:Hc; [|done]. intros [= Hs].
    replace d' with (Send s (DH_Result r) d1).1 by (by rewrite Hs). apply in_step_message; [|intros l; by rewrite view_snoc]. unfold OnCommand in Hc.
    destruct (OnCommand_lookup c d); [by injection Hc as <- _|]. unfold OnCommand_finish in Hc.
    destruct h as [[a|]|msg]; [|by injection Hc as <- _..]. destruct (d_entities d !! cmd_entity c) as [e|] eqn:He; [|done].
    injection Hc as <- _. by eapply in_step_update.
  - intros [= <- <-]. apply in_step_message; [done|]. intros l. by rewrite view_snoc.
  - by intros [= <- <-].
Qed.

Lemma in_step_step s d o d' : adds o = false -> in_step s d -> kit_step s d o = Done d' -> in_step s d'.
Proof.
  intros Ha Hin. pose proof Hin as [Hc Ho Hsh]. destruct o as [|id cap|id|id a|kind detail|m]; cbn [kit_step]; [done|..].
  - unfold OnCapability. destruct (d_entities d !! id) as [e|] eqn:He; [|done]. intros [= <-].
    eapply in_step_same; [done..|]. cbn. intros id' e' a'. rewrite lookup_insert_Some. intros [[<- <-]|[_ Hid]]; [|by eauto]. cbn. by exists e.
  - unfold UnregisterEntity. destruct (d_entities d !! id) as [e|] eqn:He; [|by intros [= <-]]. unfold send_current. cbn. rewrite Hc.
    set (d1 := with_entities_ _ d).
    destruct (Send_open s (DH_EntityUnregistered (mkEntityUnregistered "removed_by_driver" id)) d1) as (d2 & Hs & Hent & Hem & Hcl & Hsent & _); [done|].
    rewrite Hs. cbn [fst]. intros [= <-]. split; [by rewrite Hem|by rewrite Hcl|]. intros id' e' a' Hid Ha'. rewrite Hent in Hid. cbn in Hid.
    apply lookup_delete_Some in Hid as [Hne Hid]. unfold shown. rewrite Hsent, view_snoc. unfold daemon_one. cbn.
    rewrite lookup_delete_ne by done. by eapply Hsh.
  - unfold EmitState, EmitState_update. destruct (d_entities d !! id) as [e|] eqn:He; [|by intros [= <-]]. unfold send_current. cbn. rewrite Hc.
    intros [= <-]. by eapply in_step_update.
  - unfold EmitDriverEvent, send_current. rewrite Hc. intros [= <-]. apply in_step_message; [done|]. intros l. by rewrite view_snoc.
  - destruct (Run_one s m d) as [[d1 err]|] eqn:Hr; [|done]. intros [= <-]. by eapply in_step_run_one.
Qed.

Lemma in_step_run s d ops d' : Forall (fun o => adds o = false) ops -> in_step s d -> kit_run s d ops = Done d' -> in_step s d'.
Proof.
  intros Hf. revert d. induction Hf as [|o ops Ho Hf IH]; intros d Hin; cbn [kit_run]; [by intros [= <-]|].
  destruct (kit_step s d o) as [d1|] eqn:Hs; [|done]. apply IH. by eapply in_step_step.
Qed.

Lemma tracked_spec d id a : (id, a) ∈ tracked d <-> exists e, d_entities d !! id = Some e /\ en_attrs e = Some a.
Proof.
  unfold tracked. rewrite list_elem_of_omap. split.
  - intros ([k e] & Hin%elem_of_map_to_list & Hf). cbn in Hf. destruct (en_attrs e) eqn:Ha; [|done]. injection Hf as <- <-. by exists e.
  - intros (e & He & Ha). exists (id, e). split; [by apply elem_of_map_to_list|]. cbn. by rewrite Ha.
Qed.

Lemma send_all_spec s l d :
  s ∉ d_closed d ->
  d_entities (send_all s l d) = d_entities d /\ d_emitter (send_all s l d) = d_emitter d /\ d_closed (send_all s l d) = d_closed d /\
  sent s (send_all s l d) = sent s d ++ ((fun p => state_changed p.1 p.2) <$> l).
Proof.
  revert d. unfold send_all. induction l as [|p l IH]; intros d Hs; cbn [foldl fmap list_fmap]; [by rewrite app_nil_r|].
  destruct (Send_open s (state_changed p.1 p.2) d Hs) as (d' & Hd & Hent & Hem & Hcl & Hsent & _). rewrite Hd. cbn [fst].
  destruct (IH d') as (H1 & H2 & H3 & H4); [by rewrite Hcl|]. rewrite H1, H2, H3, H4, Hsent, <- app_assoc. done.
Qed.

Lemma view_send_all l0 l id a :
  (forall id' a' a'', (id', a') ∈ l -> (id', a'') ∈ l -> a' = a'') -> (id, a) ∈ l ->
  StAttributes <$> daemon_view now instanceID m0 (l0 ++ ((fun p => state_changed p.1 p.2) <$> l)) !! id = Some (Some a).
Proof.
  induction l as [|[k b] l IH] using rev_ind; intros Hu Hin; [by apply not_elem_of_nil in Hin|].
  rewrite fmap_app, app_assoc. cbn [fmap list_fmap fst snd]. rewrite view_state_changed. case_decide as Hd.
  - subst k. rewrite (Hu id a b); [done|done|set_solver].
  - apply IH; [intros id' a' a'' H1 H2; apply (Hu id'); set_solver|set_solver].
Qed.

Lemma run_start_in_step order s d :
  (forall l, order l ≡ₚ l) -> s ∉ d_closed d -> in_step s (OnRunStart order s d).
Proof.
  intros Ho Hs. unfold OnRunStart. set (d1 := with_emitter (Some s) d).
  destruct (send_all_spec s (order (tracked d1)) d1) as (H1 & H2 & H3 & H4); [done|]. split; [by rewrite H2|by rewrite H3|].
  intros id e a Hid Ha. rewrite H1 in Hid. unfold shown. rewrite H4. apply view_send_all.
  - intros id' a' a''. rewrite !Ho, !tracked_spec. intros (e1 & He1 & Ha1) (e2 & He2 & Ha2). congruence.
  - rewrite Ho, tracked_spec. by exists e.
Qed.

(** Two updates can overtake each other: [EmitState] releases the lock between
    the update and the send, so when two goroutines update the same entity the
    driver can track the one while the daemon shows the other. *)
Theorem updates_can_be_reordered s d id e a b :
  d_entities d !! id = Some e -> d_emitter d = Some s -> s ∉ d_closed d ->
  exists d1 d2, EmitState_update id a d = Some d1 /\ EmitState_update id b d1 = Some d2 /\
    let d3 := (send_current (state_changed id b) d2).1 in let d4 := (send_current (state_changed id a) d3).1 in
    (d_entities d4 !! id ≫= en_attrs) = Some b /\
    StAttributes <$> daemon_view now instanceID m0 (sent s d4) !! id = Some (Some a).
Proof.
  intros He Hem Hop. unfold EmitState_update. rewrite He. eexists _, _. split; [reflexivity|]. cbn [d_entities with_entities_].
  rewrite lookup_insert_eq. split; [reflexivity|]. cbn zeta. set (d2 := with_entities_ _ (with_entities_ _ d)).
  destruct (Send_open s (state_changed id b) d2) as (d3 & Hs3 & Hent3 & Hem3 & Hcl3 & Hsent3 & _); [done|].
  assert (send_current (state_changed id b) d2 = (d3, None)) as -> by (unfold send_current; cbn; by rewrite Hem). cbn [fst].
  destruct (Send_open s (state_changed id a) d3) as (d4 & Hs4 & Hent4 & _ & _ & Hsent4 & _); [by rewrite Hcl3|].
  assert (send_current (state_changed id a) d3 = (d4, None)) as -> by (unfold send_current; rewrite Hem3; cbn; by rewrite Hem). cbn [fst].
  split.
  - rewrite Hent4, Hent3. unfold d2. cbn. by rewrite lookup_insert_eq.
  - rewrite Hsent4, view_state_changed. by rewrite decide_True.
Qed.

End View.

(** ** Commands *)

(** A command always gets its result: on an open stream the driver answers with
    exactly one result, under the id of the command and after the change of state
    that goes with it; it reports success exactly when the capability has a handler
    and that succeeded. Nothing panics as long as the driver does nothing else while
    the handler runs. *)
Theorem command_answered s d c h :
  s ∉ d_closed d ->
  match Run_one s (HD_Command c h) d with
  | Done (d', err) =>
      err = None /\ exists changes r, sent s d' = sent s d ++ changes ++ [DH_Result r] /\ cr_command_id r = cmd_id c /\
      (cr_ok r = true <-> is_ok h = true /\ exists e, d_entities d !! cmd_entity c = Some e /\ cmd_capability c ∈ en_handlers e) /\
      changes = match h with Ok (Some a) => if cr_ok r then [state_changed (cmd_entity c) a] else [] | _ => [] end
  | Panic _ => False
  end.
Proof.
  intros Hs. cbn [Run_one]. unfold OnCommand, OnCommand_lookup.
  assert (Hsend : forall d1 r, d_closed d1 = d_closed d -> exists d2, Send s (DH_Result r) d1 = (d2, None) /\ sent s d2 = sent s d1 ++ [DH_Result r]).
  { intros d1 r Hcl. destruct (Send_open s (DH_Result r) d1) as (d2 & H1 & _ & _ & _ & H2 & _); [by rewrite Hcl|]. by exists d2. }
  destruct (d_entities d !! cmd_entity c) as [e|] eqn:He.
  2: { destruct (Hsend d (mkCommandResult (cmd_id c) false ("entity " +:+ quoted (cmd_entity c) +:+ " unknown")) eq_refl) as (d2 & -> & H2).
       split; [done|]. eexists [], _. split; [exact H2|]. cbn. split_and!; [done|naive_solver|by destruct h as [[]|]]. }
  case_bool_decide as Hc.
  2: { destruct (Hsend d (mkCommandResult (cmd_id c) false ("capability " +:+ quoted (cmd_capability c) +:+ " not registered for " +:+ quoted (cmd_entity c))) eq_refl)
         as (d2 & -> & H2).
       split; [done|]. eexists [], _. split; [exact H2|]. cbn. split_and!; [done|naive_solver|by destruct h as [[]|]]. }
  unfold OnCommand_finish. destruct h as [[a|]|msg].
  - rewrite He. set (d1 := with_entities_ _ d).
    destruct (Send_open s (state_changed (cmd_entity c) a) d1) as (d2 & Hs2 & _ & _ & Hcl2 & H2 & _); [done|]. rewrite Hs2. cbn [fst].
    destruct (Hsend d2 (mkCommandResult (cmd_id c) true "") Hcl2) as (d3 & -> & H3).
    split; [done|]. eexists [_], _. split; [rewrite H3, H2, <- app_assoc; reflexivity|]. cbn. split_and!; [done|naive_solver|done].
  - destruct (Hsend d (mkCommandResult (cmd_id c) true "") eq_refl) as (d2 & -> & H2).
    split; [done|]. eexists [], _. split; [exact H2|]. cbn. split_and!; [done|naive_solver|done].
  - destruct (Hsend d (mkCommandResult (cmd_id c) false msg) eq_refl) as (d2 & -> & H2).
    split; [done|]. eexists [], _. split; [exact H2|]. cbn. split_and!; [done|naive_solver|done].
Qed.

(** Removing an entity while a command of it runs crashes the driver: the
    handler's state is stored through a second lookup that is not checked. *)
Theorem unregister_under_command_panics s d c a :
  OnCommand_lookup c d = None ->
  exists msg, OnCommand_finish c (Ok (Some a)) s (UnregisterEntity (cmd_entity c) d).1 = Panic msg.
Proof.
  unfold OnCommand_lookup, UnregisterEntity. destruct (d_entities d !! cmd_entity c) as [e|] eqn:He; [|done]. intros _.
  unfold OnCommand_finish, send_current. cbn [d_emitter with_entities_].
  assert (Hnone : d_entities (with_entities_ (delete (cmd_entity c) (d_entities d)) d) !! cmd_entity c = None) by apply lookup_delete_eq.
  destruct (d_emitter d) as [s'|]; cbn [fst].
  - unfold Send. case_bool_decide; cbn [fst]; [rewrite Hnone; by eexists|]. cbn [d_entities]. rewrite Hnone. by eexists.
  - rewrite Hnone. by eexists.
Qed.

(** ** Registration *)

Definition registers (m : DriverToHost) : bool := match m with DH_EntityRegistered _ => true | _ => false end.

(** Entities are only registered by the handshake: whatever a driver does while
    a stream is open, entities it adds included, no message registers an entity, so
    that one added after the handshake stays unknown to the daemon's registry. *)
Theorem late_entity_unknown s d ops d' :
  Forall (fun m => registers m = false) (sent s d) -> kit_run s d ops = Done d' -> Forall (fun m => registers m = false) (sent s d').
Proof.
  assert (Hsend : forall s' m d1, registers m = false -> Forall (fun m => registers m = false) (sent s d1) ->
    Forall (fun m => registers m = false) (sent s (Send s' m d1).1)).
  { intros s' m d1 Hm Hf. unfold Send. case_bool_decide; [done|]. unfold sent in *. cbn. destruct (decide (s' = s)) as [->|Hne].
    - rewrite lookup_insert_eq. cbn. apply Forall_app. split; [done|by repeat constructor].
    - by rewrite lookup_insert_ne. }
  assert (Hcur : forall m d1, registers m = false -> Forall (fun m => registers m = false) (sent s d1) ->
    Forall (fun m => registers m = false) (sent s (send_current m d1).1)).
  { intros m d1 Hm Hf. unfold send_current. destruct (d_emitter d1); [by apply Hsend|done]. }
  revert d. induction ops as [|o ops IH]; intros d Hf; cbn [kit_run]; [by intros [= <-]|].
  destruct (kit_step s d o) as [d1|] eqn:Ho; [|done]. apply IH. clear IH. destruct o as [id spec|id cap|id|id a|kind detail|m]; cbn [kit_step] in Ho.
  - injection Ho as <-. unfold AddEntity. by destruct (d_entities d !! id).
  - unfold OnCapability in Ho. destruct (d_entities d !! id); [|done]. by injection Ho as <-.
  - injection Ho as <-. unfold UnregisterEntity. destruct (d_entities d !! id); [|done]. by apply Hcur.
  - injection Ho as <-. unfold EmitState, EmitState_update. destruct (d_entities d !! id); [|done]. by apply Hcur.
  - injection Ho as <-. by apply Hcur.
  - destruct m as [c h| |]; cbn [Run_one] in Ho.
    + destruct (OnCommand c h s d) as [[d2 r]|] eqn:Hc; [|done].
      assert (Hf2 : Forall (fun m => registers m = false) (sent s d2)).
      { unfold OnCommand in Hc. destruct (OnCommand_lookup c d); [by injection Hc as <- _|]. unfold OnCommand_finish in Hc.
        destruct h as [[a|]|msg]; [|by injection Hc as <- _..]. destruct (d_entities d !! cmd_entity c); [|done].
        injection Hc as <- _. by apply Hsend. }
      destruct (Send s (DH_Result r) d2) as [d3 err] eqn:Hs3. injection Ho as <-.
      pose proof (Hsend s (DH_Result r) d2 eq_refl Hf2) as Hf3. by rewrite Hs3 in Hf3.
    + injection Ho as <-. by apply Hsend.
    + by injection Ho as <-.
Qed.

(** The handshake tells the daemon everything and only to the daemon: with the
    right secret and version it returns each entity once, in the order of the ids,
    and each advertised capability once, sorted; with a wrong secret or version it
    returns nothing. *)
Theorem handshake_exact own secret version d :
  match Handshake own secret version d with
  | Err Unauthenticated => secret <> own
  | Err InvalidArgument => secret = own /\ version <> "v1alpha1"
  | Ok (m, l) =>
      secret = own /\ version = "v1alpha1" /\
      (forall x, x ∈ mf_SupportedCapabilities m <-> exists id e, d_entities d !! id = Some e /\ x ∈ sp_Capabilities (en_spec e)) /\
      NoDup (mf_SupportedCapabilities m) /\ StronglySorted String.le (mf_SupportedCapabilities m) /\
      (er_device_id <$> l) ≡ₚ elements (dom (d_entities d)) /\ StronglySorted String.le (er_device_id <$> l)
  end.
Proof.
  unfold Handshake. destruct (String.eqb_spec secret own) as [Hsec|]; cbn [negb]; [|done].
  destruct (String.eqb_spec version "v1alpha1") as [Hver|]; cbn [negb]; [|done].
  unfold OnHandshake. split; [done|]. split; [done|]. cbn [mf_SupportedCapabilities]. unfold sort_caps. split_and!.
  - intros x. rewrite merge_sort_Permutation, elem_of_remove_dups, list_elem_of_bind. split.
    + intros ([id e] & Hx & Hin%elem_of_map_to_list). by exists id, e.
    + intros (id & e & He & Hx). exists (id, e). split; [done|by apply elem_of_map_to_list].
  - rewrite merge_sort_Permutation. apply NoDup_remove_dups.
  - apply StronglySorted_merge_sort; apply _.
  - rewrite <- list_fmap_compose, merge_sort_Permutation. unfold compose. cbn. change (fun x : string * entityEntry => x.1) with (@fst string entityEntry).
    apply NoDup_Permutation; [apply NoDup_fst_map_to_list|apply NoDup_elements|]. intros x. rewrite elem_of_elements, elem_of_dom, list_elem_of_fmap. split.
    + intros ([id e0] & -> & Hin%elem_of_map_to_list). by exists e0.
    + intros [e0 He]. exists (x, e0). split; [done|by apply elem_of_map_to_list].
  - assert (Htot : Total id_order) by (intros a b; apply (total String.le)).
    assert (Htr : Transitive id_order) by (intros a b c; unfold id_order; apply transitivity).
    rewrite <- list_fmap_compose. eapply StronglySorted_fmap; [|by apply StronglySorted_merge_sort]. intros a b. done.
Qed.

(** ** The reconnect loop *)

(** The backoff after a row of sessions. *)
Definition backoff_after (sessions : list Z) (b : Z) : Z := foldl (fun b elapsed => (RunConn_turn elapsed b).2) b sessions.

Lemma pauses_app l1 l2 b : pauses (l1 ++ l2) b = pauses l1 b ++ pauses l2 (backoff_after l1 b).
Proof.
  revert b. induction l1 as [|e l1 IH]; intros b; [done|]. unfold backoff_after. cbn [app pauses foldl].
  destruct (RunConn_turn e b) as [p b1]. cbn [snd app]. f_equal. apply IH.
Qed.

Lemma length_pauses l b : length (pauses l b) = length l.
Proof. revert b. induction l as [|e l IH]; intros b; cbn; [done|]. by rewrite IH. Qed.

Lemma pauses_range l b :
  initial_backoff <= b <= max_backoff -> Forall (fun p : Z => initial_backoff <= p <= max_backoff) (pauses l b).
Proof.
  revert b. induction l as [|e l IH]; intros b Hb; cbn [pauses]; [constructor|].
  unfold RunConn_turn. set (p := if e >? 5 * Second then initial_backoff else b). assert (Hp : initial_backoff <= p <= max_backoff).
  { unfold p. destruct (e >? 5 * Second); [unfold initial_backoff, max_backoff, Second in *; lia|done]. }
  constructor; [done|]. apply IH. unfold initial_backoff, max_backoff, Second in *; lia.
Qed.

(** Short sessions double the pause up to its maximum. *)
Lemma pauses_short l k b elapsed :
  Forall (fun e : Z => e <= 5 * Second) l -> l !! k = Some elapsed -> initial_backoff <= b <= max_backoff ->
  pauses l b !! k = Some (Z.min (2 ^ Z.of_nat k * b) max_backoff).
Proof.
  intros Hl. revert k b. induction Hl as [|e l He Hl IH]; intros k b Hk Hb; [done|]. cbn [pauses]. unfold RunConn_turn.
  assert (e >? 5 * Second = false) as -> by lia. destruct k as [|k].
  - cbn. f_equal. lia.
  - cbn [lookup list_lookup]. rewrite (IH k) by (done || (unfold initial_backoff, max_backoff, Second in *; lia)). f_equal.
    rewrite Nat2Z.inj_succ, Z.pow_succ_r by lia. pose proof (Z.pow_pos_nonneg 2 (Z.of_nat k)). nia.
Qed.


(** The pauses between the sessions of a driver: never shorter than a second nor
    longer than thirty, whatever the sessions; and after [k] short sessions, counted
    from the start or from the last session of more than five seconds, exactly
    [2^k] seconds, up to thirty. *)
Theorem backoff_bounds sessions before long shorts k elapsed :
  Forall (fun p : Z => Second <= p <= 30 * Second) (pauses sessions initial_backoff) /\
  (Forall (fun e : Z => e <= 5 * Second) shorts -> shorts !! k = Some elapsed ->
   pauses shorts initial_backoff !! k = Some (Z.min (2 ^ Z.of_nat k * Second) (30 * Second)) /\
   (5 * Second < long ->
    pauses (before ++ long :: shorts) initial_backoff !! (length before + S k)%nat =
      Some (Z.min (2 ^ (Z.of_nat k + 1) * Second) (30 * Second)))).
Proof.
  split; [apply pauses_range; unfold initial_backoff, max_backoff, Second; lia|]. intros Hs Hk. split.
  - rewrite (pauses_short _ _ _ elapsed) by (done || (unfold initial_backoff, max_backoff, Second; lia)). done.
  - intros Hl. rewrite pauses_app, lookup_app_r by (rewrite length_pauses; lia). rewrite length_pauses.
    replace (length before + S k - length before)%nat with (S k) by lia. cbn [pauses]. unfold RunConn_turn.
    assert (long >? 5 * Second = true) as -> by lia. cbn [lookup list_lookup].
    rewrite (pauses_short _ _ _ elapsed) by (done || (unfold initial_backoff, max_backoff, Second; lia)). f_equal.
    unfold initial_backoff, max_backoff, Second. rewrite Z.pow_add_r by lia. lia.
Qed.

(** ** Examples *)

Module KitDemo.

(** A driver with a lamp that can be switched and a sensor whose state is unknown,
    on its first stream. *)
Definition lamp (on : bool) : Attributes := mkAttributes (Some (Attributes_SwitchDevice on)) true.
Definition built : Driver :=
  let d := (AddEntity "switch.a" (mkEntitySpec "switch" "A" ["turn_on"] (Some (lamp false))) (New "demo" "1")).1 in
  let d := (AddEntity "sensor.b" (mkEntitySpec "sensor" "B" [] None) d).1 in
  match OnCapability "switch.a" "turn_on" d with Done d => d | Panic _ => d end.
Definition started : Driver := OnRunStart (fun l => l) 0 built.
Definition turn_on : Command := mkCommand "c1" "switch.a" "turn_on" ∅.
Definition session : list kit_op :=
  [OpHost (HD_Command turn_on (Ok (Some (lamp true)))); OpHost HD_Ping; OpEvent "bridge_online" ""; OpUnregister "sensor.b"].

(** The wire of that session. *)
Example session_wire :
  match kit_run 0 started session with
  | Done d => sent 0 d
  | Panic _ => []
  end =
  [state_changed "switch.a" (lamp false); state_changed "switch.a" (lamp true); DH_Result (mkCommandResult "c1" true ""); DH_Pong;
   DH_DriverEvent (mkDriverEvent "" "bridge_online" ""); DH_EntityUnregistered (mkEntityUnregistered "removed_by_driver" "sensor.b")].
Proof. vm_compute. reflexivity. Qed.

Definition after_session : Driver := match kit_run 0 started session with Done d => d | Panic _ => started end.

Lemma updates_can_be_reordered_witness : exists d1 d2,
  EmitState_update "switch.a" (lamp true) started = Some d1 /\ EmitState_update "switch.a" (lamp false) d1 = Some d2 /\
  let d4 := (send_current (state_changed "switch.a" (lamp true)) (send_current (state_changed "switch.a" (lamp false)) d2).1).1 in
  (d_entities d4 !! "switch.a" ≫= en_attrs) = Some (lamp false) /\
  StAttributes <$> daemon_view 7 "demo" ∅ (sent 0 d4) !! "switch.a" = Some (Some (lamp true)).
Proof.
  refine (updates_can_be_reordered 7 "demo" ∅ 0 started "switch.a"
            (mkEntry (mkEntitySpec "switch" "A" ["turn_on"] (Some (lamp false))) (Some (lamp false)) {["turn_on"]}) (lamp true) (lamp false) _ _ _);
    by vm_compute.
Defined.

Lemma command_answered_witness :
  match Run_one 0 (HD_Command turn_on (Ok (Some (lamp true)))) started with
  | Done (d', err) => err = None /\ exists changes r, sent 0 d' = sent 0 started ++ changes ++ [DH_Result r] /\ cr_command_id r = "c1"
  | Panic _ => False
  end.
Proof.
  pose proof (command_answered 0 started turn_on (Ok (Some (lamp true))) ltac:(by vm_compute)) as H.
  destruct (Run_one 0 (HD_Command turn_on (Ok (Some (lamp true)))) started) as [[d' err]|msg]; [|exact H].
  destruct H as (He & changes & r & Hs & Hid & _). split; [exact He|]. exists changes, r. split; [exact Hs|exact Hid].
Defined.

Lemma unregister_under_command_panics_witness :
  exists msg, OnCommand_finish turn_on (Ok (Some (lamp true))) 0 (UnregisterEntity "switch.a" started).1 = Panic msg.
Proof. exact (unregister_under_command_panics 0 started turn_on (lamp true) eq_refl). Defined.

(** An entity that is added while the stream is open, as the Zigbee driver does. *)
Definition late : list kit_op := [OpAdd "light.c" (mkEntitySpec "light" "C" [] None); OpEmit "light.c" (lamp true)].
Definition after_late : Driver := match kit_run 0 started late with Done d => d | Panic _ => started end.
Lemma late_entity_unknown_witness :
  d_entities after_late !! "light.c" <> None /\ Forall (fun m => registers m = false) (sent 0 after_late).
Proof.
  split; [by vm_compute|].
  refine (late_entity_unknown 0 started late after_late _ _); [by repeat constructor|by vm_compute].
Defined.

Lemma backoff_bounds_witness : pauses [Second; 6 * Second; Second; Second] initial_backoff !! 3%nat = Some (4 * Second).
Proof.
  refine (proj2 (proj2 (backoff_bounds [] [Second] (6 * Second) [Second; Second] 1 Second) _ _) _);
    [by repeat constructor|done|done].
Defined.

End KitDemo.
