(* ===== verification/DriverKitRuns.v ===== *)
(** * The driver kit under concurrency

    The calls of [DriverKit] at the grain of their locks. [EmitState] releases the
    driver's lock before it reads the emitter and sends, [OnCommand] before and after the
    handler, and [OnRunStart] sends what it collected one by one; a task is what a
    goroutine has still to do. On the other side the daemon's reader hands the messages to
    the hook of the connection ([Dispatch]), which appends their events.

    [daemon_converges]: the daemon shows what the driver tracks, under every
    interleaving in which no entity is updated while a state of it is still to be sent;
    [overlap_diverges]: why that is needed. [finish_is_record] and [emit_is_tasks]: the
    tasks of one call, one after the other, are the operation of [DriverKit]. *)

From Stdlib Require Import Ascii String.
From S2P Require Import Prelude Sorting Events EventStore StateCache Registry Carport Dispatch DriverKit.

(** ** Tasks *)

Inductive task :=
  | TRead (m : DriverToHost)                    (* to read the emitter and send the message on it *)
  | TSend (s : nat) (ms : list DriverToHost)    (* to send the messages, in order *)
  | TSnapshot (s : nat)                         (* [OnRunStart], the emitter set *)
  | THandler (s : nat) (c : Command).           (* [OnCommand], in the handler *)

Record kit := mkKit { k_d : Driver; k_tasks : gmap nat task }.

Definition spawn (i : nat) (t : task) (d : Driver) (k : kit) : kit := mkKit d (<[i := t]> (k_tasks k)).

(** [OnCommand] after the handler, its critical section: what is left to send is the
    change of state and the result, which the loop of [Run] sends. *)
Definition OnCommand_record (c : Command) (h : result string (option Attributes)) (d : Driver) : go (Driver * list DriverToHost) :=
  match h with
  | Err msg => Done (d, [DH_Result (mkCommandResult (cmd_id c) false msg)])
  | Ok None => Done (d, [DH_Result (mkCommandResult (cmd_id c) true "")])
  | Ok (Some a) =>
      match d_entities d !! cmd_entity c with
      | None => Panic "invalid memory address or nil pointer dereference"
      | Some e =>
          Done (with_entities_ (<[cmd_entity c := set_attrs (Some a) e]> (d_entities d)) d,
                [state_changed (cmd_entity c) a; DH_Result (mkCommandResult (cmd_id c) true "")])
      end
  end.

(** The steps; [i] is the goroutine. *)
Inductive kevent :=
  | KAdd (id : string) (spec : EntitySpec) | KCapability (id capability : string)
  | KEmit (i : nat) (id : string) (a : Attributes) | KUnregister (i : nat) (id : string) | KEvent (i : nat) (kind detail : string)
  | KRead (i : nat) | KSend (i : nat)
  | KRunStart (i s : nat) | KSnapshot (i : nat) (order : list (string * Attributes) -> list (string * Attributes))
  | KCommand (i s : nat) (c : Command) | KHandled (i : nat) (h : result string (option Attributes))
  | KPing (i s : nat) | KShutdown | KClose (s : nat).

(** A new goroutine has no task yet. *)
Definition idle (i : nat) (k : kit) : bool := match k_tasks k !! i with None => true | Some _ => false end.

(** [None]: the step is not possible, or it panics, and the process ends. *)
Definition kit_do (k : kit) (e : kevent) : option kit :=
  let d := k_d k in
  match e with
  | KAdd id spec => Some (mkKit (AddEntity id spec d).1 (k_tasks k))
  | KCapability id capability => match OnCapability id capability d with Done d => Some (mkKit d (k_tasks k)) | Panic _ => None end
  | KEmit i id a =>
      if idle i k
      then Some (match EmitState_update id a d with None => k | Some d => spawn i (TRead (state_changed id a)) d k end)
      else None
  | KUnregister i id =>
      if idle i k
      then Some (match d_entities d !! id with
                 | None => k
                 | Some _ => spawn i (TRead (DH_EntityUnregistered (mkEntityUnregistered "removed_by_driver" id)))
                               (with_entities_ (delete id (d_entities d)) d) k
                 end)
      else None
  | KEvent i kind detail => if idle i k then Some (spawn i (TRead (DH_DriverEvent (mkDriverEvent "" kind detail))) d k) else None
  | KRead i =>
      match k_tasks k !! i with
      | Some (TRead m) =>
          Some (match d_emitter d with
                | None => mkKit d (delete i (k_tasks k))
                | Some s => spawn i (TSend s [m]) d k
                end)
      | _ => None
      end
  | KSend i =>
      match k_tasks k !! i with
      | Some (TSend s (m :: ms)) => Some (spawn i (TSend s ms) (Send s m d).1 k)
      | Some (TSend s []) => Some (mkKit d (delete i (k_tasks k)))
      | _ => None
      end
  | KRunStart i s => if idle i k then Some (spawn i (TSnapshot s) (with_emitter (Some s) d) k) else None
  | KSnapshot i order =>
      match k_tasks k !! i with
      | Some (TSnapshot s) => Some (spawn i (TSend s ((fun p => state_changed p.1 p.2) <$> order (tracked d))) d k)
      | _ => None
      end
  | KCommand i s c =>
      if idle i k
      then Some (match OnCommand_lookup c d with
                 | Some r => spawn i (TSend s [DH_Result r]) d k
                 | None => spawn i (THandler s c) d k
                 end)
      else None
  | KHandled i h =>
      match k_tasks k !! i with
      | Some (THandler s c) => match OnCommand_record c h d with Done (d, ms) => Some (spawn i (TSend s ms) d k) | Panic _ => None end
      | _ => None
      end
  | KPing i s => if idle i k then Some (spawn i (TSend s [DH_Pong]) d k) else None
  | KShutdown => Some (mkKit (OnShutdown d) (k_tasks k))
  | KClose s => Some (mkKit (mkDriver (d_name d) (d_version d) (d_entities d) (d_emitter d) (d_wire d) ({[s]} ∪ d_closed d)) (k_tasks k))
  end.

Fixpoint kit_runs (k : kit) (es : list kevent) : option kit :=
  match es with [] => Some k | e :: es => k' ← kit_do k e; kit_runs k' es end.

(** *** The tasks of one call are the call *)

(** A command: recorded, then sent. *)
Lemma finish_is_record c h s d :
  match OnCommand_finish c h s d with Done (d1, r) => Done (Send s (DH_Result r) d1).1 | Panic msg => Panic msg end =
  match OnCommand_record c h d with Done (d1, ms) => Done (foldl (fun d m => (Send s m d).1) d1 ms) | Panic msg => Panic msg end.
Proof. destruct h as [[a|]|msg]; cbn; [|done..]. by destruct (d_entities d !! cmd_entity c). Qed.

(** A state: updated, the emitter read, then sent. *)
Lemma emit_is_tasks id a d e s i :
  d_entities d !! id = Some e -> d_emitter d = Some s ->
  k_d <$> kit_runs (mkKit d ∅) [KEmit i id a; KRead i; KSend i] = Some (EmitState id a d).1.
Proof.
  intros He Hem. cbn [kit_runs kit_do]. unfold idle. cbn [k_tasks k_d]. rewrite lookup_empty. cbn [mbind option_bind].
  unfold EmitState, EmitState_update. rewrite He. unfold spawn. cbn [k_tasks k_d]. rewrite lookup_insert_eq. cbn [mbind option_bind d_emitter with_entities_].
  rewrite Hem. cbn [mbind option_bind k_tasks k_d]. rewrite lookup_insert_eq. cbn [mbind option_bind]. unfold send_current. cbn [d_emitter with_entities_].
  by rewrite Hem.
Qed.

(** ** Updates that do not overlap *)

Definition about (id : string) (m : DriverToHost) : bool :=
  match m with DH_StateChanged c => bool_decide (sc_entity_id c = id) | _ => false end.

(** What a task has still to send. *)
Definition outgoing (t : task) : list DriverToHost := match t with TRead m => [m] | TSend _ ms => ms | TSnapshot _ | THandler _ _ => [] end.

(** A task has a state of the entity still to send. *)
Definition holds (id : string) (t : task) : bool := existsb (about id) (outgoing t).
Definition quiet (id : string) (k : kit) : bool := forallb (fun it => negb (holds id it.2)) (map_to_list (k_tasks k)).

(** The entity whose state a step changes. *)
Definition updated (k : kit) (e : kevent) : option string :=
  match e with
  | KEmit _ id _ => Some id
  | KHandled i (Ok (Some _)) => match k_tasks k !! i with Some (THandler _ c) => Some (cmd_entity c) | _ => None end
  | _ => None
  end.

(** A step while the stream [s] is the current one: no entity is added, the stream is
    neither replaced nor closed, and no entity is updated that has a state to be sent. *)
Definition calm (s : nat) (k : kit) (e : kevent) : bool :=
  match e with
  | KAdd _ _ | KRunStart _ _ | KShutdown | KClose _ => false
  | KCommand _ s' _ | KPing _ s' => bool_decide (s' = s)
  | _ => match updated k e with Some id => quiet id k | None => true end
  end.

Fixpoint calm_runs (s : nat) (k : kit) (es : list kevent) : option kit :=
  match es with [] => Some k | e :: es => if calm s k e then k' ← kit_do k e; calm_runs s k' es else None end.

(** Go ranges over the entities in some order. *)
Definition fair_event (e : kevent) : Prop := match e with KSnapshot _ order => forall l, order l ≡ₚ l | _ => True end.

(** Every state of the entity has been sent. *)
Definition settled (id : string) (k : kit) : bool :=
  quiet id k && forallb (fun it => match it.2 with TSnapshot _ => false | _ => true end) (map_to_list (k_tasks k)).

Lemma quiet_spec id k i t m : quiet id k = true -> k_tasks k !! i = Some t -> m ∈ outgoing t -> about id m = false.
Proof.
  unfold quiet. rewrite forallb_forall. intros Hq Ht Hm.
  specialize (Hq (i, t) (proj1 (list_elem_of_In _ _) (proj2 (elem_of_map_to_list _ _ _) Ht))). cbn in Hq.
  destruct (about id m) eqn:Ha; [|done]. assert (Hh : holds id t = true) by (apply existsb_exists; exists m; split; [by apply list_elem_of_In|done]).
  by rewrite Hh in Hq.
Qed.

Section Converges.
Context (now : Z) (instanceID : string) (m0 : StateMap) (s : nat).

(** The daemon's state of the entity, and what it should be. *)
Definition seen (m : StateMap) (id : string) : option (option Attributes) := StAttributes <$> m !! id.
Definition expected (id : string) (a : option Attributes) : option (option Attributes) :=
  match a with Some a => Some (Some a) | None => seen m0 id end.

(** A message that is nothing to the entity; or tells the state that is tracked. *)
Definition harmless (id : string) (m : DriverToHost) : Prop := forall map, seen (daemon_one now instanceID map m) id = seen map id.
Definition fits (id : string) (a : option Attributes) (m : DriverToHost) : Prop :=
  harmless id m \/ exists b, a = Some b /\ m = state_changed id b.

(** The tasks will still tell a state of the entity. *)
Definition owes (id : string) (t : task) : Prop := t = TSnapshot s \/ exists a, state_changed id a ∈ outgoing t.

Definition task_ok (t : task) : Prop := match t with TRead _ => True | TSend s' _ | TSnapshot s' | THandler s' _ => s' = s end.

Record calm_inv (k : kit) : Prop := mkCalm {
  ci_current : d_emitter (k_d k) = Some s;
  ci_open : s ∉ d_closed (k_d k);
  ci_tasks : forall i t, k_tasks k !! i = Some t -> task_ok t;
  ci_out : forall id e i t m, d_entities (k_d k) !! id = Some e -> k_tasks k !! i = Some t -> m ∈ outgoing t -> fits id (en_attrs e) m;
  ci_shown : forall id e, d_entities (k_d k) !! id = Some e ->
    shown now instanceID m0 s (k_d k) id = expected id (en_attrs e) \/
    (is_Some (en_attrs e) /\ exists i t, k_tasks k !! i = Some t /\ owes id t);
}.

Lemma harmless_state id id' a : id' <> id -> harmless id (state_changed id' a).
Proof. intros Hne m. unfold seen, daemon_one. cbn. by rewrite lookup_insert_ne. Qed.
Lemma harmless_unregistered id id' reason : id' <> id -> harmless id (DH_EntityUnregistered (mkEntityUnregistered reason id')).
Proof. intros Hne m. unfold seen, daemon_one. cbn. by rewrite lookup_delete_ne. Qed.
Lemma harmless_result id r : harmless id (DH_Result r).
Proof. done. Qed.

Lemma fits_quiet id a b m : fits id a m -> about id m = false -> fits id b m.
Proof. intros [H|(c & _ & ->)]; [by left|]. cbn. by rewrite bool_decide_true. Qed.

(** One message more on the stream. *)
Lemma seen_after l m id a :
  fits id a m ->
  seen (daemon_view now instanceID m0 (l ++ [m])) id = seen (daemon_view now instanceID m0 l) id \/
  (is_Some a /\ seen (daemon_view now instanceID m0 (l ++ [m])) id = expected id a).
Proof.
  intros [H|(b & -> & ->)]; rewrite view_snoc; [by left; rewrite H|]. right. split; [by eexists|].
  unfold seen, daemon_one. cbn. by rewrite lookup_insert_eq.
Qed.

Lemma seen_state l id a : seen (daemon_view now instanceID m0 (l ++ [state_changed id a])) id = Some (Some a).
Proof. unfold seen. by rewrite view_state_changed, decide_True. Qed.

(** A task goes on: it may send a message and becomes another task, or ends. *)
Lemma inv_task k d' i old new sent_now :
  calm_inv k -> d_entities d' = d_entities (k_d k) -> d_emitter d' = d_emitter (k_d k) -> d_closed d' = d_closed (k_d k) ->
  sent s d' = sent s (k_d k) ++ sent_now -> k_tasks k !! i = old ->
  (forall t, new = Some t -> task_ok t) ->
  (sent_now = [] \/ exists m, sent_now = [m]) ->
  (forall id e m, d_entities (k_d k) !! id = Some e -> (m ∈ sent_now \/ exists t, new = Some t /\ m ∈ outgoing t) -> fits id (en_attrs e) m) ->
  (forall id e t, d_entities (k_d k) !! id = Some e -> is_Some (en_attrs e) -> old = Some t -> owes id t ->
     (exists a, state_changed id a ∈ sent_now) \/ exists t', new = Some t' /\ owes id t') ->
  calm_inv (mkKit d' (partial_alter (fun _ => new) i (k_tasks k))).
Proof.
  intros [Hc Ho Ht Hf Hs] Hent Hem Hcl Hsent Hold Hok Hone Hfit Howes. split; cbn [k_d k_tasks].
  - by rewrite Hem.
  - by rewrite Hcl.
  - intros j t. destruct (decide (j = i)) as [->|Hne]; [rewrite lookup_partial_alter_eq; by apply Hok|].
    rewrite lookup_partial_alter_ne by done. by apply Ht.
  - intros id e j t m. rewrite Hent. intros He. destruct (decide (j = i)) as [->|Hne].
    + rewrite lookup_partial_alter_eq. intros Hnew Hm. apply (Hfit id e m He). right. by exists t.
    + rewrite lookup_partial_alter_ne by done. by apply Hf.
  - intros id e. rewrite Hent. intros He.
    assert (Hafter : seen (daemon_view now instanceID m0 (sent s d')) id = seen (daemon_view now instanceID m0 (sent s (k_d k))) id \/
                     seen (daemon_view now instanceID m0 (sent s d')) id = expected id (en_attrs e)).
    { rewrite Hsent. destruct Hone as [->|[m ->]]; [by rewrite app_nil_r; left|].
      destruct (seen_after (sent s (k_d k)) m id (en_attrs e)) as [H|[_ H]]; [|by left|by right]. apply (Hfit id e m He). left. set_solver. }
    unfold shown. fold (seen (daemon_view now instanceID m0 (sent s d')) id). destruct (Hs id e He) as [Hsh|(Ha & j & t & Hj & Hw)].
    + left. unfold shown in Hsh. fold (seen (daemon_view now instanceID m0 (sent s (k_d k))) id) in Hsh. destruct Hafter as [->| ->]; done.
    + destruct (decide (j = i)) as [->|Hne].
      * destruct (Howes id e t He Ha) as [[a Hin]|(t' & Hnew & Hw')]; [congruence|done| |].
        -- left. destruct Hone as [->|[m ->]]; [by apply not_elem_of_nil in Hin|]. apply list_elem_of_singleton in Hin as <-.
           rewrite Hsent, seen_state. destruct (Hfit id e (state_changed id a) He) as [Hh|(b & Hb & [= ->])]; [left; set_solver| |by rewrite Hb].
           specialize (Hh ∅). unfold seen, daemon_one in Hh. cbn in Hh. rewrite lookup_insert_eq, lookup_empty in Hh. done.
        -- right. split; [done|]. exists i, t'. by rewrite lookup_partial_alter_eq.
      * right. split; [done|]. exists j, t. by rewrite lookup_partial_alter_ne.
Qed.

(** An entity is updated whose states have all been sent; the new one is to be sent. *)
Lemma inv_kit_update k id e a i t rest :
  calm_inv k -> quiet id k = true -> d_entities (k_d k) !! id = Some e ->
  (forall old, k_tasks k !! i = Some old -> ~ exists id', owes id' old) ->
  task_ok t -> outgoing t = state_changed id a :: rest -> (forall m id', m ∈ rest -> harmless id' m) ->
  calm_inv (mkKit (with_entities_ (<[id := set_attrs (Some a) e]> (d_entities (k_d k))) (k_d k)) (<[i := t]> (k_tasks k))).
Proof.
  intros [Hc Ho Ht Hf Hs] Hq He Hold Hok Hout Hrest. split; cbn [k_d k_tasks]; [done|done| | |].
  - intros j t'. intros [[<- <-]|[_ Hj]]%lookup_insert_Some; [done|by eapply Ht].
  - intros id' e' j t' m. cbn [d_entities with_entities_]. intros He' Hj Hm.
    apply lookup_insert_Some in Hj as [[<- <-]|[_ Hj]]; apply lookup_insert_Some in He' as [[<- <-]|[Hne He']].
    + rewrite Hout in Hm. apply elem_of_cons in Hm as [->|Hm]; [right; by exists a|left; by apply Hrest].
    + rewrite Hout in Hm. left. apply elem_of_cons in Hm as [->|Hm]; [by apply harmless_state|by apply Hrest].
    + eapply fits_quiet; [by eapply Hf|by eapply quiet_spec].
    + by eapply Hf.
  - intros id' e'. cbn [d_entities with_entities_]. intros [[<- <-]|[Hne He']]%lookup_insert_Some.
    + right. split; [by eexists|]. exists i, t. rewrite lookup_insert_eq. split; [done|]. right. exists a. rewrite Hout. set_solver.
    + destruct (Hs id' e' He') as [Hsh|(Ha & j & t' & Hj & Hw)]; [by left|]. right. split; [done|]. exists j, t'. split; [|done].
      rewrite lookup_insert_ne; [done|]. intros ->. apply (Hold t' Hj). by exists id'.
Qed.

(** An entity goes away, and is not added again. *)
Lemma inv_kit_unregister k id i :
  calm_inv k -> k_tasks k !! i = None ->
  calm_inv (mkKit (with_entities_ (delete id (d_entities (k_d k))) (k_d k))
    (<[i := TRead (DH_EntityUnregistered (mkEntityUnregistered "removed_by_driver" id))]> (k_tasks k))).
Proof.
  intros [Hc Ho Ht Hf Hs] Hi. split; cbn [k_d k_tasks]; [done|done| | |].
  - intros j t. intros [[<- <-]|[_ Hj]]%lookup_insert_Some; [done|by eapply Ht].
  - intros id' e' j t m. cbn [d_entities with_entities_]. intros [Hne He']%lookup_delete_Some. intros [[<- <-]|[_ Hj]]%lookup_insert_Some Hm; [|by eapply Hf].
    left. cbn in Hm. apply list_elem_of_singleton in Hm as ->. by apply harmless_unregistered.
  - intros id' e'. cbn [d_entities with_entities_]. intros [Hne He']%lookup_delete_Some.
    destruct (Hs id' e' He') as [Hsh|(Ha & j & t & Hj & Hw)]; [by left|]. right. split; [done|]. exists j, t. split; [|done].
    rewrite lookup_insert_ne; [done|]. intros ->. congruence.
Qed.

Lemma inv_kit_spawn k i t :
  calm_inv k -> k_tasks k !! i = None -> task_ok t -> (forall id e m, d_entities (k_d k) !! id = Some e -> m ∈ outgoing t -> fits id (en_attrs e) m) ->
  calm_inv (spawn i t (k_d k) k).
Proof.
  intros Hinv Hi Hok Hf. unfold spawn.
  refine (inv_task k (k_d k) i None (Some t) [] Hinv eq_refl eq_refl eq_refl _ Hi _ _ _ _); [by rewrite app_nil_r|naive_solver|by left| |done].
  intros id e m He [Hm|(t' & [= <-] & Hm)]; [by apply not_elem_of_nil in Hm|by eapply Hf].
Qed.

(** What [OnRunStart] collects is what is tracked. *)
Lemma inv_kit_snapshot k i order :
  calm_inv k -> (forall l, order l ≡ₚ l) -> k_tasks k !! i = Some (TSnapshot s) ->
  calm_inv (spawn i (TSend s ((fun p => state_changed p.1 p.2) <$> order (tracked (k_d k)))) (k_d k) k).
Proof.
  intros Hinv Hord Hi. unfold spawn.
  refine (inv_task k (k_d k) i _ (Some _) [] Hinv eq_refl eq_refl eq_refl _ Hi _ _ _ _); [by rewrite app_nil_r|by intros t [= <-]|by left| |].
  - intros id e m He [Hm|(t' & [= <-] & Hm)]; [by apply not_elem_of_nil in Hm|]. cbn [outgoing] in Hm.
    apply list_elem_of_fmap in Hm as ([id' a] & -> & Hin). rewrite Hord in Hin. apply tracked_spec in Hin as (e' & He' & Ha).
    cbn [fst snd]. destruct (decide (id' = id)) as [->|Hne]; [|by left; apply harmless_state]. right. exists a. split; [congruence|done].
  - intros id e t He [a Ha] _ _. right. eexists. split; [done|]. right. exists a. cbn [outgoing]. apply list_elem_of_fmap. exists (id, a).
    split; [done|]. rewrite Hord. apply tracked_spec. by exists e.
Qed.

(** The next message of a task is sent. *)
Lemma inv_kit_send k i m ms :
  calm_inv k -> k_tasks k !! i = Some (TSend s (m :: ms)) -> calm_inv (spawn i (TSend s ms) (Send s m (k_d k)).1 k).
Proof.
  intros Hinv Hi. unfold spawn.
  destruct (Send_open s m (k_d k) (ci_open k Hinv)) as (d' & Hsd & H1 & H2 & H3 & H4 & _). rewrite Hsd. cbn [fst].
  refine (inv_task k d' i _ (Some _) [m] Hinv H1 H2 H3 H4 Hi _ _ _ _); [by intros t [= <-]|right; by exists m| |].
  - intros id e m' He [->%list_elem_of_singleton|(t & [= <-] & Hm)]; (eapply (ci_out k Hinv); [done|exact Hi|]); cbn in *; set_solver.
  - intros id e t He _ [= <-] [[=]|(a & Hin)]. cbn [outgoing] in Hin. apply elem_of_cons in Hin as [<-|Hin]; [left; exists a; set_solver|].
    right. eexists. split; [done|]. right. by exists a.
Qed.

Lemma idle_spec i k : idle i k = true -> k_tasks k !! i = None.
Proof. unfold idle. by destruct (k_tasks k !! i). Qed.

Lemma no_debt id t : outgoing t = [] -> (forall s', t <> TSnapshot s') -> ~ owes id t.
Proof. intros Ho Hn [->|[a Hin]]; [by eapply Hn|]. rewrite Ho in Hin. by apply not_elem_of_nil in Hin. Qed.

Lemma calm_step k e k' : calm_inv k -> fair_event e -> calm s k e = true -> kit_do k e = Some k' -> calm_inv k'.
Proof.
  intros Hinv Hfair. destruct e as [id spec|id cap|i id a|i id|i kind detail|i|i|i s'|i order|i s' c|i h|i s'| |s']; cbn [calm]; try done;
    intros Hcalm Hdo; cbn [kit_do] in Hdo.
  - unfold OnCapability in Hdo. destruct (d_entities (k_d k) !! id) as [e|] eqn:He; [|done]. injection Hdo as <-.
    destruct Hinv as [Hc Ho Ht Hf Hs]. split; cbn [k_d k_tasks]; [done..| |]; cbn [d_entities with_entities_].
    + intros id' e' j t m [[<- <-]|[_ He']]%lookup_insert_Some; [by apply (Hf id e j t)|by apply (Hf id' e' j t)].
    + intros id' e' [[<- <-]|[_ He']]%lookup_insert_Some; [by apply (Hs id e)|by apply (Hs id' e')].
  - destruct (idle i k) eqn:Hi; [apply idle_spec in Hi|done]. injection Hdo as <-. unfold EmitState_update.
    destruct (d_entities (k_d k) !! id) as [e|] eqn:He; [|done]. unfold spawn.
    eapply inv_kit_update; [done|done|done|intros old; by rewrite Hi|done|done|]. intros m id' H. by apply not_elem_of_nil in H.
  - destruct (idle i k) eqn:Hi; [apply idle_spec in Hi|done]. injection Hdo as <-. destruct (d_entities (k_d k) !! id); [|done]. by apply inv_kit_unregister.
  - destruct (idle i k) eqn:Hi; [apply idle_spec in Hi|done]. injection Hdo as <-. apply inv_kit_spawn; [done..|]. intros id e m _ ->%list_elem_of_singleton. by left.
  - destruct (k_tasks k !! i) as [[m| | |]|] eqn:Hi; try done. rewrite (ci_current k Hinv) in Hdo. injection Hdo as <-. unfold spawn.
    refine (inv_task k (k_d k) i _ (Some _) [] Hinv eq_refl eq_refl eq_refl _ Hi _ _ _ _); [by rewrite app_nil_r|by intros t [= <-]|by left| |].
    + intros id e m' He [Hm|(t & [= <-] & Hm)]; [by apply not_elem_of_nil in Hm|]. by eapply (ci_out k Hinv).
    + intros id e t He _ [= <-] [[=]|(a & Hin)]. right. eexists. split; [done|]. right. by exists a.
  - destruct (k_tasks k !! i) as [[|s' [|m ms]| |]|] eqn:Hi; try done; injection Hdo as <-; pose proof (ci_tasks k Hinv i _ Hi) as Hok; cbn in Hok; subst s'.
    + refine (inv_task k (k_d k) i _ None [] Hinv eq_refl eq_refl eq_refl _ Hi _ _ _ _); [by rewrite app_nil_r|done|by left| |].
      * intros id e m He [Hm|(t & [=] & _)]. by apply not_elem_of_nil in Hm.
      * intros id e t He _ [= <-] [[=]|(a & Hin)]. by apply not_elem_of_nil in Hin.
    + by apply inv_kit_send.
  - destruct (k_tasks k !! i) as [[| |s'|]|] eqn:Hi; try done. injection Hdo as <-. pose proof (ci_tasks k Hinv i _ Hi) as Hok. cbn in Hok. subst s'.
    by apply inv_kit_snapshot.
  - apply bool_decide_eq_true in Hcalm as ->. destruct (idle i k) eqn:Hi; [apply idle_spec in Hi|done]. injection Hdo as <-.
    destruct (OnCommand_lookup c (k_d k)) as [r|]; (apply inv_kit_spawn; [done..|]); intros id e m _; cbn [outgoing];
      [intros ->%list_elem_of_singleton; by left|by intros ?%not_elem_of_nil].
  - cbn [updated] in Hcalm. destruct (k_tasks k !! i) as [[| | |s' c]|] eqn:Hi; try done. pose proof (ci_tasks k Hinv i _ Hi) as Hok. cbn in Hok. subst s'.
    assert (Hres : forall d' r, d' = k_d k -> calm_inv (spawn i (TSend s [DH_Result r]) d' k)).
    { intros d' r ->. unfold spawn.
      refine (inv_task k (k_d k) i _ (Some _) [] Hinv eq_refl eq_refl eq_refl _ Hi _ _ _ _); [by rewrite app_nil_r|by intros t [= <-]|by left| |].
      - intros id e m He [Hm|(t & [= <-] & Hm)]; [by apply not_elem_of_nil in Hm|]. cbn in Hm. apply list_elem_of_singleton in Hm as ->. by left.
      - intros id e t He _ [= <-] Hw. by apply no_debt in Hw. }
    destruct h as [[a|]|msg]; cbn [OnCommand_record] in Hdo; [|injection Hdo as <-; by apply Hres..].
    destruct (d_entities (k_d k) !! cmd_entity c) as [e|] eqn:He; [|done]. injection Hdo as <-. unfold spawn.
    eapply inv_kit_update; [done|done|done| |done|reflexivity|].
    + intros old. rewrite Hi. intros [= <-] (id' & Hw). by apply no_debt in Hw.
    + intros m id' ->%list_elem_of_singleton. apply harmless_result.
  - apply bool_decide_eq_true in Hcalm as ->. destruct (idle i k) eqn:Hi; [apply idle_spec in Hi|done]. injection Hdo as <-.
    apply inv_kit_spawn; [done..|]. intros id e m _ ->%list_elem_of_singleton. by left.
Qed.

Lemma calm_runs_inv k es k' : calm_inv k -> Forall fair_event es -> calm_runs s k es = Some k' -> calm_inv k'.
Proof.
  intros Hinv Hf. revert k Hinv. induction Hf as [|e es He Hf IH]; intros k Hinv; cbn [calm_runs]; [by intros [= <-]|].
  destruct (calm s k e) eqn:Hc; [|done]. destruct (kit_do k e) as [k1|] eqn:Hd; [|done]. cbn [mbind option_bind]. apply IH. by eapply calm_step.
Qed.

(** The stream opens on an idle driver. *)
Lemma start_inv d i : s ∉ d_closed d -> sent s d = [] -> calm_inv (spawn i (TSnapshot s) (with_emitter (Some s) d) (mkKit d ∅)).
Proof.
  intros Ho Hw. split; cbn [k_d k_tasks spawn]; [done|done| | |].
  - intros j t [[<- <-]|[_ Hj]]%lookup_insert_Some; [done|]. by rewrite lookup_empty in Hj.
  - intros id e j t m _ [[<- <-]|[_ Hj]]%lookup_insert_Some; [by intros ?%not_elem_of_nil|]. by rewrite lookup_empty in Hj.
  - intros id e He. unfold shown. change (sent s (with_emitter (Some s) d)) with (sent s d). rewrite Hw. cbn.
    destruct (en_attrs e) as [a|] eqn:Ha; [|by left]. right. split; [by eexists|]. exists i, (TSnapshot s). rewrite lookup_insert_eq. split; [done|by left].
Qed.

Lemma settled_shown k id e : calm_inv k -> settled id k = true -> d_entities (k_d k) !! id = Some e ->
  shown now instanceID m0 s (k_d k) id = expected id (en_attrs e).
Proof.
  intros Hinv [Hq Hn]%andb_true_iff He. destruct (ci_shown k Hinv id e He) as [H|(_ & i & t & Hi & [->|[a Hin]])]; [done| |].
  - rewrite forallb_forall in Hn. specialize (Hn (i, TSnapshot s) (proj1 (list_elem_of_In _ _) (proj2 (elem_of_map_to_list _ _ _) Hi))). done.
  - pose proof (quiet_spec id k i t _ Hq Hi Hin) as Hab. cbn in Hab. by rewrite bool_decide_true in Hab.
Qed.

End Converges.

(** ** The daemon's end of the stream *)

(** The reader takes the next message, or the supervisor installs the hook. The hook is
    installed in one step here: the queue is handed over before the reader takes another
    message. [Dispatch.hook_reorders] is what happens otherwise. *)
Inductive conn_event := CMsg (m : DriverToHost) | CHook.

Definition setIngestHook (ic : instanceConn) : instanceConn :=
  let '(ic, queued) := setIngestHook_swap ic in foldl (flip drain_one) ic queued.

Definition conn_one (ic : instanceConn) (e : conn_event) : go instanceConn :=
  match e with CMsg m => reader_step (Some m) ic | CHook => Done (setIngestHook ic) end.

Fixpoint conn_run (ic : instanceConn) (es : list conn_event) : go instanceConn :=
  match es with
  | [] => Done ic
  | e :: es => match conn_one ic e with Done ic => conn_run ic es | Panic msg => Panic msg end
  end.

Definition read_messages (es : list conn_event) : list DriverToHost := omap (fun e => match e with CMsg m => Some m | CHook => None end) es.
Definition hooks (es : list conn_event) : bool := existsb (fun e => match e with CHook => true | CMsg _ => false end) es.
Definition no_result (m : DriverToHost) : bool := match m with DH_Result _ => false | _ => true end.

Lemma drained l ic : ingested (foldl (flip drain_one) ic l) = ingested ic ++ l /\ hooked (foldl (flip drain_one) ic l) = hooked ic /\
  preHookQueue (foldl (flip drain_one) ic l) = preHookQueue ic.
Proof.
  revert ic. induction l as [|m l IH]; intros ic; cbn [foldl]; [by rewrite app_nil_r|].
  destruct (IH (flip drain_one ic m)) as (-> & -> & ->). cbn. by rewrite <- app_assoc.
Qed.

Lemma deliver_keeps r ic ic' : deliver r ic = Done ic' ->
  hooked ic' = hooked ic /\ preHookQueue ic' = preHookQueue ic /\ ingested ic' = ingested ic.
Proof.
  unfold deliver, deliver_take. destruct (pending ic ≫= _) as [l|]; [|by intros [= <-]].
  unfold deliver_send. destruct (try_send_chan _ _ _); [|done]. by intros [= <-].
Qed.

(** Nothing is lost or moved: once the hook is there, it has been given every message but
    the results, in the order of the stream. *)
Lemma conn_in_order es ic ic' :
  conn_run ic es = Done ic' -> (hooked ic = true -> preHookQueue ic = []) ->
  (hooked ic' = true -> preHookQueue ic' = []) /\ hooked ic' = hooked ic || hooks es /\
  ingested ic' ++ preHookQueue ic' = ingested ic ++ preHookQueue ic ++ filter (fun m => no_result m = true) (read_messages es).
Proof.
  revert ic. induction es as [|e es IH]; intros ic; cbn [conn_run].
  { intros [= <-] Hq. cbn. by rewrite orb_false_r, !app_nil_r. }
  destruct (conn_one ic e) as [ic1|] eqn:H1; [|done]. intros Hrun Hq.
  assert (Hstep : (hooked ic1 = true -> preHookQueue ic1 = []) /\ hooked ic1 = hooked ic || hooks [e] /\
    ingested ic1 ++ preHookQueue ic1 = ingested ic ++ preHookQueue ic ++ filter (fun m => no_result m = true) (read_messages [e])).
  { destruct e as [m|]; cbn [conn_one] in H1; cbn [hooks existsb read_messages omap list_omap].
    - rewrite orb_false_r. destruct (no_result m) eqn:Hm.
      + rewrite filter_cons_True, filter_nil by done. assert (reader_ingest m ic = ic1) as <- by (destruct m; (discriminate Hm || by injection H1)).
        unfold reader_ingest. destruct (hooked ic) eqn:Hh; cbn; [rewrite (Hq eq_refl); by rewrite !app_nil_r|done].
      + rewrite filter_cons_False, filter_nil, app_nil_r by congruence. destruct m; try done. cbn in H1.
        destruct (deliver_keeps _ _ _ H1) as (-> & -> & ->). done.
    - injection H1 as <-. unfold setIngestHook. cbn [setIngestHook_swap]. destruct (drained (preHookQueue ic) (setIngestHook_swap ic).1) as (Hi & Hh & Hp).
      cbn in Hi, Hh, Hp. rewrite Hi, Hh, Hp, orb_true_r, filter_nil, !app_nil_r. done. }
  destruct Hstep as (Hq1 & Hh1 & Hi1). destruct (IH ic1 Hrun Hq1) as (Hq' & Hh' & Hi'). split; [done|]. split.
  - rewrite Hh', Hh1. cbn. by rewrite orb_false_r, orb_assoc.
  - rewrite Hi', app_assoc, Hi1, <- !app_assoc. do 2 f_equal. rewrite <- filter_app. f_equal. by destruct e.
Qed.

Lemma view_results now instanceID m0 l :
  daemon_view now instanceID m0 (filter (fun m => no_result m = true) l) = daemon_view now instanceID m0 l.
Proof.
  unfold daemon_view. revert m0. induction l as [|m l IH]; intros m0; [done|]. destruct (no_result m) eqn:Hm.
  - rewrite filter_cons_True by done. apply IH.
  - rewrite filter_cons_False by congruence. cbn [foldl]. rewrite IH. by destruct m.
Qed.

(** C28. The daemon converges to the driver's view, under concurrent calls. A stream
    opens on a driver that is idle; then the driver's calls run in any number of
    goroutines, interleaved at their locks and their sends: state changes, commands,
    events, removals, new handlers and the states that are sent when the stream starts, in
    any order. Provided that the stream stays the current one and open, that no entity is
    added meanwhile, and that no entity is updated while a state of it is still to be sent,
    every entity whose states have all been sent is shown by the daemon with exactly the
    state the driver tracks, and as before when the driver tracks none; whatever the
    daemon remembered before. The daemon's reader takes the messages in order; the hook
    is installed at any time, but between two messages; and no append of an event fails. *)
Theorem daemon_converges now instanceID m0 s d i es k conn ic id e :
  s ∉ d_closed d -> sent s d = [] -> Forall fair_event es ->
  (k1 ← kit_do (mkKit d ∅) (KRunStart i s); calm_runs s k1 es) = Some k ->
  settled id k = true -> d_entities (k_d k) !! id = Some e ->
  read_messages conn = sent s (k_d k) -> hooks conn = true -> conn_run DialInstance conn = Done ic ->
  StAttributes <$> daemon_view now instanceID m0 (ingested ic) !! id =
    match en_attrs e with Some a => Some (Some a) | None => StAttributes <$> m0 !! id end.
Proof.
  intros Ho Hw Hf Hrun Hset He Hread Hhook Hconn.
  destruct (kit_do (mkKit d ∅) (KRunStart i s)) as [k1|] eqn:Hk1; [|done]. cbn [mbind option_bind] in Hrun.
  cbn [kit_do] in Hk1. unfold idle in Hk1. cbn [k_tasks] in Hk1. rewrite lookup_empty in Hk1. injection Hk1 as <-.
  pose proof (calm_runs_inv now instanceID m0 s _ es k (start_inv now instanceID m0 s d i Ho Hw) Hf Hrun) as Hinv.
  pose proof (settled_shown now instanceID m0 s k id e Hinv Hset He) as Hsh.
  destruct (conn_in_order conn DialInstance ic Hconn) as (Hq & Hh & Hi); [done|]. rewrite Hhook in Hh.
  rewrite (Hq Hh), app_nil_r in Hi. cbn in Hi. rewrite Hi, view_results, Hread. exact Hsh.
Qed.

(** ** Examples *)

Module RunsDemo.

Import KitDemo.

(** Two goroutines at once: a command on the lamp, while an event is sent and the first
    states are still under way. *)
Definition busy : list kevent :=
  [KSnapshot 0 (fun l => l); KEvent 1 "bridge_online" ""; KSend 0; KCommand 2 0 turn_on; KRead 1; KHandled 2 (Ok (Some (lamp true)));
   KSend 2; KSend 1; KUnregister 3 "sensor.b"; KRead 3; KSend 3; KSend 2].
Definition after_busy : kit := default (mkKit built ∅) (k1 ← kit_do (mkKit built ∅) (KRunStart 0 0); calm_runs 0 k1 busy).

(** The hook comes after the first two messages. *)
Definition arrivals : list conn_event :=
  match sent 0 (k_d after_busy) with a :: b :: l => CMsg a :: CMsg b :: CHook :: (CMsg <$> l) | _ => [] end.
Definition reached : instanceConn := match conn_run DialInstance arrivals with Done ic => ic | Panic _ => DialInstance end.

Example busy_wire : sent 0 (k_d after_busy) =
  [state_changed "switch.a" (lamp false); state_changed "switch.a" (lamp true); DH_DriverEvent (mkDriverEvent "" "bridge_online" "");
   DH_EntityUnregistered (mkEntityUnregistered "removed_by_driver" "sensor.b"); DH_Result (mkCommandResult "c1" true "")].
Proof. vm_compute. reflexivity. Qed.

Lemma daemon_converges_witness :
  settled "switch.a" after_busy = true /\ StAttributes <$> daemon_view 7 "demo" ∅ (ingested reached) !! "switch.a" = Some (Some (lamp true)).
Proof.
  split; [vm_compute; reflexivity|].
  refine (daemon_converges 7 "demo" ∅ 0 built 0 busy after_busy arrivals reached "switch.a"
            (mkEntry (mkEntitySpec "switch" "A" ["turn_on"] (Some (lamp false))) (Some (lamp true)) {["turn_on"]}) _ _ _ _ _ _ _ _ _);
    [by vm_compute|by vm_compute|repeat constructor; intros l; reflexivity|by vm_compute..].
Defined.

(** An update between the collection of the first states and their sends: the older
    state is sent last. *)
Definition racing : list kevent := [KRunStart 0 0; KSnapshot 0 (fun l => l); KEmit 1 "switch.a" (lamp true); KRead 1; KSend 1; KSend 0].
Example overlap_diverges :
  (k ← kit_runs (mkKit built ∅) racing;
   Some (d_entities (k_d k) !! "switch.a" ≫= en_attrs, StAttributes <$> daemon_view 7 "demo" ∅ (sent 0 (k_d k)) !! "switch.a", settled "switch.a" k)) =
  Some (Some (lamp true), Some (Some (lamp false)), true).
Proof. vm_compute. reflexivity. Qed.

End RunsDemo.
