(* ===== verification/Z2m.v ===== *)
(** * The Zigbee driver

    Models [drivers/z2m]: the mapping of devices to entities
    ([internal/state/mapping.go], [ids.go]), the reconciliation of device lists
    ([reconcile.go]), the merge of state messages ([merge.go]), the payloads of
    commands ([command.go]), the topics ([internal/z2m/topics.go]) and the handlers of
    [cmd/z2m-driver/main.go] over a driver of [DriverKit]. The MQTT client runs one of its
    handlers at a time; here a stream of the daemon also starts, and a command runs, between
    two of them. The broker delivers the topics that are subscribed. Decoded
    JSON is an argument, as is the order in which Go ranges over a map.

    [devices_registered], [cache_tracks_driver]: the entities are those of the last
    device list, and their states those of the cache, between the handlers;
    [z2m_daemon_shows] carries that to the daemon. [light_payload_order_matters], [rename_keeps_old_topics],
    [outage_sticks]: where the driver loses track of a device. *)

From Stdlib Require Import Ascii String.
From S2P Require Import Prelude Codec Json Sorting Events EventStore StateCache Registry Carport Dispatch DriverKit.

(** ** Devices *)

(** The fields of [Expose] that are read. *)
Inductive Expose := mkExpose (ex_Type ex_Name ex_Property ex_Unit : string) (ex_Access : Z) (ex_Features : list Expose).
Definition ex_Property (e : Expose) : string := let 'mkExpose _ _ p _ _ _ := e in p.
Definition AccessSettable (e : Expose) : bool := let 'mkExpose _ _ _ _ access _ := e in negb (Z.land access 2 =? 0).

Record Device := mkDevice { dv_IEEEAddress : string; dv_FriendlyName : string; dv_Exposes : list Expose }.

Definition lastHex8 (ieee : string) : string :=
  let id := trim_prefix ieee "0x" in
  if (8 <? String.length id)%nat then String.substring (String.length id - 8) 8 id else id.

Definition EntityID (ieee kind prop : string) : string :=
  let last8 := lastHex8 ieee in
  if is_empty prop then kind +:+ ".z2m_" +:+ last8 else kind +:+ ".z2m_" +:+ last8 +:+ "_" +:+ prop.

Definition blockedProperties : list string := ["linkquality"; "voltage"; "update_available"; "last_seen"].
Definition numericSensorProperties : list string :=
  ["temperature"; "humidity"; "illuminance"; "battery"; "pressure"; "power"; "energy"; "current"].
Definition binarySensorProperties : list string := ["occupancy"; "contact"; "water_leak"; "smoke"; "tamper"; "vibration"].

Record EntityResult := mkResult { re_EntityID : string; re_Spec : EntitySpec; re_Property : string }.

Definition light_capability (f : Expose) : list string :=
  if String.eqb (ex_Property f) "brightness" then ["set_brightness"]
  else if String.eqb (ex_Property f) "color_temp" then ["set_color_temp"]
  else if String.eqb (ex_Property f) "color" then ["set_color"] else [].

Definition lightEntity (dev : Device) (features : list Expose) : EntityResult :=
  mkResult (EntityID (dv_IEEEAddress dev) "light" "")
    (mkEntitySpec "light" (dv_FriendlyName dev) (["turn_on"; "turn_off"] ++ (features ≫= light_capability))
       (Some (mkAttributes (Some (Attributes_Light false 0 0 0)) true))) "".

(** The bit pattern of the double 0 is 0. *)
Definition numericSensorEntity (dev : Device) (property unit : string) : EntityResult :=
  mkResult (EntityID (dv_IEEEAddress dev) "numeric_sensor" property)
    (mkEntitySpec "numeric_sensor" (dv_FriendlyName dev +:+ " " +:+ property) []
       (Some (mkAttributes (Some (Attributes_NumericSensor unit 0)) true))) property.

Definition binarySensorEntity (dev : Device) (property : string) : EntityResult :=
  mkResult (EntityID (dv_IEEEAddress dev) "binary_sensor" property)
    (mkEntitySpec "binary_sensor" (dv_FriendlyName dev +:+ " " +:+ property) []
       (Some (mkAttributes (Some (Attributes_BinarySensor false)) true))) property.

Fixpoint mapExpose (dev : Device) (e : Expose) : list EntityResult :=
  let 'mkExpose type name property unit access features := e in
  if String.eqb type "light" then [lightEntity dev features]
  else if String.eqb type "switch" then
    (fix all (l : list Expose) : list EntityResult := match l with [] => [] | f :: rest => mapExpose dev f ++ all rest end) features
  else if String.eqb type "numeric" then
    if contains_eq blockedProperties property then []
    else if AccessSettable e then []
    else if negb (contains_eq numericSensorProperties property) then []
    else [numericSensorEntity dev property unit]
  else if String.eqb type "binary" then
    if contains_eq blockedProperties property then []
    else if AccessSettable e then []
    else if negb (contains_eq binarySensorProperties property) then []
    else [binarySensorEntity dev property]
  else [].

Definition EntitiesFor (dev : Device) : list EntityResult := dv_Exposes dev ≫= mapExpose dev.

(** ** Reconciliation *)

Inductive Action :=
  | ActAdd (EntityID : string) (Spec : EntitySpec) (IEEE FriendlyName Property : string)
  | ActUnregister (EntityID FriendlyName : string)
  | ActUpdate (EntityID NewFriendlyName Property : string).

Definition entityIDOf (a : Action) : string :=
  match a with ActAdd id _ _ _ _ => id | ActUnregister id _ => id | ActUpdate id _ _ => id end.

Definition indexByIEEE (devices : list Device) : gmap string Device :=
  foldl (fun m d => <[dv_IEEEAddress d := d]> m) ∅ devices.

(** [sort.SliceStable] by the entity id. *)
Definition by_entity (a b : Action) : Prop := String.le (entityIDOf a) (entityIDOf b).
#[export] Instance by_entity_dec a b : Decision (by_entity a b).
Proof. unfold by_entity. apply _. Defined.
Definition sortByEntityID (l : list Action) : list Action := merge_sort by_entity l.

Definition add_of (ieee : string) (d : Device) (r : EntityResult) : Action :=
  ActAdd (re_EntityID r) (re_Spec r) ieee (dv_FriendlyName d) (re_Property r).
Definition update_of (r : EntityResult) : Action := ActUpdate (re_EntityID r) (sp_FriendlyName (re_Spec r)) (re_Property r).
Definition remove_of (d : Device) (r : EntityResult) : Action := ActUnregister (re_EntityID r) (dv_FriendlyName d).

Section Reconcile.
(** Go's order of ranging over a map of devices. *)
Context (order : list (string * Device) -> list (string * Device)).

Definition Reconcile (prev next : list Device) : list Action :=
  let p := indexByIEEE prev in
  let n := indexByIEEE next in
  let news := order (map_to_list n) in
  let adds := news ≫= fun kv => match p !! kv.1 with None => add_of kv.1 kv.2 <$> EntitiesFor kv.2 | Some _ => [] end in
  let updates := news ≫= fun kv =>
    match p !! kv.1 with
    | None => []
    | Some pdev => if String.eqb (dv_FriendlyName pdev) (dv_FriendlyName kv.2) then [] else update_of <$> EntitiesFor kv.2
    end in
  let removes := order (map_to_list p) ≫= fun kv =>
    match n !! kv.1 with Some _ => [] | None => remove_of kv.2 <$> EntitiesFor kv.2 end in
  sortByEntityID adds ++ sortByEntityID removes ++ sortByEntityID updates.

End Reconcile.

(** ** State messages *)

(** [json.Unmarshal] into a variable that holds [zero]: [null] leaves it. *)
Definition into {A} (zero : A) (dec : json -> option A) (v : json) : option A :=
  match v with JNull => Some zero | _ => dec v end.
Definition dec_uint32 : json -> option Z := dec_int 0 (2 ^ 32).

(** [colorconv.PackRGB] and [UnpackRGB]. *)
Definition PackRGB (c : Z * Z * Z) : Z := let '(r, g, b) := c in Z.lor (Z.lor (Z.shiftl r 16) (Z.shiftl g 8)) b.
Definition UnpackRGB (packed : Z) : Z * Z * Z :=
  (Z.land (Z.shiftr packed 16) 255, Z.land (Z.shiftr packed 8) 255, Z.land packed 255).

Inductive merge_error := BadValue (property : string) | UnsupportedKind.

Section Merge.
(** The double of a literal; [colorconv.XYToRGB], whose arithmetic is floating point. *)
Context (double : string -> option Z) (XYToRGB : Z -> Z -> Z * Z * Z).

Definition dec_double (v : json) : option Z := match v with JNumber lit => double lit | _ => None end.

Definition dec_xy (v : json) : option (Z * Z) :=
  m ← as_struct v; x ← get 0 dec_double "x" m; y ← get 0 dec_double "y" m; Some (x, y).

Definition mergeLight (on : bool) (brightness color_temp color_rgb : Z) (property : string) (v : json) : result merge_error (option AttrKind) :=
  if String.eqb property "state" then
    match into "" dec_string v with
    | None => Err (BadValue "state")
    | Some s => Ok (Some (Attributes_Light (String.eqb s "ON") brightness color_temp color_rgb))
    end
  else if String.eqb property "brightness" then
    match into 0 dec_uint32 v with
    | None => Err (BadValue "brightness")
    | Some n => Ok (Some (Attributes_Light on n color_temp color_rgb))
    end
  else if String.eqb property "color_temp" then
    match into 0 dec_uint32 v with
    | None => Err (BadValue "color_temp")
    | Some n => Ok (Some (Attributes_Light on brightness n 0))
    end
  else if String.eqb property "color" then
    match into (0, 0) dec_xy v with
    | None => Err (BadValue "color")
    | Some (x, y) => Ok (Some (Attributes_Light on brightness 0 (PackRGB (XYToRGB x y))))
    end
  else Ok None.

Definition mergeBinarySensor (v : json) : result merge_error (option AttrKind) :=
  match into false dec_bool v with
  | Some b => Ok (Some (Attributes_BinarySensor b))
  | None =>
      match into "" dec_string v with
      | None => Err (BadValue "binary sensor")
      | Some s => Ok (Some (Attributes_BinarySensor (String.eqb s "ON" || String.eqb s "true")))
      end
  end.

(** [MergeState]; [Ok None] is the previous pointer itself. *)
Definition MergeState (prev : Attributes) (property : string) (v : json) : result merge_error (option Attributes) :=
  match
    match attr_kind prev with
    | Some (Attributes_Light on brightness color_temp color_rgb) => mergeLight on brightness color_temp color_rgb property v
    | Some (Attributes_NumericSensor unit _) =>
        match into 0 dec_double v with None => Err (BadValue "numeric sensor") | Some n => Ok (Some (Attributes_NumericSensor unit n)) end
    | Some (Attributes_BinarySensor _) => mergeBinarySensor v
    | _ => Err UnsupportedKind
    end
  with
  | Err e => Err e
  | Ok None => Ok None
  | Ok (Some k) => Ok (Some (mkAttributes (Some k) (available prev)))
  end.

(** One property of the loop of [applyStateUpdate]; [None] is the pointer it began with. *)
Definition merge_one (prev : Attributes) (next : option Attributes) (kv : string * json) : option Attributes :=
  match MergeState (default prev next) kv.1 kv.2 with
  | Ok (Some a) => Some a
  | _ => next
  end.

(** The attributes after a payload, for a listener of [property]. *)
Definition merge_payload (order : list (string * json) -> list (string * json)) (prev : Attributes) (property : string)
    (sp : list (string * json)) : option Attributes :=
  if is_empty property then foldl (merge_one prev) None (order sp)
  else
    match snd <$> list_find (fun kv : string * json => kv.1 = property) sp with
    | None => None
    | Some kv => merge_one prev None (property, kv.2)
    end.

End Merge.

(** ** Commands *)

Definition is_hex (c : ascii) : bool :=
  let n := N_of_ascii c in ((N.leb 48 n && N.leb n 57) || (N.leb 65 n && N.leb n 70) || (N.leb 97 n && N.leb n 102))%N.
Fixpoint all_hex (s : string) : bool := match s with EmptyString => true | String c s => is_hex c && all_hex s end.
(** [strings.ToUpper] of an ASCII text. *)
Definition upper_byte (c : ascii) : ascii := let n := N_of_ascii c in if (N.leb 97 n && N.leb n 122)%N then ascii_of_N (n - 32) else c.
Fixpoint ToUpper (s : string) : string := match s with EmptyString => EmptyString | String c s => String (upper_byte c) (ToUpper s) end.

(** [%02X] of a byte. *)
Definition hex_digit (d : Z) : ascii := ascii_of_N (Z.to_N (if d <? 10 then 48 + d else 55 + d)).
Definition hex_byte (n : Z) : string := String (hex_digit (n / 16)) (String (hex_digit (n mod 16)) "").

Definition parse_in (lo hi : Z) (s : string) : option Z := n ← ParseInt s; if (n <? lo) || (hi <? n) then None else Some n.
Definition parseByte (s name : string) : result string Z :=
  match parse_in 0 255 s with Some n => Ok n | None => Err (name +:+ " must be integer 0-255, got " +:+ quoted s) end.

Definition parseColorToHex (args : string_map) : result string string :=
  match args !! "hex" with
  | Some h =>
      let s := trim_prefix h "#" in
      if negb (String.length s =? 6)%nat then Err ("hex must be 6 chars (with optional leading #), got " +:+ quoted h)
      else if negb (all_hex s) then Err ("hex parse: strconv.ParseUint: parsing " +:+ quoted s +:+ ": invalid syntax")
      else Ok ("#" +:+ ToUpper s)
  | None =>
      match args !! "r", args !! "g", args !! "b" with
      | None, None, None => Err "provide hex=#RRGGBB or r/g/b"
      | Some rs, Some gs, Some bs =>
          r ← parseByte rs "r"; g ← parseByte gs "g"; b ← parseByte bs "b"; Ok ("#" +:+ hex_byte r +:+ hex_byte g +:+ hex_byte b)
      | _, _, _ => Err "r, g, and b must all be set"
      end
  end.

(** [CommandToPayload], up to [json.Marshal]. *)
Definition CommandToPayload (capability : string) (args : string_map) : result string json :=
  if String.eqb capability "turn_on" then Ok (JObject [("state", JString "ON")])
  else if String.eqb capability "turn_off" then Ok (JObject [("state", JString "OFF")])
  else if String.eqb capability "set_brightness" then
    match args !! "brightness" with
    | None => Err "set_brightness: missing brightness arg"
    | Some raw =>
        match parse_in 0 255 raw with
        | None => Err ("set_brightness: brightness must be integer 0-255, got " +:+ quoted raw)
        | Some v => Ok (JObject [("brightness", JNumber (pretty v))])
        end
    end
  else if String.eqb capability "set_color_temp" then
    match args !! "color_temp" with
    | None => Err "set_color_temp: missing color_temp arg"
    | Some raw =>
        match parse_in 153 500 raw with
        | None => Err ("set_color_temp: color_temp must be integer 153-500 mireds, got " +:+ quoted raw)
        | Some v => Ok (JObject [("color_temp", JNumber (pretty v))])
        end
    end
  else if String.eqb capability "set_color" then
    match parseColorToHex args with
    | Err e => Err ("set_color: " +:+ e)
    | Ok hex => Ok (JObject [("color", JObject [("hex", JString hex)])])
    end
  else Err ("unknown capability " +:+ quoted capability).

(** ** The application *)

Record entityListener := mkListener { ls_EntityID : string; ls_Property : string }.

(** [app] with its [stateCache]; the handlers of the MQTT client as the set of
    device topics that are subscribed; per light the name that its capability
    handlers captured; and what was published. *)
Record App := mkApp {
  a_d : Driver; a_entities : gmap string Attributes; a_devices : gmap string Device;
  a_entityByTopic : gmap string (list entityListener); a_friendlyByEnt : gmap string string; a_ieeeByEnt : gmap string string;
  a_subscribed : gset string; a_captured : gmap string string; a_published : list (string * json);
}.

Definition newApp (name version : string) : App := mkApp (New name version) ∅ ∅ ∅ ∅ ∅ ∅ ∅ [].

Definition with_d (d : Driver) (a : App) : App :=
  mkApp d (a_entities a) (a_devices a) (a_entityByTopic a) (a_friendlyByEnt a) (a_ieeeByEnt a) (a_subscribed a) (a_captured a) (a_published a).
(** A new state in the cache, announced by [EmitState]. *)
Definition emit (id : string) (x : Attributes) (a : App) : App :=
  mkApp (EmitState id x (a_d a)).1 (<[id := x]> (a_entities a)) (a_devices a) (a_entityByTopic a) (a_friendlyByEnt a) (a_ieeeByEnt a)
    (a_subscribed a) (a_captured a) (a_published a).

Definition state_topic (base friendly : string) : string := base +:+ "/" +:+ friendly.
Definition set_topic (base friendly : string) : string := state_topic base friendly +:+ "/set".
Definition availability_topic (base friendly : string) : string := state_topic base friendly +:+ "/availability".

Section App.
Context (base : string) (double : string -> option Z) (XYToRGB : Z -> Z -> Z * Z * Z).

(** The capability handlers of a light; the entity was registered just before. *)
Definition on_capabilities (id : string) (caps : list string) (d : Driver) : Driver :=
  foldl (fun d c => match OnCapability id c d with Done d' => d' | Panic _ => d end) d caps.

Definition applyAdd (id : string) (spec : EntitySpec) (ieee friendly property : string) (a : App) : App :=
  match AddEntity id spec (a_d a) with
  | (_, Some _) => a
  | (d, None) =>
      let topic := state_topic base friendly in
      let light := String.eqb (sp_EntityType spec) "light" in
      mkApp (if light then on_capabilities id (sp_Capabilities spec) d else d)
        (match sp_InitialState spec with Some x => <[id := x]> (a_entities a) | None => a_entities a end)
        (a_devices a) (<[topic := default [] (a_entityByTopic a !! topic) ++ [mkListener id property]]> (a_entityByTopic a))
        (<[id := friendly]> (a_friendlyByEnt a)) (<[id := ieee]> (a_ieeeByEnt a))
        ({[topic; availability_topic base friendly]} ∪ a_subscribed a)
        (if light then <[id := friendly]> (a_captured a) else a_captured a) (a_published a)
  end.

Definition applyRemove (id friendly : string) (a : App) : App :=
  let topic := state_topic base friendly in
  let pruned := filter (fun l => ls_EntityID l <> id) (default [] (a_entityByTopic a !! topic)) in
  mkApp (UnregisterEntity id (a_d a)).1 (delete id (a_entities a)) (a_devices a)
    (match pruned with [] => delete topic (a_entityByTopic a) | _ => <[topic := pruned]> (a_entityByTopic a) end)
    (delete id (a_friendlyByEnt a)) (delete id (a_ieeeByEnt a))
    (match pruned with [] => a_subscribed a ∖ {[topic; availability_topic base friendly]} | _ => a_subscribed a end)
    (a_captured a) (a_published a).

Definition applyUpdate (id : string) (a : App) : App :=
  match a_entities a !! id with
  | None => a
  | Some prev => with_d (EmitState id prev (a_d a)).1 a
  end.

Definition apply_action (a : App) (act : Action) : App :=
  match act with
  | ActAdd id spec ieee friendly property => applyAdd id spec ieee friendly property a
  | ActUnregister id friendly => applyRemove id friendly a
  | ActUpdate id _ _ => applyUpdate id a
  end.

(** [onBridgeDevices]; [None] is a payload that does not parse. *)
Definition onBridgeDevices (order : list (string * Device) -> list (string * Device)) (payload : option (list Device)) (a : App) : App :=
  match payload with
  | None => a
  | Some devices =>
      let prev := snd <$> order (map_to_list (a_devices a)) in
      let a := foldl apply_action a (Reconcile order prev devices) in
      mkApp (a_d a) (a_entities a) (indexByIEEE devices) (a_entityByTopic a) (a_friendlyByEnt a) (a_ieeeByEnt a) (a_subscribed a)
        (a_captured a) (a_published a)
  end.

Definition listeners (topic : string) (a : App) : list entityListener := default [] (a_entityByTopic a !! topic).

Definition applyStateUpdate (order : list (string * json) -> list (string * json)) (sp : list (string * json)) (a : App) (l : entityListener) : App :=
  match a_entities a !! ls_EntityID l with
  | None => a
  | Some prev =>
      match merge_payload double XYToRGB order prev (ls_Property l) sp with
      | None => a
      | Some next => emit (ls_EntityID l) next a
      end
  end.

Definition onDeviceState (order : list (string * json) -> list (string * json)) (topic : string) (payload : option json) (a : App) : App :=
  match payload ≫= as_struct with
  | None => a
  | Some sp => foldl (applyStateUpdate order sp) a (listeners topic a)
  end.

Definition set_available (on : bool) (x : Attributes) : Attributes := mkAttributes (attr_kind x) on.
Definition mark (on : bool) (a : App) (id : string) : App :=
  match a_entities a !! id with None => a | Some prev => emit id (set_available on prev) a end.

(** [strings.Trim] of quotes and spaces. *)
Definition trim_cut (c : ascii) : bool := Ascii.eqb c "034" || Ascii.eqb c " ".
Fixpoint trim_left (l : list ascii) : list ascii := match l with [] => [] | c :: r => if trim_cut c then trim_left r else l end.
Definition Trim (s : string) : string := string_of_list_ascii (reverse (trim_left (reverse (trim_left (list_ascii_of_string s))))).

(** [parsed] is the field [state] when the payload is JSON for the struct. *)
Definition onDeviceAvailability (topic : string) (parsed : option string) (payload : string) (a : App) : App :=
  let on := match parsed with
            | Some s => if is_empty s then String.eqb (Trim payload) "online" else String.eqb s "online"
            | None => String.eqb (Trim payload) "online"
            end in
  foldl (fun a l => mark on a (ls_EntityID l)) a (listeners (trim_suffix topic "/availability") a).

Definition onBridgeState (order : list string -> list string) (parsed : option string) (payload : string) (a : App) : App :=
  let state := match parsed with Some s => s | None => Trim payload end in
  if String.eqb state "online" then with_d (EmitDriverEvent "bridge_online" "" (a_d a)).1 a
  else
    let a := with_d (EmitDriverEvent "bridge_offline" "" (a_d a)).1 a in
    foldl (mark false) a (order (elements (dom (a_entities a)))).

(** A capability handler; [publish] is the error of [mq.Publish]. *)
Definition handler (publish : option string) (id capability : string) (args : string_map) (a : App) : App * result string (option Attributes) :=
  match CommandToPayload capability args with
  | Err e => (a, Err e)
  | Ok payload =>
      let topic := set_topic base (default "" (a_captured a !! id)) in
      match publish with
      | Some e => (a, Err ("publish to " +:+ topic +:+ ": " +:+ e))
      | None =>
          (mkApp (a_d a) (a_entities a) (a_devices a) (a_entityByTopic a) (a_friendlyByEnt a) (a_ieeeByEnt a) (a_subscribed a)
             (a_captured a) (a_published a ++ [(topic, payload)]), Ok None)
      end
  end.

(** A command that arrives on the stream [s]. *)
Definition on_command (s : nat) (publish : option string) (c : Command) (a : App) : App :=
  match OnCommand_lookup c (a_d a) with
  | Some r => with_d (Send s (DH_Result r) (a_d a)).1 a
  | None =>
      let '(a, h) := handler publish (cmd_entity c) (cmd_capability c) (cmd_args c) a in
      match Run_one s (HD_Command c h) (a_d a) with Done (d, _) => with_d d a | Panic _ => a end
  end.

End App.

(** ** Reconciliation, exactly *)

Lemma indexByIEEE_snoc l d : indexByIEEE (l ++ [d]) = <[dv_IEEEAddress d := d]> (indexByIEEE l).
Proof. unfold indexByIEEE. by rewrite foldl_app. Qed.

Lemma indexByIEEE_sound l i d : indexByIEEE l !! i = Some d -> d ∈ l /\ dv_IEEEAddress d = i.
Proof.
  induction l as [|x l IH] using rev_ind; [unfold indexByIEEE; cbn [foldl]; by rewrite lookup_empty|]. rewrite indexByIEEE_snoc, lookup_insert_Some.
  intros [[<- <-]|[_ [Hin <-]%IH]]; (split; [|done]); apply elem_of_app; [right; by apply list_elem_of_singleton|by left].
Qed.

Lemma indexByIEEE_complete l d : d ∈ l -> is_Some (indexByIEEE l !! dv_IEEEAddress d).
Proof.
  induction l as [|x l IH] using rev_ind; [by intros ?%not_elem_of_nil|]. rewrite indexByIEEE_snoc. intros [Hin| ->%list_elem_of_singleton]%elem_of_app.
  - destruct (decide (dv_IEEEAddress x = dv_IEEEAddress d)) as [->|Hne]; [by rewrite lookup_insert_eq|].
    rewrite lookup_insert_ne by done. by apply IH.
  - by rewrite lookup_insert_eq.
Qed.

(** The cache's devices are kept under their own addresses. *)
Definition keyed (m : gmap string Device) : Prop := forall i d, m !! i = Some d -> dv_IEEEAddress d = i.

Lemma indexByIEEE_keyed l : keyed (indexByIEEE l).
Proof. intros i d Hd. by apply indexByIEEE_sound in Hd as [_ ?]. Qed.

Lemma indexByIEEE_values (order : list (string * Device) -> list (string * Device)) m :
  (forall l, order l ≡ₚ l) -> keyed m -> indexByIEEE (snd <$> order (map_to_list m)) = m.
Proof.
  intros Ho Hm. apply map_eq. intros i. apply option_eq. intros d. split.
  - intros [Hin Hi]%indexByIEEE_sound. rewrite Ho in Hin. apply list_elem_of_fmap in Hin as ([j d'] & -> & Hj%elem_of_map_to_list).
    cbn in Hi |- *. rewrite (Hm _ _ Hj) in Hi. by subst j.
  - intros Hd. assert (Hin : d ∈ snd <$> order (map_to_list m)).
    { rewrite Ho. apply list_elem_of_fmap. exists (i, d). split; [done|by apply elem_of_map_to_list]. }
    apply indexByIEEE_complete in Hin as [d' Hd']. rewrite (Hm _ _ Hd) in Hd'. rewrite Hd'. f_equal.
    apply indexByIEEE_sound in Hd' as [Hin Hi]. rewrite Ho in Hin.
    apply list_elem_of_fmap in Hin as ([j x] & -> & Hj%elem_of_map_to_list). cbn in Hi |- *. rewrite (Hm _ _ Hj) in Hi. subst j. congruence.
Qed.

(** The order of the actions. *)
Definition action_rank (a : Action) : nat := match a with ActAdd _ _ _ _ _ => 0 | ActUnregister _ _ => 1 | ActUpdate _ _ _ => 2 end.
Definition action_order (a b : Action) : Prop :=
  (action_rank a < action_rank b)%nat \/ action_rank a = action_rank b /\ String.le (entityIDOf a) (entityIDOf b).

(** What [Reconcile] has to tell. *)
Definition required (prev next : list Device) (act : Action) : Prop :=
  (exists i d r, indexByIEEE next !! i = Some d /\ indexByIEEE prev !! i = None /\ r ∈ EntitiesFor d /\ act = add_of i d r) \/
  (exists i d r, indexByIEEE prev !! i = Some d /\ indexByIEEE next !! i = None /\ r ∈ EntitiesFor d /\ act = remove_of d r) \/
  (exists i d d' r, indexByIEEE prev !! i = Some d /\ indexByIEEE next !! i = Some d' /\ dv_FriendlyName d <> dv_FriendlyName d' /\
     r ∈ EntitiesFor d' /\ act = update_of r).

Lemma sorted_rank l k : Forall (fun a => action_rank a = k) l -> StronglySorted by_entity l -> StronglySorted action_order l.
Proof.
  intros Hk. induction 1 as [|a l Hs IH Ha]; [constructor|]. apply Forall_cons in Hk as [Hka Hk]. constructor; [by apply IH|].
  rewrite Forall_forall in Ha, Hk |- *. intros b Hb. right. split; [by rewrite Hka, (Hk b)|by apply Ha].
Qed.

Lemma sorted_actions l : StronglySorted by_entity (sortByEntityID l).
Proof.
  assert (Htot : Total by_entity) by (intros a b; apply (total String.le)).
  assert (Htr : Transitive by_entity) by (intros a b c; unfold by_entity; apply transitivity). by apply StronglySorted_merge_sort.
Qed.

Lemma sort_elem l a : a ∈ sortByEntityID l <-> a ∈ l.
Proof. unfold sortByEntityID. by rewrite merge_sort_Permutation. Qed.

Section Actions.
Context (order : list (string * Device) -> list (string * Device)) (Horder : forall l, order l ≡ₚ l).

Lemma ranged m i d : (i, d) ∈ order (map_to_list m) <-> m !! i = Some d.
Proof. rewrite Horder. apply elem_of_map_to_list. Qed.

Lemma Reconcile_parts prev next : exists adds removes updates,
  Reconcile order prev next = sortByEntityID adds ++ sortByEntityID removes ++ sortByEntityID updates /\
  (forall act, act ∈ adds <-> exists i d r, indexByIEEE next !! i = Some d /\ indexByIEEE prev !! i = None /\ r ∈ EntitiesFor d /\ act = add_of i d r) /\
  (forall act, act ∈ removes <-> exists i d r, indexByIEEE prev !! i = Some d /\ indexByIEEE next !! i = None /\ r ∈ EntitiesFor d /\ act = remove_of d r) /\
  (forall act, act ∈ updates <-> exists i d d' r, indexByIEEE prev !! i = Some d /\ indexByIEEE next !! i = Some d' /\
     dv_FriendlyName d <> dv_FriendlyName d' /\ r ∈ EntitiesFor d' /\ act = update_of r).
Proof.
  eexists _, _, _. split; [reflexivity|]. split_and!; intros act; rewrite list_elem_of_bind.
  - split.
    + intros ([i d] & Hact & Hin%ranged). cbn in Hact. destruct (indexByIEEE prev !! i) eqn:Hp; [by apply not_elem_of_nil in Hact|].
      apply list_elem_of_fmap in Hact as (r & -> & Hr). by exists i, d, r.
    + intros (i & d & r & Hn & Hp & Hr & ->). exists (i, d). split; [|by apply ranged]. cbn. rewrite Hp. by apply list_elem_of_fmap_2.
  - split.
    + intros ([i d] & Hact & Hin%ranged). cbn in Hact. destruct (indexByIEEE next !! i) eqn:Hp; [by apply not_elem_of_nil in Hact|].
      apply list_elem_of_fmap in Hact as (r & -> & Hr). by exists i, d, r.
    + intros (i & d & r & Hn & Hp & Hr & ->). exists (i, d). split; [|by apply ranged]. cbn. rewrite Hp. by apply list_elem_of_fmap_2.
  - split.
    + intros ([i d'] & Hact & Hin%ranged). cbn in Hact. destruct (indexByIEEE prev !! i) as [d|] eqn:Hp; [|by apply not_elem_of_nil in Hact].
      destruct (String.eqb_spec (dv_FriendlyName d) (dv_FriendlyName d')) as [|Hne]; [by apply not_elem_of_nil in Hact|].
      apply list_elem_of_fmap in Hact as (r & -> & Hr). by exists i, d, d', r.
    + intros (i & d & d' & r & Hp & Hn & Hne & Hr & ->). exists (i, d'). split; [|by apply ranged]. cbn. rewrite Hp.
      destruct (String.eqb_spec (dv_FriendlyName d) (dv_FriendlyName d')); [done|]. by apply list_elem_of_fmap_2.
Qed.

Lemma Reconcile_elem prev next act : act ∈ Reconcile order prev next <-> required prev next act.
Proof.
  destruct (Reconcile_parts prev next) as (adds & removes & updates & -> & Ha & Hr & Hu).
  rewrite !elem_of_app, !sort_elem, Ha, Hr, Hu. done.
Qed.

Lemma Reconcile_sorted prev next : StronglySorted action_order (Reconcile order prev next).
Proof.
  destruct (Reconcile_parts prev next) as (adds & removes & updates & -> & Ha & Hr & Hu).
  assert (Hrank : forall k l, (forall act, act ∈ l -> action_rank act = k) -> Forall (fun a => action_rank a = k) (sortByEntityID l)).
  { intros k l Hl. apply Forall_forall. intros a. rewrite sort_elem. apply Hl. }
  assert (H0 : Forall (fun a => action_rank a = 0%nat) (sortByEntityID adds)) by (apply Hrank; intros act (? & ? & ? & _ & _ & _ & ->)%Ha; done).
  assert (H1 : Forall (fun a => action_rank a = 1%nat) (sortByEntityID removes)) by (apply Hrank; intros act (? & ? & ? & _ & _ & _ & ->)%Hr; done).
  assert (H2 : Forall (fun a => action_rank a = 2%nat) (sortByEntityID updates)) by (apply Hrank; intros act (? & ? & ? & ? & _ & _ & _ & _ & ->)%Hu; done).
  rewrite Forall_forall in H0, H1, H2. apply StronglySorted_app. split_and!.
  - intros a b Hxa [Hb|Hb]%elem_of_app; left; rewrite (H0 a), ?(H1 b), ?(H2 b) by done; lia.
  - apply (sorted_rank _ 0); [by apply Forall_forall|apply sorted_actions].
  - apply StronglySorted_app. split_and!.
    + intros a b Hxa Hb. left. rewrite (H1 a), (H2 b) by done. lia.
    + apply (sorted_rank _ 1); [by apply Forall_forall|apply sorted_actions].
    + apply (sorted_rank _ 2); [by apply Forall_forall|apply sorted_actions].
Qed.

(** The difference of two device lists, exactly: [Reconcile] tells to add each
    entity of a device that is new, to remove each entity of a device that is gone
    and to update each entity of a device that has another name, and nothing else;
    first what is added, then what is removed, then what is updated, each in the
    order of the entity ids, whatever the order of Go's maps. *)
Theorem Reconcile_exact prev next :
  (forall act, act ∈ Reconcile order prev next <-> required prev next act) /\ StronglySorted action_order (Reconcile order prev next).
Proof.
  split; [apply Reconcile_elem|apply Reconcile_sorted].
Qed.

(** The same devices need nothing. *)
Lemma Reconcile_same prev next : indexByIEEE prev = indexByIEEE next -> Reconcile order prev next = [].
Proof.
  intros Heq. destruct (Reconcile order prev next) as [|act l] eqn:Hr; [done|]. exfalso.
  assert (Hin : required prev next act) by (apply Reconcile_elem; rewrite Hr; left).
  unfold required in Hin. rewrite Heq in Hin. destruct Hin as [(? & ? & ? & H1 & H2 & _)|[(? & ? & ? & H1 & H2 & _)|(? & d & d' & ? & H1 & H2 & Hne & _)]]; congruence.
Qed.

End Actions.

(** ** The driver over time *)

Inductive z2m_event :=
  | EvDevices (order : list (string * Device) -> list (string * Device)) (payload : option (list Device))
  | EvState (order : list (string * json) -> list (string * json)) (topic : string) (payload : option json)
  | EvAvailability (topic : string) (parsed : option string) (payload : string)
  | EvBridge (order : list string -> list string) (parsed : option string) (payload : string)
  | EvCommand (publish : option string) (c : Command)
  | EvStart (order : list (string * Attributes) -> list (string * Attributes))
  | EvShutdown.

(** Go ranges over every entry once. *)
Definition fair (e : z2m_event) : Prop :=
  match e with
  | EvDevices order _ => forall l, order l ≡ₚ l
  | EvState order _ _ => forall l, order l ≡ₚ l
  | EvBridge order _ _ => forall l, order l ≡ₚ l
  | EvStart order => forall l, order l ≡ₚ l
  | _ => True
  end.

Section Runs.
Context (base : string) (double : string -> option Z) (XYToRGB : Z -> Z -> Z * Z * Z) (s : nat).

(** A message on the topic of a device arrives when the topic is subscribed. *)
Definition z2m_step (a : App) (e : z2m_event) : App :=
  match e with
  | EvDevices order payload => onBridgeDevices base order payload a
  | EvState order topic payload => if bool_decide (topic ∈ a_subscribed a) then onDeviceState double XYToRGB order topic payload a else a
  | EvAvailability topic parsed payload =>
      if bool_decide (topic ∈ a_subscribed a) then onDeviceAvailability topic parsed payload a else a
  | EvBridge order parsed payload => onBridgeState order parsed payload a
  | EvCommand publish c => on_command base s publish c a
  | EvStart order => with_d (OnRunStart order s (a_d a)) a
  | EvShutdown => with_d (OnShutdown (a_d a)) a
  end.
Definition z2m_run (a : App) (evs : list z2m_event) : App := foldl z2m_step a evs.

(** *** The cache and the driver's states *)

(** The cache holds the state that the driver tracks. *)
Definition tracks (a : App) : Prop := forall id, a_entities a !! id = (d_entities (a_d a) !! id ≫= en_attrs).

Lemma Send_entities s' m d : d_entities (Send s' m d).1 = d_entities d.
Proof. unfold Send. by case_bool_decide. Qed.
Lemma send_current_entities m d : d_entities (send_current m d).1 = d_entities d.
Proof. unfold send_current. destruct (d_emitter d); [apply Send_entities|done]. Qed.
Lemma send_all_entities s' l d : d_entities (send_all s' l d) = d_entities d.
Proof. revert d. induction l as [|p l IH]; intros d; [done|]. unfold send_all in *. cbn [foldl]. by rewrite IH, Send_entities. Qed.

Lemma EmitState_entities id x d e :
  d_entities d !! id = Some e -> d_entities (EmitState id x d).1 = <[id := set_attrs (Some x) e]> (d_entities d).
Proof. intros He. unfold EmitState, EmitState_update. rewrite He. by rewrite send_current_entities. Qed.

Lemma Unregister_entities id d : d_entities (UnregisterEntity id d).1 = delete id (d_entities d).
Proof.
  unfold UnregisterEntity. destruct (d_entities d !! id) eqn:He; [by rewrite send_current_entities|]. cbn. by rewrite delete_id.
Qed.

(** The capability handlers change neither the entities nor their states. *)
Lemma on_capabilities_attrs id caps d id' : (d_entities (on_capabilities id caps d) !! id' ≫= en_attrs) = (d_entities d !! id' ≫= en_attrs).
Proof.
  unfold on_capabilities. revert d. induction caps as [|c caps IH]; intros d; [done|]. cbn [foldl]. rewrite IH. unfold OnCapability.
  destruct (d_entities d !! id) as [e|] eqn:He; [|done]. cbn. destruct (decide (id' = id)) as [->|Hne].
  - by rewrite lookup_insert_eq, He.
  - by rewrite lookup_insert_ne.
Qed.
Lemma on_capabilities_dom id caps d : dom (d_entities (on_capabilities id caps d)) = dom (d_entities d).
Proof.
  unfold on_capabilities. revert d. induction caps as [|c caps IH]; intros d; [done|]. cbn [foldl]. rewrite IH. unfold OnCapability.
  destruct (d_entities d !! id) as [e|] eqn:He; [|done]. cbn. rewrite dom_insert_lookup_L; [done|by eexists].
Qed.

(** What a state update does to the application: [emit] on known entities only. *)
Lemma emit_tracks id x a : tracks a -> is_Some (a_entities a !! id) -> tracks (emit id x a).
Proof.
  intros Ht [y Hy] id'. pose proof Hy as He. rewrite Ht in He. destruct (d_entities (a_d a) !! id) as [e|] eqn:Hd; [|done].
  cbn. rewrite (EmitState_entities _ _ _ e) by done. destruct (decide (id' = id)) as [->|Hne].
  - by rewrite !lookup_insert_eq.
  - rewrite !lookup_insert_ne by done. apply Ht.
Qed.

Lemma emit_dom id x a : tracks a -> is_Some (a_entities a !! id) -> dom (d_entities (a_d (emit id x a))) = dom (d_entities (a_d a)).
Proof.
  intros Ht [y Hy]. rewrite Ht in Hy. destruct (d_entities (a_d a) !! id) as [e|] eqn:Hd; [|done].
  cbn. rewrite (EmitState_entities _ _ _ e) by done. rewrite dom_insert_lookup_L; [done|by eexists].
Qed.

(** A command changes no state. *)
Lemma handler_none publish id capability args a :
  let '(a', h) := handler base publish id capability args a in
  (forall x, h <> Ok (Some x)) /\ a_d a' = a_d a /\ a_entities a' = a_entities a /\ a_devices a' = a_devices a /\
  a_entityByTopic a' = a_entityByTopic a /\ a_subscribed a' = a_subscribed a /\ a_captured a' = a_captured a.
Proof.
  unfold handler. destruct (CommandToPayload capability args); [|by split_and!]. by destruct publish; split_and!.
Qed.

(** The two fields of the application that a command touches. *)
Lemma on_command_frame publish c a :
  let a' := on_command base s publish c a in
  d_entities (a_d a') = d_entities (a_d a) /\ a_entities a' = a_entities a /\ a_devices a' = a_devices a /\
  a_entityByTopic a' = a_entityByTopic a /\ a_subscribed a' = a_subscribed a /\ a_captured a' = a_captured a.
Proof.
  unfold on_command. destruct (OnCommand_lookup c (a_d a)) as [r|] eqn:Hl; [cbn; by rewrite Send_entities|].
  pose proof (handler_none publish (cmd_entity c) (cmd_capability c) (cmd_args c) a) as Hh.
  destruct (handler base publish _ _ _ a) as [a1 h]. destruct Hh as (Hno & Hd & He & Hdv & Ht & Hsb & Hc).
  cbn [Run_one]. unfold OnCommand. rewrite Hd, Hl. unfold OnCommand_finish. destruct h as [[x|]|e]; [by destruct (Hno x)| |].
  - destruct (Send s _ (a_d a)) as [d' err] eqn:Hs. cbn. rewrite He, Hdv, Ht, Hsb, Hc. split_and!; [|done..].
    pose proof (Send_entities s (DH_Result (mkCommandResult (cmd_id c) true "")) (a_d a)) as H. by rewrite Hs in H.
  - destruct (Send s _ (a_d a)) as [d' err] eqn:Hs. cbn. rewrite He, Hdv, Ht, Hsb, Hc. split_and!; [|done..].
    pose proof (Send_entities s (DH_Result (mkCommandResult (cmd_id c) false e)) (a_d a)) as H. by rewrite Hs in H.
Qed.

(** *** Handlers that keep the entities *)

Lemma kit_run_app d l1 l2 :
  kit_run s d (l1 ++ l2) = match kit_run s d l1 with Done d' => kit_run s d' l2 | Panic msg => Panic msg end.
Proof. revert d. induction l1 as [|o l1 IH]; intros d; [done|]. cbn [app kit_run]. destruct (kit_step s d o); [apply IH|done]. Qed.

(** The operations of the driver kit by which one driver becomes the other. *)
Definition by_kit (d d' : Driver) : Prop := exists ops, Forall (fun o => adds o = false) ops /\ kit_run s d ops = Done d'.

Lemma by_kit_refl d : by_kit d d.
Proof. by exists []. Qed.
Lemma by_kit_trans d1 d2 d3 : by_kit d1 d2 -> by_kit d2 d3 -> by_kit d1 d3.
Proof.
  intros (l1 & H1 & Hr1) (l2 & H2 & Hr2). exists (l1 ++ l2). split; [by apply Forall_app|]. by rewrite kit_run_app, Hr1.
Qed.
Lemma by_kit_one d d' o : adds o = false -> kit_step s d o = Done d' -> by_kit d d'.
Proof. intros Ho Hs. exists [o]. split; [by repeat constructor|]. cbn. by rewrite Hs. Qed.

(** A property of states that the merge and the availability keep. *)
Context (P : Attributes -> Prop).
Context (P_merge : forall prev property v x, P prev -> MergeState double XYToRGB prev property v = Ok (Some x) -> P x).
Context (P_mark : forall on x, P x -> P (set_available on x)).

Definition cached (a : App) : Prop := forall id x, a_entities a !! id = Some x -> P x.

Record calm (a a' : App) : Prop := mkCalm {
  calm_tracks : tracks a';
  calm_dom : dom (d_entities (a_d a')) = dom (d_entities (a_d a));
  calm_devices : a_devices a' = a_devices a;
  calm_topics : a_entityByTopic a' = a_entityByTopic a /\ a_subscribed a' = a_subscribed a /\ a_captured a' = a_captured a;
  calm_kit : by_kit (a_d a) (a_d a');
  calm_cached : cached a -> cached a';
}.

Lemma calm_refl a : tracks a -> calm a a.
Proof. intros Ht. split; auto using by_kit_refl. Qed.
Lemma calm_trans a b c : calm a b -> calm b c -> calm a c.
Proof.
  intros [] []. split; try done; [congruence|congruence|by intuition congruence|by eapply by_kit_trans|by auto].
Qed.

Lemma calm_foldl {B} (f : App -> B -> App) l a :
  (forall a b, tracks a -> calm a (f a b)) -> tracks a -> calm a (foldl f a l).
Proof.
  intros Hf. revert a. induction l as [|b l IH]; intros a Ht; [by apply calm_refl|]. cbn [foldl].
  pose proof (Hf a b Ht) as Hc. eapply calm_trans; [exact Hc|]. apply IH. apply Hc.
Qed.

Lemma emit_calm id x a : tracks a -> is_Some (a_entities a !! id) -> (cached a -> P x) -> calm a (emit id x a).
Proof.
  intros Ht Hs HP. split; [by apply emit_tracks|by apply emit_dom|done|done| |].
  - by apply (by_kit_one _ _ (OpEmit id x)).
  - intros Hc id' y. cbn. intros [[<- <-]|[_ Hy]]%lookup_insert_Some; [by apply HP|by eapply Hc].
Qed.

Lemma with_d_calm d a : tracks a -> d_entities d = d_entities (a_d a) -> by_kit (a_d a) d -> calm a (with_d d a).
Proof.
  intros Ht Hd Hk. split; [|by cbn; rewrite Hd|done|done|done|done]. intros id. cbn. rewrite Hd. apply Ht.
Qed.

Lemma merge_one_P prev next kv x :
  P prev -> (forall y, next = Some y -> P y) -> merge_one double XYToRGB prev next kv = Some x -> P x.
Proof.
  intros Hp Hn. unfold merge_one. destruct (MergeState _ _ _ _ _) as [[y|]|e] eqn:Hm; [|apply Hn|apply Hn].
  intros [= <-]. eapply P_merge; [|exact Hm]. destruct next; [by apply Hn|done].
Qed.

Lemma merge_payload_P order prev property sp x : P prev -> merge_payload double XYToRGB order prev property sp = Some x -> P x.
Proof.
  intros Hp. unfold merge_payload. destruct (is_empty property).
  - assert (Hfold : forall l next, (forall y, next = Some y -> P y) -> forall y, foldl (merge_one double XYToRGB prev) next l = Some y -> P y).
    { induction l as [|kv l IH]; intros next Hn; [exact Hn|]. cbn [foldl]. apply IH. intros y. by apply merge_one_P. }
    by apply Hfold.
  - destruct (snd <$> list_find _ sp); [|done]. by apply merge_one_P.
Qed.

Lemma applyStateUpdate_calm order sp a l : tracks a -> calm a (applyStateUpdate double XYToRGB order sp a l).
Proof.
  intros Ht. unfold applyStateUpdate. destruct (a_entities a !! ls_EntityID l) as [prev|] eqn:Hp; [|by apply calm_refl].
  destruct (merge_payload _ _ _ _ _ _) as [x|] eqn:Hm; [|by apply calm_refl]. apply emit_calm; [done|by eexists|].
  intros Hc. eapply merge_payload_P; [by eapply Hc|exact Hm].
Qed.

Lemma mark_calm on a id : tracks a -> calm a (mark on a id).
Proof.
  intros Ht. unfold mark. destruct (a_entities a !! id) as [prev|] eqn:Hp; [|by apply calm_refl].
  apply emit_calm; [done|by eexists|]. intros Hc. apply P_mark. by eapply Hc.
Qed.

Lemma driver_event_calm kind detail a : tracks a -> calm a (with_d (EmitDriverEvent kind detail (a_d a)).1 a).
Proof.
  intros Ht. apply with_d_calm; [done|apply send_current_entities|]. by apply (by_kit_one _ _ (OpEvent kind detail)).
Qed.

Lemma command_calm publish c a : tracks a -> calm a (on_command base s publish c a).
Proof.
  intros Ht. pose proof (on_command_frame publish c a) as (Hd & He & Hdv & Htp & Hsb & Hcp). split; [| |done|done| |].
  - intros id. rewrite He, Hd. apply Ht.
  - by rewrite Hd.
  - unfold on_command. destruct (OnCommand_lookup c (a_d a)) as [r|] eqn:Hl.
    + apply (by_kit_one _ _ (OpHost (HD_Command c (Ok None)))); [done|]. cbn [kit_step Run_one]. unfold OnCommand. rewrite Hl.
      cbn. by destruct (Send s (DH_Result r) (a_d a)).
    + pose proof (handler_none publish (cmd_entity c) (cmd_capability c) (cmd_args c) a) as Hh.
      destruct (handler base publish _ _ _ a) as [a1 h]. destruct Hh as (Hno & Hd1 & _).
      destruct (Run_one s (HD_Command c h) (a_d a1)) as [[d' err]|msg] eqn:Hr; [|rewrite Hd1; apply by_kit_refl].
      apply (by_kit_one _ _ (OpHost (HD_Command c h))); [done|]. cbn [kit_step]. by rewrite <- Hd1, Hr.
  - intros Hc id x. rewrite He. apply Hc.
Qed.

(** Every event but a list of devices and the life of the stream. *)
Definition keeps_entities (e : z2m_event) : bool :=
  match e with EvState _ _ _ | EvAvailability _ _ _ | EvBridge _ _ _ | EvCommand _ _ => true | _ => false end.

Lemma step_calm a e : tracks a -> keeps_entities e = true -> calm a (z2m_step a e).
Proof.
  intros Ht He. destruct e as [| order topic payload|topic parsed payload|order parsed payload|publish c| |]; try done; cbn [z2m_step].
  - case_bool_decide; [|by apply calm_refl]. unfold onDeviceState. destruct (payload ≫= as_struct); [|by apply calm_refl].
    apply calm_foldl; [|done]. intros. by apply applyStateUpdate_calm.
  - case_bool_decide; [|by apply calm_refl]. apply calm_foldl; [|done]. intros. by apply mark_calm.
  - unfold onBridgeState. destruct (String.eqb _ "online"); [by apply driver_event_calm|].
    pose proof (driver_event_calm "bridge_offline" "" a Ht) as Hc. eapply calm_trans; [exact Hc|].
    apply calm_foldl; [|apply Hc]. intros. by apply mark_calm.
  - by apply command_calm.
Qed.

(** *** Lists of devices *)

Lemma applyAdd_spec id spec ieee friendly property a :
  tracks a ->
  tracks (applyAdd base id spec ieee friendly property a) /\
  dom (d_entities (a_d (applyAdd base id spec ieee friendly property a))) = {[id]} ∪ dom (d_entities (a_d a)) /\
  ((forall x, sp_InitialState spec = Some x -> P x) -> cached a -> cached (applyAdd base id spec ieee friendly property a)).
Proof.
  intros Ht. unfold applyAdd, AddEntity. destruct (d_entities (a_d a) !! id) as [e|] eqn:He.
  { split_and!; [done| |done]. assert (id ∈ dom (d_entities (a_d a))) by (apply elem_of_dom; by eexists). set_solver. }
  set (d1 := with_entities_ _ (a_d a)). split_and!.
  - intros id'. cbn [a_entities a_d]. transitivity (d_entities d1 !! id' ≫= en_attrs); [|destruct (String.eqb _ _); [by rewrite on_capabilities_attrs|done]].
    unfold d1. cbn. pose proof (Ht id) as Hid. rewrite He in Hid. cbn in Hid. destruct (decide (id' = id)) as [->|Hne].
    + rewrite lookup_insert_eq. cbn. destruct (sp_InitialState spec); [by rewrite lookup_insert_eq|done].
    + rewrite lookup_insert_ne by done. destruct (sp_InitialState spec); [rewrite lookup_insert_ne by done|]; apply Ht.
  - cbn [a_d]. transitivity (dom (d_entities d1)); [destruct (String.eqb _ _); [by rewrite on_capabilities_dom|done]|]. unfold d1. cbn. by rewrite dom_insert_L.
  - intros HP Hc id' x. cbn. destruct (sp_InitialState spec) as [y|]; [|apply Hc].
    intros [[<- <-]|[_ Hx]]%lookup_insert_Some; [by apply HP|by eapply Hc].
Qed.

Lemma applyRemove_spec id friendly a :
  tracks a ->
  tracks (applyRemove base id friendly a) /\
  dom (d_entities (a_d (applyRemove base id friendly a))) = dom (d_entities (a_d a)) ∖ {[id]} /\
  (cached a -> cached (applyRemove base id friendly a)).
Proof.
  intros Ht. unfold applyRemove, tracks, cached. cbn [a_entities a_d]. rewrite Unregister_entities. split_and!.
  - intros id'. destruct (decide (id' = id)) as [->|Hne]; [by rewrite !lookup_delete_eq|]. rewrite !lookup_delete_ne by done. apply Ht.
  - by rewrite dom_delete_L.
  - intros Hc id' x [_ Hx]%lookup_delete_Some. by eapply Hc.
Qed.

Lemma applyUpdate_spec id a :
  tracks a ->
  tracks (applyUpdate id a) /\ dom (d_entities (a_d (applyUpdate id a))) = dom (d_entities (a_d a)) /\ (cached a -> cached (applyUpdate id a)).
Proof.
  intros Ht. unfold applyUpdate. destruct (a_entities a !! id) as [prev|] eqn:Hp; [|done].
  assert (Hem : tracks (emit id prev a) /\ dom (d_entities (a_d (emit id prev a))) = dom (d_entities (a_d a)))
    by (split; [apply emit_tracks|apply emit_dom]; [done|by eexists|done|by eexists]). destruct Hem as [Hem Hd]. split_and!; [|exact Hd|done].
  intros id'. cbn. specialize (Hem id'). cbn in Hem. rewrite <- Hem. destruct (decide (id' = id)) as [->|Hne]; [by rewrite lookup_insert_eq|by rewrite lookup_insert_ne].
Qed.

Definition added (act : Action) : gset string := match act with ActAdd id _ _ _ _ => {[id]} | _ => ∅ end.
Definition removed (act : Action) : gset string := match act with ActUnregister id _ => {[id]} | _ => ∅ end.
Definition initial_ok (act : Action) : Prop := match act with ActAdd _ spec _ _ _ => forall x, sp_InitialState spec = Some x -> P x | _ => True end.

Lemma action_spec a act :
  tracks a ->
  tracks (apply_action base a act) /\
  dom (d_entities (a_d (apply_action base a act))) = (dom (d_entities (a_d a)) ∪ added act) ∖ removed act /\
  (initial_ok act -> cached a -> cached (apply_action base a act)).
Proof.
  intros Ht. destruct act as [id spec ieee friendly property|id friendly|id friendly property]; cbn [apply_action added removed initial_ok].
  - destruct (applyAdd_spec id spec ieee friendly property a Ht) as (H1 & H2 & H3). split_and!; [done| |done]. rewrite H2. clear. set_solver.
  - destruct (applyRemove_spec id friendly a Ht) as (H1 & H2 & H3). split_and!; [done| |by intros _]. rewrite H2. clear. set_solver.
  - destruct (applyUpdate_spec id a Ht) as (H1 & H2 & H3). split_and!; [done| |by intros _]. rewrite H2. clear. set_solver.
Qed.

Lemma actions_spec l a :
  tracks a -> Forall initial_ok l ->
  tracks (foldl (apply_action base) a l) /\ (cached a -> cached (foldl (apply_action base) a l)).
Proof.
  intros Ht Hl. revert a Ht. induction Hl as [|act l Ha Hl IH]; intros a Ht; [done|]. cbn [foldl].
  destruct (action_spec a act Ht) as (H1 & _ & H3). destruct (IH _ H1) as [H4 H5]. split; [done|]. intros Hc. by apply H5, H3.
Qed.

(** When nothing is removed before it is added, the entities are those that were
    there or were added and are not removed. *)
Lemma actions_dom l a :
  tracks a -> (forall l1 l2 act id, l = l1 ++ act :: l2 -> id ∈ removed act -> Forall (fun b => id ∉ added b) l2) ->
  forall id, id ∈ dom (d_entities (a_d (foldl (apply_action base) a l))) <->
    (id ∈ dom (d_entities (a_d a)) \/ exists act, act ∈ l /\ id ∈ added act) /\ ~ exists act, act ∈ l /\ id ∈ removed act.
Proof.
  intros Ht Hord. revert a Ht Hord. induction l as [|act l IH]; intros a Ht Hord id; cbn [foldl].
  - split; [intros Hid; split; [by left|by intros (? & ?%not_elem_of_nil & _)]|]. by intros [[?|(? & ?%not_elem_of_nil & _)] _].
  - destruct (action_spec a act Ht) as (H1 & H2 & _). rewrite IH; [|done|].
    2: { intros l1 l2 b i -> Hi. by apply (Hord (act :: l1) l2 b). }
    rewrite H2. setoid_rewrite elem_of_cons. split.
    + intros [[[[?|?]%elem_of_union Hn]%elem_of_difference|(b & ? & ?)] Hno].
      * split; [by left|]. intros (b & [->|?] & ?); [done|]. apply Hno. by exists b.
      * split; [right; by exists act; auto|]. intros (b & [->|?] & ?); [done|]. apply Hno. by exists b.
      * split; [right; exists b; by auto|]. intros (b' & [->|?] & Hr); [|apply Hno; by exists b'].
        pose proof (Hord [] l act id eq_refl Hr) as Hf. rewrite Forall_forall in Hf. by eapply Hf.
    + intros [Hin Hno]. split; [|intros (b & ? & ?); apply Hno; exists b; by auto].
      assert (Hnr : id ∉ removed act) by (intros ?; apply Hno; exists act; by auto).
      destruct Hin as [?|(b & [->|?] & ?)]; [left|left|right; by exists b]; apply elem_of_difference; (split; [|done]); apply elem_of_union; auto.
Qed.

Context (P_init : forall dev r x, r ∈ EntitiesFor dev -> sp_InitialState (re_Spec r) = Some x -> P x).

Lemma required_initial prev next act : required prev next act -> initial_ok act.
Proof.
  intros [(i & d & r & _ & _ & Hr & ->)|[(i & d & r & _ & _ & _ & ->)|(i & d & d' & r & _ & _ & _ & _ & ->)]]; [|done..].
  intros x Hx. by eapply P_init.
Qed.

(** The actions for a list. *)
Definition plan (order : list (string * Device) -> list (string * Device)) (devices : list Device) (a : App) : list Action :=
  Reconcile order (snd <$> order (map_to_list (a_devices a))) devices.

Lemma plan_elem order devices a act :
  (forall l, order l ≡ₚ l) -> keyed (a_devices a) ->
  act ∈ plan order devices a <-> exists prev, indexByIEEE prev = a_devices a /\ required prev devices act.
Proof.
  intros Ho Hk. unfold plan. rewrite (Reconcile_elem _ Ho). split.
  - intros Hr. eexists. split; [by apply indexByIEEE_values|exact Hr].
  - intros (prev & Hp & Hr). unfold required in *. by rewrite (indexByIEEE_values _ _ Ho Hk), <- Hp.
Qed.

(** Every event keeps cache and driver together. *)
Lemma step_inv a e :
  fair e -> tracks a -> keyed (a_devices a) ->
  let a' := z2m_step a e in tracks a' /\ keyed (a_devices a') /\ (cached a -> cached a').
Proof.
  intros He Ht Hk. destruct (keeps_entities e) eqn:Hq.
  { destruct (step_calm a e Ht Hq) as [H1 _ H3 _ _ H6]. cbv zeta. rewrite H3. done. }
  destruct e as [order payload| | | | |order|]; try done; cbn [z2m_step] in *.
  - unfold onBridgeDevices. destruct payload as [devices|]; [|done]. fold (plan order devices a).
    assert (Hok : Forall initial_ok (plan order devices a)).
    { apply Forall_forall. intros act (prev & _ & Hr)%plan_elem; [|done|done]. by eapply required_initial. }
    destruct (actions_spec _ a Ht Hok) as [H1 H2]. split_and!; [exact H1|apply indexByIEEE_keyed|exact H2].
  - split_and!; [|done|done]. intros id. unfold OnRunStart. cbn. rewrite send_all_entities. apply Ht.
Qed.

Lemma run_inv evs a :
  Forall fair evs -> tracks a -> keyed (a_devices a) ->
  tracks (z2m_run a evs) /\ keyed (a_devices (z2m_run a evs)) /\ (cached a -> cached (z2m_run a evs)).
Proof.
  intros Hf. revert a. induction Hf as [|e evs He Hf IH]; intros a Ht Hk; [done|]. unfold z2m_run. cbn [foldl].
  destruct (step_inv a e He Ht Hk) as (H1 & H2 & H3). destruct (IH _ H1 H2) as (H4 & H5 & H6). split_and!; [done|done|by auto].
Qed.

Lemma new_inv name version : tracks (newApp name version) /\ keyed (a_devices (newApp name version)) /\ cached (newApp name version).
Proof.
  split_and!; [intros id; cbn; by rewrite !lookup_empty|intros i d; cbn; by rewrite lookup_empty|intros id x; cbn; by rewrite lookup_empty].
Qed.

(** *** Which entities there are *)

(** The entities of a device, by its address; different devices have different ones. *)
Context (ids : string -> gset string) (ids_disjoint : forall i j id, id ∈ ids i -> id ∈ ids j -> i = j).

Definition described (dev : Device) : Prop := forall id, id ∈ ids (dv_IEEEAddress dev) <-> id ∈ re_EntityID <$> EntitiesFor dev.
Definition all_described (e : z2m_event) : Prop := match e with EvDevices _ (Some l) => Forall described l | _ => True end.

Record registered_inv (a : App) : Prop := mkRegistered {
  ri_tracks : tracks a;
  ri_keyed : keyed (a_devices a);
  ri_described : forall i d, a_devices a !! i = Some d -> described d;
  ri_dom : forall id, id ∈ dom (d_entities (a_d a)) <-> exists i, i ∈ dom (a_devices a) /\ id ∈ ids i;
}.

Lemma plan_sets order devices a :
  (forall l, order l ≡ₚ l) -> registered_inv a -> Forall described devices ->
  (forall id, (exists act, act ∈ plan order devices a /\ id ∈ added act) <->
     exists i, i ∈ dom (indexByIEEE devices) /\ i ∉ dom (a_devices a) /\ id ∈ ids i) /\
  (forall id, (exists act, act ∈ plan order devices a /\ id ∈ removed act) <->
     exists i, i ∈ dom (a_devices a) /\ i ∉ dom (indexByIEEE devices) /\ id ∈ ids i).
Proof.
  intros Ho [Ht Hk Hd _] Hdev. rewrite Forall_forall in Hdev. pose proof (fun act => plan_elem order devices a act Ho Hk) as Hpl.
  split; intros id; setoid_rewrite Hpl; clear Hpl.
  - split.
    + intros (act & (prev & Hp & Hr) & Hid). destruct Hr as [(i & d & r & Hn & Hno & Hr & ->)|[(? & ? & ? & _ & _ & _ & ->)|(? & ? & ? & ? & _ & _ & _ & _ & ->)]];
        [|by apply not_elem_of_empty in Hid..]. cbn in Hid. apply elem_of_singleton in Hid as ->. exists i. rewrite Hp in Hno.
      destruct (indexByIEEE_sound _ _ _ Hn) as [Hin <-]. split_and!; [by eapply elem_of_dom_2|by apply not_elem_of_dom|].
      apply (Hdev _ Hin). by apply list_elem_of_fmap_2.
    + intros (i & [d Hn]%elem_of_dom & Hno%not_elem_of_dom & Hid). destruct (indexByIEEE_sound _ _ _ Hn) as [Hin <-].
      apply (Hdev _ Hin), list_elem_of_fmap in Hid as (r & -> & Hr). exists (add_of (dv_IEEEAddress d) d r). split; [|cbn; by apply elem_of_singleton].
      eexists. split; [by apply (indexByIEEE_values order)|]. left. exists (dv_IEEEAddress d), d, r. by rewrite indexByIEEE_values.
  - split.
    + intros (act & (prev & Hp & Hr) & Hid). destruct Hr as [(? & ? & ? & _ & _ & _ & ->)|[(i & d & r & Hn & Hno & Hr & ->)|(? & ? & ? & ? & _ & _ & _ & _ & ->)]];
        [by apply not_elem_of_empty in Hid| |by apply not_elem_of_empty in Hid]. cbn in Hid. apply elem_of_singleton in Hid as ->. exists i. rewrite Hp in Hn.
      split_and!; [by eapply elem_of_dom_2|by apply not_elem_of_dom|]. rewrite <- (Hk _ _ Hn). apply (Hd _ _ Hn). by apply list_elem_of_fmap_2.
    + intros (i & [d Hn]%elem_of_dom & Hno%not_elem_of_dom & Hid). rewrite <- (Hk _ _ Hn) in Hid.
      apply (Hd _ _ Hn), list_elem_of_fmap in Hid as (r & -> & Hr). exists (remove_of d r). split; [|cbn; by apply elem_of_singleton].
      eexists. split; [by apply (indexByIEEE_values order)|]. right. left. exists i, d, r. by rewrite indexByIEEE_values.
Qed.

(** Nothing is added after it is removed: [Reconcile] adds first. *)
Lemma plan_order order devices a l1 l2 act id :
  (forall l, order l ≡ₚ l) -> plan order devices a = l1 ++ act :: l2 -> id ∈ removed act -> Forall (fun b => id ∉ added b) l2.
Proof.
  intros Ho Hl Hid. destruct act as [| |]; [by apply not_elem_of_empty in Hid| |by apply not_elem_of_empty in Hid].
  apply Forall_forall. intros b Hb Hadd. destruct b as [id' sp ie fr pr| |]; [|by apply not_elem_of_empty in Hadd..].
  pose proof (Reconcile_sorted order Ho (snd <$> order (map_to_list (a_devices a))) devices) as Hs. unfold plan in Hl. rewrite Hl in Hs.
  apply StronglySorted_app in Hs as (_ & _ & Hs). apply StronglySorted_inv in Hs as [_ Hs]. rewrite Forall_forall in Hs.
  destruct (Hs _ Hb) as [Hr|[Hr _]]; cbn in Hr; lia.
Qed.

Lemma devices_step order devices a :
  (forall l, order l ≡ₚ l) -> registered_inv a -> Forall described devices -> registered_inv (onBridgeDevices base order (Some devices) a).
Proof.
  intros Ho Hri Hdev. pose proof Hri as [Ht Hk Hd Hdom]. destruct (plan_sets order devices a Ho Hri Hdev) as [Hadd Hrem].
  destruct (step_inv a (EvDevices order (Some devices)) Ho Ht Hk) as (H1 & H2 & _). split; [exact H1|exact H2| |].
  - intros i d Hi. cbn in Hi. apply indexByIEEE_sound in Hi as [Hi _]. rewrite Forall_forall in Hdev. by apply Hdev.
  - intros id. cbn [onBridgeDevices a_d a_devices]. fold (plan order devices a).
    rewrite actions_dom; [|done|by intros l1 l2 act i Hl; eapply plan_order]. rewrite Hadd, Hrem, Hdom. split.
    + intros [[(i & Hi & Hid)|(i & Hi & _ & Hid)] Hno]; [|by exists i]. exists i. split; [|done].
      destruct (decide (i ∈ dom (indexByIEEE devices))); [done|]. destruct Hno. by exists i.
    + intros (i & Hi & Hid). split.
      * destruct (decide (i ∈ dom (a_devices a))); [left|right]; by exists i.
      * intros (j & Hj & Hnj & Hjd). by rewrite (ids_disjoint i j id Hid Hjd) in Hi.
Qed.

Lemma registered_step a e : fair e -> all_described e -> registered_inv a -> registered_inv (z2m_step a e).
Proof.
  intros He Hd Hri. pose proof Hri as [Ht Hk Hde Hdom]. destruct (keeps_entities e) eqn:Hq.
  { destruct (step_calm a e Ht Hq) as [H1 H2 H3 _ _ _]. split; [done|by rewrite H3|by rewrite H3|by rewrite H2, H3]. }
  destruct e as [order payload| | | | |order|]; try done.
  - destruct payload as [devices|]; [|done]. by apply devices_step.
  - destruct (step_inv a (EvStart order) He Ht Hk) as (H1 & H2 & _). split; [done|done|done|].
    intros id. unfold z2m_step, OnRunStart. cbn. rewrite send_all_entities. apply Hdom.
Qed.

(** The last list of devices that was understood. *)
Definition last_devices (evs : list z2m_event) : list Device :=
  foldl (fun l e => match e with EvDevices _ (Some l') => l' | _ => l end) [] evs.

Lemma devices_last name version evs : Forall fair evs -> a_devices (z2m_run (newApp name version) evs) = indexByIEEE (last_devices evs).
Proof.
  intros Hf. induction evs as [|e evs IH] using rev_ind; [done|]. apply Forall_app in Hf as [Hf [He _]%Forall_cons].
  specialize (IH Hf). unfold z2m_run, last_devices in *. rewrite !foldl_app. cbn [foldl].
  destruct (new_inv name version) as (H1 & H2 & _). destruct (run_inv evs _ Hf H1 H2) as (Ht & Hk & _). unfold z2m_run in *.
  set (a := foldl z2m_step _ _) in *. destruct (keeps_entities e) eqn:Hq.
  { destruct (step_calm a e Ht Hq) as [_ _ H3 _ _ _]. rewrite H3, IH. by destruct e. }
  by destruct e as [? [devices|]| | | | | |].
Qed.

Lemma registered_run evs a : Forall fair evs -> Forall all_described evs -> registered_inv a -> registered_inv (z2m_run a evs).
Proof.
  intros Hf. revert a. induction Hf as [|e evs He Hf IH]; intros a Hd Hri; [done|]. apply Forall_cons in Hd as [Hd1 Hd].
  apply IH; [done|]. by apply registered_step.
Qed.

Lemma new_registered name version : registered_inv (newApp name version).
Proof.
  destruct (new_inv name version) as (H1 & H2 & _). split; [done|done|intros i d; cbn; by rewrite lookup_empty|].
  intros id. cbn. rewrite !dom_empty_L. split; [by intros ?%not_elem_of_empty|by intros (i & ?%not_elem_of_empty & _)].
Qed.

Lemma last_described evs : Forall all_described evs -> Forall described (last_devices evs).
Proof.
  induction evs as [|e evs IH] using rev_ind; [by constructor|]. intros [Hf [He _]%Forall_cons]%Forall_app.
  unfold last_devices in *. rewrite foldl_app. cbn [foldl]. destruct e as [? [devices|]| | | | | |]; try exact (IH Hf). exact He.
Qed.

Lemma entities_of_last name version evs id :
  Forall fair evs -> Forall all_described evs ->
  id ∈ dom (d_entities (a_d (z2m_run (newApp name version) evs))) <->
    exists dev, dev ∈ last_devices evs /\ id ∈ re_EntityID <$> EntitiesFor dev.
Proof.
  intros Hf Hd. destruct (registered_run evs _ Hf Hd (new_registered name version)) as [_ _ _ Hdom]. rewrite Hdom.
  rewrite (devices_last name version evs Hf). pose proof (last_described evs Hd) as Hl. rewrite Forall_forall in Hl. split.
  - intros (i & [d Hi]%elem_of_dom & Hid). destruct (indexByIEEE_sound _ _ _ Hi) as [Hin <-]. exists d. split; [done|]. by apply (Hl _ Hin).
  - intros (dev & Hin & Hid). exists (dv_IEEEAddress dev). split; [by apply elem_of_dom, indexByIEEE_complete|]. by apply (Hl _ Hin).
Qed.

End Runs.

(** *** The claims about runs *)

Section Claims.
Context (base : string) (double : string -> option Z) (XYToRGB : Z -> Z -> Z * Z * Z) (s : nat) (name version : string).
#[local] Abbreviation run evs := (z2m_run base double XYToRGB s (newApp name version) evs).

(** The driver has exactly the entities of the devices the bridge listed last:
    after any sequence of device lists, state messages, outages, commands and
    reconnects the registered entities are those of the last list that could be
    parsed, renamed devices included, provided that the entities of a device do not
    change and that different devices have different entities. *)
Theorem devices_registered (ids : string -> gset string) evs id :
  (forall i j x, x ∈ ids i -> x ∈ ids j -> i = j) -> Forall fair evs -> Forall (all_described ids) evs ->
  id ∈ dom (d_entities (a_d (run evs))) <-> exists dev, dev ∈ last_devices evs /\ id ∈ re_EntityID <$> EntitiesFor dev.
Proof. intros Hids Hf Hd. by apply (entities_of_last base double XYToRGB s (fun _ => True)) with (ids := ids). Qed.

Lemma tracks_run evs : Forall fair evs -> tracks (run evs).
Proof.
  intros Hf. destruct (new_inv (fun _ => True) name version) as (H1 & H2 & _).
  apply (run_inv base double XYToRGB s (fun _ => True) ltac:(done) ltac:(done) ltac:(done) evs _ Hf H1 H2).
Qed.

(** The two copies of the state agree: after any sequence of events the state
    the Zigbee driver caches for an entity is the one the driver kit tracks for it,
    and it caches states for no other entity. *)
Theorem cache_tracks_driver evs id :
  Forall fair evs -> a_entities (run evs) !! id = (d_entities (a_d (run evs)) !! id ≫= en_attrs).
Proof. intros Hf. by apply tracks_run. Qed.

Lemma calm_run evs a :
  tracks a -> Forall (fun e => keeps_entities e = true) evs -> by_kit s (a_d a) (a_d (z2m_run base double XYToRGB s a evs)).
Proof.
  intros Ht Hk. revert a Ht. induction Hk as [|e evs He Hk IH]; intros a Ht; [apply by_kit_refl|]. unfold z2m_run. cbn [foldl].
  destruct (step_calm base double XYToRGB s (fun _ => True) ltac:(done) ltac:(done) a e Ht He) as [H1 _ _ _ H5 _].
  eapply by_kit_trans; [exact H5|by apply IH].
Qed.

(** One at a time: when the start of the stream and the handlers do not overlap, and the
    daemon's hook is given the messages in order, the daemon's state of every cached entity
    is the cached one, whatever happened before. The handlers of the driver kit run
    beside those of MQTT; [DriverKitRuns.overlap_diverges] is what an overlap can do. *)
Theorem z2m_daemon_shows now instanceID m0 before order after id x :
  Forall fair before -> (forall l, order l ≡ₚ l) -> s ∉ d_closed (a_d (run before)) ->
  Forall (fun e => keeps_entities e = true) after -> Forall fair after ->
  a_entities (run (before ++ EvStart order :: after)) !! id = Some x ->
  StAttributes <$> daemon_view now instanceID m0 (sent s (a_d (run (before ++ EvStart order :: after)))) !! id = Some (Some x).
Proof.
  intros Hb Ho Hs Hk Ha Hx.
  assert (Hall : Forall fair (before ++ EvStart order :: after)) by (apply Forall_app; split; [done|by constructor]).
  pose proof (tracks_run _ Hall) as Ht. rewrite Ht in Hx. unfold z2m_run in *. rewrite foldl_app in *. cbn [foldl] in *.
  set (a0 := foldl _ _ before) in *. set (a1 := z2m_step _ _ _ _ _ (EvStart order)) in *. set (a2 := foldl _ a1 after) in *.
  assert (Ht1 : tracks a1).
  { pose proof (tracks_run (before ++ [EvStart order])) as H. unfold z2m_run in H. rewrite foldl_app in H. apply H.
    apply Forall_app. split; [done|by repeat constructor]. }
  destruct (calm_run after a1 Ht1 Hk) as (ops & Hops & Hrun). change (z2m_run _ _ _ _ a1 after) with a2 in Hrun.
  destruct (d_entities (a_d a2) !! id) as [e|] eqn:He; [|done].
  eapply (is_shown now instanceID m0 s (a_d a2)); [|exact He|exact Hx].
  eapply in_step_run; [exact Hops| |exact Hrun]. by apply run_start_in_step.
Qed.

End Claims.

(** ** What states can be cached *)

(** A light in the ranges of its fields, in one colour mode at a time. *)
Definition valid_state (x : Attributes) : Prop :=
  match attr_kind x with
  | Some (Attributes_Light _ brightness color_temp color_rgb) =>
      0 <= brightness < 2 ^ 32 /\ 0 <= color_temp < 2 ^ 32 /\ 0 <= color_rgb < 2 ^ 24 /\ (color_temp = 0 \/ color_rgb = 0)
  | Some (Attributes_NumericSensor _ _) | Some (Attributes_BinarySensor _) => True
  | _ => False
  end.

Definition is_byte (n : Z) : Prop := 0 <= n < 256.

(** Disjoint bits add. *)
Lemma lor_shiftl a b k : 0 <= k -> 0 <= b < 2 ^ k -> Z.lor (Z.shiftl a k) b = a * 2 ^ k + b.
Proof.
  intros Hk Hb. assert (Hl : Z.land (Z.shiftl a k) b = 0).
  { apply Z.bits_inj'. intros n Hn. rewrite Z.land_spec, Z.bits_0. destruct (Z.lt_ge_cases n k).
    - by rewrite Z.shiftl_spec_low.
    - rewrite <- (Z.mod_small b (2 ^ k)) by done. rewrite Z.mod_pow2_bits_high by lia. by rewrite andb_false_r. }
  rewrite <- Z.lxor_lor, <- Z.add_nocarry_lxor by done. by rewrite Z.shiftl_mul_pow2.
Qed.

Lemma PackRGB_arith r g b : is_byte r -> is_byte g -> is_byte b -> PackRGB (r, g, b) = r * 65536 + g * 256 + b.
Proof.
  unfold is_byte, PackRGB. intros Hr Hg Hb.
  assert (Z.lor (Z.shiftl r 16) (Z.shiftl g 8) = Z.shiftl (r * 256 + g) 8) as ->.
  { rewrite lor_shiftl by (rewrite ?Z.shiftl_mul_pow2; lia). rewrite !Z.shiftl_mul_pow2; lia. }
  rewrite lor_shiftl by lia. lia.
Qed.

(** A packed colour keeps its three bytes and stays below [2^24]. *)
Theorem PackRGB_roundtrip r g b :
  is_byte r -> is_byte g -> is_byte b -> UnpackRGB (PackRGB (r, g, b)) = (r, g, b) /\ 0 <= PackRGB (r, g, b) < 2 ^ 24.
Proof.
  intros Hr Hg Hb. rewrite PackRGB_arith by done. unfold UnpackRGB, is_byte in *. split; [|lia].
  rewrite !Z.shiftr_div_pow2 by lia. change 255 with (Z.ones 8). rewrite !Z.land_ones by lia. repeat f_equal.
  - replace (r * 65536 + g * 256 + b) with (r * 2 ^ 16 + (g * 256 + b)) by lia. rewrite Z.div_add_l by lia.
    rewrite Z.div_small by lia. rewrite Z.mod_small; lia.
  - replace (r * 65536 + g * 256 + b) with ((r * 256 + g) * 2 ^ 8 + b) by lia. rewrite Z.div_add_l by lia.
    rewrite Z.div_small, Z.add_0_r by lia. change (2 ^ 8) with 256. rewrite Z.add_comm, Z.mod_add by lia. apply Z.mod_small. lia.
  - change (2 ^ 8) with 256. replace (r * 65536 + g * 256 + b) with (b + (r * 256 + g) * 256) by lia. rewrite Z.mod_add by lia. apply Z.mod_small. lia.
Qed.

Lemma dec_int_range lo hi v n : dec_int lo hi v = Some n -> lo <= n < hi.
Proof.
  unfold dec_int. destruct v; try done. destruct (ParseInt lit) as [m|]; [|done]. cbn. destruct (lo <=? m) eqn:H1; [|done].
  destruct (m <? hi) eqn:H2; [|done]. intros [= ->]. lia.
Qed.

Lemma into_uint32 v n : into 0 dec_uint32 v = Some n -> 0 <= n < 2 ^ 32.
Proof. destruct v; try (intros [= <-]; lia); apply dec_int_range. Qed.

Section Valid.
Context (double : string -> option Z) (XYToRGB : Z -> Z -> Z * Z * Z).
Context (XYToRGB_bytes : forall x y, let '(r, g, b) := XYToRGB x y in is_byte r /\ is_byte g /\ is_byte b).

Lemma valid_merge prev property v x :
  valid_state prev -> MergeState double XYToRGB prev property v = Ok (Some x) -> valid_state x.
Proof.
  unfold valid_state at 1, MergeState. destruct (attr_kind prev) as [[on br ct rgb|on|unit n|on]|]; try done.
  - intros (Hb & Ht & Hr & Hm). unfold mergeLight.
    repeat (match goal with |- context [if String.eqb property ?k then _ else _] => destruct (String.eqb property k) end).
    + destruct (into "" dec_string v); [|done]. intros [= <-]. cbn. done.
    + destruct (into 0 dec_uint32 v) as [n|] eqn:Hn; [|done]. intros [= <-]. apply into_uint32 in Hn. done.
    + destruct (into 0 dec_uint32 v) as [n|] eqn:Hn; [|done]. intros [= <-]. apply into_uint32 in Hn. cbn. split_and!; try lia; auto.
    + destruct (into (0, 0) (dec_xy double) v) as [[cx cy]|]; [|done]. intros [= <-]. cbn. pose proof (XYToRGB_bytes cx cy) as Hbytes.
      destruct (XYToRGB cx cy) as [[r g] b]. destruct Hbytes as (H1 & H2 & H3). rewrite PackRGB_arith by done.
      unfold is_byte in *. split_and!; try lia; auto.
    + done.
  - intros _. destruct (into 0 (dec_double double) v); [|done]. by intros [= <-].
  - intros _. unfold mergeBinarySensor. destruct (into false dec_bool v); [by intros [= <-]|].
    destruct (into "" dec_string v); [|done]. by intros [= <-].
Qed.

(** Induction over an exposes tree. *)
Lemma Expose_deep (Q : Expose -> Prop) :
  (forall type name property unit access features, Forall Q features -> Q (mkExpose type name property unit access features)) -> forall e, Q e.
Proof.
  intros H. fix IH 1. intros [type name property unit access features]. apply H.
  induction features as [|f features IHf]; constructor; [apply IH|exact IHf].
Qed.

Lemma mapExpose_valid dev e r x : r ∈ mapExpose dev e -> sp_InitialState (re_Spec r) = Some x -> valid_state x.
Proof.
  revert e. refine (Expose_deep _ _). intros type name property unit access features IH. cbn [mapExpose].
  assert (Hlight : forall l, r ∈ [lightEntity dev l] -> sp_InitialState (re_Spec r) = Some x -> valid_state x).
  { intros l ->%list_elem_of_singleton. cbn. intros [= <-]. cbn. lia. }
  repeat (case_match; try by intros ?%not_elem_of_nil); [apply Hlight| | |].
  - clear -IH. induction IH as [|f features Hf _ IHf]; [by intros ?%not_elem_of_nil|]. intros [Hr|Hr]%elem_of_app; [by apply Hf|by apply IHf].
  - intros ->%list_elem_of_singleton. by intros [= <-].
  - intros ->%list_elem_of_singleton. by intros [= <-].
Qed.

(** Every state the driver can cache is a valid one: a light's brightness and
    colour temperature fit 32 bits, its colour 24, and it is never in both colour
    modes; sensors stay sensors. Whatever the messages contain. *)
Theorem cached_states_valid base s name version evs id x :
  Forall fair evs -> a_entities (z2m_run base double XYToRGB s (newApp name version) evs) !! id = Some x -> valid_state x.
Proof.
  intros Hf Hx. destruct (new_inv valid_state name version) as (H1 & H2 & H3).
  eapply (run_inv base double XYToRGB s valid_state valid_merge); [done| |exact Hf|exact H1|exact H2|exact H3|exact Hx].
  intros dev r y Hr. apply list_elem_of_bind in Hr as (e & Hr & _). by apply mapExpose_valid with dev e.
Qed.

End Valid.

(** ** The order of a payload *)

Section PayloadOrder.
Context (double : string -> option Z) (XYToRGB : Z -> Z -> Z * Z * Z).

Definition is_light (x : Attributes) : Prop := match attr_kind x with Some (Attributes_Light _ _ _ _) => True | _ => False end.

(** Two properties that set different fields. *)
Definition independent (p q : string) : Prop := p <> q /\ ~ (p = "color" /\ q = "color_temp") /\ ~ (p = "color_temp" /\ q = "color").

Lemma merge_one_light prev next kv :
  is_light prev -> (forall y, next = Some y -> is_light y) -> forall y, merge_one double XYToRGB prev next kv = Some y -> is_light y.
Proof.
  intros Hp Hn y. apply (merge_one_P double XYToRGB is_light); [|done|done]. clear. intros prev property v x. unfold is_light at 1, MergeState.
  destruct (attr_kind prev) as [[on br ct rgb| | |]|]; try done. intros _.
  destruct (mergeLight _ _ _ _ _ _ _ _) as [[k|]|e] eqn:Hk; [|done|done]. intros [= <-]. cbn. unfold mergeLight in Hk. by repeat case_match; simplify_eq.
Qed.

Lemma merge_one_commute prev next a b :
  is_light prev -> (forall y, next = Some y -> is_light y) -> independent a.1 b.1 ->
  merge_one double XYToRGB prev (merge_one double XYToRGB prev next a) b = merge_one double XYToRGB prev (merge_one double XYToRGB prev next b) a.
Proof.
  intros Hp Hn (Hne & H1 & H2). destruct a as [p v], b as [q w]. cbn [fst] in *.
  assert (Hl : is_light (default prev next)) by (destruct next; [by apply Hn|done]).
  unfold merge_one at 2 4. unfold MergeState. cbn [fst snd]. unfold is_light in Hl.
  destruct (default prev next) as [[[on br ct rgb| | |]|] av] eqn:Hd; try done. cbn [attr_kind available] in *.
  unfold mergeLight.
  destruct (String.eqb_spec p "state") as [->|Hp1]; [|destruct (String.eqb_spec p "brightness") as [->|Hp2]; [|
    destruct (String.eqb_spec p "color_temp") as [->|Hp3]; [|destruct (String.eqb_spec p "color") as [->|Hp4]]]];
  (destruct (String.eqb_spec q "state") as [->|Hq1]; [|destruct (String.eqb_spec q "brightness") as [->|Hq2]; [|
    destruct (String.eqb_spec q "color_temp") as [->|Hq3]; [|destruct (String.eqb_spec q "color") as [->|Hq4]]]]);
  try (by destruct Hne); try (by destruct H1); try (by destruct H2);
  repeat match goal with |- context [match into ?z ?d ?x with _ => _ end] => destruct (into z d x) as [?|] eqn:? end;
  repeat match goal with H : Z * Z |- _ => destruct H end;
  unfold merge_one; rewrite ?Hd; cbn [default from_option fst snd]; unfold MergeState, mergeLight; cbn [attr_kind available];
  repeat match goal with H : into _ _ _ = _ |- _ => rewrite H; clear H end; cbn;
  repeat match goal with H : ?p <> ?k |- context [String.eqb ?p ?k] => rewrite (proj2 (String.eqb_neq p k) H) end; try done.
Qed.

(** Distinct properties, and not both colour modes. *)
Definition one_mode (l : list (string * json)) : Prop :=
  NoDup (fst <$> l) /\ ~ ("color" ∈ fst <$> l /\ "color_temp" ∈ fst <$> l).

Lemma fold_order prev l l' next :
  l ≡ₚ l' -> is_light prev -> (forall y, next = Some y -> is_light y) -> one_mode l ->
  foldl (merge_one double XYToRGB prev) next l = foldl (merge_one double XYToRGB prev) next l'.
Proof.
  intros Hperm Hp. revert next. induction Hperm as [|a l l' Hl IH|a b l|l1 l2 l3 H12 IH12 H23 IH23]; intros next Hn Hm; cbn [foldl].
  - done.
  - apply IH; [by apply merge_one_light|]. destruct Hm as [Hnd Hc]. cbn in Hnd. apply NoDup_cons in Hnd as [_ Hnd]. split; [done|].
    intros [H1 H2]. apply Hc. cbn. split; by right.
  - f_equal. apply merge_one_commute; [done|done|]. destruct Hm as [Hnd Hc]. cbn in Hnd, Hc. apply NoDup_cons in Hnd as [Hnab _]. split_and!.
    + intros Heq. apply Hnab. rewrite Heq. left.
    + intros [Hb Ha]. apply Hc. rewrite Ha, Hb. split; [left|right; left].
    + intros [Hb Ha]. apply Hc. rewrite Ha, Hb. split; [right; left|left].
  - rewrite IH12 by done. apply IH23; [done|]. destruct Hm as [Hnd Hc]. split; [by rewrite <- H12|by rewrite <- H12].
Qed.

(** A state message of one colour mode has one meaning: when its properties are
    distinct and do not name both colour modes, a light ends in the same state in
    whatever order Go ranges over the message. *)
Theorem light_payload_order_irrelevant order1 order2 prev sp :
  (forall l, order1 l ≡ₚ l) -> (forall l, order2 l ≡ₚ l) -> is_light prev -> one_mode sp ->
  merge_payload double XYToRGB order1 prev "" sp = merge_payload double XYToRGB order2 prev "" sp.
Proof.
  intros H1 H2 Hp Hm. unfold merge_payload. cbn [is_empty]. change (String.eqb "" "") with true. cbv iota.
  apply fold_order; [by rewrite H1, H2|done|done|]. destruct Hm as [Hnd Hc]. split; by rewrite H1.
Qed.

(** A state message that names both colour modes, as colour lights send, is
    decided by the order of a Go map: one order leaves the light in colour mode and
    the other in temperature mode. *)
Theorem light_payload_order_matters prev on br ct rgb v w n x y :
  attr_kind prev = Some (Attributes_Light on br ct rgb) -> into 0 dec_uint32 v = Some n -> into (0, 0) (dec_xy double) w = Some (x, y) ->
  let sp := [("color_temp", v); ("color", w)] in
  merge_payload double XYToRGB (fun l => l) prev "" sp = Some (mkAttributes (Some (Attributes_Light on br 0 (PackRGB (XYToRGB x y)))) (available prev)) /\
  merge_payload double XYToRGB reverse prev "" sp = Some (mkAttributes (Some (Attributes_Light on br n 0)) (available prev)).
Proof.
  intros Hk Hv Hw. cbn zeta. unfold merge_payload. change (is_empty "") with true. cbv iota. change (reverse [("color_temp", v); ("color", w)]) with [("color", w); ("color_temp", v)].
  cbn [foldl]. unfold merge_one, MergeState. cbn [default from_option]. rewrite Hk. unfold mergeLight. cbn [fst snd].
  rewrite !(eq_refl : String.eqb "color_temp" "state" = false), !(eq_refl : String.eqb "color_temp" "brightness" = false),
    !(eq_refl : String.eqb "color" "state" = false), !(eq_refl : String.eqb "color" "brightness" = false),
    !(eq_refl : String.eqb "color" "color_temp" = false), !(eq_refl : String.eqb "color_temp" "color_temp" = true),
    !(eq_refl : String.eqb "color" "color" = true). rewrite Hv, Hw. done.
Qed.

End PayloadOrder.

(** ** Where the driver loses track *)

Section Lost.
Context (base : string) (double : string -> option Z) (XYToRGB : Z -> Z -> Z * Z * Z) (s : nat).

Definition is_update (act : Action) : bool := match act with ActUpdate _ _ _ => true | _ => false end.

Lemma updates_frame l a :
  Forall (fun act => is_update act = true) l ->
  let a' := foldl (apply_action base) a l in
  a_entities a' = a_entities a /\ a_entityByTopic a' = a_entityByTopic a /\ a_subscribed a' = a_subscribed a /\ a_captured a' = a_captured a.
Proof.
  intros Hl. revert a. induction Hl as [|act l Ha Hl IH]; intros a; [done|]. cbn [foldl] in *. destruct act as [| |id fr pr]; try done. cbn [apply_action].
  cbn zeta in IH |- *. destruct (IH (applyUpdate id a)) as (-> & -> & -> & ->). unfold applyUpdate. by destruct (a_entities a !! id).
Qed.

(** A renamed device is lost: a list with the same devices under whatever new
    names changes no subscription, so that state messages under a new name never
    arrive, and commands are still published under the name of the first day. *)
Theorem rename_keeps_old_topics order devices a :
  (forall l, order l ≡ₚ l) -> keyed (a_devices a) -> dom (indexByIEEE devices) = dom (a_devices a) ->
  let a' := onBridgeDevices base order (Some devices) a in
  a_entityByTopic a' = a_entityByTopic a /\ a_subscribed a' = a_subscribed a /\
  (forall topic o payload, topic ∉ a_subscribed a -> z2m_step base double XYToRGB s a' (EvState o topic payload) = a') /\
  (forall id capability args payload, CommandToPayload capability args = Ok payload ->
     a_published (handler base None id capability args a').1 = a_published a' ++ [(set_topic base (default "" (a_captured a !! id)), payload)]).
Proof.
  intros Ho Hk Hdom. set (l := Reconcile order (snd <$> order (map_to_list (a_devices a))) devices).
  assert (Hl : Forall (fun act => is_update act = true) l).
  { apply Forall_forall. intros act. unfold l. rewrite (Reconcile_elem order Ho). unfold required. rewrite (indexByIEEE_values _ _ Ho Hk).
    intros [(i & d & r & Hn & Hno & _)|[(i & d & r & Hn & Hno & _)|(? & ? & ? & ? & _ & _ & _ & _ & ->)]]; [| |done]; exfalso.
    - apply not_elem_of_dom in Hno. rewrite <- Hdom in Hno. by apply Hno, elem_of_dom_2 with d.
    - apply not_elem_of_dom in Hno. rewrite Hdom in Hno. by apply Hno, elem_of_dom_2 with d. }
  destruct (updates_frame l a Hl) as (_ & Ht & Hs & Hc). fold l in Ht, Hs, Hc. cbn [onBridgeDevices a_entityByTopic a_subscribed]. fold l.
  split_and!; [done|done| |].
  - intros topic o payload Hno. cbn [z2m_step a_subscribed]. rewrite Hs. by rewrite bool_decide_false.
  - intros id capability args payload Hp. unfold handler. rewrite Hp. cbn [a_captured a_published fst]. by rewrite Hc.
Qed.

Lemma mark_false_fold l a id x :
  a_entities (foldl (mark false) a l) !! id = Some x -> available x = false \/ (id ∉ l /\ a_entities a !! id = Some x).
Proof.
  revert a. induction l as [|i l IH]; intros a; [right; split; [by apply not_elem_of_nil|done]|]. cbn [foldl].
  intros [?|[Hno Hx]]%IH; [by left|]. unfold mark in Hx. destruct (a_entities a !! i) as [prev|] eqn:Hp.
  - cbn in Hx. apply lookup_insert_Some in Hx as [[<- <-]|[Hne Hx]]; [by left|]. right. split; [|done]. by intros [->|?]%elem_of_cons.
  - destruct (decide (id = i)) as [->|Hne]; [congruence|]. right. split; [|done]. by intros [->|?]%elem_of_cons.
Qed.

Lemma mark_devices on l a : a_devices (foldl (mark on) a l) = a_devices a.
Proof. revert a. induction l as [|i l IH]; intros a; [done|]. cbn [foldl]. rewrite IH. unfold mark. by destruct (a_entities a !! i). Qed.

(** An outage of the bridge outlasts itself: after the bridge was offline and is
    online again, and has sent the list of devices it had sent before, every cached
    state is still marked unavailable. *)
Theorem outage_sticks o1 o2 order devices payload1 payload2 a id x :
  (forall l, o1 l ≡ₚ l) -> (forall l, order l ≡ₚ l) -> keyed (a_devices a) -> indexByIEEE devices = a_devices a ->
  let offline := onBridgeState o1 (Some "offline") payload1 a in
  let online := onBridgeState o2 (Some "online") payload2 offline in
  a_entities (onBridgeDevices base order (Some devices) online) !! id = Some x -> available x = false.
Proof.
  intros Ho1 Ho Hk Hdev. cbn zeta. unfold onBridgeState. change (String.eqb "online" "online") with true. cbv iota.
  change (String.eqb "offline" "online") with false. cbv iota.
  set (a1 := with_d _ a). set (a2 := foldl _ a1 _). unfold onBridgeDevices. cbn [a_devices with_d].
  assert (Hd2 : a_devices a2 = a_devices a) by (unfold a2; by rewrite mark_devices).
  rewrite Hd2, (Reconcile_same order Ho) by (by rewrite (indexByIEEE_values _ _ Ho Hk)). cbn [foldl a_entities with_d].
  intros [?|[Hno Hx]]%mark_false_fold; [done|]. exfalso. apply Hno. rewrite Ho1. apply elem_of_elements. by eapply elem_of_dom_2.
Qed.

End Lost.

(** ** What is published *)

Definition upper_hex (c : ascii) : bool := let n := N_of_ascii c in ((N.leb 48 n && N.leb n 57) || (N.leb 65 n && N.leb n 70))%N.
Fixpoint all_upper_hex (s : string) : bool := match s with EmptyString => true | String c s => upper_hex c && all_upper_hex s end.

(** The payloads that Zigbee2MQTT documents for lights. *)
Inductive well_formed : json -> Prop :=
  | wf_state on : well_formed (JObject [("state", JString (if on : bool then "ON" else "OFF"))])
  | wf_brightness n : 0 <= n <= 255 -> well_formed (JObject [("brightness", JNumber (pretty n))])
  | wf_color_temp n : 153 <= n <= 500 -> well_formed (JObject [("color_temp", JNumber (pretty n))])
  | wf_color t : String.length t = 6%nat -> all_upper_hex t = true -> well_formed (JObject [("color", JObject [("hex", JString ("#" +:+ t))])]).

Lemma upper_hex_byte c : is_hex c = true -> upper_hex (upper_byte c) = true.
Proof. destruct c as [[] [] [] [] [] [] [] []]; by vm_compute. Qed.

Lemma ToUpper_hex t : all_hex t = true -> all_upper_hex (ToUpper t) = true.
Proof. induction t as [|c t IH]; [done|]. cbn. intros [Hc Ht]%andb_prop. by rewrite upper_hex_byte, IH. Qed.

Lemma length_ToUpper t : String.length (ToUpper t) = String.length t.
Proof. induction t as [|c t IH]; [done|]. cbn. by rewrite IH. Qed.

Lemma hex_digit_upper d : 0 <= d < 16 -> upper_hex (hex_digit d) = true.
Proof.
  intros Hd. assert (Hall : forallb (fun d => upper_hex (hex_digit d)) (seqZ 0 16) = true) by reflexivity.
  rewrite forallb_forall in Hall. apply Hall, list_elem_of_In, elem_of_seqZ. lia.
Qed.

Lemma hex_byte_upper n t : 0 <= n <= 255 -> all_upper_hex (hex_byte n +:+ t) = all_upper_hex t.
Proof.
  intros Hn. unfold hex_byte. rewrite !str_app_cons. cbn [all_upper_hex]. rewrite !hex_digit_upper; [done|apply Z.mod_pos_bound; lia|].
  split; [apply Z.div_pos; lia|apply Z.div_lt_upper_bound; lia].
Qed.

Lemma parse_in_range lo hi t n : parse_in lo hi t = Some n -> lo <= n <= hi.
Proof.
  unfold parse_in. destruct (ParseInt t) as [m|]; [|done]. cbn. destruct (m <? lo) eqn:H1; [done|]. destruct (hi <? m) eqn:H2; [done|].
  intros [= <-]. lia.
Qed.

Lemma parseByte_range t name n : parseByte t name = Ok n -> 0 <= n <= 255.
Proof. unfold parseByte. destruct (parse_in 0 255 t) as [m|] eqn:H; [|done]. intros [= <-]. by eapply parse_in_range. Qed.

Lemma parseColorToHex_form args hex : parseColorToHex args = Ok hex -> exists t, hex = "#" +:+ t /\ String.length t = 6%nat /\ all_upper_hex t = true.
Proof.
  unfold parseColorToHex. destruct (args !! "hex") as [h|].
  - destruct (String.length _ =? 6)%nat eqn:Hl; [|done]. cbn [negb]. destruct (all_hex _) eqn:Hh; [|done]. cbn [negb].
    intros [= <-]. eexists. split; [done|]. rewrite length_ToUpper. apply Nat.eqb_eq in Hl. split; [done|by apply ToUpper_hex].
  - destruct (args !! "r") as [rs|], (args !! "g") as [gs|], (args !! "b") as [bs|]; try done.
    intros (r & Hr & Hrest)%result_bind_Ok. apply result_bind_Ok in Hrest as (g & Hg & Hrest). apply result_bind_Ok in Hrest as (b & Hb & [= <-]).
    apply parseByte_range in Hr, Hg, Hb. exists (hex_byte r +:+ hex_byte g +:+ hex_byte b +:+ ""). rewrite str_app_nil_r. split; [done|]. split; [done|].
    rewrite <- (str_app_nil_r (hex_byte b)), !hex_byte_upper by done. done.
Qed.

(** Commands are checked before they leave: whatever the arguments, what is
    published is one of the payloads of a light, with the brightness in 0 to 255, the
    colour temperature in 153 to 500 mireds and the colour as six hexadecimal digits;
    every other command is refused and nothing is published. *)
Theorem published_commands_valid base publish id capability args a :
  let '(a', r) := handler base publish id capability args a in
  match r with
  | Ok _ => publish = None /\ exists payload, CommandToPayload capability args = Ok payload /\ well_formed payload /\
      a_published a' = a_published a ++ [(set_topic base (default "" (a_captured a !! id)), payload)]
  | Err _ => a' = a
  end.
Proof.
  unfold handler. destruct (CommandToPayload capability args) as [payload|e] eqn:Hc; [|done]. destruct publish; [done|].
  split; [done|]. exists payload. split_and!; [done| |done]. unfold CommandToPayload in Hc. repeat case_match; try done; simplify_eq.
  - apply (wf_state true).
  - apply (wf_state false).
  - apply wf_brightness. by eapply parse_in_range.
  - apply wf_color_temp. by eapply parse_in_range.
  - match goal with H : parseColorToHex _ = Ok _ |- _ => apply parseColorToHex_form in H as (t & -> & Hl & Hu) end. by apply wf_color.
Qed.

(** ** Examples *)

Module Z2mDemo.

Definition double : string -> option Z := ParseInt.
Definition red (_ _ : Z) : Z * Z * Z := (255, 0, 0).
Definition same {A} (l : list A) : list A := l.

Definition lamp (friendly : string) : Device :=
  mkDevice "0x00158d0000000001" friendly
    [mkExpose "light" "" "" "" 0 [mkExpose "numeric" "brightness" "brightness" "" 7 []; mkExpose "composite" "color_xy" "color" "" 7 []];
     mkExpose "numeric" "linkquality" "linkquality" "lqi" 1 []].
Definition sensor : Device :=
  mkDevice "0x00158d0000000002" "hall" [mkExpose "numeric" "temperature" "temperature" "C" 1 []; mkExpose "binary" "occupancy" "occupancy" "" 1 []].

Example lamp_entities :
  (fun r => (re_EntityID r, sp_Capabilities (re_Spec r))) <$> EntitiesFor (lamp "kitchen") =
  [("light.z2m_00000001", ["turn_on"; "turn_off"; "set_brightness"; "set_color"])].
Proof. vm_compute. reflexivity. Qed.
Example sensor_entities :
  re_EntityID <$> EntitiesFor sensor = ["numeric_sensor.z2m_00000002_temperature"; "binary_sensor.z2m_00000002_occupancy"].
Proof. vm_compute. reflexivity. Qed.

Definition ids (i : string) : gset string :=
  if String.eqb i "0x00158d0000000001" then {["light.z2m_00000001"]}
  else if String.eqb i "0x00158d0000000002" then {["numeric_sensor.z2m_00000002_temperature"; "binary_sensor.z2m_00000002_occupancy"]}
  else ∅.

Lemma ids_disjoint i j x : x ∈ ids i -> x ∈ ids j -> i = j.
Proof.
  unfold ids.
  destruct (String.eqb_spec i "0x00158d0000000001") as [->|]; [|destruct (String.eqb_spec i "0x00158d0000000002") as [->|]; [|by intros ?%not_elem_of_empty]];
  (destruct (String.eqb_spec j "0x00158d0000000001") as [->|]; [|destruct (String.eqb_spec j "0x00158d0000000002") as [->|]; [|by intros _ ?%not_elem_of_empty]]);
  [done| | |done].
  - intros ->%elem_of_singleton [?%elem_of_singleton|?%elem_of_singleton]%elem_of_union; done.
  - intros [ ->%elem_of_singleton | ->%elem_of_singleton]%elem_of_union ?%elem_of_singleton; done.
Qed.

Lemma lamp_described friendly : described ids (lamp friendly).
Proof.
  intros x. change (ids (dv_IEEEAddress (lamp friendly))) with ({["light.z2m_00000001"]} : gset string).
  change (re_EntityID <$> EntitiesFor (lamp friendly)) with ["light.z2m_00000001"]. by rewrite elem_of_singleton, list_elem_of_singleton.
Qed.
Lemma sensor_described : described ids sensor.
Proof.
  intros x. change (ids (dv_IEEEAddress sensor)) with ({["numeric_sensor.z2m_00000002_temperature"; "binary_sensor.z2m_00000002_occupancy"]} : gset string).
  rewrite sensor_entities. rewrite elem_of_union, !elem_of_singleton, elem_of_cons, list_elem_of_singleton. done.
Qed.

(** The lamp is turned on, then renamed, and the sensor leaves. *)
Definition history : list z2m_event :=
  [EvDevices same (Some [lamp "kitchen"; sensor]); EvState same "z2m/kitchen" (Some (JObject [("state", JString "ON"); ("brightness", JNumber "200")]));
   EvDevices same None; EvDevices same (Some [lamp "cellar"])].

Lemma history_fair : Forall fair history.
Proof. unfold history. rewrite !Forall_cons. by split_and!; [intros l; apply Permutation_refl..|]. Qed.

Lemma history_described : Forall (all_described ids) history.
Proof.
  unfold history. rewrite !Forall_cons. cbn [all_described]. rewrite !Forall_cons. split_and!; try done; auto using lamp_described, sensor_described.
Qed.
Definition after : App := z2m_run "z2m" double red 0 (newApp "driver.z2m" "1") history.

Lemma Reconcile_exact_witness :
  Reconcile same [lamp "kitchen"; sensor] [lamp "cellar"] =
    [ActUnregister "binary_sensor.z2m_00000002_occupancy" "hall"; ActUnregister "numeric_sensor.z2m_00000002_temperature" "hall";
     ActUpdate "light.z2m_00000001" "cellar" ""] /\
  StronglySorted action_order (Reconcile same [lamp "kitchen"; sensor] [lamp "cellar"]).
Proof.
  split; [vm_compute; reflexivity|]. apply (Reconcile_exact same (fun l => Permutation_refl l) [lamp "kitchen"; sensor] [lamp "cellar"]).
Defined.

Lemma devices_registered_witness :
  "light.z2m_00000001" ∈ dom (d_entities (a_d after)) <-> exists dev, dev ∈ [lamp "cellar"] /\ "light.z2m_00000001" ∈ re_EntityID <$> EntitiesFor dev.
Proof.
  exact (devices_registered "z2m" double red 0 "driver.z2m" "1" ids history _ ids_disjoint history_fair history_described).
Defined.

Lemma cache_tracks_driver_witness :
  a_entities after !! "light.z2m_00000001" = (d_entities (a_d after) !! "light.z2m_00000001" ≫= en_attrs).
Proof. exact (cache_tracks_driver "z2m" double red 0 "driver.z2m" "1" history "light.z2m_00000001" history_fair). Defined.

(** The state the lamp reached before it was renamed; the daemon learns it when it
    opens a stream, and then that the bridge is offline. *)
Definition lit : Attributes := mkAttributes (Some (Attributes_Light true 200 0 0)) true.
Definition outage : list z2m_event := [EvBridge same (Some "offline") ""].
Definition dark : Attributes := set_available false lit.

Lemma z2m_daemon_shows_witness :
  let a := z2m_run "z2m" double red 0 (newApp "driver.z2m" "1") (history ++ EvStart same :: outage) in
  StAttributes <$> daemon_view 5 "z2m-1" ∅ (sent 0 (a_d a)) !! "light.z2m_00000001" = Some (Some dark).
Proof.
  refine (z2m_daemon_shows "z2m" double red 0 "driver.z2m" "1" 5 "z2m-1" ∅ history same outage "light.z2m_00000001" dark
            history_fair (fun l => Permutation_refl l) _ _ _ _);
    [by vm_compute|by apply Forall_singleton|apply Forall_singleton; intros l; apply Permutation_refl|by vm_compute].
Defined.

Lemma PackRGB_roundtrip_witness : UnpackRGB (PackRGB (255, 136, 1)) = (255, 136, 1) /\ 0 <= PackRGB (255, 136, 1) < 2 ^ 24.
Proof. apply (PackRGB_roundtrip 255 136 1); unfold is_byte; lia. Defined.

Lemma red_bytes x y : let '(r, g, b) := red x y in is_byte r /\ is_byte g /\ is_byte b.
Proof. cbn. unfold is_byte. lia. Qed.
Lemma cached_states_valid_witness : a_entities after !! "light.z2m_00000001" = Some lit /\ valid_state lit.
Proof.
  split; [by vm_compute|]. refine (cached_states_valid double red red_bytes "z2m" 0 "driver.z2m" "1" history "light.z2m_00000001" lit history_fair _).
  by vm_compute.
Defined.

(** A message of a colour lamp, in both modes. *)
Definition both : list (string * json) := [("color_temp", JNumber "300"); ("color", JObject [("x", JNumber "1"); ("y", JNumber "0")])].
Lemma light_payload_order_matters_witness :
  merge_payload double red same lit "" both <> merge_payload double red reverse lit "" both.
Proof.
  pose proof (light_payload_order_matters double red lit true 200 0 0 (JNumber "300") (JObject [("x", JNumber "1"); ("y", JNumber "0")]) 300 1 0
                eq_refl eq_refl eq_refl) as [H1 H2]. cbv zeta in H1, H2. unfold both, same in *. rewrite H1, H2. by vm_compute.
Defined.

Lemma light_payload_order_irrelevant_witness :
  merge_payload double red same lit "" [("color_temp", JNumber "300"); ("state", JString "OFF")] =
  merge_payload double red reverse lit "" [("color_temp", JNumber "300"); ("state", JString "OFF")].
Proof.
  apply (light_payload_order_irrelevant double red same reverse lit); [done|intros l; apply reverse_Permutation|done|].
  split; [by repeat constructor; set_solver|]. by intros [[?|[?|?%not_elem_of_nil]%elem_of_cons]%elem_of_cons _].
Defined.

(** After the rename the messages of the lamp are no longer received. *)
Definition day_one : App := z2m_run "z2m" double red 0 (newApp "driver.z2m" "1") [EvDevices same (Some [lamp "kitchen"])].
Lemma rename_keeps_old_topics_witness :
  let a' := onBridgeDevices "z2m" same (Some [lamp "cellar"]) day_one in
  z2m_step "z2m" double red 0 a' (EvState same "z2m/cellar" (Some (JObject [("state", JString "ON")]))) = a' /\
  a_published (handler "z2m" None "light.z2m_00000001" "turn_on" ∅ a').1 = [("z2m/kitchen/set", JObject [("state", JString "ON")])].
Proof.
  destruct (rename_keeps_old_topics "z2m" double red 0 same [lamp "cellar"] day_one (fun l => Permutation_refl l)) as (_ & _ & Hst & Hpub).
  - apply (indexByIEEE_keyed [lamp "kitchen"]).
  - vm_compute. reflexivity.
  - split; [apply Hst; apply (bool_decide_eq_false _); vm_compute; reflexivity|]. rewrite (Hpub "light.z2m_00000001" "turn_on" ∅ (JObject [("state", JString "ON")])) by done. vm_compute. reflexivity.
Defined.

Definition replayed : App :=
  onBridgeDevices "z2m" same (Some [lamp "kitchen"])
    (onBridgeState same (Some "online") "" (onBridgeState same (Some "offline") "" day_one)).
Definition unlit : Attributes := mkAttributes (Some (Attributes_Light false 0 0 0)) false.
Lemma replayed_unlit : a_entities replayed !! "light.z2m_00000001" = Some unlit.
Proof. vm_compute. reflexivity. Qed.
Lemma day_one_devices : indexByIEEE [lamp "kitchen"] = a_devices day_one.
Proof. vm_compute. reflexivity. Qed.
Lemma outage_sticks_witness : available unlit = false.
Proof.
  exact (outage_sticks "z2m" same same same [lamp "kitchen"] "" "" day_one "light.z2m_00000001" unlit (fun l => Permutation_refl l)
           (fun l => Permutation_refl l) (indexByIEEE_keyed [lamp "kitchen"]) day_one_devices replayed_unlit).
Defined.

(** A renamed lamp that is removed stays subscribed under its first name. *)
Example removal_leaks :
  a_subscribed (z2m_run "z2m" double red 0 day_one [EvDevices same (Some [lamp "cellar"]); EvDevices same (Some [])]) = {["z2m/kitchen"; "z2m/kitchen/availability"]}.
Proof. vm_compute. reflexivity. Qed.

(** Two devices whose addresses agree in the last eight digits: replacing one by the
    other leaves no entity. *)
Definition twin : Device := mkDevice "0x00249f0000000001" "twin" (dv_Exposes (lamp "kitchen")).
Example colliding_ids_lose_entity :
  map_to_list (d_entities (a_d (z2m_run "z2m" double red 0 day_one [EvDevices same (Some [twin])]))) = [].
Proof. vm_compute. reflexivity. Qed.

End Z2mDemo.
