(* ===== verification/Triggers.v ===== *)
(** * Automation triggers

    Models [internal/automation/trigger]: [trigger.go] (the registry that
    indexes matchers), [state.go] (state-change matchers with their per-entity
    memory and hold timers) and [event.go] (event and webhook matchers).
    Matchers are shared objects, compared by address: a matcher is a cell of a
    heap, and the index holds addresses. *)

From S2P Require Import Prelude Events.

(** ** Matchers *)

(** What a matcher is made of when it is compiled. [entities] lists the set of
    a state matcher once each. *)
Inductive MatcherDef :=
  | StateChangeMatcher (automationID : string) (entities : list string) (from to : string) (forDur : Z)
  | EventMatcher (automationID kind : string) (data : string_map)
  | WebhookMatcher (automationID path : string)
  | TimeMatcher (automationID at_ cron : string) (every : Z).

(** The mutable part of a state matcher: whether the hold callback is wired,
    the pending hold timers with the event each would deliver, and the last
    state string seen per entity. *)
Record MatcherState := mkMatcherState {
  deliverHold : bool;
  timers : gmap string Event;
  last_ : gmap string string;
}.

Definition fresh_state : MatcherState := mkMatcherState false ∅ ∅.

Record Match := mkMatch {
  AutomationID : string;
  TriggerKind : string;
  MatchEvent : option Event;
}.

Definition matcher_automation (d : MatcherDef) : string :=
  match d with
  | StateChangeMatcher id _ _ _ _ | EventMatcher id _ _ | WebhookMatcher id _ | TimeMatcher id _ _ _ => id
  end.

(** [extractStateString]. *)
Definition extractStateString (ev : Event) : string :=
  match GetKind ev with
  | Some (Payload_StateChanged p) =>
      match sc_attributes p with
      | None => ""
      | Some a =>
          match attr_kind a with
          | Some (Attributes_Light on _ _ _) => if on then "on" else "off"
          | Some (Attributes_SwitchDevice on) => if on then "on" else "off"
          | _ => ""
          end
      end
  | _ => ""
  end.

(** The two guards of [OnStateChanged]. *)
Definition transition_ok (from to prev new : string) : bool :=
  (is_empty from || String.eqb prev from) && (is_empty to || String.eqb new to).

(** [OnStateChanged] of a state matcher: its new state and what it emits. *)
Definition OnStateChanged (id : string) (entities : list string) (from to : string) (forDur : Z)
    (ev : Event) (st : MatcherState) : MatcherState * list Match :=
  if negb (contains_eq entities (Entity ev)) then (st, [])
  else
    let new := extractStateString ev in
    let prev := default "" (last_ st !! Entity ev) in
    let st1 := mkMatcherState (deliverHold st) (delete (Entity ev) (timers st))
                 (<[Entity ev := new]> (last_ st)) in
    if negb (transition_ok from to prev new) then (st1, [])
    else if forDur =? 0 then (st1, [mkMatch id "state_changed" (Some ev)])
    else if negb (deliverHold st1) then (st1, [])
    else (mkMatcherState (deliverHold st1) (<[Entity ev := ev]> (timers st1)) (last_ st1), []).

(** The callback of the timer pending for [entity]. *)
Definition timer_fires (id entity : string) (st : MatcherState) : MatcherState * list Match :=
  match timers st !! entity with
  | None => (st, [])
  | Some ev => (mkMatcherState (deliverHold st) (delete entity (timers st)) (last_ st),
                [mkMatch id "state_changed" (Some ev)])
  end.

(** [Stop]. *)
Definition Stop (st : MatcherState) : MatcherState := mkMatcherState (deliverHold st) ∅ (last_ st).

(** [SetDeliverHold]. *)
Definition SetDeliverHold (st : MatcherState) : MatcherState :=
  mkMatcherState true (timers st) (last_ st).

Definition AllowedEventDataKeys : list string := ["detail"; "driver_instance_id"; "kind"].

(** [ValidateEventDataKeys]: [order] is the order Go ranges over the map; the
    offending key. *)
Definition ValidateEventDataKeys (order : list string) : option string :=
  list_find (fun k => contains_eq AllowedEventDataKeys k = false) order ≫= (fun p => Some p.2).

(** [want, ok := m.data[k]; ok && got != want]. *)
Definition data_mismatch (data : string_map) (k got : string) : bool :=
  match data !! k with Some want => negb (String.eqb got want) | None => false end.

(** [OnEvent] of event and webhook matchers. *)
Definition OnEvent (d : MatcherDef) (ev : Event) : option Match :=
  match d with
  | EventMatcher id kind data =>
      if negb (String.eqb (Kind ev) kind) then None
      else if bool_decide (data = ∅) then Some (mkMatch id "event" (Some ev))
      else match GetKind ev with
           | Some (Payload_DriverEvent de) =>
               if data_mismatch data "detail" (de_detail de) then None
               else if data_mismatch data "driver_instance_id" (de_driver_instance_id de) then None
               else if data_mismatch data "kind" (de_kind de) then None
               else Some (mkMatch id "event" (Some ev))
           | _ => None
           end
  | WebhookMatcher id path =>
      match GetKind ev with
      | Some (Payload_WebhookReceived slug) =>
          if negb (String.eqb slug path) then None else Some (mkMatch id "webhook" (Some ev))
      | _ => None
      end
  | _ => None
  end.

(** ** The registry *)

(** The matchers that exist, and the index of [Registry]. *)
Record Registry := mkRegistry {
  matchers : gmap nat (MatcherDef * MatcherState);
  stateByEntity : gmap string (list nat);
  eventByKind : gmap string (list nat);
}.

Definition NewRegistry : Registry := mkRegistry ∅ ∅ ∅.

Definition index_add (k : string) (m : nat) (idx : gmap string (list nat)) : gmap string (list nat) :=
  <[k := default [] (idx !! k) ++ [m]]> idx.

(** [dropState] and [dropEvent] on the list under [k]. *)
Definition index_drop (k : string) (m : nat) (idx : gmap string (list nat)) : gmap string (list nat) :=
  <[k := filter (fun x => x <> m) (default [] (idx !! k))]> idx.

(** [EventKind]. *)
Definition EventKind (d : MatcherDef) : option string :=
  match d with
  | EventMatcher _ kind _ => Some kind
  | WebhookMatcher _ _ => Some "webhook_received"
  | _ => None
  end.

Definition RegisterState (m : nat) (entities : list string) (r : Registry) : Registry :=
  mkRegistry (matchers r) (foldl (fun idx e => index_add e m idx) (stateByEntity r) entities)
    (eventByKind r).

Definition RegisterEvent (m : nat) (kind : string) (r : Registry) : Registry :=
  mkRegistry (matchers r) (stateByEntity r) (index_add kind m (eventByKind r)).

(** [Unregister] of the matcher at [m]; a time matcher is neither kind. *)
Definition Unregister (m : nat) (d : MatcherDef) (r : Registry) : Registry :=
  match d with
  | StateChangeMatcher _ entities _ _ _ =>
      mkRegistry (matchers r) (foldl (fun idx e => index_drop e m idx) (stateByEntity r) entities)
        (eventByKind r)
  | _ => match EventKind d with
         | Some k => mkRegistry (matchers r) (stateByEntity r) (index_drop k m (eventByKind r))
         | None => r
         end
  end.

Definition set_state (m : nat) (st : MatcherState) (r : Registry) : Registry :=
  mkRegistry (alter (fun x => (x.1, st)) m (matchers r)) (stateByEntity r) (eventByKind r).

(** [Dispatch] to the state matchers of a list of addresses, in order. *)
Fixpoint dispatch_states (ms : list nat) (ev : Event) (r : Registry) : Registry * list Match :=
  match ms with
  | [] => (r, [])
  | m :: rest =>
      match matchers r !! m with
      | Some (StateChangeMatcher id entities from to forDur, st) =>
          let '(st', out) := OnStateChanged id entities from to forDur ev st in
          let '(r', out') := dispatch_states rest ev (set_state m st' r) in
          (r', out ++ out')
      | _ => dispatch_states rest ev r
      end
  end.

(** [Dispatch]. *)
Definition Dispatch (ev : Event) (r : Registry) : Registry * list Match :=
  if String.eqb (Kind ev) "state_changed"
  then dispatch_states (default [] (stateByEntity r !! Entity ev)) ev r
  else (r, omap (fun m => x ← matchers r !! m; OnEvent x.1 ev)
             (default [] (eventByKind r !! Kind ev))).

(** [registerTriggers] and [unregisterTriggers] of [engine.go], for the
    matchers at the addresses [ms]; the time matchers go to the scheduler. *)
Definition register_one (m : nat) (r : Registry) : Registry :=
  match matchers r !! m with
  | Some (StateChangeMatcher _ entities _ _ _, st) =>
      RegisterState m entities (set_state m (SetDeliverHold st) r)
  | Some (d, _) => match EventKind d with Some k => RegisterEvent m k r | None => r end
  | None => r
  end.

Definition registerTriggers (ms : list nat) (r : Registry) : Registry :=
  foldl (fun r m => register_one m r) r ms.

Definition unregister_one (m : nat) (r : Registry) : Registry :=
  match matchers r !! m with
  | Some (StateChangeMatcher id entities from to forDur, st) =>
      Unregister m (StateChangeMatcher id entities from to forDur) (set_state m (Stop st) r)
  | Some (d, _) => Unregister m d r
  | None => r
  end.

Definition unregisterTriggers (ms : list nat) (r : Registry) : Registry :=
  foldl (fun r m => unregister_one m r) r ms.

(** * Automation triggers: when they fire, and the index *)


(** ** One state matcher over time *)

(** What happens to a state matcher: an event is dispatched to it, or the timer
    pending for an entity elapses. *)
Inductive mstep :=
  | MEvent (ev : Event)
  | MTimer (entity : string).

(** The step is about the entity [e]. *)
Definition about (e : string) (s : mstep) : bool :=
  match s with
  | MEvent ev => String.eqb (Entity ev) e
  | MTimer e' => String.eqb e' e
  end.

(** The state of [e] before: that of its last event, the empty string at first. *)
Definition prev_state (e : string) (hist : list mstep) : string :=
  foldl (fun st s => match s with
                     | MEvent ev => if String.eqb (Entity ev) e then extractStateString ev else st
                     | MTimer _ => st
                     end) "" hist.

Section Matcher.
Context (id : string) (entities : list string) (from to : string) (forDur : Z).

Definition mrun_step (st : MatcherState) (s : mstep) : MatcherState :=
  match s with
  | MEvent ev => (OnStateChanged id entities from to forDur ev st).1
  | MTimer e => (timer_fires id e st).1
  end.

(** A freshly registered matcher after a history. *)
Definition mrun (hist : list mstep) : MatcherState :=
  foldl mrun_step (SetDeliverHold fresh_state) hist.

(** The event satisfies the trigger, given what came before. *)
Definition triggers (hist : list mstep) (ev : Event) : bool :=
  contains_eq entities (Entity ev) &&
  transition_ok from to (prev_state (Entity ev) hist) (extractStateString ev).

Lemma mrun_snoc hist s : mrun (hist ++ [s]) = mrun_step (mrun hist) s.
Proof. unfold mrun. by rewrite foldl_app. Qed.

Lemma mrun_hold hist : deliverHold (mrun hist) = true.
Proof.
  induction hist as [|s hist IH] using rev_ind; [done|]. rewrite mrun_snoc.
  destruct s as [ev|e]; cbn; [|by unfold timer_fires; destruct (timers _ !! e)].
  unfold OnStateChanged. destruct (negb (contains_eq _ _)); [done|].
  destruct (negb (transition_ok _ _ _ _)); [done|]. destruct (forDur =? 0); [done|].
  cbn. by rewrite IH.
Qed.

Lemma mrun_last hist e :
  e ∈ entities -> default "" (last_ (mrun hist) !! e) = prev_state e hist.
Proof.
  intros He. induction hist as [|s hist IH] using rev_ind; [done|].
  rewrite mrun_snoc. unfold prev_state. rewrite foldl_app. cbn [foldl]. fold (prev_state e hist).
  destruct s as [ev|e']; cbn [mrun_step].
  - assert (last_ (OnStateChanged id entities from to forDur ev (mrun hist)).1 =
            if contains_eq entities (Entity ev)
            then <[Entity ev := extractStateString ev]> (last_ (mrun hist)) else last_ (mrun hist)) as ->.
    { unfold OnStateChanged. destruct (contains_eq _ _); [|done]. cbn. by repeat case_match. }
    destruct (String.eqb_spec (Entity ev) e) as [Heq|Hne].
    + rewrite Heq, (proj2 (contains_eq_spec _ _) He). by rewrite lookup_insert_eq.
    + destruct (contains_eq _ _); [by rewrite lookup_insert_ne | done].
  - unfold timer_fires. by destruct (timers _ !! e').
Qed.

(** The last step about [e] is the event [ev], and it satisfied the trigger. *)
Definition armed (hist : list mstep) (e : string) (ev : Event) : Prop :=
  exists h1 h2, hist = h1 ++ MEvent ev :: h2 /\ Entity ev = e /\ triggers h1 ev = true /\
    Forall (fun s => about e s = false) h2.

Lemma armed_snoc hist s e ev :
  armed (hist ++ [s]) e ev <->
  (about e s = false /\ armed hist e ev) \/
  (s = MEvent ev /\ Entity ev = e /\ triggers hist ev = true).
Proof.
  split.
  - intros (h1 & h2 & Heq & He & Ht & Hf). destruct h2 as [|s' h2 _] using rev_ind.
    + apply app_inj_tail in Heq as [-> ->]. by right.
    + rewrite app_comm_cons, app_assoc in Heq. apply app_inj_tail in Heq as [-> ->].
      apply Forall_app in Hf as [Hf Hs]. left. inversion Hs; subst. split; [done|]. by exists h1, h2.
  - intros [[Hs (h1 & h2 & -> & He & Ht & Hf)]|(-> & He & Ht)].
    + exists h1, (h2 ++ [s]). rewrite <- app_assoc. conj_done. apply Forall_app. by split; [|constructor].
    + by exists hist, [].
Qed.

(** A step that is not about [e] changes nothing for it. *)
Lemma armed_other (P : Prop) (T : bool) ev ev' e :
  Entity ev' <> e ->
  (P <-> (false = false /\ P) \/ (MEvent ev' = MEvent ev /\ Entity ev = e /\ T = true)).
Proof.
  intros Hne. split; [by left|]. intros [[_ ?]|(Heq & He & _)]; [done|].
  injection Heq as ->. done.
Qed.

Lemma mrun_timers hist e ev :
  forDur <> 0 -> timers (mrun hist) !! e = Some ev <-> armed hist e ev.
Proof.
  intros Hd. induction hist as [|s hist IH] using rev_ind.
  { split; [done|]. intros (h1 & h2 & Heq & _). by destruct h1. }
  rewrite mrun_snoc, armed_snoc. destruct s as [ev'|e']; cbn [mrun_step about].
  - pose proof (mrun_hold hist) as Hh. pose proof (mrun_last hist (Entity ev')) as Hl.
    unfold OnStateChanged.
    destruct (contains_eq entities (Entity ev')) eqn:Hin; cbn [negb fst].
    2: { destruct (String.eqb_spec (Entity ev') e) as [<-|Hne].
         - rewrite IH. unfold armed, triggers. split.
           + intros (h1 & h2 & _ & He & Ht & _). by rewrite He, Hin in Ht.
           + intros [[? _]|(Heq & _ & Ht)]; [done|]. injection Heq as <-. by rewrite Hin in Ht.
         - rewrite <- IH. by apply armed_other. }
    rewrite Hl by (by apply contains_eq_spec).
    destruct (transition_ok from to _ _) eqn:Htr; cbn [negb].
    + rewrite (proj2 (Z.eqb_neq _ _) Hd). cbn [deliverHold]. rewrite Hh. cbn [negb fst timers].
      rewrite insert_delete_eq.
      destruct (String.eqb_spec (Entity ev') e) as [<-|Hne].
      * rewrite lookup_insert_eq. unfold triggers. split.
        -- intros [= <-]. right. by rewrite Hin, Htr.
        -- intros [[? _]|(Heq & _)]; [done|]. by injection Heq as <-.
      * rewrite lookup_insert_ne, <- IH by done. by apply armed_other.
    + cbn [fst timers]. destruct (String.eqb_spec (Entity ev') e) as [<-|Hne].
      * rewrite lookup_delete_eq. unfold triggers. split; [done|].
        intros [[? _]|(Heq & _ & Ht)]; [done|]. injection Heq as <-. by rewrite Hin, Htr in Ht.
      * rewrite lookup_delete_ne, <- IH by done. by apply armed_other.
  - rewrite <- IH. unfold timer_fires.
    destruct (String.eqb_spec e' e) as [<-|Hne];
      destruct (timers (mrun hist) !! e') as [ev1|] eqn:Ht; cbn [fst timers];
      rewrite ?lookup_delete_eq, ?lookup_delete_ne, ?Ht by done; split; try done; try (by left);
      by intros [[? ?]|(? & _)].
Qed.

End Matcher.

(** A state trigger fires exactly when its declaration says, whatever came
    before: without a hold, an event of one of its entities fires at once if and
    only if the entity's previous state is [from] and the new one is [to] (each
    only when declared); with a hold, the timer that elapses for an entity
    delivers an event if and only if that event satisfied the trigger when it
    came and no other event of the entity has come since. *)
Theorem state_trigger_fires id entities from to forDur hist :
  (forall ev, forDur = 0 ->
     (OnStateChanged id entities from to forDur ev (mrun id entities from to forDur hist)).2 =
     if triggers entities from to hist ev then [mkMatch id "state_changed" (Some ev)] else []) /\
  (forall e ev, forDur <> 0 ->
     (timer_fires id e (mrun id entities from to forDur hist)).2 = [mkMatch id "state_changed" (Some ev)] <->
     exists h1 h2, hist = h1 ++ MEvent ev :: h2 /\ Entity ev = e /\
       triggers entities from to h1 ev = true /\ Forall (fun s => about e s = false) h2).
Proof.
  split.
  - intros ev ->. unfold OnStateChanged, triggers.
    destruct (contains_eq entities (Entity ev)) eqn:Hin; [|done]. cbn [negb andb].
    rewrite mrun_last by (by apply contains_eq_spec). by destruct (transition_ok _ _ _ _).
  - intros e ev Hd. fold (armed entities from to hist e ev).
    rewrite <- (mrun_timers id entities from to forDur) by done. unfold timer_fires.
    destruct (timers _ !! e) as [ev'|]; cbn; naive_solver congruence.
Qed.

(** ** The index *)

(** The addresses listed under a key. *)
Definition listed (idx : gmap string (list nat)) (k : string) : list nat := default [] (idx !! k).

Lemma listed_add k m idx k' :
  listed (index_add k m idx) k' = if decide (k' = k) then listed idx k ++ [m] else listed idx k'.
Proof.
  unfold listed, index_add. case_decide as Hk; [subst; by rewrite lookup_insert_eq|].
  by rewrite lookup_insert_ne.
Qed.

Lemma listed_drop k m idx k' :
  listed (index_drop k m idx) k' =
  if decide (k' = k) then filter (fun x => x <> m) (listed idx k) else listed idx k'.
Proof.
  unfold listed, index_drop. case_decide as Hk; [subst; by rewrite lookup_insert_eq|].
  by rewrite lookup_insert_ne.
Qed.

Lemma listed_fold_add es m idx k :
  exists n, listed (foldl (fun idx e => index_add e m idx) idx es) k = listed idx k ++ replicate n m /\
    (n <> 0%nat -> k ∈ es).
Proof.
  revert idx. induction es as [|e es IH]; intros idx; cbn [foldl].
  { exists 0%nat. by rewrite app_nil_r. }
  destruct (IH (index_add e m idx)) as (n & Hn & Hk). rewrite listed_add in Hn.
  case_decide as Hke; [subst|].
  - exists (S n). split; [by rewrite Hn, <- app_assoc | by left].
  - exists n. split; [done|]. right. by apply Hk.
Qed.

Lemma listed_fold_drop es m idx k :
  listed (foldl (fun idx e => index_drop e m idx) idx es) k =
  if decide (k ∈ es) then filter (fun x => x <> m) (listed idx k) else listed idx k.
Proof.
  revert idx. induction es as [|e es IH]; intros idx; cbn [foldl].
  { by rewrite decide_False by apply not_elem_of_nil. }
  rewrite IH, listed_drop. destruct (decide (k = e)) as [->|Hke].
  - rewrite (decide_True _ _ (list_elem_of_here e es)).
    destruct (decide (e ∈ es)); [|done]. rewrite list_filter_filter.
    apply list_filter_iff. tauto.
  - destruct (decide (k ∈ es)) as [Hin|Hin].
    + by rewrite decide_True by (by right).
    + rewrite decide_False; [done|]. intros [?|?]%elem_of_cons; done.
Qed.

(** The keys a matcher is indexed under. *)
Definition state_keys (d : MatcherDef) : list string :=
  match d with StateChangeMatcher _ entities _ _ _ => entities | _ => [] end.
Definition event_keys (d : MatcherDef) : list string := from_option (fun k => [k]) [] (EventKind d).

Definition def_of (r : Registry) (m : nat) : option MatcherDef := fst <$> matchers r !! m.

(** What one registration or unregistration does to the lists. *)
Record indexed_by (f : list nat -> list string -> string -> list nat -> Prop) (m : nat)
    (r r' : Registry) : Prop := {
  ib_defs : forall m', def_of r' m' = def_of r m';
  ib_state : forall d k, def_of r m = Some d ->
    f (listed (stateByEntity r) k) (state_keys d) k (listed (stateByEntity r') k);
  ib_event : forall d k, def_of r m = Some d ->
    f (listed (eventByKind r) k) (event_keys d) k (listed (eventByKind r') k);
  ib_none : def_of r m = None -> r' = r;
}.

Definition appends (m : nat) (l : list nat) (ks : list string) (k : string) (l' : list nat) : Prop :=
  exists n, l' = l ++ replicate n m /\ (n <> 0%nat -> k ∈ ks).
Definition drops (m : nat) (l : list nat) (ks : list string) (k : string) (l' : list nat) : Prop :=
  l' = if decide (k ∈ ks) then filter (fun x => x <> m) l else l.

Lemma def_of_set_state m st r m' : def_of (set_state m st r) m' = def_of r m'.
Proof.
  unfold def_of, set_state. cbn. destruct (decide (m = m')) as [->|Hne].
  - rewrite lookup_alter_eq. by destruct (matchers r !! m').
  - by rewrite lookup_alter_ne.
Qed.

Lemma appends_none m l k : appends m l [] k l.
Proof. exists 0%nat. by rewrite app_nil_r. Qed.

Lemma drops_none m l k : drops m l [] k l.
Proof. unfold drops. by rewrite decide_False by apply not_elem_of_nil. Qed.

Lemma appends_one m idx k k' :
  appends m (listed idx k') [k] k' (listed (index_add k m idx) k').
Proof.
  destruct (listed_fold_add [k] m idx k') as (n & Hn & Hk). by exists n.
Qed.

Lemma drops_one m idx k k' :
  drops m (listed idx k') [k] k' (listed (index_drop k m idx) k').
Proof. apply (listed_fold_drop [k] m idx k'). Qed.

Lemma register_one_index m r : indexed_by (appends m) m r (register_one m r).
Proof.
  unfold register_one. destruct (matchers r !! m) as [[d st]|] eqn:Hm.
  2: { split; try done; unfold def_of; rewrite Hm; done. }
  assert (def_of r m = Some d) as Hd by (unfold def_of; by rewrite Hm).
  destruct d as [aid es from to dur|aid kind data|aid path|aid at_ cron every]; split; try congruence;
    intros *; rewrite ?Hd; try (intros [= <-]); cbn [RegisterState RegisterEvent EventKind stateByEntity
      eventByKind set_state state_keys event_keys from_option].
  - apply (def_of_set_state m (SetDeliverHold st) r).
  - apply listed_fold_add.
  - apply appends_none.
  - done.
  - apply appends_none.
  - apply appends_one.
  - done.
  - apply appends_none.
  - apply appends_one.
  - done.
  - apply appends_none.
  - apply appends_none.
Qed.

Lemma unregister_one_index m r : indexed_by (drops m) m r (unregister_one m r).
Proof.
  unfold unregister_one. destruct (matchers r !! m) as [[d st]|] eqn:Hm.
  2: { split; try done; unfold def_of; rewrite Hm; done. }
  assert (def_of r m = Some d) as Hd by (unfold def_of; by rewrite Hm).
  destruct d as [aid es from to dur|aid kind data|aid path|aid at_ cron every]; split; try congruence;
    intros *; rewrite ?Hd; try (intros [= <-]); cbn [Unregister EventKind stateByEntity
      eventByKind set_state state_keys event_keys from_option].
  - apply (def_of_set_state m (Stop st) r).
  - apply listed_fold_drop.
  - apply drops_none.
  - done.
  - apply drops_none.
  - apply drops_one.
  - done.
  - apply drops_none.
  - apply drops_one.
  - done.
  - apply drops_none.
  - apply drops_none.
Qed.

(** Both indexes at once: [true] for the state index, [false] for the event one. *)
Definition look (b : bool) (r : Registry) (k : string) : list nat :=
  listed (if b then stateByEntity r else eventByKind r) k.
Definition keys (b : bool) (d : MatcherDef) : list string :=
  if b then state_keys d else event_keys d.

Lemma indexed_look f m r r' b d k :
  indexed_by f m r r' -> def_of r m = Some d -> f (look b r k) (keys b d) k (look b r' k).
Proof. intros [_ Hs He _] Hd. destruct b; [by apply Hs | by apply He]. Qed.

(** Relative to [r0], the registry [r] has only entries of [ms] more, and those
    only under their own keys. *)
Record confined (ms : list nat) (r0 r : Registry) : Prop := {
  cf_defs : forall m, def_of r m = def_of r0 m;
  cf_rest : forall b k, filter (fun x => x ∉ ms) (look b r k) = look b r0 k;
  cf_own : forall b k m, m ∈ ms -> m ∈ look b r k -> exists d, def_of r0 m = Some d /\ k ∈ keys b d;
}.

Lemma confined_refl ms r :
  (forall b k m, m ∈ ms -> m ∉ look b r k) -> confined ms r r.
Proof.
  intros Hms. split; [done | | ].
  - intros b k. apply list_filter_all. intros x Hx Hin. by apply (Hms b k x).
  - intros b k m Hm Hin. by destruct (Hms b k m Hm).
Qed.

Lemma confined_register ms r0 r m :
  m ∈ ms -> confined ms r0 r -> confined ms r0 (register_one m r).
Proof.
  intros Hm [Hd Hr Ho]. pose proof (register_one_index m r) as Hi.
  destruct (def_of r m) as [d|] eqn:Hdm; [|by rewrite (ib_none _ _ _ _ Hi Hdm)].
  split.
  - intros m'. by rewrite (ib_defs _ _ _ _ Hi).
  - intros b k. destruct (indexed_look _ _ _ _ b d k Hi Hdm) as (n & -> & _).
    rewrite filter_app, Hr, list_filter_none, app_nil_r; [done|].
    intros x [-> _]%elem_of_replicate. by intros [].
  - intros b k m' Hm' Hin. destruct (indexed_look _ _ _ _ b d k Hi Hdm) as (n & Heq & Hk).
    rewrite Heq in Hin. apply elem_of_app in Hin as [Hin|[-> Hn]%elem_of_replicate]; [by apply Ho|].
    exists d. rewrite <- Hd. split; [done | by apply Hk].
Qed.

Lemma confined_unregister ms r0 r m :
  m ∈ ms -> confined ms r0 r ->
  confined ms r0 (unregister_one m r) /\
  forall b k x, x ∈ ms -> x ∈ look b (unregister_one m r) k -> x <> m /\ x ∈ look b r k.
Proof.
  intros Hm [Hd Hr Ho]. pose proof (unregister_one_index m r) as Hi.
  destruct (def_of r m) as [d|] eqn:Hdm.
  2: { rewrite (ib_none _ _ _ _ Hi Hdm). split; [done|]. intros b k x Hx Hin. split; [|done].
       intros ->. destruct (Ho b k m Hm Hin) as (d & Hd' & _). congruence. }
  assert (forall b k, drops m (look b r k) (keys b d) k (look b (unregister_one m r) k)) as Hl
    by (intros b k; exact (indexed_look _ _ _ _ b d k Hi Hdm)).
  assert (forall b k x, x ∈ look b (unregister_one m r) k -> x ∈ look b r k) as Hsub.
  { intros b k x. rewrite (Hl b k). case_decide; [|done]. by intros [_ ?]%list_elem_of_filter. }
  split; [split|].
  - intros m'. by rewrite (ib_defs _ _ _ _ Hi).
  - intros b k. rewrite <- Hr, (Hl b k). case_decide; [|done].
    rewrite list_filter_filter. apply list_filter_iff. intros x. set_solver.
  - intros b k x Hx Hin%Hsub. by apply Ho.
  - intros b k x Hx Hin. split; [|by apply Hsub]. intros ->.
    pose proof (Hsub _ _ _ Hin) as Hin'. destruct (Ho b k m Hm Hin') as (d' & Hd' & Hk).
    rewrite <- Hd, Hdm in Hd'. injection Hd' as <-.
    rewrite (Hl b k), decide_True in Hin by done. apply list_elem_of_filter in Hin as [? _]. done.
Qed.

Lemma confined_registerTriggers ms l r0 r :
  l ⊆ ms -> confined ms r0 r -> confined ms r0 (registerTriggers l r).
Proof.
  unfold registerTriggers. revert r. induction l as [|m l IH]; intros r Hl Hc; [done|].
  cbn [foldl]. apply IH; [set_solver|]. apply confined_register; [set_solver | done].
Qed.

Lemma confined_unregisterTriggers ms l r0 r :
  l ⊆ ms -> confined ms r0 r ->
  confined ms r0 (unregisterTriggers l r) /\
  forall b k x, x ∈ ms -> x ∈ look b (unregisterTriggers l r) k -> x ∉ l /\ x ∈ look b r k.
Proof.
  unfold unregisterTriggers. revert r. induction l as [|m l IH]; intros r Hl Hc; cbn [foldl].
  { split; [done|]. intros. split; [apply not_elem_of_nil | done]. }
  destruct (confined_unregister ms r0 r m) as [Hc1 H1]; [set_solver | done |].
  destruct (IH (unregister_one m r)) as [Hc2 H2]; [set_solver | done |].
  split; [done|]. intros b k x Hx Hin. destruct (H2 b k x Hx Hin) as [Hn Hin1].
  destruct (H1 b k x Hx Hin1) as [Hne Hin0]. split; [|done]. set_solver.
Qed.

(** Registering an automation's triggers and unregistering them gives back
    the index: every list that [Dispatch] consults is the one from before, in
    the same order, also when a matcher listens to several entities or lists one
    twice; nothing of the automation is left behind and nothing of another is
    lost. *)
Theorem triggers_register_unregister ms r :
  (forall b k m, m ∈ ms -> m ∉ look b r k) ->
  let r' := unregisterTriggers ms (registerTriggers ms r) in
  (forall e, listed (stateByEntity r') e = listed (stateByEntity r) e) /\
  (forall k, listed (eventByKind r') k = listed (eventByKind r) k).
Proof.
  intros Hms r'.
  assert (forall b k, look b r' k = look b r k) as Hl; [|split; intros k; [apply (Hl true) | apply (Hl false)]].
  intros b k. pose proof (confined_registerTriggers ms ms r r (reflexivity _) (confined_refl _ _ Hms)) as H1.
  destruct (confined_unregisterTriggers ms ms r _ (reflexivity _) H1) as [H2 H3].
  rewrite <- (cf_rest _ _ _ H2 b k). symmetry. apply list_filter_all.
  intros x Hx Hin. by destruct (H3 b k x Hin Hx).
Qed.
