(* ===== verification/Engine.v ===== *)
(** * The automation engine: run modes and reload

    Models [internal/automation/mode.go], [engine.go] ([fire], [ensureQueue],
    [startPumpOnce], [queuePump]) and [reload.go]. The goroutines that act on
    one [runState] are interleaved at their atomic steps by [rs_step]; a
    channel, a cancel function and the run state itself are shared objects. *)

From S2P Require Import Prelude Events Triggers.

(** ** Run modes *)

Inductive Mode := ModeSingle | ModeQueued | ModeRestart | ModeParallel.

#[export] Instance Mode_eq_dec : EqDecision Mode.
Proof. solve_decision. Defined.

(** [Mode.String]. *)
Definition Mode_String (m : Mode) : string :=
  match m with
  | ModeQueued => "queued" | ModeRestart => "restart" | ModeParallel => "parallel"
  | ModeSingle => "single"
  end.

(** The channel of a queue, with everything ever accepted by it. *)
Record queue := mkQueue {
  q_cap : nat;
  q_items : list Match;
  q_closed : bool;
  q_accepted : list Match;
}.

(** A run in progress: the mode it was started under, its restart generation
    (0 otherwise) and whether its context has been cancelled by the engine. *)
Record run := mkRun {
  run_mode : Mode;
  run_gen : nat;
  run_cancelled : bool;
  run_match : Match;
}.

(** The pump goroutine: not started; started and about to read [rs.queue];
    waiting on a queue ([None] is the nil channel) with the matches it has run so
    far; running one; ended. *)
Inductive pump_state :=
  | PumpNone
  | PumpStarting
  | PumpIdle (q : option nat) (done : list Match)
  | PumpBusy (q : option nat) (done : list Match) (r : nat)
  | PumpExited.

(** A fire between reading [rs.auto] and acting on it, or between
    [ensureQueue] and the send. *)
Inductive pending_fire :=
  | Admitted_ (mode : Mode) (maxQueued : nat) (m : Match)
  | Sending (q : nat) (m : Match).

(** [runState] with the goroutines that hold it. [rs_live]: still in
    [e.runStates]; [next] is the next free address. *)
Record runState := mkRS {
  rs_mode : Mode;
  rs_max : nat;
  rs_enabled : bool;
  rs_live : bool;
  running : bool;
  activeCancel : option nat;
  restartGen : nat;
  rs_queue : option nat;
  rs_chans : gmap nat queue;
  rs_runs : gmap nat run;
  rs_fires : list pending_fire;
  rs_pump : pump_state;
  rs_skipped : list (Match * string);
  rs_next : nat;
}.

(** [newRunState]. *)
Definition newRunState (mode : Mode) (maxQueued : nat) (enabled : bool) : runState :=
  mkRS mode maxQueued enabled true false None 0 None ∅ ∅ [] PumpNone [] 0.

Section Updates.
Implicit Type s : runState.

Definition with_fires (f : list pending_fire) s : runState :=
  mkRS (rs_mode s) (rs_max s) (rs_enabled s) (rs_live s) (running s) (activeCancel s) (restartGen s)
    (rs_queue s) (rs_chans s) (rs_runs s) f (rs_pump s) (rs_skipped s) (rs_next s).
Definition with_runs (f : gmap nat run) s : runState :=
  mkRS (rs_mode s) (rs_max s) (rs_enabled s) (rs_live s) (running s) (activeCancel s) (restartGen s)
    (rs_queue s) (rs_chans s) f (rs_fires s) (rs_pump s) (rs_skipped s) (rs_next s).
Definition with_chans (c : gmap nat queue) s : runState :=
  mkRS (rs_mode s) (rs_max s) (rs_enabled s) (rs_live s) (running s) (activeCancel s) (restartGen s)
    (rs_queue s) c (rs_runs s) (rs_fires s) (rs_pump s) (rs_skipped s) (rs_next s).
Definition with_pump (p : pump_state) s : runState :=
  mkRS (rs_mode s) (rs_max s) (rs_enabled s) (rs_live s) (running s) (activeCancel s) (restartGen s)
    (rs_queue s) (rs_chans s) (rs_runs s) (rs_fires s) p (rs_skipped s) (rs_next s).
Definition with_running_flag (b : bool) s : runState :=
  mkRS (rs_mode s) (rs_max s) (rs_enabled s) (rs_live s) b (activeCancel s) (restartGen s)
    (rs_queue s) (rs_chans s) (rs_runs s) (rs_fires s) (rs_pump s) (rs_skipped s) (rs_next s).

(** [emitSkipped]. *)
Definition emitSkipped (m : Match) (reason : string) s : runState :=
  mkRS (rs_mode s) (rs_max s) (rs_enabled s) (rs_live s) (running s) (activeCancel s) (restartGen s)
    (rs_queue s) (rs_chans s) (rs_runs s) (rs_fires s) (rs_pump s)
    (rs_skipped s ++ [(m, reason)]) (rs_next s).

(** A run starts at the next address. *)
Definition start_run (r : run) s : runState :=
  mkRS (rs_mode s) (rs_max s) (rs_enabled s) (rs_live s) (running s) (activeCancel s) (restartGen s)
    (rs_queue s) (rs_chans s) (<[rs_next s := r]> (rs_runs s)) (rs_fires s) (rs_pump s)
    (rs_skipped s) (S (rs_next s)).

Definition cancel_run (r : run) : run := mkRun (run_mode r) (run_gen r) true (run_match r).

(** [if rs.activeCancel != nil { rs.activeCancel() }]; cancelling a run that
    has ended does nothing. *)
Definition call_activeCancel s : runState :=
  match activeCancel s with
  | None => s
  | Some r => with_runs (alter cancel_run r (rs_runs s)) s
  end.

Definition set_active (c : option nat) (gen : nat) s : runState :=
  mkRS (rs_mode s) (rs_max s) (rs_enabled s) (rs_live s) (running s) c gen
    (rs_queue s) (rs_chans s) (rs_runs s) (rs_fires s) (rs_pump s) (rs_skipped s) (rs_next s).

(** The first part of [fire]: look the run state up and read its automation. *)
Definition fire_lookup (m : Match) s : runState :=
  if negb (rs_live s) then s
  else if negb (rs_enabled s) then s
  else with_fires (rs_fires s ++ [Admitted_ (rs_mode s) (rs_max s) m]) s.

(** [ensureQueue]: the queue and its address. *)
Definition ensureQueue (size : nat) s : runState * nat :=
  match rs_queue s with
  | Some q => (s, q)
  | None =>
      (mkRS (rs_mode s) (rs_max s) (rs_enabled s) (rs_live s) (running s) (activeCancel s)
         (restartGen s) (Some (rs_next s)) (<[rs_next s := mkQueue size [] false []]> (rs_chans s))
         (rs_runs s) (rs_fires s) (rs_pump s) (rs_skipped s) (S (rs_next s)), rs_next s)
  end.

(** The mode switch of [fire]; the send of the queued mode is a step of its own. *)
Definition fire_switch (mode : Mode) (maxQueued : nat) (m : Match) s : runState :=
  match mode with
  | ModeSingle =>
      if running s then emitSkipped m "already running" s
      else start_run (mkRun ModeSingle 0 false m) (with_running_flag true s)
  | ModeRestart =>
      let s1 := call_activeCancel s in
      let gen := S (restartGen s1) in
      start_run (mkRun ModeRestart gen false m) (set_active (Some (rs_next s1)) gen s1)
  | ModeQueued =>
      let '(s1, q) := ensureQueue maxQueued s in with_fires (rs_fires s1 ++ [Sending q m]) s1
  | ModeParallel => start_run (mkRun ModeParallel 0 false m) s
  end.

(** [startPumpOnce]. *)
Definition startPumpOnce s : runState :=
  match rs_pump s with PumpNone => with_pump PumpStarting s | _ => s end.

(** [select { case q <- pending{...}: startPumpOnce default: emitSkipped }];
    [None] is the panic of a send on a closed channel. *)
Definition fire_send (q : nat) (m : Match) s : option runState :=
  match rs_chans s !! q with
  | None => None
  | Some c =>
      if q_closed c then None
      else if (length (q_items c) <? q_cap c)%nat
      then Some (startPumpOnce
                   (with_chans (<[q := mkQueue (q_cap c) (q_items c ++ [m]) false
                                         (q_accepted c ++ [m])]> (rs_chans s)) s))
      else Some (emitSkipped m "queue full" s)
  end.

(** The end of a run: what the deferred code of each mode does. *)
Definition finish_run (r : nat) s : runState :=
  match rs_runs s !! r with
  | None => s
  | Some x =>
      let s1 := with_runs (delete r (rs_runs s)) s in
      match run_mode x with
      | ModeSingle => with_running_flag false s1
      | ModeRestart => if (restartGen s1 =? run_gen x)%nat then set_active None (restartGen s1) s1 else s1
      | ModeQueued =>
          match rs_pump s1 with
          | PumpBusy q done _ => with_pump (PumpIdle q (done ++ [run_match x])) s1
          | _ => s1
          end
      | ModeParallel => s1
      end
  end.

(** [queuePump]: reading [rs.queue], then taking the next match from it. *)
Definition pump_read s : runState :=
  match rs_pump s with PumpStarting => with_pump (PumpIdle (rs_queue s) []) s | _ => s end.

Definition pump_take s : runState :=
  match rs_pump s with
  | PumpIdle (Some q) done =>
      match rs_chans s !! q with
      | None => s
      | Some c =>
          match q_items c with
          | m :: rest =>
              let s1 := with_chans (<[q := mkQueue (q_cap c) rest (q_closed c) (q_accepted c)]> (rs_chans s)) s in
              with_pump (PumpBusy (Some q) done (rs_next s1)) (start_run (mkRun ModeQueued 0 false m) s1)
          | [] => if q_closed c then with_pump PumpExited s else s
          end
      end
  | _ => s
  end.

(** The pump's context has ended: what is queued is skipped. *)
Definition pump_shutdown s : runState :=
  match rs_pump s with
  | PumpIdle q _ =>
      match q ≫= (fun a => (fun c => (a, c)) <$> rs_chans s !! a) with
      | None => with_pump PumpExited s
      | Some (a, c) =>
          let s1 := foldl (fun s m => emitSkipped m "shutdown" s) s (q_items c) in
          with_pump PumpExited
            (with_chans (<[a := mkQueue (q_cap c) [] (q_closed c) (q_accepted c)]> (rs_chans s1)) s1)
      end
  | _ => s
  end.

(** The removal of the automation by [Reload]; [None] is the panic of closing a
    closed channel. *)
Definition reload_remove s : option runState :=
  let s1 := set_active None (restartGen s) (call_activeCancel s) in
  match rs_queue s1 with
  | None => Some (mkRS (rs_mode s1) (rs_max s1) (rs_enabled s1) false (running s1) (activeCancel s1)
                    (restartGen s1) None (rs_chans s1) (rs_runs s1) (rs_fires s1) (rs_pump s1)
                    (rs_skipped s1) (rs_next s1))
  | Some q =>
      match rs_chans s1 !! q with
      | None => None
      | Some c =>
          if q_closed c then None
          else Some (mkRS (rs_mode s1) (rs_max s1) (rs_enabled s1) false (running s1) (activeCancel s1)
                       (restartGen s1) None
                       (<[q := mkQueue (q_cap c) (q_items c) true (q_accepted c)]> (rs_chans s1))
                       (rs_runs s1) (rs_fires s1) (rs_pump s1) (rs_skipped s1) (rs_next s1))
      end
  end.

(** [swapAuto]. *)
Definition swapAuto (mode : Mode) (maxQueued : nat) (enabled : bool) s : runState :=
  mkRS mode maxQueued enabled (rs_live s) (running s) (activeCancel s) (restartGen s)
    (rs_queue s) (rs_chans s) (rs_runs s) (rs_fires s) (rs_pump s) (rs_skipped s) (rs_next s).

End Updates.

(** The interleavings on one run state. *)
Inductive rs_step : runState -> runState -> Prop :=
  | step_lookup s m : rs_step s (fire_lookup m s)
  | step_switch s f1 f2 mode maxQueued m :
      rs_fires s = f1 ++ Admitted_ mode maxQueued m :: f2 ->
      rs_step s (fire_switch mode maxQueued m (with_fires (f1 ++ f2) s))
  | step_send s s' f1 f2 q m :
      rs_fires s = f1 ++ Sending q m :: f2 ->
      fire_send q m (with_fires (f1 ++ f2) s) = Some s' ->
      rs_step s s'
  | step_finish s r : rs_step s (finish_run r s)
  | step_pump_read s : rs_step s (pump_read s)
  | step_pump_take s : rs_step s (pump_take s)
  | step_pump_shutdown s : rs_step s (pump_shutdown s)
  | step_remove s s' : rs_live s = true -> reload_remove s = Some s' -> rs_step s s'
  | step_swap s mode maxQueued enabled :
      rs_live s = true -> rs_step s (swapAuto mode maxQueued enabled s).

(** ** Reload *)

(** A compiled automation: the addresses of its matchers and the definition it
    was compiled from ([None] for a nil pointer), as the number of a definition
    up to [proto.Equal]. *)
Record Automation := mkAutomation {
  A_ID : string;
  A_Triggers : list nat;
  A_Mode : Mode;
  A_MaxQueued : nat;
  A_Enabled : bool;
  A_Source : option Z;
}.

(** [structurallyEqual]. *)
Definition structurallyEqual (a b : Automation) : bool :=
  match A_Source a, A_Source b with
  | Some x, Some y => x =? y
  | _, _ => false
  end.

(** An entry of the time scheduler. *)
Inductive schedule := At (hm : string) | Cron (expr : string) | Every (d : Z).

(** The engine: its automations, the trigger registry, the ids that have a run
    state, and the scheduler's entries. *)
Record Engine := mkEngine {
  automations : gmap string Automation;
  e_triggers : Registry;
  runStates : gmap string runState;
  scheduler : list (string * schedule);
}.

(** The switch over the fields of a time matcher; a declaration that fits no
    case is dropped. *)
Definition time_entry (a : string) (d : MatcherDef) : list (string * schedule) :=
  match d with
  | TimeMatcher _ at_ cron every =>
      if negb (is_empty at_) then [(a, At at_)]
      else if negb (is_empty cron) then [(a, Cron cron)]
      else if 0 <? every then [(a, Every every)]
      else []
  | _ => []
  end.

Definition time_entries (a : Automation) (r : Registry) : list (string * schedule) :=
  A_Triggers a ≫= (fun m => match matchers r !! m with
                            | Some (d, _) => time_entry (A_ID a) d
                            | None => []
                            end).

Definition run_state_of (a : Automation) : runState :=
  newRunState (A_Mode a) (A_MaxQueued a) (A_Enabled a).

Definition add_automation (a : Automation) (e : Engine) : Engine :=
  mkEngine (automations e) (registerTriggers (A_Triggers a) (e_triggers e))
    (<[A_ID a := run_state_of a]> (runStates e)) (scheduler e ++ time_entries a (e_triggers e)).

(** [NewEngine] on compiled automations, whose matchers [r] holds; [order] is
    the order Go ranges over the map. *)
Definition NewEngine (r : Registry) (order : list string) (autos : gmap string Automation) : Engine :=
  let e := foldl (fun e id => match autos !! id with Some a => add_automation a e | None => e end)
             (mkEngine autos r ∅ []) order in
  mkEngine autos (e_triggers e) (runStates e) (scheduler e).

(** One iteration of [Reload]'s loop over the old automations. The
    removed run state is wound down by [reload_remove], above. *)
Definition reload_old (newAutos : gmap string Automation) (e : Engine) (id : string) : Engine :=
  match automations e !! id with
  | None => e
  | Some oldA =>
      match newAutos !! id with
      | None => mkEngine (automations e) (unregisterTriggers (A_Triggers oldA) (e_triggers e))
                  (delete id (runStates e)) (scheduler e)
      | Some newA =>
          if structurallyEqual oldA newA then e
          else mkEngine (automations e)
                 (registerTriggers (A_Triggers newA) (unregisterTriggers (A_Triggers oldA) (e_triggers e)))
                 (alter (swapAuto (A_Mode newA) (A_MaxQueued newA) (A_Enabled newA)) id (runStates e))
                 (scheduler e)
      end
  end.

(** One iteration of its loop over the new ones. *)
Definition reload_new (newAutos : gmap string Automation) (e : Engine) (id : string) : Engine :=
  match newAutos !! id, automations e !! id with
  | Some newA, None => mkEngine (automations e) (registerTriggers (A_Triggers newA) (e_triggers e))
                         (<[id := run_state_of newA]> (runStates e)) (scheduler e)
  | _, _ => e
  end.

(** [Reload] with automations that compiled; their matchers [added] are new. *)
Definition Reload (old_order new_order : list string) (newAutos : gmap string Automation)
    (added : gmap nat (MatcherDef * MatcherState)) (e : Engine) : Engine :=
  let r := e_triggers e in
  let e0 := mkEngine (automations e) (mkRegistry (added ∪ matchers r) (stateByEntity r) (eventByKind r))
              (runStates e) (scheduler e) in
  let e1 := foldl (reload_old newAutos) e0 old_order in
  let e2 := foldl (reload_new newAutos) e1 new_order in
  mkEngine newAutos (e_triggers e2) (runStates e2)
    (new_order ≫= (fun id => match newAutos !! id with
                             | Some a => time_entries a (e_triggers e2)
                             | None => []
                             end)).
