(* ===== verification/EngineFacts.v ===== *)
(** * Run modes: what each promises under every interleaving *)

From S2P Require Import Prelude Events Triggers Engine.

Definition rs_reachable (s : runState) : Prop :=
  exists mode maxQueued enabled, rtc rs_step (newRunState mode maxQueued enabled) s.

(** ** Addresses *)

(** Runs and queues live below the next address; an address a fire or the
    run state holds is that of a queue, and the current queue is open. *)
Record addr_ok (s : runState) : Prop := {
  ad_runs : forall r x, rs_runs s !! r = Some x -> (r < rs_next s)%nat;
  ad_chans : forall q c, rs_chans s !! q = Some c -> (q < rs_next s)%nat;
  ad_active : forall r, activeCancel s = Some r -> (r < rs_next s)%nat;
  ad_queue : forall q, rs_queue s = Some q ->
    exists c, rs_chans s !! q = Some c /\ q_closed c = false;
}.

(** ** Single *)

Definition single_ok (s : runState) : Prop :=
  (forall r x, rs_runs s !! r = Some x -> run_mode x = ModeSingle -> running s = true) /\
  (forall r1 r2 x1 x2, rs_runs s !! r1 = Some x1 -> rs_runs s !! r2 = Some x2 ->
     run_mode x1 = ModeSingle -> run_mode x2 = ModeSingle -> r1 = r2).

(** ** Restart *)

Record restart_ok (s : runState) : Prop := {
  rt_active : forall r x, rs_runs s !! r = Some x -> run_mode x = ModeRestart ->
    run_cancelled x = false -> activeCancel s = Some r /\ run_gen x = restartGen s;
  rt_gen : forall r x, rs_runs s !! r = Some x -> run_mode x = ModeRestart ->
    (run_gen x <= restartGen s)%nat;
  rt_inj : forall r1 r2 x1 x2, rs_runs s !! r1 = Some x1 -> rs_runs s !! r2 = Some x2 ->
    run_mode x1 = ModeRestart -> run_mode x2 = ModeRestart -> run_gen x1 = run_gen x2 -> r1 = r2;
}.

(** ** Queued *)

(** What the pump has run, is running, and what is queued is what was accepted,
    in order. *)
Definition pump_ok (s : runState) : Prop :=
  match rs_pump s with
  | PumpNone | PumpStarting => forall q c, rs_chans s !! q = Some c -> q_accepted c = q_items c
  | PumpIdle (Some q) done =>
      exists c, rs_chans s !! q = Some c /\ q_accepted c = done ++ q_items c
  | PumpBusy (Some q) done r =>
      exists c x, rs_chans s !! q = Some c /\ rs_runs s !! r = Some x /\ run_mode x = ModeQueued /\
        q_accepted c = done ++ run_match x :: q_items c
  | PumpBusy None _ _ => False
  | PumpIdle None _ | PumpExited => True
  end.

Record queue_ok (s : runState) : Prop := {
  qu_bound : forall q c, rs_chans s !! q = Some c -> (length (q_items c) <= q_cap c)%nat;
  qu_pump : pump_ok s;
  qu_runs : forall r x, rs_runs s !! r = Some x -> run_mode x = ModeQueued ->
    exists q done, rs_pump s = PumpBusy q done r;
}.

Record rs_ok (s : runState) : Prop := {
  ok_addr : addr_ok s;
  ok_single : single_ok s;
  ok_restart : restart_ok s;
  ok_queue : queue_ok s;
}.

(** ** Runs change little by little *)

(** Two states whose runs, channels and pump are the same and whose other fields
    that matter agree. *)
Definition same_core (s s' : runState) : Prop :=
  rs_runs s' = rs_runs s /\ rs_chans s' = rs_chans s /\ running s' = running s /\
  activeCancel s' = activeCancel s /\ restartGen s' = restartGen s /\
  rs_queue s' = rs_queue s /\ rs_pump s' = rs_pump s /\ rs_next s' = rs_next s.

Lemma rs_ok_same s s' : same_core s s' -> rs_ok s -> rs_ok s'.
Proof.
  destruct s, s'. unfold same_core. cbn. intros (-> & -> & -> & -> & -> & -> & -> & ->).
  intros [[] [] [] []]. repeat (split; try done).
Qed.

Lemma lookup_start_run (s : runState) r x r0 :
  <[rs_next s := r]> (rs_runs s) !! r0 = Some x ->
  (r0 = rs_next s /\ x = r) \/ (r0 <> rs_next s /\ rs_runs s !! r0 = Some x).
Proof. intros [[-> ->]|[? ?]]%lookup_insert_Some; auto. Qed.

(** ** Starting a run *)

Lemma start_addr s r : addr_ok s -> addr_ok (start_run r s).
Proof.
  intros [Hr Hc Ha Hq]. split; cbn.
  - intros r0 x [[-> _]|[_ Hx]]%lookup_start_run; [lia|]. apply Hr in Hx. lia.
  - intros q c Hqc%Hc. lia.
  - intros r0 Hr0%Ha. lia.
  - done.
Qed.

(** A run of another mode leaves the promise of a mode alone. *)
Lemma start_single_other s r :
  single_ok s -> run_mode r <> ModeSingle -> single_ok (start_run r s).
Proof.
  intros [H1 H2] Hm. split; cbn.
  - intros r0 x [[_ ->]|[_ Hx]]%lookup_start_run; [done | by eapply H1].
  - intros r1 r2 x1 x2 [[_ ->]|[_ Hx1]]%lookup_start_run [[_ ->]|[_ Hx2]]%lookup_start_run; try done.
    by eapply H2.
Qed.

Lemma start_restart_other s r :
  restart_ok s -> run_mode r <> ModeRestart -> restart_ok (start_run r s).
Proof.
  intros [H1 H2 H3] Hm. split; cbn.
  - intros r0 x [[_ ->]|[_ Hx]]%lookup_start_run; [done | by eapply H1].
  - intros r0 x [[_ ->]|[_ Hx]]%lookup_start_run; [done | by eapply H2].
  - intros r1 r2 x1 x2 [[_ ->]|[_ Hx1]]%lookup_start_run [[_ ->]|[_ Hx2]]%lookup_start_run; try done.
    by eapply H3.
Qed.

Lemma start_queue_other s r :
  addr_ok s -> queue_ok s -> run_mode r <> ModeQueued -> queue_ok (start_run r s).
Proof.
  intros [Hr _ _ _] [H1 H2 H3] Hm. split; cbn; [done | | ].
  - unfold pump_ok in *. cbn. destruct (rs_pump s) as [| |[q|] ran|[q|] ran r0|]; try done; try exact H2.
    destruct H2 as (c & x & Hc & Hx & Hrest). exists c, x. split; [done|]. split; [|done].
    rewrite lookup_insert_ne; [done|]. apply Hr in Hx. lia.
  - intros r0 x [[_ ->]|[_ Hx]]%lookup_start_run; [done | by eapply H3].
Qed.

Lemma start_single_ok s m :
  rs_ok s -> running s = false -> rs_ok (start_run (mkRun ModeSingle 0 false m) (with_running_flag true s)).
Proof.
  intros [Ha [Hs1 Hs2] Hr Hq] Hrun. set (s1 := with_running_flag true s).
  assert (addr_ok s1) as Ha1 by (by destruct Ha). assert (restart_ok s1) as Hr1 by (by destruct Hr).
  assert (queue_ok s1) as Hq1 by (by destruct Hq).
  assert (forall r x, rs_runs s !! r = Some x -> run_mode x <> ModeSingle) as Hno.
  { intros r x Hx Hm. apply Hs1 in Hx; congruence. }
  split; [by apply start_addr | | by apply start_restart_other | by apply start_queue_other].
  split; [done|]. cbn. intros r1 r2 x1 x2.
  intros [[-> ->]|[_ Hx1]]%(lookup_start_run s) [[-> ->]|[_ Hx2]]%(lookup_start_run s) Hm1 Hm2; try done.
  - by apply Hno in Hx2.
  - by apply Hno in Hx1.
  - by apply Hno in Hx1.
Qed.

(** After the cancel, every restart run is cancelled. *)
Lemma lookup_cancelled s r x :
  rs_runs (call_activeCancel s) !! r = Some x ->
  exists x0, rs_runs s !! r = Some x0 /\ run_mode x = run_mode x0 /\ run_gen x = run_gen x0 /\
    run_match x = run_match x0 /\
    (run_cancelled x = false -> run_cancelled x0 = false /\ activeCancel s <> Some r).
Proof.
  unfold call_activeCancel. destruct (activeCancel s) as [a|] eqn:Ha; [|by exists x]. cbn.
  destruct (decide (a = r)) as [->|Hne].
  - rewrite lookup_alter_eq. intros (x0 & Hx0 & ->)%fmap_Some. by exists x0.
  - rewrite lookup_alter_ne by done. intros Hx. exists x. conj_done. congruence.
Qed.

Lemma start_restart_ok s m :
  rs_ok s -> rs_ok (fire_switch ModeRestart 0 m s).
Proof.
  intros [Ha [Hs1 Hs2] [Hr1 Hr2 Hr3] Hq]. cbn [fire_switch].
  pose proof (lookup_cancelled s) as Hlc.
  assert (rs_next (call_activeCancel s) = rs_next s /\ running (call_activeCancel s) = running s /\
          restartGen (call_activeCancel s) = restartGen s /\ rs_chans (call_activeCancel s) = rs_chans s /\
          rs_queue (call_activeCancel s) = rs_queue s /\ rs_pump (call_activeCancel s) = rs_pump s)
    as (En & Er & Eg & Ec & Eq & Ep)
    by (unfold call_activeCancel; by destruct (activeCancel s)).
  assert (forall r x, rs_runs s !! r = Some x -> exists x', rs_runs (call_activeCancel s) !! r = Some x' /\
            run_mode x' = run_mode x /\ run_match x' = run_match x) as Hfwd.
  { intros r x Hx. unfold call_activeCancel. destruct (activeCancel s) as [a|]; [|by exists x]. cbn.
    destruct (decide (a = r)) as [->|Hne]; [rewrite lookup_alter_eq, Hx; by exists (cancel_run x)|].
    rewrite lookup_alter_ne by done. by exists x. }
  set (s1 := call_activeCancel s) in *. rewrite En, Eg.
  split.
  - split; cbn; rewrite ?En, ?Ec, ?Eq.
    + intros r x [[-> _]|[_ (x0 & Hx0 & _)%Hlc]]%lookup_insert_Some; [lia|].
      apply (ad_runs _ Ha) in Hx0. lia.
    + intros q c Hc%(ad_chans _ Ha). lia.
    + intros r [= <-]. lia.
    + apply Ha.
  - split; cbn; rewrite ?En, ?Er.
    + intros r x [[_ <-]|[_ (x0 & Hx0 & Hm & _)%Hlc]]%lookup_insert_Some; [done|].
      rewrite Hm. by eapply Hs1.
    + intros r1 r2 x1 x2 [[_ <-]|[_ (x0 & Hx0 & Hm & _)%Hlc]]%lookup_insert_Some
        [[_ <-]|[_ (y0 & Hy0 & Hm' & _)%Hlc]]%lookup_insert_Some; try done.
      rewrite Hm, Hm'. by eapply Hs2.
  - split; cbn; rewrite ?En.
    + intros r x [[<- <-]|[Hne (x0 & Hx0 & Hm & Hg & _ & Hc)%Hlc]]%lookup_insert_Some; [done|].
      rewrite Hm. intros Hmode Hnc. destruct (Hc Hnc) as [Hc0 Hact].
      by destruct (Hr1 _ _ Hx0 Hmode Hc0).
    + intros r x [[_ <-]|[_ (x0 & Hx0 & Hm & Hg & _)%Hlc]]%lookup_insert_Some; [done|].
      rewrite Hm, Hg. intros Hmode. specialize (Hr2 _ _ Hx0 Hmode). lia.
    + intros r1 r2 x1 x2 [[<- <-]|[_ (x0 & Hx0 & Hm & Hg & _)%Hlc]]%lookup_insert_Some
        [[<- <-]|[_ (y0 & Hy0 & Hm' & Hg' & _)%Hlc]]%lookup_insert_Some; try done; cbn.
      * intros _ Hmode Heq. rewrite Hm' in Hmode. specialize (Hr2 _ _ Hy0 Hmode). lia.
      * intros Hmode _ Heq. rewrite Hm in Hmode. specialize (Hr2 _ _ Hx0 Hmode). lia.
      * rewrite Hm, Hm', Hg, Hg'. by eapply Hr3.
  - destruct Hq as [Hq1 Hq2 Hq3]. split; cbn; rewrite ?Ec, ?En, ?Ep; [done | | ].
    + unfold pump_ok in *. cbn. rewrite Ep, Ec, En.
      destruct (rs_pump s) as [| |[q|] ran|[q|] ran r0|]; try done; try exact Hq2.
      destruct Hq2 as (c & x & Hc & Hx & Hmode & Hacc).
      destruct (Hfwd _ _ Hx) as (x' & Hx' & Hm' & Hmt). exists c, x'.
      split; [done|]. split; [|by rewrite Hm', Hmt].
      rewrite lookup_insert_ne; [done|]. apply (ad_runs _ Ha) in Hx. lia.
    + intros r x [[_ <-]|[_ (x0 & Hx0 & Hm & _)%Hlc]]%lookup_insert_Some; [done|].
      rewrite Hm. by eapply Hq3.
Qed.

Lemma ensureQueue_ok n s : rs_ok s -> rs_ok (ensureQueue n s).1.
Proof.
  intros Hok. unfold ensureQueue. destruct (rs_queue s) as [q|] eqn:Hqs; [done|].
  destruct Hok as [Ha Hs Hr [Hq1 Hq2 Hq3]]. cbn.
  assert (rs_chans s !! rs_next s = None) as Hfresh.
  { destruct (rs_chans s !! rs_next s) eqn:Hc; [|done]. apply (ad_chans _ Ha) in Hc. lia. }
  split; [split; cbn | done | by destruct Hr | split; cbn].
  - intros r x Hx%(ad_runs _ Ha). lia.
  - intros q c [[<- _]|[_ Hc]]%lookup_insert_Some; [lia|]. apply (ad_chans _ Ha) in Hc. lia.
  - intros r Hr0%(ad_active _ Ha). lia.
  - intros q [= <-]. eexists. by rewrite lookup_insert_eq.
  - intros q c [[<- <-]|[_ Hc]]%lookup_insert_Some; [cbn; lia | by eapply Hq1].
  - unfold pump_ok in *. cbn. destruct (rs_pump s) as [| |[q|] ran|[q|] ran r0|]; try done.
    + intros q c [[_ <-]|[_ Hc]]%lookup_insert_Some; [done | by apply (Hq2 q)].
    + intros q c [[_ <-]|[_ Hc]]%lookup_insert_Some; [done | by apply (Hq2 q)].
    + destruct Hq2 as (c & Hc & Hacc). exists c. by rewrite lookup_insert_ne by congruence.
    + destruct Hq2 as (c & x & Hc & Hrest). exists c, x. by rewrite lookup_insert_ne by congruence.
  - done.
Qed.

Lemma fire_switch_ok mode n m s : rs_ok s -> rs_ok (fire_switch mode n m s).
Proof.
  intros Hok. destruct mode.
  - cbn. destruct (running s) eqn:Hr; [by eapply rs_ok_same; [|exact Hok]|]. by apply start_single_ok.
  - cbn [fire_switch]. pose proof (ensureQueue_ok n s Hok) as Hq.
    destruct (ensureQueue n s) as [s1 q]. by eapply rs_ok_same; [|exact Hq].
  - by apply (start_restart_ok s m).
  - cbn. destruct Hok as [Ha Hs Hr Hq].
    split; [by apply start_addr | by apply start_single_other | by apply start_restart_other
           | by apply start_queue_other].
Qed.

(** Replacing the queue at [q] by one that the pump's account still fits. *)
Lemma set_queue_ok s q c c' :
  rs_ok s -> rs_chans s !! q = Some c ->
  (length (q_items c') <= q_cap c')%nat ->
  (forall ran, q_accepted c = ran ++ q_items c -> q_accepted c' = ran ++ q_items c') ->
  (rs_queue s = Some q -> q_closed c' = false) ->
  rs_ok (with_chans (<[q := c']> (rs_chans s)) s).
Proof.
  intros [Ha Hs Hr [Hq1 Hq2 Hq3]] Hc Hlen Hacc Hcl.
  split; [split; cbn | done | by destruct Hr | split; cbn]; try apply Ha.
  - intros q0 c0 [[<- _]|[_ Hc0]]%lookup_insert_Some; by eapply (ad_chans _ Ha).
  - intros q0 Hq0. destruct (decide (q0 = q)) as [->|Hne].
    + rewrite lookup_insert_eq. eauto.
    + rewrite lookup_insert_ne by done. by apply (ad_queue _ Ha).
  - intros q0 c0 [[<- <-]|[_ Hc0]]%lookup_insert_Some; [done | by eapply Hq1].
  - unfold pump_ok in *. cbn. destruct (rs_pump s) as [| |[q0|] ran|[q0|] ran r0|]; try done.
    1,2: intros q0 c0 [[<- <-]|[_ Hc0]]%lookup_insert_Some; [|by apply (Hq2 q0)];
      apply (Hacc []); by apply (Hq2 q).
    + destruct Hq2 as (c0 & Hc0 & H0). destruct (decide (q0 = q)) as [->|Hne].
      * exists c'. rewrite lookup_insert_eq. split; [done|]. apply Hacc. congruence.
      * exists c0. by rewrite lookup_insert_ne.
    + destruct Hq2 as (c0 & x & Hc0 & Hx & Hm & H0). destruct (decide (q0 = q)) as [->|Hne].
      * exists c', x. rewrite lookup_insert_eq. conj_done.
        assert (c0 = c) as -> by congruence.
        specialize (Hacc (ran ++ [run_match x])). rewrite <- !app_assoc in Hacc. by apply Hacc.
      * exists c0, x. by rewrite lookup_insert_ne.
  - done.
Qed.

Lemma startPumpOnce_ok s : rs_ok s -> rs_ok (startPumpOnce s).
Proof.
  intros Hok. unfold startPumpOnce. destruct (rs_pump s) eqn:Hp; try exact Hok.
  destruct Hok as [Ha Hs Hr [Hq1 Hq2 Hq3]].
  split; [by destruct Ha | done | by destruct Hr |]. split; [done | |].
  - unfold pump_ok in *. rewrite Hp in Hq2. done.
  - intros r x Hx Hm. destruct (Hq3 r x Hx Hm) as (? & ? & ?). congruence.
Qed.

Lemma fire_send_ok q m s s' : rs_ok s -> fire_send q m s = Some s' -> rs_ok s'.
Proof.
  intros Hok. unfold fire_send. destruct (rs_chans s !! q) as [c|] eqn:Hc; [|done].
  destruct (q_closed c); [done|]. destruct (_ <? _)%nat eqn:Hlt; intros [= <-].
  - apply startPumpOnce_ok. apply (set_queue_ok s q c); [done | done | | | done]; cbn.
    + rewrite length_app. cbn. apply Nat.ltb_lt in Hlt. lia.
    + intros ran ->. by rewrite app_assoc.
  - by eapply rs_ok_same; [|exact Hok].
Qed.

(** Ending a run. *)
Lemma finish_run_ok r s : rs_ok s -> rs_ok (finish_run r s).
Proof.
  intros Hok. unfold finish_run. destruct (rs_runs s !! r) as [x|] eqn:Hx; [|done].
  destruct Hok as [Ha [Hs1 Hs2] [Hr1 Hr2 Hr3] [Hq1 Hq2 Hq3]].
  assert (forall r0 y, delete r (rs_runs s) !! r0 = Some y -> r0 <> r /\ rs_runs s !! r0 = Some y) as Hd.
  { intros r0 y [? ?]%lookup_delete_Some. auto. }
  assert (addr_ok (with_runs (delete r (rs_runs s)) s)) as Ha'.
  { destruct Ha as [A1 A2 A3 A4]. split; cbn; try done. intros r0 y [_ Hy]%Hd. by eapply A1. }
  assert (restart_ok (with_runs (delete r (rs_runs s)) s)) as Hr'.
  { split; cbn; [intros r0 y [_ Hy]%Hd; by apply Hr1 | intros r0 y [_ Hy]%Hd; by eapply Hr2 |].
    intros r1 r2 y1 y2 [_ Hy1]%Hd [_ Hy2]%Hd. by eapply Hr3. }
  assert (single_ok (with_runs (delete r (rs_runs s)) s)) as Hs'.
  { split; cbn; [intros r0 y [_ Hy]%Hd; by apply (Hs1 r0 y) |].
    intros r1 r2 y1 y2 [_ Hy1]%Hd [_ Hy2]%Hd. by eapply Hs2. }
  assert (run_mode x <> ModeQueued -> queue_ok (with_runs (delete r (rs_runs s)) s)) as Hq'.
  { intros Hm. split; cbn; [done | | intros r0 y [_ Hy]%Hd; by apply (Hq3 r0 y)].
    unfold pump_ok in *. cbn. destruct (rs_pump s) as [| |[q0|] ran|[q0|] ran r0|]; try done.
    destruct Hq2 as (c & y & Hc & Hy & Hym & Hacc). exists c, y. conj_done.
    rewrite lookup_delete_ne; [done|]. intros ->. congruence. }
  destruct (run_mode x) eqn:Hm.
  - split; [by destruct Ha' | | by destruct Hr' | by destruct (Hq' ltac:(done))].
    split; cbn; [|by apply Hs']. intros r0 y [Hne Hy]%Hd Hym.
    destruct Hne. by eapply Hs2.
  - destruct (Hq3 r x Hx Hm) as (q & ran & Hp).
    assert (rs_pump (with_runs (delete r (rs_runs s)) s) = PumpBusy q ran r) as -> by done.
    split; [by destruct Ha' | done | by destruct Hr' |]. split; cbn; [done | |].
    + unfold pump_ok in *. cbn. rewrite Hp in Hq2. destruct q as [q|]; [|done].
      destruct Hq2 as (c & y & Hc & Hy & Hym & Hacc). exists c. split; [done|].
      rewrite <- app_assoc. cbn. congruence.
    + intros r0 y [Hne Hy]%Hd Hym. destruct (Hq3 r0 y Hy Hym) as (? & ? & ?). congruence.
  - specialize (Hq' ltac:(done)).
    destruct (_ =? _)%nat eqn:Hg; [|by split]. apply Nat.eqb_eq in Hg. cbn in Hg.
    split; [| done | | by destruct Hq'].
    { destruct Ha' as [A1 A2 A3 A4]. split; cbn; done. }
    destruct Hr' as [R1 R2 R3]. split; cbn; [| done | done].
    intros r0 y [Hne Hy]%Hd Hym Hyc. destruct (Hr1 r0 y Hy Hym Hyc) as [Hac Hgen].
    destruct Hne. eapply (Hr3 r0 r y x); congruence.
  - specialize (Hq' ltac:(done)). by split.
Qed.

(** ** The pump *)

(** Changing the pump alone, when the new account holds and no queued run is
    left behind. *)
Lemma with_pump_ok p s :
  rs_ok s -> pump_ok (with_pump p s) ->
  (forall r x, rs_runs s !! r = Some x -> run_mode x = ModeQueued -> exists q ran, p = PumpBusy q ran r) ->
  rs_ok (with_pump p s).
Proof.
  intros [Ha Hs Hr [Hq1 Hq2 Hq3]] Hp Hruns.
  split; [by destruct Ha | done | by destruct Hr | by split].
Qed.

(** No queued run is in progress unless the pump is busy. *)
Lemma no_queued_run s r x :
  rs_ok s -> (forall q ran r', rs_pump s <> PumpBusy q ran r') ->
  rs_runs s !! r = Some x -> run_mode x = ModeQueued -> False.
Proof. intros Hok Hn Hx Hm. destruct (qu_runs _ (ok_queue _ Hok) r x Hx Hm) as (q & ran & Hp). by eapply Hn. Qed.

Lemma pump_read_ok s : rs_ok s -> rs_ok (pump_read s).
Proof.
  intros Hok. unfold pump_read. destruct (rs_pump s) eqn:Hp; try exact Hok.
  apply with_pump_ok; [done | |].
  - pose proof (qu_pump _ (ok_queue _ Hok)) as Hq. unfold pump_ok in *. cbn. rewrite Hp in Hq.
    destruct (rs_queue s) as [q|] eqn:Hqs; [|done].
    destruct (ad_queue _ (ok_addr _ Hok) q Hqs) as (c & Hc & _). exists c. split; [done|]. by apply (Hq q).
  - intros r x Hx Hm. exfalso. by eapply (no_queued_run s r x Hok); [congruence|..].
Qed.

Lemma pump_take_ok s : rs_ok s -> rs_ok (pump_take s).
Proof.
  intros Hok. unfold pump_take.
  destruct (rs_pump s) as [| |[q|] ran|[q|] ran r0|] eqn:Hp; try exact Hok.
  destruct (rs_chans s !! q) as [c|] eqn:Hc; [|exact Hok].
  destruct (q_items c) as [|m rest] eqn:Hit.
  { destruct (q_closed c); [|exact Hok]. apply with_pump_ok; [done | done |].
    intros r x Hx Hm. exfalso. by eapply (no_queued_run s r x Hok); [congruence|..]. }
  assert (forall r x, rs_runs s !! r = Some x -> run_mode x <> ModeQueued) as Hnq.
  { intros r x Hx Hm. by eapply (no_queued_run s r x Hok); [congruence|..]. }
  destruct Hok as [Ha Hs Hr [Hq1 Hq2 Hq3]]. cbn. split.
  - destruct Ha as [A1 A2 A3 A4]. split; cbn.
    + intros r x [[-> _]|[_ Hx%A1]]%lookup_start_run; lia.
    + intros q0 c0 [[<- _]|[_ Hc0%A2]]%lookup_insert_Some; [|lia]. apply A2 in Hc. lia.
    + intros r Hr0%A3. lia.
    + intros q0 Hq0. destruct (A4 q0 Hq0) as (c0 & Hc0 & Hcl). destruct (decide (q0 = q)) as [->|Hne].
      * rewrite lookup_insert_eq. eexists. split; [done|]. cbn. congruence.
      * rewrite lookup_insert_ne by done. by exists c0.
  - by apply (start_single_other s (mkRun ModeQueued 0 false m)).
  - by destruct (start_restart_other s (mkRun ModeQueued 0 false m) Hr ltac:(done)).
  - split; cbn.
    + intros q0 c0 [[<- <-]|[_ Hc0]]%lookup_insert_Some; [|by eapply Hq1].
      cbn. specialize (Hq1 q c Hc). rewrite Hit in Hq1. cbn in Hq1. lia.
    + unfold pump_ok in *. cbn. rewrite Hp in Hq2. destruct Hq2 as (c0 & Hc0 & Hacc).
      assert (c0 = c) as -> by congruence. rewrite Hit in Hacc. eexists _, _.
      rewrite !lookup_insert_eq. conj_done. exact Hacc.
    + intros r x [[-> _]|[_ Hx]]%lookup_start_run Hm; [eauto|]. by apply Hnq in Hx.
Qed.

Lemma emitSkipped_core l reason s :
  same_core s (foldl (fun s m => emitSkipped m reason s) s l).
Proof.
  revert s. induction l as [|m l IH]; intros s; cbn [foldl]; [done|]. unfold same_core in *.
  destruct (IH (emitSkipped m reason s)) as (-> & -> & -> & -> & -> & -> & -> & ->). done.
Qed.

Lemma pump_shutdown_ok s : rs_ok s -> rs_ok (pump_shutdown s).
Proof.
  intros Hok. unfold pump_shutdown.
  destruct (rs_pump s) as [| |q ran|q ran r0|] eqn:Hp; try exact Hok.
  assert (rs_ok (with_pump PumpExited s)) as Hex.
  { apply with_pump_ok; [done | done |].
    intros r x Hx Hm. exfalso. by eapply (no_queued_run s r x Hok); [congruence|..]. }
  destruct q as [q|]; [|exact Hex]. cbn [mbind option_bind].
  destruct (rs_chans s !! q) as [c|] eqn:Hc; [|exact Hex]. cbn.
  destruct (emitSkipped_core (q_items c) "shutdown" s) as (E1 & E2 & E3 & E4 & E5 & E6 & E7 & E8).
  set (s1 := foldl _ s (q_items c)) in *. destruct Hex as [Ha Hs Hr [Hq1 Hq2 Hq3]].
  split.
  - destruct Ha as [A1 A2 A3 A4]. split; cbn; rewrite ?E1, ?E2, ?E4, ?E6, ?E8; try done.
    + intros q0 c0 [[<- _]|[_ Hc0]]%lookup_insert_Some; by eapply A2.
    + intros q0 Hq0. destruct (A4 q0 Hq0) as (c0 & Hc0 & Hcl). cbn in Hc0.
      destruct (decide (q0 = q)) as [->|Hne].
      * rewrite lookup_insert_eq. eexists. split; [done|]. cbn. congruence.
      * rewrite lookup_insert_ne by done. by exists c0.
  - unfold single_ok in *. cbn in *. by rewrite E1, E3.
  - destruct Hr as [R1 R2 R3]. cbn in *. split; cbn; rewrite ?E1, ?E4, ?E5; done.
  - split; cbn; rewrite ?E1, ?E2; [| done | done].
    intros q0 c0 [[<- <-]|[_ Hc0]]%lookup_insert_Some; [cbn; lia | by eapply Hq1].
Qed.

(** ** Reload *)

Lemma call_activeCancel_ok s :
  rs_ok s -> rs_ok (set_active None (restartGen s) (call_activeCancel s)) /\
    rs_queue (call_activeCancel s) = rs_queue s /\ rs_chans (call_activeCancel s) = rs_chans s.
Proof.
  intros [Ha [Hs1 Hs2] [Hr1 Hr2 Hr3] [Hq1 Hq2 Hq3]]. pose proof (lookup_cancelled s) as Hlc.
  assert (rs_next (call_activeCancel s) = rs_next s /\ running (call_activeCancel s) = running s /\
          rs_chans (call_activeCancel s) = rs_chans s /\
          rs_queue (call_activeCancel s) = rs_queue s /\ rs_pump (call_activeCancel s) = rs_pump s)
    as (En & Er & Ec & Eq & Ep)
    by (unfold call_activeCancel; by destruct (activeCancel s)).
  split; [|done]. split.
  - destruct Ha as [A1 A2 A3 A4]. split; cbn; rewrite ?En, ?Ec, ?Eq; try done.
    intros r x (x0 & Hx0 & _)%Hlc. by eapply A1.
  - split; cbn; rewrite ?Er.
    + intros r x (x0 & Hx0 & Hm & _)%Hlc. rewrite Hm. by eapply Hs1.
    + intros r1 r2 x1 x2 (x0 & Hx0 & Hm & _)%Hlc (y0 & Hy0 & Hm' & _)%Hlc.
      rewrite Hm, Hm'. by eapply Hs2.
  - split; cbn.
    + intros r x (x0 & Hx0 & Hm & Hg & _ & Hc)%Hlc. rewrite Hm. intros Hmode Hnc.
      destruct (Hc Hnc) as [Hc0 Hact]. by destruct (Hr1 _ _ Hx0 Hmode Hc0).
    + intros r x (x0 & Hx0 & Hm & Hg & _)%Hlc. rewrite Hm, Hg. by eapply Hr2.
    + intros r1 r2 x1 x2 (x0 & Hx0 & Hm & Hg & _)%Hlc (y0 & Hy0 & Hm' & Hg' & _)%Hlc.
      rewrite Hm, Hm', Hg, Hg'. by eapply Hr3.
  - split; cbn; rewrite ?Ec, ?Ep; [done | |].
    + unfold pump_ok in *. cbn. rewrite Ep, Ec.
      destruct (rs_pump s) as [| |[q|] ran|[q|] ran r0|]; try done.
      destruct Hq2 as (c & x & Hc & Hx & Hmode & Hacc). unfold call_activeCancel.
      destruct (activeCancel s) as [a|]; [|by exists c, x]. cbn.
      destruct (decide (a = r0)) as [->|Hne].
      * exists c, (cancel_run x). by rewrite lookup_alter_eq, Hx.
      * exists c, x. by rewrite lookup_alter_ne.
    + intros r x (x0 & Hx0 & Hm & _)%Hlc. rewrite Hm. by eapply Hq3.
Qed.

Lemma reload_remove_ok s s' : rs_ok s -> reload_remove s = Some s' -> rs_ok s'.
Proof.
  intros Hok. destruct (call_activeCancel_ok s Hok) as [Hok1 _]. unfold reload_remove.
  set (s1 := set_active None (restartGen s) (call_activeCancel s)) in *.
  set (s2 := mkRS (rs_mode s1) (rs_max s1) (rs_enabled s1) false (running s1) (activeCancel s1)
               (restartGen s1) None (rs_chans s1) (rs_runs s1) (rs_fires s1) (rs_pump s1)
               (rs_skipped s1) (rs_next s1)).
  assert (rs_ok s2) as Hok2.
  { destruct Hok1 as [[A1 A2 A3 A4] Hs [R1 R2 R3] [Q1 Q2 Q3]].
    split; [by split | done | by split | by split]. }
  destruct (rs_queue s1) as [q|]; [|by intros [= <-]].
  destruct (rs_chans s1 !! q) as [c|] eqn:Hc; [|done]. destruct (q_closed c); [done|].
  intros [= <-]. apply (set_queue_ok s2 q c); [done | done | | done | done].
  exact (qu_bound _ (ok_queue _ Hok1) q c Hc).
Qed.

Lemma rs_ok_step s s' : rs_ok s -> rs_step s s' -> rs_ok s'.
Proof.
  intros Hok Hs.
  inversion Hs as [? m | ? f1 f2 mode n m Hf | ? ? f1 f2 q m Hf Hsend | ? r | | | | ? ? Hl Hrem
                  | ? mode n en Hl]; subst.
  - unfold fire_lookup. destruct (negb (rs_live s)); [done|]. destruct (negb (rs_enabled s)); [done|].
    by eapply rs_ok_same; [|exact Hok].
  - apply fire_switch_ok. by eapply rs_ok_same; [|exact Hok].
  - eapply fire_send_ok; [|exact Hsend]. by eapply rs_ok_same; [|exact Hok].
  - by apply finish_run_ok.
  - by apply pump_read_ok.
  - by apply pump_take_ok.
  - by apply pump_shutdown_ok.
  - by eapply reload_remove_ok.
  - by eapply rs_ok_same; [|exact Hok].
Qed.

Lemma rs_reachable_ok s : rs_reachable s -> rs_ok s.
Proof.
  intros (mode & n & en & Hr).
  assert (rs_ok (newRunState mode n en)) as Hi.
  { split; split; cbn; done. }
  induction Hr as [|s1 s2 s3 Hs _ IH]; [done|]. apply IH. by eapply rs_ok_step.
Qed.

(** C37. The run modes keep their promises under every interleaving of triggers,
    run ends, the queue pump and reloads, also when a reload changes the mode
    while runs are in progress: at most one run of mode single is in progress; of
    the runs of mode restart at most one has not been cancelled, and it is the
    newest; at most one queued run is in progress, no queue holds more than its
    capacity, and what a pump has run, is running, and what waits is exactly what
    was accepted, in the order it was accepted. *)
Theorem run_modes s :
  rs_reachable s ->
  (forall r1 r2 x1 x2, rs_runs s !! r1 = Some x1 -> rs_runs s !! r2 = Some x2 ->
     run_mode x1 = run_mode x2 ->
     run_mode x1 = ModeSingle \/ run_mode x1 = ModeQueued \/
       (run_mode x1 = ModeRestart /\ run_cancelled x1 = false /\ run_cancelled x2 = false) ->
     r1 = r2) /\
  (forall r x r' x', rs_runs s !! r = Some x -> run_mode x = ModeRestart -> run_cancelled x = false ->
     rs_runs s !! r' = Some x' -> run_mode x' = ModeRestart -> (run_gen x' <= run_gen x)%nat) /\
  (forall q c, rs_chans s !! q = Some c -> (length (q_items c) <= q_cap c)%nat) /\
  match rs_pump s with
  | PumpIdle (Some q) ran => exists c, rs_chans s !! q = Some c /\ q_accepted c = ran ++ q_items c
  | PumpBusy (Some q) ran r => exists c x, rs_chans s !! q = Some c /\ rs_runs s !! r = Some x /\
      q_accepted c = ran ++ run_match x :: q_items c
  | _ => True
  end.
Proof.
  intros [Ha [_ Hs2] [Hr1 Hr2 Hr3] [Hq1 Hq2 Hq3]]%rs_reachable_ok. split; [|split; [|split]].
  - intros r1 r2 x1 x2 H1 H2 Hm [Hx|[Hx|(Hx & Hc1 & Hc2)]]; rewrite Hm in Hx.
    + eapply Hs2; [exact H1 | exact H2 | congruence..].
    + destruct (Hq3 r1 x1 H1) as (? & ? & Hp1); [congruence|].
      destruct (Hq3 r2 x2 H2 Hx) as (? & ? & Hp2). congruence.
    + destruct (Hr1 r1 x1 H1) as [Ha1 _]; [congruence | done |].
      destruct (Hr1 r2 x2 H2 Hx Hc2) as [Ha2 _]. congruence.
  - intros r x r' x' Hx Hm Hc Hx' Hm'. destruct (Hr1 r x Hx Hm Hc) as [_ ->]. by eapply Hr2.
  - exact Hq1.
  - unfold pump_ok in Hq2. destruct (rs_pump s) as [| |[q|] ran|[q|] ran r|]; try done.
    destruct Hq2 as (c & x & Hc & Hx & _ & Hacc). by exists c, x.
Qed.

(** ** What the interleavings also allow *)

Module EngineDemo.

Definition m1 : Match := mkMatch "porch" "manual" None.

(** A fire has its queue in hand when a reload removes the automation and closes
    that queue. *)
Definition closed_under_way : runState :=
  mkRS ModeQueued 10 true false false None 0 None {[ 0%nat := mkQueue 10 [] true [] ]} ∅
    [Sending 0 m1] PumpNone [] 1.

Lemma closed_under_way_reachable : rs_reachable closed_under_way.
Proof.
  exists ModeQueued, 10%nat, true.
  eapply rtc_l; [apply (step_lookup _ m1)|].
  eapply rtc_l; [apply (step_switch _ [] [] ModeQueued 10 m1); reflexivity|].
  apply rtc_once. apply step_remove; [reflexivity | vm_compute; reflexivity].
Qed.

(** Three compilations of one automation that reacts to a lamp: the first two
    from equal definitions, the third from an edited one. *)
Definition lamp_matcher : MatcherDef := StateChangeMatcher "porch" ["lamp"] "" "on" 0.
Definition porch (m : nat) (source : Z) : Automation :=
  mkAutomation "porch" [m] ModeSingle 10 true (Some source).
Definition engine0 : Engine :=
  NewEngine (mkRegistry {[ 0%nat := (lamp_matcher, fresh_state) ]} ∅ ∅) ["porch"]
    {[ "porch" := porch 0 1 ]}.
Definition reload1 : Engine :=
  Reload ["porch"] ["porch"] {[ "porch" := porch 1 1 ]} {[ 1%nat := (lamp_matcher, fresh_state) ]} engine0.
Definition reload2 : Engine :=
  Reload ["porch"] ["porch"] {[ "porch" := porch 2 2 ]} {[ 2%nat := (lamp_matcher, fresh_state) ]} reload1.
Definition lamp_on : Event :=
  mkEvent 7 0 "state_changed" "lamp" "driver:hue" 1 0
    (Some (Some (Payload_StateChanged (mkStateChanged
       (Some (mkAttributes (Some (Attributes_SwitchDevice true)) true)) "lamp")))).

End EngineDemo.

(** Removing a queued automation can crash the daemon: a trigger that has
    fetched the queue but not yet sent to it finds it closed by the reload, and
    a send on a closed channel panics, also in a select with a default. *)
Theorem reload_closes_queue_under_fire :
  exists s q m, rs_reachable s /\ rs_fires s = [Sending q m] /\
    fire_send q m (with_fires [] s) = None.
Proof.
  exists EngineDemo.closed_under_way, 0%nat, EngineDemo.m1.
  split; [apply EngineDemo.closed_under_way_reachable|]. split; reflexivity.
Qed.

(** A reload that changes nothing makes a later one leak: it replaces the
    engine's automations by freshly compiled ones whose matchers were never
    registered, so the next edit unregisters those instead of the live ones.
    After it, one change of the lamp fires the automation twice. *)
Theorem noop_reload_leaks_triggers :
  (Dispatch EngineDemo.lamp_on (e_triggers EngineDemo.engine0)).2 =
    [mkMatch "porch" "state_changed" (Some EngineDemo.lamp_on)] /\
  (Dispatch EngineDemo.lamp_on (e_triggers EngineDemo.reload2)).2 =
    [mkMatch "porch" "state_changed" (Some EngineDemo.lamp_on);
     mkMatch "porch" "state_changed" (Some EngineDemo.lamp_on)] /\
  listed (stateByEntity (e_triggers EngineDemo.reload2)) "lamp" = [0%nat; 2%nat].
Proof. split; [vm_compute; reflexivity|]. split; vm_compute; reflexivity. Qed.

Lemma run_modes_witness :
  length (q_items (default (mkQueue 0 [] false []) (rs_chans EngineDemo.closed_under_way !! 0%nat))) = 0%nat /\
  (forall q c, rs_chans EngineDemo.closed_under_way !! q = Some c -> (length (q_items c) <= q_cap c)%nat).
Proof.
  split; [reflexivity|]. exact (proj1 (proj2 (proj2 (run_modes _ EngineDemo.closed_under_way_reachable)))).
Defined.

Lemma triggers_register_unregister_witness :
  let r := mkRegistry {[ 0%nat := (EngineDemo.lamp_matcher, fresh_state) ]} ∅ {["ping" := [3%nat]]} in
  let r' := unregisterTriggers [0%nat] (registerTriggers [0%nat] r) in
  (forall e, listed (stateByEntity r') e = listed (stateByEntity r) e) /\
  (forall k, listed (eventByKind r') k = listed (eventByKind r) k).
Proof.
  intros r. apply (triggers_register_unregister [0%nat] r).
  intros [|] k m ->%list_elem_of_singleton; unfold look, listed; cbn; [apply not_elem_of_nil|].
  destruct (decide (k = "ping")) as [->|Hne]; [rewrite lookup_singleton_eq; cbn; set_solver|].
  rewrite lookup_singleton_ne by done. cbn. set_solver.
Defined.
