(* ===== verification/Rules.v ===== *)
(** * Conditions, actions and runs of automations

    Models [internal/automation/condition] (typed and composed conditions),
    [action] (the executors and their blocks), [compile.go] and [run.go]. The
    Starlark interpreter, the command dispatcher, scenes and scripts are
    parameters or the outcomes of leaf actions. A double is a [spec_float];
    times of day are what [time.Time] gives in the configured location. *)

From Stdlib Require Import SpecFloat.
From S2P Require Import Prelude Codec Events EventStore Triggers Engine.

(** ** Reading times of day *)

(** [fmt.Sscanf(s, "%d:%d", &h, &m)]. *)
Definition scan_hm (s : string) : option (Z * Z) :=
  '(h, s1) ← scan_int s;
  match s1 with
  | String c s2 => if (Ascii.N_of_ascii c =? 58)%N then '(m, _) ← scan_int s2; Some (h, m) else None
  | EmptyString => None
  end.

(** [parseHM]: the value on error is 0, which the caller uses. *)
Definition parseHM (s : string) : Z * bool :=
  if is_empty s then (0, true)
  else match scan_hm s with
       | Some (h, m) => (i64 (h * 60 + m), true)
       | None => (0, false)
       end.

(** ** Conditions *)

(** A dynamic attribute value. *)
Inductive any_val :=
  | VFloat64 (f : spec_float) | VFloat32 (f : spec_float) | VInt (z : Z) | VInt64 (z : Z)
  | VString (s : string) | VOther.

Record EntityState := mkEntityState { StateStr : string; Attributes : gmap string any_val }.

(** [Env]: the state reader, the local time as weekday (0 for Sunday), hour and
    minute, the Starlark runtime's verdict on an expression ([false] also for
    its errors, [None] without a runtime), and [Sscanf] with [%g]. *)
Record Env := mkEnv {
  env_state : string -> option EntityState;
  env_weekday : Z;
  env_hour : Z;
  env_minute : Z;
  env_starlark : option (string -> bool);
  env_scan_g : string -> option spec_float;
}.

Inductive Evaluator :=
  | StateCondition (entity equals : string) (oneOf : list string) (not_ : string)
  | NumericCondition (entity attribute op : string) (value : spec_float)
  | TimeCondition (after before : string) (weekdays : list string)
  | StarlarkCondition (expr : string)
  | AndCondition (all : list Evaluator)
  | OrCondition (any : list Evaluator)
  | NotCondition (inner : Evaluator).

Inductive cond_error :=
  | NoOperator | NumericOp (op : string) | BadWeekday (w : string).

(** [toFloat]. *)
Definition toFloat (env : Env) (v : any_val) : option spec_float :=
  match v with
  | VFloat64 f | VFloat32 f => Some f
  | VInt z | VInt64 z => Some (binary_normalize 53 1024 z 0 false)
  | VString s => env_scan_g env s
  | VOther => None
  end.

Definition numeric_op (op : string) (f v : spec_float) : result cond_error bool :=
  if String.eqb op "lt" then Ok (SFltb f v)
  else if String.eqb op "lte" then Ok (SFleb f v)
  else if String.eqb op "eq" then Ok (SFeqb f v)
  else if String.eqb op "gte" then Ok (SFleb v f)
  else if String.eqb op "gt" then Ok (SFltb v f)
  else Err (NumericOp op).

Definition lower (c : Ascii.ascii) : Ascii.ascii :=
  let n := Ascii.N_of_ascii c in
  if (N.leb 65 n && N.leb n 90)%N then Ascii.ascii_of_N (n + 32) else c.
Fixpoint ToLower (s : string) : string :=
  match s with EmptyString => EmptyString | String c s' => String (lower c) (ToLower s') end.

(** The table [weekdays]. *)
Definition weekdays_table : list (string * Z) :=
  [("sun", 0); ("mon", 1); ("tue", 2); ("wed", 3); ("thu", 4); ("fri", 5); ("sat", 6)].
Definition weekday (w : string) : option Z :=
  snd <$> (snd <$> list_find (fun p => p.1 = ToLower w) weekdays_table).

(** The loop over the weekdays: stops at the first hit or unknown name. *)
Fixpoint weekday_hit (today : Z) (ws : list string) : result cond_error bool :=
  match ws with
  | [] => Ok false
  | w :: rest => match weekday w with
                 | None => Err (BadWeekday w)
                 | Some wd => if today =? wd then Ok true else weekday_hit today rest
                 end
  end.

(** The window [after]-[before] at minute [cur] of the day. *)
Definition in_time_window (after before : string) (cur : Z) : bool :=
  let a := (parseHM after).1 in
  let b := (parseHM before).1 in
  if is_empty after && is_empty before then true
  else if is_empty before then a <=? cur
  else if is_empty after then cur <? b
  else if a <=? b then (a <=? cur) && (cur <? b)
  else (a <=? cur) || (cur <? b).

Section Evaluate.
Context (env : Env).

(** [Evaluate] of every kind of condition. *)
Fixpoint Evaluate (c : Evaluator) : result cond_error bool :=
  match c with
  | StateCondition entity equals oneOf not_ =>
      match env_state env entity with
      | None => Ok false
      | Some s =>
          let cur := StateStr s in
          if negb (is_empty equals) then Ok (String.eqb cur equals)
          else if nonempty oneOf then Ok (contains_eq oneOf cur)
          else if negb (is_empty not_) then Ok (negb (String.eqb cur not_))
          else Err NoOperator
      end
  | NumericCondition entity attribute op value =>
      match env_state env entity with
      | None => Ok false
      | Some s =>
          let attr := if is_empty attribute then "value" else attribute in
          match Attributes s !! attr with
          | None => Ok false
          | Some raw => match toFloat env raw with
                        | None => Ok false
                        | Some f => numeric_op op f value
                        end
          end
      end
  | TimeCondition after before ws =>
      let window := Ok (in_time_window after before (env_hour env * 60 + env_minute env)) in
      if nonempty ws then
        match weekday_hit (env_weekday env) ws with
        | Err e => Err e
        | Ok false => Ok false
        | Ok true => window
        end
      else window
  | StarlarkCondition expr =>
      Ok (match env_starlark env with None => false | Some f => f expr end)
  | AndCondition all =>
      (fix go (l : list Evaluator) : result cond_error bool :=
         match l with
         | [] => Ok true
         | e :: rest => match Evaluate e with
                        | Err x => Err x
                        | Ok false => Ok false
                        | Ok true => go rest
                        end
         end) all
  | OrCondition any =>
      (fix go (l : list Evaluator) : result cond_error bool :=
         match l with
         | [] => Ok false
         | e :: rest => match Evaluate e with
                        | Err x => Err x
                        | Ok true => Ok true
                        | Ok false => go rest
                        end
         end) any
  | NotCondition inner =>
      match Evaluate inner with Err x => Err x | Ok b => Ok (negb b) end
  end.

(** [evalConditions]: a condition that fails or errs closes the gate (on an
    error the value is [false]). *)
Fixpoint evalConditions (cs : list Evaluator) : bool :=
  match cs with
  | [] => true
  | c :: rest => match Evaluate c with Ok true => evalConditions rest | _ => false end
  end.

End Evaluate.

(** ** Compilation *)

Inductive ConditionConfig :=
  | CC_State (entity equals : string) (oneOf : list string) (not_ : string)
  | CC_Numeric (entity attribute op : string) (value : spec_float)
  | CC_Time (after before : string) (weekdays : list string)
  | CC_Starlark (expr : string)
  | CC_And (all : list ConditionConfig)
  | CC_Or (any : list ConditionConfig)
  | CC_Not (inner : ConditionConfig)
  | CC_Unset.

Inductive TriggerConfig :=
  | TC_StateChange (entities : list string) (from to : string) (forDurNs : Z)
  | TC_Event (kind : string) (data : string_map)
  | TC_Time (at_ cron : string) (everyNs : Z)
  | TC_Webhook (path : string) (methods : list string)
  | TC_Unset.

(** An action's variant and its [continue_on_error] flag. *)
Inductive ActionConfig :=
  | AC_CallService (continue : bool) (entity capability : string) (args : string_map)
  | AC_Scene (continue : bool) (slug : string)
  | AC_Script (continue : bool) (name : string) (args : string_map)
  | AC_Starlark (continue : bool) (body : string)
  | AC_Wait (continue : bool) (durationNs : Z)
  | AC_Sequence (continue : bool) (actions : list ActionConfig)
  | AC_Parallel (continue : bool) (actions : list ActionConfig)
  | AC_Unset (continue : bool).

(** The executors; a block keeps each child with its [ContinueOnError]. *)
Inductive Executor :=
  | CallServiceAction (entity capability : string) (args : string_map)
  | SceneAction (slug : string)
  | ScriptAction (name : string) (args : string_map)
  | StarlarkAction (body : string)
  | WaitAction (d : Z)
  | SequenceBlock (children : list (Executor * bool))
  | ParallelBlock (children : list (Executor * bool)).

Inductive compile_err :=
  | EntitiesEmpty | EventKindEmpty | UnsupportedDataKey (k : string) | TimeExactlyOne (got : nat)
  | UnknownTrigger
  | StateExactlyOne (got : nat) | CompileNumericOp (op : string) | StarlarkCond (e : string)
  | AndEmpty | OrEmpty | UnknownCondition
  | EntityCapabilityRequired | ScriptUnknown (name : string) | StarlarkBody (e : string)
  | UnknownAction.

(** [set++] for each populated field. *)
Definition count_set (l : list bool) : nat := length (filter (fun b => b = true) l).

(** [compileTrigger]; [order] is the order Go ranges over the data. *)
Definition compileTrigger (order : string_map -> list string) (id : string) (tc : TriggerConfig) :
    result compile_err MatcherDef :=
  match tc with
  | TC_StateChange entities from to forDurNs =>
      if negb (nonempty entities) then Err EntitiesEmpty
      else Ok (StateChangeMatcher id (remove_dups entities) from to (i64 forDurNs))
  | TC_Event kind data =>
      if is_empty kind then Err EventKindEmpty
      else match ValidateEventDataKeys (order data) with
           | Some k => Err (UnsupportedDataKey k)
           | None => Ok (EventMatcher id kind data)
           end
  | TC_Time at_ cron everyNs =>
      let set_ := count_set [negb (is_empty at_); negb (is_empty cron); negb (everyNs =? 0)] in
      if negb (set_ =? 1)%nat then Err (TimeExactlyOne set_)
      else Ok (TimeMatcher id at_ cron everyNs)
  | TC_Webhook path _ => Ok (WebhookMatcher id path)
  | TC_Unset => Err UnknownTrigger
  end.

Section Compile.
(** [ghstarlark.ParseOnly]: the error, if the text does not parse. *)
Context (ParseOnly : string -> bool -> option string).
Context (scripts : string -> bool).

(** [compileCondition]. *)
Fixpoint compileCondition (cc : ConditionConfig) : result compile_err Evaluator :=
  let fix go (l : list ConditionConfig) : result compile_err (list Evaluator) :=
    match l with
    | [] => Ok []
    | c :: rest => match compileCondition c with
                   | Err e => Err e
                   | Ok ev => match go rest with Err e => Err e | Ok evs => Ok (ev :: evs) end
                   end
    end in
  match cc with
  | CC_State entity equals oneOf not_ =>
      let n := count_set [negb (is_empty equals); nonempty oneOf; negb (is_empty not_)] in
      if negb (n =? 1)%nat then Err (StateExactlyOne n)
      else Ok (StateCondition entity equals oneOf not_)
  | CC_Numeric entity attribute op value =>
      if contains_eq ["lt"; "lte"; "eq"; "gte"; "gt"] op
      then Ok (NumericCondition entity attribute op value)
      else Err (CompileNumericOp op)
  | CC_Time after before ws => Ok (TimeCondition after before ws)
  | CC_Starlark expr => match ParseOnly expr true with
                        | Some e => Err (StarlarkCond e)
                        | None => Ok (StarlarkCondition expr)
                        end
  | CC_And all => if negb (nonempty all) then Err AndEmpty
                  else match go all with Err e => Err e | Ok evs => Ok (AndCondition evs) end
  | CC_Or any => if negb (nonempty any) then Err OrEmpty
                 else match go any with Err e => Err e | Ok evs => Ok (OrCondition evs) end
  | CC_Not inner => match compileCondition inner with Err e => Err e | Ok ev => Ok (NotCondition ev) end
  | CC_Unset => Err UnknownCondition
  end.

Definition continueOnError (ac : ActionConfig) : bool :=
  match ac with
  | AC_CallService c _ _ _ | AC_Scene c _ | AC_Script c _ _ | AC_Starlark c _ | AC_Wait c _
  | AC_Sequence c _ | AC_Parallel c _ | AC_Unset c => c
  end.

(** [compileActionInstrumented], without the metric wrapper. *)
Fixpoint compileAction (ac : ActionConfig) : result compile_err Executor :=
  let fix go (l : list ActionConfig) : result compile_err (list (Executor * bool)) :=
    match l with
    | [] => Ok []
    | c :: rest =>
        match compileAction c with
        | Err e => Err e
        | Ok ex => match go rest with
                   | Err e => Err e
                   | Ok exs => Ok ((ex, continueOnError c) :: exs)
                   end
        end
    end in
  match ac with
  | AC_CallService _ entity capability args =>
      if is_empty entity || is_empty capability then Err EntityCapabilityRequired
      else Ok (CallServiceAction entity capability args)
  | AC_Scene _ slug => Ok (SceneAction slug)
  | AC_Script _ name args =>
      if negb (scripts name) then Err (ScriptUnknown name) else Ok (ScriptAction name args)
  | AC_Starlark _ body => match ParseOnly body false with
                          | Some e => Err (StarlarkBody e)
                          | None => Ok (StarlarkAction body)
                          end
  | AC_Wait _ d => Ok (WaitAction (i64 d))
  | AC_Sequence _ l => match go l with Err e => Err e | Ok xs => Ok (SequenceBlock xs) end
  | AC_Parallel _ l => match go l with Err e => Err e | Ok xs => Ok (ParallelBlock xs) end
  | AC_Unset _ => Err UnknownAction
  end.

Record AutomationConfig := mkAutomationConfig {
  cfg_ID : string;
  cfg_Enabled : bool;
  cfg_Mode : Mode;
  cfg_MaxQueued : Z;
  cfg_Triggers : list TriggerConfig;
  cfg_Conditions : list ConditionConfig;
  cfg_Actions : list ActionConfig;
  cfg_Areas : list string;
}.

(** A compiled automation, with its matchers by value. *)
Record CompiledAutomation := mkCompiledAutomation {
  ca_ID : string;
  ca_Enabled : bool;
  ca_Mode : Mode;
  ca_MaxQueued : Z;
  ca_Triggers : list MatcherDef;
  ca_Conditions : list Evaluator;
  ca_Actions : list (Executor * bool);
}.

(** The part of the configuration an [ItemError] is about, and its reason. *)
Inductive item_path := InTriggers (i : nat) | InConditions (i : nat) | InActions (i : nat) | InID.
Definition item_error : Type := string * item_path * option compile_err.

(** One loop over the items of a kind: what compiled, and an error per item
    that did not. *)
Fixpoint compile_items {A B} (id : string) (path : nat -> item_path) (f : A -> result compile_err B)
    (i : nat) (l : list A) : list B * list item_error :=
  match l with
  | [] => ([], [])
  | x :: rest =>
      let '(out, errs) := compile_items id path f (S i) rest in
      match f x with
      | Ok y => (y :: out, errs)
      | Err e => (out, (id, path i, Some e) :: errs)
      end
  end.

(** [compileOneWithMetrics]. *)
Definition compileOne (order : string_map -> list string) (ac : AutomationConfig) :
    CompiledAutomation * list item_error :=
  let id := cfg_ID ac in
  let maxQueued := if cfg_MaxQueued ac <=? 0 then 10 else cfg_MaxQueued ac in
  let '(ts, e1) := compile_items id InTriggers (compileTrigger order id) 0 (cfg_Triggers ac) in
  let '(cs, e2) := compile_items id InConditions compileCondition 0 (cfg_Conditions ac) in
  let '(xs, e3) := compile_items id InActions
                     (fun a => match compileAction a with
                               | Ok ex => Ok (ex, continueOnError a)
                               | Err e => Err e
                               end) 0 (cfg_Actions ac) in
  (mkCompiledAutomation id (cfg_Enabled ac) (cfg_Mode ac) maxQueued ts cs xs, e1 ++ e2 ++ e3).

(** [CompileAutomations]: the loop, its map and its errors. *)
Fixpoint compile_all (order : string_map -> list string) (acs : list AutomationConfig)
    (out : gmap string CompiledAutomation) (errs : list item_error) :
    gmap string CompiledAutomation * list item_error :=
  match acs with
  | [] => (out, errs)
  | ac :: rest =>
      if is_empty (cfg_ID ac) then compile_all order rest out (errs ++ [("<unset>", InID, None)])
      else
        let '(a, itemErrs) := compileOne order ac in
        if nonempty itemErrs then compile_all order rest out (errs ++ itemErrs)
        else match out !! ca_ID a with
             | Some _ => compile_all order rest out (errs ++ [(ca_ID a, InID, None)])
             | None => compile_all order rest (<[ca_ID a := a]> out) errs
             end
  end.

Definition CompileAutomations (order : string_map -> list string) (acs : list AutomationConfig) :
    result (list item_error) (gmap string CompiledAutomation) :=
  let '(out, errs) := compile_all order acs ∅ [] in
  if nonempty errs then Err errs else Ok out.

End Compile.

(** ** Execution *)

(** What an action's error is to [classify]: a Starlark limit, a cancelled
    context, or another failure; with its text. *)
Inductive act_kind := LimitErr | CanceledErr | OtherErr.
Definition act_err : Type := act_kind * string.

Definition is_leaf (e : Executor) : bool :=
  match e with SequenceBlock _ | ParallelBlock _ => false | _ => true end.

(** [WaitAction.Execute]: at once for a non-positive duration, otherwise it ends
    with the timer or, [cancelled], with the context. *)
Definition wait_result (d : Z) (cancelled : option act_err) : option act_err :=
  if d <=? 0 then None else cancelled.

(** A leaf that ran, and what it returned. *)
Definition leaf_event : Type := Executor * option act_err.

(** [t] interleaves the traces [ts]. *)
Inductive interleave {A} : list (list A) -> list A -> Prop :=
  | il_nil ts : Forall (fun t => t = []) ts -> interleave ts []
  | il_cons ts1 x t ts2 rest :
      interleave (ts1 ++ t :: ts2) rest -> interleave (ts1 ++ (x :: t) :: ts2) (x :: rest).

(** The errors of the children whose failure counts. *)
Definition hard_errors (rs : list (option act_err * bool)) : list act_err :=
  omap (fun r : option act_err * bool => if r.2 then None else r.1) rs.

(** [Execute]: the leaves run, in order, and the result. The children of a
    parallel block run concurrently, all of them to their end, and the block
    returns one of their errors, whichever came first. *)
Inductive Execute : Executor -> list leaf_event -> option act_err -> Prop :=
  | Exec_leaf e r :
      is_leaf e = true -> (forall d, e = WaitAction d -> d <= 0 -> r = None) ->
      Execute e [(e, r)] r
  | Exec_seq_nil : Execute (SequenceBlock []) [] None
  | Exec_seq_ok child cont rest t1 r1 t2 r2 :
      Execute child t1 r1 -> r1 = None \/ cont = true ->
      Execute (SequenceBlock rest) t2 r2 ->
      Execute (SequenceBlock ((child, cont) :: rest)) (t1 ++ t2) r2
  | Exec_seq_err child rest t1 x :
      Execute child t1 (Some x) ->
      Execute (SequenceBlock ((child, false) :: rest)) t1 (Some x)
  | Exec_par children ts rs t r :
      Execute_all children ts rs -> interleave ts t ->
      (r = None /\ hard_errors rs = [] \/ exists x, r = Some x /\ x ∈ hard_errors rs) ->
      Execute (ParallelBlock children) t r
with Execute_all : list (Executor * bool) -> list (list leaf_event) -> list (option act_err * bool) -> Prop :=
  | EA_nil : Execute_all [] [] []
  | EA_cons child cont rest t r ts rs :
      Execute child t r -> Execute_all rest ts rs ->
      Execute_all ((child, cont) :: rest) (t :: ts) ((r, cont) :: rs).

(** [classify]; [ctx_canceled] tells whether the run's context was cancelled. *)
Definition classify (err : option act_err) (ctx_canceled : bool) : RunOutcome :=
  match err with
  | None => OUTCOME_OK
  | Some (k, _) =>
      match k with
      | LimitErr => OUTCOME_LIMIT_EXCEEDED
      | CanceledErr => OUTCOME_CANCELLED
      | OtherErr => if ctx_canceled then OUTCOME_CANCELLED else OUTCOME_ACTION_ERROR
      end
  end.

(** [runOutcomeLabel]. *)
Definition RunOutcome_String (o : RunOutcome) : string :=
  match o with
  | OUTCOME_UNSPECIFIED => "OUTCOME_UNSPECIFIED" | OUTCOME_OK => "OUTCOME_OK"
  | OUTCOME_CONDITION_FAIL => "OUTCOME_CONDITION_FAIL" | OUTCOME_ACTION_ERROR => "OUTCOME_ACTION_ERROR"
  | OUTCOME_LIMIT_EXCEEDED => "OUTCOME_LIMIT_EXCEEDED" | OUTCOME_CANCELLED => "OUTCOME_CANCELLED"
  | OUTCOME_SKIPPED => "OUTCOME_SKIPPED"
  end.
Definition runOutcomeLabel (o : RunOutcome) : string :=
  let s := RunOutcome_String o in
  if (8 <? String.length s)%nat then ToLower (String.substring 8 (String.length s - 8) s) else ToLower s.

(** The two events of a run. *)
Definition triggered_event (now corr : Z) (id : string) (m : Match) (invokedBy : string) : Event :=
  mkEvent 0 now "automation_triggered" "" ("automation:" +:+ id) corr 0
    (Some (Some (Payload_AutomationTriggered
       (mkAutomationTriggered id corr (match MatchEvent m with Some ev => Position ev | None => 0 end)
          (TriggerKind m) invokedBy)))).

Definition finished_event (now corr : Z) (id : string) (o : RunOutcome) (err : string) : Event :=
  mkEvent 0 now "automation_finished" "" ("automation:" +:+ id) corr 0
    (Some (Some (Payload_AutomationFinished (mkAutomationFinished id corr o err)))).

(** [executeRun]: the events it passes to [Append] (whose result it ignores), the
    leaves it runs and its outcome.
    [env] is what the conditions see, [ctx_canceled] whether the context was
    cancelled by the end. *)
Inductive executeRun (a : CompiledAutomation) (m : Match) (invokedBy : string) (now1 now2 corr : Z)
    (env : Env) (ctx_canceled : bool) : list Event -> list leaf_event -> RunOutcome -> Prop :=
  | Run_condition_fail :
      evalConditions env (ca_Conditions a) = false ->
      executeRun a m invokedBy now1 now2 corr env ctx_canceled
        [triggered_event now1 corr (ca_ID a) m invokedBy;
         finished_event now2 corr (ca_ID a) OUTCOME_CONDITION_FAIL ""] [] OUTCOME_CONDITION_FAIL
  | Run_actions t err :
      evalConditions env (ca_Conditions a) = true ->
      Execute (SequenceBlock (ca_Actions a)) t err ->
      executeRun a m invokedBy now1 now2 corr env ctx_canceled
        [triggered_event now1 corr (ca_ID a) m invokedBy;
         finished_event now2 corr (ca_ID a) (classify err ctx_canceled)
           (match err with Some (_, msg) => msg | None => "" end)] t (classify err ctx_canceled).
