(* ===== verification/Scheduler.v ===== *)
(** * The scheduler of time triggers

    Models [internal/automation/trigger/time.go], over the binary heap of [Heap], and
    the part of [automation/engine.go] and [reload.go] that fills it. The cron library
    is two parameters: its parser and [Next], whose documentation says that it returns
    a later time, or the zero time when there is none. The clock is an argument.

    [fireDue_exact]: which automations fire and when each is due again.
    [unsatisfiable_cron_hangs], [reload_starves]: when that fails. *)

From Stdlib Require Import Ascii String.
From S2P Require Import Prelude Sorting Heap Codec Triggers Engine Rules.

Inductive sched_error := BadCron (expr msg : string) | BadTime (hm : string) | TimeOutOfRange (hm : string) | BadAt (msg : string) | EveryNotPositive.

(** The capacity of the channel [ready]. *)
Definition ready_cap : nat := 32.

Section Scheduler.
Context {C : Type} (Parse : string -> result string C) (cron_Next : C -> Z -> Z).

(** [cron.Schedule]: a parsed expression or [everySchedule]. *)
Inductive Schedule := Cron_spec (c : C) | everySchedule (interval : Z).

Definition Next (sc : Schedule) (t : Z) : Z :=
  match sc with Cron_spec c => cron_Next c t | everySchedule d => t + d end.

Record scheduledEntry := mkScheduled { automationID : string; se_schedule : Schedule; next : Z }.

(** The entries, the matches that wait in [ready], and whether [wakeCh] is full. *)
Record TimeScheduler := mkScheduler { entries : list scheduledEntry; ready : list string; wake : bool }.

Definition NewTimeScheduler : TimeScheduler := mkScheduler [] [] false.

Definition add (now : Z) (id : string) (sc : Schedule) (s : TimeScheduler) : TimeScheduler :=
  mkScheduler (Push next (mkScheduled id sc (Next sc now)) (entries s)) (ready s) true.

Definition AddCron (now : Z) (id expr : string) (s : TimeScheduler) : TimeScheduler * option sched_error :=
  match Parse expr with
  | Err msg => (s, Some (BadCron expr msg))
  | Ok c => (add now id (Cron_spec c) s, None)
  end.

Definition AddAt (now : Z) (id hm : string) (s : TimeScheduler) : TimeScheduler * option sched_error :=
  match scan_hm hm with
  | None => (s, Some (BadTime hm))
  | Some (h, m) =>
      if (h <? 0) || (h >? 23) || (m <? 0) || (m >? 59) then (s, Some (TimeOutOfRange hm))
      else match Parse (pretty m +:+ " " +:+ pretty h +:+ " * * *") with
           | Err msg => (s, Some (BadAt msg))
           | Ok c => (add now id (Cron_spec c) s, None)
           end
  end.

Definition AddEvery (now : Z) (id : string) (d : Z) (s : TimeScheduler) : TimeScheduler * option sched_error :=
  if d <=? 0 then (s, Some EveryNotPositive) else (add now id (everySchedule d) s, None).

Definition Reset (s : TimeScheduler) : TimeScheduler := mkScheduler [] (ready s) true.

(** How long [Run] sleeps; 0 is no sleep when there are entries. *)
Definition sleep (now : Z) (s : TimeScheduler) : Z :=
  match entries s with
  | [] => Hour
  | e :: _ => Z.max 0 (next e - now)
  end.

(** A match that finds [ready] full is dropped. *)
Definition offer (id : string) (r : list string) : list string := if (length r <? ready_cap)%nat then r ++ [id] else r.

Definition rescheduled (now : Z) (e : scheduledEntry) : scheduledEntry :=
  mkScheduled (automationID e) (se_schedule e) (Next (se_schedule e) now).

(** [fireDue] with the ids it fired; [None] when the fuel did not suffice. *)
Fixpoint fireDue (fuel : nat) (now : Z) (s : TimeScheduler) : option (TimeScheduler * list string) :=
  match entries s with
  | [] => Some (s, [])
  | e :: rest =>
      if now <? next e then Some (s, [])
      else match fuel with
           | O => None
           | S n =>
               '(s', fired) ← fireDue n now (mkScheduler (Fix_root next (rescheduled now e :: rest)) (offer (automationID e) (ready s)) (wake s));
               Some (s', automationID e :: fired)
           end
  end.

(** One turn of the loop of [Run], which begins at [now]: the timer ends or
    [wakeCh] is read at [later]. *)
Inductive wakeup := TimerEnds | Woken.
Definition Run_turn (fuel : nat) (now later : Z) (w : wakeup) (s : TimeScheduler) : option (TimeScheduler * list string) :=
  match entries s with
  | _ :: _ => if sleep now s =? 0 then fireDue fuel now s
              else match w with TimerEnds => fireDue fuel later s | Woken => Some (mkScheduler (entries s) (ready s) false, []) end
  | [] => match w with TimerEnds => fireDue fuel later s | Woken => Some (mkScheduler (entries s) (ready s) false, []) end
  end.

(** The engine takes a match from [Ready]. *)
Definition take_ready (s : TimeScheduler) : option (string * TimeScheduler) :=
  match ready s with [] => None | id :: r => Some (id, mkScheduler (entries s) r (wake s)) end.

(** [registerTriggers] and [Reload]: errors are dropped. *)
Definition add_schedule (s : TimeScheduler) (x : string * schedule * Z) : TimeScheduler :=
  let '(id, sc, now) := x in
  match sc with
  | At hm => (AddAt now id hm s).1
  | Cron expr => (AddCron now id expr s).1
  | Every d => (AddEvery now id d s).1
  end.

(** The end of [Reload]: the times are those at which each entry is added. *)
Definition rebuild (l : list (string * schedule * Z)) (s : TimeScheduler) : TimeScheduler := foldl add_schedule (Reset s) l.

(** ** The heap order *)

Definition ordered (s : TimeScheduler) : Prop := heap next (entries s).

Lemma add_ordered now id sc s : ordered s -> ordered (add now id sc s).
Proof. apply Push_heap. Qed.

Lemma add_schedule_ordered s x : ordered s -> ordered (add_schedule s x).
Proof.
  intros Hs. destruct x as [[id sc] now]. destruct sc as [hm|expr|d]; cbn [add_schedule].
  - unfold AddAt. destruct (scan_hm hm) as [[h m]|]; [|done]. destruct (_ || _); [done|]. destruct (Parse _); [by apply add_ordered|done].
  - unfold AddCron. destruct (Parse expr); [by apply add_ordered|done].
  - unfold AddEvery. destruct (d <=? 0); [done|by apply add_ordered].
Qed.

Lemma rebuild_ordered l s : ordered (rebuild l s).
Proof.
  unfold rebuild. assert (Hs : ordered (Reset s)) by (intros j Hj x y; cbn; by rewrite lookup_nil).
  revert Hs. generalize (Reset s). induction l as [|x l IH]; intros s0 Hs; [done|]. cbn [foldl]. apply IH. by apply add_schedule_ordered.
Qed.

(** The scheduler never oversleeps: the time it sleeps ends no later than any
    entry is due, and it does not sleep while an entry is due. *)
Theorem sleep_exact now s e :
  ordered s -> e ∈ entries s -> now + sleep now s <= Z.max now (next e) /\ (next e <= now -> sleep now s = 0).
Proof.
  intros Hs He. unfold sleep. destruct (entries s) as [|r rest] eqn:Hent; [by apply not_elem_of_nil in He|].
  apply list_elem_of_lookup in He as [j Hj]. assert (Hr : next r <= next e).
  { unfold ordered in Hs. rewrite Hent in Hs. by apply (heap_root next (r :: rest) r j). }
  lia.
Qed.

(** ** Firing *)

Definition due (now : Z) (e : scheduledEntry) : bool := next e <=? now.
Definition advance (now : Z) (e : scheduledEntry) : scheduledEntry := if due now e then rescheduled now e else e.

(** The schedules advance. *)
Definition progressive (now : Z) (e : scheduledEntry) : Prop := now < Next (se_schedule e) now.

Definition offer_all (l : list string) (r : list string) : list string := foldl (fun r id => offer id r) r l.

Lemma offer_all_take l r : (length r <= ready_cap)%nat -> offer_all l r = r ++ take (ready_cap - length r) l.
Proof.
  revert r. induction l as [|id l IH]; intros r Hr; [by rewrite take_nil, app_nil_r|]. unfold offer_all in *. cbn [foldl]. unfold offer at 2.
  destruct (Nat.ltb_spec (length r) ready_cap) as [Hlt|Hge].
  - rewrite IH by (rewrite length_app; cbn; lia). rewrite length_app. cbn [length]. rewrite <- app_assoc. f_equal.
    replace (ready_cap - length r)%nat with (S (ready_cap - (length r + 1))) by lia. done.
  - rewrite IH by done. by replace (ready_cap - length r)%nat with 0%nat by lia.
Qed.

Definition by_next (a b : scheduledEntry) : Prop := next a <= next b.

Abbreviation dues_of now l := (filter (fun e => due now e = true) l).

(** The root is due before every other entry. *)
Lemma root_least s e rest x : ordered s -> entries s = e :: rest -> x ∈ entries s -> next e <= next x.
Proof.
  intros Hs He Hx. apply list_elem_of_lookup in Hx as [j Hj]. unfold ordered in Hs. rewrite He in *. by apply (heap_root next (e :: rest) e j).
Qed.

Lemma none_due s e rest now : ordered s -> entries s = e :: rest -> now < next e -> Forall (fun x => due now x = false) (entries s).
Proof.
  intros Hs He Hlt. apply Forall_forall. intros x Hx. pose proof (root_least s e rest x Hs He Hx). unfold due. lia.
Qed.

Lemma none_due_same now l : Forall (fun x => due now x = false) l -> dues_of now l = [] /\ advance now <$> l = l.
Proof.
  induction 1 as [|x l Hx Hl [IH1 IH2]]; [done|]. rewrite filter_cons_False by (by rewrite Hx). split; [done|].
  cbn. rewrite IH2. unfold advance. by rewrite Hx.
Qed.

Lemma root_cases now s :
  ordered s ->
  ((forall fuel, fireDue fuel now s = Some (s, [])) /\ Forall (fun x => due now x = false) (entries s)) \/
  exists e rest, entries s = e :: rest /\ next e <= now.
Proof.
  intros Hs. destruct (entries s) as [|e rest] eqn:He.
  - left. split; [|done]. intros fuel. by destruct fuel; cbn [fireDue]; rewrite He.
  - destruct (now <? next e) eqn:Hlt; [left|right; exists e, rest; split; [done|lia]]. split.
    + intros fuel. by destruct fuel; cbn [fireDue]; rewrite He, Hlt.
    + rewrite <- He. apply (none_due s e rest); [done|done|lia].
Qed.

Definition fired_root (now : Z) (e : scheduledEntry) (rest : list scheduledEntry) (s : TimeScheduler) : TimeScheduler :=
  mkScheduler (Fix_root next (rescheduled now e :: rest)) (offer (automationID e) (ready s)) (wake s).

Lemma fired_root_ordered now e rest s : ordered s -> entries s = e :: rest -> ordered (fired_root now e rest s).
Proof. intros Hs He. unfold ordered in *. rewrite He in Hs. by apply Fix_heap with e. Qed.

Lemma fireDue_spec fuel now s :
  ordered s -> Forall (progressive now) (entries s) -> (length (dues_of now (entries s)) <= fuel)%nat ->
  exists s' dues, fireDue fuel now s = Some (s', automationID <$> dues) /\
    dues ≡ₚ dues_of now (entries s) /\ StronglySorted by_next dues /\
    entries s' ≡ₚ advance now <$> entries s /\ ordered s' /\ ready s' = offer_all (automationID <$> dues) (ready s).
Proof.
  revert s. induction fuel as [|n IH]; intros s Hs Hpr Hfuel;
    (destruct (root_cases now s Hs) as [[Hnf Hnd]|(e & rest & He & Hle)];
     [destruct (none_due_same now (entries s) Hnd) as [H1 H2]; exists s, []; rewrite H1, H2; by split_and!; [apply Hnf| |constructor|..]|]).
  { rewrite He, filter_cons_True in Hfuel by (unfold due; lia). cbn in Hfuel. lia. }
  rewrite He in Hpr, Hfuel. assert (Hlt : now <? next e = false) by lia.
  assert (Hdue : due now e = true) by (unfold due; lia). apply Forall_cons in Hpr as [Hpe Hpr].
  assert (Hnd : due now (rescheduled now e) = false) by (unfold due, progressive in *; cbn; lia).
  set (s1 := fired_root now e rest s).
  assert (Hents : entries s1 ≡ₚ rescheduled now e :: rest) by apply Fix_perm.
  destruct (IH s1) as (s' & dues & Hf & Hd & Hsort & Hadv & Hord & Hrdy).
  - by apply fired_root_ordered.
  - rewrite Hents. by constructor.
  - rewrite Hents, filter_cons_False by (by rewrite Hnd). rewrite filter_cons_True in Hfuel by done. cbn in Hfuel. lia.
  - exists s', (e :: dues). cbn [fireDue]. rewrite He, Hlt. fold (fired_root now e rest s). fold s1. rewrite Hf. split_and!; [done| | | |done|exact Hrdy].
    + rewrite filter_cons_True by done. rewrite Hd, Hents, filter_cons_False by (by rewrite Hnd). done.
    + constructor; [done|]. rewrite Hd, Hents, filter_cons_False by (by rewrite Hnd). apply Forall_forall. intros x [_ Hx]%list_elem_of_filter.
      apply (root_least s e rest x Hs He). rewrite He. by right.
    + rewrite Hadv, Hents. cbn. unfold advance at 1 3. by rewrite Hnd, Hdue.
Qed.

(** C21. What is due fires, once and in order: when every schedule advances, one call
    fires each entry that is due exactly once, the longest due first, and leaves it
    scheduled after the present; the other entries stay as they are; the matches fill
    the 32 places of [ready] and the rest is dropped; then nothing is due and the heap
    is in order. As many turns suffice as there are entries. *)
Theorem fireDue_exact now s :
  ordered s -> Forall (progressive now) (entries s) -> (length (ready s) <= ready_cap)%nat ->
  exists s' dues, fireDue (length (entries s)) now s = Some (s', automationID <$> dues) /\
    dues ≡ₚ dues_of now (entries s) /\ StronglySorted by_next dues /\
    entries s' ≡ₚ advance now <$> entries s /\ Forall (fun e => now < next e) (entries s') /\ ordered s' /\
    ready s' = ready s ++ take (ready_cap - length (ready s)) (automationID <$> dues).
Proof.
  intros Hs Hpr Hr. destruct (fireDue_spec (length (entries s)) now s Hs Hpr) as (s' & dues & Hf & Hd & Hsort & Hadv & Hord & Hrdy).
  { apply length_filter. }
  exists s', dues. split_and!; try done.
  - rewrite Hadv, Forall_fmap. eapply Forall_impl; [exact Hpr|]. intros e He. cbn. unfold advance, due, progressive in *.
    destruct (next e <=? now) eqn:Hle; cbn; lia.
  - by rewrite Hrdy, offer_all_take.
Qed.

(** A turn that is not cut short by [wakeCh] leaves nothing due. *)
Lemma Run_turn_clears now later s :
  ordered s -> Forall (progressive now) (entries s) -> Forall (progressive later) (entries s) -> now + sleep now s <= later ->
  exists s' fired t, Run_turn (length (entries s)) now later TimerEnds s = Some (s', fired) /\
    (t = now \/ t = later) /\ Forall (fun e => t < next e) (entries s') /\ ordered s' /\
    (forall e, e ∈ entries s -> next e <= now -> automationID e ∈ fired).
Proof.
  intros Hs Hp1 Hp2 Hlater. assert (Hgo : forall t, Forall (progressive t) (entries s) -> (forall e, e ∈ entries s -> next e <= now -> next e <= t) ->
    exists s' fired, fireDue (length (entries s)) t s = Some (s', fired) /\ Forall (fun e => t < next e) (entries s') /\ ordered s' /\
      (forall e, e ∈ entries s -> next e <= now -> automationID e ∈ fired)).
  { intros t Hp Hle. destruct (fireDue_spec (length (entries s)) t s Hs Hp) as (s' & dues & Hf & Hd & _ & Hadv & Hord & _); [apply length_filter|].
    exists s', (automationID <$> dues). split_and!; [done| |done|].
    - rewrite Hadv, Forall_fmap. eapply Forall_impl; [exact Hp|]. intros e He. cbn. unfold advance, due, progressive in *.
      destruct (next e <=? t) eqn:Hlt; cbn; lia.
    - intros e He Hn. apply list_elem_of_fmap_2. rewrite Hd. apply list_elem_of_filter. split; [|done]. unfold due. specialize (Hle e He Hn). lia. }
  unfold Run_turn. destruct (entries s) as [|r rest] eqn:He; [|destruct (sleep now s =? 0) eqn:Hz].
  - destruct (Hgo later Hp2) as (s' & fired & Hf & H1 & H2 & H3); [intros e Hin; by apply not_elem_of_nil in Hin|]. exists s', fired, later. auto.
  - destruct (Hgo now Hp1) as (s' & fired & Hf & H1 & H2 & H3); [done|]. exists s', fired, now. auto.
  - destruct (Hgo later Hp2) as (s' & fired & Hf & H1 & H2 & H3); [|exists s', fired, later; auto]. intros e _ Hn.
    unfold sleep in Hlater. rewrite He in Hlater. lia.
Qed.

(** ** Schedules that do not advance *)

(** A cron expression that no date satisfies stops the scheduler: its [Next] is the
    zero time, so the entry is due for ever and [fireDue] never returns, whatever
    else is scheduled, firing the automation without a pause. *)
Theorem unsatisfiable_cron_hangs now s e fuel :
  ordered s -> e ∈ entries s -> next e <= now -> Next (se_schedule e) now <= now -> fireDue fuel now s = None.
Proof.
  intros Hs He Hn Hnext. assert (Hex : exists x, x ∈ entries s /\ next x <= now /\ Next (se_schedule x) now <= now) by (by exists e).
  clear e He Hn Hnext. revert s Hs Hex. induction fuel as [|n IH]; intros s Hs (e & He & Hn & Hnext); cbn [fireDue];
    (destruct (entries s) as [|r rest] eqn:Hents; [by apply not_elem_of_nil in He|]);
    (assert (now <? next r = false) as -> by (pose proof (root_least s r rest e Hs Hents ltac:(by rewrite Hents)); lia)); [done|].
  fold (fired_root now r rest s). rewrite IH; [done|by apply fired_root_ordered|].
  assert (Hperm : entries (fired_root now r rest s) ≡ₚ rescheduled now r :: rest) by apply Fix_perm. setoid_rewrite Hperm.
  apply elem_of_cons in He as [->|He].
  - exists (rescheduled now r). split; [left|]. by cbn.
  - exists e. split; [by right|done].
Qed.

(** ** Intervals *)

(** The calls of [fireDue] at the times [ts], with what each fires. *)
Fixpoint fire_at (ts : list Z) (s : TimeScheduler) : option (TimeScheduler * list (list string)) :=
  match ts with
  | [] => Some (s, [])
  | t :: rest =>
      '(s1, fired) ← fireDue (length (entries s)) t s; '(s2, more) ← fire_at rest s1; Some (s2, fired :: more)
  end.

Lemma not_due_fires_nothing now s : ordered s -> Forall (fun e => now < next e) (entries s) -> fireDue (length (entries s)) now s = Some (s, []).
Proof.
  intros Hs Hf. destruct (entries s) as [|e rest] eqn:He; cbn [length fireDue]; rewrite He; [done|].
  apply Forall_cons in Hf as [Hlt _]. by assert (now <? next e = true) as -> by lia.
Qed.

Lemma fire_at_nothing ts s :
  ordered s -> Forall (fun t => Forall (fun e => t < next e) (entries s)) ts -> exists out, fire_at ts s = Some (s, out) /\ Forall (fun l => l = []) out.
Proof.
  intros Hs. induction 1 as [|t ts Ht Hts IH]; [by exists []|]. destruct IH as (out & Ho & Hout). exists ([] :: out).
  cbn [fire_at]. rewrite not_due_fires_nothing by done. cbn. rewrite Ho. cbn. split; [done|by constructor].
Qed.

(** One reload of the configuration at [t0] and the wake-ups before the next. *)
Fixpoint reloads (id : string) (d : Z) (rounds : list (Z * list Z)) (s : TimeScheduler) : option (TimeScheduler * list (list string)) :=
  match rounds with
  | [] => Some (s, [])
  | (t0, ts) :: rest =>
      '(s1, out) ← fire_at ts (rebuild [(id, Every d, t0)] s); '(s2, more) ← reloads id d rest s1; Some (s2, out ++ more)
  end.

(** Reloads can starve an interval: every reload starts it anew, so that an
    automation whose configuration is reloaded more often than its interval never
    fires, however long that goes on and however often the scheduler wakes up. *)
Theorem reload_starves id d rounds s :
  0 < d -> Forall (fun r : Z * list Z => Forall (fun t => t < r.1 + d) r.2) rounds ->
  exists s' out, reloads id d rounds s = Some (s', out) /\ Forall (fun l => l = []) out.
Proof.
  intros Hd Hr. revert s. induction Hr as [|[t0 ts] rounds Ht Hr IH]; intros s; [by exists s, []|]. cbn [reloads fst snd] in *.
  set (s1 := rebuild [(id, Every d, t0)] s).
  assert (Hents : entries s1 = [mkScheduled id (everySchedule d) (t0 + d)]).
  { unfold s1, rebuild. cbn [foldl add_schedule]. unfold AddEvery. assert (d <=? 0 = false) as -> by lia. done. }
  assert (Hord : ordered s1) by apply rebuild_ordered. clearbody s1.
  destruct (fire_at_nothing ts s1 Hord) as (out & Ho & Hout).
  { eapply Forall_impl; [exact Ht|]. cbn. intros t Hlt. rewrite Hents. repeat constructor. cbn. lia. }
  rewrite Ho. cbn. destruct (IH s1) as (s' & more & Hm & Hmore). rewrite Hm. exists s', (out ++ more). split; [done|by apply Forall_app].
Qed.

End Scheduler.

(** ** Examples *)

Module SchedulerDemo.

(** A cron library whose expressions are periods; the thirtieth of February never is. *)
Definition Parse (expr : string) : result string Z := if String.eqb expr "0 0 30 2 *" then Ok 0 else Ok Minute.
Definition cron_Next (period t : Z) : Z := if period =? 0 then zero_time else (t / period + 1) * period.
Abbreviation Sch := (TimeScheduler (C := Z)).

Definition three : Sch :=
  rebuild Parse cron_Next [("a", Every (90 * Second), 0); ("b", Cron "* * * * *", 0); ("c", At "07:30", 0); ("d", Every (- 5), 0); ("e", At "24:00", 0)]
    NewTimeScheduler.

Example three_entries : (fun e => (automationID e, next e)) <$> entries three = [("b", Minute); ("a", 90 * Second); ("c", Minute)].
Proof. vm_compute. reflexivity. Qed.

Lemma three_ordered : ordered three.
Proof. apply rebuild_ordered. Qed.
Lemma three_progressive : Forall (progressive cron_Next (100 * Second)) (entries three).
Proof. repeat constructor; vm_compute; reflexivity. Qed.

Lemma sleep_exact_witness : 10 * Second + sleep (10 * Second) three <= Z.max (10 * Second) Minute /\ (Minute <= 10 * Second -> sleep (10 * Second) three = 0).
Proof.
  apply (sleep_exact (10 * Second) three (mkScheduled "b" (Cron_spec Minute) Minute) three_ordered).
  apply list_elem_of_lookup. exists 0%nat. vm_compute. reflexivity.
Defined.

Lemma fireDue_exact_witness :
  exists s' dues, fireDue cron_Next 3 (100 * Second) three = Some (s', automationID <$> dues) /\
    dues ≡ₚ filter (fun e => due (100 * Second) e = true) (entries three) /\ ordered s'.
Proof.
  destruct (fireDue_exact cron_Next (100 * Second) three three_ordered three_progressive ltac:(by vm_compute; lia)) as (s' & dues & H1 & H2 & _ & _ & _ & H3 & _).
  exists s', dues. split; [exact H1|]. split; [exact H2|exact H3].
Defined.

Definition february : Sch := (AddCron Parse cron_Next 5 "feb" "0 0 30 2 *" three).1.
Lemma unsatisfiable_cron_hangs_witness : fireDue cron_Next 1000 5 february = None.
Proof.
  refine (unsatisfiable_cron_hangs cron_Next 5 february (mkScheduled "feb" (Cron_spec 0) zero_time) 1000 _ _ _ _).
  - apply add_ordered, three_ordered.
  - apply list_elem_of_lookup. exists 0%nat. vm_compute. reflexivity.
  - by vm_compute.
  - by vm_compute.
Defined.

(** An hourly automation whose configuration is reloaded every half an hour. *)
Definition half_hours : list (Z * list Z) :=
  (fun n => (n * 30 * Minute, [n * 30 * Minute + 15 * Minute; n * 30 * Minute + 29 * Minute])) <$> seqZ 0 5.
Lemma reload_starves_witness :
  exists s' out, reloads Parse cron_Next "hourly" Hour half_hours NewTimeScheduler = Some (s', out) /\ Forall (fun l => l = []) out.
Proof.
  refine (reload_starves Parse cron_Next "hourly" Hour half_hours NewTimeScheduler _ _); [done|].
  repeat constructor; vm_compute; reflexivity.
Defined.

End SchedulerDemo.
