(* ===== verification/RulesFacts.v ===== *)
(** * Conditions mean what they say, and runs do what the automation lists *)

From Stdlib Require Import SpecFloat.
From S2P Require Import Prelude Codec Events EventStore Triggers Engine Rules.

(** ** What a configured condition says *)

Section Conditions.
Context (env : Env).

(** The meaning of a condition, read off its configuration. *)
Fixpoint cond_holds (cc : ConditionConfig) : Prop :=
  match cc with
  | CC_State entity equals oneOf not_ =>
      exists s, env_state env entity = Some s /\
        (equals <> "" /\ StateStr s = equals \/ oneOf <> [] /\ StateStr s ∈ oneOf \/
         not_ <> "" /\ StateStr s <> not_)
  | CC_Numeric entity attribute op value =>
      exists s raw f, env_state env entity = Some s /\
        Attributes s !! (if is_empty attribute then "value" else attribute) = Some raw /\
        toFloat env raw = Some f /\ numeric_op op f value = Ok true
  | CC_Time after before ws =>
      (ws = [] \/ exists w, w ∈ ws /\ weekday w = Some (env_weekday env)) /\
      in_time_window after before (env_hour env * 60 + env_minute env) = true
  | CC_Starlark expr => exists f, env_starlark env = Some f /\ f expr = true
  | CC_And all => foldr (fun c P => cond_holds c /\ P) True all
  | CC_Or any => foldr (fun c P => cond_holds c \/ P) False any
  | CC_Not inner => ~ cond_holds inner
  | CC_Unset => False
  end.

End Conditions.

(** Every weekday named in the condition is one. *)
Fixpoint weekdays_known (cc : ConditionConfig) : bool :=
  match cc with
  | CC_Time _ _ ws => forallb (fun w => bool_decide (is_Some (weekday w))) ws
  | CC_And l | CC_Or l => foldr (fun c b => weekdays_known c && b) true l
  | CC_Not c => weekdays_known c
  | _ => true
  end.

(** Induction over conditions and the lists in them. *)
Lemma ConditionConfig_nested_ind (P : ConditionConfig -> Prop) :
  (forall e q o n, P (CC_State e q o n)) -> (forall e a o v, P (CC_Numeric e a o v)) ->
  (forall a b w, P (CC_Time a b w)) -> (forall e, P (CC_Starlark e)) ->
  (forall l, Forall P l -> P (CC_And l)) -> (forall l, Forall P l -> P (CC_Or l)) ->
  (forall c, P c -> P (CC_Not c)) -> P CC_Unset -> forall c, P c.
Proof.
  intros H1 H2 H3 H4 H5 H6 H7 H8. fix IH 1. intros [| | | |l|l|c|].
  - apply H1.
  - apply H2.
  - apply H3.
  - apply H4.
  - apply H5. induction l; constructor; auto.
  - apply H6. induction l; constructor; auto.
  - apply H7, IH.
  - exact H8.
Qed.

Lemma weekday_hit_spec today ws :
  forallb (fun w => bool_decide (is_Some (weekday w))) ws = true ->
  exists b, weekday_hit today ws = Ok b /\ (b = true <-> exists w, w ∈ ws /\ weekday w = Some today).
Proof.
  induction ws as [|w ws IH]; intros Hk.
  { exists false. split; [done|]. split; [done|]. by intros (w & ?%not_elem_of_nil & _). }
  cbn in Hk. apply andb_true_iff in Hk as [[wd Hwd]%bool_decide_eq_true Hk]. cbn. rewrite Hwd.
  destruct (Z.eqb_spec today wd) as [->|Hne].
  - exists true. split; [done|]. split; [|done]. intros _. exists w. split; [left | done].
  - destruct (IH Hk) as (b & -> & Hb). exists b. split; [done|]. rewrite Hb. split.
    + intros (w' & Hin & Hw'). exists w'. split; [by right | done].
    + intros (w' & [->|Hin]%elem_of_cons & Hw'); [congruence|]. by exists w'.
Qed.

Lemma numeric_op_ok op f v :
  contains_eq ["lt"; "lte"; "eq"; "gte"; "gt"] op = true -> exists b, numeric_op op f v = Ok b.
Proof.
  intros Hop%contains_eq_spec. unfold numeric_op.
  repeat (apply elem_of_cons in Hop as [->|Hop]; [cbn; by eexists|]). by apply not_elem_of_nil in Hop.
Qed.

Lemma count_set_cons b l : count_set (b :: l) = ((if b then 1 else 0) + count_set l)%nat.
Proof. unfold count_set. rewrite filter_cons. by destruct b. Qed.

Section CompileCorrect.
Context (ParseOnly : string -> bool -> option string) (env : Env).

(** The condition evaluates, to its meaning. *)
Definition evaluates (c : Evaluator) (P : Prop) : Prop :=
  exists b, Evaluate env c = Ok b /\ (b = true <-> P).

Definition compiles_right (cc : ConditionConfig) : Prop :=
  forall c, compileCondition ParseOnly cc = Ok c -> weekdays_known cc = true ->
    evaluates c (cond_holds env cc).

(** The two ways a list of conditions is put together. *)
Lemma compile_and_or l evs :
  Forall compiles_right l -> Forall2 (fun cc c => compileCondition ParseOnly cc = Ok c) l evs ->
  foldr (fun c b => weekdays_known c && b) true l = true ->
  evaluates (AndCondition evs) (foldr (fun c P => cond_holds env c /\ P) True l) /\
  evaluates (OrCondition evs) (foldr (fun c P => cond_holds env c \/ P) False l).
Proof.
  intros Hl H2. induction H2 as [|cc c l evs Hcc H2 IH]; cbn; intros Hk.
  { split; [by exists true | by exists false]. }
  inversion Hl as [|? ? Hright Hl']; subst. apply andb_true_iff in Hk as [Hk1 Hk2].
  destruct (IH Hl' Hk2) as [(b1 & Hb1 & Hp1) (b2 & Hb2 & Hp2)].
  destruct (Hright c Hcc Hk1) as (b & Hb & Hp). unfold evaluates. cbn in *. rewrite Hb.
  split.
  - destruct b; [exists b1; split; [exact Hb1 | rewrite Hp1; tauto] | exists false; intuition congruence].
  - destruct b; [exists true; intuition | exists b2; split; [exact Hb2 | rewrite Hp2; intuition congruence]].
Qed.
(** The list under an and or an or. *)
Lemma compile_list_inv (l : list ConditionConfig) c :
  (compileCondition ParseOnly (CC_And l) = Ok c ->
   exists evs, c = AndCondition evs /\ Forall2 (fun cc c => compileCondition ParseOnly cc = Ok c) l evs) /\
  (compileCondition ParseOnly (CC_Or l) = Ok c ->
   exists evs, c = OrCondition evs /\ Forall2 (fun cc c => compileCondition ParseOnly cc = Ok c) l evs).
Proof.
  cbn. destruct (nonempty l); [|by split]. cbn [negb].
  match goal with |- context [match ?g l with _ => _ end] => set (go := g) end.
  assert (forall evs, go l = Ok evs -> Forall2 (fun cc c => compileCondition ParseOnly cc = Ok c) l evs) as Hgo.
  { induction l as [|cc l IH]; cbn; intros evs; [intros [= <-]; constructor|].
    destruct (compileCondition ParseOnly cc) as [ev|] eqn:Hcc; [|done].
    fold go. destruct (go l) as [evs'|]; [|done]. intros [= <-]. constructor; auto. }
  split; (destruct (go l) as [evs|] eqn:Hl; [|done]); intros [= <-]; eauto.
Qed.

Lemma compile_right cc : compiles_right cc.
Proof.
  induction cc as [e q o n|e a o v|a b w|x|l IH|l IH|inner IH|] using ConditionConfig_nested_ind;
    intros c Hc Hk; unfold evaluates.
  - cbn -[count_set] in Hc. rewrite !count_set_cons in Hc. change (count_set []) with 0%nat in Hc.
    unfold is_empty in *. cbn.
    destruct (String.eqb_spec q ""), o as [|o1 o2], (String.eqb_spec n ""); cbn in Hc; try done;
      injection Hc as <-; subst; cbn; unfold is_empty;
      destruct (env_state env e) as [s|]; try (exists false; naive_solver).
    + rewrite (proj2 (String.eqb_neq n "")) by done. cbn.
      exists (negb (String.eqb (StateStr s) n)). split; [done|].
      rewrite negb_true_iff, String.eqb_neq. naive_solver.
    + exists (contains_eq (o1 :: o2) (StateStr s)). split; [done|]. rewrite contains_eq_spec. naive_solver.
    + rewrite (proj2 (String.eqb_neq q "")) by done. cbn.
      exists (String.eqb (StateStr s) q). split; [done|]. rewrite String.eqb_eq. naive_solver.
  - cbn -[contains_eq] in Hc. destruct (contains_eq _ o) eqn:Hop; [|done]. injection Hc as <-. cbn -[is_empty].
    destruct (env_state env e) as [s|]; [|exists false; naive_solver].
    destruct (Attributes s !! _) as [raw|] eqn:Hraw; [|exists false; naive_solver].
    destruct (toFloat env raw) as [f|] eqn:Hf; [|exists false; naive_solver].
    destruct (numeric_op_ok o f v Hop) as [b Hb]. exists b. split; [done|]. split.
    + intros ->. by exists s, raw, f.
    + intros (s' & raw' & f' & [= <-] & Hraw' & Hf' & Hn). congruence.
  - injection Hc as <-. cbn -[in_time_window]. set (win := in_time_window a b _).
    destruct w as [|w1 w2]; cbn [nonempty].
    { exists win. split; [done|]. naive_solver. }
    destruct (weekday_hit_spec (env_weekday env) (w1 :: w2) Hk) as (h & Hh & Hiff). rewrite Hh.
    destruct h; [exists win | exists false]; (split; [done|]); naive_solver.
  - cbn in Hc. destruct (ParseOnly x true); [done|]. injection Hc as <-. cbn.
    destruct (env_starlark env) as [f|]; [exists (f x) | exists false]; naive_solver.
  - apply compile_list_inv in Hc as (evs & -> & HF). by apply compile_and_or.
  - apply compile_list_inv in Hc as (evs & -> & HF). by apply compile_and_or.
  - cbn in Hc. destruct (compileCondition ParseOnly inner) as [ev|] eqn:Hin; [|done].
    injection Hc as <-. destruct (IH ev Hin Hk) as (b & Hb & Hiff). cbn. rewrite Hb.
    exists (negb b). split; [done|]. rewrite negb_true_iff. destruct b; naive_solver.
  - done.
Qed.

End CompileCorrect.

(** A compiled condition means what its configuration says: whenever
    [compileCondition] accepts a condition whose weekdays are real ones, however
    deeply ands, ors and nots nest, evaluating the result never errs, and it is
    true exactly when the condition holds of the environment: short-circuiting,
    the operator precedence of state conditions and the handling of missing
    entities and attributes never change the answer. *)
Theorem condition_compile_correct ParseOnly env cc c :
  compileCondition ParseOnly cc = Ok c -> weekdays_known cc = true ->
  exists b, Evaluate env c = Ok b /\ (b = true <-> cond_holds env cc).
Proof. apply compile_right. Qed.

(** A time window is circular: for an after and a before that are times of
    day, the condition is true exactly in the minutes that come up when counting
    from after, inclusive, to before, exclusive, across midnight if need be; a
    window from a time to itself is empty. *)
Theorem time_window_circular after before a b cur :
  after <> "" -> before <> "" -> parseHM after = (a, true) -> parseHM before = (b, true) ->
  0 <= a < 1440 -> 0 <= b < 1440 -> 0 <= cur < 1440 ->
  in_time_window after before cur = true <-> (cur - a) `mod` 1440 < (b - a) `mod` 1440.
Proof.
  intros Ha Hb Hpa Hpb Ra Rb Rc. unfold in_time_window. rewrite Hpa, Hpb. cbn [fst].
  unfold is_empty. rewrite (proj2 (String.eqb_neq after "")), (proj2 (String.eqb_neq before "")) by done.
  cbn [andb].
  assert (forall z, - 1440 < z < 1440 -> z `mod` 1440 = if z <? 0 then z + 1440 else z) as Hmod.
  { intros z Hz. destruct (z <? 0) eqn:Hs.
    - rewrite <- (Z.mod_add z 1) by lia. apply Z.mod_small. lia.
    - apply Z.mod_small. lia. }
  rewrite !Hmod by lia.
  destruct (a <=? b) eqn:Hab; rewrite ?andb_true_iff, ?orb_true_iff;
    destruct (cur - a <? 0) eqn:H1, (b - a <? 0) eqn:H2; lia.
Qed.

(** The gate of a run fails closed: the conditions let a run through exactly
    when every one of them evaluates to true; one that is false or errs, also
    under a not, stops it. *)
Theorem evalConditions_gate env cs :
  evalConditions env cs = true <-> Forall (fun c => Evaluate env c = Ok true) cs.
Proof.
  induction cs as [|c cs IH]; cbn; [by split|]. rewrite Forall_cons, <- IH.
  destruct (Evaluate env c) as [[|]|]; naive_solver.
Qed.

(** ** Actions *)

Lemma Executor_nested_ind (P : Executor -> Prop) :
  (forall e, is_leaf e = true -> P e) ->
  (forall l, Forall (fun x => P x.1) l -> P (SequenceBlock l)) ->
  (forall l, Forall (fun x => P x.1) l -> P (ParallelBlock l)) -> forall e, P e.
Proof.
  intros H1 H2 H3. fix IH 1. intros [| | | | |l|l]; try (by apply H1).
  - apply H2. induction l as [|[e b] l IHl]; constructor; [apply IH | exact IHl].
  - apply H3. induction l as [|[e b] l IHl]; constructor; [apply IH | exact IHl].
Qed.

(** A child of a sequence that does not stop it. *)
Definition passes (x : Executor * bool) (t : list leaf_event) : Prop :=
  exists r, Execute x.1 t r /\ (r = None \/ x.2 = true).

(** A sequence either runs every child, in order, none failing for good, or
    stops right after the first one that does. *)
Lemma sequence_cases cs t r :
  Execute (SequenceBlock cs) t r ->
  match r with
  | None => exists ts, Forall2 passes cs ts /\ t = concat ts
  | Some x => exists pre child post ts tc, cs = pre ++ (child, false) :: post /\
      Forall2 passes pre ts /\ Execute child tc (Some x) /\ t = concat ts ++ tc
  end.
Proof.
  revert t r. induction cs as [|[e cont] cs IH]; intros t r Hx.
  - inversion Hx; subst; [done|]. by exists [].
  - inversion Hx as [? ? Hl| |? ? ? t1 r1 t2 r2 Hc Hp Hrest|? ? ? x Hc|]; subst; [done | |].
    + specialize (IH _ _ Hrest). assert (passes (e, cont) t1) as Hpass by (by exists r1).
      destruct r as [x|].
      * destruct IH as (pre & child & post & ts & tc & -> & HF & Hch & ->).
        exists ((e, cont) :: pre), child, post, (t1 :: ts), tc. cbn. rewrite <- app_assoc. auto.
      * destruct IH as (ts & HF & ->). exists (t1 :: ts). auto.
    + exists [], e, cs, [], t. cbn. auto.
Qed.

(** The children of a parallel block all run. *)
Lemma execute_all_spec cs ts rs :
  Execute_all cs ts rs ->
  Forall2 (fun x t => exists r, Execute x.1 t r) cs ts /\
  (hard_errors rs = [] -> Forall2 passes cs ts) /\
  (forall x, x ∈ hard_errors rs -> exists child t, (child, false) ∈ cs /\ Execute child t (Some x)).
Proof.
  revert ts rs. induction cs as [|[e cont] cs IH]; intros ts rs Ha;
    inversion Ha as [|? ? ? t r ts' rs' He Ha']; subst.
  { split; [constructor|]. split; [intros _; constructor | intros x Hx; by apply not_elem_of_nil in Hx]. }
  destruct (IH _ _ Ha') as (H1 & H2 & H3). split; [constructor; eauto|].
  unfold hard_errors in *. cbn. split.
  - destruct cont, r as [x|]; cbn; intros Hh; try done; constructor; try (by apply H2);
      eexists; split; [exact He | by right | exact He | by right | exact He | by left].
  - intros x. destruct cont, r as [y|]; cbn; intros Hx;
      try (destruct (H3 x Hx) as (ch & t' & Hin & Hch); exists ch, t'; split; [by right | done]).
    apply elem_of_cons in Hx as [->|Hx].
    + exists e, t. split; [left | done].
    + destruct (H3 x Hx) as (ch & t' & Hin & Hch). exists ch, t'. split; [by right | done].
Qed.

(** ** Executions exist *)

Lemma interleave_exists {A} (ts : list (list A)) : exists t, interleave ts t.
Proof.
  assert (forall n (ts : list (list A)), length (concat ts) = n -> exists t, interleave ts t) as H; [|by eapply H].
  induction n as [|n IH]; intros l Hl.
  - exists []. constructor. induction l as [|t l IHl]; constructor; destruct t; try done. by apply IHl.
  - assert (exists l1 x t l2, l = l1 ++ (x :: t) :: l2) as (l1 & x & t & l2 & ->).
    { clear IH. induction l as [|[|x t] l IHl]; [done | | by exists [], x, t, l].
      destruct (IHl Hl) as (l1 & x & t & l2 & ->). by exists ([] :: l1), x, t, l2. }
    destruct (IH (l1 ++ t :: l2)) as [rest Hr].
    { rewrite !concat_app in *. cbn in *. rewrite !length_app in *. cbn in *. rewrite length_app in *. lia. }
    exists (x :: rest). by constructor.
Qed.

Lemma Execute_total e : exists t r, Execute e t r.
Proof.
  induction e as [e He|l IH|l IH] using Executor_nested_ind.
  - exists [(e, None)], None. by constructor.
  - induction IH as [|[e cont] l (t1 & r1 & He) _ (t2 & r2 & Hl)]; [by exists [], None; constructor|].
    destruct r1 as [x|]; [destruct cont|].
    + exists (t1 ++ t2), r2. econstructor; eauto.
    + exists t1, (Some x). by constructor.
    + exists (t1 ++ t2), r2. econstructor; eauto.
  - assert (exists ts rs, Execute_all l ts rs) as (ts & rs & Ha).
    { induction IH as [|[e cont] l (t1 & r1 & He) _ (ts & rs & Hl)]; [by exists [], []; constructor|].
      exists (t1 :: ts), ((r1, cont) :: rs). by constructor. }
    destruct (interleave_exists ts) as [t Ht].
    destruct (hard_errors rs) as [|x xs] eqn:Hh.
    + exists t, None. eapply Exec_par; eauto.
    + exists t, (Some x). eapply Exec_par; [done..|]. right. exists x. split; [done|]. rewrite Hh. left.
Qed.

(** What a run does: its actions run if and only if the conditions let it
    through. If they do, the run is recorded as finished, under the correlation
    of the trigger, and either every action ran in order with none failing for
    good, and the outcome is ok, or the run stopped right after the first action
    whose failure counts, with nothing after it run, and the outcome is the one of
    that failure. Every automation has such a run. *)
Theorem executeRun_spec a m invokedBy now1 now2 corr env ctx_canceled :
  (exists evs t o, executeRun a m invokedBy now1 now2 corr env ctx_canceled evs t o) /\
  forall evs t o, executeRun a m invokedBy now1 now2 corr env ctx_canceled evs t o ->
    (exists err, evs = [triggered_event now1 corr (ca_ID a) m invokedBy;
                        finished_event now2 corr (ca_ID a) o err]) /\
    if evalConditions env (ca_Conditions a) then
      (o = OUTCOME_OK /\ exists ts, Forall2 passes (ca_Actions a) ts /\ t = concat ts) \/
      (exists x pre child post ts tc, o = classify (Some x) ctx_canceled /\ o <> OUTCOME_OK /\
         ca_Actions a = pre ++ (child, false) :: post /\ Forall2 passes pre ts /\
         Execute child tc (Some x) /\ t = concat ts ++ tc)
    else o = OUTCOME_CONDITION_FAIL /\ t = [].
Proof.
  split.
  - destruct (evalConditions env (ca_Conditions a)) eqn:Hc.
    + destruct (Execute_total (SequenceBlock (ca_Actions a))) as (t & r & Hx).
      eexists _, _, _. by apply Run_actions.
    + eexists _, _, _. by apply Run_condition_fail.
  - intros evs t o Hr. inversion Hr as [Hc|t' err Hc Hx]; subst; rewrite Hc; (split; [by eexists|]).
    + done.
    + apply sequence_cases in Hx. destruct err as [x|].
      * right. destruct Hx as (pre & child & post & ts & tc & Heq & HF & Hch & ->).
        exists x, pre, child, post, ts, tc. split; [done|]. split; [|by rewrite Heq].
        destruct x as [[| |] msg]; cbn; destruct ctx_canceled; done.
      * left. split; [done|]. exact Hx.
Qed.

(** A parallel block runs all its children to the end, and fails exactly when
    one of them fails for good, with an error one of those returned; the failure
    of a child marked to continue never counts. *)
Theorem parallel_block cs t r :
  Execute (ParallelBlock cs) t r ->
  (exists ts, Forall2 (fun x t => exists r, Execute x.1 t r) cs ts /\ interleave ts t /\
     (r = None -> Forall2 passes cs ts)) /\
  forall x, r = Some x -> exists child t', (child, false) ∈ cs /\ Execute child t' (Some x).
Proof.
  intros Hx. inversion Hx as [? ? Hl| | | |? ts rs ? ? Ha Hi Hr]; subst; [done|].
  destruct (execute_all_spec _ _ _ Ha) as (H1 & H2 & H3). split.
  - exists ts. split; [done|]. split; [done|]. intros ->.
    destruct Hr as [[_ Hh]|(x & [= ] & _)]. by apply H2.
  - intros x ->. destruct Hr as [[[= ] _]|(y & [= <-] & Hin)]. by apply H3.
Qed.

(** ** What a cancelled run leaves in the log *)

(** The end of a cancelled run is not recorded: [executeRun] appends the
    finished event with the run's own context, and a transaction cannot be begun
    under a cancelled one, so the append fails, the error is dropped, and the log
    keeps a triggered event without its finished one; the outcome "cancelled"
    only reaches the log when the cancellation comes after that append began. *)
Theorem cancelled_run_unlogged {M T} (marshal : Payload -> result string string)
    (s : Store M T) now fresh fl done now2 corr id o err :
  (forall i, f_begin (fl i) = Some "context canceled") ->
  exists msg, Append marshal now fresh fl done (finished_event now2 corr id o err) s = (s, Err msg).
Proof.
  intros Hb. unfold Append.
  assert (is_empty (Source (finished_event now2 corr id o err)) = false) as -> by done.
  cbn [finished_event Kind PayloadPtr]. change (is_empty "automation_finished") with false. cbn iota.
  destruct (marshal _) as [payload|msg]; [|by eexists].
  unfold withRetry. change (length backoffs) with 4%nat. cbn [withRetry_from fst].
  unfold appendTx. rewrite Hb. change (isSQLiteBusy "context canceled") with false.
  by eexists.
Qed.

(** ** Concrete runs *)

Module RulesDemo.

Definition night : ConditionConfig :=
  CC_And [CC_Time "22:00" "06:00" ["Fri"; "sat"];
          CC_Not (CC_State "lamp" "on" [] "")].
Definition env : Env :=
  mkEnv (fun e => if String.eqb e "lamp" then Some (mkEntityState "off" ∅) else None) 6 23 30 None
    (fun _ => None).
Definition night_evaluator : Evaluator :=
  AndCondition [TimeCondition "22:00" "06:00" ["Fri"; "sat"]; NotCondition (StateCondition "lamp" "on" [] "")].

Example night_true : Evaluate env night_evaluator = Ok true.
Proof. vm_compute. reflexivity. Qed.

(** An unknown weekday passes the compiler and errs at run time. *)
Example unknown_weekday :
  is_ok (compileCondition (fun _ _ => None) (CC_Time "" "" ["Funday"])) = true /\
  Evaluate env (TimeCondition "" "" ["Funday"]) = Err (BadWeekday "Funday").
Proof. split; vm_compute; reflexivity. Qed.

Definition call (e : string) : Executor := CallServiceAction e "turn_on" ∅.
Definition two_calls : Executor := ParallelBlock [(call "a", true); (call "b", false)].
Definition failed : act_err := (OtherErr, "driver stream closed").

Lemma two_calls_run :
  Execute two_calls [(call "b", None); (call "a", Some failed)] None.
Proof.
  eapply (Exec_par _ [[(call "a", Some failed)]; [(call "b", None)]] [(Some failed, true); (None, false)]).
  - repeat constructor; try discriminate; done.
  - apply (il_cons [[(call "a", Some failed)]] (call "b", None) [] []).
    apply (il_cons [] (call "a", Some failed) [] [[]]). repeat constructor.
  - left. split; reflexivity.
Qed.

End RulesDemo.

Lemma condition_compile_correct_witness :
  exists b, Evaluate RulesDemo.env RulesDemo.night_evaluator = Ok b /\
    (b = true <-> cond_holds RulesDemo.env RulesDemo.night).
Proof.
  apply (condition_compile_correct (fun _ _ => None)); vm_compute; reflexivity.
Defined.

Lemma time_window_circular_witness :
  in_time_window "22:00" "06:00" 1410 = true <-> (1410 - 1320) `mod` 1440 < (360 - 1320) `mod` 1440.
Proof.
  apply time_window_circular; [discriminate | discriminate | vm_compute; reflexivity
    | vm_compute; reflexivity | lia | lia | lia].
Defined.

Lemma parallel_block_witness :
  (exists ts, Forall2 (fun x t => exists r, Execute x.1 t r)
       [(RulesDemo.call "a", true); (RulesDemo.call "b", false)] ts /\
     interleave ts [(RulesDemo.call "b", None); (RulesDemo.call "a", Some RulesDemo.failed)] /\
     (@None act_err = None -> Forall2 passes [(RulesDemo.call "a", true); (RulesDemo.call "b", false)] ts)).
Proof. exact (proj1 (parallel_block _ _ _ RulesDemo.two_calls_run)). Defined.

Lemma cancelled_run_unlogged_witness :
  let fl := mkTxFaults (Some "context canceled") (fun _ => None) (fun _ => None) (fun _ => None) None in
  let s := Open (M := unit) (T := unit) (mkConfig 0 0 0 0) (mkDB [] 0 ∅ [] ∅ ∅ tt) tt in
  exists msg, Append (fun _ => Ok "x") 0 1 (fun _ => fl) (fun _ => None)
                (finished_event 0 1 "porch" OUTCOME_CANCELLED "context canceled") s = (s, Err msg).
Proof. intros fl s. apply cancelled_run_unlogged. reflexivity. Defined.
