(* ===== verification/ConfigDecode.v ===== *)
(** * Decoding the evaluated configuration

    Models [internal/config/evaluator_decode.go] (triggers, conditions, actions,
    automations, areas, scenes and durations as Pkl renders them to JSON) and the
    per-instance options of [lifecycle.go] and [lifecycle_merge.go]. The types
    decoded into are those of [Rules].

    [automation_json_roundtrip] says that decoding inverts rendering. *)

From Stdlib Require Import Ascii String SpecFloat.
From S2P Require Import Prelude Codec Json Events Carport Engine Rules.

Inductive decode_error :=
  | JsonError
  | UnknownDurationUnit (unit : string) | DurationMagnitude (num : string) | CannotParseDuration (s : string)
  | UnknownTriggerType (t : string) | UnknownConditionType (t : string) | UnknownActionType (t : string)
  | InTrigger (e : decode_error) | InCondition (e : decode_error) | InAction (e : decode_error).

(** A type error of [json.Unmarshal]. *)
Definition or_json {A} (o : option A) : result decode_error A :=
  match o with Some a => Ok a | None => Err JsonError end.

(** ** Durations *)

Definition durationUnits : list (string * Z) :=
  [("ns", 1); ("us", 1000); ("ms", Millisecond); ("s", Second); ("m", Minute); ("min", Minute);
   ("h", Hour); ("d", 24 * Hour)].

Definition unit_of (u : string) : option Z :=
  snd <$> (snd <$> list_find (fun p => p.1 = u) durationUnits).

(** [float64(n)]. *)
Definition float_of_Z (z : Z) : spec_float := binary_normalize 53 1024 z 0 false.

(** [int64(f)]: truncation; what does not fit is the smallest integer, as the
    conversion instruction of amd64 gives. *)
Definition trunc_i64 (f : spec_float) : Z :=
  let fit z := if (- 2 ^ 63 <=? z) && (z <? 2 ^ 63) then z else - 2 ^ 63 in
  match f with
  | S754_zero _ => 0
  | S754_finite s m e =>
      let z := if 0 <=? e then Z.pos m * 2 ^ e else Z.pos m / 2 ^ (- e) in
      fit (if s then - z else z)
  | _ => - 2 ^ 63
  end.

(** [time.Duration(f * float64(unit))]. *)
Definition scale_duration (f : spec_float) (unit : Z) : Z :=
  trunc_i64 (SFmul 53 1024 f (float_of_Z unit)).

(** The parts before and after the last dot. *)
Fixpoint cut_last_dot (s : string) : option (string * string) :=
  match s with
  | EmptyString => None
  | String c s' =>
      match cut_last_dot s' with
      | Some (a, b) => Some (String c a, b)
      | None => if Ascii.eqb c "." then Some (EmptyString, s') else None
      end
  end.

Section Lib.
Context (L : JSONLib).

Definition parseDurationToken (s : string) : result decode_error Z :=
  match cut_last_dot s with
  | None => Err (CannotParseDuration s)
  | Some (numStr, unitStr) =>
      match unit_of unitStr with
      | None => Err (UnknownDurationUnit unitStr)
      | Some unit => match Sscanf_f L numStr with
                     | None => Err (DurationMagnitude numStr)
                     | Some f => Ok (scale_duration f unit)
                     end
      end
  end.

(** The object [{"value": N, "unit": "s"}], when the text is one. *)
Definition duration_object (s : string) : option (spec_float * string) :=
  j ← Unmarshal L s;
  m ← as_struct j;
  value ← get (S754_zero false) (dec_float L) "value" m;
  unit ← get "" dec_string "unit" m;
  Some (value, unit).

Definition parsePklDuration (s : string) : result decode_error Z :=
  if is_empty s then Ok 0
  else match duration_object s with
  | Some (value, unit) =>
      if is_empty unit then parseDurationToken s
      else match unit_of unit with
           | None => Err (UnknownDurationUnit unit)
           | Some u => Ok (scale_duration value u)
           end
  | None => parseDurationToken s
  end.

(** ** Automations *)

Definition parseAutomationMode (s : string) : Mode :=
  if String.eqb s "single" then ModeSingle
  else if String.eqb s "queued" then ModeQueued
  else if String.eqb s "restart" then ModeRestart
  else if String.eqb s "parallel" then ModeParallel
  else ModeSingle.

(** The struct of a node and its [_type]. *)
Definition typed_node (j : json) : result decode_error (list (string * json) * string) :=
  m ← or_json (as_struct j);
  t ← or_json (get "" dec_string "_type" m);
  Ok (m, t).

Definition decodeTrigger (j : json) : result decode_error TriggerConfig :=
  '(m, type) ← typed_node j;
  if String.eqb type "switchyard.automations#StateChangeTrigger" then
    entities ← or_json (get [] dec_string_list "entities" m);
    from ← or_json (get "" dec_string "from" m);
    to ← or_json (get "" dec_string "to" m);
    forDur ← or_json (get "" dec_string "forDur" m);
    dur ← parsePklDuration forDur;
    Ok (TC_StateChange entities from to dur)
  else if String.eqb type "switchyard.automations#EventTrigger" then
    kind ← or_json (get "" dec_string "kind" m);
    data ← or_json (get ∅ dec_string_map "data" m);
    Ok (TC_Event kind data)
  else if String.eqb type "switchyard.automations#TimeTrigger" then
    at_ ← or_json (get "" dec_string "at" m);
    cron ← or_json (get "" dec_string "cron" m);
    every ← or_json (get "" dec_string "every" m);
    everyNs ← (if is_empty every then Ok 0 else parsePklDuration every);
    Ok (TC_Time at_ cron everyNs)
  else if String.eqb type "switchyard.automations#WebhookTrigger" then
    path ← or_json (get "" dec_string "path" m);
    methods ← or_json (get [] dec_string_list "methods" m);
    Ok (TC_Webhook path methods)
  else Err (UnknownTriggerType type).

(** [fuel] bounds the nesting; [depth] of the value is enough
    ([decode_condition_fuel]). *)
Fixpoint decode_condition (fuel : nat) (j : json) : result decode_error ConditionConfig :=
  match fuel with
  | O => Err JsonError
  | S n =>
      '(m, type) ← typed_node j;
      if String.eqb type "switchyard.automations#StateCondition" then
        entity ← or_json (get "" dec_string "entity" m);
        equals ← or_json (get "" dec_string "equals" m);
        oneOf ← or_json (get [] dec_string_list "oneOf" m);
        not_ ← or_json (get "" dec_string "not" m);
        Ok (CC_State entity equals oneOf not_)
      else if String.eqb type "switchyard.automations#NumericCondition" then
        entity ← or_json (get "" dec_string "entity" m);
        attribute ← or_json (get "" dec_string "attribute" m);
        op ← or_json (get "" dec_string "op" m);
        value ← or_json (get (S754_zero false) (dec_float L) "value" m);
        Ok (CC_Numeric entity attribute op value)
      else if String.eqb type "switchyard.automations#TimeCondition" then
        after ← or_json (get "" dec_string "after" m);
        before ← or_json (get "" dec_string "before" m);
        weekdays ← or_json (get [] dec_string_list "weekdays" m);
        Ok (CC_Time after before weekdays)
      else if String.eqb type "switchyard.automations#StarlarkCondition" then
        expr ← or_json (get "" dec_string "expr" m);
        Ok (CC_Starlark expr)
      else if String.eqb type "switchyard.automations#AndCondition" then
        all ← or_json (get [] dec_raw_list "all" m);
        cs ← mapM (decode_condition n) all;
        Ok (CC_And cs)
      else if String.eqb type "switchyard.automations#OrCondition" then
        any ← or_json (get [] dec_raw_list "any" m);
        cs ← mapM (decode_condition n) any;
        Ok (CC_Or cs)
      else if String.eqb type "switchyard.automations#NotCondition" then
        match field "not" m with
        | None => Err JsonError
        | Some raw => inner ← decode_condition n raw; Ok (CC_Not inner)
        end
      else Err (UnknownConditionType type)
  end.

Definition decodeCondition (j : json) : result decode_error ConditionConfig := decode_condition (depth j) j.

Fixpoint decode_action (fuel : nat) (j : json) : result decode_error ActionConfig :=
  match fuel with
  | O => Err JsonError
  | S n =>
      m ← or_json (as_struct j);
      type ← or_json (get "" dec_string "_type" m);
      cont ← or_json (get false dec_bool "continueOnError" m);
      if String.eqb type "switchyard.automations#CallServiceAction" then
        entity ← or_json (get "" dec_string "entity" m);
        capability ← or_json (get "" dec_string "capability" m);
        args ← or_json (get ∅ dec_string_map "args" m);
        Ok (AC_CallService cont entity capability args)
      else if String.eqb type "switchyard.automations#SceneAction" then
        slug ← or_json (get "" dec_string "slug" m);
        Ok (AC_Scene cont slug)
      else if String.eqb type "switchyard.automations#ScriptAction" then
        name ← or_json (get "" dec_string "name" m);
        args ← or_json (get ∅ dec_string_map "args" m);
        Ok (AC_Script cont name args)
      else if String.eqb type "switchyard.automations#StarlarkAction" then
        body ← or_json (get "" dec_string "body" m);
        Ok (AC_Starlark cont body)
      else if String.eqb type "switchyard.automations#WaitAction" then
        duration ← or_json (get "" dec_string "duration" m);
        d ← parsePklDuration duration;
        Ok (AC_Wait cont d)
      else if String.eqb type "switchyard.automations#SequenceBlock" then
        actions ← or_json (get [] dec_raw_list "actions" m);
        l ← mapM (decode_action n) actions;
        Ok (AC_Sequence cont l)
      else if String.eqb type "switchyard.automations#ParallelBlock" then
        actions ← or_json (get [] dec_raw_list "actions" m);
        l ← mapM (decode_action n) actions;
        Ok (AC_Parallel cont l)
      else Err (UnknownActionType type)
  end.

Definition decodeAction (j : json) : result decode_error ActionConfig := decode_action (depth j) j.

(** A loop over raw messages that wraps the error of the first that fails. *)
Definition decode_all {A} (dec : json -> result decode_error A) (wrap : decode_error -> decode_error)
    (l : list json) : result decode_error (list A) :=
  mapM (fun j => map_err wrap (dec j)) l.

Definition automationFromJSON (j : json) : result decode_error AutomationConfig :=
  m ← or_json (as_struct j);
  id ← or_json (get "" dec_string "id" m);
  enabled ← or_json (get false dec_bool "enabled" m);
  mode ← or_json (get "" dec_string "mode" m);
  maxQueued ← or_json (get 0 (dec_int (- 2 ^ 31) (2 ^ 31)) "maxQueued" m);
  triggers ← or_json (get [] dec_raw_list "triggers" m);
  conditions ← or_json (get [] dec_raw_list "conditions" m);
  actions ← or_json (get [] dec_raw_list "actions" m);
  areas ← or_json (get [] dec_string_list "areas" m);
  ts ← decode_all decodeTrigger InTrigger triggers;
  cs ← decode_all decodeCondition InCondition conditions;
  xs ← decode_all decodeAction InAction actions;
  Ok (mkAutomationConfig (TrimSpace id) enabled (parseAutomationMode mode) maxQueued ts cs xs areas).

Record AreaConfig := mkAreaConfig { area_Id : string; area_DisplayName : string; area_ParentId : string }.

Definition areaFromJSON (j : json) : result decode_error AreaConfig :=
  m ← or_json (as_struct j);
  id ← or_json (get "" dec_string "id" m);
  display ← or_json (get "" dec_string "displayName" m);
  parent ← or_json (get_ptr dec_string "parentId" m);
  Ok (mkAreaConfig (TrimSpace id) display (default "" parent)).

Record SceneConfig := mkSceneConfig {
  scene_Id : string; scene_DisplayName : string; scene_AreaId : string; scene_Actions : list ActionConfig;
}.

Definition sceneFromJSON (j : json) : result decode_error SceneConfig :=
  m ← or_json (as_struct j);
  id ← or_json (get "" dec_string "id" m);
  display ← or_json (get "" dec_string "displayName" m);
  area ← or_json (get_ptr dec_string "areaId" m);
  actions ← or_json (get [] dec_raw_list "actions" m);
  xs ← decode_all decodeAction InAction actions;
  Ok (mkSceneConfig (TrimSpace id) display (default "" area) xs).

(** ** Options of a driver instance *)

Record LifecycleOverride := mkLifecycleOverride {
  o_HandshakeDeadline : option Z; o_HealthProbeInterval : option Z; o_HealthProbeTimeout : option Z;
  o_HealthFailuresToRestart : option Z; o_ShutdownGrace : option Z; o_RestartBackoffInitial : option Z;
  o_RestartBackoffMax : option Z; o_RestartBudgetWindow : option Z; o_RestartBudgetMax : option Z;
}.

Definition no_override : LifecycleOverride :=
  mkLifecycleOverride None None None None None None None None None.

Record InstanceOptions := mkInstanceOptions { opt_Enabled : bool; opt_Override : LifecycleOverride }.

(** A duration that does not parse is dropped. *)
Definition override_duration (s : option string) : option Z :=
  match s with
  | None => None
  | Some t => match parsePklDuration t with Ok d => Some d | Err _ => None end
  end.

Definition decodeLifecycleOverride (m : list (string * json)) : option LifecycleOverride :=
  hd ← get_ptr dec_string "handshakeDeadline" m;
  hi ← get_ptr dec_string "healthProbeInterval" m;
  ht ← get_ptr dec_string "healthProbeTimeout" m;
  hf ← get_ptr (dec_int (- 2 ^ 63) (2 ^ 63)) "healthFailuresToRestart" m;
  sg ← get_ptr dec_string "shutdownGrace" m;
  bi ← get_ptr dec_string "restartBackoffInitial" m;
  bm ← get_ptr dec_string "restartBackoffMax" m;
  bw ← get_ptr dec_string "restartBudgetWindow" m;
  bx ← get_ptr (dec_int (- 2 ^ 63) (2 ^ 63)) "restartBudgetMax" m;
  Some (mkLifecycleOverride (override_duration hd) (override_duration hi) (override_duration ht) hf
          (override_duration sg) (override_duration bi) (override_duration bm) (override_duration bw) bx).

Definition parseInstanceOptions (rawInst : string) : option InstanceOptions :=
  j ← Unmarshal L rawInst;
  m ← as_struct j;
  enabled ← get_ptr dec_bool "enabled" m;
  lifecycle ← get_ptr as_struct "lifecycle" m;
  override ← (match lifecycle with None => Some no_override | Some lm => decodeLifecycleOverride lm end);
  Some (mkInstanceOptions (default true enabled) override).

End Lib.

(** [applyDur] and [applyInt]. *)
Definition apply_over (dst : Z) (fromManifest fromOverride : option Z) : Z :=
  default (default dst fromManifest) fromOverride.

Definition MergeLifecycle (manifest override : LifecycleOverride) : LifecycleConfig :=
  let d := DefaultLifecycleConfig in
  let f get get_d := apply_over (get_d d) (get manifest) (get override) in
  mkLifecycleConfig
    (f o_HandshakeDeadline HandshakeDeadline) (f o_HealthProbeInterval HealthProbeInterval)
    (f o_HealthProbeTimeout HealthProbeTimeout) (f o_HealthFailuresToRestart HealthFailuresToRestart)
    (f o_ShutdownGrace ShutdownGrace) (f o_RestartBackoffInitial RestartBackoffInitial)
    (f o_RestartBackoffMax RestartBackoffMax) (f o_RestartBudgetWindow RestartBudgetWindow)
    (f o_RestartBudgetMax RestartBudgetMax).

(** ** Decoding inverts rendering

    The fuel of the decoders is enough, and decoding the JSON that an automation
    is rendered to gives the automation back. *)

(** ** Looking up a field by its own name *)

Lemma field_hit k v m : field k ((k, v) :: m) = Some v.
Proof. cbn. unfold same_field. by rewrite String.eqb_refl. Qed.

Lemma field_miss name k v m : same_field name k = false -> field name ((k, v) :: m) = field name m.
Proof. intros H. cbn. by rewrite H. Qed.

Definition non_null (j : json) : bool := match j with JNull => false | _ => true end.

Lemma get_hit {A} (z : A) dec k v m : non_null v = true -> get z dec k ((k, v) :: m) = dec v.
Proof. intros Hv. unfold get. rewrite field_hit. by destruct v. Qed.

Lemma get_miss {A} (z : A) dec name k v m :
  same_field name k = false -> get z dec name ((k, v) :: m) = get z dec name m.
Proof. intros H. unfold get. cbn. by rewrite H. Qed.

(** Computes the look-ups of an object with literal keys. *)
Ltac look_up :=
  repeat first
    [ rewrite get_hit by reflexivity
    | rewrite get_miss by reflexivity
    | rewrite field_hit
    | rewrite field_miss by reflexivity
    | progress cbn [or_json mbind result_bind dec_string dec_bool dec_raw_list as_struct] ].

(** Decides the dispatch on a literal type. *)
Ltac dispatch_type :=
  repeat match goal with
  | |- context [String.eqb ?a ?b] => let r := eval vm_compute in (String.eqb a b) in
                                     change (String.eqb a b) with r; cbv beta iota
  end.

(** ** Fuel *)

Section Fuel.
Context (L : JSONLib).

Lemma typed_node_Ok j m t : typed_node j = Ok (m, t) -> j = JObject m \/ m = [].
Proof.
  unfold typed_node. destruct j; try done; cbn [as_struct or_json mbind result_bind];
    [|destruct (get "" dec_string "_type" m0)]; naive_solver.
Qed.

Lemma depth_child name m j l x :
  j = JObject m \/ m = [] -> get [] dec_raw_list name m = Some l -> x ∈ l -> (depth x < depth j)%nat.
Proof.
  intros [->| ->] Hl Hx; [by eapply depth_get_list|]. cbn in Hl.
  injection Hl as <-. by apply not_elem_of_nil in Hx.
Qed.

Lemma decode_condition_fuel n j :
  (depth j <= n)%nat -> decode_condition L n j = decodeCondition L j.
Proof.
  unfold decodeCondition. remember (depth j) as d eqn:Hd. assert (depth j <= d)%nat as Hd' by lia.
  clear Hd. revert n d Hd'. induction n as [|n IH] in j |- *; intros d Hd Hn.
  { pose proof (depth_pos j). lia. }
  destruct d as [|d]; [pose proof (depth_pos j); lia|]. cbn [decode_condition].
  destruct (typed_node j) as [[m t]|e] eqn:Ht; [|done]. apply typed_node_Ok in Ht.
  assert (forall name l, get [] dec_raw_list name m = Some l ->
            mapM (decode_condition L n) l = mapM (decode_condition L d) l) as Hlist.
  { intros name l Hl. apply result_mapM_ext. intros x Hx.
    pose proof (depth_child _ _ _ _ _ Ht Hl Hx). apply (IH x d); lia. }
  cbn [mbind result_bind].
  repeat (destruct (String.eqb t _); [try reflexivity|]); try reflexivity.
  1-2: destruct (get [] dec_raw_list _ m) eqn:Hl; cbn; [by rewrite (Hlist _ _ Hl)|done].
  destruct (field "not" m) as [raw|] eqn:Hf; [|done].
  assert (depth raw < depth j)%nat.
  { destruct Ht as [->| ->]; [by eapply depth_field | done]. }
  by rewrite (IH raw d) by lia.
Qed.

Lemma decode_action_fuel n j :
  (depth j <= n)%nat -> decode_action L n j = decodeAction L j.
Proof.
  unfold decodeAction. remember (depth j) as d eqn:Hd. assert (depth j <= d)%nat as Hd' by lia.
  clear Hd. revert n d Hd'. induction n as [|n IH] in j |- *; intros d Hd Hn.
  { pose proof (depth_pos j). lia. }
  destruct d as [|d]; [pose proof (depth_pos j); lia|]. cbn [decode_action].
  destruct (as_struct j) as [m|] eqn:Ht; [|done].
  assert (j = JObject m \/ m = []) as Hm by (destruct j; naive_solver).
  assert (forall name l, get [] dec_raw_list name m = Some l ->
            mapM (decode_action L n) l = mapM (decode_action L d) l) as Hlist.
  { intros name l Hl. apply result_mapM_ext. intros x Hx.
    pose proof (depth_child _ _ _ _ _ Hm Hl Hx). apply (IH x d); lia. }
  cbn [mbind result_bind or_json].
  destruct (get "" dec_string "_type" m) as [t|]; [|done]. cbn [mbind result_bind or_json].
  destruct (get false dec_bool "continueOnError" m) as [cont|]; [|done]. cbn [mbind result_bind or_json].
  repeat (destruct (String.eqb t _); [try reflexivity|]); try reflexivity.
  all: destruct (get [] dec_raw_list _ m) eqn:Hl; cbn; [by rewrite (Hlist _ _ Hl)|done].
Qed.
End Fuel.

(** ** Rendering

    The JSON of a configuration tree, as Pkl's renderer writes its classes. How
    numbers and durations are written is a parameter. *)

Section Render.
Context (L : JSONLib) (number_text : spec_float -> string) (duration_text : Z -> string).

Definition node (type : string) (m : list (string * json)) : json :=
  JObject (("_type", JString ("switchyard.automations#" +:+ type)) :: m).
Definition strings (l : list string) : json := JArray (JString <$> l).
Definition string_object (m : string_map) : json := JObject (prod_map id JString <$> map_to_list m).

Definition render_trigger (c : TriggerConfig) : json :=
  match c with
  | TC_StateChange entities from to d =>
      node "StateChangeTrigger" [("entities", strings entities); ("from", JString from); ("to", JString to);
                                 ("forDur", JString (duration_text d))]
  | TC_Event kind data => node "EventTrigger" [("kind", JString kind); ("data", string_object data)]
  | TC_Time at_ cron every =>
      node "TimeTrigger" [("at", JString at_); ("cron", JString cron); ("every", JString (duration_text every))]
  | TC_Webhook path methods => node "WebhookTrigger" [("path", JString path); ("methods", strings methods)]
  | TC_Unset => JNull
  end.

Fixpoint render_condition (c : ConditionConfig) : json :=
  match c with
  | CC_State entity equals oneOf not_ =>
      node "StateCondition" [("entity", JString entity); ("equals", JString equals); ("oneOf", strings oneOf);
                             ("not", JString not_)]
  | CC_Numeric entity attribute op value =>
      node "NumericCondition" [("entity", JString entity); ("attribute", JString attribute); ("op", JString op);
                               ("value", JNumber (number_text value))]
  | CC_Time after before ws =>
      node "TimeCondition" [("after", JString after); ("before", JString before); ("weekdays", strings ws)]
  | CC_Starlark expr => node "StarlarkCondition" [("expr", JString expr)]
  | CC_And all => node "AndCondition" [("all", JArray (map render_condition all))]
  | CC_Or any => node "OrCondition" [("any", JArray (map render_condition any))]
  | CC_Not inner => node "NotCondition" [("not", render_condition inner)]
  | CC_Unset => JNull
  end.

Definition action_node (type : string) (cont : bool) (m : list (string * json)) : json :=
  node type (("continueOnError", JBool cont) :: m).

Fixpoint render_action (c : ActionConfig) : json :=
  match c with
  | AC_CallService k entity capability args =>
      action_node "CallServiceAction" k [("entity", JString entity); ("capability", JString capability);
                                         ("args", string_object args)]
  | AC_Scene k slug => action_node "SceneAction" k [("slug", JString slug)]
  | AC_Script k name args => action_node "ScriptAction" k [("name", JString name); ("args", string_object args)]
  | AC_Starlark k body => action_node "StarlarkAction" k [("body", JString body)]
  | AC_Wait k d => action_node "WaitAction" k [("duration", JString (duration_text d))]
  | AC_Sequence k l => action_node "SequenceBlock" k [("actions", JArray (map render_action l))]
  | AC_Parallel k l => action_node "ParallelBlock" k [("actions", JArray (map render_action l))]
  | AC_Unset _ => JNull
  end.

Definition mode_text (m : Mode) : string :=
  match m with ModeSingle => "single" | ModeQueued => "queued" | ModeRestart => "restart" | ModeParallel => "parallel" end.

Definition render_automation (a : AutomationConfig) : json :=
  JObject [("id", JString (cfg_ID a)); ("enabled", JBool (cfg_Enabled a)); ("mode", JString (mode_text (cfg_Mode a)));
           ("maxQueued", JNumber (pretty (cfg_MaxQueued a))); ("triggers", JArray (render_trigger <$> cfg_Triggers a));
           ("conditions", JArray (render_condition <$> cfg_Conditions a));
           ("actions", JArray (render_action <$> cfg_Actions a)); ("areas", strings (cfg_Areas a))].

(** What the texts of numbers and durations have to satisfy, leaf by leaf; a
    kind that is unset has no rendering. *)
Definition duration_ok (d : Z) : bool :=
  match parsePklDuration L (duration_text d) with Ok d' => d' =? d | Err _ => false end.
Definition number_ok (f : spec_float) : Prop := ParseFloat L (number_text f) = Some f.

Definition trigger_ok (c : TriggerConfig) : Prop :=
  match c with
  | TC_StateChange _ _ _ d | TC_Time _ _ d => duration_ok d = true
  | TC_Unset => False
  | _ => True
  end.

Fixpoint condition_ok (c : ConditionConfig) : Prop :=
  match c with
  | CC_Numeric _ _ _ v => number_ok v
  | CC_And l | CC_Or l => foldr (fun c P => condition_ok c /\ P) True l
  | CC_Not c => condition_ok c
  | CC_Unset => False
  | _ => True
  end.

Fixpoint action_ok (c : ActionConfig) : Prop :=
  match c with
  | AC_Wait _ d => duration_ok d = true
  | AC_Sequence _ l | AC_Parallel _ l => foldr (fun c P => action_ok c /\ P) True l
  | AC_Unset _ => False
  | _ => True
  end.

Record automation_ok (a : AutomationConfig) : Prop := mkAutomationOk {
  ao_id : trimmed (cfg_ID a) = true;
  ao_maxQueued : - 2 ^ 31 <= cfg_MaxQueued a < 2 ^ 31;
  ao_triggers : Forall trigger_ok (cfg_Triggers a);
  ao_conditions : Forall condition_ok (cfg_Conditions a);
  ao_actions : Forall action_ok (cfg_Actions a);
}.

Lemma duration_ok_Ok d : duration_ok d = true -> parsePklDuration L (duration_text d) = Ok d.
Proof. unfold duration_ok. destruct (parsePklDuration _ _); [|done]. by intros ->%Z.eqb_eq. Qed.

Lemma dec_strings l : dec_string_list (strings l) = Some l.
Proof. apply dec_string_list_render. Qed.
Lemma dec_string_object m : dec_string_map (string_object m) = Some m.
Proof. apply dec_string_map_render. Qed.

Lemma trigger_roundtrip c : trigger_ok c -> decodeTrigger L (render_trigger c) = Ok c.
Proof.
  destruct c as [es f t d|k data|at_ cron d|path ms|]; intros Hc; [| | | |done];
    unfold decodeTrigger, typed_node; unfold render_trigger, node; look_up; dispatch_type; look_up.
  - rewrite dec_strings. look_up. by rewrite (duration_ok_Ok _ Hc).
  - by rewrite dec_string_object.
  - destruct (is_empty (duration_text d)) eqn:He; [|by rewrite (duration_ok_Ok _ Hc)].
    apply duration_ok_Ok in Hc. unfold parsePklDuration in Hc. rewrite He in Hc. by injection Hc as <-.
  - by rewrite dec_strings.
Qed.

(** The induction principles of the nested trees. *)
Definition condition_ind (P : ConditionConfig -> Prop)
    (HS : forall e q o n, P (CC_State e q o n)) (HN : forall e a o v, P (CC_Numeric e a o v))
    (HT : forall a b w, P (CC_Time a b w)) (HK : forall e, P (CC_Starlark e))
    (HA : forall l, Forall P l -> P (CC_And l)) (HO : forall l, Forall P l -> P (CC_Or l))
    (HI : forall c, P c -> P (CC_Not c)) (HU : P CC_Unset) : forall c, P c :=
  fix go c :=
    let all := fix all (l : list ConditionConfig) : Forall P l :=
      match l with [] => Forall_nil_2 P | c :: l' => Forall_cons_2 P c l' (go c) (all l') end in
    match c with
    | CC_State e q o n => HS e q o n | CC_Numeric e a o v => HN e a o v | CC_Time a b w => HT a b w
    | CC_Starlark e => HK e | CC_And l => HA l (all l) | CC_Or l => HO l (all l)
    | CC_Not c => HI c (go c) | CC_Unset => HU
    end.

Lemma foldr_Forall {A} (P : A -> Prop) l : foldr (fun c Q => P c /\ Q) True l <-> Forall P l.
Proof. induction l as [|x l IH]; cbn; [|rewrite IH, Forall_cons]; naive_solver. Qed.

(** A decoder that inverts a renderer on the elements inverts it on the list,
    given fuel for the list. *)
Lemma mapM_roundtrip {A} (dec : nat -> json -> result decode_error A) (render : A -> json) ok n l :
  Forall (fun c => ok c -> forall n, (depth (render c) <= n)%nat -> dec n (render c) = Ok c) l ->
  Forall ok l -> (depth (JArray (map render l)) <= S n)%nat -> mapM (dec n) (map render l) = Ok l.
Proof.
  intros Hl Hok Hn.
  assert (forall c, c ∈ l -> (depth (render c) <= n)%nat) as Hd.
  { intros c Hc. assert (render c ∈ map render l) as Hr by by apply (list_elem_of_fmap_2 render).
    apply depth_elem in Hr. lia. }
  clear Hn. induction l as [|c l IH]; [done|]. inversion_clear Hl. inversion_clear Hok.
  cbn. rewrite H by (done || apply Hd; left). cbn.
  rewrite IH; [done|done|done|]. intros c' Hc'. apply Hd. by right.
Qed.

Lemma condition_roundtrip_fuel c :
  condition_ok c -> forall n, (depth (render_condition c) <= n)%nat -> decode_condition L n (render_condition c) = Ok c.
Proof.
  induction c using condition_ind; intros Hc fuel Hn; [..|done];
    (destruct fuel as [|fuel]; [pose proof (depth_pos (render_condition CC_Unset)); cbn in Hn; lia|]);
    cbn [decode_condition]; unfold typed_node; cbn [render_condition] in *; unfold node in *;
    look_up; dispatch_type; look_up.
  - by rewrite dec_strings.
  - cbn in Hc. cbn [dec_float]. by rewrite Hc.
  - by rewrite dec_strings.
  - done.
  - rewrite (mapM_roundtrip (decode_condition L) render_condition condition_ok); [done|done| |].
    + by apply foldr_Forall.
    + cbn in Hn. cbn. lia.
  - rewrite (mapM_roundtrip (decode_condition L) render_condition condition_ok); [done|done| |].
    + by apply foldr_Forall.
    + cbn in Hn. cbn. lia.
  - rewrite IHc; [done|done|]. cbn in Hn. lia.
Qed.

Definition action_ind (P : ActionConfig -> Prop)
    (HC : forall k e c a, P (AC_CallService k e c a)) (HS : forall k s, P (AC_Scene k s))
    (HR : forall k n a, P (AC_Script k n a)) (HK : forall k b, P (AC_Starlark k b))
    (HW : forall k d, P (AC_Wait k d)) (HQ : forall k l, Forall P l -> P (AC_Sequence k l))
    (HP : forall k l, Forall P l -> P (AC_Parallel k l)) (HU : forall k, P (AC_Unset k)) : forall c, P c :=
  fix go c :=
    let all := fix all (l : list ActionConfig) : Forall P l :=
      match l with [] => Forall_nil_2 P | c :: l' => Forall_cons_2 P c l' (go c) (all l') end in
    match c with
    | AC_CallService k e c a => HC k e c a | AC_Scene k s => HS k s | AC_Script k n a => HR k n a
    | AC_Starlark k b => HK k b | AC_Wait k d => HW k d | AC_Sequence k l => HQ k l (all l)
    | AC_Parallel k l => HP k l (all l) | AC_Unset k => HU k
    end.

Lemma action_roundtrip_fuel c :
  action_ok c -> forall n, (depth (render_action c) <= n)%nat -> decode_action L n (render_action c) = Ok c.
Proof.
  induction c using action_ind; intros Hc fuel Hn; [..|done];
    (destruct fuel as [|fuel]; [pose proof (depth_pos (render_action (AC_Unset false))); cbn in Hn; lia|]);
    cbn [decode_action]; cbn [render_action] in *; unfold action_node, node in *;
    look_up; dispatch_type; look_up; try done.
  - by rewrite dec_string_object.
  - by rewrite dec_string_object.
  - by rewrite (duration_ok_Ok _ Hc).
  - rewrite (mapM_roundtrip (decode_action L) render_action action_ok); [done|done| |].
    + by apply foldr_Forall.
    + cbn in Hn. cbn. lia.
  - rewrite (mapM_roundtrip (decode_action L) render_action action_ok); [done|done| |].
    + by apply foldr_Forall.
    + cbn in Hn. cbn. lia.
Qed.

Lemma decode_all_roundtrip {A} (dec : json -> result decode_error A) wrap (render : A -> json) ok l :
  (forall c, ok c -> dec (render c) = Ok c) -> Forall ok l -> decode_all dec wrap (render <$> l) = Ok l.
Proof.
  intros Hd Hl. unfold decode_all. induction Hl as [|c l Hc Hl IH]; [done|]. cbn.
  rewrite (Hd _ Hc). cbn. by rewrite IH.
Qed.

Lemma mode_roundtrip m : parseAutomationMode (mode_text m) = m.
Proof. by destruct m. Qed.

Lemma dec_int_pretty lo hi z :
  - 2 ^ 63 <= lo -> hi <= 2 ^ 63 -> lo <= z < hi -> dec_int lo hi (JNumber (pretty z)) = Some z.
Proof.
  intros. cbn. rewrite ParseInt_pretty by lia. cbn.
  by rewrite (proj2 (Z.leb_le _ _)), (proj2 (Z.ltb_lt _ _)) by lia.
Qed.

Lemma automation_roundtrip (a : AutomationConfig) :
  automation_ok a -> automationFromJSON L (render_automation a) = Ok a.
Proof.
  intros [Hid Hq Ht Hc Hx]. unfold automationFromJSON, render_automation. look_up.
  rewrite dec_int_pretty by lia. look_up. rewrite dec_strings. look_up.
  rewrite (decode_all_roundtrip _ _ render_trigger trigger_ok) by (done || apply trigger_roundtrip).
  rewrite (decode_all_roundtrip _ _ render_condition condition_ok)
    by (done || intros; by apply condition_roundtrip_fuel).
  rewrite (decode_all_roundtrip _ _ render_action action_ok)
    by (done || intros; by apply action_roundtrip_fuel).
  cbn [mbind result_bind]. rewrite TrimSpace_trimmed, mode_roundtrip by done. by destruct a.
Qed.

(** Decoding inverts rendering: the JSON that an automation is rendered to,
    with all its triggers, its conditions and actions nested to any depth,
    decodes to that automation, provided its id has no surrounding space, its
    queue bound fits 32 bits, and the texts chosen for its numbers and durations
    read back as those numbers and durations. *)
Theorem automation_json_roundtrip (a : AutomationConfig) :
  automation_ok a -> automationFromJSON L (render_automation a) = Ok a.
Proof. apply automation_roundtrip. Qed.

End Render.

(** ** A concrete automation *)

Module DecodeDemo.

(** Floating point texts of the values used below. *)
Definition scan (s : string) : option spec_float :=
  if String.eqb s "90" then Some (float_of_Z 90) else if String.eqb s "21.5" then Some (SFdiv 53 1024 (float_of_Z 43) (float_of_Z 2))
  else if String.eqb s "0" then Some (S754_zero false) else None.
Definition lib : JSONLib := mkJSONLib (fun _ => None) (fun _ => "") scan scan.
Definition number_text (f : spec_float) : string := "21.5".
Definition duration_text (d : Z) : string := if d =? 0 then "" else "90.s".

Definition evening : AutomationConfig :=
  mkAutomationConfig "evening" true ModeQueued 4
    [TC_StateChange ["binary_sensor.door"] "off" "on" (90 * Second); TC_Event "doorbell" {["id" := "front"]};
     TC_Time "" "0 18 * * *" 0; TC_Webhook "/evening" ["POST"]]
    [CC_And [CC_State "sun.sun" "below_horizon" [] "";
             CC_Or [CC_Not (CC_Time "22:00" "06:00" ["sat"; "sun"]); CC_Starlark "guests()"]];
     CC_Numeric "sensor.hall" "temperature" "lt" (SFdiv 53 1024 (float_of_Z 43) (float_of_Z 2))]
    [AC_Sequence true [AC_CallService false "light.hall" "turn_on" {["level" := "60"]};
                       AC_Parallel false [AC_Wait true (90 * Second); AC_Scene false "dusk"];
                       AC_Script false "announce" ∅]]
    ["hall"].

Lemma automation_json_roundtrip_witness :
  automation_ok lib number_text duration_text evening /\
  automationFromJSON lib (render_automation number_text duration_text evening) = Ok evening.
Proof.
  assert (automation_ok lib number_text duration_text evening) as H.
  { split; [reflexivity | cbn; lia | repeat constructor..]. }
  split; [exact H|]. apply (automation_json_roundtrip lib number_text duration_text evening H).
Defined.
End DecodeDemo.
