(* ===== verification/Scene.v ===== *)
(** * Scenes

    Models [internal/automation/scene/applier.go] on top of [Rules]: a scene is
    looked up in the configuration, its actions are compiled without scripts and
    run in parallel, each allowed to fail, and a [scene_applied] event is
    appended. An action may invoke a scene again, so runs and invocations are
    mutually inductive: a derivation is a run that ends. The configuration does
    not change during a run; steps and logs are left out of the event.

    [scene_best_effort] says what an invocation that ends has done,
    [scene_terminates] when it ends and [scene_cycle_diverges] when it does not. *)

From S2P Require Import Prelude Events Triggers Rules RulesFacts ConfigDecode.

Record scene_applied := mkSceneApplied {
  sa_SceneId : string; sa_AreaId : string; sa_CorrelationId : string; sa_InvokedBy : string; sa_Outcome : RunOutcome;
}.

(** What a run does: leaves, and events of invocations. *)
Inductive trace_event :=
  | Leaf (e : Executor) (r : option act_err)
  | Applied (ev : scene_applied).

Definition is_scene (e : Executor) : bool := match e with SceneAction _ => true | _ => false end.

Section Scene.
Context (ParseOnly : string -> bool -> option string).
Context (compile_text : compile_err -> string).
Context (scenes : list SceneConfig).

Definition find_scene (id : string) : option SceneConfig :=
  snd <$> list_find (fun s => scene_Id s = id) scenes.

(** The loop of [Invoke]: [CompileAction(ac, nil, a.runtime)] knows no script. *)
Fixpoint compile_actions (l : list ActionConfig) : result compile_err (list Executor) :=
  match l with
  | [] => Ok []
  | ac :: l' => match compileAction ParseOnly (fun _ => false) ac with
                | Err e => Err e
                | Ok ex => match compile_actions l' with Err e => Err e | Ok exs => Ok (ex :: exs) end
                end
  end.

(** [&action.ParallelBlock{Children: execs, ChildCtrl: ctrls}]. *)
Definition scene_block (xs : list Executor) : Executor := ParallelBlock ((fun x => (x, true)) <$> xs).

Definition applied_event (sc : SceneConfig) (corr invokedBy : string) (o : RunOutcome) : trace_event :=
  Applied (mkSceneApplied (scene_Id sc) (scene_AreaId sc) corr invokedBy o).

Definition ErrSceneNotFound : act_err := (OtherErr, "scene: not found").

Inductive Run (corr : string) : Executor -> list trace_event -> option act_err -> Prop :=
  | Run_leaf e r :
      is_leaf e = true -> is_scene e = false -> (forall d, e = WaitAction d -> d <= 0 -> r = None) ->
      Run corr e [Leaf e r] r
  | Run_scene slug t r : Invoke corr slug "automation" t r -> Run corr (SceneAction slug) t r
  | Run_seq_nil : Run corr (SequenceBlock []) [] None
  | Run_seq_ok child cont rest t1 r1 t2 r2 :
      Run corr child t1 r1 -> r1 = None \/ cont = true -> Run corr (SequenceBlock rest) t2 r2 ->
      Run corr (SequenceBlock ((child, cont) :: rest)) (t1 ++ t2) r2
  | Run_seq_err child rest t1 x :
      Run corr child t1 (Some x) -> Run corr (SequenceBlock ((child, false) :: rest)) t1 (Some x)
  | Run_par children ts rs t r :
      Run_all corr children ts rs -> interleave ts t ->
      (r = None /\ hard_errors rs = [] \/ exists x, r = Some x /\ x ∈ hard_errors rs) ->
      Run corr (ParallelBlock children) t r
with Run_all (corr : string) : list (Executor * bool) -> list (list trace_event) -> list (option act_err * bool) -> Prop :=
  | RA_nil : Run_all corr [] [] []
  | RA_cons child cont rest t r ts rs :
      Run corr child t r -> Run_all corr rest ts rs ->
      Run_all corr ((child, cont) :: rest) (t :: ts) ((r, cont) :: rs)
with Invoke (corr : string) : string -> string -> list trace_event -> option act_err -> Prop :=
  | Invoke_missing id invokedBy :
      find_scene id = None -> Invoke corr id invokedBy [] (Some ErrSceneNotFound)
  | Invoke_bad id invokedBy sc e :
      find_scene id = Some sc -> compile_actions (scene_Actions sc) = Err e ->
      Invoke corr id invokedBy [applied_event sc corr invokedBy OUTCOME_ACTION_ERROR] (Some (OtherErr, compile_text e))
  | Invoke_run id invokedBy sc xs t r :
      find_scene id = Some sc -> compile_actions (scene_Actions sc) = Ok xs ->
      Run corr (scene_block xs) t r ->
      Invoke corr id invokedBy
        (t ++ [applied_event sc corr invokedBy (match r with None => OUTCOME_OK | Some _ => OUTCOME_ACTION_ERROR end)]) r.

Scheme Run_mind := Minimality for Run Sort Prop
  with Run_all_mind := Minimality for Run_all Sort Prop
  with Invoke_mind := Minimality for Invoke Sort Prop.
Combined Scheme Run_mutind from Run_mind, Run_all_mind, Invoke_mind.

(** ** What an invocation does *)

Lemma run_all_length corr cs ts rs : Run_all corr cs ts rs -> rs.*2 = cs.*2 /\ length ts = length cs.
Proof. induction 1 as [|child cont rest t r ts rs Hr _ [H1 H2]]; [done|]. cbn. by rewrite H1, H2. Qed.

Lemma soft_errors rs : Forall (fun c => c = true) rs.*2 -> hard_errors rs = [].
Proof. induction rs as [|[r c] rs IH]; [done|]. cbn. intros [-> H]%Forall_cons. by apply IH. Qed.

Lemma scene_block_ok corr xs t r : Run corr (scene_block xs) t r -> r = None.
Proof.
  intros H. inversion H as [? ? Hl| | | | |children ts rs t' r' Hall Hil Hr]; subst; [done|].
  apply run_all_length in Hall as [Hc _].
  assert (hard_errors rs = []) as Hh.
  { apply soft_errors. rewrite Hc, <- list_fmap_compose. apply Forall_fmap, Forall_true. done. }
  destruct Hr as [[-> _]|(x & _ & Hx)]; [done|]. rewrite Hh in Hx. by apply not_elem_of_nil in Hx.
Qed.

Lemma interleave_elem {A} (ts : list (list A)) t x : interleave ts t -> (exists u, u ∈ ts /\ x ∈ u) <-> x ∈ t.
Proof.
  induction 1 as [ts Hts|ts1 y u ts2 rest _ IH].
  - split; [|by intros ?%not_elem_of_nil]. intros (u & Hu & Hx). rewrite Forall_forall in Hts. rewrite (Hts u Hu) in Hx.
    by apply not_elem_of_nil in Hx.
  - rewrite elem_of_cons, <- IH. setoid_rewrite elem_of_app. setoid_rewrite elem_of_cons. split.
    + intros (w & [Hw|[->|Hw]] & Hx); [right; eauto| |right; eauto]. apply elem_of_cons in Hx as [->|Hx]; [by left|right; eauto].
    + intros [->|(w & [Hw|[->|Hw]] & Hx)]; [| | |].
      * exists (y :: u). split; [by right; left | by left].
      * exists w. auto.
      * exists (y :: u). split; [by right; left | by right].
      * exists w. auto.
Qed.

Lemma run_all_leaf corr cs ts rs e :
  Run_all corr cs ts rs -> is_leaf e = true -> is_scene e = false -> (exists c, (e, c) ∈ cs) -> exists u r, u ∈ ts /\ Leaf e r ∈ u.
Proof.
  intros H Hl Hs. induction H as [|child cont rest t r ts rs Hr _ IH]; intros [c Hc]; [by apply not_elem_of_nil in Hc|].
  apply elem_of_cons in Hc as [[= <- <-]|Hc].
  - inversion Hr; subst; try done. exists [Leaf e r], r. split; [by left | by left].
  - destruct IH as (u & r' & Hu & Hx); [eauto|]. exists u, r'. split; [by right|done].
Qed.

(** A scene does its best: an invocation of a scene whose actions compile
    runs every action that is a plain step, also when others fail, reports no
    error whatever fails, and ends with exactly one event for the scene, of
    outcome OK. *)
Theorem scene_best_effort (corr id invokedBy : string) (sc : SceneConfig) (xs : list Executor) (t : list trace_event)
    (r : option act_err) :
  find_scene id = Some sc -> compile_actions (scene_Actions sc) = Ok xs -> Invoke corr id invokedBy t r ->
  r = None /\
  (exists t', t = t' ++ [applied_event sc corr invokedBy OUTCOME_OK]) /\
  forall e, e ∈ xs -> is_leaf e = true -> is_scene e = false -> exists r', Leaf e r' ∈ t.
Proof.
  intros Hf Hc Hi. inversion Hi; simplify_eq; [congruence|]. assert (xs0 = xs) as -> by congruence. match goal with H : Run _ _ _ _ |- _ => rename H into Hrun end.
  pose proof (scene_block_ok _ _ _ _ Hrun) as ->. split; [done|]. split; [by eexists|].
  intros e He Hl Hs. inversion Hrun as [? ? Hl'| | | | |children ts rs ? ? Hall Hil Hr]; subst; [done|].
  destruct (run_all_leaf _ _ _ _ e Hall Hl Hs) as (u & r' & Hu & Hx).
  { exists true. apply list_elem_of_fmap. by exists e. }
  exists r'. apply elem_of_app. left. apply (interleave_elem _ _ _ Hil). eauto.
Qed.

(** ** Rules treats a scene as a step with some result *)

Lemma run_abstracts corr :
  (forall e t r, Run corr e t r -> exists t', Execute e t' r) /\
  (forall cs ts rs, Run_all corr cs ts rs -> exists ts', Execute_all cs ts' rs) /\
  (forall id by_ t r, Invoke corr id by_ t r -> True).
Proof.
  apply Run_mutind; try done.
  - intros e r Hl _ Hw. eexists. by constructor.
  - intros slug t r _ _. exists [(SceneAction slug, r)]. by constructor.
  - exists []. constructor.
  - intros child cont rest t1 r1 t2 r2 _ [t1' H1] Hc _ [t2' H2]. exists (t1' ++ t2'). by eapply Exec_seq_ok.
  - intros child rest t1 x _ [t1' H1]. exists t1'. by constructor.
  - intros children ts rs t r _ [ts' H] _ Hr. destruct (interleave_exists ts') as [t' Ht]. exists t'. by eapply Exec_par.
  - exists []. constructor.
  - intros child cont rest t r ts rs _ [t' H1] _ [ts' H2]. exists (t' :: ts'). by constructor.
Qed.

(** Every run with scenes is a run in the sense of [Rules]. *)
Theorem scene_runs_are_runs (corr : string) (e : Executor) (t : list trace_event) (r : option act_err) :
  Run corr e t r -> exists t', Execute e t' r.
Proof. apply run_abstracts. Qed.

(** ** Scenes that end *)

(** The scenes an executor may invoke. *)
Fixpoint scene_refs (e : Executor) : list string :=
  match e with
  | SceneAction slug => [slug]
  | SequenceBlock l | ParallelBlock l =>
      (fix go (l : list (Executor * bool)) : list string :=
         match l with [] => [] | (x, _) :: l' => scene_refs x ++ go l' end) l
  | _ => []
  end.

Lemma scene_refs_block l b x : (exists c, (x, c) ∈ l) -> b ∈ scene_refs x -> b ∈ scene_refs (SequenceBlock l) /\ b ∈ scene_refs (ParallelBlock l).
Proof.
  intros [c Hc] Hb. cbn [scene_refs].
  assert (b ∈ (fix go (l : list (Executor * bool)) : list string :=
         match l with [] => [] | (x, _) :: l' => scene_refs x ++ go l' end) l) as H; [|done].
  induction l as [|[y c'] l IH]; [by apply not_elem_of_nil in Hc|]. apply elem_of_app.
  apply elem_of_cons in Hc as [[= <- <-]|Hc]; [by left|right; by apply IH].
Qed.

(** [mentions b a]: some action of scene [a] names scene [b]. *)
Definition mentions (b a : string) : Prop :=
  exists sc xs x, find_scene a = Some sc /\ compile_actions (scene_Actions sc) = Ok xs /\ x ∈ xs /\ b ∈ scene_refs x.

(** Leaves answer as [oracle] says. *)
Definition answers (oracle : Executor -> option act_err) (t : list trace_event) : Prop :=
  forall e r, Leaf e r ∈ t -> r = oracle e.

Section Terminates.
Context (oracle : Executor -> option act_err).
Hypothesis oracle_wait : forall d, d <= 0 -> oracle (WaitAction d) = None.

Lemma answers_app t1 t2 : answers oracle t1 -> answers oracle t2 -> answers oracle (t1 ++ t2).
Proof. intros H1 H2 e r [H|H]%elem_of_app; auto. Qed.

Lemma run_exists corr e :
  (forall b, b ∈ scene_refs e -> exists t r, Invoke corr b "automation" t r /\ answers oracle t) ->
  exists t r, Run corr e t r /\ answers oracle t.
Proof.
  induction e as [e He|l IH|l IH] using Executor_nested_ind; intros Hb.
  - destruct (is_scene e) eqn:Hs.
    + destruct e as [| slug | | | | |]; try done. destruct (Hb slug) as (t & r & Hi & Ha); [by left|].
      exists t, r. split; [by constructor|done].
    + exists [Leaf e (oracle e)], (oracle e). split; [|by intros e' r' [= -> ->]%list_elem_of_singleton].
      constructor; [done..|]. intros d -> Hd. by apply oracle_wait.
  - assert (Forall (fun x => exists t r, Run corr x.1 t r /\ answers oracle t) l) as Hl.
    { rewrite Forall_forall in IH |- *. intros [x c] Hx. apply IH; [done|]. intros b Hbx.
      apply Hb, (scene_refs_block l b x); [by exists c|done]. }
    clear IH Hb. induction Hl as [|[x c] l (t1 & r1 & H1 & A1) _ (t2 & r2 & H2 & A2)].
    + exists [], None. split; [constructor|]. by intros e r ?%not_elem_of_nil.
    + destruct r1 as [y|]; [destruct c|].
      * exists (t1 ++ t2), r2. split; [by eapply Run_seq_ok; [done|by right|done] | by apply answers_app].
      * exists t1, (Some y). by split; [constructor|].
      * exists (t1 ++ t2), r2. split; [by eapply Run_seq_ok; [done|by left|done] | by apply answers_app].
  - assert (exists ts rs, Run_all corr l ts rs /\ Forall (answers oracle) ts) as (ts & rs & Hall & Ha).
    { assert (Forall (fun x => exists t r, Run corr x.1 t r /\ answers oracle t) l) as Hl.
      { rewrite Forall_forall in IH |- *. intros [x c] Hx. apply IH; [done|]. intros b Hbx.
        apply Hb, (scene_refs_block l b x); [by exists c|done]. }
      clear IH Hb. induction Hl as [|[x c] l (t1 & r1 & H1 & A1) _ (ts & rs & H2 & A2)]; [exists [], []; by split; constructor|].
      exists (t1 :: ts), ((r1, c) :: rs). split; by constructor. }
    destruct (interleave_exists ts) as [t Ht].
    assert (answers oracle t) as Hat.
    { intros e r He. apply (interleave_elem _ _ _ Ht) in He as (u & Hu & He). rewrite Forall_forall in Ha. by eapply Ha. }
    destruct (hard_errors rs) as [|y ys] eqn:Hh.
    + exists t, None. split; [|done]. eapply Run_par; eauto.
    + exists t, (Some y). split; [|done]. eapply Run_par; [done..|]. right. exists y. split; [done|]. rewrite Hh. left.
Qed.

Lemma invoke_exists corr id : Acc mentions id -> forall invokedBy, exists t r, Invoke corr id invokedBy t r /\ answers oracle t.
Proof.
  induction 1 as [id _ IH]. intros invokedBy. destruct (find_scene id) as [sc|] eqn:Hf.
  - destruct (compile_actions (scene_Actions sc)) as [xs|e] eqn:Hc.
    + destruct (run_exists corr (scene_block xs)) as (t & r & Hr & Ha).
      { intros b Hb. apply IH. exists sc, xs. assert (exists x, x ∈ xs /\ b ∈ scene_refs x) as (x & Hx & Hbx); [|by exists x].
        clear -Hb. unfold scene_block in Hb. induction xs as [|y xs IHx]; [by apply not_elem_of_nil in Hb|].
        cbn [fmap list_fmap scene_refs] in Hb. apply elem_of_app in Hb as [Hb|Hb].
        - exists y. split; [by left|done].
        - destruct IHx as (x & Hx & Hbx); [done|]. exists x. split; [by right|done]. }
      eexists _, r. split; [by eapply Invoke_run|]. apply answers_app; [done|].
      by intros e r' [=]%list_elem_of_singleton.
    + eexists _, _. split; [by eapply Invoke_bad|]. by intros e' r' [=]%list_elem_of_singleton.
  - exists [], (Some ErrSceneNotFound). split; [by constructor|]. by intros e r ?%not_elem_of_nil.
Qed.
End Terminates.

(** An invocation ends unless scenes invoke each other in a circle: if no
    infinite chain of scenes that mention one another starts at a scene, then,
    whatever the commands, scripts, waits and Starlark steps answer, there is a
    run of it that ends with those answers. *)
Theorem scene_terminates (oracle : Executor -> option act_err) (corr id invokedBy : string) :
  (forall d, d <= 0 -> oracle (WaitAction d) = None) -> Acc mentions id ->
  exists t r, Invoke corr id invokedBy t r /\ answers oracle t.
Proof. intros Ho Hacc. by apply invoke_exists. Qed.

(** ** Scenes that do not *)

(** The runs of the direct children of a block are part of its run. *)
Lemma run_par_child corr cs ts rs x : Run_all corr cs ts rs -> (exists c, (x, c) ∈ cs) -> exists t r, Run corr x t r.
Proof.
  induction 1 as [|child cont rest t r ts rs Hr _ IH]; intros [c Hc]; [by apply not_elem_of_nil in Hc|].
  apply elem_of_cons in Hc as [[= <- <-]|Hc]; [by exists t, r | apply IH; by exists c].
Qed.

(** [calls a b]: invoking [b] is itself an action of scene [a]. *)
Definition calls (a b : string) : Prop :=
  exists sc xs, find_scene a = Some sc /\ compile_actions (scene_Actions sc) = Ok xs /\ SceneAction b ∈ xs.

Lemma no_run_in_cycle (P : string -> Prop) corr :
  (forall a, P a -> exists b, P b /\ calls a b) ->
  (forall e t r, Run corr e t r -> match e with
                                   | SceneAction b => ~ P b
                                   | ParallelBlock cs => forall b c, (SceneAction b, c) ∈ cs -> ~ P b
                                   | _ => True end) /\
  (forall cs ts rs, Run_all corr cs ts rs -> forall b c, (SceneAction b, c) ∈ cs -> ~ P b) /\
  (forall id by_ t r, Invoke corr id by_ t r -> ~ P id).
Proof.
  intros Hcyc. apply Run_mutind; try done.
  - intros e r Hl Hs _. by destruct e.
  - intros b c H. by apply not_elem_of_nil in H.
  - intros child cont rest t r ts rs _ Hc _ IH b c [[= <- <-]|H]%elem_of_cons; [done|by eapply IH].
  - intros id by_ Hn Hp. destruct (Hcyc id Hp) as (b & _ & sc & xs & Hf & _). congruence.
  - intros id by_ sc e Hf He Hp. destruct (Hcyc id Hp) as (b & _ & sc' & xs & Hf' & Hc & _). simplify_eq. congruence.
  - intros id by_ sc xs t r Hf Hc _ IH Hp. destruct (Hcyc id Hp) as (b & Hb & sc' & xs' & Hf' & Hc' & Hin).
    simplify_eq. assert (xs' = xs) as -> by congruence. apply (IH b true); [|done]. apply list_elem_of_fmap. by exists (SceneAction b).
Qed.

(** Scenes that invoke each other in a circle never return: if every scene
    of a set has an action that invokes a scene of the set, no invocation of one
    of them ends; nothing in the validation of a configuration excludes such a
    set. *)
Theorem scene_cycle_diverges (P : string -> Prop) (corr id invokedBy : string) (t : list trace_event) (r : option act_err) :
  (forall a, P a -> exists b, P b /\ calls a b) -> P id -> ~ Invoke corr id invokedBy t r.
Proof. intros Hcyc Hp Hi. by eapply (no_run_in_cycle P corr Hcyc). Qed.

(** A scene with a script never runs: although the applier has the scripts at
    hand, it compiles the actions of a scene without their names, so one script
    action, at any place of the list, makes every invocation fail before any
    action runs. *)
Theorem scene_script_never_runs (corr id invokedBy : string) (sc : SceneConfig) (c : bool) (name : string) (args : string_map)
    (t : list trace_event) (r : option act_err) :
  find_scene id = Some sc -> AC_Script c name args ∈ scene_Actions sc -> Invoke corr id invokedBy t r ->
  t = [applied_event sc corr invokedBy OUTCOME_ACTION_ERROR] /\ r <> None.
Proof.
  intros Hf Hin Hi.
  assert (forall l, AC_Script c name args ∈ l -> exists e, compile_actions l = Err e) as Hno.
  { clear. induction l as [|ac l IH]; intros H; [by apply not_elem_of_nil in H|]. cbn [compile_actions].
    apply elem_of_cons in H as [<-|H]; [by eexists|]. destruct (compileAction _ _ ac); [|by eexists].
    destruct (IH H) as [e ->]. by eexists. }
  destruct (Hno _ Hin) as [e He]. inversion Hi; simplify_eq; [done|congruence].
Qed.
End Scene.

(** ** An evening *)

Module SceneDemo.

Definition lamp (e : string) : ActionConfig := AC_CallService false e "turn_on" ∅.
Definition evening : SceneConfig := mkSceneConfig "evening" "" "living" [lamp "light.a"; lamp "light.b"].
Definition night : SceneConfig := mkSceneConfig "night" "" "" [AC_Scene false "evening"; AC_Wait false 0].
Definition ping : SceneConfig := mkSceneConfig "ping" "" "" [AC_Scene false "pong"].
Definition pong : SceneConfig := mkSceneConfig "pong" "" "" [AC_Scene false "ping"].
Definition tidy : SceneConfig := mkSceneConfig "tidy" "" "" [lamp "light.a"; AC_Script false "tidy_up" ∅].
Definition all : list SceneConfig := [evening; night; ping; pong; tidy].
Definition parse (_ : string) (_ : bool) : option string := None.
Definition text (_ : compile_err) : string := "compile".
Definition broken (e : Executor) : option act_err :=
  match e with CallServiceAction "light.a" _ _ => Some (OtherErr, "offline") | _ => None end.

Lemma evening_acc : Acc (mentions parse all) "evening".
Proof.
  constructor. intros b (sc & xs & x & Hf & Hc & Hx & Hb). vm_compute in Hf. injection Hf as <-. vm_compute in Hc. injection Hc as <-.
  repeat (apply elem_of_cons in Hx as [->|Hx]; [by apply not_elem_of_nil in Hb|]). by apply not_elem_of_nil in Hx.
Defined.

Lemma scene_terminates_witness :
  exists t r, Invoke parse text all "c1" "night" "rpc" t r /\ answers broken t.
Proof.
  apply (scene_terminates parse text all broken "c1" "night" "rpc"); [reflexivity|].
  constructor. intros b (sc & xs & x & Hf & Hc & Hx & Hb). vm_compute in Hf. injection Hf as <-. vm_compute in Hc. injection Hc as <-.
  apply elem_of_cons in Hx as [->|Hx].
  - apply list_elem_of_singleton in Hb as ->. apply evening_acc.
  - apply list_elem_of_singleton in Hx as ->. by apply not_elem_of_nil in Hb.
Defined.

Lemma scene_best_effort_witness :
  exists t r, Invoke parse text all "c1" "evening" "rpc" t r /\ r = None /\
    exists r', Leaf (CallServiceAction "light.b" "turn_on" ∅) r' ∈ t.
Proof.
  destruct (invoke_exists parse text all broken (fun _ _ => eq_refl) "c1" "evening" evening_acc "rpc") as (t & r & Hi & _).
  exists t, r. split; [done|].
  destruct (scene_best_effort parse text all "c1" "evening" "rpc" evening
    [CallServiceAction "light.a" "turn_on" ∅; CallServiceAction "light.b" "turn_on" ∅] t r eq_refl eq_refl Hi) as (Hr & _ & Hl).
  split; [done|]. apply Hl; [right; left|done|done].
Defined.

Lemma scene_cycle_diverges_witness :
  find_scene all "ping" = Some ping /\ forall t r, ~ Invoke parse text all "c1" "ping" "rpc" t r.
Proof.
  split; [done|]. intros t r.
  apply (scene_cycle_diverges parse text all (fun a => a = "ping" \/ a = "pong") "c1" "ping" "rpc" t r); [|by left].
  intros a [-> | ->].
  - exists "pong". split; [by right|]. exists ping, [SceneAction "pong"]. split_and!; [done|done|left].
  - exists "ping". split; [by left|]. exists pong, [SceneAction "ping"]. split_and!; [done|done|left].
Defined.

Lemma scene_script_never_runs_witness :
  exists t r, Invoke parse text all "c1" "tidy" "rpc" t r /\ t = [applied_event tidy "c1" "rpc" OUTCOME_ACTION_ERROR] /\ r <> None.
Proof.
  assert (Invoke parse text all "c1" "tidy" "rpc" [applied_event tidy "c1" "rpc" OUTCOME_ACTION_ERROR]
    (Some (OtherErr, "compile"))) as Hi by (by eapply (Invoke_bad _ text)).
  eexists _, _. split; [exact Hi|].
  apply (scene_script_never_runs parse text all "c1" "tidy" "rpc" tidy false "tidy_up" ∅ _ _ eq_refl); [right; left|exact Hi].
Defined.
End SceneDemo.
