(* ===== verification/Config.v ===== *)
(** * Configuration snapshots

    Models [internal/config]: [diff.go], [merge.go], [compile.go], [secrets.go]
    and [semantic_message.go]. A snapshot keeps the fields these files read. A
    validation error is a constructor with what its message names; the fields
    of [ValidationError] follow from it. Where the source ranges over a Go map,
    the map is a list in the order of the iteration. *)

From Stdlib Require Import Ascii String.
From S2P Require Import Prelude Codec Json Rules ConfigDecode.

Record DriverInstanceConfig := mkDriverInstance {
  di_Id : string; di_DriverName : string; di_ConfigHash : string; di_Params : string;
}.
Record EntityConfig := mkEntityConfig { ec_Id : string; ec_FriendlyName : string; ec_Type : string; ec_Area : string }.
Inductive ScriptParam_Type :=
  | TYPE_UNSPECIFIED | TYPE_STRING | TYPE_INT | TYPE_FLOAT | TYPE_BOOL | TYPE_ENTITY_ID | TYPE_OTHER (n : Z).
Record ScriptParam := mkScriptParam {
  sp_Name : string; sp_Type : ScriptParam_Type; sp_Required : bool; sp_Default : string;
}.
Record ScriptConfig := mkScriptConfig { sc_Name : string; sc_Params : list ScriptParam; sc_Handler : string }.
Record DashboardConfig := mkDashboardConfig { dash_Slug : string; dash_Content : string }.

Record ConfigSnapshot := mkSnapshot {
  EvaluatedAtUnixMs : Z;
  DriverInstances : list DriverInstanceConfig;
  Entities : list EntityConfig;
  Automations : list AutomationConfig;
  Scenes : list SceneConfig;
  Scripts : list ScriptConfig;
  Areas : list AreaConfig;
  EntityAreas : gmap string string;
  Dashboards : list DashboardConfig;
}.

Definition with_instances (l : list DriverInstanceConfig) (s : ConfigSnapshot) : ConfigSnapshot :=
  mkSnapshot (EvaluatedAtUnixMs s) l (Entities s) (Automations s) (Scenes s) (Scripts s) (Areas s)
    (EntityAreas s) (Dashboards s).

Definition with_params (p : string) (di : DriverInstanceConfig) : DriverInstanceConfig :=
  mkDriverInstance (di_Id di) (di_DriverName di) (di_ConfigHash di) p.

(** ** Differences *)

Record ConfigDiff := mkDiff {
  DriverInstancesAdded : list string;
  DriverInstancesRemoved : list string;
  DriverInstancesChanged : list string;
  AutomationsChanged : Z;
  DashboardsChanged : Z;
}.

(** [oldInsts]: the hash of every old instance, the last one for a repeated id. *)
Definition instance_hashes (l : list DriverInstanceConfig) : gmap string string :=
  foldl (fun m di => <[di_Id di := di_ConfigHash di]> m) ∅ l.

(** The loop over the new instances. *)
Fixpoint diff_next (oldInsts : gmap string string) (l : list DriverInstanceConfig) : list string * list string :=
  match l with
  | [] => ([], [])
  | di :: l' =>
      let '(added, changed) := diff_next oldInsts l' in
      match oldInsts !! di_Id di with
      | None => (di_Id di :: added, changed)
      | Some h => if String.eqb h (di_ConfigHash di) then (added, changed) else (added, di_Id di :: changed)
      end
  end.

(** [order] is the order in which the loop visits the keys of [oldInsts]; a nil
    [old] is [None]. *)
Definition Diff (order : list string) (old : option ConfigSnapshot) (next : ConfigSnapshot) : ConfigDiff :=
  let oldInsts := match old with Some o => instance_hashes (DriverInstances o) | None => ∅ end in
  let nextIDs := di_Id <$> DriverInstances next in
  let '(added, changed) := diff_next oldInsts (DriverInstances next) in
  let removed := filter (fun id => id ∉ nextIDs) order in
  let count {A} (f : ConfigSnapshot -> list A) :=
    Z.of_nat (length (f next)) - match old with Some o => Z.of_nat (length (f o)) | None => 0 end in
  mkDiff added removed changed (count Automations) (count Dashboards).

(** ** Merging discovered files *)

(** What the loop of [filepath.Base] leaves: the part after the last slash. *)
Fixpoint after_slash (s : string) : option string :=
  match s with
  | EmptyString => None
  | String c s' => match after_slash s' with
                   | Some t => Some t
                   | None => if Ascii.eqb c "/" then Some s' else None
                   end
  end.
Definition trim_one_slash (s : string) : option string :=
  if has_suffix s "/" then Some (trim_suffix s "/") else None.

(** [filepath.Base]. *)
Definition Base (path : string) : string :=
  if is_empty path then "."
  else let p := trim_all trim_one_slash (String.length path) path in
       if is_empty p then "/" else default p (after_slash p).

Inductive ValidationError :=
  | FilenameIdMismatch (kind path id expected : string)
  | DuplicateInline (kind path id : string)
  | DuplicateEntityArea (key existing value : string)
  | DuplicateInstance (id : string)
  | UnknownDriver (id name : string)
  | DuplicateEntity (id : string)
  | InvalidEntityID (id : string)
  | DuplicateAutomation (id : string)
  | DuplicateScript (name : string)
  | UnknownScript (path name : string)
  | DanglingAreaRef (scene area : string)
  | DiscoveryError (file message : string).

(** One of the three loops of [mergeDiscovered]: the configurations appended,
    the errors, and whether one of them is a conflict. *)
Section MergeKind.
Context {C : Type} (kind : string) (id_of : C -> string).

Definition expectedID (path : string) : string := trim_suffix (Base path) ".pkl".

Fixpoint merge_kind (inline : list string) (disc : list (string * C)) : list C * list ValidationError * bool :=
  match disc with
  | [] => ([], [], false)
  | (path, c) :: rest =>
      let '(out, errs, hard) := merge_kind inline rest in
      if negb (String.eqb (id_of c) (expectedID path))
      then (out, FilenameIdMismatch kind path (id_of c) (expectedID path) :: errs, hard)
      else if contains_eq inline (id_of c)
      then (out, DuplicateInline kind path (id_of c) :: errs, true)
      else (c :: out, errs, hard)
  end.
End MergeKind.

(** The loop over the entity areas of [entity-areas.pkl]. *)
Fixpoint merge_areas (m : gmap string string) (disc : list (string * string)) :
    gmap string string * list ValidationError * bool :=
  match disc with
  | [] => (m, [], false)
  | (k, v) :: rest =>
      match m !! k with
      | Some existing =>
          if String.eqb existing v
          then merge_areas (<[k := v]> m) rest
          else let '(m', errs, _) := merge_areas m rest in (m', DuplicateEntityArea k existing v :: errs, true)
      | None => merge_areas (<[k := v]> m) rest
      end
  end.

Record discoveryResult := mkDiscovery {
  disc_Automations : list (string * AutomationConfig);
  disc_Areas : list (string * AreaConfig);
  disc_Scenes : list (string * SceneConfig);
  disc_EntityAreas : list (string * string);
}.

(** The merged snapshot, the errors, and whether the merge failed. *)
Definition mergeDiscovered (snap : ConfigSnapshot) (disc : discoveryResult) :
    ConfigSnapshot * list ValidationError * bool :=
  let '(autos, e1, h1) := merge_kind "automations" cfg_ID (cfg_ID <$> Automations snap) (disc_Automations disc) in
  let '(areas, e2, h2) := merge_kind "areas" area_Id (area_Id <$> Areas snap) (disc_Areas disc) in
  let '(scenes, e3, h3) := merge_kind "scenes" scene_Id (scene_Id <$> Scenes snap) (disc_Scenes disc) in
  let '(ea, e4, h4) := merge_areas (EntityAreas snap) (disc_EntityAreas disc) in
  (mkSnapshot (EvaluatedAtUnixMs snap) (DriverInstances snap) (Entities snap) (Automations snap ++ autos)
     (Scenes snap ++ scenes) (Scripts snap) (Areas snap ++ areas) ea (Dashboards snap),
   e1 ++ e2 ++ e3 ++ e4, h1 || h2 || h3 || h4).

(** ** Validation of references *)

(** The loops that report a repeated name. *)
Fixpoint duplicates (err : string -> ValidationError) (seen : list string) (l : list string) :
    list ValidationError :=
  match l with
  | [] => []
  | x :: l' => (if contains_eq seen x then [err x] else []) ++ duplicates err (x :: seen) l'
  end.

(** The loop over the driver instances. *)
Fixpoint check_instances (querier : option (string -> bool)) (seen : list string)
    (l : list DriverInstanceConfig) : list ValidationError :=
  match l with
  | [] => []
  | di :: l' =>
      (if contains_eq seen (di_Id di) then [DuplicateInstance (di_Id di)] else []) ++
      match querier with
      | Some exists_ => if negb (is_empty (di_DriverName di)) && negb (exists_ (di_DriverName di))
                        then [UnknownDriver (di_Id di) (di_DriverName di)] else []
      | None => []
      end ++ check_instances querier (di_Id di :: seen) l'
  end.

Definition isValidEntityID (id : string) : bool :=
  match SplitN "." 2 id with
  | [a; b] => negb (is_empty a) && negb (is_empty b)
  | _ => false
  end.

(** The loop over the entities. *)
Fixpoint check_entities (seen : list string) (l : list EntityConfig) : list ValidationError :=
  match l with
  | [] => []
  | e :: l' =>
      (if contains_eq seen (ec_Id e) then [DuplicateEntity (ec_Id e)] else []) ++
      (if isValidEntityID (ec_Id e) then [] else [InvalidEntityID (ec_Id e)]) ++
      check_entities (ec_Id e :: seen) l'
  end.

Definition item_path (path block : string) (i : nat) : string :=
  path +:+ block +:+ "[" +:+ pretty i +:+ "]".

Fixpoint collectScriptRefs (known : list string) (path : string) (ac : ActionConfig) : list ValidationError :=
  let children block := fix go (i : nat) (l : list ActionConfig) : list ValidationError :=
    match l with
    | [] => []
    | c :: l' => collectScriptRefs known (item_path path block i) c ++ go (S i) l'
    end in
  match ac with
  | AC_Script _ name _ =>
      if contains_eq known name then [] else [UnknownScript (path +:+ ".script.name") name]
  | AC_Sequence _ l => children ".sequence.actions" 0%nat l
  | AC_Parallel _ l => children ".parallel.actions" 0%nat l
  | _ => []
  end.

(** The loop over the actions of one automation. *)
Fixpoint check_actions (known : list string) (path : string) (i : nat) (l : list ActionConfig) :
    list ValidationError :=
  match l with
  | [] => []
  | ac :: l' => collectScriptRefs known (item_path path ".actions" i) ac ++ check_actions known path (S i) l'
  end.

Definition check_scene (known : list string) (sc : SceneConfig) : list ValidationError :=
  if negb (is_empty (scene_AreaId sc)) && negb (contains_eq known (scene_AreaId sc))
  then [DanglingAreaRef (scene_Id sc) (scene_AreaId sc)] else [].

(** The names of scripts that have one. *)
Definition script_names (snap : ConfigSnapshot) : list string :=
  filter (fun n => n <> "") (sc_Name <$> Scripts snap).

Definition Compile (snap : ConfigSnapshot) (querier : option (string -> bool)) : list ValidationError :=
  check_instances querier [] (DriverInstances snap) ++
  check_entities [] (Entities snap) ++
  duplicates DuplicateAutomation [] (cfg_ID <$> Automations snap) ++
  duplicates DuplicateScript [] (script_names snap) ++
  (a ← Automations snap;
   check_actions (script_names snap) ("automations[" +:+ cfg_ID a +:+ "]") 0 (cfg_Actions a)) ++
  (sc ← Scenes snap; check_scene (area_Id <$> Areas snap) sc).

(** ** Secrets *)

Definition RedactedSecret : string := "[REDACTED]".

Definition isSecretTag (s : string) : bool :=
  has_prefix s "env:" || has_prefix s "file:" || has_prefix s "keyring:".

Inductive secret_error :=
  | EnvNotSet (name : string)
  | ReadSecretFile (path err : string)
  | KeyringNotAvailable (s : string)
  | InvalidKeyringSecret (s : string)
  | KeyringError (err : string)
  | InField (k : string) (e : secret_error)
  | InInstance (id : string) (e : secret_error).

(** The environment, the file system and the keyring, if there is one. *)
Record SecretSources := mkSources {
  Getenv : string -> string;
  ReadFile : string -> result string string;
  Keyring : option (string -> string -> result string string);
}.

(** [strings.LastIndex(rest, "/")]: what is before and after. *)
Fixpoint cut_last_slash (s : string) : option (string * string) :=
  match s with
  | EmptyString => None
  | String c s' => match cut_last_slash s' with
                   | Some (a, b) => Some (String c a, b)
                   | None => if Ascii.eqb c "/" then Some (EmptyString, s') else None
                   end
  end.

Definition resolveSecret (src : SecretSources) (s : string) : result secret_error string :=
  if has_prefix s "env:" then
    let varName := trim_prefix s "env:" in
    let val := Getenv src varName in
    if is_empty val then Err (EnvNotSet varName) else Ok val
  else if has_prefix s "file:" then
    let path := trim_prefix s "file:" in
    match ReadFile src path with Err e => Err (ReadSecretFile path e) | Ok data => Ok (TrimSpace data) end
  else if has_prefix s "keyring:" then
    match Keyring src with
    | None => Err (KeyringNotAvailable s)
    | Some kr =>
        match cut_last_slash (trim_prefix s "keyring:") with
        | None => Err (InvalidKeyringSecret s)
        | Some (service, user) => map_err KeyringError (kr service user)
        end
    end
  else Ok s.

Section Walk.
Context (src : SecretSources).

(** The body of the loop of [walkMap]: strings and nested objects are visited,
    arrays are not. The flag says whether anything changed. *)
Fixpoint walk_value (k : string) (v : json) : result secret_error (json * bool) :=
  match v with
  | JString s => match resolveSecret src s with
                 | Err e => Err (InField k e)
                 | Ok r => Ok (JString r, negb (String.eqb r s))
                 end
  | JObject o =>
      '(o', c) ← (fix walk (m : list (string * json)) : result secret_error (list (string * json) * bool) :=
                    match m with
                    | [] => Ok ([], false)
                    | (k', x) :: m' => '(x', c1) ← walk_value k' x;
                                       '(rest, c2) ← walk m';
                                       Ok ((k', x') :: rest, c1 || c2)
                    end) o;
      Ok (JObject o', c)
  | _ => Ok (v, false)
  end.

Fixpoint walkMap (m : list (string * json)) :
    result secret_error (list (string * json) * bool) :=
  match m with
  | [] => Ok ([], false)
  | (k, v) :: m' => '(v', c1) ← walk_value k v;
                    '(rest, c2) ← walkMap m';
                    Ok ((k, v') :: rest, c1 || c2)
  end.

End Walk.

Fixpoint redact_value (v : json) : json * bool :=
  match v with
  | JString s => if isSecretTag s then (JString RedactedSecret, true) else (v, false)
  | JObject o =>
      let '(o', c) := (fix redact (m : list (string * json)) : list (string * json) * bool :=
                         match m with
                         | [] => ([], false)
                         | (k, x) :: m' => let '(x', c1) := redact_value x in
                                           let '(rest, c2) := redact m' in
                                           ((k, x') :: rest, c1 || c2)
                         end) o in
      (JObject o', c)
  | _ => (v, false)
  end.

Fixpoint redactMap (m : list (string * json)) : list (string * json) * bool :=
  match m with
  | [] => ([], false)
  | (k, v) :: m' => let '(v', c1) := redact_value v in
                    let '(rest, c2) := redactMap m' in
                    ((k, v') :: rest, c1 || c2)
  end.

Section Secrets.
Context (L : JSONLib).

(** [json.Unmarshal] into a [map[string]interface{}]; [null] is the nil map. *)
Definition as_map (data : string) : option (list (string * json)) :=
  j ← Unmarshal L data; as_struct j.

Definition resolveJSONSecrets (src : SecretSources) (data : string) : result secret_error string :=
  if is_empty data then Ok data
  else match as_map data with
  | None => Ok data
  | Some obj => '(obj', changed) ← walkMap src obj;
                Ok (if changed : bool then Marshal L (JObject obj') else data)
  end.

Definition redactJSONSecrets (data : string) : string :=
  if is_empty data then data
  else match as_map data with
  | None => data
  | Some obj => let '(obj', changed) := redactMap obj in
                if changed : bool then Marshal L (JObject obj') else data
  end.

(** [RedactedSnapshot] of a snapshot that is not nil; cloning a message and
    redacting its parameters cannot fail. *)
Definition RedactedSnapshot (snap : ConfigSnapshot) : ConfigSnapshot :=
  with_instances ((fun di => with_params (redactJSONSecrets (di_Params di)) di) <$> DriverInstances snap) snap.

(** [ResolveSecrets]: the snapshot as the loop leaves it, instances before the
    failing one resolved in place. *)
Fixpoint resolve_instances (src : SecretSources) (l : list DriverInstanceConfig) :
    list DriverInstanceConfig * option secret_error :=
  match l with
  | [] => ([], None)
  | di :: l' =>
      match resolveJSONSecrets src (di_Params di) with
      | Err e => (l, Some (InInstance (di_Id di) e))
      | Ok p => let '(rest, err) := resolve_instances src l' in (with_params p di :: rest, err)
      end
  end.

Definition ResolveSecrets (src : SecretSources) (snap : ConfigSnapshot) : ConfigSnapshot * option secret_error :=
  let '(l, err) := resolve_instances src (DriverInstances snap) in (with_instances l snap, err).

End Secrets.

(** ** The message of an apply *)

Definition DefaultApplyMessage : string := "config(repo): apply configuration".

Definition allowedConfigMessageScopes : list string :=
  ["area"; "automation"; "driver"; "entity"; "page"; "policy"; "scene"; "script"; "auth"; "mcp"; "repo"].

Definition is_lower (c : ascii) : bool := in_range 97 122 c.
Definition is_digit (c : ascii) : bool := in_range 48 57 c.
(** [[a-z0-9-]] and [[a-z0-9 ,`._:/()+-]]. *)
Definition scope_char (c : ascii) : bool := is_lower c || is_digit c || Ascii.eqb c "-".
Definition subject_char (c : ascii) : bool :=
  is_lower c || is_digit c ||
  contains_eq [" "; ","; "`"; "."; "_"; ":"; "/"; "("; ")"; "+"; "-"]%char c.

Definition all_chars (p : ascii -> bool) (s : string) : bool := forallb p (list_ascii_of_string s).

(** [[^.]] at the end of the subject: some split into class characters and one
    rune that is not a dot. *)
Fixpoint subject_tail (s : string) : bool :=
  (one_rune s && negb (String.eqb s ".")) ||
  match s with
  | EmptyString => false
  | String c s' => subject_char c && subject_tail s'
  end.

(** [[a-z0-9][a-z0-9 ...]*[^.]]. *)
Definition subject_matches (s : string) : bool :=
  match s with
  | EmptyString => false
  | String c s' => (is_lower c || is_digit c) && subject_tail s'
  end.

(** [semanticMessagePattern.FindStringSubmatch]: the scope, when it matches. *)
Definition semantic_scope (message : string) : option string :=
  if has_prefix message "config(" then
    match cut ")" (trim_prefix message "config(") with
    | Some (String c scope, rest) =>
        if is_lower c && all_chars scope_char scope && has_prefix rest ": " && subject_matches (trim_prefix rest ": ")
        then Some (String c scope) else None
    | _ => None
    end
  else None.

Inductive SemanticMessageError := MustBeOneLine | BadShape | UnknownScope (scope : string) | TooLong.

Definition NormalizeApplyMessage (message : string) : result SemanticMessageError string :=
  let message := TrimSpace message in
  let message := if is_empty message then DefaultApplyMessage else message in
  if existsb (fun c => Ascii.eqb c "013" || Ascii.eqb c "010") (list_ascii_of_string message) then Err MustBeOneLine
  else match semantic_scope message with
  | None => Err BadShape
  | Some scope =>
      if negb (contains_eq allowedConfigMessageScopes scope) then Err (UnknownScope scope)
      else if (120 <? String.length message)%nat then Err TooLong
      else Ok message
  end.
