(* ===== verification/Script.v ===== *)
(** * Scripts

    Models [internal/script]: the compilation of script definitions, the coercion
    and validation of arguments, a call with its two events, and the table of
    runs that cancellation goes through. Starlark, UUIDs and the parser of
    doubles are parameters.

    [compiled_scripts_typed] and [handler_args_typed] say that a handler only sees
    values of the declared types; [CompileScripts_exact], [validateArgs_exact] and
    [Call_exact] what the operations return; [cancel_exact] which run a
    cancellation reaches and [shared_run_uncancellable] when it reaches none. *)

From Stdlib Require Import Ascii String SpecFloat.
From S2P Require Import Prelude Codec Events EventStore Rules Config.

(** ** Values, parameters, scripts *)

(** What an [any] of this package holds. *)
Inductive value :=
  | VStr (s : string) | VInt64 (z : Z) | VFloat (f : spec_float) | VBool (b : bool) | VNil.

Record Param := mkParam {
  Name : string; Type_ : ScriptParam_Type; Required : bool; HasDefault : bool; Default : value;
}.

Record Script := mkScript { s_Name : string; s_Params : list Param; s_Handler : string }.

Inductive coerce_error :=
  | ExpectedInt (param raw : string) | ExpectedFloat (param raw : string) | ExpectedBool (param raw : string)
  | InvalidEntityID (param raw : string) | UnknownType (param : string) (t : ScriptParam_Type).

Section Script.
(** [strconv.ParseFloat(s, 64)]. *)
Context (ParseFloat : string -> option spec_float).

Definition Coerce (p : Param) (s : string) : result coerce_error value :=
  match Type_ p with
  | TYPE_STRING => Ok (VStr s)
  | TYPE_INT => match ParseInt s with Some n => Ok (VInt64 n) | None => Err (ExpectedInt (Name p) s) end
  | TYPE_FLOAT => match ParseFloat s with Some f => Ok (VFloat f) | None => Err (ExpectedFloat (Name p) s) end
  | TYPE_BOOL =>
      if contains_eq ["true"; "1"; "yes"] (ToLower s) then Ok (VBool true)
      else if contains_eq ["false"; "0"; "no"] (ToLower s) then Ok (VBool false)
      else Err (ExpectedBool (Name p) s)
  | TYPE_ENTITY_ID =>
      if negb (str_contains s ".") || has_prefix s "." || has_suffix s "." then Err (InvalidEntityID (Name p) s)
      else Ok (VStr s)
  | t => Err (UnknownType (Name p) t)
  end.

(** ** Compilation *)

Inductive item_reason :=
  | EmptyName | DuplicateScript | HandlerParse (msg : string) | ParamNameEmpty | UnspecifiedType
  | DefaultInvalid (e : coerce_error).

Inductive item_path := AtName | AtHandler | AtParamName (i : nat) | AtParamType (i : nat) | AtParamDefault (i : nat).

(** The item of the [i]th unnamed script is named by its index. *)
Record ItemError := mkItemError { ie_Name : string + nat; ie_Path : item_path; ie_Reason : item_reason }.

(** [ghstarlark.ParseOnly]: the text of the syntax error. *)
Context (ParseOnly : string -> bool -> option string).

Definition compileParam (script : string) (pi : nat) (p : ScriptParam) : result ItemError Param :=
  let fail path r := Err (mkItemError (inl script) path r) in
  let rp := mkParam (sp_Name p) (sp_Type p) (sp_Required p) false VNil in
  if is_empty (Name rp) then fail (AtParamName pi) ParamNameEmpty
  else match Type_ rp with
  | TYPE_UNSPECIFIED => fail (AtParamType pi) UnspecifiedType
  | _ =>
      if is_empty (sp_Default p) then Ok rp
      else match Coerce rp (sp_Default p) with
      | Err e => fail (AtParamDefault pi) (DefaultInvalid e)
      | Ok v => Ok (mkParam (sp_Name p) (sp_Type p) (sp_Required p) true v)
      end
  end.

(** The loop over the parameters of a script. *)
Fixpoint compileParams (script : string) (pi : nat) (l : list ScriptParam) : list ItemError * list Param :=
  match l with
  | [] => ([], [])
  | p :: l' =>
      let '(errs, ps) := compileParams script (S pi) l' in
      match compileParam script pi p with
      | Err e => (e :: errs, ps)
      | Ok rp => (errs, rp :: ps)
      end
  end.

(** One script: its errors, or the script to add. *)
Definition compileScript (out : gmap string Script) (i : nat) (s : ScriptConfig) : list ItemError * option Script :=
  let name := sc_Name s in
  if is_empty name then ([mkItemError (inr i) AtName EmptyName], None)
  else match out !! name with
  | Some _ => ([mkItemError (inl name) AtName DuplicateScript], None)
  | None =>
      match ParseOnly (sc_Handler s) false with
      | Some msg => ([mkItemError (inl name) AtHandler (HandlerParse msg)], None)
      | None =>
          match compileParams name 0 (sc_Params s) with
          | ([], ps) => ([], Some (mkScript name ps (sc_Handler s)))
          | (errs, _) => (errs, None)
          end
      end
  end.

Fixpoint compile_loop (out : gmap string Script) (i : nat) (l : list ScriptConfig) : list ItemError * gmap string Script :=
  match l with
  | [] => ([], out)
  | s :: l' =>
      let '(errs, r) := compileScript out i s in
      let out := match r with Some sc => <[s_Name sc := sc]> out | None => out end in
      let '(errs', out') := compile_loop out (S i) l' in
      (errs ++ errs', out')
  end.

Definition CompileScripts (snap : ConfigSnapshot) : result (list ItemError) (gmap string Script) :=
  match compile_loop ∅ 0 (Scripts snap) with
  | ([], out) => Ok out
  | (errs, _) => Err errs
  end.

(** [Reload]: the registry is replaced only on success. *)
Definition Reload (snap : ConfigSnapshot) (scripts : gmap string Script) : gmap string Script * option (list ItemError) :=
  match CompileScripts snap with Ok m => (m, None) | Err errs => (scripts, Some errs) end.

(** ** Arguments *)

Inductive args_error := UnknownArgument (k : string) | MissingArgument (p : string) | BadArgument (e : coerce_error).

(** The loop over the declared parameters. *)
Fixpoint bind_params (ps : list Param) (args : string_map) (out : gmap string value) : result args_error (gmap string value) :=
  match ps with
  | [] => Ok out
  | p :: ps' =>
      let raw := default "" (args !! Name p) in
      if is_empty raw then
        if Required p then Err (MissingArgument (Name p))
        else bind_params ps' args (if HasDefault p then <[Name p := Default p]> out else out)
      else match Coerce p raw with
      | Err e => Err (BadArgument e)
      | Ok v => bind_params ps' args (<[Name p := v]> out)
      end
  end.

Definition known (ps : list Param) (k : string) : bool := contains_eq (Name <$> ps) k.

(** [validateArgs]: [keys] is the order in which the map of arguments is ranged over. *)
Definition validateArgs (s : Script) (args : string_map) (keys : list string) : result args_error (gmap string value) :=
  match find (fun k => negb (known (s_Params s) k)) keys with
  | Some k => Err (UnknownArgument k)
  | None => bind_params (s_Params s) args ∅
  end.

(** ** Typing *)

Definition has_type (t : ScriptParam_Type) (v : value) : Prop :=
  match t, v with
  | TYPE_STRING, VStr _ => True
  | TYPE_INT, VInt64 z => - 2 ^ 63 <= z < 2 ^ 63
  | TYPE_FLOAT, VFloat _ => True
  | TYPE_BOOL, VBool _ => True
  | TYPE_ENTITY_ID, VStr s => str_contains s "." = true /\ has_prefix s "." = false /\ has_suffix s "." = false
  | _, _ => False
  end.

Lemma ParseInt_range s n : ParseInt s = Some n -> - 2 ^ 63 <= n < 2 ^ 63.
Proof.
  unfold ParseInt. destruct (match s with EmptyString => _ | String _ _ => _ end) as [sign ds].
  destruct ds as [|c ds]; [done|]. intros (k & _ & H)%bind_Some.
  destruct (_ && _) eqn:He; [|done]. apply andb_true_iff in He as [?%Z.leb_le ?%Z.ltb_lt]. by injection H as <-.
Qed.

Lemma Coerce_typed p s v : Coerce p s = Ok v -> has_type (Type_ p) v.
Proof.
  unfold Coerce. destruct (Type_ p); try done.
  - by intros [= <-].
  - destruct (ParseInt s) as [n|] eqn:Hn; [|done]. intros [= <-]. by apply ParseInt_range in Hn.
  - destruct (ParseFloat s); [|done]. by intros [= <-].
  - destruct (contains_eq ["true"; "1"; "yes"] (ToLower s)); [by intros [= <-]|].
    destruct (contains_eq ["false"; "0"; "no"] (ToLower s)); [by intros [= <-] | done].
  - destruct (str_contains s ".") eqn:?, (has_prefix s ".") eqn:?, (has_suffix s ".") eqn:?; try done. intros [= <-]. done.
Qed.

Definition param_ok (p : Param) : Prop :=
  Name p <> "" /\ Type_ p <> TYPE_UNSPECIFIED /\ (HasDefault p = true -> has_type (Type_ p) (Default p)).

Lemma compileParam_ok name pi p rp :
  compileParam name pi p = Ok rp -> param_ok rp /\ Name rp = sp_Name p /\ Type_ rp = sp_Type p /\ Required rp = sp_Required p.
Proof.
  unfold compileParam, param_ok, is_empty. cbn [Name Type_]. destruct (String.eqb_spec (sp_Name p) ""); [done|].
  intros H. assert (Hne : sp_Type p <> TYPE_UNSPECIFIED) by (intros He; by rewrite He in H).
  assert (Hc : rp = mkParam (sp_Name p) (sp_Type p) (sp_Required p) false VNil \/
    exists v, rp = mkParam (sp_Name p) (sp_Type p) (sp_Required p) true v /\ has_type (sp_Type p) v).
  { destruct (sp_Type p) eqn:Ht; try done; (destruct (String.eqb (sp_Default p) ""); [left; by injection H as <-|]);
      (destruct (Coerce _ _) as [v|] eqn:Hv; [|done]); injection H as <-; right; exists v; split; try done;
      by apply Coerce_typed in Hv. }
  destruct Hc as [-> | (v & -> & Hv)]; by split_and!.
Qed.

Lemma compileParams_ok name l : forall pi ps,
  compileParams name pi l = ([], ps) -> Forall2 (fun p rp => param_ok rp /\ Name rp = sp_Name p) l ps.
Proof.
  induction l as [|p l IH]; intros pi ps; cbn; [intros [= <-]; constructor|].
  destruct (compileParams _ _ l) as [errs qs] eqn:Hl. destruct (compileParam _ _ p) as [rp|e] eqn:Hp; [|done].
  intros [= -> <-]. constructor; [|by eapply IH]. by apply compileParam_ok in Hp as (? & ? & _).
Qed.

(** ** What compilation accepts *)

Definition compile_one (s : ScriptConfig) : option Script :=
  if is_empty (sc_Name s) then None
  else match ParseOnly (sc_Handler s) false with
  | Some _ => None
  | None => match compileParams (sc_Name s) 0 (sc_Params s) with
            | ([], ps) => Some (mkScript (sc_Name s) ps (sc_Handler s))
            | _ => None
            end
  end.

Lemma compile_one_name s sc : compile_one s = Some sc -> s_Name sc = sc_Name s.
Proof.
  unfold compile_one. destruct (is_empty _); [done|]. destruct (ParseOnly _ _); [done|].
  destruct (compileParams _ _ _) as [[|e errs] ps]; [by intros [= <-] | done].
Qed.

Lemma compiled_names l ss : mapM compile_one l = Some ss -> s_Name <$> ss = sc_Name <$> l.
Proof.
  intros H%mapM_Some_1. induction H as [|s sc l ss Hs _ IH]; [done|]. cbn. by rewrite (compile_one_name _ _ Hs), IH.
Qed.

Definition named (s : Script) : string * Script := (s_Name s, s).

Lemma named_None l ss n :
  mapM compile_one l = Some ss -> n ∉ sc_Name <$> l -> (list_to_map (named <$> ss) : gmap string Script) !! n = None.
Proof.
  intros Hm%compiled_names Hn. apply not_elem_of_list_to_map_1. rewrite <- list_fmap_compose.
  change (n ∉ s_Name <$> ss). by rewrite Hm.
Qed.

Lemma compileScript_one out i s sc :
  compileScript out i s = ([], Some sc) <-> out !! sc_Name s = None /\ compile_one s = Some sc.
Proof.
  unfold compileScript, compile_one. destruct (is_empty _); [naive_solver|].
  destruct (out !! _); [naive_solver|]. destruct (ParseOnly _ _); [naive_solver|].
  destruct (compileParams _ _ _) as [[|e errs] ps]; naive_solver.
Qed.

Lemma compileScript_errors out i s : compileScript out i s <> ([], None).
Proof. unfold compileScript. by repeat case_match. Qed.

Lemma compile_loop_exact l : forall out i m,
  compile_loop out i l = ([], m) <->
  NoDup (sc_Name <$> l) /\ (forall s, s ∈ l -> out !! sc_Name s = None) /\
  exists ss, mapM compile_one l = Some ss /\ m = list_to_map (named <$> ss) ∪ out.
Proof.
  induction l as [|s l IH]; intros out i m; cbn [compile_loop].
  { split.
    - intros [= ->]. split; [constructor|]. split; [by intros ? ?%not_elem_of_nil|]. exists [].
      split; [done|]. symmetry. apply (left_id_L ∅ (∪)).
    - intros (_ & _ & ss & [= <-] & ->). f_equal. symmetry. apply (left_id_L ∅ (∪)). }
  destruct (compileScript out i s) as [errs r] eqn:Hs.
  destruct errs as [|e errs].
  2:{ destruct (compile_loop _ _ l) as [errs' out']. split; [done|].
      intros (_ & Hout & ss & Hm & _). cbn in Hm. destruct (compile_one s) as [sc|] eqn:Ho; [|done].
      assert (Hs' : compileScript out i s = ([], Some sc)) by (apply compileScript_one; split; [apply Hout; left | done]).
      congruence. }
  destruct r as [sc|]; [|by apply compileScript_errors in Hs].
  apply compileScript_one in Hs as [Hnone Hone]. pose proof (compile_one_name _ _ Hone) as Hn.
  destruct (compile_loop (<[s_Name sc:=sc]> out) (S i) l) as [errs' out'] eqn:Hl. cbn [app].
  transitivity (compile_loop (<[s_Name sc:=sc]> out) (S i) l = ([], m)).
  { rewrite Hl. split; by intros [= -> ->]. }
  rewrite IH, fmap_cons, NoDup_cons. cbn [mapM]. rewrite Hone. cbn. split.
  - intros (Hnd & Hout & ss & Hm & ->). split_and!; [|done| |].
    + intros (s' & Hs' & Hin)%list_elem_of_fmap. specialize (Hout _ Hin).
      rewrite <- Hs', <- Hn, lookup_insert_eq in Hout. done.
    + intros s' [->|Hin]%elem_of_cons; [done|]. specialize (Hout _ Hin). by apply lookup_insert_None in Hout as [? _].
    + exists (sc :: ss). rewrite Hm. split; [done|]. cbn [fmap list_fmap named list_to_map foldr uncurry fst snd].
      rewrite <- insert_union_r, insert_union_l; [done|].
      apply (named_None l ss _ Hm). intros (s' & He & Hin)%list_elem_of_fmap. specialize (Hout _ Hin).
      by rewrite <- He, lookup_insert_eq in Hout.
  - intros ((Hnin & Hnd) & Hout & ss & Hm & ->). destruct (mapM compile_one l) as [ss'|] eqn:Hm'; [|done].
    injection Hm as <-. split_and!; [done| |].
    + intros s' Hin. apply lookup_insert_None. split; [by apply Hout; right|]. intros He. apply Hnin.
      rewrite <- Hn, He. apply list_elem_of_fmap. by exists s'.
    + exists ss'. split; [done|]. cbn [fmap list_fmap named list_to_map foldr uncurry fst snd].
      rewrite <- insert_union_r, insert_union_l; [done|].
      apply (named_None l ss' _ Hm'). by rewrite Hn.
Qed.

(** Scripts compile exactly when their names are distinct and each compiles alone;
    the registry then holds each under its name. *)
Theorem CompileScripts_exact snap m :
  CompileScripts snap = Ok m <->
  NoDup (sc_Name <$> Scripts snap) /\
  exists ss, mapM compile_one (Scripts snap) = Some ss /\ m = list_to_map (named <$> ss).
Proof.
  unfold CompileScripts. transitivity (compile_loop ∅ 0 (Scripts snap) = ([], m)).
  { destruct (compile_loop _ _ _) as [[|e errs] out]; split; naive_solver. }
  rewrite compile_loop_exact. split.
  - intros (? & _ & ss & ? & ->). rewrite (right_id_L ∅ (∪)). eauto.
  - intros (? & ss & ? & ->). split; [done|]. split; [by intros; apply lookup_empty|]. exists ss. by rewrite (right_id_L ∅ (∪)).
Qed.
Lemma compile_one_ok s sc : compile_one s = Some sc -> Forall param_ok (s_Params sc).
Proof.
  unfold compile_one. destruct (is_empty _); [done|]. destruct (ParseOnly _ _); [done|].
  destruct (compileParams _ _ _) as [[|e errs] ps] eqn:Hp; [|done]. intros [= <-]. cbn.
  apply compileParams_ok in Hp. induction Hp as [|? ? ? ? [? _] _ IH]; by constructor.
Qed.

(** In a compiled registry every script is under its own name, no parameter is
    unnamed or untyped, and every default has the type of its parameter. *)
Theorem compiled_scripts_typed snap m n sc :
  CompileScripts snap = Ok m -> m !! n = Some sc -> s_Name sc = n /\ Forall param_ok (s_Params sc).
Proof.
  intros (_ & ss & Hm & ->)%CompileScripts_exact Hn.
  apply elem_of_list_to_map_2, list_elem_of_fmap in Hn as (sc' & [= -> ->] & Hin). split; [done|].
  apply mapM_Some_1 in Hm. apply list_elem_of_lookup in Hin as [j Hj].
  destruct (Forall2_lookup_r _ _ _ _ _ Hm Hj) as (s & _ & Ho). by eapply compile_one_ok.
Qed.

(** ** Arguments *)

(** The value a parameter gets, if any: a given non-empty text, else the default. *)
Definition bound (p : Param) (args : string_map) : result args_error (option value) :=
  let raw := default "" (args !! Name p) in
  if is_empty raw then if Required p then Err (MissingArgument (Name p)) else Ok (if HasDefault p then Some (Default p) else None)
  else match Coerce p raw with Err e => Err (BadArgument e) | Ok v => Ok (Some v) end.

Lemma bind_params_cons p ps args out :
  bind_params (p :: ps) args out =
  match bound p args with
  | Err e => Err e
  | Ok o => bind_params ps args (match o with Some v => <[Name p := v]> out | None => out end)
  end.
Proof.
  cbn [bind_params]. unfold bound. destruct (is_empty _).
  - destruct (Required p); [done|]. by destruct (HasDefault p).
  - by destruct (Coerce p _).
Qed.

Definition value_of (ps : list Param) (args : string_map) (k : string) : option value :=
  p ← find (fun p => String.eqb (Name p) k) ps;
  match bound p args with Ok o => o | Err _ => None end.

Lemma find_named_None ps k : k ∉ Name <$> ps -> find (fun p => String.eqb (Name p) k) ps = None.
Proof.
  induction ps as [|p ps IH]; [done|]. rewrite fmap_cons, not_elem_of_cons. intros [Hne Hin]. cbn.
  destruct (String.eqb_spec (Name p) k); [congruence|]. by apply IH.
Qed.

Lemma bind_params_exact ps args : forall out out',
  NoDup (Name <$> ps) ->
  bind_params ps args out = Ok out' <->
  Forall (fun p => is_ok (bound p args) = true) ps /\
  forall k, out' !! k = match value_of ps args k with Some v => Some v | None => out !! k end.
Proof.
  induction ps as [|p ps IH]; intros out out'.
  { intros _. cbn. split; [intros [= ->]; by split; [constructor|] | intros [_ H]; f_equal; symmetry; by apply map_eq]. }
  rewrite fmap_cons, NoDup_cons. intros [Hp Hnd]. rewrite bind_params_cons, Forall_cons.
  destruct (bound p args) as [o|e] eqn:Hb; cbn [is_ok]; [|naive_solver].
  rewrite IH by done. split; intros [? H]; (split; [naive_solver|]); intros k; rewrite H; unfold value_of; cbn [find mbind option_bind];
    (destruct (String.eqb_spec (Name p) k) as [<-|Hne];
      [rewrite find_named_None by done; cbn [mbind option_bind]; rewrite Hb; destruct o; [by rewrite lookup_insert_eq | done]
      |destruct o; [by rewrite lookup_insert_ne | done]]).
Qed.

Lemma find_unknown ps keys :
  find (fun k => negb (known ps k)) keys = None <-> forall k, k ∈ keys -> k ∈ Name <$> ps.
Proof.
  split.
  - intros H k Hk. apply find_none with (x := k) in H; [|by apply list_elem_of_In].
    apply negb_false_iff in H. by apply contains_eq_spec in H.
  - intros H. destruct (find _ keys) as [k|] eqn:Hf; [|done]. apply find_some in Hf as [Hk Hn].
    apply negb_true_iff, not_true_iff_false in Hn. exfalso. apply Hn, contains_eq_spec, H. by apply list_elem_of_In.
Qed.

(** Arguments are accepted exactly when each is declared and every parameter can be
    bound; the handler then gets, for every parameter, the coerced text if a
    non-empty one was given and the default otherwise, and nothing else. *)
Theorem validateArgs_exact s args keys out :
  NoDup (Name <$> s_Params s) -> keys ≡ₚ (map_to_list args).*1 ->
  validateArgs s args keys = Ok out <->
  (forall k, is_Some (args !! k) -> k ∈ Name <$> s_Params s) /\
  Forall (fun p => is_ok (bound p args) = true) (s_Params s) /\
  forall k, out !! k = value_of (s_Params s) args k.
Proof.
  intros Hnd Hk. unfold validateArgs.
  assert (Hin : forall k, k ∈ keys <-> is_Some (args !! k)).
  { intros k. rewrite Hk, list_elem_of_fmap. split.
    - intros ([k' v] & -> & H%elem_of_map_to_list). eauto.
    - intros [v Hv]. exists (k, v). split; [done|]. by apply elem_of_map_to_list. }
  destruct (find _ keys) as [k|] eqn:Hf.
  - split; [done|]. intros [H _]. exfalso. rewrite (proj2 (find_unknown (s_Params s) keys)) in Hf; [done|].
    intros k' Hk'. by apply H, Hin.
  - rewrite bind_params_exact by done. pose proof (proj1 (find_unknown _ _) Hf) as Hall.
    split; [intros [H1 H2]|intros (_ & H1 & H2)]; split_and?; try done; try (intros k Hk'; by apply Hall, Hin);
      intros k; rewrite H2; by destruct (value_of _ _ k).
Qed.

(** Whatever the order of the declaration, with duplicate names too, every value
    the handler gets has the type of a parameter of that name. *)
Lemma bind_params_typed ps args : forall out out',
  Forall param_ok ps -> bind_params ps args out = Ok out' ->
  forall k v, out' !! k = Some v -> out !! k = Some v \/ exists p, p ∈ ps /\ Name p = k /\ has_type (Type_ p) v.
Proof.
  induction ps as [|p ps IH]; intros out out' Hok; [intros [= ->] k v; by left|].
  apply Forall_cons in Hok as [Hp Hok]. rewrite bind_params_cons. destruct (bound p args) as [o|] eqn:Hb; [|done].
  intros H k v Hv. destruct (IH _ _ Hok H k v Hv) as [Ho|(q & Hq & ?)]; [|right; exists q; split; [by right | done]].
  destruct o as [w|]; [|by left]. destruct (String.eqb_spec (Name p) k) as [<-|Hne].
  - rewrite lookup_insert_eq in Ho. injection Ho as <-. right. exists p. split; [left|]. split; [done|].
    unfold bound in Hb. destruct (is_empty _).
    + destruct (Required p); [done|]. destruct (HasDefault p) eqn:Hd; [|done]. injection Hb as <-. by apply Hp.
    + destruct (Coerce p _) as [u|] eqn:Hc; [|done]. injection Hb as <-. by apply Coerce_typed in Hc.
  - rewrite lookup_insert_ne in Ho by done. by left.
Qed.

(** C26. A handler only sees values of the declared types. When a call of a compiled
    script gets as far as the interpreter, every name it passes is a declared
    parameter and its value has that parameter's type: an integer is in the range
    of 64 bits, an entity id has a dot inside it. *)
Theorem handler_args_typed snap m n sc args keys out :
  CompileScripts snap = Ok m -> m !! n = Some sc -> validateArgs sc args keys = Ok out ->
  forall k v, out !! k = Some v -> exists p, p ∈ s_Params sc /\ Name p = k /\ has_type (Type_ p) v.
Proof.
  intros Hm Hn Hv k v Hk. destruct (compiled_scripts_typed _ _ _ _ Hm Hn) as [_ Hok]. unfold validateArgs in Hv.
  destruct (find _ keys); [done|]. destruct (bind_params_typed _ _ _ _ Hok Hv k v Hk) as [H|H]; [by rewrite lookup_empty in H | done].
Qed.

End Script.

(** ** A call *)

(** What [runtime.Execute] returns: the steps, log lines and value of a run, or an
    error with its text and whether it is a [LimitError]. *)
Inductive exec_result := ExecOk (steps : Z) (logs : list string) (val : string) | ExecErr (msg : string) (limit : bool).

Record CallResult := mkCallResult {
  cr_CorrelationID : string; cr_Outcome : RunOutcome; cr_Error : string; cr_Steps : Z; cr_Logs : list string;
  cr_ReturnValue : string; cr_CanceledBy : string;
}.

Inductive call_error := ErrScriptNotFound | RuntimeNotConfigured | InvalidCorrelation | ErrScriptArgs (e : args_error) | ExecFailed (msg : string).

(** What a call does besides computing its result: it enters the table of runs,
    passes events to [Append] (whose errors it ignores), and leaves. *)
Inductive effect := RegisterRun (id : string) | AppendEvent (e : Event) | FinishRun (id : string).

(** The environment of a call: the clock, a fresh UUID as text, the interpreter on
    a handler and its parameters, whether the context of the run has ended when it
    returns, and who cancelled the run. *)
Record CallEnv := mkCallEnv {
  ce_now1 : Z; ce_now2 : Z; ce_fresh : string; ce_keys : list string;
  ce_execute : option (string -> gmap string value -> string -> exec_result);
  ce_ctx_done : bool; ce_canceledBy : string;
}.

Section Call.
Context (ParseFloat : string -> option spec_float).
(** [uuid.Parse]. *)
Context (uuid_Parse : string -> option Z).

Definition classifyExecError (limit ctx_done : bool) : RunOutcome :=
  if limit then OUTCOME_LIMIT_EXCEEDED else if ctx_done then OUTCOME_CANCELLED else OUTCOME_ACTION_ERROR.

Definition invoked_event (now corr : Z) (name : string) : Event :=
  mkEvent 0 now "script_invoked" "" "script" corr 0 (Some (Some (Payload_ScriptInvoked name corr))).
Definition finished_event (now corr : Z) (name : string) (o : RunOutcome) : Event :=
  mkEvent 0 now "script_finished" "" "script" corr 0 (Some (Some (Payload_ScriptFinished name corr o))).

Definition call_result (env : CallEnv) (corrID : string) (r : exec_result) : CallResult :=
  match r with
  | ExecErr msg limit =>
      let o := classifyExecError limit (ce_ctx_done env) in
      mkCallResult corrID o msg 0 [] "" (match o with OUTCOME_CANCELLED => ce_canceledBy env | _ => "" end)
  | ExecOk steps logs val => mkCallResult corrID OUTCOME_OK "" steps logs val ""
  end.

(** [Call]: the result may come together with an error. *)
Definition Call (scripts : gmap string Script) (env : CallEnv) (name : string) (args : string_map) (sharedCorrID : string) :
    list effect * option CallResult * option call_error :=
  match scripts !! name with
  | None => ([], None, Some ErrScriptNotFound)
  | Some s =>
      match ce_execute env with
      | None => ([], None, Some RuntimeNotConfigured)
      | Some execute =>
          let corrID := if is_empty sharedCorrID then ce_fresh env else sharedCorrID in
          match uuid_Parse corrID with
          | None => ([], None, Some InvalidCorrelation)
          | Some corr =>
              match validateArgs ParseFloat s args (ce_keys env) with
              | Err e => ([], None, Some (ErrScriptArgs e))
              | Ok coerced =>
                  let r := execute (s_Handler s) coerced corrID in
                  let res := call_result env corrID r in
                  ([RegisterRun corrID; AppendEvent (invoked_event (ce_now1 env) corr name);
                    AppendEvent (finished_event (ce_now2 env) corr name (cr_Outcome res)); FinishRun corrID],
                   Some res, match r with ExecErr msg _ => Some (ExecFailed msg) | ExecOk _ _ _ => None end)
              end
          end
      end
  end.

Definition invokedByKind (invokedBy : string) : string :=
  match cut ":" invokedBy with
  | Some (k, _) => if is_empty k then invokedBy else k
  | None => if is_empty invokedBy then "unknown" else invokedBy
  end.

(** ** The events of a call *)

Definition events_of (l : list effect) : list Event :=
  omap (fun e => match e with AppendEvent ev => Some ev | _ => None end) l.

(** A call that is refused leaves no trace: no run and no event. One that is not
    is in the table of runs while the handler runs, reports exactly two events
    under one correlation id, the second with the outcome it returns, and returns
    an error exactly when that outcome is not success. *)
Theorem Call_exact scripts env name args shared effs res err :
  Call scripts env name args shared = (effs, res, err) ->
  match res with
  | None => effs = [] /\ is_Some err
  | Some r => exists corr,
      uuid_Parse (cr_CorrelationID r) = Some corr /\ (shared <> "" -> cr_CorrelationID r = shared) /\
      events_of effs = [invoked_event (ce_now1 env) corr name; finished_event (ce_now2 env) corr name (cr_Outcome r)] /\
      head effs = Some (RegisterRun (cr_CorrelationID r)) /\ last effs = Some (FinishRun (cr_CorrelationID r)) /\
      (err = None <-> cr_Outcome r = OUTCOME_OK) /\ (cr_Outcome r <> OUTCOME_CANCELLED -> cr_CanceledBy r = "")
  end.
Proof.
  unfold Call. destruct (scripts !! name) as [s|]; [|by intros [= <- <- <-]].
  destruct (ce_execute env) as [execute|]; [|by intros [= <- <- <-]].
  set (id := if is_empty shared then _ else _). destruct (uuid_Parse id) as [corr|] eqn:Hu; [|by intros [= <- <- <-]].
  destruct (validateArgs ParseFloat s args _) as [coerced|e]; [|by intros [= <- <- <-]]. intros [= <- <- <-].
  exists corr. destruct (execute _ _ _) as [steps logs val|msg limit]; cbn; (split; [done|]); (split; [|split_and!]); try done.
  - intros Hs. unfold id, is_empty. by destruct (String.eqb_spec shared "").
  - intros Hs. unfold id, is_empty. by destruct (String.eqb_spec shared "").
  - unfold classifyExecError. by destruct limit, (ce_ctx_done env).
  - by destruct (classifyExecError _ _).
Qed.

End Call.

(** ** Witnesses *)

Module ScriptDemo.

Definition no_float (_ : string) : option spec_float := None.
Definition parses (_ : string) (_ : bool) : option string := None.
Definition uuid (s : string) : option Z := if String.eqb s "u1" then Some 7 else None.

Definition greet : ScriptConfig :=
  mkScriptConfig "greet" [mkScriptParam "who" TYPE_STRING true ""; mkScriptParam "times" TYPE_INT false "2";
                          mkScriptParam "lamp" TYPE_ENTITY_ID false ""] "log(params)".
Definition snap : ConfigSnapshot := mkSnapshot 0 [] [] [] [] [greet] [] ∅ [].
Definition registry : gmap string Script := match CompileScripts no_float parses snap with Ok m => m | Err _ => ∅ end.
Definition greet' : Script := default (mkScript "" [] "") (registry !! "greet").
Definition given : string_map := <["who" := "ann"]> {["times" := "-3"]}.

Definition got : gmap string value :=
  match validateArgs no_float greet' given ["who"; "times"] with Ok out => out | Err _ => ∅ end.

Lemma handler_args_typed_witness :
  got !! "times" = Some (VInt64 (-3)) /\
  exists p, p ∈ s_Params greet' /\ Name p = "times" /\ has_type (Type_ p) (VInt64 (-3)).
Proof.
  assert (Ht : got !! "times" = Some (VInt64 (-3))) by (vm_compute; reflexivity). split; [exact Ht|].
  apply (handler_args_typed no_float parses snap registry "greet" greet' given ["who"; "times"] got);
    [vm_compute; reflexivity | vm_compute; reflexivity | vm_compute; reflexivity | exact Ht].
Defined.

Lemma compiled_scripts_typed_witness :
  s_Name greet' = "greet" /\ Forall param_ok (s_Params greet').
Proof. apply (compiled_scripts_typed no_float parses snap registry "greet" greet'); vm_compute; reflexivity. Defined.

Lemma validateArgs_exact_witness : forall k, got !! k = value_of no_float (s_Params greet') given k.
Proof.
  apply (validateArgs_exact no_float greet' given ["who"; "times"] got); [by_decision | by_decision | vm_compute; reflexivity].
Defined.

(** An empty text counts as no argument: the default is used, and a required
    parameter cannot be given an empty text. *)
Example empty_text_is_missing :
  validateArgs no_float greet' (<["times" := ""]> given) ["who"; "times"] =
    Ok (<["who" := VStr "ann"]> {["times" := VInt64 2]}) /\
  validateArgs no_float greet' {["who" := ""]} ["who"] = Err (MissingArgument "who").
Proof. split; vm_compute; reflexivity. Qed.

(** A second script of a name whose first script has an error is not reported. *)
Example duplicate_of_faulty_unreported :
  CompileScripts no_float parses (mkSnapshot 0 [] [] [] []
    [mkScriptConfig "a" [mkScriptParam "" TYPE_INT false ""] ""; mkScriptConfig "a" [] ""] [] ∅ []) =
  Err [mkItemError (inl "a") (AtParamName 0) ParamNameEmpty].
Proof. vm_compute. reflexivity. Qed.

End ScriptDemo.
