(* ===== verification/ScriptRuns.v ===== *)
(** * Runs of scripts and their cancellation

    Models the table of runs of [internal/script/engine.go] as a machine whose
    steps are the critical sections of concurrent calls of [Call], [Cancel] and
    [Stop] and the firing of the retention timers. A run is an identity, as the
    pointer is in the source.

    [cancel_reaches_run]: a run that has not finished and whose id has not been
    taken by another run is what a cancellation of its id reaches.
    [shared_run_uncancellable]: a run whose id is taken by another is out of reach. *)

From S2P Require Import Prelude.

Record scriptRun := mkRun { cancelled : bool; canceledBy : string; done : bool }.
Definition newScriptRun : scriptRun := mkRun false "" false.

(** [scriptRun.Cancel]: the first non-empty name stays. *)
Definition Cancel_run (by_ : string) (r : scriptRun) : scriptRun :=
  mkRun true (if negb (is_empty by_) && is_empty (canceledBy r) then by_ else canceledBy r) (done r).

Definition Finish (r : scriptRun) : scriptRun := mkRun (cancelled r) (canceledBy r) true.

(** The table, the runs, the armed timers, and the runs counted by [inFlight]. *)
Record Runs := mkRuns {
  table : gmap string nat; runs : gmap nat scriptRun; timers : list (string * nat); inFlight : list nat;
}.

Definition no_runs : Runs := mkRuns ∅ ∅ [] [].

(** The steps: [registerRun], [inFlight.Add], [inFlight.Done], [finishRun], the
    timer function, the first half of [Cancel], and the [clear] of [Stop]. *)
Inductive label :=
  | LRegister (id : string) (r : nat) | LEnter (r : nat) | LLeave (r : nat) | LFinish (id : string) (r : nat)
  | LExpire (id : string) (r : nat) | LCancel (id by_ : string) | LClear.

(** A step, if it is possible. A cancellation of an unknown id changes nothing. *)
Definition step (s : Runs) (l : label) : option Runs :=
  match l with
  | LRegister id r =>
      match runs s !! r with
      | Some _ => None
      | None => Some (mkRuns (<[id := r]> (table s)) (<[r := newScriptRun]> (runs s)) (timers s) (inFlight s))
      end
  | LEnter r =>
      match runs s !! r with Some _ => Some (mkRuns (table s) (runs s) (timers s) (r :: inFlight s)) | None => None end
  | LLeave r =>
      if contains_eq (inFlight s) r
      then Some (mkRuns (table s) (runs s) (timers s) (filter (fun r' => r' <> r) (inFlight s))) else None
  | LFinish id r =>
      match runs s !! r with
      | Some o => if done o then None else Some (mkRuns (table s) (<[r := Finish o]> (runs s)) ((id, r) :: timers s) (inFlight s))
      | None => None
      end
  | LExpire id r =>
      if contains_eq (timers s) (id, r)
      then Some (mkRuns (if bool_decide (table s !! id = Some r) then delete id (table s) else table s)
                   (runs s) (filter (fun t => t <> (id, r)) (timers s)) (inFlight s))
      else None
  | LCancel id by_ =>
      Some (match table s !! id with
            | Some r => mkRuns (table s) (alter (Cancel_run by_) r (runs s)) (timers s) (inFlight s)
            | None => s
            end)
  | LClear => match inFlight s with [] => Some (mkRuns ∅ (runs s) (timers s) []) | _ => None end
  end.

Fixpoint steps (s : Runs) (ls : list label) : option Runs :=
  match ls with [] => Some s | l :: ls' => match step s l with Some s' => steps s' ls' | None => None end end.

(** ** The second half of [Cancel] *)

Inductive cancel_result := CancelOk | ErrRunNotFound | DeadlineExceeded | ContextDone.

(** What ends the wait: the run, the timer of two seconds, or the caller's context. *)
Inductive wait_end := RunDone | TimedOut | CallerGone.

Definition Cancel_returns (found : bool) (w : wait_end) : cancel_result :=
  if found then match w with RunDone => CancelOk | TimedOut => DeadlineExceeded | CallerGone => ContextDone end
  else ErrRunNotFound.

(** ** Invariant *)

(** The table and the timers speak of existing runs; timers of finished ones; and
    a run is in the table under one id only. *)
Record runs_ok (s : Runs) : Prop := mkRunsOk {
  ok_table : forall id r, table s !! id = Some r -> is_Some (runs s !! r);
  ok_timers : forall id r, (id, r) ∈ timers s -> exists o, runs s !! r = Some o /\ done o = true;
  ok_inj : forall id1 id2 r, table s !! id1 = Some r -> table s !! id2 = Some r -> id1 = id2;
}.

Lemma no_runs_ok : runs_ok no_runs.
Proof. split; cbn; intros *; rewrite ?lookup_empty; try by intros. by intros ?%not_elem_of_nil. Qed.

Lemma step_ok s l s' : runs_ok s -> step s l = Some s' -> runs_ok s'.
Proof.
  intros [Ht Hm Hi] H. destruct l as [id r|r|r|id r|id r|id by_|]; cbn in H.
  - destruct (runs s !! r) eqn:Hr; [done|]. injection H as <-. split; cbn.
    + intros id' r' [[<- <-]|[_ H]]%lookup_insert_Some; [by rewrite lookup_insert_eq|].
      apply Ht in H. destruct (decide (r' = r)) as [->|]; [by rewrite lookup_insert_eq | by rewrite lookup_insert_ne].
    + intros id' r' H. apply Hm in H as (o & Ho & ?). exists o. by rewrite lookup_insert_ne by congruence.
    + assert (Hnr : forall id', table s !! id' <> Some r) by (intros id' H; apply Ht in H as [? ?]; congruence).
      intros id1 id2 r' [[<- <-]|[? H1]]%lookup_insert_Some [[<- ?]|[? H2]]%lookup_insert_Some; try done;
        [by apply Hnr in H2 | subst; by apply Hnr in H1 | by eapply Hi].
  - destruct (runs s !! r); [|done]. by injection H as <-.
  - destruct (contains_eq _ _); [|done]. by injection H as <-.
  - destruct (runs s !! r) as [o|] eqn:Hr; [|done]. destruct (done o) eqn:Hd; [done|]. injection H as <-. split; cbn; [| |done].
    + intros id' r' H%Ht. destruct (decide (r' = r)) as [->|]; [by rewrite lookup_insert_eq | by rewrite lookup_insert_ne].
    + intros id' r' [[= -> ->]|H]%elem_of_cons; [exists (Finish o); by rewrite lookup_insert_eq|].
      apply Hm in H as (o' & Ho & ?). exists o'. rewrite lookup_insert_ne; [done|]. congruence.
  - destruct (contains_eq _ _); [|done]. injection H as <-. split; cbn.
    + intros id' r' H. apply (Ht id'). case_bool_decide; [by apply lookup_delete_Some in H as [_ ?] | done].
    + intros id' r' [_ H]%list_elem_of_filter. by eapply Hm.
    + intros id1 id2 r' H1 H2. case_bool_decide; [|by eapply Hi].
      apply lookup_delete_Some in H1 as [_ ?]. apply lookup_delete_Some in H2 as [_ ?]. by eapply Hi.
  - injection H as <-. destruct (table s !! id) as [r|] eqn:Hr; [|done]. split; cbn; [| |done].
    + intros id' r' H. rewrite lookup_alter_is_Some. by eapply Ht.
    + intros id' r' (o & Ho & Hd)%Hm. destruct (decide (r' = r)) as [->|].
      * exists (Cancel_run by_ o). by rewrite lookup_alter_eq, Ho.
      * exists o. by rewrite lookup_alter_ne.
  - destruct (inFlight s); [|done]. injection H as <-. split; cbn; [intros *; by rewrite lookup_empty | done | intros *; by rewrite lookup_empty].
Qed.

Lemma steps_ok ls : forall s s', runs_ok s -> steps s ls = Some s' -> runs_ok s'.
Proof.
  induction ls as [|l ls IH]; intros s s' Hok; cbn; [by intros [= <-]|].
  destruct (step s l) as [s1|] eqn:Hs; [|done]. apply IH. by eapply step_ok.
Qed.

Lemma steps_app ls1 ls2 s : steps s (ls1 ++ ls2) = match steps s ls1 with Some s' => steps s' ls2 | None => None end.
Proof. revert s. induction ls1 as [|l ls1 IH]; intros s; [done|]. cbn. destruct (step s l); [apply IH | done]. Qed.

(** ** Cancellation *)

(** [quiet id r l]: the step neither finishes the run, nor takes its id, nor clears the table. *)
Definition quiet (id : string) (r : nat) (l : label) : Prop :=
  match l with LRegister id' _ => id' <> id | LFinish _ r' => r' <> r | LClear => False | _ => True end.

Definition live (id : string) (r : nat) (s : Runs) : Prop :=
  table s !! id = Some r /\ exists o, runs s !! r = Some o /\ done o = false.

Lemma live_step id r l s s' : runs_ok s -> quiet id r l -> live id r s -> step s l = Some s' -> live id r s'.
Proof.
  intros Hok Hq (Ht & o & Ho & Hd) H. destruct l as [id' r'|r'|r'|id' r'|id' r'|id' by_|]; cbn in H, Hq.
  - destruct (runs s !! r') eqn:Hr; [done|]. injection H as <-. split; cbn; [by rewrite lookup_insert_ne|].
    exists o. by rewrite lookup_insert_ne by congruence.
  - destruct (runs s !! r'); [|done]. injection H as <-. split; cbn; eauto.
  - destruct (contains_eq _ _); [|done]. injection H as <-. split; cbn; eauto.
  - destruct (runs s !! r') as [o'|]; [|done]. destruct (done o'); [done|]. injection H as <-. split; cbn; [done|].
    exists o. by rewrite lookup_insert_ne by congruence.
  - destruct (contains_eq _ _) eqn:Hc; [|done]. injection H as <-. split; cbn; [|eauto].
    case_bool_decide as He; [|done]. rewrite lookup_delete_ne; [done|]. intros ->. rewrite Ht in He. injection He as <-.
    apply contains_eq_spec, (ok_timers _ Hok) in Hc as (o' & Ho' & ?). congruence.
  - injection H as <-. destruct (table s !! id') as [r'|] eqn:Hr; [|split; eauto]. split; cbn; [done|].
    destruct (decide (r' = r)) as [->|]; [exists (Cancel_run by_ o); by rewrite lookup_alter_eq, Ho | exists o; by rewrite lookup_alter_ne].
  - done.
Qed.

Lemma live_steps id r ls : forall s s',
  runs_ok s -> Forall (quiet id r) ls -> live id r s -> steps s ls = Some s' -> live id r s'.
Proof.
  induction ls as [|l ls IH]; intros s s' Hok Hq Hl; cbn; [by intros [= <-]|].
  apply Forall_cons in Hq as [Hq1 Hq]. destruct (step s l) as [s1|] eqn:Hs; [|done].
  apply IH; [by eapply step_ok | done | by eapply live_step].
Qed.

(** C27. A cancellation reaches its run. Under every interleaving of calls,
    cancellations, timers and shutdown, as long as a run has not finished, no
    other run has taken its id and the table was not cleared, [Cancel] with its id
    finds it and cancels it and no other run; the first to give a name is
    recorded. *)
Theorem cancel_reaches_run pre id r post s by_ :
  steps no_runs (pre ++ LRegister id r :: post) = Some s -> Forall (quiet id r) post ->
  exists o s', runs s !! r = Some o /\ done o = false /\ step s (LCancel id by_) = Some s' /\
    runs s' = <[r := Cancel_run by_ o]> (runs s).
Proof.
  rewrite steps_app. destruct (steps no_runs pre) as [s0|] eqn:Hpre; [|done]. cbn [steps].
  destruct (step s0 (LRegister id r)) as [s1|] eqn:Hs1; [|done]. intros Hpost Hq.
  pose proof (steps_ok _ _ _ no_runs_ok Hpre) as Hok0. pose proof (step_ok _ _ _ Hok0 Hs1) as Hok1.
  assert (Hl : live id r s1).
  { cbn in Hs1. destruct (runs s0 !! r); [done|]. injection Hs1 as <-. split; cbn; [by rewrite lookup_insert_eq|].
    exists newScriptRun. by rewrite lookup_insert_eq. }
  destruct (live_steps _ _ _ _ _ Hok1 Hq Hl Hpost) as (Ht & o & Ho & Hd). exists o.
  eexists. split; [done|]. split; [done|]. cbn. rewrite Ht. split; [done|]. cbn.
  apply map_eq. intros r'. destruct (decide (r' = r)) as [->|]; [by rewrite lookup_alter_eq, lookup_insert_eq, Ho|].
  by rewrite lookup_alter_ne, lookup_insert_ne.
Qed.

(** The run is in no entry of the table. *)
Definition unreachable (r : nat) (s : Runs) : Prop := forall id, table s !! id <> Some r.

Lemma unreachable_step r o l s s' :
  unreachable r s -> runs s !! r = Some o -> step s l = Some s' ->
  unreachable r s' /\ exists o', runs s' !! r = Some o' /\ cancelled o' = cancelled o.
Proof.
  unfold unreachable. intros Hu Ho H. destruct l as [id' r'|r'|r'|id' r'|id' r'|id' by_|]; cbn in H.
  - destruct (runs s !! r') eqn:Hr; [done|]. injection H as <-. assert (r' <> r) by congruence. split; cbn.
    + intros id [[_ ?]|[_ ?]]%lookup_insert_Some; [done | by eapply Hu].
    + exists o. by rewrite lookup_insert_ne.
  - destruct (runs s !! r'); [|done]. injection H as <-. split; cbn; eauto.
  - destruct (contains_eq _ _); [|done]. injection H as <-. split; cbn; eauto.
  - destruct (runs s !! r') as [o'|] eqn:Hr; [|done]. destruct (done o'); [done|]. injection H as <-. split; cbn; [done|].
    destruct (decide (r' = r)) as [->|]; [exists (Finish o'); rewrite lookup_insert_eq; split; [done|]; cbn; congruence|].
    exists o. by rewrite lookup_insert_ne.
  - destruct (contains_eq _ _); [|done]. injection H as <-. split; cbn; [|eauto].
    intros id. case_bool_decide; [|apply Hu]. intros [_ ?]%lookup_delete_Some. by eapply Hu.
  - injection H as <-. destruct (table s !! id') as [r'|] eqn:Hr; [|split; eauto]. split; cbn; [done|].
    exists o. rewrite lookup_alter_ne; [done|]. intros ->. by eapply Hu.
  - destruct (inFlight s); [|done]. injection H as <-. split; cbn; [|eauto]. intros id. by rewrite lookup_empty.
Qed.

Lemma unreachable_steps r ls : forall o s s',
  unreachable r s -> runs s !! r = Some o -> steps s ls = Some s' ->
  exists o', runs s' !! r = Some o' /\ cancelled o' = cancelled o.
Proof.
  induction ls as [|l ls IH]; intros o s s' Hu Ho; cbn; [intros [= <-]; eauto|].
  destruct (step s l) as [s1|] eqn:Hs; [|done]. intros H.
  destruct (unreachable_step _ _ _ _ _ Hu Ho Hs) as (Hu1 & o1 & Ho1 & Hc1).
  destruct (IH _ _ _ Hu1 Ho1 H) as (o' & ? & ?). exists o'. split; [done | congruence].
Qed.

(** Two runs under one correlation id, as two script actions of one automation
    run that execute in parallel are: once the second is registered, the first is
    out of reach; whatever happens later, no cancellation cancels it. *)
Theorem shared_run_uncancellable pre id r1 r2 post s o :
  steps no_runs pre = Some s -> table s !! id = Some r1 -> runs s !! r1 = Some o -> r1 <> r2 ->
  forall s', steps s (LRegister id r2 :: post) = Some s' ->
  exists o', runs s' !! r1 = Some o' /\ cancelled o' = cancelled o.
Proof.
  intros Hpre Ht Ho Hne s'. pose proof (steps_ok _ _ _ no_runs_ok Hpre) as Hok. cbn [steps].
  destruct (step s (LRegister id r2)) as [s1|] eqn:Hs; [|done]. cbn in Hs. destruct (runs s !! r2) eqn:Hr; [done|].
  injection Hs as <-. apply (unreachable_steps r1 post o); unfold unreachable; cbn.
  - intros id' [[_ ?]|[? H]]%lookup_insert_Some; [congruence|]. by pose proof (ok_inj _ Hok _ _ _ Ht H).
  - by rewrite lookup_insert_ne.
Qed.

(** ** Witnesses *)

Module RunsDemo.

Lemma cancel_reaches_run_witness :
  exists s o s', steps no_runs ([LRegister "a" 0%nat; LEnter 0%nat; LLeave 0%nat; LFinish "a" 0%nat] ++ LRegister "a" 1%nat :: [LEnter 1%nat; LExpire "a" 0%nat]) = Some s /\
    runs s !! 1%nat = Some o /\ step s (LCancel "a" "user:ann") = Some s' /\ (canceledBy <$> runs s' !! 1%nat) = Some "user:ann".
Proof.
  destruct (steps no_runs ([LRegister "a" 0%nat; LEnter 0%nat; LLeave 0%nat; LFinish "a" 0%nat] ++ LRegister "a" 1%nat :: [LEnter 1%nat; LExpire "a" 0%nat])) as [s|] eqn:Hs; [|vm_compute in Hs; congruence].
  destruct (cancel_reaches_run _ _ _ _ s "user:ann" Hs) as (o & s' & Ho & Hd & Hc & Hr).
  { repeat constructor; cbn; congruence. }
  exists s, o, s'. split; [done|]. split; [done|]. split; [done|]. rewrite Hr, lookup_insert_eq.
  vm_compute in Hs. injection Hs as <-. vm_compute in Ho. injection Ho as <-. reflexivity.
Defined.

Lemma shared_run_uncancellable_witness :
  exists s s' o', steps no_runs [LRegister "a" 0%nat; LEnter 0%nat] = Some s /\
    steps s (LRegister "a" 1%nat :: [LEnter 1%nat; LCancel "a" "user:ann"; LCancel "a" ""]) = Some s' /\
    runs s' !! 0%nat = Some o' /\ cancelled o' = false.
Proof.
  destruct (steps no_runs [LRegister "a" 0%nat; LEnter 0%nat]) as [s|] eqn:Hs; [|vm_compute in Hs; congruence].
  destruct (steps s (LRegister "a" 1%nat :: [LEnter 1%nat; LCancel "a" "user:ann"; LCancel "a" ""])) as [s'|] eqn:Hs'.
  - destruct (shared_run_uncancellable _ "a" 0%nat 1%nat [LEnter 1%nat; LCancel "a" "user:ann"; LCancel "a" ""] s newScriptRun Hs) with (s' := s') as (o' & Ho' & Hc).
    + vm_compute in Hs. injection Hs as <-. reflexivity.
    + vm_compute in Hs. injection Hs as <-. reflexivity.
    + lia.
    + exact Hs'.
    + exists s, s', o'. split; [done|]. split; [exact Hs'|]. split; [exact Ho' | exact Hc].
  - exfalso. vm_compute in Hs. injection Hs as <-. vm_compute in Hs'. congruence.
Defined.

End RunsDemo.
