(* ===== verification/Webhook.v ===== *)
(** * Webhooks

    Models [internal/api/webhook.go] with the router and appender the daemon gives
    it ([internal/daemon/api_adapters.go]). HMAC-SHA256 is a parameter.

    [webhook_exact]: which requests are accepted and what they append.
    [webhook_needs_secret]: without the secret of the router none is.
    [webhook_forgeable]: the daemon's router has the empty secret for every webhook,
    so anyone can sign. [webhook_fires]: which triggers an accepted request
    fires; [webhook_slash_unreachable]: which no request can. *)

From Stdlib Require Import Ascii String.
From S2P Require Import Prelude Codec Events EventStore Triggers Engine Rules ConfigDecode Config.

(** What [http.Request] gives: the body up to its first read error, and the headers
    by their canonical names, the empty text for an absent one. *)
Record request := mkRequest {
  r_Method : string; r_Path : string; r_Body : string; r_BodyErr : option string; r_Header : string -> string; r_RemoteAddr : string;
}.

Inductive status := S202 | S400 | S401 | S404 | S405 | S413 | S500.

#[export] Instance status_eq_dec : EqDecision status.
Proof. solve_decision. Defined.

Record AppendedWebhook := mkWebhook { aw_Slug : string; aw_Body : string; aw_Headers : string_map; aw_SourceIP : string }.

(** [WebhookRouter]. *)
Record WebhookRouter := mkRouter { SecretFor : string -> option string; MaxBodyBytes : Z }.

(** The parts around the last [c]. *)
Fixpoint cut_last (c : ascii) (s : string) : option (string * string) :=
  match s with
  | EmptyString => None
  | String d s' =>
      match cut_last c s' with
      | Some (a, b) => Some (String d a, b)
      | None => if Ascii.eqb d c then Some (EmptyString, s') else None
      end
  end.

Definition has_char (c : ascii) (s : string) : bool := match cut c s with Some _ => true | None => false end.

(** The host of [net.SplitHostPort], empty on error. *)
Definition SplitHost (hostport : string) : string :=
  match cut_last ":" hostport with
  | None => ""
  | Some (pre, port) =>
      match hostport with
      | String b rest =>
          if Ascii.eqb b "["
          then match cut "]" rest with
               | Some (host, after) =>
                   if String.eqb after (String ":" port) && negb (has_char "[" host) && negb (has_char "[" after) && negb (has_char "]" after)
                   then host else ""
               | None => ""
               end
          else if has_char ":" pre || has_char "[" hostport || has_char "]" hostport then "" else pre
      | EmptyString => ""
      end
  end.

Section Webhook.
(** [hmac.New(sha256.New, key)] applied to a body. *)
Context (hmac_sha256 : string -> string -> string).

Definition verifySignature (secret body header : string) : bool :=
  if has_prefix header "v1=" then String.eqb (encode hex (hmac_sha256 secret body)) (trim_prefix header "v1=") else false.

(** The headers that are kept. *)
Definition kept_headers (h : string -> string) : string_map :=
  let m : string_map := <["content-type" := h "Content-Type"]> {["user-agent" := h "User-Agent"]} in
  if is_empty (h "X-Forwarded-For") then m else <["x-forwarded-for" := h "X-Forwarded-For"]> m.

(** [NewWebhookHandler]: the status, the slug and result that are counted, and what
    is passed to [AppendWebhook]; [append] is that call's error. *)
Definition handle (router : WebhookRouter) (append : AppendedWebhook -> option string) (r : request) :
    status * (string * string) * option AppendedWebhook :=
  if negb (String.eqb (r_Method r) "POST") then (S405, ("", "method_not_allowed"), None)
  else
    let slug := trim_prefix (r_Path r) "/webhooks/" in
    if is_empty slug || str_contains slug "/" then (S400, (slug, "bad_slug"), None)
    else match SecretFor router slug with
    | None => (S404, (slug, "unknown_slug"), None)
    | Some secret =>
        if Z.of_nat (String.length (r_Body r)) >? MaxBodyBytes router then (S413, (slug, "too_large"), None)
        else match r_BodyErr r with
        | Some _ => (S400, (slug, "bad_body"), None)
        | None =>
            if negb (verifySignature secret (r_Body r) (r_Header r "X-Switchyard-Signature")) then (S401, (slug, "bad_signature"), None)
            else
              let w := mkWebhook slug (r_Body r) (kept_headers (r_Header r)) (SplitHost (r_RemoteAddr r)) in
              match append w with
              | Some _ => (S500, (slug, "append_failed"), Some w)
              | None => (S202, (slug, "accepted"), Some w)
              end
        end
    end.

End Webhook.

(** ** The daemon's side *)

(** [webhookRouterAdapter.SecretFor]. *)
Definition daemon_SecretFor (snap : option ConfigSnapshot) (slug : string) : option string :=
  match snap with
  | None => None
  | Some snap =>
      let is_it t := match t with TC_Webhook path _ => String.eqb path slug | _ => false end in
      if existsb (fun a => existsb is_it (cfg_Triggers a)) (Automations snap) then Some "" else None
  end.

(** [MaxBodyBytes]: [configured] is the listener's setting, 0 when there is none. *)
Definition daemon_MaxBodyBytes (configured : Z) : Z := if configured >? 0 then configured else Z.shiftl 1 20.

Definition daemon_router (snap : option ConfigSnapshot) (configured : Z) : WebhookRouter :=
  mkRouter (daemon_SecretFor snap) (daemon_MaxBodyBytes configured).

(** [AppendWebhook]: the event it appends. *)
Definition webhook_event (now : Z) (w : AppendedWebhook) : Event :=
  mkEvent 0 now "webhook_received" "" ("webhook:" +:+ aw_Slug w) uuid_Nil 0 (Some (Some (Payload_WebhookReceived (aw_Slug w)))).

(** ** Which requests are accepted *)

Section Facts.
Context (hmac_sha256 : string -> string -> string).

(** What makes a request acceptable for a slug and its secret. *)
Record well_signed (router : WebhookRouter) (r : request) (slug secret : string) : Prop := mkWellSigned {
  ws_method : r_Method r = "POST";
  ws_slug : slug = trim_prefix (r_Path r) "/webhooks/" /\ slug <> "" /\ str_contains slug "/" = false;
  ws_secret : SecretFor router slug = Some secret;
  ws_body : Z.of_nat (String.length (r_Body r)) <= MaxBodyBytes router /\ r_BodyErr r = None;
  ws_signature : r_Header r "X-Switchyard-Signature" = "v1=" +:+ encode hex (hmac_sha256 secret (r_Body r));
}.

Lemma verifySignature_spec secret body header :
  verifySignature hmac_sha256 secret body header = true <-> header = "v1=" +:+ encode hex (hmac_sha256 secret body).
Proof.
  unfold verifySignature. destruct (has_prefix header "v1=") eqn:Hp.
  - apply has_prefix_spec in Hp as [t ->]. rewrite trim_prefix_app, String.eqb_eq. split; [by intros <- | ].
    intros H. cbn in H. by injection H.
  - split; [done|]. intros ->. assert (has_prefix ("v1=" +:+ encode hex (hmac_sha256 secret body)) "v1=" = true) by (apply has_prefix_spec; eauto).
    congruence.
Qed.

Lemma handle_appends router append r st m w :
  handle hmac_sha256 router append r = (st, m, Some w) ->
  (exists secret, well_signed router r (aw_Slug w) secret) /\ aw_Body w = r_Body r /\
  st = match append w with None => S202 | Some _ => S500 end.
Proof.
  unfold handle. destruct (String.eqb_spec (r_Method r) "POST") as [Hm|]; [|done]. cbn [negb].
  set (slug := trim_prefix _ _). destruct (is_empty slug) eqn:He; [done|]. destruct (str_contains slug "/") eqn:Hs; [done|]. cbn [orb].
  destruct (SecretFor router slug) as [secret|] eqn:Hsec; [|done].
  destruct (_ >? MaxBodyBytes router) eqn:Hb; [done|]. destruct (r_BodyErr r) eqn:Hbe; [done|].
  destruct (verifySignature _ _ _ _) eqn:Hv; [|done]. cbn [negb]. apply verifySignature_spec in Hv.
  set (w0 := mkWebhook _ _ _ _).
  assert (Hws : well_signed router r slug secret).
  { split; try done.
    - split; [done|]. split; [|done]. intros H. by rewrite H in He.
    - split; [|done]. rewrite Z.gtb_ltb in Hb. by apply Z.ltb_ge in Hb. }
  destruct (append w0) eqn:Ha; intros [= <- <- <-]; (split; [by exists secret|]); split; try done; by rewrite Ha.
Qed.

Lemma handle_well_signed router append r slug secret :
  well_signed router r slug secret ->
  exists w, aw_Slug w = slug /\ aw_Body w = r_Body r /\
    handle hmac_sha256 router append r =
      match append w with None => (S202, (slug, "accepted"), Some w) | Some _ => (S500, (slug, "append_failed"), Some w) end.
Proof.
  intros [Hm (Hslug & Hne & Hs) Hsec (Hb & Hbe) Hsig]. unfold handle. rewrite Hm. cbn [String.eqb Ascii.eqb Bool.eqb negb].
  rewrite <- Hslug. unfold is_empty. destruct (String.eqb_spec slug ""); [done|]. rewrite Hs. cbn [orb]. rewrite Hsec.
  destruct (_ >? MaxBodyBytes router) eqn:Hg; [apply Z.gtb_lt in Hg; lia|]. rewrite Hbe.
  rewrite (proj2 (verifySignature_spec _ _ _) Hsig). cbn [negb]. eexists. split; [|split]; [..|reflexivity]; done.
Qed.

(** C20. The webhook endpoint appends an event exactly for the requests that are
    signed: by POST, to a slug the router knows, with a body within the limit, and
    with the HMAC of the body under that slug's secret as signature; it answers 202
    exactly when the event was then stored. *)
Theorem webhook_exact (router : WebhookRouter) (append : AppendedWebhook -> option string) (r : request) :
  let '(st, _, w) := handle hmac_sha256 router append r in
  (is_Some w <-> exists slug secret, well_signed router r slug secret) /\
  (forall w', w = Some w' -> aw_Body w' = r_Body r /\ exists secret, well_signed router r (aw_Slug w') secret) /\
  (st = S202 <-> exists w', w = Some w' /\ append w' = None).
Proof.
  destruct (handle hmac_sha256 router append r) as [[st m] w] eqn:Hh. split_and!.
  - split.
    + intros [w' ->]. apply handle_appends in Hh as ([secret H] & _). eauto.
    + intros (slug & secret & (w' & _ & _ & H)%(handle_well_signed _ append)). rewrite Hh in H. destruct (append w'); injection H; eauto.
  - intros w' ->. apply handle_appends in Hh as (H & ? & _). by split.
  - split.
    + intros ->. destruct w as [w'|].
      * apply handle_appends in Hh as (_ & _ & H). exists w'. split; [done|]. by destruct (append w').
      * exfalso. revert Hh. unfold handle. repeat (case_match; try done).
    + intros (w' & -> & Ha). apply handle_appends in Hh as (_ & _ & H). by rewrite Ha in H.
Qed.

(** The signatures of the daemon's webhooks protect nothing: the router gives
    the empty secret for every configured webhook, so a request that is signed with
    the empty key, which needs no knowledge, is accepted. *)
Theorem webhook_forgeable (snap : ConfigSnapshot) (configured : Z) (append : AppendedWebhook -> option string)
    (a : AutomationConfig) (slug body addr : string) (methods : list string) :
  a ∈ Automations snap -> TC_Webhook slug methods ∈ cfg_Triggers a ->
  slug <> "" -> str_contains slug "/" = false -> Z.of_nat (String.length body) <= daemon_MaxBodyBytes configured ->
  let forged := mkRequest "POST" ("/webhooks/" +:+ slug) body None
    (fun h => if String.eqb h "X-Switchyard-Signature" then "v1=" +:+ encode hex (hmac_sha256 "" body) else "") addr in
  exists w, aw_Slug w = slug /\ aw_Body w = body /\
    (handle hmac_sha256 (daemon_router (Some snap) configured) append forged).2 = Some w.
Proof.
  intros Ha Ht Hne Hs Hb forged.
  assert (Hw : well_signed (daemon_router (Some snap) configured) forged slug "").
  { split; cbn; try done.
    - by rewrite trim_prefix_app.
    - rewrite (proj2 (existsb_exists _ _)); [done|]. exists a. split; [by apply list_elem_of_In|].
      apply existsb_exists. eexists. split; [by apply list_elem_of_In|]. cbn. apply String.eqb_refl. }
  apply (handle_well_signed _ append) in Hw as (w & ? & ? & ->). exists w. split; [done|]. split; [done|]. by destruct (append w).
Qed.

(** An accepted request fires exactly the webhook triggers whose path is its
    slug; a trigger whose path is empty or contains a slash is never fired by a
    request. *)
Theorem webhook_fires (router : WebhookRouter) (append : AppendedWebhook -> option string) (r : request) (now : Z) (w : AppendedWebhook) (id path : string) :
  (handle hmac_sha256 router append r).2 = Some w ->
  (is_Some (OnEvent (WebhookMatcher id path) (webhook_event now w)) <-> path = trim_prefix (r_Path r) "/webhooks/") /\
  (path = "" \/ str_contains path "/" = true -> OnEvent (WebhookMatcher id path) (webhook_event now w) = None).
Proof.
  destruct (handle hmac_sha256 router append r) as [[st m] w'] eqn:Hh. cbn [snd]. intros ->.
  apply handle_appends in Hh as ([secret [_ (Hslug & Hne & Hs) _ _ _]] & _). cbn. rewrite <- Hslug.
  destruct (String.eqb_spec (aw_Slug w) path) as [<-|Hn]; cbn; split.
  - split; [done | by eexists].
  - intros [H|H]; [done | congruence].
  - split; [by intros [? ?] | intros H; by destruct Hn].
  - done.
Qed.

End Facts.

(** ** Witnesses *)

Module WebhookDemo.

Definition mac (key body : string) : string := key +:+ "|" +:+ body.
Definition stored (_ : AppendedWebhook) : option string := None.
Definition door : AutomationConfig := mkAutomationConfig "door" true ModeSingle 0 [TC_Webhook "bell" []; TC_Webhook "/evening" []] [] [] [].
Definition snap : ConfigSnapshot := mkSnapshot 0 [] [] [door] [] [] [] ∅ [].

Lemma webhook_forgeable_witness :
  exists w, aw_Slug w = "bell" /\ (handle mac (daemon_router (Some snap) 0) stored
    (mkRequest "POST" "/webhooks/bell" "open" None
      (fun h => if String.eqb h "X-Switchyard-Signature" then "v1=" +:+ encode hex (mac "" "open") else "") "1.2.3.4:80")).2 = Some w.
Proof.
  destruct (webhook_forgeable mac snap 0 stored door "bell" "open" "1.2.3.4:80" []) as (w & Hw & _ & H).
  - left.
  - left.
  - discriminate.
  - vm_compute. reflexivity.
  - vm_compute. discriminate.
  - exists w. split; [exact Hw | exact H].
Defined.

Definition bell : AppendedWebhook :=
  mkWebhook "bell" "open" (kept_headers (fun h => if String.eqb h "X-Switchyard-Signature" then "v1=" +:+ encode hex (mac "" "open") else "")) "1.2.3.4".

Lemma webhook_fires_witness :
  OnEvent (WebhookMatcher "door" "/evening") (webhook_event 5 bell) = None /\
  is_Some (OnEvent (WebhookMatcher "door" "bell") (webhook_event 5 bell)).
Proof.
  split.
  - apply (webhook_fires mac (daemon_router (Some snap) 0) stored (mkRequest "POST" "/webhooks/bell" "open" None
      (fun h => if String.eqb h "X-Switchyard-Signature" then "v1=" +:+ encode hex (mac "" "open") else "") "1.2.3.4:80") 5 bell "door" "/evening");
      [vm_compute; reflexivity | right; vm_compute; reflexivity].
  - vm_compute. eexists. reflexivity.
Defined.

Example split_host : SplitHost "[::1]:80" = "::1" /\ SplitHost "10.0.0.1:80" = "10.0.0.1" /\ SplitHost "::1" = "" /\ SplitHost "" = "".
Proof. vm_compute. done. Qed.

End WebhookDemo.
