(* ===== verification/ConfigFacts.v ===== *)
(** * Correctness of diffing, merging, validation and redaction *)

From Stdlib Require Import Ascii String.
From S2P Require Import Prelude Codec Json Rules ConfigDecode Config.

(** ** Diffing *)

(** The instance of an id. *)
Definition inst (l : list DriverInstanceConfig) (id : string) : option DriverInstanceConfig :=
  snd <$> list_find (fun di => di_Id di = id) l.

Definition ids (l : list DriverInstanceConfig) : list string := di_Id <$> l.

Lemma inst_cons di l id : inst (di :: l) id = if decide (di_Id di = id) then Some di else inst l id.
Proof.
  unfold inst. cbn [list_find]. case_decide; [done|].
  destruct (list_find _ l) as [[]|]; done.
Qed.

Lemma inst_Some l id di : inst l id = Some di -> di ∈ l /\ di_Id di = id.
Proof.
  unfold inst. intros ([i x] & Hf & [= ->])%fmap_Some. apply list_find_Some in Hf as (Hl & Hx & _).
  split; [by eapply list_elem_of_lookup_2 | done].
Qed.

Lemma inst_None l id : inst l id = None <-> id ∉ ids l.
Proof.
  unfold ids. induction l as [|x l IH]; [by split; [intros _ ?%not_elem_of_nil|]|].
  rewrite inst_cons, fmap_cons, not_elem_of_cons, <- IH. case_decide; naive_solver.
Qed.

Lemma inst_is_Some l id : is_Some (inst l id) <-> id ∈ ids l.
Proof.
  rewrite <- not_eq_None_Some, inst_None. destruct (decide (id ∈ ids l)); tauto.
Qed.

Lemma instance_hashes_lookup l id :
  NoDup (ids l) -> instance_hashes l !! id = di_ConfigHash <$> inst l id.
Proof.
  unfold instance_hashes. intros Hl.
  enough (forall m : gmap string string, foldl (fun m di => <[di_Id di := di_ConfigHash di]> m) m l !! id =
            match inst l id with Some di => Some (di_ConfigHash di) | None => m !! id end) as He.
  { rewrite He. destruct (inst l id); [done|]. by rewrite lookup_empty. }
  induction l as [|x l IH]; intros m; [done|]. apply NoDup_cons in Hl as [Hx Hl].
  cbn [foldl]. rewrite (IH Hl), inst_cons. case_decide as Hd.
  - subst. apply inst_None in Hx as ->. by rewrite lookup_insert_eq.
  - destruct (inst l id); [done|]. by rewrite lookup_insert_ne.
Qed.

Lemma diff_next_spec old l added changed :
  diff_next old l = (added, changed) ->
  (forall id, id ∈ added <-> old !! id = None /\ id ∈ ids l) /\
  (NoDup (ids l) -> forall id, id ∈ changed <-> exists h di, old !! id = Some h /\ inst l id = Some di /\ h <> di_ConfigHash di) /\
  (NoDup (ids l) -> NoDup added /\ NoDup changed).
Proof.
  revert added changed. unfold ids. induction l as [|x l IH]; intros added changed; cbn [diff_next].
  { intros [= <- <-]. split_and!; [set_solver| |by split; constructor].
    intros _ id. split; [set_solver|]. by intros (?&?&?&?&?). }
  destruct (diff_next old l) as [a c] eqn:Hl. specialize (IH _ _ eq_refl) as (IHa & IHc & IHn).
  assert (NoDup (di_Id <$> x :: l) -> forall id, id ∈ c -> id <> di_Id x) as Hc.
  { intros [Hx Hnd]%NoDup_cons id Hid ->. apply (IHc Hnd) in Hid as (?&?&?&Hi&?).
    apply (inst_None l) in Hx. congruence. }
  destruct (old !! di_Id x) as [h|] eqn:Ho; [case_match eqn:He|]; intros [= <- <-].
  - apply String.eqb_eq in He as ->. split_and!.
    + intros id. rewrite IHa, fmap_cons, elem_of_cons. naive_solver.
    + intros Hnd id. pose proof (proj2 (proj1 (NoDup_cons _ _) Hnd)) as Hnd'. rewrite (IHc Hnd'), inst_cons.
      case_decide as Hd; [|done]. subst. apply NoDup_cons in Hnd as [Hx _]. apply (inst_None l) in Hx.
      split; [naive_solver|]. intros (?&?&?&[= <-]&?). congruence.
    + intros Hnd. by apply IHn, (proj2 (proj1 (NoDup_cons _ _) Hnd)).
  - apply String.eqb_neq in He. split_and!.
    + intros id. rewrite IHa, fmap_cons, elem_of_cons. naive_solver.
    + intros Hnd id. pose proof (proj2 (proj1 (NoDup_cons _ _) Hnd)) as Hnd'. rewrite elem_of_cons, inst_cons.
      case_decide as Hd.
      * subst. split; [intros _; eauto | by left].
      * rewrite (IHc Hnd'). naive_solver.
    + intros Hnd. pose proof (proj2 (proj1 (NoDup_cons _ _) Hnd)) as Hnd'. destruct (IHn Hnd'). split; [done|].
      constructor; [|done]. intros Hin. by apply (Hc Hnd) in Hin.
  - split_and!.
    + intros id. rewrite elem_of_cons, IHa, fmap_cons, elem_of_cons. naive_solver.
    + intros Hnd id. pose proof (proj2 (proj1 (NoDup_cons _ _) Hnd)) as Hnd'. rewrite (IHc Hnd'), inst_cons.
      case_decide as Hd; [|done]. subst. apply NoDup_cons in Hnd as [Hx _]. apply (inst_None l) in Hx.
      naive_solver congruence.
    + intros Hnd. pose proof Hnd as [Hx Hnd']%NoDup_cons. destruct (IHn Hnd'). split; [|done].
      constructor; [|done]. intros Hin. apply IHa in Hin as [_ Hin]. done.
Qed.

(** The instances of a snapshot that may be nil. *)
Definition instances_of (old : option ConfigSnapshot) : list DriverInstanceConfig :=
  match old with Some o => DriverInstances o | None => [] end.

(** The hashes of an id before and after decide in which list it is. *)
Record diff_spec (old next : list DriverInstanceConfig) (d : ConfigDiff) : Prop := {
  ds_added id : id ∈ DriverInstancesAdded d <-> inst old id = None /\ is_Some (inst next id);
  ds_removed id : id ∈ DriverInstancesRemoved d <-> is_Some (inst old id) /\ inst next id = None;
  ds_changed id : id ∈ DriverInstancesChanged d <->
    exists di dj, inst old id = Some di /\ inst next id = Some dj /\ di_ConfigHash di <> di_ConfigHash dj;
  ds_nodup : NoDup (DriverInstancesAdded d) /\ NoDup (DriverInstancesRemoved d) /\ NoDup (DriverInstancesChanged d);
}.

Lemma Diff_correct order old next :
  NoDup (ids (instances_of old)) -> NoDup (ids (DriverInstances next)) ->
  order ≡ₚ ids (instances_of old) ->
  diff_spec (instances_of old) (DriverInstances next) (Diff order old next).
Proof.
  intros Hold Hnext Hord.
  pose proof (fun id => instance_hashes_lookup _ id Hold) as Hh.
  unfold Diff.
  replace (match old with Some o => instance_hashes (DriverInstances o) | None => ∅ end)
    with (instance_hashes (instances_of old)) by by destruct old.
  destruct (diff_next _ _) as [added changed] eqn:Hd.
  apply diff_next_spec in Hd as (Ha & Hc & Hn). specialize (Hc Hnext). specialize (Hn Hnext).
  split; cbn.
  - intros id. rewrite Ha, Hh, fmap_None, inst_is_Some. done.
  - intros id. rewrite list_elem_of_filter, Hord, <- inst_is_Some. rewrite (inst_None (DriverInstances next)). tauto.
  - intros id. rewrite Hc. split.
    + intros (h & dj & Ho & Hj & Hne). rewrite Hh in Ho. apply fmap_Some in Ho as (di & Hdi & ->). eauto.
    + intros (di & dj & Hdi & Hdj & Hne). exists (di_ConfigHash di), dj. by rewrite Hh, Hdi.
  - destruct Hn. split_and!; [done| |done]. apply NoDup_filter. by rewrite Hord.
Qed.

(** ** Validation *)

Lemma duplicates_nil err seen l :
  duplicates err seen l = [] <-> NoDup l /\ (forall x, x ∈ l -> x ∉ seen).
Proof.
  revert seen. induction l as [|x l IH]; intros seen; cbn [duplicates].
  - split; [|done]. intros _. split; [constructor|]. by intros ? ?%not_elem_of_nil.
  - rewrite app_nil, IH, NoDup_cons. pose proof (contains_eq_spec seen x) as Hs.
    destruct (contains_eq seen x); split.
    + by intros [? _].
    + intros [_ Hx]. destruct (Hx x); [left | by apply Hs].
    + intros (_ & Hl & Hx). split_and!; [intros Hin; by apply (Hx x Hin); left | done |].
      intros y [->|Hy]%elem_of_cons; [by rewrite <- Hs | intros Hin; by apply (Hx y Hy); right].
    + intros ((Hx & Hl) & Hy). split_and!; [done|done|]. intros y Hin [->|Hs']%elem_of_cons; [done|].
      by apply (Hy y); [right|].
Qed.

Lemma check_instances_nil q seen l :
  check_instances q seen l = [] <->
  NoDup (ids l) /\ (forall x, x ∈ ids l -> x ∉ seen) /\
  (forall f, q = Some f -> Forall (fun di => di_DriverName di = "" \/ f (di_DriverName di) = true) l).
Proof.
  transitivity (duplicates DuplicateInstance seen (ids l) = [] /\
    (forall f, q = Some f -> Forall (fun di => di_DriverName di = "" \/ f (di_DriverName di) = true) l)).
  2:{ rewrite duplicates_nil. tauto. }
  revert seen. induction l as [|x l IH]; intros seen; cbn [check_instances].
  { split; [|done]. split; [done|]. constructor. }
  unfold ids. rewrite fmap_cons. cbn [duplicates]. rewrite !app_nil, IH.
  assert ((match q with
           | Some exists_ => if negb (is_empty (di_DriverName x)) && negb (exists_ (di_DriverName x))
                             then [UnknownDriver (di_Id x) (di_DriverName x)] else []
           | None => [] end = []) <->
          (forall f, q = Some f -> di_DriverName x = "" \/ f (di_DriverName x) = true)) as ->.
  { destruct q as [f|]; [|done]. unfold is_empty.
    destruct (String.eqb_spec (di_DriverName x) ""), (f (di_DriverName x)) eqn:Hf; cbn; split; try done; intros H.
    - intros ? [= ->]. by left.
    - intros ? [= ->]. by left.
    - intros ? [= <-]. by right.
    - destruct (H f eq_refl); congruence. }
  setoid_rewrite Forall_cons. naive_solver.
Qed.

Lemma check_entities_nil seen l :
  check_entities seen l = [] <->
  NoDup (ec_Id <$> l) /\ (forall x, x ∈ ec_Id <$> l -> x ∉ seen) /\ Forall (fun e => isValidEntityID (ec_Id e) = true) l.
Proof.
  transitivity (duplicates DuplicateEntity seen (ec_Id <$> l) = [] /\
                Forall (fun e => isValidEntityID (ec_Id e) = true) l).
  2:{ rewrite duplicates_nil. tauto. }
  revert seen. induction l as [|x l IH]; intros seen; cbn [check_entities]; [by split|].
  rewrite fmap_cons. cbn [duplicates]. rewrite !app_nil, IH, Forall_cons.
  destruct (isValidEntityID (ec_Id x)); naive_solver.
Qed.

(** The scripts an action refers to. *)
Fixpoint script_refs (ac : ActionConfig) : list string :=
  match ac with
  | AC_Script _ name _ => [name]
  | AC_Sequence _ l | AC_Parallel _ l => (fix go l := match l with [] => [] | c :: l' => script_refs c ++ go l' end) l
  | _ => []
  end.

Lemma collectScriptRefs_nil known path ac :
  collectScriptRefs known path ac = [] <-> (forall n, n ∈ script_refs ac -> n ∈ known).
Proof.
  revert path. induction ac as [| |k n a| | |k l IH|k l IH|] using action_ind; intros path; cbn;
    try (split; [by intros _ ? ?%not_elem_of_nil | done]).
  { pose proof (contains_eq_spec known n) as Hs. destruct (contains_eq known n); split; try done.
    - intros _ ? ->%list_elem_of_singleton. by apply Hs.
    - intros H. enough (false = true) by done. apply Hs, H. by left. }
  all: match goal with |- context [item_path _ ?b] => generalize b end; intros b;
    generalize 0%nat; induction IH as [|c l Hc Hl IHl]; intros i;
    [split; [by intros _ ? ?%not_elem_of_nil | done]|].
  all: rewrite app_nil, Hc, IHl; setoid_rewrite elem_of_app; naive_solver.
Qed.

Lemma check_actions_nil known path i l :
  check_actions known path i l = [] <-> (forall ac n, ac ∈ l -> n ∈ script_refs ac -> n ∈ known).
Proof.
  revert i. induction l as [|ac l IH]; intros i; cbn [check_actions].
  - split; [by intros _ ? ? ?%not_elem_of_nil | done].
  - rewrite app_nil, IH, collectScriptRefs_nil. setoid_rewrite elem_of_cons. naive_solver.
Qed.

Lemma isValidEntityID_spec id :
  isValidEntityID id = true <-> exists a b, id = a +:+ String "." b /\ a <> "" /\ b <> "" /\ lacks "." a.
Proof.
  unfold isValidEntityID, is_empty. cbn [SplitN].
  destruct (cut "." id) as [[a b]|] eqn:Hc.
  - apply cut_sound in Hc as [-> Ha]. rewrite andb_true_iff, !negb_true_iff, !String.eqb_neq. split.
    + intros [??]. eauto 6.
    + intros (a' & b' & Heq & Ha' & Hb' & Hl). pose proof (cut_app "." a' b' Hl) as H1.
      rewrite <- Heq in H1. rewrite (cut_app "." a b Ha) in H1. by injection H1 as -> ->.
  - split; [done|]. intros (a & b & -> & _ & _ & Hl). by rewrite cut_app in Hc.
Qed.

(** A snapshot whose names are unique and whose references resolve. *)
Record well_referenced (snap : ConfigSnapshot) (querier : option (string -> bool)) : Prop := {
  wr_instances : NoDup (ids (DriverInstances snap));
  wr_drivers f di : querier = Some f -> di ∈ DriverInstances snap -> di_DriverName di = "" \/ f (di_DriverName di) = true;
  wr_entities : NoDup (ec_Id <$> Entities snap);
  wr_entity_ids e : e ∈ Entities snap -> exists a b, ec_Id e = a +:+ String "." b /\ a <> "" /\ b <> "" /\ lacks "." a;
  wr_automations : NoDup (cfg_ID <$> Automations snap);
  wr_scripts : NoDup (script_names snap);
  wr_script_refs a ac n : a ∈ Automations snap -> ac ∈ cfg_Actions a -> n ∈ script_refs ac -> n ∈ script_names snap;
  wr_scene_areas sc : sc ∈ Scenes snap -> scene_AreaId sc = "" \/ scene_AreaId sc ∈ area_Id <$> Areas snap;
}.

Lemma bind_nil {A B} (f : A -> list B) l : l ≫= f = [] <-> forall x, x ∈ l -> f x = [].
Proof.
  induction l as [|x l IH]; cbn.
  - split; [by intros _ ? ?%not_elem_of_nil | done].
  - rewrite app_nil, IH. setoid_rewrite elem_of_cons. naive_solver.
Qed.

Lemma check_scene_nil known sc :
  check_scene known sc = [] <-> scene_AreaId sc = "" \/ scene_AreaId sc ∈ known.
Proof.
  unfold check_scene, is_empty. pose proof (contains_eq_spec known (scene_AreaId sc)) as Hs.
  destruct (String.eqb_spec (scene_AreaId sc) ""), (contains_eq known (scene_AreaId sc)); cbn; split; try done.
  - intros _. by left.
  - intros _. by left.
  - intros _. right. by apply Hs.
  - intros [?|?%Hs]; done.
Qed.

Lemma Compile_nil snap q : Compile snap q = [] <-> well_referenced snap q.
Proof.
  unfold Compile. rewrite !app_nil, check_instances_nil, check_entities_nil, !duplicates_nil, !bind_nil.
  setoid_rewrite check_scene_nil. setoid_rewrite check_actions_nil. split.
  - intros ((?&_&Hd) & (?&_&He) & (?&_) & (?&_) & Hr & Hs). split; try done.
    + intros f di Hq Hdi. specialize (Hd f Hq). by rewrite Forall_forall in Hd; apply Hd.
    + intros e Hin. apply isValidEntityID_spec. by rewrite Forall_forall in He; apply He.
    + intros a ac n Ha. by apply Hr.
  - intros []. split_and!; try done; try (by intros ? _ ?%not_elem_of_nil).
    + intros f Hq. apply Forall_forall. eauto.
    + apply Forall_forall. intros e Hin. by apply isValidEntityID_spec, wr_entity_ids0.
    + intros a Ha ac n. by apply wr_script_refs0.
Qed.

(** C33. Validation is exact: a snapshot compiles without errors if and only if
    the ids of its driver instances, entities and automations and the names of its named
    scripts are unique, every driver that is named is known (when there is a registry of
    drivers to ask), every entity id has the form type.name with both parts non-empty,
    every script that an action of an automation refers to, nested in blocks to any
    depth, is defined under that name, and every area that a scene names exists. *)
Theorem Compile_exact (snap : ConfigSnapshot) (querier : option (string -> bool)) :
  Compile snap querier = [] <-> well_referenced snap querier.
Proof. apply Compile_nil. Qed.

(** ** Merging *)

Section MergeKindFacts.
Context {C : Type} (kind : string) (id_of : C -> string).

(** The discovered files whose name is their id. *)
Definition well_named (disc : list (string * C)) : list (string * C) :=
  filter (fun p => id_of p.2 = expectedID p.1) disc.

Lemma merge_kind_spec inline disc out errs hard :
  merge_kind kind id_of inline disc = (out, errs, hard) ->
  out = snd <$> filter (fun p => id_of p.2 ∉ inline) (well_named disc) /\
  (hard = false <-> forall p, p ∈ well_named disc -> id_of p.2 ∉ inline).
Proof.
  unfold well_named. revert out errs hard. induction disc as [|[path c] disc IH]; intros out errs hard; cbn [merge_kind].
  { intros [= <- <- <-]. split; [done|]. split; [by intros _ ? ?%not_elem_of_nil | done]. }
  destruct (merge_kind kind id_of inline disc) as [[o e] h]. specialize (IH _ _ _ eq_refl) as [-> Hh].
  destruct (String.eqb_spec (id_of c) (expectedID path)) as [Hid|Hid]; cbn [negb].
  - pose proof (contains_eq_spec inline (id_of c)) as Hs.
    rewrite (filter_cons_True _ (path, c)) by done. setoid_rewrite elem_of_cons.
    destruct (contains_eq inline (id_of c)); intros [= <- <- <-].
    + assert (id_of c ∈ inline) as Hin by by apply Hs.
      rewrite (filter_cons_False _ (path, c)) by (intros Hn; by apply Hn).
      split; [done|]. split; [done|]. intros H. by destruct (H (path, c) (or_introl eq_refl)).
    + assert (id_of c ∉ inline) as Hin by by rewrite <- Hs.
      rewrite (filter_cons_True _ (path, c)) by done. split; [done|]. rewrite Hh. naive_solver.
  - rewrite (filter_cons_False _ (path, c)) by done. by intros [= <- <- <-].
Qed.

Lemma merge_kind_ok inline disc out errs :
  merge_kind kind id_of inline disc = (out, errs, false) ->
  out = snd <$> well_named disc /\
  (NoDup inline -> NoDup (expectedID ∘ fst <$> disc) -> NoDup (inline ++ (id_of <$> out))).
Proof.
  intros [-> Hh]%merge_kind_spec. specialize (proj1 Hh eq_refl) as Hi. rewrite list_filter_all by done.
  split; [done|]. intros Hin Hd.
  assert (id_of <$> (snd <$> well_named disc) = expectedID ∘ fst <$> well_named disc) as Hids.
  { rewrite <- list_fmap_compose. apply list_fmap_ext. intros i p Hp. cbn.
    by apply list_elem_of_lookup_2, list_elem_of_filter in Hp as [? _]. }
  apply NoDup_app. split_and!; [done| |].
  - intros x Hx Hc. apply list_elem_of_fmap in Hc as (c & -> & Hc). apply list_elem_of_fmap in Hc as (p & -> & Hp).
    by apply (Hi p).
  - rewrite Hids. eapply sublist_NoDup; [exact Hd|].
    apply fmap_sublist. unfold well_named. apply sublist_filter.
Qed.
End MergeKindFacts.

Lemma merge_areas_ok m disc m' errs :
  merge_areas m disc = (m', errs, false) ->
  m ⊆ m' /\ forall k v, (k, v) ∈ disc -> m' !! k = Some v.
Proof.
  revert m m' errs. induction disc as [|[k v] disc IH]; intros m m' errs; cbn [merge_areas].
  { intros [= <- <-]. split; [done|]. by intros ? ? ?%not_elem_of_nil. }
  assert (m ⊆ <[k:=v]> m -> merge_areas (<[k:=v]> m) disc = (m', errs, false) ->
          m ⊆ m' /\ forall k0 v0, (k0, v0) ∈ (k, v) :: disc -> m' !! k0 = Some v0) as Hstep.
  { intros Hsub [Hs Hd]%IH. split; [by transitivity (<[k:=v]> m)|].
    intros k0 v0 [[= -> ->]|Hin]%elem_of_cons; [|by apply Hd].
    eapply lookup_weaken; [|exact Hs]. by rewrite lookup_insert_eq. }
  destruct (m !! k) as [ex|] eqn:Hk; [case_match eqn:He|].
  - apply String.eqb_eq in He as ->. apply Hstep. by rewrite insert_id.
  - by destruct (merge_areas m disc) as [[??]?].
  - apply Hstep. by apply insert_subseteq.
Qed.

(** One kind of configuration, before and after a merge. *)
Definition merged {C} (id_of : C -> string) (inline : list C) (disc : list (string * C)) (out : list C) : Prop :=
  out = inline ++ (snd <$> well_named id_of disc) /\
  (NoDup (id_of <$> inline) -> NoDup (expectedID ∘ fst <$> disc) -> NoDup (id_of <$> out)).

Lemma merge_kind_merged {C} kind (id_of : C -> string) inline disc out errs :
  merge_kind kind id_of (id_of <$> inline) disc = (out, errs, false) ->
  merged id_of inline disc (inline ++ out).
Proof. intros [-> Hn]%merge_kind_ok. split; [done|]. by rewrite fmap_app. Qed.

(** A merge that reports no conflict keeps every inline configuration and
    adds exactly the discovered ones whose file is named after their id, in
    order; ids that were unique stay unique when the files have distinct names;
    the inline entity areas are kept and every discovered one is present. *)
Theorem merge_exact (snap : ConfigSnapshot) (disc : discoveryResult) (snap' : ConfigSnapshot)
    (errs : list ValidationError) :
  mergeDiscovered snap disc = (snap', errs, false) ->
  merged cfg_ID (Automations snap) (disc_Automations disc) (Automations snap') /\
  merged area_Id (Areas snap) (disc_Areas disc) (Areas snap') /\
  merged scene_Id (Scenes snap) (disc_Scenes disc) (Scenes snap') /\
  EntityAreas snap ⊆ EntityAreas snap' /\
  (forall k v, (k, v) ∈ disc_EntityAreas disc -> EntityAreas snap' !! k = Some v).
Proof.
  unfold mergeDiscovered.
  destruct (merge_kind "automations" _ _ _) as [[autos e1] h1] eqn:H1.
  destruct (merge_kind "areas" _ _ _) as [[areas e2] h2] eqn:H2.
  destruct (merge_kind "scenes" _ _ _) as [[scenes e3] h3] eqn:H3.
  destruct (merge_areas _ _) as [[ea e4] h4] eqn:H4.
  intros [= <- _ Hh]. rewrite !orb_false_iff in Hh. destruct Hh as [[[-> ->] ->] ->].
  apply merge_areas_ok in H4 as [? ?]. cbn. split_and!; [..|done|done]; by eapply merge_kind_merged.
Qed.

(** ** Secrets *)

(** Replaces the strings that the code visits: those not inside an array. *)
Fixpoint map_strings (f : string -> string) (v : json) : json :=
  match v with
  | JString s => JString (f s)
  | JObject o => JObject (map (fun p => (p.1, map_strings f p.2)) o)
  | _ => v
  end.
Definition map_fields (f : string -> string) (m : list (string * json)) : list (string * json) :=
  map (fun p => (p.1, map_strings f p.2)) m.

Lemma map_fields_cons f k v m : map_fields f ((k, v) :: m) = (k, map_strings f v) :: map_fields f m.
Proof. done. Qed.

Definition redact_string (s : string) : string := if isSecretTag s then RedactedSecret else s.
Definition resolved_string (src : SecretSources) (s : string) : string :=
  match resolveSecret src s with Ok r => r | Err _ => s end.

Definition json_ind' (P : json -> Prop) (H0 : P JNull) (H1 : forall b, P (JBool b)) (H2 : forall l, P (JNumber l))
    (H3 : forall s, P (JString s)) (H4 : forall l, P (JArray l))
    (H5 : forall m, Forall (fun p => P p.2) m -> P (JObject m)) : forall v, P v :=
  fix go v := match v with
  | JNull => H0 | JBool b => H1 b | JNumber l => H2 l | JString s => H3 s | JArray l => H4 l
  | JObject m => H5 m ((fix all (m : list (string * json)) : Forall (fun p => P p.2) m :=
      match m with [] => Forall_nil_2 _ | p :: m' => Forall_cons_2 _ p m' (go p.2) (all m') end) m)
  end.

Lemma redact_value_object o : redact_value (JObject o) = let '(o', c) := redactMap o in (JObject o', c).
Proof. done. Qed.

Lemma walk_value_object src k o : walk_value src k (JObject o) = '(o', c) ← walkMap src o; Ok (JObject o', c).
Proof. done. Qed.

(** The flag tells whether the tree is the same. *)
Lemma redactMap_spec m :
  Forall (fun p => (redact_value p.2).1 = map_strings redact_string p.2 /\
                   ((redact_value p.2).2 = false -> map_strings redact_string p.2 = p.2)) m ->
  (redactMap m).1 = map_fields redact_string m /\ ((redactMap m).2 = false -> map_fields redact_string m = m).
Proof.
  induction 1 as [|[k v] m [Hv Hc] Hm [IH IHc]]; [done|]. rewrite map_fields_cons. cbn [redactMap fst snd] in *.
  destruct (redact_value v) as [v' c1], (redactMap m) as [m' c2]. cbn [fst snd] in *. subst. split; [done|].
  intros [-> ->]%orb_false_iff. by rewrite Hc, IHc.
Qed.

Lemma redact_value_spec v :
  (redact_value v).1 = map_strings redact_string v /\
  ((redact_value v).2 = false -> map_strings redact_string v = v).
Proof.
  induction v as [| | |s| |m Hm] using json_ind'; try done.
  - cbn. unfold redact_string. by destruct (isSecretTag s).
  - apply redactMap_spec in Hm as [H1 H2]. rewrite redact_value_object.
    destruct (redactMap m) as [m' c]. cbn [fst snd] in *. subst. split; [done|].
    intros Hc. cbn. f_equal. by apply H2.
Qed.

Lemma redactMap_correct m :
  (redactMap m).1 = map_fields redact_string m /\ ((redactMap m).2 = false -> map_fields redact_string m = m).
Proof. apply redactMap_spec, Forall_forall. intros p _. apply redact_value_spec. Qed.

Lemma walkMap_spec src m m' c :
  Forall (fun p => forall k v' c, walk_value src k p.2 = Ok (v', c) ->
                   v' = map_strings (resolved_string src) p.2 /\ (c = false -> v' = p.2)) m ->
  walkMap src m = Ok (m', c) -> m' = map_fields (resolved_string src) m /\ (c = false -> m' = m).
Proof.
  intros Hm. revert m' c. induction Hm as [|[k v] m Hv Hm IH]; intros m' c; cbn [walkMap].
  { by intros [= <- <-]. }
  intros ([v' c1] & Hw & Hr)%result_bind_Ok. apply result_bind_Ok in Hr as ([rest c2] & Hr & [= <- <-]).
  apply Hv in Hw as [-> Hc1]. apply IH in Hr as [-> Hc2]. split; [done|].
  intros [-> ->]%orb_false_iff. cbn [snd] in *. by rewrite Hc1, Hc2.
Qed.

Lemma walk_value_spec src v k v' c :
  walk_value src k v = Ok (v', c) -> v' = map_strings (resolved_string src) v /\ (c = false -> v' = v).
Proof.
  revert k v' c. induction v as [| | |s| |m Hm] using json_ind'; intros k v' c; try (by intros [= <- <-]).
  - cbn. unfold resolved_string. destruct (resolveSecret src s) as [r|e]; [|done]. intros [= <- <-].
    split; [done|]. by intros ->%negb_false_iff%String.eqb_eq.
  - rewrite walk_value_object. intros ([o' c'] & Hw & [= <- <-])%result_bind_Ok.
    eapply walkMap_spec in Hw as [-> Hc]; [|exact Hm]. split; [done|]. intros Hf. by rewrite Hc.
Qed.

Lemma walkMap_correct src m m' c :
  walkMap src m = Ok (m', c) -> m' = map_fields (resolved_string src) m /\ (c = false -> m' = m).
Proof. apply walkMap_spec, Forall_forall. intros p _ k v' c'. apply walk_value_spec. Qed.

Lemma resolve_only_tagged src s : isSecretTag s = false -> resolved_string src s = s.
Proof.
  unfold isSecretTag, resolved_string, resolveSecret. rewrite !orb_false_iff.
  intros [[-> ->] ->]. done.
Qed.

Section SecretsFacts.
Context (L : JSONLib).

(** What [encoding/json] promises: no value is the empty text, and an object
    reads back as it was written. *)
Definition reads_back (m : list (string * json)) : Prop := Unmarshal L (Marshal L (JObject m)) = Some (JObject m).

Lemma redact_text data m :
  Unmarshal L "" = None -> as_map L data = Some m -> reads_back (map_fields redact_string m) ->
  as_map L (redactJSONSecrets L data) = Some (map_fields redact_string m).
Proof.
  intros He Hm Hr. unfold redactJSONSecrets, is_empty.
  destruct (String.eqb_spec data "") as [->|_]; [unfold as_map in Hm; by rewrite He in Hm|]. rewrite Hm.
  pose proof (redactMap_correct m) as [H1 H2]. destruct (redactMap m) as [m' c]. cbn in H1, H2. subst.
  destruct c; [unfold as_map; by rewrite Hr|]. by rewrite H2.
Qed.

Lemma resolve_text src data m p :
  Unmarshal L "" = None -> as_map L data = Some m -> reads_back (map_fields (resolved_string src) m) ->
  resolveJSONSecrets L src data = Ok p -> as_map L p = Some (map_fields (resolved_string src) m).
Proof.
  intros He Hm Hr. unfold resolveJSONSecrets, is_empty.
  destruct (String.eqb_spec data "") as [->|_]; [unfold as_map in Hm; by rewrite He in Hm|]. rewrite Hm.
  intros ([m' c] & [-> Hc]%walkMap_correct & [= <-])%result_bind_Ok.
  destruct c; [unfold as_map; by rewrite Hr|]. rewrite Hm. f_equal. symmetry. by apply Hc.
Qed.

(** C14. Redaction covers resolution: when the secrets of a driver instance's
    parameters are resolved, the parameters are the original tree with every
    visited string replaced by its resolution, and the redacted parameters are
    the original tree with every visited secret reference replaced by the
    placeholder; a string that resolution changes is always one that redaction
    hides, so no resolved secret is in the redacted parameters. *)
Theorem redaction_covers_resolution (src : SecretSources) (data p : string) (m : list (string * json)) :
  Unmarshal L "" = None -> as_map L data = Some m ->
  reads_back (map_fields redact_string m) -> reads_back (map_fields (resolved_string src) m) ->
  resolveJSONSecrets L src data = Ok p ->
  as_map L p = Some (map_fields (resolved_string src) m) /\
  as_map L (redactJSONSecrets L data) = Some (map_fields redact_string m) /\
  (forall s, resolved_string src s <> s -> redact_string s = RedactedSecret).
Proof.
  intros He Hm Hr1 Hr2 Hp. split_and!.
  - by eapply resolve_text.
  - by apply redact_text.
  - intros s Hs. unfold redact_string. destruct (isSecretTag s) eqn:Ht; [done|].
    by apply (resolve_only_tagged src) in Ht.
Qed.

End SecretsFacts.

Module SecretDemo.
(** An instance with a token from the environment and one in an array. *)
Definition hue (token : string) : list (string * json) :=
  [("id", JString "hue"); ("auth", JObject [("token", JString token)]); ("hosts", JArray [JString "env:HOST"])].
Definition raw : string := "{hue}".
Definition text_of (token : string) : string := "{hue " +:+ token +:+ "}".
Definition lib : JSONLib :=
  mkJSONLib
    (fun s => if String.eqb s raw then Some (JObject (hue "env:HUE_TOKEN"))
              else if String.eqb s (text_of RedactedSecret) then Some (JObject (hue RedactedSecret))
              else if String.eqb s (text_of "s3cret") then Some (JObject (hue "s3cret")) else None)
    (fun j => match j with
              | JObject [_; (_, JObject [(_, JString token)]); _] => text_of token
              | _ => ""
              end)
    (fun _ => None) (fun _ => None).
Definition sources : SecretSources :=
  mkSources (fun v => if String.eqb v "HUE_TOKEN" then "s3cret" else "") (fun _ => Err "no such file") None.

Lemma redaction_covers_resolution_witness :
  resolveJSONSecrets lib sources raw = Ok (text_of "s3cret") /\
  as_map lib (redactJSONSecrets lib raw) = Some (map_fields redact_string (hue "env:HUE_TOKEN")).
Proof.
  assert (resolveJSONSecrets lib sources raw = Ok (text_of "s3cret")) as H by reflexivity.
  split; [exact H|].
  apply (redaction_covers_resolution lib sources raw (text_of "s3cret") (hue "env:HUE_TOKEN"));
    first [reflexivity | exact H].
Defined.
End SecretDemo.

Module MergeDemo.
Definition inline : ConfigSnapshot :=
  mkSnapshot 0 [] [] [] [] [] [mkAreaConfig "hall" "Hall" ""] {["light.hall" := "hall"]} [].
Definition found : discoveryResult :=
  mkDiscovery [] [("areas/attic.pkl", mkAreaConfig "attic" "Attic" ""); ("areas/old.pkl", mkAreaConfig "cellar" "Cellar" "")]
    [] [("light.attic", "attic"); ("light.hall", "hall")].

Definition out : ConfigSnapshot := (mergeDiscovered inline found).1.1.

Lemma merge_exact_witness :
  area_Id <$> Areas out = ["hall"; "attic"] /\ EntityAreas out !! "light.attic" = Some "attic".
Proof.
  destruct (merge_exact inline found out (mergeDiscovered inline found).1.2) as (_ & [-> _] & _ & _ & Hea);
    [vm_compute; reflexivity|].
  split; [vm_compute; reflexivity|]. apply Hea. by left.
Defined.
End MergeDemo.
