(* ===== verification/ConfigParse.v ===== *)
(** * From the evaluated configuration to a snapshot

    Models [parseConfigJSON] of [internal/config/evaluator.go] with its structs: the
    text that Pkl renders is decoded into a whole snapshot, over the decoders of
    [ConfigDecode]. As in Go, all the typed fields are decoded first, and any type error
    among them is one error; then come the raw nodes, in the order of the source.

    [config_roundtrip] says that decoding inverts rendering for every section. *)

From Stdlib Require Import Ascii String SpecFloat.
From S2P Require Import Prelude Codec Json Events Engine Rules Carport ConfigDecode Config.

(** ** The snapshot's other sections *)

Inductive Role := mkRole (slug display : string) (inherits : list Role).

Record User := mkUser {
  us_Slug : string; us_DisplayName : string; us_Roles : list Role; us_Active : bool; us_PasswordAllowed : bool; us_PasskeyAllowed : bool;
  us_OidcSubject : string; us_BootstrapPasswordHash : string;
}.
Record EntitySelector := mkSelector { es_Areas : list string; es_Classes : list string; es_EntityIds : list string }.
Record Capability := mkCapability { ca_Verbs : list string; ca_Services : list string; ca_Targets : EntitySelector }.
Record Policy := mkPolicy { po_Name : string; po_Subjects : list Role; po_Allow : list Capability; po_Deny : list Capability }.
Record PackPolicy := mkPackPolicy { pp_AllowedSigners : list string; pp_AllowUnsigned : bool }.

(** Durations in milliseconds. *)
Record AuthSettings := mkAuthSettings {
  as_PasswordLoginEnabled : bool; as_PasskeyLoginEnabled : bool; as_RpId : string; as_RpDisplayName : string; as_RpOrigins : list string;
  as_UserVerification : string; as_Argon2idTime : Z; as_Argon2idMemoryKib : Z; as_Argon2idParallelism : Z;
  as_FailedAttemptsThreshold : Z; as_TokenLabelRequired : bool; as_AccessCookieName : string; as_RefreshCookieName : string;
  as_RevealDeniedInExplain : bool; as_AccessCookieTtlMs : Z; as_RefreshCookieTtlMs : Z; as_RefreshIdleTtlMs : Z;
  as_FailedAttemptsWindowMs : Z; as_FailedAttemptsBlockMs : Z; as_TokenDefaultTtlMs : Z; as_TokenMaxTtlMs : Z;
}.
Record Listener := mkListener {
  li_UdsPath : string; li_UdsMode : Z; li_TcpBind : string; li_Tls : option (string * string);
  li_MaxBodyBytes : Z; li_TrustedProxies : list string; li_StreamHeartbeatIntervalMs : Z;
}.
Record McpConfig := mkMcp {
  mc_EvalResultMaxBytes : Z; mc_ReadFileMaxBytes : Z; mc_EntitySubscriptionBuffer : Z; mc_TraceSubscriptionBuffer : Z;
  mc_TailDefaultWaitSeconds : Z; mc_TailMaxWaitSeconds : Z;
}.

Record FullConfig := mkFullConfig {
  fc_Snapshot : ConfigSnapshot; fc_Users : list User; fc_Roles : list Role; fc_Policies : list Policy;
  fc_WidgetPackPolicy : PackPolicy; fc_AuthSettings : option AuthSettings; fc_Listener : Listener; fc_Mcp : McpConfig;
}.

Inductive parse_error :=
  | ParseOutput | ParseInstance | ParseAutomation (id : string) (e : decode_error) | ParseScene (id : string) (e : decode_error)
  | ParseAuthSettings (name : string) (e : decode_error).

(** ** Typed fields; [None] is a type error *)

Definition dec_list {A} (dec : json -> option A) (j : json) : option (list A) := l ← dec_raw_list j; mapM dec l.
Definition dec_uint32 : json -> option Z := dec_int 0 (2 ^ 32).

(** [roleJSON] and [roleJSONToProto]; the depth of the value is enough. *)
Fixpoint role_from_json (fuel : nat) (j : json) : option Role :=
  match fuel with
  | O => None
  | S n =>
      m ← as_struct j;
      slug ← get "" dec_string "slug" m;
      display ← get "" dec_string "display_name" m;
      inherits ← get [] dec_raw_list "inherits" m;
      l ← mapM (role_from_json n) inherits;
      Some (mkRole slug display l)
  end.
Definition dec_role (j : json) : option Role := role_from_json (depth j) j.

Definition dec_user (j : json) : option User :=
  m ← as_struct j;
  slug ← get "" dec_string "slug" m;
  display ← get "" dec_string "display_name" m;
  roles ← get [] (dec_list dec_role) "roles" m;
  active ← get false dec_bool "active" m;
  password ← get false dec_bool "password_allowed" m;
  passkey ← get false dec_bool "passkey_allowed" m;
  oidc ← get_ptr dec_string "oidc_subject" m;
  hash ← get_ptr dec_string "bootstrap_password_hash" m;
  Some (mkUser slug display roles active password passkey (default "" oidc) (default "" hash)).

Definition dec_selector (j : json) : option EntitySelector :=
  m ← as_struct j;
  areas ← get [] dec_string_list "areas" m;
  classes ← get [] dec_string_list "classes" m;
  ids ← get [] dec_string_list "entity_ids" m;
  Some (mkSelector areas classes ids).

Definition dec_capability (j : json) : option Capability :=
  m ← as_struct j;
  verbs ← get [] dec_string_list "verbs" m;
  targets ← get (mkSelector [] [] []) dec_selector "targets" m;
  services ← get [] dec_string_list "services" m;
  Some (mkCapability verbs services targets).

Definition dec_policy (j : json) : option Policy :=
  m ← as_struct j;
  name ← get "" dec_string "name" m;
  subjects ← get [] (dec_list dec_role) "subjects" m;
  allow ← get [] (dec_list dec_capability) "allow" m;
  deny ← get [] (dec_list dec_capability) "deny" m;
  Some (mkPolicy name subjects allow deny).

Definition dec_pack_policy (j : json) : option PackPolicy :=
  m ← as_struct j;
  signers ← get [] dec_string_list "allowedSigners" m;
  unsigned ← get false dec_bool "allowUnsigned" m;
  Some (mkPackPolicy signers unsigned).

Definition dec_entity (j : json) : option EntityConfig :=
  m ← as_struct j;
  id ← get "" dec_string "id" m;
  friendly ← get "" dec_string "friendlyName" m;
  type ← get "" dec_string "type" m;
  area ← get "" dec_string "area" m;
  Some (mkEntityConfig id friendly type area).

Definition parseScriptParamType (s : string) : ScriptParam_Type :=
  if String.eqb s "string" then TYPE_STRING
  else if String.eqb s "int" then TYPE_INT
  else if String.eqb s "float" then TYPE_FLOAT
  else if String.eqb s "bool" then TYPE_BOOL
  else if String.eqb s "entity_id" then TYPE_ENTITY_ID
  else TYPE_UNSPECIFIED.

Definition dec_param (j : json) : option ScriptParam :=
  m ← as_struct j;
  name ← get "" dec_string "name" m;
  type ← get "" dec_string "type" m;
  required ← get false dec_bool "required" m;
  dflt ← get "" dec_string "default" m;
  Some (mkScriptParam name (parseScriptParamType type) required dflt).

Definition dec_script (j : json) : option ScriptConfig :=
  m ← as_struct j;
  name ← get "" dec_string "name" m;
  params ← get [] (dec_list dec_param) "params" m;
  handler ← get "" dec_string "handler" m;
  Some (mkScriptConfig (TrimSpace name) params handler).

Definition dec_slug (j : json) : option string := m ← as_struct j; get "" dec_string "slug" m.

(** [authSettingsJSON] before its durations are parsed, with their texts in the
    order in which they are. *)
Definition dec_auth_settings (j : json) : option ((Z -> Z -> Z -> Z -> Z -> Z -> Z -> AuthSettings) * list (string * string)) :=
  m ← as_struct j;
  password ← get false dec_bool "password_login_enabled" m;
  passkey ← get false dec_bool "passkey_login_enabled" m;
  rp ← get "" dec_string "rp_id" m;
  rp_name ← get "" dec_string "rp_display_name" m;
  origins ← get [] dec_string_list "rp_origins" m;
  verification ← get "" dec_string "webauthn_user_verification" m;
  time ← get 0 dec_uint32 "argon2id_time" m;
  memory ← get 0 dec_uint32 "argon2id_memory_kib" m;
  parallelism ← get 0 dec_uint32 "argon2id_parallelism" m;
  threshold ← get 0 dec_uint32 "failed_attempts_threshold" m;
  label ← get false dec_bool "token_label_required" m;
  access ← get "" dec_string "access_cookie_name" m;
  refresh ← get "" dec_string "refresh_cookie_name" m;
  reveal ← get false dec_bool "reveal_denied_in_explain" m;
  d1 ← get "" dec_string "access_cookie_ttl" m;
  d2 ← get "" dec_string "refresh_cookie_ttl" m;
  d3 ← get "" dec_string "refresh_idle_ttl" m;
  d4 ← get "" dec_string "failed_attempts_window" m;
  d5 ← get "" dec_string "failed_attempts_block" m;
  d6 ← get "" dec_string "token_default_ttl" m;
  d7 ← get "" dec_string "token_max_ttl" m;
  Some (mkAuthSettings password passkey rp rp_name origins verification time memory parallelism threshold label access refresh reveal,
        [("access_cookie_ttl", d1); ("refresh_cookie_ttl", d2); ("refresh_idle_ttl", d3); ("failed_attempts_window", d4);
         ("failed_attempts_block", d5); ("token_default_ttl", d6); ("token_max_ttl", d7)]).

Definition dec_tls (j : json) : option (string * string) :=
  m ← as_struct j; cert ← get "" dec_string "certFile" m; key ← get "" dec_string "keyFile" m; Some (cert, key).

(** [listenerJSON], with the text of its heartbeat. *)
Definition dec_listener (j : json) : option ((Z -> Listener) * string) :=
  m ← as_struct j;
  uds ← get ("", 0) (fun j => m ← as_struct j; path ← get "" dec_string "path" m; mode ← get 0 dec_uint32 "mode" m; Some (path, mode)) "uds" m;
  tcp ← get ("", None) (fun j => m ← as_struct j; bind ← get "" dec_string "bind" m; tls ← get_ptr dec_tls "tls" m; Some (bind, tls)) "tcp" m;
  hooks ← get (0, []) (fun j => m ← as_struct j; bytes ← get 0 (dec_int (- 2 ^ 63) (2 ^ 63)) "maxBodyBytes" m;
                                proxies ← get [] dec_string_list "trustedProxies" m; Some (bytes, proxies)) "webhooks" m;
  heartbeat ← get "" dec_string "streamHeartbeatInterval" m;
  Some (mkListener uds.1 uds.2 tcp.1 tcp.2 hooks.1 hooks.2, heartbeat).
Definition listener_zero : (Z -> Listener) * string := (mkListener "" 0 "" None 0 [], "").

Definition dec_mcp (j : json) : option McpConfig :=
  m ← as_struct j;
  a ← get 0 dec_uint32 "evalResultMaxBytes" m; b ← get 0 dec_uint32 "readFileMaxBytes" m;
  c ← get 0 dec_uint32 "entitySubscriptionBuffer" m; d ← get 0 dec_uint32 "traceSubscriptionBuffer" m;
  e ← get 0 dec_uint32 "tailDefaultWaitSeconds" m; f ← get 0 dec_uint32 "tailMaxWaitSeconds" m;
  Some (mkMcp a b c d e f).

Definition dec_area (j : json) : option AreaConfig :=
  match areaFromJSON j with Ok a => Some a | Err _ => None end.

(** ** The configuration *)

Section Parse.
Context (L : JSONLib) (sha256 : string -> string).
(** The texts, as they stand, of the elements of the array "driverInstances". *)
Context (raw_instances : string -> list string).

(** A node whose struct is decoded with the rest and whose raw fields are decoded
    later: a type error of the struct itself is the only error that is not wrapped.
    With the id that the message names. *)
Definition dec_node {A} (dec : json -> result decode_error A) (j : json) : option (string * result decode_error A) :=
  m ← as_struct j;
  id ← get "" dec_string "id" m;
  match dec j with Err JsonError => None | r => Some (id, r) end.

Record configJSON := mkConfigJSON {
  cj_DriverInstances : list string; cj_Areas : list AreaConfig; cj_Entities : list EntityConfig; cj_EntityAreas : gmap string string;
  cj_Automations : list (string * result decode_error AutomationConfig); cj_Scenes : list (string * result decode_error SceneConfig);
  cj_Scripts : list ScriptConfig; cj_Dashboards : list string; cj_Users : list User; cj_Roles : list Role; cj_Policies : list Policy;
  cj_WidgetPackPolicy : PackPolicy;
  cj_AuthSettings : option ((Z -> Z -> Z -> Z -> Z -> Z -> Z -> AuthSettings) * list (string * string));
  cj_Listener : (Z -> Listener) * string; cj_MCP : McpConfig;
}.

(** [json.Unmarshal] into [configJSON]. *)
Definition unmarshal_config (text : string) : option configJSON :=
  j ← Unmarshal L text;
  m ← as_struct j;
  _ ← get [] dec_raw_list "driverInstances" m;
  areas ← get [] (dec_list dec_area) "areas" m;
  entities ← get [] (dec_list dec_entity) "entities" m;
  entityAreas ← get ∅ dec_string_map "entityAreas" m;
  automations ← get [] (dec_list (dec_node (automationFromJSON L))) "automations" m;
  scenes ← get [] (dec_list (dec_node (sceneFromJSON L))) "scenes" m;
  scripts ← get [] (dec_list dec_script) "scripts" m;
  dashboards ← get [] (dec_list dec_slug) "dashboards" m;
  users ← get [] (dec_list dec_user) "users" m;
  roles ← get [] (dec_list dec_role) "roles" m;
  policies ← get [] (dec_list dec_policy) "policies" m;
  packs ← get (mkPackPolicy [] false) dec_pack_policy "widgetPackPolicy" m;
  auth ← get_ptr dec_auth_settings "auth_settings" m;
  listener ← get listener_zero dec_listener "listener" m;
  mcp ← get (mkMcp 0 0 0 0 0 0) dec_mcp "mcp" m;
  Some (mkConfigJSON (raw_instances text) areas entities entityAreas automations scenes scripts dashboards users roles policies
          packs auth listener mcp).

Definition parse_instance (rawInst : string) : result parse_error DriverInstanceConfig :=
  match (j ← Unmarshal L rawInst; m ← as_struct j; id ← get "" dec_string "id" m; name ← get "" dec_string "driverName" m;
         Some (id, name)) with
  | None => Err ParseInstance
  | Some (id, name) => Ok (mkDriverInstance id name (sha256 rawInst) rawInst)
  end.

Definition node_result {A} (wrap : string -> decode_error -> parse_error) (p : string * result decode_error A) : result parse_error A :=
  map_err (wrap p.1) p.2.

(** [json.Marshal] of [dashboardJSON]. *)
Definition dashboard_content (slug : string) : string := Marshal L (JObject [("slug", JString slug)]).

(** [time.Duration.Milliseconds]. *)
Definition Milliseconds (d : Z) : Z := Z.quot d Millisecond.

Definition auth_duration (f : string * string) : result parse_error Z :=
  d ← map_err (ParseAuthSettings f.1) (parsePklDuration L f.2); Ok (Milliseconds d).

Definition finish_auth_settings (p : (Z -> Z -> Z -> Z -> Z -> Z -> Z -> AuthSettings) * list (string * string)) :
    result parse_error AuthSettings :=
  ds ← mapM auth_duration p.2;
  let ms i := nth i ds 0 in
  Ok (p.1 (ms 0%nat) (ms 1%nat) (ms 2%nat) (ms 3%nat) (ms 4%nat) (ms 5%nat) (ms 6%nat)).

(** 30 s when the text is no duration. *)
Definition heartbeat (text : string) : Z :=
  Milliseconds (match parsePklDuration L text with Ok d => d | Err _ => 30 * Second end).

(** At the time [now] in milliseconds. *)
Definition parseConfigJSON (now : Z) (text : string) : result parse_error FullConfig :=
  match unmarshal_config text with
  | None => Err ParseOutput
  | Some raw =>
      instances ← mapM parse_instance (cj_DriverInstances raw);
      automations ← mapM (node_result ParseAutomation) (cj_Automations raw);
      scenes ← mapM (node_result ParseScene) (cj_Scenes raw);
      auth ← (match cj_AuthSettings raw with
              | None => Ok None
              | Some p => a ← finish_auth_settings p; Ok (Some a)
              end);
      Ok (mkFullConfig
            (mkSnapshot now instances (cj_Entities raw) automations scenes (cj_Scripts raw) (cj_Areas raw) (cj_EntityAreas raw)
               ((fun slug => mkDashboardConfig slug (dashboard_content slug)) <$> cj_Dashboards raw))
            (cj_Users raw) (cj_Roles raw) (cj_Policies raw) (cj_WidgetPackPolicy raw) auth
            ((cj_Listener raw).1 (heartbeat (cj_Listener raw).2)) (cj_MCP raw))
  end.

End Parse.

(** ** Rendering

    The JSON that Pkl's renderer writes for a configuration. How numbers and durations
    are written is a parameter, as in [ConfigDecodeFacts]. *)

Section RenderConfig.
Context (L : JSONLib) (sha256 : string -> string) (raw_instances : string -> list string).
Context (number_text : spec_float -> string) (duration_text : Z -> string).

Definition num (z : Z) : json := JNumber (pretty z).
Definition objects {A} (render : A -> json) (l : list A) : json := JArray (map render l).
Definition optional {A} (render : A -> json) (o : option A) : json := match o with Some a => render a | None => JNull end.
(** The text of a number of milliseconds. *)
Definition ms_text (ms : Z) : string := duration_text (ms * Millisecond).

Fixpoint render_role (r : Role) : json :=
  match r with
  | mkRole slug display inherits =>
      JObject [("slug", JString slug); ("display_name", JString display); ("inherits", JArray (map render_role inherits))]
  end.

Definition render_user (u : User) : json :=
  JObject [("slug", JString (us_Slug u)); ("display_name", JString (us_DisplayName u)); ("roles", objects render_role (us_Roles u));
           ("active", JBool (us_Active u)); ("password_allowed", JBool (us_PasswordAllowed u));
           ("passkey_allowed", JBool (us_PasskeyAllowed u)); ("oidc_subject", JString (us_OidcSubject u));
           ("bootstrap_password_hash", JString (us_BootstrapPasswordHash u))].

Definition render_capability (c : Capability) : json :=
  JObject [("verbs", strings (ca_Verbs c));
           ("targets", JObject [("areas", strings (es_Areas (ca_Targets c))); ("classes", strings (es_Classes (ca_Targets c)));
                                ("entity_ids", strings (es_EntityIds (ca_Targets c)))]);
           ("services", strings (ca_Services c))].

Definition render_policy (p : Policy) : json :=
  JObject [("name", JString (po_Name p)); ("subjects", objects render_role (po_Subjects p));
           ("allow", objects render_capability (po_Allow p)); ("deny", objects render_capability (po_Deny p))].

Definition render_pack_policy (p : PackPolicy) : json :=
  JObject [("allowedSigners", strings (pp_AllowedSigners p)); ("allowUnsigned", JBool (pp_AllowUnsigned p))].

Definition render_area (a : AreaConfig) : json :=
  JObject [("id", JString (area_Id a)); ("displayName", JString (area_DisplayName a)); ("parentId", JString (area_ParentId a))].
Definition render_scene (s : SceneConfig) : json :=
  JObject [("id", JString (scene_Id s)); ("displayName", JString (scene_DisplayName s)); ("areaId", JString (scene_AreaId s));
           ("actions", objects (render_action duration_text) (scene_Actions s))].
Definition render_entity (e : EntityConfig) : json :=
  JObject [("id", JString (ec_Id e)); ("friendlyName", JString (ec_FriendlyName e)); ("type", JString (ec_Type e));
           ("area", JString (ec_Area e))].

Definition param_type_text (t : ScriptParam_Type) : string :=
  match t with
  | TYPE_STRING => "string" | TYPE_INT => "int" | TYPE_FLOAT => "float" | TYPE_BOOL => "bool" | TYPE_ENTITY_ID => "entity_id"
  | TYPE_UNSPECIFIED | TYPE_OTHER _ => ""
  end.
Definition render_param (p : ScriptParam) : json :=
  JObject [("name", JString (sp_Name p)); ("type", JString (param_type_text (sp_Type p))); ("required", JBool (sp_Required p));
           ("default", JString (sp_Default p))].
Definition render_script (s : ScriptConfig) : json :=
  JObject [("name", JString (sc_Name s)); ("params", objects render_param (sc_Params s)); ("handler", JString (sc_Handler s))].
Definition render_dashboard (d : DashboardConfig) : json := JObject [("slug", JString (dash_Slug d))].

Definition render_auth_settings (a : AuthSettings) : json :=
  JObject [("password_login_enabled", JBool (as_PasswordLoginEnabled a)); ("passkey_login_enabled", JBool (as_PasskeyLoginEnabled a));
           ("rp_id", JString (as_RpId a)); ("rp_display_name", JString (as_RpDisplayName a)); ("rp_origins", strings (as_RpOrigins a));
           ("webauthn_user_verification", JString (as_UserVerification a)); ("argon2id_time", num (as_Argon2idTime a));
           ("argon2id_memory_kib", num (as_Argon2idMemoryKib a)); ("argon2id_parallelism", num (as_Argon2idParallelism a));
           ("access_cookie_ttl", JString (ms_text (as_AccessCookieTtlMs a))); ("refresh_cookie_ttl", JString (ms_text (as_RefreshCookieTtlMs a)));
           ("refresh_idle_ttl", JString (ms_text (as_RefreshIdleTtlMs a)));
           ("failed_attempts_window", JString (ms_text (as_FailedAttemptsWindowMs a)));
           ("failed_attempts_threshold", num (as_FailedAttemptsThreshold a));
           ("failed_attempts_block", JString (ms_text (as_FailedAttemptsBlockMs a)));
           ("token_default_ttl", JString (ms_text (as_TokenDefaultTtlMs a))); ("token_max_ttl", JString (ms_text (as_TokenMaxTtlMs a)));
           ("token_label_required", JBool (as_TokenLabelRequired a)); ("access_cookie_name", JString (as_AccessCookieName a));
           ("refresh_cookie_name", JString (as_RefreshCookieName a)); ("reveal_denied_in_explain", JBool (as_RevealDeniedInExplain a))].

Definition render_tls (t : string * string) : json := JObject [("certFile", JString t.1); ("keyFile", JString t.2)].
Definition render_listener (l : Listener) : json :=
  JObject [("uds", JObject [("path", JString (li_UdsPath l)); ("mode", num (li_UdsMode l))]);
           ("tcp", JObject [("bind", JString (li_TcpBind l)); ("tls", optional render_tls (li_Tls l))]);
           ("webhooks", JObject [("maxBodyBytes", num (li_MaxBodyBytes l)); ("trustedProxies", strings (li_TrustedProxies l))]);
           ("streamHeartbeatInterval", JString (ms_text (li_StreamHeartbeatIntervalMs l)))].
Definition render_mcp (c : McpConfig) : json :=
  JObject [("evalResultMaxBytes", num (mc_EvalResultMaxBytes c)); ("readFileMaxBytes", num (mc_ReadFileMaxBytes c));
           ("entitySubscriptionBuffer", num (mc_EntitySubscriptionBuffer c));
           ("traceSubscriptionBuffer", num (mc_TraceSubscriptionBuffer c));
           ("tailDefaultWaitSeconds", num (mc_TailDefaultWaitSeconds c)); ("tailMaxWaitSeconds", num (mc_TailMaxWaitSeconds c))].

(** [instances] is the array of the instances, which the driver's own classes render. *)
Definition render_config (instances : list json) (c : FullConfig) : json :=
  let s := fc_Snapshot c in
  JObject [("driverInstances", JArray instances); ("areas", objects render_area (Areas s));
           ("entities", objects render_entity (Entities s)); ("entityAreas", string_object (EntityAreas s));
           ("automations", objects (render_automation number_text duration_text) (Automations s));
           ("scenes", objects render_scene (Scenes s)); ("scripts", objects render_script (Scripts s));
           ("dashboards", objects render_dashboard (Dashboards s)); ("users", objects render_user (fc_Users c));
           ("roles", objects render_role (fc_Roles c)); ("policies", objects render_policy (fc_Policies c));
           ("widgetPackPolicy", render_pack_policy (fc_WidgetPackPolicy c));
           ("auth_settings", optional render_auth_settings (fc_AuthSettings c)); ("listener", render_listener (fc_Listener c));
           ("mcp", render_mcp (fc_Mcp c))].

(** ** What can be rendered: ids without surrounding space, integers of their width,
    durations whose texts read back *)

Definition uint32 (z : Z) : Prop := 0 <= z < 2 ^ 32.
Definition ms_ok (ms : Z) : bool := duration_ok L duration_text (ms * Millisecond).
Definition script_ok (s : ScriptConfig) : Prop :=
  trimmed (sc_Name s) = true /\ Forall (fun p => parseScriptParamType (param_type_text (sp_Type p)) = sp_Type p) (sc_Params s).
Definition scene_ok (s : SceneConfig) : Prop :=
  trimmed (scene_Id s) = true /\ Forall (action_ok L duration_text) (scene_Actions s).
Definition auth_ok (a : AuthSettings) : Prop :=
  Forall uint32 [as_Argon2idTime a; as_Argon2idMemoryKib a; as_Argon2idParallelism a; as_FailedAttemptsThreshold a] /\
  Forall (fun ms => ms_ok ms = true)
    [as_AccessCookieTtlMs a; as_RefreshCookieTtlMs a; as_RefreshIdleTtlMs a; as_FailedAttemptsWindowMs a; as_FailedAttemptsBlockMs a;
     as_TokenDefaultTtlMs a; as_TokenMaxTtlMs a].
Definition listener_ok (l : Listener) : Prop :=
  uint32 (li_UdsMode l) /\ - 2 ^ 63 <= li_MaxBodyBytes l < 2 ^ 63 /\ ms_ok (li_StreamHeartbeatIntervalMs l) = true.
Definition mcp_ok (c : McpConfig) : Prop :=
  Forall uint32 [mc_EvalResultMaxBytes c; mc_ReadFileMaxBytes c; mc_EntitySubscriptionBuffer c; mc_TraceSubscriptionBuffer c;
                 mc_TailDefaultWaitSeconds c; mc_TailMaxWaitSeconds c].

Record config_ok (c : FullConfig) : Prop := mkConfigOk {
  co_areas : Forall (fun a => trimmed (area_Id a) = true) (Areas (fc_Snapshot c));
  co_automations : Forall (automation_ok L number_text duration_text) (Automations (fc_Snapshot c));
  co_scenes : Forall scene_ok (Scenes (fc_Snapshot c));
  co_scripts : Forall script_ok (Scripts (fc_Snapshot c));
  co_dashboards : Forall (fun d => dash_Content d = dashboard_content L (dash_Slug d)) (Dashboards (fc_Snapshot c));
  co_auth : from_option auth_ok True (fc_AuthSettings c);
  co_listener : listener_ok (fc_Listener c);
  co_mcp : mcp_ok (fc_Mcp c);
}.

(** The text of an instance names its id and its driver, and is its parameters. *)
Definition instance_text (di : DriverInstanceConfig) : Prop :=
  di_ConfigHash di = sha256 (di_Params di) /\
  exists m, Unmarshal L (di_Params di) = Some (JObject m) /\
            get "" dec_string "id" m = Some (di_Id di) /\ get "" dec_string "driverName" m = Some (di_DriverName di).

(** ** Round trips of the sections *)

Lemma list_roundtrip {A} (dec : json -> option A) (render : A -> json) (ok : A -> Prop) l :
  (forall a, ok a -> dec (render a) = Some a) -> Forall ok l -> dec_list dec (objects render l) = Some l.
Proof.
  intros Hd Hl. unfold dec_list. cbn. induction Hl as [|a l Ha Hl IH]; [done|]. cbn. by rewrite (Hd a Ha), IH.
Qed.

Lemma list_roundtrip_all {A} (dec : json -> option A) (render : A -> json) l :
  (forall a, dec (render a) = Some a) -> dec_list dec (objects render l) = Some l.
Proof. intros Hd. apply (list_roundtrip dec render (fun _ => True)); [auto|]. by apply Forall_true. Qed.

(** The induction principle of the nested tree. *)
Definition role_ind (P : Role -> Prop) (H : forall s d l, Forall P l -> P (mkRole s d l)) : forall r, P r :=
  fix go r :=
    match r with
    | mkRole s d l =>
        H s d l ((fix all (l : list Role) : Forall P l :=
                    match l with [] => Forall_nil_2 P | r :: l' => Forall_cons_2 P r l' (go r) (all l') end) l)
    end.

Lemma role_roundtrip_fuel r : forall n, (depth (render_role r) <= n)%nat -> role_from_json n (render_role r) = Some r.
Proof.
  induction r as [s d l IH] using role_ind. intros [|n] Hn; [pose proof (depth_pos (render_role (mkRole s d l))); lia|].
  cbn [role_from_json render_role] in *. look_up.
  assert (forall r, r ∈ l -> (depth (render_role r) <= n)%nat) as Hd.
  { intros r Hr. assert (render_role r ∈ map render_role l) as Hm by by apply (list_elem_of_fmap_2 render_role).
    apply depth_elem in Hm. cbn in Hm, Hn. lia. }
  clear Hn. cbn [mbind option_bind]. look_up. cbn [mbind option_bind].
  assert (mapM (role_from_json n) (map render_role l) = Some l) as ->; [|done].
  induction IH as [|r l Hr _ IHl]; [done|]. cbn. rewrite Hr by (apply Hd; left). cbn.
  rewrite IHl; [done|]. intros r' Hr'. apply Hd. by right.
Qed.

Lemma role_roundtrip r : dec_role (render_role r) = Some r.
Proof. by apply role_roundtrip_fuel. Qed.

Ltac read := look_up; cbn [mbind option_bind]; rewrite ?dec_strings; cbn [mbind option_bind].
Ltac read_all := repeat progress read.

Lemma user_roundtrip u : dec_user (render_user u) = Some u.
Proof.
  unfold dec_user, render_user. read_all. rewrite (list_roundtrip_all dec_role render_role) by apply role_roundtrip.
  read_all. by destruct u.
Qed.

Lemma capability_roundtrip c : dec_capability (render_capability c) = Some c.
Proof. unfold dec_capability, render_capability. read_all. unfold dec_selector. read_all. by destruct c as [? ? []]. Qed.

Lemma policy_roundtrip p : dec_policy (render_policy p) = Some p.
Proof.
  unfold dec_policy, render_policy. read_all. rewrite (list_roundtrip_all dec_role render_role) by apply role_roundtrip.
  read_all. rewrite !(list_roundtrip_all dec_capability render_capability) by apply capability_roundtrip.
  read_all. by destruct p.
Qed.

Lemma area_roundtrip a : trimmed (area_Id a) = true -> dec_area (render_area a) = Some a.
Proof.
  intros Ha. unfold dec_area, areaFromJSON, render_area. look_up. unfold get_ptr. look_up.
  rewrite TrimSpace_trimmed by done. by destruct a.
Qed.

Lemma entity_roundtrip e : dec_entity (render_entity e) = Some e.
Proof. unfold dec_entity, render_entity. read_all. by destruct e. Qed.

Lemma script_roundtrip s : script_ok s -> dec_script (render_script s) = Some s.
Proof.
  intros [Hn Hp]. unfold dec_script, render_script. read_all.
  rewrite (list_roundtrip dec_param render_param
             (fun p => parseScriptParamType (param_type_text (sp_Type p)) = sp_Type p)); [|clear; intros p Hp|done].
  - read_all. rewrite TrimSpace_trimmed by done. by destruct s.
  - unfold dec_param, render_param. read_all. rewrite Hp. by destruct p.
Qed.

Lemma scene_decodes s : scene_ok s -> sceneFromJSON L (render_scene s) = Ok s.
Proof.
  intros [Hi Ha]. unfold sceneFromJSON, render_scene, get_ptr. look_up.
  change (objects (render_action duration_text)) with (fun l : list ActionConfig => JArray (render_action duration_text <$> l)).
  look_up. rewrite (decode_all_roundtrip _ _ (render_action duration_text) (action_ok L duration_text));
    [|intros; by apply action_roundtrip_fuel|done].
  cbn. rewrite TrimSpace_trimmed by done. by destruct s.
Qed.

(** A node of a list, as the typed pass leaves it. *)
Lemma node_list_roundtrip {A} (dec : json -> result decode_error A) (render : A -> json) (id : A -> string) ok l :
  (forall a, ok a -> dec (render a) = Ok a) ->
  (forall a, exists m, as_struct (render a) = Some m /\ get "" dec_string "id" m = Some (id a)) -> Forall ok l ->
  dec_list (dec_node dec) (objects render l) = Some ((fun a => (id a, Ok a)) <$> l).
Proof.
  intros Hd Hi Hl. unfold dec_list. cbn.
  assert (forall a, ok a -> dec_node dec (render a) = Some (id a, Ok a)) as Hn.
  { intros a Ha. unfold dec_node. destruct (Hi a) as (m & -> & Hm). cbn. by rewrite Hm, (Hd a Ha). }
  induction Hl as [|a l Ha Hl IH]; [done|]. cbn. rewrite (Hn a Ha). cbn. by rewrite IH.
Qed.

Lemma node_results {A} wrap (id : A -> string) l :
  mapM (node_result wrap) ((fun a => (id a, Ok a)) <$> l) = Ok l.
Proof. induction l as [|a l IH]; [done|]. cbn. by rewrite IH. Qed.

Lemma uint32_roundtrip z : uint32 z -> dec_uint32 (num z) = Some z.
Proof. intros H. unfold uint32 in H. by apply dec_int_pretty. Qed.

Lemma ms_roundtrip name ms : ms_ok ms = true -> auth_duration L (name, ms_text ms) = Ok ms.
Proof.
  intros Hm. unfold auth_duration, ms_text. cbn. rewrite (duration_ok_Ok _ _ _ Hm). cbn.
  f_equal. apply Z.quot_mul. unfold Millisecond. done.
Qed.

Lemma mcp_roundtrip c : mcp_ok c -> dec_mcp (render_mcp c) = Some c.
Proof.
  unfold mcp_ok. rewrite !Forall_cons. intros (? & ? & ? & ? & ? & ? & _). unfold dec_mcp, render_mcp. read_all.
  rewrite !uint32_roundtrip by done. by destruct c.
Qed.

Lemma auth_roundtrip a :
  auth_ok a -> exists p, dec_auth_settings (render_auth_settings a) = Some p /\ finish_auth_settings L p = Ok a.
Proof.
  unfold auth_ok. rewrite !Forall_cons. intros [(? & ? & ? & ? & _) (? & ? & ? & ? & ? & ? & ? & _)].
  eexists. split.
  - unfold dec_auth_settings, render_auth_settings.
    cbv -[dec_uint32 dec_string_list strings num ms_text]. rewrite ?dec_strings, !uint32_roundtrip by done. reflexivity.
  - unfold finish_auth_settings. cbn [snd fst]. cbn [mapM]. rewrite !ms_roundtrip by done. cbn. by destruct a.
Qed.

Lemma listener_roundtrip l :
  listener_ok l -> exists f t, dec_listener (render_listener l) = Some (f, t) /\ f (heartbeat L t) = l.
Proof.
  intros (Hu & Hb & Hh). eexists _, _. split.
  - unfold dec_listener, render_listener. read_all. rewrite uint32_roundtrip by done. read_all.
    assert (get_ptr dec_tls "tls" [("bind", JString (li_TcpBind l)); ("tls", optional render_tls (li_Tls l))] = Some (li_Tls l)) as ->.
    { destruct (li_Tls l) as [[cert key]|]; [|reflexivity]. unfold get_ptr. look_up. unfold optional, render_tls, dec_tls.
      cbn [fst snd]. read_all. reflexivity. }
    read_all. unfold num. rewrite dec_int_pretty by lia. read_all. reflexivity.
  - unfold heartbeat, ms_text. rewrite (duration_ok_Ok _ _ _ Hh). unfold Milliseconds.
    rewrite Z.quot_mul by (unfold Millisecond; lia). by destruct l.
Qed.

Lemma optional_auth o m :
  field "auth_settings" m = Some (optional render_auth_settings o) -> from_option auth_ok True o ->
  exists p, get_ptr dec_auth_settings "auth_settings" m = Some p /\
            match p with None => Ok None | Some q => a ← finish_auth_settings L q; Ok (Some a) end = Ok (E := parse_error) o.
Proof.
  intros Hf Ho. unfold get_ptr. rewrite Hf. destruct o as [a|]; [|by exists None].
  destruct (auth_roundtrip a Ho) as (q & Hq & Ha). exists (Some q). split; [|by rewrite Ha].
  change (Some <$> dec_auth_settings (render_auth_settings a) = Some (Some q)). by rewrite Hq.
Qed.

Lemma instances_parse l :
  Forall instance_text l -> mapM (parse_instance L sha256) (di_Params <$> l) = Ok l.
Proof.
  induction 1 as [|di l (Hh & m & Hu & Hi & Hn) _ IH]; [done|]. cbn [fmap list_fmap mapM].
  rewrite IH. unfold parse_instance.
  unfold mbind, option_bind. rewrite Hu. cbn [as_struct]. rewrite Hi, Hn, <- Hh. by destruct di.
Qed.

Lemma dashboards_roundtrip l :
  Forall (fun d => dash_Content d = dashboard_content L (dash_Slug d)) l ->
  (fun slug => mkDashboardConfig slug (dashboard_content L slug)) <$> (dash_Slug <$> l) = l.
Proof. induction 1 as [|[slug c] l Hd _ IH]; [done|]. cbn in *. by rewrite IH, Hd. Qed.

Lemma slugs_roundtrip l : dec_list dec_slug (objects render_dashboard l) = Some (dash_Slug <$> l).
Proof. unfold dec_list. cbn. induction l as [|d l IH]; [done|]. cbn. by rewrite IH. Qed.

(** The typed pass over a rendered configuration. *)
Lemma unmarshal_rendered text instances c :
  Unmarshal L text = Some (render_config instances c) -> config_ok c ->
  exists auth f t,
    match auth with None => Ok None | Some q => a ← finish_auth_settings L q; Ok (Some a) end = Ok (E := parse_error) (fc_AuthSettings c) /\
    f (heartbeat L t) = fc_Listener c /\
    unmarshal_config L raw_instances text =
      Some (mkConfigJSON (raw_instances text) (Areas (fc_Snapshot c)) (Entities (fc_Snapshot c)) (EntityAreas (fc_Snapshot c))
              ((fun a => (cfg_ID a, Ok a)) <$> Automations (fc_Snapshot c)) ((fun s => (scene_Id s, Ok s)) <$> Scenes (fc_Snapshot c))
              (Scripts (fc_Snapshot c)) (dash_Slug <$> Dashboards (fc_Snapshot c)) (fc_Users c) (fc_Roles c) (fc_Policies c)
              (fc_WidgetPackPolicy c) auth (f, t) (fc_Mcp c)).
Proof.
  intros Hu [Har Hau Hsc Hsr Hd Hat Hl Hm]. destruct (listener_roundtrip _ Hl) as (f & t & Hlis & Hf).
  edestruct (optional_auth (fc_AuthSettings c)) as (p & Hp & Ho); [|done|];
    [instantiate (1 := match render_config instances c with JObject m => m | _ => [] end); reflexivity|].
  exists p, f, t. split; [done|]. split; [done|]. unfold unmarshal_config. rewrite Hu. unfold render_config in *. read_all.
  rewrite (list_roundtrip dec_area render_area _ _ area_roundtrip Har). read_all.
  rewrite (list_roundtrip_all dec_entity render_entity) by apply entity_roundtrip. read_all.
  rewrite dec_string_object. read_all.
  rewrite (node_list_roundtrip (automationFromJSON L) _ cfg_ID (automation_ok L number_text duration_text))
    by (done || apply automation_roundtrip || by eexists). read_all.
  rewrite (node_list_roundtrip (sceneFromJSON L) render_scene scene_Id scene_ok)
    by (done || apply scene_decodes || by eexists). read_all.
  rewrite (list_roundtrip dec_script render_script _ _ script_roundtrip Hsr). read_all.
  rewrite slugs_roundtrip. read_all.
  rewrite (list_roundtrip_all dec_user render_user) by apply user_roundtrip. read_all.
  rewrite (list_roundtrip_all dec_role render_role) by apply role_roundtrip. read_all.
  rewrite (list_roundtrip_all dec_policy render_policy) by apply policy_roundtrip. read_all.
  assert (dec_pack_policy (render_pack_policy (fc_WidgetPackPolicy c)) = Some (fc_WidgetPackPolicy c)) as ->.
  { unfold dec_pack_policy, render_pack_policy. read_all. by destruct (fc_WidgetPackPolicy c). }
  rewrite Hp. read_all. rewrite Hlis. read_all. by rewrite (mcp_roundtrip _ Hm).
Qed.

(** C34. Decoding inverts rendering for a whole configuration: when the configuration's
    output is the JSON of its sections, with every role inherited to any depth, every
    capability rule, script, listener and authentication setting, and every automation
    and scene with its nested conditions and actions, then the snapshot that is parsed
    from it is that configuration. Its ids must carry no surrounding space, its integers
    fit their width, and its durations' texts read back as whole milliseconds. *)
Theorem config_roundtrip text instances c :
  Unmarshal L text = Some (render_config instances c) ->
  raw_instances text = di_Params <$> DriverInstances (fc_Snapshot c) ->
  Forall instance_text (DriverInstances (fc_Snapshot c)) ->
  config_ok c ->
  parseConfigJSON L sha256 raw_instances (EvaluatedAtUnixMs (fc_Snapshot c)) text = Ok c.
Proof.
  intros Hu Hr Hi Hok. destruct (unmarshal_rendered _ _ _ Hu Hok) as (auth & f & t & Ha & Hf & Hx).
  unfold parseConfigJSON. rewrite Hx, Hr. cbn [cj_DriverInstances]. rewrite (instances_parse _ Hi).
  cbn [mbind result_bind cj_Automations cj_Scenes cj_AuthSettings cj_Entities cj_Scripts cj_Areas cj_EntityAreas cj_Dashboards cj_Users
       cj_Roles cj_Policies cj_WidgetPackPolicy cj_Listener cj_MCP fst snd].
  rewrite (node_results _ cfg_ID), (node_results _ scene_Id). cbn [mbind result_bind]. rewrite Ha. cbn [mbind result_bind].
  rewrite dashboards_roundtrip by apply Hok. rewrite Hf. by destruct c as [[] ? ? ? ? ? ? ?].
Qed.

End RenderConfig.

(** ** A configuration *)

Module ParseDemo.

Definition sha256 (s : string) : string := "#" +:+ s.
Definition raw_hue : string := "{id: hue1, driverName: hue}".
Definition hue : json := JObject [("id", JString "hue1"); ("driverName", JString "hue"); ("enabled", JBool true)].
Definition marshal (j : json) : string := match j with JObject [(_, JString s)] => s | _ => "" end.

Definition admin : Role := mkRole "admin" "Administrator" [mkRole "resident" "Resident" [mkRole "guest" "Guest" []]].
Definition house : FullConfig :=
  mkFullConfig
    (mkSnapshot 7 [mkDriverInstance "hue1" "hue" (sha256 raw_hue) raw_hue] [mkEntityConfig "light.hall" "Hall" "light" "hall"]
       [DecodeDemo.evening] [mkSceneConfig "dusk" "Dusk" "hall" [AC_Sequence true [AC_Wait false (90 * Second); AC_Scene false "night"]]]
       [mkScriptConfig "announce" [mkScriptParam "text" TYPE_STRING true ""; mkScriptParam "other" TYPE_UNSPECIFIED false ""] "def main(): pass"]
       [mkAreaConfig "hall" "Hall" ""] {["light.hall" := "hall"]} [mkDashboardConfig "home" "home"])
    [mkUser "ann" "Ann" [admin] true true false "" "hash"] [admin]
    [mkPolicy "residents" [admin] [mkCapability ["read"; "command"] [] (mkSelector ["hall"] [] [])] []]
    (mkPackPolicy ["cosign"] false)
    (Some (mkAuthSettings true false "home" "Home" ["https://home"] "preferred" 3 65536 4 5 true "a" "r" false
             90000 0 90000 90000 0 0 90000))
    (mkListener "/run/s.sock" 432 ":8443" (Some ("c.pem", "k.pem")) 1048576 ["10.0.0.1"] 90000)
    (mkMcp 65536 65536 64 64 5 60).

Definition rendered : json := render_config DecodeDemo.number_text DecodeDemo.duration_text [hue] house.
Definition lib : JSONLib :=
  mkJSONLib (fun s => if String.eqb s "main" then Some rendered else if String.eqb s raw_hue then Some hue else None)
    marshal DecodeDemo.scan DecodeDemo.scan.
Definition raws (s : string) : list string := if String.eqb s "main" then [raw_hue] else [].

Lemma house_ok : config_ok lib DecodeDemo.number_text DecodeDemo.duration_text house.
Proof.
  split; cbn [house fc_Snapshot fc_AuthSettings fc_Listener fc_Mcp Areas Automations Scenes Scripts Dashboards];
    repeat constructor; try (vm_compute; reflexivity); try (cbn; unfold uint32; lia).
Qed.

Lemma config_roundtrip_witness :
  Forall (instance_text lib sha256) (DriverInstances (fc_Snapshot house)) /\
  parseConfigJSON lib sha256 raws 7 "main" = Ok house.
Proof.
  assert (Forall (instance_text lib sha256) (DriverInstances (fc_Snapshot house))) as Hi.
  { constructor; [|constructor]. split; [reflexivity|]. eexists. split; [vm_compute; reflexivity|]. by split. }
  split; [exact Hi|].
  apply (config_roundtrip lib sha256 raws DecodeDemo.number_text DecodeDemo.duration_text "main" [hue] house);
    [reflexivity | reflexivity | exact Hi | exact house_ok].
Defined.

(** What does not parse: a bad token lifetime is an error, a bad heartbeat is 30 s, and a
    missing one is 0. *)
Example bad_token_ttl : auth_duration lib ("token_max_ttl", "10.fortnights") = Err (ParseAuthSettings "token_max_ttl" (UnknownDurationUnit "fortnights")).
Proof. vm_compute. reflexivity. Qed.
Example bad_heartbeat : (heartbeat lib "10.fortnights", heartbeat lib "") = (30000, 0).
Proof. vm_compute. reflexivity. Qed.

End ParseDemo.
