(* ===== verification/ConfigManager.v ===== *)
(** * Applying a configuration

    Models [internal/config/manager.go]: [Validate], [Apply] and
    [registerInstance]. What the manager needs of the driver host is the class
    [CarportManager], the Go interface of that name, with its laws; [Carport]'s
    host is an instance ([host_carport]). The evaluation of the Pkl sources is an
    argument of an apply, and so are the sources of secrets and the order in
    which Go visits the old instances. The event store is any function that
    appends an event. *)

From Stdlib Require Import Ascii String.
From S2P Require Import Prelude Codec Json Events Carport Rules ConfigDecode Config ConfigFacts.

(** ** The interface of the driver host *)

Class CarportManager (S : Type) := {
  cm_register : string -> string -> string -> string -> bool -> LifecycleConfig -> S -> S * option string;
  cm_unregister : string -> S -> S * option string;
  (** The registered instances, and whether the host takes new ones. *)
  cm_table : S -> gmap string Instance_;
  cm_accepting : S -> bool;
}.

Class CarportManagerOk (S : Type) `{!CarportManager S} : Prop := {
  register_ok id driver binary params enabled lc s :
    cm_accepting s = true -> cm_table s !! id = None ->
    exists s', cm_register id driver binary params enabled lc s = (s', None) /\
      cm_table s' = <[id := mkInstance id binary enabled params lc]> (cm_table s) /\ cm_accepting s' = true;
  register_refused id driver binary params enabled lc s :
    cm_accepting s = false \/ is_Some (cm_table s !! id) ->
    exists e, cm_register id driver binary params enabled lc s = (s, Some e);
  unregister_ok id s :
    is_Some (cm_table s !! id) ->
    exists s', cm_unregister id s = (s', None) /\
      cm_table s' = delete id (cm_table s) /\ cm_accepting s' = cm_accepting s;
  unregister_unknown id s : cm_table s !! id = None -> exists e, cm_unregister id s = (s, Some e);
}.

(** ** The manager *)

Record DriverEntry := mkDriverEntry { de_BinaryPath : string; de_LifecycleDefaults : LifecycleOverride }.

(** [current] and [redacted]; nil is [None]. *)
Record Manager := mkManager { current : option ConfigSnapshot; redacted : option ConfigSnapshot }.

Inductive apply_error :=
  | BadMessage (e : SemanticMessageError)
  | EvalFailed (msg : string)
  | CompileErrors (errs : list ValidationError)
  | ResolveFailed (e : secret_error)
  | DriverNotInstalled (name : string)
  | BadOptions (id : string)
  | HostRefused (msg : string)
  | UnregisterFailed (id msg : string)
  | RegisterFailed (id : string) (e : apply_error)
  | UnregisterChangedFailed (id msg : string)
  | ReRegisterFailed (id : string) (e : apply_error)
  | AppendFailed (msg : string).

Section Manager.
Context (L : JSONLib) (registry : gmap string DriverEntry).
Context {S : Type} `{!CarportManager S}.
Context {Log : Type} (append : Event -> Log -> Log * result string Z).

Definition registerInstance (di : DriverInstanceConfig) (s : S) : S * option apply_error :=
  match registry !! di_DriverName di with
  | None => (s, Some (DriverNotInstalled (di_DriverName di)))
  | Some entry =>
      match parseInstanceOptions L (di_Params di) with
      | None => (s, Some (BadOptions (di_Id di)))
      | Some opts =>
          if negb (opt_Enabled opts) then (s, None)
          else
            let lifecycle := MergeLifecycle (de_LifecycleDefaults entry) (opt_Override opts) in
            let '(s', err) := cm_register (di_Id di) (di_DriverName di) (de_BinaryPath entry) (di_Params di)
                                (opt_Enabled opts) lifecycle s in
            (s', HostRefused <$> err)
      end
  end.

(** The instance, or the zero one for the nil pointer of an absent id. *)
Definition findInstance (snap : ConfigSnapshot) (id : string) : DriverInstanceConfig :=
  default (mkDriverInstance "" "" "" "")
    (snd <$> list_find (fun di => di_Id di = id) (DriverInstances snap)).

(** [Validate], on the result of the evaluator: the snapshot and the errors of
    the discovery, or the error of the evaluation. *)
Definition Validate (eval : result string (ConfigSnapshot * list ValidationError)) (order : list string)
    (mgr : Manager) : result apply_error (ConfigSnapshot * ConfigDiff) :=
  match eval with
  | Err msg => Err (EvalFailed msg)
  | Ok (snap, discErrs) =>
      match Compile snap None with
      | [] => Ok (snap, Diff order (current mgr) snap)
      | errs => Err (CompileErrors (discErrs ++ errs))
      end
  end.

(** The three loops of [Apply]. *)
Fixpoint unregister_all (ids : list string) (s : S) : S * option apply_error :=
  match ids with
  | [] => (s, None)
  | id :: ids' =>
      match cm_unregister id s with
      | (s', Some msg) => (s', Some (UnregisterFailed id msg))
      | (s', None) => unregister_all ids' s'
      end
  end.

Fixpoint register_all (snap : ConfigSnapshot) (ids : list string) (s : S) : S * option apply_error :=
  match ids with
  | [] => (s, None)
  | id :: ids' =>
      match registerInstance (findInstance snap id) s with
      | (s', Some e) => (s', Some (RegisterFailed id e))
      | (s', None) => register_all snap ids' s'
      end
  end.

Fixpoint reregister_all (snap : ConfigSnapshot) (ids : list string) (s : S) : S * option apply_error :=
  match ids with
  | [] => (s, None)
  | id :: ids' =>
      match cm_unregister id s with
      | (s', Some msg) => (s', Some (UnregisterChangedFailed id msg))
      | (s', None) =>
          match registerInstance (findInstance snap id) s' with
          | (s'', Some e) => (s'', Some (ReRegisterFailed id e))
          | (s'', None) => reregister_all snap ids' s''
          end
      end
  end.

Definition carport_effects (snap : ConfigSnapshot) (diff : ConfigDiff) (s : S) : S * option apply_error :=
  match unregister_all (DriverInstancesRemoved diff) s with
  | (s1, Some e) => (s1, Some e)
  | (s1, None) =>
      match register_all snap (DriverInstancesAdded diff) s1 with
      | (s2, Some e) => (s2, Some e)
      | (s2, None) => reregister_all snap (DriverInstancesChanged diff) s2
      end
  end.

Definition i32 (z : Z) : Z := (z + 2 ^ 31) `mod` 2 ^ 32 - 2 ^ 31.

Definition applied_event (now : Z) (diff : ConfigDiff) (message : string) : Event :=
  let n {A} (l : list A) := i32 (Z.of_nat (length l)) in
  mkEvent 0 now "config" "" "config.Manager" 0 0
    (Some (Some (Payload_ConfigApplied (n (DriverInstancesAdded diff)) (n (DriverInstancesRemoved diff))
                   (n (DriverInstancesChanged diff)) (i32 (AutomationsChanged diff)) message))).

(** What an apply leaves: the manager, the host, the log, the snapshot the hooks
    were called with (if they were), and the error. *)
Record applied := mkApplied {
  a_mgr : Manager; a_host : S; a_log : Log; a_hooked : option ConfigSnapshot; a_err : option apply_error;
}.

(** [Apply] after [Validate] has returned [snap] and [diff]. *)
Definition apply_validated (message : string) (snap : ConfigSnapshot) (diff : ConfigDiff) (src : SecretSources)
    (now : Z) (mgr : Manager) (s : S) (log : Log) : applied :=
  let red := RedactedSnapshot L snap in
  let '(snap', err) := ResolveSecrets L src snap in
  match err with
  | Some e => mkApplied mgr s log None (Some (ResolveFailed e))
  | None =>
      match carport_effects snap' diff s with
      | (s', Some e) => mkApplied mgr s' log None (Some e)
      | (s', None) =>
          let mgr' := mkManager (Some snap') (Some red) in
          match append (applied_event now diff message) log with
          | (log', Ok _) => mkApplied mgr' s' log' (Some snap') None
          | (log', Err msg) => mkApplied mgr' s' log' None (Some (AppendFailed msg))
          end
      end
  end.

Definition Apply (dryRun : bool) (message : string) (eval : result string (ConfigSnapshot * list ValidationError))
    (order : list string) (src : SecretSources) (now : Z) (mgr : Manager) (s : S) (log : Log) : applied :=
  match NormalizeApplyMessage message with
  | Err e => mkApplied mgr s log None (Some (BadMessage e))
  | Ok message =>
      match Validate eval order mgr with
      | Err e => mkApplied mgr s log None (Some e)
      | Ok (snap, diff) =>
          if dryRun then mkApplied mgr s log None None
          else apply_validated message snap diff src now mgr s log
      end
  end.

End Manager.

(** ** The host of [internal/carport] behind the interface *)

(** [r] is the round in which a shut down instance is caught. *)
#[export] Instance host_carport (r : round) : CarportManager Host := {
  cm_register id driver binary params enabled lc h :=
    match RegisterInstance id binary params enabled lc h with
    | Ok h' => (h', None)
    | Err _ => (h, Some ("cannot register " +:+ id))
    end;
  cm_unregister id h :=
    match UnregisterInstance r id h with
    | Ok (h', _, _) => (h', None)
    | Err _ => (h, Some ("cannot unregister " +:+ id))
    end;
  cm_table h := m_cfg <$> h_instances h;
  cm_accepting h := h_started h && negb (h_stopped h);
}.

#[export] Instance host_carport_ok r : @CarportManagerOk Host (host_carport r).
Proof.
  split; cbn.
  - intros id driver binary params enabled lc h [Hs Hp]%andb_true_iff Hid.
    rewrite lookup_fmap, fmap_None in Hid. unfold RegisterInstance. rewrite Hs, Hid. cbn.
    destruct (h_stopped h) eqn:Hst; [done|]. eexists. split; [done|]. cbn.
    rewrite fmap_insert, Hs, Hst. done.
  - intros id driver binary params enabled lc h Hr. unfold RegisterInstance.
    destruct (h_started h), (h_stopped h); cbn in *; eauto.
    destruct Hr as [?|Hid]; [done|]. rewrite lookup_fmap in Hid.
    destruct (h_instances h !! id); [eauto | by destruct Hid].
  - intros id h Hid. rewrite lookup_fmap in Hid. unfold UnregisterInstance.
    destruct (h_instances h !! id) as [m|]; [|by destruct Hid].
    destruct (shutdownInstance r m). eexists. split; [done|]. cbn. by rewrite fmap_delete.
  - intros id h Hid. rewrite lookup_fmap, fmap_None in Hid. unfold UnregisterInstance. rewrite Hid. eauto.
Qed.

(** ** Correctness of applying a configuration

    What a successful [Apply] leaves at the driver host, proved against the
    interface [CarportManager] and so for the host of [internal/carport]; and
    the state from which no further [Apply] succeeds. *)

Section Facts.
Context (L : JSONLib) (registry : gmap string DriverEntry).
Context {S : Type} `{!CarportManager S, !CarportManagerOk S}.
Context {Log : Type} (append : Event -> Log -> Log * result string Z).

Notation registerInstance := (registerInstance L registry).
Notation register_all := (register_all L registry).
Notation reregister_all := (reregister_all L registry).
Notation carport_effects := (carport_effects L registry).
Notation apply_validated := (apply_validated L registry append).
Notation Apply := (Apply L registry append).

(** ** Single calls *)

(** Unregistering touches one id, and succeeds exactly when it is registered. *)
Lemma unregister_spec id s s' e :
  cm_unregister id s = (s', e) ->
  (forall j, j <> id -> cm_table s' !! j = cm_table s !! j) /\ cm_table s' !! id = None /\
  (e = None <-> is_Some (cm_table s !! id)).
Proof.
  intros Hu. destruct (cm_table s !! id) as [x|] eqn:Hid.
  - destruct (unregister_ok id s) as (s1 & Heq & Ht & _); [by rewrite Hid|]. rewrite Hu in Heq.
    injection Heq as -> ->. rewrite Ht. split_and!; [|by rewrite lookup_delete_eq|by eauto].
    intros j Hj. by rewrite lookup_delete_ne.
  - destruct (unregister_unknown id s Hid) as [e' Heq]. rewrite Hu in Heq. injection Heq as -> ->.
    split_and!; [done|done|]. split; [done | by intros []].
Qed.

(** What an instance runs as; [None] when it is disabled. *)
Definition desired (di : DriverInstanceConfig) : option Instance_ :=
  entry ← registry !! di_DriverName di;
  opts ← parseInstanceOptions L (di_Params di);
  if opt_Enabled opts
  then Some (mkInstance (di_Id di) (de_BinaryPath entry) true (di_Params di)
               (MergeLifecycle (de_LifecycleDefaults entry) (opt_Override opts)))
  else None.

Lemma registerInstance_spec di s s' e :
  registerInstance di s = (s', e) ->
  (forall j, j <> di_Id di -> cm_table s' !! j = cm_table s !! j) /\
  (e = None -> cm_table s' !! di_Id di =
     match desired di with Some i => Some i | None => cm_table s !! di_Id di end) /\
  (e <> None -> cm_table s' = cm_table s).
Proof.
  unfold registerInstance, desired.
  destruct (registry !! di_DriverName di) as [entry|]; [|by intros [= <- <-]].
  destruct (parseInstanceOptions L (di_Params di)) as [opts|]; cbn; [|by intros [= <- <-]].
  destruct (opt_Enabled opts); cbn; [|by intros [= <- <-]].
  set (lc := MergeLifecycle _ _).
  destruct (decide (cm_accepting s = true /\ cm_table s !! di_Id di = None)) as [[Ha Hn]|Hn].
  - destruct (register_ok (di_Id di) (di_DriverName di) (de_BinaryPath entry) (di_Params di) true lc s Ha Hn)
      as (s1 & -> & Ht & _). intros [= <- <-]. rewrite Ht, lookup_insert_eq.
    split_and!; [|done|done]. intros j Hj. by rewrite lookup_insert_ne.
  - destruct (register_refused (di_Id di) (di_DriverName di) (de_BinaryPath entry) (di_Params di) true lc s)
      as [e' ->]; [|by intros [= <- <-]].
    destruct (cm_accepting s); [right|by left]. destruct (cm_table s !! di_Id di); [by eauto|tauto].
Qed.

(** ** The loops *)

Lemma unregister_all_spec l s s' e :
  unregister_all l s = (s', e) ->
  (forall j, j ∉ l -> cm_table s' !! j = cm_table s !! j) /\
  (forall j, cm_table s !! j = None -> cm_table s' !! j = None) /\
  (e = None -> forall j, j ∈ l -> cm_table s' !! j = None /\ is_Some (cm_table s !! j)).
Proof.
  revert s s' e. induction l as [|id l IH]; intros s s' e; cbn [unregister_all].
  { intros [= <- <-]. split_and!; [done|done|]. by intros _ ? ?%not_elem_of_nil. }
  destruct (cm_unregister id s) as [s1 [msg|]] eqn:Hu; apply unregister_spec in Hu as (Hoth & Hid & He).
  - intros [= <- <-]. split_and!; [|intros j Hj; destruct (decide (j = id)); [by subst|by rewrite Hoth]|done].
    intros j Hj. apply Hoth. set_solver.
  - intros (H1 & H2 & H3)%IH. split_and!.
    + intros j [Hne Hj]%not_elem_of_cons. by rewrite H1, Hoth.
    + intros j Hj. apply H2. destruct (decide (j = id)); [by subst | by rewrite Hoth].
    + intros He' j [->|Hj]%elem_of_cons; [split; [by apply H2 | by apply He]|].
      destruct (H3 He' j Hj) as [? Hs]. split; [done|]. destruct (decide (j = id)) as [->|]; [|by rewrite <- Hoth].
      by apply He.
Qed.

(** Every id of the list is found in the snapshot. *)
Definition present (snap : ConfigSnapshot) (l : list string) : Prop := forall id, id ∈ l -> di_Id (findInstance snap id) = id.

Lemma register_all_spec snap l s s' e :
  NoDup l -> present snap l -> register_all snap l s = (s', e) ->
  (forall j, j ∉ l -> cm_table s' !! j = cm_table s !! j) /\
  (e = None -> forall j, j ∈ l -> cm_table s' !! j =
     match desired (findInstance snap j) with Some i => Some i | None => cm_table s !! j end).
Proof.
  revert s s' e. induction l as [|id l IH]; intros s s' e Hnd Hp; cbn [register_all].
  { intros [= <- <-]. split; [done|]. by intros _ ? ?%not_elem_of_nil. }
  apply NoDup_cons in Hnd as [Hid Hnd]. assert (present snap l) as Hp' by (intros j Hj; apply Hp; by right).
  specialize (Hp id (list_elem_of_here _ _)).
  destruct (registerInstance _ s) as [s1 e1] eqn:Hr.
  apply registerInstance_spec in Hr as (Hoth & Hok & _). rewrite Hp in Hoth, Hok. destruct e1 as [e1|].
  - intros [= <- <-]. split; [|done]. intros j [Hj _]%not_elem_of_cons. by apply Hoth.
  - intros [H1 H2]%(IH _ _ _ Hnd Hp'). split.
    + intros j [Hj Hjl]%not_elem_of_cons. rewrite H1 by done. by apply Hoth.
    + intros He j [->|Hj]%elem_of_cons; [rewrite H1 by done; by apply Hok|].
      rewrite (H2 He j Hj), Hoth; [done|]. intros ->. done.
Qed.

Lemma reregister_all_spec snap l s s' e :
  NoDup l -> present snap l -> reregister_all snap l s = (s', e) ->
  (forall j, j ∉ l -> cm_table s' !! j = cm_table s !! j) /\
  (forall j, j ∈ l -> cm_table s !! j = None -> e <> None /\ cm_table s' !! j = None) /\
  (e = None -> forall j, j ∈ l -> cm_table s' !! j = desired (findInstance snap j)).
Proof.
  revert s s' e. induction l as [|id l IH]; intros s s' e Hnd Hp; cbn [reregister_all].
  { intros [= <- <-]. split_and!; [done|by intros ? ?%not_elem_of_nil|]. by intros _ ? ?%not_elem_of_nil. }
  apply NoDup_cons in Hnd as [Hid Hnd]. assert (present snap l) as Hp' by (intros j Hj; apply Hp; by right).
  specialize (Hp id (list_elem_of_here _ _)).
  destruct (cm_unregister id s) as [s1 [msg|]] eqn:Hu; apply unregister_spec in Hu as (Hoth & Hdel & He).
  { intros [= <- <-]. split_and!; [|intros j _ Hj; split; [done|]; destruct (decide (j = id)); [by subst|by rewrite Hoth]|done].
    intros j [Hj _]%not_elem_of_cons. by apply Hoth. }
  destruct (registerInstance _ s1) as [s2 e2] eqn:Hr.
  apply registerInstance_spec in Hr as (Hoth2 & Hok & _). rewrite Hp in Hoth2, Hok.
  assert (forall j, j <> id -> cm_table s2 !! j = cm_table s !! j) as Hoth'.
  { intros j Hj. by rewrite Hoth2, Hoth. }
  assert (cm_table s !! id <> None) as Hreg by (intros Hn; destruct (proj1 He eq_refl); congruence).
  destruct e2 as [e2|].
  - intros [= <- <-]. split_and!; [|intros j Hj Hn; split; [done|]|done].
    + intros j [Hj _]%not_elem_of_cons. by apply Hoth'.
    + rewrite Hoth'; [done|]. by intros ->.
  - intros (H1 & H2 & H3)%(IH _ _ _ Hnd Hp'). split_and!.
    + intros j [Hj Hjl]%not_elem_of_cons. rewrite H1 by done. by apply Hoth'.
    + intros j [->|Hj]%elem_of_cons Hn; [done|]. apply H2; [done|]. rewrite Hoth'; [done|]. by intros ->.
    + intros He' j [->|Hj]%elem_of_cons; [|by apply H3].
      rewrite H1, Hok, Hdel by done. by destruct (desired _).
Qed.

(** ** The effects at the host *)

(** What is registered under an id after the change from [old] to [next]. *)
Definition target (old next : list DriverInstanceConfig) (t : gmap string Instance_) (id : string) : option Instance_ :=
  match inst old id, inst next id with
  | None, None => t !! id
  | Some _, None => None
  | None, Some dj => match desired dj with Some i => Some i | None => t !! id end
  | Some di, Some dj => if decide (di_ConfigHash di = di_ConfigHash dj) then t !! id else desired dj
  end.

Lemma findInstance_inst snap id di : inst (DriverInstances snap) id = Some di -> findInstance snap id = di.
Proof. unfold findInstance, inst. by intros ->. Qed.

Lemma findInstance_id snap id : is_Some (inst (DriverInstances snap) id) -> di_Id (findInstance snap id) = id.
Proof. intros [di Hdi]. rewrite (findInstance_inst _ _ _ Hdi). by apply inst_Some in Hdi as [_ ?]. Qed.

Lemma diff_present old snap d :
  diff_spec old (DriverInstances snap) d ->
  present snap (DriverInstancesAdded d) /\ present snap (DriverInstancesChanged d).
Proof.
  intros Hd. split; intros id Hid; apply findInstance_id.
  - by apply (ds_added _ _ _ Hd) in Hid as [_ ?].
  - apply (ds_changed _ _ _ Hd) in Hid as (di & dj & _ & Hj & _). by exists dj.
Qed.

Lemma carport_effects_success old snap d s s' :
  diff_spec old (DriverInstances snap) d -> carport_effects snap d s = (s', None) ->
  forall id, cm_table s' !! id = target old (DriverInstances snap) (cm_table s) id.
Proof.
  intros Hd He id. pose proof (diff_present _ _ _ Hd) as [Hpa Hpc].
  destruct (ds_nodup _ _ _ Hd) as (Hna & _ & Hnc). unfold carport_effects in He.
  destruct (unregister_all _ s) as [s1 [?|]] eqn:H1; [done|].
  destruct (register_all snap _ s1) as [s2 [?|]] eqn:H2; [done|].
  apply unregister_all_spec in H1 as (H1 & _ & H1'). apply register_all_spec in H2 as (H2 & H2'); [|done..].
  apply reregister_all_spec in He as (H3 & _ & H3'); [|done..].
  pose proof (ds_added _ _ _ Hd id) as Ha. pose proof (ds_removed _ _ _ Hd id) as Hr.
  pose proof (ds_changed _ _ _ Hd id) as Hc. unfold target.
  destruct (inst old id) as [di|] eqn:Ho, (inst (DriverInstances snap) id) as [dj|] eqn:Hn.
  - destruct (decide (di_ConfigHash di = di_ConfigHash dj)) as [Hh|Hh].
    + rewrite H3, H2, H1; [done|..].
      * intros [_ ?]%Hr. done.
      * intros [? _]%Ha. done.
      * intros (?&?&[= <-]&[= <-]&?)%Hc. done.
    + rewrite H3'; [|done|apply Hc; eauto 6]. by rewrite (findInstance_inst _ _ _ Hn).
  - rewrite H3, H2; [apply H1'; [done|]; apply Hr; eauto|..].
    + intros [? _]%Ha. done.
    + intros (?&?&?&?&?)%Hc. done.
  - rewrite H3, H2', (findInstance_inst _ _ _ Hn), H1; [done|..].
    + intros [[? ?] _]%Hr. done.
    + done.
    + apply Ha. eauto.
    + intros (?&?&?&?&?)%Hc. done.
  - rewrite H3, H2, H1; [done|..].
    + intros [[? ?] _]%Hr. done.
    + intros [_ [? ?]]%Ha. done.
    + intros (?&?&?&?&?)%Hc. done.
Qed.

(** An id that has to be unregistered but is not registered stops the effects. *)
Lemma carport_effects_stuck old snap d s s' e id :
  diff_spec old (DriverInstances snap) d -> cm_table s !! id = None ->
  id ∈ DriverInstancesRemoved d \/ id ∈ DriverInstancesChanged d ->
  carport_effects snap d s = (s', e) -> e <> None /\ cm_table s' !! id = None.
Proof.
  intros Hd Hid Hin He. pose proof (diff_present _ _ _ Hd) as [Hpa Hpc].
  destruct (ds_nodup _ _ _ Hd) as (Hna & _ & Hnc).
  assert (id ∉ DriverInstancesAdded d) as Hnot.
  { intros [Ho [dj Hn]]%(ds_added _ _ _ Hd).
    destruct Hin as [[[? ?] ?]%(ds_removed _ _ _ Hd)|(?&?&?&?&?)%(ds_changed _ _ _ Hd)]; congruence. }
  unfold carport_effects in He.
  destruct (unregister_all _ s) as [s1 e1] eqn:H1. apply unregister_all_spec in H1 as (_ & Hk & H1).
  destruct e1 as [e1|]; [injection He as <- <-; split; [done|by apply Hk]|].
  assert (id ∈ DriverInstancesChanged d) as Hch.
  { destruct Hin as [Hin|?]; [|done]. destruct (H1 eq_refl id Hin) as [_ [? ?]]. congruence. }
  destruct (register_all snap _ s1) as [s2 e2] eqn:H2. apply register_all_spec in H2 as (H2 & _); [|done..].
  specialize (H2 id Hnot). rewrite (Hk id Hid) in H2.
  destruct e2 as [e2|]; [by injection He as <- <-|].
  apply reregister_all_spec in He as (_ & H3 & _); [|done..]. by apply H3.
Qed.

(** ** Resolution keeps the identity of the instances *)

Lemma resolve_instances_inst src l l' id :
  resolve_instances L src l = (l', None) ->
  ids l' = ids l /\
  match inst l id with
  | Some di => exists p, inst l' id = Some (with_params p di)
  | None => inst l' id = None
  end.
Proof.
  revert l'. induction l as [|x l IH]; intros l'; cbn [resolve_instances]; [by intros [= <-]|].
  destruct (resolveJSONSecrets L src (di_Params x)) as [p|e]; [|done].
  destruct (resolve_instances L src l) as [rest [e|]]; [done|]. specialize (IH _ eq_refl) as [Hi IH].
  intros [= <-]. unfold ids in *. rewrite !fmap_cons, Hi. split; [done|].
  rewrite !inst_cons. cbn [di_Id with_params]. case_decide; [by eauto | done].
Qed.

Lemma ResolveSecrets_diff src snap snap' old d :
  ResolveSecrets L src snap = (snap', None) ->
  diff_spec old (DriverInstances snap) d -> diff_spec old (DriverInstances snap') d.
Proof.
  unfold ResolveSecrets. destruct (resolve_instances L src (DriverInstances snap)) as [l err] eqn:Hr.
  intros [= <- ->] Hd. pose proof (fun id => proj2 (resolve_instances_inst _ _ _ id Hr)) as Hi.
  split; cbn [DriverInstances with_instances].
  - intros id. rewrite (ds_added _ _ _ Hd). specialize (Hi id). rewrite <- !not_eq_None_Some.
    destruct (inst (DriverInstances snap) id); [destruct Hi as [? ->] | rewrite Hi]; naive_solver.
  - intros id. rewrite (ds_removed _ _ _ Hd). specialize (Hi id).
    destruct (inst (DriverInstances snap) id); [destruct Hi as [? ->] | rewrite Hi]; naive_solver.
  - intros id. rewrite (ds_changed _ _ _ Hd). specialize (Hi id).
    destruct (inst (DriverInstances snap) id); [destruct Hi as [? ->] | rewrite Hi]; naive_solver.
  - apply (ds_nodup _ _ _ Hd).
Qed.

(** ** Apply *)

(** The configured ids are distinct, and [order] lists them. *)
Definition visits (mgr : Manager) (order : list string) : Prop :=
  NoDup (ids (instances_of (current mgr))) /\ order ≡ₚ ids (instances_of (current mgr)).

Lemma Validate_Ok eval order mgr snap d :
  visits mgr order -> Validate eval order mgr = Ok (snap, d) ->
  (exists discErrs, eval = Ok (snap, discErrs)) /\ Compile snap None = [] /\
  diff_spec (instances_of (current mgr)) (DriverInstances snap) d.
Proof.
  intros [Hn Ho]. unfold Validate. destruct eval as [[sn errs]|]; [|done].
  destruct (Compile sn None) eqn:Hc; [|done]. intros [= <- <-]. split_and!; [by eauto|done|].
  apply Diff_correct; [done| |done]. by apply Compile_nil in Hc as [].
Qed.


(** A sequence of applies, with what each of them is given. *)
Record apply_input := mkInput {
  in_message : string; in_eval : result string (ConfigSnapshot * list ValidationError);
  in_order : list string; in_src : SecretSources; in_now : Z;
}.

Fixpoint applies (l : list apply_input) (mgr : Manager) (s : S) (log : Log) :
    list (option apply_error) * Manager * S * Log :=
  match l with
  | [] => ([], mgr, s, log)
  | i :: l' =>
      let r := Apply false (in_message i) (in_eval i) (in_order i) (in_src i) (in_now i) mgr s log in
      let '(errs, mgr', s', log') := applies l' (a_mgr r) (a_host r) (a_log r) in
      (a_err r :: errs, mgr', s', log')
  end.

(** The evaluation does not contain the instance any more, or changed it. *)
Definition drops_or_changes (di : DriverInstanceConfig) (i : apply_input) : Prop :=
  forall snap errs, in_eval i = Ok (snap, errs) ->
  match inst (DriverInstances snap) (di_Id di) with
  | None => True
  | Some dj => di_ConfigHash dj <> di_ConfigHash di
  end.

Lemma apply_stuck mgr s log di i :
  visits mgr (in_order i) -> inst (instances_of (current mgr)) (di_Id di) = Some di ->
  cm_table s !! di_Id di = None -> drops_or_changes di i ->
  let r := Apply false (in_message i) (in_eval i) (in_order i) (in_src i) (in_now i) mgr s log in
  a_err r <> None /\ a_mgr r = mgr /\ cm_table (a_host r) !! di_Id di = None.
Proof.
  intros Hv Hdi Hid Hdrop. unfold Apply. destruct (NormalizeApplyMessage _) as [msg|]; [|done].
  destruct (Validate _ _ _) as [[snap d]|] eqn:Hval; [|done].
  apply Validate_Ok in Hval as ([discErrs Heval] & _ & Hd); [|done]. specialize (Hdrop _ _ Heval).
  unfold apply_validated. destruct (ResolveSecrets L _ snap) as [snap' [e|]] eqn:Hr; [done|].
  pose proof (ResolveSecrets_diff _ _ _ _ _ Hr Hd) as Hd'.
  destruct (carport_effects snap' d s) as [s' e] eqn:He.
  eapply carport_effects_stuck in He as [Hne Hk]; [by destruct e|done|done|].
  rewrite (ds_removed _ _ _ Hd), (ds_changed _ _ _ Hd).
  destruct (inst (DriverInstances snap) (di_Id di)) as [dj|] eqn:Hj; [right|left]; eauto 7.
Qed.

(** C39. An apply can wedge the configuration: once an instance of the current
    configuration is not registered at the host, because it was configured as
    disabled or because an earlier apply unregistered it before failing, every
    later apply that removes or changes that instance fails and leaves the
    current configuration as it was, however many are tried. *)
Theorem apply_wedges (mgr : Manager) (s : S) (log : Log) (di : DriverInstanceConfig) (l : list apply_input) :
  inst (instances_of (current mgr)) (di_Id di) = Some di -> cm_table s !! di_Id di = None ->
  Forall (fun i => visits mgr (in_order i) /\ drops_or_changes di i) l ->
  let '(errs, mgr', _, _) := applies l mgr s log in
  Forall (fun e => e <> None) errs /\ mgr' = mgr.
Proof.
  intros Hdi. revert s log. induction l as [|i l IH]; intros s log Hid Hl; cbn [applies]; [by split|].
  apply Forall_cons in Hl as [[Hv Hdrop] Hl].
  destruct (apply_stuck mgr s log di i Hv Hdi Hid Hdrop) as (He & Hm & Hid').
  rewrite Hm. specialize (IH _ (a_log (Apply false (in_message i) (in_eval i) (in_order i) (in_src i) (in_now i) mgr s log)) Hid' Hl).
  destruct (applies l mgr _ _) as [[[errs mgr'] s'] log']. destruct IH as [IH ->]. split; [by constructor|done].
Qed.

End Facts.

(** ** A concrete host *)

Module ApplyDemo.
Definition hue_params : string := "{enabled}".
Definition mqtt_params : string := "{disabled}".
Definition lib : JSONLib :=
  mkJSONLib (fun s => if String.eqb s hue_params then Some (JObject [("id", JString "hue"); ("enabled", JBool true)])
                      else if String.eqb s mqtt_params then Some (JObject [("id", JString "mqtt"); ("enabled", JBool false)])
                      else None)
    (fun _ => "") (fun _ => None) (fun _ => None).
Definition drivers : gmap string DriverEntry :=
  {["hue" := mkDriverEntry "/drivers/hue" no_override; "mqtt" := mkDriverEntry "/drivers/mqtt" no_override]}.
Definition hue : DriverInstanceConfig := mkDriverInstance "hue" "hue" "h1" hue_params.
Definition mqtt : DriverInstanceConfig := mkDriverInstance "mqtt" "mqtt" "h2" mqtt_params.
Definition snapshot (l : list DriverInstanceConfig) : ConfigSnapshot := mkSnapshot 0 l [] [] [] [] [] ∅ [].
Definition sources : SecretSources := mkSources (fun _ => "") (fun _ => Err "no such file") None.
Definition quiet : round :=
  mkRound true (Err "no socket") None (Err "unreachable") [] true 0 true.
Definition append (e : Event) (log : list Event) : list Event * result string Z :=
  (log ++ [e], Ok (Z.of_nat (length log) + 1)).

Definition host : Host := Host_Start Host_New.
#[local] Instance demo_carport : CarportManager Host := host_carport quiet.

(** Both instances are configured, one of them disabled. *)
Definition first : applied :=
  Apply lib drivers append false "" (Ok (snapshot [hue; mqtt], [])) [] sources 0 (mkManager None None) host [].


(** Dropping the disabled one fails, again and again. *)
Definition drop_mqtt : apply_input := mkInput "" (Ok (snapshot [hue], [])) ["mqtt"; "hue"] sources 0.

Lemma apply_wedges_witness :
  let '(errs, mgr', _, _) := applies lib drivers append [drop_mqtt; drop_mqtt] (a_mgr first) (a_host first) [] in
  Forall (fun e => e <> None) errs /\ mgr' = a_mgr first.
Proof.
  apply (apply_wedges lib drivers append (a_mgr first) (a_host first) [] mqtt).
  - vm_compute. reflexivity.
  - vm_compute. reflexivity.
  - assert (visits (a_mgr first) ["mqtt"; "hue"]) as Hv.
    { split; [apply (bool_decide_unpack _); vm_compute; exact I | apply perm_swap]. }
    assert (drops_or_changes mqtt drop_mqtt) as Hd by (intros snap errs [= <- <-]; vm_compute; exact I).
    exact (Forall_cons_2 _ drop_mqtt _ (conj Hv Hd) (Forall_cons_2 _ drop_mqtt _ (conj Hv Hd) (Forall_nil_2 _))).
Defined.
End ApplyDemo.
