(* ===== verification/ConfigReload.v ===== *)
(** * Reload requests and change notifications

    Models [internal/config/pubsub.go] and [reloader.go]. The broker's channels
    are a heap of queues, because a subscriber keeps its channel after it has
    unsubscribed; a channel also records, for stating what was delivered, what
    was published to it and what was received from it. The reloader is a step
    relation: the goroutine of [loop] at its blocking points, and callers of
    [Trigger] between their two critical sections. *)

From Stdlib Require Import Ascii String.
From S2P Require Import Prelude.

(** ** The broker *)

Record ConfigChangedEvent := mkChanged { AtUnixMs : Z; BundleHash : string }.

Record channel := mkChannel {
  ch_queue : list ConfigChangedEvent;
  ch_closed : bool;
  ch_published : list ConfigChangedEvent;
  ch_received : list ConfigChangedEvent;
}.

(** The map [subs] is the set of subscribed channels. *)
Record ConfigPubsub := mkPubsub { bufSize : nat; chans : list channel; subs : gset nat }.

Definition NewConfigPubsub (size : Z) : ConfigPubsub :=
  mkPubsub (Z.to_nat (if size <=? 0 then 16 else size)) [] ∅.

Definition Subscribe (p : ConfigPubsub) : ConfigPubsub * nat :=
  (mkPubsub (bufSize p) (chans p ++ [mkChannel [] false [] []]) ({[length (chans p)]} ∪ subs p), length (chans p)).

Definition close_channel (c : channel) : channel := mkChannel (ch_queue c) true (ch_published c) (ch_received c).

(** The function [Subscribe] returns; closing twice would panic. *)
Definition unsubscribe (s : nat) (p : ConfigPubsub) : ConfigPubsub :=
  if decide (s ∈ subs p) then mkPubsub (bufSize p) (alter close_channel s (chans p)) (subs p ∖ {[s]}) else p.

(** The loop of [Publish] for one subscriber: send, or drop the oldest event
    and try again. *)
Fixpoint publish_loop (fuel cap : nat) (ev : ConfigChangedEvent) (q : list ConfigChangedEvent) : list ConfigChangedEvent :=
  match fuel with
  | O => q
  | S n => if (length q <? cap)%nat then q ++ [ev]
           else match q with
                | [] => q
                | _ :: q' => publish_loop n cap ev q'
                end
  end.

(** One send and one drop per event queued beyond the capacity, at most. *)
Definition publish_one (cap : nat) (ev : ConfigChangedEvent) (c : channel) : channel :=
  mkChannel (publish_loop (S (length (ch_queue c))) cap ev (ch_queue c)) (ch_closed c)
    (ch_published c ++ [ev]) (ch_received c).

Definition Publish (ev : ConfigChangedEvent) (p : ConfigPubsub) : ConfigPubsub :=
  mkPubsub (bufSize p)
    (imap (fun i c => if decide (i ∈ subs p) then publish_one (bufSize p) ev c else c) (chans p)) (subs p).

(** A receive by the holder of a channel; nothing happens when it is empty. *)
Definition receive_one (c : channel) : channel :=
  match ch_queue c with
  | [] => c
  | ev :: q => mkChannel q (ch_closed c) (ch_published c) (ch_received c ++ [ev])
  end.
Definition Receive (s : nat) (p : ConfigPubsub) : ConfigPubsub :=
  mkPubsub (bufSize p) (alter receive_one s (chans p)) (subs p).

Inductive pubsub_op :=
  | OpSubscribe | OpUnsubscribe (s : nat) | OpPublish (ev : ConfigChangedEvent) | OpReceive (s : nat).

Definition pubsub_step (p : ConfigPubsub) (o : pubsub_op) : ConfigPubsub :=
  match o with
  | OpSubscribe => (Subscribe p).1
  | OpUnsubscribe s => unsubscribe s p
  | OpPublish ev => Publish ev p
  | OpReceive s => Receive s p
  end.

(** *** What a subscriber sees *)

(** [cap] is positive: the queue is within bounds; what was received and what is
    queued are published events in order, and the newest one is among them. *)
Record channel_ok (cap : nat) (c : channel) : Prop := {
  co_bound : (length (ch_queue c) <= cap)%nat;
  co_order : ch_received c ++ ch_queue c `sublist_of` ch_published c;
  co_newest : last (ch_received c ++ ch_queue c) = last (ch_published c);
}.

Lemma publish_loop_spec fuel cap ev q :
  (0 < cap)%nat -> (length q < fuel)%nat ->
  exists dropped q', q = dropped ++ q' /\ publish_loop fuel cap ev q = q' ++ [ev] /\
    (length q' < cap)%nat.
Proof.
  intros Hcap. revert q. induction fuel as [|n IH]; intros q Hq; cbn [publish_loop]; [lia|].
  destruct (Nat.ltb_spec (length q) cap).
  - exists [], q. by split_and!.
  - destruct q as [|x q]; [cbn in *; lia|].
    destruct (IH q) as (d & q' & -> & Hp & Hl); [cbn in *; lia|]. exists (x :: d), q'.
    by split_and!.
Qed.

Lemma publish_one_ok cap ev c : (0 < cap)%nat -> channel_ok cap c -> channel_ok cap (publish_one cap ev c).
Proof.
  intros Hcap [Hb Ho Hn]. unfold publish_one.
  destruct (publish_loop_spec (S (length (ch_queue c))) cap ev (ch_queue c)) as (d & q' & Hq & -> & Hl); [done|lia|].
  split; cbn.
  - rewrite length_app. cbn. lia.
  - rewrite (assoc_L (++)). apply sublist_app; [|done]. etrans; [|exact Ho]. rewrite Hq.
    apply sublist_app; [done|]. by apply sublist_inserts_l.
  - by rewrite (assoc_L (++)), !last_snoc.
Qed.

Lemma receive_one_ok cap c : channel_ok cap c -> channel_ok cap (receive_one c).
Proof.
  intros [Hb Ho Hn]. unfold receive_one. destruct (ch_queue c) as [|ev q] eqn:Hq; [by split; rewrite ?Hq|].
  split; cbn in *; [lia| |]; by rewrite <- (assoc_L (++)).
Qed.

Lemma pubsub_run_ok p ops :
  (0 < bufSize p)%nat -> Forall (channel_ok (bufSize p)) (chans p) ->
  let p' := foldl pubsub_step p ops in
  bufSize p' = bufSize p /\ Forall (channel_ok (bufSize p)) (chans p').
Proof.
  revert p. induction ops as [|o ops IH]; intros p Hb Hp; [done|]. cbn [foldl].
  enough (bufSize (pubsub_step p o) = bufSize p /\ Forall (channel_ok (bufSize p)) (chans (pubsub_step p o))) as [He Hs].
  { specialize (IH (pubsub_step p o)). rewrite He in IH. by apply IH. }
  destruct o as [|s|ev|s]; cbn.
  - split; [done|]. apply Forall_app. split; [done|]. constructor; [|constructor]. split; cbn; [lia|done|done].
  - unfold unsubscribe. case_decide; [|done]. split; [done|]. apply Forall_alter; [done|]. by intros c ? [].
  - split; [done|]. apply Forall_lookup. intros i c. rewrite list_lookup_imap, fmap_Some. intros (c0 & Hc & ->).
    rewrite Forall_lookup in Hp. specialize (Hp _ _ Hc). case_decide; [by apply publish_one_ok | done].
  - split; [done|]. apply Forall_alter; [done|]. intros c ? Hc. by apply receive_one_ok.
Qed.

(** Slow subscribers lose old events, never the newest: whatever the
    interleaving of subscriptions, publications, receives and unsubscriptions, a
    subscriber's buffer stays within its bound, what it has received and will
    receive are events published to it in their order, and the last of them is
    the last one published. *)
Theorem pubsub_keeps_newest (size : Z) (ops : list pubsub_op) (c : channel) :
  c ∈ chans (foldl pubsub_step (NewConfigPubsub size) ops) ->
  (length (ch_queue c) <= bufSize (NewConfigPubsub size))%nat /\
  ch_received c ++ ch_queue c `sublist_of` ch_published c /\
  last (ch_received c ++ ch_queue c) = last (ch_published c).
Proof.
  intros Hc. destruct (pubsub_run_ok (NewConfigPubsub size) ops) as [_ Hok].
  - unfold NewConfigPubsub. cbn. destruct (Z.leb_spec size 0); lia.
  - constructor.
  - rewrite Forall_forall in Hok. by destruct (Hok c Hc).
Qed.

Lemma pubsub_keeps_newest_witness :
  exists c, c ∈ chans (foldl pubsub_step (NewConfigPubsub 1)
                         [OpSubscribe; OpPublish (mkChanged 1 "a"); OpPublish (mkChanged 2 "b")]) /\
    last (ch_received c ++ ch_queue c) = last (ch_published c).
Proof.
  eexists. split; [left|].
  eapply (pubsub_keeps_newest 1 [OpSubscribe; OpPublish (mkChanged 1 "a"); OpPublish (mkChanged 2 "b")]). left.
Defined.

(** ** The reloader *)

(** The blocking points of [loop]: waiting for a signal, waiting for the timer,
    about to drain the signal, about to take the pending requests, applying on
    behalf of a source, and returned. *)
Inductive loop_pc := LWait | LTimer | LDrain | LTake | LApply (source : string) | LDone.

#[export] Instance loop_pc_eq_dec : EqDecision loop_pc.
Proof. solve_decision. Defined.

(** [signalling] counts the calls of [Trigger] that have appended their source
    and not yet signalled. *)
Record Reloader := mkReloader {
  pending : list string;
  lastErr : string;
  signal : bool;
  pc : loop_pc;
  signalling : nat;
}.

Definition NewReloader : Reloader := mkReloader [] "" false LWait 0.

(** The two halves of [Trigger]. *)
Definition trigger_append (source : string) (r : Reloader) : Reloader :=
  mkReloader (pending r ++ [source]) (lastErr r) (signal r) (pc r) (S (signalling r)).
Definition trigger_signal (r : Reloader) : Reloader :=
  mkReloader (pending r) (lastErr r) true (pc r) (pred (signalling r)).

(** [case <-r.signal] at the head of the loop. *)
Definition loop_receive (r : Reloader) : Reloader :=
  mkReloader (pending r) (lastErr r) false LTimer (signalling r).
(** [case <-timer.C]. *)
Definition loop_timer (r : Reloader) : Reloader :=
  mkReloader (pending r) (lastErr r) (signal r) LDrain (signalling r).
(** [select { case <-r.signal: default: }]. *)
Definition loop_drain (r : Reloader) : Reloader :=
  mkReloader (pending r) (lastErr r) false LTake (signalling r).
(** [sources := r.pending; r.pending = nil]. *)
Definition loop_take (r : Reloader) : Reloader :=
  mkReloader [] (lastErr r) (signal r) (LApply (default "unknown" (head (pending r)))) (signalling r).
(** [Apply] has returned. *)
Definition loop_applied (err : option string) (r : Reloader) : Reloader :=
  mkReloader (pending r) (default "" err) (signal r) LWait (signalling r).
(** [case <-ctx.Done()]. *)
Definition loop_cancel (r : Reloader) : Reloader :=
  mkReloader (pending r) (lastErr r) (signal r) LDone (signalling r).

Inductive reload_step : Reloader -> Reloader -> Prop :=
  | RS_Append source r : reload_step r (trigger_append source r)
  | RS_Signal r : (0 < signalling r)%nat -> reload_step r (trigger_signal r)
  | RS_Receive r : pc r = LWait -> signal r = true -> reload_step r (loop_receive r)
  | RS_Timer r : pc r = LTimer -> reload_step r (loop_timer r)
  | RS_Drain r : pc r = LDrain -> reload_step r (loop_drain r)
  | RS_Take r : pc r = LTake -> reload_step r (loop_take r)
  | RS_Applied source err r : pc r = LApply source -> reload_step r (loop_applied err r)
  | RS_Cancel r : pc r = LWait \/ pc r = LTimer -> reload_step r (loop_cancel r).

(** The steps of the goroutine and of calls of [Trigger] under way, without new
    calls and without cancellation. *)
Inductive internal_step : Reloader -> Reloader -> Prop :=
  | IS_Signal r : (0 < signalling r)%nat -> internal_step r (trigger_signal r)
  | IS_Receive r : pc r = LWait -> signal r = true -> internal_step r (loop_receive r)
  | IS_Timer r : pc r = LTimer -> internal_step r (loop_timer r)
  | IS_Drain r : pc r = LDrain -> internal_step r (loop_drain r)
  | IS_Take r : pc r = LTake -> internal_step r (loop_take r)
  | IS_Applied source err r : pc r = LApply source -> internal_step r (loop_applied err r).

(** A request is never forgotten: while one is pending, the loop has yet to take
    it in this round, or a signal is there or on its way. *)
Definition no_lost_request (r : Reloader) : Prop :=
  pending r = [] \/ pc r = LTimer \/ pc r = LDrain \/ pc r = LTake \/ signal r = true \/ (0 < signalling r)%nat \/ pc r = LDone.

Lemma no_lost_request_step r r' : reload_step r r' -> no_lost_request r -> no_lost_request r'.
Proof.
  unfold no_lost_request. intros Hs Hr. destruct Hs; cbn; try tauto.
  - right. right. right. right. right. left. lia.
  - destruct Hr as [?|[?|[?|[?|[?|[?|?]]]]]]; try congruence; tauto.
Qed.

Lemma no_lost_request_reachable r : rtc reload_step NewReloader r -> no_lost_request r.
Proof.
  intros Hr. enough (forall r0, rtc reload_step r0 r -> no_lost_request r0 -> no_lost_request r) as H
    by (apply (H NewReloader); [done | by left]).
  clear Hr. induction 1; [done|]. intros H1. apply IHrtc. by eapply no_lost_request_step.
Qed.

(** How many internal steps remain until the loop takes the requests. *)
Definition distance (r : Reloader) : nat :=
  (match pc r with
   | LTake => 1 | LDrain => 2 | LTimer => 3 | LWait => 4 | LApply _ => 5 | LDone => 0
   end)%nat.

(** From a pending request, every state has an internal step that is closer to
    the take, or signals. *)
Lemma reload_reaches_take n r :
  (distance r + signalling r <= n)%nat -> no_lost_request r -> pending r <> [] -> pc r <> LDone ->
  exists k r', (k <= n)%nat /\ nsteps internal_step k r r' /\
    pending r' = [] /\ pc r' = LApply (default "unknown" (head (pending r))).
Proof.
  revert r. induction n as [|n IH]; intros r Hn Hl Hp Hd.
  { destruct (pc r) eqn:Hpc; unfold distance in Hn; rewrite Hpc in Hn; by (lia || destruct Hd). }
  assert (forall r1, internal_step r r1 -> (distance r1 + signalling r1 < distance r + signalling r)%nat ->
            no_lost_request r1 -> pending r1 = pending r -> pc r1 <> LDone ->
            exists k r', (k <= S n)%nat /\ nsteps internal_step k r r' /\
              pending r' = [] /\ pc r' = LApply (default "unknown" (head (pending r)))) as Hstep.
  { intros r1 Hs Hdist Hl1 Hp1 Hd1. destruct (IH r1) as (k & r' & Hk & Hst & Hpr & Hpc); [lia|done|congruence|done|].
    exists (S k), r'. rewrite <- Hp1. split_and!; [lia|by econstructor|done|done]. }
  destruct (pc r) as [| | | |source|] eqn:Hpc; unfold distance in *; rewrite Hpc in Hn; [| | | | |done].
  - destruct (signal r) eqn:Hsig.
    + apply (Hstep (loop_receive r)); [by constructor|rewrite Hpc; cbn; lia|right; by left|done|done].
    + destruct Hl as [?|[?|[?|[?|[?|[Hs|?]]]]]]; try congruence.
      apply (Hstep (trigger_signal r)); [by constructor|rewrite Hpc; cbn; rewrite Hpc; lia| |done|cbn; congruence].
      do 4 right. by left.
  - apply (Hstep (loop_timer r)); [by constructor|rewrite Hpc; cbn; lia|do 2 right; by left|done|done].
  - apply (Hstep (loop_drain r)); [by constructor|rewrite Hpc; cbn; lia|do 3 right; by left|done|done].
  - exists 1%nat, (loop_take r). split_and!; [lia| |done|done].
    econstructor; [by apply IS_Take|constructor].
  - apply (Hstep (loop_applied None r)); [by econstructor|rewrite Hpc; cbn; lia| |done|done].
    destruct Hl as [?|[?|[?|[?|[?|[?|?]]]]]]; try congruence; [do 4 right; by left|do 5 right; by left].
Qed.

(** No reload request is lost: in every reachable state of the reloader with
    a pending request whose loop has not been cancelled, the loop and the
    triggers under way reach, within five steps of the loop and one per trigger,
    an apply that starts after having taken every request that was pending, on
    behalf of the oldest. *)
Theorem reload_request_served (r : Reloader) :
  rtc reload_step NewReloader r -> pending r <> [] -> pc r <> LDone ->
  exists k r', (k <= 5 + signalling r)%nat /\ nsteps internal_step k r r' /\
    pending r' = [] /\ pc r' = LApply (default "unknown" (head (pending r))).
Proof.
  intros Hr%no_lost_request_reachable Hp Hd. apply reload_reaches_take; try done.
  unfold distance. destruct (pc r); lia.
Qed.

Lemma reload_request_served_witness :
  let r := trigger_append "rpc" (trigger_append "form" NewReloader) in
  rtc reload_step NewReloader r /\
  exists k r', (k <= 5 + signalling r)%nat /\ nsteps internal_step k r r' /\ pending r' = [] /\ pc r' = LApply "form".
Proof.
  intros r.
  assert (rtc reload_step NewReloader r) as Hr.
  { eapply rtc_l; [apply (RS_Append "form")|]. eapply rtc_l; [apply (RS_Append "rpc")|]. apply rtc_refl. }
  split; [exact Hr|]. apply (reload_request_served r Hr); discriminate.
Defined.
