(* ===== verification/Paths.v ===== *)
(** * File paths

    What the sources use of [path/filepath] on Unix: [Clean], [Join], [IsAbs],
    [Rel] and [Ext]. A cleaned path is a flag for the leading slash and
    the list of its elements. *)

From Stdlib Require Import Ascii String.
From S2P Require Import Prelude Codec.

Fixpoint join_slash (l : list string) : string :=
  match l with
  | [] => EmptyString
  | [x] => x
  | x :: l' => x +:+ String "/" (join_slash l')
  end.

Definition IsAbs (path : string) : bool := has_prefix path "/".

(** One element: empty elements and dots vanish, a double dot takes the previous
    element away if there is one. The stack is reversed. *)
Definition push_elem (rooted : bool) (stack : list string) (c : string) : list string :=
  if is_empty c || String.eqb c "." then stack
  else if String.eqb c ".." then
    match stack with
    | [] => if rooted then [] else [".."]
    | x :: stack' => if String.eqb x ".." then ".." :: stack else stack'
    end
  else c :: stack.

(** The elements of the cleaned path. *)
Definition elems (path : string) : list string :=
  rev (foldl (push_elem (IsAbs path)) [] (Split "/" path)).

(** The text of a cleaned path. *)
Definition path_text (rooted : bool) (l : list string) : string :=
  if rooted then String "/" (join_slash l)
  else match l with [] => "." | _ => join_slash l end.

(** [filepath.Clean]. *)
Definition Clean (path : string) : string := path_text (IsAbs path) (elems path).

(** [filepath.Join] of two elements: empty ones are ignored. *)
Definition Join (a b : string) : string :=
  if is_empty a then (if is_empty b then "" else Clean b)
  else if is_empty b then Clean a
  else Clean (a +:+ String "/" b).

(** [filepath.Join] of any number of elements. *)
Definition Join_list (l : list string) : string :=
  match filter (fun x => x <> "") l with
  | [] => ""
  | l' => Clean (join_slash l')
  end.

(** What is left of two lists after their common beginning. *)
Fixpoint strip_common (a b : list string) : list string * list string :=
  match a, b with
  | x :: a', y :: b' => if String.eqb x y then strip_common a' b' else (a, b)
  | _, _ => (a, b)
  end.

(** [filepath.Rel] with an absolute target; [None] is its error. *)
Definition Rel (base targ : string) : option string :=
  if String.eqb (Clean targ) (Clean base) then Some "."
  else if negb (Bool.eqb (IsAbs base) (IsAbs targ)) then None
  else
    let '(b, t) := strip_common (elems base) (elems targ) in
    match b, t with
    | x :: _, _ :: _ => if String.eqb x ".." then None else Some (join_slash ((const ".." <$> b) ++ t))
    | _, _ => Some (join_slash ((const ".." <$> b) ++ t))
    end.

(** [filepath.Ext]: from the last dot of the last element. *)
Fixpoint ext_go (s : string) : option string :=
  match s with
  | EmptyString => None
  | String c s' => match ext_go s' with
                   | Some e => Some e
                   | None => if Ascii.eqb c "." then Some s else None
                   end
  end.
Definition last_elem (path : string) : string := default "" (last (Split "/" path)).
Definition Ext (path : string) : string := default "" (ext_go (last_elem path)).

(** ** Lemmas *)

Definition no_slash (x : string) : Prop := lacks "/" x.

Lemma Split_join l : l <> [] -> Forall no_slash l -> Split "/" (join_slash l) = l.
Proof.
  intros Hne Hl. induction Hl as [|x l Hx Hl IH]; [done|]. destruct l as [|y l].
  - by apply Split_last.
  - change (join_slash (x :: y :: l)) with (x +:+ String "/" (join_slash (y :: l))).
    rewrite Split_cut by done. by rewrite IH.
Qed.

Lemma Split_no_slash s : Forall no_slash (Split "/" s).
Proof.
  unfold Split. remember (String.length s) as n eqn:Hn. assert (String.length s <= n)%nat as Hle by lia. clear Hn.
  revert s Hle. induction n as [|n IH]; intros s Hle.
  { destruct s; [|cbn in Hle; lia]. cbn. constructor; [apply not_elem_of_nil|constructor]. }
  rewrite SplitN_SS. destruct (cut "/" s) as [[a b]|] eqn:Hc.
  - apply cut_sound in Hc as [-> Ha]. constructor; [done|]. apply IH.
    rewrite str_length_app in Hle. cbn in Hle. lia.
  - constructor; [|constructor]. unfold no_slash, lacks. intros Hin.
    apply list_elem_of_split in Hin as (l1 & l2 & Hs).
    assert (forall l1 s, list_ascii_of_string s = l1 ++ "/"%char :: l2 -> cut "/" s <> None) as H.
    { clear. induction l1 as [|d l1 IH]; intros s Hs; destruct s as [|c s]; try done; injection Hs as -> Hs; cbn.
      - done.
      - case_match; [done|]. specialize (IH _ Hs). destruct (cut "/" s) as [[]|]; done. }
    by apply (H l1 s).
Qed.

(** A plain element: what [push_elem] keeps and never takes as special. *)
Definition plain (c : string) : Prop := c <> "" /\ c <> "." /\ c <> ".." /\ no_slash c.

Lemma push_plain rooted stack c : plain c -> push_elem rooted stack c = c :: stack.
Proof.
  intros (H1 & H2 & H3 & _). unfold push_elem, is_empty.
  by rewrite (proj2 (String.eqb_neq c "") H1), (proj2 (String.eqb_neq c ".") H2), (proj2 (String.eqb_neq c "..") H3).
Qed.

Lemma foldl_push_plain rooted l stack : Forall plain l -> foldl (push_elem rooted) stack l = rev l ++ stack.
Proof.
  intros Hl. revert stack. induction Hl as [|c l Hc Hl IH]; intros stack; [done|].
  cbn [foldl rev]. rewrite push_plain, IH by done. by rewrite <- app_assoc.
Qed.

(** A cleaned stack: plain elements over double dots, none of them if rooted. *)
Definition clean_stack (rooted : bool) (stack : list string) : Prop :=
  exists ps n, stack = ps ++ replicate n ".." /\ Forall plain ps /\ (rooted = true -> n = 0%nat).

Lemma push_clean rooted stack c : clean_stack rooted stack -> no_slash c -> clean_stack rooted (push_elem rooted stack c).
Proof.
  intros (ps & n & -> & Hps & Hn) Hc. unfold push_elem, is_empty.
  destruct (String.eqb_spec c ""); [by exists ps, n|]. destruct (String.eqb_spec c "."); [by exists ps, n|]. cbn [orb].
  destruct (String.eqb_spec c "..") as [->|].
  - destruct ps as [|x ps]; cbn [app].
    + destruct n as [|n]; cbn [replicate].
      * destruct rooted; [by exists [], 0%nat | by exists [], 1%nat].
      * rewrite String.eqb_refl. exists [], (S (S n)). split_and!; [done|done|]. by intros ?%Hn.
    + apply Forall_cons in Hps as [Hx Hps]. destruct (String.eqb_spec x ".."); [by destruct Hx as (_&_&?&_)|].
      by exists ps, n.
  - exists (c :: ps), n. split_and!; [done| |done]. by constructor.
Qed.

Lemma foldl_push_clean rooted l stack :
  clean_stack rooted stack -> Forall no_slash l -> clean_stack rooted (foldl (push_elem rooted) stack l).
Proof.
  intros Hs Hl. revert stack Hs. induction Hl as [|c l Hc Hl IH]; intros stack Hs; [done|].
  cbn [foldl]. by apply IH, push_clean.
Qed.

(** The elements of a path: double dots, then plain elements. *)
Lemma elems_shape path :
  exists n ps, elems path = replicate n ".." ++ ps /\ Forall plain ps /\ (IsAbs path = true -> n = 0%nat).
Proof.
  unfold elems.
  destruct (foldl_push_clean (IsAbs path) (Split "/" path) []) as (ps & n & -> & Hps & Hn).
  - by exists [], 0%nat.
  - apply Split_no_slash.
  - exists n, (rev ps). split_and!; [|by apply Forall_rev|done].
    rewrite rev_app_distr. f_equal. clear. induction n as [|n IH]; [done|]. cbn. rewrite IH.
    clear. induction n as [|n IH]; [done|]. cbn. by rewrite IH.
Qed.

Lemma Split_app a b : Split "/" (a +:+ String "/" b) = Split "/" a ++ Split "/" b.
Proof.
  remember (String.length a) as n eqn:Hn. assert (String.length a <= n)%nat as Hle by lia. clear Hn.
  revert a Hle. induction n as [|n IH]; intros a Hle.
  - destruct a; [|cbn in Hle; lia]. rewrite Split_cut by apply not_elem_of_nil. done.
  - destruct (cut "/" a) as [[x y]|] eqn:Hc.
    + apply cut_sound in Hc as [-> Hx]. rewrite str_app_assoc, str_app_cons, !Split_cut by done. cbn [app].
      rewrite IH; [by rewrite Split_cut|]. rewrite str_length_app in Hle. cbn in Hle. lia.
    + assert (lacks "/" a) as Ha.
      { intros Hin. pose proof (Split_no_slash a) as Hs. unfold Split in Hs.
        destruct a as [|c a]; [by apply not_elem_of_nil in Hin|]. cbn [String.length] in Hs.
        rewrite SplitN_SS, Hc in Hs. apply Forall_cons in Hs as [Hs _]. done. }
      by rewrite Split_cut, (Split_last _ a) by done.
Qed.

Lemma IsAbs_app a b : a <> "" -> IsAbs (a +:+ b) = IsAbs a.
Proof. by destruct a as [|c a]. Qed.

(** Joining plain elements to a directory appends them. *)
Lemma Join_plain dir l :
  dir <> "" -> l <> [] -> Forall plain l ->
  Join dir (join_slash l) = path_text (IsAbs dir) (elems dir ++ l).
Proof.
  intros Hd Hne Hl. unfold Join, is_empty.
  assert (Forall no_slash l) as Hs by (eapply Forall_impl; [exact Hl|]; by intros x (_&_&_&?)).
  assert (join_slash l <> "") as Hj.
  { destruct l as [|x [|y l]]; [done| |].
    - by apply Forall_cons in Hl as [(?&_) _].
    - change (join_slash (x :: y :: l)) with (x +:+ String "/" (join_slash (y :: l))). by destruct x. }
  rewrite (proj2 (String.eqb_neq _ _) Hd), (proj2 (String.eqb_neq _ _) Hj). unfold Clean, elems.
  rewrite IsAbs_app by done. rewrite Split_app, Split_join by done.
  by rewrite foldl_app, foldl_push_plain, rev_app_distr, rev_involutive.
Qed.

(** A relative path that passes the tests of the sources has plain elements. *)
Lemma inside_plain n ps :
  Forall plain ps ->
  let s := join_slash (replicate n ".." ++ ps) in
  s <> ".." -> has_prefix s "../" = false -> n = 0%nat.
Proof.
  intros Hps s H1 H2. subst s. destruct n as [|n]; [done|]. exfalso. cbn [replicate app] in *.
  destruct (replicate n ".." ++ ps) as [|y l]; [done|].
  change (join_slash (".." :: y :: l)) with (".." +:+ String "/" (join_slash (y :: l))) in H2. done.
Qed.

Lemma strip_common_spec a b a' b' :
  strip_common a b = (a', b') -> exists c, a = c ++ a' /\ b = c ++ b'.
Proof.
  revert b a' b'. induction a as [|x a IH]; intros b a' b'; cbn [strip_common].
  { intros [= <- <-]. by exists []. }
  destruct b as [|y b]; [intros [= <- <-]; by exists []|]. destruct (String.eqb_spec x y) as [->|].
  - intros (c & -> & ->)%IH. by exists (y :: c).
  - intros [= <- <-]. by exists [].
Qed.

Lemma const_replicate (l : list string) : const ".." <$> l = replicate (length l) "..".
Proof. induction l as [|x l IH]; [done|]. cbn. by rewrite IH. Qed.

(** ** Cleaned absolute paths *)

Lemma Split_single x : no_slash x -> Split "/" x = [x].
Proof. apply Split_last. Qed.

Lemma elems_path_text l : Forall plain l -> elems (path_text true l) = l.
Proof.
  intros Hl. unfold elems, path_text. change (String "/" (join_slash l)) with ("" +:+ String "/" (join_slash l)).
  change (IsAbs ("" +:+ String "/" (join_slash l))) with true. rewrite Split_app, foldl_app.
  change (foldl (push_elem true) [] (Split "/" "")) with (@nil string).
  destruct l as [|x l]; [done|]. rewrite Split_join; [|done|].
  - rewrite foldl_push_plain, app_nil_r by done. apply rev_involutive.
  - eapply Forall_impl; [exact Hl|]. by intros y (_&_&_&?).
Qed.

Lemma elems_plain p : IsAbs p = true -> Forall plain (elems p).
Proof. intros Hp. destruct (elems_shape p) as (n & ps & -> & Hps & Hn). by rewrite Hn. Qed.

Lemma Clean_abs p : IsAbs p = true -> Clean p = path_text true (elems p).
Proof. intros Hp. unfold Clean. by rewrite Hp. Qed.

Lemma Clean_path_text l : Forall plain l -> Clean (path_text true l) = path_text true l.
Proof. intros Hl. rewrite Clean_abs by done. by rewrite elems_path_text. Qed.

Lemma Clean_idem p : IsAbs p = true -> Clean (Clean p) = Clean p.
Proof. intros Hp. rewrite (Clean_abs p Hp). by apply Clean_path_text, elems_plain. Qed.

Lemma Split_join_bind l : l <> [] -> Split "/" (join_slash l) = l ≫= Split "/".
Proof.
  induction l as [|x [|y l] IH]; [done| |]; intros _.
  - cbn [join_slash]. rewrite bind_cons. by rewrite app_nil_r.
  - change (join_slash (x :: y :: l)) with (x +:+ String "/" (join_slash (y :: l))). by rewrite Split_app, IH, bind_cons.
Qed.

(** Joining to a directory elements that are plain when cut at their slashes. *)
Lemma Join_list_plain dir xs :
  dir <> "" -> Forall plain (xs ≫= Split "/") ->
  Join_list (dir :: xs) = path_text (IsAbs dir) (elems dir ++ (xs ≫= Split "/")).
Proof.
  intros Hd Hxs.
  assert (filter (fun x => x <> "") (dir :: xs) = dir :: xs) as Hf.
  { rewrite filter_cons_True by done. f_equal. clear -Hxs. induction xs as [|x xs IH]; [done|].
    rewrite bind_cons, Forall_app in Hxs. destruct Hxs as [Hx Hxs]. rewrite filter_cons_True; [by rewrite IH|].
    intros ->. apply Forall_cons in Hx as [(H & _) _]. done. }
  unfold Join_list. rewrite Hf. unfold Clean, elems. destruct xs as [|x xs].
  - cbn [join_slash]. by rewrite app_nil_r.
  - change (join_slash (dir :: x :: xs)) with (dir +:+ String "/" (join_slash (x :: xs))).
    rewrite IsAbs_app by done. rewrite Split_app, Split_join_bind by done.
    by rewrite foldl_app, foldl_push_plain, rev_app_distr, rev_involutive.
Qed.

Lemma bind_Split_plain xs : Forall plain xs -> (xs ≫= Split "/") = xs.
Proof.
  induction 1 as [|x xs (_&_&_&Hx) Hxs IH]; [done|]. by rewrite bind_cons, IH, Split_single.
Qed.

Lemma path_text_cons l x : l <> [] -> path_text true (l ++ [x]) = path_text true l +:+ String "/" x.
Proof.
  intros Hl. unfold path_text. rewrite str_app_cons. f_equal. induction l as [|y [|z l] IH]; [done|done|].
  change ((y :: z :: l) ++ [x]) with (y :: (z :: l ++ [x])). change (join_slash (y :: z :: l ++ [x])) with (y +:+ String "/" (join_slash ((z :: l) ++ [x]))).
  rewrite IH by done. change (join_slash (y :: z :: l)) with (y +:+ String "/" (join_slash (z :: l))).
  by rewrite str_app_assoc, str_app_cons.
Qed.

Lemma path_text_app l l' : l <> [] -> l' <> [] -> path_text true (l ++ l') = path_text true l +:+ String "/" (join_slash l').
Proof.
  intros Hl. induction l' as [|x l' IH] using rev_ind; [done|]. intros _. destruct l' as [|y l'].
  - by apply path_text_cons.
  - rewrite app_assoc, path_text_cons by (by destruct l). rewrite IH by done. rewrite str_app_assoc, str_app_cons. do 2 f_equal.
    clear. revert y. induction l' as [|z l' IH]; intros y; [done|].
    change ((y :: z :: l') ++ [x]) with (y :: ((z :: l') ++ [x])).
    change (join_slash (y :: (z :: l') ++ [x])) with (y +:+ String "/" (join_slash ((z :: l') ++ [x]))).
    change (join_slash (y :: z :: l')) with (y +:+ String "/" (join_slash (z :: l'))).
    by rewrite <- IH, str_app_assoc, str_app_cons.
Qed.
