(* ===== verification/Files.v ===== *)
(** * A file system of regular files

    The part of package [os] that installing widget packs and storing displays
    use. A file system maps the path of each regular file to its content; a
    directory is there when a file lies below it, so an empty directory counts as
    absent. Whether an operation fails for a reason outside this picture
    (permissions, a full disk) is an argument of the operation.

    [subtree] reads a directory and [graft] writes one; the lemmas say that
    renaming a directory moves its subtree and touches nothing else. *)

From Stdlib Require Import Ascii String.
From S2P Require Import Prelude.

Abbreviation Disk := (gmap string string).

(** The path of entry [r] of directory [d]. *)
Definition entry_path (d r : string) : string := d +:+ String "/" r.

Definition under (d p : string) : bool := has_prefix p (d +:+ "/").

Definition at_or_under (d p : string) : bool := String.eqb p d || under d p.

(** The files below [d], by their path relative to [d]. *)
Definition subtree (d : string) (m : Disk) : Disk :=
  list_to_map (omap (fun p => if under d p.1 then Some (trim_prefix p.1 (d +:+ "/"), p.2) else None) (map_to_list m)).

Definition graft (d : string) (t : Disk) : Disk := kmap (entry_path d) t.

(** [os.RemoveAll]. *)
Definition RemoveAll (d : string) (m : Disk) : Disk := filter (fun p => at_or_under d p.1 = false) m.

(** [os.Rename] of a directory: refused onto a file, onto a directory that is not
    empty and into itself. *)
Definition rename_dir (fault : option string) (a b : string) (m : Disk) : Disk * option string :=
  match fault with
  | Some e => (m, Some e)
  | None =>
      if bool_decide (is_Some (m !! b)) then (m, Some "not a directory")
      else if negb (bool_decide (subtree b m = ∅)) then (m, Some "directory not empty")
      else if at_or_under a b then (m, Some "invalid argument")
      else (graft b (subtree a m) ∪ RemoveAll a m, None)
  end.

(** [os.WriteFile]; a failure may leave part of the content behind. *)
Definition WriteFile (fault : option (option string * string)) (p content : string) (m : Disk) : Disk * option string :=
  match fault with
  | None => (<[p := content]> m, None)
  | Some (Some part, e) => (<[p := part]> m, Some e)
  | Some (None, e) => (m, Some e)
  end.

(** [os.Rename] of a file: refused onto a directory. *)
Definition rename_file (fault : option string) (a b : string) (m : Disk) : Disk * option string :=
  match fault, m !! a with
  | Some e, _ => (m, Some e)
  | None, None => (m, Some "no such file or directory")
  | None, Some c => if negb (bool_decide (subtree b m = ∅)) then (m, Some "file exists")
                    else (<[b := c]> (delete a m), None)
  end.

(** ** Paths *)

Lemma entry_path_eq d r : entry_path d r = (d +:+ "/") +:+ r.
Proof. unfold entry_path. by rewrite str_app_assoc. Qed.

Lemma under_spec d p : under d p = true <-> exists r, p = entry_path d r.
Proof.
  unfold under. rewrite has_prefix_spec. split; intros [r ->]; exists r; by rewrite entry_path_eq.
Qed.

Lemma under_entry d r : under d (entry_path d r) = true.
Proof. apply under_spec. by exists r. Qed.

Lemma trim_entry d r : trim_prefix (entry_path d r) (d +:+ "/") = r.
Proof. rewrite entry_path_eq. apply trim_prefix_app. Qed.

#[export] Instance entry_path_inj d : Inj (=) (=) (entry_path d).
Proof. intros r r' H. by rewrite <- (trim_entry d r), H, trim_entry. Qed.

Lemma entry_path_assoc d r s : entry_path (entry_path d r) s = entry_path d (entry_path r s).
Proof. unfold entry_path. by rewrite str_app_assoc, str_app_cons. Qed.

Lemma under_trans d e p : under d e = true -> under e p = true -> under d p = true.
Proof. rewrite !under_spec. intros [r ->] [s ->]. exists (entry_path r s). apply entry_path_assoc. Qed.

Lemma at_or_under_trans d e p : at_or_under d e = true -> at_or_under e p = true -> at_or_under d p = true.
Proof.
  unfold at_or_under. rewrite !orb_true_iff, !String.eqb_eq. intros [->|Hd] [->|He]; auto. right. by eapply under_trans.
Qed.

Lemma under_at_or_under d p : under d p = true -> at_or_under d p = true.
Proof. unfold at_or_under. intros ->. apply orb_true_r. Qed.

Lemma at_or_under_refl d : at_or_under d d = true.
Proof. unfold at_or_under. by rewrite String.eqb_refl. Qed.

Lemma entry_longer d r : (String.length d < String.length (entry_path d r))%nat.
Proof. unfold entry_path. rewrite str_length_app. cbn. lia. Qed.

(** ** Subtrees *)

Lemma subtree_lookup d m r : subtree d m !! r = m !! entry_path d r.
Proof.
  unfold subtree. apply option_eq. intros c.
  set (f := fun p : string * string => if under d p.1 then Some (trim_prefix p.1 (d +:+ "/"), p.2) else None).
  assert (forall p r c, f p = Some (r, c) <-> p = (entry_path d r, c)) as Hf.
  { intros [p c0] r0 c1. unfold f. cbn. destruct (under d p) eqn:Hu.
    - apply under_spec in Hu as [s ->]. rewrite trim_entry. split; [by intros [= -> ->]|]. intros H. simplify_eq. done.
    - split; [done|]. intros [= -> ->]. by rewrite under_entry in Hu. }
  rewrite <- elem_of_list_to_map.
  - rewrite list_elem_of_omap. split.
    + intros (p & Hp & Hfp). apply Hf in Hfp as ->. by apply elem_of_map_to_list in Hp.
    + intros Hm. exists (entry_path d r, c). split; [by apply elem_of_map_to_list | by apply Hf].
  - assert (forall l : list (string * string), NoDup l.*1 -> NoDup (omap f l).*1) as H; [|apply H, NoDup_fst_map_to_list].
    intros l. induction l as [|p l IH]; [constructor|]. cbn [fmap list_fmap omap list_omap]. intros [Hp Hl]%NoDup_cons.
    destruct (f p) as [[r0 c0]|] eqn:Hfp; [|by apply IH]. cbn. constructor; [|by apply IH].
    apply Hf in Hfp as ->. intros Hin. apply Hp. apply list_elem_of_fmap in Hin as ([r1 c1] & Hr & Hin). cbn in Hr. subst r1.
    apply list_elem_of_omap in Hin as (q & Hq & Hfq). apply Hf in Hfq as ->.
    apply list_elem_of_fmap. by exists (entry_path d r0, c1).
Qed.

Lemma subtree_empty d m : subtree d m = ∅ <-> forall p, under d p = true -> m !! p = None.
Proof.
  split.
  - intros He p [r ->]%under_spec. by rewrite <- subtree_lookup, He, lookup_empty.
  - intros H. apply map_eq. intros r. rewrite subtree_lookup, lookup_empty. apply H, under_entry.
Qed.

Lemma graft_lookup d t r : graft d t !! entry_path d r = t !! r.
Proof. unfold graft. apply lookup_kmap. apply _. Qed.

Lemma graft_other d t p : under d p = false -> graft d t !! p = None.
Proof.
  intros Hp. apply eq_None_not_Some. intros [c Hc]. unfold graft in Hc.
  apply lookup_kmap_Some in Hc as (r & -> & _); [|apply _]. by rewrite under_entry in Hp.
Qed.

Lemma RemoveAll_lookup d m p : RemoveAll d m !! p = if at_or_under d p then None else m !! p.
Proof.
  unfold RemoveAll. rewrite map_lookup_filter. destruct (m !! p) as [c|]; cbn; [|by destruct (at_or_under d p)].
  destruct (at_or_under d p); [by rewrite option_guard_False | by rewrite option_guard_True].
Qed.

(** A successful rename puts the subtree in place, empties the old place and
    keeps every other file. *)
Lemma rename_dir_ok fault a b m m' :
  rename_dir fault a b m = (m', None) ->
  m !! b = None /\ subtree b m = ∅ /\ at_or_under a b = false /\ subtree b m' = subtree a m /\
  forall p, under b p = false -> m' !! p = if at_or_under a p then None else m !! p.
Proof.
  unfold rename_dir. destruct fault; [done|]. case_bool_decide as Hb; [done|]. case_bool_decide as He; [|done]. cbn [negb].
  destruct (at_or_under a b) eqn:Hab; [done|]. intros [= <-]. split_and!; try done.
  - by apply eq_None_not_Some.
  - apply map_eq. intros r. rewrite !subtree_lookup.
    destruct (subtree a m !! r) as [c|] eqn:Hr.
    + rewrite subtree_lookup in Hr. rewrite Hr. apply lookup_union_Some_l. by rewrite graft_lookup, subtree_lookup.
    + pose proof Hr as Hr'. rewrite subtree_lookup in Hr'. rewrite Hr'.
      rewrite lookup_union_r by (by rewrite graft_lookup). rewrite RemoveAll_lookup. case_match; [done|].
      by rewrite <- subtree_lookup, He, lookup_empty.
  - intros p Hp. rewrite lookup_union_r by by apply graft_other. apply RemoveAll_lookup.
Qed.

Lemma rename_dir_err fault a b m m' e : rename_dir fault a b m = (m', Some e) -> m' = m.
Proof. unfold rename_dir. repeat case_match; by intros [= <- ?]. Qed.

Lemma WriteFile_other fault p content m q : q <> p -> (WriteFile fault p content m).1 !! q = m !! q.
Proof. intros Hq. unfold WriteFile. destruct fault as [[[part|] e]|]; cbn; [|done|]; by rewrite lookup_insert_ne. Qed.

Lemma rename_file_other fault a b m q : q <> a -> q <> b -> (rename_file fault a b m).1 !! q = m !! q.
Proof.
  intros Ha Hb. unfold rename_file. destruct fault; [done|]. destruct (m !! a); [|done]. case_match; cbn; [done|].
  by rewrite lookup_insert_ne, lookup_delete_ne.
Qed.
