(* ===== verification/Glob.v ===== *)
(** * Shell patterns

    [path.Match] of the Go library, as its code runs: a pattern is cut into
    chunks that begin with stars, a chunk is matched at the leftmost place the
    star allows, and a malformed pattern is an error wherever the match ends.
    Characters are bytes.

    [Match_literal_star] describes the patterns of signers: a literal prefix and
    a final star match the prefix followed by anything without a slash. *)

From Stdlib Require Import Ascii String.
From S2P Require Import Prelude Codec.

(** [getEsc]: one bound of a character range, never at the end of the chunk. *)
Definition getEsc (chunk : string) : option (ascii * string) :=
  match chunk with
  | EmptyString => None
  | String c rest =>
      if Ascii.eqb c "-" || Ascii.eqb c "]" then None
      else
        let esc := if Ascii.eqb c "\" then match rest with EmptyString => None | String d rest' => Some (d, rest') end
                   else Some (c, rest) in
        match esc with
        | Some (d, String e r) => Some (d, String e r)
        | _ => None
        end
  end.

Definition in_range (lo hi r : ascii) : bool :=
  (nat_of_ascii lo <=? nat_of_ascii r)%nat && (nat_of_ascii r <=? nat_of_ascii hi)%nat.

(** The upper bound of a range that began with [lo]. *)
Definition upper_bound (lo : ascii) (chunk : string) : option (ascii * string) :=
  match chunk with
  | String d rest => if Ascii.eqb d "-" then getEsc rest else Some (lo, chunk)
  | EmptyString => Some (lo, chunk)
  end.

(** The bracket that ends a class with at least one range. *)
Definition closes (chunk : string) (nrange : nat) : option string :=
  match chunk with
  | String c rest => if Ascii.eqb c "]" && (0 <? nrange)%nat then Some rest else None
  | EmptyString => None
  end.

(** The ranges of a class, after [nrange] of them: whether [r] is in one, and the
    chunk after the bracket. *)
Fixpoint class_ranges (fuel : nat) (chunk : string) (r : option ascii) (nrange : nat) (hit : bool) : option (bool * string) :=
  match fuel with
  | O => None
  | S fuel =>
      match closes chunk nrange with
      | Some rest => Some (hit, rest)
      | None =>
          match getEsc chunk with
          | None => None
          | Some (lo, chunk1) =>
              match upper_bound lo chunk1 with
              | None => None
              | Some (hi, chunk2) =>
                  class_ranges fuel chunk2 r (S nrange)
                    (hit || match r with Some r => in_range lo hi r | None => false end)
              end
          end
      end
  end.

(** [matchChunk]; [s] is [None] once the match has failed, and the outer [None]
    is [ErrBadPattern]. *)
Fixpoint matchChunk (fuel : nat) (chunk : string) (s : option string) : option (option string) :=
  match chunk with
  | EmptyString => Some s
  | String c rest =>
      match fuel with
      | O => None
      | S fuel =>
          let head := match s with Some (String d s') => Some (d, s') | _ => None end in
          if Ascii.eqb c "[" then
            let negated := has_prefix rest "^" in
            let body := trim_prefix rest "^" in
            match class_ranges (String.length body) body (fst <$> head) 0 false with
            | None => None
            | Some (hit, rest') => matchChunk fuel rest' (if Bool.eqb hit negated then None else snd <$> head)
            end
          else if Ascii.eqb c "?" then
            matchChunk fuel rest (match head with Some (d, s') => if Ascii.eqb d "/" then None else Some s' | None => None end)
          else
            let lit := if Ascii.eqb c "\" then match rest with EmptyString => None | String d r => Some (d, r) end
                       else Some (c, rest) in
            match lit with
            | None => None
            | Some (x, rest') =>
                matchChunk fuel rest' (match head with Some (d, s') => if Ascii.eqb x d then Some s' else None | None => None end)
            end
      end
  end.

Definition match_chunk (chunk : string) (s : string) : option (option string) :=
  matchChunk (String.length chunk) chunk (Some s).

Fixpoint skip_stars (p : string) : bool * string :=
  match p with
  | String c p' => if Ascii.eqb c "*" then (true, (skip_stars p').2) else (false, p)
  | EmptyString => (false, p)
  end.

(** The rest of a chunk, up to a star outside brackets. *)
Fixpoint scan_body (p : string) (inrange : bool) : string * string :=
  match p with
  | EmptyString => (EmptyString, EmptyString)
  | String c p' =>
      if Ascii.eqb c "\" then
        match p' with
        | String d p'' => let '(a, b) := scan_body p'' inrange in (String c (String d a), b)
        | EmptyString => (p, EmptyString)
        end
      else if Ascii.eqb c "*" && negb inrange then (EmptyString, p)
      else
        let '(a, b) := scan_body p' (if Ascii.eqb c "[" then true else if Ascii.eqb c "]" then false else inrange) in
        (String c a, b)
  end.

(** [scanChunk]. *)
Definition scanChunk (p : string) : bool * string * string :=
  let '(star, p1) := skip_stars p in
  let '(chunk, rest) := scan_body p1 false in
  (star, chunk, rest).

(** The search of a chunk after a star: it may skip anything but a slash. The
    outer [None] is an error, the inner one no match. *)
Fixpoint star_search (chunk : string) (last : bool) (name : string) : option (option string) :=
  match name with
  | EmptyString => Some None
  | String c name' =>
      if Ascii.eqb c "/" then Some None
      else match match_chunk chunk name' with
      | None => None
      | Some (Some t) => if last && negb (is_empty t) then star_search chunk last name' else Some (Some t)
      | Some None => star_search chunk last name'
      end
  end.

(** The check of the chunks that are left after a mismatch. *)
Fixpoint rest_ok (fuel : nat) (p : string) : bool :=
  match fuel, p with
  | _, EmptyString => true
  | O, _ => false
  | S fuel, _ => let '(_, chunk, rest) := scanChunk p in
                 match match_chunk chunk "" with Some _ => rest_ok fuel rest | None => false end
  end.

Definition has_slash (s : string) : bool := match cut "/" s with Some _ => true | None => false end.

Fixpoint match_loop (fuel : nat) (p name : string) : option bool :=
  match fuel, p with
  | _, EmptyString => Some (is_empty name)
  | O, _ => None
  | S fuel, _ =>
      let '(star, chunk, rest) := scanChunk p in
      if star && is_empty chunk then Some (negb (has_slash name))
      else
        let mismatch := if rest_ok (String.length rest) rest then Some false else None in
        let after_star := if (star : bool) then
                            match star_search chunk (is_empty rest) name with
                            | None => None
                            | Some (Some t) => match_loop fuel rest t
                            | Some None => mismatch
                            end
                          else mismatch in
        match match_chunk chunk name with
        | None => None
        | Some (Some t) => if is_empty t || negb (is_empty rest) then match_loop fuel rest t else after_star
        | Some None => after_star
        end
  end.

(** [path.Match]; [None] is [ErrBadPattern]. *)
Definition Match_ (pattern name : string) : option bool := match_loop (String.length pattern) pattern name.

(** ** The fuel is enough: every round consumes a byte *)

Lemma getEsc_shorter chunk c rest : getEsc chunk = Some (c, rest) -> (String.length rest < String.length chunk)%nat.
Proof.
  destruct chunk as [|x chunk]; [done|]. cbn [getEsc]. case_match; [done|].
  destruct (Ascii.eqb x "\"); [destruct chunk as [|d chunk]; [done|]|]; destruct chunk; try done;
    intros [= <- <-]; cbn; lia.
Qed.

Lemma upper_bound_shorter lo chunk c rest : upper_bound lo chunk = Some (c, rest) -> (String.length rest <= String.length chunk)%nat.
Proof.
  destruct chunk as [|d chunk]; cbn [upper_bound]; [by intros [= <- <-]|].
  case_match; [intros Hg%getEsc_shorter; cbn; lia | by intros [= <- <-]].
Qed.

Lemma closes_shorter chunk n rest : closes chunk n = Some rest -> (String.length rest < String.length chunk)%nat.
Proof. destruct chunk as [|c chunk]; [done|]. cbn [closes]. case_match; [|done]. intros [= <-]. cbn. lia. Qed.

Lemma class_ranges_fuel n m chunk r k hit :
  (String.length chunk <= n)%nat -> (n <= m)%nat -> class_ranges n chunk r k hit = class_ranges m chunk r k hit.
Proof.
  revert m chunk k hit. induction n as [|n IH]; intros m chunk k hit Hn Hm.
  { destruct chunk; [|cbn in Hn; lia]. by destruct m. }
  destruct m as [|m]; [lia|]. cbn [class_ranges]. destruct (closes chunk k); [done|].
  destruct (getEsc chunk) as [[lo c1]|] eqn:H1; [|done]. apply getEsc_shorter in H1.
  destruct (upper_bound lo c1) as [[hi c2]|] eqn:H2; [|done]. apply upper_bound_shorter in H2. apply IH; lia.
Qed.

Lemma class_ranges_shorter n chunk r k hit b rest :
  class_ranges n chunk r k hit = Some (b, rest) -> (String.length rest < String.length chunk)%nat.
Proof.
  revert chunk k hit. induction n as [|n IH]; intros chunk k hit; [done|]. cbn [class_ranges].
  destruct (closes chunk k) eqn:Hc; [intros [= _ <-]; by apply closes_shorter in Hc|].
  destruct (getEsc chunk) as [[lo c1]|] eqn:H1; [|done]. apply getEsc_shorter in H1.
  destruct (upper_bound lo c1) as [[hi c2]|] eqn:H2; [|done]. apply upper_bound_shorter in H2. intros H3%IH. lia.
Qed.

Lemma trim_prefix_shorter s p : (String.length (trim_prefix s p) <= String.length s)%nat.
Proof.
  unfold trim_prefix. destruct (has_prefix s p) eqn:H; [|done]. apply has_prefix_spec in H as [t ->].
  rewrite str_length_app, Nat.add_comm, Nat.add_sub, substring_app_r. lia.
Qed.

Lemma matchChunk_fuel n m chunk s :
  (String.length chunk <= n)%nat -> (n <= m)%nat -> matchChunk n chunk s = matchChunk m chunk s.
Proof.
  revert m chunk s. induction n as [|n IH]; intros m chunk s Hn Hm.
  { destruct chunk; [|cbn in Hn; lia]. by destruct m. }
  destruct m as [|m]; [lia|]. destruct chunk as [|c rest]; [done|]. cbn [matchChunk]. cbn [String.length] in Hn.
  destruct (Ascii.eqb c "[").
  - destruct (class_ranges _ _ _ _ _) as [[hit rest']|] eqn:Hc; [|done]. apply class_ranges_shorter in Hc.
    pose proof (trim_prefix_shorter rest "^"). apply IH; lia.
  - destruct (Ascii.eqb c "?"); [apply IH; lia|].
    destruct (Ascii.eqb c "\"); [destruct rest as [|d rest]; [done|]; cbn in Hn; apply IH; lia | apply IH; lia].
Qed.

Lemma skip_stars_shorter p : (String.length (skip_stars p).2 <= String.length p)%nat.
Proof. induction p as [|c p IH]; cbn; [done|]. case_match; cbn; lia. Qed.

Lemma scan_body_length p b : (String.length (scan_body p b).1 + String.length (scan_body p b).2 = String.length p)%nat.
Proof.
  remember (String.length p) as n eqn:Hn. assert (String.length p <= n)%nat as Hle by lia. rewrite Hn. clear Hn.
  revert p b Hle. induction n as [|n IH]; intros p b Hle; [destruct p; [done|cbn in Hle; lia]|].
  destruct p as [|c p]; [done|]. cbn [String.length] in Hle. cbn [scan_body]. destruct (Ascii.eqb c "\").
  - destruct p as [|d p]; [done|]. cbn [String.length] in Hle. specialize (IH p b ltac:(lia)).
    destruct (scan_body p b) as [x y]. cbn in *. lia.
  - case_match; [done|]. set (b' := if Ascii.eqb c "[" then _ else _). specialize (IH p b' ltac:(lia)).
    destruct (scan_body p b') as [x y]. cbn in *. lia.
Qed.

Lemma scanChunk_shorter p star chunk rest :
  p <> "" -> scanChunk p = (star, chunk, rest) -> (String.length rest < String.length p)%nat.
Proof.
  intros Hp. unfold scanChunk. destruct (skip_stars p) as [st p1] eqn:Hs.
  pose proof (scan_body_length p1 false) as Hlen. destruct (scan_body p1 false) as [a b] eqn:Hb. cbn in Hlen.
  intros [= <- <- <-]. pose proof (skip_stars_shorter p) as Hle. rewrite Hs in Hle. cbn in Hle.
  destruct p as [|c p]; [done|]. cbn [skip_stars] in Hs. destruct (Ascii.eqb c "*") eqn:Hc.
  - pose proof (skip_stars_shorter p). injection Hs as _ <-. cbn in *. lia.
  - injection Hs as _ <-. enough (a <> "") by (destruct a; [done|]; cbn in *; lia).
    intros ->. cbn [scan_body] in Hb. rewrite Hc in Hb. cbn [andb] in Hb.
    destruct (Ascii.eqb c "\"); repeat case_match; simplify_eq.
Qed.

Lemma rest_ok_fuel n m p : (String.length p <= n)%nat -> (n <= m)%nat -> rest_ok n p = rest_ok m p.
Proof.
  revert m p. induction n as [|n IH]; intros m p Hn Hm.
  { destruct p; [|cbn in Hn; lia]. by destruct m. }
  destruct m as [|m]; [lia|]. destruct p as [|c p]; [done|]. cbn [rest_ok].
  destruct (scanChunk (String c p)) as [[star chunk] rest] eqn:Hs. apply scanChunk_shorter in Hs; [|done].
  case_match; [apply IH; lia|done].
Qed.

(** More fuel than the length of the pattern changes nothing. *)
Lemma match_loop_fuel n m p name :
  (String.length p <= n)%nat -> (n <= m)%nat -> match_loop n p name = match_loop m p name.
Proof.
  revert m p name. induction n as [|n IH]; intros m p name Hn Hm.
  { destruct p; [|cbn in Hn; lia]. by destruct m. }
  destruct m as [|m]; [lia|]. destruct p as [|c p]; [done|]. cbn [match_loop].
  destruct (scanChunk (String c p)) as [[star chunk] rest] eqn:Hs. apply scanChunk_shorter in Hs; [|done].
  assert (forall t, match_loop n rest t = match_loop m rest t) as Hrec by (intros t; apply IH; lia).
  case_match; [done|]. repeat case_match; by rewrite ?Hrec.
Qed.

(** ** Literal prefixes *)

Definition literal_char (c : ascii) : bool :=
  negb (Ascii.eqb c "*" || Ascii.eqb c "?" || Ascii.eqb c "[" || Ascii.eqb c "]" || Ascii.eqb c "\").
Fixpoint literal (s : string) : bool :=
  match s with EmptyString => true | String c s' => literal_char c && literal s' end.

Lemma literal_char_cases c :
  literal_char c = true ->
  Ascii.eqb c "*" = false /\ Ascii.eqb c "?" = false /\ Ascii.eqb c "[" = false /\ Ascii.eqb c "]" = false /\ Ascii.eqb c "\" = false.
Proof. unfold literal_char. rewrite negb_true_iff, !orb_false_iff. tauto. Qed.

Lemma scan_body_literal l rest :
  literal l = true -> has_prefix rest "*" = true -> scan_body (l +:+ rest) false = (l, rest).
Proof.
  intros Hl Hr. induction l as [|c l IH].
  - destruct rest as [|c rest]; [done|]. apply has_prefix_spec in Hr as [t [= -> _]]. done.
  - cbn [literal] in Hl. apply andb_true_iff in Hl as [Hc Hl]. apply literal_char_cases in Hc as (H1 & H2 & H3 & H4 & H5).
    rewrite str_app_cons. cbn [scan_body]. rewrite H1, H3, H4, H5. cbn [andb]. by rewrite IH.
Qed.

Lemma matchChunk_literal l s n :
  literal l = true -> (String.length l <= n)%nat ->
  matchChunk n l (Some s) = Some (if has_prefix s l then Some (trim_prefix s l) else None).
Proof.
  assert (forall l n, literal l = true -> (String.length l <= n)%nat -> matchChunk n l None = Some None) as Hnone.
  { clear. induction l as [|c l IH]; intros n Hl Hn; [by destruct n|]. destruct n as [|n]; [cbn in Hn; lia|].
    cbn [literal] in Hl. apply andb_true_iff in Hl as [Hc Hl]. apply literal_char_cases in Hc as (H1 & H2 & H3 & H4 & H5).
    cbn [matchChunk]. rewrite H2, H3, H5. apply IH; [done|cbn in Hn; lia]. }
  revert s n. induction l as [|c l IH]; intros s n Hl Hn.
  { assert (trim_prefix s "" = s) as -> by apply (trim_prefix_app "" s). by destruct n. }
  destruct n as [|n]; [cbn in Hn; lia|]. pose proof Hl as Hl0. cbn [literal] in Hl.
  apply andb_true_iff in Hl as [Hc Hl]. apply literal_char_cases in Hc as (H1 & H2 & H3 & H4 & H5).
  cbn [matchChunk]. rewrite H2, H3, H5. cbn in Hn. destruct s as [|d s]; [apply Hnone; [done|lia]|].
  cbn [has_prefix]. destruct (Ascii.eqb_spec c d) as [->|]; [|apply Hnone; [done|lia]]. cbn [andb].
  rewrite IH by (done || lia). destruct (has_prefix s l) eqn:Hp; [|done]. apply has_prefix_spec in Hp as [t ->].
  do 2 f_equal. by rewrite <- str_app_cons, !trim_prefix_app.
Qed.

(** A literal prefix and a star. *)
Theorem Match_literal_star l name :
  literal l = true ->
  Match_ (l +:+ "*") name = Some (has_prefix name l && negb (has_slash (trim_prefix name l))).
Proof.
  intros Hl. unfold Match_. rewrite str_length_app. cbn [String.length]. rewrite Nat.add_1_r.
  destruct l as [|c l].
  { change (Some (negb (has_slash name)) = Some (negb (has_slash (trim_prefix name "")))).
    by rewrite (trim_prefix_app "" name : trim_prefix name "" = name). }
  pose proof Hl as Hl0. cbn [literal] in Hl0. apply andb_true_iff in Hl0 as [Hc _].
  apply literal_char_cases in Hc as (H1 & _).
  assert (scanChunk (String c l +:+ "*") = (false, String c l, "*")) as Hscan.
  { unfold scanChunk. rewrite str_app_cons.
    assert (skip_stars (String c (l +:+ "*")) = (false, String c (l +:+ "*"))) as ->.
    { cbn [skip_stars]. by rewrite H1. }
    rewrite <- str_app_cons. by rewrite scan_body_literal. }
  cbn [match_loop]. rewrite str_app_cons in *. cbn [match_loop]. rewrite Hscan. cbn [andb].
  unfold match_chunk. rewrite matchChunk_literal by (done || lia).
  destruct (has_prefix name (String c l)); [|done]. cbn [andb]. rewrite orb_true_r. done.
Qed.
