(* ===== verification/McpFiles.v ===== *)
(** * The file tools of the MCP server

    Models [internal/mcp/fs/safepath.go], [internal/mcp/fs/syntax.go] and
    [internal/mcp/tools/files.go]: reading and writing files of the configuration
    directory on behalf of a language model, over a file system with symbolic links.

    The file system maps canonical locations (lists of names) to directories, files
    and links. [walk] resolves a path through links; with 255 links it is
    [filepath.EvalSymlinks], with the limit [sys_links] it is what a system call does
    with a path. The steps of a write can each fail ([Faults]). Between two system calls
    nothing else changes the tree. The parser of Starlark is a parameter; audit records
    are part of the result.

    [write_confined], [read_confined]: nothing outside of the directory is changed or
    read, whatever links there are. [write_atomic], [read_after_write]: a failed write
    changes no file, a successful one is what is read back. [checkPkl_exact]: the check of
    Pkl sources accepts exactly the texts of a grammar. *)

From Stdlib Require Import Ascii String.
From S2P Require Import Prelude Codec Json Rules Paths.

(** ** A file system with links *)

Inductive node := Dir | File (content : string) | Link (target : string).
Abbreviation FS := (gmap (list string) node).

Definition Lstat (fs : FS) (p : list string) : option node := match p with [] => Some Dir | _ => fs !! p end.

Inductive walk_error := NotExist | NotDir | TooManyLinks.

(** Resolving the names [todo] from the directory [dest], as [filepath.walkSymlinks] and
    as the kernel do. With [create] the last name may be missing (O_CREATE). *)
Fixpoint walk (create : bool) (fs : FS) (links : nat) {struct links} : list string -> list string -> result walk_error (list string) :=
  fix go (dest todo : list string) {struct todo} : result walk_error (list string) :=
    match todo with
    | [] => Ok dest
    | c :: rest =>
        if is_empty c || String.eqb c "." then go dest rest
        else if String.eqb c ".." then go (removelast dest) rest
        else
          match Lstat fs (dest ++ [c]) with
          | None => if create && bool_decide (rest = []) then Ok (dest ++ [c]) else Err NotExist
          | Some Dir => go (dest ++ [c]) rest
          | Some (File _) => if bool_decide (rest = []) then Ok (dest ++ [c]) else Err NotDir
          | Some (Link t) =>
              match links with
              | O => Err TooManyLinks
              | S n => walk create fs n (if IsAbs t then [] else dest) (Split "/" t ++ rest)
              end
          end
    end.

(** ** [safepath.go] *)

(** [filepath.EvalSymlinks] and [filepath.Abs] of an absolute working directory; [filepath.Dir]. *)
Definition EvalSymlinks (fs : FS) (path : string) : result walk_error string :=
  path_text true <$> walk false fs 255 [] (Split "/" path).
Definition Abs (cwd path : string) : string := if IsAbs path then Clean path else Join cwd path.
Definition Dirname (path : string) : string := Clean (join_slash (removelast (Split "/" path) ++ [""])).

Definition inside (root p : string) : bool :=
  match Rel root p with
  | None => false
  | Some rel => String.eqb rel "." || (negb (has_prefix rel "..") && negb (str_contains rel "/.."))
  end.

Inductive resolve_error := PathEscape | EvalFailed (e : walk_error).

(** The loop over the parents of a path that does not exist; [fuel] bounds the number of
    its elements. *)
Fixpoint check_parents (fs : FS) (fuel : nat) (cleanRoot prefix : string) : bool :=
  match fuel with
  | O => true
  | S n =>
      if String.eqb prefix cleanRoot || String.eqb prefix (Dirname cleanRoot) then true
      else match EvalSymlinks fs prefix with
           | Ok resolved => inside cleanRoot resolved
           | Err _ => check_parents fs n cleanRoot (Dirname prefix)
           end
  end.

Definition Resolve (fs : FS) (cwd root rel : string) : result resolve_error string :=
  if IsAbs rel then Err PathEscape
  else
    cleanRoot ← map_err EvalFailed (EvalSymlinks fs (Abs cwd root));
    let cleaned := Clean (Join cleanRoot rel) in
    if negb (inside cleanRoot cleaned) then Err PathEscape
    else match EvalSymlinks fs cleaned with
         | Ok resolved => if inside cleanRoot resolved then Ok resolved else Err PathEscape
         | Err NotExist =>
             if check_parents fs (S (length (elems cleaned))) cleanRoot (Dirname cleaned) then Ok cleaned else Err PathEscape
         | Err e => Err (EvalFailed e)
         end.

(** ** [syntax.go] *)

Inductive syntax_result := Fine | UnsupportedExtension | SyntaxError (line column : Z) (msg : string).

Definition quote : ascii := "034".
Definition newline : ascii := "010".

Record scan := mkScan { sc_depth : Z; sc_inStr : bool; sc_escape : bool; sc_lines : Z }.

(** One byte of [checkPkl]; the state counts the newlines before it as well. [None] is the
    unexpected closing delimiter. *)
Definition pkl_byte (b : ascii) (s : scan) : option scan :=
  let lines := if Ascii.eqb b newline then sc_lines s + 1 else sc_lines s in
  if sc_escape s then Some (mkScan (sc_depth s) (sc_inStr s) false lines)
  else if sc_inStr s then
    if Ascii.eqb b "\" then Some (mkScan (sc_depth s) true true lines)
    else if Ascii.eqb b quote then Some (mkScan (sc_depth s) false false lines)
    else Some (mkScan (sc_depth s) true false lines)
  else if Ascii.eqb b quote then Some (mkScan (sc_depth s) true false lines)
  else if Ascii.eqb b "{" || Ascii.eqb b "(" then Some (mkScan (sc_depth s + 1) false false lines)
  else if Ascii.eqb b "}" || Ascii.eqb b ")" then
    if sc_depth s - 1 <? 0 then None else Some (mkScan (sc_depth s - 1) false false lines)
  else Some (mkScan (sc_depth s) false false lines).

Fixpoint checkPkl_from (content : string) (s : scan) : syntax_result :=
  match content with
  | EmptyString =>
      if sc_inStr s then SyntaxError 1 0 "unterminated string literal"
      else if negb (sc_depth s =? 0) then SyntaxError 1 0 "unbalanced delimiters"
      else Fine
  | String b rest =>
      match pkl_byte b s with
      | None => SyntaxError (sc_lines s + 1) 1 "unexpected closing delimiter"
      | Some s' => checkPkl_from rest s'
      end
  end.
Definition checkPkl (content : string) : syntax_result := checkPkl_from content (mkScan 0 false false 0).

(** [parse] is the parser of Starlark: the position and text of its error. *)
Definition CheckSyntax (parse : string -> string -> option (Z * Z * string)) (path content : string) : syntax_result :=
  let ext := ToLower (Ext path) in
  if String.eqb ext ".pkl" then checkPkl content
  else if String.eqb ext ".star" then
    match parse path content with None => Fine | Some (line, col, msg) => SyntaxError line col msg end
  else UnsupportedExtension.

(** [utf8.Valid]. *)
Fixpoint utf8_valid (l : list ascii) : bool :=
  match l with
  | [] => true
  | a :: r =>
      if in_range 0 127 a then utf8_valid r else
      match r with
      | [] => false
      | b :: r1 =>
          if in_range 194 223 a then continuation b && utf8_valid r1 else
          match r1 with
          | [] => false
          | c :: r2 =>
              if in_range 224 239 a then
                (if in_range 224 224 a then in_range 160 191 b else if in_range 237 237 a then in_range 128 159 b else continuation b)
                && continuation c && utf8_valid r2
              else
                match r2 with
                | [] => false
                | d :: r3 =>
                    in_range 240 244 a
                    && (if in_range 240 240 a then in_range 144 191 b else if in_range 244 244 a then in_range 128 143 b else continuation b)
                    && continuation c && continuation d && utf8_valid r3
                end
          end
      end
  end.

(** ** [files.go] *)

Record Faults := mkFaults {
  f_mkdir : list string -> bool;
  f_rand : bool; f_open : bool;
  f_write : option string;  (** what had been written when the write failed *)
  f_sync : bool; f_close : bool; f_rename : bool; f_remove : bool;
}.

Record file_out := mkFileOut { fo_path : string; fo_content : string; fo_size_bytes : Z; fo_sha256_hex : string }.
Record write_out := mkWriteOut { wo_path : string; wo_sha256_hex : string; wo_size_bytes : Z }.
Record ConfigFileEditEvent := mkEdit { ce_SessionID : string; ce_Path : string; ce_Sha256Hex : string; ce_SizeBytes : Z }.

Definition u32 (z : Z) : Z := z mod 2 ^ 32.

Section Tools.
Context (sys_links : nat) (parse : string -> string -> option (Z * Z * string)) (sha256_hex : string -> string).
Context (cwd configDir : string) (ReadFileMaxBytes : Z).

(** *** System calls, on the names of an absolute cleaned path *)

Definition sys_walk (create : bool) (fs : FS) (p : list string) : result walk_error (list string) := walk create fs sys_links [] p.

Definition Stat (fs : FS) (p : list string) : option node :=
  match sys_walk false fs p with Ok q => Lstat fs q | Err _ => None end.

(** The entry that a path names, its last name not followed: the directory and the name. *)
Definition entry (fs : FS) (p : list string) : option (list string) :=
  match sys_walk false fs (removelast p), last p with
  | Ok q, Some c => match Lstat fs q with Some Dir => Some (q ++ [c]) | _ => None end
  | _, _ => None
  end.

Definition Mkdir (f : Faults) (fs : FS) (p : list string) : FS * bool :=
  match entry fs p with
  | None => (fs, false)
  | Some e => if f_mkdir f e then (fs, false) else match Lstat fs e with Some _ => (fs, false) | None => (<[e := Dir]> fs, true) end
  end.

(** [os.MkdirAll] of the reversed names. *)
Fixpoint MkdirAll (f : Faults) (rp : list string) (fs : FS) {struct rp} : FS * bool :=
  match Stat fs (rev rp) with
  | Some Dir => (fs, true)
  | Some _ => (fs, false)
  | None =>
      match rp with
      | [] => (fs, false)
      | _ :: rp' =>
          let '(fs1, ok) := MkdirAll f rp' fs in
          if negb ok then (fs1, false)
          else
            let '(fs2, made) := Mkdir f fs1 (rev rp) in
            (fs2, made || match entry fs2 (rev rp) ≫= Lstat fs2 with Some Dir => true | _ => false end)
      end
  end.

Definition Remove (f : Faults) (fs : FS) (p : list string) : FS :=
  match entry fs p with Some e => if f_remove f then fs else delete e fs | None => fs end.

Definition Rename (f : Faults) (fs : FS) (a b : list string) : FS * bool :=
  match entry fs a, entry fs b with
  | Some ea, Some eb =>
      match Lstat fs ea, Lstat fs eb with
      | None, _ | _, Some Dir => (fs, false)
      | Some n, _ => if f_rename f then (fs, false) else (<[eb := n]> (delete ea fs), true)
      end
  | _, _ => (fs, false)
  end.

(** [os.OpenFile] with O_CREATE and O_TRUNC: the location of the opened file. *)
Definition open_trunc (f : Faults) (fs : FS) (p : list string) : FS * option (list string) :=
  match sys_walk true fs p with
  | Ok q =>
      match Lstat fs q with
      | Some Dir | Some (Link _) => (fs, None)
      | _ => if f_open f then (fs, None) else (<[q := File ""]> fs, Some q)
      end
  | Err _ => (fs, None)
  end.

Definition tmp_name (c suffix : string) : string := c +:+ ".tmp." +:+ suffix.
Definition tmp_path (target : list string) (suffix : string) : list string :=
  removelast target ++ [tmp_name (default "" (last target)) suffix].

Definition atomicWrite (f : Faults) (suffix : string) (fs : FS) (target : list string) (data : string) : FS * bool :=
  if f_rand f then (fs, false)
  else
    let tmp := tmp_path target suffix in
    match open_trunc f fs tmp with
    | (fs1, None) => (fs1, false)
    | (fs1, Some q) =>
        let fs2 := <[q := File (default data (f_write f))]> fs1 in
        if bool_decide (is_Some (f_write f)) || f_sync f || f_close f then (Remove f fs2 tmp, false)
        else match Rename f fs2 tmp target with
             | (fs3, true) => (fs3, true)
             | (fs3, false) => (Remove f fs3 tmp, false)
             end
    end.

(** *** The two tools; an error is the reason of its [ToolError] *)

Definition reason_of (e : resolve_error) : string := match e with PathEscape => "path_escape" | EvalFailed _ => "internal" end.

(** [read_failed]: [os.ReadFile] fails. *)
Definition read_config_file (read_failed : bool) (fs : FS) (path : string) : result string file_out :=
  target ← map_err reason_of (Resolve fs cwd configDir path);
  match Stat fs (elems target) with
  | None => Err "internal"
  | Some (File data) =>
      let size := Z.of_nat (String.length data) in
      if (0 <? ReadFileMaxBytes) && (ReadFileMaxBytes <? u32 size) then Err "file_too_large"
      else if read_failed then Err "internal"
      else if negb (utf8_valid (list_ascii_of_string data)) then Err "not_utf8"
      else Ok (mkFileOut path data size (sha256_hex data))
  | Some _ => Err "not_a_file"
  end.

Definition write_config_file (f : Faults) (suffix session : string) (fs : FS) (path content : string) :
    FS * result string (write_out * ConfigFileEditEvent) :=
  match Resolve fs cwd configDir path with
  | Err e => (fs, Err (reason_of e))
  | Ok target =>
      match CheckSyntax parse target content with
      | UnsupportedExtension => (fs, Err "unsupported_extension")
      | SyntaxError _ _ _ => (fs, Err "syntax_error")
      | Fine =>
          match MkdirAll f (rev (elems (Dirname target))) fs with
          | (fs1, false) => (fs1, Err "internal")
          | (fs1, true) =>
              match atomicWrite f suffix fs1 (elems target) content with
              | (fs2, false) => (fs2, Err "internal")
              | (fs2, true) =>
                  let size := Z.of_nat (String.length content) in
                  (fs2, Ok (mkWriteOut path (sha256_hex content) size, mkEdit session path (sha256_hex content) (u32 size)))
              end
          end
      end
  end.
End Tools.

(** ** Walking *)

#[local] Arguments path_text : simpl never.
#[local] Arguments walk : simpl never.
#[local] Arguments EvalSymlinks : simpl never.
#[local] Arguments Clean : simpl never.
#[local] Arguments elems : simpl never.
#[local] Arguments inside : simpl never.

Lemma walk_eq create fs links dest c rest :
  walk create fs links dest (c :: rest) =
    if is_empty c || String.eqb c "." then walk create fs links dest rest
    else if String.eqb c ".." then walk create fs links (removelast dest) rest
    else
      match Lstat fs (dest ++ [c]) with
      | None => if create && bool_decide (rest = []) then Ok (dest ++ [c]) else Err NotExist
      | Some Dir => walk create fs links (dest ++ [c]) rest
      | Some (File _) => if bool_decide (rest = []) then Ok (dest ++ [c]) else Err NotDir
      | Some (Link t) =>
          match links with O => Err TooManyLinks | S n => walk create fs n (if IsAbs t then [] else dest) (Split "/" t ++ rest) end
      end.
Proof. by destruct links. Qed.

Lemma walk_nil create fs links dest : walk create fs links dest [] = Ok dest.
Proof. by destruct links. Qed.

(** Every entry lies in a directory, and no name has a slash in it. *)
Definition wf (fs : FS) : Prop := forall p c, is_Some (fs !! (p ++ [c])) -> Lstat fs p = Some Dir.

(** What a walk can end at. *)
Definition real (fs : FS) (p : list string) : Prop := Lstat fs p = Some Dir \/ exists s, Lstat fs p = Some (File s).

Lemma Lstat_snoc fs p c : Lstat fs (p ++ [c]) = fs !! (p ++ [c]).
Proof. by destruct p. Qed.

Lemma wf_parent fs p c x : wf fs -> Lstat fs (p ++ [c]) = Some x -> Lstat fs p = Some Dir.
Proof. rewrite Lstat_snoc. intros Hwf Hx. by apply (Hwf p c). Qed.

Lemma wf_removelast fs p : wf fs -> Lstat fs p = Some Dir -> Lstat fs (removelast p) = Some Dir.
Proof.
  intros Hwf Hp. destruct p as [|c p _] using rev_ind; [done|]. rewrite removelast_last. by eapply wf_parent.
Qed.

Lemma walk_real fs n dest todo p :
  wf fs -> Lstat fs dest = Some Dir -> walk false fs n dest todo = Ok p -> real fs p.
Proof.
  intros Hwf. revert dest todo. induction n as [n IHn] using lt_wf_ind. intros dest todo.
  revert dest. induction todo as [|c todo IHt]; intros dest Hd.
  { rewrite walk_nil. intros [= <-]. by left. }
  rewrite walk_eq. case_match; [by apply IHt|]. case_match; [by apply IHt, wf_removelast|].
  destruct (Lstat fs (dest ++ [c])) as [[| |t]|] eqn:Hl; [by apply IHt| | |done].
  - case_bool_decide; [|done]. intros [= <-]. right. by eexists.
  - destruct n as [|n]; [done|]. apply IHn; [lia|]. by destruct (IsAbs t).
Qed.

Lemma walk_more create fs n m dest todo r :
  (n <= m)%nat -> walk create fs n dest todo = r -> r <> Err TooManyLinks -> walk create fs m dest todo = r.
Proof.
  intros Hnm <-. revert m dest todo Hnm. induction n as [n IHn] using lt_wf_ind. intros m dest todo Hnm.
  revert dest. induction todo as [|c todo IHt]; intros dest; [by rewrite !walk_nil|].
  rewrite !walk_eq. destruct (is_empty c || _); [by apply IHt|]. destruct (String.eqb c ".."); [by apply IHt|].
  destruct (Lstat fs (dest ++ [c])) as [[| |t]|]; [by apply IHt|done| |done].
  destruct n as [|n], m as [|m]; [done|done|lia|]. apply IHn; lia.
Qed.

Lemma walk_mono create fs n m dest todo p :
  (n <= m)%nat -> walk create fs n dest todo = Ok p -> walk create fs m dest todo = Ok p.
Proof. intros Hnm Hp. by apply (walk_more create fs n). Qed.

(** Entries that stay: every directory and link, and a file at the place of each file. *)
Definition grows (fs fs' : FS) : Prop :=
  forall p, match Lstat fs p with
            | None => True
            | Some (File _) => exists s, Lstat fs' p = Some (File s)
            | Some x => Lstat fs' p = Some x
            end.

Lemma walk_grows fs fs' n dest todo p :
  grows fs fs' -> walk false fs n dest todo = Ok p -> walk false fs' n dest todo = Ok p.
Proof.
  intros Hg. revert dest todo. induction n as [n IHn] using lt_wf_ind. intros dest todo.
  revert dest. induction todo as [|c todo IHt]; intros dest; [by rewrite !walk_nil|].
  rewrite !walk_eq. case_match; [by apply IHt|]. case_match; [by apply IHt|].
  specialize (Hg (dest ++ [c])). destruct (Lstat fs (dest ++ [c])) as [[| |t]|]; [| | |done].
  - rewrite Hg. apply IHt.
  - destruct Hg as [s ->]. by case_bool_decide.
  - rewrite Hg. destruct n as [|n]; [done|]. apply IHn. lia.
Qed.

(** A walk over two parts. *)
Lemma walk_app create fs n dest a b :
  wf fs -> Lstat fs dest = Some Dir -> b <> [] ->
  match walk false fs n dest a with
  | Ok q =>
      (Lstat fs q = Some Dir -> exists m, (m <= n)%nat /\ walk create fs n dest (a ++ b) = walk create fs m q b) /\
      (Lstat fs q <> Some Dir -> exists e, walk create fs n dest (a ++ b) = Err e)
  | Err e => walk create fs n dest (a ++ b) = Err e
  end.
Proof.
  intros Hwf Hd Hb. revert dest a Hd. induction n as [n IHn] using lt_wf_ind. intros dest a.
  revert dest. induction a as [|c a IHa]; intros dest Hd.
  { rewrite walk_nil. split; [intros _; by exists n | done]. }
  change ((c :: a) ++ b) with (c :: (a ++ b)). rewrite !walk_eq.
  destruct (is_empty c || _); [by apply IHa|]. destruct (String.eqb c ".."); [by apply IHa, wf_removelast|].
  destruct (Lstat fs (dest ++ [c])) as [[|s|t]|] eqn:Hl.
  - by apply IHa.
  - rewrite (bool_decide_eq_false_2 (a ++ b = [])) by (intros [_ ?]%app_nil; done).
    case_bool_decide; [|done]. rewrite Hl. split; [done|]. intros _. by eexists.
  - destruct n as [|n]; [done|]. rewrite app_assoc.
    specialize (IHn n ltac:(lia) (if IsAbs t then [] else dest) (Split "/" t ++ a) ltac:(by destruct (IsAbs t))).
    destruct (walk false fs n _ _) as [q|e]; [|done]. destruct IHn as [H1 H2]. split; [|done].
    intros Hq. destruct (H1 Hq) as (m & Hm & ->). exists m. split; [lia|done].
  - by rewrite (bool_decide_eq_false_2 (a ++ b = [])), andb_false_r by (intros [_ ?]%app_nil; done).
Qed.

(** The last name. *)
Lemma walk_last create fs n q c :
  plain c ->
  walk create fs n q [c] =
    match Lstat fs (q ++ [c]) with
    | None => if create then Ok (q ++ [c]) else Err NotExist
    | Some (Link t) => match n with O => Err TooManyLinks | S m => walk create fs m (if IsAbs t then [] else q) (Split "/" t ++ []) end
    | Some _ => Ok (q ++ [c])
    end.
Proof.
  intros (H1 & H2 & H3 & _). rewrite walk_eq. unfold is_empty.
  rewrite (proj2 (String.eqb_neq c "") H1), (proj2 (String.eqb_neq c ".") H2), (proj2 (String.eqb_neq c "..") H3).
  cbn [orb]. rewrite bool_decide_eq_true_2, andb_true_r by done. repeat case_match; try done; by rewrite walk_nil.
Qed.

(** A path without links leads to itself. *)
Lemma walk_canon create fs n p : wf fs -> Forall plain p -> real fs p -> walk create fs n [] p = Ok p.
Proof.
  intros Hwf. revert create. induction p as [|c p IH] using rev_ind; intros create Hp Hr; [apply walk_nil|].
  apply Forall_app in Hp as [Hp [Hc _]%Forall_cons].
  assert (Lstat fs p = Some Dir) as Hd by (destruct Hr as [H|[s H]]; by eapply wf_parent).
  assert (walk false fs n [] p = Ok p) as Hw by (apply IH; [done | by left]).
  pose proof (walk_app create fs n [] p [c] Hwf eq_refl) as Ha. rewrite Hw in Ha. specialize (Ha ltac:(discriminate)).
  destruct (proj1 Ha Hd) as (m & _ & ->). rewrite walk_last by done. by destruct Hr as [->|[s ->]].
Qed.

Lemma Forall_removelast {A} (P : A -> Prop) l : Forall P l -> Forall P (removelast l).
Proof.
  destruct l as [|x l _] using rev_ind; [done|]. rewrite removelast_last. by intros [? _]%Forall_app.
Qed.

(** The names of the end of a walk are plain. *)
Lemma walk_plain fs n dest todo p :
  Forall plain dest -> Forall no_slash todo -> walk false fs n dest todo = Ok p -> Forall plain p.
Proof.
  revert dest todo. induction n as [n IHn] using lt_wf_ind. intros dest todo.
  revert dest. induction todo as [|c todo IHt]; intros dest Hd Ht; [rewrite walk_nil; by intros [= <-]|].
  apply Forall_cons in Ht as [Hc Ht]. rewrite walk_eq. unfold is_empty.
  destruct (String.eqb_spec c ""); [by apply IHt|]. destruct (String.eqb_spec c "."); [by apply IHt|]. cbn [orb].
  destruct (String.eqb_spec c ".."); [by apply IHt; [apply Forall_removelast|]|].
  assert (Forall plain (dest ++ [c])) by (apply Forall_app_2; [done|]; by apply Forall_singleton).
  repeat case_match; try done; [by apply IHt | by intros [= <-] | |].
  - apply IHn; [lia|done|]. apply Forall_app_2; [apply Split_no_slash|done].
  - apply IHn; [lia|done|]. apply Forall_app_2; [apply Split_no_slash|done].
Qed.

Lemma plain_no_slash l : Forall plain l -> Forall no_slash l.
Proof. intros Hl. eapply Forall_impl; [exact Hl|]. by intros c (_ & _ & _ & ?). Qed.

Lemma Split_text l : Forall plain l -> Split "/" (path_text true l) = "" :: match l with [] => [""] | _ => l end.
Proof.
  intros Hl. unfold path_text. change (String "/" (join_slash l)) with ("" +:+ String "/" (join_slash l)).
  rewrite Split_app. destruct l as [|c l]; [done|]. by rewrite Split_join by (done || by apply plain_no_slash).
Qed.

Lemma EvalSymlinks_text fs l : Forall plain l -> EvalSymlinks fs (path_text true l) = path_text true <$> walk false fs 255 [] l.
Proof. intros Hl. unfold EvalSymlinks. rewrite Split_text by done. by destruct l as [|c l]. Qed.

(** Where a resolved path is. *)
Lemma EvalSymlinks_real fs path p :
  wf fs -> EvalSymlinks fs path = Ok p -> exists q, p = path_text true q /\ Forall plain q /\ real fs q.
Proof.
  intros Hwf. unfold EvalSymlinks. destruct (walk _ _ _ _ _) as [q|] eqn:Hq; [|done]. intros [= <-]. exists q.
  split; [done|]. split; [|by eapply (walk_real fs 255 []), Hq].
  eapply walk_plain; [constructor | apply Split_no_slash | exact Hq].
Qed.

Lemma Dirname_text l c : Forall plain l -> plain c -> Dirname (path_text true (l ++ [c])) = path_text true l.
Proof.
  intros Hl Hc. unfold Dirname. rewrite Split_text by (apply Forall_app_2; [done | by apply Forall_singleton]).
  replace ("" :: match l ++ [c] with [] => [""] | _ => l ++ [c] end) with (("" :: l) ++ [c]) by (by destruct l).
  rewrite removelast_last. set (s := join_slash _).
  assert (Split "/" s = ("" :: l) ++ [""]) as Hs.
  { apply Split_join; [done|]. constructor; [apply not_elem_of_nil|]. apply Forall_app_2; [by apply plain_no_slash|].
    apply Forall_singleton, not_elem_of_nil. }
  assert (IsAbs s = true) as Ha by (unfold s; by destruct l). unfold Clean, elems. rewrite Hs, Ha.
  change (("" :: l) ++ [""]) with ("" :: (l ++ [""])). cbn [foldl]. change (push_elem true [] "") with (@nil string).
  rewrite foldl_app, (foldl_push_plain true l) by done. cbn [foldl]. change (push_elem true (rev l ++ []) "") with (rev l ++ []).
  by rewrite app_nil_r, rev_involutive.
Qed.

Lemma Dirname_root : Dirname (path_text true []) = path_text true [].
Proof. done. Qed.

Lemma text_inj l l' : Forall plain l -> Forall plain l' -> path_text true l = path_text true l' -> l = l'.
Proof. intros Hl Hl' H. rewrite <- (elems_path_text l), <- (elems_path_text l') by done. by rewrite H. Qed.

(** ** What [inside] tests *)

Definition undotted (c : string) : Prop := has_prefix c ".." = false.
Definition within (R q : list string) : Prop := exists l, q = R ++ l /\ Forall undotted l.

Lemma contains_no_slash x : no_slash x -> str_contains x "/.." = false.
Proof.
  induction x as [|c x IH]; [done|]. intros [Hc Hx]%not_elem_of_cons. cbn [str_contains has_prefix].
  rewrite (proj2 (Ascii.eqb_neq _ _)) by done. by apply IH.
Qed.

Lemma contains_cut x s : no_slash x -> str_contains (x +:+ String "/" s) "/.." = has_prefix s ".." || str_contains s "/..".
Proof.
  induction x as [|c x IH]; [done|]. intros [Hc Hx]%not_elem_of_cons. rewrite str_app_cons. cbn [str_contains].
  rewrite IH by done. cbn [has_prefix]. by rewrite (proj2 (Ascii.eqb_neq _ _)) by done.
Qed.

Lemma prefix_join x l : plain x -> has_prefix (join_slash (x :: l)) ".." = has_prefix x "..".
Proof.
  intros (H1 & H2 & H3 & _). destruct l as [|y l]; [done|]. cbn [join_slash].
  destruct x as [|a [|b x]]; [done| |by rewrite !str_app_cons].
  cbn. destruct (Ascii.eqb_spec "." a) as [<-|]; done.
Qed.

Lemma hidden_join l :
  Forall plain l -> l <> [] ->
  negb (has_prefix (join_slash l) "..") && negb (str_contains (join_slash l) "/..") = true <-> Forall undotted l.
Proof.
  induction 1 as [|x l Hx Hl IH]; [done|]. intros _. rewrite prefix_join, Forall_cons by done. unfold undotted at 1.
  destruct l as [|y l].
  - cbn [join_slash]. rewrite contains_no_slash by apply Hx. cbn. rewrite andb_true_r, negb_true_iff. intuition.
  - change (join_slash (x :: y :: l)) with (x +:+ String "/" (join_slash (y :: l))). rewrite contains_cut by apply Hx.
    rewrite <- IH by done. rewrite negb_orb. destruct (has_prefix x ".."), (has_prefix _ ".."), (str_contains _ _); cbn; intuition congruence.
Qed.

Lemma strip_common_app R l : strip_common R (R ++ l) = ([], l).
Proof. induction R as [|x R IH]; [by destruct l|]. cbn. by rewrite String.eqb_refl. Qed.

Lemma inside_spec R q :
  Forall plain R -> Forall plain q -> inside (path_text true R) (path_text true q) = true <-> within R q.
Proof.
  intros HR Hq. unfold inside, Rel. rewrite !Clean_path_text, !elems_path_text by done.
  destruct (String.eqb_spec (path_text true q) (path_text true R)) as [Heq%text_inj|Hne]; [|done|done|].
  { subst q. cbn. split; [|done]. intros _. exists []. by rewrite app_nil_r. }
  change (negb (Bool.eqb (IsAbs (path_text true R)) (IsAbs (path_text true q)))) with false. cbn iota.
  split.
  - destruct (strip_common R q) as [b t] eqn:Hs. apply strip_common_spec in Hs as (c & -> & ->).
    apply Forall_app in HR as [_ Hb], Hq as [_ Ht]. destruct b as [|x b].
    + rewrite app_nil_r in *. cbn [fmap list_fmap app]. destruct t as [|y t]; [by rewrite app_nil_r in Hne|].
      destruct (String.eqb_spec (join_slash (y :: t)) ".") as [Hd|_]; cbn [orb].
      * apply Forall_cons in Ht as [(_ & H2 & _ & Hn) Ht]. destruct t as [|z t]; [done|]. cbn [join_slash] in Hd.
        destruct y as [|a y]; [done|]. rewrite str_app_cons in Hd. injection Hd as -> Hd. by destruct y.
      * intros H%hidden_join; [|done|done]. by exists (y :: t).
    + assert (forall t, has_prefix (join_slash ((const ".." <$> x :: b) ++ t)) ".." = true) as Hpre.
      { intros t'. rewrite fmap_cons. cbn [app]. by destruct ((const ".." <$> b) ++ t'). }
      destruct t as [|y t].
      * rewrite Hpre. destruct (String.eqb_spec (join_slash ((const ".." <$> x :: b) ++ [])) ".") as [Hd|]; [|done].
        specialize (Hpre []). by rewrite Hd in Hpre.
      * destruct (String.eqb x ".."); [done|]. rewrite Hpre. destruct (String.eqb_spec (join_slash ((const ".." <$> x :: b) ++ y :: t)) ".") as [Hd|]; [|done].
        specialize (Hpre (y :: t)). by rewrite Hd in Hpre.
  - intros (l & -> & Hl). rewrite strip_common_app. cbn [fmap list_fmap app]. apply Forall_app in Hq as [_ Hl'].
    destruct l as [|x l]; [by rewrite app_nil_r in Hne|]. apply orb_true_iff. right. by apply hidden_join.
Qed.

(** ** Where a resolved path leads *)

(** What the loop over the parents makes sure of: the longest parent that leads anywhere
    leads into [R]. The names after [R] are reversed. *)
Fixpoint guarded (fs : FS) (R rl : list string) : Prop :=
  match rl with
  | [] => True
  | _ :: rl' => match walk false fs 255 [] (R ++ rev rl) with Ok q => within R q | Err _ => guarded fs R rl' end
  end.

Lemma walk_plain_abs fs n p q : Forall plain p -> walk false fs n [] p = Ok q -> Forall plain q.
Proof. intros Hp. by apply walk_plain; [|apply plain_no_slash]. Qed.

Lemma longer_than {A} (R rl : list A) c : R ++ rev (c :: rl) <> R.
Proof. intros H%(f_equal length). rewrite length_app, length_rev in H. cbn in H. lia. Qed.

Lemma check_parents_guarded fs fuel R rl :
  Forall plain (R ++ rev rl) -> (length rl < fuel)%nat ->
  check_parents fs fuel (path_text true R) (path_text true (R ++ rev rl)) = true -> guarded fs R rl.
Proof.
  revert fuel. induction rl as [|c rl IH]; intros fuel Hp Hf; [done|]. destruct fuel as [|n]; [cbn in Hf; lia|].
  pose proof (proj1 (proj1 (Forall_app _ _ _) Hp)) as HR. cbn [check_parents].
  destruct (String.eqb_spec (path_text true (R ++ rev (c :: rl))) (path_text true R)) as [H%text_inj|_]; [by apply longer_than in H|done|done|].
  cbn [orb]. destruct (String.eqb_spec (path_text true (R ++ rev (c :: rl))) (Dirname (path_text true R))) as [H|_].
  { exfalso. destruct R as [|x R _] using rev_ind; [apply text_inj in H; [by apply longer_than in H|done|done]|].
    apply Forall_app in HR as [HR [Hx _]%Forall_cons]. rewrite Dirname_text in H by done. apply text_inj in H; [|done|done].
    apply (f_equal length) in H. rewrite !length_app, length_rev in H. cbn in H. lia. }
  rewrite EvalSymlinks_text by done. cbn [guarded]. destruct (walk false fs 255 [] _) as [q|e] eqn:Hw; cbn.
  - intros Hi. apply inside_spec in Hi; [done|done|]. exact (walk_plain_abs _ _ _ _ Hp Hw).
  - intros Hc. cbn [rev] in Hp, Hc. rewrite app_assoc in Hp, Hc. pose proof (proj1 (Forall_app _ _ _) Hp) as [Hp' [Hx _]%Forall_cons].
    rewrite Dirname_text in Hc by done. eapply IH; [done| |exact Hc]. cbn in Hf. lia.
Qed.

(** The parents of an entry are guarded. *)
Lemma guarded_real fs R l :
  wf fs -> Forall plain (R ++ l) -> Forall undotted l -> real fs (R ++ l) -> guarded fs R (rev (removelast l)).
Proof.
  intros Hwf Hp Hu Hr. destruct l as [|c l _] using rev_ind; [done|]. rewrite removelast_last.
  destruct l as [|d l _] using rev_ind; [done|]. rewrite rev_app_distr. cbn [rev app guarded].
  rewrite rev_involutive. rewrite app_assoc in Hp, Hr. apply Forall_app in Hp as [Hp _], Hu as [Hu _].
  rewrite walk_canon; [by exists (l ++ [d])|done|done|]. left. by destruct Hr as [H|[s H]]; eapply wf_parent.
Qed.

#[local] Arguments check_parents : simpl never.

(** What [Resolve] promises: the target is named under the canonical root, and what
    exists of it lies there. *)
Record resolved (fs : FS) (root rel : string) (R l : list string) : Prop := mkResolved {
  rv_root : EvalSymlinks fs root = Ok (path_text true R);
  rv_plain : Forall plain (R ++ l);
  rv_undotted : Forall undotted l;
  rv_real : real fs R;
  rv_guarded : guarded fs R (rev (removelast l));
  rv_relative : IsAbs rel = false;
  rv_cleaned : exists cl, Clean (Join (path_text true R) rel) = path_text true cl /\ Forall plain cl /\ within R cl /\
    (walk false fs 255 [] cl = Ok (R ++ l) \/ cl = R ++ l /\ walk false fs 255 [] cl = Err NotExist);
}.

Lemma IsAbs_text R : IsAbs (path_text true R) = true.
Proof. reflexivity. Qed.

Lemma Join_text R rel : exists q, Clean (Join (path_text true R) rel) = path_text true q /\ Forall plain q.
Proof.
  assert (IsAbs (Join (path_text true R) rel) = true) as Ha.
  { unfold Join. change (is_empty (path_text true R)) with false. cbn iota.
    assert (forall p, IsAbs p = true -> IsAbs (Clean p) = true) as HC by (intros p Hp; rewrite Clean_abs by exact Hp; apply IsAbs_text).
    destruct (is_empty rel); apply HC; [apply IsAbs_text|]. rewrite IsAbs_app by discriminate. apply IsAbs_text. }
  exists (elems (Join (path_text true R) rel)). split; [by apply Clean_abs | by apply elems_plain].
Qed.

Lemma Resolve_spec fs cwd root rel target :
  wf fs -> Resolve fs cwd root rel = Ok target ->
  exists R l, target = path_text true (R ++ l) /\ resolved fs (Abs cwd root) rel R l.
Proof.
  intros Hwf. unfold Resolve. destruct (IsAbs rel) eqn:Hrel; [done|]. destruct (EvalSymlinks fs (Abs cwd root)) as [p|] eqn:Hroot; [|done].
  destruct (EvalSymlinks_real _ _ _ Hwf Hroot) as (R & -> & HR & Hreal). cbn.
  set (cleaned := Clean (Join _ rel)).
  destruct (Join_text R rel) as (q & Hq & Hqp). pose proof Hq as Hcl. fold cleaned in Hq.
  clearbody cleaned. subst cleaned. destruct (inside (path_text true R) (path_text true q)) eqn:Hin; cbn [negb]; [|discriminate].
  apply inside_spec in Hin as (l & -> & Hl); [|assumption|assumption].
  rewrite EvalSymlinks_text by done. destruct (walk false fs 255 [] (R ++ l)) as [q|[| |]] eqn:Hw; cbn; [| |done|done].
  - destruct (inside _ _) eqn:Hin; [|done]. intros [= <-].
    pose proof (walk_plain_abs _ _ _ _ Hqp Hw) as Hp. apply inside_spec in Hin as (l' & -> & Hl'); [|done|done].
    pose proof (walk_real fs 255 [] _ _ Hwf eq_refl Hw) as Hr. exists R, l'. split; [done|]. split; try done; [by apply guarded_real|].
    exists (R ++ l). split_and!; [done|done|by exists l|by left].
  - rewrite elems_path_text by done. destruct (check_parents _ _ _ _) eqn:Hc; [|done]. intros [= <-].
    exists R, l. split; [done|]. split; try done; [|exists (R ++ l); split_and!; [done|done|by exists l|by right]].
    destruct l as [|c l _] using rev_ind; [done|]. rewrite removelast_last. rewrite app_assoc in Hc, Hqp.
    pose proof (proj1 (Forall_app _ _ _) Hqp) as [Hqp' [Hx _]%Forall_cons]. rewrite Dirname_text in Hc by done.
    eapply check_parents_guarded; [by rewrite rev_involutive| |by rewrite rev_involutive].
    rewrite length_rev, !length_app. lia.
Qed.

(** ** Making directories *)

(** Nothing that was there is gone or changed. *)
Definition keeps (fs fs' : FS) : Prop := forall p x, Lstat fs p = Some x -> Lstat fs' p = Some x.

Lemma keeps_grows fs fs' : keeps fs fs' -> grows fs fs'.
Proof. intros Hk p. destruct (Lstat fs p) as [[| |]|] eqn:Hp; eauto. Qed.

#[export] Instance keeps_refl : Reflexive keeps.
Proof. by intros fs p x. Qed.

Lemma keeps_trans fs1 fs2 fs3 : keeps fs1 fs2 -> keeps fs2 fs3 -> keeps fs1 fs3.
Proof. intros H1 H2 p x Hx. by apply H2, H1. Qed.

Lemma Lstat_insert fs p c x : Lstat (<[p ++ [c] := x]> fs) (p ++ [c]) = Some x.
Proof. by rewrite Lstat_snoc, lookup_insert_eq. Qed.

Lemma Lstat_insert_ne fs p e x : p <> [] -> e <> p -> Lstat (<[p := x]> fs) e = Lstat fs e.
Proof. intros Hp He. destruct e as [|d e]; [done|]. cbn. by rewrite lookup_insert_ne. Qed.

Lemma snoc_ne {A} (p : list A) c : p ++ [c] <> [].
Proof. by destruct p. Qed.

Lemma snoc_inj {A} (p q : list A) c d : p ++ [c] = q ++ [d] -> p = q /\ c = d.
Proof. intros H. apply app_inj_tail in H. done. Qed.

#[local] Hint Resolve snoc_ne : core.

Lemma keeps_insert fs p c x : Lstat fs (p ++ [c]) = None -> keeps fs (<[p ++ [c] := x]> fs).
Proof. intros Hn e y He. rewrite Lstat_insert_ne; [done|done|]. intros ->. congruence. Qed.

Lemma wf_insert fs p c x : wf fs -> Lstat fs p = Some Dir -> Lstat fs (p ++ [c]) = None -> wf (<[p ++ [c] := x]> fs).
Proof.
  intros Hwf Hp Hn q d Hq. destruct (decide (q ++ [d] = p ++ [c])) as [[-> ->]%snoc_inj|Hne].
  - by apply keeps_insert.
  - rewrite lookup_insert_ne in Hq by done. apply keeps_insert; [done|]. by eapply Hwf.
Qed.

Section Making.
Context (sys_links : nat) (Hlinks : (sys_links <= 255)%nat).

Notation sys_walk := (sys_walk sys_links).
Notation Stat := (Stat sys_links).
Notation entry := (entry sys_links).
Notation Mkdir := (Mkdir sys_links).
Notation MkdirAll := (MkdirAll sys_links).

Lemma entry_snoc fs p c :
  entry fs (p ++ [c]) = match sys_walk false fs p with Ok q => match Lstat fs q with Some Dir => Some (q ++ [c]) | _ => None end | Err _ => None end.
Proof. unfold entry. by rewrite removelast_last, last_snoc. Qed.

Lemma sys_walk_255 fs p q : sys_walk false fs p = Ok q -> walk false fs 255 [] p = Ok q.
Proof. by apply walk_mono. Qed.

Lemma sys_walk_snoc create fs p q c :
  wf fs -> sys_walk false fs p = Ok q -> Lstat fs q = Some Dir ->
  exists m, (m <= sys_links)%nat /\ sys_walk create fs (p ++ [c]) = walk create fs m q [c].
Proof.
  intros Hwf Hq Hd. pose proof (walk_app create fs sys_links [] p [c] Hwf eq_refl ltac:(discriminate)) as Ha.
  unfold sys_walk in Hq. rewrite Hq in Ha. by apply Ha.
Qed.

Lemma MkdirAll_eq f rp fs :
  MkdirAll f rp fs =
    match Stat fs (rev rp) with
    | Some Dir => (fs, true)
    | Some _ => (fs, false)
    | None =>
        match rp with
        | [] => (fs, false)
        | _ :: rp' =>
            let '(fs1, ok) := MkdirAll f rp' fs in
            if negb ok then (fs1, false)
            else
              let '(fs2, made) := Mkdir f fs1 (rev rp) in
              (fs2, made || match entry fs2 (rev rp) ≫= Lstat fs2 with Some Dir => true | _ => false end)
        end
    end.
Proof. by destruct rp. Qed.

Lemma Mkdir_cases f fs p c :
  Mkdir f fs (p ++ [c]) = (fs, false) \/
  exists q, sys_walk false fs p = Ok q /\ Lstat fs q = Some Dir /\ Lstat fs (q ++ [c]) = None /\
            Mkdir f fs (p ++ [c]) = (<[q ++ [c] := Dir]> fs, true).
Proof.
  unfold Mkdir. rewrite entry_snoc. destruct (sys_walk false fs p) as [q|] eqn:Hq; [|by left].
  destruct (Lstat fs q) as [[| |]|] eqn:Hd; try (by left). destruct (f_mkdir f (q ++ [c])); [by left|].
  destruct (Lstat fs (q ++ [c])) eqn:Hn; [by left|]. right. by exists q.
Qed.

(** A walk goes on in a tree that has grown. *)
Lemma sys_walk_grown fs fs2 p q c :
  wf fs2 -> keeps fs fs2 -> sys_walk false fs p = Ok q -> Lstat fs q = Some Dir -> plain c -> real fs2 (q ++ [c]) ->
  sys_walk false fs2 (p ++ [c]) = Ok (q ++ [c]).
Proof.
  intros Hwf Hk Hq Hd Hc Hr. destruct (sys_walk_snoc false fs2 p q c) as (m & _ & ->); [done| |by apply Hk|].
  - by eapply walk_grows; [apply keeps_grows|].
  - rewrite walk_last by done. by destruct Hr as [->|[s ->]].
Qed.

(** What succeeds leads to a directory. *)
Lemma MkdirAll_ok f rp fs fs' ok :
  wf fs -> Forall plain rp -> MkdirAll f rp fs = (fs', ok) ->
  wf fs' /\ keeps fs fs' /\ (ok = true -> exists q, sys_walk false fs' (rev rp) = Ok q /\ Lstat fs' q = Some Dir).
Proof.
  intros Hwf Hp. revert fs' ok. induction Hp as [|c rp Hc Hp IH]; intros fs' ok; rewrite MkdirAll_eq.
  { unfold Stat, sys_walk. rewrite walk_nil. cbn. intros [= <- <-]. split_and!; [done|done|]. exists []. split; [apply walk_nil | done]. }
  destruct (Stat fs (rev (c :: rp))) as [x|] eqn:Hs.
  { intros Heq. assert (fs' = fs /\ (ok = true -> x = Dir)) as [-> Hx] by (destruct x; by injection Heq as <- <-).
    split_and!; [done|done|]. intros ->%Hx. unfold Stat in Hs. destruct (sys_walk false fs _) as [q|]; [|done]. by exists q. }
  destruct (MkdirAll f rp fs) as [fs1 [|]] eqn:H1; cbn [negb]; [|intros [= <- <-]; destruct (IH _ _ eq_refl) as (?&?&?); done].
  destruct (IH _ _ eq_refl) as (Hwf1 & Hk1 & (q & Hq & Hd)); [done|]. cbn [rev].
  assert (forall fs2, wf fs2 -> keeps fs1 fs2 -> Lstat fs2 (q ++ [c]) = Some Dir -> sys_walk false fs2 (rev rp ++ [c]) = Ok (q ++ [c])) as Hlast.
  { intros fs2 Hwf2 Hk Hl. eapply sys_walk_grown; try done. by left. }
  destruct (Mkdir_cases f fs1 (rev rp) c) as [-> | (q' & Hq' & _ & Hn & ->)].
  - cbn [orb]. rewrite entry_snoc, Hq, Hd. cbn. intros [= <- <-]. split_and!; [done|done|].
    destruct (Lstat fs1 (q ++ [c])) as [[| |]|] eqn:Hl; try done. intros _. exists (q ++ [c]). split; [by apply Hlast|done].
  - cbn [orb]. intros [= <- <-]. rewrite Hq in Hq'. injection Hq' as <-.
    assert (wf (<[q ++ [c] := Dir]> fs1)) by by apply wf_insert.
    split_and!; [done|by eapply keeps_trans, keeps_insert|]. intros _. exists (q ++ [c]).
    split; [apply Hlast; [done|by apply keeps_insert|]|]; apply Lstat_insert.
Qed.

(** Where a path leads somewhere nothing is made. *)
Lemma MkdirAll_exists f p fs q :
  wf fs -> Forall plain p -> walk false fs 255 [] p = Ok q -> (MkdirAll f (rev p) fs).1 = fs.
Proof.
  intros Hwf. revert q. induction p as [|c p IH] using rev_ind; intros q Hp Hq.
  { cbn [rev]. rewrite MkdirAll_eq. cbn. unfold Stat, sys_walk. by rewrite walk_nil. }
  apply Forall_app in Hp as [Hp [Hc _]%Forall_cons]. rewrite rev_app_distr. cbn [rev app]. rewrite MkdirAll_eq.
  destruct (Stat fs _) as [[| |]|]; [done|done|done|].
  pose proof (walk_app false fs 255 [] p [c] Hwf eq_refl ltac:(discriminate)) as Ha. rewrite Hq in Ha.
  destruct (walk false fs 255 [] p) as [q'|] eqn:Hq'; [|done]. specialize (IH _ Hp eq_refl).
  destruct (MkdirAll f (rev p) fs) as [fs1 [|]] eqn:H1; cbn [fst negb] in *; [|done]. subst fs1.
  cbn [rev]. rewrite rev_involutive. destruct (Mkdir_cases f fs p c) as [-> | (q1 & Hq1 & Hd & Hn & _)]; [done|].
  apply sys_walk_255 in Hq1. assert (q1 = q') as -> by congruence.
  destruct (proj1 Ha Hd) as (m & _ & Hm). rewrite walk_last, Hn in Hm by done. done.
Qed.

Lemma within_snoc R q c : within R q -> undotted c -> within R (q ++ [c]).
Proof.
  intros (l & -> & Hl) Hc. exists (l ++ [c]). split; [by rewrite app_assoc|]. apply Forall_app_2; [done|]. by constructor.
Qed.

(** What is made under a guarded path is a directory under [R], and the path leads there. *)
Lemma MkdirAll_new f R rl fs fs' ok :
  wf fs -> Forall plain (R ++ rev rl) -> Forall undotted rl -> real fs R -> guarded fs R rl ->
  MkdirAll f (rl ++ rev R) fs = (fs', ok) ->
  (forall e x, Lstat fs' e = Some x -> Lstat fs e = Some x \/ (x = Dir /\ within R e /\ exists q c, e = q ++ [c] /\ c ∈ rl)) /\
  (ok = true -> forall q, sys_walk false fs' (R ++ rev rl) = Ok q -> within R q).
Proof.
  intros Hwf Hp Hu HR. revert Hp fs' ok. induction Hu as [|c rl Hc Hu IH]; intros Hp fs' ok Hg Hm.
  { cbn [app rev] in *. rewrite app_nil_r in *.
    pose proof (walk_canon false fs 255 R Hwf Hp HR) as Hw. pose proof (MkdirAll_exists f R fs R Hwf Hp Hw) as H1.
    rewrite Hm in H1. cbn in H1. subst fs'. split; [by left|]. intros _ q Hq%sys_walk_255.
    rewrite Hw in Hq. injection Hq as <-. exists []. by rewrite app_nil_r. }
  assert (rev ((c :: rl) ++ rev R) = R ++ rev (c :: rl)) as Hrev by by rewrite rev_app_distr, rev_involutive.
  cbn [guarded] in Hg. destruct (walk false fs 255 [] (R ++ rev (c :: rl))) as [q|e] eqn:Hw.
  { pose proof (MkdirAll_exists f _ fs q Hwf Hp Hw) as H1.
    rewrite <- Hrev, rev_involutive, Hm in H1. cbn in H1. subst fs'. split; [by left|].
    intros _ q' Hq'%sys_walk_255. by rewrite Hw in Hq'; injection Hq' as <-. }
  assert (Stat fs (R ++ rev (c :: rl)) = None) as Hs.
  { unfold Stat. destruct (sys_walk false fs _) as [q|] eqn:Hq; [|done]. apply sys_walk_255 in Hq. congruence. }
  rewrite MkdirAll_eq, Hrev, Hs in Hm. cbn [app] in Hm. cbn [rev] in Hp, Hm. rewrite app_assoc in Hp, Hm.
  apply Forall_app in Hp as [Hp [Hcp _]%Forall_cons].
  destruct (MkdirAll f (rl ++ rev R) fs) as [fs1 ok1] eqn:H1. destruct (IH Hp _ _ Hg eq_refl) as [Hnew Hin].
  assert (Forall plain (rl ++ rev R)) as Hp'.
  { replace (rl ++ rev R) with (rev (R ++ rev rl)) by by rewrite rev_app_distr, rev_involutive. by apply Forall_rev. }
  destruct (MkdirAll_ok _ _ _ _ _ Hwf Hp' H1) as (Hwf1 & Hk1 & Hok1). rewrite rev_app_distr, rev_involutive in Hok1.
  assert (forall e' x, Lstat fs1 e' = Some x -> Lstat fs e' = Some x \/ (x = Dir /\ within R e' /\ exists q c0, e' = q ++ [c0] /\ c0 ∈ c :: rl)) as Hnew1.
  { intros e' x [He|(Hx & Hr & q & d & -> & Hd)]%Hnew; [by left|]. right. split_and!; [done|done|]. exists q, d. split; [done|]. by right. }
  destruct ok1; cbn [negb] in Hm; [|injection Hm as <- <-; by split].
  destruct (Hok1 eq_refl) as (q1 & Hq1 & Hd1). pose proof (Hin eq_refl _ Hq1) as Hin1.
  assert (forall fs2, wf fs2 -> keeps fs1 fs2 -> Lstat fs2 (q1 ++ [c]) = Some Dir -> forall q, sys_walk false fs2 ((R ++ rev rl) ++ [c]) = Ok q -> within R q) as Hlast.
  { intros fs2 Hwf2 Hk Hl q. rewrite (sys_walk_grown fs1 fs2 _ q1 c) by (done || by left). intros [= <-]. by apply within_snoc. }
  cbn [rev]. rewrite app_assoc. destruct (Mkdir_cases f fs1 (R ++ rev rl) c) as [Hm1|(q' & Hq' & _ & Hn & Hm1)]; rewrite Hm1 in Hm; cbn [orb] in Hm.
  - rewrite entry_snoc, Hq1, Hd1 in Hm. cbn in Hm. injection Hm as <- <-. split; [done|].
    destruct (Lstat fs1 (q1 ++ [c])) as [[| |]|] eqn:Hl; try done. intros _. by apply Hlast.
  - injection Hm as <- <-. rewrite Hq1 in Hq'. injection Hq' as <-. split.
    + intros e' x He. destruct (decide (e' = q1 ++ [c])) as [->|Hne].
      * rewrite Lstat_insert in He. injection He as <-. right. split_and!; [done|by apply within_snoc|]. exists q1, c. split; [done|]. by left.
      * rewrite Lstat_insert_ne in He by done. by eapply Hnew1.
    + intros _. apply Hlast; [by apply wf_insert | by apply keeps_insert | apply Lstat_insert].
Qed.

(** Where a path led nowhere the directory it leads to is new. *)
Lemma MkdirAll_fresh f rp fs fs' e q :
  wf fs -> Forall plain rp -> walk false fs 255 [] (rev rp) = Err e -> MkdirAll f rp fs = (fs', true) ->
  sys_walk false fs' (rev rp) = Ok q -> Lstat fs q = None.
Proof.
  intros Hwf Hp. revert fs' e q. induction Hp as [|c rp Hc Hp IH]; intros fs' e q He Hm Hq; [by rewrite walk_nil in He|].
  rewrite MkdirAll_eq in Hm. destruct (Stat fs (rev (c :: rp))) as [x|] eqn:Hs.
  { unfold Stat in Hs. destruct (sys_walk false fs _) as [p|] eqn:Hw; [|done]. apply sys_walk_255 in Hw. congruence. }
  destruct (MkdirAll f rp fs) as [fs1 [|]] eqn:H1; cbn [negb] in Hm; [|done].
  destruct (MkdirAll_ok f rp fs fs1 true) as (Hwf1 & Hk1 & Hq1); [done|done|done|]. destruct (Hq1 eq_refl) as (q1 & Hw1 & Hd1).
  cbn [rev] in Hm, He, Hq.
  assert (wf fs' /\ keeps fs1 fs' /\ Lstat fs' (q1 ++ [c]) = Some Dir /\ forall t, Lstat fs1 (q1 ++ [c]) <> Some (Link t)) as (Hwf' & Hk' & Hd' & Hlink).
  { destruct (Mkdir_cases f fs1 (rev rp) c) as [H2|(q' & Hq' & _ & Hn & H2)]; rewrite H2 in Hm; cbn [orb] in Hm.
    - rewrite entry_snoc, Hw1, Hd1 in Hm. cbn in Hm. destruct (Lstat fs1 (q1 ++ [c])) as [[| |]|] eqn:Hl; try done.
      by injection Hm as <-.
    - rewrite Hw1 in Hq'. injection Hq' as <-. injection Hm as <-. rewrite Hn.
      split_and!; [by apply wf_insert|by apply keeps_insert|apply Lstat_insert|done]. }
  rewrite (sys_walk_grown fs1 fs' _ q1 c) in Hq by (done || by left). injection Hq as <-.
  destruct (walk false fs 255 [] (rev rp)) as [q2|e2] eqn:Hw2.
  - assert (fs1 = fs) as ->.
    { pose proof (MkdirAll_exists f (rev rp) fs q2 Hwf ltac:(by apply Forall_rev) Hw2) as Hx. by rewrite rev_involutive, H1 in Hx. }
    apply sys_walk_255 in Hw1. rewrite Hw1 in Hw2. injection Hw2 as <-.
    pose proof (walk_app false fs 255 [] (rev rp) [c] Hwf eq_refl ltac:(discriminate)) as Ha. rewrite Hw1, He in Ha.
    destruct (proj1 Ha Hd1) as (m & _ & Hm'). rewrite walk_last in Hm' by done.
    destruct (Lstat fs (q1 ++ [c])) as [[| |t]|]; try done. by destruct (Hlink t).
  - specialize (IH _ _ _ eq_refl eq_refl Hw1). destruct (Lstat fs (q1 ++ [c])) eqn:Hl; [|done]. apply wf_parent in Hl; [|done]. congruence.
Qed.
End Making.

(** ** Writing a file *)

Section Writing.
Context (sys_links : nat).

Lemma tmp_path_snoc p c suffix : tmp_path (p ++ [c]) suffix = p ++ [tmp_name c suffix].
Proof. unfold tmp_path. by rewrite removelast_last, last_snoc. Qed.

Lemma tmp_name_plain c suffix : plain c -> no_slash suffix -> plain (tmp_name c suffix).
Proof.
  intros (H1 & H2 & H3 & H4) Hs. unfold tmp_name.
  assert (forall a b, no_slash a -> no_slash b -> no_slash (a +:+ b)) as Happ.
  { intros a b Ha Hb. unfold no_slash, lacks in *. induction a as [|x a IH]; [done|].
    apply not_elem_of_cons in Ha as [Hx Ha]. rewrite str_app_cons. cbn [list_ascii_of_string].
    apply not_elem_of_cons. split; [done|]. by apply IH. }
  assert (4 < String.length (c +:+ ".tmp." +:+ suffix))%nat as Hl.
  { rewrite !str_length_app. destruct c; [done|]. cbn. lia. }
  assert (no_slash ".tmp.") by by apply (bool_decide_unpack (no_slash ".tmp.")); vm_compute.
  split_and!; [intros Ht; rewrite Ht in Hl; cbn in Hl; lia..|]. by repeat apply Happ.
Qed.

Lemma tmp_name_ne c suffix : tmp_name c suffix <> c.
Proof. unfold tmp_name. intros H%(f_equal String.length). rewrite !str_length_app in H. cbn in H. lia. Qed.

(** The outcomes of [atomicWrite] in a directory [q] that has no entry with the temporary
    name: the entry holds the data, or it is what it was. *)
Lemma atomicWrite_cases f suffix fs p q c data fs' ok :
  wf fs -> sys_walk sys_links false fs p = Ok q -> Lstat fs q = Some Dir -> plain c -> no_slash suffix ->
  Lstat fs (q ++ [tmp_name c suffix]) = None ->
  atomicWrite sys_links f suffix fs (p ++ [c]) data = (fs', ok) ->
  (ok = true /\ Lstat fs (q ++ [c]) <> Some Dir /\ fs' = <[q ++ [c] := File data]> fs) \/
  (ok = false /\ (fs' = fs \/ f_remove f = true /\ exists s, fs' = <[q ++ [tmp_name c suffix] := File s]> fs)).
Proof.
  intros Hwf Hq Hd Hc Hs Hn. unfold atomicWrite. destruct (f_rand f); [intros [= <- <-]; by right; split; [|left]|].
  set (t := q ++ [tmp_name c suffix]) in *. rewrite tmp_path_snoc. unfold open_trunc.
  assert (sys_walk sys_links true fs (p ++ [tmp_name c suffix]) = Ok t) as ->.
  { destruct (sys_walk_snoc sys_links true fs p q (tmp_name c suffix)) as (m & _ & ->); try done.
    rewrite walk_last by by apply tmp_name_plain. fold t. by rewrite Hn. }
  rewrite Hn. destruct (f_open f); [intros [= <- <-]; by right; split; [|left]|].
  rewrite insert_insert_eq. set (fsB := <[t := _]> fs).
  assert (keeps fs fsB) as Hk by by apply keeps_insert.
  assert (forall x, entry sys_links fsB (p ++ [x]) = Some (q ++ [x])) as Hent.
  { intros x. rewrite entry_snoc. unfold sys_walk. rewrite (walk_grows fs fsB _ _ _ q); [|by apply keeps_grows|done].
    by rewrite (Hk _ _ Hd). }
  assert (Lstat fsB t = Some (File (default data (f_write f)))) as Ht by apply Lstat_insert.
  assert (delete t fsB = fs) as Hdel by (apply delete_insert_id; unfold t in *; by rewrite <- Lstat_snoc).
  assert (forall b : bool, (Remove sys_links f fsB (p ++ [tmp_name c suffix]), false) = (fs', b) ->
    b = false /\ (fs' = fs \/ f_remove f = true /\ exists s, fs' = <[t := File s]> fs)) as Hrem.
  { intros b. unfold Remove. rewrite Hent. fold t. rewrite Hdel. intros [= <- <-]. split; [done|].
    destruct (f_remove f); [right; split; [done|]; by eexists | by left]. }
  destruct (bool_decide (is_Some (f_write f)) || f_sync f || f_close f) eqn:Hf; [intros H; right; by apply Hrem|].
  unfold Rename. rewrite !Hent. fold t. rewrite Ht.
  assert (Lstat fsB (q ++ [c]) = Lstat fs (q ++ [c])) as Hlc.
  { apply Lstat_insert_ne; unfold t; [apply snoc_ne|]. intros [_ H]%snoc_inj. by apply (tmp_name_ne c suffix). }
  rewrite Hlc, Hdel. apply orb_false_iff in Hf as [[Hf _]%orb_false_iff _].
  apply bool_decide_eq_false, eq_None_not_Some in Hf. rewrite Hf. cbn [default].
  assert (Lstat fs (q ++ [c]) = Some Dir \/ Lstat fs (q ++ [c]) <> Some Dir) as [->|Hne]
    by (destruct (Lstat fs (q ++ [c])) as [[| |]|]; auto); [intros H; right; by apply Hrem|].
  intros H. destruct (f_rename f).
  - right. apply Hrem. by destruct (Lstat fs (q ++ [c])) as [[| |]|].
  - left. destruct (Lstat fs (q ++ [c])) as [[| |]|]; try done; by injection H as <- <-.
Qed.
End Writing.

(** ** The two tools *)

(** Whether a path has one of the two endings that can be written. *)
Definition source_file (path : string) : bool := contains_eq [".pkl"; ".star"] (ToLower (Ext path)).

(** Every link leads somewhere. *)
Definition no_dangling (fs : FS) : Prop :=
  forall p t, Lstat fs p = Some (Link t) -> exists q, walk false fs 255 [] p = Ok q.

Section Correct.
Context (sys_links : nat) (Hlinks : (sys_links <= 255)%nat).
Context (parse : string -> string -> option (Z * Z * string)) (sha256_hex : string -> string).
Context (cwd configDir : string) (ReadFileMaxBytes : Z).

Notation write := (write_config_file sys_links parse sha256_hex cwd configDir).
Notation read := (read_config_file sys_links sha256_hex cwd configDir ReadFileMaxBytes).
Notation root := (Abs cwd configDir).

(** The random suffix is new: no entry and no name of the path has it. *)
Definition new_suffix (fs : FS) (path suffix : string) : Prop :=
  no_slash suffix /\ (forall q c, Lstat fs (q ++ [tmp_name c suffix]) = None) /\
  forall target c, Resolve fs cwd configDir path = Ok target -> tmp_name c suffix ∉ elems target.

(** The directory itself has no name of a source file. *)
Definition plain_root (fs : FS) : Prop := forall R, EvalSymlinks fs root = Ok R -> source_file R = false.

Lemma CheckSyntax_source path content : CheckSyntax parse path content = Fine -> source_file path = true.
Proof.
  unfold CheckSyntax, source_file, contains_eq. cbn [existsb].
  destruct (String.eqb_spec (ToLower (Ext path)) ".pkl") as [->|H1]; [done|].
  destruct (String.eqb_spec (ToLower (Ext path)) ".star") as [->|H2]; [done|]. done.
Qed.

(** What a call of the write tool can come to: nothing; new directories; these and the file,
    or these and a temporary file that could not be removed. *)
Lemma write_cases f suffix session fs path content fs' r :
  wf fs -> plain_root fs -> new_suffix fs path suffix -> write f suffix session fs path content = (fs', r) ->
  (fs' = fs /\ is_ok r = false) \/
  exists R l c fs1, resolved fs root path R (l ++ [c]) /\ wf fs1 /\ keeps fs fs1 /\
    (forall e x, Lstat fs1 e = Some x -> Lstat fs e = Some x \/ (x = Dir /\ within R e)) /\
    ((fs' = fs1 /\ is_ok r = false) \/
     exists q, MkdirAll sys_links f (rev (R ++ l)) fs = (fs1, true) /\ sys_walk sys_links false fs1 (R ++ l) = Ok q /\ Lstat fs1 q = Some Dir /\ within R q /\
       ((is_ok r = true /\ Lstat fs1 (q ++ [c]) <> Some Dir /\ fs' = <[q ++ [c] := File content]> fs1) \/
        (is_ok r = false /\ Lstat fs1 (q ++ [tmp_name c suffix]) = None /\ exists s, fs' = <[q ++ [tmp_name c suffix] := File s]> fs1))).
Proof using Hlinks.
  intros Hwf Hroot (Hs & Hnew & Hpath). unfold write_config_file.
  destruct (Resolve fs cwd configDir path) as [target|] eqn:Hres; [|intros [= <- <-]; by left].
  destruct (CheckSyntax parse target content) eqn:Hsyn; [|intros [= <- <-]; by left..].
  destruct (Resolve_spec _ _ _ _ _ Hwf Hres) as (R & l & -> & Hrv). destruct l as [|c l _] using rev_ind.
  { apply CheckSyntax_source in Hsyn. rewrite app_nil_r, (Hroot _ (rv_root _ _ _ _ _ Hrv)) in Hsyn. done. }
  pose proof (rv_plain _ _ _ _ _ Hrv) as Hp. rewrite app_assoc in Hp. pose proof (proj1 (Forall_app _ _ _) Hp) as [Hp' [Hc _]%Forall_cons].
  pose proof (rv_undotted _ _ _ _ _ Hrv) as [Hu _]%Forall_app. pose proof (rv_guarded _ _ _ _ _ Hrv) as Hg. rewrite removelast_last in Hg.
  specialize (Hpath _ c eq_refl). rewrite app_assoc in Hpath |- *. rewrite Dirname_text, !elems_path_text in * by done.
  destruct (MkdirAll sys_links f (rev (R ++ l)) fs) as [fs1 ok1] eqn:Hmk.
  destruct (MkdirAll_ok sys_links f (rev (R ++ l)) fs fs1 ok1) as (Hwf1 & Hk1 & Hok1); [done|by apply Forall_rev|done|].
  destruct (MkdirAll_new sys_links Hlinks f R (rev l) fs fs1 ok1) as [Hn1 Hin1];
    [done|by rewrite rev_involutive|by apply Forall_rev|by eapply rv_real|done|by rewrite <- rev_app_distr|].
  rewrite rev_involutive in *. destruct ok1.
  2: { intros [= <- <-]. right. exists R, l, c, fs1. split_and!; [done..| |by left]. intros e x [?|(?&?&_)]%Hn1; eauto. }
  destruct (Hok1 eq_refl) as (q & Hq & Hd). pose proof (Hin1 eq_refl _ Hq) as Hin.
  assert (Lstat fs1 (q ++ [tmp_name c suffix]) = None) as Ht.
  { destruct (Lstat fs1 (q ++ [tmp_name c suffix])) as [x|] eqn:Hx; [|done].
    apply Hn1 in Hx as [Hx|(_ & _ & q' & c' & [-> <-]%snoc_inj & Hin')]; [by rewrite Hnew in Hx|].
    destruct Hpath. rewrite !elem_of_app. left. right. by apply list_elem_of_In, in_rev, list_elem_of_In. }
  destruct (atomicWrite sys_links f suffix fs1 ((R ++ l) ++ [c]) content) as [fs2 ok2] eqn:Hw.
  intros Heq. assert (fs' = fs2 /\ is_ok r = ok2) as [-> Hr] by (by destruct ok2; injection Heq as <- <-).
  right. exists R, l, c, fs1. split_and!; [done..| |]; [intros e x [?|(?&?&_)]%Hn1; eauto|].
  destruct (atomicWrite_cases sys_links f suffix fs1 (R ++ l) q c content fs2 ok2) as [(-> & Hnd & ->)|(-> & [->|(_ & s & ->)])]; try done.
  - right. exists q. split_and!; [done..|]. by left.
  - by left.
  - right. exists q. split_and!; [done..|]. right. split_and!; [done..|]. by exists s.
Qed.

Lemma resolved_root fs path R l R' :
  resolved fs root path R l -> EvalSymlinks fs root = Ok (path_text true R') -> Forall plain R' -> R = R'.
Proof.
  intros Hrv HR' Hp. rewrite (rv_root _ _ _ _ _ Hrv) in HR'.
  assert (path_text true R = path_text true R') as Ht by congruence. apply text_inj in Ht; [done| |done]. exact (proj1 (proj1 (Forall_app _ _ _) (rv_plain _ _ _ _ _ Hrv))).
Qed.

(** C31. The write tool changes nothing outside of the configuration directory, whatever
    path it is given, whatever links the tree has and whichever of its steps fail; given
    that the random suffix of its temporary file is new and the path of the directory is
    clean and not itself named like a source file. *)
Theorem write_confined f suffix session fs path content R e :
  wf fs -> plain_root fs -> new_suffix fs path suffix ->
  EvalSymlinks fs root = Ok (path_text true R) -> Forall plain R -> (forall l, e <> R ++ l) ->
  Lstat (write f suffix session fs path content).1 e = Lstat fs e.
Proof using Hlinks.
  intros Hwf Hroot Hsfx HR Hp He. destruct (write f suffix session fs path content) as [fs' r] eqn:Hw. cbn.
  destruct (write_cases _ _ _ _ _ _ _ _ Hwf Hroot Hsfx Hw) as [[-> _]|(R' & l & c & fs1 & Hrv & _ & Hk & Hnew & Hcase)]; [done|].
  pose proof (resolved_root _ _ _ _ _ Hrv HR Hp) as ->.
  assert (forall q d, within R q -> e <> q ++ [d]) as Hne by (intros q d (k & -> & _); rewrite <- app_assoc; apply He).
  assert (Lstat fs1 e = Lstat fs e) as He1.
  { destruct (Lstat fs e) as [x|] eqn:Hx; [by apply Hk|]. destruct (Lstat fs1 e) as [x|] eqn:Hx1; [|done].
    apply Hnew in Hx1 as [?|[_ (k & Hk' & _)]]; [congruence|]. by destruct (He k). }
  destruct Hcase as [[-> _]|(q & _ & _ & _ & Hin & [(_ & _ & ->)|(_ & _ & s & ->)])]; [done| |];
    rewrite Lstat_insert_ne; [done|apply snoc_ne|by apply Hne|done|apply snoc_ne|by apply Hne].
Qed.

(** The read tool returns a file of the configuration directory: its content, from a
    location under the directory, not larger than the limit (below four gigabytes) and
    valid UTF-8. *)
Theorem read_confined failed fs path R out :
  wf fs -> EvalSymlinks fs root = Ok (path_text true R) -> Forall plain R -> read failed fs path = Ok out ->
  exists l, Lstat fs (R ++ l) = Some (File (fo_content out)) /\ utf8_valid (list_ascii_of_string (fo_content out)) = true /\
    fo_size_bytes out = Z.of_nat (String.length (fo_content out)) /\
    (0 < ReadFileMaxBytes -> fo_size_bytes out < 2 ^ 32 -> fo_size_bytes out <= ReadFileMaxBytes).
Proof using Hlinks.
  intros Hwf HR Hp. unfold read_config_file.
  destruct (Resolve fs cwd configDir path) as [target|] eqn:Hres; [|done]. cbn [map_err mbind result_bind].
  destruct (Resolve_spec _ _ _ _ _ Hwf Hres) as (R' & l & -> & Hrv). pose proof (resolved_root _ _ _ _ _ Hrv HR Hp) as ->.
  pose proof (rv_plain _ _ _ _ _ Hrv) as Hpl. rewrite elems_path_text by done.
  destruct (Stat sys_links fs (R ++ l)) as [[|data|]|] eqn:Hs; try done.
  unfold Stat in Hs. destruct (sys_walk sys_links false fs (R ++ l)) as [q|] eqn:Hq; [|done]. apply (sys_walk_255 sys_links Hlinks) in Hq.
  assert (q = R ++ l) as ->.
  { destruct (rv_cleaned _ _ _ _ _ Hrv) as (cl & _ & _ & _ & [Hcl|[-> Hcl]]); [|congruence].
    rewrite walk_canon in Hq; [by injection Hq|done|done|]. by apply (walk_real fs 255 [] cl). }
  destruct (_ && _) eqn:Hcap; [done|]. destruct failed; [done|]. destruct (utf8_valid _) eqn:Hu; [|done]. intros [= <-].
  exists l. cbn. split_and!; [done..|]. intros H1 H2. unfold u32 in Hcap. rewrite Z.mod_small in Hcap by lia. lia.
Qed.

(** A write is all or nothing: one that fails leaves every file as it was, and one
    that succeeds leaves one entry that holds exactly the content, every other entry
    being as it was. *)
Theorem write_atomic f suffix session fs path content fs' r :
  wf fs -> plain_root fs -> new_suffix fs path suffix -> write f suffix session fs path content = (fs', r) ->
  match r with
  | Err _ => keeps fs fs'
  | Ok _ => exists e, Lstat fs' e = Some (File content) /\ forall p x, p <> e -> Lstat fs p = Some x -> Lstat fs' p = Some x
  end.
Proof using Hlinks.
  intros Hwf Hroot Hsfx Hw.
  destruct (write_cases _ _ _ _ _ _ _ _ Hwf Hroot Hsfx Hw) as [[-> Hr]|(R & l & c & fs1 & _ & _ & Hk & _ & Hcase)]; [by destruct r|].
  destruct Hcase as [[-> Hr]|(q & _ & _ & _ & _ & [(Hr & _ & ->)|(Hr & Ht & s & ->)])]; destruct r; try done.
  - exists (q ++ [c]). split; [apply Lstat_insert|]. intros p x Hp Hx. rewrite Lstat_insert_ne by done. by apply Hk.
  - eapply keeps_trans; [exact Hk|]. by apply keeps_insert.
Qed.

(** In a tree without dangling links a successful write creates an entry or replaces a file. *)
Lemma write_location f suffix session fs path content fs' out :
  wf fs -> plain_root fs -> no_dangling fs -> new_suffix fs path suffix -> write f suffix session fs path content = (fs', Ok out) ->
  exists R l c fs1 q, resolved fs root path R (l ++ [c]) /\ keeps fs fs1 /\ wf fs1 /\
    sys_walk sys_links false fs1 (R ++ l) = Ok q /\ Lstat fs1 q = Some Dir /\ within R q /\
    fs' = <[q ++ [c] := File content]> fs1 /\
    ((real fs (R ++ l ++ [c]) /\ q = R ++ l /\ exists s, Lstat fs1 (q ++ [c]) = Some (File s)) \/
     (walk false fs 255 [] (R ++ l ++ [c]) = Err NotExist /\ Lstat fs1 (q ++ [c]) = None)).
Proof using Hlinks.
  intros Hwf Hroot Hnd Hsfx Hw.
  destruct (write_cases _ _ _ _ _ _ _ _ Hwf Hroot Hsfx Hw) as [[_ Hr]|(R & l & c & fs1 & Hrv & Hwf1 & Hk & Hnew & Hcase)]; [done|].
  destruct Hcase as [[_ ?]|(q & Hmk & Hq & Hd & Hin & [(_ & Hne & ->)|(? & _)])]; [done| |done].
  exists R, l, c, fs1, q. split_and!; [done..|].
  pose proof (rv_plain _ _ _ _ _ Hrv) as Hp. rewrite app_assoc in Hp |- *. pose proof (proj1 (Forall_app _ _ _) Hp) as [Hp' [Hc _]%Forall_cons].
  assert (forall p, walk false fs 255 [] (R ++ l) = Ok p -> fs1 = fs) as Hsame.
  { intros p Hw1. pose proof (MkdirAll_exists sys_links Hlinks f _ fs p Hwf Hp' Hw1) as H1. by rewrite Hmk in H1. }
  pose proof (sys_walk_255 sys_links Hlinks _ _ _ Hq) as Hq255.
  destruct (rv_cleaned _ _ _ _ _ Hrv) as (cl & _ & _ & _ & [Hcl|[-> Hcl]]); rewrite app_assoc in Hcl.
  - left. pose proof (walk_real fs 255 [] cl _ Hwf eq_refl Hcl) as Hr.
    assert (Lstat fs (R ++ l) = Some Dir) as Hdp by (destruct Hr as [H|[s H]]; by eapply wf_parent).
    assert (walk false fs 255 [] (R ++ l) = Ok (R ++ l)) as Hcan by (apply walk_canon; [done|done|by left]).
    rewrite (Hsame _ Hcan) in *. rewrite Hcan in Hq255. injection Hq255 as <-. split_and!; [done|done|]. by destruct Hr.
  - right. split; [done|].
    pose proof (walk_app false fs 255 [] (R ++ l) [c] Hwf eq_refl ltac:(discriminate)) as Ha. rewrite Hcl in Ha.
    destruct (walk false fs 255 [] (R ++ l)) as [q'|e] eqn:Hw1.
    + rewrite (Hsame _ eq_refl) in *. rewrite Hw1 in Hq255. injection Hq255 as ->.
      destruct (proj1 Ha Hd) as (m & Hm & Hl). pose proof Hl as Hl2. rewrite walk_last in Hl by done.
      destruct (Lstat fs (q ++ [c])) as [[| |t]|] eqn:Hx; try done. exfalso. destruct (Hnd _ _ Hx) as [p Hpw].
      assert (walk false fs 255 [] q = Ok q) as Hqq.
      { apply walk_canon; [done| |by left]. by eapply walk_plain_abs. }
      pose proof (walk_app false fs 255 [] q [c] Hwf eq_refl ltac:(discriminate)) as Hb. rewrite Hqq, Hpw in Hb.
      destruct (proj1 Hb Hd) as (m' & Hm' & Hl').
      pose proof (walk_more false fs m 255 q [c] _ Hm (eq_sym Hl2) ltac:(done)) as E1.
      pose proof (walk_more false fs m' 255 q [c] _ Hm' (eq_sym Hl') ltac:(done)) as E2. congruence.
    + assert (Lstat fs q = None) as Hqn.
      { pose proof (MkdirAll_fresh sys_links Hlinks f (rev (R ++ l)) fs fs1 e q Hwf (Forall_rev Hp')) as Hfr.
        rewrite rev_involutive in Hfr. exact (Hfr Hw1 Hmk Hq). }
      destruct (Lstat fs1 (q ++ [c])) as [x|] eqn:Hx; [|done]. pose proof Hx as Hx'.
      apply Hnew in Hx as [Hx|[-> _]]; [|done]. apply wf_parent in Hx; [congruence|done].
Qed.

Lemma wf_replace fs q c s : wf fs -> Lstat fs q = Some Dir -> Lstat fs (q ++ [c]) <> Some Dir -> wf (<[q ++ [c] := File s]> fs).
Proof.
  intros Hwf Hq Hne p d Hp. assert (Lstat fs p = Some Dir) as Hd.
  { destruct (decide (p ++ [d] = q ++ [c])) as [[-> ->]%snoc_inj|Hpq]; [done|]. rewrite lookup_insert_ne in Hp by done. by eapply Hwf. }
  rewrite Lstat_insert_ne; [done|done|]. intros ->. done.
Qed.

Lemma EvalSymlinks_grows fs fs' path p : grows fs fs' -> EvalSymlinks fs path = Ok p -> EvalSymlinks fs' path = Ok p.
Proof.
  intros Hg. unfold EvalSymlinks. destruct (walk false fs 255 [] _) as [q|] eqn:Hq; [|done].
  by rewrite (walk_grows _ _ _ _ _ _ Hg Hq).
Qed.

(** A path that leads into the directory resolves to where it leads. *)
Lemma Resolve_found fs path R cl q :
  EvalSymlinks fs root = Ok (path_text true R) -> IsAbs path = false -> Forall plain R ->
  Clean (Join (path_text true R) path) = path_text true cl -> Forall plain cl -> within R cl ->
  walk false fs 255 [] cl = Ok q -> within R q -> Resolve fs cwd configDir path = Ok (path_text true q).
Proof.
  intros HR Hrel Hp Hcl Hpl Hin Hw Hq. unfold Resolve. rewrite Hrel, HR. cbn [map_err mbind result_bind]. rewrite Hcl.
  rewrite (proj2 (inside_spec R cl Hp Hpl) Hin), EvalSymlinks_text, Hw by exact Hpl. cbn [negb fmap result_fmap].
  by rewrite (proj2 (inside_spec R q Hp (walk_plain_abs _ _ _ _ Hpl Hw)) Hq).
Qed.

(** C30. What has been written is what is read back: in a tree without dangling links, and
    with a new random suffix for the temporary file, after a successful write of a content
    of any size a read of the same path finds exactly that content: it returns it with its
    size and hash if it is valid UTF-8 and its size, cut to 32 bits, is within the limit,
    and otherwise answers that the file is too large or no UTF-8. *)
Theorem read_after_write f suffix session fs path content fs' out :
  wf fs -> plain_root fs -> no_dangling fs -> new_suffix fs path suffix ->
  write f suffix session fs path content = (fs', Ok out) ->
  let size := Z.of_nat (String.length content) in
  read false fs' path =
    if (0 <? ReadFileMaxBytes) && (ReadFileMaxBytes <? size `mod` 2 ^ 32) then Err "file_too_large"
    else if utf8_valid (list_ascii_of_string content) then Ok (mkFileOut path content size (sha256_hex content))
    else Err "not_utf8".
Proof using Hlinks.
  intros Hwf Hroot Hnd Hsfx Hw size.
  destruct (write_location _ _ _ _ _ _ _ _ Hwf Hroot Hnd Hsfx Hw) as (R & l & c & fs1 & q & Hrv & Hk & Hwf1 & Hq & Hd & Hin & -> & Hcase).
  set (fs' := <[_ := _]> fs1). pose proof (rv_plain _ _ _ _ _ Hrv) as Hp. rewrite app_assoc in Hp.
  pose proof (proj1 (Forall_app _ _ _) Hp) as [Hp' [Hc _]%Forall_cons].
  pose proof (rv_undotted _ _ _ _ _ Hrv) as [_ [Huc _]%Forall_cons]%Forall_app.
  assert (Lstat fs' (q ++ [c]) = Some (File content)) as Hloc by apply Lstat_insert.
  assert (grows fs1 fs') as Hg1.
  { intros p. destruct (decide (p = q ++ [c])) as [->|Hne].
    - rewrite Hloc. destruct Hcase as [(_ & _ & s & ->)|[_ ->]]; by eauto.
    - unfold fs'. rewrite Lstat_insert_ne by done. destruct (Lstat fs1 p) as [[| |]|]; eauto. }
  assert (grows fs fs') as Hg.
  { intros p. specialize (Hg1 p). destruct (Lstat fs p) as [x|] eqn:Hx; [|done]. by rewrite (Hk _ _ Hx) in Hg1. }
  assert (wf fs') as Hwf'.
  { apply wf_replace; [done|done|]. by destruct Hcase as [(_ & _ & s & ->)|[_ ->]]. }
  assert (walk false fs' 255 [] (R ++ l) = Ok q) as Hq' by exact (walk_grows _ _ _ _ _ _ Hg1 (sys_walk_255 sys_links Hlinks _ _ _ Hq)).
  assert (Forall plain q) as Hpq by exact (walk_plain_abs _ _ _ _ Hp' Hq').
  destruct (rv_cleaned _ _ _ _ _ Hrv) as (cl & Hcl & Hpc & Hic & Hwc).
  assert (walk false fs' 255 [] cl = Ok (q ++ [c])) as Hwl.
  { destruct Hcase as [(Hr & -> & _)|[Hne _]].
    - rewrite app_assoc in Hwc, Hr. destruct Hwc as [Hwc|[-> Hwc]]; [exact (walk_grows _ _ _ _ _ _ Hg Hwc)|].
      rewrite (walk_canon false fs 255 _ Hwf Hp Hr) in Hwc. discriminate.
    - destruct Hwc as [Hwc|[-> _]].
      { pose proof (walk_real fs 255 [] cl _ Hwf eq_refl Hwc) as Hr. rewrite app_assoc in Hne, Hr.
        rewrite (walk_canon false fs 255 _ Hwf Hp Hr) in Hne. discriminate. }
      rewrite app_assoc. pose proof (walk_app false fs' 255 [] (R ++ l) [c] Hwf' eq_refl ltac:(discriminate)) as Ha. rewrite Hq' in Ha.
      destruct (proj1 Ha) as (m & _ & ->); [|by rewrite walk_last, Hloc].
      specialize (Hg1 q). by rewrite Hd in Hg1. }
  unfold read_config_file.
  rewrite (Resolve_found fs' path R cl (q ++ [c]) (EvalSymlinks_grows _ _ _ _ Hg (rv_root _ _ _ _ _ Hrv)) (rv_relative _ _ _ _ _ Hrv)
    (proj1 (proj1 (Forall_app _ _ _) Hp')) Hcl Hpc Hic Hwl (within_snoc _ _ _ Hin Huc)).
  cbn [map_err mbind result_bind]. assert (Forall plain (q ++ [c])) as Hpl by (apply Forall_app_2; [done|by constructor]).
  rewrite elems_path_text by done. unfold Stat, sys_walk. rewrite walk_canon; [|done|done|right; by eexists].
  rewrite Hloc. fold size. unfold u32. destruct (_ && _); [done|]. by destruct (utf8_valid _).
Qed.
End Correct.

(** ** What the check of Pkl sources accepts *)

Definition opens (c : ascii) : bool := Ascii.eqb c "{" || Ascii.eqb c "(".
Definition closes (c : ascii) : bool := Ascii.eqb c "}" || Ascii.eqb c ")".

(** The rest of a literal after its first quote. *)
Inductive literal : string -> Prop :=
  | literal_end : literal (String quote "")
  | literal_escape c s : literal s -> literal (String "\" (String c s))
  | literal_char c s : c <> quote -> c <> "\"%char -> literal s -> literal (String c s).

(** Texts with literals and groups; a group may open with one kind of delimiter and close
    with the other. *)
Inductive balanced : string -> Prop :=
  | balanced_nil : balanced ""
  | balanced_char c s : c <> quote -> opens c = false -> closes c = false -> balanced s -> balanced (String c s)
  | balanced_literal b s : literal b -> balanced s -> balanced (String quote (b +:+ s))
  | balanced_group o c s t : opens o = true -> closes c = true -> balanced s -> balanced t -> balanced (String o (s +:+ String c t)).

Lemma opens_not c : opens c = true -> c <> quote /\ closes c = false.
Proof. unfold opens. intros [->%Ascii.eqb_eq | ->%Ascii.eqb_eq]%orb_true_iff; done. Qed.
Lemma closes_not c : closes c = true -> c <> quote /\ opens c = false.
Proof. unfold closes. intros [->%Ascii.eqb_eq | ->%Ascii.eqb_eq]%orb_true_iff; done. Qed.

(** One byte outside and inside of a literal. *)
Lemma pkl_byte_outside b n k :
  exists k', pkl_byte b (mkScan n false false k) =
    if Ascii.eqb b quote then Some (mkScan n true false k') else if opens b then Some (mkScan (n + 1) false false k')
    else if closes b then (if n - 1 <? 0 then None else Some (mkScan (n - 1) false false k')) else Some (mkScan n false false k').
Proof. eexists. unfold pkl_byte. reflexivity. Qed.
Lemma pkl_byte_inside b n k :
  exists k', pkl_byte b (mkScan n true false k) = Some (mkScan n (negb (Ascii.eqb b quote)) (Ascii.eqb b "\") k').
Proof.
  eexists. unfold pkl_byte. cbn [sc_escape sc_inStr sc_depth sc_lines].
  destruct (Ascii.eqb_spec b "\") as [->|]; [reflexivity|]. by destruct (Ascii.eqb b quote).
Qed.

Lemma literal_accepted s n k :
  checkPkl_from s (mkScan n true false k) = Fine ->
  exists b t k', literal b /\ s = b +:+ t /\ checkPkl_from t (mkScan n false false k') = Fine.
Proof.
  remember (String.length s) as m eqn:Hm. assert (String.length s <= m)%nat as Hle by lia. clear Hm.
  revert s k Hle. induction m as [|m IH]; intros [|c s] k Hle; try done; [cbn in Hle; lia|]. cbn [checkPkl_from].
  destruct (pkl_byte_inside c n k) as [k1 ->]. cbn [String.length] in Hle.
  destruct (Ascii.eqb_spec c quote) as [->|Hq]; cbn [negb].
  { intros Hf. by exists (String quote ""), s, k1; split; [constructor|]. }
  destruct (Ascii.eqb_spec c "\") as [->|He].
  - destruct s as [|d s]; [done|]. cbn [checkPkl_from]. unfold pkl_byte at 1. cbn [sc_escape sc_inStr sc_depth].
    intros (b & t & k' & Hb & -> & Hf)%IH; [|cbn in Hle; lia]. exists (String "\" (String d b)), t, k'. by split; [constructor|].
  - intros (b & t & k' & Hb & -> & Hf)%IH; [|lia]. exists (String c b), t, k'. by split; [constructor|].
Qed.

Lemma text_accepted s n k :
  checkPkl_from s (mkScan (Z.of_nat n) false false k) = Fine ->
  exists b, balanced b /\
    match n with
    | O => s = b
    | S m => exists c t k', closes c = true /\ s = b +:+ String c t /\ checkPkl_from t (mkScan (Z.of_nat m) false false k') = Fine
    end.
Proof.
  remember (String.length s) as m eqn:Hm. assert (String.length s <= m)%nat as Hle by lia. clear Hm.
  revert s n k Hle. induction m as [|m IH]; intros [|c s] n k Hle; try (cbn in Hle; lia).
  1, 2: cbn; destruct n; [by exists ""; split; [constructor|] | done].
  cbn [checkPkl_from]. destruct (pkl_byte_outside c (Z.of_nat n) k) as [k1 ->]. cbn [String.length] in Hle.
  assert (forall w b k2, (forall u, balanced u -> balanced (w +:+ u)) -> (String.length b <= m)%nat ->
    checkPkl_from b (mkScan (Z.of_nat n) false false k2) = Fine -> String c s = w +:+ b ->
    exists b0, balanced b0 /\ match n with O => String c s = b0 | S i => exists d t k', closes d = true /\ String c s = b0 +:+ String d t /\
      checkPkl_from t (mkScan (Z.of_nat i) false false k') = Fine end) as Hrest.
  { intros w b k2 Hw Hl Hf ->. destruct (IH _ _ _ Hl Hf) as (b0 & Hb0 & Hn). exists (w +:+ b0). split; [by apply Hw|].
    destruct n as [|i]; [by rewrite Hn|]. destruct Hn as (d & t & k' & Hd & -> & Ht). exists d, t, k'. by rewrite str_app_assoc. }
  destruct (Ascii.eqb_spec c quote) as [->|Hq].
  { intros (b & t & k' & Hb & -> & Hf)%literal_accepted. apply (Hrest (String quote b) t k'); [|rewrite str_length_app in Hle; lia|done|done].
    intros u Hu. rewrite str_app_cons. by constructor. }
  destruct (opens c) eqn:Ho.
  { replace (Z.of_nat n + 1) with (Z.of_nat (S n)) by lia. intros (b & Hb & d & t & k' & Hd & -> & Hf)%IH; [|lia].
    apply (Hrest (String c (b +:+ String d "")) t k'); [| |done|].
    - intros u Hu. rewrite str_app_cons, str_app_assoc. by apply balanced_group.
    - rewrite str_length_app in Hle. cbn in Hle. lia.
    - rewrite str_app_cons, str_app_assoc. done. }
  destruct (closes c) eqn:Hc.
  - destruct n as [|i]; [done|]. rewrite (proj2 (Z.ltb_ge _ _)) by lia. replace (Z.of_nat (S i) - 1) with (Z.of_nat i) by lia.
    intros Hf. exists "". split; [constructor|]. by exists c, s, k1.
  - intros Hf. apply (Hrest (String c "") s k1); [|lia|done|done]. intros u Hu. by apply balanced_char.
Qed.

Lemma literal_scanned b n : literal b -> forall t k, exists k',
  checkPkl_from (b +:+ t) (mkScan n true false k) = checkPkl_from t (mkScan n false false k').
Proof.
  induction 1 as [|c s _ IH|c s Hq He _ IH]; intros t k; rewrite ?str_app_cons; cbn [checkPkl_from].
  - destruct (pkl_byte_inside quote n k) as [k1 ->]. by exists k1.
  - destruct (pkl_byte_inside "\" n k) as [k1 ->]. cbn [checkPkl_from Ascii.eqb negb]. unfold pkl_byte at 1. cbn [sc_escape sc_inStr sc_depth]. apply IH.
  - destruct (pkl_byte_inside c n k) as [k1 ->]. rewrite (proj2 (Ascii.eqb_neq _ _) Hq), (proj2 (Ascii.eqb_neq _ _) He). apply IH.
Qed.

Lemma balanced_scanned s : balanced s -> forall n t k, 0 <= n -> exists k',
  checkPkl_from (s +:+ t) (mkScan n false false k) = checkPkl_from t (mkScan n false false k').
Proof.
  induction 1 as [|c s Hq Ho Hc _ IH|b s Hb _ IH|o c s t Ho Hc _ IHs _ IHt]; intros n u k Hn; [by exists k| | |];
    rewrite str_app_cons; cbn [checkPkl_from].
  - destruct (pkl_byte_outside c n k) as [k1 ->]. rewrite (proj2 (Ascii.eqb_neq _ _) Hq), Ho, Hc. by apply IH.
  - destruct (pkl_byte_outside quote n k) as [k1 ->]. cbn iota. rewrite Ascii.eqb_refl, str_app_assoc.
    destruct (literal_scanned b n Hb (s +:+ u) k1) as [k2 ->]. by apply IH.
  - destruct (opens_not _ Ho) as [Hoq _], (closes_not _ Hc) as [Hcq Hco].
    destruct (pkl_byte_outside o n k) as [k1 ->]. rewrite (proj2 (Ascii.eqb_neq _ _) Hoq), Ho, str_app_assoc, str_app_cons.
    destruct (IHs (n + 1) (String c (t +:+ u)) k1) as [k2 ->]; [lia|]. cbn [checkPkl_from].
    destruct (pkl_byte_outside c (n + 1) k2) as [k3 ->]. rewrite (proj2 (Ascii.eqb_neq _ _) Hcq), Hco, Hc, (proj2 (Z.ltb_ge _ _)) by lia.
    replace (n + 1 - 1) with n by lia. by apply IHt.
Qed.

(** The check of a Pkl source accepts exactly the texts of the grammar: literals whose
    escapes take any byte, and groups nested to any depth. *)
Theorem checkPkl_exact content : checkPkl content = Fine <-> balanced content.
Proof.
  unfold checkPkl. split.
  - intros (b & Hb & ->)%(text_accepted content 0 0). done.
  - intros Hb. destruct (balanced_scanned _ Hb 0 "" 0) as [k Hk]; [lia|]. rewrite str_app_nil_r in Hk. by rewrite Hk.
Qed.

(** ** Deciding the hypotheses on a given tree *)

#[export] Instance node_eq_dec : EqDecision node.
Proof. solve_decision. Defined.

Definition wf_b (fs : FS) : bool := bool_decide (map_Forall (fun p _ => Lstat fs (removelast p) = Some Dir) fs).
Lemma wf_by fs : wf_b fs = true -> wf fs.
Proof.
  intros H%bool_decide_eq_true p c [x Hx]. specialize (H _ _ Hx). cbn in H. by rewrite removelast_last in H.
Qed.

Definition no_suffix (suffix : string) (x : string) : Prop := has_suffix x (".tmp." +:+ suffix) = false.
#[export] Instance no_suffix_dec suffix x : Decision (no_suffix suffix x).
Proof. unfold no_suffix. apply _. Defined.
Lemma tmp_has_suffix c suffix : ~ no_suffix suffix (tmp_name c suffix).
Proof. unfold no_suffix, tmp_name. rewrite (proj2 (has_suffix_spec _ _)); [done|]. by exists c. Qed.

Definition free_b (fs : FS) (cwd configDir path suffix : string) : bool :=
  bool_decide (no_slash suffix) && bool_decide (map_Forall (fun p _ => no_suffix suffix (default "" (last p))) fs) &&
  match Resolve fs cwd configDir path with Ok target => bool_decide (Forall (no_suffix suffix) (elems target)) | Err _ => true end.
Lemma new_suffix_by fs cwd configDir path suffix : free_b fs cwd configDir path suffix = true -> new_suffix cwd configDir fs path suffix.
Proof.
  unfold free_b. intros [[Hs%bool_decide_eq_true Hm%bool_decide_eq_true]%andb_true_iff Ht]%andb_true_iff. split_and!; [done| |].
  - intros q c. destruct (Lstat fs (q ++ [tmp_name c suffix])) as [x|] eqn:Hx; [|done]. rewrite Lstat_snoc in Hx.
    specialize (Hm _ _ Hx). cbn in Hm. rewrite last_snoc in Hm. by apply tmp_has_suffix in Hm.
  - intros target c Hr Hin. rewrite Hr in Ht. apply bool_decide_eq_true in Ht. rewrite Forall_forall in Ht. by apply Ht, tmp_has_suffix in Hin.
Qed.

Definition no_dangling_b (fs : FS) : bool :=
  bool_decide (map_Forall (fun p n => (match n with Link _ => is_ok (walk false fs 255 [] p) | _ => true end) = true) fs).
Lemma no_dangling_by fs : no_dangling_b fs = true -> no_dangling fs.
Proof.
  intros H%bool_decide_eq_true p t Hp. destruct p as [|c p]; [done|]. specialize (H _ _ Hp). cbn in H.
  destruct (walk false fs 255 [] (c :: p)) as [q|]; [by exists q | done].
Qed.

Lemma pair_by_snd {A B} (p : A * B) r : p.2 = r -> p = (p.1, r).
Proof. destruct p. cbn. congruence. Qed.

(** ** A configuration directory with links *)

Module FilesDemo.
(** [/conf] is a link to [/srv/home]; [shared] leads to a directory of the tree and
    [etc] out of it. *)
Definition tree : FS := {[
  ["conf"] := Link "srv/home"; ["srv"] := Dir; ["srv"; "home"] := Dir; ["srv"; "home"; "lib"] := Dir;
  ["srv"; "home"; "main.pkl"] := File "x = 1"; ["srv"; "home"; "shared"] := Link "../home/lib";
  ["srv"; "home"; "etc"] := Link "/etc"; ["etc"] := Dir; ["etc"; "passwd"] := File "root"
]}.
Definition text : string := "y { a = 2 }".
Definition parser (path content : string) : option (Z * Z * string) := None.
Definition sha (s : string) : string := "sha".
Definition calm : Faults := mkFaults (fun _ => false) false false None false false false false.
Definition broken : Faults := mkFaults (fun _ => false) false false (Some "y") false false false false.
Definition write (f : Faults) (path content : string) := write_config_file 40 parser sha "/" "/conf" f "0a1b" "s" tree path content.
Definition read (fs : FS) (path : string) := read_config_file 40 sha "/" "/conf" 100 false fs path.
Definition home : list string := ["srv"; "home"].

Example write_makes_directories : (write calm "shared/new/a.pkl" text).1 !! ["srv"; "home"; "lib"; "new"; "a.pkl"] = Some (File text).
Proof. vm_compute. reflexivity. Qed.
Example link_out_refused : read tree "etc/passwd" = Err "path_escape" /\ (write calm "etc/x.pkl" text).2 = Err "path_escape".
Proof. vm_compute. done. Qed.

Lemma write_confined_witness :
  Lstat (write calm "shared/new/a.pkl" text).1 ["etc"; "passwd"] = Some (File "root").
Proof.
  unfold write. rewrite (write_confined 40 ltac:(lia) parser sha "/" "/conf" calm "0a1b" "s" tree "shared/new/a.pkl" text home ["etc"; "passwd"]).
  - vm_compute. reflexivity.
  - apply wf_by. vm_compute. reflexivity.
  - intros R. vm_compute. by intros [= <-].
  - apply new_suffix_by. vm_compute. reflexivity.
  - vm_compute. reflexivity.
  - apply (bool_decide_unpack _). vm_compute. exact I.
  - intros l. done.
Defined.

Lemma read_confined_witness :
  exists l, Lstat tree (home ++ l) = Some (File "x = 1") /\ utf8_valid (list_ascii_of_string "x = 1") = true /\ 5 = 5 /\ (0 < 100 -> 5 < 2 ^ 32 -> 5 <= 100).
Proof.
  apply (read_confined 40 ltac:(lia) sha "/" "/conf" 100 false tree "main.pkl" home (mkFileOut "main.pkl" "x = 1" 5 "sha")).
  - apply wf_by. vm_compute. reflexivity.
  - vm_compute. reflexivity.
  - apply (bool_decide_unpack _). vm_compute. exact I.
  - vm_compute. reflexivity.
Defined.

Lemma write_atomic_witness : keeps tree (write broken "main.pkl" text).1.
Proof.
  apply (write_atomic 40 ltac:(lia) parser sha "/" "/conf" broken "0a1b" "s" tree "main.pkl" text _ (Err "internal")).
  - apply wf_by. vm_compute. reflexivity.
  - intros R. vm_compute. by intros [= <-].
  - apply new_suffix_by. vm_compute. reflexivity.
  - apply pair_by_snd. vm_compute. reflexivity.
Defined.

Lemma read_after_write_witness :
  read (write calm "shared/new/a.pkl" text).1 "shared/new/a.pkl" = Ok (mkFileOut "shared/new/a.pkl" text 11 "sha").
Proof.
  apply (read_after_write 40 ltac:(lia) parser sha "/" "/conf" 100 calm "0a1b" "s" tree "shared/new/a.pkl" text _
    (mkWriteOut "shared/new/a.pkl" "sha" 11, mkEdit "s" "shared/new/a.pkl" "sha" 11)).
  - apply wf_by. vm_compute. reflexivity.
  - intros R. vm_compute. by intros [= <-].
  - apply no_dangling_by. vm_compute. reflexivity.
  - apply new_suffix_by. vm_compute. reflexivity.
  - apply pair_by_snd. vm_compute. reflexivity.
Defined.

(** A valid source is refused for a brace in a comment, and crossed groups pass. *)
Example brace_in_comment : checkPkl "// }" = SyntaxError 1 1 "unexpected closing delimiter" /\ checkPkl "x { a = (1 } )" = Fine /\ checkPkl "l = [1" = Fine.
Proof. vm_compute. done. Qed.

(** A name that begins with two dots is refused although it stays inside. *)
Example dotted_name_refused : Resolve tree "/" "/conf" "lib/..old.pkl" = Err PathEscape.
Proof. vm_compute. reflexivity. Qed.

(** The size is cut to 32 bits before it is compared with the limit. *)
Example size_wraps : u32 (2 ^ 32 + 5) = 5.
Proof. reflexivity. Qed.
End FilesDemo.
