(* ===== verification/StarlarkRuntime.v ===== *)
(** * The Starlark runtime

    Models [internal/starlark]: the loader of modules with its cache and its detection
    of cycles ([loader.go]), what each kind of context may use ([context.go], [runtime.go]),
    the built-in functions and their effects ([stdlib.go]), the classification of
    errors ([limits.go]); its callers: the condition and the action of an automation
    ([automation/condition/starlark.go], [action/starlark.go]), the evaluation of a text and the
    runner of tests ([daemon/api_adapters.go]).

    The interpreter is a third-party library. What it does with a source is a tree: it
    ends with a result, or it loads a module, or it calls a built-in function, and goes
    on depending on what it gets ([interp_module], [interp_script], parameters). The loader and
    the functions are definitions, so that the theorems hold for every script.
    The unpacking of arguments and the text of a value are parameters as well.

    The texts of errors leave out details. Modules run on threads that the watchdog does not
    stop; what a time limit does to a script is part of what the interpreter does with it.

    [Execute_terminates]: loading ends, whatever modules load each other. [loads_confined]:
    only files of the configuration directory are read. [load_stable]: a module is read once
    and stays as it was, whatever becomes of its file; [daemon_never_invalidates]: the daemon
    never clears the cache. [effects_confined]: which kind of context can issue commands and
    append events. [event_names_unbound]: the names that automations are told to use for their
    trigger are not defined. *)

From Stdlib Require Import Ascii String.
From S2P Require Import Prelude Codec Json Events Carport Policy Config ConfigManager Paths.

(** ** Values *)

Inductive sval :=
  | VNone | VBool (b : bool) | VInt (z : Z) | VFloat (lit : string) | VString (s : string)
  | VList (l : list sval) | VDict (l : list (sval * sval)) | VStruct (l : list (string * sval)) | VOther (text : string).

Abbreviation dict := (gmap string sval).

(** [starlark.AsString]. *)
Definition AsString (v : sval) : option string := match v with VString s => Some s | _ => None end.

(** ** [loader.go] *)

(** What the interpreter does with the source of a module. *)
Inductive module_run :=
  | MDone (r : result string dict)
  | MLoad (module : string) (k : result string dict -> module_run).

Record Loader := mkLoader { moduleCache : gmap string dict; l_reads : list string }.

(** The file of a module path, or why there is none. *)
Definition absPath_of (configDir module : string) : result string string :=
  if negb (has_prefix module "//") then Err "only //...-prefixed paths are supported"
  else
    let rel := trim_prefix module "//" in
    if str_contains rel ".." then Err "path traversal not allowed"
    else
      let absPath := Join configDir rel in
      if negb (has_prefix (absPath +:+ "/") (configDir +:+ "/")) then Err "path escapes configDir" else Ok absPath.

Definition exported (d : dict) : dict := filter (fun p => has_prefix p.1 "_" = false) d.

Section Loading.
Context (interp_module : string -> string -> module_run) (disk : string -> option string) (configDir : string).

(** A run, whose loads are given to [load]; [None] stands for fuel that ran out. *)
Fixpoint run_module (load : string -> Loader -> option (result string dict * Loader)) (p : module_run) (s : Loader) :
    option (result string dict * Loader) :=
  match p with
  | MDone r => Some (r, s)
  | MLoad m k => rs ← load m s; run_module load (k rs.1) rs.2
  end.

(** [makeLoader]: the function that loads a module while those of [inProgress] are being
    loaded. *)
Fixpoint load_module (fuel : nat) (inProgress : gset string) (module : string) (s : Loader) {struct fuel} :
    option (result string dict * Loader) :=
  match absPath_of configDir module with
  | Err e => Some (Err e, s)
  | Ok absPath =>
      match moduleCache s !! absPath with
      | Some d => Some (Ok d, s)
      | None =>
          if bool_decide (absPath ∈ inProgress) then Some (Err "circular dependency detected", s)
          else match disk absPath with
               | None => Some (Err "load", s)
               | Some src =>
                   match fuel with
                   | O => None
                   | S n =>
                       rs ← run_module (load_module n ({[absPath]} ∪ inProgress)) (interp_module absPath src)
                              (mkLoader (moduleCache s) (l_reads s ++ [absPath]));
                       match rs.1 with
                       | Err e => Some (Err e, rs.2)
                       | Ok d => Some (Ok (exported d), mkLoader (<[absPath := exported d]> (moduleCache rs.2)) (l_reads rs.2))
                       end
                   end
               end
      end
  end.
End Loading.

Definition InvalidateModuleCache (s : Loader) : Loader := mkLoader ∅ (l_reads s).

(** ** [context.go] *)

Inductive ContextKind := KindAutomation | KindComputedEntity | KindTriggerCondition | KindScript | KindWidgetCompute | KindMCPEval.

#[export] Instance ContextKind_eq_dec : EqDecision ContextKind.
Proof. solve_decision. Defined.

Definition kind_text (k : ContextKind) : string :=
  match k with
  | KindAutomation => "automation" | KindComputedEntity => "computed_entity" | KindTriggerCondition => "trigger_condition"
  | KindScript => "script" | KindWidgetCompute => "widget_compute" | KindMCPEval => "mcp_eval"
  end.

Definition KindFromString (s : string) : option ContextKind :=
  if String.eqb s "automation" then Some KindAutomation
  else if contains_eq ["computed"; "computed_entity"] s then Some KindComputedEntity
  else if contains_eq ["condition"; "trigger_condition"] s then Some KindTriggerCondition
  else if String.eqb s "script" then Some KindScript
  else if contains_eq ["widget"; "widget_compute"] s then Some KindWidgetCompute
  else if contains_eq ["mcp"; "mcp_eval"] s then Some KindMCPEval
  else None.

Record contextLimits := mkLimits { WallClock : Z; MaxSteps : Z; IsExpression : bool }.

Definition limitsFor (k : ContextKind) : contextLimits :=
  match k with
  | KindAutomation | KindScript | KindMCPEval => mkLimits (30 * Second) 10000000 false
  | KindComputedEntity => mkLimits (100 * Millisecond) 500000 true
  | KindTriggerCondition | KindWidgetCompute => mkLimits (50 * Millisecond) 100000 true
  end.

(** ** [limits.go] *)

Inductive exec_error := LimitSteps (k : ContextKind) (detail : string) | LimitWallClock (k : ContextKind) | OtherError (msg : string).

(** [LimitError.Error], and the text of another error. *)
Definition error_text (e : exec_error) : string :=
  match e with
  | LimitSteps k detail => "step limit exceeded in " +:+ kind_text k +:+ ": " +:+ detail
  | LimitWallClock k => "wall-clock limit exceeded in " +:+ kind_text k +:+ ": wall-clock limit exceeded"
  | OtherError msg => msg
  end.

Definition wrapExecError (msg : string) (k : ContextKind) (timedOut : bool) : exec_error :=
  if str_contains msg "too many steps" then LimitSteps k msg else if timedOut then LimitWallClock k else OtherError msg.

(** ** [stdlib.go] and [runtime.go] *)

(** What the interpreter does with a script: its built-in functions are called by name with
    positional and named arguments. The end counts the steps. *)
Inductive script_run :=
  | SDone (r : result string sval) (steps : Z)
  | SLoad (module : string) (k : result string dict -> script_run)
  | SCall (fn : string) (args : list sval) (kwargs : list (string * sval)) (k : result string sval -> script_run).

Record command := mkCommand { cm_entity : string; cm_capability : string; cm_args : gmap string string }.

(** What scripts act on: the loader, the commands dispatched, the events appended and the
    log lines of this execution. *)
Record World := mkWorld { w_loader : Loader; w_commands : list command; w_events : list Event; w_logs : list string }.

Definition with_loader (l : Loader) (w : World) : World := mkWorld l (w_commands w) (w_events w) (w_logs w).

Record EntityState := mkEntityState { StateStr : string; Attributes : list (string * json) }.

Fixpoint anyToStarlark (j : json) : sval :=
  match j with
  | JBool b => VBool b
  | JNumber lit => VFloat lit
  | JString s => VString s
  | JArray l => VList (anyToStarlark <$> l)
  | JObject m => VDict ((fix go m := match m with [] => [] | (k, x) :: m' => (VString k, anyToStarlark x) :: go m' end) m)
  | JNull => VNone
  end.

Definition entityStateToStruct (es : EntityState) : sval :=
  VStruct [("state", VString (StateStr es)); ("attributes", VDict ((fun kv => (VString kv.1, anyToStarlark kv.2)) <$> Attributes es))].

(** A parameter of a built-in function: its name, whether it must be text, whether it may be
    missing. *)
Record param := mkParam { pa_name : string; pa_text : bool; pa_optional : bool }.

(** What a script finds under a global name. *)
Inductive global := GFunc | GModule | GStruct (functions : list string) (fields : list (string * sval)) | GValue (v : sval).

Definition eventField (extra : dict) (key : string) (fallback : sval) : string * sval :=
  (trim_prefix key "event_", default fallback (extra !! key)).

Definition event_fields (extra : dict) : list (string * sval) :=
  [eventField extra "event_kind" (VString ""); eventField extra "event_entity_id" (VString ""); eventField extra "event_data" (VDict [])].

Definition eventKeys : list string := ["event_kind"; "event_entity_id"; "event_data"].

Section Runtime.
Context (interp_module : string -> string -> module_run).
Context (interp_script : ContextKind -> string -> gmap string global -> script_run).
Context (UnpackArgs : string -> list sval -> list (string * sval) -> list param -> result string (list (option sval))).
Context (repr : sval -> string) (truth : sval -> bool).  (** [Value.String] and [Value.Truth] *)
Context (disk : string -> option string) (fuel : nat) (configDir : string).
Context (Get : string -> option EntityState).
Context (dispatch : list command -> command -> result string (bool * string)).
Context (append : list Event -> Event -> option string).
Context (ambient : nat -> string -> list sval -> list (string * sval) -> result string sval).
Context (has_dispatcher has_store : bool) (now : Z) (timedOut : bool).

Definition stdlib_list (k : ContextKind) (extra : dict) : list (string * global) :=
    [("state", GFunc); ("now", GFunc); ("time", GModule)] ++
    match k with KindAutomation | KindScript | KindMCPEval | KindTriggerCondition => [("log", GFunc)] | _ => [] end ++
    match k with
    | KindAutomation | KindScript | KindMCPEval => (if has_dispatcher then [("call_service", GFunc)] else []) ++ [("random", GFunc)]
    | _ => []
    end ++
    match k with
    | KindAutomation | KindScript =>
        ("sleep", GFunc) ::
        (if has_store then [("notify", GFunc); ("scene", GStruct ["apply"] []); ("event", GStruct ["fire"] (event_fields extra))] else [])
    | KindTriggerCondition => [("event", GStruct [] (event_fields extra))]
    | _ => []
    end.

Definition buildStdlib (k : ContextKind) (extra : dict) : gmap string global := list_to_map (stdlib_list k extra).

(** The globals of an execution: the values of the caller win, except those that fill the
    event structure. *)
Definition globals_of (k : ContextKind) (extra : dict) : gmap string global :=
  (GValue <$> filter (fun p => p.1 ∉ eventKeys) extra) ∪ buildStdlib k extra.

(** Whether a name, possibly of a member of a structure, is that of a function of the runtime. *)
Definition is_function (g : gmap string global) (fn : string) : bool :=
  match cut "." fn with
  | None => match g !! fn with Some GFunc => true | _ => false end
  | Some (base, f) =>
      match g !! base with Some GModule => true | Some (GStruct fs _) => contains_eq fs f | _ => false end
  end.

Definition text_of (v : option sval) : string := match v with Some (VString s) => s | _ => "" end.

(** [append] of an event: the new list of events and the result of the call. *)
Definition append_event (e : Event) (w : World) : result string sval * World :=
  match append (w_events w) e with
  | Some msg => (Err msg, w)
  | None => (Ok VNone, mkWorld (w_loader w) (w_commands w) (w_events w ++ [e]) (w_logs w))
  end.

Definition system_event (kind entity : string) (data : gmap string string) : Event :=
  mkEvent 0 now kind entity "starlark" 0 0 (Some (Some (Payload_System kind data))).

(** The named arguments of [call_service]; of two with one name the later counts. *)
Fixpoint text_args (kwargs : list (string * sval)) (argsMap : gmap string string) : result string (gmap string string) :=
  match kwargs with
  | [] => Ok argsMap
  | (k, v) :: rest =>
      match AsString v with
      | None => Err ("call_service: kwarg " +:+ k +:+ " must be string")
      | Some s => text_args rest (<[k := s]> argsMap)
      end
  end.

Definition call_service (args : list sval) (kwargs : list (string * sval)) (w : World) : result string sval * World :=
  match args with
  | e :: c :: _ =>
      match AsString e, AsString c with
      | None, _ => (Err "call_service: entity_id must be string", w)
      | _, None => (Err "call_service: capability must be string", w)
      | Some entityID, Some capability =>
          match text_args kwargs ∅ with
          | Err msg => (Err msg, w)
          | Ok m =>
              let cmd := mkCommand entityID capability m in
              let w' := mkWorld (w_loader w) (w_commands w ++ [cmd]) (w_events w) (w_logs w) in
              match dispatch (w_commands w) cmd with
              | Err msg => (Err msg, w')
              | Ok (true, _) => (Ok VNone, w')
              | Ok (false, msg) => (Err ("call_service " +:+ entityID +:+ "." +:+ capability +:+ ": " +:+ msg), w')
              end
          end
      end
  | _ => (Err "call_service: expected (entity_id, capability, **kwargs)", w)
  end.

(** [starlarkDataToStringMap]: of two pairs with one key the later counts. *)
Definition starlarkDataToStringMap (v : option sval) : gmap string string :=
  match v with
  | Some (VDict l) =>
      foldl (fun m kv => <[default (repr kv.1) (AsString kv.1) := default (repr kv.2) (AsString kv.2)]> m) ∅ l
  | _ => ∅
  end.

Definition texts (names : list string) : list param := (fun n => mkParam n true false) <$> names.

(** The functions with an effect or an answer of the daemon; [now], [time], [random] and [sleep]
    answer from the clock and the random source: [answer]. *)
Definition call_builtin (answer : result string sval) (fn : string) (args : list sval) (kwargs : list (string * sval)) (w : World) :
    result string sval * World :=
  let unpack ps (f : list (option sval) -> result string sval * World) :=
    match UnpackArgs fn args kwargs ps with Err msg => (Err msg, w) | Ok vs => f vs end in
  if String.eqb fn "state" then
    unpack (texts ["entity_id"]) (fun vs =>
      match Get (text_of (default None (vs !! 0%nat))) with
      | None => (Err "entity not found", w)
      | Some es => (Ok (entityStateToStruct es), w)
      end)
  else if String.eqb fn "call_service" then call_service args kwargs w
  else if String.eqb fn "log" then
    unpack [mkParam "msg" false false; mkParam "level" true true] (fun vs =>
      (Ok VNone, mkWorld (w_loader w) (w_commands w) (w_events w) (w_logs w ++ [repr (default VNone (default None (vs !! 0%nat)))])))
  else if String.eqb fn "notify" then
    unpack (texts ["target"; "message"]) (fun vs =>
      let target := text_of (default None (vs !! 0%nat)) in
      append_event (system_event "notification.sent" target {["target" := target; "message" := text_of (default None (vs !! 1%nat))]}) w)
  else if String.eqb fn "scene.apply" then
    unpack (texts ["slug"]) (fun vs =>
      let slug := text_of (default None (vs !! 0%nat)) in
      append_event (system_event "scene.applied" slug {["slug" := slug]}) w)
  else if String.eqb fn "event.fire" then
    unpack [mkParam "kind" true false; mkParam "data" false true] (fun vs =>
      let kind := text_of (default None (vs !! 0%nat)) in
      append_event (system_event kind "" (starlarkDataToStringMap (default None (vs !! 1%nat)))) w)
  else (answer, w).


(** ** [Execute] *)

(** A script among its globals; [n] counts its calls, and the answers of the clock and the random
    source depend on it. A name that is not defined is an error of the interpreter. *)
Fixpoint run_script (g : gmap string global) (n : nat) (p : script_run) (w : World) : option (result string sval * Z * World) :=
  match p with
  | SDone r steps => Some (r, steps, w)
  | SLoad m k =>
      rs ← load_module interp_module disk configDir fuel ∅ m (w_loader w);
      run_script g n (k rs.1) (with_loader rs.2 w)
  | SCall fn args kwargs k =>
      if is_function g fn then
        let rw := call_builtin (ambient n fn args kwargs) fn args kwargs w in
        run_script g (S n) (k rw.1) rw.2
      else Some (Err ("undefined: " +:+ fn), 0, w)
  end.

Record Result := mkResult { Value : sval; Logs : list string; Steps : Z }.

Definition Execute (k : ContextKind) (script : string) (extra : dict) (w : World) : option (result exec_error Result * World) :=
  let g := globals_of k extra in
  let w0 := mkWorld (w_loader w) (w_commands w) (w_events w) [] in
  rw ← run_script g 0 (interp_script k script g) w0;
  let '(r, steps, w') := rw in
  Some (match r with
        | Err msg => Err (wrapExecError msg k timedOut)
        | Ok v => Ok (mkResult (if IsExpression (limitsFor k) then v else VNone) (w_logs w') steps)
        end, w').

(** The globals about the event that triggered: its kind and its entity. *)
Definition event_extra (ev : option (string * string)) : dict :=
  match ev with
  | None => ∅
  | Some (kind, entity) => {["event_kind" := VString kind; "event_entity_id" := VString entity]}
  end.

(** [StarlarkCondition.Evaluate]. *)
Definition Condition_Evaluate (has_runtime : bool) (expr : string) (ev : option (string * string)) (w : World) : option (bool * World) :=
  if negb has_runtime then Some (false, w)
  else
    rw ← Execute KindTriggerCondition expr (event_extra ev) w;
    Some (match rw.1 with
          | Err _ => false
          | Ok res => match Value res with VBool b => b | v => truth v end
          end, rw.2).

(** [StarlarkAction.Execute]: the error, and the steps and the log lines of the run. *)
Definition Action_Execute (has_runtime : bool) (body corr : string) (ev : option (string * string)) (run : Z * list string) (w : World) :
    option (option string * (Z * list string) * World) :=
  if negb has_runtime then Some (Some "starlark: no runtime", run, w)
  else
    rw ← Execute KindAutomation body (<["correlation_id" := VString corr]> (event_extra ev)) w;
    Some (match rw.1 with
          | Err e => (Some (error_text e), run, rw.2)
          | Ok res => (None, (u64 (run.1 + Steps res), run.2 ++ Logs res), rw.2)
          end).

(** [scriptRunnerAdapter.Eval]: the log lines; no value is returned. *)
Definition Eval (has_runtime : bool) (expr : string) (w : World) : option (result string (list string) * World) :=
  if negb has_runtime then Some (Err "starlark runtime not available", w)
  else rw ← Execute KindMCPEval expr ∅ w;
       Some (match rw.1 with Err e => Err (error_text e) | Ok res => Ok (Logs res) end, rw.2).

End Runtime.

(** ** The runner of tests *)

Inductive test_outcome := Passed | Failed (detail : string).

(** A match of [testFnRegex] at the beginning of a line: [def test_], word characters, a parenthesis. *)
Definition is_word (c : ascii) : bool :=
  let n := nat_of_ascii c in
  (Nat.leb 48 n && Nat.leb n 57) || (Nat.leb 65 n && Nat.leb n 90) || (Nat.leb 97 n && Nat.leb n 122) || Nat.eqb n 95.

Fixpoint take_word (s : string) : string * string :=
  match s with
  | String c s' => if is_word c then let '(w, r) := take_word s' in (String c w, r) else ("", s)
  | EmptyString => ("", "")
  end.

Definition test_of_line (line : string) : option string :=
  if has_prefix line "def test_" then
    let '(word, rest) := take_word (trim_prefix line "def test_") in
    if negb (is_empty word) && has_prefix rest "(" then Some ("test_" +:+ word) else None
  else None.

Definition test_names (src : string) : list string := omap test_of_line (Split "010"%char src).

Section Tests.
Context (interp_module : string -> string -> module_run).
(** What the interpreter does with a file of tests, and with one of its functions. *)
Context (interp_test : string -> module_run) (Call : dict -> sval -> result string unit) (Callable : sval -> bool).
Context (disk : string -> option string) (fuel : nat) (configDir : string).
(** Whether the time ran out while the file, or the function, was run. *)
Context (timedOut timedOut2 : bool).

Definition ExecuteTest (script fnName : string) (s : Loader) : option (result exec_error unit * Loader) :=
  rs ← run_module (load_module interp_module disk configDir fuel ∅) (interp_test script) s;
  Some (match rs.1 with
        | Err msg => Err (wrapExecError msg KindScript timedOut)
        | Ok d =>
            match d !! fnName with
            | None => Err (OtherError ("test function " +:+ fnName +:+ " not found"))
            | Some fn =>
                if Callable fn then map_err (fun msg => wrapExecError msg KindScript timedOut2) (Call d fn)
                else Err (OtherError (fnName +:+ " is not callable"))
            end
        end, rs.2).

Fixpoint run_tests (src : string) (names : list string) (s : Loader) : option (list (string * test_outcome) * Loader) :=
  match names with
  | [] => Some ([], s)
  | name :: rest =>
      rs ← ExecuteTest src name s;
      es ← run_tests src rest rs.2;
      Some ((name, match rs.1 with Ok _ => Passed | Err e => Failed (error_text e) end) :: es.1, es.2)
  end.

(** The file of a path: as it is, or under the directory of the configuration. *)
Definition test_source (path : string) : option string :=
  match disk path with
  | Some src => Some src
  | None => if negb (is_empty configDir) && negb (IsAbs path) then disk (Join configDir path) else None
  end.

Definition RunTests (has_runtime : bool) (path : string) (s : Loader) : option (result string (list (string * test_outcome)) * Loader) :=
  if negb has_runtime then Some (Err "starlark runtime not available", s)
  else if is_empty path then Some (Err "path is required", s)
  else match test_source path with
       | None => Some (Err "open", s)
       | Some src =>
           match sort_strings (test_names src) with
           | [] =>
               rs ← ExecuteTest src "__probe__" s;
               Some (Ok (match rs.1 with
                         | Ok _ => []
                         | Err e => if str_contains (error_text e) "not found" then [] else [(path, Failed (error_text e))]
                         end), rs.2)
           | names => es ← run_tests src names s; Some (Ok es.1, es.2)
           end
       end.
End Tests.

(** ** The subscription of the daemon that clears the cache *)

Definition invalidation_filter : Filter := mkFilter ["config.applied"] [] [] [] zero_time zero_time.

(** What the daemon does with an event of its log. *)
Definition on_log_event (e : Event) (s : Loader) : Loader :=
  if Matches invalidation_filter e then InvalidateModuleCache s else s.

(** ** Loading *)

Section LoadingFacts.
Context (interp_module : string -> string -> module_run) (disk : string -> option string) (configDir : string).
Notation load := (load_module interp_module disk configDir).

Lemma run_module_Some ld p s : (forall m s, is_Some (ld m s)) -> is_Some (run_module ld p s).
Proof.
  intros H. revert s. induction p as [r|m k IH]; intros s; cbn; [eauto|].
  destruct (H m s) as [[r s'] ->]. apply IH.
Qed.

(** Loading ends when the fuel exceeds the number of files that are not being loaded. *)
Lemma load_terminates (F : gset string) n ip m s :
  (forall p, is_Some (disk p) -> p ∈ F) -> (size (F ∖ ip) < n)%nat -> is_Some (load n ip m s).
Proof.
  intros HF. revert ip m s. induction n as [|n IH]; intros ip m s Hn; [lia|]. cbn.
  destruct (absPath_of configDir m) as [p|e]; [|eauto]. destruct (moduleCache s !! p); [eauto|].
  case_bool_decide as Hp; [eauto|]. destruct (disk p) as [src|] eqn:Hd; [|eauto].
  assert (size (F ∖ ({[p]} ∪ ip)) < size (F ∖ ip))%nat as Hsize.
  { apply subset_size. specialize (HF p ltac:(eauto)). split; [set_solver|]. intros Hsub. set_solver. }
  edestruct (run_module_Some (load n ({[p]} ∪ ip)) (interp_module p src)) as [[[d|e] s'] ->];
    [intros m' s'; apply IH; lia| |]; cbn; eauto.
Qed.

(** What a load does to the loader while the modules of [ip] are being loaded. *)
Definition confined (p : string) : Prop := exists m, absPath_of configDir m = Ok p.

Record loaded (ip : gset string) (s s' : Loader) : Prop := {
  loaded_keeps : moduleCache s ⊆ moduleCache s';
  loaded_spares p : p ∈ ip -> moduleCache s' !! p = moduleCache s !! p;
  loaded_reads : exists l, l_reads s' = l_reads s ++ l /\ Forall confined l;
}.

Lemma loaded_refl ip s : loaded ip s s.
Proof. split; [done|done|]. exists []. by rewrite app_nil_r. Qed.

Lemma loaded_trans ip s1 s2 s3 : loaded ip s1 s2 -> loaded ip s2 s3 -> loaded ip s1 s3.
Proof.
  intros [K1 P1 (l1&R1&F1)] [K2 P2 (l2&R2&F2)]. split.
  - by transitivity (moduleCache s2).
  - intros p Hp. by rewrite P2, P1.
  - exists (l1 ++ l2). rewrite R2, R1, app_assoc. by rewrite Forall_app.
Qed.

Lemma run_module_loaded ip ld p s r s' :
  (forall m s r s', ld m s = Some (r, s') -> loaded ip s s') -> run_module ld p s = Some (r, s') -> loaded ip s s'.
Proof.
  intros H. revert s. induction p as [r0|m k IH]; intros s; cbn; [intros [= <- <-]; apply loaded_refl|].
  destruct (ld m s) as [[r1 s1]|] eqn:Hm; [|done]. cbn. intros Hk.
  eapply loaded_trans; [by eapply H|by eapply IH].
Qed.

(** A load with the result and what it leaves in the cache. *)
Lemma load_spec n ip m s r s' :
  load n ip m s = Some (r, s') ->
  loaded ip s s' /\ forall d, r = Ok d -> exists p, absPath_of configDir m = Ok p /\ moduleCache s' !! p = Some d.
Proof.
  revert ip m s r s'. induction n as [|n IH]; intros ip m s r s'; cbn;
    (destruct (absPath_of configDir m) as [p|e] eqn:Hp;
       [|by intros [= <- <-]; split; [apply loaded_refl|]]);
    (destruct (moduleCache s !! p) as [d0|] eqn:Hc;
       [intros [= <- <-]; split; [apply loaded_refl|intros d [= <-]; eauto]|]);
    (case_bool_decide as Hin; [by intros [= <- <-]; split; [apply loaded_refl|]|]);
    (destruct (disk p) as [src|] eqn:Hd; [|by intros [= <- <-]; split; [apply loaded_refl|]]); [done|].
  destruct (run_module _ _ _) as [[r1 s1]|] eqn:Hrun; [|done]. cbn.
  apply (run_module_loaded ({[p]} ∪ ip)) in Hrun as [K1 P1 R1]; [|intros ???? H; by apply IH in H as [H _]].
  cbn in K1, P1, R1.
  assert (exists l, l_reads s1 = l_reads s ++ l /\ Forall confined l) as (l&HR&HF).
  { destruct R1 as (l&->&Hl). exists (p :: l). rewrite <- app_assoc. split; [done|]. constructor; [by exists m|done]. }
  assert (moduleCache s1 !! p = None) as Hnone by (rewrite P1; [done|set_solver]).
  destruct r1 as [d1|e1]; intros [= <- <-]; (split; [split; cbn|]).
  - by transitivity (moduleCache s1); [|apply insert_subseteq].
  - intros q Hq. rewrite lookup_insert_ne by (intros ->; done). apply P1. set_solver.
  - eauto.
  - intros d [= <-]. exists p. cbn. by rewrite lookup_insert_eq.
  - done.
  - intros q Hq. apply P1. set_solver.
  - eauto.
  - done.
Qed.
End LoadingFacts.

(** A path that loading accepts is clean and lies in the directory. *)
Definition inside_dir (dir p : string) : Prop :=
  (p = dir \/ exists rest, p = dir +:+ "/" +:+ rest) /\ Clean p = p /\ Forall plain (elems p).

Lemma Join_abs dir rel : IsAbs dir = true -> exists q, IsAbs q = true /\ Join dir rel = Clean q.
Proof.
  intros Habs. unfold Join. destruct dir as [|c dir]; [done|]. cbn [is_empty].
  destruct (is_empty rel); [by exists (String c dir)|]. eexists. split; [|done]. by destruct dir.
Qed.

Lemma str_snoc_inj s t c d : s +:+ String c "" = t +:+ String d "" -> s = t /\ c = d.
Proof.
  revert t. induction s as [|a s IH]; intros [|b t]; cbn.
  - by intros [= ->].
  - intros [= _ H]. by destruct t.
  - intros [= _ H]. by destruct s.
  - intros [= -> H]. by destruct (IH _ H) as [-> ->].
Qed.

Lemma str_snoc_cases s : s = "" \/ exists t c, s = t +:+ String c "".
Proof.
  induction s as [|a s [->|(t&c&->)]]; [by left|right..]; [by exists "", a|by exists (String a t), c].
Qed.

Lemma confined_inside configDir p : IsAbs configDir = true -> confined configDir p -> inside_dir configDir p.
Proof.
  intros Habs [m Hm]. unfold absPath_of in Hm.
  destruct (has_prefix m "//"); [|done]. cbn [negb] in Hm.
  destruct (str_contains _ ".."); [done|].
  destruct (has_prefix (Join configDir (trim_prefix m "//") +:+ "/") (configDir +:+ "/")) eqn:Hpre; [|done].
  injection Hm as <-. destruct (Join_abs configDir (trim_prefix m "//") Habs) as (q&Hq&Heq). rewrite Heq in *.
  split; [|split; [by apply Clean_idem|]].
  - apply has_prefix_spec in Hpre as [t Ht]. rewrite str_app_assoc in Ht.
    destruct (str_snoc_cases t) as [->|(t'&c&->)].
    + left. by apply str_snoc_inj in Ht as [? _].
    + right. exists t'. rewrite <- !str_app_assoc in Ht. rewrite <- !str_app_assoc.
      by apply str_snoc_inj in Ht as [? _].
  - apply elems_plain. rewrite Clean_abs by done. done.
Qed.

(** Once loaded, a module stays: whatever its file becomes and whoever loads it, the loader gives
    the same names and reads nothing. *)
Theorem load_stable im im' disk disk' configDir n n' ip ip' m s d s1 s2 :
  load_module im disk configDir n ip m s = Some (Ok d, s1) -> moduleCache s1 ⊆ moduleCache s2 ->
  load_module im' disk' configDir n' ip' m s2 = Some (Ok d, s2).
Proof.
  intros H Hsub. apply load_spec in H as [_ H]. destruct (H d eq_refl) as (p&Hp&Hc).
  assert (moduleCache s2 !! p = Some d) as Hc2 by (by eapply lookup_weaken).
  destruct n'; cbn; by rewrite Hp, Hc2.
Qed.

(** ** Executions *)

Section RuntimeFacts.
Context (im : string -> string -> module_run) (isc : ContextKind -> string -> gmap string global -> script_run).
Context (UA : string -> list sval -> list (string * sval) -> list param -> result string (list (option sval))).
Context (repr : sval -> string) (disk : string -> option string) (fuel : nat) (configDir : string).
Context (Get : string -> option EntityState) (dispatch : list command -> command -> result string (bool * string)).
Context (append : list Event -> Event -> option string).
Context (ambient : nat -> string -> list sval -> list (string * sval) -> result string sval).
Context (has_dispatcher has_store : bool) (now : Z) (timedOut : bool).
Notation builtin := (call_builtin UA repr Get dispatch append now).
Notation run := (run_script im UA repr disk fuel configDir Get dispatch append ambient now).
Notation exec := (Execute im isc UA repr disk fuel configDir Get dispatch append ambient has_dispatcher has_store now timedOut).
Notation globals := (globals_of has_dispatcher has_store).

(** What a function leaves alone. *)
Record spares (commands events : bool) (w w' : World) : Prop := {
  spares_loader : w_loader w' = w_loader w;
  spares_commands : commands = true -> w_commands w' = w_commands w;
  spares_events : events = true -> w_events w' = w_events w;
}.

Lemma spares_refl a b w : spares a b w w.
Proof. by split. Qed.

Lemma call_service_spares args kwargs w : spares false true w (call_service dispatch args kwargs w).2.
Proof. unfold call_service. repeat case_match; by split. Qed.

Lemma append_event_spares e w : spares true false w (append_event append e w).2.
Proof. unfold append_event. case_match; by split. Qed.

(** The functions that append an event. *)
Definition event_functions : list string := ["notify"; "scene.apply"; "event.fire"].

Lemma builtin_spares ans fn args kwargs w :
  spares (negb (String.eqb fn "call_service")) (negb (contains_eq event_functions fn)) w (builtin ans fn args kwargs w).2.
Proof.
  unfold call_builtin.
  destruct (String.eqb_spec fn "state") as [->|_]; [repeat case_match; apply spares_refl|].
  destruct (String.eqb_spec fn "call_service") as [->|_]; [apply call_service_spares|].
  destruct (String.eqb_spec fn "log") as [->|_]; [case_match; by split|].
  destruct (String.eqb_spec fn "notify") as [->|_]; [case_match; [apply append_event_spares|by split]|].
  destruct (String.eqb_spec fn "scene.apply") as [->|_]; [case_match; [apply append_event_spares|by split]|].
  destruct (String.eqb_spec fn "event.fire") as [->|_]; [case_match; [apply append_event_spares|by split]|].
  by split.
Qed.

#[local] Arguments is_function : simpl never.
#[local] Arguments event_functions : simpl never.

Lemma run_spec g n p w r st w' :
  run g n p w = Some (r, st, w') ->
  loaded configDir ∅ (w_loader w) (w_loader w') /\
  spares (negb (is_function g "call_service")) (forallb (fun fn => negb (is_function g fn)) event_functions) w
    (with_loader (w_loader w) w').
Proof.
  revert n w. induction p as [r0 st0|m k IH|fn args kwargs k IH]; intros n w; cbn.
  - intros [= <- <- <-]. split; [apply loaded_refl|by split].
  - destruct (load_module _ _ _ _ _ _ _) as [[r1 l1]|] eqn:Hl; [|done]. cbn. intros [H1 [_ H2 H3]]%IH.
    apply load_spec in Hl as [Hl _]. split; [by eapply loaded_trans|by split].
  - destruct (is_function g fn) eqn:Hfn.
    + pose proof (builtin_spares (ambient n fn args kwargs) fn args kwargs w) as [L C E].
      intros [H1 [_ H2 H3]]%IH. rewrite L in H1. split; [done|]. split; [done|cbn in *; intros Hc..].
      * rewrite H2 by done. apply C. destruct (String.eqb_spec fn "call_service") as [->|]; [|done].
        by rewrite Hfn in Hc.
      * rewrite H3 by done. apply E. destruct (contains_eq event_functions fn) eqn:Hin; [|done].
        apply contains_eq_spec in Hin. rewrite forallb_forall in Hc.
        specialize (Hc fn). rewrite list_elem_of_In in Hin. specialize (Hc Hin). by rewrite Hfn in Hc.
    + intros [= <- <- <-]. split; [apply loaded_refl|by split].
Qed.

Lemma run_terminates (F : gset string) g n p w :
  (forall q, is_Some (disk q) -> q ∈ F) -> (size F < fuel)%nat -> is_Some (run g n p w).
Proof.
  intros HF Hn. revert n w. induction p as [r0 st0|m k IH|fn args kwargs k IH]; intros n w; cbn; [eauto| |case_match; eauto].
  destruct (load_terminates im disk configDir F fuel ∅ m (w_loader w)) as [[r1 l1] ->];
    [done|by rewrite difference_empty_L|apply IH].
Qed.

(** [Execute] returns when the fuel exceeds the number of files there are: however modules load
    each other, loading ends. *)
Theorem Execute_terminates (F : gset string) k script extra w :
  (forall q, is_Some (disk q) -> q ∈ F) -> (size F < fuel)%nat -> is_Some (exec k script extra w).
Proof.
  intros HF Hn. unfold Execute.
  destruct (run_terminates F (globals k extra) 0 (isc k script (globals k extra))
              (mkWorld (w_loader w) (w_commands w) (w_events w) []) HF Hn) as [[[r st] w'] ->].
  cbn. eauto.
Qed.

Lemma Execute_run k script extra w r w' :
  exec k script extra w = Some (r, w') ->
  exists res, run (globals k extra) 0 (isc k script (globals k extra)) (mkWorld (w_loader w) (w_commands w) (w_events w) []) =
              Some (res, w').
Proof.
  unfold Execute. destruct (run _ _ _ _) as [[[r0 st] w0]|]; [|done]. cbn. intros [= _ <-]. eauto.
Qed.

(** The modules that an execution reads are files in the configuration directory, and none that
    was loaded before changes. *)
Theorem loads_confined k script extra w r w' :
  IsAbs configDir = true -> exec k script extra w = Some (r, w') ->
  moduleCache (w_loader w) ⊆ moduleCache (w_loader w') /\
  exists l, l_reads (w_loader w') = l_reads (w_loader w) ++ l /\ Forall (inside_dir configDir) l.
Proof.
  intros Habs [[r0 st] [[K _ (l&Hl&HF)] _]%run_spec]%Execute_run. split; [done|]. exists l. split; [done|].
  eapply Forall_impl; [exact HF|]. intros p. by apply confined_inside.
Qed.

(** *** Which context has which functions *)

Lemma globals_stdlib k extra name v :
  globals k extra !! name = Some v -> (forall x, v <> GValue x) -> (name, v) ∈ stdlib_list has_dispatcher has_store k extra.
Proof.
  intros [H|[_ H]]%lookup_union_Some_raw Hv.
  - rewrite lookup_fmap in H. apply fmap_Some in H as (x&_&->). by destruct (Hv x).
  - by apply elem_of_list_to_map_2 in H.
Qed.

Lemma call_service_available k extra :
  is_function (globals k extra) "call_service" = true -> has_dispatcher = true /\ k ∈ [KindAutomation; KindScript; KindMCPEval].
Proof.
  unfold is_function. cbn. destruct (globals k extra !! "call_service") as [[]|] eqn:H; try done. intros _.
  apply globals_stdlib in H; [|done]. unfold stdlib_list in H. destruct k, has_dispatcher, has_store; cbn in H; set_solver.
Qed.

Lemma event_function_available k extra fn :
  fn ∈ event_functions -> is_function (globals k extra) fn = true -> has_store = true /\ k ∈ [KindAutomation; KindScript].
Proof.
  intros Hfn. assert (exists name, name ∈ ["notify"; "scene"; "event"] /\
    (is_function (globals k extra) fn = true ->
     match globals k extra !! name with Some GFunc => name = "notify" | Some GModule => True | Some (GStruct fs _) => fs <> [] | _ => False end))
    as (name&Hname&Himp).
  { unfold event_functions in Hfn.
    apply elem_of_cons in Hfn as [->|[->|[->|[]%not_elem_of_nil]%elem_of_cons]%elem_of_cons];
      [exists "notify"|exists "scene"|exists "event"]; (split; [set_solver|]); unfold is_function; cbn;
      destruct (globals k extra !! _) as [[| |[|]|]|]; try done. }
  intros H%Himp. destruct (globals k extra !! name) as [v|] eqn:Hg; [|done].
  apply globals_stdlib in Hg; [|by intros ? ->]. unfold stdlib_list, event_fields in Hg.
  destruct k, has_dispatcher, has_store; cbn in Hg; set_solver.
Qed.

(** What an execution can do depends on its context: only automations, scripts and the evaluations
    of the MCP server issue commands, and only automations and scripts append events. *)
Theorem effects_confined k script extra w r w' :
  exec k script extra w = Some (r, w') ->
  (w_commands w' = w_commands w \/ has_dispatcher = true /\ k ∈ [KindAutomation; KindScript; KindMCPEval]) /\
  (w_events w' = w_events w \/ has_store = true /\ k ∈ [KindAutomation; KindScript]).
Proof.
  intros [[r0 st] [_ [_ HC HE]]%run_spec]%Execute_run. cbn in HC, HE. split.
  - destruct (is_function (globals k extra) "call_service") eqn:H; [right; by eapply call_service_available|left; by apply HC].
  - destruct (existsb (is_function (globals k extra)) event_functions) eqn:H.
    + right. apply existsb_exists in H as (fn&Hin&Hfn). apply list_elem_of_In in Hin. by eapply event_function_available.
    + left. apply HE, forallb_forall. intros fn Hin. apply negb_true_iff, not_true_iff_false. intros Hfn.
      apply not_true_iff_false in H. apply H, existsb_exists. eauto.
Qed.

(** A condition has no effect beyond the modules it loads, and one that fails is false. *)
Theorem condition_silent truth has_runtime expr ev w b w' :
  Condition_Evaluate im isc UA repr truth disk fuel configDir Get dispatch append ambient has_dispatcher has_store now timedOut
    has_runtime expr ev w = Some (b, w') ->
  w_commands w' = w_commands w /\ w_events w' = w_events w /\
  (b = true -> exists res, exec KindTriggerCondition expr (event_extra ev) w = Some (Ok res, w')).
Proof.
  unfold Condition_Evaluate. destruct has_runtime; cbn [negb]; [|by intros [= <- <-]].
  destruct (exec KindTriggerCondition expr (event_extra ev) w) as [[r w1]|] eqn:He; [|done]. cbn. intros [= <- <-].
  destruct (effects_confined _ _ _ _ _ _ He) as [[HC|[_ HC]] [HE|[_ HE]]]; try (exfalso; set_solver).
  split_and!; [done..|]. destruct r; [eauto|done].
Qed.

(** The names of the event that triggered are no globals of any context. *)
Theorem event_names_unbound k extra key : key ∈ eventKeys -> globals k extra !! key = None.
Proof.
  intros Hkey. apply eq_None_not_Some. intros [v [H|[_ H]]%lookup_union_Some_raw].
  - rewrite lookup_fmap in H. apply fmap_Some in H as (x&[_ Hx]%map_lookup_filter_Some&_). by apply Hx.
  - apply elem_of_list_to_map_2 in H. unfold stdlib_list in H. unfold eventKeys in Hkey.
    destruct k, has_dispatcher, has_store; cbn in H; set_solver.
Qed.

(** A named argument that is no text makes [call_service] fail before anything is dispatched. *)
Theorem call_service_refused e c rest kwargs w :
  Exists (fun kv => AsString kv.2 = None) kwargs ->
  exists msg, call_service dispatch (VString e :: VString c :: rest) kwargs w = (Err msg, w).
Proof.
  intros H. cbn. assert (forall m, exists msg, text_args kwargs m = Err msg) as Ht.
  { induction H as [[k v] l Hv|[k v] l _ IH]; intros m; cbn in *; [rewrite Hv; eauto|]. case_match; [apply IH|eauto]. }
  destruct (Ht ∅) as [msg ->]. eauto.
Qed.
End RuntimeFacts.

(** ** The cache of the daemon *)

(** The daemon waits for events of the kind [config.applied] to clear the cache; the event that an
    applied configuration appends is of the kind [config]. *)
Theorem daemon_never_invalidates now diff message s : on_log_event (applied_event now diff message) s = s.
Proof. done. Qed.

(** ** The runner of tests *)

Section TestFacts.
Context (im : string -> string -> module_run) (it : string -> module_run) (Call : dict -> sval -> result string unit) (Callable : sval -> bool).
Context (disk : string -> option string) (fuel : nat) (configDir : string) (timedOut timedOut2 : bool).
Notation test := (ExecuteTest im it Call Callable disk fuel configDir timedOut timedOut2).
Notation tests := (run_tests im it Call Callable disk fuel configDir timedOut timedOut2).

Lemma test_terminates (F : gset string) src name s :
  (forall q, is_Some (disk q) -> q ∈ F) -> (size F < fuel)%nat -> is_Some (test src name s).
Proof.
  intros HF Hn. unfold ExecuteTest.
  destruct (run_module_Some (load_module im disk configDir fuel ∅) (it src) s) as [[r s'] ->]; [|cbn; eauto].
  intros m s0. apply (load_terminates _ _ _ F); [done|by rewrite difference_empty_L].
Qed.

(** Every test of a file is run and reported, in order. *)
Theorem tests_reported (F : gset string) src names s :
  (forall q, is_Some (disk q) -> q ∈ F) -> (size F < fuel)%nat ->
  exists es s', tests src names s = Some (es, s') /\ es.*1 = names.
Proof.
  intros HF Hn. revert s. induction names as [|name names IH]; intros s; cbn; [eauto|].
  destruct (test_terminates F src name s HF Hn) as [[r s1] ->]. cbn.
  destruct (IH s1) as (es&s2&->&<-). cbn. eauto.
Qed.
End TestFacts.

(** ** Examples *)

Module RuntimeDemo.
Definition source (p : string) : option string :=
  if String.eqb p "/c/lib/a.star" then Some "a" else if String.eqb p "/c/lib/b.star" then Some "b"
  else if String.eqb p "/c/lib/v.star" then Some "v" else if String.eqb p "/etc/other.star" then Some "def test_x():" else None.

(** Two modules that load each other, and one that defines a public and a private name. *)
Definition modules (p src : string) : module_run :=
  if String.eqb src "a" then MLoad "//lib/b.star" MDone
  else if String.eqb src "b" then MLoad "//lib/a.star" MDone
  else MDone (Ok {["v" := VString src; "_hidden" := VNone]}).

Definition empty_loader : Loader := mkLoader ∅ [].
Definition load m s := load_module modules source "/c" 5 ∅ m s.

(** Files that load each other are read once each, fail, and are not cached. *)
Example cycle_fails :
  load "//lib/a.star" empty_loader = Some (Err "circular dependency detected", mkLoader ∅ ["/c/lib/a.star"; "/c/lib/b.star"]).
Proof. vm_compute. reflexivity. Qed.

(** A module that was changed on disk is still what it was. *)
Example stale_module :
  exists s, load "//lib/v.star" empty_loader = Some (Ok {["v" := VString "v"]}, s) /\
            load_module modules (fun _ => Some "new") "/c" 5 ∅ "//lib/v.star" s = Some (Ok {["v" := VString "v"]}, s).
Proof. eexists. vm_compute. split; reflexivity. Qed.

(** A directory that is not written in its clean form has no module. *)
Example unclean_directory :
  Forall (fun dir => absPath_of dir "//lib/v.star" = Err "path escapes configDir") ["./conf"; "conf/"; "."; "/c/"; "/c/../d"].
Proof. repeat constructor. Qed.

(** A script is a call of one function, whose error is that of the script. *)
Definition unpack (fn : string) (args : list sval) (kwargs : list (string * sval)) (ps : list param) : result string (list (option sval)) :=
  Ok (Some <$> args).
Definition script_of (kind : ContextKind) (src : string) (g : gmap string global) : script_run :=
  let finish r := SDone r 3 in
  if String.eqb src "turn_on" then SCall "call_service" [VString "light.k"; VString "turn_on"] [("level", VString "5")] finish
  else if String.eqb src "dim" then SCall "call_service" [VString "light.k"; VString "dim"] [("level", VInt 5)] finish
  else if String.eqb src "event_kind" then
    match g !! "event_kind" with Some (GValue v) => SDone (Ok v) 1 | _ => SDone (Err "undefined: event_kind") 0 end
  else if String.eqb src "event.kind" then
    match g !! "event" with
    | Some (GStruct _ (kv :: _)) => SDone (Ok (VBool (String.eqb (default "" (AsString kv.2)) "state_changed"))) 1
    | _ => SDone (Err "undefined: event") 0
    end
  else SDone (Err src) 3.

Definition world : World := mkWorld empty_loader [] [] [].
Definition execute k src extra :=
  Execute modules script_of unpack (fun _ => "") source 5 "/c" (fun _ => None) (fun _ _ => Ok (true, "")) (fun _ _ => None)
    (fun _ _ _ _ => Ok VNone) true true 0 false k src extra world.
Definition condition src ev :=
  Condition_Evaluate modules script_of unpack (fun _ => "") (fun _ => true) source 5 "/c" (fun _ => None) (fun _ _ => Ok (true, ""))
    (fun _ _ => None) (fun _ _ _ _ => Ok VNone) true true 0 false true src ev world.

(** What the MCP server evaluates can issue commands; the expression of a widget cannot. *)
Example eval_dispatches :
  snd <$> execute KindMCPEval "turn_on" ∅ =
    Some (mkWorld empty_loader [mkCommand "light.k" "turn_on" {["level" := "5"]}] [] []) /\
  execute KindWidgetCompute "turn_on" ∅ = Some (Err (OtherError "undefined: call_service"), world).
Proof. vm_compute. split; reflexivity. Qed.

Example number_refused :
  execute KindAutomation "dim" ∅ = Some (Err (OtherError "call_service: kwarg level must be string"), world).
Proof. vm_compute. reflexivity. Qed.

(** The name that the comment of the action recommends is undefined; the one it forbids works. *)
Example recommended_name_undefined :
  execute KindAutomation "event_kind" (event_extra (Some ("state_changed", "light.k"))) =
    Some (Err (OtherError "undefined: event_kind"), world) /\
  condition "event_kind" (Some ("state_changed", "light.k")) = Some (false, world) /\
  condition "event.kind" (Some ("state_changed", "light.k")) = Some (true, world).
Proof. vm_compute. split_and!; reflexivity. Qed.

(** An error whose text says [too many steps] counts as the limit, whoever raised it. *)
Example message_misread :
  execute KindScript "fail: too many steps in the recipe" ∅ =
    Some (Err (LimitSteps KindScript "fail: too many steps in the recipe"), world).
Proof. vm_compute. reflexivity. Qed.

Definition newline : string := String "010" "".

Example names_of_tests :
  test_names ("def test_b(x):" +:+ newline +:+ "  def test_in():" +:+ newline +:+ "def test_():" +:+ newline +:+
              "def test_a():" +:+ newline +:+ "def helper():" +:+ newline +:+ "def test_c ():") = ["test_b"; "test_a"].
Proof. vm_compute. reflexivity. Qed.

Definition tests (it : string -> module_run) path :=
  fst <$> RunTests modules it (fun _ _ => Ok tt) (fun _ => true) source 5 "/c" false false true path empty_loader.

(** A file without tests whose execution fails with [not found] passes in silence, and files
    anywhere are run. *)
Example tests_anywhere :
  tests (fun _ => MDone (Err "key not found")) "lib/v.star" = Some (Ok []) /\
  tests (fun _ => MDone (Err "bad syntax")) "lib/v.star" = Some (Ok [("lib/v.star", Failed "bad syntax")]) /\
  tests (fun _ => MDone (Ok {["test_x" := VNone]})) "/etc/other.star" = Some (Ok [("test_x", Passed)]).
Proof. vm_compute. split_and!; reflexivity. Qed.

End RuntimeDemo.
