(* ===== verification/LspClient.v ===== *)
(** * The client of the Pkl language server

    Models [internal/pkllsp]: [client.go] (framing, the table of pending requests,
    documents and diagnostics) and the decoding of answers in [service.go]. The client
    is a machine whose steps are the critical sections of its callers, of the reader
    and of the goroutine that waits for the process. A channel of capacity one belongs
    to each request and is named by the request's id. How a path becomes a URI is the
    caller's.

    [frames_roundtrip]: reading inverts writing. [response_is_first_message]: what a request
    returns is what the first message with its id says. [client_never_blocks],
    [closed_client_returns]: no send blocks, and after the end of the process every
    request returns. *)

From Stdlib Require Import Ascii String.
From S2P Require Import Prelude Codec Json.

(** ** Frames *)

(** [Panic]: a length that [make] refuses. *)
Inductive frame_error := EOF | BadLength | MissingLength | Panic.

(** The longest slice of bytes that can be made, 2^48 on amd64. *)
Definition maxAlloc : Z := 2 ^ 48.

Definition LF : ascii := "010".
Definition CR : ascii := "013".

(** [strings.TrimRight(line, "\r\n")]. *)
Fixpoint trim_crlf (s : string) : string :=
  match s with
  | EmptyString => EmptyString
  | String c s' =>
      let r := trim_crlf s' in
      if is_empty r && (Ascii.eqb c CR || Ascii.eqb c LF) then EmptyString else String c r
  end.

(** One line of the header: [None] ends it. No letter of the name has a folding
    outside ASCII. *)
Definition header_line (line : string) (contentLength : Z) : option (result frame_error Z) :=
  let line := trim_crlf line in
  if is_empty line then None
  else Some (match cut ":" line with
             | None => Ok contentLength
             | Some (name, value) =>
                 if same_field "Content-Length" (TrimSpace name)
                 then match ParseInt (TrimSpace value) with Some n => Ok n | None => Err BadLength end
                 else Ok contentLength
             end).

(** The lines up to the empty one; each takes at least its line feed. *)
Fixpoint read_header (fuel : nat) (s : string) (contentLength : Z) : result frame_error (Z * string) :=
  match fuel with
  | O => Err EOF
  | S n =>
      match cut LF s with
      | None => Err EOF
      | Some (line, rest) =>
          match header_line line contentLength with
          | None => Ok (contentLength, rest)
          | Some (Err e) => Err e
          | Some (Ok l) => read_header n rest l
          end
      end
  end.

Fixpoint take_bytes (n : nat) (s : string) : option (string * string) :=
  match n, s with
  | O, _ => Some (EmptyString, s)
  | S n', String c s' => '(a, b) ← take_bytes n' s'; Some (String c a, b)
  | S _, EmptyString => None
  end.

(** [s] is the rest of the stream up to its end; the body and what is left. *)
Definition readFramedMessage (s : string) : result frame_error (string * string) :=
  match read_header (S (String.length s)) s (-1) with
  | Err e => Err e
  | Ok (n, rest) =>
      if n <? 0 then Err MissingLength
      else if maxAlloc <? n then Err Panic
      else if Z.of_nat (String.length rest) <? n then Err EOF
      else match take_bytes (Z.to_nat n) rest with Some p => Ok p | None => Err EOF end
  end.

Definition crlf : string := String CR (String LF "").

(** What [writeJSON] writes. *)
Definition frame (body : string) : string :=
  "Content-Length: " +:+ pretty (Z.of_nat (String.length body)) +:+ crlf +:+ crlf +:+ body.

(** The bodies that [readLoop] handles, and why it ends. *)
Fixpoint read_loop (fuel : nat) (s : string) : list string * frame_error :=
  match fuel with
  | O => ([], EOF)
  | S n =>
      match readFramedMessage s with
      | Err e => ([], e)
      | Ok (body, rest) => let '(l, e) := read_loop n rest in (body :: l, e)
      end
  end.

(** ** Round trip *)

Lemma trim_crlf_end s : lacks CR s -> lacks LF s -> trim_crlf (s +:+ String CR "") = s.
Proof.
  induction s as [|c s IH]; [done|]. rewrite !lacks_String. intros [Hc Hs] [Hc' Hs'].
  rewrite str_app_cons. cbn [trim_crlf]. rewrite (IH Hs Hs').
  destruct (is_empty s); [|done]. cbn [andb].
  rewrite (proj2 (Ascii.eqb_neq c CR)), (proj2 (Ascii.eqb_neq c LF)) by (intros ->; done). done.
Qed.

Lemma take_bytes_app a b : take_bytes (String.length a) (a +:+ b) = Some (a, b).
Proof. induction a as [|c a IH]; [by destruct b|]. rewrite str_app_cons. cbn. by rewrite IH. Qed.

(** Digits are no space. *)
Lemma digits_trimmed s :
  (forall c, c ∈ list_ascii_of_string s -> exists d, (d < 10)%N /\ c = pretty_N_char d) -> trimmed s = true.
Proof.
  intros Hd.
  assert (forall r, r ∈ space_runes -> exists c, c ∈ list_ascii_of_string r /\ forall d, (d < 10)%N -> c <> pretty_N_char d) as Hr.
  { apply Forall_forall.
    unfold space_runes. cbn [fmap list_fmap]. repeat constructor;
      (eexists; split; [left|]; apply not_digit; repeat constructor; discriminate). }
  unfold trimmed, trim_one_left, trim_one_right.
  assert (forall f : string -> bool, (forall r, r ∈ space_runes -> f r = true -> exists a b, s = a +:+ r +:+ b) ->
            list_find (fun r => f r = true) space_runes = None) as Hnone.
  { intros f Hf. apply list_find_None, Forall_forall. intros r Hin Ht.
    destruct (Hf r Hin Ht) as (a & b & ->). destruct (Hr r Hin) as (c & Hc & Hno).
    destruct (Hd c) as (d & Hlt & ->); [|by eapply Hno].
    rewrite !list_ascii_of_string_app, !elem_of_app. by right; left. }
  rewrite (Hnone (fun r => has_prefix s r)), (Hnone (fun r => has_suffix s r)); [done| |].
  - intros r _ (a & ->)%has_suffix_spec. exists a, "". by rewrite str_app_nil_r.
  - intros r _ (b & ->)%has_prefix_spec. by exists "", b.
Qed.

Lemma pretty_nat_digits (n : nat) c :
  c ∈ list_ascii_of_string (pretty (Z.of_nat n)) -> exists d, (d < 10)%N /\ c = pretty_N_char d.
Proof. destruct n as [|n]; [apply (pretty_digits 0)|]. apply (pretty_digits (N.of_nat (S n))). Qed.

Lemma pretty_nat_lacks (n : nat) c : (forall d, (d < 10)%N -> c <> pretty_N_char d) -> lacks c (pretty (Z.of_nat n)).
Proof. intros Hc. apply pretty_lacks; [lia|done]. Qed.

(** [TrimSpace] of a decimal with a space in front. *)
Lemma TrimSpace_space s : trimmed s = true -> TrimSpace (" " +:+ s) = s.
Proof.
  unfold TrimSpace, trimmed. intros Hs. destruct (trim_one_left s) eqn:Hl; [done|]. destruct (trim_one_right s) eqn:Hr; [done|].
  assert (trim_one_left (" " +:+ s) = Some s) as Hf.
  { unfold trim_one_left. assert (list_find (fun r => has_prefix (" " +:+ s) r = true) space_runes = Some (5%nat, " ")) as ->.
    { vm_compute. reflexivity. }
    cbn [mbind option_bind snd]. by rewrite trim_prefix_app. }
  change (String.length (" " +:+ s)) with (S (String.length s)). cbn [trim_all]. rewrite Hf.
  by rewrite (trim_all_None trim_one_left), (trim_all_None trim_one_right).
Qed.

(** The header of a frame. *)
Lemma header_line_frame (len : nat) l :
  Z.of_nat len < 2 ^ 63 ->
  header_line ("Content-Length: " +:+ pretty (Z.of_nat len) +:+ String CR "") l = Some (Ok (Z.of_nat len)).
Proof.
  intros Hlen. unfold header_line. rewrite <- str_app_assoc, trim_crlf_end.
  - change ("Content-Length: " +:+ pretty (Z.of_nat len)) with ("Content-Length" +:+ String ":" (" " +:+ pretty (Z.of_nat len))).
    rewrite cut_app by (unfold lacks; cbn; set_solver).
    change (TrimSpace "Content-Length") with "Content-Length". change (same_field "Content-Length" "Content-Length") with true.
    rewrite TrimSpace_space by (apply digits_trimmed, pretty_nat_digits). cbn [is_empty]. rewrite ParseInt_pretty by lia. done.
  - apply lacks_app. split; [unfold lacks; cbn; set_solver|]. apply pretty_nat_lacks, not_digit; repeat constructor; discriminate.
  - apply lacks_app. split; [unfold lacks; cbn; set_solver|]. apply pretty_nat_lacks, not_digit; repeat constructor; discriminate.
Qed.

Lemma read_header_frame n (len : nat) rest l :
  Z.of_nat len < 2 ^ 63 ->
  read_header (S (S n)) ("Content-Length: " +:+ pretty (Z.of_nat len) +:+ crlf +:+ crlf +:+ rest) l = Ok (Z.of_nat len, rest).
Proof.
  intros Hlen. set (line := "Content-Length: " +:+ pretty (Z.of_nat len) +:+ String CR "").
  assert ("Content-Length: " +:+ pretty (Z.of_nat len) +:+ crlf +:+ crlf +:+ rest
          = line +:+ String LF (String CR "" +:+ String LF rest)) as ->.
  { unfold line. by rewrite !str_app_assoc. }
  assert (lacks LF line) as Hl.
  { unfold line. rewrite !lacks_app. split; [unfold lacks; cbn; set_solver|]. split; [|unfold lacks; cbn; set_solver].
    apply pretty_nat_lacks, not_digit; repeat constructor; discriminate. }
  cbn [read_header]. rewrite (cut_app LF line _ Hl). unfold line. rewrite header_line_frame by done.
  rewrite cut_app by (unfold lacks; cbn; set_solver). done.
Qed.

Lemma read_frame body rest :
  Z.of_nat (String.length body) <= maxAlloc -> readFramedMessage (frame body +:+ rest) = Ok (body, rest).
Proof.
  intros Hlen. unfold readFramedMessage, frame. rewrite !str_app_assoc.
  set (len := String.length body) in *. change maxAlloc with (2 ^ 48) in *.
  assert (exists n, S (String.length ("Content-Length: " +:+ pretty (Z.of_nat len) +:+ crlf +:+ crlf +:+ body +:+ rest)) = S (S n)) as [n ->].
  { eexists. cbn. reflexivity. }
  rewrite read_header_frame by lia.
  rewrite (proj2 (Z.ltb_ge _ _)), (proj2 (Z.ltb_ge _ _)) by lia.
  assert (String.length (body +:+ rest) = (len + String.length rest)%nat) as -> by apply str_length_app.
  rewrite (proj2 (Z.ltb_ge _ _)), Nat2Z.id by lia. unfold len. by rewrite take_bytes_app.
Qed.

(** Reading inverts writing: whatever messages are written, one after the other, and
    whatever follows them, the reader gets exactly these bodies, and goes on after them. *)
Theorem frames_roundtrip bodies rest fuel :
  Forall (fun b => Z.of_nat (String.length b) <= maxAlloc) bodies ->
  read_loop (length bodies + fuel) (foldr (fun b s => frame b +:+ s) rest bodies)
  = (let '(l, e) := read_loop fuel rest in (bodies ++ l, e)).
Proof.
  induction 1 as [|b bodies Hb _ IH]; [cbn; by destruct (read_loop fuel rest)|].
  cbn [length Nat.add foldr read_loop]. rewrite read_frame by done. rewrite IH. by destruct (read_loop fuel rest).
Qed.

(** A length that the process may announce stops the daemon: [make] panics, and nothing
    recovers in the goroutine of the reader. *)
Lemma announced_length_panics n rest :
  2 ^ 48 < n < 2 ^ 63 -> readFramedMessage ("Content-Length: " +:+ pretty n +:+ crlf +:+ crlf +:+ rest) = Err Panic.
Proof.
  intros Hn. unfold readFramedMessage.
  assert (n = Z.of_nat (Z.to_nat n)) as -> by lia. set (m := Z.to_nat n).
  assert (exists k, S (String.length ("Content-Length: " +:+ pretty (Z.of_nat m) +:+ crlf +:+ crlf +:+ rest)) = S (S k)) as [k ->].
  { eexists. cbn. reflexivity. }
  rewrite read_header_frame by lia. unfold maxAlloc.
  rewrite (proj2 (Z.ltb_ge _ _)), (proj2 (Z.ltb_lt _ _)) by lia. done.
Qed.

(** ** Messages *)

Record lspPosition := mkPosition { Line : Z; Character : Z }.
Record lspRange := mkRange { Start : lspPosition; End_ : lspPosition }.
Record lspDiagnostic := mkDiagnostic { d_Range : lspRange; d_Severity : Z; d_Code : option json; d_Message : string }.
Definition no_position : lspPosition := mkPosition 0 0.
Definition no_range : lspRange := mkRange no_position no_position.

Definition dec_position (j : json) : option lspPosition :=
  m ← as_struct j; l ← get 0 (dec_int 0 (2 ^ 32)) "line" m; c ← get 0 (dec_int 0 (2 ^ 32)) "character" m; Some (mkPosition l c).
Definition dec_range (j : json) : option lspRange :=
  m ← as_struct j; s ← get no_position dec_position "start" m; e ← get no_position dec_position "end" m; Some (mkRange s e).
Definition dec_int32 : json -> option Z := dec_int (- 2 ^ 31) (2 ^ 31).
Definition dec_diagnostic (j : json) : option lspDiagnostic :=
  m ← as_struct j;
  r ← get no_range dec_range "range" m;
  s ← get 0 dec_int32 "severity" m;
  msg ← get "" dec_string "message" m;
  Some (mkDiagnostic r s (field "code" m) msg).
(** A slice of structs. *)
Definition dec_structs {A} (dec : json -> option A) (j : json) : option (list A) :=
  match j with JNull => Some [] | _ => l ← dec_raw_list j; mapM dec l end.

(** What one message holds; a raw field is [None] when it is absent, and a [null] is raw. *)
Record message := mkMessage {
  m_ID : option json; m_Method : string; m_Params : option json; m_Result : option json; m_Error : option (Z * string);
}.
Definition dec_rpc_error (j : json) : option (Z * string) :=
  m ← as_struct j; c ← get 0 (dec_int (- 2 ^ 63) (2 ^ 63)) "code" m; t ← get "" dec_string "message" m; Some (c, t).
Definition dec_message (j : json) : option message :=
  m ← as_struct j;
  method ← get "" dec_string "method" m;
  err ← get_ptr dec_rpc_error "error" m;
  Some (mkMessage (field "id" m) method (field "params" m) (field "result" m) err).

(** [json.Unmarshal] of a raw id into an [int64]. *)
Definition dec_id (j : json) : option Z := match j with JNull => Some 0 | _ => dec_int (- 2 ^ 63) (2 ^ 63) j end.

(** ** The client *)

Inductive response := RResult (raw : option json) | RRpc (code : Z) (text : string) | RStopped | RExited.

Record diagnosticState := mkDiagnosticState { ds_version : Z; ds_diagnostics : list lspDiagnostic }.

(** Where a request is in [request]: the id is reserved, the message is written, it has
    returned a response, or an error of its own. *)
Inductive request_state := Reserved | Waiting | Returned (r : response) | WriteFailed | Cancelled.

Inductive outgoing :=
  | ORequest (id : Z) (method : string) (params : json)
  | ODidOpen (uri : string) (version : Z) (text : string) | ODidChange (uri : string) (version : Z) (text : string).

(** The fields of [client], the channels of the requests, the reader between taking a
    pending request and sending to its channel, the notifications that [syncDocument]
    still has to write, the requests and what was written. *)
Record client := mkClient {
  nextID : Z; pending : gset Z; opened : gmap string Z; diags : gmap string diagnosticState; closed : bool;
  chans : gmap Z (option response); delivering : option (Z * response); notices : list outgoing;
  requests : gmap Z (string * json * request_state); wire : list outgoing;
}.
Definition startClient : client := mkClient 1 ∅ ∅ ∅ false ∅ None [] ∅ [].

Inductive event :=
  | EReserve (method : string) (params : json)   (* reserveRequest *)
  | EWrite (id : Z) (ok : bool)                   (* writeJSON of a request, and dropRequest when it fails *)
  | EReceive (id : Z)                             (* case resp := <-ch *)
  | ECancel (id : Z)                              (* case <-ctx.Done, dropRequest *)
  | ERead (body : json)                           (* handleMessage up to the send *)
  | EDeliver                                      (* the send of handleMessage *)
  | EStop | EExit                                 (* the critical sections of close and waitLoop *)
  | ESync (uri text : string)                     (* the critical section of syncDocument *)
  | ENotify (n : nat) (ok : bool).                (* writeJSON of the n-th notification *)

Definition set_request (id : Z) (f : request_state) (s : client) : gmap Z (string * json * request_state) :=
  alter (fun p => (p.1, f)) id (requests s).
Definition request_at (s : client) (id : Z) : option request_state := snd <$> requests s !! id.

Definition is_free (s : client) (id : Z) : bool := match chans s !! id with Some None => true | _ => false end.

(** The channel of a pending request is given the error; a full channel blocks. *)
Definition drain (r : response) (s : client) : option client :=
  if forallb (is_free s) (elements (pending s))
  then Some (mkClient (nextID s) ∅ (opened s) (diags s) true
               (foldr (fun id c => <[id := Some r]> c) (chans s) (elements (pending s)))
               (delivering s) (notices s) (requests s) (wire s))
  else None.

(** [textDocument/publishDiagnostics]. *)
Definition publish (params : option json) (d : gmap string diagnosticState) : gmap string diagnosticState :=
  match (j ← params; m ← as_struct j; uri ← get "" dec_string "uri" m; v ← get_ptr dec_int32 "version" m;
         l ← get [] (dec_structs dec_diagnostic) "diagnostics" m; Some (uri, mkDiagnosticState (default 0 v) l)) with
  | Some (uri, st) => <[uri := st]> d
  | None => d
  end.

Definition answer (m : message) : response :=
  match m_Error m with Some (c, t) => RRpc c t | None => RResult (m_Result m) end.

(** [handleMessage] up to its send; [body] is what parses. *)
Definition handleMessage (body : json) (s : client) : client :=
  match dec_message body with
  | None => s
  | Some m =>
      match m_ID m with
      | Some raw =>
          match dec_id raw with
          | None => s
          | Some id =>
              if decide (id ∈ pending s)
              then mkClient (nextID s) (pending s ∖ {[id]}) (opened s) (diags s) (closed s) (chans s) (Some (id, answer m))
                     (notices s) (requests s) (wire s)
              else s
          end
      | None =>
          if String.eqb (m_Method m) "textDocument/publishDiagnostics"
          then mkClient (nextID s) (pending s) (opened s) (publish (m_Params m) (diags s)) (closed s) (chans s) (delivering s)
                 (notices s) (requests s) (wire s)
          else s
      end
  end.

(** [syncDocument] up to its notification; versions are [int32]. *)
Definition wrap_i32 (z : Z) : Z := (z + 2 ^ 31) mod 2 ^ 32 - 2 ^ 31.
Definition syncDocument (uri text : string) (s : client) : Z * outgoing :=
  let old := default 0 (opened s !! uri) in
  let version := wrap_i32 (old + 1) in
  (version, if old =? 0 then ODidOpen uri version text else ODidChange uri version text).

Definition drop_request (id : Z) (f : request_state) (s : client) : client :=
  mkClient (nextID s) (pending s ∖ {[id]}) (opened s) (diags s) (closed s) (chans s) (delivering s) (notices s)
    (set_request id f s) (wire s).

(** A step, if it is possible. A closed client refuses a new request; the caller gets the
    error at once and nothing changes. *)
Definition step (s : client) (e : event) : option client :=
  match e with
  | EReserve method params =>
      if closed s then Some s
      else let id := nextID s in
           Some (mkClient (id + 1) ({[id]} ∪ pending s) (opened s) (diags s) (closed s) (<[id := None]> (chans s)) (delivering s)
                   (notices s) (<[id := (method, params, Reserved)]> (requests s)) (wire s))
  | EWrite id ok =>
      match requests s !! id with
      | Some (method, params, Reserved) =>
          Some (if ok
                then mkClient (nextID s) (pending s) (opened s) (diags s) (closed s) (chans s) (delivering s) (notices s)
                       (set_request id Waiting s) (wire s ++ [ORequest id method params])
                else drop_request id WriteFailed s)
      | _ => None
      end
  | EReceive id =>
      match request_at s id, chans s !! id with
      | Some Waiting, Some (Some r) =>
          Some (mkClient (nextID s) (pending s) (opened s) (diags s) (closed s) (<[id := None]> (chans s)) (delivering s) (notices s)
                  (set_request id (Returned r) s) (wire s))
      | _, _ => None
      end
  | ECancel id =>
      match request_at s id with Some Waiting => Some (drop_request id Cancelled s) | _ => None end
  | ERead body => match delivering s with None => Some (handleMessage body s) | Some _ => None end
  | EDeliver =>
      match delivering s with
      | Some (id, r) =>
          match chans s !! id with
          | Some None => Some (mkClient (nextID s) (pending s) (opened s) (diags s) (closed s) (<[id := Some r]> (chans s)) None
                                 (notices s) (requests s) (wire s))
          | _ => None
          end
      | None => None
      end
  | EStop => if closed s then Some s else drain RStopped s
  | EExit => if closed s then Some s else drain RExited s
  | ESync uri text =>
      let '(version, o) := syncDocument uri text s in
      Some (mkClient (nextID s) (pending s) (<[uri := version]> (opened s)) (diags s) (closed s) (chans s) (delivering s)
              (notices s ++ [o]) (requests s) (wire s))
  | ENotify n ok =>
      match notices s !! n with
      | Some o => Some (mkClient (nextID s) (pending s) (opened s) (diags s) (closed s) (chans s) (delivering s)
                          (delete n (notices s)) (requests s) (if ok then wire s ++ [o] else wire s))
      | None => None
      end
  end.

Fixpoint run (es : list event) (s : client) : option client :=
  match es with [] => Some s | e :: es' => s' ← step s e; run es' s' end.

(** ** What holds in every state *)

(** A request that was neither answered nor dropped is pending or being answered, and its
    channel is empty; ids are below the next one. *)
Record client_ok (s : client) : Prop := mkClientOk {
  ok_pending : forall id, id ∈ pending s -> chans s !! id = Some None /\ (request_at s id = Some Reserved \/ request_at s id = Some Waiting);
  ok_delivering : forall id r, delivering s = Some (id, r) -> id ∉ pending s /\ chans s !! id = Some None;
  ok_fresh : forall id, nextID s <= id -> requests s !! id = None /\ chans s !! id = None;
  ok_closed : closed s = true -> pending s = ∅;
  ok_open : forall id, request_at s id = Some Reserved \/ request_at s id = Some Waiting ->
            id ∈ pending s \/ (exists r, delivering s = Some (id, r)) \/ exists r, chans s !! id = Some (Some r);
}.

Lemma start_ok : client_ok startClient.
Proof. split; cbn; set_solver. Qed.

Definition state_at (r : gmap Z (string * json * request_state)) (id : Z) : option request_state := snd <$> r !! id.

Lemma state_at_set id id' f s :
  state_at (set_request id f s) id' = if decide (id = id') then (fun _ => f) <$> request_at s id' else request_at s id'.
Proof.
  unfold request_at, state_at, set_request. destruct (decide (id = id')) as [<-|Hne].
  - rewrite lookup_alter_eq. by destruct (requests s !! id).
  - by rewrite lookup_alter_ne.
Qed.

Lemma set_request_fresh id id' f s : requests s !! id' = None -> set_request id f s !! id' = None.
Proof.
  unfold set_request. destruct (decide (id = id')) as [<-|Hne]; [rewrite lookup_alter_eq; by intros ->|by rewrite lookup_alter_ne].
Qed.

Lemma lookup_foldr_insert (r : response) (l : list Z) (c : gmap Z (option response)) id :
  foldr (fun id (c : gmap Z (option response)) => <[id := Some r]> c) c l !! id = if decide (id ∈ l) then Some (Some r) else c !! id.
Proof.
  induction l as [|x l IH]; cbn [foldr]; [by rewrite decide_False by set_solver|].
  destruct (decide (x = id)) as [<-|Hne]; [rewrite lookup_insert_eq; by rewrite decide_True by set_solver|].
  rewrite lookup_insert_ne, IH by done. destruct (decide (id ∈ l)); [rewrite decide_True by set_solver|rewrite decide_False by set_solver]; done.
Qed.

Lemma is_free_true s id : is_free s id = true <-> chans s !! id = Some None.
Proof. unfold is_free. destruct (chans s !! id) as [[]|]; naive_solver. Qed.

Lemma drop_ok id f s :
  client_ok s -> (forall r, f = r -> r <> Reserved /\ r <> Waiting) -> client_ok (drop_request id f s).
Proof.
  intros [Hp Hd Hf Hc Ho] Hfin. destruct (Hfin f eq_refl) as [Hf1 Hf2]. unfold drop_request. split; cbn.
  - intros id' [Hin Hne]%elem_of_difference. change (request_at _ id') with (state_at (set_request id f s) id').
    rewrite state_at_set, decide_False by set_solver. by apply Hp.
  - intros id' r Hdel. destruct (Hd id' r Hdel). split; [set_solver|done].
  - intros id' Hn. split; [apply set_request_fresh|]; by apply Hf.
  - intros Hcl. rewrite (Hc Hcl). set_solver.
  - intros id'. change (request_at _ id') with (state_at (set_request id f s) id'). rewrite state_at_set.
    destruct (decide (id = id')) as [<-|Hne]; [destruct (request_at s id); cbn; naive_solver|].
    intros [Hin|H]%Ho; [left; set_solver|by right].
Qed.

Lemma drain_ok r s s' : client_ok s -> drain r s = Some s' -> client_ok s'.
Proof.
  intros [Hp Hd Hf Hc Ho]. unfold drain. destruct (forallb _ _); [|done]. intros [= <-]. split; cbn.
  - set_solver.
  - intros id r' Hdel. destruct (Hd id r' Hdel). split; [set_solver|]. by rewrite lookup_foldr_insert, decide_False by set_solver.
  - intros id Hn. split; [by apply Hf|]. rewrite lookup_foldr_insert, decide_False; [by apply Hf|].
    rewrite elem_of_elements. intros [Hx _]%Hp. destruct (Hf id Hn). congruence.
  - done.
  - intros id Hid. rewrite lookup_foldr_insert. destruct (Ho id Hid) as [Hin|[H|[r' H]]].
    + rewrite decide_True by set_solver. right; right. by exists r.
    + right; left. done.
    + right; right. destruct (decide (id ∈ elements (pending s))); eauto.
Qed.

(** No send blocks: what is pending has an empty channel. *)
Lemma drain_possible r s : client_ok s -> exists s', drain r s = Some s'.
Proof.
  intros H. unfold drain. assert (forallb (is_free s) (elements (pending s)) = true) as ->; [|eauto].
  apply forallb_forall. intros id Hid%list_elem_of_In%elem_of_elements. apply is_free_true. by apply H.
Qed.

Lemma handle_ok body s : client_ok s -> delivering s = None -> client_ok (handleMessage body s).
Proof.
  intros Hok Hd. unfold handleMessage. destruct (dec_message body) as [m|]; [|done].
  destruct (m_ID m) as [raw|]; [|by destruct (String.eqb _ _); [destruct Hok; split|]].
  destruct (dec_id raw) as [id|]; [|done]. destruct (decide (id ∈ pending s)) as [Hin|]; [|done].
  destruct Hok as [Hp _ Hf Hc Ho]. split; cbn.
  - intros id' [Hin' _]%elem_of_difference. by apply Hp.
  - intros id' r [= <- _]. split; [set_solver|]. by apply Hp.
  - done.
  - intros Hcl. rewrite (Hc Hcl). set_solver.
  - intros id' Hid'. destruct (Ho id' Hid') as [Hin'|[[r H]|H]]; [|congruence|by right; right].
    destruct (decide (id = id')) as [<-|Hne]; [right; left; by eexists|left; set_solver].
Qed.

Lemma reserve_ok s method params s' : client_ok s -> step s (EReserve method params) = Some s' -> client_ok s'.
Proof.
  intros Hok. pose proof Hok as [Hp Hd Hf Hc Ho]. cbn [step].
  destruct (closed s) eqn:Hcl; [by intros [= <-]|]. intros [= <-].
  destruct (Hf (nextID s)) as [Hq Hch]; [lia|]. split; cbn; [| | |done|].
  + intros id. unfold request_at. cbn. destruct (decide (id = nextID s)) as [->|Hne].
    * intros _. rewrite !lookup_insert_eq. auto.
    * rewrite !lookup_insert_ne by done. intros Hin. apply Hp. set_solver.
  + intros id r Hdel. destruct (Hd id r Hdel) as [Hn Hfree].
    assert (id <> nextID s) by (intros ->; congruence). split; [set_solver|]. by rewrite lookup_insert_ne.
  + intros id Hn. rewrite !lookup_insert_ne by lia. apply Hf. lia.
  + intros id. unfold request_at. cbn. destruct (decide (id = nextID s)) as [->|Hne]; [intros _; left; set_solver|].
    rewrite !lookup_insert_ne by done. intros [Hin|H]%Ho; [left; set_solver|by right].
Qed.

Lemma write_ok s id ok s' : client_ok s -> step s (EWrite id ok) = Some s' -> client_ok s'.
Proof.
  intros Hok. pose proof Hok as [Hp Hd Hf Hc Ho]. cbn [step].
  destruct (requests s !! id) as [[[method params] []]|] eqn:Hr; try done. destruct ok; intros [= <-].
  + assert (forall id', (request_at s id' = Some Reserved \/ request_at s id' = Some Waiting) <->
      (state_at (set_request id Waiting s) id' = Some Reserved \/ state_at (set_request id Waiting s) id' = Some Waiting)) as Hst.
    { intros id'. rewrite state_at_set. destruct (decide (id = id')) as [<-|]; [|done].
      unfold request_at. rewrite Hr. cbn. naive_solver. }
    split; cbn; [| |intros id' Hn; split; [apply set_request_fresh|]; by apply Hf|done|].
    * intros id' Hin. destruct (Hp id' Hin) as [Hch Hst']. split; [done|]. by apply Hst.
    * done.
    * intros id' H'. apply Ho, Hst, H'.
  + apply drop_ok; [done|]. by intros ? <-.
Qed.

Lemma receive_ok s id s' : client_ok s -> step s (EReceive id) = Some s' -> client_ok s'.
Proof.
  intros Hok. pose proof Hok as [Hp Hd Hf Hc Ho]. cbn [step].
  destruct (request_at s id) as [[]|] eqn:Hr; try done. destruct (chans s !! id) as [[r|]|] eqn:Hch; try done. intros [= <-].
  assert (id ∉ pending s) as Hnp by (intros Hin; destruct (Hp id Hin); congruence).
  split; cbn.
  + intros id' Hin. assert (id <> id') by (intros ->; done). rewrite lookup_insert_ne by done.
    change (request_at _ id') with (state_at (set_request id (Returned r) s) id').
    rewrite state_at_set, decide_False by done. by apply Hp.
  + intros id' r' Hdel. destruct (Hd id' r' Hdel). split; [done|]. rewrite lookup_insert_ne; [done|]. intros ->. congruence.
  + intros id' Hn. assert (id <> id') by (intros ->; destruct (Hf id' Hn); congruence).
    rewrite lookup_insert_ne by done. split; [apply set_request_fresh|]; by apply Hf.
  + done.
  + intros id'. change (request_at _ id') with (state_at (set_request id (Returned r) s) id'). rewrite state_at_set.
    destruct (decide (id = id')) as [<-|Hne]; [rewrite Hr; cbn; naive_solver|]. rewrite lookup_insert_ne by done. apply Ho.
Qed.

Lemma lsp_deliver_ok s s' : client_ok s -> step s EDeliver = Some s' -> client_ok s'.
Proof.
  intros Hok. pose proof Hok as [Hp Hd Hf Hc Ho]. cbn [step].
  destruct (delivering s) as [[id r]|] eqn:Hdel; [|done]. destruct (Hd id r eq_refl) as [Hn Hfree]. rewrite Hfree. intros [= <-].
  split; cbn; [|done| |done|].
  + intros id' Hin. rewrite lookup_insert_ne by (intros ->; done). by apply Hp.
  + intros id' Hge. rewrite lookup_insert_ne by (intros ->; destruct (Hf id' Hge); congruence). by apply Hf.
  + intros id' [Hin|[[r' H]|H]]%Ho; [by left| |right; right; destruct (decide (id = id')) as [<-|]].
    * simplify_eq. right; right. rewrite lookup_insert_eq. eauto.
    * rewrite lookup_insert_eq. eauto.
    * by rewrite lookup_insert_ne.
Qed.

Lemma lsp_step_ok s e s' : client_ok s -> step s e = Some s' -> client_ok s'.
Proof.
  intros Hok. destruct e as [method params|id ok|id|id|body| | | |uri text|n ok];
    [by apply reserve_ok | by apply write_ok | by apply receive_ok | | | by apply lsp_deliver_ok | ..]; cbn [step].
  - destruct (request_at s id) as [[]|]; try done. intros [= <-]. apply drop_ok; [done|]. by intros ? <-.
  - destruct (delivering s) eqn:Hdel; [done|]. intros [= <-]. by apply handle_ok.
  - destruct (closed s); [by intros [= <-]|]. by apply drain_ok.
  - destruct (closed s); [by intros [= <-]|]. by apply drain_ok.
  - destruct (syncDocument uri text s). intros [= <-]. destruct Hok. by split.
  - destruct (notices s !! n); [|done]. intros [= <-]. destruct Hok. by split.
Qed.

Lemma run_ok es s s' : client_ok s -> run es s = Some s' -> client_ok s'.
Proof.
  revert s. induction es as [|e es IH]; intros s Hok; cbn; [by intros [= <-]|].
  destruct (step s e) as [s1|] eqn:Hs; [|done]. cbn. apply IH. by eapply lsp_step_ok.
Qed.

Lemma run_app es1 es2 s : run (es1 ++ es2) s = (s' ← run es1 s; run es2 s').
Proof. revert s. induction es1 as [|e es1 IH]; intros s; [done|]. cbn. destruct (step s e); cbn; [apply IH|done]. Qed.

(** ** Safety and liveness *)

(** No send of the client blocks, under every interleaving: the reader can always
    send the answer it took, and whoever stops the client can always send the error to
    every pending request, although it holds the lock while it does. *)
Theorem client_never_blocks es s :
  run es startClient = Some s ->
  (delivering s <> None -> is_Some (step s EDeliver)) /\ is_Some (step s EStop) /\ is_Some (step s EExit).
Proof.
  intros Hrun. pose proof (run_ok _ _ _ start_ok Hrun) as Hok. cbn [step].
  split; [|by destruct (closed s); [split; eexists|split; apply drain_possible]].
  destruct (delivering s) as [[id r]|] eqn:Hd; [|done]. intros _. destruct (ok_delivering s Hok id r Hd) as [_ ->]. by eexists.
Qed.

Lemma receive_step s id r :
  request_at s id = Some Waiting -> chans s !! id = Some (Some r) ->
  exists s', step s (EReceive id) = Some s' /\ request_at s' id = Some (Returned r).
Proof.
  intros Hr Hc. cbn [step]. rewrite Hr, Hc. eexists. split; [done|].
  change (request_at _ id) with (state_at (set_request id (Returned r) s) id).
  by rewrite state_at_set, decide_True, Hr.
Qed.

(** When the client has stopped, every request that waits gets its response: it is in
    its channel, or the reader is about to send it. No caller is left waiting. *)
Theorem closed_client_returns es s id :
  run es startClient = Some s -> closed s = true -> request_at s id = Some Waiting ->
  exists es' s' r, (es' = [EReceive id] \/ es' = [EDeliver; EReceive id]) /\
    run es' s = Some s' /\ request_at s' id = Some (Returned r).
Proof.
  intros Hrun Hcl Hw. pose proof (run_ok _ _ _ start_ok Hrun) as Hok.
  destruct (ok_open s Hok id) as [Hin|[[r Hd]|[r Hc]]]; [by right| | |].
  - rewrite (ok_closed s Hok Hcl) in Hin. set_solver.
  - destruct (ok_delivering s Hok id r Hd) as [_ Hfree].
    pose (s1 := mkClient (nextID s) (pending s) (opened s) (diags s) (closed s) (<[id := Some r]> (chans s)) None
                  (notices s) (requests s) (wire s)).
    assert (step s EDeliver = Some s1) as H1 by (cbn [step]; by rewrite Hd, Hfree).
    destruct (receive_step s1 id r Hw) as (s' & H2 & Hret); [apply lookup_insert_eq|].
    exists [EDeliver; EReceive id], s', r. split; [by right|]. split; [|done]. cbn [run]. rewrite H1. cbn [mbind option_bind].
    by rewrite H2.
  - destruct (receive_step s id r Hw Hc) as (s' & H1 & Hret).
    exists [EReceive id], s', r. split; [by left|]. split; [|done]. cbn [run]. by rewrite H1.
Qed.

(** Where a response to the request [id] comes from. *)
Definition sent_by (es : list event) (id : Z) (r : response) : Prop :=
  (r = RStopped /\ EStop ∈ es) \/ (r = RExited /\ EExit ∈ es) \/
  exists pre body post sp m raw,
    es = pre ++ ERead body :: post /\ run pre startClient = Some sp /\ id ∈ pending sp /\
    dec_message body = Some m /\ m_ID m = Some raw /\ dec_id raw = Some id /\ r = answer m.

Lemma sent_by_snoc es e id r : sent_by es id r -> sent_by (es ++ [e]) id r.
Proof.
  intros [[-> H]|[[-> H]|(pre & body & post & sp & m & raw & -> & H)]]; [left; set_solver|right; left; set_solver|].
  right; right. exists pre, body, (post ++ [e]), sp, m, raw. by rewrite <- app_assoc.
Qed.

(** The responses in flight or returned. *)
Definition responds (s : client) (id : Z) (r : response) : Prop :=
  delivering s = Some (id, r) \/ chans s !! id = Some (Some r) \/ request_at s id = Some (Returned r).

Lemma responds_set s id f id' r :
  state_at (set_request id f s) id' = Some (Returned r) -> f <> Returned r -> request_at s id' = Some (Returned r).
Proof. rewrite state_at_set. destruct (decide (id = id')); [|done]. by destruct (request_at s id'); intros [=]. Qed.

(** A step brings no response but those it is the source of. *)
Lemma step_responds s e s' id r :
  step s e = Some s' -> responds s' id r ->
  responds s id r \/ (e = EStop /\ r = RStopped) \/ (e = EExit /\ r = RExited) \/
  exists body m raw, e = ERead body /\ id ∈ pending s /\ dec_message body = Some m /\ m_ID m = Some raw /\
                     dec_id raw = Some id /\ r = answer m.
Proof.
  unfold responds. intros Hs.
  assert (forall r0, drain r0 s = Some s' -> responds s' id r -> responds s id r \/ r = r0) as Hdr.
  { intros r0. unfold drain, responds. destruct (forallb _ _); [|done]. intros [= <-]. cbn. rewrite lookup_foldr_insert.
    destruct (decide _); naive_solver. }
  destruct e as [method params|i ok|i|i|body| | | |uri text|n ok]; cbn [step] in Hs.
  - destruct (closed s); [naive_solver|]. injection Hs as <-. unfold request_at. cbn.
    destruct (decide (id = nextID s)) as [->|]; [rewrite !lookup_insert_eq; naive_solver|]. rewrite !lookup_insert_ne by done. auto.
  - destruct (requests s !! i) as [[[method params] []]|]; try done. destruct ok; injection Hs as <-; cbn;
      (intros [H|[H|H]]; [auto|auto|left; right; right; apply (responds_set _ _ _ _ _ H); discriminate]).
  - destruct (request_at s i) as [[]|] eqn:Hr; try done. destruct (chans s !! i) as [[r'|]|] eqn:Hc; try done. injection Hs as <-. cbn.
    intros [H|[H|H]]; [auto| |].
    + destruct (decide (i = id)) as [<-|]; [by rewrite lookup_insert_eq in H|rewrite lookup_insert_ne in H by done; auto].
    + left. change (request_at _ id) with (state_at (set_request i (Returned r') s) id) in H. rewrite state_at_set in H.
      destruct (decide (i = id)) as [<-|]; [|auto]. rewrite Hr in H. cbn in H. injection H as <-. auto.
  - destruct (request_at s i) as [[]|]; try done. injection Hs as <-. cbn.
    intros [H|[H|H]]; [auto|auto|left; right; right; apply (responds_set _ _ _ _ _ H); discriminate].
  - destruct (delivering s) eqn:Hd; [done|]. injection Hs as <-. unfold handleMessage.
    destruct (dec_message body) as [m|] eqn:Hm; [|rewrite Hd; auto].
    destruct (m_ID m) as [raw|] eqn:Hid; [|destruct (String.eqb _ _); cbn; rewrite ?Hd; auto].
    destruct (dec_id raw) as [i|] eqn:Hraw; [|rewrite Hd; auto].
    destruct (decide (i ∈ pending s)); [|rewrite Hd; auto]. cbn. intros [[= -> <-]|H]; [|auto].
    right; right; right. by exists body, m, raw.
  - destruct (delivering s) as [[i r']|]; [|done]. destruct (chans s !! i) as [[]|] eqn:Hc; try done. injection Hs as <-. cbn.
    intros [H|[H|H]]; [done| |auto]. destruct (decide (i = id)) as [<-|]; [rewrite lookup_insert_eq in H|rewrite lookup_insert_ne in H by done; auto].
    injection H as <-. auto.
  - destruct (closed s); [by injection Hs as <-; auto|]. intros H. destruct (Hdr RStopped Hs H); auto.
  - destruct (closed s); [by injection Hs as <-; auto|]. intros H. destruct (Hdr RExited Hs H); auto.
  - destruct (syncDocument uri text s). injection Hs as <-. auto.
  - destruct (notices s !! n); [|done]. injection Hs as <-. auto.
Qed.

Lemma responses_sent es s id r : run es startClient = Some s -> responds s id r -> sent_by es id r.
Proof.
  revert s. induction es as [|e es IH] using rev_ind; intros s; [intros [= <-] [H|[H|H]]; cbn in H; set_solver|].
  rewrite run_app. destruct (run es startClient) as [s1|] eqn:H1; [|done]. cbn [run mbind option_bind].
  destruct (step s1 e) as [s2|] eqn:H2; [|done]. intros [= <-] Hr. destruct (step_responds _ _ _ _ _ H2 Hr) as [H|[[-> ->]|[[-> ->]|H]]].
  - apply sent_by_snoc. by eapply IH.
  - left. set_solver.
  - right; left. set_solver.
  - destruct H as (body & m & raw & -> & H). right; right. by exists es, body, [], s1, m, raw.
Qed.

(** *** The first message with the id *)

(** What a message of the server says to the request [id], read off its JSON: the code
    and the text of its error, or else its result. *)
Inductive says (body : json) (id : Z) : response -> Prop :=
  | says_error m raw e code text :
      as_struct body = Some m -> field "id" m = Some raw -> dec_id raw = Some id ->
      field "error" m = Some e -> e <> JNull -> dec_rpc_error e = Some (code, text) -> says body id (RRpc code text)
  | says_result m raw :
      as_struct body = Some m -> field "id" m = Some raw -> dec_id raw = Some id ->
      (field "error" m = None \/ field "error" m = Some JNull) -> says body id (RResult (field "result" m)).

(** A message that the client can decode and that carries the id. *)
Definition carries (id : Z) (e : event) : Prop :=
  exists body r, e = ERead body /\ is_Some (dec_message body) /\ says body id r.

Lemma dec_message_says body m raw id :
  dec_message body = Some m -> m_ID m = Some raw -> dec_id raw = Some id -> says body id (answer m).
Proof.
  unfold dec_message. destruct (as_struct body) as [fs|] eqn:Hs; [|done]. cbn [mbind option_bind].
  destruct (get "" dec_string "method" fs) as [method|]; [|done]. cbn [mbind option_bind]. unfold get_ptr.
  destruct (field "error" fs) as [e|] eqn:He.
  - assert (Hcase : e = JNull \/ e <> JNull) by (destruct e; (by left) || by right). destruct Hcase as [->|Hne].
    + cbn [mbind option_bind]. intros [= <-] Hid Hraw. by eapply says_result; eauto.
    + replace (match e with JNull => Some (@None (Z * string)) | _ => Some <$> dec_rpc_error e end) with (Some <$> dec_rpc_error e) by (by destruct e).
      destruct (dec_rpc_error e) as [[code text]|] eqn:Hd; [|done]. cbn [fmap option_fmap option_map mbind option_bind].
      intros [= <-] Hid Hraw. by eapply says_error.
  - cbn [mbind option_bind]. intros [= <-] Hid Hraw. eapply says_result; eauto.
Qed.

(** A message with the id of a pending request takes the request from the table. *)
Lemma carries_unpends s body s' id : step s (ERead body) = Some s' -> carries id (ERead body) -> id ∉ pending s'.
Proof.
  cbn [step]. destruct (delivering s); [done|]. intros [= <-] (body' & r & [= <-] & [m Hm] & Hsays).
  assert (exists raw, m_ID m = Some raw /\ dec_id raw = Some id) as (raw & Hid & Hraw).
  { unfold dec_message in Hm. destruct (as_struct body) as [fs|] eqn:Hs; [|done]. cbn [mbind option_bind] in Hm.
    destruct (get "" dec_string "method" fs); [|done]. cbn [mbind option_bind] in Hm.
    destruct (get_ptr dec_rpc_error "error" fs); [|done]. injection Hm as <-.
    inversion Hsays; simplify_eq; by eexists. }
  unfold handleMessage. rewrite Hm, Hid, Hraw. destruct (decide (id ∈ pending s)); [cbn; set_solver|done].
Qed.

(** The run up to the reservation of the id, and no message with the id since then. *)
Definition fresh_since (es : list event) (id : Z) : Prop :=
  exists pre method params mid s0, es = pre ++ EReserve method params :: mid /\ run pre startClient = Some s0 /\
    closed s0 = false /\ nextID s0 = id /\ Forall (fun e => ~ carries id e) mid.

Lemma step_pending s e s' id : step s e = Some s' -> id ∈ pending s' ->
  id ∈ pending s \/ exists method params, e = EReserve method params /\ closed s = false /\ nextID s = id.
Proof.
  intros Hs. destruct e as [method params|i ok|i|i|body| | | |uri text|n ok]; cbn [step] in Hs.
  - destruct (closed s) eqn:Hc; injection Hs as <-; [by left|]. cbn. intros [->%elem_of_singleton|H]%elem_of_union; [|by left].
    right. by exists method, params.
  - destruct (requests s !! i) as [[[method params] []]|]; try done. destruct ok; injection Hs as <-; cbn; [by left|set_solver].
  - destruct (request_at s i) as [[]|]; try done. destruct (chans s !! i) as [[]|]; try done. injection Hs as <-. by left.
  - destruct (request_at s i) as [[]|]; try done. injection Hs as <-. cbn. set_solver.
  - destruct (delivering s); [done|]. injection Hs as <-. unfold handleMessage.
    destruct (dec_message body) as [m|]; [|by left]. destruct (m_ID m) as [raw|]; [|destruct (String.eqb _ _); by left].
    destruct (dec_id raw); [|by left]. destruct (decide _); [cbn; set_solver|by left].
  - destruct (delivering s) as [[i r]|]; [|done]. destruct (chans s !! i) as [[]|]; try done. injection Hs as <-. by left.
  - destruct (closed s); [by injection Hs as <-; left|]. unfold drain in Hs. destruct (forallb _ _); [|done]. injection Hs as <-. cbn. set_solver.
  - destruct (closed s); [by injection Hs as <-; left|]. unfold drain in Hs. destruct (forallb _ _); [|done]. injection Hs as <-. cbn. set_solver.
  - destruct (syncDocument uri text s). injection Hs as <-. by left.
  - destruct (notices s !! n); [|done]. injection Hs as <-. by left.
Qed.

Lemma pending_fresh es s id : run es startClient = Some s -> id ∈ pending s -> fresh_since es id.
Proof.
  revert s. induction es as [|e es IH] using rev_ind; intros s; [intros [= <-]; cbn; set_solver|].
  rewrite run_app. destruct (run es startClient) as [s1|] eqn:H1; [|done]. cbn [run mbind option_bind].
  destruct (step s1 e) as [s2|] eqn:H2; [|done]. intros [= <-] Hin.
  destruct (step_pending _ _ _ _ H2 Hin) as [Hp|(method & params & -> & Hc & Hn)].
  - destruct (IH s1 eq_refl Hp) as (pre & method & params & mid & s0 & -> & H0 & Hc & Hn & Hf).
    exists pre, method, params, (mid ++ [e]), s0. split_and!; [by rewrite <- app_assoc|done..|].
    apply Forall_app. split; [done|]. constructor; [|done]. intros Hcar. pose proof Hcar as (body & r & -> & _).
    by apply (carries_unpends _ _ _ _ H2 Hcar).
  - exists es, method, params, [], s1. split_and!; done || constructor.
Qed.

(** C35. The response of a request is what the first message with its id says: of the
    messages that the reader handles after the id was reserved, the first one that can be
    decoded and carries this id gives the response, the code and the text of its error if
    it has one and else its result, empty if it has none; no later message and none with
    another id does. Otherwise the response says that the client was stopped, or that the
    process exited, and then this did happen. Whether the message is a response or a
    request of the server's own under the same number, the client does not look. *)
Theorem response_is_first_message es s id r :
  run es startClient = Some s -> request_at s id = Some (Returned r) ->
  (r = RStopped /\ EStop ∈ es) \/ (r = RExited /\ EExit ∈ es) \/
  exists pre body post, es = pre ++ ERead body :: post /\ fresh_since pre id /\ is_Some (dec_message body) /\ says body id r.
Proof.
  intros Hrun Hr. destruct (responses_sent es s id r Hrun) as [H|[H|(pre & body & post & sp & m & raw & -> & Hsp & Hin & Hm & Hid & Hraw & ->)]];
    [by right; right|by left|by right; left|].
  right; right. exists pre, body, post. split_and!; [done|by eapply pending_fresh|by eexists|by eapply dec_message_says].
Qed.

(** ** What the client gets wrong *)

(** A request that the server sends to the client, as the protocol allows, is taken for
    the response when a request of the client with the same id is pending: its caller
    gets an empty result and no error. *)
Lemma server_request_taken_as_response s body m raw id :
  dec_message body = Some m -> m_ID m = Some raw -> dec_id raw = Some id -> m_Method m <> "" ->
  m_Result m = None -> m_Error m = None -> id ∈ pending s -> chans s !! id = Some None -> delivering s = None ->
  request_at s id = Some Waiting ->
  exists s', run [ERead body; EDeliver; EReceive id] s = Some s' /\ request_at s' id = Some (Returned (RResult None)).
Proof.
  intros Hm Hid Hraw _ Hres Herr Hin Hch Hd Hw.
  pose (taken c d := mkClient (nextID s) (pending s ∖ {[id]}) (opened s) (diags s) (closed s) c d (notices s) (requests s) (wire s)).
  assert (step s (ERead body) = Some (taken (chans s) (Some (id, RResult None)))) as H1.
  { cbn [step]. rewrite Hd. unfold handleMessage. rewrite Hm, Hid, Hraw, decide_True by done. unfold answer. by rewrite Herr, Hres. }
  assert (step (taken (chans s) (Some (id, RResult None))) EDeliver = Some (taken (<[id := Some (RResult None)]> (chans s)) None)) as H2.
  { cbn. by rewrite Hch. }
  destruct (receive_step (taken (<[id := Some (RResult None)]> (chans s)) None) id (RResult None)) as (s' & H3 & Hr);
    [exact Hw|apply lookup_insert_eq|].
  exists s'. split; [|done]. cbn [run]. rewrite H1. cbn [mbind option_bind]. rewrite H2. cbn [mbind option_bind]. by rewrite H3.
Qed.

(** ** Diagnostics *)

(** Whether [waitForDiagnostics] returns, and what. *)
Definition waitForDiagnostics (uri : string) (version : Z) (s : client) : option (list lspDiagnostic) :=
  match diags s !! uri with
  | Some st => if version <=? ds_version st then Some (ds_diagnostics st) else None
  | None => None
  end.

(** The version is optional in the protocol. A server that leaves it out is never heard:
    what it publishes counts as version 0, older than every document, and hides what was
    published before. *)
Lemma unversioned_never_seen m uri l s body v :
  dec_message body = Some (mkMessage None "textDocument/publishDiagnostics" (Some (JObject m)) None None) ->
  field "uri" m = Some (JString uri) -> field "version" m = None -> get [] (dec_structs dec_diagnostic) "diagnostics" m = Some l ->
  1 <= v -> waitForDiagnostics uri v (handleMessage body s) = None.
Proof.
  intros Hb Hu Hver Hl Hv. unfold handleMessage. rewrite Hb. cbn. unfold waitForDiagnostics. cbn.
  unfold publish. cbn [mbind option_bind as_struct].
  assert (get "" dec_string "uri" m = Some uri) as -> by (unfold get; by rewrite Hu).
  assert (get_ptr dec_int32 "version" m = Some None) as -> by (unfold get_ptr; by rewrite Hver).
  rewrite Hl. cbn [mbind option_bind default]. rewrite lookup_insert_eq. cbn. by rewrite (proj2 (Z.leb_gt _ _)) by lia.
Qed.

(** ** Documents *)

Definition sync_one (uri : string) (text : string) : list event := [ESync uri text; ENotify 0 true].

(** The message that tells the server of the n-th text. *)
Definition change_of (uri : string) (p : nat * string) : outgoing :=
  let v := Z.of_nat (S p.1) in if (p.1 =? 0)%nat then ODidOpen uri v p.2 else ODidChange uri v p.2.

(** One caller at a time: the server sees the document opened with version 1 and every
    later text as a change, with the versions counting up. *)
Lemma sync_in_order uri texts s n :
  notices s = [] -> opened s !! uri = (if (n =? 0)%nat then None else Some (Z.of_nat n)) ->
  Z.of_nat (n + length texts) < 2 ^ 31 ->
  exists s', run (texts ≫= sync_one uri) s = Some s' /\ notices s' = [] /\
    wire s' = wire s ++ (change_of uri <$> zip (seq n (length texts)) texts).
Proof.
  revert s n. induction texts as [|t texts IH]; intros s n Hn Ho Hlen; [exists s; by rewrite app_nil_r|].
  cbn [length] in Hlen. assert (default 0 (opened s !! uri) = Z.of_nat n) as Hd by (rewrite Ho; by destruct n).
  assert (wrap_i32 (Z.of_nat n + 1) = Z.of_nat (S n)) as Hw by (unfold wrap_i32; rewrite Z.mod_small by lia; lia).
  cbn [mbind list_bind sync_one app run step]. unfold syncDocument. rewrite Hd, Hw, Hn. cbn [mbind option_bind run step notices app].
  cbn [lookup list_lookup mbind option_bind delete list_delete].
  edestruct (IH (mkClient (nextID s) (pending s) (<[uri := Z.of_nat (S n)]> (opened s)) (diags s) (closed s) (chans s) (delivering s) []
                   (requests s) (wire s ++ [if Z.of_nat n =? 0 then ODidOpen uri (Z.of_nat (S n)) t else ODidChange uri (Z.of_nat (S n)) t])) (S n))
    as (s' & Hrun & Hn' & Hwire); [done|apply lookup_insert_eq|lia|].
  exists s'. split; [exact Hrun|]. split; [done|]. rewrite Hwire. cbn [wire seq length zip zip_with fmap list_fmap].
  rewrite <- app_assoc. cbn. do 2 f_equal. unfold change_of. cbn. by destruct n.
Qed.

(** ** The answers in [service.go] *)

Record location := mkLocation { loc_URI : string; loc_Range : lspRange }.
Definition dec_location (j : json) : option location :=
  m ← as_struct j; u ← get "" dec_string "uri" m; r ← get no_range dec_range "range" m; Some (mkLocation u r).
Definition dec_link (j : json) : option location :=
  m ← as_struct j; u ← get "" dec_string "targetUri" m; r ← get no_range dec_range "targetSelectionRange" m; Some (mkLocation u r).

Definition first_of {A} (o : option (list A)) : option A := match o with Some (x :: _) => Some x | _ => None end.

(** A single location, a list of them, or a list of links, tried in this order; [raw] is
    [None] when the result is empty. *)
Definition firstLocation (raw : option json) : option location :=
  j ← raw;
  match dec_location j with
  | Some loc => if is_empty (loc_URI loc) then match first_of (dec_structs dec_location j) with
                                               | Some l => Some l
                                               | None => first_of (dec_structs dec_link j)
                                               end else Some loc
  | None => match first_of (dec_structs dec_location j) with
            | Some l => Some l
            | None => first_of (dec_structs dec_link j)
            end
  end.

Record completionItem := mkItem { ci_Label : string; ci_Kind : Z; ci_Detail : string; ci_InsertText : string }.
Definition dec_item (j : json) : option completionItem :=
  m ← as_struct j; l ← get "" dec_string "label" m; k ← get 0 dec_int32 "kind" m; d ← get "" dec_string "detail" m;
  t ← get "" dec_string "insertText" m; Some (mkItem l k d t).
Definition decodeCompletionItems (raw : option json) : list completionItem :=
  match raw with
  | None => []
  | Some j => match dec_structs dec_item j with
              | Some l => l
              | None => default [] (m ← as_struct j; get [] (dec_structs dec_item) "items" m)
              end
  end.

Definition completionKind (kind : Z) : string :=
  if contains_eq [2; 3] kind then "function" else if contains_eq [5; 6; 10; 21] kind then "variable"
  else if contains_eq [7; 8; 22; 25] kind then "type" else if contains_eq [9; 17; 19] kind then "module"
  else if kind =? 14 then "keyword" else "text".
Definition diagnosticSeverity (sev : Z) : string := if sev =? 1 then "error" else "warning".
Definition diagnosticCode (raw : option json) : string :=
  match raw with
  | None => ""
  | Some JNull => ""
  | Some j => match dec_string j with
              | Some s => s
              | None => match dec_int (- 2 ^ 63) (2 ^ 63) j with Some n => pretty n | None => "" end
              end
  end.

(** The items of [Complete]: label, kind, detail and the text to insert. *)
Definition complete_items (raw : option json) : list (string * string * string * string) :=
  (fun i => (ci_Label i, completionKind (ci_Kind i), ci_Detail i, if is_empty (ci_InsertText i) then ci_Label i else ci_InsertText i))
    <$> decodeCompletionItems raw.

(** [hoverContentText]; a [null] is the empty string. *)
Definition markup_value (j : json) : option string :=
  m ← as_struct j; _ ← get "" dec_string "kind" m; get "" dec_string "value" m.
Definition hoverContentText (j : json) : string :=
  match dec_string_elem j with Some s => s | None => default "" (markup_value j) end.
(** [strings.Join(parts, "\n\n")]. *)
Fixpoint join_paragraphs (l : list string) : string :=
  match l with [] => "" | [s] => s | s :: l' => s +:+ String LF (String LF "") +:+ join_paragraphs l' end.
Definition markdown_of (contents : json) : string :=
  match markup_value contents with
  | Some v => if is_empty v then match dec_string_elem contents with
                                 | Some s => s
                                 | None => ""
                                 end else v
  | None =>
      match dec_string_elem contents with
      | Some s => s
      | None => match dec_raw_list contents with
                | Some l => join_paragraphs (filter (fun s => is_empty s = false) (hoverContentText <$> l))
                | None => ""
                end
      end
  end.
Definition markdownFromHover (raw : option json) : string :=
  match raw with
  | None | Some JNull => ""
  | Some j => default "" (m ← as_struct j; c ← field "contents" m; Some (markdown_of c))
  end.

(** Lines are counted from one by the editor and from zero by the server; columns from
    zero by both. *)
Definition oneToZero (line : Z) : Z := if line <=? 1 then 0 else line - 1.
Definition int32ToUint32 (v : Z) : Z := if v <=? 0 then 0 else v.
Definition to_editor (p : lspPosition) : Z * Z := (wrap_i32 (Line p + 1), wrap_i32 (Character p)).

(** The position that the editor sends comes back to it unchanged, on every line and
    column that it can name. *)
Theorem position_roundtrip line col :
  1 <= line < 2 ^ 31 -> 0 <= col < 2 ^ 31 -> to_editor (mkPosition (oneToZero line) (int32ToUint32 col)) = (line, col).
Proof.
  intros Hl Hc. unfold to_editor, oneToZero, int32ToUint32, wrap_i32. cbn.
  destruct (line <=? 1) eqn:H1; [apply Z.leb_le in H1|apply Z.leb_gt in H1];
    (destruct (col <=? 0) eqn:H2; [apply Z.leb_le in H2|apply Z.leb_gt in H2]); f_equal; rewrite Z.mod_small by lia; lia.
Qed.

Lemma dec_structs_cons {A} (dec : json -> option A) j l a xs :
  dec j = Some a -> mapM dec l = Some xs -> dec_structs dec (JArray (j :: l)) = Some (a :: xs).
Proof. unfold dec_structs. cbn. intros ->. cbn. by intros ->. Qed.

(** A list of links is read as a list of locations, whose fields it does not have: the
    result names no file, and the case that reads links is never reached with one. *)
Theorem location_links_lost m rest :
  field "uri" m = None -> field "range" m = None -> Forall (fun j => dec_location j <> None) rest ->
  firstLocation (Some (JArray (JObject m :: rest))) = Some (mkLocation "" no_range).
Proof.
  intros Hu Hr Hrest. unfold firstLocation. cbn [mbind option_bind].
  change (dec_location (JArray (JObject m :: rest))) with (@None location). cbv iota.
  assert (exists l, mapM dec_location rest = Some l) as [l Hl].
  { induction Hrest as [|j l Hj _ [l' IH]]; [by exists []|]. cbn. destruct (dec_location j) as [x|]; [|done].
    exists (x :: l'). cbn. by rewrite IH. }
  assert (dec_location (JObject m) = Some (mkLocation "" no_range)) as Hd.
  { unfold dec_location, get. cbn. by rewrite Hu, Hr. }
  by rewrite (dec_structs_cons _ _ _ _ _ Hd Hl).
Qed.

(** ** A session *)

Module LspDemo.

Definition answer_json (id : Z) (r : json) : json := JObject [("jsonrpc", JString "2.0"); ("id", JNumber (pretty id)); ("result", r)].
Definition session : list event :=
  [EReserve "textDocument/hover" JNull; EReserve "textDocument/completion" JNull; EWrite 2 true; EWrite 1 true;
   ERead (answer_json 2 (JArray [])); EDeliver; EReceive 2].
Definition after : client := default startClient (run session startClient).
Definition stopped : client := default startClient (run (session ++ [EExit]) startClient).

Example wire_order : wire after = [ORequest 2 "textDocument/completion" JNull; ORequest 1 "textDocument/hover" JNull].
Proof. vm_compute. reflexivity. Qed.

Lemma frames_roundtrip_witness :
  read_loop 3 (frame "{}" +:+ frame "[]" +:+ "") = (["{}"; "[]"], EOF).
Proof. apply (frames_roundtrip ["{}"; "[]"] "" 1). repeat constructor; vm_compute; discriminate. Defined.

Lemma client_never_blocks_witness :
  is_Some (step after EStop) /\ delivering after = None.
Proof. split; [|vm_compute; reflexivity]. apply (client_never_blocks session after). vm_compute. reflexivity. Defined.

Lemma closed_client_returns_witness :
  exists es' s' r, (es' = [EReceive 1] \/ es' = [EDeliver; EReceive 1]) /\ run es' stopped = Some s' /\ request_at s' 1 = Some (Returned r).
Proof. apply (closed_client_returns (session ++ [EExit]) stopped 1); vm_compute; reflexivity. Defined.

Lemma response_is_first_message_witness :
  request_at after 2 = Some (Returned (RResult (Some (JArray [])))) /\
  exists pre body post, session = pre ++ ERead body :: post /\ fresh_since pre 2 /\ is_Some (dec_message body) /\
    says body 2 (RResult (Some (JArray []))).
Proof.
  split; [vm_compute; reflexivity|].
  destruct (response_is_first_message session after 2 (RResult (Some (JArray [])))) as [[H _]|[[H _]|H]];
    [vm_compute; reflexivity | vm_compute; reflexivity | discriminate H | discriminate H | exact H].
Defined.

Lemma position_roundtrip_witness : to_editor (mkPosition (oneToZero 12) (int32ToUint32 4)) = (12, 4).
Proof. apply (position_roundtrip 12 4); lia. Defined.

Definition link : list (string * json) := [("targetUri", JString "file:///home/areas.pkl")].
Lemma location_links_lost_witness : firstLocation (Some (JArray [JObject link])) = Some (mkLocation "" no_range).
Proof. apply (location_links_lost link []); [reflexivity | reflexivity | constructor]. Defined.

(** Two callers at once: the notifications are written outside the lock, and the server
    gets a change of a document that is not open. *)
Example change_before_open :
  wire <$> run [ESync "f" "a"; ESync "f" "b"; ENotify 1 true; ENotify 0 true] startClient
  = Some [ODidChange "f" 2 "b"; ODidOpen "f" 1 "a"].
Proof. vm_compute. reflexivity. Qed.

End LspDemo.
