(* ===== verification/Pages.v ===== *)
(** * Custom pages

    Models [internal/page]: the Pkl text of a layout (regen/regen.go), the files of
    pages (pklfs/backend.go, scaffold.go), the catalog of widget classes (catalog.go,
    daemon/dashboard_backend.go) and the service (service.go). The evaluation of a page
    by Pkl is a parameter that may read the whole disk; so are the sort of the library,
    of which only the documented order is used, and the texts of numbers and of letters
    outside ASCII.

    [layout_order_independent]: the text depends on no order of the page.
    [save_layout_atomic]: a save replaces the layout as a whole or not at all.
    [page_files_apart]: operations on one page touch no file of another. *)

From Stdlib Require Import Ascii String SpecFloat.
From S2P Require Import Prelude Sorting Codec Json Events Engine Rules Carport ConfigDecode Paths Files.

(** ** Pages *)

(** [any] as JSON and protobuf values decode to it; a map lists its keys in order. *)
Inductive any := ANil | ABool (b : bool) | AFloat (f : spec_float) | AString (s : string) | AList (l : list any) | AMap (m : list (string * any)).

Abbreviation Props := (gmap string any).

(** [TileData] and [CellData]. *)
Record Widget := mkWidget { w_ID : string; w_Type : string; w_Props : Props }.
Record SectionData := mkSection { s_ID : string; s_Type : string; s_Props : Props; s_Tiles : list Widget; s_Cells : list Widget }.
Record PageData := mkPage {
  p_Slug : string; p_Title : string; p_Sections : list SectionData; p_SourcePkl : string; p_LayoutPkl : string; p_Writable : bool;
}.

(** The parameters: [%g] and [%v] of a number, [%q] of a run of bytes outside ASCII, and
    [sort.Slice] by a key. *)
Record PageLib := mkPageLib {
  format_g : spec_float -> string; format_v : spec_float -> string; quote_high : string -> string;
  sort_slice : forall A, (A -> string) -> list A -> list A;
}.

(** What the library documents of [sort.Slice]. *)
Class SortOk (P : PageLib) : Prop := {
  sort_perm : forall A (key : A -> string) l, sort_slice P A key l ≡ₚ l;
  sort_sorted : forall A (key : A -> string) l, StronglySorted (by_key key) (sort_slice P A key l);
}.

Definition dquote : ascii := "034".
Definition newline : string := String "010" "".
Definition hex_byte (c : ascii) : string :=
  let n := N_of_ascii c in
  let digit k := ascii_of_N (if (k <? 10)%N then 48 + k else 87 + k) in
  String (digit (n / 16)%N) (String (digit (n mod 16)%N) "").

(** [%q] of a byte of ASCII. *)
Definition quote_ascii (c : ascii) : string :=
  let n := N_of_ascii c in
  if Ascii.eqb c dquote then String "\" (String dquote "")
  else if Ascii.eqb c "\" then "\\"
  else if (n =? 7)%N then "\a" else if (n =? 8)%N then "\b" else if (n =? 12)%N then "\f" else if (n =? 10)%N then "\n"
  else if (n =? 13)%N then "\r" else if (n =? 9)%N then "\t" else if (n =? 11)%N then "\v"
  else if ((n <? 32) || (n =? 127))%N then "\x" +:+ hex_byte c
  else String c "".

Section Render.
Context (P : PageLib).

(** [run] is the run of bytes outside ASCII that was read and not yet written. *)
Fixpoint quote_body (run s : string) : string :=
  let flush := if is_empty run then "" else quote_high P run in
  match s with
  | EmptyString => flush
  | String c s' => if (128 <=? N_of_ascii c)%N then quote_body (run +:+ String c "") s' else flush +:+ quote_ascii c +:+ quote_body "" s'
  end.
Definition Quote (s : string) : string := String dquote (quote_body "" s +:+ String dquote "").

Fixpoint join_space (l : list string) : string :=
  match l with [] => "" | [s] => s | s :: l' => s +:+ String " " (join_space l') end.

(** [%v]. *)
Fixpoint sprint (v : any) : string :=
  match v with
  | ANil => "<nil>"
  | ABool b => if b then "true" else "false"
  | AFloat f => format_v P f
  | AString s => s
  | AList l => "[" +:+ join_space (map sprint l) +:+ "]"
  | AMap m => "map[" +:+ join_space (map (fun p => p.1 +:+ ":" +:+ sprint p.2) m) +:+ "]"
  end.

Definition formatPklValue (v : any) : string :=
  match v with
  | AString s => Quote s
  | ABool b => if b then "true" else "false"
  | AFloat f => if SFeqb f (float_of_Z (trunc_i64 f)) then pretty (trunc_i64 f) else format_g P f
  | ANil => "null"
  | AList _ | AMap _ => Quote (sprint v)
  end.

Fixpoint indent (depth : nat) : string := match depth with O => "" | S n => "  " +:+ indent n end.
Definition concat_strings (l : list string) : string := foldr String.append "" l.

Definition prop_line (depth : nat) (props : Props) (k : string) : string :=
  indent depth +:+ k +:+ " = " +:+ formatPklValue (default ANil (props !! k)) +:+ newline.
Definition renderProps (props : Props) (depth : nat) : string :=
  concat_strings (prop_line depth props <$> insertion_sort id (map_to_list props).*1).

Definition className (suffix typ : string) : string :=
  if str_contains typ "/" then "p." +:+ suffix else "p." +:+ typ +:+ suffix.

(** [renderTile] and [renderCell]. *)
Definition renderWidget (suffix : string) (depth : nat) (w : Widget) : string :=
  indent depth +:+ "new " +:+ className suffix (w_Type w) +:+ " {" +:+ newline +:+
  indent depth +:+ "  id = " +:+ Quote (w_ID w) +:+ newline +:+
  renderProps (w_Props w) (S depth) +:+
  indent depth +:+ "}" +:+ newline.

Definition renderWidgets (name suffix : string) (depth : nat) (l : list Widget) : string :=
  match l with
  | [] => ""
  | _ => indent depth +:+ "  " +:+ name +:+ " {" +:+ newline +:+
         concat_strings (renderWidget suffix (S (S depth)) <$> sort_slice P Widget w_ID l) +:+
         indent depth +:+ "  }" +:+ newline
  end.

Definition renderSection (depth : nat) (s : SectionData) : string :=
  indent depth +:+ "new " +:+ className "Section" (s_Type s) +:+ " {" +:+ newline +:+
  indent depth +:+ "  id = " +:+ Quote (s_ID s) +:+ newline +:+
  renderProps (s_Props s) (S depth) +:+
  renderWidgets "tiles" "Tile" depth (s_Tiles s) +:+
  renderWidgets "cells" "Cell" depth (s_Cells s) +:+
  indent depth +:+ "}" +:+ newline.

Definition in_quotes (s : string) : string := String dquote (s +:+ String dquote "").
Definition import_pages : string := "import " +:+ in_quotes "switchyard:pages" +:+ " as p" +:+ newline.

(** The layout file. *)
Definition Render (p : PageData) : string :=
  import_pages +:+ newline +:+ "// Auto-generated by switchyardd regen — do not edit manually." +:+ newline +:+ newline +:+
  "sections: Listing<p.Section> = new {" +:+ newline +:+
  concat_strings (renderSection 1 <$> sort_slice P SectionData s_ID (p_Sections p)) +:+
  "}" +:+ newline.

End Render.

(** ** The text depends on no order *)

(** The same widgets, in any order; the same sections, with the same widgets. *)
Definition same_section (s s' : SectionData) : Prop :=
  s_ID s = s_ID s' /\ s_Type s = s_Type s' /\ s_Props s = s_Props s' /\ s_Tiles s ≡ₚ s_Tiles s' /\ s_Cells s ≡ₚ s_Cells s'.

(** No two sections of a page, and no two tiles or cells of a section, share an id. *)
Definition section_ids (s : SectionData) : Prop := NoDup (w_ID <$> s_Tiles s) /\ NoDup (w_ID <$> s_Cells s).
Definition distinct_ids (p : PageData) : Prop := NoDup (s_ID <$> p_Sections p) /\ Forall section_ids (p_Sections p).

(** The pages [p] and [p'] differ in the order of their sections, tiles and cells only. *)
Definition same_page (p p' : PageData) : Prop :=
  exists l, p_Sections p ≡ₚ l /\ Forall2 same_section l (p_Sections p').

(** The same library with another sort. *)
Definition resort (sort : forall A, (A -> string) -> list A -> list A) (P : PageLib) : PageLib :=
  mkPageLib (format_g P) (format_v P) (quote_high P) sort.

Section Order.
Context (P : PageLib) (sort : forall A, (A -> string) -> list A -> list A) `{!SortOk P, !SortOk (resort sort P)}.

(** What is rendered in the order of the ids depends on the pairs of an id and its text. *)
Lemma sort_render {A B} (key : A -> string) (f f' : A -> B) l l' :
  NoDup (key <$> l) -> (fun x => (key x, f x)) <$> l ≡ₚ (fun x => (key x, f' x)) <$> l' ->
  f <$> sort_slice P A key l = f' <$> sort A key l'.
Proof.
  intros Hnd Hp. change (sort A key l') with (sort_slice (resort sort P) A key l').
  assert ((fun x => (key x, f x)) <$> sort_slice P A key l = (fun x => (key x, f' x)) <$> sort_slice (resort sort P) A key l') as H.
  { apply (by_key_unique fst).
    - rewrite <- list_fmap_compose. cbn. by rewrite sort_perm.
    - by rewrite !sort_perm.
    - eapply (StronglySorted_fmap _ (by_key key)); [|apply sort_sorted]. done.
    - eapply (StronglySorted_fmap _ (by_key key)); [|apply sort_sorted]. done. }
  apply (f_equal (fmap snd)) in H. by rewrite <- !list_fmap_compose in H.
Qed.

Lemma widgets_order name suffix depth l l' :
  NoDup (w_ID <$> l) -> l ≡ₚ l' -> renderWidgets P name suffix depth l = renderWidgets (resort sort P) name suffix depth l'.
Proof.
  intros Hnd Hp. assert (renderWidget P suffix (S (S depth)) <$> sort_slice P Widget w_ID l
                         = renderWidget P suffix (S (S depth)) <$> sort Widget w_ID l') as H.
  { apply sort_render; [done|]. by rewrite Hp. }
  unfold renderWidgets. destruct l as [|w l]; [by apply Permutation_nil_l in Hp; subst|].
  destruct l' as [|w' l']; [by apply Permutation_nil_r in Hp|]. rewrite H. done.
Qed.

Lemma section_order depth s s' :
  section_ids s -> same_section s s' -> renderSection P depth s = renderSection (resort sort P) depth s'.
Proof.
  intros [Ht Hc] (Hid & Hty & Hpr & Htiles & Hcells). unfold renderSection. rewrite Hid, Hty, Hpr.
  rewrite (widgets_order _ _ _ _ _ Ht Htiles), (widgets_order _ _ _ _ _ Hc Hcells). done.
Qed.

(** The layout file is deterministic: whatever sort the library uses, and in
    whatever order the sections, tiles and cells of a page are given, its text is the same,
    provided that ids are not repeated. *)
Theorem layout_order_independent p p' : distinct_ids p -> same_page p p' -> Render P p = Render (resort sort P) p'.
Proof.
  intros [Hnd Hids] (l & Hp & Hl). unfold Render. do 6 f_equal.
  assert (renderSection P 1 <$> sort_slice P SectionData s_ID (p_Sections p)
          = renderSection (resort sort P) 1 <$> sort SectionData s_ID (p_Sections p')) as H; [|cbn [sort_slice resort]; by rewrite H].
  apply sort_render; [done|]. rewrite Hp in Hids |- *. clear Hp Hnd.
  induction Hl as [|s s' l l' Hs _ IH]; [done|]. apply Forall_cons in Hids as [Hs1 Hids]. cbn.
  rewrite (section_order 1 s s' Hs1 Hs), IH by done. by destruct Hs as [-> _].
Qed.
End Order.

(** ** The files of pages *)

Definition is_lower (c : ascii) : bool := let n := N_of_ascii c in ((97 <=? n) && (n <=? 122))%N.
Definition is_slug_byte (c : ascii) : bool :=
  let n := N_of_ascii c in is_lower c || ((48 <=? n) && (n <=? 57))%N || Ascii.eqb c "_" || Ascii.eqb c "-".

(** [^[a-z][a-z0-9_-]{0,63}$]. *)
Definition validSlug (slug : string) : bool :=
  match slug with
  | EmptyString => false
  | String c s => is_lower c && forallb is_slug_byte (list_ascii_of_string s) && (String.length s <=? 63)%nat
  end.

Inductive page_error :=
  | ErrPageNotFound | InvalidSlug (slug : string) | AlreadyExists (slug : string) | PageContent | EvalFailed (e : string) | IOError (e : string).

Record PageMeta := mkMeta { pm_Slug : string; pm_Title : string }.

(** What can go wrong in [atomicWrite], each with the error; [aw_rnd] is the random part
    of the temporary name, and [aw_write] the part of the content that was written. *)
Record AtomicIO := mkAtomicIO {
  aw_rnd : string; aw_create : option string; aw_write : option (string * string); aw_chmod : option string; aw_close : option string;
  aw_rename : option string; aw_remove : option string;
}.

Section Backend.
Context (L : JSONLib) (P : PageLib) (sha256_hex : string -> string).
(** [config.EvaluatePageFile]: the JSON of a page, from all the files that it imports. *)
Context (evaluate : Disk -> string -> result string string).
Context (configDir : string).

Definition pageDir : string := Join configDir "pages".
Definition sourcePath (slug : string) : string := Join pageDir (slug +:+ ".pkl").
Definition layoutPath (slug : string) : string := Join pageDir (slug +:+ ".layout.pkl").

(** *** The JSON of a page *)

Fixpoint dec_any (fuel : nat) (j : json) : option any :=
  match fuel with
  | O => None
  | S n =>
      match j with
      | JNull => Some ANil
      | JBool b => Some (ABool b)
      | JNumber lit => AFloat <$> ParseFloat L lit
      | JString s => Some (AString s)
      | JArray l => AList <$> mapM (dec_any n) l
      | JObject m => (fun l => AMap (insertion_sort fst (map_to_list (list_to_map (rev l) : gmap string any)))) <$> mapM (fun p => v ← dec_any n p.2; Some (p.1, v)) m
      end
  end.

(** [map[string]any]: the last of equal keys counts. *)
Definition dec_props (j : json) : option Props :=
  m ← as_struct j; l ← mapM (fun p : string * json => v ← dec_any (depth p.2) p.2; Some (p.1, v)) m; Some (list_to_map (rev l)).

Definition dec_widget (j : json) : option Widget :=
  m ← as_struct j; id ← get "" dec_string "id" m; type ← get "" dec_string "type" m; props ← get ∅ dec_props "props" m;
  Some (mkWidget id type props).
Definition dec_widgets (j : json) : option (list Widget) := l ← dec_raw_list j; mapM dec_widget l.
Definition dec_section (j : json) : option SectionData :=
  m ← as_struct j; id ← get "" dec_string "id" m; type ← get "" dec_string "type" m; props ← get ∅ dec_props "props" m;
  tiles ← get [] dec_widgets "tiles" m; cells ← get [] dec_widgets "cells" m;
  Some (mkSection id type props tiles cells).

Definition dataFromJSON (text : string) : option PageData :=
  j ← Unmarshal L text; m ← as_struct j;
  slug ← get "" dec_string "slug" m; title ← get "" dec_string "title" m;
  sections ← get [] (fun j => l ← dec_raw_list j; mapM dec_section l) "sections" m;
  Some (mkPage slug title sections "" "" false).

(** *** Operations *)

(** [readErr] is what reading a file gives besides that it is not there. *)
Definition Get (readErr : string -> option string) (slug : string) (d : Disk) : result page_error PageData :=
  if negb (validSlug slug) then Err ErrPageNotFound
  else match readErr (sourcePath slug), d !! sourcePath slug with
  | Some e, _ => Err (IOError e)
  | None, None => Err ErrPageNotFound
  | None, Some source =>
      match evaluate d (sourcePath slug) with
      | Err e => Err (EvalFailed e)
      | Ok text =>
          match dataFromJSON text with
          | None => Err PageContent
          | Some pd =>
              match readErr (layoutPath slug), d !! layoutPath slug with
              | Some e, _ => Err (IOError e)
              | None, Some layout => Ok (mkPage (p_Slug pd) (p_Title pd) (p_Sections pd) source layout true)
              | None, None => Ok (mkPage (p_Slug pd) (p_Title pd) (p_Sections pd) source "" false)
              end
          end
      end
  end.

(** The files of a directory, without those below its directories, by name. *)
Definition ReadDir (dir : string) (d : Disk) : list string :=
  insertion_sort id (filter (fun r => str_contains r "/" = false) (map_to_list (subtree dir d)).*1).

Definition page_slugs (d : Disk) : list string :=
  (fun name => trim_suffix name ".pkl") <$>
    filter (fun name => has_suffix name ".pkl" = true /\ has_suffix name ".layout.pkl" = false) (ReadDir pageDir d).

Definition List_ (readErr : string -> option string) (d : Disk) : result page_error (list PageMeta) :=
  metas ← mapM (fun slug => p ← Get readErr slug d; Ok (mkMeta (p_Slug p) (p_Title p))) (page_slugs d);
  Ok (sort_slice P PageMeta pm_Slug metas).

(** [ScaffoldPage]; the source is written first. *)
Definition source_content (slug title : string) : string :=
  import_pages +:+ "import " +:+ in_quotes (slug +:+ ".layout.pkl") +:+ " as layout" +:+ newline +:+ newline +:+
  "page = new p.Page {" +:+ newline +:+ "  slug = " +:+ Quote P slug +:+ newline +:+ "  title = " +:+ Quote P title +:+ newline +:+
  "  sections = layout.sections" +:+ newline +:+ "}" +:+ newline.
Definition layout_content : string :=
  import_pages +:+ newline +:+ "// Auto-generated layout — do not edit manually." +:+ newline +:+
  "sections: Listing<p.Section> = new {}" +:+ newline.

Record CreateIO := mkCreateIO {
  cr_stat : option string; cr_mkdir : option string; cr_source : option (option string * string); cr_layout : option (option string * string);
}.

Definition ScaffoldPage (io : CreateIO) (slug title : string) (d : Disk) : Disk * option string :=
  match cr_mkdir io with
  | Some e => (d, Some e)
  | None =>
      match WriteFile (cr_source io) (sourcePath slug) (source_content slug title) d with
      | (d', Some e) => (d', Some e)
      | (d', None) => WriteFile (cr_layout io) (layoutPath slug) layout_content d'
      end
  end.

Definition Create (io : CreateIO) (readErr : string -> option string) (slug title : string) (d : Disk) : Disk * result page_error PageData :=
  if negb (validSlug slug) then (d, Err (InvalidSlug slug))
  else match cr_stat io, d !! sourcePath slug with
  | Some e, _ => (d, Err (IOError e))
  | None, Some _ => (d, Err (AlreadyExists slug))
  | None, None =>
      match ScaffoldPage io slug title d with
      | (d', Some e) => (d', Err (IOError e))
      | (d', None) => (d', Get readErr slug d')
      end
  end.

(** [os.Remove] of a file. *)
Definition Remove (fault : option string) (p : string) (d : Disk) : Disk * option (option string) :=
  match fault, d !! p with
  | Some e, _ => (d, Some (Some e))
  | None, None => (d, Some None)
  | None, Some _ => (delete p d, None)
  end.

Definition Delete (removeSource removeLayout : option string) (slug : string) (both : bool) (d : Disk) : Disk * option page_error :=
  if negb (validSlug slug) then (d, Some ErrPageNotFound)
  else match Remove removeSource (sourcePath slug) d with
  | (d', Some None) => (d', Some ErrPageNotFound)
  | (d', Some (Some e)) => (d', Some (IOError e))
  | (d', None) =>
      if both then match Remove removeLayout (layoutPath slug) d' with
                   | (d'', Some (Some e)) => (d'', Some (IOError e))
                   | (d'', _) => (d'', None)
                   end
      else (d', None)
  end.

(** The name that [os.CreateTemp] chooses, and the deferred removal. *)
Definition tmp_name (rnd slug : string) : string := slug +:+ ".layout.pkl." +:+ rnd +:+ ".tmp".
Definition tmp_path (rnd slug : string) : string := entry_path pageDir (tmp_name rnd slug).
Definition cleanup (io : AtomicIO) (tmp : string) (d : Disk) : Disk := (Remove (aw_remove io) tmp d).1.

Definition atomicWrite (io : AtomicIO) (tmp path content : string) (d : Disk) : Disk * option string :=
  match aw_create io with
  | Some e => (d, Some e)
  | None =>
      match aw_write io with
      | Some (part, e) => (cleanup io tmp (<[tmp := part]> d), Some e)
      | None =>
          let d1 := <[tmp := content]> d in
          match aw_chmod io, aw_close io with
          | Some e, _ | None, Some e => (cleanup io tmp d1, Some e)
          | None, None => let '(d2, e) := rename_file (aw_rename io) tmp path d1 in (cleanup io tmp d2, e)
          end
      end
  end.

Definition SaveLayout (stat : option string) (io : AtomicIO) (readErr : string -> option string) (pd : PageData) (d : Disk) :
    Disk * result page_error (PageData * string) :=
  let slug := p_Slug pd in
  if negb (validSlug slug) then (d, Err ErrPageNotFound)
  else match stat, d !! layoutPath slug with
  | Some e, _ => (d, Err (IOError e))
  | None, None => (d, Err ErrPageNotFound)
  | None, Some _ =>
      let content := Render P pd in
      match atomicWrite io (tmp_path (aw_rnd io) slug) (layoutPath slug) content d with
      | (d', Some e) => (d', Err (IOError e))
      | (d', None) => (d', saved ← Get readErr slug d'; Ok (saved, sha256_hex content))
      end
  end.

End Backend.

(** ** Each page has its files *)

Section Facts.
Context (L : JSONLib) (P : PageLib) (sha256_hex : string -> string).
Context (evaluate : Disk -> string -> result string string) (configDir : string).
Context (dir_abs : IsAbs configDir = true).

(** The file of the page [slug] with the extension [ext]. *)
Definition page_file (slug ext : string) : string := entry_path (pageDir configDir) (slug +:+ String "." ext).

Lemma slug_byte_not c d : is_slug_byte c = true -> is_slug_byte d = false -> c <> d.
Proof. congruence. Qed.

Lemma lower_slug_byte c : is_lower c = true -> is_slug_byte c = true.
Proof. unfold is_slug_byte. by intros ->. Qed.

Lemma slug_lacks slug c : validSlug slug = true -> is_slug_byte c = false -> lacks c slug.
Proof.
  destruct slug as [|d s]; [done|]. cbn [validSlug]. rewrite !andb_true_iff. intros [[Hd Hs] _] Hc.
  apply lacks_String. split; [intros ->; by rewrite (lower_slug_byte _ Hd) in Hc|].
  unfold lacks. intros Hin. rewrite forallb_forall in Hs. apply list_elem_of_In, Hs in Hin. congruence.
Qed.

Lemma file_name_plain slug ext : validSlug slug = true -> no_slash ext -> plain (slug +:+ String "." ext).
Proof.
  intros Hv He. assert (no_slash (slug +:+ String "." ext)) as Hn.
  { apply lacks_app. split; [by apply slug_lacks|]. by apply lacks_String. }
  destruct slug as [|c s]; [done|]. cbn [validSlug] in Hv. rewrite !andb_true_iff in Hv. destruct Hv as [[Hc _] _].
  rewrite str_app_cons in *. split; [done|]. split; [intros [= -> _]; done|]. split; [intros [= -> _]; done|done].
Qed.

Lemma pageDir_elems : Forall plain (elems configDir ++ ["pages"]).
Proof. apply Forall_app. split; [by apply elems_plain|]. repeat constructor; try done. unfold no_slash, lacks. cbn. set_solver. Qed.

Lemma pageDir_text : pageDir configDir = path_text true (elems configDir ++ ["pages"]).
Proof.
  unfold pageDir. change "pages" with (join_slash ["pages"]). rewrite Join_plain, dir_abs; [done| |done|].
  - intros H. by rewrite H in dir_abs.
  - pose proof pageDir_elems as H. apply Forall_app in H. by destruct H.
Qed.

Lemma page_path name : plain name -> Join (pageDir configDir) name = entry_path (pageDir configDir) name.
Proof.
  intros Hn. rewrite pageDir_text. change name with (join_slash [name]) at 1. rewrite Join_plain; [|done|done|by apply Forall_singleton].
  rewrite elems_path_text by apply pageDir_elems. apply path_text_cons. by destruct (elems configDir).
Qed.

Lemma sourcePath_file slug : validSlug slug = true -> sourcePath configDir slug = page_file slug "pkl".
Proof. intros Hv. apply page_path. apply file_name_plain; [done|]. unfold no_slash, lacks. cbn. set_solver. Qed.
Lemma layoutPath_file slug : validSlug slug = true -> layoutPath configDir slug = page_file slug "layout.pkl".
Proof. intros Hv. apply page_path. apply file_name_plain; [done|]. unfold no_slash, lacks. cbn. set_solver. Qed.
Lemma tmp_path_file rnd slug : tmp_path configDir rnd slug = page_file slug ("layout.pkl." +:+ rnd +:+ ".tmp").
Proof. done. Qed.

Lemma page_file_inj slug slug' ext ext' :
  validSlug slug = true -> validSlug slug' = true -> page_file slug ext = page_file slug' ext' -> slug = slug' /\ ext = ext'.
Proof.
  intros Hv Hv' H%(inj (entry_path _)). apply (f_equal (cut ".")) in H.
  rewrite !cut_app in H by (by apply slug_lacks). by injection H.
Qed.

Lemma tmp_not_layout rnd : "layout.pkl." +:+ rnd +:+ ".tmp" <> "layout.pkl".
Proof. discriminate. Qed.
(** *** What the operations change *)

Lemma Remove_other fault p d q : q <> p -> (Remove fault p d).1 !! q = d !! q.
Proof. intros Hq. unfold Remove. destruct fault, (d !! p); cbn; try done. by apply lookup_delete_ne. Qed.

(** The temporary file aside, [atomicWrite] leaves the disk as it was or replaces the
    one file; without an error it has done so. *)
Lemma atomicWrite_spec io tmp path content d d' e :
  tmp <> path -> d !! tmp = None -> atomicWrite io tmp path content d = (d', e) ->
  (forall q, q <> tmp -> d' !! q = d !! q \/ (q = path /\ d' !! q = Some content)) /\
  (e = None -> d' !! path = Some content) /\ (e <> None -> d' !! path = d !! path) /\
  (aw_remove io = None -> d' !! tmp = None).
Proof.
  intros Hne Htmp.
  assert (forall c, let d1 := <[tmp := c]> d in
            (forall q, q <> tmp -> cleanup io tmp d1 !! q = d !! q) /\ (aw_remove io = None -> cleanup io tmp d1 !! tmp = None)) as Hclean.
  { intros c. cbn. split.
    - intros q Hq. unfold cleanup. rewrite Remove_other by done. by apply lookup_insert_ne.
    - intros Hr. unfold cleanup, Remove. rewrite Hr, lookup_insert_eq. apply lookup_delete_eq. }
  assert (forall c, (cleanup io tmp (<[tmp := c]> d), e) = (d', e) -> e <> None ->
            (forall q, q <> tmp -> d' !! q = d !! q \/ (q = path /\ d' !! q = Some content)) /\
            (e = None -> d' !! path = Some content) /\ (e <> None -> d' !! path = d !! path) /\
            (aw_remove io = None -> d' !! tmp = None)) as Hfail.
  { intros c [= <-] He. destruct (Hclean c) as [H1 H2]. split; [intros q Hq; left; by apply H1|]. split; [done|].
    split; [intros _; by apply H1|done]. }
  unfold atomicWrite. destruct (aw_create io) as [e0|].
  { intros [= <- <-]. split; [by left|]. done. }
  destruct (aw_write io) as [[part e0]|]; [intros [= <- <-]; by apply (Hfail part)|].
  destruct (aw_chmod io) as [e0|]; [intros [= <- <-]; by apply (Hfail content)|].
  destruct (aw_close io) as [e0|]; [intros [= <- <-]; by apply (Hfail content)|].
  unfold rename_file. destruct (aw_rename io) as [e0|]; [intros [= <- <-]; by apply (Hfail content)|].
  rewrite lookup_insert_eq. destruct (negb _); [intros [= <- <-]; by apply (Hfail content)|].
  intros [= <- <-]. rewrite delete_insert_eq, delete_id by done. unfold cleanup, Remove.
  assert (<[path := content]> d !! tmp = None) as Ht by (by rewrite lookup_insert_ne by done).
  rewrite Ht. assert (forall x : option string, match x with Some e => (<[path := content]> d, Some (Some e)) | None => (<[path := content]> d, Some None) end
                      .1 = <[path := content]> d) as Hx by (by intros []). rewrite Hx.
  split; [|split; [intros _; apply lookup_insert_eq|split; [done|done]]].
  intros q _. destruct (decide (q = path)) as [->|Hq]; [right; split; [done|apply lookup_insert_eq]|left; by apply lookup_insert_ne].
Qed.

(** Saving a layout is atomic, whatever fails: a reader finds the old layout or the
    whole of the new one, every other file is as before, and the temporary file is gone
    unless its removal fails too. A save that succeeds has written the layout. *)
Theorem save_layout_atomic stat io readErr pd d d' r :
  let tmp := tmp_path configDir (aw_rnd io) (p_Slug pd) in
  let path := layoutPath configDir (p_Slug pd) in
  d !! tmp = None ->
  SaveLayout L P sha256_hex evaluate configDir stat io readErr pd d = (d', r) ->
  (forall q, q <> tmp -> d' !! q = d !! q \/ (q = path /\ d' !! q = Some (Render P pd))) /\
  (aw_remove io = None -> d' !! tmp = None) /\
  (forall saved sum, r = Ok (saved, sum) -> d' !! path = Some (Render P pd) /\ sum = sha256_hex (Render P pd)).
Proof.
  intros tmp path Htmp. unfold SaveLayout.
  assert (forall e : page_error, (d, Err e) = (d', r) ->
    (forall q, q <> tmp -> d' !! q = d !! q \/ (q = path /\ d' !! q = Some (Render P pd))) /\ (aw_remove io = None -> d' !! tmp = None) /\
    (forall saved sum, r = Ok (saved, sum) -> d' !! path = Some (Render P pd) /\ sum = sha256_hex (Render P pd))) as Hsame.
  { intros e [= <- <-]. split; [by left|]. split; [done|]. by intros. }
  destruct (validSlug (p_Slug pd)) eqn:Hv; cbn [negb]; [|by apply Hsame].
  destruct stat; [by apply Hsame|]. destruct (d !! layoutPath configDir (p_Slug pd)); [|by apply Hsame].
  assert (tmp <> path) as Hne.
  { unfold tmp, path. rewrite tmp_path_file, layoutPath_file by done. intros [_ H]%page_file_inj; [|done..]. by apply tmp_not_layout in H. }
  fold tmp path. destruct (atomicWrite io tmp path (Render P pd) d) as [d1 e] eqn:Ha.
  destruct (atomicWrite_spec _ _ _ _ _ _ _ Hne Htmp Ha) as (H1 & H2 & _ & H4).
  destruct e as [e|]; intros [= <- <-]; (split; [done|]); (split; [done|]); [done|].
  intros saved sum. destruct (Get L evaluate configDir readErr (p_Slug pd) d1); [|done]. intros [= _ <-]. auto.
Qed.

(** The operations that write. *)
Inductive page_op :=
  | OpCreate (io : CreateIO) (slug title : string)
  | OpDelete (removeSource removeLayout : option string) (slug : string) (both : bool)
  | OpSave (stat : option string) (io : AtomicIO) (pd : PageData).

Definition op_slug (op : page_op) : string :=
  match op with OpCreate _ slug _ | OpDelete _ _ slug _ => slug | OpSave _ _ pd => p_Slug pd end.

Definition run_op (readErr : string -> option string) (op : page_op) (d : Disk) : Disk :=
  match op with
  | OpCreate io slug title => (Create L P evaluate configDir io readErr slug title d).1
  | OpDelete rs rl slug both => (Delete configDir rs rl slug both d).1
  | OpSave stat io pd => (SaveLayout L P sha256_hex evaluate configDir stat io readErr pd d).1
  end.

Lemma create_touches io readErr slug title d q :
  (forall ext, q <> page_file slug ext) -> (Create L P evaluate configDir io readErr slug title d).1 !! q = d !! q.
Proof.
  intros Hq. unfold Create. destruct (validSlug slug) eqn:Hv; [|done]. cbn [negb].
  destruct (cr_stat io); [done|]. destruct (d !! sourcePath configDir slug); [done|].
  unfold ScaffoldPage. destruct (cr_mkdir io); [done|].
  pose proof (WriteFile_other (cr_source io) (sourcePath configDir slug) (source_content P slug title) d q) as H1.
  rewrite sourcePath_file in * by done. specialize (H1 (Hq _)).
  destruct (WriteFile (cr_source io) _ _ d) as [d1 [e|]]; [done|].
  pose proof (WriteFile_other (cr_layout io) (layoutPath configDir slug) layout_content d1 q) as H2.
  rewrite layoutPath_file in * by done. specialize (H2 (Hq _)). cbn in H1.
  destruct (WriteFile (cr_layout io) _ _ d1) as [d2 [e|]]; cbn in *; by rewrite H2.
Qed.

Lemma delete_touches rs rl slug both d q :
  (forall ext, q <> page_file slug ext) -> (Delete configDir rs rl slug both d).1 !! q = d !! q.
Proof.
  intros Hq. unfold Delete. destruct (validSlug slug) eqn:Hv; [|done]. cbn [negb].
  rewrite sourcePath_file, layoutPath_file by done.
  pose proof (Remove_other rs (page_file slug "pkl") d q (Hq _)) as H1.
  destruct (Remove rs _ d) as [d1 [[e|]|]]; [done|done|]. cbn in H1.
  pose proof (Remove_other rl (page_file slug "layout.pkl") d1 q (Hq _)) as H2.
  destruct both; [|done]. destruct (Remove rl _ d1) as [d2 [[e|]|]]; cbn in *; by rewrite H2.
Qed.

Lemma save_touches stat io readErr pd d q :
  (forall ext, q <> page_file (p_Slug pd) ext) -> (SaveLayout L P sha256_hex evaluate configDir stat io readErr pd d).1 !! q = d !! q.
Proof.
  intros Hq. unfold SaveLayout. destruct (validSlug (p_Slug pd)) eqn:Hv; [|done]. cbn [negb].
  destruct stat; [done|]. destruct (d !! layoutPath configDir (p_Slug pd)); [|done].
  rewrite layoutPath_file by done.
  set (tmp := tmp_path configDir (aw_rnd io) (p_Slug pd)). assert (q <> tmp) as Ht by apply Hq.
  assert (forall c, cleanup io tmp (<[tmp := c]> d) !! q = d !! q) as Hc.
  { intros c. unfold cleanup. rewrite Remove_other by done. by apply lookup_insert_ne. }
  unfold atomicWrite. destruct (aw_create io); [done|]. destruct (aw_write io) as [[part e]|]; [apply Hc|].
  destruct (aw_chmod io); [apply Hc|]. destruct (aw_close io); [apply Hc|].
  pose proof (rename_file_other (aw_rename io) tmp (page_file (p_Slug pd) "layout.pkl") (<[tmp := Render P pd]> d) q Ht (Hq _)) as H1.
  destruct (rename_file _ _ _ _) as [d2 e]. cbn in H1. rewrite lookup_insert_ne in H1 by done.
  destruct e; cbn; unfold cleanup; by rewrite Remove_other.
Qed.

(** Pages do not touch each other: whatever fails, creating, deleting and saving a
    page change no file but those of its slug, and the files of two pages are apart. *)
Theorem page_files_apart readErr op d slug ext :
  validSlug (op_slug op) = true -> validSlug slug = true -> slug <> op_slug op ->
  run_op readErr op d !! page_file slug ext = d !! page_file slug ext.
Proof.
  intros Hv Hv' Hne. assert (forall ext', page_file slug ext <> page_file (op_slug op) ext') as Hq.
  { intros ext' [H _]%page_file_inj; done. }
  destruct op; cbn in *; [by apply create_touches | by apply delete_touches | by apply save_touches].
Qed.

(** *** What the operations get wrong *)

Lemma mapM_Err {E A B} (f : A -> result E B) l x e :
  x ∈ l -> f x = Err e -> exists e', mapM f l = Err e'.
Proof.
  induction l as [|y l IH]; [by intros ?%not_elem_of_nil|]. intros Hx He. cbn [mapM].
  destruct (f y) as [b|e'] eqn:Hy; [|by exists e']. apply elem_of_cons in Hx as [->|Hx]; [congruence|].
  destruct (IH Hx He) as [e' H]. exists e'. cbn [mbind result_bind]. by rewrite H.
Qed.

(** One page that cannot be read hides all: the list of pages is an error as soon as
    one file of the directory does not evaluate, or has a name that is no slug. *)
Theorem broken_page_hides_all readErr d slug e :
  slug ∈ page_slugs configDir d -> Get L evaluate configDir readErr slug d = Err e ->
  exists e', List_ L P evaluate configDir readErr d = Err e'.
Proof.
  intros Hin He. unfold List_.
  destruct (mapM_Err (fun slug => p ← Get L evaluate configDir readErr slug d; Ok (mkMeta (p_Slug p) (p_Title p))) _ slug e Hin)
    as [e' H]; [by rewrite He|].
  exists e'. by rewrite H.
Qed.

(** A save whose layout does not evaluate reports an error and has replaced the layout. *)
Lemma failed_save_replaces io readErr pd d e :
  let tmp := tmp_path configDir (aw_rnd io) (p_Slug pd) in
  d !! tmp = None -> validSlug (p_Slug pd) = true -> is_Some (d !! layoutPath configDir (p_Slug pd)) ->
  forall d', atomicWrite io tmp (layoutPath configDir (p_Slug pd)) (Render P pd) d = (d', None) ->
  Get L evaluate configDir readErr (p_Slug pd) d' = Err e ->
  SaveLayout L P sha256_hex evaluate configDir None io readErr pd d = (d', Err e) /\
  d' !! layoutPath configDir (p_Slug pd) = Some (Render P pd).
Proof.
  intros tmp Htmp Hv [old Hl] d' Ha He. unfold SaveLayout. rewrite Hv, Hl. cbn [negb]. fold tmp. rewrite Ha, He. split; [done|].
  assert (tmp <> layoutPath configDir (p_Slug pd)) as Hne.
  { unfold tmp. rewrite tmp_path_file, layoutPath_file by done. intros [_ H]%page_file_inj; [|done..]. by apply tmp_not_layout in H. }
  destruct (atomicWrite_spec _ _ _ _ _ _ _ Hne Htmp Ha) as (_ & H2 & _). auto.
Qed.

(** Deleting a page without its layout keeps the layout for nothing: creating the page
    again overwrites it. *)
Lemma recreate_overwrites_layout readErr slug title d source layout :
  validSlug slug = true -> d !! sourcePath configDir slug = Some source -> d !! layoutPath configDir slug = Some layout ->
  exists d1, Delete configDir None None slug false d = (d1, None) /\ d1 !! layoutPath configDir slug = Some layout /\
    (Create L P evaluate configDir (mkCreateIO None None None None) readErr slug title d1).1 !! layoutPath configDir slug = Some layout_content.
Proof.
  intros Hv Hs Hl. exists (delete (sourcePath configDir slug) d).
  assert (sourcePath configDir slug <> layoutPath configDir slug) as Hne.
  { rewrite sourcePath_file, layoutPath_file by done. by intros [_ H]%page_file_inj. }
  split; [unfold Delete, Remove; by rewrite Hv, Hs|]. split; [by rewrite lookup_delete_ne|].
  unfold Create. rewrite Hv, lookup_delete_eq. cbn. apply lookup_insert_eq.
Qed.

End Facts.

(** ** The catalog *)

Inductive Tier := TIER_SECTION | TIER_TILE | TIER_CELL.
Definition BuiltinSectionIDs : list string :=
  ["Hero"; "Chart"; "EntityList"; "ActivityFeed"; "RoomGrid"; "Markdown"; "CameraGrid"; "StatGrid"; "WebhookButton"].
Definition BuiltinTileIDs : list string := ["RoomTile"; "StatTile"; "EntityToggle"; "SceneButton"].
Definition BuiltinCellIDs : list string := ["EntityRow"; "EventRow"].
Definition BuiltinClassIDs : list string := BuiltinSectionIDs ++ BuiltinTileIDs ++ BuiltinCellIDs.
Definition BuiltinClassPrefix : string := "@switchyard/builtin/".

Record PackClass := mkPackClass { pc_Name : string; pc_BundleURL : string; pc_BundleHash : string; pc_Tiers : list string }.
Record InstalledPack := mkInstalledPack { ip_Name : string; ip_Version : string; ip_Classes : list PackClass }.
Record WidgetClassInfo := mkClassInfo {
  wc_ClassID : string; wc_Tiers : list Tier; wc_IsBuiltin : bool; wc_PackName : string; wc_PackVersion : string; wc_BundleURL : string;
  wc_BundleHash : string;
}.

Definition parseTiers (ss : list string) : list Tier :=
  match ss with
  | [] => [TIER_SECTION]
  | _ => omap (fun s => if String.eqb s "section" then Some TIER_SECTION else if String.eqb s "tile" then Some TIER_TILE
                        else if String.eqb s "cell" then Some TIER_CELL else None) ss
  end.

Definition builtin_class (t : Tier) (id : string) : WidgetClassInfo := mkClassInfo (BuiltinClassPrefix +:+ id) [t] true "" "" "" "".
Definition pack_class (p : InstalledPack) (c : PackClass) : WidgetClassInfo :=
  mkClassInfo (ip_Name p +:+ "/" +:+ pc_Name c) (parseTiers (pc_Tiers c)) false (ip_Name p) (ip_Version p) (pc_BundleURL c) (pc_BundleHash c).
Definition WidgetClasses (packs : list InstalledPack) : list WidgetClassInfo :=
  (builtin_class TIER_SECTION <$> BuiltinSectionIDs) ++ (builtin_class TIER_TILE <$> BuiltinTileIDs) ++
  (builtin_class TIER_CELL <$> BuiltinCellIDs) ++ (packs ≫= fun p => pack_class p <$> ip_Classes p).
Definition LookupClass (packs : list InstalledPack) (classID : string) : option WidgetClassInfo :=
  snd <$> list_find (fun wc => wc_ClassID wc = classID) (WidgetClasses packs).

(** [pageBackend.WidgetCatalog] of the daemon hands the classes over without tiers. *)
Definition daemon_pack (p : InstalledPack) : InstalledPack :=
  mkInstalledPack (ip_Name p) (ip_Version p) ((fun c => mkPackClass (pc_Name c) (pc_BundleURL c) (pc_BundleHash c) []) <$> ip_Classes p).
Definition daemon_catalog (packs : list InstalledPack) : list WidgetClassInfo := WidgetClasses (daemon_pack <$> packs).

(** No pack can take the id of a built-in class away. *)
Lemma lookup_builtin packs id :
  id ∈ BuiltinClassIDs -> exists wc, LookupClass packs (BuiltinClassPrefix +:+ id) = Some wc /\ wc_IsBuiltin wc = true.
Proof.
  intros Hid. unfold LookupClass, WidgetClasses. rewrite !app_assoc.
  set (builtin := _ ++ (builtin_class TIER_CELL <$> _)).
  assert (Forall (fun wc => wc_IsBuiltin wc = true) builtin) as Hall by (repeat constructor).
  assert (exists wc, wc ∈ builtin /\ wc_ClassID wc = BuiltinClassPrefix +:+ id) as (wc & Hin & Heq).
  { unfold BuiltinClassIDs in Hid. rewrite !elem_of_app in Hid. unfold builtin.
    destruct Hid as [H|[H|H]]; [exists (builtin_class TIER_SECTION id)|exists (builtin_class TIER_TILE id)|exists (builtin_class TIER_CELL id)];
      (split; [rewrite !elem_of_app, !list_elem_of_fmap; naive_solver|done]). }
  destruct (list_find_elem_of (fun wc => wc_ClassID wc = BuiltinClassPrefix +:+ id) builtin wc Hin Heq) as [[i wc'] Hf].
  exists wc'. rewrite (list_find_app_l _ _ _ _ _ Hf). split; [done|].
  apply list_find_Some in Hf as (Hl & _). rewrite Forall_forall in Hall. apply Hall. by eapply list_elem_of_lookup_2.
Qed.

(** Every class of a pack is a section to the daemon, whatever its tiers. *)
Lemma daemon_tiers_lost packs wc :
  wc ∈ daemon_catalog packs -> wc_IsBuiltin wc = false -> wc_Tiers wc = [TIER_SECTION].
Proof.
  unfold daemon_catalog, WidgetClasses. rewrite !elem_of_app, !list_elem_of_fmap, list_elem_of_bind.
  intros [(id & -> & _)|[(id & -> & _)|[(id & -> & _)|(p & Hp & Hin)]]]; [done..|]. intros _.
  apply list_elem_of_fmap in Hin as (p' & -> & _). cbn in Hp. rewrite <- list_fmap_compose in Hp.
  by apply list_elem_of_fmap in Hp as (c & -> & _).
Qed.

(** ** The service *)

Inductive page_code := CodeNotFound | CodeInternal | CodeInvalidArgument.
Definition connectErr (e : page_error) : page_code := match e with ErrPageNotFound => CodeNotFound | _ => CodeInternal end.

(** Pages on the wire: properties are absent when there are none, or when [NewStruct]
    refuses them. *)
Record PbWidget := mkPbWidget { pw_Id : string; pw_Type : string; pw_Props : option Props }.
Record PbSection := mkPbSection { ps_Id : string; ps_Type : string; ps_Props : option Props; ps_Tiles : list PbWidget; ps_Cells : list PbWidget }.
Record PbPage := mkPbPage {
  pb_Slug : string; pb_Title : string; pb_Sections : list PbSection; pb_SourcePkl : string; pb_LayoutPkl : string; pb_Writable : bool;
}.

Section Wire.
Context (NewStruct : Props -> bool).

Definition props_to_proto (m : Props) : option Props :=
  if decide (m = ∅) then None else if NewStruct m then Some m else None.
Definition widget_to_proto (w : Widget) : PbWidget := mkPbWidget (w_ID w) (w_Type w) (props_to_proto (w_Props w)).
Definition sectionToProto (s : SectionData) : PbSection :=
  mkPbSection (s_ID s) (s_Type s) (props_to_proto (s_Props s)) (widget_to_proto <$> s_Tiles s) (widget_to_proto <$> s_Cells s).
Definition toProto (p : PageData) : PbPage :=
  mkPbPage (p_Slug p) (p_Title p) (sectionToProto <$> p_Sections p) (p_SourcePkl p) (p_LayoutPkl p) (p_Writable p).

Definition widget_from_proto (w : PbWidget) : Widget := mkWidget (pw_Id w) (pw_Type w) (default ∅ (pw_Props w)).
Definition sectionFromProto (s : PbSection) : SectionData :=
  mkSection (ps_Id s) (ps_Type s) (default ∅ (ps_Props s)) (widget_from_proto <$> ps_Tiles s) (widget_from_proto <$> ps_Cells s).
Definition fromProto (p : PbPage) : PageData := mkPage (pb_Slug p) (pb_Title p) (sectionFromProto <$> pb_Sections p) "" "" false.

(** What the wire can carry. *)
Definition widget_ok (w : Widget) : Prop := w_Props w = ∅ \/ NewStruct (w_Props w) = true.
Definition section_ok (s : SectionData) : Prop :=
  (s_Props s = ∅ \/ NewStruct (s_Props s) = true) /\ Forall widget_ok (s_Tiles s) /\ Forall widget_ok (s_Cells s).

Lemma props_wire m : m = ∅ \/ NewStruct m = true -> default ∅ (props_to_proto m) = m.
Proof. unfold props_to_proto. intros [->|H]; [by rewrite decide_True|]. rewrite H. by case_decide. Qed.

Lemma fmap_id {A} (f : A -> A) (Q : A -> Prop) l : (forall x, Q x -> f x = x) -> Forall Q l -> f <$> l = l.
Proof. intros Hf. induction 1 as [|x l Hx _ IH]; [done|]. cbn. by rewrite Hf, IH. Qed.

Lemma widget_wire w : widget_ok w -> widget_from_proto (widget_to_proto w) = w.
Proof. intros H. unfold widget_from_proto. cbn. rewrite props_wire by done. by destruct w. Qed.

Lemma section_wire s : section_ok s -> sectionFromProto (sectionToProto s) = s.
Proof.
  intros (H & Ht & Hc). unfold sectionFromProto. cbn. rewrite props_wire by done. rewrite <- !list_fmap_compose.
  rewrite !(fmap_id _ widget_ok) by (done || apply widget_wire). by destruct s.
Qed.

(** The wire keeps a page: what a client gets and sends back is the page that was
    read, its source texts aside. *)
Theorem page_wire_roundtrip p :
  Forall section_ok (p_Sections p) -> fromProto (toProto p) = mkPage (p_Slug p) (p_Title p) (p_Sections p) "" "" false.
Proof.
  intros H. unfold fromProto. cbn. rewrite <- list_fmap_compose. by rewrite (fmap_id _ section_ok) by (done || apply section_wire).
Qed.
End Wire.

(** ** Pages on a disk *)

Module PagesDemo.

Definition lib : PageLib := mkPageLib (fun _ => "1.5") (fun _ => "1.5") id (fun A => insertion_sort).
Lemma lib_ok : SortOk lib.
Proof. split; intros A key l; apply (insertion_sort_spec key). Qed.
(** Another correct sort. *)
Definition rev_sort (A : Type) (key : A -> string) (l : list A) : list A := insertion_sort key (rev l).
Lemma rev_ok : SortOk (resort rev_sort lib).
Proof.
  split; intros A key l; cbn; unfold rev_sort; [|apply insertion_sort_spec].
  rewrite (proj1 (insertion_sort_spec key (rev l))). symmetry. apply Permutation_rev.
Qed.

Definition row (id : string) : Widget := mkWidget id "EntityRow" {["entity" := AString ("light." +:+ id)]}.
Definition hero : SectionData := mkSection "hero" "Hero" {["title" := AString "Home"; "wide" := ABool true]} [] [].
Definition lamps : SectionData := mkSection "lamps" "EntityList" ∅ [] [row "hall"; row "attic"].
Definition lamps' : SectionData := mkSection "lamps" "EntityList" ∅ [] [row "attic"; row "hall"].
Definition page (l : list SectionData) : PageData := mkPage "home" "Home" l "" "" true.

Example layout_text :
  Render lib (page [lamps']) =
  concat_strings ((fun l => l +:+ newline) <$>
    ["import " +:+ in_quotes "switchyard:pages" +:+ " as p"; ""; "// Auto-generated by switchyardd regen — do not edit manually."; "";
     "sections: Listing<p.Section> = new {";
     "  new p.EntityListSection {"; "    id = " +:+ in_quotes "lamps"; "    cells {";
     "      new p.EntityRowCell {"; "        id = " +:+ in_quotes "attic"; "        entity = " +:+ in_quotes "light.attic"; "      }";
     "      new p.EntityRowCell {"; "        id = " +:+ in_quotes "hall"; "        entity = " +:+ in_quotes "light.hall"; "      }";
     "    }"; "  }"; "}"]).
Proof. vm_compute. reflexivity. Qed.

Lemma layout_order_independent_witness :
  Render lib (page [hero; lamps]) = Render (resort rev_sort lib) (page [lamps'; hero]).
Proof.
  apply (@layout_order_independent lib rev_sort lib_ok rev_ok (page [hero; lamps]) (page [lamps'; hero])).
  - split; [apply (bool_decide_unpack _); vm_compute; exact I|].
    repeat constructor; cbn; set_solver.
  - exists [lamps; hero]. split; [apply perm_swap|]. repeat constructor.
Defined.

(** The keys and the types of a page are written as they are: a client can write any
    expression of Pkl into a file of the configuration. *)
Definition inject : SectionData := mkSection "x" "Hero" {["a = read(env:TOKEN) //" := ANil]} [] [].
Example key_is_written_raw : str_contains (Render lib (page [inject])) "    a = read(env:TOKEN) // = null" = true.
Proof. vm_compute. reflexivity. Qed.

(** A list of values becomes a text. *)
Example list_becomes_text : formatPklValue lib (AList [AString "a"; AString "b"]) = in_quotes "[a b]".
Proof. vm_compute. reflexivity. Qed.

Definition json_lib : JSONLib := mkJSONLib (fun s => if String.eqb s "{}" then Some (JObject [("slug", JString "home")]) else None) (fun _ => "")
  (fun _ => None) (fun _ => None).
Definition evaluate (d : Disk) (p : string) : result string string := if decide (p = "/etc/home/pages/bad.pkl") then Err "no such property" else Ok "{}".
Definition disk : Disk := {["/etc/home/pages/home.pkl" := "source"; "/etc/home/pages/home.layout.pkl" := "old"; "/etc/home/pages/bad.pkl" := "x"]}.
Definition no_err : string -> option string := fun _ => None.
Definition io (rename : option string) : AtomicIO := mkAtomicIO "42" None None None None rename None.
Definition sha (s : string) : string := "sum".
Definition save (rename : option string) := SaveLayout json_lib lib sha evaluate "/etc/home" None (io rename) no_err (page [hero]) disk.

Lemma save_layout_atomic_witness :
  (save (Some "disk full")).1 !! "/etc/home/pages/home.layout.pkl.42.tmp" = None /\
  forall q, q <> "/etc/home/pages/home.layout.pkl.42.tmp" ->
    (save None).1 !! q = disk !! q \/ (q = "/etc/home/pages/home.layout.pkl" /\ (save None).1 !! q = Some (Render lib (page [hero]))).
Proof.
  split.
  - refine (proj1 (proj2 (save_layout_atomic json_lib lib sha evaluate "/etc/home" eq_refl None (io (Some "disk full")) no_err (page [hero]) disk _ _ _ _)) eq_refl);
      [vm_compute; reflexivity|apply surjective_pairing].
  - refine (proj1 (save_layout_atomic json_lib lib sha evaluate "/etc/home" eq_refl None (io None) no_err (page [hero]) disk _ _ _ _));
      [vm_compute; reflexivity|apply surjective_pairing].
Defined.

Lemma page_files_apart_witness :
  run_op json_lib lib sha evaluate "/etc/home" no_err (OpDelete None None "home" true) disk !! page_file "/etc/home" "bad" "pkl"
  = disk !! page_file "/etc/home" "bad" "pkl".
Proof.
  apply (page_files_apart json_lib lib sha evaluate "/etc/home" eq_refl no_err (OpDelete None None "home" true) disk "bad" "pkl");
    [reflexivity | reflexivity | discriminate].
Defined.

Lemma broken_page_hides_all_witness : exists e, List_ json_lib lib evaluate "/etc/home" no_err disk = Err e.
Proof.
  apply (broken_page_hides_all json_lib lib evaluate "/etc/home" no_err disk "bad" (EvalFailed "no such property")).
  - apply (bool_decide_unpack _). vm_compute. exact I.
  - vm_compute. reflexivity.
Defined.

(** A file whose name is no slug is enough. *)
Example stray_file : List_ json_lib lib evaluate "/etc/home" no_err {["/etc/home/pages/Notes.pkl" := ""]} = Err ErrPageNotFound.
Proof. vm_compute. reflexivity. Qed.

Lemma page_wire_roundtrip_witness : fromProto (toProto (fun _ => true) (page [hero; lamps])) = mkPage "home" "Home" [hero; lamps] "" "" false.
Proof. apply (page_wire_roundtrip (fun _ => true) (page [hero; lamps])). repeat constructor; by right. Defined.

End PagesDemo.
