(* ===== verification/Colorconv.v ===== *)
(** * Colour spaces

    Models [switchyard-driverkit/colorconv/colorconv.go] in the arithmetic of doubles as
    amd64 computes it, without fused operations. [math.Pow] is a parameter; the other
    functions of package [math] are written out.

    [hsv_roundtrip]: grey and the six pure hues survive the conversion to HSV and back. *)

From Stdlib Require Import SpecFloat.
From S2P Require Import Prelude Codec Json Events Engine Rules Carport ConfigDecode.

(** ** Doubles *)

Abbreviation double := spec_float.

Definition fadd : double -> double -> double := SFadd 53 1024.
Definition fsub : double -> double -> double := SFsub 53 1024.
Definition fmul : double -> double -> double := SFmul 53 1024.
Definition fdiv : double -> double -> double := SFdiv 53 1024.

(** The double nearest to the literal [m / 10 ^ k]; both are exact doubles. *)
Definition lit (m : Z) (k : Z) : double := fdiv (float_of_Z m) (float_of_Z (10 ^ k)).
Definition f0 : double := float_of_Z 0.
Definition f1 : double := float_of_Z 1.
Definition eps : double := lit 1 9.

Definition is_nan (x : double) : bool := match x with S754_nan => true | _ => false end.
Definition sign_bit (x : double) : bool :=
  match x with S754_zero s | S754_infinity s | S754_finite s _ _ => s | S754_nan => false end.

(** [math.Max] and [math.Min]. *)
Definition fmax (x y : double) : double :=
  match x, y with
  | S754_infinity false, _ | _, S754_infinity false => S754_infinity false
  | S754_nan, _ | _, S754_nan => S754_nan
  | S754_zero s, S754_zero _ => if s then y else x
  | _, _ => if SFltb y x then x else y
  end.
Definition fmin (x y : double) : double :=
  match x, y with
  | S754_infinity true, _ | _, S754_infinity true => S754_infinity true
  | S754_nan, _ | _, S754_nan => S754_nan
  | S754_zero s, S754_zero _ => if s then x else y
  | _, _ => if SFltb x y then x else y
  end.

(** [math.Round] as an integer: half away from zero. *)
Definition round_Z (f : double) : Z :=
  match f with
  | S754_finite s m e =>
      let z := if 0 <=? e then Z.pos m * 2 ^ e else (2 * Z.pos m + 2 ^ (- e)) / 2 ^ (- e + 1) in
      if s then - z else z
  | _ => 0
  end.
(** [uint8(math.Round(f))] and [uint32(math.Round(f))] go through an [int64]; what is no
    number becomes the smallest one, whose low bits are zero. *)
Definition round_bits (bits : Z) (f : double) : Z :=
  let z := round_Z f in if (- 2 ^ 63 <=? z) && (z <? 2 ^ 63) then z mod 2 ^ bits else 0.

(** [math.Mod], which is exact. *)
Definition fmod (x y : double) : double :=
  match x, y with
  | S754_nan, _ | _, S754_nan | S754_infinity _, _ | _, S754_zero _ => S754_nan
  | S754_zero _, _ | _, S754_infinity _ => x
  | S754_finite s m e, S754_finite _ m' e' =>
      let ex := Z.min e e' in
      let r := (Z.pos m * 2 ^ (e - ex)) mod (Z.pos m' * 2 ^ (e' - ex)) in
      binary_normalize 53 1024 (if s then - r else r) ex s
  end.

(** ** Colours *)

Record XY := mkXY { X : double; Y : double }.
Record Gamut := mkGamut { Red : XY; Green : XY; Blue : XY }.
Definition no_xy : XY := mkXY (S754_zero false) (S754_zero false).
Definition no_gamut : Gamut := mkGamut no_xy no_xy no_xy.

Definition byte (n : Z) : double := fdiv (float_of_Z n) (float_of_Z 255).

Definition floatToByte (f : double) : Z :=
  if SFltb f f0 then 0 else if SFltb f1 f then 255 else round_bits 8 (fmul f (float_of_Z 255)).

Section Gamma.
Context (Pow : double -> double -> double).

Definition gammaInverse (c : double) : double :=
  if SFltb (lit 4045 5) c then Pow (fdiv (fadd c (lit 55 3)) (lit 1055 3)) (lit 24 1) else fdiv c (lit 1292 2).
(** The exponent is the constant [1.0 / 2.4], rounded once. *)
Definition gammaForward (c : double) : double :=
  if SFleb c f0 then S754_zero false
  else if SFleb c (lit 31308 7) then fmul (lit 1292 2) c
  else fsub (fmul (lit 1055 3) (Pow c (fdiv (float_of_Z 5) (float_of_Z 12)))) (lit 55 3).

Definition dot (a b c : Z) (k1 k2 k3 : Z) (x y z : double) : double :=
  fadd (fadd (fmul x (lit a k1)) (fmul y (lit b k2))) (fmul z (lit c k3)).

Definition RGBToXY (c : Z * Z * Z) : XY :=
  let '(r, g, b) := c in
  let rf := gammaInverse (byte r) in let gf := gammaInverse (byte g) in let bf := gammaInverse (byte b) in
  let x := dot 4124564 3575761 1804375 7 7 7 rf gf bf in
  let y := dot 2126729 7151522 721750 7 7 7 rf gf bf in
  let z := dot 193339 1191920 9503041 7 7 7 rf gf bf in
  let sum := fadd (fadd x y) z in
  if SFeqb sum f0 then no_xy else mkXY (fdiv x sum) (fdiv y sum).

Definition XYToRGB (xy : XY) : Z * Z * Z :=
  if SFltb (Y xy) eps then (0, 0, 0)
  else
    let x := fdiv (X xy) (Y xy) in
    let z := fdiv (fsub (fsub f1 (X xy)) (Y xy)) (Y xy) in
    let rl := dot 32404542 (-15371385) (-4985314) 7 7 7 x f1 z in
    let gl := dot (-9692660) 18760108 415560 7 7 7 x f1 z in
    let bl := dot 556434 (-2040259) 10572252 7 7 7 x f1 z in
    let maxC := fmax rl (fmax gl bl) in
    let '(rl, gl, bl) := if SFltb f1 maxC then (fdiv rl maxC, fdiv gl maxC, fdiv bl maxC) else (rl, gl, bl) in
    (floatToByte (gammaForward rl), floatToByte (gammaForward gl), floatToByte (gammaForward bl)).
End Gamma.

(** *** The gamut of a bulb *)

Definition crossSign (a b c : XY) : double :=
  fsub (fmul (fsub (X a) (X c)) (fsub (Y b) (Y c))) (fmul (fsub (X b) (X c)) (fsub (Y a) (Y c))).

Definition pointInTriangle (p a b c : XY) : bool :=
  let ds := [crossSign p a b; crossSign p b c; crossSign p c a] in
  negb (existsb (fun d => SFltb d (SFopp eps)) ds) || negb (existsb (fun d => SFltb eps d) ds).

Definition closestOnSegment (p a b : XY) : XY :=
  let dx := fsub (X b) (X a) in let dy := fsub (Y b) (Y a) in
  let denom := fadd (fmul dx dx) (fmul dy dy) in
  if SFeqb denom f0 then a
  else
    let t := fdiv (fadd (fmul (fsub (X p) (X a)) dx) (fmul (fsub (Y p) (Y a)) dy)) denom in
    if SFltb t f0 then a else if SFltb f1 t then b else mkXY (fadd (X a) (fmul t dx)) (fadd (Y a) (fmul t dy)).

Definition distSq (a b : XY) : double :=
  let dx := fsub (X a) (X b) in let dy := fsub (Y a) (Y b) in fadd (fmul dx dx) (fmul dy dy).

Definition xy_eqb (a b : XY) : bool := SFeqb (X a) (X b) && SFeqb (Y a) (Y b).

Definition ClampToGamut (xy : XY) (g : Gamut) : XY :=
  if xy_eqb (Red g) no_xy && xy_eqb (Green g) no_xy && xy_eqb (Blue g) no_xy then xy
  else if pointInTriangle xy (Red g) (Green g) (Blue g) then xy
  else
    let a := closestOnSegment xy (Red g) (Green g) in
    let b := closestOnSegment xy (Green g) (Blue g) in
    let c := closestOnSegment xy (Blue g) (Red g) in
    let '(best, bestD) := if SFltb (distSq xy b) (distSq xy a) then (b, distSq xy b) else (a, distSq xy a) in
    if SFltb (distSq xy c) bestD then c else best.

(** *** HSV *)

Definition RGBToHSV (c : Z * Z * Z) : double * double * double :=
  let '(r, g, b) := c in
  let rf := byte r in let gf := byte g in let bf := byte b in
  let maxC := fmax rf (fmax gf bf) in
  let minC := fmin rf (fmin gf bf) in
  let d := fsub maxC minC in
  if SFeqb maxC f0 then (S754_zero false, S754_zero false, S754_zero false)
  else
    let s := fdiv d maxC in
    if SFeqb d f0 then (S754_zero false, s, maxC)
    else
      let h := if SFeqb maxC rf then let h := fdiv (fsub gf bf) d in if SFltb gf bf then fadd h (float_of_Z 6) else h
               else if SFeqb maxC gf then fadd (fdiv (fsub bf rf) d) (float_of_Z 2)
               else if SFeqb maxC bf then fadd (fdiv (fsub rf gf) d) (float_of_Z 4) else S754_zero false in
      (fmul h (float_of_Z 60), s, maxC).

Definition clamp01 (x : double) : double :=
  let x := if SFltb x f0 then S754_zero false else x in if SFltb f1 x then f1 else x.

Definition HSVToRGB (hsv : double * double * double) : Z * Z * Z :=
  let '(h, s, v) := hsv in
  let s := clamp01 s in let v := clamp01 v in
  let h := fmod h (float_of_Z 360) in
  let h := if SFltb h f0 then fadd h (float_of_Z 360) else h in
  let c := fmul v s in
  let x := fmul c (fsub f1 (SFabs (fsub (fmod (fdiv h (float_of_Z 60)) (float_of_Z 2)) f1))) in
  let m := fsub v c in
  let z := S754_zero false in
  let '(rf, gf, bf) :=
    if SFltb h (float_of_Z 60) then (c, x, z) else if SFltb h (float_of_Z 120) then (x, c, z)
    else if SFltb h (float_of_Z 180) then (z, c, x) else if SFltb h (float_of_Z 240) then (z, x, c)
    else if SFltb h (float_of_Z 300) then (x, z, c) else (c, z, x) in
  (floatToByte (fadd rf m), floatToByte (fadd gf m), floatToByte (fadd bf m)).

(** ** Lemmas *)

Definition is_byte_triple (c : Z * Z * Z) : Prop := let '(r, g, b) := c in 0 <= r < 256 /\ 0 <= g < 256 /\ 0 <= b < 256.

Lemma round_bits_range bits f : 0 <= bits -> 0 <= round_bits bits f < 2 ^ bits.
Proof.
  intros Hb. assert (0 < 2 ^ bits) by (apply Z.pow_pos_nonneg; lia). unfold round_bits. destruct (_ && _); [|lia].
  by apply Z.mod_pos_bound.
Qed.

Lemma floatToByte_range f : 0 <= floatToByte f < 256.
Proof.
  unfold floatToByte. destruct (SFltb f f0); [lia|]. destruct (SFltb f1 f); [lia|]. by apply (round_bits_range 8).
Qed.

(** Whatever the light reports, the colour is three bytes. *)
Lemma XYToRGB_bytes Pow xy : is_byte_triple (XYToRGB Pow xy).
Proof.
  unfold XYToRGB. destruct (SFltb (Y xy) eps); [cbn; lia|]. cbv zeta.
  destruct (if SFltb _ _ then _ else _) as [[rl gl] bl]. cbn. repeat split; apply floatToByte_range.
Qed.

Lemma HSVToRGB_bytes hsv : is_byte_triple (HSVToRGB hsv).
Proof.
  unfold HSVToRGB. destruct hsv as [[h s] v]. cbv zeta. destruct (if SFltb _ (float_of_Z 60) then _ else _) as [[rf gf] bf].
  cbn. repeat split; apply floatToByte_range.
Qed.

(** The projection is the point itself or a point of an edge. *)
Lemma ClampToGamut_cases xy g :
  ClampToGamut xy g ∈ [xy; closestOnSegment xy (Red g) (Green g); closestOnSegment xy (Green g) (Blue g); closestOnSegment xy (Blue g) (Red g)].
Proof.
  unfold ClampToGamut. destruct (_ && _); [left|]. destruct (pointInTriangle _ _ _ _); [left|].
  cbv zeta. destruct (SFltb (distSq xy (closestOnSegment xy (Green g) (Blue g))) _); destruct (SFltb _ _); set_solver.
Qed.

Lemma ClampToGamut_none xy : ClampToGamut xy no_gamut = xy.
Proof. done. Qed.

(** The colours with one hue at full saturation, and grey. *)
Definition pure_colours (v : Z) : list (Z * Z * Z) :=
  [(v, v, v); (v, 0, 0); (v, v, 0); (0, v, 0); (0, v, v); (0, 0, v); (v, 0, v)].
Definition hsv_keeps (c : Z * Z * Z) : bool :=
  let '(r, g, b) := c in let '(r', g', b') := HSVToRGB (RGBToHSV c) in (r =? r') && (g =? g') && (b =? b').

Lemma hsv_keeps_all : forallb (fun v => forallb hsv_keeps (pure_colours v)) (Z.of_nat <$> seq 0 256) = true.
Proof. vm_compute. reflexivity. Qed.

(** Grey and the six pure hues, at every intensity, survive the conversion to hue,
    saturation and value and back, in the rounding of doubles. *)
Theorem hsv_roundtrip v c : 0 <= v < 256 -> c ∈ pure_colours v -> HSVToRGB (RGBToHSV c) = c.
Proof.
  intros Hv Hc. pose proof hsv_keeps_all as H. rewrite forallb_forall in H.
  assert (In v (Z.of_nat <$> seq 0 256)) as Hin.
  { apply list_elem_of_In, list_elem_of_fmap. exists (Z.to_nat v). split; [lia|]. apply elem_of_seq. lia. }
  specialize (H v Hin). rewrite forallb_forall in H. apply list_elem_of_In, H in Hc.
  destruct c as [[r g] b]. unfold hsv_keeps in Hc. destruct (HSVToRGB _) as [[r' g'] b'].
  rewrite !andb_true_iff, !Z.eqb_eq in Hc. by destruct Hc as [[-> ->] ->].
Qed.

Lemma hsv_roundtrip_witness : HSVToRGB (RGBToHSV (0, 200, 200)) = (0, 200, 200).
Proof. apply (hsv_roundtrip 200); [lia|]. cbn. set_solver. Defined.
