(* ===== verification/HueBridge.v ===== *)
(** * The client of a Hue bridge

    Models [drivers/hue/internal/bridge]: the resources ([types.go]), requests with the
    count of rejected keys ([client.go]), the join that finds which lights are reachable
    ([devices.go]) and the event stream ([events.go]). What the bridge answers, the
    clock and the decoding of JSON are arguments; the rate limiter is a library, of
    which only a refusal is seen.

    [auth_window_exact]: a key counts as revoked after three rejections in a minute.
    [ListDevices_exact]: which status each light gets; [second_light_unlisted]: a device
    with two lights lists one. [stream_never_revoked]: the event stream does not take
    part in the count. *)

From Stdlib Require Import Ascii String.
From S2P Require Import Prelude Codec Colorconv.

(** ** Resources *)

Record ResourceRef := mkRef { RID : string; RType : string }.
Record Color := mkColor { co_XY : XY; co_Gamut : Gamut }.

(** A block that may be missing is an option; [ColorTemperature] holds the pointer [Mirek]. *)
Record Light := mkLight {
  l_ID : string; l_Owner : ResourceRef; l_Name : string; l_On : bool;
  l_Dimming : option double; l_ColorTemperature : option (option Z); l_Color : option Color;
}.

Record LightUpdate := mkUpdate {
  u_On : option bool; u_Dimming : option double; u_ColorTemperature : option (option Z); u_Color : option XY; u_Dynamics : option Z;
}.
Definition no_update : LightUpdate := mkUpdate None None None None None.

Record Event := mkEvent {
  ev_ID : string; ev_Type : string; ev_On : option bool; ev_Dimming : option double; ev_ColorTemperature : option (option Z);
  ev_Color : option Color; ev_Status : string; ev_Owner : option ResourceRef;
}.
(** [Event{}]. *)
Definition no_event : Event := mkEvent "" "" None None None None "" None.

Record Device := mkDevice { dv_ID : string; dv_Services : list ResourceRef }.
Record ZigbeeConnectivity := mkZC { zc_Owner : ResourceRef; zc_Status : string }.

(** The three list responses: the descriptions of the errors, and the data. *)
Record envelope (A : Type) := mkEnvelope { env_Errors : list string; env_Data : list A }.
Arguments mkEnvelope {A}. Arguments env_Errors {A}. Arguments env_Data {A}.

(** An error: its text, and whether it wraps [ErrAuthRevoked]. *)
Record error := mkError { e_text : string; e_revoked : bool }.
Definition plain (text : string) : error := mkError text false.
Definition ErrAuthRevoked : error := mkError "hue: api key rejected by bridge (re-pair required)" true.
(** [fmt.Errorf] with [%w] after a prefix. *)
Definition wrap (prefix : string) (e : error) : error := mkError (prefix +:+ e_text e) (e_revoked e).

(** ** Requests *)

Definition authFailureThreshold : Z := 3.
Definition authFailureWindow : Z := 60 * Second.

(** The live failures at [now]. *)
Definition live (now : Z) (timestamps : list Z) : list Z := filter (fun ts => now - authFailureWindow < ts) timestamps.

Definition record_failure (now : Z) (timestamps : list Z) : list Z := live now (timestamps ++ [now]).
Definition revoked (now : Z) (timestamps : list Z) : bool := authFailureThreshold <=? Z.of_nat (length (live now timestamps)).

Definition New (address apiKey : string) : result error string :=
  if is_empty address then Err (plain "bridge address is required")
  else if is_empty apiKey then Err (plain "api key is required")
  else Ok ("https://" +:+ address).

Inductive reply := Refused (msg : string) | Response (status : Z) (body : string).

(** One request: a refusal of the limiter, the clock before and after, the reply. *)
Record exchange := mkExchange { x_limit : option string; x_before : Z; x_after : Z; x_reply : reply }.

Definition do (x : exchange) (timestamps : list Z) : list Z * result error (Z * string) :=
  match x_limit x with
  | Some msg => (timestamps, Err (plain msg))
  | None =>
      if revoked (x_before x) timestamps then (timestamps, Err ErrAuthRevoked)
      else
        match x_reply x with
        | Refused msg => (timestamps, Err (plain msg))
        | Response status body => (if status =? 401 then record_failure (x_after x) timestamps else timestamps, Ok (status, body))
        end
  end.

Definition success (status : Z) : bool := Z.quot status 100 =? 2.
Definition status_text (status : Z) (body : string) : string := ": status " +:+ pretty status +:+ ": " +:+ body.

Definition getJSON {A} (decode : string -> result string A) (path : string) (x : exchange) (timestamps : list Z) : list Z * result error A :=
  let '(timestamps, r) := do x timestamps in
  (timestamps,
   match r with
   | Err e => Err e
   | Ok (status, body) =>
       if negb (success status) then Err (plain ("hue: " +:+ path +:+ status_text status body))
       else match decode body with Ok v => Ok v | Err msg => Err (plain msg) end
   end).

Definition SetLight (id : string) (x : exchange) (timestamps : list Z) : list Z * option error :=
  let '(timestamps, r) := do x timestamps in
  (timestamps,
   match r with
   | Err e => Some e
   | Ok (status, body) => if success status then None else Some (plain ("hue: set light " +:+ id +:+ status_text status body))
   end).

(** The data of a list response under the [name] of its errors. *)
Definition list_data {A} (name : string) (r : result error (envelope A)) : result error (list A) :=
  match r with
  | Err e => Err (wrap ("hue: list " +:+ name +:+ ": ") e)
  | Ok env =>
      match env_Errors env with
      | description :: _ => Err (plain ("hue: list " +:+ name +:+ ": " +:+ description))
      | [] => Ok (env_Data env)
      end
  end.

Definition ListLights (decode : string -> result string (envelope Light)) (x : exchange) (timestamps : list Z) :
    list Z * result error (list Light) :=
  let '(timestamps, r) := getJSON decode "/clip/v2/resource/light" x timestamps in (timestamps, list_data "lights" r).

(** ** Reachability *)

Definition deviceStatus (zcs : list ZigbeeConnectivity) : gmap string string :=
  foldl (fun m zc => <[RID (zc_Owner zc) := zc_Status zc]> m) ∅ zcs.

(** The first service that is a light. *)
Definition light_of (d : Device) : string :=
  match list_find (fun s => RType s = "light") (dv_Services d) with Some (_, s) => RID s | None => "" end.

Definition join (status : gmap string string) (devices : list Device) : gmap string string :=
  foldl (fun m d => if is_empty (light_of d) then m else <[light_of d := default "" (status !! dv_ID d)]> m) ∅ devices.

Definition ListDevices (decode_devices : string -> result string (envelope Device))
    (decode_zcs : string -> result string (envelope ZigbeeConnectivity)) (x1 x2 : exchange) (timestamps : list Z) :
    list Z * result error (gmap string string) :=
  let '(timestamps, r1) := getJSON decode_devices "/clip/v2/resource/device" x1 timestamps in
  match list_data "devices" r1 with
  | Err e => (timestamps, Err e)
  | Ok devices =>
      let '(timestamps, r2) := getJSON decode_zcs "/clip/v2/resource/zigbee_connectivity" x2 timestamps in
      (timestamps,
       match list_data "zigbee_connectivity" r2 with
       | Err e => Err e
       | Ok zcs => Ok (join (deviceStatus zcs) devices)
       end)
  end.

(** ** The event stream *)

Definition drop_cr (line : list ascii) : list ascii := match line with c :: rest => if Ascii.eqb c "013" then rest else line | [] => [] end.
(** The line that was read backwards. *)
Definition text_of (cur : list ascii) : string := string_of_list_ascii (reverse (drop_cr cur)).

(** [bufio.Scanner] over the body with a buffer of [max] bytes: a line that does not
    fit ends the stream. *)
Fixpoint Scan (max : Z) (cur : list ascii) (body : string) : list string :=
  let fits := Z.of_nat (length cur) <? max in
  match body with
  | "" => match cur with [] => [] | _ => if fits then [text_of cur] else [] end
  | String c rest =>
      if Ascii.eqb c "010" then if fits then text_of cur :: Scan max [] rest else [] else Scan max (c :: cur) rest
  end.

Record sseEnvelope := mkSSE { se_Type : string; se_Data : list Event }.

Definition relevant (ev : Event) : bool := String.eqb (ev_Type ev) "light" || String.eqb (ev_Type ev) "zigbee_connectivity".

Section Events.
(** [json.Unmarshal] into [[]sseEnvelope]. *)
Context (unmarshal : string -> option (list sseEnvelope)).

Definition line_events (line : string) : list Event :=
  if String.prefix "data: " line then
    match unmarshal (trim_prefix line "data: ") with
    | None => []
    | Some envs => envs ≫= fun env => if String.eqb (se_Type env) "update" then List.filter relevant (se_Data env) else []
    end
  else [].

(** What [Events] puts on its channel until the stream ends. *)
Definition Events (r : reply) : result error (list Event) :=
  match r with
  | Refused msg => Err (plain msg)
  | Response status body =>
      if success status then Ok (Scan (2 ^ 20) [] body ≫= line_events) else Err (plain ("hue: events" +:+ status_text status body))
  end.
End Events.

(** ** The count of rejections *)

Lemma live_live now now' l : now <= now' -> live now' (live now l) = live now' l.
Proof.
  intros Hn. unfold live. rewrite list_filter_filter. apply list_filter_iff. intros ts. unfold authFailureWindow. lia.
Qed.

Lemma live_app now l l' : live now (l ++ l') = live now l ++ live now l'.
Proof. apply filter_app. Qed.

Lemma recorded_live now failures :
  Forall (fun t => t <= now) failures -> live now (foldl (fun l t => record_failure t l) [] failures) = live now failures.
Proof.
  induction failures as [|t l IH] using rev_ind; [done|]. intros [Hl [Ht _]%Forall_cons]%Forall_app. rewrite foldl_app. cbn [foldl].
  unfold record_failure at 1. by rewrite live_live, !live_app, IH.
Qed.

(** A key is taken for revoked exactly when the bridge rejected it three times or
    more in the last minute: forgetting old rejections as new ones are recorded loses
    none that counts. *)
Theorem auth_window_exact now failures :
  Forall (fun t => t <= now) failures ->
  revoked now (foldl (fun l t => record_failure t l) [] failures) = true <->
    3 <= Z.of_nat (length (filter (fun t => now - 60 * Second < t) failures)).
Proof. intros Hf. unfold revoked. rewrite recorded_live by done. apply Z.leb_le. Qed.

(** Once three rejections are live, no request goes out; and the text of the error is
    not that of a response. *)
Lemma revoked_stops x l : x_limit x = None -> revoked (x_before x) l = true -> do x l = (l, Err ErrAuthRevoked).
Proof. intros Hx Hr. unfold do. by rewrite Hx, Hr. Qed.

(** The event stream goes past [do]: a rejected key is no [ErrAuthRevoked] there, and
    is not counted. *)
Theorem stream_never_revoked unmarshal r e : Events unmarshal r = Err e -> e_revoked e = false.
Proof. unfold Events. destruct r as [msg|status body]; [by intros [= <-]|]. destruct (success status); [done|]. by intros [= <-]. Qed.

(** ** The join *)

(** The last entry decides. *)
Lemma join_spec status devices lid st :
  join status devices !! lid = Some st <->
    lid <> "" /\ exists before d after, devices = before ++ d :: after /\ light_of d = lid /\
      Forall (fun d' => light_of d' <> lid) after /\ st = default "" (status !! dv_ID d).
Proof.
  unfold join. induction devices as [|x l IH] using rev_ind.
  - cbn [foldl]. split; [by rewrite lookup_empty|]. intros (_ & before & d & after & Hnil & _). by destruct before.
  - rewrite foldl_app. cbn [foldl]. destruct (is_empty (light_of x)) eqn:He.
    + assert (light_of x = "") as Hx by (by destruct (light_of x)). rewrite IH. split; intros [Hl (before & d & after & Hd & Hdl & Ha & Hs)]; (split; [done|]).
      * exists before, d, (after ++ [x]). split_and!; [by rewrite Hd, <- app_assoc|done| |done]. apply Forall_app. split; [done|].
        constructor; [by rewrite Hx|constructor].
      * destruct after as [|y after _] using rev_ind.
        { apply app_inj_tail in Hd as [_ <-]. congruence. }
        exists before, d, after. rewrite app_comm_cons, app_assoc in Hd. apply app_inj_tail in Hd as [-> _]. apply Forall_app in Ha as [Ha _]. done.
    + assert (light_of x <> "") as Hx by (intros Hx; by rewrite Hx in He). rewrite lookup_insert_Some, IH. split.
      * intros [[<- <-]|[Hne [Hl (before & d & after & Hd & Hdl & Ha & Hs)]]].
        -- split; [done|]. exists l, x, []. done.
        -- split; [done|]. exists before, d, (after ++ [x]). split_and!; [by rewrite Hd, <- app_assoc|done| |done].
           apply Forall_app. split; [done|]. by repeat constructor.
      * intros [Hl (before & d & after & Hd & Hdl & Ha & Hs)]. destruct after as [|y after _] using rev_ind.
        -- apply app_inj_tail in Hd as [_ <-]. left. done.
        -- rewrite app_comm_cons, app_assoc in Hd. apply app_inj_tail in Hd as [-> <-]. apply Forall_app in Ha as [Ha [Hy _]%Forall_cons].
           right. split; [done|]. split; [done|]. by exists before, d, after.
Qed.

(** The statuses when both requests succeed: a light that is the first light of a
    device has the connectivity of the last such device, empty when the bridge reports
    none; the other lights have no status. *)
Theorem ListDevices_exact decode_devices decode_zcs x1 x2 l l1 l2 r1 r2 devices zcs :
  getJSON decode_devices "/clip/v2/resource/device" x1 l = (l1, r1) -> list_data "devices" r1 = Ok devices ->
  getJSON decode_zcs "/clip/v2/resource/zigbee_connectivity" x2 l1 = (l2, r2) -> list_data "zigbee_connectivity" r2 = Ok zcs ->
  exists statuses, ListDevices decode_devices decode_zcs x1 x2 l = (l2, Ok statuses) /\ forall lid st,
    statuses !! lid = Some st <->
      lid <> "" /\ exists before d after, devices = before ++ d :: after /\ light_of d = lid /\
        Forall (fun d' => light_of d' <> lid) after /\ st = default "" (deviceStatus zcs !! dv_ID d).
Proof.
  intros H1 Hd H2 Hz. exists (join (deviceStatus zcs) devices). split; [|intros lid st; apply join_spec].
  unfold ListDevices. by rewrite H1, Hd, H2, Hz.
Qed.

(** Of a device with two lights the second gets no status, whatever the bridge
    reports about the device. *)
Theorem second_light_unlisted status id l1 l2 :
  l1 <> "" -> l1 <> l2 -> join status [mkDevice id [mkRef l1 "light"; mkRef l2 "light"]] !! l2 = None.
Proof.
  intros Hl1 Hne. apply eq_None_not_Some. intros [st Hst]. apply join_spec in Hst as (_ & before & d & after & Hd & Hl & _).
  destruct before as [|y before]; [|by destruct before]. injection Hd as <- _. by unfold light_of in Hl.
Qed.

Module BridgeDemo.

Lemma auth_window_exact_witness :
  Forall (fun t => t <= 90 * Second) [20 * Second; 40 * Second; 50 * Second; 85 * Second] /\
  (revoked (90 * Second) (foldl (fun l t => record_failure t l) [] [20 * Second; 40 * Second; 50 * Second; 85 * Second]) = true <->
     3 <= Z.of_nat (length (filter (fun t => 90 * Second - 60 * Second < t) [20 * Second; 40 * Second; 50 * Second; 85 * Second]))).
Proof.
  assert (Forall (fun t => t <= 90 * Second) [20 * Second; 40 * Second; 50 * Second; 85 * Second]) as H by (repeat constructor; vm_compute; done).
  split; [exact H|]. by apply auth_window_exact.
Defined.

(** The comment line and the malformed frame are skipped. *)
Definition demo_unmarshal (s : string) : option (list sseEnvelope) :=
  if String.eqb s "[on]" then Some [mkSSE "update" [mkEvent "l1" "light" (Some true) None None None "" None; mkEvent "b" "button" None None None None "" None]]
  else None.
Example events_demo :
  Events demo_unmarshal (Response 200 (": hi" +:+ String "013" (String "010" ("data: oops" +:+ String "010" ("data: [on]" +:+ String "010" ""))))) =
    Ok [mkEvent "l1" "light" (Some true) None None None "" None].
Proof. vm_compute. reflexivity. Qed.

End BridgeDemo.
