(* ===== verification/Hue.v ===== *)
(** * The Hue driver

    Models [drivers/hue]: the mapping of lights and commands ([internal/state/mapping.go],
    [color.go], [capabilities.go]) and the process in [cmd/hue-driver/main.go] with its
    state cache, over a driver of [DriverKit] and the bridge of [HueBridge]. [hue_step] runs
    a handler as a whole; [par_step] interleaves the handlers of events and commands at
    their locks, and still takes a resync as a whole. The order in which Go ranges over a
    map is an argument.

    [resync_exact]: after a resync the entities are the lights of the bridge, with their
    reported states, also when handlers overlapped before. [cache_is_driver]: one handler
    at a time, the cache holds what the driver tracks; [HueDemo.event_in_command_diverges]: else not.
    [brightness_survives], [command_echo]: a command and the event that confirms it
    agree; [set_color_shows_old]: except for colours. [removed_under_command_panics],
    [outage_of_devices_hides_bulbs]: two more ways in which it fails. *)

From Stdlib Require Import Ascii String SpecFloat.
From S2P Require Import Prelude Codec Json Events EventStore StateCache Registry Carport Dispatch DriverKit ConfigDecode Z2m Colorconv HueBridge.

(** ** Lights *)

Definition prefix8 (id : string) : string := if (8 <? String.length id)%nat then String.substring 0 8 id else id.
Definition EntityID (hueID : string) : string := "light.hue_" +:+ prefix8 hueID.

Definition Capabilities (l : Light) : list string :=
  ["turn_on"; "turn_off"] ++ (if l_Dimming l then ["set_brightness"] else []) ++
  (if l_ColorTemperature l then ["set_color_temp"] else []) ++ (if l_Color l then ["set_color"] else []).

(** [entityv1.Light]. *)
Record LightState := mkState { st_On : bool; st_Brightness : Z; st_ColorTemp : Z; st_ColorRgb : Z }.
Definition no_state : LightState := mkState false 0 0 0.
Definition attrs_of (st : LightState) (available : bool) : Attributes :=
  mkAttributes (Some (Attributes_Light (st_On st) (st_Brightness st) (st_ColorTemp st) (st_ColorRgb st))) available.

Definition brightnessHueToSwitchyard (h : double) : Z :=
  let h := if SFltb h f0 then f0 else h in
  let h := if SFltb (float_of_Z 100) h then float_of_Z 100 else h in
  round_bits 32 (fdiv (fmul h (float_of_Z 255)) (float_of_Z 100)).

(** *** Commands *)

Definition hex_value (c : ascii) : Z :=
  let n := Z.of_N (N_of_ascii c) in if n <? 58 then n - 48 else if n <? 71 then n - 55 else n - 87.
(** [strconv.ParseUint] of hexadecimal digits that fit. *)
Fixpoint hex_number (s : string) (acc : Z) : Z := match s with "" => acc | String c s => hex_number s (acc * 16 + hex_value c) end.

Definition parseHex (s : string) : result string (Z * Z * Z) :=
  let s := trim_prefix s "#" in
  if negb (String.length s =? 6)%nat then Err ("hex must be 6 chars (with optional leading #), got " +:+ quoted s)
  else if negb (all_hex s) then Err ("hex parse: strconv.ParseUint: parsing " +:+ quoted s +:+ ": invalid syntax")
  else let v := hex_number s 0 in Ok (Z.shiftr v 16 mod 256, Z.shiftr v 8 mod 256, v mod 256).

Definition ParseColor (args : string_map) : result string (Z * Z * Z) :=
  match args !! "hex" with
  | Some hex => parseHex hex
  | None =>
      match args !! "r", args !! "g", args !! "b" with
      | None, None, None => Err "set_color: provide hex=#RRGGBB or r/g/b"
      | Some rs, Some gs, Some bs => r ← parseByte rs "r"; g ← parseByte gs "g"; b ← parseByte bs "b"; Ok (r, g, b)
      | _, _, _ => Err "set_color: r, g, and b must all be set"
      end
  end.

Definition parseDuration (args : string_map) : result string Z :=
  match args !! "duration_ms" with
  | None => Ok 0
  | Some raw =>
      match parse_in 0 6000000 raw with
      | Some v => Ok v
      | None => Err ("duration_ms must be integer 0-6000000, got " +:+ quoted raw)
      end
  end.

(** [float64(v) * 100 / 255]. *)
Definition percent (v : Z) : double := fdiv (fmul (float_of_Z v) (float_of_Z 100)) (float_of_Z 255).

Section Mapping.
Context (Pow : double -> double -> double).

Definition colorToRgb (xy : XY) : Z := PackRGB (XYToRGB Pow xy).

Definition LightToState (l : Light) : LightState :=
  let brightness := match l_Dimming l with Some h => brightnessHueToSwitchyard h | None => 0 end in
  match l_Color l, l_ColorTemperature l with
  | Some c, _ => mkState (l_On l) brightness 0 (colorToRgb (co_XY c))
  | None, Some (Some mirek) => mkState (l_On l) brightness mirek 0
  | None, _ => mkState (l_On l) brightness 0 0
  end.
Definition LightToAttrs (l : Light) (available : bool) : Attributes := attrs_of (LightToState l) available.

Definition merge_state (prev : LightState) (ev : Event) : LightState :=
  let on := default (st_On prev) (ev_On ev) in
  let brightness := match ev_Dimming ev with Some h => brightnessHueToSwitchyard h | None => st_Brightness prev end in
  match ev_Color ev, ev_ColorTemperature ev with
  | Some c, _ => mkState on brightness 0 (colorToRgb (co_XY c))
  | None, Some (Some mirek) => mkState on brightness mirek 0
  | None, _ => mkState on brightness (st_ColorTemp prev) (st_ColorRgb prev)
  end.
Definition MergeEvent (prev : LightState) (ev : Event) (available : bool) : Attributes := attrs_of (merge_state prev ev) available.

Definition CommandToUpdate (capability : string) (args : string_map) (gamut : Gamut) : result string LightUpdate :=
  dur ← parseDuration args;
  let dynamics := if 0 <? dur then Some dur else None in
  if String.eqb capability "turn_on" then Ok (mkUpdate (Some true) None None None dynamics)
  else if String.eqb capability "turn_off" then Ok (mkUpdate (Some false) None None None dynamics)
  else if String.eqb capability "set_brightness" then
    match args !! "brightness" with
    | None => Err "set_brightness: missing brightness arg"
    | Some raw =>
        match parse_in 0 255 raw with
        | None => Err ("set_brightness: brightness must be integer 0-255, got " +:+ quoted raw)
        | Some v => Ok (if v =? 0 then mkUpdate (Some false) None None None dynamics
                        else mkUpdate (Some true) (Some (percent v)) None None dynamics)
        end
    end
  else if String.eqb capability "set_color_temp" then
    match args !! "color_temp" with
    | None => Err "set_color_temp: missing color_temp arg"
    | Some raw =>
        match parse_in 153 500 raw with
        | None => Err ("set_color_temp: color_temp must be integer 153-500 mireds, got " +:+ quoted raw)
        | Some v => Ok (mkUpdate (Some true) None (Some (Some v)) None dynamics)
        end
    end
  else if String.eqb capability "set_color" then
    match ParseColor args with
    | Err e => Err ("set_color: " +:+ e)
    | Ok c => Ok (mkUpdate (Some true) None None (Some (ClampToGamut (RGBToXY Pow c) gamut)) dynamics)
    end
  else Err ("unknown capability " +:+ quoted capability).

(** ** The process *)

Record reachabilityTracker := mkReach { rt_consecFails : Z; rt_announced : bool }.

Record stateCache := mkCache {
  c_byEntID : gmap string LightState; c_available : gmap string bool; c_hueToID : gmap string string;
  c_deviceToID : gmap string string; c_gamuts : gmap string Gamut; c_reach : reachabilityTracker;
}.
Definition newStateCache : stateCache := mkCache ∅ ∅ ∅ ∅ ∅ (mkReach 0 false).

(** The driver with its cache; per entity the light that its capability handlers
    captured; and the updates the bridge accepted. *)
Record Hue := mkHue { h_d : Driver; h_cache : stateCache; h_captured : gmap string string; h_set : list (string * LightUpdate) }.
Definition newHue : Hue := mkHue (DriverKit.New "driver.hue" "0.1.0") newStateCache ∅ [].

Definition with_hd (d : Driver) (h : Hue) : Hue := mkHue d (h_cache h) (h_captured h) (h_set h).
Definition with_cache (c : stateCache) (h : Hue) : Hue := mkHue (h_d h) c (h_captured h) (h_set h).
Definition put_state (id : string) (st : LightState) (c : stateCache) : stateCache :=
  mkCache (<[id := st]> (c_byEntID c)) (c_available c) (c_hueToID c) (c_deviceToID c) (c_gamuts c) (c_reach c).
Definition put_available (id : string) (available : bool) (c : stateCache) : stateCache :=
  mkCache (c_byEntID c) (<[id := available]> (c_available c)) (c_hueToID c) (c_deviceToID c) (c_gamuts c) (c_reach c).
Definition put_gamut (id : string) (l : Light) (c : stateCache) : stateCache :=
  mkCache (c_byEntID c) (c_available c) (c_hueToID c) (c_deviceToID c)
    (match l_Color l with Some co => <[id := co_Gamut co]> (c_gamuts c) | None => c_gamuts c end) (c_reach c).

Definition emit_event (kind detail : string) (h : Hue) : Hue := with_hd (EmitDriverEvent kind detail (h_d h)).1 h.

(** [record], where the error is given by its text. *)
Definition record (err : option string) (h : Hue) : Hue :=
  let c := h_cache h in let t := c_reach c in
  let put t h := with_cache (mkCache (c_byEntID c) (c_available c) (c_hueToID c) (c_deviceToID c) (c_gamuts c) t) h in
  match err with
  | None => put (mkReach 0 false) (if rt_announced t then emit_event "bridge_recovered" "" h else h)
  | Some msg =>
      let n := rt_consecFails t + 1 in
      if (3 <=? n) && negb (rt_announced t) then put (mkReach n true) (emit_event "bridge_unreachable" msg h)
      else put (mkReach n (rt_announced t)) h
  end.

Definition spec_of (l : Light) (available : bool) : EntitySpec :=
  mkEntitySpec "light" (l_Name l) (Capabilities l) (Some (LightToAttrs l available)).

Definition cache_bulb (l : Light) (available : bool) (c : stateCache) : stateCache :=
  let id := EntityID (l_ID l) in
  let c := put_gamut id l (put_available id available (put_state id (LightToState l) c)) in
  mkCache (c_byEntID c) (c_available c) (<[l_ID l := id]> (c_hueToID c))
    (if is_empty (RID (l_Owner l)) then c_deviceToID c else <[RID (l_Owner l) := id]> (c_deviceToID c)) (c_gamuts c) (c_reach c).

Definition registerBulb (l : Light) (available : bool) (h : Hue) : Hue * option driver_error :=
  let id := EntityID (l_ID l) in
  match AddEntity id (spec_of l available) (h_d h) with
  | (_, Some e) => (h, Some e)
  | (d, None) =>
      (mkHue (on_capabilities id (Capabilities l) d) (cache_bulb l available (h_cache h)) (<[id := l_ID l]> (h_captured h)) (h_set h), None)
  end.

Inductive build_error := ListFailed (e : error) | RegisterFailed (id : string) (e : driver_error).

Fixpoint registerAll (statuses : gmap string string) (lights : list Light) (h : Hue) : result build_error Hue :=
  match lights with
  | [] => Ok h
  | l :: rest =>
      match registerBulb l (bool_decide (statuses !! l_ID l = Some "connected")) h with
      | (_, Some e) => Err (RegisterFailed (EntityID (l_ID l)) e)
      | (h, None) => registerAll statuses rest h
      end
  end.

(** The two listings: of the lights, and of their statuses. *)
Definition statuses_of (r : result error (gmap string string)) : gmap string string := match r with Ok m => m | Err _ => ∅ end.

Definition buildDriver (lights : result error (list Light)) (statuses : result error (gmap string string)) : result build_error Hue :=
  match lights with
  | Err e => Err (ListFailed (wrap "list lights: " e))
  | Ok lights => registerAll (statuses_of statuses) lights newHue
  end.

(** *** Commands and events *)

(** The event a command stands for; the colour is left out. *)
Definition update_event (u : LightUpdate) : Event := mkEvent "" "" (u_On u) (u_Dimming u) (u_ColorTemperature u) None "" None.

(** The merge under the lock, as three handlers have it. *)
Definition merge_into (id : string) (ev : Event) (c : stateCache) : stateCache * Attributes :=
  let st := merge_state (default no_state (c_byEntID c !! id)) ev in
  (put_state id st c, attrs_of st (default false (c_available c !! id))).

(** The answer of the bridge to [SetLight]: an error's text. *)
Definition handleCommand (set_light : option string) (hueID id capability : string) (args : string_map) (h : Hue) :
    Hue * result string (option Attributes) :=
  match CommandToUpdate capability args (default no_gamut (c_gamuts (h_cache h) !! id)) with
  | Err e => (h, Err e)
  | Ok update =>
      match set_light with
      | Some e => (h, Err e)
      | None =>
          let '(c, merged) := merge_into id (update_event update) (h_cache h) in
          (mkHue (h_d h) c (h_captured h) (h_set h ++ [(hueID, update)]), Ok (Some merged))
      end
  end.

Definition emit_state (id : string) (a : Attributes) (h : Hue) : Hue := with_hd (EmitState id a (h_d h)).1 h.

(** The critical sections of the two handlers: the new cache, and the state that is left
    to emit when the lock is released. *)
Definition light_merge (ev : Event) (c : stateCache) : option (stateCache * (string * Attributes)) :=
  id ← c_hueToID c !! ev_ID ev; let '(c, merged) := merge_into id ev c in Some (c, (id, merged)).
Definition connectivity_merge (ev : Event) (c : stateCache) : option (stateCache * (string * Attributes)) :=
  owner ← ev_Owner ev;
  id ← c_deviceToID c !! RID owner;
  let '(c, merged) := merge_into id no_event (put_available id (String.eqb (ev_Status ev) "connected") c) in Some (c, (id, merged)).

(** A handler that nothing interrupts. *)
Definition emit_merged (r : option (stateCache * (string * Attributes))) (h : Hue) : Hue :=
  match r with None => h | Some (c, (id, merged)) => emit_state id merged (with_cache c h) end.
Definition applyLightEvent (ev : Event) (h : Hue) : Hue := emit_merged (light_merge ev (h_cache h)) h.
Definition applyConnectivityEvent (ev : Event) (h : Hue) : Hue := emit_merged (connectivity_merge ev (h_cache h)) h.

(** The loop of [streamOnce], one event: the part under the lock, and the whole. *)
Definition event_merge (ev : Event) (c : stateCache) : option (stateCache * (string * Attributes)) :=
  if String.eqb (ev_Type ev) "light" then light_merge ev c
  else if String.eqb (ev_Type ev) "zigbee_connectivity" then connectivity_merge ev c else None.
Definition apply_event (h : Hue) (ev : Event) : Hue :=
  if String.eqb (ev_Type ev) "light" then applyLightEvent ev h
  else if String.eqb (ev_Type ev) "zigbee_connectivity" then applyConnectivityEvent ev h else h.

Definition streamOnce (r : result error (list Event)) (h : Hue) : Hue * option error :=
  match r with Err e => (h, Some e) | Ok evs => (foldl apply_event h evs, None) end.

(** A command that arrives on the stream [s]. *)
Definition on_command (s : nat) (set_light : option string) (c : Command) (h : Hue) : Hue :=
  match OnCommand_lookup c (h_d h) with
  | Some r => with_hd (Send s (DH_Result r) (h_d h)).1 h
  | None =>
      let '(h, r) := handleCommand set_light (default "" (h_captured h !! cmd_entity c)) (cmd_entity c) (cmd_capability c) (cmd_args c) h in
      match Run_one s (HD_Command c r) (h_d h) with Done (d, _) => with_hd d h | Panic _ => h end
  end.

(** *** Resync *)

Definition refresh (id : string) (l : Light) (available : bool) (h : Hue) : Hue :=
  let c := put_gamut id l (put_available id available (put_state id (LightToState l) (h_cache h))) in
  emit_state id (LightToAttrs l available) (with_cache c h).

Definition resync_one (statuses : gmap string string) (h : Hue) (l : Light) : Hue :=
  let available := bool_decide (statuses !! l_ID l = Some "connected") in
  match c_hueToID (h_cache h) !! l_ID l with
  | None =>
      match registerBulb l available h with
      | (_, Some _) => h
      | (h, None) => emit_event "bulb_added" (EntityID (l_ID l)) h
      end
  | Some id => refresh id l available h
  end.

Record removal := mkRemoval { rm_hueID : string; rm_entityID : string; rm_deviceID : string }.

Definition forget (c : stateCache) (r : removal) : stateCache :=
  mkCache (delete (rm_entityID r) (c_byEntID c)) (delete (rm_entityID r) (c_available c)) (delete (rm_hueID r) (c_hueToID c))
    (if is_empty (rm_deviceID r) then c_deviceToID c else delete (rm_deviceID r) (c_deviceToID c)) (delete (rm_entityID r) (c_gamuts c)) (c_reach c).

Definition unregister (h : Hue) (r : removal) : Hue :=
  emit_event "bulb_removed" (rm_entityID r) (with_hd (UnregisterEntity (rm_entityID r) (h_d h)).1 h).

(** Go's orders of ranging over [hueToID], and over [deviceToID] for each removal. *)
Record orders := mkOrders {
  o_hue : list (string * string) -> list (string * string); o_device : string -> list (string * string) -> list (string * string);
}.
Definition fair_orders (o : orders) : Prop := (forall l, o_hue o l ≡ₚ l) /\ (forall hid l, o_device o hid l ≡ₚ l).

Definition device_of (o : orders) (c : stateCache) (hid id : string) : string :=
  match list_find (fun kv => kv.2 = id) (o_device o hid (map_to_list (c_deviceToID c))) with Some (_, kv) => kv.1 | None => "" end.

Definition removals (o : orders) (lights : list Light) (c : stateCache) : list removal :=
  (fun kv => mkRemoval kv.1 kv.2 (device_of o c kv.1 kv.2)) <$> filter (fun kv => kv.1 ∉ l_ID <$> lights) (o_hue o (map_to_list (c_hueToID c))).

Definition resync_lights (o : orders) (lights : list Light) (statuses : gmap string string) (h : Hue) : Hue :=
  let h := foldl (resync_one statuses) h lights in
  let removed := removals o lights (h_cache h) in
  foldl unregister (with_cache (foldl forget (h_cache h) removed) h) removed.

Definition resync (o : orders) (lights : result error (list Light)) (statuses : result error (gmap string string)) (h : Hue) : Hue * option error :=
  match lights with
  | Err e => (h, Some e)
  | Ok lights => (resync_lights o lights (statuses_of statuses) h, None)
  end.

(** A resync and its mark in the tracker: a tick of [periodicResync], the end of a turn of [runEventLoop]. *)
Definition resync_recorded (o : orders) (lights : result error (list Light)) (statuses : result error (gmap string string)) (h : Hue) : Hue :=
  let '(h, err) := resync o lights statuses h in record (e_text <$> err) h.

(** One turn of [runEventLoop] whose stream took [elapsed] nanoseconds: the process
    exits, or pauses and goes on with a new backoff. *)
Inductive turn := TurnExit (h : Hue) (code : Z) | TurnNext (h : Hue) (pause backoff : Z).

Definition loop_turn (elapsed backoff : Z) (stream : result error (list Event)) (o : orders)
    (lights : result error (list Light)) (statuses : result error (gmap string string)) (h : Hue) : turn :=
  let '(h, err) := streamOnce stream h in
  if match err with Some e => e_revoked e | None => false end then TurnExit (emit_event "auth_failed" "" h) 2
  else
    let '(pause, backoff) := RunConn_turn elapsed backoff in
    TurnNext (resync_recorded o lights statuses (emit_event "sse_reconnected" (pretty (Z.quot elapsed Millisecond) +:+ "ms") h)) pause backoff.

(** *** Startup *)

Fixpoint contains (sub s : string) : bool :=
  String.prefix sub s || match s with EmptyString => false | String _ s => contains sub s end.
Definition isAuthError (e : error) : bool := e_revoked e || contains "status 401" (e_text e).

Record config := mkConfig { cf_Address : string; cf_APIKeyEnv : string; cf_TLSSkipVerify : bool; cf_APIKey : string }.

(** [loadConfig]: the variable with the JSON value of its text. *)
Definition loadConfig (getenv : string -> string) (parse : string -> option json) : result string config :=
  let raw := getenv "SWITCHYARD_CARPORT_INSTANCE_CONFIG" in
  if is_empty raw then Err "SWITCHYARD_CARPORT_INSTANCE_CONFIG is required"
  else
    match
      j ← parse raw; m ← as_struct j; address ← get "" dec_string "bridge_address" m; env ← get "" dec_string "api_key_env" m;
      skip ← get_ptr dec_bool "tls_skip_verify" m; Some (address, env, skip)
    with
    | None => Err "parse instance config"
    | Some (address, env, skip) =>
        if is_empty address then Err "bridge_address is required"
        else if is_empty env then Err "api_key_env is required"
        else if is_empty (getenv env) then Err ("api_key_env " +:+ quoted env +:+ " is unset or empty")
        else Ok (mkConfig address env (default true skip) (getenv env))
    end.

Inductive startup := Exit (code : Z) | Running (h : Hue).

(** [main] up to the goroutines: the configuration, the first probe, and [buildDriver]. *)
Definition main_start (cfg : result string config) (probe : option error) (lights : result error (list Light))
    (statuses : result error (gmap string string)) : startup :=
  match cfg with
  | Err _ => Exit 1
  | Ok cfg =>
      match HueBridge.New (cf_Address cfg) (cf_APIKey cfg) with
      | Err _ => Exit 1
      | Ok _ =>
          if match probe with Some e => isAuthError e | None => false end then Exit 2
          else match buildDriver lights statuses with Err _ => Exit 1 | Ok h => Running h end
      end
  end.

End Mapping.

(** ** The cache and the driver *)

Definition one_mode (st : LightState) : Prop := st_ColorTemp st = 0 \/ st_ColorRgb st = 0.

(** What the cache knows about an entity. *)
Definition cached (h : Hue) (id : string) : option Attributes :=
  st ← c_byEntID (h_cache h) !! id; available ← c_available (h_cache h) !! id; Some (attrs_of st available).

(** The devices: named, each for an entity that there is, and no two for one. *)
Record devices_ok (m : gmap string string) (known : gset string) : Prop := mkDevicesOk {
  do_named : m !! "" = None;
  do_known : forall rid id, m !! rid = Some id -> id ∈ known;
  do_inj : forall rid rid' id, m !! rid = Some id -> m !! rid' = Some id -> rid = rid';
}.

(** What holds of the driver; when its handlers do not overlap ([strict]), the cached
    states are moreover those that the driver kit tracks. *)
Record hue_inv_at (strict : bool) (h : Hue) : Prop := mkInv {
  hi_tracks : strict = true -> forall id, (d_entities (h_d h) !! id ≫= en_attrs) = cached h id;
  hi_full : dom (d_entities (h_d h)) ⊆ dom (c_byEntID (h_cache h)) /\ dom (d_entities (h_d h)) ⊆ dom (c_available (h_cache h));
  hi_ids : forall hid id, c_hueToID (h_cache h) !! hid = Some id -> id = EntityID hid;
  hi_known : forall id, id ∈ dom (d_entities (h_d h)) <-> exists hid, c_hueToID (h_cache h) !! hid = Some id;
  hi_captured : forall hid id, c_hueToID (h_cache h) !! hid = Some id -> h_captured h !! id = Some hid;
  hi_mode : forall id st, c_byEntID (h_cache h) !! id = Some st -> one_mode st;
  hi_devices : devices_ok (c_deviceToID (h_cache h)) (dom (d_entities (h_d h)));
}.

Arguments hi_tracks {_} _ _.
Arguments hi_full {_} _ _.
Arguments hi_ids {_} _ _.
Arguments hi_known {_} _ _.
Arguments hi_captured {_} _ _.
Arguments hi_mode {_} _ _.
Arguments hi_devices {_} _ _.

Section Invariant.
Context {strict : bool}.
#[local] Abbreviation hue_inv := (hue_inv_at strict).

Lemma new_hue_inv : hue_inv newHue.
Proof.
  split; cbn; [intros _ id; by rewrite lookup_empty|by rewrite !dom_empty_L|intros ? ?; by rewrite lookup_empty|
    |intros ? ?; by rewrite lookup_empty|intros ? ?; by rewrite lookup_empty|split; intros *; by rewrite lookup_empty].
  intros id. split; [by rewrite dom_empty_L|]. intros [hid Hh]. by rewrite lookup_empty in Hh.
Qed.

(** A driver with the same entities is as good. *)
Lemma inv_with_d d h : d_entities d = d_entities (h_d h) -> hue_inv h -> hue_inv (with_hd d h).
Proof. intros Hd [H1 H2 H3 H4 H5 H6]. split; cbn; try rewrite Hd; done. Qed.

Lemma inv_event kind detail h : hue_inv h -> hue_inv (emit_event kind detail h).
Proof. apply inv_with_d, send_current_entities. Qed.

(** Two bulbs of the cache have two entities. *)
Lemma inv_inj h hid hid' id : hue_inv h -> c_hueToID (h_cache h) !! hid = Some id -> c_hueToID (h_cache h) !! hid' = Some id -> hid = hid'.
Proof. intros Hi H1%(hi_captured h Hi) H2%(hi_captured h Hi). congruence. Qed.

(** A state put into the cache and tracked by the driver. *)
Lemma inv_put c d id e st av h :
  hue_inv h -> d_entities (h_d h) !! id = Some e -> d_entities d = <[id := set_attrs (Some (attrs_of st av)) e]> (d_entities (h_d h)) -> one_mode st ->
  c_byEntID c = <[id := st]> (c_byEntID (h_cache h)) -> c_available c = <[id := av]> (c_available (h_cache h)) ->
  c_hueToID c = c_hueToID (h_cache h) -> c_deviceToID c = c_deviceToID (h_cache h) -> hue_inv (with_hd d (with_cache c h)).
Proof.
  intros [H1 [H2 H2'] H3 H4 H5 H6 H7] He Hd Hm Hb Ha Hh Hdv.
  assert (Hdom : dom (d_entities d) = dom (d_entities (h_d h))) by (rewrite Hd; apply dom_insert_lookup_L; by eexists).
  assert (Hin : id ∈ dom (d_entities (h_d h))) by (by eapply elem_of_dom_2).
  split; cbn.
  - intros Hstr id'. unfold cached. cbn. rewrite Hd, Hb, Ha. destruct (decide (id' = id)) as [->|Hne].
    + by rewrite !lookup_insert_eq.
    + rewrite !lookup_insert_ne by done. by apply H1.
  - rewrite Hb, Ha, Hdom, !dom_insert_L. set_solver.
  - by rewrite Hh.
  - by rewrite Hdom, Hh.
  - by rewrite Hh.
  - rewrite Hb. intros id' st' [[<- <-]|[_ Hs]]%lookup_insert_Some; [done|by eapply H6].
  - by rewrite Hdv, Hdom.
Qed.

Lemma inv_entity h hid id : hue_inv h -> c_hueToID (h_cache h) !! hid = Some id -> exists e, d_entities (h_d h) !! id = Some e.
Proof. intros Hi Hh. apply elem_of_dom, (hi_known h Hi). by exists hid. Qed.

Lemma inv_available h id e : hue_inv h -> d_entities (h_d h) !! id = Some e -> exists av, c_available (h_cache h) !! id = Some av.
Proof. intros Hi He. apply elem_of_dom, (proj2 (hi_full h Hi)). by eapply elem_of_dom_2. Qed.

Lemma emit_state_inv c id e st av h :
  hue_inv h -> d_entities (h_d h) !! id = Some e -> one_mode st ->
  c_byEntID c = <[id := st]> (c_byEntID (h_cache h)) -> c_available c = <[id := av]> (c_available (h_cache h)) ->
  c_hueToID c = c_hueToID (h_cache h) -> c_deviceToID c = c_deviceToID (h_cache h) ->
  hue_inv (emit_state id (attrs_of st av) (with_cache c h)).
Proof. intros Hi He Hm Hb Ha Hh Hdv. unfold emit_state. by eapply inv_put; [done..|apply EmitState_entities| | | | |]. Qed.

Section Driver.
Context (Pow : double -> double -> double).

Lemma merge_mode prev ev : one_mode prev -> one_mode (merge_state Pow prev ev).
Proof. unfold merge_state, one_mode. destruct (ev_Color ev); [auto|]. destruct (ev_ColorTemperature ev) as [[mirek|]|]; cbn; auto. Qed.
Lemma light_mode l : one_mode (LightToState Pow l).
Proof. unfold LightToState, one_mode. destruct (l_Color l); [auto|]. destruct (l_ColorTemperature l) as [[mirek|]|]; cbn; auto. Qed.

Lemma default_mode h id : hue_inv h -> one_mode (default no_state (c_byEntID (h_cache h) !! id)).
Proof. intros Hi. destruct (c_byEntID (h_cache h) !! id) as [st|] eqn:Hs; [by eapply (hi_mode h Hi)|by left]. Qed.

Lemma light_event_inv ev h : hue_inv h -> hue_inv (applyLightEvent Pow ev h).
Proof.
  intros Hi. unfold applyLightEvent, light_merge. destruct (c_hueToID (h_cache h) !! ev_ID ev) as [id|] eqn:Hid; [|done].
  destruct (inv_entity h _ _ Hi Hid) as [e He]. destruct (inv_available h _ _ Hi He) as [av Hav]. cbn. rewrite Hav. cbn.
  eapply emit_state_inv; [done|done| |done| |done|done]; [by apply merge_mode, default_mode|]. cbn. by rewrite insert_id.
Qed.

Lemma connectivity_inv ev h : hue_inv h -> hue_inv (applyConnectivityEvent Pow ev h).
Proof.
  intros Hi. unfold applyConnectivityEvent, connectivity_merge. destruct (ev_Owner ev) as [owner|]; [|done]. cbn [mbind option_bind].
  destruct (c_deviceToID (h_cache h) !! RID owner) as [id|] eqn:Hid; [|done]. cbn [mbind option_bind emit_merged].
  apply (do_known _ _ (hi_devices h Hi)), elem_of_dom in Hid as [e He]. cbn [merge_into]. unfold merge_into.
  assert (Hm := merge_mode _ no_event (default_mode h id Hi)). cbn [put_available c_byEntID c_available]. rewrite lookup_insert_eq. cbn [default].
  by eapply emit_state_inv.
Qed.

Lemma apply_event_inv ev h : hue_inv h -> hue_inv (apply_event Pow h ev).
Proof.
  intros Hi. unfold apply_event. destruct (String.eqb _ _); [by apply light_event_inv|].
  destruct (String.eqb _ _); [by apply connectivity_inv|done].
Qed.

Lemma inv_set x h : hue_inv h -> hue_inv (mkHue (h_d h) (h_cache h) (h_captured h) x).
Proof. intros [H1 H2 H3 H4 H5 H6 H7]. by split. Qed.

Lemma handler_exists c d : OnCommand_lookup c d = None -> exists e, d_entities d !! cmd_entity c = Some e.
Proof. unfold OnCommand_lookup. destruct (d_entities d !! cmd_entity c) as [e|]; [by eexists|done]. Qed.

Lemma Run_one_error s c d msg :
  OnCommand_lookup c d = None -> exists d', Run_one s (HD_Command c (Err msg)) d = Done (d', (Send s (DH_Result (mkCommandResult (cmd_id c) false msg)) d).2) /\
    d_entities d' = d_entities d.
Proof.
  intros Hl. cbn [Run_one]. unfold OnCommand. rewrite Hl. cbn. destruct (Send s _ d) as [d' err] eqn:Hs. exists d'. split; [done|].
  by rewrite <- (Send_entities s (DH_Result (mkCommandResult (cmd_id c) false msg)) d), Hs.
Qed.

Lemma Run_one_state s c a e d :
  OnCommand_lookup c d = None -> d_entities d !! cmd_entity c = Some e ->
  exists d' err, Run_one s (HD_Command c (Ok (Some a))) d = Done (d', err) /\
    d_entities d' = <[cmd_entity c := set_attrs (Some a) e]> (d_entities d).
Proof.
  intros Hl He. cbn [Run_one]. unfold OnCommand. rewrite Hl. cbn. rewrite He. destruct (Send s (DH_Result _) _) as [d' err] eqn:Hs.
  exists d', err. split; [done|]. pose proof (Send_entities s (DH_Result (mkCommandResult (cmd_id c) true ""))
    (Send s (state_changed (cmd_entity c) a) (with_entities_ (<[cmd_entity c := set_attrs (Some a) e]> (d_entities d)) d)).1) as H.
  rewrite Hs, Send_entities in H. exact H.
Qed.

Lemma command_inv s set_light c h : hue_inv h -> hue_inv (on_command Pow s set_light c h).
Proof.
  intros Hi. unfold on_command. destruct (OnCommand_lookup c (h_d h)) as [r|] eqn:Hl; [apply inv_with_d; [apply Send_entities|done]|].
  destruct (handler_exists _ _ Hl) as [e He]. unfold handleCommand.
  assert (Herr : forall msg, hue_inv (match Run_one s (HD_Command c (Err msg)) (h_d h) with Done (d, _) => with_hd d h | Panic _ => h end)).
  { intros msg. destruct (Run_one_error s c (h_d h) msg Hl) as (d' & Hr & Hd). rewrite Hr. by apply inv_with_d. }
  destruct (CommandToUpdate Pow _ _ _) as [u|msg]; [|apply Herr]. destruct set_light as [msg|]; [apply Herr|].
  destruct (inv_available h _ _ Hi He) as [av Hav]. unfold merge_into. cbn [h_d]. rewrite Hav.
  cbn [default from_option id].
  assert (Hm := merge_mode _ (update_event u) (default_mode h (cmd_entity c) Hi)).
  destruct (Run_one_state s c (attrs_of (merge_state Pow (default no_state (c_byEntID (h_cache h) !! cmd_entity c)) (update_event u)) av) e (h_d h) Hl He)
    as (d' & err & Hr & Hd). rewrite Hr.
  refine (inv_set _ (with_hd d' (with_cache _ h)) _). eapply inv_put; [done|exact He|exact Hd|exact Hm|done| |done|done].
  cbn. by rewrite insert_id.
Qed.

(** *** Bulbs that come and go *)

Lemma registerBulb_inv l av h h' : hue_inv h -> registerBulb Pow l av h = (h', None) -> hue_inv h'.
Proof.
  intros [H1 [H2 H2'] H3 H4 H5 H6 H7]. unfold registerBulb, AddEntity. destruct (d_entities (h_d h) !! EntityID (l_ID l)) as [e|] eqn:He; [done|].
  intros [= <-]. set (id := EntityID (l_ID l)) in *. set (d := with_entities_ _ _).
  assert (Hn : id ∉ dom (d_entities (h_d h))) by (by apply not_elem_of_dom).
  assert (Hdom : dom (d_entities (on_capabilities id (Capabilities l) d)) = {[id]} ∪ dom (d_entities (h_d h))).
  { rewrite on_capabilities_dom. cbn. by rewrite dom_insert_L. }
  pose proof (on_capabilities_attrs id (Capabilities l) d) as HD. unfold d in HD at 2. set (D := on_capabilities _ _ _) in *. clearbody D. clear d.
  assert (Hfresh : forall hid, c_hueToID (h_cache h) !! hid <> Some id) by (intros hid Hh; apply Hn, H4; by exists hid).
  split; cbn.
  - intros Hstr id'. rewrite HD. unfold cached. cbn. fold id. destruct (decide (id' = id)) as [->|Hne].
    + by rewrite !lookup_insert_eq.
    + rewrite !lookup_insert_ne by done. by apply H1.
  - rewrite Hdom, !dom_insert_L. clear - H2 H2'. set_solver.
  - intros hid id' [[<- <-]|[_ Hh]]%lookup_insert_Some; [done|by apply H3].
  - intros id'. rewrite Hdom, elem_of_union, elem_of_singleton, H4. split.
    + intros [->|[hid Hh]]; [exists (l_ID l); by rewrite lookup_insert_eq|]. exists hid. rewrite lookup_insert_ne; [done|]. intros <-.
      apply (Hfresh (l_ID l)). by rewrite Hh, (H3 _ _ Hh).
    + intros [hid [[_ <-]|[_ Hh]]%lookup_insert_Some]; [by left|right; by exists hid].
  - intros hid id' [[<- <-]|[_ Hh]]%lookup_insert_Some; [by rewrite lookup_insert_eq|].
    rewrite lookup_insert_ne; [by apply H5|]. intros Hid. apply (Hfresh hid). by rewrite Hh, <- Hid.
  - intros id' st [[<- <-]|[_ Hs]]%lookup_insert_Some; [apply light_mode|by eapply H6].
  - rewrite Hdom. destruct H7 as [Hnm Hk Hij].
    destruct (is_empty (RID (l_Owner l))) eqn:Hr; [split; [done|by intros rid id' Hh%Hk; set_solver|done]|]. split.
    + rewrite lookup_insert_ne; [done|]. intros Hr'. by rewrite Hr' in Hr.
    + intros rid id' [[_ <-]|[_ Hh%Hk]]%lookup_insert_Some; set_solver.
    + intros r1 r2 id' [[<- <-]|[_ Hr1]]%lookup_insert_Some [[<- Hid]|[_ Hr2]]%lookup_insert_Some; [done|by apply Hk in Hr2| |by eapply Hij].
      subst id'. by apply Hk in Hr1.
Qed.

Lemma refresh_inv id l av h : hue_inv h -> c_hueToID (h_cache h) !! l_ID l = Some id -> hue_inv (refresh Pow id l av h).
Proof.
  intros Hi Hid. destruct (inv_entity h _ _ Hi Hid) as [e He]. unfold refresh. by eapply emit_state_inv; [done|exact He|apply light_mode|..].
Qed.

Lemma resync_one_inv statuses l h : hue_inv h -> hue_inv (resync_one Pow statuses h l).
Proof.
  intros Hi. unfold resync_one. destruct (c_hueToID (h_cache h) !! l_ID l) as [id|] eqn:Hid; [by apply refresh_inv|].
  destruct (registerBulb _ _ _ _) as [h' [err|]] eqn:Hr; [done|]. apply inv_event. by eapply registerBulb_inv.
Qed.

(** The removal of one bulb; the two loops of [resync] together do this for each. *)
Definition remove_one (h : Hue) (r : removal) : Hue := unregister (with_cache (forget (h_cache h) r) h) r.

Lemma unregister_cache c h r : unregister (with_cache c h) r = with_cache c (unregister h r).
Proof. done. Qed.

Lemma removal_loops R h : foldl unregister (with_cache (foldl forget (h_cache h) R) h) R = foldl remove_one h R.
Proof.
  revert h. induction R as [|r R IH]; intros h; cbn [foldl]; [by destruct h|]. rewrite <- IH, unregister_cache. done.
Qed.

Record remove_ok (h : Hue) (r : removal) : Prop := mkRemoveOk {
  ro_known : c_hueToID (h_cache h) !! rm_hueID r = Some (rm_entityID r);
  ro_device : forall rid, c_deviceToID (h_cache h) !! rid = Some (rm_entityID r) -> rid = rm_deviceID r;
}.

Lemma remove_one_entities h r : d_entities (h_d (remove_one h r)) = delete (rm_entityID r) (d_entities (h_d h)).
Proof. unfold remove_one, unregister, emit_event, EmitDriverEvent. cbn. by rewrite send_current_entities, Unregister_entities. Qed.

Lemma remove_one_inv h r : hue_inv h -> remove_ok h r -> hue_inv (remove_one h r).
Proof.
  intros Hi [Hk Hd]. pose proof Hi as [H1 [H2 H2'] H3 H4 H5 H6 H7]. set (e := rm_entityID r) in *.
  pose proof (remove_one_entities h r) as He. fold e in He.
  assert (Hne : forall hid id, delete (rm_hueID r) (c_hueToID (h_cache h)) !! hid = Some id -> id <> e /\ c_hueToID (h_cache h) !! hid = Some id).
  { intros hid id [Hr Hh]%lookup_delete_Some. split; [|done]. intros ->. by apply Hr, (inv_inj h _ _ e Hi). }
  split.
  - intros Hstr id. rewrite He. unfold cached. cbn. fold e. destruct (decide (id = e)) as [->|Hie].
    + by rewrite !lookup_delete_eq.
    + rewrite !lookup_delete_ne by done. by apply H1.
  - rewrite He. cbn. fold e. rewrite !dom_delete_L. clear - H2 H2'. set_solver.
  - cbn. intros hid id [_ Hh]%Hne. by apply H3.
  - intros id. rewrite He, dom_delete_L, elem_of_difference, elem_of_singleton, H4. cbn. split.
    + intros [[hid Hh] Hie]. exists hid. rewrite lookup_delete_ne; [done|]. intros <-. congruence.
    + intros [hid [Hie Hh]%Hne]. split; [by exists hid|done].
  - cbn. intros hid id [_ Hh]%Hne. by apply H5.
  - cbn. intros id st [_ Hs]%lookup_delete_Some. by eapply H6.
  - rewrite He, dom_delete_L. cbn. destruct H7 as [Hnm Hkn Hij].
    assert (Hsub : forall rid id, (if is_empty (rm_deviceID r) then c_deviceToID (h_cache h) else delete (rm_deviceID r) (c_deviceToID (h_cache h))) !! rid = Some id ->
      id <> e /\ c_deviceToID (h_cache h) !! rid = Some id).
    { intros rid id. destruct (is_empty (rm_deviceID r)) eqn:Hem.
      - intros Hr. split; [|done]. intros ->. pose proof (Hd _ Hr) as ->. destruct (rm_deviceID r); [by rewrite Hnm in Hr|done].
      - intros [Hr' Hr]%lookup_delete_Some. split; [|done]. intros ->. by apply Hr', eq_sym, Hd. }
    split.
    + destruct (is_empty (rm_deviceID r)); [done|]. rewrite lookup_delete_None. by right.
    + intros rid id [Hie Hr%Hkn]%Hsub. set_solver.
    + intros r1 r2 id [_ Hr1]%Hsub [_ Hr2]%Hsub. by eapply Hij.
Qed.

Lemma remove_ok_after h r r' : hue_inv h -> remove_ok h r -> remove_ok h r' -> rm_hueID r <> rm_hueID r' -> remove_ok (remove_one h r) r'.
Proof.
  intros Hi [Hk Hd] [Hk' Hd'] Hne. split; cbn; [by rewrite lookup_delete_ne|]. intros rid. destruct (is_empty _); [apply Hd'|].
  intros [_ Hr]%lookup_delete_Some. by apply Hd'.
Qed.

Lemma remove_all_spec R h :
  hue_inv h -> Forall (remove_ok h) R -> NoDup (rm_hueID <$> R) ->
  let h' := foldl remove_one h R in
  hue_inv h' /\ (forall hid id, c_hueToID (h_cache h') !! hid = Some id <-> c_hueToID (h_cache h) !! hid = Some id /\ hid ∉ rm_hueID <$> R) /\
  (forall hid id, c_hueToID (h_cache h') !! hid = Some id -> d_entities (h_d h') !! id = d_entities (h_d h) !! id).
Proof.
  revert h. induction R as [|r R IH]; intros h Hi Hok Hnd; cbn [foldl fmap list_fmap]; cbv zeta.
  { split_and!; [done| |done]. intros hid id. split; [intros Hh; split; [done|apply not_elem_of_nil]|by intros [? _]]. }
  apply Forall_cons in Hok as [Hr Hok]. apply NoDup_cons in Hnd as [Hni Hnd].
  destruct (IH (remove_one h r)) as (H1 & H2 & H3); [by apply remove_one_inv| |done|].
  { rewrite Forall_forall in Hok |- *. intros r' Hr'. apply remove_ok_after; [done|done|by apply Hok|]. intros Heq. apply Hni.
    rewrite Heq. by apply list_elem_of_fmap_2. }
  split_and!; [done| |].
  - intros hid id. rewrite H2, not_elem_of_cons. cbn. rewrite lookup_delete_Some. naive_solver.
  - intros hid id Hh. rewrite (H3 _ _ Hh), remove_one_entities. apply H2 in Hh as [Hh _].
    cbn in Hh. apply lookup_delete_Some in Hh as [Hne Hh].
    rewrite lookup_delete_ne; [done|]. intros He. apply Hne. destruct Hr as [Hk _]. rewrite <- He in Hh. by apply (inv_inj h _ _ _ Hi Hk).
Qed.

Lemma device_of_spec o c hid id rid :
  fair_orders o -> (forall r1 r2, c_deviceToID c !! r1 = Some id -> c_deviceToID c !! r2 = Some id -> r1 = r2) ->
  c_deviceToID c !! rid = Some id -> rid = device_of o c hid id.
Proof.
  intros [_ Ho] Hij Hr. unfold device_of. destruct (list_find _ _) as [[i kv]|] eqn:Hf.
  - apply list_find_Some in Hf as (Hi & Hk & _). apply list_elem_of_lookup_2 in Hi. rewrite Ho in Hi.
    destruct kv as [k v]. cbn in *. subst v. apply elem_of_map_to_list in Hi. by apply Hij.
  - apply list_find_None in Hf. rewrite Forall_forall in Hf. destruct (Hf (rid, id)); [|done]. rewrite Ho. by apply elem_of_map_to_list.
Qed.

Lemma removals_ok o lights h : fair_orders o -> hue_inv h -> Forall (remove_ok h) (removals o lights (h_cache h)) /\
  NoDup (rm_hueID <$> removals o lights (h_cache h)) /\
  (forall hid, hid ∈ rm_hueID <$> removals o lights (h_cache h) <-> hid ∈ dom (c_hueToID (h_cache h)) /\ hid ∉ l_ID <$> lights).
Proof.
  intros Ho Hi. unfold removals. set (l := o_hue o _). assert (Hl : l ≡ₚ map_to_list (c_hueToID (h_cache h))) by (apply Ho). split_and!.
  - apply Forall_fmap, Forall_forall. intros [hid id] [_ Hin]%list_elem_of_filter. rewrite Hl in Hin. apply elem_of_map_to_list in Hin.
    split; cbn; [done|]. intros rid Hr. apply device_of_spec; [done| |done]. intros r1 r2. apply (do_inj _ _ (hi_devices h Hi)).
  - rewrite <- list_fmap_compose. change (rm_hueID ∘ _) with (@fst string string).
    apply (sublist_NoDup _ (fst <$> l)); [|apply fmap_sublist, sublist_filter]. rewrite Hl. apply NoDup_fst_map_to_list.
  - intros hid. rewrite <- list_fmap_compose. change (rm_hueID ∘ _) with (@fst string string). rewrite list_elem_of_fmap. split.
    + intros ([k v] & -> & [Hn Hin]%list_elem_of_filter). rewrite Hl in Hin. apply elem_of_map_to_list in Hin. split; [by eapply elem_of_dom_2|done].
    + intros [[v Hv]%elem_of_dom Hn]. exists (hid, v). split; [done|]. apply list_elem_of_filter. split; [done|]. rewrite Hl. by apply elem_of_map_to_list.
Qed.

(** *** Resync *)

Definition tracked_state (h : Hue) (id : string) : option Attributes := d_entities (h_d h) !! id ≫= en_attrs.
Definition reported (statuses : gmap string string) (l : Light) : Attributes :=
  LightToAttrs Pow l (bool_decide (statuses !! l_ID l = Some "connected")).

(** No other known bulb has the first eight characters of this one. *)
Definition apart (known : gset string) (hid : string) : Prop := forall hid', hid' ∈ known -> EntityID hid' = EntityID hid -> hid' = hid.

Lemma resync_one_spec statuses l h :
  hue_inv h -> apart (dom (c_hueToID (h_cache h))) (l_ID l) ->
  let h' := resync_one Pow statuses h l in
  dom (c_hueToID (h_cache h')) = {[l_ID l]} ∪ dom (c_hueToID (h_cache h)) /\
  forall id, tracked_state h' id = if decide (id = EntityID (l_ID l)) then Some (reported statuses l) else tracked_state h id.
Proof.
  intros Hi Ha. unfold resync_one. destruct (c_hueToID (h_cache h) !! l_ID l) as [id|] eqn:Hid; cbv zeta.
  - pose proof (hi_ids h Hi _ _ Hid) as ->. destruct (inv_entity h _ _ Hi Hid) as [e He]. split.
    + cbn. apply elem_of_dom_2 in Hid. set_solver.
    + intros id'. unfold tracked_state, refresh, emit_state. cbn [h_d with_hd].
      rewrite (EmitState_entities _ _ _ e) by done. case_decide as Hd; [subst id'; by rewrite lookup_insert_eq|by rewrite lookup_insert_ne].
  - assert (Hn : d_entities (h_d h) !! EntityID (l_ID l) = None).
    { apply eq_None_not_Some. intros [e He]. apply elem_of_dom_2, (hi_known h Hi) in He as [hid Hh].
      pose proof (Ha hid ltac:(by eapply elem_of_dom_2) ltac:(by rewrite <- (hi_ids h Hi _ _ Hh))) as ->. congruence. }
    unfold registerBulb, AddEntity. rewrite Hn. split; [cbn; by rewrite dom_insert_L|].
    intros id'. unfold tracked_state, emit_event, EmitDriverEvent. cbn [h_d with_hd]. rewrite send_current_entities, on_capabilities_attrs. cbn [d_entities with_entities_].
    case_decide as Hd; [subst id'; by rewrite lookup_insert_eq|by rewrite lookup_insert_ne].
Qed.

Lemma resync_fold statuses lights h :
  hue_inv h -> Forall (fun hid => apart (dom (c_hueToID (h_cache h)) ∪ list_to_set (l_ID <$> lights)) hid) (l_ID <$> lights) ->
  let h' := foldl (resync_one Pow statuses) h lights in
  hue_inv h' /\ dom (c_hueToID (h_cache h')) = dom (c_hueToID (h_cache h)) ∪ list_to_set (l_ID <$> lights) /\
  forall before l after, lights = before ++ l :: after -> l_ID l ∉ l_ID <$> after -> tracked_state h' (EntityID (l_ID l)) = Some (reported statuses l).
Proof.
  intros Hi. cbv zeta. induction lights as [|x lights IH] using rev_ind; intros Ha.
  { split_and!; [done|cbn; set_solver|]. intros [|] ? ? ?; done. }
  rewrite fmap_app, list_to_set_app_L in Ha. apply Forall_app in Ha as [Ha [Hx _]%Forall_cons].
  destruct IH as (H1 & H2 & H3).
  { rewrite Forall_forall in Ha |- *. intros hid Hin hid' Hh. apply (Ha hid Hin). set_solver. }
  rewrite foldl_app. cbn [foldl]. set (h1 := foldl _ h lights) in *.
  destruct (resync_one_spec statuses x h1 H1) as [H4 H5]; [intros hid; rewrite H2; intros Hh; apply Hx; set_solver|].
  split_and!; [by apply resync_one_inv| |].
  - rewrite H4, H2, fmap_app, list_to_set_app_L. cbn. set_solver.
  - intros before l after Hl Hn. rewrite H5. destruct after as [|y after _] using rev_ind.
    + apply app_inj_tail in Hl as [-> ->]. by rewrite decide_True.
    + rewrite app_comm_cons, app_assoc in Hl. apply app_inj_tail in Hl as [Hl ->]. rewrite fmap_app, not_elem_of_app in Hn. destruct Hn as [Hn Hy].
      rewrite decide_False; [by eapply H3|]. intros Heq. apply Hy. cbn. apply list_elem_of_singleton.
      apply (Hx (l_ID l)); [|exact Heq]. rewrite Hl, fmap_app. cbn. set_solver.
Qed.

Lemma resync_lights_inv o lights statuses h : fair_orders o -> hue_inv h -> hue_inv (resync_lights Pow o lights statuses h).
Proof.
  intros Ho Hi. unfold resync_lights. rewrite removal_loops.
  assert (H1 : hue_inv (foldl (resync_one Pow statuses) h lights)).
  { revert h Hi. induction lights as [|l lights IH]; intros h Hi; cbn [foldl]; [done|]. by apply IH, resync_one_inv. }
  destruct (removals_ok o lights _ Ho H1) as (H2 & H3 & _). by apply remove_all_spec.
Qed.

(** The lights a resync can tell apart: no two of those it knows or lists begin with the
    same eight characters. *)
Definition all_apart (h : Hue) (lights : list Light) : Prop :=
  Forall (apart (dom (c_hueToID (h_cache h)) ∪ list_to_set (l_ID <$> lights))) (l_ID <$> lights).

Lemma resync_lights_spec o lights statuses h :
  fair_orders o -> hue_inv h -> all_apart h lights ->
  let h' := resync_lights Pow o lights statuses h in
  (forall id, id ∈ dom (d_entities (h_d h')) <-> exists l, l ∈ lights /\ id = EntityID (l_ID l)) /\
  forall before l after, lights = before ++ l :: after -> l_ID l ∉ l_ID <$> after -> tracked_state h' (EntityID (l_ID l)) = Some (reported statuses l).
Proof.
  intros Ho Hi Ha. cbv zeta. unfold resync_lights. rewrite removal_loops. destruct (resync_fold statuses lights h Hi Ha) as (H1 & H2 & H3).
  set (h1 := foldl (resync_one Pow statuses) h lights) in *. destruct (removals_ok o lights h1 Ho H1) as (Hok & Hnd & Hrm).
  destruct (remove_all_spec _ h1 H1 Hok Hnd) as (H4 & H5 & H6). set (h2 := foldl remove_one h1 _) in *.
  assert (Hids : forall hid id, c_hueToID (h_cache h2) !! hid = Some id <-> hid ∈ l_ID <$> lights /\ id = EntityID hid).
  { intros hid id. rewrite H5, Hrm. split.
    - intros [Hh Hn]. split; [|by apply (hi_ids h1 H1)]. destruct (decide (hid ∈ l_ID <$> lights)); [done|].
      destruct Hn. split; [by eapply elem_of_dom_2|done].
    - intros [Hin ->]. split; [|by intros [_ ?]]. assert (Hd : hid ∈ dom (c_hueToID (h_cache h1))) by (rewrite H2; set_solver).
      apply elem_of_dom in Hd as [id Hid]. by rewrite Hid, (hi_ids h1 H1 _ _ Hid). }
  split.
  - intros id. rewrite (hi_known h2 H4). setoid_rewrite Hids. setoid_rewrite list_elem_of_fmap. naive_solver.
  - intros before l after Hl Hn. unfold tracked_state. rewrite (H6 (l_ID l)); [by eapply H3|]. apply Hids. split; [|done].
    rewrite Hl, fmap_app. set_solver.
Qed.
End Driver.

End Invariant.

(** ** The driver over time *)

Inductive hue_event :=
  | EvResync (o : orders) (lights : result error (list Light)) (statuses : result error (gmap string string))
  | EvBridge (ev : Event)
  | EvCommand (set_light : option string) (c : Command)
  | EvNotice (kind detail : string)
  | EvStart (order : list (string * Attributes) -> list (string * Attributes))
  | EvShutdown.

Definition fair (e : hue_event) : Prop :=
  match e with EvResync o _ _ => fair_orders o | EvStart order => forall l, order l ≡ₚ l | _ => True end.
(** Bulbs come and go by a resync only. *)
Definition keeps_bulbs (e : hue_event) : bool := match e with EvBridge _ | EvCommand _ _ | EvNotice _ _ => true | _ => false end.

Section Events.
Context {strict : bool}.
#[local] Abbreviation hue_inv := (hue_inv_at strict).

Lemma inv_reach t h :
  hue_inv h -> hue_inv (with_cache (mkCache (c_byEntID (h_cache h)) (c_available (h_cache h)) (c_hueToID (h_cache h)) (c_deviceToID (h_cache h))
    (c_gamuts (h_cache h)) t) h).
Proof. intros [H1 H2 H3 H4 H5 H6 H7]. by split. Qed.

Lemma record_inv err h : hue_inv h -> hue_inv (record err h).
Proof.
  intros Hi. unfold record. destruct err as [msg|].
  - destruct (_ && _); [|by apply inv_reach]. apply (inv_reach _ (emit_event "bridge_unreachable" msg h)). by apply inv_event.
  - destruct (rt_announced _); [|by apply inv_reach]. apply (inv_reach _ (emit_event "bridge_recovered" "" h)). by apply inv_event.
Qed.

End Events.

Section Runs.
Context (Pow : double -> double -> double) (s : nat).

Definition hue_step (h : Hue) (e : hue_event) : Hue :=
  match e with
  | EvResync o lights statuses => resync_recorded Pow o lights statuses h
  | EvBridge ev => apply_event Pow h ev
  | EvCommand set_light c => on_command Pow s set_light c h
  | EvNotice kind detail => emit_event kind detail h
  | EvStart order => with_hd (OnRunStart order s (h_d h)) h
  | EvShutdown => with_hd (OnShutdown (h_d h)) h
  end.
Definition hue_run (h : Hue) (evs : list hue_event) : Hue := foldl hue_step h evs.

Lemma hue_step_inv {strict} h e : fair e -> hue_inv_at strict h -> hue_inv_at strict (hue_step h e).
Proof.
  intros He Hi. destruct e as [o lights statuses|ev|set_light c|kind detail|order|]; cbn [hue_step].
  - unfold resync_recorded, resync. destruct lights as [lights|err]; apply record_inv; [by apply resync_lights_inv|done].
  - by apply apply_event_inv.
  - by apply command_inv.
  - by apply inv_event.
  - apply inv_with_d; [|done]. unfold OnRunStart. by rewrite send_all_entities.
  - by apply inv_with_d.
Qed.

Lemma hue_run_inv {strict} evs h : Forall fair evs -> hue_inv_at strict h -> hue_inv_at strict (hue_run h evs).
Proof. intros Hf. revert h. induction Hf as [|e evs He Hf IH]; intros h Hi; [done|]. by apply IH, hue_step_inv. Qed.

Lemma registerAll_inv {strict} statuses lights h h' : hue_inv_at strict h -> registerAll Pow statuses lights h = Ok h' -> hue_inv_at strict h'.
Proof.
  revert h. induction lights as [|l lights IH]; intros h Hi; cbn [registerAll]; [by intros [= <-]|].
  destruct (registerBulb _ _ _ _) as [h1 [e|]] eqn:Hr; [done|]. apply IH. by eapply registerBulb_inv.
Qed.

Lemma build_inv {strict} lights statuses h : buildDriver Pow lights statuses = Ok h -> hue_inv_at strict h.
Proof. unfold buildDriver. destruct lights as [lights|e]; [|done]. apply registerAll_inv, new_hue_inv. Qed.

Lemma built_run {strict} lights statuses h evs : buildDriver Pow lights statuses = Ok h -> Forall fair evs -> hue_inv_at strict (hue_run h evs).
Proof. intros Hb Hf. apply hue_run_inv; [done|by eapply build_inv]. Qed.

(** *** What the daemon sees *)

Lemma emit_state_kit id a h : by_kit s (h_d h) (h_d (emit_state id a h)).
Proof. by apply (by_kit_one s _ _ (OpEmit id a)). Qed.

Lemma light_event_kit ev h : by_kit s (h_d h) (h_d (applyLightEvent Pow ev h)).
Proof.
  unfold applyLightEvent, light_merge. destruct (_ !! ev_ID ev); [|apply by_kit_refl]. refine (emit_state_kit _ _ (with_cache _ h)).
Qed.
Lemma connectivity_kit ev h : by_kit s (h_d h) (h_d (applyConnectivityEvent Pow ev h)).
Proof.
  unfold applyConnectivityEvent, connectivity_merge. destruct (ev_Owner ev) as [owner|]; [|apply by_kit_refl]. cbn [mbind option_bind].
  destruct (_ !! RID owner); [|apply by_kit_refl]. refine (emit_state_kit _ _ (with_cache _ h)).
Qed.

Lemma command_kit set_light c h : by_kit s (h_d h) (h_d (on_command Pow s set_light c h)).
Proof.
  unfold on_command. destruct (OnCommand_lookup c (h_d h)) as [r|] eqn:Hl.
  - apply (by_kit_one s _ _ (OpHost (HD_Command c (Ok None)))); [done|]. cbn [kit_step Run_one]. unfold OnCommand. rewrite Hl.
    cbn. by destruct (Send s (DH_Result r) (h_d h)).
  - destruct (handleCommand _ _ _ _ _ _ _) as [h1 r] eqn:Hh.
    assert (Hd : h_d h1 = h_d h).
    { unfold handleCommand in Hh. destruct (CommandToUpdate _ _ _ _); [|by injection Hh as <- _]. destruct set_light; by injection Hh as <- _. }
    destruct (Run_one s (HD_Command c r) (h_d h1)) as [[d' err]|msg] eqn:Hr; [|rewrite Hd; apply by_kit_refl].
    apply (by_kit_one s _ _ (OpHost (HD_Command c r))); [done|]. cbn [kit_step]. by rewrite <- Hd, Hr.
Qed.

Lemma step_kit h e : keeps_bulbs e = true -> by_kit s (h_d h) (h_d (hue_step h e)).
Proof.
  destruct e as [|ev|set_light c|kind detail| |]; try done; intros _; cbn [hue_step].
  - unfold apply_event. destruct (String.eqb _ _); [apply light_event_kit|]. destruct (String.eqb _ _); [apply connectivity_kit|apply by_kit_refl].
  - apply command_kit.
  - by apply (by_kit_one s _ _ (OpEvent kind detail)).
Qed.

Lemma run_kit evs h : Forall (fun e => keeps_bulbs e = true) evs -> by_kit s (h_d h) (h_d (hue_run h evs)).
Proof.
  intros Hk. revert h. induction Hk as [|e evs He Hk IH]; intros h; [apply by_kit_refl|]. unfold hue_run. cbn [foldl].
  eapply by_kit_trans; [by apply step_kit|apply IH].
Qed.

(** The daemon shows what the bridge reported: whatever happened before, once the
    daemon has opened a stream, and after any sequence of events of the bridge, commands
    and notices on it, the daemon's state of every bulb is the cached one. *)
Theorem hue_daemon_shows lights statuses h now instanceID m0 before order after id x :
  buildDriver Pow lights statuses = Ok h -> Forall fair before -> (forall l, order l ≡ₚ l) -> s ∉ d_closed (h_d (hue_run h before)) ->
  Forall (fun e => keeps_bulbs e = true) after ->
  cached (hue_run h (before ++ EvStart order :: after)) id = Some x ->
  StAttributes <$> daemon_view now instanceID m0 (sent s (h_d (hue_run h (before ++ EvStart order :: after)))) !! id = Some (Some x).
Proof.
  intros Hb Hf Ho Hs Hk Hx.
  assert (Hall : Forall fair (before ++ EvStart order :: after)).
  { apply Forall_app. split; [done|]. constructor; [done|]. eapply Forall_impl; [exact Hk|]. intros e. by destruct e. }
  pose proof (built_run (strict := true) _ _ _ _ Hb Hall) as Hi. rewrite <- (hi_tracks _ Hi eq_refl) in Hx. unfold hue_run in *. rewrite foldl_app in *. cbn [foldl] in *.
  set (h1 := hue_step _ (EvStart order)) in *. destruct (run_kit after h1 Hk) as (ops & Hops & Hrun). unfold hue_run in Hrun.
  set (h2 := foldl hue_step h1 after) in *. destruct (d_entities (h_d h2) !! id) as [e|] eqn:He; [|done].
  eapply (is_shown now instanceID m0 s (h_d h2)); [|exact He|exact Hx].
  eapply in_step_run; [exact Hops| |exact Hrun]. by apply run_start_in_step.
Qed.

(** One handler at a time: after any sequence of resyncs, events, commands and reconnects
    that do not overlap, the state and reachability the Hue driver caches for a bulb are
    those the driver kit tracks for its entity. [HueDemo.event_in_command_diverges]: why they must
    not. *)
Theorem cache_is_driver lights statuses h evs :
  buildDriver Pow lights statuses = Ok h -> Forall fair evs ->
  let h' := hue_run h evs in forall id, (d_entities (h_d h') !! id ≫= en_attrs) = cached h' id.
Proof.
  intros Hb Hf. by apply (hi_tracks _ (built_run (strict := true) _ _ _ _ Hb Hf)).
Qed.

(** *** Handlers that overlap *)

(** The events of the bridge, the resyncs and the commands run in goroutines of their own.
    A handler merges under the lock of the cache and emits after it; a command waits for
    the bridge in between, and the kit records its state when it has returned. *)
Inductive handler :=
  | HEmit (id : string) (a : Attributes)
  | HBridge (c : Command) (hueID : string) (u : LightUpdate)
  | HRecord (c : Command) (r : result string (option Attributes)).

Record running := mkRunning { r_h : Hue; r_handlers : gmap nat handler }.

(** [PWhole]: an operation that nothing interrupts, as a resync is taken here. *)
Inductive par_event :=
  | PBridge (i : nat) (ev : Event) | PEmit (i : nat)
  | PCommand (i : nat) (c : Command) | PAnswer (i : nat) (set_light : option string) | PRecord (i : nat)
  | PWhole (e : hue_event).

Definition handle (i : nat) (x : handler) (h : Hue) (r : running) : running := mkRunning h (<[i := x]> (r_handlers r)).
Definition finished (i : nat) (h : Hue) (r : running) : running := mkRunning h (delete i (r_handlers r)).

(** [None]: not possible, or a panic ends the process. *)
Definition par_step (r : running) (e : par_event) : option running :=
  let h := r_h r in
  match e with
  | PBridge i ev =>
      match r_handlers r !! i with
      | Some _ => None
      | None => Some (match event_merge Pow ev (h_cache h) with
                      | None => r
                      | Some (c, (id, merged)) => handle i (HEmit id merged) (with_cache c h) r
                      end)
      end
  | PEmit i => match r_handlers r !! i with Some (HEmit id a) => Some (finished i (emit_state id a h) r) | _ => None end
  | PCommand i c =>
      match r_handlers r !! i with
      | Some _ => None
      | None =>
          Some (match OnCommand_lookup c (h_d h) with
                | Some res => mkRunning (with_hd (Send s (DH_Result res) (h_d h)).1 h) (r_handlers r)
                | None =>
                    match CommandToUpdate Pow (cmd_capability c) (cmd_args c) (default no_gamut (c_gamuts (h_cache h) !! cmd_entity c)) with
                    | Err msg => handle i (HRecord c (Err msg)) h r
                    | Ok u => handle i (HBridge c (default "" (h_captured h !! cmd_entity c)) u) h r
                    end
                end)
      end
  | PAnswer i set_light =>
      match r_handlers r !! i with
      | Some (HBridge c hueID u) =>
          Some (match set_light with
                | Some msg => handle i (HRecord c (Err msg)) h r
                | None =>
                    let '(cache, merged) := merge_into Pow (cmd_entity c) (update_event u) (h_cache h) in
                    handle i (HRecord c (Ok (Some merged))) (mkHue (h_d h) cache (h_captured h) (h_set h ++ [(hueID, u)])) r
                end)
      | _ => None
      end
  | PRecord i =>
      match r_handlers r !! i with
      | Some (HRecord c res) =>
          match OnCommand_finish c res s (h_d h) with
          | Done (d, result) => Some (finished i (with_hd (Send s (DH_Result result) d).1 h) r)
          | Panic _ => None
          end
      | _ => None
      end
  | PWhole e => Some (mkRunning (hue_step h e) (r_handlers r))
  end.

Fixpoint par_run (r : running) (es : list par_event) : option running :=
  match es with [] => Some r | e :: es => r' ← par_step r e; par_run r' es end.
Definition par_fair (e : par_event) : Prop := match e with PWhole e => fair e | _ => True end.

(** An event that nothing interrupts is its two steps. *)
Lemma event_is_steps i ev h :
  r_h <$> par_run (mkRunning h ∅) (PBridge i ev :: match event_merge Pow ev (h_cache h) with Some _ => [PEmit i] | None => [] end) = Some (apply_event Pow h ev).
Proof.
  cbn [par_run par_step r_handlers r_h]. rewrite lookup_empty. cbn [mbind option_bind].
  assert (Ha : apply_event Pow h ev = emit_merged (event_merge Pow ev (h_cache h)) h).
  { unfold apply_event, event_merge, applyLightEvent, applyConnectivityEvent. by repeat destruct (String.eqb _ _). }
  rewrite Ha. destruct (event_merge Pow ev (h_cache h)) as [[c [id merged]]|]; [|done]. cbn [par_run par_step handle r_handlers r_h].
  by rewrite lookup_insert_eq.
Qed.

Lemma inv_loose strict h : hue_inv_at strict h -> hue_inv_at false h.
Proof. intros [H1 H2 H3 H4 H5 H6 H7]. by split. Qed.

(** Merging leaves the driver alone. *)
Lemma merge_loose strict id ev c x h :
  hue_inv_at strict h -> c_byEntID c = c_byEntID (h_cache h) -> dom (c_available (h_cache h)) ⊆ dom (c_available c) ->
  c_hueToID c = c_hueToID (h_cache h) -> c_deviceToID c = c_deviceToID (h_cache h) ->
  hue_inv_at false (mkHue (h_d h) (merge_into Pow id ev c).1 (h_captured h) x).
Proof.
  intros Hi Hb Ha Hh Hd. pose proof (merge_mode Pow _ ev (default_mode h id Hi)) as Hm. destruct Hi as [H1 [H2 H2'] H3 H4 H5 H6 H7].
  split; cbn; rewrite ?Hb, ?Hh, ?Hd; [done| |done..| |done].
  - rewrite dom_insert_L. set_solver.
  - intros id' st [[<- <-]|[_ Hs]]%lookup_insert_Some; [done|by eapply H6].
Qed.

Lemma inv_loose_d strict d h : dom (d_entities d) = dom (d_entities (h_d h)) -> hue_inv_at strict h -> hue_inv_at false (with_hd d h).
Proof. intros Hd [H1 H2 H3 H4 H5 H6 H7]. by split; cbn; try rewrite Hd. Qed.

Lemma emit_state_loose id a h : hue_inv_at false h -> hue_inv_at false (emit_state id a h).
Proof.
  intros Hi. unfold emit_state. destruct (d_entities (h_d h) !! id) as [e|] eqn:He.
  - apply inv_loose_d with false; [|done]. rewrite (EmitState_entities _ _ _ e) by done. apply dom_insert_lookup_L. by eexists.
  - unfold EmitState, EmitState_update. rewrite He. by apply inv_loose_d with false.
Qed.

Lemma finish_dom c res d d' result : OnCommand_finish c res s d = Done (d', result) -> dom (d_entities d') = dom (d_entities d).
Proof.
  unfold OnCommand_finish. destruct res as [[a|]|msg]; [|by intros [= <- _]..]. destruct (d_entities d !! cmd_entity c) as [e|] eqn:He; [|done].
  intros [= <- _]. rewrite Send_entities. cbn. apply dom_insert_lookup_L. by eexists.
Qed.

Lemma par_step_inv r e r' : par_fair e -> hue_inv_at false (r_h r) -> par_step r e = Some r' -> hue_inv_at false (r_h r').
Proof.
  intros Hf Hi. destruct e as [i ev|i|i c|i set_light|i|e]; cbn [par_step].
  - destruct (r_handlers r !! i); [done|]. intros [= <-]. destruct (event_merge Pow ev (h_cache (r_h r))) as [[c [id merged]]|] eqn:Hm; [|done].
    cbn [handle r_h]. unfold event_merge in Hm. destruct (String.eqb _ _); [|destruct (String.eqb _ _); [|done]].
    + unfold light_merge in Hm. destruct (_ !! ev_ID ev) as [id'|]; [|done]. injection Hm as <- _ _.
      exact (merge_loose false id' ev (h_cache (r_h r)) (h_set (r_h r)) (r_h r) Hi eq_refl ltac:(done) eq_refl eq_refl).
    + unfold connectivity_merge in Hm. destruct (ev_Owner ev) as [owner|]; [|done]. cbn [mbind option_bind] in Hm.
      destruct (_ !! RID owner) as [id'|]; [|done]. injection Hm as <- _ _.
      refine (merge_loose false id' no_event (put_available id' _ (h_cache (r_h r))) (h_set (r_h r)) (r_h r) Hi eq_refl _ eq_refl eq_refl).
      cbn. rewrite dom_insert_L. set_solver.
  - destruct (r_handlers r !! i) as [[id a| |]|]; try done. intros [= <-]. by apply emit_state_loose.
  - destruct (r_handlers r !! i); [done|]. intros [= <-]. destruct (OnCommand_lookup c (h_d (r_h r))).
    + apply inv_loose_d with false; [by rewrite Send_entities|done].
    + by destruct (CommandToUpdate _ _ _ _).
  - destruct (r_handlers r !! i) as [[|c hueID u|]|]; try done. intros [= <-]. destruct set_light; [done|].
    exact (merge_loose false (cmd_entity c) (update_event u) (h_cache (r_h r)) (h_set (r_h r) ++ [(hueID, u)]) (r_h r) Hi eq_refl ltac:(done) eq_refl eq_refl).
  - destruct (r_handlers r !! i) as [[| |c res]|]; try done. destruct (OnCommand_finish c res s (h_d (r_h r))) as [[d result]|] eqn:Hr; [|done].
    intros [= <-]. apply inv_loose_d with false; [|done]. rewrite Send_entities. by eapply finish_dom.
  - intros [= <-]. by apply hue_step_inv.
Qed.

Lemma par_run_inv r es r' : Forall par_fair es -> hue_inv_at false (r_h r) -> par_run r es = Some r' -> hue_inv_at false (r_h r').
Proof.
  intros Hf. revert r. induction Hf as [|e es He Hf IH]; intros r Hi; cbn [par_run]; [by intros [= <-]|].
  destruct (par_step r e) as [r1|] eqn:H1; [|done]. cbn [mbind option_bind]. apply IH. by eapply par_step_inv.
Qed.

(** *** Resyncs *)

Lemma resync_recorded_spec {strict} h0 o lights statuses :
  hue_inv_at strict h0 -> fair_orders o -> all_apart h0 lights ->
  let h := hue_step h0 (EvResync o (Ok lights) statuses) in
  (forall id, id ∈ dom (d_entities (h_d h)) <-> exists l, l ∈ lights /\ id = EntityID (l_ID l)) /\
  (forall before l after, lights = before ++ l :: after -> l_ID l ∉ l_ID <$> after ->
     (d_entities (h_d h) !! EntityID (l_ID l) ≫= en_attrs) = Some (reported Pow (statuses_of statuses) l)).
Proof.
  intros Hi Ho Ha. cbv zeta. cbn [hue_step]. unfold resync_recorded. cbn [resync].
  pose proof (resync_lights_spec Pow o lights (statuses_of statuses) _ Ho Hi Ha) as Hs.
  cbv zeta in Hs. set (h1 := resync_lights _ _ _ _ _) in *.
  assert (He : d_entities (h_d (record (e_text <$> None) h1)) = d_entities (h_d h1)).
  { unfold record. cbn. destruct (rt_announced _); [|done]. apply send_current_entities. }
  rewrite He. exact Hs.
Qed.

(** C22. After a resync the driver has exactly the bulbs of the bridge, whatever happened
    before: an entity for each light listed and for no other, and the state of each is
    the one the light reports, reachable when its status says so; provided that no two
    lights begin with the same eight characters. What happened before may be events and
    commands whose handlers overlap, and some of them may be under way; the resync itself
    is taken to run alone. *)
Theorem resync_exact lights0 statuses0 h0 evs r o lights statuses r' :
  buildDriver Pow lights0 statuses0 = Ok h0 -> Forall par_fair evs -> par_run (mkRunning h0 ∅) evs = Some r ->
  fair_orders o -> all_apart (r_h r) lights -> par_step r (PWhole (EvResync o (Ok lights) statuses)) = Some r' ->
  let h := r_h r' in
  (forall id, id ∈ dom (d_entities (h_d h)) <-> exists l, l ∈ lights /\ id = EntityID (l_ID l)) /\
  (forall before l after, lights = before ++ l :: after -> l_ID l ∉ l_ID <$> after ->
     (d_entities (h_d h) !! EntityID (l_ID l) ≫= en_attrs) =
       Some (LightToAttrs Pow l (bool_decide (statuses_of statuses !! l_ID l = Some "connected")))).
Proof.
  intros Hb Hf Hr Ho Ha [= <-]. cbn [r_h].
  exact (resync_recorded_spec (r_h r) o lights statuses (par_run_inv (mkRunning h0 ∅) evs r Hf (build_inv _ _ _ Hb) Hr) Ho Ha).
Qed.

(** When the bridge lists its lights but not their devices, every bulb is shown as
    unreachable; the log speaks of a reachability that is not refreshed. *)
Theorem outage_of_devices_hides_bulbs lights0 statuses0 h0 evs o lights e before l after :
  buildDriver Pow lights0 statuses0 = Ok h0 -> Forall fair evs -> fair_orders o -> all_apart (hue_run h0 evs) lights ->
  lights = before ++ l :: after -> l_ID l ∉ l_ID <$> after ->
  (d_entities (h_d (hue_step (hue_run h0 evs) (EvResync o (Ok lights) (Err e)))) !! EntityID (l_ID l) ≫= en_attrs) = Some (LightToAttrs Pow l false).
Proof.
  intros Hb Hf Ho Ha Hl Hn. destruct (resync_recorded_spec (hue_run h0 evs) o lights (Err e) (built_run (strict := true) _ _ _ evs Hb Hf) Ho Ha) as [_ Hs].
  rewrite (Hs _ _ _ Hl Hn). unfold reported. cbn [statuses_of]. by rewrite lookup_empty.
Qed.

(** A bulb that leaves the bridge under a command takes the driver down: the command
    found the entity and waits for the bridge, a resync removes it, and the state that
    the handler returns is stored into nothing. *)
Theorem removed_under_command_panics lights0 statuses0 h0 evs o lights statuses c a :
  buildDriver Pow lights0 statuses0 = Ok h0 -> Forall fair evs -> fair_orders o -> all_apart (hue_run h0 evs) lights ->
  OnCommand_lookup c (h_d (hue_run h0 evs)) = None -> cmd_entity c ∉ (fun l => EntityID (l_ID l)) <$> lights ->
  exists msg, OnCommand_finish c (Ok (Some a)) s (h_d (hue_step (hue_run h0 evs) (EvResync o (Ok lights) statuses))) = Panic msg.
Proof.
  intros Hb Hf Ho Ha Hl Hn. destruct (resync_recorded_spec (hue_run h0 evs) o lights statuses (built_run (strict := true) _ _ _ evs Hb Hf) Ho Ha) as [Hs _].
  set (h := hue_step _ _) in *. unfold OnCommand_finish. destruct (d_entities (h_d h) !! cmd_entity c) as [e|] eqn:He; [|by eexists].
  apply elem_of_dom_2, Hs in He as (l & Hin & Hid). destruct Hn. rewrite Hid. by apply (list_elem_of_fmap_2 (fun l => EntityID (l_ID l))).
Qed.

End Runs.

(** ** Commands and their confirmations *)

Section Commands.
Context (Pow : double -> double -> double).

(** The event by which the bridge confirms an update of a light. *)
Definition echo (hueID : string) (g : Gamut) (u : LightUpdate) : Event :=
  mkEvent hueID "light" (u_On u) (u_Dimming u) (u_ColorTemperature u) ((fun xy => mkColor xy g) <$> u_Color u) "" None.

Lemma brightness_all : forallb (fun v => brightnessHueToSwitchyard (percent v) =? v) (Z.of_nat <$> seq 0 256) = true.
Proof. vm_compute. reflexivity. Qed.

Lemma brightness_percent v : 0 <= v < 256 -> brightnessHueToSwitchyard (percent v) = v.
Proof.
  intros Hv. pose proof brightness_all as H. rewrite forallb_forall in H. apply Z.eqb_eq, H.
  apply list_elem_of_In, list_elem_of_fmap. exists (Z.to_nat v). split; [lia|]. apply elem_of_seq. lia.
Qed.

Lemma parse_pretty v : 0 <= v < 256 -> parse_in 0 255 (pretty v) = Some v.
Proof.
  intros Hv. unfold parse_in. rewrite ParseInt_pretty by lia. cbn.
  destruct (v <? 0) eqn:H1; [lia|]. destruct (255 <? v) eqn:H2; [lia|done].
Qed.

(** A brightness survives the bridge: what a command asks for in 255ths goes out as a
    percentage, and the event that reports the percentage brings back the same number,
    in the rounding of doubles; zero turns the light off and leaves its brightness. *)
Theorem brightness_survives v args gamut prev hueID u :
  0 <= v < 256 -> args !! "brightness" = Some (pretty v) -> CommandToUpdate Pow "set_brightness" args gamut = Ok u ->
  merge_state Pow prev (echo hueID gamut u) =
    mkState (negb (v =? 0)) (if v =? 0 then st_Brightness prev else v) (st_ColorTemp prev) (st_ColorRgb prev).
Proof.
  intros Hv Ha. unfold CommandToUpdate. intros (dur & _ & Hu)%result_bind_Ok. cbn [String.eqb Ascii.eqb Bool.eqb] in Hu.
  rewrite Ha, (parse_pretty v Hv) in Hu. injection Hu as <-.
  destruct (v =? 0) eqn:H0; unfold merge_state, echo; cbn [ev_On ev_Dimming ev_Color ev_ColorTemperature u_On u_Dimming u_Color u_ColorTemperature fmap option_fmap option_map default];
    [done|]. by rewrite brightness_percent.
Qed.

Lemma no_colour capability args gamut u : CommandToUpdate Pow capability args gamut = Ok u -> capability <> "set_color" -> u_Color u = None.
Proof.
  unfold CommandToUpdate. intros (dur & _ & Hu)%result_bind_Ok Hne.
  repeat match type of Hu with (if String.eqb capability ?k then _ else _) = _ => destruct (String.eqb_spec capability k) as [Hk|] end;
    repeat case_match; simplify_eq; done.
Qed.

(** A command other than [set_color] leaves the cache as the bridge's confirmation
    will: the event that reports the update changes nothing any more. *)
Theorem command_echo capability args gamut prev hueID u :
  CommandToUpdate Pow capability args gamut = Ok u -> capability <> "set_color" ->
  let st := merge_state Pow prev (update_event u) in merge_state Pow st (echo hueID gamut u) = st.
Proof.
  intros Hu Hne. cbv zeta. apply no_colour in Hu; [|done]. unfold merge_state, update_event, echo. cbn. rewrite Hu. cbn.
  destruct (u_On u), (u_Dimming u), (u_ColorTemperature u) as [[m|]|]; done.
Qed.

(** [set_color] answers with the colour the light had: the optimistic merge leaves the
    new one out. *)
Theorem set_color_shows_old args gamut prev u :
  CommandToUpdate Pow "set_color" args gamut = Ok u ->
  exists xy, u_Color u = Some xy /\ merge_state Pow prev (update_event u) = mkState true (st_Brightness prev) (st_ColorTemp prev) (st_ColorRgb prev).
Proof.
  unfold CommandToUpdate. intros (dur & _ & Hu)%result_bind_Ok. cbn [String.eqb Ascii.eqb Bool.eqb] in Hu.
  destruct (ParseColor args) as [c|e]; [|done]. injection Hu as <-. by eexists.
Qed.

(** The event loop never gives up on a rejected key: no error of the stream is the one
    it exits for. *)
Theorem auth_exit_unreachable elapsed backoff unmarshal r o lights statuses h :
  match loop_turn Pow elapsed backoff (Events unmarshal r) o lights statuses h with TurnExit _ _ => False | TurnNext _ _ _ => True end.
Proof.
  unfold loop_turn. pose proof (stream_never_revoked unmarshal r) as Hr. destruct (Events unmarshal r) as [evs|e]; cbn [streamOnce].
  - by destruct (RunConn_turn elapsed backoff).
  - rewrite (Hr e eq_refl). by destruct (RunConn_turn elapsed backoff).
Qed.

End Commands.

(** ** Reachability of the bridge *)

(** The failures since the last success. *)
Definition streak (results : list (option string)) : Z := foldl (fun n r => match r with Some _ => n + 1 | None => 0 end) 0 results.

Lemma streak_nonneg l : 0 <= streak l.
Proof.
  unfold streak. assert (H : forall n, 0 <= n -> 0 <= foldl (fun n (r : option string) => match r with Some _ => n + 1 | None => 0 end) n l);
    [|by apply H]. induction l as [|[m|] l IH]; intros n Hn; cbn [foldl]; [done|apply IH; lia|apply IH; lia].
Qed.

(** The announcements of the driver follow the outages of the bridge: the third
    failure in a row is announced, with its error, and so is the first success after an
    announcement; nothing else is. *)
Theorem reach_exact results r h :
  c_reach (h_cache h) = mkReach (streak results) (3 <=? streak results) ->
  let h' := record r h in
  c_reach (h_cache h') = mkReach (streak (results ++ [r])) (3 <=? streak (results ++ [r])) /\
  h_d h' = match r with
           | Some msg => if streak results =? 2 then (EmitDriverEvent "bridge_unreachable" msg (h_d h)).1 else h_d h
           | None => if 3 <=? streak results then (EmitDriverEvent "bridge_recovered" "" (h_d h)).1 else h_d h
           end.
Proof.
  intros Hc. cbv zeta. unfold record. rewrite Hc. cbn [rt_consecFails rt_announced].
  assert (Hs : streak (results ++ [r]) = match r with Some _ => streak results + 1 | None => 0 end) by (unfold streak; by rewrite foldl_app).
  rewrite Hs. pose proof (streak_nonneg results) as Hn. destruct r as [msg|]; [|by destruct (3 <=? streak results)].
  destruct (Z.leb_spec 3 (streak results)), (Z.leb_spec 3 (streak results + 1)), (Z.eqb_spec (streak results) 2); try lia; cbn; done.
Qed.

Module HueDemo.

Definition pow (x y : double) : double := x.
Definition lamp : Light := mkLight "aaaaaaaa-0001" (mkRef "dev-1" "device") "Lamp" true (Some (float_of_Z 50)) (Some (Some 300)) None.
Definition strip : Light :=
  mkLight "bbbbbbbb-0002" (mkRef "dev-2" "device") "Strip" false (Some (float_of_Z 100)) None (Some (mkColor (mkXY (lit 3 1) (lit 3 1)) no_gamut)).
Definition bulb : Light := mkLight "cccccccc-0003" (mkRef "dev-3" "device") "Bulb" true None None None.
Definition statuses0 : gmap string string := {["aaaaaaaa-0001" := "connected"; "bbbbbbbb-0002" := "connectivity_issue"]}.
Definition built : result build_error Hue := buildDriver pow (Ok [lamp; strip]) (Ok statuses0).
Definition h0 : Hue := match built with Ok h => h | Err _ => newHue end.
Lemma built_h0 : buildDriver pow (Ok [lamp; strip]) (Ok statuses0) = Ok h0.
Proof. vm_compute. reflexivity. Qed.

Definition as_is : orders := mkOrders (fun l => l) (fun _ l => l).
Lemma as_is_fair : fair_orders as_is.
Proof. by split. Qed.

Definition dim : Command := mkCommand "c1" "light.hue_aaaaaaaa" "set_brightness" {["brightness" := "200"]}.
Definition unplugged : Event := mkEvent "zc-1" "zigbee_connectivity" None None None None "connectivity_issue" (Some (mkRef "dev-1" "device")).
Definition paint : Event := mkEvent "bbbbbbbb-0002" "light" (Some true) None (Some (Some 250)) None "" None.
Definition day : list hue_event := [EvBridge paint; EvCommand None dim; EvBridge unplugged; EvNotice "sse_reconnected" "10ms"].

Lemma hue_daemon_shows_witness :
  StAttributes <$> daemon_view 0 "hue-1" ∅ (sent 0 (h_d (hue_run pow 0 h0 ([] ++ EvStart (fun l => l) :: day)))) !! "light.hue_aaaaaaaa" =
    Some (Some (mkAttributes (Some (Attributes_Light true 200 300 0)) false)).
Proof.
  apply (hue_daemon_shows pow 0 (Ok [lamp; strip]) (Ok statuses0) h0 0 "hue-1" ∅ [] (fun l => l) day);
    [exact built_h0|constructor|done|by vm_compute|by repeat constructor|vm_compute; reflexivity].
Defined.

Lemma cache_is_driver_witness :
  let h' := hue_run pow 0 h0 day in
  (d_entities (h_d h') !! "light.hue_aaaaaaaa" ≫= en_attrs) = cached h' "light.hue_aaaaaaaa".
Proof. apply (cache_is_driver pow 0 (Ok [lamp; strip]) (Ok statuses0) h0 day built_h0). by repeat constructor. Defined.

(** The lamp is gone, the bulb is new. *)
Lemma day_fair : Forall fair day.
Proof. by repeat constructor. Qed.
Definition after_day : Hue := hue_run pow 0 h0 day.
Definition seen_ids : list string := ["aaaaaaaa-0001"; "bbbbbbbb-0002"; "cccccccc-0003"].
Lemma day_ids : bool_decide (dom (c_hueToID (h_cache after_day)) ∪ list_to_set (l_ID <$> [strip; bulb]) = list_to_set seen_ids) = true.
Proof. vm_compute. reflexivity. Qed.
Lemma next_apart : all_apart (hue_run pow 0 h0 day) [strip; bulb].
Proof.
  unfold all_apart. fold after_day. rewrite (bool_decide_eq_true_1 _ day_ids).
  assert (H : Forall (fun hid => Forall (fun hid' => EntityID hid' = EntityID hid -> hid' = hid) seen_ids) (l_ID <$> [strip; bulb])).
  { repeat (apply Forall_cons_2 || apply Forall_nil_2); by vm_compute. }
  eapply Forall_impl; [exact H|]. intros hid Hh hid' Hin%elem_of_list_to_set He. rewrite Forall_forall in Hh. by apply Hh.
Qed.

(** The same day, with the handlers interleaved: the command waits for the bridge while
    the strip is painted; an event is still to be emitted at the end. *)
Definition busy : list par_event :=
  [PCommand 1 dim; PBridge 0 paint; PAnswer 1 None; PEmit 0; PRecord 1; PBridge 0 unplugged; PWhole (EvNotice "sse_reconnected" "10ms")].
Definition after_busy : running := default (mkRunning h0 ∅) (par_run pow 0 (mkRunning h0 ∅) busy).
Definition resynced : running :=
  default after_busy (par_step pow 0 after_busy (PWhole (EvResync as_is (Ok [strip; bulb]) (Ok statuses0)))).

Lemma busy_ids : bool_decide (dom (c_hueToID (h_cache (r_h after_busy))) ∪ list_to_set (l_ID <$> [strip; bulb]) = list_to_set seen_ids) = true.
Proof. vm_compute. reflexivity. Qed.
Lemma busy_apart : all_apart (r_h after_busy) [strip; bulb].
Proof. unfold all_apart. rewrite (bool_decide_eq_true_1 _ busy_ids), <- (bool_decide_eq_true_1 _ day_ids). exact next_apart. Qed.
Lemma busy_runs : is_Some (par_run pow 0 (mkRunning h0 ∅) busy).
Proof. vm_compute. by eexists. Qed.
Lemma busy_run : par_run pow 0 (mkRunning h0 ∅) busy = Some after_busy.
Proof. unfold after_busy. by destruct busy_runs as [r ->]. Qed.

Lemma resync_exact_witness :
  is_Some (r_handlers after_busy !! 0%nat) /\
  ("light.hue_cccccccc" ∈ dom (d_entities (h_d (r_h resynced))) <-> exists l, l ∈ [strip; bulb] /\ "light.hue_cccccccc" = EntityID (l_ID l)) /\
  (d_entities (h_d (r_h resynced)) !! "light.hue_cccccccc" ≫= en_attrs) = Some (LightToAttrs pow bulb false).
Proof.
  split; [vm_compute; by eexists|].
  destruct (resync_exact pow 0 (Ok [lamp; strip]) (Ok statuses0) h0 busy after_busy as_is [strip; bulb] (Ok statuses0) resynced built_h0
    ltac:(by repeat constructor) busy_run as_is_fair busy_apart eq_refl) as [H1 H2]. split; [apply H1|].
  refine (eq_trans (H2 [strip] bulb [] eq_refl _) _); [apply not_elem_of_nil|vm_compute; reflexivity].
Defined.

(** The event that confirms a command is merged and emitted between the merge of the
    command and its record: the cache has the unplugged lamp, the driver kit does not. *)
Example event_in_command_diverges :
  (r ← par_run pow 0 (mkRunning h0 ∅) [PCommand 1 dim; PAnswer 1 None; PBridge 0 unplugged; PEmit 0; PRecord 1];
   Some (cached (r_h r) "light.hue_aaaaaaaa", d_entities (h_d (r_h r)) !! "light.hue_aaaaaaaa" ≫= en_attrs)) =
  Some (Some (mkAttributes (Some (Attributes_Light true 200 300 0)) false), Some (mkAttributes (Some (Attributes_Light true 200 300 0)) true)).
Proof. vm_compute. reflexivity. Qed.

Lemma outage_of_devices_hides_bulbs_witness :
  (d_entities (h_d (hue_step pow 0 (hue_run pow 0 h0 day) (EvResync as_is (Ok [strip; bulb]) (Err (plain "timeout"))))) !! EntityID (l_ID strip) ≫= en_attrs)
    = Some (LightToAttrs pow strip false).
Proof.
  apply (outage_of_devices_hides_bulbs pow 0 (Ok [lamp; strip]) (Ok statuses0) h0 day as_is [strip; bulb] (plain "timeout") [] strip [bulb]);
    [exact built_h0|exact day_fair|exact as_is_fair|exact next_apart|done|apply (bool_decide_unpack _); by vm_compute].
Defined.

Lemma removed_under_command_panics_witness :
  exists msg, OnCommand_finish dim (Ok (Some (attrs_of no_state true))) 0
    (h_d (hue_step pow 0 (hue_run pow 0 h0 day) (EvResync as_is (Ok [strip; bulb]) (Ok statuses0)))) = Panic msg.
Proof.
  apply (removed_under_command_panics pow 0 (Ok [lamp; strip]) (Ok statuses0) h0 day as_is [strip; bulb]);
    [exact built_h0|exact day_fair|exact as_is_fair|exact next_apart|by vm_compute|apply (bool_decide_unpack _); by vm_compute].
Defined.

Definition fade : string_map := {["brightness" := "200"; "duration_ms" := "400"]}.
Lemma brightness_survives_witness :
  merge_state pow no_state (echo "aaaaaaaa-0001" no_gamut (mkUpdate (Some true) (Some (percent 200)) None None (Some 400))) = mkState true 200 0 0.
Proof. apply (brightness_survives pow 200 fade no_gamut no_state); [done|by vm_compute|vm_compute; reflexivity]. Defined.

Lemma command_echo_witness :
  let u := mkUpdate (Some true) (Some (percent 200)) None None (Some 400) in
  let st := merge_state pow no_state (update_event u) in merge_state pow st (echo "aaaaaaaa-0001" no_gamut u) = st.
Proof. apply (command_echo pow "set_brightness" fade no_gamut); [vm_compute; reflexivity|done]. Defined.

Lemma set_color_shows_old_witness :
  let u := mkUpdate (Some true) None None (Some (RGBToXY pow (255, 0, 0))) None in
  exists xy, u_Color u = Some xy /\ merge_state pow (mkState false 100 0 65280) (update_event u) = mkState true 100 0 65280.
Proof. apply (set_color_shows_old pow {["hex" := "#FF0000"]} no_gamut (mkState false 100 0 65280)). vm_compute. reflexivity. Defined.

Lemma reach_exact_witness :
  let h := with_cache (mkCache ∅ ∅ ∅ ∅ ∅ (mkReach 2 false)) h0 in
  c_reach (h_cache (record (Some "timeout") h)) = mkReach 3 true.
Proof. apply (reach_exact [Some "timeout"; Some "timeout"] (Some "timeout") (with_cache (mkCache ∅ ∅ ∅ ∅ ∅ (mkReach 2 false)) h0)). reflexivity. Defined.

End HueDemo.
