(* ===== verification/StarlarkLS.v ===== *)
(** * The Starlark language server

    Models [internal/starlarkls]: the diagnosis of a script ([diagnose.go]), the symbols
    of the scripts directory ([symbols.go]) and the editor's calls ([service.go]). The
    parser is a library: its result is an argument, a tree with the nodes and fields
    that the code reads. Positions fit 32 bits.

    [wordAt_spec]: the word under the cursor. The examples show where the diagnosis does
    not have Starlark's scopes: [second_clause_flagged], [branch_binding_flagged],
    [lambda_spills], [operand_of_argument_missed], [dict_comprehension_missed]. *)

From Stdlib Require Import Ascii String.
From S2P Require Import Prelude Codec Dispatch DriverKit Config.

(** ** Syntax *)

Record Name := mkName { id_Name : string; id_Line : Z; id_Col : Z }.

Inductive Expr :=
  | EIdent (id : Name)
  | ELiteral (string_token : bool) (raw : string)
  | EUnary (X : option Expr)
  | EBinary (X Y : Expr)
  | ECall (Fn : Expr) (Args : list Expr)
  | EDot (X : Expr)
  | EIndex (X Y : Expr)
  | ESlice (X : Expr) (Lo Hi Step : option Expr)
  | EList (l : list Expr)
  | ETuple (l : list Expr)
  | EDict (entries : list (Expr * Expr))
  | EDictEntry (Key Value : Expr)
  | EComprehension (Body : Expr) (Clauses : list Clause)
  | ELambda (Params : list Expr) (Body : Expr)
  | ECond (Cond True_ False_ : Expr)
  | EParen (X : Expr)
with Clause :=
  | CFor (Vars X : Expr)
  | CIf (Cond : Expr).

Record LoadStmt := mkLoad { ld_Module : string; ld_Raw : string; ld_Line : Z; ld_Col : Z; ld_From : list Name; ld_To : list Name }.

Inductive Stmt :=
  | SDef (name : Name) (Params : list Expr) (Body : list Stmt)
  | SExpr (X : Expr)
  | SAssign (LHS RHS : Expr)
  | SReturn (Result : option Expr)
  | SIf (Cond : Expr) (True_ False_ : list Stmt)
  | SFor (Vars X : Expr) (Body : list Stmt)
  | SWhile (Cond : Expr) (Body : list Stmt)
  | SBranch
  | SLoad (l : LoadStmt).

(** ** Diagnosis *)

Record Diagnostic := mkDiag { dg_StartLine : Z; dg_StartCol : Z; dg_EndLine : Z; dg_EndCol : Z; dg_Severity : string; dg_Message : string; dg_Code : string }.

(** The error of the parser: a [syntax.Error] has a position. *)
Inductive parse_error := SyntaxError (line col : Z) (msg : string) | OtherError (msg : string).

Definition parseDiagnostic (e : parse_error) : Diagnostic :=
  match e with
  | SyntaxError line col msg => mkDiag line (Z.max (col - 1) 0) line (Z.max col 1) "error" msg "parse_error"
  | OtherError msg => mkDiag 1 0 1 1 "error" msg "parse_error"
  end.

Fixpoint collectAssignTargets (e : Expr) : gset string :=
  match e with
  | EIdent id => {[id_Name id]}
  | ETuple l | EList l => (fix all (l : list Expr) : gset string := match l with [] => ∅ | x :: r => collectAssignTargets x ∪ all r end) l
  | _ => ∅
  end.

Fixpoint collectParam (e : Expr) : gset string :=
  match e with
  | EIdent id => {[id_Name id]}
  | EBinary x _ => collectParam x
  | EUnary (Some x) => collectParam x
  | _ => ∅
  end.
Definition collectParams (params : list Expr) : gset string := union_list (collectParam <$> params).

Definition collectBodyBindings (stmts : list Stmt) : gset string :=
  union_list ((fun s => match s with SAssign lhs _ => collectAssignTargets lhs | SDef name _ _ => {[id_Name name]} | _ => ∅ end) <$> stmts).

(** The names bound around the whole file: [topLevel], [loaded] and [predeclared]. *)
Record refWalker := mkWalker { w_topLevel : gset string; w_loaded : gset string; w_predeclared : gset string }.

Definition flag (id : Name) : Diagnostic :=
  mkDiag (id_Line id) (id_Col id - 1) (id_Line id) (id_Col id - 1 + Z.of_nat (String.length (id_Name id))) "warning"
    ("unresolved name " +:+ quoted (id_Name id)) "unresolved_name".

(** The lists of scopes are slices. [walkComprehension] walks the iterable of a clause
    with [nested] less its last scope, which leaves room for one, and a lambda there
    appends its scope in place: it takes the element of the comprehension's own scope.
    This is the scope that the last such lambda of an expression leaves, if any; an inner
    comprehension copies the slice first. *)
Fixpoint spilled (e : Expr) : option (gset string) :=
  match e with
  | EIdent _ | ELiteral _ _ | EDictEntry _ _ | EComprehension _ _ => None
  | EUnary x => match x with Some x => spilled x | None => None end
  | EBinary x y | EIndex x y => spilled y ∪ spilled x
  | ECall fn args =>
      (fix go (l : list Expr) (acc : option (gset string)) : option (gset string) :=
         match l with
         | [] => acc
         | a :: r =>
             go r (match a with
                   | EBinary _ y => spilled y
                   | EUnary x => match x with Some x => spilled x | None => None end
                   | _ => spilled a
                   end ∪ acc)
         end) args (spilled fn)
  | EDot x | EParen x => spilled x
  | ESlice x lo hi step =>
      match step with Some x => spilled x | None => None end ∪ match hi with Some x => spilled x | None => None end ∪
      match lo with Some x => spilled x | None => None end ∪ spilled x
  | EList l | ETuple l =>
      (fix go (l : list Expr) (acc : option (gset string)) : option (gset string) :=
         match l with [] => acc | x :: r => go r (spilled x ∪ acc) end) l None
  | EDict l =>
      (fix go (l : list (Expr * Expr)) (acc : option (gset string)) : option (gset string) :=
         match l with [] => acc | (k, v) :: r => go r (spilled v ∪ spilled k ∪ acc) end) l None
  | ELambda params _ => Some (collectParams params)
  | ECond c t f => spilled f ∪ spilled t ∪ spilled c
  end.

Section Walk.
Context (w : refWalker).

Definition isResolved (name : string) (locals : list (gset string)) : bool :=
  existsb (fun scope => bool_decide (name ∈ scope)) (reverse locals) ||
  bool_decide (name ∈ w_topLevel w) || bool_decide (name ∈ w_loaded w) || bool_decide (name ∈ w_predeclared w).

Fixpoint walkExpr (e : Expr) (locals : list (gset string)) : list Diagnostic :=
  match e with
  | EIdent id => if isResolved (id_Name id) locals then [] else [flag id]
  | ELiteral _ _ => []
  | EUnary x => match x with Some x => walkExpr x locals | None => [] end
  | EBinary x y => walkExpr x locals ++ walkExpr y locals
  | ECall fn args =>
      walkExpr fn locals ++
      (fix go (l : list Expr) : list Diagnostic :=
         match l with
         | [] => []
         | a :: r =>
             match a with
             | EBinary _ y => walkExpr y locals
             | EUnary x => match x with Some x => walkExpr x locals | None => [] end
             | _ => walkExpr a locals
             end ++ go r
         end) args
  | EDot x => walkExpr x locals
  | EIndex x y => walkExpr x locals ++ walkExpr y locals
  | ESlice x lo hi step =>
      walkExpr x locals ++ match lo with Some x => walkExpr x locals | None => [] end ++
      match hi with Some x => walkExpr x locals | None => [] end ++ match step with Some x => walkExpr x locals | None => [] end
  | EList l | ETuple l =>
      (fix go (l : list Expr) : list Diagnostic := match l with [] => [] | x :: r => walkExpr x locals ++ go r end) l
  | EDict l =>
      (fix go (l : list (Expr * Expr)) : list Diagnostic :=
         match l with [] => [] | (k, v) :: r => walkExpr k locals ++ walkExpr v locals ++ go r end) l
  | EDictEntry _ _ => []
  | EComprehension body clauses =>
      (fix go (l : list Clause) (scope : gset string) (slot : option (gset string)) : list Diagnostic :=
         match l with
         | [] => walkExpr body (locals ++ [default scope slot])
         | CFor vars x :: r => walkExpr x locals ++ go r (scope ∪ collectAssignTargets vars) (spilled x ∪ slot)
         | CIf cond :: r => walkExpr cond (locals ++ [default scope slot]) ++ go r scope slot
         end) clauses ∅ None
  | ELambda params body =>
      (fix go (l : list Expr) : list Diagnostic :=
         match l with [] => [] | p :: r => match p with EBinary _ y => walkExpr y locals | _ => [] end ++ go r end) params ++
      walkExpr body (locals ++ [collectParams params])
  | ECond c t f => walkExpr c locals ++ walkExpr t locals ++ walkExpr f locals
  | EParen x => walkExpr x locals
  end.

Definition walkParamDefault (locals : list (gset string)) (p : Expr) : list Diagnostic :=
  match p with EBinary _ y => walkExpr y locals | _ => [] end.

Fixpoint walkStmt (s : Stmt) (locals : list (gset string)) : list Diagnostic :=
  let all := fix all (l : list Stmt) (locals : list (gset string)) : list Diagnostic :=
    match l with [] => [] | s :: r => walkStmt s locals ++ all r locals end in
  match s with
  | SDef _ params body =>
      (params ≫= walkParamDefault locals) ++ all body (locals ++ [collectParams params ∪ collectBodyBindings body])
  | SExpr x => walkExpr x locals
  | SAssign _ rhs => walkExpr rhs locals
  | SReturn r => match r with Some x => walkExpr x locals | None => [] end
  | SIf cond t f => walkExpr cond locals ++ all t locals ++ all f locals
  | SFor vars x body => walkExpr x locals ++ all body (locals ++ [collectAssignTargets vars])
  | SWhile cond body => walkExpr cond locals ++ all body locals
  | SBranch | SLoad _ => []
  end.

End Walk.

(** What the parser makes of a text. *)
Definition parsed : Type := parse_error + list Stmt.

Definition topLevel (stmts : list Stmt) : gset string := collectBodyBindings stmts.
Definition loads (stmts : list Stmt) : list LoadStmt := stmts ≫= fun s => match s with SLoad l => [l] | _ => [] end.
(** The binding at an index is that of [To], when there is one. *)
Fixpoint bindings (from to : list Name) : list Name :=
  match from, to with [], _ => [] | _ :: from, b :: to => b :: bindings from to | a :: from, [] => a :: bindings from [] end.
Definition loadedNames (stmts : list Stmt) : gset string :=
  list_to_set (loads stmts ≫= fun l => id_Name <$> bindings (ld_From l) (ld_To l)).

Record SymbolInfo := mkSymbol { sy_File : string; sy_Line : Z; sy_Kind : string; sy_Doc : string }.

Definition loadableSymbolPaths (symbols : gmap string SymbolInfo) : gset string :=
  list_to_set (map_to_list symbols ≫= fun kv => if is_empty (sy_File kv.2) then [] else [sy_File kv.2; Base (sy_File kv.2)]).

Definition load_error (l : LoadStmt) : Diagnostic :=
  mkDiag (ld_Line l) (ld_Col l - 1) (ld_Line l) (ld_Col l - 1 + Z.of_nat (String.length (ld_Raw l))) "error"
    ("load: file " +:+ quoted (ld_Module l) +:+ " not found in scripts directory") "load_not_found".

Definition Diagnose (p : parsed) (symbols : gmap string SymbolInfo) (predeclared : gset string) : list Diagnostic :=
  match p with
  | inl e => [parseDiagnostic e]
  | inr stmts =>
      let paths := loadableSymbolPaths symbols in
      (load_error <$> filter (fun l => ld_Module l ∉ paths /\ Base (ld_Module l) ∉ paths) (loads stmts)) ++
      (stmts ≫= fun s => walkStmt (mkWalker (topLevel stmts) (loadedNames stmts) predeclared) s [])
  end.

Definition starlarkUniverse : list string :=
  ["True"; "False"; "None"; "bool"; "bytes"; "dict"; "float"; "int"; "list"; "set"; "str"; "tuple"; "abs"; "all"; "any"; "chr"; "dir";
   "enumerate"; "fail"; "getattr"; "hasattr"; "hash"; "len"; "max"; "min"; "ord"; "print"; "range"; "repr"; "reversed"; "sorted"; "type"; "zip"].
Definition switchyardGlobals : list string :=
  ["state"; "now"; "time"; "log"; "call_service"; "random"; "sleep"; "notify"; "scene"; "event"].
Definition predeclaredNames : gset string := list_to_set (starlarkUniverse ++ switchyardGlobals).

(** ** Symbols *)

(** [strings.ToUpper] of an identifier of ASCII letters. *)
Definition upper (c : ascii) : ascii := let n := N_of_ascii c in if (N.leb 97 n && N.leb n 122)%N then ascii_of_N (n - 32) else c.
Fixpoint all_upper (s : string) : bool := match s with "" => true | String c s => Ascii.eqb (upper c) c && all_upper s end.

(** [strings.Trim] of quotes. *)
Fixpoint trim_quotes (l : list ascii) : list ascii :=
  match l with c :: r => if Ascii.eqb c "034" || Ascii.eqb c "'" then trim_quotes r else l | [] => [] end.
Definition Trim_quotes (s : string) : string :=
  string_of_list_ascii (reverse (trim_quotes (reverse (trim_quotes (list_ascii_of_string s))))).

Definition extractDoc (body : list Stmt) : string :=
  match body with SExpr (ELiteral true raw) :: _ => Trim_quotes raw | _ => "" end.

Definition symbol_of (path : string) (s : Stmt) : option (string * SymbolInfo) :=
  match s with
  | SDef name _ body => Some (id_Name name, mkSymbol path (id_Line name) "function" (extractDoc body))
  | SAssign (EIdent id) _ =>
      if all_upper (id_Name id) && negb (String.eqb (id_Name id) "_") then Some (id_Name id, mkSymbol path (id_Line id) "global" "") else None
  | _ => None
  end.

(** [ExtractSymbols] over the files that [filepath.Glob] found, in its order. *)
Definition ExtractSymbols (files : list (string * parsed)) : gmap string SymbolInfo :=
  foldl (fun m f =>
    match f.2 with
    | inl _ => m
    | inr stmts => foldl (fun m s => match symbol_of f.1 s with Some (name, sym) => <[name := sym]> m | None => m end) m stmts
    end) ∅ files.

(** ** The editor's calls *)

Definition isIdent (c : ascii) : bool :=
  let n := N_of_ascii c in ((N.leb 97 n && N.leb n 122) || (N.leb 65 n && N.leb n 90) || (N.leb 48 n && N.leb n 57) || N.eqb n 95)%N.
Fixpoint run (l : list ascii) : list ascii := match l with c :: r => if isIdent c then c :: run r else [] | [] => [] end.

(** Text before the cursor as a list; the loops go back and forth over identifier characters. *)
Definition wordBefore (s : list ascii) : list ascii := reverse (run (reverse s)).

Definition index_panic : string := "index out of range".
Definition slice_panic : string := "slice bounds out of range".

(** [wordAt]; a negative column skips the first loop and fails in the second. *)
Definition wordAt (line : list ascii) (col : Z) : go (list ascii) :=
  let col := if Z.of_nat (length line) <? col then Z.of_nat (length line) else col in
  if col <? 0 then Panic index_panic
  else let n := Z.to_nat col in Done (wordBefore (take n line) ++ run (drop n line)).

Definition lines_of (source : string) : list (list ascii) := list_ascii_of_string <$> Split "010" source.

Record CompletionItem := mkItem { ci_Label : string; ci_Kind : string; ci_Detail : string; ci_InsertText : string }.

Section Service.
Context (symbols : gmap string SymbolInfo).

(** [order] is Go's order of ranging over the symbols. *)
Definition Complete (order : list (string * SymbolInfo) -> list (string * SymbolInfo)) (source : string) (line col : Z) : go (list CompletionItem) :=
  let lines := lines_of source in
  let i := line - 1 in
  if (i <? 0) || (Z.of_nat (length lines) <=? i) then Done []
  else
    let l := default [] (lines !! Z.to_nat i) in
    let col := if Z.of_nat (length l) <? col then Z.of_nat (length l) else col in
    if col <? 0 then Panic slice_panic
    else
      let prefix := string_of_list_ascii (wordBefore (take (Z.to_nat col) l)) in
      Done ((fun kv => mkItem kv.1 (sy_Kind kv.2) (sy_Doc kv.2) kv.1) <$> filter (fun kv => has_prefix kv.1 prefix = true) (order (map_to_list symbols))).

Definition Hover (source : string) (line col : Z) : go string :=
  let lines := lines_of source in
  let i := line - 1 in
  if (i <? 0) || (Z.of_nat (length lines) <=? i) then Done ""
  else
    match wordAt (default [] (lines !! Z.to_nat i)) col with
    | Panic msg => Panic msg
    | Done word =>
        let word := string_of_list_ascii word in
        match symbols !! word with
        | None => Done ""
        | Some sym =>
            let md := "**" +:+ sy_Kind sym +:+ "** `" +:+ word +:+ "`" in
            Done (if is_empty (sy_Doc sym) then md else md +:+ String "010" (String "010" (sy_Doc sym)))
        end
    end.

Definition LookupSymbol (name : string) : option SymbolInfo := symbols !! name.
End Service.

(** *** Tokens *)

Definition keywords : list string :=
  ["def"; "if"; "else"; "elif"; "for"; "in"; "return"; "and"; "or"; "not"; "True"; "False"; "None"; "load"; "lambda"; "pass"; "break"; "continue"].

(** [strings.Index]. *)
Fixpoint Index (s sub : string) : option nat :=
  if has_prefix s sub then Some 0%nat else match s with EmptyString => None | String _ s => S <$> Index s sub end.

Record TokenSpan := mkSpan { sp_Line : Z; sp_StartCol : nat; sp_EndCol : nat; sp_Type : string }.

Definition line_spans (n : nat) (line : string) : list TokenSpan :=
  keywords ≫= fun kw => match Index line kw with
                        | Some col => [mkSpan (Z.of_nat n + 1) col (col + String.length kw) "keyword"]
                        | None => []
                        end.
Definition Tokenize (source : string) : list TokenSpan := concat (imap line_spans (Split "010" source)).

(** ** The word under the cursor *)

Lemma run_split l : exists r, l = run l ++ r /\ Forall (fun c => isIdent c = true) (run l) /\ match r with c :: _ => isIdent c = false | [] => True end.
Proof.
  induction l as [|c l (r & Hl & Hf & Hr)]; cbn; [by exists []|]. destruct (isIdent c) eqn:Hc; [|by exists (c :: l)].
  exists r. cbn. split_and!; [by f_equal|by constructor|done].
Qed.

(** The word at a column is the whole identifier around it: the longest run of
    identifier characters that contains or touches the column; past the end of the line
    the column is that of the end. A negative column, which the request can carry, is
    no word but a panic. *)
Theorem wordAt_spec line col :
  match wordAt line col with
  | Panic _ => col < 0
  | Done word =>
      0 <= col /\ exists before after, line = before ++ word ++ after /\ Forall (fun c => isIdent c = true) word /\
        (length before <= Nat.min (Z.to_nat col) (length line) <= length before + length word)%nat /\
        match last before with Some c => isIdent c = false | None => True end /\
        match after with c :: _ => isIdent c = false | [] => True end
  end.
Proof.
  unfold wordAt. set (c := if _ <? col then _ else col). assert (Hc : c = Z.min (Z.of_nat (length line)) col) by (unfold c; destruct (_ <? _) eqn:?; lia).
  destruct (c <? 0) eqn:Hneg; [lia|]. set (n := Z.to_nat c). assert (Hn : n = Nat.min (Z.to_nat col) (length line)) by lia. split; [lia|].
  destruct (run_split (reverse (take n line))) as (r1 & Hl1 & Hf1 & Hr1). destruct (run_split (drop n line)) as (r2 & Hl2 & Hf2 & Hr2).
  assert (Ht : take n line = reverse r1 ++ wordBefore (take n line)) by (unfold wordBefore; rewrite <- reverse_app, <- Hl1, reverse_involutive; done).
  exists (reverse r1), r2. assert (Hlen : length (take n line) = (length (reverse r1) + length (wordBefore (take n line)))%nat) by (rewrite Ht at 1; apply length_app).
  rewrite length_take in Hlen. split_and!.
  - rewrite <- (take_drop n line) at 1. rewrite Ht at 1. rewrite Hl2 at 1. by rewrite <- !app_assoc.
  - apply Forall_app. split; [|done]. unfold wordBefore. apply Forall_reverse, Hf1.
  - rewrite length_reverse in *. lia.
  - rewrite length_app. lia.
  - rewrite last_reverse. by destruct r1.
  - done.
Qed.

(** ** Where the scopes are not Starlark's *)

(** The names of a loop are those of its function in Starlark, and the second loop of a
    comprehension sees the first; the diagnosis reports both. *)
Module LSDemo.

Definition n (s : string) : Name := mkName s 1 1.
Definition v (s : string) : Expr := EIdent (n s).
Definition names (l : list Diagnostic) : list string := dg_Message <$> l.

(** [r = [y for x in range(3) for y in x]]. *)
Example second_clause_flagged :
  names (Diagnose (inr [SAssign (v "r") (EComprehension (v "y") [CFor (v "x") (ECall (v "range") [ELiteral false "3"]); CFor (v "y") (v "x")])]) ∅ predeclaredNames)
    = ["unresolved name " +:+ quoted "x"].
Proof. vm_compute. reflexivity. Qed.

(** [def f(c): if c: a = 1; return a]: a binding in a branch is not collected. *)
Example branch_binding_flagged :
  names (Diagnose (inr [SDef (n "f") [v "c"] [SIf (v "c") [SAssign (v "a") (ELiteral false "1")] []; SReturn (Some (v "a"))]]) ∅ predeclaredNames)
    = ["unresolved name " +:+ quoted "a"].
Proof. vm_compute. reflexivity. Qed.

(** [print(nobody + 1)]: the left operand of an argument is taken for a keyword. *)
Example operand_of_argument_missed :
  Diagnose (inr [SExpr (ECall (v "print") [EBinary (v "nobody") (ELiteral false "1")])]) ∅ predeclaredNames = [].
Proof. vm_compute. reflexivity. Qed.

(** [r = [x for x in sorted(range(3), key=lambda v: v)]]: the lambda takes the place of
    the comprehension's scope. *)
Example lambda_spills :
  names (Diagnose (inr [SAssign (v "r") (EComprehension (v "x")
    [CFor (v "x") (ECall (v "sorted") [ECall (v "range") [ELiteral false "3"]; EBinary (v "key") (ELambda [v "v"] (v "v"))])])]) ∅ predeclaredNames)
    = ["unresolved name " +:+ quoted "x"].
Proof. vm_compute. reflexivity. Qed.

(** [r = {nobody: 1 for x in range(3)}]: the body of a dict comprehension is not walked. *)
Example dict_comprehension_missed :
  Diagnose (inr [SAssign (v "r") (EComprehension (EDictEntry (v "nobody") (ELiteral false "1")) [CFor (v "x") (ECall (v "range") [ELiteral false "3"])])])
    ∅ predeclaredNames = [].
Proof. vm_compute. reflexivity. Qed.

(** Keywords are found inside of names, and only once on a line. *)
Example tokens_inside_names : Tokenize "string" = [mkSpan 1 3 5 "keyword"].
Proof. vm_compute. reflexivity. Qed.

Example hover_negative_column : Hover ∅ "x" 1 (-1) = Panic index_panic.
Proof. reflexivity. Qed.
Example complete_negative_column : Complete ∅ (fun l => l) "x" 1 (-1) = Panic slice_panic.
Proof. reflexivity. Qed.

End LSDemo.
