(* ===== verification/Regen.v ===== *)
(** * Regenerated configuration

    Models [internal/automation/regen]: the Pkl text of an automation, a scene, an area
    and the map of areas, and [RegenPreview] of [internal/api/config_edit_handler.go],
    which serves them. The strategy for failures, which no other part reads, is an
    argument. The form of [%g] is a parameter; the order in which Go ranges over a map
    is an argument.

    [entity_areas_injective]: the text of the map of areas determines it.
    [Render_forgets], [order_shows]: what the text does not keep, and what it shows. *)

From Stdlib Require Import Ascii String SpecFloat.
From S2P Require Import Prelude Codec Sorting Engine Rules Events Dispatch DriverKit ConfigDecode.

(** ** Text *)

Definition newline : string := String "010" "".
Definition quotes3 : string := String "034" (String "034" (String "034" "")).
(** What [pklWriter] holds after some lines. *)
Fixpoint text (lines : list string) : string := match lines with [] => "" | l :: r => l +:+ newline +:+ text r end.

(** [strings.Repeat] of two blanks. *)
Fixpoint indent (depth : nat) : string := match depth with O => "" | S d => "  " +:+ indent d end.

Definition generated : string := "// Auto-generated by switchyardd regen — do not edit manually.".
Definition field (name value : string) : string := name +:+ " = " +:+ quoted value.
(** A field that is left out when it is empty. *)
Definition optional (pre name value : string) : list string := if is_empty value then [] else [pre +:+ field name value].
Definition listing (pre name : string) (l : list string) : list string :=
  match l with [] => [] | _ => [pre +:+ name +:+ " {"] ++ ((fun v => pre +:+ "  " +:+ quoted v) <$> l) ++ [pre +:+ "}"] end.
Definition entry (kv : string * string) : string := "[" +:+ quoted kv.1 +:+ "] = " +:+ quoted kv.2.

Inductive OnFailure := Ignore | Retry (maxAttempts backoffNs : Z) | Notify (entity message : string).

Section Render.
(** [%g] of a double; the order of ranging over a map. *)
Context (format_g : spec_float -> string) (order : string_map -> list (string * string)).

Definition mapping (pre name : string) (m : string_map) : list string :=
  match order m with [] => [] | l => [pre +:+ name +:+ " {"] ++ ((fun kv => pre +:+ "  " +:+ entry kv) <$> l) ++ [pre +:+ "}"] end.

Definition renderTrigger (tc : TriggerConfig) : list string :=
  match tc with
  | TC_StateChange entities from to forDurNs =>
      ["  new auto.StateChangeTrigger {"] ++ listing "    " "entities" entities ++ optional "    " "from" from ++ optional "    " "to" to ++
      (if 0 <? forDurNs then ["    forDur = " +:+ pretty forDurNs +:+ ".ns"] else []) ++ ["  }"]
  | TC_Event kind data => ["  new auto.EventTrigger {"; "    " +:+ field "kind" kind] ++ mapping "    " "data" data ++ ["  }"]
  | TC_Time at_ cron everyNs =>
      ["  new auto.TimeTrigger {"] ++ optional "    " "at" at_ ++ optional "    " "cron" cron ++
      (if 0 <? everyNs then ["    every = " +:+ pretty everyNs +:+ ".ns"] else []) ++ ["  }"]
  | TC_Webhook path methods => ["  new auto.WebhookTrigger {"; "    " +:+ field "path" path] ++ listing "    " "methods" methods ++ ["  }"]
  | TC_Unset => []
  end.

(** A Starlark text between the marks of a locked region. *)
Definition locked (pre kind name body : string) : list string :=
  [pre +:+ "// locked-region:starlark"; pre +:+ "new auto." +:+ kind +:+ " {";
   pre +:+ "  " +:+ name +:+ " = #" +:+ quotes3 +:+ newline +:+ body +:+ newline +:+ pre +:+ quotes3 +:+ "#";
   pre +:+ "}"; pre +:+ "// end-locked-region"].

Fixpoint renderCondition (cc : ConditionConfig) (depth : nat) : list string :=
  let pre := indent depth in
  let all := fix all (l : list ConditionConfig) : list string :=
    match l with [] => [] | c :: r => renderCondition c (depth + 2) ++ all r end in
  match cc with
  | CC_State entity equals oneOf not_ =>
      [pre +:+ "new auto.StateCondition {"; pre +:+ "  " +:+ field "entity" entity] ++ optional (pre +:+ "  ") "equals" equals ++
      optional (pre +:+ "  ") "not" not_ ++ listing (pre +:+ "  ") "oneOf" oneOf ++ [pre +:+ "}"]
  | CC_Numeric entity attribute op value =>
      [pre +:+ "new auto.NumericCondition {"; pre +:+ "  " +:+ field "entity" entity] ++
      (if String.eqb attribute "value" then [] else optional (pre +:+ "  ") "attribute" attribute) ++
      [pre +:+ "  " +:+ field "op" op; pre +:+ "  value = " +:+ format_g value; pre +:+ "}"]
  | CC_Time after before weekdays =>
      [pre +:+ "new auto.TimeCondition {"] ++ optional (pre +:+ "  ") "after" after ++ optional (pre +:+ "  ") "before" before ++
      listing (pre +:+ "  ") "weekdays" weekdays ++ [pre +:+ "}"]
  | CC_Starlark expr => locked pre "StarlarkCondition" "expr" expr
  | CC_And l => [pre +:+ "new auto.AndCondition {"; pre +:+ "  all {"] ++ all l ++ [pre +:+ "  }"; pre +:+ "}"]
  | CC_Or l => [pre +:+ "new auto.OrCondition {"; pre +:+ "  any {"] ++ all l ++ [pre +:+ "  }"; pre +:+ "}"]
  | CC_Not inner => [pre +:+ "new auto.NotCondition {"; pre +:+ "  not ="] ++ renderCondition inner (depth + 1) ++ [pre +:+ "}"]
  | CC_Unset => []
  end.

Fixpoint renderAction (act : ActionConfig) (depth : nat) : list string :=
  let pre := indent depth in
  let all := fix all (l : list ActionConfig) : list string :=
    match l with [] => [] | a :: r => renderAction a (depth + 2) ++ all r end in
  match act with
  | AC_CallService continue entity capability args =>
      [pre +:+ "new auto.CallServiceAction {"; pre +:+ "  " +:+ field "entity" entity; pre +:+ "  " +:+ field "capability" capability] ++
      mapping (pre +:+ "  ") "args" args ++ (if continue then [pre +:+ "  continueOnError = true"] else []) ++ [pre +:+ "}"]
  | AC_Scene _ slug => [pre +:+ "new auto.SceneAction {"; pre +:+ "  " +:+ field "slug" slug; pre +:+ "}"]
  | AC_Script _ name args =>
      [pre +:+ "new auto.ScriptAction {"; pre +:+ "  " +:+ field "name" name] ++ mapping (pre +:+ "  ") "args" args ++ [pre +:+ "}"]
  | AC_Starlark _ body => locked pre "StarlarkAction" "body" body
  | AC_Wait _ d => [pre +:+ "new auto.WaitAction {"; pre +:+ "  duration = " +:+ pretty d +:+ ".ns"; pre +:+ "}"]
  | AC_Sequence _ l => [pre +:+ "new auto.SequenceBlock {"; pre +:+ "  actions {"] ++ all l ++ [pre +:+ "  }"; pre +:+ "}"]
  | AC_Parallel _ l => [pre +:+ "new auto.ParallelBlock {"; pre +:+ "  actions {"] ++ all l ++ [pre +:+ "  }"; pre +:+ "}"]
  | AC_Unset _ => []
  end.

Definition renderOnFailure (f : OnFailure) : list string :=
  match f with
  | Ignore => []
  | Retry maxAttempts backoffNs =>
      ["onFailure = new auto.RetryStrategy {"; "  maxAttempts = " +:+ pretty maxAttempts] ++
      (if 0 <? backoffNs then ["  backoff = " +:+ pretty backoffNs +:+ ".ns"] else []) ++ ["}"]
  | Notify entity message =>
      ["onFailure = new auto.NotifyStrategy {"; "  " +:+ field "entity" entity; "  " +:+ field "message" message; "}"]
  end.

Definition automationModeStr (m : Mode) : string :=
  match m with ModeQueued => "queued" | ModeRestart => "restart" | ModeParallel => "parallel" | ModeSingle => "single" end.

Definition amends (template : string) : string := "amends " +:+ quoted template.
Definition import_auto : string := "import " +:+ quoted "switchyard:automations" +:+ " as auto".

(** [Render], as lines. *)
Definition Render_lines (ac : AutomationConfig) (onFailure : option OnFailure) : list string :=
  [amends "switchyard:automation"; import_auto; ""; generated; ""; field "id" (cfg_ID ac);
   "enabled = " +:+ (if cfg_Enabled ac then "true" else "false")] ++
  (if String.eqb (automationModeStr (cfg_Mode ac)) "single" then [] else [field "mode" (automationModeStr (cfg_Mode ac))]) ++
  (if (0 <? cfg_MaxQueued ac) && negb (cfg_MaxQueued ac =? 10) then ["maxQueued = " +:+ pretty (cfg_MaxQueued ac)] else []) ++
  ["triggers {"] ++ (cfg_Triggers ac ≫= renderTrigger) ++ ["}"] ++
  match cfg_Conditions ac with [] => [] | l => ["conditions {"] ++ (l ≫= fun c => renderCondition c 1) ++ ["}"] end ++
  ["actions {"] ++ (cfg_Actions ac ≫= fun a => renderAction a 1) ++ ["}"] ++
  match onFailure with Some f => renderOnFailure f | None => [] end.
Definition Render (ac : AutomationConfig) (onFailure : option OnFailure) : string := text (Render_lines ac onFailure).

Definition RenderScene (s : SceneConfig) : result string string :=
  if is_empty (scene_Id s) then Err "scene: id required"
  else Ok (text ([amends "switchyard:scene"; import_auto; ""; generated; ""; field "id" (scene_Id s); field "displayName" (scene_DisplayName s)] ++
             optional "" "areaId" (scene_AreaId s) ++ ["actions {"] ++ (scene_Actions s ≫= fun a => renderAction a 1) ++ ["}"])).

End Render.

Definition RenderArea (a : AreaConfig) : result string string :=
  if is_empty (area_Id a) then Err "area: id required"
  else Ok (text ([amends "switchyard:area"; ""; generated; ""; field "id" (area_Id a); field "displayName" (area_DisplayName a)] ++
             optional "" "parentId" (area_ParentId a))).

(** Keys are distinct, so that the order of the entries is that of the keys. *)
Definition key_order (a b : string * string) : Prop := String.le a.1 b.1.
#[export] Instance key_order_dec a b : Decision (key_order a b).
Proof. unfold key_order. apply _. Defined.

Definition RenderEntityAreas (m : string_map) : string :=
  text ([generated; ""; "entityAreas {"] ++ ((fun kv => "  " +:+ entry kv) <$> merge_sort key_order (map_to_list m)) ++ ["}"]).

(** [RegenPreview] with the decoded [ast_json] of each type. *)
Inductive ast := AstAutomation (ac : AutomationConfig) (f : option OnFailure) | AstArea (a : AreaConfig) | AstScene (s : SceneConfig) | AstEntityAreas (m : string_map).
Inductive preview_error := Malformed | RenderFailed (msg : string) | Unimplemented | UnknownFileType (t : string).

Definition RegenPreview (format_g : spec_float -> string) (order : string_map -> list (string * string)) (file_type : string)
    (decode : string -> option ast) : result preview_error string :=
  let rendered := fun r : result string string => match r with Ok t => Ok t | Err msg => Err (RenderFailed msg) end in
  if existsb (String.eqb file_type) ["automation"; "area"; "scene"; "entity_areas"] then
    match decode file_type with
    | None => Err Malformed
    | Some (AstAutomation ac f) => Ok (Render format_g order ac f)
    | Some (AstArea a) => rendered (RenderArea a)
    | Some (AstScene s) => rendered (RenderScene order s)
    | Some (AstEntityAreas m) => Ok (RenderEntityAreas m)
    end
  else if String.eqb file_type "page" then Err Unimplemented
  else Err (UnknownFileType file_type).

(** ** The map of areas *)

(** A quoted text is read back up to its closing quote. *)
Lemma escaped_unique s s' r r' : escaped s +:+ String "034" r = escaped s' +:+ String "034" r' -> s = s' /\ r = r'.
Proof.
  revert s'. induction s as [|a s IH]; intros [|b s']; cbn [escaped].
  - by intros [= ->].
  - repeat case_bool_decide; cbn; by intros [= <-].
  - repeat case_bool_decide; cbn; by intros [= ->].
  - repeat case_bool_decide; cbn; intros Heq; simplify_eq; match goal with H : escaped _ +:+ _ = escaped _ +:+ _ |- _ => apply IH in H as [-> ->] end; done.
Qed.

Lemma quoted_unique s s' r r' : quoted s +:+ r = quoted s' +:+ r' -> s = s' /\ r = r'.
Proof.
  unfold quoted. cbn [String.append]. intros [= H]. rewrite !str_app_assoc in H. cbn [String.append] in H. by apply escaped_unique.
Qed.

Definition area_lines (l : list (string * string)) : list string := ((fun kv => "  " +:+ entry kv) <$> l) ++ ["}"].

Lemma area_lines_inj l l' : text (area_lines l) = text (area_lines l') -> l = l'.
Proof.
  revert l'. induction l as [|[k v] l IH]; intros [|[k' v'] l']; [done|done|done|].
  unfold area_lines. cbn [fmap list_fmap app text]. unfold entry. cbn [fst snd]. rewrite !str_app_assoc.
  intros H%str_app_inj_l%str_app_inj_l. apply quoted_unique in H as [-> H%str_app_inj_l]. apply quoted_unique in H as [-> H%str_app_inj_l].
  f_equal. by apply IH.
Qed.

Lemma sorted_entries_inj (m m' : string_map) :
  merge_sort key_order (map_to_list m) = merge_sort key_order (map_to_list m') -> m = m'.
Proof.
  intros H. apply map_to_list_inj. rewrite <- (merge_sort_Permutation key_order (map_to_list m)), H. apply merge_sort_Permutation.
Qed.

(** The text of the map of areas loses nothing and does not depend on the order of
    Go's map: two maps have the same text only when they are the same map. *)
Theorem entity_areas_injective m m' : RenderEntityAreas m = RenderEntityAreas m' -> m = m'.
Proof.
  unfold RenderEntityAreas. cbn [app text]. intros H. apply sorted_entries_inj, area_lines_inj.
  do 6 apply str_app_inj_l in H. exact H.
Qed.

(** ** What the text does not keep *)

Section Forgets.
Context (format_g : spec_float -> string) (order : string_map -> list (string * string)).

(** An action without the flags that are not written. *)
Fixpoint unflag (act : ActionConfig) : ActionConfig :=
  let all := fix all (l : list ActionConfig) : list ActionConfig := match l with [] => [] | a :: r => unflag a :: all r end in
  match act with
  | AC_CallService continue entity capability args => AC_CallService continue entity capability args
  | AC_Scene _ slug => AC_Scene false slug
  | AC_Script _ name args => AC_Script false name args
  | AC_Starlark _ body => AC_Starlark false body
  | AC_Wait _ d => AC_Wait false d
  | AC_Sequence _ l => AC_Sequence false (all l)
  | AC_Parallel _ l => AC_Parallel false (all l)
  | AC_Unset _ => AC_Unset false
  end.

Lemma renderAction_unflag act depth : renderAction order (unflag act) depth = renderAction order act depth.
Proof.
  revert act depth. fix IH 1. intros act depth. destruct act; try reflexivity.
  - cbn [unflag renderAction]. do 2 f_equal. induction actions as [|a l IHl]; [reflexivity|]. rewrite IH. by f_equal.
  - cbn [unflag renderAction]. do 2 f_equal. induction actions as [|a l IHl]; [reflexivity|]. rewrite IH. by f_equal.
Qed.

(** The areas of an automation and the flag [continueOnError] of every action but a
    call are not in its text: writing the text back loses them. *)
Theorem Render_forgets ac areas f :
  Render format_g order ac f =
    Render format_g order (mkAutomationConfig (cfg_ID ac) (cfg_Enabled ac) (cfg_Mode ac) (cfg_MaxQueued ac) (cfg_Triggers ac) (cfg_Conditions ac)
      (unflag <$> cfg_Actions ac) areas) f.
Proof.
  assert (H : (unflag <$> cfg_Actions ac) ≫= (fun a => renderAction order a 1) = cfg_Actions ac ≫= (fun a => renderAction order a 1)).
  { induction (cfg_Actions ac) as [|a l IH]; [done|]. cbn [fmap list_fmap]. by rewrite !bind_cons, renderAction_unflag, IH. }
  unfold Render, Render_lines. cbn [cfg_ID cfg_Enabled cfg_Mode cfg_MaxQueued cfg_Triggers cfg_Conditions cfg_Actions]. by rewrite H.
Qed.
End Forgets.

Module RegenDemo.

Definition two : string_map := {["a" := "1"; "b" := "2"]}.
(** The package promises the same text for the same input; the entries of a map come in
    Go's order. *)
Example order_shows :
  renderTrigger map_to_list (TC_Event "k" two) <> renderTrigger (fun m => reverse (map_to_list m)) (TC_Event "k" two).
Proof. by vm_compute. Qed.

(** A Starlark text is not escaped: it can end its literal and go on in Pkl. *)
Example body_breaks_out body :
  locked "" "StarlarkAction" "body" ("x" +:+ newline +:+ quotes3 +:+ "#" +:+ newline +:+ body) !! 2%nat =
    Some ("  body = #" +:+ quotes3 +:+ newline +:+ "x" +:+ newline +:+ quotes3 +:+ "#" +:+ newline +:+ body +:+ newline +:+ quotes3 +:+ "#").
Proof. reflexivity. Qed.

Lemma entity_areas_injective_witness : RenderEntityAreas two = RenderEntityAreas (<["b" := "2"]> {["a" := "1"]}) /\ two = <["b" := "2"]> {["a" := "1"]}.
Proof.
  assert (RenderEntityAreas two = RenderEntityAreas (<["b" := "2"]> {["a" := "1"]})) as H by (vm_compute; reflexivity).
  split; [exact H|exact (entity_areas_injective _ _ H)].
Defined.

End RegenDemo.
