(* ===== verification/Discovery.v ===== *)
(** * Finding and watching configuration files

    Models [internal/config/discovery.go], the composition in [Evaluate] of
    [evaluator.go] and the file watcher of [watcher.go]. The directories, the Pkl
    evaluator and the hash of a file are arguments. The goroutines of a discovery finish
    in any order, which is an argument; at most eight run at a time, which changes
    nothing else. [sort.Slice] may order equal ids in any way; here they keep the order
    in which the files were read.

    [discovery_order_independent]: the order of the goroutines does not matter when ids
    are distinct. [each_file_accounted]: no file is lost. [watcher_exact]: which changes
    are announced; [creation_unnoticed], [deletion_unnoticed]: which are not. *)

From Stdlib Require Import Ascii String.
From S2P Require Import Prelude Codec Json Engine Rules ConfigDecode Config ConfigParse Paths.

(** ** Discovery *)

Record discovery_error := mkDiscErr { de_Code : string; de_File : string; de_Line : Z; de_Message : string }.

Inductive kind := KAutomation | KArea | KScene.
Record discoveryJob := mkJob { jb_relPath : string; jb_absPath : string; jb_kind : kind }.

(** [os.ReadDir] and [os.Stat]. *)
Inductive dir_result := DirMissing | DirFailed (msg : string) | DirEntries (l : list (string * bool)).
Inductive stat_result := StatMissing | StatFailed (msg : string) | StatOk.

Definition kinds : list (string * kind) := [("automations", KAutomation); ("areas", KArea); ("scenes", KScene)].

Definition dir_jobs (configDir dir : string) (k : kind) (r : dir_result) : list discoveryJob * list discovery_error :=
  match r with
  | DirMissing => ([], [])
  | DirFailed msg => ([], [mkDiscErr "discovery_read_dir" dir 0 msg])
  | DirEntries l =>
      ((fun e => mkJob (Join dir e.1) (Join (Join configDir dir) e.1) k) <$> filter (fun e => e.2 = false /\ has_suffix e.1 ".pkl" = true) l, [])
  end.

Definition collectJobs (read_dir : string -> dir_result) (configDir : string) : list discoveryJob * list discovery_error :=
  let parts := (fun k => dir_jobs configDir k.1 k.2 (read_dir (Join configDir k.1))) <$> kinds in
  (parts ≫= fst, parts ≫= snd).

(** *** The line of a Pkl error: the first match of [(?m)^\s*(\d+)\s*\|] *)

Definition is_space (c : ascii) : bool := existsb (Ascii.eqb c) [" "%char; "009"%char; "010"%char; "012"%char; "013"%char].
Definition is_digit (c : ascii) : bool := let n := N_of_ascii c in (N.leb 48 n && N.leb n 57)%N.
Fixpoint skip (p : ascii -> bool) (s : string) : string := match s with "" => "" | String c r => if p c then skip p r else s end.
Fixpoint span (p : ascii -> bool) (s : string) : string := match s with "" => "" | String c r => if p c then String c (span p r) else "" end.

Definition match_here (s : string) : option string :=
  let s := skip is_space s in
  let digits := span is_digit s in
  if is_empty digits then None
  else match skip is_space (skip is_digit s) with String c _ => if Ascii.eqb c "|" then Some digits else None | "" => None end.

Fixpoint first_match (line_start : bool) (s : string) : option string :=
  match (if line_start then match_here s else None) with
  | Some digits => Some digits
  | None => match s with "" => None | String c r => first_match (Ascii.eqb c "010") r end
  end.
Definition pklErrorLine (msg : string) : Z := match first_match true msg with Some digits => default 0 (ParseInt digits) | None => 0 end.

(** *** One file *)

Inductive outcome :=
  | FoundAutomation (c : AutomationConfig) | FoundArea (c : AreaConfig) | FoundScene (c : SceneConfig) | Failed (e : discovery_error).

Section Discovery.
(** The Pkl evaluator; [json.Unmarshal] with the other functions of decoding; the text
    of an error of decoding. *)
Context (evaluate : string -> result string string) (L : JSONLib) (error_text : decode_error -> string).

Definition pkl_error (file msg : string) : discovery_error := mkDiscErr "pkl_eval" file (pklErrorLine msg) msg.
Definition decoded {A} (file : string) (found : A -> outcome) (r : result decode_error A) : outcome :=
  match r with
  | Ok c => found c
  | Err JsonError => Failed (mkDiscErr "json_decode" file 0 (error_text JsonError))
  | Err e => Failed (mkDiscErr "decode" file 0 (error_text e))
  end.

Definition runDiscoveryJob (j : discoveryJob) : outcome :=
  match evaluate (jb_absPath j) with
  | Err msg => Failed (pkl_error (jb_relPath j) msg)
  | Ok text =>
      match Unmarshal L text with
      | None => Failed (mkDiscErr "json_decode" (jb_relPath j) 0 (error_text JsonError))
      | Some v =>
          match jb_kind j with
          | KAutomation => decoded (jb_relPath j) FoundAutomation (automationFromJSON L v)
          | KArea => decoded (jb_relPath j) FoundArea (areaFromJSON v)
          | KScene => decoded (jb_relPath j) FoundScene (sceneFromJSON L v)
          end
      end
  end.

Definition areas_file : string := "entity-areas.pkl".
Definition loadEntityAreas (stat : stat_result) (configDir : string) : result discovery_error (gmap string string) :=
  match stat with
  | StatMissing => Ok ∅
  | StatFailed msg => Err (mkDiscErr "discovery_stat" areas_file 0 msg)
  | StatOk =>
      match evaluate (Join configDir areas_file) with
      | Err msg => Err (pkl_error areas_file msg)
      | Ok text =>
          match (v ← Unmarshal L text; m ← as_struct v; get ∅ dec_string_map "entityAreas" m) with
          | None => Err (mkDiscErr "json_decode" areas_file 0 (error_text JsonError))
          | Some m => Ok m
          end
      end
  end.

(** [sort.Slice] by id. *)
Definition by_id {C} (id_of : C -> string) (a b : string * C) : Prop := String.le (id_of a.2) (id_of b.2).
#[export] Instance by_id_dec {C} (id_of : C -> string) a b : Decision (by_id id_of a b).
Proof. unfold by_id. apply _. Defined.
Definition sorted_found {C} (id_of : C -> string) (pick : outcome -> option C) (done_ : list (discoveryJob * outcome)) : list (string * C) :=
  merge_sort (by_id id_of) (omap (fun p => c ← pick p.2; Some (jb_relPath p.1, c)) done_).

Definition pick_automation (o : outcome) : option AutomationConfig := match o with FoundAutomation c => Some c | _ => None end.
Definition pick_area (o : outcome) : option AreaConfig := match o with FoundArea c => Some c | _ => None end.
Definition pick_scene (o : outcome) : option SceneConfig := match o with FoundScene c => Some c | _ => None end.
Definition pick_error (o : outcome) : option discovery_error := match o with Failed e => Some e | _ => None end.

(** The jobs finish in the order [finish], each with its outcome. *)
Definition discoverConfigDir (read_dir : string -> dir_result) (stat : stat_result) (finish : list discoveryJob -> list discoveryJob) (configDir : string) :
    discoveryResult * list discovery_error :=
  let '(jobs, errs) := collectJobs read_dir configDir in
  let done_ := (fun j => (j, runDiscoveryJob j)) <$> finish jobs in
  let '(areas, area_errs) := match loadEntityAreas stat configDir with Ok m => (m, []) | Err e => (∅, [e]) end in
  (mkDiscovery (sorted_found cfg_ID pick_automation done_) (sorted_found area_Id pick_area done_) (sorted_found scene_Id pick_scene done_) (map_to_list areas),
   errs ++ area_errs ++ omap (fun p => pick_error p.2) done_).

(** [Evaluate]: the configuration, the errors and whether the merge failed. *)
Inductive eval_failure := EvalError (msg : string) | ParseFailed (e : parse_error).

Definition Evaluate (parse : string -> result parse_error FullConfig) (read_dir : string -> dir_result) (stat : stat_result)
    (finish : list discoveryJob -> list discoveryJob) (configDir : string) : result eval_failure (FullConfig * list ValidationError * bool) :=
  match evaluate (configDir +:+ "/main.pkl") with
  | Err msg => Err (EvalError msg)
  | Ok text =>
      match parse text with
      | Err e => Err (ParseFailed e)
      | Ok full =>
          let '(disc, discErrs) := discoverConfigDir read_dir stat finish configDir in
          let '(merged, mergeErrs, failed) := mergeDiscovered (fc_Snapshot full) disc in
          Ok (mkFullConfig merged (fc_Users full) (fc_Roles full) (fc_Policies full) (fc_WidgetPackPolicy full) (fc_AuthSettings full)
                (fc_Listener full) (fc_Mcp full),
              ((fun e => DiscoveryError (de_File e) (de_Message e)) <$> discErrs) ++ mergeErrs, failed)
      end
  end.

End Discovery.

(** ** The watcher *)

Record watchedEntry := mkWatched { wt_hash : string; wt_modTime : Z }.
Abbreviation Watched := (gmap string watchedEntry).

(** [watchStatFile]: the hash and time of a file that can be read. *)
Definition files : Type := string -> option (string * Z).

Definition Watch (fs : files) (path : string) (w : Watched) : Watched :=
  match w !! path with
  | Some _ => w
  | None => <[path := match fs path with Some (h, t) => mkWatched h t | None => mkWatched "" 0 end]> w
  end.

Definition notice : Type := string * string * Z.

Definition poll_one (fs : files) (st : Watched * list notice) (path : string) : Watched * list notice :=
  match st.1 !! path, fs path with
  | Some prev, Some (h, t) =>
      if String.eqb (wt_hash prev) h then st
      else (<[path := mkWatched h t]> st.1, st.2 ++ if is_empty (wt_hash prev) then [] else [(path, h, t)])
  | _, _ => st
  end.

(** [poll]: what each subscriber is called with; [order] is Go's order of ranging. *)
Definition poll (order : list string -> list string) (fs : files) (w : Watched) : Watched * list notice :=
  foldl (poll_one fs) (w, []) (order (elements (dom w))).

Definition polls (l : list ((list string -> list string) * files)) (w : Watched) : Watched * list notice :=
  foldl (fun st p => let '(w, ns) := poll p.1 p.2 st.1 in (w, st.2 ++ ns)) (w, []) l.

(** ** The order of the goroutines *)

Lemma NoDup_fmap_inj {A B} (f : A -> B) l x y : NoDup (f <$> l) -> x ∈ l -> y ∈ l -> f x = f y -> x = y.
Proof.
  induction l as [|z l IH]; [by intros _ ?%not_elem_of_nil|]. cbn. intros [Hz Hn]%NoDup_cons Hx Hy Hf.
  apply elem_of_cons in Hx as [->|Hx]; apply elem_of_cons in Hy as [->|Hy]; [done| | |by apply IH].
  - destruct Hz. rewrite Hf. by apply list_elem_of_fmap_2.
  - destruct Hz. rewrite <- Hf. by apply list_elem_of_fmap_2.
Qed.

Lemma by_id_sorted {C} (id_of : C -> string) l : StronglySorted (by_id id_of) (merge_sort (by_id id_of) l).
Proof.
  assert (Htot : Total (by_id id_of)) by (intros a b; apply (total String.le)).
  assert (Htr : Transitive (by_id id_of)) by (intros a b c; unfold by_id; apply transitivity). by apply StronglySorted_merge_sort.
Qed.

Lemma merge_sort_unique {C} (id_of : C -> string) (l l' : list (string * C)) :
  l ≡ₚ l' -> NoDup ((fun p => id_of p.2) <$> l) -> merge_sort (by_id id_of) l = merge_sort (by_id id_of) l'.
Proof.
  intros Hl Hn. apply (StronglySorted_unique_strong (by_id id_of)); [|apply by_id_sorted|apply by_id_sorted|by rewrite !merge_sort_Permutation].
  intros x y Hx Hy H1 H2. rewrite merge_sort_Permutation in Hx. rewrite merge_sort_Permutation, <- Hl in Hy.
  apply (NoDup_fmap_inj _ _ _ _ Hn Hx Hy). by apply (anti_symm String.le).
Qed.

Section Order.
Context (evaluate : string -> result string string) (L : JSONLib) (error_text : decode_error -> string).
Context (read_dir : string -> dir_result) (stat : stat_result) (configDir : string).
#[local] Abbreviation run_job := (runDiscoveryJob evaluate L error_text).
#[local] Abbreviation discover finish := (discoverConfigDir evaluate L error_text read_dir stat finish configDir).
#[local] Abbreviation jobs := (collectJobs read_dir configDir).1.

Definition outcomes (l : list discoveryJob) : list (discoveryJob * outcome) := (fun j => (j, run_job j)) <$> l.

(** What was found of one kind, with the files. *)
Definition found {C} (pick : outcome -> option C) (l : list discoveryJob) : list (string * C) :=
  omap (fun p => c ← pick p.2; Some (jb_relPath p.1, c)) (outcomes l).
Definition distinct {C} (id_of : C -> string) (pick : outcome -> option C) : Prop := NoDup ((fun p => id_of p.2) <$> found pick jobs).

Lemma sorted_found_order {C} (id_of : C -> string) (pick : outcome -> option C) l l' :
  l ≡ₚ jobs -> l' ≡ₚ jobs -> distinct id_of pick -> sorted_found id_of pick (outcomes l) = sorted_found id_of pick (outcomes l').
Proof.
  intros H1 H2 Hd. unfold sorted_found. apply merge_sort_unique.
  - unfold outcomes. by rewrite H1, H2.
  - unfold distinct, found in Hd. unfold outcomes in *. by rewrite H1.
Qed.

Lemma discover_unfold finish :
  discover finish =
    (mkDiscovery (sorted_found cfg_ID pick_automation (outcomes (finish jobs))) (sorted_found area_Id pick_area (outcomes (finish jobs)))
       (sorted_found scene_Id pick_scene (outcomes (finish jobs)))
       (map_to_list match loadEntityAreas evaluate L error_text stat configDir with Ok m => m | Err _ => ∅ end),
     (collectJobs read_dir configDir).2 ++ match loadEntityAreas evaluate L error_text stat configDir with Ok _ => [] | Err e => [e] end ++
       omap (fun p => pick_error p.2) (outcomes (finish jobs))).
Proof. unfold discoverConfigDir, outcomes. destruct (collectJobs _ _). by destruct (loadEntityAreas _ _ _ _ _). Qed.

(** The discovery does not depend on the order in which its goroutines finish: when
    no two files of a kind have the same id, what is found is the same list, in the
    order of the ids, and the errors are the same up to their order. *)
Theorem discovery_order_independent finish finish' :
  finish jobs ≡ₚ jobs -> finish' jobs ≡ₚ jobs -> distinct cfg_ID pick_automation -> distinct area_Id pick_area -> distinct scene_Id pick_scene ->
  (discover finish).1 = (discover finish').1 /\ (discover finish).2 ≡ₚ (discover finish').2.
Proof.
  intros H1 H2 Ha Hr Hs. rewrite !discover_unfold. cbn [fst snd]. split.
  - f_equal; by apply sorted_found_order.
  - do 2 apply Permutation_app_head. unfold outcomes. by rewrite H1, H2.
Qed.

Lemma elem_of_found {C} id_of (pick : outcome -> option C) l path c :
  (path, c) ∈ sorted_found id_of pick (outcomes l) <-> exists j, j ∈ l /\ jb_relPath j = path /\ pick (run_job j) = Some c.
Proof.
  unfold sorted_found. rewrite merge_sort_Permutation, list_elem_of_omap. unfold outcomes. split.
  - intros ([j o] & Hin & Hp). apply list_elem_of_fmap in Hin as (j' & [= -> ->] & Hj). cbn in Hp. destruct (pick (run_job j')) eqn:Hk; [|done].
    injection Hp as <- <-. by exists j'.
  - intros (j & Hj & <- & Hp). exists (j, run_job j). split; [by apply (list_elem_of_fmap_2 (fun j => (j, run_job j)))|]. cbn. by rewrite Hp.
Qed.

Lemma failed_file j e : run_job j = Failed e -> de_File e = jb_relPath j.
Proof.
  unfold runDiscoveryJob, decoded. destruct (evaluate _) as [t|msg]; [|by intros [= <-]]. destruct (Unmarshal L t); [|by intros [= <-]].
  destruct (jb_kind j); [destruct (automationFromJSON L _) as [|e']|destruct (areaFromJSON _) as [|e']|destruct (sceneFromJSON L _) as [|e']];
    try done; destruct e'; by intros [= <-].
Qed.

(** No file is lost: each is among what was found of its kind, or an error names it. *)
Theorem each_file_accounted finish j :
  finish jobs ≡ₚ jobs -> j ∈ jobs ->
  (exists c, (jb_relPath j, c) ∈ disc_Automations (discover finish).1) \/ (exists c, (jb_relPath j, c) ∈ disc_Areas (discover finish).1) \/
  (exists c, (jb_relPath j, c) ∈ disc_Scenes (discover finish).1) \/ exists e, e ∈ (discover finish).2 /\ de_File e = jb_relPath j.
Proof.
  intros Hf Hj. rewrite discover_unfold. cbn [fst snd disc_Automations disc_Areas disc_Scenes]. setoid_rewrite elem_of_found.
  rewrite <- Hf in Hj. destruct (run_job j) as [c|c|c|e] eqn:Hr.
  - left. exists c, j. by rewrite Hr.
  - right. left. exists c, j. by rewrite Hr.
  - do 2 right. left. exists c, j. by rewrite Hr.
  - do 3 right. exists e. split; [|by apply failed_file]. rewrite !elem_of_app, list_elem_of_omap. do 2 right. exists (j, run_job j).
    split; [by apply (list_elem_of_fmap_2 (fun j => (j, run_job j)))|]. cbn. by rewrite Hr.
Qed.
End Order.

(** ** What the watcher announces *)

(** The changes of one file over the polls, given the hash that was seen last. *)
Fixpoint changes (path prev : string) (seen : list (option (string * Z))) : list notice :=
  match seen with
  | [] => []
  | None :: rest => changes path prev rest
  | Some (h, t) :: rest =>
      if String.eqb prev h then changes path prev rest
      else (if is_empty prev then [] else [(path, h, t)]) ++ changes path h rest
  end.

Definition about (path : string) (ns : list notice) : list notice := filter (fun n => n.1.1 = path) ns.

(** One file of a poll, and its notices. *)
Definition step_entry (path : string) (prev : watchedEntry) (o : option (string * Z)) : watchedEntry * list notice :=
  match o with
  | Some (h, t) => if String.eqb (wt_hash prev) h then (prev, []) else (mkWatched h t, if is_empty (wt_hash prev) then [] else [(path, h, t)])
  | None => (prev, [])
  end.

Lemma poll_fold fs l st path :
  NoDup l -> let st' := foldl (poll_one fs) st l in
  st'.1 !! path = (if decide (path ∈ l) then (fun e => (step_entry path e (fs path)).1) <$> st.1 !! path else st.1 !! path) /\
  about path st'.2 = about path st.2 ++ (if decide (path ∈ l) then match st.1 !! path with Some e => (step_entry path e (fs path)).2 | None => [] end else []).
Proof.
  intros Hn. revert st. induction Hn as [|q l Hq Hn IH]; intros st; cbn [foldl].
  { rewrite !decide_False by apply not_elem_of_nil. by rewrite app_nil_r. }
  destruct (IH (poll_one fs st q)) as [H1 H2]. rewrite H1, H2. clear H1 H2 IH. destruct (decide (path = q)) as [->|Hne].
  - rewrite !(decide_False (P := q ∈ l)) by done. rewrite !(decide_True (P := q ∈ q :: l)) by left. unfold poll_one.
    destruct (st.1 !! q) as [e|] eqn:He; [|cbn; by rewrite ?He, ?app_nil_r].
    destruct (fs q) as [[h t]|]; [|cbn; by rewrite ?He, ?app_nil_r]. cbn [step_entry fmap option_fmap option_map].
    destruct (String.eqb (wt_hash e) h); [cbn; by rewrite ?He, ?app_nil_r|]. cbn [fst snd]. rewrite lookup_insert_eq, app_nil_r. split; [done|].
    unfold about. rewrite filter_app. f_equal. destruct (is_empty (wt_hash e)); [done|]. cbn. by rewrite decide_True.
  - assert (Hp : (poll_one fs st q).1 !! path = st.1 !! path /\ about path (poll_one fs st q).2 = about path st.2).
    { unfold poll_one. destruct (st.1 !! q); [|done]. destruct (fs q) as [[h t]|]; [|done]. destruct (String.eqb _ _); [done|].
      cbn. rewrite lookup_insert_ne by done. split; [done|]. unfold about. rewrite filter_app. destruct (is_empty _); cbn; [by rewrite app_nil_r|].
      rewrite decide_False by done. by rewrite app_nil_r. }
    destruct Hp as [-> ->]. by destruct (decide (path ∈ l)); [rewrite !(decide_True (P := path ∈ q :: l)) by (by right)|rewrite !(decide_False (P := path ∈ q :: l)) by set_solver].
Qed.

Lemma poll_spec order fs w path e :
  (forall l, order l ≡ₚ l) -> w !! path = Some e ->
  (poll order fs w).1 !! path = Some (step_entry path e (fs path)).1 /\ about path (poll order fs w).2 = (step_entry path e (fs path)).2.
Proof.
  intros Ho He. unfold poll. destruct (poll_fold fs (order (elements (dom w))) (w, []) path) as [H1 H2].
  { rewrite Ho. apply NoDup_elements. }
  assert (Hin : path ∈ order (elements (dom w))) by (rewrite Ho; by apply elem_of_elements, elem_of_dom).
  rewrite H1, H2. rewrite !decide_True by done. cbn [fst snd]. by rewrite He.
Qed.

(** What is announced about a watched file: after any number of polls the subscribers
    have been told, in order, of each read that differs from the last successful read
    before it, except for the first successful read of a file that could not be read
    when it was added; whatever else is watched and in whatever order. *)
Theorem watcher_exact l w path e :
  Forall (fun p => forall l, p.1 l ≡ₚ l) l -> w !! path = Some e ->
  about path (polls l w).2 = changes path (wt_hash e) ((fun p => p.2 path) <$> l).
Proof.
  intros Hf He. unfold polls. change (changes path (wt_hash e) _) with (about path [] ++ changes path (wt_hash e) ((fun p => p.2 path) <$> l)).
  generalize (@nil notice) as ns. revert w e He. induction Hf as [|[order fs] l Ho Hf IH]; intros w e He ns; cbn [foldl fmap list_fmap changes fst snd].
  { by rewrite app_nil_r. }
  destruct (poll_spec order fs w path e Ho He) as [H1 H2]. destruct (poll order fs w) as [w' ns'] eqn:Hp. cbn [fst snd] in H1, H2.
  rewrite (IH w' _ H1). assert (Ha : about path (ns ++ ns') = about path ns ++ about path ns') by apply filter_app. rewrite Ha, H2, <- app_assoc. f_equal.
  unfold step_entry. destruct (fs path) as [[h t]|]; [|done]. by destruct (String.eqb (wt_hash e) h).
Qed.

(** A file that appears is not announced, and neither is one that goes away. *)
Example creation_unnoticed h t : changes "entity-areas.pkl" "" [None; Some (h, t); Some (h, t)] = [].
Proof. cbn. destruct h; [done|]. cbn. by rewrite Ascii.eqb_refl, String.eqb_refl. Qed.
Example deletion_unnoticed h t : changes "areas/kitchen.pkl" h [Some (h, t); None; None; Some (h, t)] = [].
Proof. cbn. by rewrite String.eqb_refl. Qed.

Module DiscoveryDemo.

Definition kitchen : json := JObject [("id", JString "kitchen"); ("displayName", JString "Kitchen")].
Definition hall : json := JObject [("id", JString "hall"); ("displayName", JString "Hall")].
Definition unmarshal (t : string) : option json :=
  if String.eqb t "kitchen" then Some kitchen else if String.eqb t "hall" then Some hall else None.
Definition lib : JSONLib := mkJSONLib unmarshal (fun _ => "") (fun _ => None) (fun _ => None).
Definition eval (path : string) : result string string :=
  if String.eqb path "/c/areas/kitchen.pkl" then Ok "kitchen" else if String.eqb path "/c/areas/hall.pkl" then Ok "hall"
  else Err ("error" +:+ String "010" " 12 | x = y").
Definition dirs (path : string) : dir_result :=
  if String.eqb path "/c/areas" then DirEntries [("broken.pkl", false); ("hall.pkl", false); ("kitchen.pkl", false); ("old", true)]
  else if String.eqb path "/c/scenes" then DirFailed "permission denied" else DirMissing.
Definition texts (e : decode_error) : string := "type".

Example discovered :
  discoverConfigDir eval lib texts dirs StatMissing reverse "/c" =
    (mkDiscovery [] [("areas/hall.pkl", mkAreaConfig "hall" "Hall" ""); ("areas/kitchen.pkl", mkAreaConfig "kitchen" "Kitchen" "")] [] [],
     [mkDiscErr "discovery_read_dir" "scenes" 0 "permission denied";
      mkDiscErr "pkl_eval" "areas/broken.pkl" 12 ("error" +:+ String "010" " 12 | x = y")]).
Proof. vm_compute. reflexivity. Qed.

Lemma discovery_order_independent_witness :
  (discoverConfigDir eval lib texts dirs StatMissing reverse "/c").1 = (discoverConfigDir eval lib texts dirs StatMissing (fun l => l) "/c").1.
Proof.
  apply (discovery_order_independent eval lib texts dirs StatMissing "/c" reverse (fun l => l));
    [apply reverse_Permutation|done|apply (bool_decide_unpack _); by vm_compute..].
Defined.

Definition hall_job : discoveryJob := mkJob "areas/hall.pkl" "/c/areas/hall.pkl" KArea.
Lemma each_file_accounted_witness :
  hall_job ∈ (collectJobs dirs "/c").1 /\
  let r := discoverConfigDir eval lib texts dirs StatMissing reverse "/c" in
  ((exists c, (jb_relPath hall_job, c) ∈ disc_Automations r.1) \/ (exists c, (jb_relPath hall_job, c) ∈ disc_Areas r.1) \/
   (exists c, (jb_relPath hall_job, c) ∈ disc_Scenes r.1) \/ exists e, e ∈ r.2 /\ de_File e = jb_relPath hall_job).
Proof.
  assert (hall_job ∈ (collectJobs dirs "/c").1) as H by (right; left). split; [exact H|].
  apply (each_file_accounted eval lib texts dirs StatMissing "/c" reverse hall_job); [apply reverse_Permutation|exact H].
Defined.

Definition file (h : string) : files := fun path => if String.eqb path "main.pkl" then Some (h, 5) else None.
Definition passes : list ((list string -> list string) * files) := [(reverse, file "a"); (fun l => l, fun _ => None); (fun l => l, file "b"); (reverse, file "b")].
Lemma watcher_exact_witness :
  about "main.pkl" (polls passes (Watch (file "a") "areas.pkl" (Watch (file "a") "main.pkl" ∅))).2 = [("main.pkl", "b", 5)].
Proof.
  refine (eq_trans (watcher_exact passes _ "main.pkl" (mkWatched "a" 5) _ _) _);
    [repeat apply Forall_cons_2; try apply Forall_nil_2; cbn; intros l; first [apply reverse_Permutation|reflexivity]|vm_compute; reflexivity|vm_compute; reflexivity].
Defined.

End DiscoveryDemo.
