(* ===== verification/WidgetPack.v ===== *)
(** * Widget packs

    Models [internal/widgetpack]: the trust policy (trust.go), the registry of
    installed packs with its file (store.go), the installer (install.go) and the
    handler that serves bundles (serve.go). The OCI registry, sigstore, gzip and
    tar, Pkl and SHA-256 are the record [PackLib]; the JSON of the registry file
    is a pair of functions in it. The order in which a map is ranged over does
    not matter to any of the operations and is that of [map_to_list].

    An outcome of the operating system is an argument: the record [InstallIO]
    says which step fails. *)

From Stdlib Require Import Ascii String.
From S2P Require Import Prelude Codec Config Paths Files Glob.

(** ** Data *)

Record Manifest := mkManifest {
  m_Name : string; m_Version : string; m_SDKVersion : string; m_Bundle : string; m_BundleHash : string;
  m_Classes : list string; m_Description : string; m_Homepage : string; m_License : string;
}.

Record InstalledPack := mkPack {
  p_Name : string; p_Version : string; p_SHA256 : string; p_SignatureStatus : string; p_SignerIdentity : string;
  p_Classes : list string; p_Description : string; p_Homepage : string; p_License : string; p_InstalledAt : Z;
}.

#[export] Instance InstalledPack_eq_dec : EqDecision InstalledPack.
Proof. solve_decision. Defined.

Inductive typeflag := TypeDir | TypeReg | TypeOther.
Record tar_entry := mkEntry { hdr_Name : string; hdr_Typeflag : typeflag; hdr_Body : string }.
Record FetchedArtifact := mkArtifact { LayerBlob : string; SignatureBundle : string }.

(** [sev_Verify] gives the subject of the certificate, if the result has a
    signature; [untar] the entries that could be read and the error that stopped
    the reading. *)
Record PackLib := mkPackLib {
  pull : string -> string -> result string FetchedArtifact;
  UnmarshalBundle : string -> option string;
  sev_Verify : string -> string -> result string (option string);
  read_tar : string -> list tar_entry * option string;
  eval_pkl : Disk -> result string Manifest;
  sha256_hex : string -> string;
  registry_text : list InstalledPack -> string;
  registry_parse : string -> option (list InstalledPack);
}.

(** ** Trust policy *)

Record TrustPolicy := mkTrustPolicy { allowedSigners : list string; allowUnsigned : bool }.

(** [Set]; [Some] is its error, which leaves the policy as it was. *)
Definition Policy_Set (signers : list string) (allow : bool) (p : TrustPolicy) : TrustPolicy * option string :=
  match find (fun pat => bool_decide (Match_ pat "" = None)) signers with
  | Some pat => (p, Some ("widgetpack: invalid signer pattern " +:+ pat))
  | None => (mkTrustPolicy signers allow, None)
  end.

Definition matchesAllowedSigner (p : TrustPolicy) (subject : string) : bool :=
  existsb (fun pat => match Match_ pat subject with Some b => b | None => false end) (allowedSigners p).

Record VerificationResult := mkVerification { v_Status : string; v_SignerIdentity : string }.

Inductive verify_error := ErrSignatureRejected (msg : string) | ErrUnsignedNotAllowed | VerifierNotConfigured.

Section Verify.
Context (L : PackLib).

Definition verifyEntity (payload bundle : string) (pol : option TrustPolicy) : result verify_error VerificationResult :=
  match sev_Verify L payload bundle with
  | Err e => Err (ErrSignatureRejected e)
  | Ok sig =>
      let subject := default "" sig in
      if is_empty subject then Err (ErrSignatureRejected "signer identity missing from cert")
      else match pol with
      | None => Err (ErrSignatureRejected "not on allowed list")
      | Some p => if negb (matchesAllowedSigner p subject) then Err (ErrSignatureRejected "not on allowed list")
                  else Ok (mkVerification "verified" subject)
      end
  end.

Definition Verify_ (payload bundle : string) (pol : option TrustPolicy) : result verify_error VerificationResult :=
  if is_empty bundle then
    match pol with
    | Some p => if allowUnsigned p then Ok (mkVerification "unsigned" "") else Err ErrUnsignedNotAllowed
    | None => Err ErrUnsignedNotAllowed
    end
  else match UnmarshalBundle L bundle with
  | Some e => Err (ErrSignatureRejected ("parse bundle: " +:+ e))
  | None => verifyEntity payload bundle pol
  end.

(** Step 2 of [Install]; [verifier] says whether there is one. *)
Definition check_signature (verifier : bool) (art : FetchedArtifact) (pol : option TrustPolicy) :
    result verify_error VerificationResult :=
  if verifier then Verify_ (LayerBlob art) (SignatureBundle art) pol
  else if negb (is_empty (SignatureBundle art)) then Err VerifierNotConfigured
  else match pol with
  | Some p => if allowUnsigned p then Ok (mkVerification "unsigned" "") else Err ErrUnsignedNotAllowed
  | None => Err ErrUnsignedNotAllowed
  end.
End Verify.

(** ** The registry of installed packs *)

Record WatchEvent := mkWatch { w_Installed : option InstalledPack; w_Uninstalled : option (string * string) }.

(** A subscriber's channel: its capacity and what waits in it. *)
Record watch_chan := mkWatchChan { wc_cap : nat; wc_buf : list WatchEvent }.

Record PackStore := mkPackStore {
  st_root : string;
  st_packs : gmap string InstalledPack;
  st_subs : gmap nat watch_chan;
  st_disk : Disk;
}.

Definition with_packs (m : gmap string InstalledPack) (s : PackStore) : PackStore :=
  mkPackStore (st_root s) m (st_subs s) (st_disk s).
Definition with_disk (d : Disk) (s : PackStore) : PackStore := mkPackStore (st_root s) (st_packs s) (st_subs s) d.

Definition pack_key (name version : string) : string := name +:+ "@" +:+ version.

Definition pack_dir (s : PackStore) (name version : string) : string := Join_list [st_root s; name; version].
Definition reg_path (s : PackStore) : string := Join_list [st_root s; ".registry.json"].
Definition tmp_path (s : PackStore) : string := reg_path s +:+ ".tmp".

(** A send that does not block. *)
Definition offer_watch (ev : WatchEvent) (c : watch_chan) : watch_chan :=
  if (length (wc_buf c) <? wc_cap c)%nat then mkWatchChan (wc_cap c) (wc_buf c ++ [ev]) else c.
Definition notify (ev : WatchEvent) (s : PackStore) : PackStore :=
  mkPackStore (st_root s) (st_packs s) (offer_watch ev <$> st_subs s) (st_disk s).

Definition Subscribe_ (id cap : nat) (s : PackStore) : PackStore :=
  mkPackStore (st_root s) (st_packs s) (<[id := mkWatchChan cap []]> (st_subs s)) (st_disk s).
Definition Unsubscribe_ (id : nat) (s : PackStore) : PackStore :=
  mkPackStore (st_root s) (st_packs s) (delete id (st_subs s)) (st_disk s).

Record PersistIO := mkPersistIO { io_write : option (option string * string); io_rename_reg : option string }.

Section Store.
Context (L : PackLib).

Definition persistLocked (io : PersistIO) (s : PackStore) : PackStore * option string :=
  match WriteFile (io_write io) (tmp_path s) (registry_text L (snd <$> map_to_list (st_packs s))) (st_disk s) with
  | (d, Some e) => (with_disk d s, Some e)
  | (d, None) => let '(d', e) := rename_file (io_rename_reg io) (tmp_path s) (reg_path s) d in (with_disk d' s, e)
  end.

Definition stamp (now : Z) (p : InstalledPack) : InstalledPack :=
  if IsZero (p_InstalledAt p)
  then mkPack (p_Name p) (p_Version p) (p_SHA256 p) (p_SignatureStatus p) (p_SignerIdentity p) (p_Classes p)
         (p_Description p) (p_Homepage p) (p_License p) now
  else p.

Definition Store_Add (now : Z) (io : PersistIO) (pack : InstalledPack) (s : PackStore) : PackStore * option string :=
  let pack := stamp now pack in
  let key := pack_key (p_Name pack) (p_Version pack) in
  match persistLocked io (with_packs (<[key := pack]> (st_packs s)) s) with
  | (s', Some e) => (with_packs (delete key (st_packs s')) s', Some e)
  | (s', None) => (notify (mkWatch (Some pack) None) s', None)
  end.

Definition Store_Get (name version : string) (s : PackStore) : option InstalledPack := st_packs s !! pack_key name version.
Definition Store_List (s : PackStore) : list InstalledPack := snd <$> map_to_list (st_packs s).

Inductive store_error := ErrPackNotFound | StoreOther (msg : string).

Definition Store_Remove (io : PersistIO) (name version : string) (s : PackStore) : PackStore * option store_error :=
  let key := pack_key name version in
  match st_packs s !! key with
  | None => (s, Some ErrPackNotFound)
  | Some old =>
      match persistLocked io (with_packs (delete key (st_packs s)) s) with
      | (s', Some e) => (with_packs (<[key := old]> (st_packs s')) s', Some (StoreOther e))
      | (s', None) => (notify (mkWatch None (Some (name, version))) s', None)
      end
  end.

Definition dirExists (s : PackStore) (name version : string) : bool :=
  negb (bool_decide (subtree (pack_dir s name version) (st_disk s) = ∅)).

(** One entry of the registry file: kept if its directory is there. *)
Definition load_one (s : PackStore) (acc : gmap string InstalledPack * bool) (p : InstalledPack) :
    gmap string InstalledPack * bool :=
  if dirExists s (p_Name p) (p_Version p)
  then (<[pack_key (p_Name p) (p_Version p) := p]> acc.1, acc.2)
  else (acc.1, true).

(** [Load]; [readErr] is a failure to read a file that exists. *)
Definition Store_Load (readErr : option string) (io : PersistIO) (s : PackStore) : PackStore * option string :=
  match readErr, st_disk s !! reg_path s with
  | Some e, _ => (s, Some e)
  | None, None => (s, None)
  | None, Some data =>
      match registry_parse L data with
      | None => (s, Some "parse")
      | Some packs =>
          let '(m, stale) := foldl (load_one s) (st_packs s, false) packs in
          if (stale : bool) then persistLocked io (with_packs m s) else (with_packs m s, None)
      end
  end.
End Store.

(** ** Unpacking *)

(** What the system says when an entry is created: no error, or an error after
    nothing or part of the file was written. *)
Definition EntryIO : Type := string -> option (option string * string).

Definition escapes (clean : string) : bool := IsAbs clean || has_prefix clean "../" || String.eqb clean "..".

Definition untar_entry (io : EntryIO) (absDest : string) (hdr : tar_entry) (d : Disk) : Disk * option string :=
  let clean := Clean (hdr_Name hdr) in
  if escapes clean then (d, Some "path escape")
  else
    let full := Join absDest clean in
    if negb (has_prefix full (absDest +:+ "/")) && negb (String.eqb full absDest) then (d, Some "path escape")
    else match hdr_Typeflag hdr with
    | TypeDir => (d, snd <$> io full)
    | TypeReg => if String.eqb full absDest then (d, Some "is a directory") else WriteFile (io full) full (hdr_Body hdr) d
    | TypeOther => (d, None)
    end.

Fixpoint untar_entries (io : EntryIO) (absDest : string) (l : list tar_entry) (d : Disk) : Disk * option string :=
  match l with
  | [] => (d, None)
  | hdr :: l' => match untar_entry io absDest hdr d with
                 | (d', Some e) => (d', Some e)
                 | (d', None) => untar_entries io absDest l' d'
                 end
  end.

Definition untarGz (L : PackLib) (io : EntryIO) (blob absDest : string) (d : Disk) : Disk * option string :=
  let '(entries, err) := read_tar L blob in
  match untar_entries io absDest entries d with
  | (d', Some e) => (d', Some e)
  | (d', None) => (d', err)
  end.

(** ** Installing *)

(** The part of a version before the first of [".+-"]. *)
Fixpoint major_part (v : string) : string :=
  match v with
  | EmptyString => EmptyString
  | String c v' => if Ascii.eqb c "." || Ascii.eqb c "+" || Ascii.eqb c "-" then EmptyString else String c (major_part v')
  end.
Definition majorOf (v : string) : option Z :=
  let m := major_part (trim_prefix v "v") in
  if is_empty m then None else ParseInt m.
Definition semverMajorEqual (a b : string) : bool :=
  match majorOf a, majorOf b with
  | Some x, Some y => x =? y
  | _, _ => false
  end.

Definition HostSDKVersion : string := "1.0.0".

(** [strings.LastIndex(s, ":")]: what is before and after. *)
Fixpoint cut_last_colon (s : string) : option (string * string) :=
  match s with
  | EmptyString => None
  | String c s' => match cut_last_colon s' with
                   | Some (a, b) => Some (String c a, b)
                   | None => if Ascii.eqb c ":" then Some (EmptyString, s') else None
                   end
  end.
Definition parseRef (ref : string) : option (string * string) :=
  match cut_last_colon ref with
  | Some (repo, tag) => if is_empty repo || is_empty tag then None else Some (repo, tag)
  | None => None
  end.

Inductive FailureReason :=
  | ReasonBadRef | ReasonRegistryUnreachable | ReasonBadArtifact | ReasonSignatureInvalid | ReasonHashMismatch
  | ReasonSDKIncompatible | ReasonClassCollision | ReasonManifestInvalid | ReasonAlreadyExists.
Inductive install_error := FailureError (r : FailureReason) | ErrInstallFailed (msg : string).

(** [os.RemoveAll], which may fail and leave some of the files. *)
Definition RemoveAll_io (kept : option (string -> bool)) (dir : string) (d : Disk) : Disk :=
  match kept with
  | None => RemoveAll dir d
  | Some keep => filter (fun p => at_or_under dir p.1 = false \/ keep p.1 = true) d
  end.

Record InstallIO := mkInstallIO {
  io_mkdir_staging : option string;
  io_mkdtemp : result string string;   (** the random part of the name *)
  io_entries : EntryIO;
  io_mkdir_parent : option string;
  io_rename_dir : option string;
  io_clean_staging : option (string -> bool);   (** whether each [RemoveAll] fails, and which files it then leaves *)
  io_clean_final : option (string -> bool);
  io_now : Z;
  io_persist : PersistIO;
}.

Record Installer := mkInstaller { in_verifier : bool; in_policy : option TrustPolicy; in_builtin : list string }.

Definition Fetch (L : PackLib) (ref : string) : result string FetchedArtifact :=
  match parseRef ref with Some (repo, tag) => pull L repo tag | None => Err "bad ref" end.

Definition checkCollisions (builtin : list string) (m : Manifest) (packs : list InstalledPack) : bool :=
  let taken := builtin ++ (packs ≫= fun p => if String.eqb (p_Name p) (m_Name m) && String.eqb (p_Version p) (m_Version m)
                                             then [] else (fun c => p_Name p +:+ "/" +:+ c) <$> p_Classes p) in
  negb (existsb (fun c => bool_decide (c ∈ taken) || bool_decide (m_Name m +:+ "/" +:+ c ∈ taken)) (m_Classes m)).

Definition staging_dir (s : PackStore) (rand : string) : string := Join_list [st_root s; ".staging"; "pack-" +:+ rand].

Definition new_pack (m : Manifest) (computed : string) (v : VerificationResult) : InstalledPack :=
  mkPack (m_Name m) (m_Version m) computed (v_Status v) (v_SignerIdentity v) (m_Classes m) (m_Description m) (m_Homepage m)
    (m_License m) zero_time.

Section Install.
Context (L : PackLib).

(** Steps 4 to 7b, on the staged files: the manifest and the hash of its bundle,
    or why the pack is refused. *)
Definition check_staged (i : Installer) (staging : string) (s : PackStore) : result FailureReason (Manifest * string) :=
  match eval_pkl L (subtree staging (st_disk s)) with
  | Err _ => Err ReasonManifestInvalid
  | Ok m =>
      match st_disk s !! Join staging (m_Bundle m) with
      | None => Err ReasonBadArtifact
      | Some content =>
          let computed := "sha256:" +:+ sha256_hex L content in
          if negb (String.eqb computed (m_BundleHash m)) then Err ReasonHashMismatch
          else if negb (semverMajorEqual (m_SDKVersion m) HostSDKVersion) then Err ReasonSDKIncompatible
          else if negb (checkCollisions (in_builtin i) m (Store_List s)) then Err ReasonClassCollision
          else match Store_Get (m_Name m) (m_Version m) s with
          | Some _ => Err ReasonAlreadyExists
          | None => Ok (m, computed)
          end
      end
  end.

(** Step 8: the rename and the registry; the errors of the removals are discarded. *)
Definition commit_pack (io : InstallIO) (staging : string) (m : Manifest) (computed : string) (v : VerificationResult)
    (s : PackStore) : PackStore * result install_error InstalledPack :=
  let clean_up s := with_disk (RemoveAll_io (io_clean_staging io) staging (st_disk s)) s in
  let finalDir := pack_dir s (m_Name m) (m_Version m) in
  match io_mkdir_parent io with
  | Some e => (clean_up s, Err (ErrInstallFailed e))
  | None =>
      match rename_dir (io_rename_dir io) staging finalDir (st_disk s) with
      | (_, Some e) => (clean_up s, Err (ErrInstallFailed e))
      | (d, None) =>
          let pack := new_pack m computed v in
          match Store_Add L (io_now io) (io_persist io) pack (with_disk d s) with
          | (s', Some e) => (with_disk (RemoveAll_io (io_clean_final io) finalDir (st_disk s')) s', Err (ErrInstallFailed e))
          | (s', None) => (s', Ok pack)
          end
      end
  end.

Definition Install (i : Installer) (io : InstallIO) (ref : string) (s : PackStore) :
    PackStore * result install_error InstalledPack :=
  if is_empty ref then (s, Err (FailureError ReasonBadRef))
  else match Fetch L ref with
  | Err _ => (s, Err (FailureError ReasonRegistryUnreachable))
  | Ok art =>
      match check_signature L (in_verifier i) art (in_policy i) with
      | Err _ => (s, Err (FailureError ReasonSignatureInvalid))
      | Ok v =>
          match io_mkdir_staging io, io_mkdtemp io with
          | Some e, _ => (s, Err (ErrInstallFailed e))
          | None, Err e => (s, Err (ErrInstallFailed e))
          | None, Ok rand =>
              let staging := staging_dir s rand in
              let '(d, err) := untarGz L (io_entries io) (LayerBlob art) staging (st_disk s) in
              let s1 := with_disk d s in
              let clean_up := with_disk (RemoveAll_io (io_clean_staging io) staging d) s in
              match err with
              | Some _ => (clean_up, Err (FailureError ReasonBadArtifact))
              | None =>
                  match check_staged i staging s1 with
                  | Err r => (clean_up, Err (FailureError r))
                  | Ok (m, computed) => commit_pack io staging m computed v s1
                  end
              end
          end
      end
  end.

(** [Uninstall]; [refs] is what [ClassRefs] returns, [io_remove] whether
    [RemoveAll] fails and which files it then leaves. *)
Definition Uninstall (refs : result string (list string)) (io_remove : option (string * (string -> bool))) (io : PersistIO)
    (name version : string) (force : bool) (s : PackStore) : PackStore * option store_error :=
  match Store_Get name version s with
  | None => (s, Some ErrPackNotFound)
  | Some pack =>
      let in_use := match refs with
                    | Err e => Some e
                    | Ok refs => if existsb (fun c => bool_decide (name +:+ "/" +:+ c ∈ refs)) (p_Classes pack) then Some "in use" else None
                    end in
      match (if force then None else in_use) with
      | Some e => (s, Some (StoreOther e))
      | None =>
          let dir := pack_dir s name version in
          match io_remove with
          | Some (e, keep) => (with_disk (RemoveAll_io (Some keep) dir (st_disk s)) s, Some (StoreOther e))
          | None => Store_Remove L io name version (with_disk (RemoveAll dir (st_disk s)) s)
          end
      end
  end.
End Install.

(** ** Serving bundles *)

Inductive served := MethodNotAllowed | NotFound | NotModified | BadPath | ServeFile (path contentType : string).

Definition contentTypeFor (name : string) : string :=
  let e := Ext name in
  if String.eqb e ".js" || String.eqb e ".mjs" then "text/javascript"
  else if String.eqb e ".map" then "application/json"
  else if String.eqb e ".css" then "text/css"
  else "application/octet-stream".

Definition BundleHandler (method url ifNoneMatch : string) (s : PackStore) : served :=
  if negb (String.eqb method "GET") && negb (String.eqb method "HEAD") then MethodNotAllowed
  else if negb (has_prefix url "/widgets/") then NotFound
  else
    let rel := trim_prefix url "/widgets/" in
    let clean := Clean ("/" +:+ rel) in
    match SplitN "/" 3 (trim_prefix clean "/") with
    | [pack; version; file] =>
        match Store_Get pack version s with
        | None => NotFound
        | Some p =>
            if String.eqb ifNoneMatch (String "034" (p_SHA256 p +:+ String "034" "")) then NotModified
            else
              let fullPath := Join_list [st_root s; pack; version; file] in
              if negb (has_prefix fullPath (Join_list [st_root s; pack; version] +:+ "/")) then BadPath
              else ServeFile fullPath (contentTypeFor file)
        end
    | _ => NotFound
    end.
