(* ===== verification/WidgetPackFacts.v ===== *)
(** * Widget packs: confinement, trust and all-or-nothing installation *)

From Stdlib Require Import Ascii String.
From S2P Require Import Prelude Codec Config Paths Files Glob WidgetPack.

(** ** Unpacking stays in its directory *)

Lemma Join_clean dir x : IsAbs dir = true -> Clean (Join dir x) = Join dir x.
Proof.
  intros Hd. destruct dir as [|c dir]; [done|]. unfold Join. change (is_empty (String c dir)) with false. cbn iota.
  destruct (is_empty x); apply Clean_idem; [done|]. by rewrite IsAbs_app.
Qed.

(** A path that a change may have touched. *)
Definition confined (dest : string) (d d' : Disk) : Prop :=
  forall p, d' !! p = d !! p \/ (under dest p = true /\ Clean p = p).

Lemma confined_trans dest d1 d2 d3 : confined dest d1 d2 -> confined dest d2 d3 -> confined dest d1 d3.
Proof. intros H1 H2 p. destruct (H2 p) as [->|?]; [apply H1 | by right]. Qed.

Lemma untar_entry_confined io dest hdr d : IsAbs dest = true -> confined dest d (untar_entry io dest hdr d).1.
Proof.
  intros Hd p. unfold untar_entry. destruct (escapes _); [by left|].
  set (full := Join dest _). destruct (has_prefix full (dest +:+ "/")) eqn:Hp; cbn [negb andb].
  - destruct (hdr_Typeflag hdr); [by left| |by left]. case_match; [by left|].
    destruct (decide (p = full)) as [->|Hne]; [right; split; [done|by apply Join_clean] | left; by apply WriteFile_other].
  - destruct (String.eqb full dest) eqn:He; cbn [negb]; [|by left]. destruct (hdr_Typeflag hdr); by left.
Qed.

Lemma untar_entries_confined io dest l d : IsAbs dest = true -> confined dest d (untar_entries io dest l d).1.
Proof.
  intros Hd. revert d. induction l as [|hdr l IH]; intros d; [by left|]. cbn [untar_entries].
  pose proof (untar_entry_confined io dest hdr d Hd) as H. destruct (untar_entry io dest hdr d) as [d' [e|]]; [done|].
  by eapply confined_trans.
Qed.

Lemma untarGz_confined L io blob dest d : IsAbs dest = true -> confined dest d (untarGz L io blob dest d).1.
Proof.
  intros Hd. unfold untarGz. destruct (read_tar L blob) as [l err].
  pose proof (untar_entries_confined io dest l d Hd) as H. by destruct (untar_entries io dest l d) as [d' [e|]].
Qed.

(** Unpacking an archive writes below its destination only: whatever names
    the entries carry and wherever the unpacking fails, a file that is not
    strictly below the absolute directory [dest] is as before, and every file
    that changed has a cleaned path, so that no double dot leads out again. *)
Theorem untar_confined (L : PackLib) (io : EntryIO) (blob dest : string) (d : Disk) :
  IsAbs dest = true ->
  forall p, (untarGz L io blob dest d).1 !! p = d !! p \/ (under dest p = true /\ Clean p = p).
Proof. apply untarGz_confined. Qed.

(** ** Serving *)

Definition root_ok (root : string) : Prop := IsAbs root = true /\ elems root <> [].

Lemma SplitN_join3 a b c rest :
  Forall plain (a :: b :: c :: rest) -> SplitN "/" 3 (join_slash (a :: b :: c :: rest)) = [a; b; join_slash (c :: rest)].
Proof.
  intros H. apply Forall_cons in H as [(_&_&_&Ha) H]. apply Forall_cons in H as [(_&_&_&Hb) _].
  change (join_slash (a :: b :: c :: rest)) with (a +:+ String "/" (b +:+ String "/" (join_slash (c :: rest)))).
  rewrite SplitN_SS, cut_app by done. by rewrite SplitN_SS, cut_app by done.
Qed.

Definition serve_spec (s : PackStore) (l : list string) : served :=
  match l with
  | pack :: version :: file :: rest =>
      match Store_Get pack version s with
      | Some _ => ServeFile (path_text true (elems (st_root s) ++ l)) (contentTypeFor (join_slash (file :: rest)))
      | None => NotFound
      end
  | _ => NotFound
  end.

(** The bundle handler serves what it should and nothing else: a request for
    any URL below [/widgets/] is answered by the file whose path is the root
    directory followed by the cleaned elements of the URL, if the first two name
    a registered pack and there is a third, and by "not found" otherwise; no URL
    leads out of the directory of a registered pack. *)
Theorem serve_exact (s : PackStore) (rel : string) :
  root_ok (st_root s) ->
  let l := elems ("/" +:+ rel) in
  BundleHandler "GET" ("/widgets/" +:+ rel) "" s = serve_spec s l /\
  forall p ct, serve_spec s l = ServeFile p ct ->
    exists pack version pk, Store_Get pack version s = Some pk /\
      under (path_text true (elems (st_root s) ++ [pack; version])) p = true /\ Clean p = p.
Proof.
  intros [Habs Hne] l.
  assert (Forall plain l) as Hl by (by apply elems_plain).
  assert (Forall plain (elems (st_root s))) as Hr by (by apply elems_plain).
  assert (st_root s <> "") as Hroot by (intros H; by rewrite H in Habs). split.
  - unfold BundleHandler. rewrite (eq_refl : (negb (String.eqb "GET" "GET") && negb (String.eqb "GET" "HEAD")) = false).
    assert (has_prefix ("/widgets/" +:+ rel) "/widgets/" = true) as -> by (apply has_prefix_spec; by exists rel).
    cbn [negb]. rewrite trim_prefix_app, Clean_abs by done. fold l.
    change (path_text true l) with ("/" +:+ join_slash l). rewrite trim_prefix_app.
    assert (forall x, Forall plain [x] -> SplitN "/" 3 x = [x]) as H1.
    { intros x [(_&_&_&Hx) _]%Forall_cons. by rewrite SplitN_SS, cut_None. }
    destruct l as [|pack [|version [|file rest]]]; [done| | |].
    + cbn [join_slash serve_spec]. by rewrite H1.
    + apply Forall_cons in Hl as [(_&_&_&Hp) Hl]. apply Forall_cons in Hl as [(_&_&_&Hv) _].
      change (join_slash [pack; version]) with (pack +:+ String "/" version).
      by rewrite SplitN_SS, cut_app, SplitN_SS, cut_None by done.
    + rewrite SplitN_join3 by done. cbn [serve_spec]. destruct (Store_Get pack version s) as [pk|]; [|done].
      rewrite (eq_refl : String.eqb "" (String "034" _) = false).
      pose proof Hl as Hl0. apply Forall_cons in Hl0 as [Hpack Hl0]. apply Forall_cons in Hl0 as [Hver Hfile].
      assert (([pack; version; join_slash (file :: rest)] ≫= Split "/") = pack :: version :: file :: rest) as Hs.
      { destruct Hpack as (_&_&_&Hpack), Hver as (_&_&_&Hver). rewrite !bind_cons, !Split_single by done.
        rewrite Split_join_bind, bind_Split_plain by done. cbn. by rewrite app_nil_r. }
      rewrite !Join_list_plain; [|done|by rewrite bind_Split_plain; repeat constructor; destruct Hpack as (?&?&?&?), Hver as (?&?&?&?)
        |done|by rewrite Hs].
      rewrite Habs, Hs, bind_Split_plain by (repeat constructor; destruct Hpack as (?&?&?&?), Hver as (?&?&?&?); done).
      change (pack :: version :: file :: rest) with ([pack; version] ++ file :: rest). rewrite app_assoc.
      assert (has_prefix (path_text true ((elems (st_root s) ++ [pack; version]) ++ file :: rest))
                (path_text true (elems (st_root s) ++ [pack; version]) +:+ "/") = true) as ->; [|done].
      apply has_prefix_spec. exists (join_slash (file :: rest)).
      rewrite path_text_app; [|by destruct (elems (st_root s))|done]. by rewrite str_app_assoc.
  - intros p ct. destruct l as [|pack [|version [|file rest]]]; try done. cbn [serve_spec].
    destruct (Store_Get pack version s) as [pk|] eqn:Hg; [|done]. intros [= <- <-]. exists pack, version, pk.
    split; [done|]. split; [|apply Clean_path_text; by apply Forall_app].
    apply under_spec. exists (join_slash (file :: rest)).
    change (pack :: version :: file :: rest) with ([pack; version] ++ file :: rest). rewrite app_assoc.
    apply path_text_app; [|done]. by destruct (elems (st_root s)).
Qed.

(** ** The registry file *)

Section Registry.
Context (L : PackLib).

Lemma tmp_not_reg s : tmp_path s <> reg_path s.
Proof.
  intros H. apply (f_equal String.length) in H. unfold tmp_path in H. rewrite str_length_app in H. cbn in H. lia.
Qed.

(** What writing the registry file leaves alone. *)
Lemma persist_spec io s s' e :
  persistLocked L io s = (s', e) ->
  st_root s' = st_root s /\ st_packs s' = st_packs s /\ st_subs s' = st_subs s /\
  (forall p, p <> tmp_path s -> p <> reg_path s -> st_disk s' !! p = st_disk s !! p) /\
  (e <> None -> st_disk s' !! reg_path s = st_disk s !! reg_path s) /\
  (e = None -> st_disk s' !! reg_path s = Some (registry_text L (snd <$> map_to_list (st_packs s)))).
Proof.
  pose proof (tmp_not_reg s) as Hne. unfold persistLocked.
  set (text := registry_text L _). destruct (WriteFile (io_write io) (tmp_path s) text (st_disk s)) as [d we] eqn:Hw.
  assert (forall p, p <> tmp_path s -> d !! p = st_disk s !! p) as Hd.
  { intros p Hp. pose proof (WriteFile_other (io_write io) (tmp_path s) text (st_disk s) p Hp) as H. by rewrite Hw in H. }
  destruct we as [we|].
  { intros [= <- <-]. split_and!; try done; intros; by apply Hd. }
  assert (d !! tmp_path s = Some text) as Htext.
  { unfold WriteFile in Hw. destruct (io_write io) as [[[?|] ?]|]; simplify_eq. by rewrite lookup_insert_eq. }
  destruct (rename_file (io_rename_reg io) (tmp_path s) (reg_path s) d) as [d' re] eqn:Hr. intros [= <- <-]. cbn.
  split_and!; try done.
  - intros p Hp Hq. pose proof (rename_file_other (io_rename_reg io) (tmp_path s) (reg_path s) d p Hp Hq) as H.
    rewrite Hr in H. cbn in H. rewrite H. by apply Hd.
  - intros He. unfold rename_file in Hr. rewrite Htext in Hr. destruct (io_rename_reg io); simplify_eq; [by apply Hd|].
    case_bool_decide; simplify_eq/=. by apply Hd.
  - intros ->. unfold rename_file in Hr. rewrite Htext in Hr. destruct (io_rename_reg io); simplify_eq.
    case_bool_decide; simplify_eq/=. by rewrite lookup_insert_eq.
Qed.

Definition key_of (p : InstalledPack) : string := pack_key (p_Name p) (p_Version p).

Lemma stamp_key now p : key_of (stamp now p) = key_of p.
Proof. unfold stamp. by case_match. Qed.

Lemma Store_Add_err now io pack s s' e :
  Store_Add L now io pack s = (s', Some e) -> st_packs s !! key_of pack = None ->
  st_packs s' = st_packs s /\ st_subs s' = st_subs s /\ st_root s' = st_root s /\
  forall p, p <> tmp_path s -> st_disk s' !! p = st_disk s !! p.
Proof.
  unfold Store_Add. fold (key_of (stamp now pack)). rewrite stamp_key. intros H Hnone.
  destruct (persistLocked _ _ _) as [s1 [e1|]] eqn:Hp; simplify_eq.
  apply persist_spec in Hp as (Hr & Hpk & Hsub & Hd & Hreg & _). cbn in *. split_and!; try done.
  - rewrite Hpk. by apply delete_insert_id.
  - intros p Hp. destruct (decide (p = reg_path s)) as [->|]; [by apply Hreg | by apply Hd].
Qed.

Lemma Store_Add_ok now io pack s s' :
  Store_Add L now io pack s = (s', None) ->
  st_packs s' = <[key_of pack := stamp now pack]> (st_packs s) /\ st_root s' = st_root s /\
  st_disk s' !! reg_path s = Some (registry_text L (snd <$> map_to_list (st_packs s'))) /\
  forall p, p <> tmp_path s -> p <> reg_path s -> st_disk s' !! p = st_disk s !! p.
Proof.
  unfold Store_Add. fold (key_of (stamp now pack)). rewrite stamp_key.
  destruct (persistLocked _ _ _) as [s1 [e1|]] eqn:Hp; [done|]. intros [= <-].
  apply persist_spec in Hp as (Hr & Hpk & Hsub & Hd & _ & Htext). cbn in *. split_and!; try done.
  change (reg_path s) with (reg_path (with_packs (<[key_of pack:=stamp now pack]> (st_packs s)) s)).
  rewrite Htext by done. by rewrite Hpk.
Qed.
End Registry.

(** ** Trust *)

(** Who may vouch for a pack. *)
Inductive trusted (L : PackLib) (i : Installer) (art : FetchedArtifact) : VerificationResult -> Prop :=
  | trusted_unsigned pol :
      in_policy i = Some pol -> SignatureBundle art = "" -> allowUnsigned pol = true ->
      trusted L i art (mkVerification "unsigned" "")
  | trusted_signed pol subject pattern :
      in_policy i = Some pol -> in_verifier i = true -> SignatureBundle art <> "" ->
      sev_Verify L (LayerBlob art) (SignatureBundle art) = Ok (Some subject) -> subject <> "" ->
      pattern ∈ allowedSigners pol -> Match_ pattern subject = Some true ->
      trusted L i art (mkVerification "verified" subject).

Lemma check_signature_sound L i art v : check_signature L (in_verifier i) art (in_policy i) = Ok v -> trusted L i art v.
Proof.
  unfold check_signature, Verify_. intros H. destruct (is_empty (SignatureBundle art)) eqn:He.
  - apply String.eqb_eq in He. cbn [negb] in H. destruct (in_policy i) as [pol|] eqn:Hp; [|by destruct (in_verifier i)].
    assert (allowUnsigned pol = true /\ v = mkVerification "unsigned" "") as [Ha ->].
    { destruct (in_verifier i), (allowUnsigned pol); by simplify_eq. }
    by eapply trusted_unsigned.
  - apply String.eqb_neq in He. destruct (in_verifier i) eqn:Hv; [|done]. destruct (UnmarshalBundle _ _); [done|].
    unfold verifyEntity in H. destruct (sev_Verify _ _ _) as [sig|] eqn:Hs; [|done].
    destruct (is_empty (default "" sig)) eqn:Hsub; [done|]. apply String.eqb_neq in Hsub.
    destruct (in_policy i) as [pol|] eqn:Hp; [|done]. destruct (matchesAllowedSigner pol _) eqn:Hm; [|done].
    destruct sig as [subject|]; [|done]. cbn in *. injection H as <-.
    unfold matchesAllowedSigner in Hm. apply existsb_exists in Hm as (pattern & Hin & Hm).
    eapply (trusted_signed _ _ _ _ _ pattern); try done; [by apply list_elem_of_In|].
    by destruct (Match_ pattern subject) as [[]|].
Qed.

(** ** Installation *)

Section Installation.
Context (L : PackLib).

(** The random directory is new. *)
Definition fresh_staging (io : InstallIO) (s : PackStore) : Prop :=
  forall rand, io_mkdtemp io = Ok rand ->
    IsAbs (staging_dir s rand) = true /\ forall p, at_or_under (staging_dir s rand) p = true -> st_disk s !! p = None.

(** What the steps before the commit established. *)
Record accepted (i : Installer) (staging : string) (art : FetchedArtifact) (d : Disk) (s : PackStore) (m : Manifest)
    (v : VerificationResult) : Prop := {
  acc_trusted : trusted L i art v;
  acc_manifest : eval_pkl L (subtree staging d) = Ok m;
  acc_hash : exists content, d !! Join staging (m_Bundle m) = Some content /\ m_BundleHash m = "sha256:" +:+ sha256_hex L content;
  acc_sdk : semverMajorEqual (m_SDKVersion m) HostSDKVersion = true;
  acc_classes : checkCollisions (in_builtin i) m (Store_List s) = true;
  acc_new : st_packs s !! pack_key (m_Name m) (m_Version m) = None;
}.

Lemma check_staged_sound i staging art d s m computed v :
  trusted L i art v -> check_staged L i staging (with_disk d s) = Ok (m, computed) ->
  accepted i staging art d s m v /\ computed = m_BundleHash m.
Proof.
  intros Ht. unfold check_staged. cbn. destruct (eval_pkl L _) as [m0|] eqn:He; [|done].
  destruct (d !! Join staging (m_Bundle m0)) as [content|] eqn:Hc; [|done].
  destruct (String.eqb_spec ("sha256:" +:+ sha256_hex L content) (m_BundleHash m0)) as [Hh|]; [|done]. cbn [negb].
  destruct (semverMajorEqual _ _) eqn:Hs; [|done]. cbn [negb].
  destruct (checkCollisions _ _ _) eqn:Hk; [|done]. cbn [negb].
  unfold Store_Get. cbn. destruct (st_packs s !! _) eqn:Hg; [done|]. intros [= <- <-]. split; [|done].
  split; try done. by exists content.
Qed.

(** The disk after cleaning up, and after the rename, away from the new files. *)
Lemma cleaned_up io s rand d p :
  fresh_staging io s -> io_mkdtemp io = Ok rand -> confined (staging_dir s rand) (st_disk s) d ->
  RemoveAll (staging_dir s rand) d !! p = st_disk s !! p.
Proof.
  intros Hf Hr Hc. destruct (Hf _ Hr) as [_ Hn]. rewrite RemoveAll_lookup.
  destruct (at_or_under (staging_dir s rand) p) eqn:Ha; [by rewrite Hn|].
  destruct (Hc p) as [|[Hu _]]; [done|]. apply under_at_or_under in Hu. congruence.
Qed.

(** Files that a failed installation can leave: new ones, in the staging directory or in
    the directory of a version that was not there, and only if removing that directory
    fails as well. *)
Definition leftover (io : InstallIO) (s : PackStore) (p : string) : Prop :=
  st_disk s !! p = None /\
  ((exists rand, io_mkdtemp io = Ok rand /\ io_clean_staging io <> None /\ at_or_under (staging_dir s rand) p = true) \/
   (exists name version, io_clean_final io <> None /\ st_packs s !! pack_key name version = None /\
      at_or_under (pack_dir s name version) p = true)).

Lemma RemoveAll_io_lookup kept dir d p :
  at_or_under dir p = false \/ kept = None -> RemoveAll_io kept dir d !! p = if at_or_under dir p then None else d !! p.
Proof.
  unfold RemoveAll_io. destruct kept as [keep|]; [|intros _; apply RemoveAll_lookup]. intros [Hd|]; [|done].
  rewrite map_lookup_filter, Hd. destruct (d !! p) as [c|]; [|done]. cbn. rewrite Hd. by rewrite option_guard_True by by left.
Qed.

(** The disk after the staging directory was removed, or not. *)
Lemma staging_cleaned io s rand d p :
  fresh_staging io s -> io_mkdtemp io = Ok rand -> confined (staging_dir s rand) (st_disk s) d ->
  RemoveAll_io (io_clean_staging io) (staging_dir s rand) d !! p = st_disk s !! p \/ leftover io s p.
Proof.
  intros Hf Hr Hc. destruct (Hf _ Hr) as [_ Hn].
  destruct (at_or_under (staging_dir s rand) p) eqn:Ha; [destruct (io_clean_staging io) eqn:Hk|].
  - right. split; [by apply Hn|]. left. exists rand. by rewrite Hk.
  - left. rewrite RemoveAll_io_lookup, Ha by by right. by rewrite Hn.
  - left. rewrite RemoveAll_io_lookup, Ha by by left. destruct (Hc p) as [|[Hu _]]; [done|]. apply under_at_or_under in Hu. congruence.
Qed.

Lemma renamed io s rand d d' fault final :
  fresh_staging io s -> io_mkdtemp io = Ok rand -> confined (staging_dir s rand) (st_disk s) d ->
  rename_dir fault (staging_dir s rand) final d = (d', None) ->
  subtree final d' = subtree (staging_dir s rand) d /\
  (forall p, at_or_under final p = true -> st_disk s !! p = None) /\
  forall p, under final p = false -> d' !! p = st_disk s !! p.
Proof.
  intros Hf Hr Hc Hrn. apply rename_dir_ok in Hrn as (Hb & Hempty & _ & Hsub & Hout).
  destruct (Hf _ Hr) as [_ Hn]. split_and!; [done| |].
  - intros p Hp. destruct (Hc p) as [Hd|[Hu _]]; [|by apply Hn, under_at_or_under]. rewrite <- Hd.
    unfold at_or_under in Hp. apply orb_true_iff in Hp as [->%String.eqb_eq|Hu]; [done|]. by apply (proj1 (subtree_empty final d)).
  - intros p Hp. rewrite Hout by done. rewrite <- RemoveAll_lookup. by eapply cleaned_up.
Qed.

(** What an installation leaves behind. *)
Definition installed_exactly (i : Installer) (io : InstallIO) (ref : string) (s s' : PackStore) (pack : InstalledPack) : Prop :=
  exists art rand d m v,
    let staging := staging_dir s rand in
    let final := pack_dir s (m_Name m) (m_Version m) in
    Fetch L ref = Ok art /\ io_mkdtemp io = Ok rand /\
    untarGz L (io_entries io) (LayerBlob art) staging (st_disk s) = (d, None) /\
    accepted i staging art d s m v /\
    pack = new_pack m (m_BundleHash m) v /\
    st_packs s' = <[key_of pack := stamp (io_now io) pack]> (st_packs s) /\
    st_disk s' !! reg_path s = Some (registry_text L (snd <$> map_to_list (st_packs s'))) /\
    forall p, p <> tmp_path s -> p <> reg_path s ->
      st_disk s' !! p = if under final p then d !! entry_path staging (trim_prefix p (final +:+ "/")) else st_disk s !! p.

Lemma commit_pack_spec i io ref s art rand d m v s' r :
  fresh_staging io s -> io_mkdtemp io = Ok rand -> Fetch L ref = Ok art ->
  untarGz L (io_entries io) (LayerBlob art) (staging_dir s rand) (st_disk s) = (d, None) ->
  accepted i (staging_dir s rand) art d s m v ->
  commit_pack L io (staging_dir s rand) m (m_BundleHash m) v (with_disk d s) = (s', r) ->
  match r with
  | Ok pack => installed_exactly i io ref s s' pack
  | Err _ => st_packs s' = st_packs s /\ st_subs s' = st_subs s /\
             forall p, p <> tmp_path s -> st_disk s' !! p = st_disk s !! p \/ leftover io s p
  end.
Proof.
  intros Hf Hrand Hfetch Hu Hacc. destruct (Hf _ Hrand) as [Habs _].
  assert (confined (staging_dir s rand) (st_disk s) d) as Hc.
  { pose proof (untarGz_confined L (io_entries io) (LayerBlob art) _ (st_disk s) Habs) as H. by rewrite Hu in H. }
  unfold commit_pack. destruct (io_mkdir_parent io).
  { intros [= <- <-]. split_and!; [done..|]. intros p _. cbn. by eapply staging_cleaned. }
  destruct (rename_dir _ _ _ _) as [d' [e|]] eqn:Hrn.
  { intros [= <- <-]. split_and!; [done..|]. intros p _. cbn. by eapply staging_cleaned. }
  destruct (renamed _ _ _ _ _ _ _ Hf Hrand Hc Hrn) as (Hsub & Hnone & Hout).
  set (pack := new_pack m (m_BundleHash m) v). set (s1 := with_disk d' (with_disk d s)).
  set (final := pack_dir (with_disk d s) (m_Name m) (m_Version m)) in *.
  destruct (Store_Add L (io_now io) (io_persist io) pack s1) as [s2 [e|]] eqn:Hadd; intros [= <- <-].
  - apply Store_Add_err in Hadd as (Hpk & Hsubs & Hroot & Hd); [|exact (acc_new _ _ _ _ _ _ _ Hacc)].
    split_and!; [done..|]. intros p Hp. cbn [st_disk with_disk].
    destruct (at_or_under final p) eqn:Ha; [destruct (io_clean_final io) eqn:Hk|].
    + right. split; [by apply Hnone|]. right. exists (m_Name m), (m_Version m). rewrite Hk. split_and!; [done| |done].
      exact (acc_new _ _ _ _ _ _ _ Hacc).
    + left. rewrite RemoveAll_io_lookup, Ha by by right. by rewrite Hnone.
    + left. rewrite RemoveAll_io_lookup, Ha by by left. rewrite (Hd p Hp). cbn. apply Hout.
      destruct (under final p) eqn:Hup; [|done]. apply under_at_or_under in Hup. congruence.
  - apply Store_Add_ok in Hadd as (Hpk & Hroot & Hreg & Hd). exists art, rand, d, m, v. cbn. split_and!; try done.
    intros p Hp Hq. rewrite (Hd p Hp Hq). cbn.
    change (pack_dir s (m_Name m) (m_Version m)) with final. destruct (under final p) eqn:Hup; [|by apply Hout].
    apply under_spec in Hup as [q ->]. by rewrite trim_entry, <- !subtree_lookup, Hsub.
Qed.

Lemma install_spec (i : Installer) (io : InstallIO) (ref : string) (s s' : PackStore) (r : result install_error InstalledPack) :
  fresh_staging io s ->
  Install L i io ref s = (s', r) ->
  match r with
  | Ok pack => installed_exactly i io ref s s' pack
  | Err _ => st_packs s' = st_packs s /\ st_subs s' = st_subs s /\
             forall p, p <> tmp_path s -> st_disk s' !! p = st_disk s !! p \/ leftover io s p
  end.
Proof.
  intros Hf. unfold Install. destruct (is_empty ref); [by intros [= <- <-]; split_and!; [..|by left]|].
  destruct (Fetch L ref) as [art|] eqn:Hfetch; [|by intros [= <- <-]; split_and!; [..|by left]].
  destruct (check_signature _ _ _ _) as [v|] eqn:Hsig; [|by intros [= <- <-]; split_and!; [..|by left]]. apply check_signature_sound in Hsig.
  destruct (io_mkdir_staging io); [by intros [= <- <-]; split_and!; [..|by left]|]. destruct (io_mkdtemp io) as [rand|] eqn:Hrand; [|by intros [= <- <-]; split_and!; [..|by left]].
  destruct (Hf _ Hrand) as [Habs _].
  pose proof (untarGz_confined L (io_entries io) (LayerBlob art) _ (st_disk s) Habs) as Hc.
  destruct (untarGz _ _ _ _ _) as [d [e|]] eqn:Hu; cbn in Hc.
  { intros [= <- <-]. split_and!; [done..|]. intros p _. cbn. by eapply staging_cleaned. }
  destruct (check_staged _ _ _ _) as [[m computed]|] eqn:Hst.
  - apply (check_staged_sound _ _ art _ _ _ _ v) in Hst as [Hacc ->]; [|done]. by eapply commit_pack_spec.
  - intros [= <- <-]. split_and!; [done..|]. intros p _. cbn. by eapply staging_cleaned.
Qed.

(** C18. Installing a pack is all or nothing. If it succeeds, the pack came from a
    trusted signer or the policy admits unsigned packs, its manifest was read
    from exactly the unpacked files, the hash of its bundle is the one the
    manifest states, its SDK version is compatible, its classes were free and the
    version was not installed; then the registry, in memory and on disk, has that
    pack in addition, the directory of the pack holds exactly the unpacked files,
    and no other file changed. If it fails at any step, the registry and every file
    that was there but the temporary one are as before; and no new file is left,
    except where removing the staging directory, or the directory of the new version
    after the registry could not be written, fails as well (the code discards that
    error: example [failed_cleanup_leaves_files]). *)
Theorem install_atomic (i : Installer) (io : InstallIO) (ref : string) (s s' : PackStore) (r : result install_error InstalledPack) :
  fresh_staging io s ->
  Install L i io ref s = (s', r) ->
  match r with
  | Ok pack => installed_exactly i io ref s s' pack
  | Err _ => st_packs s' = st_packs s /\ st_subs s' = st_subs s /\
             forall p, p <> tmp_path s -> st_disk s' !! p = st_disk s !! p \/ leftover io s p
  end.
Proof. apply install_spec. Qed.

(** A new version of an installed pack is refused: as soon as it keeps one
    class of an older version that is still installed, no installation of it
    succeeds. *)
Theorem upgrade_refused (i : Installer) (io : InstallIO) (ref : string) (s s' : PackStore) (k c : string)
    (old pack : InstalledPack) :
  st_packs s !! k = Some old -> p_Name old = p_Name pack -> p_Version old <> p_Version pack ->
  c ∈ p_Classes old -> c ∈ p_Classes pack -> fresh_staging io s ->
  Install L i io ref s <> (s', Ok pack).
Proof.
  intros Hk Hn Hv Hc1 Hc2 Hf Hi. apply install_spec in Hi as (art & rand & d & m & v & _ & _ & _ & Hacc & -> & _); [|done].
  pose proof (acc_classes _ _ _ _ _ _ _ Hacc) as Hcl. unfold checkCollisions in Hcl. apply negb_true_iff in Hcl. cbn in Hn, Hv, Hc2.
  apply (proj2 (not_true_iff_false _) Hcl).
  apply existsb_exists. exists c. split; [by apply list_elem_of_In|]. apply orb_true_iff. right. apply bool_decide_eq_true.
  apply elem_of_app. right. apply list_elem_of_bind. exists old. split.
  - rewrite (proj2 (String.eqb_neq _ _) Hv), andb_false_r. apply list_elem_of_fmap. exists c. by rewrite Hn.
  - unfold Store_List. apply list_elem_of_fmap. exists (k, old). split; [done|]. by apply elem_of_map_to_list.
Qed.

(** A directory without a registry entry blocks its pack: if a crash left the
    files of a version in place but not its entry, no later installation of that
    version succeeds, and it cannot be uninstalled either. *)
Theorem orphan_blocks_install (i : Installer) (io : InstallIO) (ref name version file : string) (s s' : PackStore) (pack : InstalledPack)
    (refs : result string (list string)) (io_remove : option (string * (string -> bool))) (pio : PersistIO) (force : bool) :
  under (pack_dir s name version) file = true -> is_Some (st_disk s !! file) ->
  st_packs s !! pack_key name version = None -> fresh_staging io s ->
  (p_Name pack = name -> p_Version pack = version -> Install L i io ref s <> (s', Ok pack)) /\
  Uninstall L refs io_remove pio name version force s = (s, Some ErrPackNotFound).
Proof.
  intros Hu [content Hfile] Hreg Hf. split; [|unfold Uninstall, Store_Get; by rewrite Hreg].
  intros <- <-. unfold Install. destruct (is_empty ref); [done|]. destruct (Fetch L ref) as [art|]; [|done].
  destruct (check_signature _ _ _ _) as [v|]; [|done]. destruct (io_mkdir_staging io); [done|].
  destruct (io_mkdtemp io) as [rand|] eqn:Hrand; [|done]. destruct (Hf _ Hrand) as [Habs _].
  pose proof (untarGz_confined L (io_entries io) (LayerBlob art) _ (st_disk s) Habs) as Hc.
  destruct (untarGz _ _ _ _ _) as [d [e|]]; [done|]. cbn in Hc. destruct (check_staged _ _ _ _) as [[m computed]|]; [|done].
  unfold commit_pack. destruct (io_mkdir_parent io); [done|]. destruct (rename_dir _ _ _ _) as [d' [e|]] eqn:Hrn; [done|].
  destruct (renamed _ _ _ _ _ _ _ Hf Hrand Hc Hrn) as (_ & Hnone & _).
  destruct (Store_Add _ _ _ _ _) as [s2 [e|]]; intros [= <- <-]. cbn in Hu, Hnone.
  apply under_at_or_under, Hnone in Hu. congruence.
Qed.
End Installation.

(** ** Registered packs have their files *)

Lemma Split_path_text l : l <> [] -> Forall plain l -> Split "/" (path_text true l) = "" :: l.
Proof.
  intros Hne Hl. unfold path_text. change (String "/" (join_slash l)) with ("" +:+ String "/" (join_slash l)).
  rewrite Split_app, Split_join; [done|done|]. eapply Forall_impl; [exact Hl|]. by intros y (_&_&_&?).
Qed.

Lemma under_split l p :
  l <> [] -> Forall plain l -> under (path_text true l) p = true -> exists r, r <> [] /\ Split "/" p = "" :: l ++ r.
Proof.
  intros Hne Hl [r ->]%under_spec. unfold entry_path. rewrite Split_app, Split_path_text by done. exists (Split "/" r).
  split; [|done]. unfold Split. rewrite SplitN_SS || idtac. destruct r; [done|]. cbn [String.length]. rewrite SplitN_SS. by case_match; [case_match|].
Qed.

Lemma plain_pair n v : plain n -> plain v -> Forall plain [n; v].
Proof. intros. apply Forall_cons. split; [done|]. by apply Forall_singleton. Qed.

Section Files.
Context (L : PackLib).

Definition pack_ok (s : PackStore) (k : string) (p : InstalledPack) : Prop :=
  k = key_of p /\ plain (p_Name p) /\ plain (p_Version p) /\ dirExists s (p_Name p) (p_Version p) = true.

Definition registry_ok (s : PackStore) : Prop := root_ok (st_root s) /\ map_Forall (pack_ok s) (st_packs s).

Lemma pack_dir_text s n v :
  root_ok (st_root s) -> plain n -> plain v -> pack_dir s n v = path_text true (elems (st_root s) ++ [n; v]).
Proof.
  intros [Habs _] Hn Hv. unfold pack_dir. pose proof (plain_pair n v Hn Hv).
  rewrite Join_list_plain; [|by intros H0; rewrite H0 in Habs|by rewrite bind_Split_plain]. by rewrite Habs, bind_Split_plain.
Qed.

Lemma registry_plain : Forall plain [".registry.json"] /\ Forall plain [".registry.json.tmp"].
Proof.
  assert (forall s, bool_decide ("/"%char ∉ list_ascii_of_string s) = true -> no_slash s) as H.
  { intros s Hs. by apply bool_decide_eq_true in Hs. }
  split; (constructor; [|constructor]); (split_and!; [done..|]); by apply H.
Qed.

Lemma registry_paths s :
  root_ok (st_root s) ->
  reg_path s = path_text true (elems (st_root s) ++ [".registry.json"]) /\
  tmp_path s = path_text true (elems (st_root s) ++ [".registry.json.tmp"]).
Proof.
  intros [Habs Hne]. unfold tmp_path, reg_path. destruct registry_plain as [H1 H2].
  rewrite Join_list_plain; [|by intros H0; rewrite H0 in Habs|by rewrite bind_Split_plain].
  rewrite Habs, bind_Split_plain by done. split; [done|]. rewrite !path_text_cons by done. by rewrite str_app_assoc, str_app_cons.
Qed.

(** The files of a pack are neither the registry's nor another pack's. *)
Lemma pack_files_apart s n v p :
  root_ok (st_root s) -> plain n -> plain v -> under (pack_dir s n v) p = true ->
  p <> reg_path s /\ p <> tmp_path s /\
  forall n' v', plain n' -> plain v' -> at_or_under (pack_dir s n' v') p = true -> n' = n /\ v' = v.
Proof.
  intros Hr Hn Hv Hu. pose proof Hr as [Habs Hne]. pose proof (elems_plain _ Habs) as He.
  rewrite (pack_dir_text s n v) in Hu by done. destruct (registry_paths s Hr) as [-> ->]. destruct registry_plain as [R1 R2].
  assert (Forall plain (elems (st_root s) ++ [n; v])) as Hp by (apply Forall_app; split; [done|by apply plain_pair]).
  apply under_split in Hu as (r & Hrne & Hs); [|by destruct (elems (st_root s))|done]. rewrite <- app_assoc in Hs.
  assert (forall x, Forall plain [x] -> p <> path_text true (elems (st_root s) ++ [x])) as Hx.
  { intros x Hx ->. rewrite Split_path_text in Hs; [|by destruct (elems (st_root s))|by apply Forall_app].
    injection Hs as Hs. apply app_inv_head in Hs. done. }
  split_and!; [by apply Hx..|]. intros n' v' Hn' Hv' Ha.
  assert (Forall plain (elems (st_root s) ++ [n'; v'])) as Hp' by (apply Forall_app; split; [done|by apply plain_pair]).
  rewrite pack_dir_text in Ha by done. unfold at_or_under in Ha. apply orb_true_iff in Ha as [Ha|Ha].
  - apply String.eqb_eq in Ha. subst p. rewrite Split_path_text in Hs; [|by destruct (elems (st_root s))|done].
    injection Hs as Hs. apply app_inv_head in Hs. injection Hs as -> -> Hr0. done.
  - apply under_split in Ha as (r' & _ & Hs'); [|by destruct (elems (st_root s))|done]. rewrite <- app_assoc, Hs in Hs'.
    injection Hs' as Hs'. apply app_inv_head in Hs'. by injection Hs' as -> -> _.
Qed.

Lemma dirExists_file s n v : dirExists s n v = true <-> exists p, under (pack_dir s n v) p = true /\ is_Some (st_disk s !! p).
Proof.
  unfold dirExists. rewrite negb_true_iff, bool_decide_eq_false, subtree_empty. split.
  - intros H. destruct (decide (map_Forall (fun p _ => under (pack_dir s n v) p = false) (st_disk s))) as [Hd|Hd].
    + destruct H. intros p Hp. apply eq_None_not_Some. intros [c Hc]. apply Hd in Hc. congruence.
    + apply map_not_Forall in Hd as (p & c & Hc & Hp); [|apply _]. exists p. split; [by apply not_false_is_true|by exists c].
  - intros (p & Hp & Hs) H. rewrite H in Hs by done. by destruct Hs.
Qed.

(** Packs whose files no change touches stay in order. *)
Lemma registry_ok_frame s s' k p :
  pack_ok s k p -> root_ok (st_root s) -> st_root s' = st_root s ->
  (forall q, under (pack_dir s (p_Name p) (p_Version p)) q = true -> is_Some (st_disk s !! q) -> is_Some (st_disk s' !! q)) ->
  pack_ok s' k p.
Proof.
  intros (Hk & Hn & Hv & Hd) Hr Hroot Hq. split_and!; try done. apply dirExists_file in Hd as (q & Hu & Hs).
  apply dirExists_file. exists q. unfold pack_dir in *. rewrite Hroot. split; [done|by apply Hq].
Qed.

(** The operations of the daemon, each with what the system answers. *)
Inductive pack_op :=
  | OpInstall (i : Installer) (io : InstallIO) (ref : string)
  | OpUninstall (refs : result string (list string)) (io_remove : option (string * (string -> bool))) (io : PersistIO)
      (name version : string) (force : bool)
  | OpLoad (readErr : option string) (io : PersistIO).

Definition pack_step (s : PackStore) (o : pack_op) : PackStore :=
  match o with
  | OpInstall i io ref => (Install L i io ref s).1
  | OpUninstall refs io_remove io name version force => (Uninstall L refs io_remove io name version force s).1
  | OpLoad readErr io => (Store_Load L readErr io s).1
  end.

(** Manifests and registry files name packs and versions by plain path elements,
    and a manifest is read from a file of the pack. *)
Record lib_ok : Prop := {
  lib_manifest : forall t m, eval_pkl L t = Ok m -> plain (m_Name m) /\ plain (m_Version m) /\ t <> ∅;
  lib_registry : forall text l p, registry_parse L text = Some l -> p ∈ l -> plain (p_Name p) /\ plain (p_Version p);
}.

(** A pack is uninstalled under its own name, and an uninstallation succeeds or
    is refused before it touches anything. *)
Definition op_ok (s : PackStore) (o : pack_op) : Prop :=
  match o with
  | OpInstall _ io _ => fresh_staging io s
  | OpUninstall refs io_remove io name version force =>
      (forall p, Store_Get name version s = Some p -> p_Name p = name /\ p_Version p = version) /\
      ((Uninstall L refs io_remove io name version force s).2 = None \/ (Uninstall L refs io_remove io name version force s).1 = s)
  | OpLoad _ _ => True
  end.

Fixpoint ops_ok (s : PackStore) (l : list pack_op) : Prop :=
  match l with [] => True | o :: l' => op_ok s o /\ ops_ok (pack_step s o) l' end.

Lemma Install_root i io ref s s' r : Install L i io ref s = (s', r) -> st_root s' = st_root s.
Proof.
  unfold Install. repeat (case_match; simplify_eq; try done); intros; simplify_eq; try done. unfold commit_pack in *.
  repeat (case_match; simplify_eq; try done); unfold Store_Add in *; repeat (case_match; simplify_eq; try done);
    cbn; match goal with H : persistLocked _ _ _ = _ |- _ => apply persist_spec in H as (-> & _) end; done.
Qed.

Lemma install_keeps_ok i io ref s : lib_ok -> fresh_staging io s -> registry_ok s -> registry_ok (Install L i io ref s).1.
Proof.
  intros HL Hf [Hr Hok]. destruct (Install L i io ref s) as [s' r] eqn:Hi. pose proof (Install_root _ _ _ _ _ _ Hi) as Hroot.
  pose proof (install_spec L i io ref s s' r Hf Hi) as Hspec. cbn. split; [by rewrite Hroot|]. destruct r as [pack|e].
  - destruct Hspec as (art & rand & d & m & v & _ & Hrand & Hu & Hacc & -> & Hpk & _ & Hdisk).
    destruct (lib_manifest HL _ _ (acc_manifest _ _ _ _ _ _ _ _ Hacc)) as (Hn & Hv & Hne).
    set (dir := pack_dir s (m_Name m) (m_Version m)) in *. destruct (Hf _ Hrand) as [Habs Hfree]. rewrite Hpk.
    apply map_Forall_insert_2.
    + rewrite <- (stamp_key (io_now io)).
      assert (p_Name (stamp (io_now io) (new_pack m (m_BundleHash m) v)) = m_Name m /\
              p_Version (stamp (io_now io) (new_pack m (m_BundleHash m) v)) = m_Version m) as [E1 E2].
      { unfold stamp. by case_match. }
      split_and!; [done|by rewrite E1|by rewrite E2|]. rewrite E1, E2. apply dirExists_file.
      apply map_choose in Hne as (q & c & Hq). rewrite subtree_lookup in Hq.
      exists (entry_path dir q). unfold pack_dir. rewrite Hroot. split; [apply under_entry|].
      destruct (pack_files_apart s _ _ (entry_path dir q) Hr Hn Hv) as (A1 & A2 & _); [apply under_entry|].
      rewrite Hdisk by done. by rewrite under_entry, trim_entry, Hq.
    + intros k p Hp. apply (registry_ok_frame s); [by apply Hok|done|done|]. intros q Hq [c Hc].
      destruct (Hok _ _ Hp) as (Hk & Pn & Pv & _). destruct (pack_files_apart s _ _ q Hr Pn Pv Hq) as (A1 & A2 & A3).
      rewrite Hdisk by done. destruct (under dir q) eqn:Hd; [|by exists c]. exfalso.
      destruct (A3 _ _ Hn Hv (under_at_or_under _ _ Hd)) as [E1 E2]. pose proof (acc_new _ _ _ _ _ _ _ _ Hacc) as Hnew.
      rewrite E1, E2 in Hnew. rewrite Hk in Hp. unfold key_of in Hp. congruence.
  - destruct Hspec as (Hpk & _ & Hdisk). rewrite Hpk. intros k p Hp. apply (registry_ok_frame s); [by apply Hok|done|done|].
    intros q Hq Hs. destruct (Hok _ _ Hp) as (_ & Pn & Pv & _). destruct (pack_files_apart s _ _ q Hr Pn Pv Hq) as (A1 & A2 & _).
    destruct (Hdisk q A2) as [-> | [Hnone _]]; [done|]. rewrite Hnone in Hs. by destruct Hs.
Qed.

Lemma uninstall_keeps_ok refs io_remove io name version force s :
  op_ok s (OpUninstall refs io_remove io name version force) -> registry_ok s ->
  registry_ok (Uninstall L refs io_remove io name version force s).1.
Proof.
  intros [Hname [Hnone| ->]] [Hr Hok]; [|done]. unfold Uninstall, Store_Get in *.
  destruct (st_packs s !! pack_key name version) as [pack|] eqn:Hp; [|done]. destruct (Hname pack eq_refl) as [<- <-].
  case_match; [done|]. destruct io_remove as [[? ?]|]; [done|]. unfold Store_Remove in *. cbn [st_packs with_disk] in *. rewrite Hp in *.
  set (s1 := with_packs _ _) in *. destruct (persistLocked L io s1) as [s2 [e|]] eqn:Hper; [done|]. cbn.
  apply persist_spec in Hper as (Hroot & Hpk & _ & Hdisk & _). cbn in Hroot, Hpk. unfold notify, registry_ok. cbn.
  rewrite Hroot, Hpk. split; [done|]. intros k p Hkp. apply lookup_delete_Some in Hkp as [Hk Hkp].
  apply (registry_ok_frame s); [by apply Hok|done|done|]. intros q Hq Hs. cbn.
  destruct (Hok _ _ Hkp) as (Hkey & Pn & Pv & _). destruct (pack_files_apart s _ _ q Hr Pn Pv Hq) as (A1 & A2 & A3).
  rewrite Hdisk by done. unfold s1. cbn [st_disk with_packs with_disk]. rewrite RemoveAll_lookup.
  destruct (at_or_under _ q) eqn:Ha; [|done]. exfalso. apply Hk.
  destruct (Hok _ _ Hp) as (Hkey' & Pn' & Pv' & _). destruct (A3 _ _ Pn' Pv' Ha) as [E1 E2]. rewrite Hkey. unfold key_of. by rewrite E1, E2.
Qed.

Lemma load_fold_ok s l acc :
  lib_ok -> (forall p, p ∈ l -> plain (p_Name p) /\ plain (p_Version p)) ->
  map_Forall (pack_ok s) acc.1 -> map_Forall (pack_ok s) (foldl (load_one s) acc l).1.
Proof.
  intros HL. revert acc. induction l as [|p l IH]; intros acc Hpl Hacc; [done|]. cbn [foldl]. apply IH.
  - intros q Hq. apply Hpl. by right.
  - unfold load_one. destruct (dirExists s (p_Name p) (p_Version p)) eqn:Hd; cbn; [|done].
    apply map_Forall_insert_2; [|done]. destruct (Hpl p) as [H1 H2]; [by left|]. by split_and!.
Qed.

Lemma load_keeps_ok readErr io s : lib_ok -> registry_ok s -> registry_ok (Store_Load L readErr io s).1.
Proof.
  intros HL [Hr Hok]. unfold Store_Load. destruct readErr; [done|]. destruct (st_disk s !! reg_path s) as [data|]; [|done].
  destruct (registry_parse L data) as [l|] eqn:Hl; [|done].
  pose proof (load_fold_ok s l (st_packs s, false) HL (fun p => lib_registry HL _ _ p Hl) Hok) as Hm.
  destruct (foldl _ _ _) as [m stale]. cbn in Hm. destruct stale; [|done].
  destruct (persistLocked L io (with_packs m s)) as [s2 e] eqn:Hper. cbn.
  apply persist_spec in Hper as (Hroot & Hpk & _ & Hdisk & _). cbn in Hroot, Hpk. unfold registry_ok. rewrite Hroot, Hpk. split; [done|].
  intros k p Hp. apply (registry_ok_frame s); [by apply Hm|done|done|]. intros q Hq Hs.
  destruct (Hm _ _ Hp) as (_ & Pn & Pv & _). destruct (pack_files_apart s _ _ q Hr Pn Pv Hq) as (A1 & A2 & _). by rewrite Hdisk.
Qed.

(** Every registered pack has its files: whatever installations,
    uninstallations and reloads of the registry file happen, with whatever
    failures the system answers an installation or a reload, each registered
    pack is filed under its own key and its directory is there. *)
Theorem registered_packs_have_files (s : PackStore) (l : list pack_op) :
  lib_ok -> registry_ok s -> ops_ok s l -> registry_ok (foldl pack_step s l).
Proof.
  intros HL. revert s. induction l as [|o l IH]; intros s Hs Hops; [done|]. destruct Hops as [Ho Hops]. cbn [foldl]. apply IH; [|done].
  destruct o as [i io ref|refs io_remove io name version force|readErr io]; cbn [pack_step].
  - by apply install_keeps_ok.
  - by apply uninstall_keeps_ok.
  - by apply load_keeps_ok.
Qed.
End Files.

(** ** A registry, a pack and its artifact *)

Module PackDemo.

Definition manifest (name version : string) : Manifest :=
  mkManifest name version "1.2.0" "bundle.js" "sha256:code" ["Clock"] "" "" "".
Definition archive : list tar_entry :=
  [mkEntry "manifest.pkl" TypeReg "pkl"; mkEntry "./bundle.js" TypeReg "code"].
Definition lib (m : Manifest) (entries : list tar_entry) : PackLib :=
  mkPackLib (fun _ _ => Ok (mkArtifact "blob" "sig")) (fun _ => None) (fun _ _ => Ok (Some "https://example.org/ann/ci"))
    (fun _ => (entries, None))
    (fun t => match t !! "manifest.pkl" with Some _ => Ok m | None => Err "no manifest" end)
    (fun s => s) (fun _ => "registry") (fun _ => Some []).
Definition installer : Installer :=
  mkInstaller true (Some (mkTrustPolicy ["https://example.org/ann/*"] false)) ["Gauge"].
Definition io : InstallIO :=
  mkInstallIO None (Ok "1") (fun _ => None) None None None None 5 (mkPersistIO None None).
Definition root : string := "/srv/sy/widgets".
Definition empty : PackStore := mkPackStore root ∅ ∅ ∅.
Definition clock : Manifest := manifest "clock" "1.0.0".
Definition clock_lib : PackLib := lib clock archive.
Definition installed : PackStore := (Install clock_lib installer io "reg/clock:1" empty).1.
Definition pack : InstalledPack := new_pack clock "sha256:code" (mkVerification "verified" "https://example.org/ann/ci").

Lemma fresh_on (s : PackStore) :
  IsAbs (staging_dir s "1") = true -> subtree (staging_dir s "1") (st_disk s) = ∅ -> st_disk s !! staging_dir s "1" = None ->
  fresh_staging io s.
Proof.
  intros Habs Hsub Hat rand [= <-]. split; [done|]. intros p Hp. unfold at_or_under in Hp. apply orb_true_iff in Hp as [Hp|Hp].
  - apply String.eqb_eq in Hp. by subst p.
  - by apply (proj1 (subtree_empty _ _) Hsub).
Defined.

Lemma plain_by (s : string) :
  negb (is_empty s) && negb (String.eqb s ".") && negb (String.eqb s "..") && bool_decide ("/"%char ∉ list_ascii_of_string s) = true ->
  plain s.
Proof.
  rewrite !andb_true_iff, !negb_true_iff, bool_decide_eq_true. unfold is_empty. rewrite !String.eqb_neq. intros [[[]]]. by split_and!.
Qed.

Lemma untar_confined_witness :
  let d := (untarGz (lib clock (mkEntry "../../etc/passwd" TypeReg "evil" :: archive)) (fun _ => None) "blob" "/srv/x" ∅).1 in
  d !! "/etc/passwd" = None.
Proof.
  cbn zeta. destruct (untar_confined (lib clock (mkEntry "../../etc/passwd" TypeReg "evil" :: archive)) (fun _ => None) "blob" "/srv/x" ∅
    eq_refl "/etc/passwd") as [H|[H _]].
  - by rewrite H, lookup_empty.
  - discriminate H.
Defined.

Lemma serve_exact_witness :
  BundleHandler "GET" "/widgets/clock/1.0.0/x/../bundle.js" "" installed =
    ServeFile "/srv/sy/widgets/clock/1.0.0/bundle.js" "text/javascript".
Proof.
  assert (root_ok (st_root installed)) as H by (by vm_compute).
  destruct (serve_exact installed "clock/1.0.0/x/../bundle.js" H) as [Hs _].
  change ("/widgets/" +:+ "clock/1.0.0/x/../bundle.js") with "/widgets/clock/1.0.0/x/../bundle.js" in Hs.
  rewrite Hs. vm_compute. reflexivity.
Defined.

Lemma install_atomic_witness :
  (Install clock_lib installer io "reg/clock:1" empty).2 = Ok pack /\
  st_packs installed = {[ "clock@1.0.0" := stamp 5 pack ]} /\
  st_disk installed !! "/srv/sy/widgets/clock/1.0.0/bundle.js" = Some "code".
Proof.
  assert (fresh_staging io empty) as Hf by (apply fresh_on; vm_compute; reflexivity).
  assert (Install clock_lib installer io "reg/clock:1" empty = (installed, Ok pack)) as Hi by (vm_compute; reflexivity).
  pose proof (install_atomic clock_lib installer io "reg/clock:1" empty installed (Ok pack) Hf Hi) as H. split; [by rewrite Hi|].
  destruct H as (art & rand & d & m & v & _ & _ & _ & _ & _ & Hpk & _). split; [|vm_compute; reflexivity]. exact Hpk.
Defined.

(** The next version of the clock cannot be installed beside the first. *)
Lemma upgrade_refused_witness :
  let next := manifest "clock" "1.1.0" in
  forall s', Install (lib next archive) installer io "reg/clock:2" installed
    <> (s', Ok (new_pack next "sha256:code" (mkVerification "verified" "https://example.org/ann/ci"))).
Proof.
  intros next s'. apply (upgrade_refused (lib next archive) installer io "reg/clock:2" installed s' "clock@1.0.0" "Clock" (stamp 5 pack)).
  - vm_compute. reflexivity.
  - reflexivity.
  - by vm_compute.
  - left.
  - left.
  - apply fresh_on; vm_compute; reflexivity.
Defined.

(** The daemon died between the rename and the registry. *)
Definition crashed : PackStore := with_packs ∅ installed.

Lemma orphan_blocks_install_witness :
  (forall s', Install clock_lib installer io "reg/clock:1" crashed <> (s', Ok pack)) /\
  Uninstall clock_lib (Ok []) None (mkPersistIO None None) "clock" "1.0.0" true crashed = (crashed, Some ErrPackNotFound).
Proof.
  assert (fresh_staging io crashed) as Hf by (apply fresh_on; vm_compute; reflexivity).
  assert (forall s', (p_Name pack = "clock" -> p_Version pack = "1.0.0" -> Install clock_lib installer io "reg/clock:1" crashed <> (s', Ok pack)) /\
    Uninstall clock_lib (Ok []) None (mkPersistIO None None) "clock" "1.0.0" true crashed = (crashed, Some ErrPackNotFound)) as H.
  { intros s'. apply (orphan_blocks_install clock_lib installer io "reg/clock:1" "clock" "1.0.0" "/srv/sy/widgets/clock/1.0.0/bundle.js");
      [reflexivity | vm_compute; by eexists | reflexivity | done]. }
  split; [intros s'; by apply (proj1 (H s')) | apply (H crashed)].
Defined.

Lemma registered_packs_have_files_witness :
  registry_ok (foldl (pack_step clock_lib) empty [OpInstall installer io "reg/clock:1"; OpLoad None (mkPersistIO None None)]) /\
  is_Some (st_packs (foldl (pack_step clock_lib) empty [OpInstall installer io "reg/clock:1"; OpLoad None (mkPersistIO None None)]) !! "clock@1.0.0").
Proof.
  split; [|vm_compute; by eexists]. apply (registered_packs_have_files clock_lib empty).
  - split.
    + intros t m Hm. cbn in Hm. destruct (t !! "manifest.pkl") eqn:Ht; [|done]. injection Hm as <-.
      split_and!; [by apply plain_by..|]. intros ->. by rewrite lookup_empty in Ht.
    + intros text l p [= <-] Hp. by apply not_elem_of_nil in Hp.
  - split; [by vm_compute|apply map_Forall_empty].
  - cbn [ops_ok]. split_and!; [|done|done]. apply fresh_on; vm_compute; reflexivity.
Defined.

(** The registry cannot be written and the directory of the new version not removed. *)
Example failed_cleanup_leaves_files :
  let io' := mkInstallIO None (Ok "1") (fun _ => None) None None None (Some (fun _ => true)) 5 (mkPersistIO (Some (None, "disk full")) None) in
  let s := (Install clock_lib installer io' "reg/clock:1" empty).1 in
  is_ok (Install clock_lib installer io' "reg/clock:1" empty).2 = false /\ st_packs s = ∅ /\
  st_disk s !! "/srv/sy/widgets/clock/1.0.0/bundle.js" = Some "code".
Proof. vm_compute. done. Qed.

(** Nothing checks the name in a manifest: this one leaves the root directory. *)
Definition stray_lib : PackLib := lib (manifest "../../../etc" "clock") archive.

Example manifest_name_escapes_root :
  let s := (Install stray_lib installer io "reg/x:1" empty).1 in
  is_ok (Install stray_lib installer io "reg/x:1" empty).2 = true /\
  st_disk s !! "/etc/clock/bundle.js" = Some "code" /\ under root "/etc/clock/bundle.js" = false.
Proof. vm_compute. done. Qed.

(** The key of a pack does not determine its name and version: uninstalling
    version [..] of pack [a@] finds version [@..] of pack [a] and removes the
    whole root directory. *)
Definition odd_lib : PackLib := lib (manifest "a" "@..") archive.

Example uninstall_removes_root :
  let s := (Install odd_lib installer io "reg/a:1" installed).1 in
  let s' := (Uninstall odd_lib (Ok []) None (mkPersistIO None None) "a@" ".." false s).1 in
  st_disk s !! "/srv/sy/widgets/clock/1.0.0/bundle.js" = Some "code" /\
  st_disk s' !! "/srv/sy/widgets/clock/1.0.0/bundle.js" = None /\ is_Some (st_packs s' !! "clock@1.0.0").
Proof. vm_compute. split_and!; [done|done|by eexists]. Qed.

End PackDemo.
