(* ===== verification/EditSession.v ===== *)
(** * Edit sessions

    Models [internal/editsession]: [locks.go], [service.go] (opening, committing
    and abandoning a session, renaming and deleting files), [watcher.go] and
    [regenerability.go]. The file system is a [gmap] from paths; which call fails
    for other reasons than a missing file is an argument, and so are clock
    readings and random tokens. SHA-256 is a parameter. A commit is two steps,
    the check against the disk and the write, because no lock spans them. *)

From Stdlib Require Import Ascii String.
From S2P Require Import Prelude Codec Json Paths.

(** ** Locks *)

Record lockEntry := mkLock { lk_filePath : string; lk_expiresAt : Z }.

Definition defaultLockTTL : Z := 30 * Minute.

Abbreviation Locks := (gmap string lockEntry).

Definition Acquire (ttl : Z) (now : Z) (token filePath : string) (m : Locks) : Locks :=
  <[token := mkLock filePath (now + ttl)]> m.

(** [(valid, expired)]. *)
Definition Validate (now : Z) (token : string) (m : Locks) : bool * bool :=
  match m !! token with
  | None => (false, false)
  | Some e => if lk_expiresAt e <? now then (false, true) else (true, false)
  end.

Definition FilePath (now : Z) (token : string) (m : Locks) : option string :=
  match m !! token with
  | None => None
  | Some e => if lk_expiresAt e <? now then None else Some (lk_filePath e)
  end.

(** The second component is [false] for [ErrLockExpired]. *)
Definition Heartbeat (ttl now : Z) (token : string) (m : Locks) : Locks * bool :=
  match m !! token with
  | None => (m, false)
  | Some e => if lk_expiresAt e <? now then (m, false) else (<[token := mkLock (lk_filePath e) (now + ttl)]> m, true)
  end.

Definition Release (token : string) (m : Locks) : Locks := delete token m.

Definition sweep (now : Z) (m : Locks) : Locks := filter (fun p => now <= lk_expiresAt p.2) m.

(** ** The service *)

Record sessionMeta := mkMeta { filePath : string; fileHash : string; ancestorPkl : string; lockToken : string }.

(** [reloads] are the calls of the commit trigger. *)
Record Service := mkService {
  configDir : string;
  locks : Locks;
  sessions : gmap string sessionMeta;
  disk : gmap string string;
  reloads : list string;
}.

Definition with_locks (l : Locks) (s : Service) : Service := mkService (configDir s) l (sessions s) (disk s) (reloads s).
Definition with_disk (d : gmap string string) (s : Service) : Service :=
  mkService (configDir s) (locks s) (sessions s) d (reloads s).
Definition with_sessions (m : gmap string sessionMeta) (s : Service) : Service :=
  mkService (configDir s) (locks s) m (disk s) (reloads s).
Definition triggerReload (source : string) (s : Service) : Service :=
  mkService (configDir s) (locks s) (sessions s) (disk s) (reloads s ++ [source]).

Inductive rpc_error :=
  | InvalidArgument (msg : string) | Internal (msg : string) | FailedPrecondition (msg : string)
  | PermissionDenied (msg : string) | NotFound (msg : string) | AlreadyExists (msg : string).

Definition resolvePath (s : Service) (path : string) : string :=
  if IsAbs path then path else if is_empty (configDir s) then path else Join (configDir s) path.

Section Service.
Context (sha256 : string -> string).

Definition hashBytes (b : string) : string := encode hex (sha256 b).

(** The hash of what [os.ReadFile] returns; a file that is missing has none. *)
Definition disk_hash (data : option string) : string := match data with Some d => hashBytes d | None => "" end.

Record OpenForEditResponse := mkOpened {
  op_SessionId : string; op_LockToken : string; op_FileHash : string; op_AncestorPkl : string;
}.

(** [readErr] is a failure to read a file that exists; the tokens are the results
    of [newToken]. *)
Definition OpenForEdit (now : Z) (readErr : option string) (token sessionID : result string string) (path : string)
    (s : Service) : Service * result rpc_error OpenForEditResponse :=
  if is_empty path then (s, Err (InvalidArgument "file_path required"))
  else
    let resolved := resolvePath s path in
    match readErr with
    | Some e => (s, Err (Internal e))
    | None =>
        let data := disk s !! resolved in
        let hash := disk_hash data in
        let ancestor := default "" data in
        match token with
        | Err e => (s, Err (Internal e))
        | Ok tok =>
            let s1 := with_locks (Acquire defaultLockTTL now tok resolved (locks s)) s in
            match sessionID with
            | Err e => (with_locks (Release tok (locks s1)) s1, Err (Internal e))
            | Ok sid => (with_sessions (<[sid := mkMeta resolved hash ancestor tok]> (sessions s1)) s1,
                         Ok (mkOpened sid tok hash ancestor))
            end
        end
    end.

Record CommitEditRequest := mkCommit {
  cm_FilePath : string; cm_LockToken : string; cm_ExpectedFileHash : string; cm_RegeneratedPkl : string; cm_Force : bool;
}.

Inductive CommitEditResponse :=
  | CommitSuccess (newFileHash : string)
  | CommitConflict (diskHash diskPkl ancestor : string).

(** The session of a lock token; tokens are unique. *)
Definition session_of (token : string) (s : Service) : option (string * sessionMeta) :=
  snd <$> list_find (fun p => lockToken p.2 = token) (map_to_list (sessions s)).

(** [CommitEdit] up to the comparison with the disk: [Ok None] goes on to write. *)
Definition commit_check (now : Z) (readErr : option string) (req : CommitEditRequest) (s : Service) :
    result rpc_error (option CommitEditResponse) :=
  let path := resolvePath s (cm_FilePath req) in
  match Validate now (cm_LockToken req) (locks s) with
  | (_, true) => Err (FailedPrecondition "LOCK_EXPIRED")
  | (false, _) => Err (PermissionDenied "invalid lock token")
  | (true, false) =>
      let ancestor := match session_of (cm_LockToken req) s with Some (_, m) => ancestorPkl m | None => "" end in
      match readErr with
      | Some e => Err (Internal e)
      | None =>
          let data := disk s !! path in
          if negb (cm_Force req) && negb (String.eqb (disk_hash data) (cm_ExpectedFileHash req))
          then Ok (Some (CommitConflict (disk_hash data) (default "" data) ancestor))
          else Ok None
      end
  end.

(** The rest: the write and the reload. [writeErr] is a failure to create the
    directory or to write. *)
Definition commit_write (writeErr : option string) (req : CommitEditRequest) (s : Service) :
    Service * result rpc_error CommitEditResponse :=
  let path := resolvePath s (cm_FilePath req) in
  match writeErr with
  | Some e => (s, Err (Internal e))
  | None => (triggerReload "form" (with_disk (<[path := cm_RegeneratedPkl req]> (disk s)) s),
             Ok (CommitSuccess (hashBytes (cm_RegeneratedPkl req))))
  end.

Definition CommitEdit (now : Z) (readErr writeErr : option string) (req : CommitEditRequest) (s : Service) :
    Service * result rpc_error CommitEditResponse :=
  match commit_check now readErr req s with
  | Err e => (s, Err e)
  | Ok (Some r) => (s, Ok r)
  | Ok None => commit_write writeErr req s
  end.

(** [AbandonEdit]: releases the lock and forgets the first session with it. *)
Definition AbandonEdit (token : string) (s : Service) : Service :=
  let s1 := with_locks (Release token (locks s)) s in
  match session_of token s1 with
  | Some (sid, _) => with_sessions (delete sid (sessions s1)) s1
  | None => s1
  end.

(** The heartbeat of a session's event stream; an unknown session is not found. *)
Definition session_heartbeat (now : Z) (sid : string) (s : Service) : Service * result rpc_error unit :=
  if is_empty sid then (s, Err (InvalidArgument "session_id required"))
  else match sessions s !! sid with
  | None => (s, Err (NotFound "session not found"))
  | Some m => (with_locks (Heartbeat defaultLockTTL now (lockToken m) (locks s)).1 s, Ok tt)
  end.

End Service.

(** ** Managing files *)

(** The absolute path and the path below the configuration directory. *)
Definition resolveManagedFilePath (s : Service) (path : string) : result rpc_error (string * string) :=
  if is_empty (configDir s) then Err (FailedPrecondition "config_dir not configured")
  else if is_empty path then Err (InvalidArgument "file_path required")
  else
    let clean := Clean path in
    let outside := Err (InvalidArgument ("file_path outside config root: " +:+ path)) in
    match (if IsAbs clean then Rel (configDir s) clean else Some clean) with
    | None => outside
    | Some rel =>
        if String.eqb rel "." || String.eqb rel ".." || IsAbs rel || has_prefix rel "../" then outside
        else
          let ext := Ext rel in
          if negb (String.eqb ext ".pkl") && negb (String.eqb ext ".star")
          then Err (InvalidArgument ("unsupported file extension: " +:+ ext))
          else Ok (Join (configDir s) rel, rel)
    end.

Definition hasActiveSession (path : string) (s : Service) : bool :=
  existsb (fun p => String.eqb (filePath p.2) path) (map_to_list (sessions s)).

(** [osErr] is a failure of the file system other than a missing file. *)
Definition RenameFile (osErr : option string) (old new : string) (s : Service) : Service * result rpc_error unit :=
  match resolveManagedFilePath s old with
  | Err e => (s, Err e)
  | Ok (oldPath, _) =>
      match resolveManagedFilePath s new with
      | Err e => (s, Err e)
      | Ok (newPath, _) =>
          if String.eqb oldPath newPath
          then (s, Err (InvalidArgument "old_file_path and new_file_path must differ"))
          else if hasActiveSession oldPath s then (s, Err (FailedPrecondition "file has an active edit session"))
          else match disk s !! oldPath with
          | None => (s, Err (NotFound ("file not found: " +:+ old)))
          | Some content =>
              match disk s !! newPath with
              | Some _ => (s, Err (AlreadyExists ("file already exists: " +:+ new)))
              | None =>
                  match osErr with
                  | Some e => (s, Err (Internal e))
                  | None => (triggerReload "rename" (with_disk (<[newPath := content]> (delete oldPath (disk s))) s), Ok tt)
                  end
              end
          end
      end
  end.

Definition DeleteFile (osErr : option string) (path : string) (s : Service) : Service * result rpc_error unit :=
  match resolveManagedFilePath s path with
  | Err e => (s, Err e)
  | Ok (full, _) =>
      if hasActiveSession full s then (s, Err (FailedPrecondition "file has an active edit session"))
      else match disk s !! full with
      | None => (s, Err (NotFound ("file not found: " +:+ path)))
      | Some _ => match osErr with
                  | Some e => (s, Err (Internal e))
                  | None => (triggerReload "delete" (with_disk (delete full (disk s)) s), Ok tt)
                  end
      end
  end.

(** ** The file watcher *)

Record FileEvent := mkFileEvent { fe_Path : string; fe_Hash : string; fe_ModifiedAt : Z }.

Definition eventChanCapacity : nat := 64.

(** A subscription: its channel's identity, its path and its queue. *)
Record subscriber := mkSub { sub_id : nat; sub_path : string; sub_queue : list FileEvent }.

Record FileWatcher := mkWatcher { watched : gmap string (string * Z); subscribers : list subscriber }.

(** [stat] is [statFile]: the hash and the modification time, [None] on error. *)
Definition Watcher_Subscribe (stat : string -> option (string * Z)) (ch : nat) (path : string) (w : FileWatcher) : FileWatcher :=
  mkWatcher
    (match watched w !! path, stat path with
     | None, Some st => <[path := st]> (watched w)
     | _, _ => watched w
     end)
    (subscribers w ++ [mkSub ch path []]).

(** The function [Subscribe] returns: removes the first subscription with the
    channel. *)
Fixpoint remove_sub (ch : nat) (l : list subscriber) : list subscriber :=
  match l with
  | [] => []
  | sub :: l' => if (sub_id sub =? ch)%nat then l' else sub :: remove_sub ch l'
  end.
Definition Watcher_Unsubscribe (ch : nat) (w : FileWatcher) : FileWatcher :=
  mkWatcher (watched w) (remove_sub ch (subscribers w)).

(** The event a poll emits for a path, if any: the first observation emits none. *)
Definition poll_event (stat : string -> option (string * Z)) (w : FileWatcher) (path : string) : option FileEvent :=
  match stat path, watched w !! path with
  | Some (h, mt), Some (prev, _) => if String.eqb prev h then None else Some (mkFileEvent path h mt)
  | _, _ => None
  end.

(** What a poll records for a path: an unchanged hash keeps the old entry. *)
Definition poll_record (stat : string -> option (string * Z)) (m : gmap string (string * Z)) (path : string) : gmap string (string * Z) :=
  match stat path with
  | None => m
  | Some (h, mt) => match m !! path with
                    | Some (prev, _) => if String.eqb prev h then m else <[path := (h, mt)]> m
                    | None => <[path := (h, mt)]> m
                    end
  end.

(** [select { case sub.ch <- evt: default: }]. *)
Definition offer (ev : option FileEvent) (sub : subscriber) : subscriber :=
  match ev with
  | Some e => if (length (sub_queue sub) <? eventChanCapacity)%nat
              then mkSub (sub_id sub) (sub_path sub) (sub_queue sub ++ [e]) else sub
  | None => sub
  end.

Definition poll (stat : string -> option (string * Z)) (w : FileWatcher) : FileWatcher :=
  let paths := elements (list_to_set (sub_path <$> subscribers w) : gset string) in
  mkWatcher (foldl (poll_record stat) (watched w) paths)
    ((fun sub => offer (poll_event stat w (sub_path sub)) sub) <$> subscribers w).

(** ** Regenerability *)

Inductive reason := ReasonStarlarkCall | ReasonImport | ReasonLetBinding.

Record FileOnlyRegion := mkRegion { StartLine : Z; EndLine : Z; Reason : reason }.

Definition classifyLine (line : string) : option reason :=
  if str_contains line "starlark(" then Some ReasonStarlarkCall
  else if has_prefix line ("import " +:+ String "034" "") || has_prefix line "import '" then Some ReasonImport
  else if has_prefix line "local " || has_prefix line "let " then Some ReasonLetBinding
  else None.

(** The lines of [bufio.Scanner]: no newline, no carriage return before it, and
    no empty line after the last newline. *)
Definition scan_lines (s : string) : list string :=
  let parts := Split "010" s in
  let parts := match last parts with Some "" => removelast parts | _ => parts end in
  (fun l => trim_suffix l (String "013" "")) <$> parts.

(** A line of 64 KiB or more stops the scanner with an error. *)
Definition maxTokenSize : nat := Z.to_nat 65536.

Fixpoint analyze_lines (lineNum : Z) (lines : list string) : list FileOnlyRegion :=
  match lines with
  | [] => []
  | line :: rest =>
      let n := lineNum + 1 in
      let trimmed := TrimSpace line in
      (if has_prefix trimmed "///" || has_prefix trimmed "//" then []
       else match classifyLine trimmed with Some r => [mkRegion n n r] | None => [] end) ++ analyze_lines n rest
  end.

(** [None] is the error of the scanner. *)
Definition AnalyzeFile (content : string) : option (list FileOnlyRegion) :=
  if existsb (fun l => Nat.leb maxTokenSize (String.length l)) (Split "010" content) then None
  else Some (analyze_lines 0 (scan_lines content)).

(** * Edit sessions: confinement, conflicts and notifications *)


(** ** Managed paths *)

(** What the checks on a path below the configuration directory establish. *)
Lemma relative_plain n ps rel :
  Forall plain ps -> rel = path_text false (replicate n ".." ++ ps) \/ rel = join_slash (replicate n ".." ++ ps) ->
  rel <> "." -> rel <> ".." -> has_prefix rel "../" = false -> Ext rel <> "" ->
  exists l, l <> [] /\ Forall plain l /\ rel = join_slash l.
Proof.
  intros Hps Hrel H1 H2 H3 He.
  assert (rel = join_slash (replicate n ".." ++ ps)) as Hj.
  { destruct Hrel as [->|]; [|done]. unfold path_text in *. by destruct (replicate n ".." ++ ps). }
  subst rel. apply inside_plain in H3 as ->; [|done..]. cbn [replicate app] in *.
  exists ps. split_and!; [|done|done]. by intros ->.
Qed.

Lemma Rel_elems base targ rel :
  IsAbs targ = true -> Rel base targ = Some rel -> rel <> "." ->
  exists n ps, Forall plain ps /\ rel = join_slash (replicate n ".." ++ ps).
Proof.
  intros Ha. unfold Rel. case_match; [by intros [= <-]|]. case_match; [done|].
  destruct (strip_common (elems base) (elems targ)) as [b t] eqn:Hs.
  apply strip_common_spec in Hs as (c & _ & Ht).
  destruct (elems_shape targ) as (n & ps & Hsh & Hps & Hn). rewrite (Hn Ha) in Hsh. cbn [replicate app] in Hsh.
  assert (Forall plain t) as Hpt. { rewrite Ht in Hsh. subst ps. by apply Forall_app in Hps as [_ ?]. }
  intros Hr _. exists (length b), t. split; [done|]. rewrite <- const_replicate.
  destruct b as [|x b], t as [|y t]; try (by injection Hr as <-). case_match; [done|by injection Hr as <-].
Qed.

Lemma resolveManaged_inside s path full rel :
  resolveManagedFilePath s path = Ok (full, rel) ->
  exists l, l <> [] /\ Forall plain l /\ rel = join_slash l /\
    full = path_text (IsAbs (configDir s)) (elems (configDir s) ++ l) /\ (Ext rel = ".pkl" \/ Ext rel = ".star").
Proof.
  unfold resolveManagedFilePath, is_empty. destruct (String.eqb_spec (configDir s) "") as [|Hdir]; [done|].
  case_match; [done|].
  destruct (if IsAbs (Clean path) then _ else _) as [r|] eqn:Hr; [|done].
  destruct (String.eqb_spec r "."); [done|]. destruct (String.eqb_spec r ".."); [done|]. cbn [orb].
  destruct (IsAbs r) eqn:Ha; [done|]. destruct (has_prefix r "../") eqn:Hp; [done|]. cbn [orb].
  destruct (negb _ && negb _) eqn:He; [done|]. intros [= <- <-].
  assert (Ext r = ".pkl" \/ Ext r = ".star") as Hext.
  { apply andb_false_iff in He. rewrite !negb_false_iff, !String.eqb_eq in He. done. }
  assert (exists n ps, Forall plain ps /\ (r = path_text false (replicate n ".." ++ ps) \/ r = join_slash (replicate n ".." ++ ps)))
    as (m & ps & Hps & Hshape).
  { destruct (IsAbs (Clean path)) eqn:Hc.
    - destruct (Rel_elems _ _ _ Hc Hr) as (m & ps & ? & ?); [done|]. by exists m, ps; auto.
    - injection Hr as <-. destruct (elems_shape path) as (m & ps & Hsh & Hps & _). exists m, ps. split; [done|]. left.
      unfold Clean in *. rewrite Hsh in *. destruct (IsAbs path); [|done]. done. }
  destruct (relative_plain m ps r) as (l & Hne & Hl & ->); try done.
  { by destruct Hext as [-> | ->]. }
  exists l. split_and!; try done. by apply Join_plain.
Qed.

(** Renaming and deleting stay inside the configuration directory: when a
    path given by a client, absolute or relative, with any dots and double dots
    in it, is accepted, what is returned is the cleaned configuration directory
    with at least one further element, none of them a dot, a double dot or
    containing a slash, and with the extension of a managed file. *)
Theorem managed_path_confined (s : Service) (path full rel : string) :
  resolveManagedFilePath s path = Ok (full, rel) ->
  exists l, l <> [] /\ Forall plain l /\
    full = path_text (IsAbs (configDir s)) (elems (configDir s) ++ l) /\ (Ext rel = ".pkl" \/ Ext rel = ".star").
Proof. intros (l & ? & ? & _ & ? & ?)%resolveManaged_inside. by exists l. Qed.

(** ** Commits *)

Section Commits.
Context (sha256 : string -> string).
Notation CommitEdit := (CommitEdit sha256).
Notation commit_check := (commit_check sha256).
Notation OpenForEdit := (OpenForEdit sha256).
Notation disk_hash := (disk_hash sha256).

(** The lock of a token is live. *)
Definition live (now : Z) (token : string) (s : Service) : Prop :=
  exists e, locks s !! token = Some e /\ now <= lk_expiresAt e.

Lemma live_Validate now token s : live now token s <-> Validate now token (locks s) = (true, false).
Proof.
  unfold live, Validate. split.
  - intros (e & -> & H). by rewrite (proj2 (Z.ltb_ge _ _) H).
  - destruct (locks s !! token) as [e|]; [|done]. destruct (Z.ltb_spec (lk_expiresAt e) now); [done|]. eauto.
Qed.

Lemma commit_check_live now req s :
  live now (cm_LockToken req) s ->
  commit_check now None req s =
    Ok (if negb (cm_Force req) && negb (String.eqb (disk_hash (disk s !! resolvePath s (cm_FilePath req))) (cm_ExpectedFileHash req))
        then Some (CommitConflict (disk_hash (disk s !! resolvePath s (cm_FilePath req)))
                     (default "" (disk s !! resolvePath s (cm_FilePath req)))
                     match session_of (cm_LockToken req) s with Some (_, m) => ancestorPkl m | None => "" end)
        else None).
Proof. intros Hl%live_Validate. unfold commit_check. rewrite Hl. by case_match. Qed.

(** The state after a commit that writes. *)
Definition committed (req : CommitEditRequest) (s : Service) : Service :=
  triggerReload "form" (with_disk (<[resolvePath s (cm_FilePath req) := cm_RegeneratedPkl req]> (disk s)) s).

(** First to commit wins, when commits do not overlap: two sessions opened on
    a file have the hash of its content; the commit of one succeeds and writes
    its text; the commit of the other with the hash it was given is then refused
    with the first one's text and leaves the file alone, provided the new text
    has another hash. *)
Theorem first_commit_wins (now1 now2 : Z) (req1 req2 : CommitEditRequest) (s : Service) :
  let path := resolvePath s (cm_FilePath req1) in
  live now1 (cm_LockToken req1) s -> live now2 (cm_LockToken req2) s ->
  resolvePath s (cm_FilePath req2) = path ->
  cm_ExpectedFileHash req1 = disk_hash (disk s !! path) -> cm_ExpectedFileHash req2 = disk_hash (disk s !! path) ->
  cm_Force req2 = false -> hashBytes sha256 (cm_RegeneratedPkl req1) <> disk_hash (disk s !! path) ->
  exists s1 ancestor,
    CommitEdit now1 None None req1 s = (s1, Ok (CommitSuccess (hashBytes sha256 (cm_RegeneratedPkl req1)))) /\
    disk s1 = <[path := cm_RegeneratedPkl req1]> (disk s) /\
    CommitEdit now2 None None req2 s1 =
      (s1, Ok (CommitConflict (hashBytes sha256 (cm_RegeneratedPkl req1)) (cm_RegeneratedPkl req1) ancestor)).
Proof.
  intros path Hl1 Hl2 Hp H1 H2 Hf Hne.
  exists (committed req1 s), (match session_of (cm_LockToken req2) (committed req1 s) with Some (_, m) => ancestorPkl m | None => "" end).
  split_and!.
  - unfold CommitEdit. rewrite commit_check_live by done. rewrite H1, String.eqb_refl, andb_false_r. done.
  - done.
  - unfold CommitEdit. rewrite commit_check_live by done.
    change (resolvePath (committed req1 s) (cm_FilePath req2)) with (resolvePath s (cm_FilePath req2)). rewrite Hp.
    cbn [committed disk triggerReload with_disk]. rewrite lookup_insert_eq. cbn [disk_hash default from_option].
    rewrite Hf, H2, (proj2 (String.eqb_neq _ _) Hne). done.
Qed.

(** Overlapping commits lose an update: when two commits have both been
    checked against the disk before either has written, both are answered with
    success and the text of the first is gone, although it had committed first
    and the second's hash no longer matched. *)
Theorem commit_race_loses_update (now1 now2 : Z) (req1 req2 : CommitEditRequest) (s : Service) :
  commit_check now1 None req1 s = Ok None -> commit_check now2 None req2 s = Ok None ->
  resolvePath s (cm_FilePath req1) = resolvePath s (cm_FilePath req2) ->
  let '(s1, r1) := commit_write sha256 None req1 s in
  let '(s2, r2) := commit_write sha256 None req2 s1 in
  r1 = Ok (CommitSuccess (hashBytes sha256 (cm_RegeneratedPkl req1))) /\
  r2 = Ok (CommitSuccess (hashBytes sha256 (cm_RegeneratedPkl req2))) /\
  disk s2 !! resolvePath s (cm_FilePath req1) = Some (cm_RegeneratedPkl req2).
Proof.
  intros _ _ Hp. cbn. split_and!; [done|done|].
  change (resolvePath (committed req1 s) (cm_FilePath req2)) with (resolvePath s (cm_FilePath req2)).
  rewrite Hp. apply lookup_insert_eq.
Qed.

(** A lock does not confine a commit: with a live token, whatever file it was
    opened for, a forced commit writes any absolute path. *)
Theorem commit_writes_any_path (now : Z) (token path content : string) (s : Service) :
  live now token s -> IsAbs path = true ->
  exists s', CommitEdit now None None (mkCommit path token "" content true) s =
      (s', Ok (CommitSuccess (hashBytes sha256 content))) /\ disk s' = <[path := content]> (disk s).
Proof.
  intros Hl Ha. eexists. unfold CommitEdit. rewrite commit_check_live by done.
  cbn [cm_Force negb andb]. unfold commit_write. split; [done|]. cbn. unfold resolvePath. by rewrite Ha.
Qed.

(** ** Sessions outlive their locks *)

Inductive session_op :=
  | OpSweep (now : Z)
  | OpHeartbeat (now : Z) (sid : string)
  | OpCommit (now : Z) (readErr writeErr : option string) (req : CommitEditRequest)
  | OpRelease (token : string).

Definition session_step (s : Service) (o : session_op) : Service :=
  match o with
  | OpSweep now => with_locks (sweep now (locks s)) s
  | OpHeartbeat now sid => (session_heartbeat now sid s).1
  | OpCommit now re we req => (CommitEdit now re we req s).1
  | OpRelease token => with_locks (Release token (locks s)) s
  end.

Lemma session_step_sessions s o :
  sessions (session_step s o) = sessions s /\ configDir (session_step s o) = configDir s.
Proof.
  destruct o as [now|now sid|now re we req|token]; [done| | |done]; cbn.
  - unfold session_heartbeat. by repeat case_match.
  - unfold CommitEdit. destruct (commit_check _ _ _ _) as [[r|]|e]; [done| |done].
    unfold commit_write. by destruct we.
Qed.

Lemma session_run_sessions ops s :
  sessions (foldl session_step s ops) = sessions s /\ configDir (foldl session_step s ops) = configDir s.
Proof.
  revert s. induction ops as [|o ops IH]; intros s; [done|]. cbn [foldl].
  destruct (IH (session_step s o)) as [-> ->]. apply session_step_sessions.
Qed.

(** A session that is not abandoned keeps its file forever: after its lock
    has expired and been swept, and however much later, the file of the session
    can be neither deleted nor renamed, because only abandoning a session forgets
    it. *)
Theorem expired_session_blocks_file (s : Service) (sid : string) (m : sessionMeta) (ops : list session_op)
    (path rel new : string) (osErr : option string) :
  sessions s !! sid = Some m -> resolveManagedFilePath s path = Ok (filePath m, rel) ->
  let s' := foldl session_step s ops in
  (DeleteFile osErr path s').2 = Err (FailedPrecondition "file has an active edit session") /\
  is_ok (RenameFile osErr path new s').2 = false.
Proof.
  intros Hs Hp s'. destruct (session_run_sessions ops s) as [Hses Hdir].
  change (foldl session_step s ops) with s' in Hses, Hdir.
  assert (resolveManagedFilePath s' path = Ok (filePath m, rel)) as Hp'.
  { revert Hp. unfold resolveManagedFilePath. by rewrite Hdir. }
  assert (hasActiveSession (filePath m) s' = true) as Ha.
  { unfold hasActiveSession. apply existsb_exists. exists (sid, m). split; [|by apply String.eqb_refl].
    apply list_elem_of_In, elem_of_map_to_list. by rewrite Hses. }
  unfold DeleteFile, RenameFile. rewrite Hp', Ha. split; [done|].
  destruct (resolveManagedFilePath s' new) as [[np ?]|]; [|done]. by case_match.
Qed.

End Commits.

(** ** Notifications *)

Lemma foldl_poll_record stat l m path :
  NoDup l ->
  foldl (poll_record stat) m l !! path =
    if decide (path ∈ l) then poll_record stat m path !! path else m !! path.
Proof.
  intros Hl. revert m. induction l as [|x l IH]; intros m; [done|].
  apply NoDup_cons in Hl as [Hx Hl]. cbn [foldl]. rewrite IH by done.
  assert (forall y, y <> x -> poll_record stat m x !! y = m !! y) as Hne.
  { intros y Hy. unfold poll_record. repeat case_match; rewrite ?lookup_insert_ne; done. }
  destruct (decide (path = x)) as [->|Hp].
  - rewrite decide_False, decide_True by (done || left). done.
  - destruct (decide (path ∈ l)) as [Hin|Hin].
    + rewrite decide_True by by right. unfold poll_record at 1 3. rewrite Hne by done.
      destruct (stat path) as [[h mt]|]; [|by apply Hne].
      destruct (m !! path) as [[prev ?]|]; [case_match|]; rewrite ?lookup_insert_eq; try done. by apply Hne.
    + rewrite decide_False by (intros [?|?]%elem_of_cons; done). by apply Hne.
Qed.

(** A poll notifies exactly the changes: a subscription gets an event for its
    path if and only if the file can be read, its hash was known and differs,
    and there is room in its channel; the poll then knows the new hash, so
    another poll of the same files notifies nobody. *)
Theorem poll_exact (stat : string -> option (string * Z)) (w : FileWatcher) (sub : subscriber) :
  sub ∈ subscribers w ->
  let ev := poll_event stat w (sub_path sub) in
  offer ev sub ∈ subscribers (poll stat w) /\
  (forall e, ev = Some e <-> exists h mt prev old, stat (sub_path sub) = Some (h, mt) /\
     watched w !! sub_path sub = Some (prev, old) /\ prev <> h /\ e = mkFileEvent (sub_path sub) h mt) /\
  poll_event stat (poll stat w) (sub_path sub) = None.
Proof.
  intros Hsub ev. split_and!.
  - unfold poll. cbn [subscribers].
    by apply (list_elem_of_fmap_2 (fun sub => offer (poll_event stat w (sub_path sub)) sub)).
  - intros e. unfold ev, poll_event. split.
    + destruct (stat (sub_path sub)) as [[h mt]|] eqn:Hst; [|done].
      destruct (watched w !! sub_path sub) as [[prev old]|] eqn:Hw; [|done].
      destruct (String.eqb_spec prev h); [done|]. intros [= <-]. by exists h, mt, prev, old.
    + intros (h & mt & prev & old & -> & -> & Hne & ->). by rewrite (proj2 (String.eqb_neq _ _) Hne).
  - assert (sub_path sub ∈ elements (list_to_set (sub_path <$> subscribers w) : gset string)) as Hp.
    { apply elem_of_elements, elem_of_list_to_set. by apply list_elem_of_fmap_2. }
    unfold poll_event, poll. cbn [watched].
    rewrite foldl_poll_record by apply NoDup_elements. rewrite decide_True by done. unfold poll_record.
    destruct (stat (sub_path sub)) as [[h mt]|]; [|done].
    destruct (watched w !! sub_path sub) as [[prev old]|] eqn:Hw.
    + destruct (String.eqb prev h) eqn:He; [by rewrite Hw, He|]. by rewrite lookup_insert_eq, String.eqb_refl.
    + by rewrite lookup_insert_eq, String.eqb_refl.
Qed.

(** A subscription to a path that an earlier subscription left behind starts from
    the hash of that time: a change made while nobody was subscribed is reported
    to the new subscriber as an edit made during its session. *)
Lemma stale_hash_reported (stat1 stat2 : string -> option (string * Z)) (path h1 h2 : string) (t1 t2 : Z) :
  stat1 path = Some (h1, t1) -> stat2 path = Some (h2, t2) -> h1 <> h2 ->
  let w := Watcher_Unsubscribe 0 (Watcher_Subscribe stat1 0 path (mkWatcher ∅ [])) in
  poll_event stat2 (Watcher_Subscribe stat2 1 path w) path = Some (mkFileEvent path h2 t2).
Proof.
  intros H1 H2 Hne w. unfold w, Watcher_Subscribe, Watcher_Unsubscribe, poll_event. cbn [watched].
  rewrite lookup_empty, H1, H2. rewrite lookup_insert_eq. rewrite lookup_insert_eq.
  by rewrite (proj2 (String.eqb_neq _ _) Hne).
Qed.

(** ** Examples *)

Module EditDemo.
Definition sha (s : string) : string := s.
Definition service : Service :=
  mkService "/etc/switchyard" {["t1" := mkLock "/etc/switchyard/main.pkl" 100; "t2" := mkLock "/etc/switchyard/main.pkl" 100]}
    {["s1" := mkMeta "/etc/switchyard/main.pkl" (encode hex "old") "old" "t1"]}
    {["/etc/switchyard/main.pkl" := "old"]} [].
Definition commit (token content : string) : CommitEditRequest :=
  mkCommit "main.pkl" token (encode hex "old") content false.

Lemma live_demo token : token = "t1" \/ token = "t2" -> live 50 token service.
Proof. intros [-> | ->]; exists (mkLock "/etc/switchyard/main.pkl" 100); split; (vm_compute; reflexivity) || (cbn; lia). Defined.

Lemma managed_path_confined_witness :
  resolveManagedFilePath service "automations/../areas//hall.pkl" = Ok ("/etc/switchyard/areas/hall.pkl", "areas/hall.pkl") /\
  exists l, l <> [] /\ Forall plain l /\
    "/etc/switchyard/areas/hall.pkl" = path_text true (["etc"; "switchyard"] ++ l) /\
    (Ext "areas/hall.pkl" = ".pkl" \/ Ext "areas/hall.pkl" = ".star").
Proof.
  assert (resolveManagedFilePath service "automations/../areas//hall.pkl" =
            Ok ("/etc/switchyard/areas/hall.pkl", "areas/hall.pkl")) as H by (vm_compute; reflexivity).
  split; [exact H|]. exact (managed_path_confined service _ _ _ H).
Defined.

Lemma first_commit_wins_witness :
  exists s1 ancestor,
    CommitEdit sha 50 None None (commit "t1" "one") service = (s1, Ok (CommitSuccess (encode hex "one"))) /\
    disk s1 = <["/etc/switchyard/main.pkl" := "one"]> (disk service) /\
    CommitEdit sha 50 None None (commit "t2" "two") s1 = (s1, Ok (CommitConflict (encode hex "one") "one" ancestor)).
Proof.
  apply (first_commit_wins sha 50 50 (commit "t1" "one") (commit "t2" "two") service).
  - apply live_demo. by left.
  - apply live_demo. by right.
  - reflexivity.
  - vm_compute. reflexivity.
  - vm_compute. reflexivity.
  - reflexivity.
  - vm_compute. discriminate.
Defined.

Lemma commit_race_loses_update_witness :
  let '(s1, _) := commit_write sha None (commit "t1" "one") service in
  let '(s2, r2) := commit_write sha None (commit "t2" "two") s1 in
  r2 = Ok (CommitSuccess (encode hex "two")) /\ disk s2 !! "/etc/switchyard/main.pkl" = Some "two".
Proof.
  refine (proj2 (commit_race_loses_update sha 50 50 (commit "t1" "one") (commit "t2" "two") service _ _ _));
    vm_compute; reflexivity.
Defined.

Lemma commit_writes_any_path_witness :
  exists s', CommitEdit sha 50 None None (mkCommit "/etc/passwd" "t1" "" "root::0" true) service =
      (s', Ok (CommitSuccess (encode hex "root::0"))) /\ disk s' = <["/etc/passwd" := "root::0"]> (disk service).
Proof. apply (commit_writes_any_path sha 50 "t1" "/etc/passwd" "root::0" service); [apply live_demo; by left|reflexivity]. Defined.

Lemma expired_session_blocks_file_witness :
  let s' := foldl (session_step sha) service [OpSweep 1000; OpSweep 2000] in
  locks s' = ∅ /\ (DeleteFile None "main.pkl" s').2 = Err (FailedPrecondition "file has an active edit session").
Proof.
  split; [vm_compute; reflexivity|].
  apply (expired_session_blocks_file sha service "s1" (mkMeta "/etc/switchyard/main.pkl" (encode hex "old") "old" "t1")
           [OpSweep 1000; OpSweep 2000] "main.pkl" "main.pkl" "other.pkl" None); vm_compute; reflexivity.
Defined.

Lemma poll_exact_witness :
  let w := mkWatcher {["/a" := ("h1", 1)]} [mkSub 0 "/a" []] in
  let stat := fun p => if String.eqb p "/a" then Some ("h2", 2) else None in
  mkSub 0 "/a" [mkFileEvent "/a" "h2" 2] ∈ subscribers (poll stat w) /\ poll_event stat (poll stat w) "/a" = None.
Proof.
  intros w stat. destruct (poll_exact stat w (mkSub 0 "/a" [])) as (H1 & _ & H3); [left|].
  split; [exact H1 | exact H3].
Defined.
End EditDemo.
