(* ===== verification/Tokens.v ===== *)
(** * API tokens

    Models [internal/auth/credentials/tokens.go]. The table [auth_tokens] is a
    [gmap] from its primary key. SHA-256 is a parameter: nothing is assumed of
    it. Random bytes, ULIDs and clock readings are arguments, and so is the
    failure of the one database call each operation makes.

    [Verify_exact] says which plaintexts verify after any history of
    operations; issuing and verifying, revocation and expiry are instances. *)

From Stdlib Require Import Ascii String.
From S2P Require Import Prelude Codec.

Record TokenRow := mkTokenRow {
  tk_user_slug : string;
  tk_label : string;
  tk_hash : string;
  tk_scope_blob : string;
  tk_issued_at : Z;
  tk_issued_by : string;
  tk_expires_at : option Z;
  tk_revoked_at : option Z;
  tk_last_used_at : option Z;
}.

(** The table [auth_tokens]. *)
Notation Tokens := (gmap string TokenRow).

Record IssueTokenInput := mkIssueTokenInput {
  in_UserSlug : string;
  in_Label : string;
  in_IssuedBy : string;
  in_Scope : string;
  in_TTL : Z;
}.

Record Lookup_ := mkLookup {
  lk_TokenID : string;
  lk_UserSlug : string;
  lk_Label : string;
  lk_Scope : string;
  lk_IssuedBy : string;
}.

Inductive token_error := ErrTokenInvalid | ErrTokenRevoked | ErrTokenExpired | TokenDB (msg : string).

Section Tokens.
Context (sha256 : string -> string).

(** The row that [Issue] inserts: [now] is the first reading of the clock, [now']
    the second. *)
Definition issued_row (secret : string) (now now' : Z) (i : IssueTokenInput) : TokenRow :=
  mkTokenRow (in_UserSlug i) (in_Label i) (encode hex (sha256 secret)) (in_Scope i) (Unix now)
    (in_IssuedBy i) (if in_TTL i =? 0 then None else Some (Unix (now' + in_TTL i))) None None.

Definition plaintext_of (tokenID encoded : string) : string :=
  "switchyard_" +:+ tokenID +:+ "_" +:+ encoded.

Definition Issue (secret : result string string) (tokenID : string) (now now' : Z)
    (fault : option string) (i : IssueTokenInput) (t : Tokens) : Tokens * result string (string * string) :=
  match secret with
  | Err e => (t, Err e)
  | Ok secret =>
      match fault, t !! tokenID with
      | Some msg, _ => (t, Err msg)
      | None, Some _ => (t, Err "UNIQUE constraint failed: auth_tokens.token_id")
      | None, None => (<[tokenID := issued_row secret now now' i]> t,
                       Ok (plaintext_of tokenID (encode base32 secret), tokenID))
      end
  end.

(** [expiresAt != nil && *expiresAt < now]. *)
Definition token_expired (now : Z) (r : TokenRow) : bool :=
  match tk_expires_at r with Some e => e <? Unix now | None => false end.

Definition Verify (now : Z) (fault : option string) (plaintext : string) (t : Tokens) :
    result token_error Lookup_ :=
  match SplitN "_" 3 plaintext with
  | [p0; tokenID; encodedSecret] =>
      if negb (String.eqb p0 "switchyard") then Err ErrTokenInvalid
      else match decode base32 encodedSecret with
      | None => Err ErrTokenInvalid
      | Some secret =>
          match fault, t !! tokenID with
          | Some msg, _ => Err (TokenDB msg)
          | None, None => Err ErrTokenInvalid
          | None, Some r =>
              match tk_revoked_at r with
              | Some _ => Err ErrTokenRevoked
              | None =>
                  if token_expired now r then Err ErrTokenExpired
                  else match decode hex (tk_hash r) with
                  | None => Err ErrTokenInvalid
                  | Some stored =>
                      if String.eqb (sha256 secret) stored
                      then Ok (mkLookup tokenID (tk_user_slug r) (tk_label r) (tk_scope_blob r)
                                 (tk_issued_by r))
                      else Err ErrTokenInvalid
                  end
              end
          end
      end
  | _ => Err ErrTokenInvalid
  end.

(** [UPDATE ... SET revoked_at = ? WHERE token_id = ? AND revoked_at IS NULL]. *)
Definition Revoke (now : Z) (fault : option string) (tokenID : string) (t : Tokens) :
    Tokens * option string :=
  match fault with
  | Some msg => (t, Some msg)
  | None =>
      (alter (fun r => match tk_revoked_at r with
                       | None => mkTokenRow (tk_user_slug r) (tk_label r) (tk_hash r) (tk_scope_blob r)
                                   (tk_issued_at r) (tk_issued_by r) (tk_expires_at r)
                                   (Some (Unix now)) (tk_last_used_at r)
                       | Some _ => r
                       end) tokenID t, None)
  end.

Definition TouchLastUsed (now : Z) (fault : option string) (tokenID : string) (t : Tokens) :
    Tokens * option string :=
  match fault with
  | Some msg => (t, Some msg)
  | None =>
      (alter (fun r => mkTokenRow (tk_user_slug r) (tk_label r) (tk_hash r) (tk_scope_blob r)
                         (tk_issued_at r) (tk_issued_by r) (tk_expires_at r) (tk_revoked_at r)
                         (Some (Unix now))) tokenID t, None)
  end.

(** [ORDER BY issued_at DESC]. *)
Definition newer_first (a b : string * TokenRow) : Prop := tk_issued_at b.2 <= tk_issued_at a.2.
#[export] Instance newer_first_dec a b : Decision (newer_first a b).
Proof. unfold newer_first. apply _. Defined.

(** [List]; rows issued at the same second come in an order of their own. *)
Definition List_ (fault : option string) (userSlug : string) (t : Tokens) :
    result string (list (string * TokenRow)) :=
  match fault with
  | Some msg => Err msg
  | None => Ok (merge_sort newer_first
                  (filter (fun p : string * TokenRow =>
                             userSlug = EmptyString \/ tk_user_slug p.2 = userSlug)
                     (map_to_list t)))
  end.

(** ** Histories *)

Inductive token_op :=
  | OpIssue (secret : result string string) (tokenID : string) (now now' : Z) (fault : option string)
      (i : IssueTokenInput)
  | OpRevoke (now : Z) (fault : option string) (tokenID : string)
  | OpTouch (now : Z) (fault : option string) (tokenID : string).

Definition token_step (t : Tokens) (o : token_op) : Tokens :=
  match o with
  | OpIssue secret id now now' fault i => (Issue secret id now now' fault i t).1
  | OpRevoke now fault id => (Revoke now fault id t).1
  | OpTouch now fault id => (TouchLastUsed now fault id t).1
  end.

(** The table after a history, from an empty one. *)
Definition token_run (ops : list token_op) : Tokens := foldl token_step ∅ ops.

(** The plaintext names the token [id] and carries the bytes [secret]. *)
Definition presents (plaintext id secret : string) : Prop :=
  exists encoded, plaintext = plaintext_of id encoded /\ lacks "_" id /\ decode base32 encoded = Some secret.

(** What a revocation in a history says. *)
Definition revokes (id : string) (o : token_op) : Prop := exists now, o = OpRevoke now None id.

(** Rows that grant the same: what no later operation changes. *)
Definition grant (r : TokenRow) : string * string * string * string * string * option Z :=
  (tk_user_slug r, tk_label r, tk_hash r, tk_scope_blob r, tk_issued_by r, tk_expires_at r).
Definition same_grant (r r' : TokenRow) : Prop := grant r = grant r'.
#[export] Instance same_grant_equivalence : Equivalence same_grant.
Proof. unfold same_grant. split; red; congruence. Qed.

(** ** Lemmas *)

Lemma token_run_snoc ops o : token_run (ops ++ [o]) = token_step (token_run ops) o.
Proof. unfold token_run. by rewrite foldl_app. Qed.

(** What an operation does to the row of [id] if there is one. *)
Lemma token_step_row t o id r :
  t !! id = Some r ->
  exists r', token_step t o !! id = Some r' /\ same_grant r r' /\
    (tk_revoked_at r' = None <-> tk_revoked_at r = None /\ ~ revokes id o).
Proof.
  intros Hr.
  assert (Hkeep : ~ revokes id o -> token_step t o !! id = Some r -> exists r',
    token_step t o !! id = Some r' /\ same_grant r r' /\
    (tk_revoked_at r' = None <-> tk_revoked_at r = None /\ ~ revokes id o)).
  { intros Hn Hs. exists r. split; [done|]. split; [reflexivity|tauto]. }
  destruct o as [secret id' now now' fault i|now fault id'|now fault id'].
  - apply Hkeep; [by intros [? [=]]|]. cbn [token_step]. unfold Issue.
    destruct secret as [secret|]; [|done]. destruct fault; [done|].
    destruct (t !! id') eqn:Hid; [done|]. cbn [fst]. rewrite lookup_insert_ne; [done|congruence].
  - destruct fault as [msg|]; [apply Hkeep; [by intros [? [=]]|done]|].
    destruct (decide (id' = id)) as [->|Hne].
    + cbn [token_step Revoke fst]. rewrite lookup_alter_eq, Hr. eexists. split; [done|].
      destruct (tk_revoked_at r) eqn:Hrev; (split; [done|]); cbn; rewrite ?Hrev.
      * split; [done | by intros []].
      * split; [done | intros [_ []]; by exists now].
    + apply Hkeep; [intros [? [=]]; congruence|]. cbn [token_step Revoke fst]. by rewrite lookup_alter_ne.
  - destruct fault as [msg|]; [apply Hkeep; [by intros [? [=]]|done]|].
    destruct (decide (id' = id)) as [->|Hne].
    + cbn [token_step TouchLastUsed fst]. rewrite lookup_alter_eq, Hr. eexists. split; [done|].
      split; [done|]. cbn. split; [intros; split; [done|intros [? [=]]] | tauto].
    + apply Hkeep; [intros [? [=]]|]. cbn [token_step TouchLastUsed fst]. by rewrite lookup_alter_ne.
Qed.

(** The same along a history. *)
Lemma token_steps_row ops t id r :
  t !! id = Some r ->
  exists r', foldl token_step t ops !! id = Some r' /\ same_grant r r' /\
    (tk_revoked_at r' = None <-> tk_revoked_at r = None /\ Forall (fun o => ~ revokes id o) ops).
Proof.
  revert t r. induction ops as [|o ops IH]; intros t r Hr; cbn [foldl].
  { exists r. split; [done|]. split; [reflexivity|]. split; [by intros|tauto]. }
  destruct (token_step_row t o id r Hr) as (r1 & H1 & E1 & E2).
  destruct (IH _ r1 H1) as (r2 & H2 & F1 & F2).
  exists r2. split; [done|]. split; [by rewrite E1|]. rewrite F2, E2, Forall_cons. tauto.
Qed.

Lemma lookup_alter_None' (f : TokenRow -> TokenRow) (t : Tokens) i j :
  t !! j = None -> alter f i t !! j = None.
Proof. intros H. by apply lookup_alter_None. Qed.

(** A row comes from an insertion. *)
Lemma token_row_origin ops id r :
  token_run ops !! id = Some r ->
  exists pre secret now now' i post,
    ops = pre ++ OpIssue (Ok secret) id now now' None i :: post /\ token_run pre !! id = None.
Proof.
  revert r. induction ops as [|o ops IH] using rev_ind; intros r Hr.
  { unfold token_run in Hr. cbn in Hr. by rewrite lookup_empty in Hr. }
  rewrite token_run_snoc in Hr. destruct (token_run ops !! id) as [r0|] eqn:H0.
  - destruct (IH r0 eq_refl) as (pre & secret & now & now' & i & post & -> & Hpre).
    exists pre, secret, now, now', i, (post ++ [o]). by rewrite <- app_assoc.
  - assert (exists secret now now' i, o = OpIssue (Ok secret) id now now' None i) as (secret & now & now' & i & ->).
    { destruct o as [secret id' now now' fault i|now fault id'|now fault id']; cbn [token_step] in Hr.
      - unfold Issue in Hr. destruct secret as [secret|]; [|cbn in Hr; congruence].
        destruct fault; [cbn in Hr; congruence|].
        destruct (token_run ops !! id'); cbn [fst] in Hr; [congruence|].
        destruct (decide (id' = id)) as [->|]; [by eauto|]. rewrite lookup_insert_ne in Hr by done. congruence.
      - unfold Revoke in Hr. destruct fault; cbn [fst] in Hr; [congruence|].
        by rewrite lookup_alter_None' in Hr.
      - unfold TouchLastUsed in Hr. destruct fault; cbn [fst] in Hr; [congruence|].
        by rewrite lookup_alter_None' in Hr. }
    by exists ops, secret, now, now', i, [].
Qed.

(** What [Verify] computes from the parts of the plaintext. *)
Lemma Verify_parts now plaintext t lk :
  Verify now None plaintext t = Ok lk <->
  exists id secret r, presents plaintext id secret /\ t !! id = Some r /\ tk_revoked_at r = None /\
    token_expired now r = false /\ decode hex (tk_hash r) = Some (sha256 secret) /\
    lk = mkLookup id (tk_user_slug r) (tk_label r) (tk_scope_blob r) (tk_issued_by r).
Proof.
  split.
  - unfold Verify. cbn [SplitN]. destruct (cut "_" plaintext) as [[p0 rest]|] eqn:H1; [|done].
    destruct (cut "_" rest) as [[id enc]|] eqn:H2; [|done].
    destruct (String.eqb p0 "switchyard") eqn:Hp; [|done]. cbn [negb].
    destruct (decode base32 enc) as [secret|] eqn:Hd; [|done].
    destruct (t !! id) as [r|] eqn:Hr; [|done]. destruct (tk_revoked_at r) eqn:Hrev; [done|].
    destruct (token_expired now r) eqn:He; [done|].
    destruct (decode hex (tk_hash r)) as [stored|] eqn:Hh; [|done].
    destruct (String.eqb (sha256 secret) stored) eqn:Hs; [|done]. intros [= <-].
    apply String.eqb_eq in Hp as ->. apply String.eqb_eq in Hs as <-.
    apply cut_sound in H1 as [-> _]. apply cut_sound in H2 as [-> Hl].
    exists id, secret, r. split_and!; try done. exists enc. done.
  - intros (id & secret & r & (enc & -> & Hl & Hd) & Hr & Hrev & He & Hh & ->).
    unfold Verify, plaintext_of. change ("switchyard_" +:+ ?x) with ("switchyard" +:+ String "_" x).
    change ("_" +:+ enc) with (String "_" enc).
    rewrite SplitN_cut by (unfold lacks; by_decision). rewrite SplitN_cut by done. cbn [SplitN].
    rewrite String.eqb_refl, Hd, Hr, Hrev, He, Hh, String.eqb_refl. done.
Qed.

(** The row that an issue left, later in the history. *)
Lemma issued_row_later pre id secret n n' i post :
  token_run pre !! id = None ->
  exists r, token_run (pre ++ OpIssue (Ok secret) id n n' None i :: post) !! id = Some r /\
    same_grant (issued_row secret n n' i) r /\
    (tk_revoked_at r = None <-> Forall (fun o => ~ revokes id o) post).
Proof.
  intros Hpre. unfold token_run in *. rewrite foldl_app. cbn [foldl].
  destruct (token_steps_row post (token_step (foldl token_step ∅ pre) (OpIssue (Ok secret) id n n' None i)) id
              (issued_row secret n n' i)) as (r & Hr & Hg & Hrev).
  { cbn [token_step]. unfold Issue. rewrite Hpre. cbn [fst]. by rewrite lookup_insert_eq. }
  exists r. split_and!; [done..|]. rewrite Hrev. cbn. tauto.
Qed.

Lemma issued_not_expired now secret n n' i r :
  same_grant (issued_row secret n n' i) r ->
  token_expired now r = false <-> in_TTL i = 0 \/ Unix now <= Unix (n' + in_TTL i).
Proof.
  intros [= _ _ _ _ _ He]. unfold token_expired. rewrite <- He.
  destruct (Z.eqb_spec (in_TTL i) 0); [intuition lia|]. rewrite Z.ltb_ge. intuition lia.
Qed.

(** C15. Exactly these plaintexts verify: after any history of issues,
    revocations and uses, [Verify] accepts a plaintext, with a given identity and
    scope, if and only if the history has an issue that inserted the named token
    with that identity and scope, no later successful revocation of it, the
    expiry of that issue (if it set one) has not passed, and the plaintext
    carries bytes with the same SHA-256 as the secret that was issued. *)
Theorem Verify_exact ops now plaintext lk :
  Verify now None plaintext (token_run ops) = Ok lk <->
  exists pre id secret n n' i post presented,
    ops = pre ++ OpIssue (Ok secret) id n n' None i :: post /\
    token_run pre !! id = None /\
    Forall (fun o => ~ revokes id o) post /\
    (in_TTL i = 0 \/ Unix now <= Unix (n' + in_TTL i)) /\
    presents plaintext id presented /\ sha256 presented = sha256 secret /\
    lk = mkLookup id (in_UserSlug i) (in_Label i) (in_Scope i) (in_IssuedBy i).
Proof.
  rewrite Verify_parts. split.
  - intros (id & presented & r & Hp & Hr & Hrev & He & Hh & ->).
    destruct (token_row_origin ops id r Hr) as (pre & secret & n & n' & i & post & -> & Hpre).
    destruct (issued_row_later pre id secret n n' i post Hpre) as (r' & Hr' & Hg & Hrev').
    assert (r' = r) as -> by congruence.
    exists pre, id, secret, n, n', i, post, presented.
    pose proof (issued_not_expired now _ _ _ _ _ Hg) as Hexp.
    injection Hg as E1 E2 E3 E4 E5 _. rewrite <- E3, decode_encode in Hh by apply _.
    rewrite E1, E2, E4, E5. split_and!; [done|done|by apply Hrev'|by apply Hexp|done|congruence|done].
  - intros (pre & id & secret & n & n' & i & post & presented & -> & Hpre & Hpost & He & Hp & Hs & ->).
    destruct (issued_row_later pre id secret n n' i post Hpre) as (r & Hr & Hg & Hrev).
    exists id, presented, r. apply (issued_not_expired now) in Hg as Hexp.
    injection Hg as E1 E2 E3 E4 E5 _. rewrite E1, E2, E4, E5.
    split_and!; [done|done|by apply Hrev|by apply Hexp| |done].
    rewrite <- E3, decode_encode by apply _. congruence.
Qed.

(** [List] shows exactly the user's tokens (all of them for the empty slug),
    newest first. *)
Theorem List_exact userSlug t :
  exists l, List_ None userSlug t = Ok l /\ StronglySorted newer_first l /\ NoDup l /\
    forall id r, (id, r) ∈ l <-> t !! id = Some r /\ (userSlug = EmptyString \/ tk_user_slug r = userSlug).
Proof.
  eexists. split; [reflexivity|]. assert (Htot : Total newer_first) by (intros a b; unfold newer_first; lia).
  assert (Htr : Transitive newer_first) by (intros a b c; unfold newer_first; lia).
  split; [by apply StronglySorted_merge_sort|]. split.
  - rewrite merge_sort_Permutation. apply NoDup_filter, NoDup_map_to_list.
  - intros id r. rewrite merge_sort_Permutation, list_elem_of_filter, elem_of_map_to_list. cbn. tauto.
Qed.

End Tokens.
