(* ===== verification/Enrollment.v ===== *)
(** * Enrollment tokens

    Models [internal/auth/credentials/enrollment.go]: one-time tokens that let a
    user set a password or register a passkey. The table
    [auth_enrollment_tokens] is a [gmap] from the hash; SHA-256 is a parameter;
    the transaction of [Redeem] works on a copy that is kept only on commit. *)

From Stdlib Require Import Ascii String.
From S2P Require Import Prelude Codec.

Definition IntentRegisterPasskey : string := "register_passkey".
Definition IntentSetPassword : string := "set_password".

Record EnrollmentRow := mkEnrollmentRow {
  en_user_slug : string;
  en_intent : string;
  en_expires_at : Z;
  en_consumed_at : option Z;
}.
Notation EnrollmentTable := (gmap string EnrollmentRow).

Inductive enrollment_error :=
  | ErrEnrollmentInvalid | ErrEnrollmentExpired | ErrEnrollmentConsumed | EnrollmentDB (msg : string).

(** What the database calls of [Redeem] return. *)
Record RedeemFaults := mkRedeemFaults {
  rf_begin : option string;
  rf_select : option string;
  rf_update : option string;
  rf_commit : option string;
}.
Definition no_redeem_faults : RedeemFaults := mkRedeemFaults None None None None.

Section Enrollment.
Context (sha256 : string -> string).

Definition token_hash (secret : string) : string := encode hex (sha256 secret).

Definition known_intent (intent : string) : bool :=
  String.eqb intent IntentRegisterPasskey || String.eqb intent IntentSetPassword.

Definition minted_row (userSlug intent : string) (now ttl : Z) : EnrollmentRow :=
  mkEnrollmentRow userSlug intent (Unix (now + ttl)) None.

Definition Mint (secret : result string string) (userSlug intent : string) (now ttl : Z)
    (fault : option string) (t : EnrollmentTable) : EnrollmentTable * result string string :=
  if negb (known_intent intent) then (t, Err "credentials: invalid intent")
  else match secret with
  | Err e => (t, Err e)
  | Ok secret =>
      match fault, t !! token_hash secret with
      | Some msg, _ => (t, Err msg)
      | None, Some _ => (t, Err "UNIQUE constraint failed: auth_enrollment_tokens.token_hash")
      | None, None => (<[token_hash secret := minted_row userSlug intent now ttl]> t,
                       Ok (encode base32 secret))
      end
  end.

(** [Redeem]: [now] is compared with the expiry, [now'] is recorded. *)
Definition Redeem (now now' : Z) (fl : RedeemFaults) (plaintext : string) (t : EnrollmentTable) :
    EnrollmentTable * result enrollment_error (string * string) :=
  match decode base32 plaintext with
  | None => (t, Err ErrEnrollmentInvalid)
  | Some secret =>
      let h := token_hash secret in
      match rf_begin fl with
      | Some msg => (t, Err (EnrollmentDB msg))
      | None =>
          match rf_select fl, t !! h with
          | Some msg, _ => (t, Err (EnrollmentDB msg))
          | None, None => (t, Err ErrEnrollmentInvalid)
          | None, Some r =>
              match en_consumed_at r with
              | Some _ => (t, Err ErrEnrollmentConsumed)
              | None =>
                  if en_expires_at r <? Unix now then (t, Err ErrEnrollmentExpired)
                  else match rf_update fl with
                  | Some msg => (t, Err (EnrollmentDB msg))
                  | None =>
                      let t' := <[h := mkEnrollmentRow (en_user_slug r) (en_intent r) (en_expires_at r)
                                         (Some (Unix now'))]> t in
                      match rf_commit fl with
                      | Some msg => (t, Err (EnrollmentDB msg))
                      | None => (t', Ok (en_user_slug r, en_intent r))
                      end
                  end
              end
          end
      end
  end.

(** [expires_at < ? OR (consumed_at IS NOT NULL AND consumed_at < ?)]. *)
Definition swept (cutoff : Z) (r : EnrollmentRow) : bool :=
  (en_expires_at r <? Unix cutoff) ||
  match en_consumed_at r with Some c => c <? Unix cutoff | None => false end.

Definition Sweep (cutoff : Z) (fault : option string) (t : EnrollmentTable) :
    EnrollmentTable * option string :=
  match fault with
  | Some msg => (t, Some msg)
  | None => (filter (fun p : string * EnrollmentRow => swept cutoff p.2 = false) t, None)
  end.

(** ** Histories *)

Inductive enroll_op :=
  | OpMint (secret : result string string) (userSlug intent : string) (now ttl : Z) (fault : option string)
  | OpRedeem (now now' : Z) (fl : RedeemFaults) (plaintext : string)
  | OpSweep (cutoff : Z) (fault : option string).

Definition enroll_step (t : EnrollmentTable) (o : enroll_op) : EnrollmentTable :=
  match o with
  | OpMint secret u i now ttl fault => (Mint secret u i now ttl fault t).1
  | OpRedeem now now' fl p => (Redeem now now' fl p t).1
  | OpSweep cutoff fault => (Sweep cutoff fault t).1
  end.

Definition enroll_run (ops : list enroll_op) : EnrollmentTable := foldl enroll_step ∅ ops.

(** The plaintext carries bytes whose hash is [h]. *)
Definition carries (plaintext h : string) : Prop :=
  exists s, decode base32 plaintext = Some s /\ token_hash s = h.

(** [o] on [t] does not use up a token with hash [h] that expires at [e]: it is
    not a successful redemption of it, and not a sweep past its expiry. *)
Definition spares (h : string) (e : Z) (t : EnrollmentTable) (o : enroll_op) : Prop :=
  match o with
  | OpMint _ _ _ _ _ _ => True
  | OpRedeem now now' fl p => carries p h -> is_ok (Redeem now now' fl p t).2 = false
  | OpSweep cutoff fault => fault = None -> Unix cutoff <= e
  end.

Fixpoint unspent (h : string) (e : Z) (t : EnrollmentTable) (ops : list enroll_op) : Prop :=
  match ops with
  | [] => True
  | o :: ops' => spares h e t o /\ unspent h e (enroll_step t o) ops'
  end.

(** ** Lemmas *)

Lemma enroll_run_snoc ops o : enroll_run (ops ++ [o]) = enroll_step (enroll_run ops) o.
Proof. unfold enroll_run. by rewrite foldl_app. Qed.

Lemma unspent_snoc h e t ops o :
  unspent h e t (ops ++ [o]) <-> unspent h e t ops /\ spares h e (foldl enroll_step t ops) o.
Proof.
  revert t. induction ops as [|o' ops IH]; intros t; cbn [app unspent foldl]; [tauto|].
  rewrite IH. tauto.
Qed.

(** The one branch of [Redeem] that changes the table is the one that succeeds. *)
Lemma Redeem_ok now now' fl p t t' lk :
  Redeem now now' fl p t = (t', Ok lk) <->
  exists s r, decode base32 p = Some s /\ t !! token_hash s = Some r /\ en_consumed_at r = None /\
    Unix now <= en_expires_at r /\ fl = no_redeem_faults /\
    t' = <[token_hash s := mkEnrollmentRow (en_user_slug r) (en_intent r) (en_expires_at r)
                             (Some (Unix now'))]> t /\
    lk = (en_user_slug r, en_intent r).
Proof.
  split.
  - unfold Redeem. destruct (decode base32 p) as [s|]; [|done]. destruct fl as [[] [] [] []]; cbn; try done;
    destruct (t !! token_hash s) as [r|] eqn:Hr; try done; destruct (en_consumed_at r) eqn:Hc; try done;
    destruct (Z.ltb_spec (en_expires_at r) (Unix now)); try done.
    intros [= <- <-]. by exists s, r.
  - intros (s & r & Hd & Hr & Hc & He & -> & -> & ->). unfold Redeem. rewrite Hd. cbn. rewrite Hr, Hc.
    by rewrite (proj2 (Z.ltb_ge _ _)).
Qed.

Lemma Redeem_failed now now' fl p t : is_ok (Redeem now now' fl p t).2 = false -> (Redeem now now' fl p t).1 = t.
Proof.
  unfold Redeem. intros H. repeat first [progress cbn [fst snd is_ok] in * | case_match]; done.
Qed.

(** What one operation does to an unconsumed row. *)
Lemma enroll_step_live t o h r :
  en_consumed_at r = None ->
  enroll_step t o !! h = Some r <->
  (t !! h = Some r /\ spares h (en_expires_at r) t o) \/
  (exists s u i now ttl, o = OpMint (Ok s) u i now ttl None /\ known_intent i = true /\
     h = token_hash s /\ t !! h = None /\ r = minted_row u i now ttl).
Proof.
  intros Hlive. destruct o as [secret u i now ttl fault|now now' fl p|cutoff fault]; cbn [enroll_step spares].
  - unfold Mint. assert (Hskip : forall P : Prop, ~ P -> t !! h = Some r <-> (t !! h = Some r /\ True) \/ P) by tauto.
    destruct (known_intent i) eqn:Hi; cbn [negb fst]; [|apply Hskip; intros (? & ? & ? & ? & ? & [= -> -> -> -> -> ->] & Hk & _); congruence].
    destruct secret as [s|e]; cbn [fst]; [|apply Hskip; by intros (? & ? & ? & ? & ? & [=] & _)].
    destruct fault as [msg|]; cbn [fst]; [apply Hskip; by intros (? & ? & ? & ? & ? & [=] & _)|].
    destruct (t !! token_hash s) as [r'|] eqn:Hs; cbn [fst].
    { apply Hskip. intros (? & ? & ? & ? & ? & [= <- <- <- <- <-] & _ & -> & Hn & _). congruence. }
    destruct (decide (token_hash s = h)) as [<-|Hne].
    + rewrite lookup_insert_eq, Hs. split.
      * intros [= <-]. right. by exists s, u, i, now, ttl.
      * intros [[[=] _]|(? & ? & ? & ? & ? & [= <- <- <- <- <-] & _ & _ & _ & ->)]. done.
    + rewrite lookup_insert_ne by done. apply Hskip.
      intros (? & ? & ? & ? & ? & [= <- <- <- <- <-] & _ & Hh & _). congruence.
  - destruct (Redeem now now' fl p t) as [t' [lk|e]] eqn:HR; cbn [fst snd is_ok].
    + apply Redeem_ok in HR as (s & r' & Hd & Hs & Hc & He & -> & -> & ->).
      destruct (decide (token_hash s = h)) as [<-|Hne].
      * rewrite lookup_insert_eq. split; [intros [= <-]; done|].
        intros [[_ Hsp]|(? & ? & ? & ? & ? & [=] & _)]. exfalso.
        enough (true = false) by done. apply Hsp. by exists s.
      * rewrite lookup_insert_ne by done. split; [intros H|by intros [[]|(? & ? & ? & ? & ? & [=] & _)]].
        left. split; [done|]. intros (s' & Hd' & Hs'). congruence.
    + assert ((Redeem now now' fl p t).1 = t) as Ht by (apply Redeem_failed; by rewrite HR).
      rewrite HR in Ht. cbn in Ht. subst t'.
      split; [by left|by intros [[]|(? & ? & ? & ? & ? & [=] & _)]].
  - unfold Sweep. destruct fault as [msg|]; cbn [fst].
    + split; [by left|by intros [[]|(? & ? & ? & ? & ? & [=] & _)]].
    + rewrite map_lookup_filter_Some. cbn. unfold swept. rewrite Hlive, orb_false_r, Z.ltb_ge.
      split; [intros []; by left|intros [[? H]|(? & ? & ? & ? & ? & [=] & _)]; split; [done|by apply H]].
Qed.

(** An unconsumed row comes from a mint and nothing that used it up since. *)
Lemma live_row_origin ops h r :
  en_consumed_at r = None ->
  enroll_run ops !! h = Some r <->
  exists pre s u i now ttl post,
    ops = pre ++ OpMint (Ok s) u i now ttl None :: post /\ known_intent i = true /\
    h = token_hash s /\ enroll_run pre !! h = None /\ r = minted_row u i now ttl /\
    unspent h (en_expires_at r) (enroll_step (enroll_run pre) (OpMint (Ok s) u i now ttl None)) post.
Proof.
  intros Hlive. induction ops as [|o ops IH] using rev_ind.
  { split; [unfold enroll_run; cbn [foldl]; by rewrite lookup_empty|]. intros (pre & ? & ? & ? & ? & ? & ? & H & _). by destruct pre. }
  rewrite enroll_run_snoc, enroll_step_live by done. rewrite IH. split.
  - intros [[(pre & s & u & i & now & ttl & post & -> & Hi & Hh & Hpre & Hr & Hun) Hsp]|
            (s & u & i & now & ttl & -> & Hi & Hh & Hpre & Hr)].
    + exists pre, s, u, i, now, ttl, (post ++ [o]). rewrite <- app_assoc. conj_done.
      apply unspent_snoc. split; [done|]. unfold enroll_run in Hsp. by rewrite foldl_app in Hsp.
    + by exists ops, s, u, i, now, ttl, [].
  - intros (pre & s & u & i & now & ttl & post & Heq & Hi & Hh & Hpre & Hr & Hun).
    destruct post as [|o' post _] using rev_ind.
    + apply app_inj_tail in Heq as [-> ->]. right. by exists s, u, i, now, ttl.
    + rewrite app_comm_cons, app_assoc in Heq. apply app_inj_tail in Heq as [-> ->].
      apply unspent_snoc in Hun as [Hun Hsp]. left. split; [by exists pre, s, u, i, now, ttl, post|].
      unfold enroll_run. by rewrite foldl_app.
Qed.

Lemma token_hash_inj s s' : token_hash s = token_hash s' <-> sha256 s = sha256 s'.
Proof.
  unfold token_hash. split; [|congruence]. intros H. apply (f_equal (decode hex)) in H.
  rewrite !decode_encode in H by apply _. congruence.
Qed.

(** An enrollment token works exactly once, for the user and the intent it
    was minted for: after any history of mints, redemptions and sweeps,
    [Redeem] of a plaintext succeeds if and only if the history has a mint of a
    token with the SHA-256 of the bytes presented, for that user and intent,
    that since then was neither redeemed successfully nor swept past its
    expiry, and the expiry has not passed. *)
Theorem Redeem_exact ops now now' plaintext u i :
  (Redeem now now' no_redeem_faults plaintext (enroll_run ops)).2 = Ok (u, i) <->
  exists pre secret n ttl post presented,
    ops = pre ++ OpMint (Ok secret) u i n ttl None :: post /\ known_intent i = true /\
    enroll_run pre !! token_hash secret = None /\
    unspent (token_hash secret) (Unix (n + ttl))
      (enroll_step (enroll_run pre) (OpMint (Ok secret) u i n ttl None)) post /\
    Unix now <= Unix (n + ttl) /\
    decode base32 plaintext = Some presented /\ sha256 presented = sha256 secret.
Proof.
  split.
  - destruct (Redeem _ _ _ _ _) as [t' res] eqn:HR. cbn [snd]. intros ->.
    apply Redeem_ok in HR as (s & r & Hd & Hr & Hc & He & _ & _ & [= -> ->]).
    apply live_row_origin in Hr as (pre & s' & u & i & n & ttl & post & -> & Hi & Hh & Hpre & -> & Hun); [|done].
    apply token_hash_inj in Hh as Hsha. rewrite Hh in *.
    exists pre, s', n, ttl, post, s. split_and!; done.
  - intros (pre & s & n & ttl & post & s' & -> & Hi & Hpre & Hun & He & Hd & Hsha).
    assert (exists t', Redeem now now' no_redeem_faults plaintext
      (enroll_run (pre ++ OpMint (Ok s) u i n ttl None :: post)) = (t', Ok (u, i))) as [t' ->]; [|done].
    eexists. apply Redeem_ok. exists s', (minted_row u i n ttl). apply token_hash_inj in Hsha as Hh.
    split_and!; try done. rewrite Hh. apply live_row_origin; [done|].
    by exists pre, s, u, i, n, ttl, post.
Qed.

End Enrollment.
