(* ===== verification/Throttle.v ===== *)
(** * The failed-login throttle

    Models [internal/auth/throttle/throttle.go]. The table [auth_attempts] is
    the list of its rows. Clock readings and database failures are arguments.

    Rows that [Sweep] has dropped never matter to a later [Check]
    ([throttle_exact]); a block ends with the window however long it is
    configured to be ([block_ends_with_window]). *)

From Stdlib Require Import Ascii String.
From S2P Require Import Prelude.

Record Config := mkConfig { Window : Z; Threshold : Z; Block : Z }.

Record attempt := mkAttempt { at_bucket : string; at_attempted : Z; at_succeeded : bool }.

Inductive throttle_error := ErrThrottled | ThrottleDB (msg : string).

(** [ip + "\x00" + method]. *)
Definition bucket_of (ip method : string) : string := ip +:+ String "000" method.

(** The rows that [Check] counts. *)
Definition counted (b : string) (cutoff : Z) (r : attempt) : bool :=
  String.eqb (at_bucket r) b && negb (at_succeeded r) && (cutoff <=? at_attempted r).
Definition failures (b : string) (cutoff : Z) (rows : list attempt) : list Z :=
  at_attempted <$> filter (fun r => counted b cutoff r = true) rows.

(** [COALESCE(MAX(attempted_at), 0)]. *)
Definition max_or_0 (l : list Z) : Z :=
  match l with [] => 0 | x :: l' => foldl Z.max x l' end.

Definition Check_ (cfg : Config) (now now' : Z) (fault : option string) (ip method : string)
    (rows : list attempt) : option throttle_error :=
  match fault with
  | Some msg => Some (ThrottleDB msg)
  | None =>
      let fs := failures (bucket_of ip method) (Unix (now - Window cfg)) rows in
      let n := Z.of_nat (length fs) in
      if 2 ^ 32 <=? n then Some (ThrottleDB "value out of range")
      else if Threshold cfg <=? n then
        if (Block cfg =? 0) || (now' <? max_or_0 fs * Second + Block cfg) then Some ErrThrottled else None
      else None
  end.

Definition Record_ (now : Z) (fault : option string) (ip method : string) (succeeded : bool)
    (rows : list attempt) : list attempt * option string :=
  match fault with
  | Some msg => (rows, Some msg)
  | None => (rows ++ [mkAttempt (bucket_of ip method) (Unix now) succeeded], None)
  end.

Definition Sweep_ (cfg : Config) (now : Z) (fault : option string) (rows : list attempt) :
    list attempt * option string :=
  match fault with
  | Some msg => (rows, Some msg)
  | None => (filter (fun r => Unix (now - Window cfg) <= at_attempted r) rows, None)
  end.

(** ** Histories *)

Inductive throttle_op :=
  | OpRecord (now : Z) (fault : option string) (ip method : string) (succeeded : bool)
  | OpSweepRows (now : Z) (fault : option string).

Definition op_time (o : throttle_op) : Z :=
  match o with OpRecord now _ _ _ _ | OpSweepRows now _ => now end.

Definition throttle_step (cfg : Config) (rows : list attempt) (o : throttle_op) : list attempt :=
  match o with
  | OpRecord now fault ip method ok => (Record_ now fault ip method ok rows).1
  | OpSweepRows now fault => (Sweep_ cfg now fault rows).1
  end.
Definition throttle_run (cfg : Config) (ops : list throttle_op) : list attempt :=
  foldl (throttle_step cfg) [] ops.

(** The times (in seconds) of the recorded failures of a client and method in a
    history, not earlier than [cutoff]. *)
Definition history_failures (ip method : string) (cutoff : Z) (ops : list throttle_op) : list Z :=
  omap (fun o => match o with
                 | OpRecord now None ip' method' false =>
                     if String.eqb (bucket_of ip' method') (bucket_of ip method) && (cutoff <=? Unix now)
                     then Some (Unix now) else None
                 | _ => None
                 end) ops.

(** ** Lemmas *)

Lemma Unix_mono a b : a <= b -> Unix a <= Unix b.
Proof. unfold Unix, Second. intros. apply Z.div_le_mono; lia. Qed.

Lemma failures_app b c l1 l2 : failures b c (l1 ++ l2) = failures b c l1 ++ failures b c l2.
Proof. unfold failures. by rewrite filter_app, fmap_app. Qed.

(** A sweep drops no row that a check at the same time or later counts. *)
Lemma failures_swept b c c' rows :
  c' <= c -> failures b c (filter (fun r => c' <= at_attempted r) rows) = failures b c rows.
Proof.
  intros Hc. unfold failures. f_equal. rewrite list_filter_filter_l; [done|].
  intros r Hr. unfold counted in Hr. apply andb_true_iff in Hr as [_ Hr]. apply Z.leb_le in Hr. lia.
Qed.

Lemma throttle_run_failures cfg ip method cutoff ops :
  Forall (fun o => Unix (op_time o - Window cfg) <= cutoff) ops ->
  failures (bucket_of ip method) cutoff (throttle_run cfg ops) = history_failures ip method cutoff ops.
Proof.
  induction ops as [|o ops IH] using rev_ind; [done|]. intros [Hops Ho]%Forall_app.
  rewrite Forall_singleton in Ho. specialize (IH Hops). unfold throttle_run in *. rewrite foldl_app.
  cbn [foldl]. unfold history_failures in *. rewrite omap_app, <- IH.
  destruct o as [now [msg|] ip' method' ok|now [msg|]]; cbn [throttle_step Record_ Sweep_ fst op_time] in *;
    cbn [omap list_omap]; rewrite ?app_nil_r; try done.
  - rewrite failures_app. f_equal. unfold failures, counted. destruct ok.
    + rewrite filter_cons_False; [done|]. cbn. by rewrite andb_false_r.
    + destruct (String.eqb _ _ && _) eqn:Hc.
      * rewrite filter_cons_True; [done|]. cbn [at_bucket at_succeeded at_attempted negb]. by rewrite andb_true_r.
      * rewrite filter_cons_False; [done|]. cbn [at_bucket at_succeeded at_attempted negb].
        rewrite andb_true_r, Hc. done.
  - by apply failures_swept.
Qed.

Lemma length_history_failures ip method cutoff ops :
  (length (history_failures ip method cutoff ops) <= length ops)%nat.
Proof.
  unfold history_failures. induction ops as [|o ops IH]; [done|]. cbn. case_match; cbn; lia.
Qed.

(** The throttle counts exactly the failures of the history: if no operation
    is later than the check, [Check] throttles a client if and only if the
    recorded failures of that client and method inside the window number at
    least the threshold and the block since the last of them has not run out,
    whatever sweeps happened in between. *)
Theorem throttle_exact cfg ops now now' ip method :
  Forall (fun o => op_time o <= now) ops -> Z.of_nat (length ops) < 2 ^ 32 ->
  let fs := history_failures ip method (Unix (now - Window cfg)) ops in
  Check_ cfg now now' None ip method (throttle_run cfg ops) = Some ErrThrottled <->
  Threshold cfg <= Z.of_nat (length fs) /\
  (Block cfg = 0 \/ now' < max_or_0 fs * Second + Block cfg).
Proof.
  intros Htime Hlen fs. unfold Check_. rewrite throttle_run_failures.
  2:{ eapply Forall_impl; [exact Htime|]. intros o Ho. apply Unix_mono. cbn in Ho. lia. }
  fold fs. pose proof (length_history_failures ip method (Unix (now - Window cfg)) ops) as Hf. fold fs in Hf.
  rewrite (proj2 (Z.leb_gt _ _)) by lia.
  destruct (Z.leb_spec (Threshold cfg) (Z.of_nat (length fs))); [|split; [done|lia]].
  destruct (Z.eqb_spec (Block cfg) 0); cbn [orb]; [tauto|].
  destruct (Z.ltb_spec now' (max_or_0 fs * Second + Block cfg)) as [?|Hge]; [tauto|].
  split; [done|]. intros [_ [?|?]]; [done|]. by apply Z.le_ngt in Hge.
Qed.

(** Five failures in five minutes, the daemon's configuration. *)
Definition daemon_config : Config := mkConfig (15 * Minute) 5 (5 * Minute).
Definition five_failures : list throttle_op :=
  (fun k => OpRecord (k * Minute) None "192.0.2.1" "password" false) <$> [1; 2; 3; 4; 5].

Lemma throttle_exact_witness :
  Forall (fun o => op_time o <= 6 * Minute) five_failures /\ Z.of_nat (length five_failures) < 2 ^ 32 /\
  Check_ daemon_config (6 * Minute) (6 * Minute) None "192.0.2.1" "password"
    (throttle_run daemon_config five_failures) = Some ErrThrottled.
Proof.
  assert (Forall (fun o => op_time o <= 6 * Minute) five_failures) as H by (repeat constructor; done).
  split; [exact H|]. split; [done|]. apply (throttle_exact daemon_config five_failures); [exact H|done|].
  vm_compute. split; [done|by right].
Defined.

(** The settings of [docs/design/specs/2026-04-25-c9-auth-and-policy-design.md]:
    a window of 10 minutes, a threshold of 10 and a block of 15 minutes. *)
Definition designed_config : Config := mkConfig (10 * Minute) 10 (15 * Minute).

(** A block does not outlast the window: with the settings of the design
    document (block for 15 minutes, window of 10), ten failures in the first
    minute block a client at minute 10 but no longer at minute 12, though only
    eleven minutes have passed since the last failure. *)
Theorem block_ends_with_window :
  let ops := replicate 10 (OpRecord Minute None "192.0.2.1" "password" false) in
  Check_ designed_config (10 * Minute) (10 * Minute) None "192.0.2.1" "password"
    (throttle_run designed_config ops) = Some ErrThrottled /\
  Check_ designed_config (12 * Minute) (12 * Minute) None "192.0.2.1" "password"
    (throttle_run designed_config ops) = None.
Proof. vm_compute. done. Qed.

(** A client is what [remoteAddr] says, port included: failures on one
    connection leave another connection of the same host free. *)
Example throttle_per_connection :
  let ops := replicate 5 (OpRecord Minute None "192.0.2.1:50001" "password" false) in
  Check_ daemon_config (2 * Minute) (2 * Minute) None "192.0.2.1:50001" "password"
    (throttle_run daemon_config ops) = Some ErrThrottled /\
  Check_ daemon_config (2 * Minute) (2 * Minute) None "192.0.2.1:50002" "password"
    (throttle_run daemon_config ops) = None.
Proof. vm_compute. done. Qed.
