(* ===== verification/Sessions.v ===== *)
(** * Browser sessions

    Models [internal/auth/sessions]: [cookies.go] (the signed access cookie and
    the refresh cookie) and [store.go] (issue, verification, rotation of the
    refresh secret with detection of replays, logout). HMAC-SHA256 and SHA-256
    are parameters of which nothing is assumed; the table [auth_sessions] is a
    [gmap]; the cookies of a request are an association list, in the order of the
    header; the transaction of [Refresh] is kept only on commit. *)

From Stdlib Require Import Ascii String.
From S2P Require Import Prelude Codec.

(** ** Cookies *)

Inductive session_error := ErrSessionInvalid | ErrSessionExpired | ErrSessionReplay | SessionDB (msg : string).

Record AccessClaim := mkAccessClaim {
  cl_SessionID : string;
  cl_UserSlug : string;
  cl_AuthMethod : string;
  cl_Exp : Z;
}.

(** [fmt.Sprintf("%s|%s|%s|%d", ...)]. *)
Definition claim_payload (c : AccessClaim) : string :=
  cl_SessionID c +:+ String "|" (cl_UserSlug c +:+ String "|" (cl_AuthMethod c +:+ String "|" (pretty (cl_Exp c)))).

Section Sessions.
Context (sha256 : string -> string) (hmac : string -> string -> string).

Definition access_sig (key payload : string) : string := encode base64_url (hmac key payload).

Definition encodeAccessCookie (c : AccessClaim) (key : string) : string :=
  encode base64_url (claim_payload c) +:+ String "." (access_sig key (claim_payload c)).

Definition decodeAccessCookie (value key : string) : result session_error AccessClaim :=
  match cut "." value with
  | None => Err ErrSessionInvalid
  | Some (payloadB64, sig) =>
      match decode base64_url payloadB64 with
      | None => Err ErrSessionInvalid
      | Some payload =>
          if negb (String.eqb (access_sig key payload) sig) then Err ErrSessionInvalid
          else match SplitN "|" 4 payload with
          | [sid; user; method; exp] =>
              match ParseInt exp with
              | None => Err ErrSessionInvalid
              | Some exp => Ok (mkAccessClaim sid user method exp)
              end
          | _ => Err ErrSessionInvalid
          end
      end
  end.

Record RefreshCookie := mkRefreshCookie { rc_SessionID : string; rc_RefreshSecret : string }.

Definition encodeRefreshCookie (c : RefreshCookie) : string :=
  rc_SessionID c +:+ String "." (rc_RefreshSecret c).

Definition decodeRefreshCookie (value : string) : result session_error RefreshCookie :=
  match cut "." value with
  | None => Err ErrSessionInvalid
  | Some (sid, secret) => Ok (mkRefreshCookie sid secret)
  end.

Definition deadline (now ttl : Z) : Z := Unix (now + ttl).

(** ** The store *)

Record Config := mkConfig {
  cf_Key : string;
  cf_AccessTTL : Z;
  cf_RefreshTTL : Z;
  cf_RefreshIdle : Z;
  cf_AccessName : string;
  cf_RefreshName : string;
}.

Record SessionRow := mkSessionRow {
  se_user_slug : string;
  se_auth_method : string;
  se_refresh_hash : string;
  se_issued_at : Z;
  se_refresh_ttl_at : Z;
  se_refresh_idle_at : Z;
  se_user_agent : string;
  se_remote_ip : string;
}.
Notation SessionTable := (gmap string SessionRow).

Record IssueInput := mkIssueInput {
  is_UserSlug : string;
  is_AuthMethod : string;
  is_RemoteIP : string;
  is_UserAgent : string;
}.

Record SessionData := mkSessionData { sd_SessionID : string; sd_UserSlug : string; sd_AuthMethod : string }.
Record SessionPrincipal := mkSessionPrincipal {
  sp_UserSlug : string; sp_SessionID : string; sp_AuthMethod : string }.

(** A cookie of a response; all are HttpOnly, Secure and SameSite=Strict. *)
Record SetCookie := mkSetCookie { ck_Name : string; ck_Value : string; ck_MaxAge : Z }.

(** [http.Request.Cookie]: the first of that name. *)
Definition Cookie (req : list (string * string)) (name : string) : option string :=
  snd ∘ snd <$> list_find (fun p : string * string => p.1 = name) req.

Definition refresh_hash (secret : string) : string := encode hex (sha256 secret).

(** [newSecret], from the bytes that were read. *)
Definition newSecret (raw : string) : string := encode base32 raw.

(** [int(d.Seconds())] of a duration. *)
Definition seconds_of (d : Z) : Z := Z.quot d Second.

Definition writeCookies (cfg : Config) (sid user method secret : string) (now : Z) : list SetCookie :=
  [mkSetCookie (cf_AccessName cfg)
     (encodeAccessCookie (mkAccessClaim sid user method (deadline now (cf_AccessTTL cfg))) (cf_Key cfg))
     (seconds_of (cf_AccessTTL cfg));
   mkSetCookie (cf_RefreshName cfg) (encodeRefreshCookie (mkRefreshCookie sid secret))
     (seconds_of (cf_RefreshTTL cfg))].

Definition clearCookies (cfg : Config) : list SetCookie :=
  (fun name => mkSetCookie name EmptyString (-1)) <$> [cf_AccessName cfg; cf_RefreshName cfg].

Definition Issue (cfg : Config) (sid raw : string) (now : Z) (fault : option string) (i : IssueInput)
    (t : SessionTable) : SessionTable * list SetCookie * result session_error SessionData :=
  match fault, t !! sid with
  | Some msg, _ => (t, [], Err (SessionDB msg))
  | None, Some _ => (t, [], Err (SessionDB "UNIQUE constraint failed: auth_sessions.session_id"))
  | None, None =>
      (<[sid := mkSessionRow (is_UserSlug i) (is_AuthMethod i) (refresh_hash (newSecret raw)) (Unix now)
                  (deadline now (cf_RefreshTTL cfg)) (deadline now (cf_RefreshIdle cfg))
                  (is_UserAgent i) (is_RemoteIP i)]> t,
       writeCookies cfg sid (is_UserSlug i) (is_AuthMethod i) (newSecret raw) now,
       Ok (mkSessionData sid (is_UserSlug i) (is_AuthMethod i)))
  end.

Definition VerifyAccess (cfg : Config) (now : Z) (fault : option string) (req : list (string * string))
    (t : SessionTable) : result session_error SessionPrincipal :=
  match Cookie req (cf_AccessName cfg) with
  | None => Err ErrSessionInvalid
  | Some value =>
      match decodeAccessCookie value (cf_Key cfg) with
      | Err e => Err e
      | Ok claim =>
          if cl_Exp claim <=? Unix now then Err ErrSessionExpired
          else match fault, t !! cl_SessionID claim with
          | Some msg, _ => Err (SessionDB msg)
          | None, None => Err ErrSessionInvalid
          | None, Some _ =>
              Ok (mkSessionPrincipal (cl_UserSlug claim) (cl_SessionID claim) (cl_AuthMethod claim))
          end
      end
  end.

(** What the database calls of [Refresh] return; [sf_write] is its DELETE or
    UPDATE. *)
Record RefreshFaults := mkRefreshFaults {
  sf_begin : option string;
  sf_select : option string;
  sf_write : option string;
  sf_commit : option string;
}.

(** [raw] are the bytes of the next secret. *)
Definition Refresh (cfg : Config) (raw : string) (now : Z) (fl : RefreshFaults)
    (req : list (string * string)) (t : SessionTable) :
    SessionTable * list SetCookie * result session_error SessionData :=
  let fail e : SessionTable * list SetCookie * result session_error SessionData := (t, [], Err e) in
  match Cookie req (cf_RefreshName cfg) with
  | None => fail ErrSessionInvalid
  | Some value =>
      match decodeRefreshCookie value with
      | Err e => fail e
      | Ok rc =>
          let sid := rc_SessionID rc in
          match sf_begin fl with
          | Some msg => fail (SessionDB msg)
          | None =>
              match sf_select fl, t !! sid with
              | Some msg, _ => fail (SessionDB msg)
              | None, None => fail ErrSessionInvalid
              | None, Some r =>
                  if (se_refresh_ttl_at r <=? Unix now) || (se_refresh_idle_at r <=? Unix now)
                  then fail ErrSessionExpired
                  else
                    let replay := negb (String.eqb (refresh_hash (rc_RefreshSecret rc)) (se_refresh_hash r)) in
                    match sf_write fl, sf_commit fl with
                    | Some msg, _ => fail (SessionDB msg)
                    | None, Some msg => fail (SessionDB msg)
                    | None, None =>
                        if replay then (delete sid t, [], Err ErrSessionReplay)
                        else
                          (<[sid := mkSessionRow (se_user_slug r) (se_auth_method r)
                                      (refresh_hash (newSecret raw)) (se_issued_at r) (se_refresh_ttl_at r)
                                      (deadline now (cf_RefreshIdle cfg)) (se_user_agent r)
                                      (se_remote_ip r)]> t,
                           writeCookies cfg sid (se_user_slug r) (se_auth_method r) (newSecret raw) now,
                           Ok (mkSessionData sid (se_user_slug r) (se_auth_method r)))
                    end
              end
          end
      end
  end.

Definition Logout (cfg : Config) (fault : option string) (sid : string) (t : SessionTable) :
    SessionTable * list SetCookie * option string :=
  match fault with
  | Some msg => (t, [], Some msg)
  | None => (delete sid t, clearCookies cfg, None)
  end.

(** ** Histories *)

Inductive session_op :=
  | OpIssue (sid raw : string) (now : Z) (fault : option string) (i : IssueInput)
  | OpRefresh (raw : string) (now : Z) (fl : RefreshFaults) (req : list (string * string))
  | OpLogout (fault : option string) (sid : string).

Definition session_step (cfg : Config) (t : SessionTable) (o : session_op) : SessionTable :=
  match o with
  | OpIssue sid raw now fault i => (Issue cfg sid raw now fault i t).1.1
  | OpRefresh raw now fl req => (Refresh cfg raw now fl req t).1.1
  | OpLogout fault sid => (Logout cfg fault sid t).1.1
  end.
Definition session_run (cfg : Config) (ops : list session_op) : SessionTable :=
  foldl (session_step cfg) ∅ ops.

(** The session and the secret that the refresh cookie of a request names. *)
Definition refresh_claim (cfg : Config) (req : list (string * string)) : option RefreshCookie :=
  value ← Cookie req (cf_RefreshName cfg);
  match decodeRefreshCookie value with Ok rc => Some rc | Err _ => None end.

(** [o] on [t] ends the session [sid]: a logout of it, or a refresh that detects
    a replay. *)
Definition ends (cfg : Config) (sid : string) (t : SessionTable) (o : session_op) : Prop :=
  match o with
  | OpIssue _ _ _ _ _ => False
  | OpRefresh raw now fl req =>
      (exists rc, refresh_claim cfg req = Some rc /\ rc_SessionID rc = sid) /\
      (Refresh cfg raw now fl req t).2 = Err ErrSessionReplay
  | OpLogout fault sid' => fault = None /\ sid' = sid
  end.

Fixpoint survives (cfg : Config) (sid : string) (t : SessionTable) (ops : list session_op) : Prop :=
  match ops with
  | [] => True
  | o :: ops' => ~ ends cfg sid t o /\ survives cfg sid (session_step cfg t o) ops'
  end.

(** [o] creates the session [sid] in [t]. *)
Definition creates (sid : string) (t : SessionTable) (o : session_op) : Prop :=
  exists raw now i, o = OpIssue sid raw now None i /\ t !! sid = None.

(** ** Lemmas *)

Lemma session_run_snoc cfg ops o :
  session_run cfg (ops ++ [o]) = session_step cfg (session_run cfg ops) o.
Proof. unfold session_run. by rewrite foldl_app. Qed.

Lemma survives_snoc cfg sid t ops o :
  survives cfg sid t (ops ++ [o]) <->
  survives cfg sid t ops /\ ~ ends cfg sid (foldl (session_step cfg) t ops) o.
Proof.
  revert t. induction ops as [|o' ops IH]; intros t; cbn [app survives foldl]; [tauto|]. rewrite IH. tauto.
Qed.

(** Closes the branches of [Refresh] that fail before they write. *)
Ltac no_change := right; eexists; split; [|reflexivity]; discriminate.

(** The three things a refresh can do. *)
Lemma Refresh_cases cfg raw now fl req t :
  (exists rc r, refresh_claim cfg req = Some rc /\ t !! rc_SessionID rc = Some r /\
     Unix now < se_refresh_ttl_at r /\ Unix now < se_refresh_idle_at r /\
     ((refresh_hash (rc_RefreshSecret rc) = se_refresh_hash r /\
       Refresh cfg raw now fl req t =
         (<[rc_SessionID rc := mkSessionRow (se_user_slug r) (se_auth_method r)
             (refresh_hash (newSecret raw)) (se_issued_at r) (se_refresh_ttl_at r)
             (deadline now (cf_RefreshIdle cfg)) (se_user_agent r) (se_remote_ip r)]> t,
          writeCookies cfg (rc_SessionID rc) (se_user_slug r) (se_auth_method r) (newSecret raw) now,
          Ok (mkSessionData (rc_SessionID rc) (se_user_slug r) (se_auth_method r)))) \/
      (refresh_hash (rc_RefreshSecret rc) <> se_refresh_hash r /\
       Refresh cfg raw now fl req t = (delete (rc_SessionID rc) t, [], Err ErrSessionReplay)))) \/
  (exists e, e <> ErrSessionReplay /\ Refresh cfg raw now fl req t = (t, [], Err e)).
Proof.
  unfold Refresh, refresh_claim. destruct (Cookie req (cf_RefreshName cfg)) as [value|]; [|no_change].
  cbn [mbind option_bind]. unfold decodeRefreshCookie.
  destruct (cut "." value) as [[sid secret]|]; [|no_change]. cbn [rc_SessionID rc_RefreshSecret].
  destruct fl as [[] [] wr co]; cbn; try (no_change).
  destruct (t !! sid) as [r|] eqn:Hr; [|no_change].
  destruct (Z.leb_spec (se_refresh_ttl_at r) (Unix now)); cbn [orb]; [no_change|].
  destruct (Z.leb_spec (se_refresh_idle_at r) (Unix now)); [no_change|].
  destruct wr, co; try (no_change).
  left. eexists _, r. split; [done|]. cbn [rc_SessionID rc_RefreshSecret]. conj_done.
  destruct (String.eqb_spec (refresh_hash secret) (se_refresh_hash r)); cbn [negb]; [by left|by right].
Qed.

(** Which operations leave a session in the table. *)
Lemma session_step_live cfg t o sid :
  is_Some (session_step cfg t o !! sid) <->
  (is_Some (t !! sid) /\ ~ ends cfg sid t o) \/ creates sid t o.
Proof.
  destruct o as [sid' raw now fault i|raw now fl req|fault sid']; cbn [session_step ends].
  - assert (Hsame : ~ creates sid t (OpIssue sid' raw now fault i) ->
      is_Some (t !! sid) <-> (is_Some (t !! sid) /\ ~ False) \/ creates sid t (OpIssue sid' raw now fault i)) by tauto.
    unfold Issue. destruct fault as [msg|]; cbn [fst]; [apply Hsame; by intros (? & ? & ? & [=] & _)|].
    destruct (t !! sid') as [r|] eqn:Hs; cbn [fst].
    { apply Hsame. intros (? & ? & ? & [= -> -> -> ->] & Hn). congruence. }
    destruct (decide (sid' = sid)) as [->|Hne].
    + rewrite lookup_insert_eq. split; [|by eexists]. intros _. right. by exists raw, now, i.
    + rewrite lookup_insert_ne by done. apply Hsame. intros (? & ? & ? & [=] & _). congruence.
  - assert (Hc : ~ creates sid t (OpRefresh raw now fl req)) by (by intros (? & ? & ? & [=] & _)).
    destruct (Refresh_cases cfg raw now fl req t) as [(rc & r & Hrc & Hr & _ & _ & [[_ HR]|[_ HR]])|(e & He & HR)];
      rewrite HR; cbn [fst snd]; rewrite ?Hrc.
    + destruct (decide (rc_SessionID rc = sid)) as [<-|Hne].
      * rewrite lookup_insert_eq, Hr. split; [|by eexists]. intros _. left. split; [by eexists|]. by intros [_ [=]].
      * rewrite lookup_insert_ne by done. split; [|tauto]. intros H. left. split; [done|]. by intros [_ [=]].
    + destruct (decide (rc_SessionID rc = sid)) as [<-|Hne].
      * rewrite lookup_delete_eq. split; [by intros []|]. intros [[_ H]|?]; [|done]. destruct H. split; [by exists rc|done].
      * rewrite lookup_delete_ne by done. split; [|tauto]. intros H. left. split; [done|].
        intros [(rc' & [= <-] & ?) _]. done.
    + split; [|tauto]. intros H. left. split; [done|]. intros [_ [= ->]]. done.
  - assert (Hc : ~ creates sid t (OpLogout fault sid')) by (by intros (? & ? & ? & [=] & _)).
    unfold Logout. destruct fault as [msg|]; cbn [fst]; [split; [left; split; [done|by intros []]|tauto]|].
    destruct (decide (sid' = sid)) as [->|Hne].
    + rewrite lookup_delete_eq. split; [by intros []|tauto].
    + rewrite lookup_delete_ne by done. split; [left; split; [done|by intros []]|tauto].
Qed.

(** A session is in the table exactly from its issue until something ends it. *)
Lemma session_live cfg ops sid :
  is_Some (session_run cfg ops !! sid) <->
  exists pre o post, ops = pre ++ o :: post /\ creates sid (session_run cfg pre) o /\
    survives cfg sid (session_step cfg (session_run cfg pre) o) post.
Proof.
  induction ops as [|o ops IH] using rev_ind.
  { unfold session_run. cbn [foldl]. rewrite lookup_empty. split; [by intros []|].
    intros (pre & ? & ? & H & _). by destruct pre. }
  rewrite session_run_snoc, session_step_live, IH. split.
  - intros [[(pre & o' & post & -> & Hc & Hs) He]|Hc].
    + exists pre, o', (post ++ [o]). rewrite <- app_assoc. conj_done. apply survives_snoc. split; [done|].
      unfold session_run in He. by rewrite foldl_app in He.
    + by exists ops, o, [].
  - intros (pre & o' & post & Heq & Hc & Hs). destruct post as [|o'' post _] using rev_ind.
    + apply app_inj_tail in Heq as [-> ->]. by right.
    + rewrite app_comm_cons, app_assoc in Heq. apply app_inj_tail in Heq as [-> ->].
      apply survives_snoc in Hs as [Hs He]. left. split; [by exists pre, o', post|].
      unfold session_run. by rewrite foldl_app.
Qed.

Lemma access_sig_lacks key payload : lacks "." (access_sig key payload).
Proof. apply encode_lacks; [apply _|by_decision]. Qed.

Lemma decode_access_ok value key claim :
  decodeAccessCookie value key = Ok claim <->
  exists payloadB64 payload exp,
    value = payloadB64 +:+ String "." (access_sig key payload) /\ lacks "." payloadB64 /\
    decode base64_url payloadB64 = Some payload /\
    SplitN "|" 4 payload = [cl_SessionID claim; cl_UserSlug claim; cl_AuthMethod claim; exp] /\
    ParseInt exp = Some (cl_Exp claim).
Proof.
  unfold decodeAccessCookie. split.
  - destruct (cut "." value) as [[b64 sig]|] eqn:Hc; [|done]. apply cut_sound in Hc as [-> Hl].
    destruct (decode base64_url b64) as [payload|] eqn:Hd; [|done].
    destruct (String.eqb_spec (access_sig key payload) sig) as [<-|]; [|done]. cbn [negb].
    destruct (SplitN "|" 4 payload) as [|sid [|user [|method [|exp [|]]]]] eqn:Hs; try done.
    destruct (ParseInt exp) as [z|] eqn:Hp; [|done]. intros [= <-]. by exists b64, payload, exp.
  - intros (b64 & payload & exp & -> & Hl & Hd & Hs & Hp).
    rewrite cut_app by done. rewrite Hd, String.eqb_refl. cbn [negb]. rewrite Hs, Hp. by destruct claim.
Qed.

Lemma split_claim_payload c :
  lacks "|" (cl_SessionID c) -> lacks "|" (cl_UserSlug c) -> lacks "|" (cl_AuthMethod c) ->
  SplitN "|" 4 (claim_payload c) = [cl_SessionID c; cl_UserSlug c; cl_AuthMethod c; pretty (cl_Exp c)].
Proof. intros H1 H2 H3. unfold claim_payload. rewrite !SplitN_cut by done. done. Qed.

Lemma access_cookie_roundtrip c key :
  lacks "|" (cl_SessionID c) -> lacks "|" (cl_UserSlug c) -> lacks "|" (cl_AuthMethod c) ->
  - 2 ^ 63 <= cl_Exp c < 2 ^ 63 ->
  decodeAccessCookie (encodeAccessCookie c key) key = Ok c.
Proof.
  intros H1 H2 H3 He. apply decode_access_ok.
  exists (encode base64_url (claim_payload c)), (claim_payload c), (pretty (cl_Exp c)).
  split_and!; [done|apply encode_lacks; [apply _|by_decision]|by rewrite decode_encode by apply _| |].
  - by apply split_claim_payload.
  - by apply ParseInt_pretty.
Qed.

(** A secret that no operation of a history hands out. *)
Definition hands_out (h : string) (o : session_op) : Prop :=
  match o with
  | OpIssue _ raw _ _ _ | OpRefresh raw _ _ _ => refresh_hash (newSecret raw) = h
  | OpLogout _ _ => False
  end.

Lemma session_step_hash cfg t o sid h :
  (forall r, t !! sid = Some r -> se_refresh_hash r <> h) -> ~ hands_out h o ->
  forall r, session_step cfg t o !! sid = Some r -> se_refresh_hash r <> h.
Proof.
  intros Ht Ho r. destruct o as [sid' raw now fault i|raw now fl req|fault sid']; cbn [session_step hands_out] in *.
  - unfold Issue. destruct fault as [msg|]; [apply Ht|]. destruct (t !! sid') as [r'|] eqn:Hs; cbn [fst]; [apply Ht|].
    rewrite lookup_insert_Some. intros [[_ <-]|[_ Hr]]; [done|by apply Ht].
  - destruct (Refresh_cases cfg raw now fl req t) as [(rc & r' & Hrc & Hr & _ & _ & [[_ HR]|[_ HR]])|(e & He & HR)];
      rewrite HR; cbn [fst].
    + rewrite lookup_insert_Some. intros [[_ <-]|[_ Hr']]; [done|by apply Ht].
    + rewrite lookup_delete_Some. intros [_ Hr']. by apply Ht.
    + apply Ht.
  - unfold Logout. destruct fault; cbn [fst]; [apply Ht|]. rewrite lookup_delete_Some. intros [_ Hr']. by apply Ht.
Qed.

Lemma session_steps_hash cfg ops t sid h :
  (forall r, t !! sid = Some r -> se_refresh_hash r <> h) -> Forall (fun o => ~ hands_out h o) ops ->
  forall r, foldl (session_step cfg) t ops !! sid = Some r -> se_refresh_hash r <> h.
Proof.
  revert t. induction ops as [|o ops IH]; intros t Ht HF; [done|]. apply Forall_cons in HF as [Ho HF].
  cbn [foldl]. apply IH; [|done]. by apply session_step_hash.
Qed.

Lemma VerifyAccess_ok cfg now req t p :
  VerifyAccess cfg now None req t = Ok p <->
  exists value claim, Cookie req (cf_AccessName cfg) = Some value /\
    decodeAccessCookie value (cf_Key cfg) = Ok claim /\ Unix now < cl_Exp claim /\
    is_Some (t !! cl_SessionID claim) /\
    p = mkSessionPrincipal (cl_UserSlug claim) (cl_SessionID claim) (cl_AuthMethod claim).
Proof.
  unfold VerifyAccess. split.
  - destruct (Cookie req (cf_AccessName cfg)) as [value|]; [|done].
    destruct (decodeAccessCookie value (cf_Key cfg)) as [claim|] eqn:Hd; [|done].
    destruct (Z.leb_spec (cl_Exp claim) (Unix now)); [done|].
    destruct (t !! cl_SessionID claim) as [r|] eqn:Hr; [|done]. intros [= <-].
    exists value, claim. rewrite Hr. split_and!; done || lia.
  - intros (value & claim & -> & -> & He & [r Hr] & ->).
    rewrite (proj2 (Z.leb_gt _ _)) by lia. by rewrite Hr.
Qed.

(** Exactly these requests pass [VerifyAccess], after any history of
    issues, refreshes and logouts: the access cookie carries a payload with the
    HMAC of that payload under the configured key, the payload has four fields
    with an expiry in the future, and the session it names was issued and has
    since been neither logged out nor revoked by a detected replay. The
    principal is the one the payload names. *)
Theorem VerifyAccess_exact cfg ops now req p :
  VerifyAccess cfg now None req (session_run cfg ops) = Ok p <->
  exists payloadB64 payload exp_text exp pre o post,
    Cookie req (cf_AccessName cfg) = Some (payloadB64 +:+ String "." (access_sig (cf_Key cfg) payload)) /\
    lacks "." payloadB64 /\ decode base64_url payloadB64 = Some payload /\
    SplitN "|" 4 payload = [sp_SessionID p; sp_UserSlug p; sp_AuthMethod p; exp_text] /\
    ParseInt exp_text = Some exp /\ Unix now < exp /\
    ops = pre ++ o :: post /\ creates (sp_SessionID p) (session_run cfg pre) o /\
    survives cfg (sp_SessionID p) (session_step cfg (session_run cfg pre) o) post.
Proof.
  rewrite VerifyAccess_ok. split.
  - intros (value & claim & Hck & Hd & He & Hl & ->).
    apply decode_access_ok in Hd as (b64 & payload & et & -> & Hlk & Hd & Hs & Hp).
    apply session_live in Hl as (pre & o & post & Hl).
    exists b64, payload, et, (cl_Exp claim), pre, o, post. tauto.
  - intros (b64 & payload & et & exp & pre & o & post & Hck & Hlk & Hd & Hs & Hp & He & Hl).
    exists (b64 +:+ String "." (access_sig (cf_Key cfg) payload)),
      (mkAccessClaim (sp_SessionID p) (sp_UserSlug p) (sp_AuthMethod p) exp).
    split; [done|]. split; [apply decode_access_ok; by exists b64, payload, et|]. split; [done|].
    split; [apply session_live; by exists pre, o, post|]. by destruct p.
Qed.

Lemma Issue_VerifyAccess cfg sid raw now i t post now' :
  t !! sid = None -> lacks "|" sid -> lacks "|" (is_UserSlug i) -> lacks "|" (is_AuthMethod i) ->
  - 2 ^ 63 <= deadline now (cf_AccessTTL cfg) < 2 ^ 63 ->
  Unix now' < deadline now (cf_AccessTTL cfg) ->
  let '(t1, cookies, res) := Issue cfg sid raw now None i t in
  survives cfg sid t1 post ->
  res = Ok (mkSessionData sid (is_UserSlug i) (is_AuthMethod i)) /\
  VerifyAccess cfg now' None ((fun c => (ck_Name c, ck_Value c)) <$> cookies)
    (foldl (session_step cfg) t1 post) = Ok (mkSessionPrincipal (is_UserSlug i) sid (is_AuthMethod i)).
Proof.
  intros Hsid L1 L2 L3 Hexp Hnow. unfold Issue. rewrite Hsid. intros Hs. split; [done|].
  apply VerifyAccess_ok. eexists _, (mkAccessClaim sid (is_UserSlug i) (is_AuthMethod i) _).
  split; [|split; [by apply access_cookie_roundtrip|]].
  - unfold Cookie, writeCookies. cbn [fmap list_fmap list_find ck_Name fst]. rewrite decide_True by done. done.
  - split; [done|]. split; [|done]. cbn [cl_SessionID].
    assert (forall ops u, is_Some (u !! sid) -> survives cfg sid u ops ->
              is_Some (foldl (session_step cfg) u ops !! sid)) as Hlive.
    { induction ops as [|o ops IH]; intros u Hu Hsv; [done|]. destruct Hsv as [He Hsv].
      cbn [foldl]. apply IH; [|done]. apply session_step_live. by left. }
    apply Hlive; [|done]. rewrite lookup_insert_eq. by eexists.
Qed.

(** A session that was issued works until it is ended: a request with the
    cookies that [Issue] wrote passes [VerifyAccess] as the user it was issued
    to, at any time before the access deadline and after any operations that do
    not end it. (The schema of user slugs and the format of session ids exclude
    the separator of the payload.) *)
Theorem issued_session_verifies cfg sid raw now i t post now' :
  t !! sid = None -> lacks "|" sid -> lacks "|" (is_UserSlug i) -> lacks "|" (is_AuthMethod i) ->
  - 2 ^ 63 <= deadline now (cf_AccessTTL cfg) < 2 ^ 63 ->
  Unix now' < deadline now (cf_AccessTTL cfg) ->
  let '(t1, cookies, res) := Issue cfg sid raw now None i t in
  survives cfg sid t1 post ->
  res = Ok (mkSessionData sid (is_UserSlug i) (is_AuthMethod i)) /\
  VerifyAccess cfg now' None ((fun c => (ck_Name c, ck_Value c)) <$> cookies)
    (foldl (session_step cfg) t1 post) = Ok (mkSessionPrincipal (is_UserSlug i) sid (is_AuthMethod i)).
Proof. apply Issue_VerifyAccess. Qed.

Definition no_faults (fl : RefreshFaults) : bool :=
  match fl with mkRefreshFaults None None None None => true | _ => false end.

(** Whether a session can still be refreshed. *)
Definition refreshable (now : Z) (sid : string) (t : SessionTable) : bool :=
  match t !! sid with
  | None => false
  | Some r => (Unix now <? se_refresh_ttl_at r) && (Unix now <? se_refresh_idle_at r)
  end.

(** A secret other than the current one: the refresh of a live session ends it. *)
Lemma Refresh_mismatch cfg raw now fl req t rc :
  refresh_claim cfg req = Some rc ->
  (forall r, t !! rc_SessionID rc = Some r -> se_refresh_hash r <> refresh_hash (rc_RefreshSecret rc)) ->
  exists e, Refresh cfg raw now fl req t =
    (if refreshable now (rc_SessionID rc) t && no_faults fl
     then delete (rc_SessionID rc) t else t, [], Err e) /\
    (e = ErrSessionReplay <-> refreshable now (rc_SessionID rc) t = true /\ no_faults fl = true).
Proof.
  unfold refresh_claim, Refresh, refreshable. destruct (Cookie req (cf_RefreshName cfg)) as [value|]; [|done].
  cbn [mbind option_bind]. destruct (decodeRefreshCookie value) as [rc1|]; [|done]. intros [= ->] Hne.
  destruct fl as [fb fs fw fc]; cbn [sf_begin sf_select sf_write sf_commit].
  destruct (t !! rc_SessionID rc) as [r|] eqn:Hr.
  2:{ destruct fb as [m|]; [exists (SessionDB m); split; [done|naive_solver]|].
      destruct fs as [m|]; [exists (SessionDB m); split; [done|naive_solver]|].
      exists ErrSessionInvalid. split; [done|naive_solver]. }
  assert (Hmis : String.eqb (refresh_hash (rc_RefreshSecret rc)) (se_refresh_hash r) = false)
    by (apply String.eqb_neq; intros H; by apply (Hne r)).
  rewrite Hmis, !Z.ltb_antisym. cbn [negb].
  destruct fb as [m|]; [rewrite andb_false_r; exists (SessionDB m); split; [done|naive_solver]|].
  destruct fs as [m|]; [rewrite andb_false_r; exists (SessionDB m); split; [done|naive_solver]|].
  destruct (se_refresh_ttl_at r <=? Unix now); cbn [negb orb andb]; [exists ErrSessionExpired; split; [done|naive_solver]|].
  destruct (se_refresh_idle_at r <=? Unix now); cbn [negb andb]; [exists ErrSessionExpired; split; [done|naive_solver]|].
  destruct fw as [m|]; [exists (SessionDB m); split; [done|naive_solver]|].
  destruct fc as [m|]; [exists (SessionDB m); split; [done|naive_solver]|].
  exists ErrSessionReplay. split; [done|naive_solver].
Qed.

(** C16. A refresh secret is good for one refresh: once a refresh with it has
    succeeded, no later request that presents the same secret for that session
    is granted, whatever happened in between, unless that very secret was handed
    out again. Presented while the session can still be refreshed, and if the database
    does not fail, it is recognised as a replay and the session is deleted; in every other
    case the table stays as it is and no replay is reported. *)
Theorem refresh_secret_once cfg t raw now fl req t1 cs sd rc ops raw' now' fl' req' rc' :
  Refresh cfg raw now fl req t = (t1, cs, Ok sd) -> refresh_claim cfg req = Some rc ->
  refresh_claim cfg req' = Some rc' -> rc_SessionID rc' = rc_SessionID rc ->
  sha256 (rc_RefreshSecret rc') = sha256 (rc_RefreshSecret rc) ->
  Forall (fun o => ~ hands_out (refresh_hash (rc_RefreshSecret rc)) o) (OpRefresh raw now fl req :: ops) ->
  let sid := rc_SessionID rc in
  let t2 := foldl (session_step cfg) t1 ops in
  let '(t3, cs3, res) := Refresh cfg raw' now' fl' req' t2 in
  cs3 = [] /\ is_ok res = false /\
  (if refreshable now' sid t2 && no_faults fl'
   then res = Err ErrSessionReplay /\ t3 = delete sid t2
   else res <> Err ErrSessionReplay /\ t3 = t2).
Proof.
  intros HR Hrc Hrc' Hsid Hsha HF sid t2. apply Forall_cons in HF as [Hraw HF]. cbn [hands_out] in Hraw.
  destruct (Refresh_cases cfg raw now fl req t) as [(rc0 & r & Hrc0 & Hr & _ & _ & [[Hh HR']|[_ HR']])|(e & _ & HR')];
    rewrite HR' in HR; [|done|done]. injection HR as <- _ _. assert (rc0 = rc) as -> by congruence.
  assert (Hne : forall r2, t2 !! rc_SessionID rc' = Some r2 ->
            se_refresh_hash r2 <> refresh_hash (rc_RefreshSecret rc')).
  { unfold refresh_hash. rewrite Hsha, Hsid. apply session_steps_hash; [|done]. intros r2. rewrite lookup_insert_eq. by intros [= <-]. }
  destruct (Refresh_mismatch cfg raw' now' fl' req' t2 rc' Hrc' Hne) as (e & -> & He). rewrite Hsid in He |- *.
  fold sid in He |- *. split_and!; [done..|].
  destruct (refreshable now' sid t2); cbn [andb]; [|split; [intros [= ->]; by destruct He as [[] _]|done]].
  destruct (no_faults fl') eqn:Hf; [split; [f_equal; by apply He|done]|]. split; [|done]. intros [= ->]. by destruct He as [[] _].
Qed.

End Sessions.

(** ** A session at work *)

Module SessionDemo.
Definition hash (s : string) : string := s.
Definition mac (k s : string) : string := k +:+ s.
Definition cfg : Config :=
  mkConfig "key" (15 * Minute) (7 * 24 * Hour) (24 * Hour) "switchyard_access" "switchyard_refresh".
Definition ann : IssueInput := mkIssueInput "ann" "password" "192.0.2.1" "curl".
Definition t0 : gmap string SessionRow := (Issue hash mac cfg "S1" "first secret" 0 None ann ∅).1.1.
Definition old_request : list (string * string) := [("switchyard_refresh", "S1." +:+ newSecret "first secret")].
Definition refreshed : gmap string SessionRow * list SetCookie * result session_error SessionData :=
  Refresh hash mac cfg "second secret" Minute (mkRefreshFaults None None None None) old_request t0.

Lemma issued_session_verifies_witness :
  VerifyAccess mac cfg Minute None
    ((fun c => (ck_Name c, ck_Value c)) <$> (Issue hash mac cfg "S1" "first secret" 0 None ann ∅).1.2)
    t0 = Ok (mkSessionPrincipal "ann" "S1" "password").
Proof.
  refine (proj2 (issued_session_verifies hash mac cfg "S1" "first secret" 0 ann ∅ [] Minute _ _ _ _ _ _ _));
    first [reflexivity | by_decision | done].
Defined.

Lemma refresh_secret_once_witness :
  let '(t3, cs3, res) := Refresh hash mac cfg "third secret" (2 * Minute) (mkRefreshFaults None None None None)
                           old_request refreshed.1.1 in
  cs3 = [] /\ is_ok res = false /\ res = Err ErrSessionReplay /\ t3 = delete "S1" refreshed.1.1.
Proof.
  refine (refresh_secret_once hash mac cfg t0 "second secret" Minute (mkRefreshFaults None None None None)
    old_request refreshed.1.1 refreshed.1.2 (mkSessionData "S1" "ann" "password")
    (mkRefreshCookie "S1" (newSecret "first secret")) [] "third secret" (2 * Minute)
    (mkRefreshFaults None None None None) old_request (mkRefreshCookie "S1" (newSecret "first secret"))
    _ _ _ _ _ _); try reflexivity.
  constructor; [|constructor]. intros H. by vm_compute in H.
Defined.

(** The replay is detected. *)
Example replay_detected :
  (Refresh hash mac cfg "third secret" (2 * Minute) (mkRefreshFaults None None None None)
     old_request refreshed.1.1).2 = Err ErrSessionReplay.
Proof. vm_compute. done. Qed.
End SessionDemo.
