(* ===== verification/Identity.v ===== *)
(** * Users and their roles

    Models [internal/auth/identity/store.go]: the projection of the configured
    users into the tables [auth_users] and [auth_user_roles], and its queries.
    [ORDER BY] on text is SQLite's byte order, [String.le]. Which database call
    of [ApplySnapshot] fails is an argument: calls are numbered in the order
    they are made. *)

From S2P Require Import Prelude Sorting.

Record User := mkUser {
  Slug : string;
  DisplayName : string;
  Active : bool;
  PasswordAllowed : bool;
  PasskeyAllowed : bool;
  Roles : list string;
}.
#[export] Instance User_eq_dec : EqDecision User.
Proof. solve_decision. Defined.

(** The columns of [auth_users] after the key. *)
Record UserRow := mkUserRow {
  ur_display_name : string; ur_active : bool; ur_password_allowed : bool; ur_passkey_allowed : bool }.

(** The two tables. *)
Record AuthDB := mkAuthDB {
  auth_users : gmap string UserRow;
  auth_user_roles : gset (string * string);
}.

Record SnapshotFaults := mkSnapshotFaults {
  sn_begin : option string;
  sn_exec : nat -> option string;
  sn_commit : option string;
}.
Definition no_snapshot_faults : SnapshotFaults := mkSnapshotFaults None (fun _ => None) None.

Definition user_row (u : User) : UserRow :=
  mkUserRow (DisplayName u) (Active u) (PasswordAllowed u) (PasskeyAllowed u).

(** The loop over a user's roles; [n] counts the calls. *)
Fixpoint insert_roles (fl : SnapshotFaults) (n : nat) (slug : string) (roles : list string) (d : AuthDB) :
    result string (nat * AuthDB) :=
  match roles with
  | [] => Ok (n, d)
  | role :: rest =>
      let err msg := Err ("insert role " +:+ role +:+ " for user " +:+ slug +:+ ": " +:+ msg) in
      match sn_exec fl n with
      | Some msg => err msg
      | None =>
          if bool_decide ((slug, role) ∈ auth_user_roles d)
          then err "UNIQUE constraint failed: auth_user_roles.user_slug, auth_user_roles.role_slug"
          else insert_roles fl (S n) slug rest
                 (mkAuthDB (auth_users d) ({[(slug, role)]} ∪ auth_user_roles d))
      end
  end.

(** The loop over the users. *)
Fixpoint insert_users (fl : SnapshotFaults) (n : nat) (users : list User) (d : AuthDB) :
    result string (nat * AuthDB) :=
  match users with
  | [] => Ok (n, d)
  | u :: rest =>
      let err msg := Err ("insert user " +:+ Slug u +:+ ": " +:+ msg) in
      match sn_exec fl n with
      | Some msg => err msg
      | None =>
          match auth_users d !! Slug u with
          | Some _ => err "UNIQUE constraint failed: auth_users.slug"
          | None =>
              '(n', d') ← insert_roles fl (S n) (Slug u) (Roles u)
                            (mkAuthDB (<[Slug u := user_row u]> (auth_users d)) (auth_user_roles d));
              insert_users fl n' rest d'
          end
      end
  end.

Definition ApplySnapshot (fl : SnapshotFaults) (users : list User) (d : AuthDB) : AuthDB * option string :=
  match sn_begin fl with
  | Some msg => (d, Some ("begin tx: " +:+ msg))
  | None =>
      match sn_exec fl 0 with
      | Some msg => (d, Some ("clear auth_user_roles: " +:+ msg))
      | None =>
          match sn_exec fl 1 with
          | Some msg => (d, Some ("clear auth_users: " +:+ msg))
          | None =>
              match insert_users fl 2 users (mkAuthDB ∅ ∅) with
              | Err msg => (d, Some msg)
              | Ok (_, d') =>
                  match sn_commit fl with
                  | Some msg => (d, Some ("commit: " +:+ msg))
                  | None => (d', None)
                  end
              end
          end
      end
  end.

(** [SELECT role_slug FROM auth_user_roles WHERE user_slug = ? ORDER BY role_slug]. *)
Definition select_roles (slug : string) (d : AuthDB) : list string :=
  merge_sort String.le (snd <$> filter (fun p : string * string => p.1 = slug) (elements (auth_user_roles d))).

Inductive get_error := ErrNotFound | GetDB (msg : string).

Definition user_of (slug : string) (r : UserRow) (roles : list string) : User :=
  mkUser slug (ur_display_name r) (ur_active r) (ur_password_allowed r) (ur_passkey_allowed r) roles.

(** [fault] and [fault'] are the outcomes of its two queries. *)
Definition Get (fault fault' : option string) (slug : string) (d : AuthDB) : result get_error User :=
  match fault, auth_users d !! slug with
  | Some msg, _ => Err (GetDB ("scan user: " +:+ msg))
  | None, None => Err ErrNotFound
  | None, Some r =>
      match fault' with
      | Some msg => Err (GetDB ("query roles: " +:+ msg))
      | None => Ok (user_of slug r (select_roles slug d))
      end
  end.

Definition RolesFor (fault : option string) (slug : string) (d : AuthDB) : result string (list string) :=
  match fault with
  | Some msg => Err ("query roles: " +:+ msg)
  | None => Ok (select_roles slug d)
  end.

(** The rows of [auth_users] in the order of their key. *)
Definition key_order (a b : string * UserRow) : Prop := String.le a.1 b.1.
#[export] Instance key_order_dec a b : Decision (key_order a b).
Proof. unfold key_order. apply _. Defined.

Definition ListUsers (fault : option string) (d : AuthDB) : result string (list User) :=
  match fault with
  | Some msg => Err ("query users: " +:+ msg)
  | None => Ok ((fun p : string * UserRow => user_of p.1 p.2 (select_roles p.1 d)) <$>
                  merge_sort key_order (map_to_list (auth_users d)))
  end.

(** ** Correctness *)

(** A snapshot whose keys do not clash. *)
Definition wf_snapshot (users : list User) : Prop :=
  NoDup (Slug <$> users) /\ Forall (fun u => NoDup (Roles u)) users.
#[export] Instance wf_snapshot_dec users : Decision (wf_snapshot users).
Proof. unfold wf_snapshot. apply _. Defined.

(** A user as the queries give it back. *)
Definition with_sorted_roles (u : User) : User :=
  mkUser (Slug u) (DisplayName u) (Active u) (PasswordAllowed u) (PasskeyAllowed u)
    (merge_sort String.le (Roles u)).

Lemma insert_roles_spec n slug roles d :
  match insert_roles no_snapshot_faults n slug roles d with
  | Ok (_, d') => NoDup roles /\ (forall r, r ∈ roles -> (slug, r) ∉ auth_user_roles d) /\
                  auth_users d' = auth_users d /\
                  (forall p, p ∈ auth_user_roles d' <-> p ∈ auth_user_roles d \/ p.1 = slug /\ p.2 ∈ roles)
  | Err _ => ~ (NoDup roles /\ forall r, r ∈ roles -> (slug, r) ∉ auth_user_roles d)
  end.
Proof.
  revert n d. induction roles as [|role roles IH]; intros n d; cbn [insert_roles].
  { split_and!; [constructor|by intros r ?%not_elem_of_nil|done|]. set_solver. }
  cbn [sn_exec no_snapshot_faults]. destruct (bool_decide_reflect ((slug, role) ∈ auth_user_roles d)) as [Hin|Hni].
  { intros [_ H]. by apply (H role); [left|]. }
  specialize (IH (S n) (mkAuthDB (auth_users d) ({[(slug, role)]} ∪ auth_user_roles d))).
  destruct (insert_roles _ _ _ _ _) as [[n' d']|msg]; cbn [auth_users auth_user_roles] in IH.
  - destruct IH as (Hnd & Hf & Hu & Hr). split_and!.
    + apply NoDup_cons. split; [|done]. intros Hin. apply (Hf role Hin). set_solver.
    + intros r [->|Hr']%elem_of_cons; [done|]. intros H. apply (Hf r Hr'). set_solver.
    + done.
    + intros [a b]. rewrite Hr. cbn. rewrite elem_of_union, elem_of_singleton, elem_of_cons. naive_solver.
  - intros [Hnd Hf]. apply IH. apply NoDup_cons in Hnd as [Hn Hnd]. split; [done|].
    intros r Hr. rewrite elem_of_union, elem_of_singleton. intros [[= ->]|H]; [done|].
    apply (Hf r); [by right|done].
Qed.

(** The tables hold exactly these users. *)
Definition holds (users : list User) (d : AuthDB) : Prop :=
  (forall s r, auth_users d !! s = Some r <-> exists u, u ∈ users /\ Slug u = s /\ user_row u = r) /\
  (forall s r, (s, r) ∈ auth_user_roles d <-> exists u, u ∈ users /\ Slug u = s /\ r ∈ Roles u).

Lemma insert_users_spec n users users0 d :
  wf_snapshot users0 -> holds users0 d ->
  match insert_users no_snapshot_faults n users d with
  | Ok (_, d') => wf_snapshot (users0 ++ users) /\ holds (users0 ++ users) d'
  | Err _ => ~ wf_snapshot (users0 ++ users)
  end.
Proof.
  revert n users0 d. induction users as [|u users IH]; intros n users0 d Hwf Hd; cbn [insert_users].
  { by rewrite app_nil_r. }
  cbn [sn_exec no_snapshot_faults]. destruct Hd as [Hu Hr]. destruct (auth_users d !! Slug u) as [r|] eqn:Hs.
  { intros [Hnd _]. apply Hu in Hs as (u' & Hu' & He & _). rewrite fmap_app, NoDup_app in Hnd.
    destruct Hnd as (_ & Hnd & _). apply (Hnd (Slug u)); [|cbn; left].
    rewrite <- He. by apply list_elem_of_fmap_2. }
  assert (Hfresh : forall u', u' ∈ users0 -> Slug u' <> Slug u).
  { intros u' Hu' He. enough (auth_users d !! Slug u = Some (user_row u')) by congruence.
    apply Hu. by exists u'. }
  pose proof (insert_roles_spec (S n) (Slug u) (Roles u)
    (mkAuthDB (<[Slug u := user_row u]> (auth_users d)) (auth_user_roles d))) as HR.
  destruct (insert_roles _ _ _ _ _) as [[n' d']|msg]; cbn [mbind result_bind auth_users auth_user_roles] in *.
  - destruct HR as (Hnd & _ & Hu' & Hr'). specialize (IH n' (users0 ++ [u]) d').
    rewrite <- app_assoc in IH. apply IH.
    + destruct Hwf as [H1 H2]. split; [|by apply Forall_app_2; [|constructor]].
      rewrite fmap_app, NoDup_app. split; [done|]. split; [|cbn; apply NoDup_singleton].
      intros s (u' & -> & Hin)%list_elem_of_fmap. cbn. rewrite list_elem_of_singleton. by apply Hfresh.
    + split.
      * intros s r. rewrite Hu', lookup_insert_Some, Hu. setoid_rewrite elem_of_app.
        setoid_rewrite list_elem_of_singleton. split; [naive_solver|].
        intros (u' & [Hin| ->] & <- & <-); [right; split; [by apply not_eq_sym, Hfresh|naive_solver]|by left].
      * intros s r. rewrite Hr', Hr. cbn. setoid_rewrite elem_of_app. setoid_rewrite list_elem_of_singleton.
        naive_solver.
  - intros [Hnd Hf]. apply HR. apply Forall_app in Hf as [_ Hf]. apply Forall_cons in Hf as [Hf _].
    split; [done|]. intros r _ Hin. apply Hr in Hin as (u' & Hin & He & _). by apply (Hfresh u').
Qed.

(** Distinct keys determine the element. *)
Lemma NoDup_fmap_inj_elem {A B} (f : A -> B) l x y :
  NoDup (f <$> l) -> x ∈ l -> y ∈ l -> f x = f y -> x = y.
Proof.
  intros Hnd [i Hi]%list_elem_of_lookup [j Hj]%list_elem_of_lookup He.
  assert (i = j) as ->; [|congruence].
  eapply (NoDup_lookup (f <$> l)); [done| |]; rewrite list_lookup_fmap; [by rewrite Hi|by rewrite Hj, He].
Qed.

Lemma select_roles_holds users d u :
  wf_snapshot users -> holds users d -> u ∈ users -> select_roles (Slug u) d = merge_sort String.le (Roles u).
Proof.
  intros [Hnd Hf] [_ Hr] Hu. unfold select_roles.
  apply (StronglySorted_unique String.le); try (apply StronglySorted_merge_sort; apply _).
  rewrite !merge_sort_Permutation. apply NoDup_Permutation.
  - apply NoDup_fmap_2_strong; [|apply NoDup_filter, NoDup_elements].
    intros [a b] [a' b']. rewrite !list_elem_of_filter. cbn. intros [-> _] [-> _]. congruence.
  - rewrite Forall_forall in Hf. by apply Hf.
  - intros r. rewrite list_elem_of_fmap. split.
    + intros ([a b] & -> & Hin). rewrite list_elem_of_filter, elem_of_elements in Hin. cbn in *.
      destruct Hin as [-> Hin]. apply Hr in Hin as (u' & Hu' & He & Hin).
      assert (u' = u) as -> by (eapply NoDup_fmap_inj_elem; eauto). done.
    + intros Hin. exists (Slug u, r). split; [done|]. rewrite list_elem_of_filter, elem_of_elements.
      split; [done|]. apply Hr. by exists u.
Qed.

Lemma empty_wf : wf_snapshot [].
Proof. split; constructor. Qed.

Lemma empty_holds : holds [] (mkAuthDB ∅ ∅).
Proof. split; intros s r; cbn; [rewrite lookup_empty|]; split; set_solver. Qed.

Lemma queries_present users d u :
  wf_snapshot users -> holds users d -> u ∈ users ->
  Get None None (Slug u) d = Ok (with_sorted_roles u) /\
  RolesFor None (Slug u) d = Ok (merge_sort String.le (Roles u)).
Proof.
  intros Hwf Hh Hu. unfold Get, RolesFor. rewrite (select_roles_holds users) by done. split; [|done].
  assert (auth_users d !! Slug u = Some (user_row u)) as -> by (apply Hh; by exists u). done.
Qed.

Lemma queries_absent users d s :
  holds users d -> s ∉ Slug <$> users ->
  Get None None s d = Err ErrNotFound /\ RolesFor None s d = Ok [].
Proof.
  intros [Hu Hr] Hs. unfold Get, RolesFor.
  assert (auth_users d !! s = None) as ->.
  { apply eq_None_not_Some. intros [r (u & Hin & <- & _)%Hu]. apply Hs. by apply list_elem_of_fmap_2. }
  split; [done|]. unfold select_roles. rewrite list_filter_none; [done|].
  intros [a b] Hin%elem_of_elements Ha. cbn in Ha. subst a. apply Hr in Hin as (u & Hin & <- & _).
  apply Hs. by apply list_elem_of_fmap_2.
Qed.

Lemma ListUsers_holds users d :
  wf_snapshot users -> holds users d ->
  exists l, ListUsers None d = Ok l /\ StronglySorted String.le (Slug <$> l) /\
    l ≡ₚ with_sorted_roles <$> users.
Proof.
  intros Hwf Hh. eexists. split; [reflexivity|].
  assert (Htot : Total key_order) by (intros a b; apply (total String.le)).
  assert (Htr : Transitive key_order) by (intros a b c; unfold key_order; apply transitivity).
  split.
  - rewrite <- list_fmap_compose. eapply StronglySorted_fmap; [|by apply StronglySorted_merge_sort].
    intros a b. done.
  - rewrite merge_sort_Permutation. apply NoDup_Permutation.
    + apply NoDup_fmap_2_strong; [|apply NoDup_map_to_list]. intros [a r] [a' r'] H1%elem_of_map_to_list H2%elem_of_map_to_list.
      unfold user_of. cbn. intros [= -> _ _ _ _]. congruence.
    + apply NoDup_fmap_2_strong; [|by eapply NoDup_fmap_1, Hwf].
      intros u u' H1 H2 [= He _ _ _ _ _]. eapply NoDup_fmap_inj_elem; [apply Hwf|..]; eauto.
    + intros u. rewrite !list_elem_of_fmap. split.
      * intros ([s r] & -> & Hin%elem_of_map_to_list). apply Hh in Hin as (u & Hin & <- & <-).
        exists u. split; [|done]. cbn [fst snd]. rewrite (select_roles_holds users) by done. done.
      * intros (u' & -> & Hin). exists (Slug u', user_row u'). split.
        -- cbn [fst snd]. rewrite (select_roles_holds users) by done. done.
        -- apply elem_of_map_to_list, Hh. by exists u'.
Qed.

(** A snapshot without clashes takes effect. *)
Lemma ApplySnapshot_holds users d :
  wf_snapshot users -> exists d', ApplySnapshot no_snapshot_faults users d = (d', None) /\ holds users d'.
Proof.
  intros Hwf. unfold ApplySnapshot. cbn [sn_begin sn_exec no_snapshot_faults].
  pose proof (insert_users_spec 2 users [] (mkAuthDB ∅ ∅) empty_wf empty_holds) as HI.
  destruct (insert_users _ _ _ _) as [[n d0]|msg]; [|done]. exists d0. split; [done|]. apply HI.
Qed.

(** A configuration's users replace the old ones, all or none:
    [ApplySnapshot] fails, and changes nothing, when a call fails or two users
    share a slug or a user lists a role twice; otherwise it succeeds, and
    afterwards [Get], [RolesFor] and [ListUsers] give back exactly the users of
    the snapshot, by slug, each with its roles in order. *)
Theorem ApplySnapshot_spec fl users d :
  let '(d', err) := ApplySnapshot fl users d in
  (is_Some err -> d' = d) /\
  (fl = no_snapshot_faults -> (err = None <-> wf_snapshot users)) /\
  (fl = no_snapshot_faults -> err = None ->
    (forall u, u ∈ users -> Get None None (Slug u) d' = Ok (with_sorted_roles u) /\
                            RolesFor None (Slug u) d' = Ok (merge_sort String.le (Roles u))) /\
    (forall s, s ∉ Slug <$> users -> Get None None s d' = Err ErrNotFound /\ RolesFor None s d' = Ok []) /\
    exists l, ListUsers None d' = Ok l /\ StronglySorted String.le (Slug <$> l) /\
      l ≡ₚ with_sorted_roles <$> users).
Proof.
  destruct (ApplySnapshot fl users d) as [d' err] eqn:HA. split; [|split].
  - intros [msg ->]. unfold ApplySnapshot in HA. repeat case_match; by simplify_eq.
  - intros ->. unfold ApplySnapshot in HA. cbn [sn_begin sn_exec no_snapshot_faults] in HA.
    pose proof (insert_users_spec 2 users [] (mkAuthDB ∅ ∅) empty_wf empty_holds) as HI.
    destruct (insert_users _ _ _ _) as [[n d0]|msg]; cbn in HA; simplify_eq; [|by split].
    split; [|done]. intros _. apply HI.
  - intros -> ->. unfold ApplySnapshot in HA. cbn [sn_begin sn_exec no_snapshot_faults] in HA.
    pose proof (insert_users_spec 2 users [] (mkAuthDB ∅ ∅) empty_wf empty_holds) as HI.
    destruct (insert_users _ _ _ _) as [[n d0]|msg]; cbn in HA; simplify_eq.
    destruct HI as [Hwf Hh]. cbn [app] in *. split_and!.
    + intros u Hu. by apply (queries_present users).
    + intros s Hs. by apply (queries_absent users).
    + by apply ListUsers_holds.
Qed.
