(* ===== verification/Passwords.v ===== *)
(** * Passwords

    Models [internal/auth/credentials/password.go]: the Argon2id hash in its
    textual form, and the table [auth_passwords]. The key derivation
    ([golang.org/x/crypto/argon2]) is a parameter; the code relies on it
    returning a key of the length asked for. Salts and clock readings are
    arguments. *)

From Stdlib Require Import Ascii String.
From S2P Require Import Prelude Codec.

Record Argon2idParams := mkParams { pa_Time : Z; pa_MemoryKiB : Z; pa_Parallelism : Z }.
#[export] Instance Argon2idParams_eq_dec : EqDecision Argon2idParams.
Proof. solve_decision. Defined.

Definition DefaultArgon2idParams : Argon2idParams := mkParams 3 (64 * 1024) 4.

(** The fields are [uint32], [uint32] and [uint8]. *)
Definition wf_params (p : Argon2idParams) : Prop :=
  0 <= pa_Time p < 2 ^ 32 /\ 0 <= pa_MemoryKiB p < 2 ^ 32 /\ 0 <= pa_Parallelism p < 2 ^ 8.

(** [argon2.Version]. *)
Definition argon2_Version : Z := 19.

Record PasswordRow := mkPasswordRow { pw_hash : string; pw_set_at : Z; pw_set_by : string }.
Notation PasswordTable := (gmap string PasswordRow).

Record parsed := mkParsed { ps_params : Argon2idParams; ps_salt : string; ps_hash : string }.

(** [fmt.Sscanf(s, "v=%d", &ver)]. *)
Definition scan_version (s : string) : option Z :=
  if has_prefix s "v=" then fst <$> scan_int (trim_prefix s "v=") else None.

(** One [key=value] of the parameters. *)
Definition param_kv (kv : string) (p : Argon2idParams) : result string Argon2idParams :=
  match cut "=" kv with
  | None => Err "credentials: malformed params"
  | Some (k, v) =>
      match ParseInt v with
      | None => Err "strconv.Atoi"
      | Some n =>
          if String.eqb k "m" then Ok (mkParams (pa_Time p) (n `mod` 2 ^ 32) (pa_Parallelism p))
          else if String.eqb k "t" then Ok (mkParams (n `mod` 2 ^ 32) (pa_MemoryKiB p) (pa_Parallelism p))
          else if String.eqb k "p" then Ok (mkParams (pa_Time p) (pa_MemoryKiB p) (n `mod` 2 ^ 8))
          else Err ("credentials: unknown param " +:+ k)
      end
  end.

Fixpoint param_kvs (kvs : list string) (p : Argon2idParams) : result string Argon2idParams :=
  match kvs with
  | [] => Ok p
  | kv :: rest => p' ← param_kv kv p; param_kvs rest p'
  end.

(** [decode]. *)
Definition decode_hash (encoded : string) : result string parsed :=
  match Split "$" encoded with
  | [_; alg; ver; params; salt; hash] =>
      if negb (String.eqb alg "argon2id") then Err "credentials: invalid hash format"
      else if match scan_version ver with Some v => negb (v =? argon2_Version) | None => true end
      then Err "credentials: unsupported argon2 version"
      else
        p ← param_kvs (Split "," params) (mkParams 0 0 0);
        match decode base64_std salt, decode base64_std hash with
        | Some salt, Some hash => Ok (mkParsed p salt hash)
        | _, _ => Err "illegal base64 data"
        end
  | _ => Err "credentials: invalid hash format"
  end.

Section Passwords.
Context (IDKey : string -> string -> Z -> Z -> Z -> Z -> string).

(** [encode], with the salt that was read; the hash has 32 bytes. *)
Definition derive (p : Argon2idParams) (plaintext salt : string) (keyLen : Z) : string :=
  IDKey plaintext salt (pa_Time p) (pa_MemoryKiB p) (pa_Parallelism p) keyLen.

Definition format_hash (p : Argon2idParams) (salt hash : string) : string :=
  String "$" ("argon2id" +:+ String "$" ("v=" +:+ pretty argon2_Version +:+
    String "$" ("m=" +:+ pretty (pa_MemoryKiB p) +:+ String "," ("t=" +:+ pretty (pa_Time p) +:+
      String "," ("p=" +:+ pretty (pa_Parallelism p) +:+
        String "$" (encode base64_std salt +:+ String "$" (encode base64_std hash))))))).

Definition encode_password (p : Argon2idParams) (salt : result string string) (plaintext : string) :
    result string string :=
  salt ← salt; Ok (format_hash p salt (derive p plaintext salt 32)).

(** [Set]; [params] is the store's target. *)
Definition Set_ (params : Argon2idParams) (salt : result string string) (now : Z) (fault : option string)
    (userSlug plaintext setBy : string) (t : PasswordTable) : PasswordTable * option string :=
  match encode_password params salt plaintext with
  | Err e => (t, Some e)
  | Ok encoded =>
      match fault with
      | Some msg => (t, Some msg)
      | None => (<[userSlug := mkPasswordRow encoded (Unix now) setBy]> t, None)
      end
  end.

(** [INSERT ... ON CONFLICT(user_slug) DO NOTHING]. *)
Definition BootstrapHash (now : Z) (fault : option string) (userSlug encoded setBy : string)
    (t : PasswordTable) : PasswordTable * option string :=
  match decode_hash encoded with
  | Err e => (t, Some e)
  | Ok _ =>
      match fault, t !! userSlug with
      | Some msg, _ => (t, Some msg)
      | None, Some _ => (t, None)
      | None, None => (<[userSlug := mkPasswordRow encoded (Unix now) setBy]> t, None)
      end
  end.

Definition Delete (fault : option string) (userSlug : string) (t : PasswordTable) :
    PasswordTable * option string :=
  match fault with
  | Some msg => (t, Some msg)
  | None => (delete userSlug t, None)
  end.

(** [Verify]: whether the password is right, and whether its hash should be
    renewed. *)
Definition Verify (params : Argon2idParams) (fault : option string) (userSlug plaintext : string)
    (t : PasswordTable) : result string (bool * bool) :=
  match fault, t !! userSlug with
  | Some msg, _ => Err msg
  | None, None => Ok (false, false)
  | None, Some r =>
      ps ← decode_hash (pw_hash r);
      let candidate := derive (ps_params ps) plaintext (ps_salt ps)
                         (Z.of_nat (String.length (ps_hash ps)) `mod` 2 ^ 32) in
      if negb (String.eqb candidate (ps_hash ps)) then Ok (false, false)
      else Ok (true, negb (bool_decide (ps_params ps = params)))
  end.

(** ** Correctness *)

Lemma param_kv_print k n p : lacks "=" k -> 0 <= n < 2 ^ 32 ->
  param_kv (k +:+ String "=" (pretty n)) p =
    (if String.eqb k "m" then Ok (mkParams (pa_Time p) n (pa_Parallelism p))
     else if String.eqb k "t" then Ok (mkParams n (pa_MemoryKiB p) (pa_Parallelism p))
     else if String.eqb k "p" then Ok (mkParams (pa_Time p) (pa_MemoryKiB p) (n `mod` 2 ^ 8))
     else Err ("credentials: unknown param " +:+ k)).
Proof.
  intros Hk Hn. unfold param_kv. rewrite cut_app by done. rewrite ParseInt_pretty by lia.
  by rewrite (Z.mod_small n) by lia.
Qed.

(** Decoding undoes formatting. *)
Lemma decode_format p salt hash :
  wf_params p -> decode_hash (format_hash p salt hash) = Ok (mkParsed p salt hash).
Proof.
  intros (Ht & Hm & Hp). unfold decode_hash, format_hash.
  assert (Hdig : forall c z, Forall (fun d => c <> pretty_N_char d) [0; 1; 2; 3; 4; 5; 6; 7; 8; 9]%N ->
            0 <= z -> lacks c (pretty z)) by (intros c z Hc Hz; apply pretty_lacks; [done|by apply not_digit]).
  assert (Hd1 : lacks "$" (encode base64_std salt)) by (apply encode_lacks; [apply _|by_decision]).
  assert (Hd2 : lacks "$" (encode base64_std hash)) by (apply encode_lacks; [apply _|by_decision]).
  set (params := "m=" +:+ pretty (pa_MemoryKiB p) +:+ String "," ("t=" +:+ pretty (pa_Time p) +:+
      String "," ("p=" +:+ pretty (pa_Parallelism p)))).
  assert (Hparams : lacks "$" params).
  { unfold params. repeat first [rewrite lacks_app | rewrite lacks_String].
    split_and!; try (apply Hdig; [by_decision|lia]); by_decision. }
  match goal with |- context [Split "$" ?s] =>
    replace s with ("" +:+ String "$" ("argon2id" +:+ String "$" (("v=" +:+ pretty argon2_Version) +:+
      String "$" (params +:+ String "$" (encode base64_std salt +:+ String "$" (encode base64_std hash))))))
      by (unfold params; by rewrite !str_app_assoc, !str_app_cons, !str_app_assoc, !str_app_cons, !str_app_assoc) end.
  rewrite !Split_cut, Split_last by (done || by_decision).
  rewrite String.eqb_refl. cbn [negb].
  replace (scan_version ("v=" +:+ pretty argon2_Version)) with (Some argon2_Version) by (vm_compute; done).
  rewrite Z.eqb_refl. cbn [negb]. rewrite !decode_encode by apply _.
  assert (param_kvs (Split "," params) (mkParams 0 0 0) = Ok p) as ->; [|done].
  unfold params.
  replace (_ +:+ pretty (pa_MemoryKiB p) +:+ _) with
    (("m" +:+ String "=" (pretty (pa_MemoryKiB p))) +:+ String "," (("t" +:+ String "=" (pretty (pa_Time p))) +:+
      String "," ("p" +:+ String "=" (pretty (pa_Parallelism p))))) by done.
  assert (Hc : forall k z, lacks "," k -> 0 <= z -> lacks "," (k +:+ String "=" (pretty z))).
  { intros k z Hk Hz. apply lacks_app. split; [done|]. apply lacks_String. split; [done|].
    apply Hdig; [by_decision|done]. }
  rewrite !Split_cut, Split_last by (apply Hc; [by_decision|lia]). cbn [param_kvs].
  rewrite !param_kv_print by (lia || by_decision). cbn [String.eqb Ascii.eqb Bool.eqb mbind result_bind].
  rewrite param_kv_print by (lia || by_decision). cbn [String.eqb Ascii.eqb Bool.eqb mbind result_bind].
  rewrite param_kv_print by (lia || by_decision). cbn. rewrite Z.mod_small by lia. by destruct p.
Qed.

(** Operations of the store for one user. *)
Inductive password_op :=
  | OpSet (params : Argon2idParams) (salt : result string string) (now : Z) (fault : option string)
      (userSlug plaintext setBy : string)
  | OpBootstrap (now : Z) (fault : option string) (userSlug encoded setBy : string)
  | OpDelete (fault : option string) (userSlug : string).

Definition password_step (t : PasswordTable) (o : password_op) : PasswordTable :=
  match o with
  | OpSet params salt now fault u p by_ => (Set_ params salt now fault u p by_ t).1
  | OpBootstrap now fault u enc by_ => (BootstrapHash now fault u enc by_ t).1
  | OpDelete fault u => (Delete fault u t).1
  end.

(** [o] replaces or removes the password of [u]. *)
Definition overwrites (u : string) (o : password_op) : Prop :=
  match o with
  | OpSet _ (Ok _) _ None u' _ _ => u' = u
  | OpDelete None u' => u' = u
  | _ => False
  end.

Lemma password_step_keeps t o u r :
  t !! u = Some r -> ~ overwrites u o -> password_step t o !! u = Some r.
Proof.
  intros Hr Ho. destruct o as [params salt now fault u' p by_|now fault u' enc by_|fault u']; cbn [password_step overwrites] in *.
  - unfold Set_, encode_password. destruct salt as [salt|]; cbn [mbind result_bind]; [|done].
    destruct fault; [done|]. cbn [fst]. by rewrite lookup_insert_ne.
  - unfold BootstrapHash. destruct (decode_hash enc); [|done]. destruct fault; [done|].
    destruct (t !! u') eqn:Hu; [done|]. cbn [fst]. rewrite lookup_insert_ne; congruence.
  - unfold Delete. destruct fault; [done|]. cbn [fst]. by rewrite lookup_delete_ne.
Qed.

Context (IDKey_length : forall pw salt t m p n, 0 <= n < 2 ^ 32 ->
  Z.of_nat (String.length (IDKey pw salt t m p n)) = n).

Lemma Set_Verify params params' salt now u plaintext setBy t ops candidate :
  wf_params params -> Forall (fun o => ~ overwrites u o) ops ->
  let '(t1, err) := Set_ params (Ok salt) now None u plaintext setBy t in
  err = None /\
  Verify params' None u candidate (foldl password_step t1 ops) =
    (if String.eqb (derive params candidate salt 32) (derive params plaintext salt 32)
     then Ok (true, negb (bool_decide (params = params'))) else Ok (false, false)).
Proof.
  intros Hwf HF. unfold Set_, encode_password. cbn [mbind result_bind]. split; [done|].
  set (r := mkPasswordRow _ _ _).
  assert (Hr : foldl password_step (<[u := r]> t) ops !! u = Some r).
  { assert (Hg : <[u := r]> t !! u = Some r) by apply lookup_insert_eq. revert Hg.
    generalize (<[u := r]> t). induction HF as [|o ops Ho HF IH]; intros t0 Ht0; [done|].
    cbn [foldl]. by apply IH, password_step_keeps. }
  unfold Verify. rewrite Hr. cbn [pw_hash r]. rewrite decode_format by done. cbn [mbind result_bind ps_params ps_salt ps_hash].
  assert (Z.of_nat (String.length (derive params plaintext salt 32)) `mod` 2 ^ 32 = 32) as ->
    by (unfold derive; by rewrite IDKey_length).
  by destruct (String.eqb _ _).
Qed.

(** A password that was set is the one that verifies: after [Set], and until
    the password is set again or deleted (bootstrap hashes of the configuration
    never replace it), [Verify] accepts exactly the plaintexts whose Argon2id
    key under the stored salt and parameters is the stored key, so the one that
    was set in particular; and it asks for a rehash exactly when the store's
    parameters have changed. *)
Theorem password_set_verify params params' salt now u plaintext setBy t ops candidate :
  wf_params params -> Forall (fun o => ~ overwrites u o) ops ->
  let '(t1, err) := Set_ params (Ok salt) now None u plaintext setBy t in
  err = None /\
  Verify params' None u candidate (foldl password_step t1 ops) =
    (if String.eqb (derive params candidate salt 32) (derive params plaintext salt 32)
     then Ok (true, negb (bool_decide (params = params'))) else Ok (false, false)).
Proof. apply Set_Verify. Qed.
End Passwords.

(** ** A password at work *)

Module PasswordDemo.
(** A stand-in for the key derivation with the right length. *)
Fixpoint pad (n : nat) (s : string) : string :=
  match n with
  | O => EmptyString
  | S n' => match s with EmptyString => String "0" (pad n' EmptyString) | String c s' => String c (pad n' s') end
  end.
Definition key (pw salt : string) (t m p n : Z) : string := pad (Z.to_nat n) (pw +:+ salt).

Lemma pad_length n s : String.length (pad n s) = n.
Proof. revert s. induction n as [|n IH]; intros s; [done|]. destruct s; cbn [pad String.length]; by rewrite IH. Qed.

Lemma key_length pw salt t m p n : 0 <= n < 2 ^ 32 -> Z.of_nat (String.length (key pw salt t m p n)) = n.
Proof. intros Hn. unfold key. rewrite pad_length. lia. Qed.

Lemma password_set_verify_witness :
  Verify key DefaultArgon2idParams None "ann" "correct horse"
    (Set_ key DefaultArgon2idParams (Ok "0123456789abcdef") 0 None "ann" "correct horse" "self" ∅).1 =
  Ok (true, false).
Proof.
  assert (wf_params DefaultArgon2idParams) as Hwf by (split_and!; done).
  pose proof (password_set_verify key key_length DefaultArgon2idParams DefaultArgon2idParams
    "0123456789abcdef" 0 "ann" "correct horse" "self" ∅ [] "correct horse" Hwf (Forall_nil_2 _)) as H.
  destruct (Set_ key DefaultArgon2idParams (Ok "0123456789abcdef") 0 None "ann" "correct horse" "self" ∅) as [t1 err].
  destruct H as [_ H]. cbn [foldl fst] in *. rewrite H. rewrite String.eqb_refl. reflexivity.
Defined.
End PasswordDemo.
