(* ===== verification/DaemonReload.v ===== *)
(** * What the daemon does with an applied configuration

    Models the hook that [Run] of [internal/daemon/daemon.go] registers with
    [OnApplied], with [area_sync.go], [auth_config.go] and
    [compilePolicyFromSnapshot] of [api_adapters.go]: one applied snapshot goes to
    the registry's areas, the users and their passwords, the scripts, the
    automations and the policy, in this order.

    [reload_exact]: how far an applied snapshot gets.
    [daemon_policy_grants_nothing], [daemon_policy_rejects_services],
    [daemon_policy_areas_empty]: what is left of the configured policies. *)

From Stdlib Require Import SpecFloat.
From S2P Require Import Prelude Registry ConfigDecode Config Script Identity Passwords Policy PolicyFacts AuthorizeFacts.

(** ** The access part of a snapshot *)

(** [RoleConfig]; of the roles it inherits only the slugs are read. *)
Record RoleConfig := mkRoleConfig { rc_Slug : string; rc_Inherits : list string }.

Record UserConfig := mkUserConfig {
  uc_Slug : string; uc_DisplayName : string; uc_Active : bool; uc_PasswordAllowed : bool; uc_PasskeyAllowed : bool;
  uc_BootstrapPasswordHash : string; uc_Roles : list RoleConfig;
}.

(** [EntitySelector] of a rule: areas, classes and entity ids. *)
Record RuleTargets := mkRuleTargets { rt_Areas : list string; rt_Classes : list string; rt_EntityIds : list string }.
Record CapabilityRule := mkCapabilityRule {
  cr_Verbs : list string; cr_Services : list string; cr_Targets : option RuleTargets;
}.
Record PolicyConfig := mkPolicyConfig {
  pc_Name : string; pc_Subjects : list RoleConfig; pc_Allow : list CapabilityRule; pc_Deny : list CapabilityRule;
}.

(** The snapshot with its users, roles and policies. *)
Record FullSnapshot := mkFullSnapshot {
  base_of : ConfigSnapshot; Users : list UserConfig; RoleConfigs : list RoleConfig; Policies : list PolicyConfig;
}.

(** ** Areas *)

Definition toArea (a : AreaConfig) : Area := mkArea (area_Id a) (area_DisplayName a) (area_ParentId a).

Definition syncAreasToRegistry (snap : ConfigSnapshot) (st : AreaState) : AreaState :=
  SetEntityAreas (Some (EntityAreas snap)) (SetAreas (toArea <$> Areas snap) st).

(** ** Users *)

Definition toUser (u : UserConfig) : User :=
  mkUser (uc_Slug u) (uc_DisplayName u) (uc_Active u) (uc_PasswordAllowed u) (uc_PasskeyAllowed u)
    (rc_Slug <$> uc_Roles u).

(** One call of the hook: the database's faults, the clock, the order in which Go
    ranges over the roles, and the snapshot. *)
Record Applied := mkApplied {
  ap_users_fault : SnapshotFaults; ap_password_fault : string -> option string; ap_now : Z;
  ap_order : list string; ap_snap : FullSnapshot;
}.

(** The loop over the bootstrap hashes. *)
Fixpoint bootstrap (fault : string -> option string) (now : Z) (users : list UserConfig) (t : gmap string PasswordRow) :
    gmap string PasswordRow * option string :=
  match users with
  | [] => (t, None)
  | u :: rest =>
      if is_empty (uc_BootstrapPasswordHash u) then bootstrap fault now rest t
      else match BootstrapHash now (fault (uc_Slug u)) (uc_Slug u) (uc_BootstrapPasswordHash u) "system:bootstrap" t with
           | (t', None) => bootstrap fault now rest t'
           | (t', Some msg) => (t', Some ("bootstrap password for " +:+ uc_Slug u +:+ ": " +:+ msg))
           end
  end.

Definition applyAuthSnapshot (a : Applied) (db : AuthDB) (t : gmap string PasswordRow) :
    AuthDB * gmap string PasswordRow * option string :=
  let users := Users (ap_snap a) in
  match ApplySnapshot (ap_users_fault a) (toUser <$> users) db with
  | (db', Some msg) => (db', t, Some msg)
  | (db', None) => let '(t', e) := bootstrap (ap_password_fault a) (ap_now a) users t in (db', t', e)
  end.

(** ** Policies *)

Definition protoRuleToRaw (r : CapabilityRule) : RawRule :=
  mkRawRule (cr_Verbs r)
    (match cr_Targets r with
     | Some t => mkRawSelector (rt_Areas t) (rt_Classes t) (rt_EntityIds t) false
     | None => mkRawSelector [] [] [] false
     end)
    (cr_Services r).

Definition toRawPolicy (p : PolicyConfig) : RawPolicy :=
  mkRawPolicy (pc_Name p) (rc_Slug <$> pc_Subjects p) (protoRuleToRaw <$> pc_Allow p) (protoRuleToRaw <$> pc_Deny p).

Definition role_graph (roles : list RoleConfig) : gmap string (list string) :=
  foldl (fun g r => <[rc_Slug r := rc_Inherits r]> g) ∅ roles.

Section Hook.
Context (sha256_hex : string -> string).
Context (ParseFloat : string -> option spec_float) (ParseOnly : string -> bool -> option string).

(** The area tree and the catalog are empty, whatever the snapshot. *)
Definition compilePolicyFromSnapshot (order : list string) (generation : Z) (snap : option FullSnapshot) :
    Z * result compile_error Compiled :=
  match snap with
  | None => Compile sha256_hex [] ∅ [] [] generation [] ∅
  | Some s => Compile sha256_hex [] ∅ [] order generation (toRawPolicy <$> Policies s) (role_graph (RoleConfigs s))
  end.

(** ** The daemon's hook *)

(** What the hook updates; [da_automations] is the snapshot last handed to the
    automation engine, [da_generation] the policy package's counter. *)
Record Daemon := mkDaemon {
  da_areas : AreaState; da_users : AuthDB; da_passwords : gmap string PasswordRow;
  da_scripts : gmap string Script; da_automations : option ConfigSnapshot;
  da_policy : Runtime; da_generation : Z;
}.

(** The compiled policy replaces the old one when it compiles. *)
Definition replace_policy (order : list string) (snap : option FullSnapshot) (r : Runtime) (generation : Z) : Runtime * Z :=
  match compilePolicyFromSnapshot order generation snap with
  | (generation', Ok c) => ((Replace c r).1, generation')
  | (generation', Err _) => (r, generation')
  end.

Definition on_applied (d : Daemon) (a : Applied) : Daemon :=
  let snap := base_of (ap_snap a) in
  let areas := syncAreasToRegistry snap (da_areas d) in
  match applyAuthSnapshot a (da_users d) (da_passwords d) with
  | (users, passwords, Some _) =>
      mkDaemon areas users passwords (da_scripts d) (da_automations d) (da_policy d) (da_generation d)
  | (users, passwords, None) =>
      match Reload ParseFloat ParseOnly snap (da_scripts d) with
      | (scripts, Some _) =>
          mkDaemon areas users passwords scripts (da_automations d) (da_policy d) (da_generation d)
      | (scripts, None) =>
          let '(policy, generation) := replace_policy (ap_order a) (Some (ap_snap a)) (da_policy d) (da_generation d) in
          mkDaemon areas users passwords scripts (Some snap) policy generation
      end
  end.

(** ** How far a snapshot gets *)

(** Whether the users and the scripts of a snapshot are accepted: nothing of the
    daemon's state decides it. *)
Definition hash_accepted (a : Applied) (u : UserConfig) : bool :=
  is_empty (uc_BootstrapPasswordHash u) ||
  match decode_hash (uc_BootstrapPasswordHash u) with
  | Ok _ => bool_decide (ap_password_fault a (uc_Slug u) = None)
  | Err _ => false
  end.
Definition users_accepted (a : Applied) : bool :=
  bool_decide ((ApplySnapshot (ap_users_fault a) (toUser <$> Users (ap_snap a)) (mkAuthDB ∅ ∅)).2 = None) &&
  forallb (hash_accepted a) (Users (ap_snap a)).
Definition accepted (a : Applied) : bool :=
  users_accepted a &&
  match CompileScripts ParseFloat ParseOnly (base_of (ap_snap a)) with Ok _ => true | Err _ => false end.

Lemma ApplySnapshot_outcome f users db db' : (ApplySnapshot f users db).2 = (ApplySnapshot f users db').2.
Proof.
  unfold ApplySnapshot. destruct (sn_begin f), (sn_exec f 0), (sn_exec f 1); try done.
  destruct (insert_users f 2 users _) as [[]|]; [|done]. by destruct (sn_commit f).
Qed.

Lemma bootstrap_outcome a users t :
  (bootstrap (ap_password_fault a) (ap_now a) users t).2 = None <-> forallb (hash_accepted a) users = true.
Proof.
  revert t. induction users as [|u users IH]; intros t; [done|]. cbn [bootstrap forallb]. rewrite andb_true_iff.
  unfold hash_accepted at 1. destruct (is_empty _); [cbn [orb]; rewrite IH; naive_solver|]. cbn [orb].
  unfold BootstrapHash. destruct (decode_hash _); [|naive_solver].
  destruct (ap_password_fault a (uc_Slug u)) as [msg|] eqn:Hf.
  - rewrite bool_decide_false by done. naive_solver.
  - rewrite bool_decide_true by done. destruct (t !! uc_Slug u); rewrite IH; naive_solver.
Qed.

Lemma applyAuthSnapshot_outcome a db t : (applyAuthSnapshot a db t).2 = None <-> users_accepted a = true.
Proof.
  unfold applyAuthSnapshot, users_accepted. rewrite andb_true_iff, bool_decide_eq_true.
  rewrite (ApplySnapshot_outcome _ _ _ db), <- (bootstrap_outcome a _ t).
  destruct (ApplySnapshot _ _ db) as [db' [msg|]]; cbn [snd]; [naive_solver|].
  destruct (bootstrap _ _ _ t) as [t' e]. naive_solver.
Qed.

Lemma on_applied_accepted d a :
  accepted a = true ->
  CompileScripts ParseFloat ParseOnly (base_of (ap_snap a)) = Ok (da_scripts (on_applied d a)) /\
  da_automations (on_applied d a) = Some (base_of (ap_snap a)) /\
  (da_policy (on_applied d a), da_generation (on_applied d a)) =
    replace_policy (ap_order a) (Some (ap_snap a)) (da_policy d) (da_generation d).
Proof.
  unfold accepted. rewrite andb_true_iff. intros [Hu Hs].
  rewrite <- (applyAuthSnapshot_outcome a (da_users d) (da_passwords d)) in Hu. unfold on_applied, Reload.
  destruct (applyAuthSnapshot _ _ _) as [[users pws] e]. cbn [snd] in Hu. subst e.
  destruct (CompileScripts _ _ _) as [m|]; [|done]. by destruct (replace_policy _ _ _ _).
Qed.

Lemma on_applied_rejected d a :
  accepted a = false ->
  da_scripts (on_applied d a) = da_scripts d /\ da_automations (on_applied d a) = da_automations d /\
  da_policy (on_applied d a) = da_policy d /\ da_generation (on_applied d a) = da_generation d.
Proof.
  unfold accepted. rewrite andb_false_iff. intros Ha. unfold on_applied, Reload.
  pose proof (applyAuthSnapshot_outcome a (da_users d) (da_passwords d)) as Hu.
  destruct (applyAuthSnapshot _ _ _) as [[users pws] [msg|]]; [done|]. cbn [snd] in Hu.
  destruct Ha as [Ha|Ha]; [rewrite Ha in Hu; naive_solver|]. by destruct (CompileScripts _ _ _).
Qed.

Lemma on_applied_areas d a st : da_areas (on_applied d a) = syncAreasToRegistry (base_of (ap_snap a)) st.
Proof.
  unfold on_applied. destruct (applyAuthSnapshot _ _ _) as [[users pws] [msg|]]; [done|].
  destruct (Reload _ _ _ _) as [scripts [errs|]]; [done|]. by destruct (replace_policy _ _ _ _).
Qed.

(** After any sequence of applied snapshots, the areas are those of the last
    one, while the scripts and the automations are those of the last one whose
    users and scripts were accepted, or those of the start if there was none, in
    which case the policy is also the one of the start: a snapshot with one bad
    user, password hash or script changes the areas but leaves the automations,
    the scripts and the policy of an earlier snapshot in force. *)
Theorem reload_history d hist :
  let d' := foldl on_applied d hist in
  match last (filter (fun a => accepted a = true) hist) with
  | Some a => CompileScripts ParseFloat ParseOnly (base_of (ap_snap a)) = Ok (da_scripts d') /\
              da_automations d' = Some (base_of (ap_snap a))
  | None => da_scripts d' = da_scripts d /\ da_automations d' = da_automations d /\ da_policy d' = da_policy d
  end /\
  match last hist with
  | Some a => da_areas d' = syncAreasToRegistry (base_of (ap_snap a)) (da_areas d)
  | None => da_areas d' = da_areas d
  end.
Proof.
  induction hist as [|a hist IH] using rev_ind; [done|]. cbn zeta in *. rewrite foldl_app, filter_app, filter_cons, filter_nil, last_snoc.
  cbn [foldl]. split; [|apply on_applied_areas]. destruct IH as [IH _]. destruct (accepted a) eqn:Ha.
  - rewrite decide_True, last_snoc by done. apply (on_applied_accepted (foldl on_applied d hist)) in Ha as (Hs & Hm & _). by split.
  - rewrite decide_False, app_nil_r by done. apply (on_applied_rejected (foldl on_applied d hist)) in Ha as (-> & -> & -> & _).
    exact IH.
Qed.

(** ** What is left of the policies *)

Lemma foldM_keeps {A} (f : Compiled -> A -> result compile_error Compiled) (P : Compiled -> Prop) l :
  (forall c x c', x ∈ l -> P c -> f c x = Ok c' -> P c') -> forall c c', P c -> foldM f c l = Ok c' -> P c'.
Proof.
  induction l as [|x l IH]; intros Hf c c' Hc; cbn [foldM]; [by intros [= <-]|].
  destruct (f c x) as [c1|] eqn:Hx; [|done]. apply IH; [|eapply Hf; [by left|done|done]].
  intros c2 y c3 Hy. apply Hf. by right.
Qed.

Lemma foldM_each {A} (f : Compiled -> A -> result compile_error Compiled) l x c c' :
  foldM f c l = Ok c' -> x ∈ l -> exists c1 c2, f c1 x = Ok c2.
Proof.
  revert c. induction l as [|y l IH]; intros c; [by intros _ ?%not_elem_of_nil|]. cbn [foldM].
  destruct (f c y) as [c1|] eqn:Hy; [|done]. intros Hf [-> |Hx]%elem_of_cons; [by eauto|by eapply IH].
Qed.

(** A rule compiled without a catalog names no service, and has no area without
    an area tree. *)
Definition bare (r : CompiledRule) : Prop := Services r = ∅ /\ AreaSet (Targets r) = ∅.
Definition bare_compiled (c : Compiled) : Prop :=
  ActionAllowlist c = ∅ /\ (forall role r, r ∈ rules_of (AllowRules c) role ++ rules_of (DenyRules c) role -> bare r) /\
  (forall k e, AreaExpansion c !! k = Some e -> e = ∅).

Lemma ExpandAreas_empty decls : ExpandAreas [] ∅ decls = ∅.
Proof.
  unfold ExpandAreas. assert (H : forall X : str_set, X = ∅ -> foldl (fun out d => if String.eqb d "*"
    then foldl (fun o slug => walkDescendants (walk_fuel ∅) ∅ slug o) out []
    else match (∅ : AreaTree) !! d with None => out | Some _ => walkDescendants (walk_fuel ∅) ∅ d out end) X decls = ∅).
  { induction decls as [|d decls IH]; intros X HX; [done|]. cbn [foldl]. apply IH. destruct (String.eqb d "*"); [done|].
    by rewrite lookup_empty. }
  by apply H.
Qed.

Lemma compileRule_bare name rr sink isDeny cr sink' :
  (forall k e, sink !! k = Some e -> e = ∅) ->
  compileRule sha256_hex [] ∅ [] name rr sink isDeny = Ok (cr, sink') ->
  bare cr /\ RServices rr = [] /\ (forall k e, sink' !! k = Some e -> e = ∅).
Proof.
  intros Hs. unfold compileRule. destruct (RServices rr) as [|s l] eqn:Hl; [|done]. cbn [check_services].
  rewrite (bool_decide_true ([] = [])) by done. rewrite andb_false_r. cbn [andb].
  unfold compileSelector. destruct (RMatchAny (RTargets rr)); [intros [= <- <-]; by split|].
  destruct (sink !! _) as [e|] eqn:He.
  - intros [= <- <-]. split; [|by split]. split; [done|]. cbn. by eapply Hs.
  - intros [= <- <-]. rewrite ExpandAreas_empty. split; [done|]. split; [done|]. intros k e Hk.
    apply lookup_insert_Some in Hk as [[_ <-]|[_ Hk]]; [done|by eapply Hs].
Qed.

Lemma allowlist_empty role rr m : addToActionAllowlist [] role rr m = m.
Proof. done. Qed.

Lemma rules_snoc_bare m role cr r x :
  bare cr -> (x ∈ rules_of m r -> bare x) -> x ∈ rules_of (<[role := rules_of m role ++ [cr]]> m) r -> bare x.
Proof.
  intros Hc Hm. rewrite rules_of_insert, elem_of_app. intros [H|H]; [by apply Hm|].
  case_decide; [|by apply not_elem_of_nil in H]. by apply list_elem_of_singleton in H as ->.
Qed.

Lemma add_allow_bare name role c rr c' :
  bare_compiled c -> add_allow sha256_hex [] ∅ [] name role c rr = Ok c' -> bare_compiled c'.
Proof.
  clear ParseFloat ParseOnly. intros (Ha & Hr & He). unfold add_allow. destruct (compileRule _ _ _ _ _ _ _ _) as [[cr sink']|] eqn:Hcr; [|done].
  intros [= <-]. apply compileRule_bare in Hcr as (Hb & _ & Hs); [|done]. split_and!; [done| |done].
  intros r x. cbn [AllowRules DenyRules]. rewrite elem_of_app. intros [H|H]; [|apply (Hr r); set_solver].
  eapply rules_snoc_bare; [exact Hb| |exact H]. intros Hx. apply (Hr r). set_solver.
Qed.

Lemma add_deny_bare name role c rr c' :
  bare_compiled c -> add_deny sha256_hex [] ∅ [] name role c rr = Ok c' -> bare_compiled c'.
Proof.
  clear ParseFloat ParseOnly. intros (Ha & Hr & He). unfold add_deny. destruct (compileRule _ _ _ _ _ _ _ _) as [[cr sink']|] eqn:Hcr; [|done].
  intros [= <-]. apply compileRule_bare in Hcr as (Hb & _ & Hs); [|done]. split_and!; [done| |done].
  intros r x. cbn [AllowRules DenyRules]. rewrite elem_of_app. intros [H|H]; [apply (Hr r); set_solver|].
  eapply rules_snoc_bare; [exact Hb| |exact H]. intros Hx. apply (Hr r). set_solver.
Qed.

Lemma compile_bare order generation snap generation' c :
  compilePolicyFromSnapshot order generation snap = (generation', Ok c) -> bare_compiled c.
Proof.
  assert (H : forall order raw roles, Compile sha256_hex [] ∅ [] order generation raw roles = (generation', Ok c) -> bare_compiled c).
  { clear. intros order raw roles. unfold Compile. destruct (resolveRoleInheritance _ _) as [inh|]; [|done]. intros [= _ Hf].
    eapply foldM_keeps; [| |exact Hf].
    - intros c1 rp c2 _ Hc1. apply foldM_keeps; [|done]. intros c3 role c4 _ Hc3. unfold add_subject.
      destruct (foldM _ c3 (Allow rp)) as [c5|] eqn:Ha; [|done].
      apply foldM_keeps; [intros c6 rr c7 _; apply add_deny_bare|].
      eapply foldM_keeps; [intros c6 rr c7 _; apply add_allow_bare|exact Hc3|exact Ha].
    - split_and!; [done| |intros k e; cbn; by rewrite lookup_empty].
      intros role r. unfold rules_of. cbn. rewrite !lookup_empty. cbn. by intros ?%not_elem_of_nil. }
  destruct snap; apply H.
Qed.

(** The runtime holds no policy or a bare one. *)
Definition bare_runtime (r : Runtime) : Prop := forall c, rt_compiled r = Some c -> bare_compiled c.

Lemma on_applied_bare d a : bare_runtime (da_policy d) -> bare_runtime (da_policy (on_applied d a)).
Proof.
  intros Hd. destruct (accepted a) eqn:Ha.
  - apply (on_applied_accepted d) in Ha as (_ & _ & Hp). unfold replace_policy in Hp.
    destruct (compilePolicyFromSnapshot _ _ _) as [g [c|e]] eqn:Hc; injection Hp as -> _; [|done].
    intros c'. cbn. intros [= <-]. by eapply compile_bare.
  - apply (on_applied_rejected d) in Ha as (_ & _ & -> & _). done.
Qed.

(** The daemon's policy permits nothing: it is compiled against an empty
    catalog, so that after any sequence of applied snapshots and whatever their
    policies, [Authorize] refuses every action on every target to every
    principal that is not the system, by ["no_policy"] or ["action_denied"]. *)
Theorem daemon_policy_grants_nothing roles d hist scope p a t :
  da_policy d = NewRuntime roles -> PrKind p <> "system" ->
  let r := da_policy (foldl on_applied d hist) in
  Authorize r scope p a t =
    Some (mkErrForbidden (match rt_compiled r with None => "no_policy" | Some _ => "action_denied" end) "").
Proof.
  intros Hd Hp r. assert (Hb : bare_runtime r).
  { unfold r. assert (H0 : bare_runtime (da_policy d)) by (by rewrite Hd). clear -H0.
    revert d H0. induction hist as [|x hist IH]; intros d H0; [done|]. cbn [foldl]. apply IH. by apply on_applied_bare. }
  unfold Authorize. destruct (String.eqb_spec (PrKind p) "system"); [done|].
  destruct (rt_compiled r) as [c|] eqn:Hc; [|done]. destruct (Hb c Hc) as (Ha & _ & _).
  assert (existsb (fun role => permitsAction (Some c) role (AcVerb a) (MakeActionKey (AcService a) (AcMethod a))) (rt_roles r p) = false) as ->; [|done].
  apply not_true_iff_false. rewrite existsb_elem. intros (role & _ & H). unfold permitsAction in H. by rewrite Ha, lookup_empty in H.
Qed.

(** A snapshot with a policy that names a service for some subject never
    replaces the policy in force: the compiler knows no service. *)
Theorem daemon_policy_rejects_services order snap p rule r generation :
  p ∈ Policies snap -> pc_Subjects p <> [] -> rule ∈ pc_Allow p ++ pc_Deny p -> cr_Services rule <> [] ->
  (replace_policy order (Some snap) r generation).1 = r.
Proof.
  intros Hp Hsub Hr Hne. unfold replace_policy. destruct (compilePolicyFromSnapshot _ _ _) as [g [c|]] eqn:Hc; [|done]. exfalso.
  cbn [compilePolicyFromSnapshot] in Hc. unfold Compile in Hc. destruct (resolveRoleInheritance _ _) as [inh|]; [|done].
  injection Hc as _ Hf. destruct (pc_Subjects p) as [|role roles] eqn:Hs; [done|].
  apply (foldM_each _ _ (toRawPolicy p)) in Hf as (c1 & c2 & Hf); [|by apply list_elem_of_fmap_2].
  apply (foldM_each _ _ (rc_Slug role)) in Hf as (c3 & c4 & Hf); [|cbn; rewrite Hs; by left].
  unfold add_subject in Hf. destruct (foldM _ c3 _) as [c5|] eqn:Ha; [|done].
  assert (exists isDeny sink, is_ok (compileRule sha256_hex [] ∅ [] (pc_Name p) (protoRuleToRaw rule) sink isDeny)) as (b & sink & Hok).
  { apply elem_of_app in Hr as [Hr|Hr].
    - apply (foldM_each _ _ (protoRuleToRaw rule)) in Ha as (c6 & c7 & Ha); [|by apply list_elem_of_fmap_2].
      exists false, (AreaExpansion c6). unfold add_allow in Ha. by destruct (compileRule _ _ _ _ _ _ _ _).
    - apply (foldM_each _ _ (protoRuleToRaw rule)) in Hf as (c6 & c7 & Hf); [|by apply list_elem_of_fmap_2].
      exists true, (AreaExpansion c6). unfold add_deny in Hf. by destruct (compileRule _ _ _ _ _ _ _ _). }
  unfold compileRule in Hok. cbn [protoRuleToRaw RServices] in Hok. by destruct (cr_Services rule).
Qed.

End Hook.

(** ** On a small configuration *)

Module ReloadDemo.

Definition sha (s : string) : string := s.
Definition no_float (_ : string) : option spec_float := None.
Definition parses (_ : string) (_ : bool) : option string := None.
Definition member : RoleConfig := mkRoleConfig "member" [].
Definition ann : UserConfig := mkUserConfig "ann" "Ann" true true true "" [member].
Definition everything : CapabilityRule := mkCapabilityRule [] [] (Some (mkRuleTargets ["*"] [] [])).
Definition calls : CapabilityRule := mkCapabilityRule ["call"] ["EntityService"] (Some (mkRuleTargets [] ["light"] [])).

Definition snap_of (scripts : list ScriptConfig) (areas : list AreaConfig) (rules : list CapabilityRule) : FullSnapshot :=
  mkFullSnapshot (mkSnapshot 0 [] [] [] [] scripts areas ∅ []) [ann] [member] [mkPolicyConfig "family" [member] rules []].
Definition apply (s : FullSnapshot) : Applied := mkApplied no_snapshot_faults (fun _ => None) 0 ["member"] s.

Definition first : Applied := apply (snap_of [] [] [everything]).
(** The second adds an area and a script without a name. *)
Definition second : Applied := apply (snap_of [mkScriptConfig "" [] ""] [mkAreaConfig "attic" "Attic" ""] [everything]).

Definition start : Daemon :=
  mkDaemon (mkAreaState ∅ ∅) (mkAuthDB ∅ ∅) ∅ ∅ None (NewRuntime (fun _ => ["member"])) 0.
Definition after : Daemon := foldl (on_applied sha no_float parses) start [first; second].

Lemma daemon_policy_grants_nothing_witness :
  is_Some (rt_compiled (da_policy after)) /\
  Reason <$> Authorize (da_policy after) None (mkPrincipal "user:ann" "user") (mkAction "EntityService" "Get" "read")
    (mkAuthTarget "entity" "light.lamp" "" "light" None) = Some "action_denied".
Proof.
  split; [eexists; vm_compute; reflexivity|].
  rewrite (daemon_policy_grants_nothing sha no_float parses (fun _ => ["member"]) start [first; second]);
    [vm_compute; reflexivity | reflexivity | cbn; congruence].
Defined.

Lemma daemon_policy_rejects_services_witness :
  replace_policy sha ["member"] (Some (snap_of [] [] [calls])) (da_policy start) 0 = (da_policy start, 1).
Proof.
  rewrite (surjective_pairing (replace_policy _ _ _ _ _)).
  rewrite (daemon_policy_rejects_services sha ["member"] (snap_of [] [] [calls]) (mkPolicyConfig "family" [member] [calls] []) calls);
    [vm_compute; reflexivity | by left | done | by left | done].
Defined.

(** The area of the second snapshot is there, its automations are not. *)
Example script_error_keeps_automations :
  accepted no_float parses second = false /\ da_automations after = Some (base_of (ap_snap first)) /\
  areas (da_areas after) !! "attic" = Some (mkArea "attic" "Attic" "").
Proof. split_and!; vm_compute; reflexivity. Qed.

End ReloadDemo.
