(* ===== verification/Authn.v ===== *)
(** * Authentication and authorization of a call

    Models the way of a call through the daemon's gate: the authenticators of
    [internal/auth] ([local.go], [reject.go]) and [internal/auth/authn]
    ([bearer.go], [cookie.go], [wire.go]), the authenticate interceptor of
    [internal/api/interceptor_authn.go] with its cache of token scopes, the
    authorize interceptor of [internal/api/interceptor_authz.go], and the role
    adapter of [internal/daemon/api_adapters.go]. It composes the stores of
    [Tokens], [Sessions] and [Identity] with the policy runtime of [Policy] and
    the scopes of [TokenScope]. Audit records and metrics are left out. *)

From S2P Require Import Prelude Codec Policy PolicyFacts AuthorizeFacts TokenScope Tokens Sessions Identity.

(** ** Authenticators *)

Record PeerCred := mkPeerCred { Uid : Z; Gid : Z; Pid : Z }.

(** [auth.Request]: the header and the cookies that the authenticators read;
    [rq_HTTP] is [None] when there is no HTTP request. *)
Record Request := mkRequest {
  rq_Scheme : string;
  rq_Authorization : string;
  rq_PeerCred : option PeerCred;
  rq_HTTP : option (list (string * string));
}.

(** [auth.Principal]. *)
Record AuthPrincipal := mkAuthPrincipal {
  ap_ID : string;
  ap_DisplayName : string;
  ap_Kind : string;
  ap_Metadata : gmap string string;
}.

Inductive auth_error := ErrNotApplicable | ErrUnauthenticated | AuthOther (msg : string).

Definition Authenticator : Type := Request -> result auth_error AuthPrincipal.

Definition LocalPeerCred : Authenticator := fun req =>
  match rq_PeerCred req with
  | Some c =>
      if negb (String.eqb (rq_Scheme req) "uds:peercred") then Err ErrNotApplicable
      else Ok (mkAuthPrincipal "system:local" "local" "system"
                 (<["uid" := pretty (Uid c)]> (<["gid" := pretty (Gid c)]> {["pid" := pretty (Pid c)]})))
  | None => Err ErrNotApplicable
  end.

Definition RejectAll : Authenticator := fun _ => Err ErrUnauthenticated.

(** [chain.Authenticate]. *)
Fixpoint Chain (l : list Authenticator) : Authenticator := fun req =>
  match l with
  | [] => Err ErrUnauthenticated
  | a :: rest =>
      match a req with
      | Ok p => Ok p
      | Err ErrNotApplicable => Chain rest req
      | Err e => Err e
      end
  end.

(** What the authenticators read of the world: the time, the tables, and what
    each query returns. *)
Record World := mkWorld {
  w_now : Z;
  w_tokens : gmap string TokenRow;
  w_token_fault : option string;
  w_sessions : gmap string SessionRow;
  w_session_fault : option string;
  w_session_cfg : Config;
}.

Section Gate.
Context (sha256 : string -> string) (hmac : string -> string -> string).

Definition token_metadata (lk : Lookup_) : gmap string string :=
  let m : gmap string string := <["token_id" := lk_TokenID lk]> {["auth_method" := "token"]} in
  if (0 <? String.length (lk_Scope lk))%nat then <["token_scope" := encode_padded (lk_Scope lk)]> m else m.

Definition token_principal (lk : Lookup_) : AuthPrincipal :=
  mkAuthPrincipal ("user:" +:+ lk_UserSlug lk) (lk_UserSlug lk) "user" (token_metadata lk).

Definition Bearer (w : World) : Authenticator := fun req =>
  let h := rq_Authorization req in
  if negb (has_prefix h "Bearer ") then Err ErrNotApplicable
  else match Tokens.Verify sha256 (w_now w) (w_token_fault w) (trim_prefix h "Bearer ") (w_tokens w) with
  | Ok lk => Ok (token_principal lk)
  | Err (TokenDB msg) => Err (AuthOther msg)
  | Err _ => Err ErrUnauthenticated
  end.

Definition session_principal (p : SessionPrincipal) : AuthPrincipal :=
  mkAuthPrincipal ("user:" +:+ sp_UserSlug p) (sp_UserSlug p) "user"
    (<["session_id" := sp_SessionID p]> {["auth_method" := sp_AuthMethod p]}).

Definition SessionCookie (w : World) : Authenticator := fun req =>
  match rq_HTTP req with
  | None => Err ErrNotApplicable
  | Some cookies =>
      match Cookie cookies (cf_AccessName (w_session_cfg w)) with
      | None => Err ErrNotApplicable
      | Some _ =>
          match VerifyAccess hmac (w_session_cfg w) (w_now w) (w_session_fault w) cookies (w_sessions w) with
          | Ok p => Ok (session_principal p)
          | Err (SessionDB msg) => Err (AuthOther msg)
          | Err _ => Err ErrUnauthenticated
          end
      end
  end.

(** [authn.Build]; the daemon builds the same chain. *)
Definition Build (w : World) : Authenticator := Chain [LocalPeerCred; Bearer w; SessionCookie w; RejectAll].

(** ** The authenticate interceptor *)

Inductive gate_error := CodeUnauthenticated (msg : string) | CodeInternal (msg : string) | CodePermissionDenied (r : ErrForbidden).

(** What the interceptor puts into the context. *)
Record CallContext := mkCallContext {
  cx_principal : option AuthPrincipal;
  cx_scope : option CompiledTokenScope;
  cx_remote_addr : string;
}.

Definition isPublicAuthProcedure (procedure : string) : bool :=
  contains_eq ["/switchyard.v1alpha1.AuthService/Login"; "/switchyard.v1alpha1.AuthService/Refresh";
               "/switchyard.v1alpha1.AuthService/StartWebAuthnChallenge"] procedure.

Context (unmarshal : string -> result string TokenScopePB).

(** [decodeTokenScope], with the process-wide cache. *)
Definition decodeTokenScope (cache : gmap string CompiledTokenScope) (tokenID blob : string) :
    gmap string CompiledTokenScope * result string CompiledTokenScope :=
  if is_empty blob then (cache, Ok scope_zero)
  else
    let key := if is_empty tokenID then encode hex (sha256 blob) else tokenID in
    match cache !! key with
    | Some c => (cache, Ok c)
    | None =>
        match unmarshal blob with
        | Err msg => (cache, Err msg)
        | Ok pb =>
            match compileTokenScopePB (Some pb) with
            | Err _ => (cache, Err "invalid token scope")
            | Ok c => (<[key := c]> cache, Ok c)
            end
        end
    end.

Definition authenticate (w : World) (cache : gmap string CompiledTokenScope) (procedure remoteAddr : string)
    (authorization : string) (cookies : option (list (string * string))) (peerCred : option PeerCred) :
    gmap string CompiledTokenScope * result gate_error CallContext :=
  let scheme := match peerCred with Some _ => "uds:peercred" | None => "bearer" end in
  let req := mkRequest scheme authorization peerCred cookies in
  if isPublicAuthProcedure procedure then (cache, Ok (mkCallContext None None remoteAddr))
  else match Build w req with
  | Err ErrUnauthenticated => (cache, Err (CodeUnauthenticated "auth: unauthenticated"))
  | Err ErrNotApplicable => (cache, Err (CodeInternal "auth: not applicable to this request"))
  | Err (AuthOther msg) => (cache, Err (CodeInternal msg))
  | Ok p =>
      match ap_Metadata p !! "token_scope" with
      | None => (cache, Ok (mkCallContext (Some p) None remoteAddr))
      | Some enc =>
          match decode_padded enc with
          | None => (cache, Err (CodeUnauthenticated "invalid token scope"))
          | Some blob =>
              let '(cache', r) := decodeTokenScope cache (default "" (ap_Metadata p !! "token_id")) blob in
              match r with
              | Err _ => (cache', Err (CodeUnauthenticated "invalid token scope"))
              | Ok scope => (cache', Ok (mkCallContext (Some p) (Some scope) remoteAddr))
              end
          end
      end
  end.

(** ** The authorize interceptor *)

Context {Body : Type}.

(** [ProcedureCatalog.Resolve]. *)
Definition Catalog : Type := string -> Body -> option (Action * AuthTarget).

(** The zero principal stands for a context without one. *)
Definition policy_principal (p : option AuthPrincipal) : Principal :=
  match p with
  | Some p => mkPrincipal (ap_ID p) (ap_Kind p)
  | None => mkPrincipal "" ""
  end.

(** [authorize]; the body is [None] when a stream is opened, and [rt] and
    [catalog] are [None] for nil. *)
Definition authorize (rt : option Runtime) (catalog : option Catalog) (ctx : CallContext) (procedure : string)
    (body : option Body) : option gate_error :=
  let p := policy_principal (cx_principal ctx) in
  if String.eqb (PrKind p) "system" then None
  else match rt, catalog, body with
  | Some rt, Some cat, Some b =>
      match cat procedure b with
      | None => None
      | Some (a, t) =>
          match Authorize rt (cx_scope ctx) p a t with
          | None => None
          | Some e => Some (CodePermissionDenied e)
          end
      end
  | _, _, _ => None
  end.

(** The two interceptors in a row: the context the handler gets, or the error
    the caller gets. The daemon passes no catalog. *)
Definition gate (w : World) (rt : option Runtime) (catalog : option Catalog)
    (cache : gmap string CompiledTokenScope) (procedure remoteAddr authorization : string)
    (cookies : option (list (string * string))) (peerCred : option PeerCred) (body : option Body) :
    gmap string CompiledTokenScope * result gate_error CallContext :=
  let '(cache', r) := authenticate w cache procedure remoteAddr authorization cookies peerCred in
  match r with
  | Err e => (cache', Err e)
  | Ok ctx =>
      match authorize rt catalog ctx procedure body with
      | Some e => (cache', Err e)
      | None => (cache', Ok ctx)
      end
  end.

(** [roleAdapter.For]. *)
Definition roleAdapter_For (fault : option string) (d : AuthDB) (p : Principal) : list string :=
  match RolesFor fault (trim_prefix (PrID p) "user:") d with
  | Ok roles => roles
  | Err _ => []
  end.
End Gate.

(** ** Correctness of the gate

    Which calls pass the daemon's interceptors, with which principal and which
    token scope, and what does not depend on the cache of scopes. Also what the
    gate does not check when it is assembled without a catalog, and on streams. *)

Section GateFacts.
Context (sha256 : string -> string) (hmac : string -> string -> string).
Context (unmarshal : string -> result string TokenScopePB).
Context {Body : Type}.

(** ** The cache of token scopes *)

(** The scope a blob stands for; an empty blob is no restriction. *)
Definition scope_for (blob : string) (scope : option CompiledTokenScope) : Prop :=
  if is_empty blob then scope = None
  else exists pb c, unmarshal blob = Ok pb /\ compileTokenScopePB (Some pb) = Ok c /\ scope = Some c.

(** Every cached scope is the one of the token it is cached for. *)
Definition cache_ok (tokens : gmap string TokenRow) (cache : gmap string CompiledTokenScope) : Prop :=
  tokens !! "" = None /\
  forall id c, cache !! id = Some c -> exists r, tokens !! id = Some r /\ scope_for (tk_scope_blob r) (Some c).

Lemma cache_ok_empty : cache_ok ∅ ∅.
Proof. split; [apply lookup_empty|]. intros id c. by rewrite lookup_empty. Qed.

(** No operation on tokens disturbs the cache. *)
Lemma cache_ok_step tokens cache o :
  cache_ok tokens cache -> (forall s n n' f i, o <> Tokens.OpIssue s "" n n' f i) ->
  cache_ok (token_step sha256 tokens o) cache.
Proof.
  intros [Hne Hc] Ho. split.
  - destruct o as [s id n n' fault i|n fault id|n fault id]; cbn [token_step].
    + unfold Tokens.Issue. destruct s as [s|]; [|done]. destruct fault as [f|]; [done|].
      destruct (tokens !! id); [done|]. cbn [fst].
      rewrite lookup_insert_ne; [done|]. intros ->. by apply (Ho (Ok s) n n' None i).
    + unfold Revoke. destruct fault; [done|]. by apply lookup_alter_None'.
    + unfold TouchLastUsed. destruct fault; [done|]. by apply lookup_alter_None'.
  - intros id c Hid. destruct (Hc id c Hid) as (r & Hr & Hs).
    destruct (token_step_row sha256 tokens o id r Hr) as (r' & Hr' & [= _ _ _ He _ _] & _).
    exists r'. split; [done|]. by rewrite <- He.
Qed.

Lemma decodeTokenScope_ok tokens cache id r :
  cache_ok tokens cache -> tokens !! id = Some r -> tk_scope_blob r <> "" ->
  let '(cache', res) := decodeTokenScope sha256 unmarshal cache id (tk_scope_blob r) in
  cache_ok tokens cache' /\
  (forall c, res = Ok c <-> scope_for (tk_scope_blob r) (Some c)).
Proof.
  intros [Hne Hc] Hr Hb. unfold decodeTokenScope, scope_for.
  assert (is_empty (tk_scope_blob r) = false) as Hbe by (by apply String.eqb_neq). rewrite Hbe.
  assert (is_empty id = false) as -> by (apply String.eqb_neq; intros ->; congruence).
  destruct (cache !! id) as [c0|] eqn:Hid.
  { split; [by split|]. intros c. destruct (Hc id c0 Hid) as (r' & Hr' & Hs).
    assert (r' = r) as -> by congruence. unfold scope_for in Hs. rewrite Hbe in Hs.
    destruct Hs as (pb & c1 & Hu & Hcp & [= ->]). split; [intros [= <-]; by exists pb, c1|].
    intros (pb' & c2 & Hu' & Hcp' & [= ->]). congruence. }
  destruct (unmarshal (tk_scope_blob r)) as [pb|msg] eqn:Hu.
  2:{ split; [by split|]. intros c. split; [done|]. by intros (? & ? & [=] & _). }
  destruct (compileTokenScopePB (Some pb)) as [c0|e] eqn:Hcp.
  2:{ split; [by split|]. intros c. split; [done|]. intros (pb' & ? & [= <-] & Hc' & _). congruence. }
  split.
  - split; [done|]. intros id' c'. rewrite lookup_insert_Some. intros [[<- <-]|[_ H]]; [|by apply Hc].
    exists r. split; [done|]. unfold scope_for. rewrite Hbe. by exists pb, c0.
  - intros c. split; [intros [= <-]; by exists pb, c0|]. intros (pb' & c2 & [= <-] & Hc' & [= ->]). congruence.
Qed.

(** ** Who the caller is *)

(** [p] is the caller of a request, and [blob] the scope of its credential. *)
Inductive caller (w : World) (authorization : string) (cookies : option (list (string * string)))
    (peerCred : option PeerCred) : AuthPrincipal -> string -> Prop :=
  | caller_local c p :
      peerCred = Some c -> LocalPeerCred (mkRequest "uds:peercred" authorization (Some c) cookies) = Ok p ->
      caller w authorization cookies peerCred p ""
  | caller_token plaintext lk :
      peerCred = None -> authorization = "Bearer " +:+ plaintext ->
      Tokens.Verify sha256 (w_now w) (w_token_fault w) plaintext (w_tokens w) = Ok lk ->
      caller w authorization cookies peerCred (token_principal lk) (lk_Scope lk)
  | caller_session ck sp :
      peerCred = None -> has_prefix authorization "Bearer " = false -> cookies = Some ck ->
      VerifyAccess hmac (w_session_cfg w) (w_now w) (w_session_fault w) ck (w_sessions w) = Ok sp ->
      caller w authorization cookies peerCred (session_principal sp) "".

Lemma VerifyAccess_has_cookie cfg now fault ck t sp :
  VerifyAccess hmac cfg now fault ck t = Ok sp -> is_Some (Cookie ck (cf_AccessName cfg)).
Proof. unfold VerifyAccess. destruct (Cookie ck (cf_AccessName cfg)); [by eexists|done]. Qed.

(** The chain finds exactly the caller. *)
Lemma Build_caller w authorization cookies peerCred p :
  let scheme := match peerCred with Some _ => "uds:peercred" | None => "bearer" end in
  Build sha256 hmac w (mkRequest scheme authorization peerCred cookies) = Ok p <->
  exists blob, caller w authorization cookies peerCred p blob.
Proof.
  unfold Build. cbn [Chain]. destruct peerCred as [c|].
  - cbn. split; [intros [= <-]; eexists; by eapply caller_local|].
    intros (blob & H). inversion H as [c' p' [= <-] HL|? ? [=]|? ? [=]]; subst. by cbn in HL.
  - cbn [LocalPeerCred rq_PeerCred]. unfold Bearer. cbn [rq_Authorization].
    destruct (has_prefix authorization "Bearer ") eqn:Hp; cbn [negb].
    + apply has_prefix_spec in Hp as [plaintext ->]. rewrite trim_prefix_app. split.
      * destruct (Tokens.Verify _ _ _ _ _) as [lk|[]] eqn:Hv; try done. intros [= <-].
        exists (lk_Scope lk). by eapply caller_token.
      * intros (blob & H). inversion H as [? ? [=]|pt lk _ Heq Hv|? ? _ Hn]; subst.
        -- apply (f_equal (fun s => trim_prefix s "Bearer ")) in Heq. rewrite !trim_prefix_app in Heq. subst pt.
           by rewrite Hv.
        -- rewrite (proj2 (has_prefix_spec _ _)) in Hn by (by exists plaintext). done.
    + unfold SessionCookie. cbn [rq_HTTP]. destruct cookies as [ck|].
      2:{ split; [done|]. intros (blob & H). inversion H as [? ? [=]|pt lk _ -> _|? ? _ _ [=]].
          rewrite (proj2 (has_prefix_spec _ _)) in Hp by (by exists pt). done. }
      split.
      * destruct (Cookie ck _) as [v|]; [|done].
        destruct (VerifyAccess _ _ _ _ _ _) as [sp|[]] eqn:Hv; try done. intros [= <-].
        exists "". by eapply caller_session.
      * intros (blob & H). inversion H as [? ? [=]|pt lk _ -> _|ck' sp _ _ [= <-] Hv]; subst.
        { rewrite (proj2 (has_prefix_spec _ _)) in Hp by (by exists pt). done. }
        destruct (VerifyAccess_has_cookie _ _ _ _ _ _ Hv) as [v ->]. by rewrite Hv.
Qed.

(** The scope in the principal's metadata is the credential's. *)
Lemma caller_metadata w a ck pc p blob :
  caller w a ck pc p blob ->
  ap_Metadata p !! "token_scope" = (if is_empty blob then None else Some (encode_padded blob)) /\
  (blob <> "" -> exists id r, ap_Metadata p !! "token_id" = Some id /\
     w_tokens w !! id = Some r /\ tk_scope_blob r = blob).
Proof.
  intros H. destruct H as [c p _ HL|plaintext lk _ _ Hv|ck1 sp _ _ _ _].
  - cbn in HL. injection HL as <-. split; [|done]. cbn [ap_Metadata]. by rewrite !lookup_insert_ne.
  - cbn [token_principal ap_Metadata]. unfold token_metadata, is_empty.
    assert (Hf : w_token_fault w = None).
    { destruct (w_token_fault w); [|done]. unfold Tokens.Verify in Hv. by repeat case_match. }
    rewrite Hf in Hv. apply Verify_parts in Hv as (id & secret & r & _ & Hr & _ & _ & _ & ->). cbn [lk_Scope lk_TokenID].
    destruct (tk_scope_blob r) as [|ch rest] eqn:Hb; cbn [String.length Nat.ltb Nat.leb String.eqb].
    + split; [|done]. by rewrite !lookup_insert_ne.
    + split; [by rewrite lookup_insert_eq|]. intros _. exists id, r.
      by rewrite lookup_insert_ne, lookup_insert_eq.
  - split; [|done]. cbn [session_principal ap_Metadata is_empty String.eqb]. by rewrite !lookup_insert_ne.
Qed.

Lemma caller_scope_det w a ck pc p b b' : caller w a ck pc p b -> caller w a ck pc p b' -> b = b'.
Proof.
  intros [H _]%caller_metadata [H' _]%caller_metadata. rewrite H in H'. clear H. unfold is_empty in H'.
  destruct (String.eqb_spec b ""), (String.eqb_spec b' ""); try congruence. injection H' as H'.
  apply (f_equal decode_padded) in H'. rewrite !decode_encode_padded in H'. congruence.
Qed.

(** ** The gate *)

(** Whether the authorize interceptor lets a caller through. *)
Definition permitted (rt : option Runtime) (catalog : option (Catalog (Body := Body))) (procedure : string) (body : option Body)
    (p : AuthPrincipal) (scope : option CompiledTokenScope) : Prop :=
  ap_Kind p = "system" \/
  forall r cat b a t, rt = Some r -> catalog = Some cat -> body = Some b -> cat procedure b = Some (a, t) ->
    Authorize r scope (mkPrincipal (ap_ID p) (ap_Kind p)) a t = None.

Lemma authorize_permitted rt catalog p scope addr procedure body :
  authorize rt catalog (mkCallContext (Some p) scope addr) procedure body = None <->
  permitted rt catalog procedure body p scope.
Proof.
  unfold authorize, permitted. cbn [cx_principal policy_principal PrKind cx_scope].
  destruct (String.eqb_spec (ap_Kind p) "system") as [->|Hk]; [split; [by left|done]|].
  destruct rt as [r|]; [|split; [intros _; right; by intros ? ? ? ? ? [=]|done]].
  destruct catalog as [cat|]; [|split; [intros _; right; by intros ? ? ? ? ? _ [=]|done]].
  destruct body as [b|]; [|split; [intros _; right; by intros ? ? ? ? ? _ _ [=]|done]].
  destruct (cat procedure b) as [[a t]|] eqn:Hc.
  - destruct (Authorize r scope _ a t) as [e|] eqn:HA.
    + split; [done|]. intros [?|H]; [done|]. specialize (H r cat b a t eq_refl eq_refl eq_refl Hc). congruence.
    + split; [|done]. intros _. right. intros ? ? ? ? ? [= <-] [= <-] [= <-] Hc'. congruence.
  - split; [|done]. intros _. right. intros ? ? ? ? ? [= <-] [= <-] [= <-] Hc'. congruence.
Qed.

Lemma authenticate_exact w cache procedure addr authorization cookies peerCred ctx :
  isPublicAuthProcedure procedure = false -> cache_ok (w_tokens w) cache ->
  let '(cache', res) := authenticate sha256 hmac unmarshal w cache procedure addr authorization cookies peerCred in
  cache_ok (w_tokens w) cache' /\
  (res = Ok ctx <-> exists p blob scope, caller w authorization cookies peerCred p blob /\
     scope_for blob scope /\ ctx = mkCallContext (Some p) scope addr).
Proof.
  intros Hpub Hc. unfold authenticate. rewrite Hpub. cbn zeta.
  pose proof (fun p => Build_caller w authorization cookies peerCred p) as HB. cbn zeta in HB.
  destruct (Build _ _ w _) as [p|e] eqn:HBuild.
  2:{ assert (Hnone : forall q blob, ~ caller w authorization cookies peerCred q blob).
      { intros q blob Hq. by pose proof (proj2 (HB q) (ex_intro _ blob Hq)). }
      destruct e; (split; [done|]); split; try done; intros (q & blob & scope & Hq & _); by destruct (Hnone q blob). }
  destruct (proj1 (HB p) eq_refl) as [blob Hcaller]. destruct (caller_metadata _ _ _ _ _ _ Hcaller) as [Hm Hid].
  assert (Honly : forall q b, caller w authorization cookies peerCred q b -> q = p /\ b = blob).
  { intros q b Hq. assert (q = p) as ->; [|split; [done|by eapply caller_scope_det]].
    pose proof (proj2 (HB q) (ex_intro _ b Hq)). congruence. }
  rewrite Hm. destruct (is_empty blob) eqn:Hb.
  - split; [done|]. split.
    + intros [= <-]. exists p, blob, None. split_and!; [done| |done]. unfold scope_for. by rewrite Hb.
    + intros (q & b & scope & Hq & Hs & ->). destruct (Honly q b Hq) as [-> ->].
      unfold scope_for in Hs. rewrite Hb in Hs. by rewrite Hs.
  - rewrite decode_encode_padded.
    destruct Hid as (id & r & Hi & Hr & Hblob); [by intros ->|]. rewrite Hi. change (default "" (Some id)) with id.
    pose proof (decodeTokenScope_ok (w_tokens w) cache id r Hc Hr) as HD. rewrite Hblob in HD.
    destruct (decodeTokenScope _ _ cache id blob) as [cache' res]. destruct HD as [Hc' HD]; [by intros ->|].
    destruct res as [c|e]; (split; [done|]).
    + split.
      * intros [= <-]. exists p, blob, (Some c). split_and!; [done|by apply HD|done].
      * intros (q & b & scope & Hq & Hs & ->). destruct (Honly q b Hq) as [-> ->].
        unfold scope_for in Hs. rewrite Hb in Hs. destruct Hs as (pb & c' & Hu & Hcp & ->).
        assert (@Ok string _ c = Ok c') as [= ->]; [|done]. apply HD. unfold scope_for. rewrite Hb. by exists pb, c'.
    + split; [done|]. intros (q & b & scope & Hq & Hs & ->). destruct (Honly q b Hq) as [-> ->].
      unfold scope_for in Hs. rewrite Hb in Hs. destruct Hs as (pb & c' & Hu & Hcp & ->).
      assert (@Err _ CompiledTokenScope e = Ok c') as [=]. apply HD. unfold scope_for. rewrite Hb. by exists pb, c'.
Qed.

Lemma gate_passes w rt catalog cache procedure addr authorization cookies peerCred body ctx :
  isPublicAuthProcedure procedure = false -> cache_ok (w_tokens w) cache ->
  let '(cache', res) := gate sha256 hmac unmarshal w rt catalog cache procedure addr authorization cookies
                          peerCred body in
  cache_ok (w_tokens w) cache' /\
  (res = Ok ctx <-> exists p blob scope, caller w authorization cookies peerCred p blob /\
     scope_for blob scope /\ ctx = mkCallContext (Some p) scope addr /\
     permitted rt catalog procedure body p scope).
Proof.
  intros Hpub Hc. unfold gate.
  pose proof (fun ctx => authenticate_exact w cache procedure addr authorization cookies peerCred ctx Hpub Hc) as HA.
  destruct (authenticate _ _ _ _ _ _ _ _ _ _) as [cache' [ctx'|e]].
  - destruct (proj1 (proj2 (HA ctx')) eq_refl) as (p & blob & scope & Hcaller & Hs & ->).
    assert (Honly : forall ctx2, (exists p2 b2 s2, caller w authorization cookies peerCred p2 b2 /\
      scope_for b2 s2 /\ ctx2 = mkCallContext (Some p2) s2 addr) -> ctx2 = mkCallContext (Some p) scope addr).
    { intros ctx2 H2. apply (HA ctx2) in H2. congruence. }
    pose proof (authorize_permitted rt catalog p scope addr procedure body) as HP.
    destruct (authorize rt catalog _ procedure body) as [e|]; (split; [apply (HA ctx)|]).
    + split; [done|]. intros (p2 & b2 & s2 & H2 & Hs2 & -> & Hperm). exfalso.
      assert (mkCallContext (Some p2) s2 addr = mkCallContext (Some p) scope addr) as [= -> ->]
        by (apply Honly; by exists p2, b2, s2).
      by apply HP in Hperm.
    + split.
      * intros [= <-]. exists p, blob, scope. split_and!; [done..|]. by apply HP.
      * intros (p2 & b2 & s2 & H2 & Hs2 & -> & _). f_equal. symmetry. apply Honly. by exists p2, b2, s2.
  - split; [apply (HA ctx)|]. split; [done|]. intros (p & blob & scope & H1 & H2 & -> & _).
    assert (Err e = Ok (mkCallContext (Some p) scope addr)) as [=]. apply HA. by exists p, blob, scope.
Qed.

(** The tokens and the cache of scopes of a running daemon: it starts with the tokens of
    its database, none of which has the empty id, and an empty cache; tokens are issued,
    revoked and used; and every call, let through or not, may fill the cache. *)
Inductive gate_history : gmap string TokenRow -> gmap string CompiledTokenScope -> Prop :=
  | gh_start tokens : tokens !! "" = None -> gate_history tokens ∅
  | gh_tokens tokens cache o :
      gate_history tokens cache -> (forall s n n' f i, o <> Tokens.OpIssue s "" n n' f i) ->
      gate_history (token_step sha256 tokens o) cache
  | gh_call w rt catalog cache procedure addr authorization cookies peerCred body :
      gate_history (w_tokens w) cache ->
      gate_history (w_tokens w)
        (gate (Body := Body) sha256 hmac unmarshal w rt catalog cache procedure addr authorization cookies peerCred body).1.

Lemma gate_cache_ok w rt catalog cache procedure addr authorization cookies peerCred body :
  cache_ok (w_tokens w) cache ->
  cache_ok (w_tokens w)
    (gate (Body := Body) sha256 hmac unmarshal w rt catalog cache procedure addr authorization cookies peerCred body).1.
Proof.
  intros Hc. destruct (isPublicAuthProcedure procedure) eqn:Hpub.
  - unfold gate, authenticate. rewrite Hpub. by destruct (authorize _ _ _ _ _).
  - pose proof (gate_passes w rt catalog cache procedure addr authorization cookies peerCred body
      (mkCallContext None None "") Hpub Hc) as H.
    destruct (gate _ _ _ _ _ _ _ _ _ _ _ _ _) as [cache' r]. apply H.
Qed.

Lemma gate_history_ok tokens cache : gate_history tokens cache -> cache_ok tokens cache.
Proof.
  induction 1 as [tokens Hne|tokens cache o _ IH Ho|w rt catalog cache procedure addr a ck pc body _ IH].
  - split; [done|]. intros id c. by rewrite lookup_empty.
  - by apply cache_ok_step.
  - by apply gate_cache_ok.
Qed.

(** C11. Exactly these calls reach a handler that is not public: the caller is a
    local socket peer, the holder of a bearer token that verifies, or, without a
    bearer header, of a session cookie that verifies; the scope in the context
    is the one of that token's own blob, whatever calls and changes to the tokens
    have filled the cache of scopes before; and the caller is the system, or the
    policy runtime permits what the catalog resolves the call to, or there is no
    runtime, no catalog (as in the daemon) or no body to ask it about. *)
Theorem gate_exact w rt catalog cache procedure addr authorization cookies peerCred body ctx :
  isPublicAuthProcedure procedure = false -> gate_history (w_tokens w) cache ->
  (gate sha256 hmac unmarshal w rt catalog cache procedure addr authorization cookies peerCred body).2 = Ok ctx <->
  exists p blob scope, caller w authorization cookies peerCred p blob /\
    scope_for blob scope /\ ctx = mkCallContext (Some p) scope addr /\
    permitted rt catalog procedure body p scope.
Proof.
  intros Hpub Hc%gate_history_ok.
  pose proof (gate_passes w rt catalog cache procedure addr authorization cookies peerCred body ctx Hpub Hc) as H.
  destruct (gate _ _ _ _ _ _ _ _ _ _ _ _ _) as [cache' r]. apply H.
Qed.
End GateFacts.
