(* ===== verification/AuthService.v ===== *)
(** * The auth service

    Models the handlers of [internal/api/service_auth.go] that change state:
    password and passkey login, logout, refresh, tokens, enrollment tokens and
    password change. They compose [Throttle], [Identity], [Passwords],
    [Sessions], [Tokens], [Enrollment] and [TokenScope]. The
    ceremony of a passkey login is an argument here and a definition of
    [Passkeys]; audit records and metrics are left out.

    [login_exact] says when a password login succeeds and what every outcome
    does to the state; [login_then_call] follows a login to the next call. *)

From Stdlib Require Import Ascii String.
From S2P Require Import Prelude Sorting Codec Policy PolicyFacts AuthorizeFacts TokenScope Tokens Enrollment Throttle Sessions Identity Passwords Authn.

Inductive rpc_error :=
  | Unauthenticated (msg : string) | Internal (msg : string) | PermissionDenied (msg : string)
  | ValidationFailed (e : scope_error) | NotFound (msg : string) | InvalidArgument (msg : string).

(** The stores behind the service. *)
Record AuthState := mkAuthState {
  st_identity : AuthDB;
  st_passwords : gmap string PasswordRow;
  st_attempts : list attempt;
  st_sessions : gmap string SessionRow;
  st_tokens : gmap string TokenRow;
  st_enrollment : gmap string EnrollmentRow;
}.

Definition with_attempts (l : list attempt) (s : AuthState) : AuthState :=
  mkAuthState (st_identity s) (st_passwords s) l (st_sessions s) (st_tokens s) (st_enrollment s).
Definition with_sessions (t : gmap string SessionRow) (s : AuthState) : AuthState :=
  mkAuthState (st_identity s) (st_passwords s) (st_attempts s) t (st_tokens s) (st_enrollment s).
Definition with_tokens (t : gmap string TokenRow) (s : AuthState) : AuthState :=
  mkAuthState (st_identity s) (st_passwords s) (st_attempts s) (st_sessions s) t (st_enrollment s).
Definition with_passwords (t : gmap string PasswordRow) (s : AuthState) : AuthState :=
  mkAuthState (st_identity s) t (st_attempts s) (st_sessions s) (st_tokens s) (st_enrollment s).
Definition with_enrollment (t : gmap string EnrollmentRow) (s : AuthState) : AuthState :=
  mkAuthState (st_identity s) (st_passwords s) (st_attempts s) (st_sessions s) (st_tokens s) t.

(** What a login reads besides the request: the peer, the clock at each of its
    steps, the new session id and secret, and the outcome of each query. *)
Record LoginEnv := mkLoginEnv {
  le_ip : string;
  le_ua : string;
  le_check_now : Z;
  le_check_now' : Z;
  le_record_now : Z;
  le_issue_now : Z;
  le_sid : string;
  le_raw : string;
  le_writer : bool;
  le_check_fault : option string;
  le_get_fault : option string;
  le_roles_fault : option string;
  le_verify_fault : option string;
  le_record_fault : option string;
  le_issue_fault : option string;
}.

(** The configuration of the stores. *)
Record AuthConfig := mkAuthConfig {
  ac_throttle : Throttle.Config;
  ac_sessions : Sessions.Config;
  ac_params : Argon2idParams;
}.

Section AuthService.
Context (sha256 : string -> string) (hmac : string -> string -> string).
Context (IDKey : string -> string -> Z -> Z -> Z -> Z -> string).
Context (cfg : AuthConfig).

(** [_ = s.d.Throttle.Record(...)]: the error is dropped. *)
Definition record_attempt (env : LoginEnv) (method : string) (ok : bool) (s : AuthState) : AuthState :=
  with_attempts (Record_ (le_record_now env) (le_record_fault env) (le_ip env) method ok (st_attempts s)).1 s.

(** The tail of both logins: issue a session for [slug]. *)
Definition issue_session (env : LoginEnv) (slug method : string) (s : AuthState) :
    AuthState * list SetCookie * result rpc_error string :=
  if negb (le_writer env) then (s, [], Err (Internal "no response writer"))
  else
    let '(t, cookies, r) := Sessions.Issue sha256 hmac (ac_sessions cfg) (le_sid env) (le_raw env)
                              (le_issue_now env) (le_issue_fault env)
                              (mkIssueInput slug method (le_ip env) (le_ua env)) (st_sessions s) in
    match r with
    | Err _ => (s, [], Err (Internal "session"))
    | Ok sd => (with_sessions t s, cookies, Ok (sd_SessionID sd))
    end.

(** [Login] with a user name and a password. *)
Definition Login (env : LoginEnv) (username password : string) (s : AuthState) :
    AuthState * list SetCookie * result rpc_error string :=
  match Check_ (ac_throttle cfg) (le_check_now env) (le_check_now' env) (le_check_fault env) (le_ip env)
          "password" (st_attempts s) with
  | Some _ => (s, [], Err (Unauthenticated "throttled"))
  | None =>
      match Get (le_get_fault env) (le_roles_fault env) username (st_identity s) with
      | Err (GetDB msg) => (s, [], Err (Internal msg))
      | Err ErrNotFound =>
          (record_attempt env "password" false s, [], Err (Unauthenticated "invalid credentials"))
      | Ok u =>
          if negb (Active u) || negb (PasswordAllowed u)
          then (record_attempt env "password" false s, [], Err (Unauthenticated "invalid credentials"))
          else match Passwords.Verify IDKey (ac_params cfg) (le_verify_fault env) username password
                       (st_passwords s) with
          | Err msg => (s, [], Err (Internal msg))
          | Ok (false, _) =>
              (record_attempt env "password" false s, [], Err (Unauthenticated "invalid credentials"))
          | Ok (true, _) => issue_session env (Slug u) "password" (record_attempt env "password" true s)
          end
      end
  end.

(** [loginPasskey]; [ceremony] is the slug or the error that parsing the
    credential, consuming the challenge and [Passkeys.FinishLogin] arrive at
    ([Passkeys.login_ceremony]). *)
Definition loginPasskey (env : LoginEnv) (ceremony : result rpc_error string) (s : AuthState) :
    AuthState * list SetCookie * result rpc_error string :=
  match Check_ (ac_throttle cfg) (le_check_now env) (le_check_now' env) (le_check_fault env) (le_ip env)
          "passkey" (st_attempts s) with
  | Some _ => (s, [], Err (Unauthenticated "throttled"))
  | None =>
      match ceremony with
      | Err e => (record_attempt env "passkey" false s, [], Err e)
      | Ok slug => issue_session env slug "passkey" (record_attempt env "passkey" true s)
      end
  end.

(** [Logout]: nothing to do without a session. *)
Definition Logout_rpc (ctx : CallContext) (writer : bool) (fault : option string) (s : AuthState) :
    AuthState * list SetCookie * option rpc_error :=
  match cx_principal ctx with
  | None => (s, [], None)
  | Some p =>
      let sid := default "" (ap_Metadata p !! "session_id") in
      if is_empty sid then (s, [], None)
      else if negb writer then (s, [], Some (Internal "no response writer"))
      else
        let '(t, cookies, err) := Sessions.Logout (ac_sessions cfg) fault sid (st_sessions s) in
        match err with
        | Some msg => (with_sessions t s, cookies, Some (Internal msg))
        | None => (with_sessions t s, cookies, None)
        end
  end.

(** [Refresh]: every caller may try. *)
Definition Refresh_rpc (raw : string) (now : Z) (fl : RefreshFaults) (cookies : option (list (string * string)))
    (s : AuthState) : AuthState * list SetCookie * result rpc_error SessionData :=
  match cookies with
  | None => (s, [], Err (Internal "no http context"))
  | Some req =>
      let '(t, out, r) := Sessions.Refresh sha256 hmac (ac_sessions cfg) raw now fl req (st_sessions s) in
      match r with
      | Ok sd => (with_sessions t s, out, Ok sd)
      | Err (SessionDB msg) => (with_sessions t s, out, Err (Internal msg))
      | Err _ => (with_sessions t s, out, Err (Unauthenticated "session"))
      end
  end.

(** [CreateToken]: a token never expires by itself (no TTL is passed). *)
Definition CreateToken (marshal : option TokenScopePB -> result string string) (ctx : CallContext)
    (scope : option TokenScopePB) (displayName : string) (secret : result string string) (tokenID : string)
    (now now' : Z) (fault : option string) (s : AuthState) :
    AuthState * result rpc_error (string * string) :=
  match cx_principal ctx with
  | None => (s, Err (Unauthenticated "not authenticated"))
  | Some p =>
      match tokenScopeBlobForMint marshal (cx_scope ctx) scope with
      | Err TokenScopeBroader => (s, Err (PermissionDenied "token scope broader"))
      | Err (MintInvalid e) => (s, Err (ValidationFailed e))
      | Err (MintMarshal msg) => (s, Err (Internal msg))
      | Ok (blob, _) =>
          let slug := trim_prefix (ap_ID p) "user:" in
          let '(t, r) := Tokens.Issue sha256 secret tokenID now now' fault
                           (mkIssueTokenInput slug displayName (ap_ID p) blob 0) (st_tokens s) in
          match r with
          | Err msg => (s, Err (Internal msg))
          | Ok out => (with_tokens t s, Ok out)
          end
      end
  end.

Definition RevokeToken (ctx : CallContext) (now : Z) (fault : option string) (tokenID : string) (s : AuthState) :
    AuthState * option rpc_error :=
  match cx_principal ctx with
  | None => (s, Some (Unauthenticated "not authenticated"))
  | Some _ =>
      let '(t, err) := Revoke now fault tokenID (st_tokens s) in
      match err with
      | Some msg => (s, Some (Internal msg))
      | None => (with_tokens t s, None)
      end
  end.

(** [MintEnrollmentToken]: a day unless a lifetime is asked for. *)
Definition MintEnrollmentToken (secret : result string string) (now : Z) (fault : option string)
    (userSlug intent : string) (ttlSeconds : Z) (s : AuthState) : AuthState * result rpc_error (string * Z) :=
  let ttl := if ttlSeconds * Second =? 0 then 24 * Hour else ttlSeconds * Second in
  let '(t, r) := Mint sha256 secret userSlug intent now ttl fault (st_enrollment s) in
  match r with
  | Err msg => (s, Err (Internal msg))
  | Ok plaintext => (with_enrollment t s, Ok (plaintext, Unix (now + ttl)))
  end.

Definition RedeemEnrollmentToken (now now' : Z) (fl : RedeemFaults) (token : string) (s : AuthState) :
    AuthState * result rpc_error (string * string) :=
  let '(t, r) := Redeem sha256 now now' fl token (st_enrollment s) in
  match r with
  | Ok lk => (with_enrollment t s, Ok lk)
  | Err (EnrollmentDB msg) => (with_enrollment t s, Err (Internal msg))
  | Err _ => (with_enrollment t s, Err (Unauthenticated "enrollment token"))
  end.

(** [ChangePassword]. *)
Definition ChangePassword (ctx : CallContext) (salt : result string string) (now : Z)
    (fault fault' : option string) (old_ new : string) (s : AuthState) : AuthState * option rpc_error :=
  match cx_principal ctx with
  | None => (s, Some (Unauthenticated "not authenticated"))
  | Some p =>
      let slug := trim_prefix (ap_ID p) "user:" in
      match Passwords.Verify IDKey (ac_params cfg) fault slug old_ (st_passwords s) with
      | Err msg => (s, Some (Internal msg))
      | Ok (false, _) => (s, Some (Unauthenticated "invalid credentials"))
      | Ok (true, _) =>
          let '(t, err) := Set_ IDKey (ac_params cfg) salt now fault' slug new (ap_ID p) (st_passwords s) in
          match err with
          | Some msg => (s, Some (Internal msg))
          | None => (with_passwords t s, None)
          end
      end
  end.

(** [userSlugForPasskeyRegistration]. *)
Definition userSlugForPasskeyRegistration (ctx : CallContext) (requested : string) : result rpc_error string :=
  let anonymous := if negb (is_empty requested) then Ok requested else Err (Unauthenticated "not authenticated") in
  match cx_principal ctx with
  | Some p =>
      if has_prefix (ap_ID p) "user:" then
        let slug := trim_prefix (ap_ID p) "user:" in
        if negb (is_empty requested) && negb (String.eqb requested slug)
        then Err (PermissionDenied "cannot register passkey for another user")
        else Ok slug
      else anonymous
  | None => anonymous
  end.

(** ** Password login *)

Lemma issue_session_cases env slug method s :
  let '(s', cookies, r) := issue_session env slug method s in
  match r with
  | Ok sid => sid = le_sid env /\ st_sessions s !! sid = None /\
      exists t sd, Sessions.Issue sha256 hmac (ac_sessions cfg) (le_sid env) (le_raw env) (le_issue_now env) None
        (mkIssueInput slug method (le_ip env) (le_ua env)) (st_sessions s) = (t, cookies, Ok sd) /\
        s' = with_sessions t s
  | Err _ => s' = s /\ cookies = []
  end.
Proof.
  unfold issue_session. destruct (le_writer env); [|done]. cbn [negb]. unfold Sessions.Issue.
  destruct (le_issue_fault env); [done|]. destruct (st_sessions s !! le_sid env) eqn:Hs; [done|].
  cbn. split; [done|]. split; [done|]. by eexists _, _.
Qed.

(** When a password login succeeds, and what each outcome leaves behind: it
    succeeds only for a caller that is not throttled and a user that exists, is
    active, may use passwords and has the given one, and then it has created
    exactly one session, for that user, and recorded a success; every failure
    leaves the sessions alone and writes no cookie; wrong credentials, an
    unknown, inactive or passwordless user all read the same and record one
    failure, while a throttled attempt is not recorded. *)
Theorem login_exact env username password s :
  le_record_fault env = None ->
  let throttled := Check_ (ac_throttle cfg) (le_check_now env) (le_check_now' env) (le_check_fault env)
                     (le_ip env) "password" (st_attempts s) in
  let user := Get (le_get_fault env) (le_roles_fault env) username (st_identity s) in
  let attempt ok := mkAttempt (bucket_of (le_ip env) "password") (Unix (le_record_now env)) ok in
  let '(s', cookies, r) := Login env username password s in
  match r with
  | Ok sid =>
      throttled = None /\
      (exists u rehash, user = Ok u /\ Active u = true /\ PasswordAllowed u = true /\
        Passwords.Verify IDKey (ac_params cfg) (le_verify_fault env) username password (st_passwords s) =
          Ok (true, rehash) /\
        st_sessions s !! sid = None /\ sid = le_sid env /\
        exists row, st_sessions s' = <[sid := row]> (st_sessions s) /\ se_user_slug row = username) /\
      st_attempts s' = st_attempts s ++ [attempt true]
  | Err e =>
      st_sessions s' = st_sessions s /\ cookies = [] /\
      match e with
      | Unauthenticated msg =>
          if String.eqb msg "throttled" then is_Some throttled /\ s' = s
          else throttled = None /\ st_attempts s' = st_attempts s ++ [attempt false]
      | _ => throttled = None
      end
  end.
Proof.
  intros Hrf. cbn zeta. unfold Login.
  destruct (Check_ _ _ _ _ _ _ _) as [e|] eqn:Hc; [by cbn|].
  assert (Hrec : forall ok, record_attempt env "password" ok s =
    with_attempts (st_attempts s ++ [mkAttempt (bucket_of (le_ip env) "password") (Unix (le_record_now env)) ok]) s)
    by (intros ok; unfold record_attempt, Record_; by rewrite Hrf).
  destruct (Get _ _ _ _) as [u|[|msg]] eqn:Hu; [|by rewrite Hrec|done].
  destruct (Active u) eqn:Ha; cbn [negb orb]; [|by rewrite Hrec].
  destruct (PasswordAllowed u) eqn:Hp; cbn [negb]; [|by rewrite Hrec].
  destruct (Passwords.Verify _ _ _ _ _ _) as [[[] rehash]|msg] eqn:Hv; [|by rewrite Hrec|done].
  rewrite Hrec. pose proof (issue_session_cases env (Slug u) "password"
    (with_attempts (st_attempts s ++ [mkAttempt (bucket_of (le_ip env) "password") (Unix (le_record_now env)) true]) s)) as HI.
  assert (Hslug : Slug u = username).
  { unfold Get in Hu. destruct (le_get_fault env); [done|]. destruct (auth_users (st_identity s) !! username); [|done].
    destruct (le_roles_fault env); [done|]. by injection Hu as <-. }
  destruct (issue_session _ _ _ _) as [[s' cookies] [sid|e]] eqn:HIs.
  - destruct HI as (-> & Hn & t & sd & HIss & ->). split; [done|]. split; [|done].
    exists u, rehash. split_and!; try done. unfold Sessions.Issue in HIss. rewrite Hn in HIss.
    injection HIss as <- _ _. eexists. split; [reflexivity|]. done.
  - destruct HI as [-> ->]. assert (exists msg, e = Internal msg) as [msg ->].
    { unfold issue_session in HIs. repeat case_match; simplify_eq; by eexists. }
    done.
Qed.
End AuthService.

(** ** From a login to the next call, and delegated tokens

    End-to-end theorems over the stores, the service and the gate; and what the
    gate leaves unchecked. *)

Section EndToEnd.
Context (sha256 : string -> string) (hmac : string -> string -> string).
Context (IDKey : string -> string -> Z -> Z -> Z -> Z -> string).
Context (IDKey_length : forall pw salt t m p n, 0 <= n < 2 ^ 32 ->
  Z.of_nat (String.length (IDKey pw salt t m p n)) = n).

(** No query of the login fails. *)
Definition login_faultless (env : LoginEnv) : Prop :=
  le_writer env = true /\ le_get_fault env = None /\ le_roles_fault env = None /\
  le_verify_fault env = None /\ le_record_fault env = None /\ le_issue_fault env = None.

(** The world of a call at [now] after the login. *)
Definition world_of (cfg : AuthConfig) (now : Z) (s : AuthState) : World :=
  mkWorld now (st_tokens s) None (st_sessions s) None (ac_sessions cfg).

(** A user who logs in with the password that was set is known to the next
    call: with the user configured, active and allowed passwords, the password
    set (and not replaced since) and the client not throttled, [Login] succeeds,
    and until the access deadline a call with the cookies it wrote is
    authenticated as that user, without a token scope, and with exactly the
    configured roles. *)
Theorem login_then_call cfg env users d0 u salt now0 setBy t0 ops password s now' :
  wf_snapshot users -> u ∈ users -> Active u = true -> PasswordAllowed u = true ->
  wf_params (ac_params cfg) -> Forall (fun o => ~ overwrites (Slug u) o) ops ->
  st_identity s = (ApplySnapshot no_snapshot_faults users d0).1 ->
  st_passwords s = foldl (password_step IDKey)
    (Set_ IDKey (ac_params cfg) (Ok salt) now0 None (Slug u) password setBy t0).1 ops ->
  login_faultless env ->
  Check_ (ac_throttle cfg) (le_check_now env) (le_check_now' env) (le_check_fault env) (le_ip env) "password"
    (st_attempts s) = None ->
  st_sessions s !! le_sid env = None -> lacks "|" (le_sid env) -> lacks "|" (Slug u) ->
  - 2 ^ 63 <= deadline (le_issue_now env) (cf_AccessTTL (ac_sessions cfg)) < 2 ^ 63 ->
  Unix now' < deadline (le_issue_now env) (cf_AccessTTL (ac_sessions cfg)) ->
  let '(s', cookies, r) := Login sha256 hmac IDKey cfg env (Slug u) password s in
  r = Ok (le_sid env) /\
  let p := session_principal (mkSessionPrincipal (Slug u) (le_sid env) "password") in
  caller sha256 hmac (world_of cfg now' s') "" (Some ((fun c => (ck_Name c, ck_Value c)) <$> cookies)) None p "" /\
  roleAdapter_For None (st_identity s') (policy_principal (Some p)) = merge_sort String.le (Roles u).
Proof.
  intros Hwf Hu Hact Hpw Hpar Hops Hid Hpass (Hw & Hf1 & Hf2 & Hf3 & Hf4 & Hf5) Hthr Hsid Hl1 Hl2 Hexp Hnow.
  destruct (ApplySnapshot_holds users d0 Hwf) as (d' & HA & Hh). rewrite HA in Hid. cbn [fst] in Hid.
  destruct (queries_present users d' u Hwf Hh Hu) as [HG HR].
  pose proof (Set_Verify IDKey IDKey_length (ac_params cfg) (ac_params cfg) salt now0 (Slug u) password setBy t0
                ops password Hpar Hops) as HV.
  destruct (Set_ _ _ _ _ _ _ _ _ _) as [t1 err]. cbn [fst] in Hpass. destruct HV as [_ HV].
  rewrite String.eqb_refl in HV.
  unfold Login. rewrite Hthr, Hf1, Hf2, Hid, HG. cbn [with_sorted_roles Active PasswordAllowed Slug].
  rewrite Hact, Hpw, Hf3, Hpass, HV. cbn [negb orb]. unfold issue_session. rewrite Hw, Hf5. cbn [negb].
  pose proof (Issue_VerifyAccess sha256 hmac (ac_sessions cfg) (le_sid env) (le_raw env) (le_issue_now env)
    (mkIssueInput (Slug u) "password" (le_ip env) (le_ua env)) (st_sessions s) [] now' Hsid Hl1 Hl2) as HI.
  change (st_sessions (record_attempt env "password" true s)) with (st_sessions s).
  destruct (Sessions.Issue _ _ _ _ _ _ _ _ _) as [[t cookies] r].
  destruct HI as [-> HI]; [by_decision|done|done|done|]. cbn [foldl] in HI.
  split; [done|]. split.
  - by eapply caller_session.
  - unfold roleAdapter_For. cbn [policy_principal session_principal ap_ID PrID sp_UserSlug].
    rewrite trim_prefix_app. cbn [st_identity with_sessions record_attempt with_attempts]. by rewrite Hid, HR.
Qed.
End EndToEnd.

(** ** Delegated tokens *)

Lemma Authorize_compiled r scope p a t :
  Authorize r scope p a t = None -> PrKind p <> "system" -> is_Some (rt_compiled r).
Proof.
  unfold Authorize. intros H Hk. rewrite (proj2 (String.eqb_neq _ _) Hk) in H.
  destruct (rt_compiled r); [by eexists|done].
Qed.

Section Delegation.
Context (sha256 : string -> string) (hmac : string -> string -> string).
(** Protobuf: what was marshalled unmarshals to itself, and a message with a
    field set has a non-empty encoding. *)
Context (marshal : option TokenScopePB -> result string string) (unmarshal : string -> result string TokenScopePB).
Context (marshal_unmarshal : forall m blob, marshal (Some m) = Ok blob -> unmarshal blob = Ok m).
Context (marshal_nonempty : forall m blob, marshal m = Ok blob -> emptyTokenScopePB m = false -> blob <> "").
Context {Body : Type}.

(** The caller of a request with a token id is the holder of that token. *)
Lemma caller_token_id w a ck pc p blob id :
  caller sha256 hmac w a ck pc p blob -> ap_Metadata p !! "token_id" = Some id ->
  ap_Kind p = "user" /\ exists r, w_tokens w !! id = Some r /\ tk_scope_blob r = blob.
Proof.
  intros H Hid. destruct H as [c p _ HL|plaintext lk _ _ Hv|ck1 sp _ _ _ _].
  - cbn in HL. injection HL as <-. cbn [ap_Metadata] in Hid. by rewrite !lookup_insert_ne in Hid.
  - split; [done|]. assert (Hf : w_token_fault w = None).
    { destruct (w_token_fault w); [|done]. unfold Tokens.Verify in Hv. by repeat case_match. }
    rewrite Hf in Hv. apply Verify_parts in Hv as (id' & secret & r & _ & Hr & _ & _ & _ & ->).
    cbn [token_principal ap_Metadata] in Hid. unfold token_metadata in Hid. cbn [lk_Scope lk_TokenID] in *.
    exists r. assert (id' = id) as <-; [|done].
    destruct (0 <? _)%nat; [rewrite lookup_insert_ne in Hid by done|]; rewrite lookup_insert_eq in Hid; congruence.
  - cbn [session_principal ap_Metadata] in Hid. by rewrite !lookup_insert_ne in Hid.
Qed.

(** What minting under a scope says of the scope a blob stands for. *)
Lemma minted_blob_bounded issuer ci scope blob summary scope' action t :
  compileTokenScopePB issuer = Ok ci ->
  tokenScopeBlobForMint marshal (Some ci) scope = Ok (blob, summary) ->
  scope_for unmarshal blob scope' ->
  match scope' with Some c => Scope_Allow c action t = true | None => True end ->
  Scope_Allow ci action t = true.
Proof.
  intros Hi Hm Hs Hallow. unfold tokenScopeBlobForMint in Hm.
  destruct (compileTokenScopePB scope) as [c|] eqn:Hc; [|done].
  destruct (Contains ci c) eqn:Hcon; [|done]. cbn [negb] in Hm.
  apply (Contains_grants ci c); [|done|].
  { intros p. rewrite (compiled_exact _ _ Hi). by intros ?%not_elem_of_empty. }
  destruct (emptyTokenScopePB scope) eqn:He.
  - destruct (empty_scope_unrestricted scope action t He) as (c' & Hc' & H). congruence.
  - destruct (marshal scope) as [b|] eqn:Hb; [|done]. injection Hm as <- _.
    destruct scope as [m|]; [|done]. unfold scope_for, is_empty in Hs.
    rewrite (proj2 (String.eqb_neq b "")) in Hs by (by eapply marshal_nonempty).
    destruct Hs as (pb & c' & Hu & Hcp & ->). rewrite (marshal_unmarshal m b Hb) in Hu. congruence.
Qed.

(** Behind a gate with a catalog, which the daemon does not install
    ([gate_without_catalog_enforces_nothing]), a delegated token never reaches beyond its
    issuer: if a caller whose own
    token carries a scope creates a token, then whatever happens to the tokens
    afterwards, a call authenticated with the new token that the catalog
    resolves to an action on an entity passes the gate only if the issuer's
    scope allows that action on that entity. *)
Theorem delegated_token_bounded issuer ci ctx0 scope name secret id n n' s s1 out ops w rt
    (cat : Catalog (Body := Body)) cache procedure addr authorization cookies peerCred body cache' ctx p a t :
  cx_scope ctx0 = Some ci -> compileTokenScopePB issuer = Ok ci ->
  CreateToken sha256 marshal ctx0 scope name (Ok secret) id n n' None s = (s1, Ok out) ->
  w_tokens w = foldl (token_step sha256) (st_tokens s1) ops ->
  isPublicAuthProcedure procedure = false -> cache_ok unmarshal (w_tokens w) cache ->
  gate sha256 hmac unmarshal w (Some rt) (Some cat) cache procedure addr authorization cookies peerCred
    (Some body) = (cache', Ok ctx) ->
  cx_principal ctx = Some p -> ap_Metadata p !! "token_id" = Some id ->
  cat procedure body = Some (a, t) -> AuKind t = "entity" ->
  Scope_Allow ci (MakeActionKey (AcService a) (AcMethod a)) (targetFromAuth t) = true.
Proof using marshal_unmarshal marshal_nonempty.
  intros H0 Hi HC Hw Hpub Hcache Hg Hp Hid Hcat Hent. unfold CreateToken in HC.
  destruct (cx_principal ctx0) as [p0|]; [|done]. rewrite H0 in HC.
  destruct (tokenScopeBlobForMint marshal (Some ci) scope) as [[blob summary]|[]] eqn:Hm; try done.
  unfold Tokens.Issue in HC. destruct (st_tokens s !! id) eqn:Hs; [done|]. injection HC as <- _.
  set (i := mkIssueTokenInput _ _ _ _ _) in *. cbn [st_tokens with_tokens] in Hw.
  destruct (token_steps_row sha256 ops (<[id := issued_row sha256 secret n n' i]> (st_tokens s)) id
    (issued_row sha256 secret n n' i) (lookup_insert_eq _ _ _)) as (r & Hr & [= _ _ _ Hblob _ _] & _).
  rewrite <- Hw in Hr.
  pose proof (gate_passes sha256 hmac unmarshal w (Some rt) (Some cat) cache procedure addr authorization cookies
    peerCred (Some body) ctx Hpub Hcache) as HG. rewrite Hg in HG.
  destruct (proj1 (proj2 HG) eq_refl) as (q & b & scope' & Hq & Hsc & -> & Hperm).
  cbn in Hp. injection Hp as ->.
  destruct (caller_token_id _ _ _ _ _ _ _ Hq Hid) as (Hk & r' & Hr' & Hb).
  assert (r' = r) as -> by congruence. rewrite <- Hb, <- Hblob in Hsc. cbn [i in_Scope] in Hsc.
  eapply minted_blob_bounded; [done|done|exact Hsc|].
  destruct Hperm as [Hsys|Hperm]; [by rewrite Hk in Hsys|].
  specialize (Hperm rt cat body a t eq_refl eq_refl eq_refl Hcat).
  destruct (Authorize_compiled _ _ _ _ _ Hperm) as [c Hc]; [cbn; by rewrite Hk|].
  rewrite (Authorize_spec rt c) in Hperm by done. destruct Hperm as [Hsys|(_ & Hgr & _)]; [cbn in Hsys; by rewrite Hk in Hsys|].
  destruct scope' as [c'|]; [|done]. destruct Hgr as [H1 H2]. unfold Scope_Allow.
  apply andb_true_iff. split; [exact H1|by apply H2].
Qed.
End Delegation.

(** ** What the gate leaves unchecked *)

(** Without a catalog the gate enforces no policy: the daemon passes [nil]
    for the catalog, and then a call by any authenticated principal, whatever
    its roles and its token's scope, and whatever the policies say, is let
    through. The same holds for every stream, which is opened without a body. *)
Theorem gate_without_catalog_enforces_nothing {Body} sha256 hmac unmarshal w rt cache procedure addr authorization
    cookies peerCred :
  (forall (body : option Body),
     gate sha256 hmac unmarshal w rt None cache procedure addr authorization cookies peerCred body =
     authenticate sha256 hmac unmarshal w cache procedure addr authorization cookies peerCred) /\
  (forall catalog : option (Catalog (Body := Body)),
     gate sha256 hmac unmarshal w rt catalog cache procedure addr authorization cookies peerCred None =
     authenticate sha256 hmac unmarshal w cache procedure addr authorization cookies peerCred).
Proof.
  split; [intros body|intros catalog]; unfold gate, authorize;
    destruct (authenticate _ _ _ _ _ _ _ _ _ _) as [c [ctx|e]]; try done;
    destruct (String.eqb _ _); try done; destruct rt; try done; by destruct catalog.
Qed.

(** Redeeming an enrollment token needs an authenticated caller: unlike what
    the design document lists, the procedure is not among the public ones, so a
    new user, who has no credential yet, is turned away. *)
Theorem redeem_needs_authentication sha256 hmac unmarshal w cache addr :
  authenticate sha256 hmac unmarshal w cache "/switchyard.v1alpha1.AuthService/RedeemEnrollmentToken" addr ""
    (Some []) None = (cache, Err (CodeUnauthenticated "auth: unauthenticated")).
Proof. reflexivity. Qed.

(** A passkey login does not ask whether the user is still active: with an
    assertion that checks out it succeeds for a user whom the password login of
    the same state refuses as inactive. *)
Theorem passkey_login_ignores_inactive sha256 hmac IDKey cfg env s slug r :
  auth_users (st_identity s) !! slug = Some r -> ur_active r = false ->
  login_faultless env -> le_check_fault env = None ->
  (forall m, Check_ (ac_throttle cfg) (le_check_now env) (le_check_now' env) None (le_ip env) m
     (st_attempts s) = None) ->
  st_sessions s !! le_sid env = None ->
  (Login sha256 hmac IDKey cfg env slug "any" s).2 = Err (Unauthenticated "invalid credentials") /\
  (loginPasskey sha256 hmac cfg env (Ok slug) s).2 = Ok (le_sid env).
Proof.
  intros Hu Ha (Hw & Hf1 & Hf2 & Hf3 & Hf4 & Hf5) Hcf Hthr Hsid. split.
  - unfold Login. rewrite Hcf, Hthr, Hf1, Hf2. unfold Get. rewrite Hu. cbn [user_of Active]. by rewrite Ha.
  - unfold loginPasskey. rewrite Hcf, Hthr. unfold issue_session. rewrite Hw, Hf5. cbn [negb].
    unfold Sessions.Issue. change (st_sessions (record_attempt env "passkey" true s)) with (st_sessions s).
    by rewrite Hsid.
Qed.

(** ** A daemon at work *)

Module AuthDemo.
Definition hash (s : string) : string := s.
Definition mac (k s : string) : string := k +:+ s.

Definition cfg : AuthConfig :=
  mkAuthConfig daemon_config
    (Sessions.mkConfig "key" (15 * Minute) (7 * 24 * Hour) (24 * Hour) "switchyard_access" "switchyard_refresh")
    DefaultArgon2idParams.
Definition ann : User := mkUser "ann" "Ann" true true true ["viewer"; "admin"].
Definition bob : User := mkUser "bob" "Bob" false true true ["viewer"].
Definition s0 : AuthState :=
  mkAuthState (ApplySnapshot no_snapshot_faults [ann; bob] (mkAuthDB ∅ ∅)).1
    (Set_ PasswordDemo.key DefaultArgon2idParams (Ok "0123456789abcdef") 0 None "ann" "correct horse" "self" ∅).1
    [] ∅ ∅ ∅.
Definition env : LoginEnv :=
  mkLoginEnv "192.0.2.1:5000" "curl" Hour Hour Hour Hour "S1" "secret" true None None None None None None.

Lemma login_then_call_witness :
  (Login hash mac PasswordDemo.key cfg env "ann" "correct horse" s0).2 = Ok "S1".
Proof.
  pose proof (login_then_call hash mac PasswordDemo.key PasswordDemo.key_length cfg env [ann; bob] (mkAuthDB ∅ ∅) ann
    "0123456789abcdef" 0 "self" ∅ [] "correct horse" s0 (Hour + Minute)) as H.
  destruct (Login _ _ _ cfg env _ _ s0) as [[s' cookies] r]. apply H.
  - by_decision.
  - left.
  - done.
  - done.
  - split_and!; done.
  - constructor.
  - done.
  - done.
  - by split_and!.
  - done.
  - done.
  - by_decision.
  - by_decision.
  - split; by_decision.
  - by_decision.
Defined.

Lemma login_exact_witness :
  (Login hash mac PasswordDemo.key cfg env "bob" "any" s0).1.2 = [] /\
  st_sessions (Login hash mac PasswordDemo.key cfg env "bob" "any" s0).1.1 = ∅.
Proof.
  pose proof (login_exact hash mac PasswordDemo.key cfg env "bob" "any" s0 eq_refl) as H. cbn zeta in H.
  assert ((Login hash mac PasswordDemo.key cfg env "bob" "any" s0).2 = Err (Unauthenticated "invalid credentials")) as Hr
    by (vm_compute; reflexivity).
  destruct (Login _ _ _ cfg env _ _ s0) as [[s' cookies] r]. cbn [snd] in Hr. subst r. cbn [fst snd].
  split; [apply H|]. exact (proj1 H).
Defined.

Lemma passkey_login_ignores_inactive_witness :
  (loginPasskey hash mac cfg env (Ok "bob") s0).2 = Ok "S1".
Proof.
  refine (proj2 (passkey_login_ignores_inactive hash mac PasswordDemo.key cfg env s0 "bob"
    (mkUserRow "Bob" false true true) _ _ _ _ _ _)); try reflexivity; try (by split_and!).
Defined.

(** A token of Ann's, limited to one action, and one she creates with it. *)
Definition narrow : TokenScopePB := mkTokenScopePB ["EntityService.Get"] [] None.
Definition marshal (m : option TokenScopePB) : result string string :=
  match m with
  | Some m => if bool_decide (allow_tools m = ["EntityService.Get"]) && bool_decide (allow_services m = []) &&
                 match allow_targets m with None => true | Some _ => false end
              then Ok "narrow" else Err "unsupported"
  | None => Err "unsupported"
  end.
Definition unmarshal (s : string) : result string TokenScopePB :=
  if String.eqb s "narrow" then Ok narrow else Err "unsupported".

Lemma marshal_law m blob : marshal (Some m) = Ok blob -> unmarshal blob = Ok m.
Proof.
  unfold marshal. destruct m as [tools services [targets|]]; cbn; [by rewrite andb_false_r|].
  repeat case_bool_decide; cbn; try done. intros [= <-]. by subst.
Qed.
Lemma marshal_law' m blob : marshal m = Ok blob -> emptyTokenScopePB m = false -> blob <> "".
Proof. unfold marshal. destruct m; [|done]. destruct (_ && _); [|done]. by intros [= <-]. Qed.

Definition narrow_scope : CompiledTokenScope := mkCompiledTokenScope ∅ ["EntityService.Get"] [] CompiledSelector_zero.
Definition annctx : CallContext :=
  mkCallContext (Some (mkAuthPrincipal "user:ann" "ann" "user" ∅)) (Some narrow_scope) "".
Definition s1 : AuthState :=
  (CreateToken hash marshal annctx (Some narrow) "ci" (Ok "secret") "T1" 0 0 None s0).1.
Definition w1 : World := world_of cfg Hour s1.
Definition header : string := "Bearer switchyard_T1_" +:+ encode base32 "secret".

(** A policy that lets viewers read every entity. *)
Definition rt : Runtime :=
  mkRuntime (fun _ => ["viewer"])
    (Some (mkCompiled 1 {[("viewer", "read") := {["EntityService.Get"]}]}
       {["viewer" := [mkCompiledRule "all" {["read"]} ∅ (mkCompiledSelector "" ∅ ∅ ∅ true)]]} ∅ ∅ ∅)) [].
Definition cat : Catalog (Body := unit) := fun _ _ =>
  Some (mkAction "EntityService" "Get" "read", mkAuthTarget "entity" "light.kitchen" "kitchen" "light" None).
Definition call : gmap string CompiledTokenScope * result gate_error CallContext :=
  gate hash mac unmarshal w1 (Some rt) (Some cat) ∅ "/EntityService/Get" "" header None None (Some tt).

Lemma w1_cache_ok : cache_ok unmarshal (w_tokens w1) ∅.
Proof. split; [vm_compute; reflexivity|]. intros id c. by rewrite lookup_empty. Qed.

(** The daemon has let the call through once, so that the scope is cached. *)
Lemma w1_history : gate_history (Body := unit) hash mac unmarshal (w_tokens w1) call.1.
Proof. apply (gh_call hash mac unmarshal w1), gh_start. vm_compute. reflexivity. Qed.
Definition call2 : gmap string CompiledTokenScope * result gate_error CallContext :=
  gate hash mac unmarshal w1 (Some rt) (Some cat) call.1 "/EntityService/Get" "" header None None (Some tt).

(** The call passes. *)
Example call_passes : is_ok call.2 = true.
Proof. vm_compute. reflexivity. Qed.

Example call2_passes : is_ok call2.2 = true.
Proof. vm_compute. reflexivity. Qed.

Lemma gate_exact_witness :
  exists p blob scope, caller hash mac w1 header None None p blob /\ scope_for unmarshal blob scope.
Proof.
  pose proof (fun ctx => gate_exact hash mac unmarshal w1 (Some rt) (Some cat) call.1 "/EntityService/Get" "" header None
    None (Some tt) ctx eq_refl w1_history) as H. fold call2 in H.
  pose proof call2_passes as Hp. destruct call2 as [cache' [ctx|e]]; [|done].
  destruct (proj1 (H ctx) eq_refl) as (p & blob & scope & H1 & H2 & _). by exists p, blob, scope.
Defined.

Lemma delegated_token_bounded_witness :
  Scope_Allow narrow_scope "EntityService.Get" (mkTarget "entity" "light.kitchen" "kitchen" "light") = true.
Proof.
  assert (Hcall : exists ctx p, call.2 = Ok ctx /\ cx_principal ctx = Some p /\
    ap_Metadata p !! "token_id" = Some "T1").
  { destruct call as [cache' [ctx|e]] eqn:Hc.
    - exists ctx. unfold call in Hc. vm_compute in Hc. injection Hc as _ <-. eexists. split; [done|]. split; [done|].
      vm_compute. reflexivity.
    - exfalso. pose proof call_passes as Hp. by rewrite Hc in Hp. }
  destruct Hcall as (ctx & p & Hc & Hp & Hid).
  refine (delegated_token_bounded hash mac marshal unmarshal marshal_law marshal_law' (Some narrow) narrow_scope annctx
    (Some narrow) "ci" "secret" "T1" 0 0 s0 s1
    (plaintext_of "T1" (encode base32 "secret"), "T1") [] w1 rt cat ∅ "/EntityService/Get" "" header
    None None tt call.1 ctx p (mkAction "EntityService" "Get" "read")
    (mkAuthTarget "entity" "light.kitchen" "kitchen" "light" None) _ _ _ _ _ w1_cache_ok _ Hp Hid _ _);
    try reflexivity.
  fold call. by rewrite (surjective_pairing call), Hc.
Defined.
End AuthDemo.
