(* ===== verification/Expiring.v ===== *)
(** * Maps whose entries expire and are taken once

    The shape shared by the store of WebAuthn challenges
    ([internal/auth/credentials/webauthn.go]) and the store of pairing codes
    ([internal/display/pairing.go]): entries with a deadline, taken at most once,
    swept when their deadline has passed.

    [answers_agree] says that sweeping is invisible: every request is answered
    as by a map that keeps everything until it is taken. *)

From S2P Require Import Prelude.

Section Expiring.
Context {V : Type}.

Record entry := mkEntry { e_value : V; e_expires : Z }.

(** [time.Now().After(expires)]. *)
Definition expired (now : Z) (e : entry) : bool := e_expires e <? now.

Definition put (k : string) (v : V) (expires : Z) (m : gmap string entry) : gmap string entry :=
  <[k := mkEntry v expires]> m.

(** Removes the entry in any case. *)
Definition take (now : Z) (k : string) (m : gmap string entry) : gmap string entry * option entry := (delete k m, m !! k).

Definition sweep (now : Z) (m : gmap string entry) : gmap string entry := filter (fun p => expired now p.2 = false) m.

(** The answer to a request. *)
Definition answer (now : Z) (o : option entry) : option V :=
  match o with Some e => if expired now e then None else Some (e_value e) | None => None end.

(** ** Histories *)

Inductive op := Put (now : Z) (k : string) (v : V) (expires : Z) | Take (now : Z) (k : string) | Sweep (now : Z).

Definition op_time (o : op) : Z := match o with Put t _ _ _ | Take t _ | Sweep t => t end.

(** The map and the answers given so far, with sweeping and without. *)
Definition step (st : gmap string entry * list (string * V)) (o : op) : gmap string entry * list (string * V) :=
  match o with
  | Put _ k v exp => (put k v exp st.1, st.2)
  | Take now k => ((take now k st.1).1, match answer now (st.1 !! k) with Some v => st.2 ++ [(k, v)] | None => st.2 end)
  | Sweep now => (sweep now st.1, st.2)
  end.

Definition keep_step (st : gmap string entry * list (string * V)) (o : op) : gmap string entry * list (string * V) :=
  match o with Sweep _ => st | _ => step st o end.

(** The clock does not run backwards. *)
Fixpoint monotone (t : Z) (l : list op) : Prop :=
  match l with
  | [] => True
  | o :: l' => t <= op_time o /\ monotone (op_time o) l'
  end.

(** The swept map lacks only entries that have expired. *)
Definition agrees (t : Z) (m full : gmap string entry) : Prop :=
  forall k, m !! k = full !! k \/ (m !! k = None /\ exists e, full !! k = Some e /\ e_expires e < t).

Lemma agrees_answer t now m full k : agrees t m full -> t <= now -> answer now (m !! k) = answer now (full !! k).
Proof.
  intros Ha Ht. destruct (Ha k) as [->|(-> & e & -> & He)]; [done|]. cbn. unfold expired.
  by rewrite (proj2 (Z.ltb_lt _ _)) by lia.
Qed.

Lemma agrees_step t st full o :
  agrees t st.1 full.1 -> st.2 = full.2 -> t <= op_time o ->
  agrees (op_time o) (step st o).1 (keep_step full o).1 /\ (step st o).2 = (keep_step full o).2.
Proof.
  intros Ha Hans Ht.
  assert (agrees (op_time o) st.1 full.1) as Ha'.
  { intros k. destruct (Ha k) as [?|(? & e & ? & ?)]; [by left|]. right. split; [done|]. exists e. split; [done|lia]. }
  destruct o as [now k v exp|now k|now]; cbn in *.
  - split; [|done]. intros j. unfold put. destruct (decide (j = k)) as [->|]; [left; by rewrite !lookup_insert_eq|].
    rewrite !lookup_insert_ne by done. apply Ha'.
  - rewrite (agrees_answer _ _ _ _ k Ha Ht), Hans. split; [|done]. intros j.
    destruct (decide (j = k)) as [->|]; [left; by rewrite !lookup_delete_eq|].
    rewrite !lookup_delete_ne by done. apply Ha'.
  - split; [|done]. intros j. unfold sweep. rewrite map_lookup_filter. destruct (Ha' j) as [->|(-> & ?)]; [|by right].
    destruct (full.1 !! j) as [e|]; [|by left]. cbn. unfold expired.
    destruct (Z.ltb_spec (e_expires e) now); [right; rewrite option_guard_False by done; eauto | left; by rewrite option_guard_True].
Qed.

Lemma answers_agree l t st full :
  agrees t st.1 full.1 -> st.2 = full.2 -> monotone t l -> (foldl step st l).2 = (foldl keep_step full l).2.
Proof.
  revert t st full. induction l as [|o l IH]; intros t st full Ha Hans; [done|]. cbn [foldl monotone].
  intros [Ht Hl]. destruct (agrees_step t st full o Ha Hans Ht) as [Ha' Hans']. by eapply IH.
Qed.

(** ** At most once *)

Definition is_put (k : string) (o : op) : bool := match o with Put _ k' _ _ => bool_decide (k' = k) | _ => false end.
Definition count_puts (k : string) (l : list op) : nat := length (filter (fun o => is_put k o = true) l).
Definition count_answers (k : string) (l : list (string * V)) : nat := length (filter (fun p => p.1 = k) l).

Lemma count_answers_bound k l st :
  (count_answers k (foldl step st l).2 <= count_answers k st.2 + count_puts k l + (if st.1 !! k then 1 else 0))%nat.
Proof.
  revert st. induction l as [|o l IH]; intros st; cbn [foldl]; [cbn; lia|]. specialize (IH (step st o)).
  unfold count_puts in *. rewrite filter_cons. destruct o as [now k' v exp|now k'|now]; cbn [step fst snd] in *.
  - unfold put in *. destruct (decide (k' = k)) as [->|Hk].
    + rewrite decide_True by by apply bool_decide_eq_true. rewrite lookup_insert_eq in IH. cbn [length]. lia.
    + rewrite decide_False by (cbn; by rewrite bool_decide_eq_true). rewrite lookup_insert_ne in IH by done. lia.
  - rewrite decide_False by done. cbn [take fst] in *. destruct (decide (k' = k)) as [->|Hk].
    + rewrite lookup_delete_eq in IH. destruct (st.1 !! k) as [e|]; cbn [answer] in *; [|lia].
      destruct (expired now e); [lia|]. unfold count_answers in *. rewrite filter_app, length_app in IH.
      rewrite filter_cons_True in IH by done. cbn in IH. lia.
    + rewrite lookup_delete_ne in IH by done. destruct (answer now (st.1 !! k')); [|lia].
      unfold count_answers in *. rewrite filter_app, length_app, filter_cons_False in IH by done. cbn in IH. lia.
  - rewrite decide_False by done. unfold sweep in *. rewrite map_lookup_filter in IH.
    destruct (st.1 !! k) as [e|]; cbn in *; [|lia]. destruct (decide (expired now e = false)) as [Hd|Hd].
    + rewrite option_guard_True in IH by done. cbn in IH. lia.
    + rewrite option_guard_False in IH by done. cbn in IH. lia.
Qed.

End Expiring.
Arguments entry : clear implicits.
Arguments op : clear implicits.
