(* ===== verification/Passkeys.v ===== *)
(** * Passkeys and their challenges

    Models [internal/auth/credentials/webauthn.go] (the table [auth_passkeys] and
    the challenge store) and the handlers of [internal/api/service_auth.go] that
    run the WebAuthn ceremonies. The WebAuthn library is the record [WebAuthn] of
    what the code calls of it; nothing is assumed of it. The payload of a
    challenge is kept as a value; the code stores its JSON. Random bytes, ULIDs
    and clock readings are arguments; a handler reads the clock once. A daemon with
    passkeys is modelled: without them the handlers refuse every call. *)

From Stdlib Require Import Ascii String.
From S2P Require Import Prelude Codec Policy TokenScope Throttle Sessions Authn AuthService Expiring.

(** ** The library *)

Record Credential := mkCredential { cred_ID : string; cred_PublicKey : string; cred_SignCount : Z }.
Record Assertion := mkAssertion { as_RawID : string; as_UserHandle : string; as_Body : string }.

Record WebAuthn := mkWebAuthn {
  ParseCreation : string -> option string;
  ParseAssertion : string -> option Assertion;
  w_BeginRegistration : string -> string -> list Credential -> result string string;
  w_CreateCredential : string -> list Credential -> string -> string -> result string Credential;
  w_BeginLogin : result string string;
  (** The new sign count and the clone warning. *)
  w_ValidateLogin : string -> list Credential -> string -> Assertion -> result string (Z * bool);
}.

(** ** The table of passkeys *)

Record PasskeyRow := mkPasskeyRow {
  pk_UserSlug : string; pk_PublicKey : string; pk_SignCount : Z; pk_Label : string; pk_RegisteredAt : Z; pk_LastUsedAt : option Z;
}.

Definition loadCredentials (slug : string) (t : gmap string PasskeyRow) : list Credential :=
  (fun p => mkCredential p.1 (pk_PublicKey p.2) (pk_SignCount p.2)) <$>
  filter (fun p => pk_UserSlug p.2 = slug) (map_to_list t).

Definition Remove (credID : string) (t : gmap string PasskeyRow) : gmap string PasskeyRow := delete credID t.

Inductive passkey_error := ErrSignCountRegression | PasskeyOther (msg : string).

(** ** The challenge store *)

Record webAuthnChallengePayload := mkPayload { wp_Kind : string; wp_UserSlug : string; wp_SessionData : option string }.

Abbreviation Challenges := (gmap string (entry webAuthnChallengePayload)).

Definition challenge_key (sessionID id : string) : string := sessionID +:+ ":" +:+ id.

(** [ChallengeStore.Store]; [id] is the new ULID. *)
Definition Store (ttl now : Z) (id sessionID : string) (p : webAuthnChallengePayload) (m : Challenges) : Challenges :=
  put (challenge_key sessionID id) p (now + ttl) (Expiring.sweep now m).

(** [ChallengeStore.Consume]; [None] is [ErrChallengeNotFound]. *)
Definition Consume (now : Z) (sessionID id : string) (m : Challenges) : Challenges * option webAuthnChallengePayload :=
  let key := challenge_key sessionID id in
  ((take now key m).1, answer now (m !! key)).

Section Passkeys.
Context (W : WebAuthn).

(** [fault] is the failure of the insert; the primary key can refuse it too. *)
Definition FinishRegistration (now : Z) (fault : option string) (slug label : string) (sd : option string)
    (response : string) (t : gmap string PasskeyRow) : gmap string PasskeyRow * result string Credential :=
  match sd with
  | None => (t, Err "credentials: nil session data")
  | Some sd =>
      match w_CreateCredential W slug (loadCredentials slug t) sd response with
      | Err e => (t, Err ("create credential: " +:+ e))
      | Ok cred =>
          match fault, t !! cred_ID cred with
          | Some e, _ => (t, Err e)
          | None, Some _ => (t, Err "UNIQUE constraint failed: auth_passkeys.credential_id")
          | None, None =>
              (<[cred_ID cred := mkPasskeyRow slug (cred_PublicKey cred) (cred_SignCount cred) label (Unix now) None]> t, Ok cred)
          end
      end
  end.

(** The update touches the row of the presented credential, if there is one. *)
Definition FinishLogin (now : Z) (fault : option string) (sd : option string) (a : Assertion) (t : gmap string PasskeyRow) :
    gmap string PasskeyRow * result passkey_error string :=
  match sd with
  | None => (t, Err (PasskeyOther "credentials: nil session data"))
  | Some sd =>
      let slug := as_UserHandle a in
      match w_ValidateLogin W slug (loadCredentials slug t) sd a with
      | Err e => (t, Err (PasskeyOther e))
      | Ok (count, clone) =>
          if clone : bool then (t, Err ErrSignCountRegression)
          else match fault with
          | Some e => (t, Err (PasskeyOther e))
          | None =>
              (alter (fun r => mkPasskeyRow (pk_UserSlug r) (pk_PublicKey r) count (pk_Label r) (pk_RegisteredAt r) (Some (Unix now)))
                 (as_RawID a) t, Ok slug)
          end
      end
  end.

(** ** The handlers *)

Definition webAuthnChallengeCookie : string := "switchyard_webauthn".

(** What a handler reads besides the request and the context: the cookies of the
    HTTP request, whether there is a response writer, 32 random bytes, a ULID and
    the clock. *)
Record CeremonyEnv := mkCeremonyEnv {
  ce_cookies : option (list (string * string)); ce_writer : bool; ce_random : string; ce_ulid : string; ce_now : Z;
}.

Inductive ceremony_error :=
  | CE_ChallengeNotFound
  | CE_Internal (msg : string) | CE_InvalidArgument (msg : string) | CE_Unauthenticated (msg : string)
  | CE_PermissionDenied (msg : string).

(** [webAuthnChallengeSessionKey]: the key, and the cookie it sets. *)
Definition webAuthnChallengeSessionKey (env : CeremonyEnv) (ctx : CallContext) (create : bool) :
    result ceremony_error (string * list SetCookie) :=
  let sid := match cx_principal ctx with Some p => default "" (ap_Metadata p !! "session_id") | None => "" end in
  if negb (is_empty sid) then Ok ("session:" +:+ sid, [])
  else
    let cookie := match ce_cookies env with Some cs => default "" (Cookie cs webAuthnChallengeCookie) | None => "" end in
    if negb (is_empty cookie) then Ok ("cookie:" +:+ cookie, [])
    else if negb create then Err CE_ChallengeNotFound
    else if negb (ce_writer env) then Err (CE_Internal "no response writer")
    else let value := encode base64_url (ce_random env) in
         Ok ("cookie:" +:+ value, [mkSetCookie webAuthnChallengeCookie value 300]).

Record PasskeyState := mkPasskeyState { ps_challenges : Challenges; ps_passkeys : gmap string PasskeyRow }.

Definition storeWebAuthnChallenge (ttl : Z) (env : CeremonyEnv) (ctx : CallContext) (p : webAuthnChallengePayload)
    (s : PasskeyState) : PasskeyState * list SetCookie * result ceremony_error string :=
  match webAuthnChallengeSessionKey env ctx true with
  | Err e => (s, [], Err e)
  | Ok (key, cookies) =>
      (mkPasskeyState (Store ttl (ce_now env) (ce_ulid env) key p (ps_challenges s)) (ps_passkeys s), cookies, Ok (ce_ulid env))
  end.

Definition consumeWebAuthnChallenge (env : CeremonyEnv) (ctx : CallContext) (id kind : string) (s : PasskeyState) :
    PasskeyState * result ceremony_error webAuthnChallengePayload :=
  if is_empty id then (s, Err (CE_InvalidArgument "missing webauthn challenge id"))
  else match webAuthnChallengeSessionKey env ctx false with
  | Err e => (s, Err e)
  | Ok (key, _) =>
      let '(m, r) := Consume (ce_now env) key id (ps_challenges s) in
      let s' := mkPasskeyState m (ps_passkeys s) in
      match r with
      | None => (s', Err CE_ChallengeNotFound)
      | Some p => if negb (String.eqb (wp_Kind p) kind) || negb (bool_decide (is_Some (wp_SessionData p)))
                  then (s', Err (CE_Unauthenticated "invalid webauthn challenge")) else (s', Ok p)
      end
  end.

(** An error of [userSlugForPasskeyRegistration] as this handler returns it. *)
Definition lift_slug_error (e : rpc_error) : ceremony_error :=
  match e with
  | Unauthenticated m => CE_Unauthenticated m
  | PermissionDenied m => CE_PermissionDenied m
  | Internal m | NotFound m => CE_Internal m
  | InvalidArgument m => CE_InvalidArgument m
  | ValidationFailed _ => CE_Internal ""
  end.

(** [StartWebAuthnChallenge], without the options it returns to the client. *)
Definition StartWebAuthnChallenge (ttl : Z) (env : CeremonyEnv) (ctx : CallContext) (intent userSlug displayName : string)
    (s : PasskeyState) : PasskeyState * list SetCookie * result ceremony_error string :=
  if String.eqb intent "register" || String.eqb intent "register_passkey" then
    match userSlugForPasskeyRegistration ctx userSlug with
    | Err e => (s, [], Err (lift_slug_error e))
    | Ok slug =>
        match w_BeginRegistration W slug displayName (loadCredentials slug (ps_passkeys s)) with
        | Err e => (s, [], Err (CE_Internal e))
        | Ok sd => storeWebAuthnChallenge ttl env ctx (mkPayload "register" slug (Some sd)) s
        end
    end
  else if String.eqb intent "login" then
    match w_BeginLogin W with
    | Err e => (s, [], Err (CE_Internal e))
    | Ok sd => storeWebAuthnChallenge ttl env ctx (mkPayload "login" "" (Some sd)) s
    end
  else (s, [], Err (CE_InvalidArgument "invalid webauthn intent")).

Definition RegisterPasskey (env : CeremonyEnv) (ctx : CallContext) (fault : option string)
    (userSlug credential challengeID label : string) (s : PasskeyState) : PasskeyState * result ceremony_error string :=
  match userSlugForPasskeyRegistration ctx userSlug with
  | Err e => (s, Err (lift_slug_error e))
  | Ok slug =>
      match ParseCreation W credential with
      | None => (s, Err (CE_InvalidArgument "credential"))
      | Some parsed =>
          match consumeWebAuthnChallenge env ctx challengeID "register" s with
          | (s1, Err CE_ChallengeNotFound) => (s1, Err (CE_Unauthenticated "webauthn: challenge not found or expired"))
          | (s1, Err e) => (s1, Err e)
          | (s1, Ok p) =>
              if negb (is_empty (wp_UserSlug p)) && negb (String.eqb (wp_UserSlug p) slug)
              then (s1, Err (CE_PermissionDenied "challenge belongs to a different user"))
              else
                let label := if is_empty label then "passkey" else label in
                let '(t, r) := FinishRegistration (ce_now env) fault slug label (wp_SessionData p) parsed (ps_passkeys s1) in
                match r with
                | Err e => (mkPasskeyState (ps_challenges s1) t, Err (CE_InvalidArgument e))
                | Ok cred => (mkPasskeyState (ps_challenges s1) t, Ok (encode base64_url (cred_ID cred)))
                end
          end
      end
  end.

(** An error of the challenge as the handlers return it. *)
Definition challenge_rpc_error (e : ceremony_error) : rpc_error :=
  match e with
  | CE_ChallengeNotFound => Unauthenticated "webauthn: challenge not found or expired"
  | CE_Internal m => Internal m
  | CE_InvalidArgument m => InvalidArgument m
  | CE_Unauthenticated m => Unauthenticated m
  | CE_PermissionDenied m => PermissionDenied m
  end.

(** The part of [loginPasskey] between the throttle and the session: who the
    ceremony authenticates. *)
Definition login_ceremony (env : CeremonyEnv) (ctx : CallContext) (fault : option string) (credential challengeID : string)
    (s : PasskeyState) : PasskeyState * result rpc_error string :=
  match ParseAssertion W credential with
  | None => (s, Err (Unauthenticated "invalid passkey assertion"))
  | Some a =>
      match consumeWebAuthnChallenge env ctx challengeID "login" s with
      | (s1, Err e) => (s1, Err (challenge_rpc_error e))
      | (s1, Ok p) =>
          let '(t, r) := FinishLogin (ce_now env) fault (wp_SessionData p) a (ps_passkeys s1) in
          (mkPasskeyState (ps_challenges s1) t,
           match r with
           | Ok slug => Ok slug
           | Err ErrSignCountRegression => Err (Unauthenticated "credentials: passkey sign-count regression")
           | Err (PasskeyOther _) => Err (Unauthenticated "invalid passkey assertion")
           end)
      end
  end.

End Passkeys.

(** * Passkeys: one use per challenge, and who may register *)


(** ** Challenges *)

Inductive challenge_op :=
  | ChStore (now : Z) (id sessionID : string) (p : webAuthnChallengePayload)
  | ChConsume (now : Z) (sessionID id : string).

Definition ch_time (o : challenge_op) : Z := match o with ChStore t _ _ _ | ChConsume t _ _ => t end.

(** The session and the id of a challenge, and what is handed out for it. *)
Notation handed := (list ((string * string) * webAuthnChallengePayload)).

(** The store, and the challenges handed out so far, each with the session and the id that
    it was asked for under. *)
Definition ch_step (ttl : Z) (st : Challenges * handed) (o : challenge_op) : Challenges * handed :=
  match o with
  | ChStore now id sid p => (Store ttl now id sid p st.1, st.2)
  | ChConsume now sid id => let '(m, r) := Consume now sid id st.1 in
                            (m, match r with Some p => st.2 ++ [((sid, id), p)] | None => st.2 end)
  end.

(** What the store promises: a table of challenges by session and id, from which nothing
    goes but what is consumed, and which hands out nothing after its deadline. *)
Definition ch_reference (ttl : Z) (st : gmap (string * string) (entry webAuthnChallengePayload) * handed) (o : challenge_op) :
    gmap (string * string) (entry webAuthnChallengePayload) * handed :=
  match o with
  | ChStore now id sid p => (<[(sid, id) := mkEntry p (now + ttl)]> st.1, st.2)
  | ChConsume now sid id =>
      (delete (sid, id) st.1,
       match st.1 !! (sid, id) with
       | Some e => if now <=? e_expires e then st.2 ++ [((sid, id), e_value e)] else st.2
       | None => st.2
       end)
  end.

Fixpoint clock_ok (t : Z) (l : list challenge_op) : Prop :=
  match l with [] => True | o :: l' => t <= ch_time o /\ clock_ok (ch_time o) l' end.

(** How often a challenge was stored under a session and an id. *)
Definition stores_of (sid id : string) (l : list challenge_op) : nat :=
  length (filter (fun o => match o with ChStore _ id' sid' _ => bool_decide ((sid', id') = (sid, id)) | _ => false end = true) l).

(** As operations of an expiring map. *)
Definition lower (ttl : Z) (o : challenge_op) : list (op webAuthnChallengePayload) :=
  match o with
  | ChStore now id sid p => [Sweep now; Put now (challenge_key sid id) p (now + ttl)]
  | ChConsume now sid id => [Take now (challenge_key sid id)]
  end.

(** The challenges handed out, by the key of the table. *)
Definition by_key (h : handed) : list (string * webAuthnChallengePayload) :=
  (fun p => (challenge_key p.1.1 p.1.2, p.2)) <$> h.

Lemma lower_run ttl l st :
  let r := foldl (ch_step ttl) st l in (r.1, by_key r.2) = foldl step (st.1, by_key st.2) (l ≫= lower ttl).
Proof.
  revert st. induction l as [|[now id sid p|now sid id] l IH]; intros [m h]; [done|..]; cbn zeta; cbn [foldl]; rewrite IH; cbn; [done|].
  do 2 f_equal. unfold Consume. cbn. destruct (answer now (m !! challenge_key sid id)); [|done].
  unfold by_key. by rewrite fmap_app.
Qed.

Lemma lower_monotone ttl t l : clock_ok t l -> monotone t (l ≫= lower ttl).
Proof.
  revert t. induction l as [|[] l IH]; intros t; cbn; [done|..]; intros [Ht Hl]; split_and!; try lia; by apply IH.
Qed.

(** A session key as the handlers make it, and one whose session id or cookie has no colon, as
    those that the server generates. *)
Definition session_key (sid : string) : Prop :=
  exists kind v, (kind = "session" \/ kind = "cookie") /\ sid = kind +:+ String ":" v.
Definition generated_key (sid id : string) : Prop :=
  lacks ":" id /\ exists kind v, (kind = "session" \/ kind = "cookie") /\ sid = kind +:+ String ":" v /\ lacks ":" v.

Lemma session_key_made env ctx create key cookies :
  webAuthnChallengeSessionKey env ctx create = Ok (key, cookies) -> session_key key.
Proof.
  unfold webAuthnChallengeSessionKey. destruct (negb _); [intros [= <- _]; eexists "session", _; split; [by left|reflexivity]|].
  destruct (negb _); [intros [= <- _]; eexists "cookie", _; split; [by right|reflexivity]|].
  destruct (negb create); [done|]. destruct (negb _); [done|].
  intros [= <- _]. eexists "cookie", _; split; [by right|reflexivity].
Qed.

Lemma single_separator c a b a' b' :
  lacks c a' -> lacks c b' -> a +:+ String c b = a' +:+ String c b' -> a = a' /\ b = b'.
Proof.
  intros Ha' Hb'. revert a' Ha'. induction a as [|d a IH]; intros [|d' a'] Ha' Heq.
  - by injection Heq as ->.
  - injection Heq as -> _. destruct Ha'. left.
  - injection Heq as -> <-. apply lacks_app in Hb' as [_ Hb']. destruct Hb'. left.
  - injection Heq as -> Heq. destruct (IH a') as [-> ->]; [|done..]. intros H. apply Ha'. by right.
Qed.

(** No other session and id have the key of a generated one. *)
Lemma challenge_key_inj sid id sid' id' :
  generated_key sid id -> session_key sid' -> challenge_key sid' id' = challenge_key sid id <-> (sid', id') = (sid, id).
Proof.
  intros (Hid & kind & v & Hk & -> & Hv) (kind' & v' & Hk' & ->). split; [|by intros [= -> ->]]. unfold challenge_key.
  assert (Hlk : forall k, k = "session" \/ k = "cookie" -> lacks ":" k) by (intros k [->| ->]; by_decision).
  assert (Happ : forall k x i, (k +:+ String ":" x) +:+ ":" +:+ i = k +:+ String ":" (x +:+ String ":" i)).
  { intros k x i. rewrite str_app_assoc. reflexivity. }
  rewrite !Happ. intros Heq. pose proof (f_equal (cut ":") Heq) as Hc.
  rewrite !cut_app in Hc by auto. injection Hc as -> Hc. by destruct (single_separator _ _ _ _ _ Hv Hid Hc) as [-> ->].
Qed.

Definition ch_session (o : challenge_op) : string := match o with ChStore _ _ sid _ | ChConsume _ sid _ => sid end.

Lemma filter_by_key sid id h :
  generated_key sid id -> Forall (fun p => session_key p.1.1) h ->
  filter (fun p => p.1 = challenge_key sid id) (by_key h) = by_key (filter (fun p => p.1 = (sid, id)) h).
Proof.
  intros Hg. induction 1 as [|[[sid' id'] p] h Hs _ IH]; [done|]. unfold by_key in *. cbn [fmap list_fmap].
  rewrite !filter_cons. cbn in Hs. pose proof (challenge_key_inj sid id sid' id' Hg Hs) as Hiff.
  cbn [fst]. repeat case_decide; rewrite ?IH; naive_solver.
Qed.

Lemma run_sessions ttl l st :
  Forall (fun o => session_key (ch_session o)) l -> Forall (fun p => session_key p.1.1) st.2 ->
  Forall (fun p : (string * string) * _ => session_key p.1.1) (foldl (ch_step ttl) st l).2.
Proof.
  intros Hl. revert st. induction Hl as [|o l Ho _ IH]; intros st Hst; [done|]. apply IH.
  destruct o as [now id sid p|now sid id]; cbn in *; [done|]. destruct (answer _ _); [|done].
  apply Forall_app. split; [done|]. by apply Forall_singleton.
Qed.

(** The table by session and id answers as the table by keys does when nothing is swept. *)
Lemma reference_agrees ttl sid id l m full h h' :
  generated_key sid id -> Forall (fun o => session_key (ch_session o)) l ->
  full !! challenge_key sid id = m !! (sid, id) ->
  filter (fun p => p.1 = challenge_key sid id) h' = by_key (filter (fun p => p.1 = (sid, id)) h) ->
  filter (fun p => p.1 = challenge_key sid id) (foldl keep_step (full, h') (l ≫= lower ttl)).2 =
    by_key (filter (fun p => p.1 = (sid, id)) (foldl (ch_reference ttl) (m, h) l).2).
Proof.
  intros Hg Hl. revert m full h h'. induction Hl as [|o l Ho _ IH]; intros m full h h' Hm Hh; [done|].
  destruct o as [now id' sid' p|now sid' id']; cbn in Ho; pose proof (challenge_key_inj sid id sid' id' Hg Ho) as Hiff;
    rewrite bind_cons, foldl_app; cbn [lower foldl keep_step step ch_reference fst snd]; apply IH.
  - unfold put. destruct (decide ((sid', id') = (sid, id))) as [[= -> ->]|Hne]; [by rewrite !lookup_insert_eq|].
    rewrite !lookup_insert_ne by naive_solver. done.
  - done.
  - cbn. destruct (decide ((sid', id') = (sid, id))) as [[= -> ->]|Hne]; [by rewrite !lookup_delete_eq|].
    rewrite !lookup_delete_ne by naive_solver. done.
  - destruct (decide ((sid', id') = (sid, id))) as [[= -> ->]|Hne].
    + rewrite Hm. destruct (m !! (sid, id)) as [e|]; [|done]. cbn. unfold expired.
      destruct (Z.leb_spec now (e_expires e)), (Z.ltb_spec (e_expires e) now); try lia; [|done].
      rewrite !filter_app, Hh, !filter_cons_True by done. unfold by_key. by rewrite fmap_app.
    + assert (Hkeep : forall v, filter (fun p => p.1 = challenge_key sid id) (h' ++ [(challenge_key sid' id', v)]) =
                             filter (fun p => p.1 = challenge_key sid id) h').
      { intros v. rewrite filter_app, filter_cons_False by naive_solver. by rewrite app_nil_r. }
      assert (Hkeep' : forall v, filter (fun p => p.1 = (sid, id)) (h ++ [((sid', id'), v)]) = filter (fun p => p.1 = (sid, id)) h).
      { intros v. rewrite filter_app, filter_cons_False by done. by rewrite app_nil_r. }
      destruct (answer now (full !! challenge_key sid' id')), (m !! (sid', id')) as [e|]; rewrite ?Hkeep; try done;
        destruct (now <=? e_expires e); rewrite ?Hkeep'; done.
Qed.

Lemma by_key_inj sid id h h' :
  by_key (filter (fun p => p.1 = (sid, id)) h) = by_key (filter (fun p => p.1 = (sid, id)) h') ->
  filter (fun p => p.1 = (sid, id)) h = filter (fun p => p.1 = (sid, id)) h'.
Proof.
  intros Heq. apply (f_equal (fmap snd)) in Heq. unfold by_key in Heq. rewrite <- !list_fmap_compose in Heq. cbn in Heq.
  assert (Hall : forall g : handed, filter (fun p => p.1 = (sid, id)) g = (fun v => ((sid, id), v)) <$> (snd <$> filter (fun p => p.1 = (sid, id)) g)).
  { intros g. induction g as [|[k v] g IH]; [done|]. rewrite filter_cons. cbn [fst]. case_decide as Hk; [|done]. subst k. cbn. by f_equal. }
  rewrite (Hall h), (Hall h'). f_equal. exact Heq.
Qed.

Lemma keyed_puts ttl sid id l :
  generated_key sid id -> Forall (fun o => session_key (ch_session o)) l ->
  count_puts (challenge_key sid id) (l ≫= lower ttl) = stores_of sid id l.
Proof.
  intros Hg. unfold count_puts, stores_of. induction 1 as [|o l Ho _ IH]; [done|].
  rewrite bind_cons, filter_app, length_app, IH, filter_cons. destruct o as [now id' sid' p|now sid' id']; cbn in Ho.
  - cbn [lower]. rewrite filter_cons_False by done. rewrite filter_cons. cbn [is_put].
    pose proof (challenge_key_inj sid id sid' id' Hg Ho) as Hiff.
    rewrite (bool_decide_ext _ _ Hiff). by case_decide.
  - by rewrite (decide_False (P := false = true)).
Qed.

(** C17. A WebAuthn challenge is used at most once, by the session it was made for and
    before it expires: take a challenge stored under a session id or a cookie as the server
    generates them (without a colon). Over any history of storing and consuming, by any
    sessions, with a clock that does not run backwards, what is handed out for it is what a
    table by session and id without garbage collection hands out, and never more than was
    stored under that very session and id. *)
Theorem challenge_single_use (ttl t : Z) (l : list challenge_op) sid id :
  clock_ok t l -> Forall (fun o => session_key (ch_session o)) l -> generated_key sid id ->
  let mine (h : handed) := filter (fun p => p.1 = (sid, id)) h in
  let got := (foldl (ch_step ttl) (∅, []) l).2 in
  mine got = mine (foldl (ch_reference ttl) (∅, []) l).2 /\ (length (mine got) <= stores_of sid id l)%nat.
Proof.
  intros Hc Hl Hg mine got. pose proof (lower_run ttl l (∅, [])) as Hrun. cbn zeta in Hrun. cbn [fst snd] in Hrun.
  assert (Hgot : by_key got = (foldl step (∅, []) (l ≫= lower ttl)).2).
  { change (∅, []) with (∅ : Challenges, by_key []). by rewrite <- Hrun. }
  assert (Hs : Forall (fun p => session_key p.1.1) got) by (apply run_sessions; [done|constructor]).
  split.
  - apply by_key_inj. rewrite <- filter_by_key, Hgot by done.
    rewrite (answers_agree _ t (∅, []) (∅, [])); [|by left|done|by apply lower_monotone].
    by apply reference_agrees.
  - pose proof (count_answers_bound (challenge_key sid id) (l ≫= lower ttl) (∅, [])) as H.
    rewrite keyed_puts, <- Hgot in H by done. unfold count_answers in H. rewrite filter_by_key in H by done.
    cbn [fst snd] in H. rewrite lookup_empty in H. unfold by_key in H. rewrite length_fmap in H. cbn in H. fold (mine got) in H. lia.
Qed.

(** ** Registration *)

Section Registration.
Context (W : WebAuthn).

(** The user of a context, if it has one. *)
Definition user_of_ctx (ctx : CallContext) : option string :=
  p ← cx_principal ctx; if has_prefix (ap_ID p) "user:" then Some (trim_prefix (ap_ID p) "user:") else None.

Lemma slug_for_user ctx requested slug u :
  userSlugForPasskeyRegistration ctx requested = Ok slug -> user_of_ctx ctx = Some u -> slug = u.
Proof.
  unfold userSlugForPasskeyRegistration, user_of_ctx. destruct (cx_principal ctx) as [p|]; [|done].
  cbn [mbind option_bind]. destruct (has_prefix (ap_ID p) "user:"); [|intros _ [=]]. destruct (_ && _); [done|]. by intros [= <-] [= <-].
Qed.

Lemma consume_spec env ctx id kind s s' p :
  consumeWebAuthnChallenge env ctx id kind s = (s', Ok p) ->
  exists key cookies e, webAuthnChallengeSessionKey env ctx false = Ok (key, cookies) /\
    ps_challenges s !! challenge_key key id = Some e /\ ce_now env <= e_expires e /\ e_value e = p /\
    wp_Kind p = kind /\ ps_challenges s' = delete (challenge_key key id) (ps_challenges s) /\ ps_passkeys s' = ps_passkeys s.
Proof.
  unfold consumeWebAuthnChallenge. case_match; [done|].
  destruct (webAuthnChallengeSessionKey env ctx false) as [[key cookies]|]; [|done]. unfold Consume, answer. cbn.
  destruct (ps_challenges s !! challenge_key key id) as [e|] eqn:He; [|done]. unfold expired.
  destruct (Z.ltb_spec (e_expires e) (ce_now env)); [done|].
  destruct (String.eqb_spec (wp_Kind (e_value e)) kind) as [Hk|]; [|done]. cbn. case_match; [done|]. intros [= <- <-].
  exists key, cookies, e. by split_and!.
Qed.

(** A passkey is registered for the caller alone: when a registration
    succeeds, one row is added, its user is the authenticated user whatever user
    the request names, its credential is the one the WebAuthn library created
    from a registration challenge stored for the same browser session, not
    expired and not for another user, and that challenge is gone. *)
Theorem registration_for_caller (env : CeremonyEnv) (ctx : CallContext) (fault : option string)
    (userSlug credential challengeID label u credID : string) (s s' : PasskeyState) :
  user_of_ctx ctx = Some u ->
  RegisterPasskey W env ctx fault userSlug credential challengeID label s = (s', Ok credID) ->
  exists key cookies e sd parsed cred,
    webAuthnChallengeSessionKey env ctx false = Ok (key, cookies) /\
    ps_challenges s !! challenge_key key challengeID = Some e /\ ce_now env <= e_expires e /\
    wp_Kind (e_value e) = "register" /\ (wp_UserSlug (e_value e) = "" \/ wp_UserSlug (e_value e) = u) /\
    wp_SessionData (e_value e) = Some sd /\
    w_CreateCredential W u (loadCredentials u (ps_passkeys s)) sd parsed = Ok cred /\
    ps_challenges s' = delete (challenge_key key challengeID) (ps_challenges s) /\
    ps_passkeys s !! cred_ID cred = None /\
    exists row, ps_passkeys s' = <[cred_ID cred := row]> (ps_passkeys s) /\
      pk_UserSlug row = u /\ pk_PublicKey row = cred_PublicKey cred.
Proof.
  intros Hu. unfold RegisterPasskey.
  destruct (userSlugForPasskeyRegistration ctx userSlug) as [slug|] eqn:Hs; [|done].
  apply (slug_for_user _ _ _ u) in Hs; [|done]. subst slug.
  destruct (ParseCreation W credential) as [parsed|]; [|done].
  destruct (consumeWebAuthnChallenge env ctx challengeID "register" s) as [s1 [p|e]] eqn:Hc; [|destruct e; discriminate].
  apply consume_spec in Hc as (key & cookies & e & Hkey & He & Hexp & <- & Hkind & Hch & Hpk).
  destruct (negb _ && negb _) eqn:Hslug; [done|].
  assert (wp_UserSlug (e_value e) = "" \/ wp_UserSlug (e_value e) = u) as Hown.
  { apply andb_false_iff in Hslug. unfold is_empty in Hslug. by rewrite !negb_false_iff, !String.eqb_eq in Hslug. }
  unfold FinishRegistration. rewrite Hpk. destruct (wp_SessionData (e_value e)) as [sd|] eqn:Hsd; [|done].
  destruct (w_CreateCredential W u _ sd parsed) as [cred|] eqn:Hcr; [|done].
  destruct fault; [done|]. destruct (ps_passkeys s !! cred_ID cred) eqn:Hnone; [done|]. intros [= <- <-].
  exists key, cookies, e, sd, parsed, cred. split_and!; try done. eexists. by split_and!.
Qed.

(** ** Registration through the gate *)

Definition start_procedure : string := "/switchyard.v1alpha1.AuthService/StartWebAuthnChallenge".

(** Any sequence of calls to [StartWebAuthnChallenge] that passed the gate. *)
Record start_call := mkStart { sc_remote : string; sc_env : CeremonyEnv; sc_intent : string; sc_slug : string; sc_name : string }.

Definition run_start (ttl : Z) (s : PasskeyState) (c : start_call) : PasskeyState :=
  (StartWebAuthnChallenge W ttl (sc_env c) (mkCallContext None None (sc_remote c)) (sc_intent c) (sc_slug c) (sc_name c) s).1.1.

Definition cookie_keyed (s : PasskeyState) : Prop :=
  forall k, is_Some (ps_challenges s !! k) -> exists r, k = "cookie:" +:+ r.

Lemma cookie_key_shape v id : challenge_key ("cookie:" +:+ v) id = "cookie:" +:+ (v +:+ ":" +:+ id).
Proof. unfold challenge_key. by rewrite str_app_assoc. Qed.

Lemma store_keeps_cookie_keyed ttl env remote p s :
  cookie_keyed s -> cookie_keyed (storeWebAuthnChallenge ttl env (mkCallContext None None remote) p s).1.1.
Proof.
  intros Hs. unfold storeWebAuthnChallenge, webAuthnChallengeSessionKey. cbn [cx_principal]. rewrite (eq_refl : is_empty "" = true).
  cbn [negb]. set (c := match ce_cookies env with Some cs => _ | None => _ end).
  assert (forall v, cookie_keyed (mkPasskeyState (Store ttl (ce_now env) (ce_ulid env) ("cookie:" +:+ v) p (ps_challenges s))
                                   (ps_passkeys s))) as Hput.
  { intros v k. cbn [ps_challenges]. unfold Store, put. rewrite cookie_key_shape.
    destruct (decide (k = "cookie:" +:+ (v +:+ ":" +:+ ce_ulid env))) as [->|Hk]; [intros _; by eexists|].
    rewrite lookup_insert_ne by done. unfold Expiring.sweep. rewrite map_lookup_filter. intros [e He]. apply Hs.
    destruct (ps_challenges s !! k); [by eexists|done]. }
  destruct (is_empty c); cbn [negb]; [|apply Hput]. destruct (ce_writer env); [apply Hput|done].
Qed.

Lemma start_keeps_cookie_keyed ttl s c : cookie_keyed s -> cookie_keyed (run_start ttl s c).
Proof.
  intros Hs. unfold run_start, StartWebAuthnChallenge.
  repeat (case_match; try done); by apply store_keeps_cookie_keyed.
Qed.

Lemma starts_keep_cookie_keyed ttl l s : cookie_keyed s -> cookie_keyed (foldl (run_start ttl) s l).
Proof. revert s. induction l as [|c l IH]; intros s Hs; [done|]. by apply IH, start_keeps_cookie_keyed. Qed.

(** A user of the web session cannot register a passkey. The gate lets every
    call of [StartWebAuthnChallenge] through without a principal, so a challenge
    is stored under the cookie of the browser; [RegisterPasskey] of a caller with
    a session looks under the id of the session, and finds nothing, whatever
    challenges were started before. *)
Theorem session_user_cannot_register (sha256 : string -> string) (hmac : string -> string -> string)
    (unmarshal : string -> result string TokenScopePB) (w : World) (cache : gmap string CompiledTokenScope) (remote authorization : string)
    (cookies : option (list (string * string))) (peer : option PeerCred)
    (ttl : Z) (l : list start_call) (env : CeremonyEnv) (p : AuthPrincipal) (scope : option CompiledTokenScope)
    (fault : option string) (userSlug credential challengeID label : string) (t : gmap string PasskeyRow) :
  default "" (ap_Metadata p !! "session_id") <> "" ->
  authenticate sha256 hmac unmarshal w cache start_procedure remote authorization cookies peer = (cache, Ok (mkCallContext None None remote)) /\
  let s := foldl (run_start ttl) (mkPasskeyState ∅ t) l in
  exists s' e, RegisterPasskey W env (mkCallContext (Some p) scope remote) fault userSlug credential challengeID label s = (s', Err e) /\
    ps_passkeys s' = ps_passkeys s.
Proof.
  intros Hsid. split; [reflexivity|]. intros s.
  assert (cookie_keyed s) as Hs. { apply starts_keep_cookie_keyed. intros k [e He]. cbn in He. by rewrite lookup_empty in He. }
  unfold RegisterPasskey. case_match; [|by eauto]. case_match; [|by eauto].
  unfold consumeWebAuthnChallenge. destruct (is_empty challengeID); [by eauto|].
  unfold webAuthnChallengeSessionKey. cbn [cx_principal]. unfold is_empty at 1; rewrite (proj2 (String.eqb_neq _ _) Hsid). cbn [negb].
  unfold Consume. cbn [fst snd].
  destruct (ps_challenges s !! _) as [e|] eqn:He; [|cbn; by eauto].
  destruct (Hs _ (ex_intro _ _ He)) as [r Hr]. discriminate Hr.
Qed.
End Registration.

(** ** A library that accepts everything, and a browser *)

Module CeremonyDemo.

Definition cred : Credential := mkCredential "cred-1" "pk" 0.
Definition lib : WebAuthn := mkWebAuthn Some (fun r => Some (mkAssertion r "ada" r)) (fun _ _ _ => Ok "sd")
  (fun _ _ _ _ => Ok cred) (Ok "sd") (fun _ _ _ _ => Ok (1, false)).
Definition env (now : Z) : CeremonyEnv := mkCeremonyEnv (Some [("switchyard_webauthn", "c")]) true "" "01" now.
Definition token_user : AuthPrincipal := mkAuthPrincipal "user:ada" "ada" "user" {["auth_method" := "token"]}.
Definition session_user : AuthPrincipal := mkAuthPrincipal "user:ada" "ada" "user" {["session_id" := "s1"]}.
Definition start : start_call := mkStart "1.2.3.4" (env 10) "register" "ada" "Ada".
Definition started : PasskeyState := foldl (run_start lib 300) (mkPasskeyState ∅ ∅) [start].
Definition ops : list challenge_op :=
  [ChStore 0 "01" "cookie:c" (mkPayload "login" "" (Some "sd")); ChConsume 4 "cookie:d" "01"; ChConsume 5 "cookie:c" "01";
   ChConsume 6 "cookie:c" "01"].

Lemma challenge_single_use_witness :
  (foldl (ch_step 300) (∅, []) ops).2 = [(("cookie:c", "01"), mkPayload "login" "" (Some "sd"))] /\
  (length (filter (fun p => p.1 = ("cookie:c", "01")) (foldl (ch_step 300) (∅, []) ops).2) <= 1)%nat.
Proof.
  split; [vm_compute; reflexivity|]. assert (Hc : clock_ok 0 ops) by (cbn; lia).
  assert (Hl : Forall (fun o => session_key (ch_session o)) ops).
  { repeat constructor; eexists "cookie", _; (split; [by right|reflexivity]). }
  assert (Hg : generated_key "cookie:c" "01").
  { split; [by_decision|]. exists "cookie", "c". split; [by right|]. split; [reflexivity|by_decision]. }
  exact (proj2 (challenge_single_use 300 0 ops "cookie:c" "01" Hc Hl Hg)).
Defined.

(** With a bearer token the registration goes through, for the caller. *)
Lemma registration_for_caller_witness :
  exists s', RegisterPasskey lib (env 20) (mkCallContext (Some token_user) None "1.2.3.4") None "" "resp" "01" "" started
    = (s', Ok (encode base64_url "cred-1")) /\
  exists e, ps_challenges started !! challenge_key "cookie:c" "01" = Some e /\ 20 <= e_expires e.
Proof.
  eexists. split; [vm_compute; reflexivity|].
  destruct (registration_for_caller lib (env 20) (mkCallContext (Some token_user) None "1.2.3.4") None "" "resp" "01" "" "ada"
    (encode base64_url "cred-1") started _ eq_refl ltac:(vm_compute; reflexivity)) as (key & ck & e & sd & parsed & c & Hk & He & Ht & _).
  vm_compute in Hk. injection Hk as <- _. exists e. by split.
Defined.

Lemma session_user_cannot_register_witness :
  is_Some (ps_challenges started !! challenge_key "cookie:c" "01") /\
  exists s' e, RegisterPasskey lib (env 20) (mkCallContext (Some session_user) None "1.2.3.4") None "" "resp" "01" "" started = (s', Err e) /\
    ps_passkeys s' = ps_passkeys started.
Proof.
  split; [vm_compute; eauto|].
  refine (proj2 (session_user_cannot_register lib (fun x => x) (fun _ x => x) (fun _ => Err "") (mkWorld 0 ∅ None ∅ None (Sessions.mkConfig "" 0 0 0 "" "")) ∅ "1.2.3.4" "" None None 300 [start] (env 20) session_user None None "" "resp" "01" "" ∅ _)).
  by vm_compute.
Defined.
End CeremonyDemo.
