(* ===== verification/Display.v ===== *)
(** * Wall displays

    Models [internal/display]: the pairing codes (pairing.go), the service and
    its files (service.go) and the recommender (fidelity_recommender.go). The
    JSON of a record is a pair of functions; random numbers, UUIDs and clock
    readings are arguments. [List] and [Get] only read and are left out.

    [pairing_single_use] says which codes are accepted, [display_store_roundtrip]
    what the files remember, [display_token_rejected] that the gate of [Authn]
    knows nothing of displays. *)

From Stdlib Require Import Ascii String.
From S2P Require Import Prelude Codec Json Paths Files Expiring Policy TokenScope Tokens Throttle Sessions Authn.

(** ** Pairing codes *)

Definition pairCodeTTL : Z := 5 * Minute.

Definition digit (n : Z) : ascii := ascii_of_nat (48 + Z.to_nat (n `mod` 10)).

(** [fmt.Sprintf("%06d", n)] for [n] below a million. *)
Definition generateCode (n : Z) : string :=
  String (digit (n / 100000)) (String (digit (n / 10000)) (String (digit (n / 1000))
    (String (digit (n / 100)) (String (digit (n / 10)) (String (digit n) ""))))).

Abbreviation PairCodes := (gmap string (entry unit)).

(** [n] is what [rand.Int] gives. *)
Definition Issue_ (now n : Z) (m : PairCodes) : PairCodes * (string * Z) :=
  let code := generateCode n in
  (put code tt (now + pairCodeTTL) m, (code, now + pairCodeTTL)).

Inductive pair_error := errCodeNotFound | errCodeExpired.

Definition Redeem_ (now : Z) (code : string) (m : PairCodes) : PairCodes * option pair_error :=
  match m !! code with
  | None => (m, Some errCodeNotFound)
  | Some e => if expired now e then (delete code m, Some errCodeExpired) else (delete code m, None)
  end.

Definition Sweep_codes (now : Z) (m : PairCodes) : PairCodes := Expiring.sweep now m.

(** ** The recommender *)

Inductive TileMetric :=
  | MetricUnspecified | MetricNone | MetricSensor | MetricPresence | MetricNowPlaying | MetricNextAutomation | MetricLastActivity.
Inductive TileWidth := WidthUnspecified | WidthStandard | WidthWide.
Record FidelityOverride := mkFidelity { fo_Width : TileWidth; fo_Scenes : Z; fo_Metric : TileMetric }.
Record RoomStats := mkRoom { RoomID : string; EntityCount : Z; SensorCount : Z; InteractionCount30d : Z }.

Definition scoreRoom (room : RoomStats) : FidelityOverride :=
  let '(scenes, metric) :=
    if (5 <=? EntityCount room) && (10 <=? InteractionCount30d room) then (4, MetricSensor)
    else if (3 <=? EntityCount room) || (5 <=? InteractionCount30d room) then (2, MetricPresence)
    else (0, MetricNone) in
  mkFidelity WidthStandard scenes (if 1 <=? SensorCount room then MetricSensor else metric).

Definition Recommend (rooms : list RoomStats) : gmap string FidelityOverride :=
  foldl (fun m room => <[RoomID room := scoreRoom room]> m) ∅ rooms.

(** ** Records and their files *)

Record IdleBehavior := mkIdle { wake_on_motion : bool; dim_after_minutes : Z; off_after_minutes : Z }.

Record displayRecord := mkDisplay {
  d_ID : string; d_DeviceName : string; d_PageSlug : string; d_TileOverrides : gmap string FidelityOverride;
  d_IdleBehavior : option IdleBehavior; d_AllowedInteractions : list string; d_AlertThreshold : Z; d_Token : string;
  d_CreatedAt : Z; d_LastSeenAt : option Z;
}.

Record DisplayJSON := mkDisplayJSON { marshal_display : displayRecord -> string; unmarshal_display : string -> option displayRecord }.

(** What the system answers to the steps of a write. *)
Record PutIO := mkPutIO { put_mkdir : option string; put_write : option (option string * string); put_rename : option string }.

Inductive store_err := errNotFound | DisplayOther (msg : string).

Section Store.
Context (J : DisplayJSON) (dir : string).

Definition display_path (id : string) : string := Join_list [dir; id +:+ ".json"].

Definition Store_Put (io : PutIO) (r : displayRecord) (d : Disk) : Disk * option string :=
  match put_mkdir io with
  | Some e => (d, Some e)
  | None =>
      let tmp := display_path (d_ID r) +:+ ".tmp" in
      match WriteFile (put_write io) tmp (marshal_display J r) d with
      | (d', Some e) => (d', Some e)
      | (d', None) => rename_file (put_rename io) tmp (display_path (d_ID r)) d'
      end
  end.

(** [readErr] is a failure to read a file that exists. *)
Definition Store_Get (readErr : option string) (id : string) (d : Disk) : result store_err displayRecord :=
  match d !! display_path id, readErr with
  | None, _ => Err errNotFound
  | Some _, Some e => Err (DisplayOther e)
  | Some data, None => match unmarshal_display J data with Some r => Ok r | None => Err (DisplayOther "json") end
  end.

Definition Store_Delete (fault : option string) (id : string) (d : Disk) : Disk * option store_err :=
  match d !! display_path id, fault with
  | None, _ => (d, Some errNotFound)
  | Some _, Some e => (d, Some (DisplayOther e))
  | Some _, None => (delete (display_path id) d, None)
  end.

Definition ValidateToken (readErr : option string) (id token : string) (d : Disk) : result store_err bool :=
  match Store_Get readErr id d with Err e => Err e | Ok r => Ok (String.eqb (d_Token r) token) end.

(** ** The service *)

Record Displays := mkDisplays { ds_codes : PairCodes; ds_disk : Disk }.

Inductive display_error := D_InvalidArgument | D_NotFound | D_Internal (msg : string).

Definition generateToken (raw : string) : string := "sydisp_" +:+ encode base64_url raw.

Definition Pair (now n : Z) (s : Displays) : Displays * (string * Z) :=
  let '(m, (code, exp)) := Issue_ now n (ds_codes s) in (mkDisplays m (ds_disk s), (code, Unix exp)).

Definition new_record (now : Z) (id token deviceName : string) : displayRecord :=
  mkDisplay id deviceName "" (Recommend []) None [] 0 token now None.

Definition RedeemPairCode (now : Z) (id raw : string) (io : PutIO) (code deviceName : string) (s : Displays) :
    Displays * result display_error (string * string) :=
  let code := TrimSpace code in
  if negb (String.length code =? 6)%nat then (s, Err D_InvalidArgument)
  else match Redeem_ now code (ds_codes s) with
  | (m, Some _) => (mkDisplays m (ds_disk s), Err D_NotFound)
  | (m, None) =>
      let token := generateToken raw in
      match Store_Put io (new_record now id token deviceName) (ds_disk s) with
      | (d, Some e) => (mkDisplays m d, Err (D_Internal e))
      | (d, None) => (mkDisplays m d, Ok (id, token))
      end
  end.

Record DisplayConfig := mkDisplayConfig {
  dc_PageSlug : string; dc_DeviceName : string; dc_AlertThreshold : Z; dc_IdleBehavior : option IdleBehavior;
  dc_AllowedInteractions : list string; dc_TileOverrides : gmap string FidelityOverride;
}.

(** The fields of [cfg] that are set replace those of the record. *)
Definition merge_config (cfg : DisplayConfig) (r : displayRecord) : displayRecord :=
  mkDisplay (d_ID r)
    (if is_empty (dc_DeviceName cfg) then d_DeviceName r else dc_DeviceName cfg)
    (if is_empty (dc_PageSlug cfg) then d_PageSlug r else dc_PageSlug cfg)
    (dc_TileOverrides cfg ∪ d_TileOverrides r)
    (match dc_IdleBehavior cfg with Some b => Some b | None => d_IdleBehavior r end)
    (match dc_AllowedInteractions cfg with [] => d_AllowedInteractions r | l => l end)
    (if dc_AlertThreshold cfg =? 0 then d_AlertThreshold r else dc_AlertThreshold cfg)
    (d_Token r) (d_CreatedAt r) (d_LastSeenAt r).

Definition Update (readErr : option string) (io : PutIO) (id : string) (cfg : option DisplayConfig) (s : Displays) :
    Displays * result display_error displayRecord :=
  match Store_Get readErr id (ds_disk s) with
  | Err errNotFound => (s, Err D_NotFound)
  | Err (DisplayOther e) => (s, Err (D_Internal e))
  | Ok r =>
      let r' := match cfg with Some c => merge_config c r | None => r end in
      match Store_Put io r' (ds_disk s) with
      | (d, Some e) => (mkDisplays (ds_codes s) d, Err (D_Internal e))
      | (d, None) => (mkDisplays (ds_codes s) d, Ok r')
      end
  end.

Definition Unpair (fault : option string) (id : string) (s : Displays) : Displays * option display_error :=
  match Store_Delete fault id (ds_disk s) with
  | (d, Some errNotFound) => (mkDisplays (ds_codes s) d, Some D_NotFound)
  | (d, Some (DisplayOther e)) => (mkDisplays (ds_codes s) d, Some (D_Internal e))
  | (d, None) => (mkDisplays (ds_codes s) d, None)
  end.
End Store.

(** ** Codes pair once *)

Inductive pair_op := PIssue (now n : Z) | PRedeem (now : Z) (code : string) | PSweep (now : Z).
Definition pair_time (o : pair_op) : Z := match o with PIssue t _ | PRedeem t _ | PSweep t => t end.

(** The codes, and those accepted so far. *)
Definition pair_step (st : PairCodes * list string) (o : pair_op) : PairCodes * list string :=
  match o with
  | PIssue now n => ((Issue_ now n st.1).1, st.2)
  | PRedeem now code => let '(m, e) := Redeem_ now code st.1 in (m, if e then st.2 else st.2 ++ [code])
  | PSweep now => (Sweep_codes now st.1, st.2)
  end.

(** A store that keeps a code until it is redeemed or replaced. *)
Definition pair_reference (st : PairCodes * list string) (o : pair_op) : PairCodes * list string :=
  match o with
  | PIssue now n => (<[generateCode n := mkEntry tt (now + pairCodeTTL)]> st.1, st.2)
  | PRedeem now code =>
      (delete code st.1, match st.1 !! code with
                         | Some e => if now <=? e_expires e then st.2 ++ [code] else st.2
                         | None => st.2
                         end)
  | PSweep _ => st
  end.

Fixpoint pair_clock (t : Z) (l : list pair_op) : Prop :=
  match l with [] => True | o :: l' => t <= pair_time o /\ pair_clock (pair_time o) l' end.

Definition issues_of (code : string) (l : list pair_op) : nat :=
  length (filter (fun o => match o with PIssue _ n => bool_decide (generateCode n = code) | _ => false end = true) l).

Definition lower_pair (o : pair_op) : op unit :=
  match o with
  | PIssue now n => Put now (generateCode n) tt (now + pairCodeTTL)
  | PRedeem now code => Take now code
  | PSweep now => Sweep now
  end.

(** The state of the expiring map that a state here stands for. *)
Definition raise (st : PairCodes * list (string * unit)) : PairCodes * list string := (st.1, st.2.*1).

Lemma lower_pair_step st o : pair_step (raise st) o = raise (step st (lower_pair o)).
Proof.
  destruct o as [now n|now code|now]; cbn; [done| |done]. unfold Redeem_, raise, take. cbn.
  destruct (st.1 !! code) as [e|] eqn:He; cbn; [|f_equal; symmetry; by apply delete_id].
  destruct (expired now e); cbn; [done|]. by rewrite fmap_app.
Qed.

Lemma lower_pair_reference st o : pair_reference (raise st) o = raise (keep_step st (lower_pair o)).
Proof.
  destruct o as [now n|now code|now]; cbn; [done| |done]. unfold raise. cbn.
  destruct (st.1 !! code) as [e|]; [|done]. cbn. unfold expired.
  destruct (Z.leb_spec now (e_expires e)), (Z.ltb_spec (e_expires e) now); try lia; cbn; [by rewrite fmap_app|done].
Qed.

Lemma lower_pair_run l st : foldl pair_step (raise st) l = raise (foldl step st (lower_pair <$> l)).
Proof. revert st. induction l as [|o l IH]; intros st; [done|]. cbn [foldl fmap list_fmap]. by rewrite lower_pair_step, IH. Qed.

Lemma lower_pair_reference_run l st : foldl pair_reference (raise st) l = raise (foldl keep_step st (lower_pair <$> l)).
Proof. revert st. induction l as [|o l IH]; intros st; [done|]. cbn [foldl fmap list_fmap]. by rewrite lower_pair_reference, IH. Qed.

Lemma lower_pair_clock t l : pair_clock t l -> monotone t (lower_pair <$> l).
Proof. revert t. induction l as [|o l IH]; intros t; [done|]. intros [Ht Hl]. by destruct o; split; try apply IH. Qed.

(** A pairing code pairs one display: over any history of issuing, redeeming
    and sweeping with a clock that does not run backwards, exactly those requests
    are accepted that a store without expiry sweeps would accept, and never more
    often under a code than it was issued. *)
Theorem pairing_single_use (t : Z) (l : list pair_op) :
  pair_clock t l ->
  let got := (foldl pair_step (∅, []) l).2 in
  got = (foldl pair_reference (∅, []) l).2 /\
  forall code, (length (filter (fun c => c = code) got) <= issues_of code l)%nat.
Proof.
  intros Hc got. unfold got. change (∅, []) with (raise (∅, [])). rewrite lower_pair_run, lower_pair_reference_run. split.
  - unfold raise. cbn. f_equal. apply (answers_agree _ t); [by left|done|by apply lower_pair_clock].
  - intros code. pose proof (count_answers_bound code (lower_pair <$> l) (∅, [])) as H. cbn [fst snd] in H. rewrite lookup_empty in H.
    assert (count_puts code (lower_pair <$> l) = issues_of code l) as Hp.
    { unfold count_puts, issues_of. clear. induction l as [|o l IH]; [done|]. cbn [fmap list_fmap]. rewrite !filter_cons.
      destruct o; cbn [is_put lower_pair]; case_decide; cbn [length]; by rewrite IH. }
    rewrite Hp in H. unfold count_answers in H. cbn in H. unfold raise. cbn.
    assert (forall q : list (string * unit), length (filter (fun c => c = code) q.*1) = length (filter (fun p => p.1 = code) q)) as Hq.
    { induction q as [|[k []] q IH]; [done|]. cbn [fmap list_fmap]. rewrite !filter_cons. cbn. case_decide; cbn [length]; by rewrite IH. }
    rewrite Hq. lia.
Qed.

(** ** Files *)

Section Files.
Context (J : DisplayJSON) (dir : string).
Hypothesis dir_abs : IsAbs dir = true.
Hypothesis dir_elems : elems dir <> [].
Hypothesis json_roundtrip : forall r, unmarshal_display J (marshal_display J r) = Some r.

Lemma json_plain id : no_slash id -> plain (id +:+ ".json").
Proof.
  intros Hid. split_and!.
  - by destruct id.
  - by destruct id as [|c [|? ?]].
  - by destruct id as [|c [|c' [|? ?]]].
  - unfold no_slash, lacks in *. rewrite list_ascii_of_string_app, elem_of_app. intros [H|H]; [done|]. revert H. by_decision.
Qed.

Lemma display_path_text id : no_slash id -> display_path dir id = path_text true (elems dir) +:+ String "/" (id +:+ ".json").
Proof.
  intros Hid. unfold display_path. assert (Forall plain [id +:+ ".json"]) as H by (by apply Forall_singleton, json_plain).
  rewrite Join_list_plain; [|by intros H0; rewrite H0 in dir_abs|by rewrite bind_Split_plain].
  by rewrite dir_abs, bind_Split_plain, path_text_cons.
Qed.

Lemma str_app_inj_r s t u : s +:+ u = t +:+ u -> s = t.
Proof. intros H. by rewrite <- (trim_suffix_app s u), H, trim_suffix_app. Qed.

Lemma display_path_inj id id' : no_slash id -> no_slash id' -> display_path dir id = display_path dir id' -> id = id'.
Proof.
  intros H1 H2. rewrite !display_path_text by done. intros H. apply str_app_inj_l in H. injection H as H. by apply str_app_inj_r in H.
Qed.

Lemma display_tmp_apart id id' : no_slash id -> no_slash id' -> display_path dir id' <> display_path dir id +:+ ".tmp".
Proof.
  intros H1 H2. rewrite !display_path_text by done. intros H.
  apply (f_equal (fun s => last (list_ascii_of_string s))) in H.
  rewrite <- !str_app_cons, <- !str_app_assoc, !list_ascii_of_string_app in H.
  rewrite !last_app in H. discriminate H.
Qed.

(** What a successful write of a record does to what can be read. *)
Lemma put_view io r d d' :
  no_slash (d_ID r) -> Store_Put J dir io r d = (d', None) ->
  Store_Get J dir None (d_ID r) d' = Ok r /\
  forall id, no_slash id -> id <> d_ID r -> Store_Get J dir None id d' = Store_Get J dir None id d.
Proof.
  intros Hid. unfold Store_Put. destruct (put_mkdir io); [done|]. set (tmp := display_path dir (d_ID r) +:+ ".tmp").
  unfold WriteFile. destruct (put_write io) as [[[part|] e]|]; [done|done|]. cbn.
  unfold rename_file. destruct (put_rename io); [done|]. rewrite lookup_insert_eq. case_bool_decide; [|done]. cbn. intros [= <-].
  unfold Store_Get. split; [by rewrite lookup_insert_eq, json_roundtrip|]. intros id Hn Hne.
  rewrite lookup_insert_ne by (intros H0; apply Hne; by apply display_path_inj).
  rewrite lookup_delete_ne by (intros H0; by apply (display_tmp_apart (d_ID r) id)).
  by rewrite lookup_insert_ne by (intros H0; by apply (display_tmp_apart (d_ID r) id)).
Qed.

(** What is paired can be read back: after a redeemed code the new display,
    with the name the device gave and the token it was told, is what the store
    returns for its id, and no other token validates for it; an update that
    succeeds is what the store returns afterwards, with the fields that were set
    replaced, the token kept and the tiles merged; an unpaired display is gone.
    Records of other displays do not change. *)
Theorem display_store_roundtrip (s s' : Displays) (id : string) :
  no_slash id ->
  (forall now raw io code name token, RedeemPairCode J dir now id raw io code name s = (s', Ok (id, token)) ->
     Store_Get J dir None id (ds_disk s') = Ok (new_record now id token name) /\
     (forall t, ValidateToken J dir None id t (ds_disk s') = Ok (String.eqb token t)) /\
     forall id', no_slash id' -> id' <> id -> Store_Get J dir None id' (ds_disk s') = Store_Get J dir None id' (ds_disk s)) /\
  (forall r r' io cfg, Store_Get J dir None id (ds_disk s) = Ok r -> d_ID r = id ->
     Update J dir None io id (Some cfg) s = (s', Ok r') ->
     r' = merge_config cfg r /\ Store_Get J dir None id (ds_disk s') = Ok r' /\ d_Token r' = d_Token r /\
     (forall k, d_TileOverrides r' !! k = match dc_TileOverrides cfg !! k with Some v => Some v | None => d_TileOverrides r !! k end) /\
     forall id', no_slash id' -> id' <> id -> Store_Get J dir None id' (ds_disk s') = Store_Get J dir None id' (ds_disk s)) /\
  (Unpair dir None id s = (s', None) ->
     Store_Get J dir None id (ds_disk s') = Err errNotFound /\
     forall id', no_slash id' -> id' <> id -> Store_Get J dir None id' (ds_disk s') = Store_Get J dir None id' (ds_disk s)).
Proof.
  intros Hid. split_and!.
  - intros now raw io code name token. unfold RedeemPairCode. case_match; [done|]. destruct (Redeem_ _ _ _) as [m [e|]]; [done|].
    destruct (Store_Put J dir io _ _) as [d [e|]] eqn:Hp; intros [= <- <-]. apply put_view in Hp as [H1 H2]; [|done]. cbn in *.
    split_and!; [done| |done]. intros t. unfold ValidateToken. by rewrite H1.
  - intros r r' io cfg Hg Hr. unfold Update. rewrite Hg.
    destruct (Store_Put J dir io _ _) as [d [e|]] eqn:Hp; intros [= <- <-]. apply put_view in Hp as [H1 H2]; [|by cbn; rewrite Hr].
    cbn [d_ID merge_config] in H1, H2. rewrite Hr in H1, H2. cbn [ds_disk]. split_and!; try done.
    intros k. cbn [d_TileOverrides merge_config]. rewrite lookup_union. by destruct (dc_TileOverrides cfg !! k), (d_TileOverrides r !! k).
  - unfold Unpair, Store_Delete. destruct (ds_disk s !! display_path dir id) eqn:Hd; [|done]. intros [= <-]. cbn. unfold Store_Get.
    split; [by rewrite lookup_delete_eq|]. intros id' H' Hne.
    rewrite lookup_delete_ne; [done|]. intros H0. apply Hne. symmetry. by apply display_path_inj.
Qed.
End Files.

(** ** The gate knows no displays *)

Definition redeem_procedure : string := "/switchyard.display.v1.DisplayService/RedeemPairCode".

(** A display cannot use what pairing gives it. No procedure but the public
    ones of the auth service accepts the token of a display as a bearer token,
    and a display without credentials cannot redeem a code in the first place. *)
Theorem display_token_rejected (sha256 : string -> string) (hmac : string -> string -> string)
    (unmarshal : string -> result string TokenScopePB) (w : World) (cache : gmap string CompiledTokenScope)
    (procedure remote raw : string) (cookies : list (string * string)) :
  isPublicAuthProcedure procedure = false ->
  authenticate sha256 hmac unmarshal w cache procedure remote ("Bearer " +:+ generateToken raw) (Some cookies) None
    = (cache, Err (CodeUnauthenticated "auth: unauthenticated")) /\
  (Cookie cookies (cf_AccessName (w_session_cfg w)) = None ->
   authenticate sha256 hmac unmarshal w cache redeem_procedure remote "" (Some cookies) None
     = (cache, Err (CodeUnauthenticated "auth: unauthenticated"))).
Proof.
  intros Hp. split.
  - unfold authenticate. rewrite Hp. unfold Build. cbn [Chain LocalPeerCred rq_PeerCred]. unfold Bearer. cbn [rq_Authorization].
    assert (has_prefix ("Bearer " +:+ generateToken raw) "Bearer " = true) as -> by (apply has_prefix_spec; by eexists).
    cbn [negb]. rewrite trim_prefix_app.
    assert (Verify sha256 (w_now w) (w_token_fault w) (generateToken raw) (w_tokens w) = Err ErrTokenInvalid) as ->; [|done].
    unfold Verify, generateToken. change ("sydisp_" +:+ encode base64_url raw) with ("sydisp" +:+ String "_" (encode base64_url raw)).
    rewrite SplitN_SS, cut_app by (unfold lacks; by_decision).
    rewrite SplitN_SS. destruct (cut "_" (encode base64_url raw)) as [[a b]|]; [|done]. cbn [SplitN]. done.
  - intros Hc. unfold authenticate. cbn [isPublicAuthProcedure]. rewrite (eq_refl : isPublicAuthProcedure redeem_procedure = false).
    unfold Build. cbn [Chain LocalPeerCred rq_PeerCred]. unfold Bearer. cbn [rq_Authorization].
    rewrite (eq_refl : has_prefix "" "Bearer " = false). cbn [negb Chain]. unfold SessionCookie. cbn [rq_HTTP]. by rewrite Hc.
Qed.

(** ** A display in the hall *)

Module DisplayDemo.

Definition dir : string := "/srv/sy/displays".
Definition io : PutIO := mkPutIO None None None.
Definition paired : Displays := (Pair 0 42 (mkDisplays ∅ ∅)).1.

(** A JSON that only knows the records of this example. *)
Definition hall : displayRecord := new_record 10 "u1" (generateToken "secret") "Hall".
Definition config : DisplayConfig := mkDisplayConfig "home" "" 0 None [] ∅.
Definition hall' : displayRecord := merge_config config hall.
Definition ops : list pair_op := [PIssue 0 42; PRedeem 10 "000042"; PRedeem 11 "000042"; PSweep 12].

Lemma pairing_single_use_witness :
  (foldl pair_step (∅, []) ops).2 = ["000042"] /\ (length (filter (fun c => c = "000042") (foldl pair_step (∅, []) ops).2) <= 1)%nat.
Proof.
  split; [vm_compute; reflexivity|]. assert (pair_clock 0 ops) as Hc by (cbn; lia).
  exact (proj2 (pairing_single_use 0 ops Hc) "000042").
Defined.

(** Records as numerals. *)
#[local] Instance TileMetric_eq_dec : EqDecision TileMetric.
Proof. solve_decision. Defined.
#[local] Instance TileWidth_eq_dec : EqDecision TileWidth.
Proof. solve_decision. Defined.
#[local] Instance FidelityOverride_eq_dec : EqDecision FidelityOverride.
Proof. solve_decision. Defined.
#[local] Instance IdleBehavior_eq_dec : EqDecision IdleBehavior.
Proof. solve_decision. Defined.
#[local] Instance displayRecord_eq_dec : EqDecision displayRecord.
Proof. solve_decision. Defined.

Definition metric_code (m : TileMetric) : nat :=
  match m with
  | MetricUnspecified => 0 | MetricNone => 1 | MetricSensor => 2 | MetricPresence => 3 | MetricNowPlaying => 4
  | MetricNextAutomation => 5 | MetricLastActivity => 6
  end.
Definition metric_of (n : nat) : TileMetric :=
  match n with
  | 1 => MetricNone | 2 => MetricSensor | 3 => MetricPresence | 4 => MetricNowPlaying | 5 => MetricNextAutomation
  | 6 => MetricLastActivity | _ => MetricUnspecified
  end%nat.
Definition width_code (w : TileWidth) : nat := match w with WidthUnspecified => 0 | WidthStandard => 1 | WidthWide => 2 end.
Definition width_of (n : nat) : TileWidth := match n with 1 => WidthStandard | 2 => WidthWide | _ => WidthUnspecified end%nat.

#[local] Instance FidelityOverride_countable : Countable FidelityOverride :=
  inj_countable' (fun f => (width_code (fo_Width f), fo_Scenes f, metric_code (fo_Metric f)))
    (fun '(w, s, m) => mkFidelity (width_of w) s (metric_of m))
    ltac:(by intros [[] ? []]).
#[local] Instance IdleBehavior_countable : Countable IdleBehavior :=
  inj_countable' (fun b => (wake_on_motion b, dim_after_minutes b, off_after_minutes b)) (fun '(a, b, c) => mkIdle a b c)
    ltac:(by intros []).
#[local] Instance displayRecord_countable : Countable displayRecord :=
  inj_countable' (fun r => (d_ID r, d_DeviceName r, d_PageSlug r, d_TileOverrides r, d_IdleBehavior r, d_AllowedInteractions r,
                            d_AlertThreshold r, d_Token r, d_CreatedAt r, d_LastSeenAt r))
    (fun '(a, b, c, d, e, f, g, h, i, j) => mkDisplay a b c d e f g h i j)
    ltac:(by intros []).

Definition json : DisplayJSON :=
  mkDisplayJSON (fun r => pretty (Npos (countable.encode r)))
    (fun s => z ← parse_digits s 0; countable.decode (Z.to_pos z)).

Lemma json_roundtrip r : unmarshal_display json (marshal_display json r) = Some r.
Proof. cbn. rewrite parse_digits_pretty. cbn. apply countable.decode_encode. Qed.

Definition redeemed (J : DisplayJSON) : Displays := (RedeemPairCode J dir 10 "u1" "secret" io " 000042" "Hall" paired).1.

Lemma display_store_roundtrip_witness :
  Store_Get json dir None "u1" (ds_disk (redeemed json)) = Ok hall /\
  ValidateToken json dir None "u1" "guess" (ds_disk (redeemed json)) = Ok false /\
  Store_Get json dir None "u1" (ds_disk (Update json dir None io "u1" (Some config) (redeemed json)).1) = Ok hall'.
Proof.
  generalize json json_roundtrip. intros J HJ.
  assert (no_slash "u1") as Hid by (unfold no_slash, lacks; by_decision).
  assert (IsAbs dir = true) as Habs by reflexivity. assert (elems dir <> []) as Hel by (by vm_compute).
  destruct (display_store_roundtrip J dir Habs Hel HJ paired (redeemed J) "u1" Hid) as (H1 & _ & _).
  assert (RedeemPairCode J dir 10 "u1" "secret" io " 000042" "Hall" paired = (redeemed J, Ok ("u1", generateToken "secret"))) as Hr
    by (vm_compute; reflexivity).
  destruct (H1 _ _ _ _ _ _ Hr) as (Hg & Hv & _). split; [exact Hg|]. split; [by rewrite Hv|].
  set (s2 := (Update J dir None io "u1" (Some config) (redeemed J)).1).
  destruct (display_store_roundtrip J dir Habs Hel HJ (redeemed J) s2 "u1" Hid) as (_ & H2 & _).
  assert (Update J dir None io "u1" (Some config) (redeemed J) = (s2, Ok hall')) as Hu.
  { unfold s2, Update. unfold hall in Hg. rewrite Hg. vm_compute. reflexivity. }
  by destruct (H2 _ _ _ _ Hg eq_refl Hu) as (_ & Hg2 & _).
Defined.

Lemma display_token_rejected_witness :
  authenticate (fun x => x) (fun _ x => x) (fun _ => Err "") (mkWorld 0 ∅ None ∅ None (Sessions.mkConfig "" 0 0 0 "access" "refresh")) ∅
    "/switchyard.page.v1.PageService/Render" "" ("Bearer " +:+ generateToken "secret") (Some []) None
    = (∅, Err (CodeUnauthenticated "auth: unauthenticated")).
Proof.
  refine (proj1 (display_token_rejected (fun x => x) (fun _ x => x) (fun _ => Err "") (mkWorld 0 ∅ None ∅ None
    (Sessions.mkConfig "" 0 0 0 "access" "refresh")) ∅ "/switchyard.page.v1.PageService/Render" "" "secret" [] _)).
  reflexivity.
Defined.

(** An id is not confined to the directory. *)
Example unpair_escapes_directory :
  let s := mkDisplays ∅ {[ "/srv/sy/secrets.json" := "{}" ]} in
  Unpair dir None "../secrets" s = (mkDisplays ∅ ∅, None).
Proof. vm_compute. reflexivity. Qed.
End DisplayDemo.
