(* ===== verification/SavedQueries.v ===== *)
(** * Saved queries of the activity feed

    Models [internal/activity/saved_queries.go] and the three handlers of [service.go]
    that serve it, over the files of [Files]. Ids, the clock and the failures of the
    system are arguments, and so is the JSON of a record.

    [saved_queries_exact]: what saving and deleting do to the list.
    [listed_by_id]: the order of the list. [delete_escapes_directory]: what else a
    request can delete. *)

From Stdlib Require Import Ascii String.
From S2P Require Import Prelude Codec DriverKit Paths Files Registry Display.

(** Times are [None] when zero. *)
Record savedQueryRecord := mkSavedQuery {
  sq_ID : string; sq_Name : string; sq_Filter : string; sq_Cron : string; sq_LastRun : option Z; sq_NextRun : option Z; sq_CreatedAt : Z;
}.
Record QueryJSON := mkQueryJSON { marshal_query : savedQueryRecord -> string; unmarshal_query : string -> option savedQueryRecord }.

Inductive query_reply := Saved (q : savedQueryRecord) | Queries (l : list savedQueryRecord) | Deleted | QueryError (code : string) (msg : string).

Section Store.
Context (J : QueryJSON) (dir : string).

Definition filePath (id : string) : string := Join dir (id +:+ ".json").

Definition Save (mkdir : option string) (write : option (option string * string)) (id : string) (now : Z) (name filter_ cron : string) (d : Disk) :
    Disk * result string savedQueryRecord :=
  match mkdir with
  | Some e => (d, Err ("saved queries: mkdir: " +:+ e))
  | None =>
      let rec := mkSavedQuery id name filter_ cron None None now in
      match WriteFile write (filePath id) (marshal_query J rec) d with
      | (d', Some e) => (d', Err ("saved queries: write: " +:+ e))
      | (d', None) => (d', Ok rec)
      end
  end.

(** The files of the directory that are looked at, in the order of [os.ReadDir]. *)
Definition is_query (name : string) : bool := bool_decide ("/"%char ∉ list_ascii_of_string name) && String.eqb (Ext name) ".json".
Definition query_files (d : Disk) : gmap string string := filter (fun p => is_query p.1 = true) (subtree dir d).

(** [List]; [unreadable] are the files that cannot be read. *)
Definition List_queries (mkdir readdir : option string) (unreadable : string -> bool) (d : Disk) : result string (list savedQueryRecord) :=
  match mkdir, readdir with
  | Some e, _ => Err ("saved queries: mkdir: " +:+ e)
  | None, Some e => Err ("saved queries: readdir: " +:+ e)
  | None, None => Ok (omap (fun p => if unreadable p.1 then None else unmarshal_query J p.2) (order_by_id (query_files d)))
  end.

Definition Delete (fault : option string) (id : string) (d : Disk) : Disk * option string :=
  match d !! filePath id, fault with
  | None, _ => (d, Some ("saved_query " +:+ quoted id +:+ " not found"))
  | Some _, Some e => (d, Some e)
  | Some _, None => (delete (filePath id) d, None)
  end.

(** The handlers. *)
Definition SaveQuery mkdir write id now name filter_ cron d : Disk * query_reply :=
  match Save mkdir write id now name filter_ cron d with (d', Ok q) => (d', Saved q) | (d', Err e) => (d', QueryError "internal" ("save query: " +:+ e)) end.
Definition ListSavedQueries mkdir readdir unreadable d : query_reply :=
  match List_queries mkdir readdir unreadable d with Ok l => Queries l | Err e => QueryError "internal" ("list queries: " +:+ e) end.
Definition DeleteSavedQuery fault id d : Disk * query_reply :=
  match Delete fault id d with (d', None) => (d', Deleted) | (d', Some e) => (d', QueryError "not_found" ("delete query: " +:+ e)) end.

End Store.

(** ** Saving and deleting *)

Section Facts.
Context (J : QueryJSON) (dir : string).
Hypothesis dir_abs : IsAbs dir = true.
Hypothesis dir_clean : Clean dir = dir.
Hypothesis dir_elems : elems dir <> [].
Hypothesis json_roundtrip : forall r, unmarshal_query J (marshal_query J r) = Some r.

Lemma filePath_entry id : no_slash id -> filePath dir id = entry_path dir (id +:+ ".json").
Proof.
  intros Hid. pose proof (json_plain id Hid) as Hp. assert (Hpl : Forall plain [id +:+ ".json"]) by by apply Forall_singleton. unfold filePath, entry_path.
  change (id +:+ ".json") with (join_slash [id +:+ ".json"]) at 1. rewrite Join_plain; [|by intros H; rewrite H in dir_abs|done|done].
  rewrite dir_abs, path_text_cons by done. by rewrite <- (Clean_abs dir dir_abs), dir_clean.
Qed.

Lemma ext_go_app s t e : ext_go t = Some e -> ext_go (s +:+ t) = Some e.
Proof. intros H. induction s as [|c s IH]; [done|]. change (String c s +:+ t) with (String c (s +:+ t)). cbn [ext_go]. by rewrite IH. Qed.

Lemma is_query_id id : no_slash id -> is_query (id +:+ ".json") = true.
Proof.
  intros Hid. destruct (json_plain id Hid) as (_ & _ & _ & Hs). unfold is_query, Ext, last_elem. rewrite Split_single by done. cbn [last default].
  rewrite bool_decide_true by done. unfold Datatypes.id. by rewrite (ext_go_app id ".json" ".json").
Qed.

(** The files of the directory, after one of them is written or removed. *)
Lemma query_files_insert id data d : no_slash id -> query_files dir (<[filePath dir id := data]> d) = <[id +:+ ".json" := data]> (query_files dir d).
Proof.
  intros Hid. apply map_eq. intros r. unfold query_files. destruct (decide (r = id +:+ ".json")) as [->|Hne].
  - rewrite lookup_insert_eq, map_lookup_filter, subtree_lookup, filePath_entry, lookup_insert_eq by done. cbn. rewrite is_query_id by done. done.
  - rewrite lookup_insert_ne by done. rewrite !map_lookup_filter, !subtree_lookup, filePath_entry by done. rewrite lookup_insert_ne; [done|].
    unfold entry_path. intros H. apply str_app_inj_l in H. by injection H.
Qed.

Lemma query_files_delete id d : no_slash id -> query_files dir (delete (filePath dir id) d) = delete (id +:+ ".json") (query_files dir d).
Proof.
  intros Hid. apply map_eq. intros r. unfold query_files. destruct (decide (r = id +:+ ".json")) as [->|Hne].
  - by rewrite lookup_delete_eq, map_lookup_filter, subtree_lookup, filePath_entry, lookup_delete_eq.
  - rewrite lookup_delete_ne by done. rewrite !map_lookup_filter, !subtree_lookup, filePath_entry by done. rewrite lookup_delete_ne; [done|].
    unfold entry_path. intros H. apply str_app_inj_l in H. by injection H.
Qed.

Definition listed_queries (d : Disk) : list savedQueryRecord := omap (fun p => unmarshal_query J p.2) (order_by_id (query_files dir d)).
Definition decoded (m : gmap string string) : list savedQueryRecord := omap (fun p => unmarshal_query J p.2) (map_to_list m).

Lemma listed_decoded d : listed_queries d ≡ₚ decoded (query_files dir d).
Proof. unfold listed_queries, decoded, order_by_id. by rewrite merge_sort_Permutation. Qed.

Lemma decoded_insert k r m : m !! k = None -> decoded (<[k := marshal_query J r]> m) ≡ₚ r :: decoded m.
Proof. intros H. unfold decoded. rewrite map_to_list_insert by done. cbn. by rewrite json_roundtrip. Qed.

Lemma query_file_lookup id d : no_slash id -> query_files dir d !! (id +:+ ".json") = d !! filePath dir id.
Proof.
  intros Hid. unfold query_files. rewrite map_lookup_filter, subtree_lookup, filePath_entry by done. destruct (d !! _); [|done]. cbn. by rewrite is_query_id.
Qed.

(** The list remembers exactly what was saved and not deleted. Saving under a new id
    adds the record to the list; deleting an id that is on the list removes its record;
    a request that fails changes nothing, except that a failed write can leave a part of
    the file of its id. *)
Theorem saved_queries_exact mkdir write fault id now name filter_ cron d :
  no_slash id ->
  (forall q d', d !! filePath dir id = None -> SaveQuery J dir mkdir write id now name filter_ cron d = (d', Saved q) ->
     q = mkSavedQuery id name filter_ cron None None now /\ listed_queries d' ≡ₚ q :: listed_queries d) /\
  (forall d' r, d !! filePath dir id = Some (marshal_query J r) -> DeleteSavedQuery dir fault id d = (d', Deleted) ->
     r :: listed_queries d' ≡ₚ listed_queries d) /\
  (forall d' code msg, DeleteSavedQuery dir fault id d = (d', QueryError code msg) -> d' = d) /\
  (forall d' code msg, SaveQuery J dir mkdir write id now name filter_ cron d = (d', QueryError code msg) ->
     d' = d \/ exists part, d' = <[filePath dir id := part]> d).
Proof.
  intros Hid. split; [|split; [|split]].
  - intros q d' Hn. unfold SaveQuery, Save, WriteFile. destruct mkdir; [done|]. destruct write as [[[part|] e]|]; [done|done|]. intros [= <- <-]. split; [done|].
    rewrite !listed_decoded, query_files_insert by done. apply decoded_insert. by rewrite query_file_lookup.
  - intros d' r Hr. unfold DeleteSavedQuery, Delete. rewrite Hr. destruct fault; [done|]. intros [= <-]. rewrite !listed_decoded, query_files_delete by done.
    rewrite <- (decoded_insert (id +:+ ".json")) by by rewrite lookup_delete_eq. rewrite insert_delete_eq. by rewrite insert_id by by rewrite query_file_lookup.
  - intros d' code msg. unfold DeleteSavedQuery, Delete. destruct (d !! _), fault; by intros [= <- _ _].
  - intros d' code msg. unfold SaveQuery, Save, WriteFile. destruct mkdir; [intros [= <- _ _]; by left|].
    destruct write as [[[part|] e]|]; intros [= <- _ _]; [right; by exists part|by left].
Qed.

End Facts.

(** ** Examples *)

Module QueryDemo.

(** The JSON of the records of a few queries, by their name. *)
Definition record (id name : string) (at_ : Z) : savedQueryRecord := mkSavedQuery id name "kind:light" "" None None at_.
Definition early : savedQueryRecord := record "b7" "first" 1.
Definition late_ : savedQueryRecord := record "a3" "second" 2.
Definition J : QueryJSON :=
  mkQueryJSON (fun q => sq_Name q) (fun s => if String.eqb s "first" then Some early else if String.eqb s "second" then Some late_ else None).
Definition dir : string := "/data/queries".
Definition both : Disk :=
  (SaveQuery J dir None None "a3" 2 "second" "kind:light" "" (SaveQuery J dir None None "b7" 1 "first" "kind:light" "" ∅).1).1.

(** The list is in the order of the ids, not of creation. *)
Example listed_by_id : ListSavedQueries J dir None None (fun _ => false) both = Queries [late_; early].
Proof. by vm_compute. Qed.

(** An id with dots deletes a file of another directory. *)
Example delete_escapes_directory :
  DeleteSavedQuery dir None "../displays/hall" {["/data/displays/hall.json" := "x"]} = (∅, Deleted).
Proof. by vm_compute. Qed.

(** Whatever prevents the deletion, the answer is that there is no such query. *)
Example denied_is_not_found :
  (DeleteSavedQuery dir (Some "permission denied") "a3" both).2 = QueryError "not_found" "delete query: permission denied".
Proof. by vm_compute. Qed.

(** Records as numerals. *)
#[local] Instance savedQueryRecord_eq_dec : EqDecision savedQueryRecord.
Proof. solve_decision. Defined.
#[local] Instance savedQueryRecord_countable : Countable savedQueryRecord :=
  inj_countable' (fun r => (sq_ID r, sq_Name r, sq_Filter r, sq_Cron r, sq_LastRun r, sq_NextRun r, sq_CreatedAt r))
    (fun '(a, b, c, d, e, f, g) => mkSavedQuery a b c d e f g) ltac:(by intros []).
Definition numerals : QueryJSON :=
  mkQueryJSON (fun r => pretty (Npos (countable.encode r))) (fun s => z ← parse_digits s 0; countable.decode (Z.to_pos z)).
Lemma numerals_roundtrip r : unmarshal_query numerals (marshal_query numerals r) = Some r.
Proof. cbn. rewrite parse_digits_pretty. cbn. apply countable.decode_encode. Qed.

Definition saved (J : QueryJSON) : Disk := (SaveQuery J dir None None "b7" 1 "first" "kind:light" "" ∅).1.

Lemma saved_queries_exact_witness :
  listed_queries numerals dir (saved numerals) ≡ₚ early :: listed_queries numerals dir ∅ /\
  early :: listed_queries numerals dir (DeleteSavedQuery dir None "b7" (saved numerals)).1 ≡ₚ listed_queries numerals dir (saved numerals).
Proof.
  generalize numerals numerals_roundtrip. intros J0 HJ.
  assert (no_slash "b7") as Hid by (unfold no_slash, lacks; by_decision).
  assert (IsAbs dir = true) as Habs by reflexivity. assert (Clean dir = dir) as Hcl by (by vm_compute). assert (elems dir <> []) as Hel by (by vm_compute).
  destruct (saved_queries_exact J0 dir Habs Hcl Hel HJ None None None "b7" 1 "first" "kind:light" "" ∅ Hid) as (H1 & _).
  destruct (saved_queries_exact J0 dir Habs Hcl Hel HJ None None None "b7" 1 "first" "kind:light" "" (saved J0) Hid) as (_ & H2 & _).
  split.
  - apply (H1 early (saved J0)); [reflexivity|reflexivity].
  - apply (H2 _ early); [by vm_compute|by vm_compute].
Defined.

End QueryDemo.
