(* ===== verification/Recovery.v ===== *)
(** * Recovery mode

    Models [internal/observability/recovery.go], the health check of
    [metrics_server.go] and what [internal/daemon/daemon.go] gives them (the failed
    replay, [QueryEvents], [QueryProjectionCursors], [QuerySkippedEvents], [SkipEvent]),
    over the store of [EventStore]. The columns that [DB] leaves out are kept here:
    [skip_rows] for the rows of [skipped_events] and an argument for the times of
    [projection_cursors]. A failing database call is an argument; the text of an error
    stands for the body of its response.

    [skip_event_exact], [events_page_exact]: what the operator's requests do.
    [skip_makes_progress]: a skip lets the next replay come further.
    [failing_event_missing]: the page of events that does not hold the failed one. *)

From S2P Require Import Prelude Codec Json Events EventStore EventStoreFacts ReplayFacts TimeTravel.

(** ** The daemon in recovery *)

Record SkippedEvent := mkSkipped { sk_SkippedAt : Z; sk_SkippedBy : string; sk_Reason : string }.

Record Daemon (M T : Type) := mkDaemon {
  d_store : Store M T;
  skip_rows : gmap (Z * string) SkippedEvent;
  d_phase : Z;
  recoveryInfo : option (string * Z);
  cancelled : bool;
}.
Arguments mkDaemon {M T}.
Arguments d_store {M T}.
Arguments skip_rows {M T}.
Arguments d_phase {M T}.
Arguments recoveryInfo {M T}.
Arguments cancelled {M T}.

(** [ReplayError.Error]. *)
Definition replay_text (e : replay_error) : string :=
  match e with
  | ReplayError p n err => "replay failed at position " +:+ pretty p +:+ " (projector " +:+ n +:+ "): " +:+ err
  | ReplayOther err => err
  end.
Definition failed_position (e : replay_error) : Z := match e with ReplayError p _ _ => p | ReplayOther _ => 0 end.

Definition with_skipped {T : Type} (s : gset (Z * string)) (d : DB T) : DB T :=
  mkDB (events d) (events_seq d) (projection_cursors d) (snapshots d) s (event_subscriptions d) (tables d).

Record RecoveryEvent := mkRecoveryEvent { re_Position : Z; re_Timestamp : Z; re_Kind : string; re_Entity : string; re_Source : string }.
Definition recovery_event (e : Event) : RecoveryEvent := mkRecoveryEvent (Position e) (Timestamp e) (Kind e) (Entity e) (Source e).

Inductive failure :=
  | BadLimit | BadPosition | BadSkipPosition | InvalidBody | ProjectorRequired | ReasonRequired
  | UnknownProjector (name : string) (known : list string) | QueryFailed | SkipFailed (msg : string).
Definition status (f : failure) : Z :=
  match f with
  | BadLimit | BadPosition | BadSkipPosition | InvalidBody => 400
  | ProjectorRequired | ReasonRequired | UnknownProjector _ _ => 422
  | QueryFailed | SkipFailed _ => 500
  end.

Inductive response :=
  | NotFound | Failure (f : failure) | EventPage (l : list RecoveryEvent) | Cursors (l : list (string * Z * Z))
  | SkippedPage (l : list (Z * string * SkippedEvent)) | NoContent | Accepted.

Section Daemon.
Context {M T : Type} (unmarshal : string -> result string Payload).
Implicit Type d : Daemon M T.

(** The daemon after [store.Replay]: [enterRecovery], or on to phase 4. *)
Definition after_replay (r : option replay_error) (s : Store M T) (rows : gmap (Z * string) SkippedEvent) : Daemon M T :=
  match r with
  | Some e => mkDaemon s rows (-1) (Some (replay_text e, failed_position e)) false
  | None => mkDaemon s rows 4 None false
  end.

Definition InRecovery d : bool := d_phase d =? -1.
Definition RecoveryInfo d : string * Z := default ("", 0) (recoveryInfo d).
Definition ProjectorNames d : list string := (fun p => Name p.1) <$> projectors (d_store d).
Definition healthStatus d : string * Z := if d_phase d =? 5 then ("ready", 200) else if d_phase d =? -1 then ("recovery", 503) else ("starting", 503).

(** [database/sql] refuses an unsigned number of 64 bits. *)
Definition bindable (n : Z) : bool := n <? 2 ^ 63.

Definition QueryEvents (fail : option string) (position limit : Z) d : result string (list RecoveryEvent) :=
  let from := if limit <? position then position - limit - 1 else 0 in
  match fail with
  | Some msg => Err msg
  | None =>
      if bindable from then
        match Query unmarshal (mkQueryOptions from 0 Filter_zero limit) (db (d_store d)) with Ok evs => Ok (recovery_event <$> evs) | Err msg => Err msg end
      else Err "uint64 values with high bit set are not supported"
  end.

(** [ORDER BY name], and [ORDER BY position, projector]. *)
Definition name_le {A} (a b : string * A) : Prop := String.le a.1 b.1.
#[export] Instance name_le_dec {A} (a b : string * A) : Decision (name_le a b).
Proof. unfold name_le. apply _. Defined.
Definition QueryProjectionCursors (updated_at : string -> Z) d : list (string * Z * Z) :=
  (fun p => (p.1, p.2, updated_at p.1)) <$> merge_sort name_le (map_to_list (projection_cursors (db (d_store d)))).

Definition skip_le (a b : Z * string * SkippedEvent) : Prop := a.1.1 < b.1.1 \/ (a.1.1 = b.1.1 /\ String.le a.1.2 b.1.2).
#[export] Instance skip_le_dec a b : Decision (skip_le a b).
Proof. unfold skip_le. apply _. Defined.
Definition QuerySkippedEvents d : list (Z * string * SkippedEvent) := merge_sort skip_le (map_to_list (skip_rows d)).

(** [INSERT INTO skipped_events], whose key is the position and the projector. *)
Definition SkipEvent (fail : option string) (now position : Z) (projector reason skippedBy : string) d : Daemon M T * option string :=
  match fail with
  | Some msg => (d, Some msg)
  | None =>
      if negb (bindable position) then (d, Some "uint64 values with high bit set are not supported")
      else if bool_decide ((position, projector) ∈ skipped_events (db (d_store d))) then
        (d, Some "UNIQUE constraint failed: skipped_events.position, skipped_events.projector")
      else
        let db' := with_skipped ({[(position, projector)]} ∪ skipped_events (db (d_store d))) (db (d_store d)) in
        (mkDaemon (with_db db' (d_store d)) (<[(position, projector) := mkSkipped now skippedBy reason]> (skip_rows d)) (d_phase d) (recoveryInfo d) (cancelled d), None)
  end.

Definition Shutdown d : Daemon M T := mkDaemon (d_store d) (skip_rows d) (d_phase d) (recoveryInfo d) true.

(** ** The handlers *)

Definition recoveryGuard d (r : Daemon M T * response) : Daemon M T * response := if InRecovery d then r else (d, NotFound).

(** The query parameters, empty when absent. *)
Definition parse_limit (s : string) : option Z :=
  if is_empty s then Some 50 else match ParseInt s with Some n => if n <=? 0 then None else Some (Z.min n 200) | None => None end.
Definition parse_position (s : string) : option Z := if is_empty s then Some 0 else ParseUint s.

Definition HandleRecoveryEvents (fail : option string) (limit position : string) d : Daemon M T * response :=
  recoveryGuard d
    (d, match parse_limit limit with
        | None => Failure BadLimit
        | Some limit =>
            match parse_position position with
            | None => Failure BadPosition
            | Some position => match QueryEvents fail position limit d with Ok l => EventPage l | Err _ => Failure QueryFailed end
            end
        end).

Definition HandleProjectionCursors (fail : option string) (updated_at : string -> Z) d : Daemon M T * response :=
  recoveryGuard d (d, match fail with Some _ => Failure QueryFailed | None => Cursors (QueryProjectionCursors updated_at d) end).
Definition HandleSkippedEvents (fail : option string) d : Daemon M T * response :=
  recoveryGuard d (d, match fail with Some _ => Failure QueryFailed | None => SkippedPage (QuerySkippedEvents d) end).

(** The first JSON value of the body, as the struct of the handler. *)
Definition skip_body (body : option json) : option (string * string) :=
  j ← body; m ← as_struct j; p ← get "" dec_string "projector" m; r ← get "" dec_string "reason" m; Some (p, r).

Definition HandleSkipEvent (fail : option string) (now : Z) (remote position : string) (body : option json) d : Daemon M T * response :=
  recoveryGuard d
    match ParseUint position with
    | None => (d, Failure BadSkipPosition)
    | Some position =>
        if position =? 0 then (d, Failure BadSkipPosition)
        else match skip_body body with
        | None => (d, Failure InvalidBody)
        | Some (projector, reason) =>
            if is_empty projector then (d, Failure ProjectorRequired)
            else if is_empty reason then (d, Failure ReasonRequired)
            else if negb (existsb (String.eqb projector) (ProjectorNames d)) then (d, Failure (UnknownProjector projector (ProjectorNames d)))
            else match SkipEvent fail now position projector reason remote d with
            | (d', None) => (d', NoContent)
            | (d', Some msg) => (d', Failure (SkipFailed msg))
            end
        end
    end.

Definition HandleShutdown d : Daemon M T * response := recoveryGuard d (Shutdown d, Accepted).

End Daemon.

(** ** What the requests do *)

Section Requests.
Context {M T : Type} (unmarshal : string -> result string Payload).
Implicit Type d : Daemon M T.

(** The tables of skipped events agree. *)
Definition rows_ok d : Prop := dom (skip_rows d) = skipped_events (db (d_store d)).

Definition add_skip (k : Z * string) (x : DB T) : DB T := with_skipped ({[k]} ∪ skipped_events x) x.

(** The daemon after a skip. *)
Definition skipped_daemon (k : Z * string) (row : SkippedEvent) d : Daemon M T :=
  mkDaemon (with_db (add_skip k (db (d_store d))) (d_store d)) (<[k := row]> (skip_rows d)) (d_phase d) (recoveryInfo d) (cancelled d).

(** What a request must be for its skip to be recorded. *)
Definition skippable d (position : string) (body : option json) (k : Z * string) (reason : string) : Prop :=
  InRecovery d = true /\ ParseUint position = Some k.1 /\ 0 < k.1 < 2 ^ 63 /\ skip_body body = Some (k.2, reason) /\
  k.2 <> "" /\ reason <> "" /\ k.2 ∈ ProjectorNames d /\ k ∉ skipped_events (db (d_store d)).

Lemma known_iff n (l : list string) : existsb (String.eqb n) l = true <-> n ∈ l.
Proof. rewrite existsb_exists. setoid_rewrite <- list_elem_of_In. setoid_rewrite String.eqb_eq. naive_solver. Qed.

Lemma ParseUint_bounds s z : ParseUint s = Some z -> 0 <= z.
Proof.
  unfold ParseUint. destruct (is_empty s); [done|]. intros H. apply bind_Some in H as (z' & Hz & H). destruct (z' <=? max_u64); [|done].
  injection H as <-. revert z' Hz. assert (Ha : 0 <= 0) by lia. revert Ha. generalize 0 at 2 3. induction s as [|c s IH]; cbn [parse_digits]; intros a Ha z'.
  - by intros [= <-].
  - destruct (_ && _) eqn:Hc; [|done]. apply andb_true_iff in Hc as [H1 _]. apply Z.leb_le in H1. apply IH. lia.
Qed.

(** A request to skip an event is answered 204 exactly when it is complete: the
    daemon is in recovery, the position is a positive number the database can hold, the
    projector is registered, there is a reason and the event is not skipped for the
    projector already. It then adds that row, and only that; any other answer leaves the
    daemon as it was, and so does one of a failing database. *)
Theorem skip_event_exact fail now remote position body d :
  let '(d', r) := HandleSkipEvent fail now remote position body d in
  match r with
  | NoContent => fail = None /\ exists k reason, skippable d position body k reason /\ d' = skipped_daemon k (mkSkipped now remote reason) d
  | Failure _ => InRecovery d = true /\ d' = d /\ (fail = None -> forall k reason, ~ skippable d position body k reason)
  | NotFound => InRecovery d = false /\ d' = d
  | _ => False
  end.
Proof.
  unfold HandleSkipEvent, recoveryGuard, skippable. destruct (InRecovery d); [|done].
  destruct (ParseUint position) as [p|] eqn:Hp; [|naive_solver]. pose proof (ParseUint_bounds _ _ Hp).
  destruct (Z.eqb_spec p 0); [naive_solver lia|]. destruct (skip_body body) as [[name reason]|]; [|naive_solver].
  destruct name as [|a name]; [naive_solver|]. destruct reason as [|b reason]; [naive_solver|]. change (is_empty (String a name)) with false. change (is_empty (String b reason)) with false. cbv iota.
  destruct (existsb _ _) eqn:Hk; cbn [negb].
  2: { repeat (split; [done|]). intros _ [q n'] reason' (_ & _ & _ & [= <- <-] & _ & _ & Hin & _). apply known_iff in Hin. cbn [snd] in Hin. congruence. }
  apply known_iff in Hk. unfold SkipEvent. destruct fail; [naive_solver|]. unfold bindable. destruct (Z.ltb_spec p (2 ^ 63)); cbn [negb]; [|naive_solver lia].
  case_bool_decide; [split; [done|]; split; [done|]; by intros _ [q n'] ? (_ & [= <-] & _ & [= <- <-] & _ & _ & _ & Hin)|]. split; [done|]. exists (p, String a name), (String b reason). cbn. naive_solver lia.
Qed.

Lemma skip_rows_ok k row d : rows_ok d -> rows_ok (skipped_daemon k row d).
Proof. unfold rows_ok. cbn. rewrite dom_insert_L. by intros ->. Qed.

(** Outside recovery the five endpoints do not exist. *)
Theorem recovery_only fail updated now remote l position body d :
  InRecovery d = false ->
  HandleRecoveryEvents unmarshal fail l position d = (d, NotFound) /\ HandleProjectionCursors fail updated d = (d, NotFound) /\
  HandleSkippedEvents fail d = (d, NotFound) /\ HandleSkipEvent fail now remote position body d = (d, NotFound) /\ HandleShutdown d = (d, NotFound).
Proof.
  intros H. unfold HandleRecoveryEvents, HandleProjectionCursors, HandleSkippedEvents, HandleSkipEvent, HandleShutdown, recoveryGuard. by rewrite H.
Qed.

(** *** The page of events *)

Definition first_of_page (position limit : Z) : Z := if limit <? position then position - limit - 1 else 0.

Lemma query_page d evs position limit :
  readable_log unmarshal (db (d_store d)) evs -> 0 < limit -> 0 <= position -> position < 2 ^ 63 ->
  QueryEvents unmarshal None position limit d =
    Ok (recovery_event <$> take (Z.to_nat limit) (drop (Z.to_nat (first_of_page position limit)) evs)).
Proof.
  intros (Hlog & _ & Hevs) Hl Hp Hb. unfold QueryEvents, bindable. fold (first_of_page position limit).
  assert (0 <= first_of_page position limit < 2 ^ 63) by (unfold first_of_page; destruct (Z.ltb_spec limit position); lia).
  destruct (Z.ltb_spec (first_of_page position limit) (2 ^ 63)); [|lia].
  rewrite (Query_slice _ _ evs) by (done || cbn; lia). cbn [QFilter Limit FromPosition ToPosition]. unfold page_size, id.
  destruct (Z.leb_spec limit 0); [lia|]. rewrite Z.eqb_refl. do 2 f_equal.
  generalize (take (Z.to_nat limit) (drop (Z.to_nat (first_of_page position limit)) evs)). intros l. induction l as [|e l IH]; [done|].
  rewrite filter_cons_True by done. by rewrite IH.
Qed.

Lemma page_positions (x : DB T) evs p a n :
  readable_log unmarshal x evs ->
  p ∈ Position <$> take n (drop a evs) <-> Z.of_nat a < p <= Z.min (Z.of_nat a + Z.of_nat n) (Z.of_nat (length evs)).
Proof.
  intros (Hlog & Hs & Hevs). rewrite list_elem_of_fmap. setoid_rewrite list_elem_of_lookup. split.
  - intros (e & -> & i & Hi). apply lookup_take_Some in Hi as [Hi Hn]. rewrite lookup_drop in Hi.
    rewrite (scan_positions unmarshal _ _ _ _ Hlog Hs Hevs Hi). apply lookup_lt_Some in Hi. lia.
  - intros Hp. destruct (evs !! Z.to_nat (p - 1)) as [e|] eqn:He.
    2: { apply lookup_ge_None in He. lia. }
    exists e. split; [rewrite (scan_positions unmarshal _ _ _ _ Hlog Hs Hevs He); lia|]. exists (Z.to_nat (p - 1) - a)%nat.
    rewrite lookup_take_lt by lia. rewrite lookup_drop. rewrite <- He. f_equal. lia.
Qed.

(** The events shown around the position where replay stopped are the page of at
    most [limit] events that ends just before it, or the first page of the log. The
    failed event itself is on the page only when its position is at most [limit]:
    further into the log the operator never sees it. *)
Theorem failing_event_missing d evs p limit :
  readable_log unmarshal (db (d_store d)) evs -> 0 < limit -> 1 <= p <= Z.of_nat (length evs) ->
  exists l, QueryEvents unmarshal None p limit d = Ok l /\
    (forall q, q ∈ re_Position <$> l <-> if limit <? p then p - limit <= q < p else 1 <= q <= Z.min limit (Z.of_nat (length evs))) /\
    (p ∈ re_Position <$> l <-> p <= limit).
Proof.
  intros Hr Hl Hp. pose proof (readable_log_length _ _ _ Hr) as Hlen. pose proof Hr as (_ & Hs & _). eexists. split; [apply (query_page _ evs); [done|lia..]|].
  rewrite <- list_fmap_compose. change (re_Position ∘ recovery_event) with Position.
  setoid_rewrite (page_positions _ _ _ _ _ Hr). unfold first_of_page. destruct (Z.ltb_spec limit p); split; intros; lia.
Qed.

(** *** Skipping the event that stopped the replay *)

Implicit Type regs : list (Projector M T * ProjectorMode).
Definition names_of regs : list string := (fun p => Name p.1) <$> regs.

Lemma apply_add_skip k (q : Projector M T) e m x :
  applyProjector q e m (add_skip k x) = let '(m1, x1, err) := applyProjector q e m x in (m1, add_skip k x1, err).
Proof. unfold applyProjector, add_skip. cbn. by destruct (Apply q e m (tables x)) as [[m1 t1] [msg|]]. Qed.

Lemma isSkipped_add k p n (x : DB T) : (p, n) <> k -> isSkipped p n (add_skip k x) = isSkipped p n x.
Proof. intros H. unfold isSkipped. apply bool_decide_ext. cbn. set_solver. Qed.

(** A skip of another event or projector changes nothing. *)
Lemma replay_event_add_skip k regs e m x :
  (Position e = k.1 -> k.2 ∉ names_of regs) ->
  replay_event regs e m (add_skip k x) = let '(m1, x1, err) := replay_event regs e m x in (m1, add_skip k x1, err).
Proof.
  intros Hk. revert m x. induction regs as [|[q mode] regs IH]; intros m x; [done|]. cbn [replay_event].
  assert (IH' := IH ltac:(intros H; specialize (Hk H); cbn in Hk; set_solver)). clear IH. destruct (negb (is_sync mode)); [apply IH'|].
  rewrite isSkipped_add by (intros <-; cbn in Hk; destruct Hk; [done|left]). destruct (isSkipped _ _ x); [apply IH'|].
  rewrite apply_add_skip. destruct (applyProjector q e m x) as [[m1 x1] [msg|]]; [done|]. apply IH'.
Qed.

Lemma replay_event_error regs e m x y : (replay_event regs e m x).2 = Some y -> exists n msg, y = ReplayError (Position e) n msg /\ n ∈ names_of regs.
Proof.
  revert m x. induction regs as [|[q mode] regs IH]; intros m x; cbn [replay_event]; [done|].
  assert (Hs : (exists n msg, y = ReplayError (Position e) n msg /\ n ∈ names_of regs) ->
               exists n msg, y = ReplayError (Position e) n msg /\ n ∈ names_of ((q, mode) :: regs)).
  { intros (n & msg & -> & Hn). exists n, msg. split; [done|]. by right. }
  destruct (negb _); [naive_solver|]. destruct (isSkipped _ _ x); [naive_solver|].
  destruct (applyProjector q e m x) as [[m1 x1] [msg|]]; [|naive_solver]. intros [= <-]. exists (Name q), msg. split; [done|left].
Qed.

Lemma replay_events_error regs evs m x y :
  (replay_events regs evs m x).2 = Some y -> exists e n msg, e ∈ evs /\ y = ReplayError (Position e) n msg.
Proof.
  revert m x. induction evs as [|e evs IH]; intros m x; cbn [replay_events]; [done|].
  destruct (replay_event regs e m x) as [[m1 x1] [z|]] eqn:He.
  - intros [= <-]. destruct (replay_event_error regs e m x z) as (n & msg & -> & _); [by rewrite He|]. exists e, n, msg. split; [left|done].
  - intros H. destruct (IH _ _ H) as (e' & n & msg & Hin & ->). exists e', n, msg. split; [by right|done].
Qed.

(** A failure that comes later in the replay: at a later event, or at the same one in a
    projector registered later. *)
Definition later regs (p : Z) (n : string) (y : replay_error) : Prop :=
  match y with
  | ReplayError p' n' _ => p < p' \/ (p = p' /\ exists before after, names_of regs = before ++ n :: after /\ n' ∈ after)
  | ReplayOther _ => False
  end.

(** The event itself: with the skip, the projectors after the failed one are reached. *)
Lemma replay_event_past regs e m x n msg :
  NoDup (names_of regs) -> (replay_event regs e m x).2 = Some (ReplayError (Position e) n msg) ->
  match (replay_event regs e m (add_skip (Position e, n) x)).2 with Some y => later regs (Position e) n y | None => True end.
Proof.
  revert m x. induction regs as [|[q mode] regs IH]; intros m x; cbn [replay_event]; [done|]. intros [Hq Hn]%NoDup_cons.
  assert (Hs : forall m x, (replay_event regs e m x).2 = Some (ReplayError (Position e) n msg) ->
    match (replay_event regs e m (add_skip (Position e, n) x)).2 with Some y => later ((q, mode) :: regs) (Position e) n y | None => True end).
  { intros m' x' H. specialize (IH m' x' Hn H). destruct (replay_event regs e m' (add_skip _ x')).2 as [[p' n' msg'|msg']|]; [|done..].
    destruct IH as [?|(? & b & a & Hb & Ha)]; [by left|]. right. split; [done|]. exists (Name q :: b), a. split; [|done]. cbn. f_equal. exact Hb. }
  destruct (negb (is_sync mode)); [apply Hs|]. destruct (decide (Name q = n)) as [<-|Hne].
  - assert (isSkipped (Position e) (Name q) (add_skip (Position e, Name q) x) = true) as -> by (unfold isSkipped; apply bool_decide_true; cbn; set_solver).
    intros _. destruct (replay_event regs e m _) as [[m1 x1] [y|]] eqn:He; [|done].
    destruct (replay_event_error regs e m (add_skip (Position e, Name q) x) y) as (n' & msg' & -> & Hin); [by rewrite He|].
    right. split; [done|]. by exists [], (names_of regs).
  - rewrite isSkipped_add by (intros [= ?]; congruence). destruct (isSkipped _ _ x); [apply Hs|]. rewrite apply_add_skip.
    destruct (applyProjector q e m x) as [[m1 x1] [msg'|]]; [cbn; congruence|]. apply Hs.
Qed.

Lemma replay_events_past regs evs m x p n msg :
  NoDup (names_of regs) -> StronglySorted Z.lt (Position <$> evs) -> (replay_events regs evs m x).2 = Some (ReplayError p n msg) ->
  match (replay_events regs evs m (add_skip (p, n) x)).2 with Some y => later regs p n y | None => True end.
Proof.
  intros Hn. revert m x. induction evs as [|e evs IH]; intros m x; cbn [replay_events fmap list_fmap]; [done|]. intros [Hs Hlt]%StronglySorted_inv. rewrite Forall_fmap, Forall_forall in Hlt. destruct (replay_event regs e m x) as [[m1 x1] err1] eqn:He. destruct err1 as [y|].
  - intros [= ->]. destruct (replay_event_error regs e m x (ReplayError p n msg)) as (n' & msg' & [= -> <- <-] & _); [by rewrite He|].
    pose proof (replay_event_past regs e m x n msg Hn ltac:(by rewrite He)) as Hp.
    destruct (replay_event regs e m (add_skip _ x)) as [[m2 x2] [y|]]; [done|].
    destruct (replay_events regs evs m2 x2).2 as [y|] eqn:Hr; [|done]. destruct (replay_events_error _ _ _ _ _ Hr) as (e' & n' & msg' & Hin & ->).
    left. by apply Hlt.
  - intros H. assert (Position e <> p).
    { destruct (replay_events_error _ _ _ _ _ H) as (e' & n' & msg' & Hin & [= -> <- <-]). specialize (Hlt _ Hin). cbn in Hlt. lia. }
    rewrite replay_event_add_skip by done. rewrite He. by apply IH.
Qed.

Lemma index_sorted {A} (f : A -> Z) (l : list A) c :
  (forall i x, l !! i = Some x -> f x = Z.of_nat i + c) -> StronglySorted Z.lt (f <$> l).
Proof.
  revert c. induction l as [|x l IH]; intros c H; cbn; constructor.
  - apply (IH (c + 1)). intros i y Hi. rewrite (H (S i) y Hi). lia.
  - rewrite Forall_fmap, Forall_lookup. intros i y Hi. cbn. rewrite (H 0%nat x eq_refl), (H (S i) y Hi). lia.
Qed.

(** C40. Skipping the event at which a projector stopped the replay works: once the
    request is answered 204, replaying the same log from the same state comes to the end
    or stops later, at a later event or, at the same event, in a projector registered
    after the skipped one. *)
Theorem skip_makes_progress fail now remote position body d d' evs m p n msg reason :
  readable_log unmarshal (db (d_store d)) evs -> NoDup (names_of (projectors (d_store d))) ->
  (replay_events (projectors (d_store d)) evs m (db (d_store d))).2 = Some (ReplayError p n msg) ->
  HandleSkipEvent fail now remote position body d = (d', NoContent) -> ParseUint position = Some p -> skip_body body = Some (n, reason) ->
  projectors (d_store d') = projectors (d_store d) /\
  match (replay_events (projectors (d_store d')) evs m (db (d_store d'))).2 with Some y => later (projectors (d_store d)) p n y | None => True end.
Proof.
  intros (Hlog & Hs & Hevs) Hn Hf Hskip Hp Hbody. pose proof (skip_event_exact fail now remote position body d) as Hx. rewrite Hskip in Hx.
  destruct Hx as (_ & [p' n'] & reason' & (_ & Hp' & _ & Hb' & _) & ->). rewrite Hp in Hp'. rewrite Hbody in Hb'. injection Hp' as [= <-]. injection Hb' as [= <- <-].
  split; [done|]. apply (replay_events_past _ _ _ _ _ _ msg); [done| |done].
  apply (index_sorted Position evs 1). intros i e Hi. by rewrite (scan_positions unmarshal _ _ _ _ Hlog Hs Hevs Hi).
Qed.

End Requests.

(** ** A daemon whose second projector fails *)

Module RecoveryDemo.

(** The projectors keep nothing; [bad] fails on the second event and later. *)
Definition quiet (name : string) : Projector unit unit :=
  mkProjector name (fun _ m t => (m, t, None)) NoSnapshot_Snapshot NoSnapshot_Restore None None.
Definition bad : Projector unit unit :=
  mkProjector "registry" (fun e m t => (m, t, if 2 <=? Position e then Some "unknown device" else None)) NoSnapshot_Snapshot NoSnapshot_Restore None None.

(** [n] events in the log. *)
Definition log (n : nat) : DB unit := foldl (fun d _ => (insert_event (Example.ev "x") "x" d).1) Example.db0 (seq 0 n).
Definition stopped (n : nat) : Store unit unit :=
  mkStore Example.cfg0 (log n) [(quiet "state_cache", ProjectorModeSync); (bad, ProjectorModeSync); (quiet "activity", ProjectorModeAsync)] () (Z.of_nat n) false.

(** The replay of [n] events, and the daemon after it. *)
Definition down (n : nat) : Daemon unit unit :=
  match Replay Example.unmarshal 2 (fun _ => no_faults) (fun _ => no_faults) (stopped n) with
  | Some (s, r) => after_replay r s ∅
  | None => after_replay None (stopped n) ∅
  end.

Definition evs (n : nat) : list Event := (fun i => set_Position (Z.of_nat i + 1) (Example.ev "x")) <$> seq 0 n.
Definition body (name : string) : option json := Some (JObject [("projector", JString name); ("reason", JString "gone")]).

Example in_recovery : RecoveryInfo (down 3) = ("replay failed at position 2 (projector registry): unknown device", 2) /\ healthStatus (down 3) = ("recovery", 503).
Proof. split; by vm_compute. Qed.

Lemma readable3 : readable_log Example.unmarshal (db (d_store (down 3))) (evs 3).
Proof. repeat split; by vm_compute. Qed.
Lemma readable52 : readable_log Example.unmarshal (db (d_store (down 52))) (evs 52).
Proof. repeat split; by vm_compute. Qed.

(** The page shown for a failure at position 51 ends at position 50. *)
Lemma failing_event_missing_witness :
  exists l, QueryEvents Example.unmarshal None 51 50 (down 52) = Ok l /\
    (forall q, q ∈ re_Position <$> l <-> if 50 <? 51 then 51 - 50 <= q < 51 else 1 <= q <= Z.min 50 (Z.of_nat (length (evs 52)))) /\
    (51 ∈ re_Position <$> l <-> 51 <= 50).
Proof. apply (failing_event_missing Example.unmarshal (down 52) (evs 52) 51 50 readable52); vm_compute; by split. Defined.

(** After the skip of event 2 the replay stops at event 3. *)
Definition skipped : Daemon unit unit * response := HandleSkipEvent None 9 "10.0.0.1:5" "2" (body "registry") (down 3).
Lemma skip_makes_progress_witness :
  projectors (d_store skipped.1) = projectors (d_store (down 3)) /\
  match (replay_events (projectors (d_store skipped.1)) (evs 3) () (db (d_store skipped.1))).2 with
  | Some y => later (projectors (d_store (down 3))) 2 "registry" y | None => True end.
Proof.
  apply (skip_makes_progress Example.unmarshal None 9 "10.0.0.1:5" "2" (body "registry") (down 3) skipped.1 (evs 3) () 2 "registry" "unknown device" "gone" readable3).
  - apply (bool_decide_unpack _); by vm_compute.
  - by vm_compute.
  - by vm_compute.
  - by vm_compute.
  - by vm_compute.
Defined.

Example next_stop : (replay_events (projectors (d_store skipped.1)) (evs 3) () (db (d_store skipped.1))).2 = Some (ReplayError 3 "registry" "unknown device").
Proof. by vm_compute. Qed.

(** The same request again is a server error, not a success. *)
Example skip_twice :
  (HandleSkipEvent None 9 "10.0.0.1:5" "2" (body "registry") skipped.1).2 =
    Failure (SkipFailed "UNIQUE constraint failed: skipped_events.position, skipped_events.projector").
Proof. by vm_compute. Qed.

(** A projector that replay does not run is accepted, and the skip does nothing. *)
Example skip_of_async :
  let r := HandleSkipEvent None 9 "10.0.0.1:5" "2" (body "activity") (down 3) in
  r.2 = NoContent /\
  (replay_events (projectors (d_store r.1)) (evs 3) () (db (d_store r.1))).2 = Some (ReplayError 2 "registry" "unknown device").
Proof. split; by vm_compute. Qed.

End RecoveryDemo.
