(* ===== verification/EngineControl.v ===== *)
(** * Controlling the automation engine

    Models the rest of [internal/automation/engine.go]: Start, the event loop, Stop,
    Trigger, List, Get and SetEnabled, with [automationControlAdapter] of
    [internal/daemon/api_adapters.go] and the handlers of
    [internal/api/service_automation.go] that use them. The run states are those of
    [Engine].

    A fire, a run and the pump of a queue have a context: that of the engine, or that of
    the request that triggered by hand, which ends when the request returns. [k_step]
    adds the contexts to the interleavings of [rs_step].

    [queue_never_strands]: without triggers by hand, an accepted trigger is served.
    [manual_trigger_kills_queue]: with one, a queued automation can stop for good.
    [enabled_exact]: what enabling does, up to the next reload. *)

From S2P Require Import Prelude Codec DriverKit Events Triggers Engine EngineFacts Api.

(** ** Queries and switches *)

Record Summary := mkSummary { s_ID : string; s_Mode : string; s_Enabled : bool; s_Areas : list string }.

Section Control.
(** The areas of the automation that a run state holds. *)
Context (areas_of : string -> list string).
Implicit Type e : Engine.

Definition with_runStates (m : gmap string runState) e : Engine := mkEngine (automations e) (e_triggers e) m (scheduler e).

Definition summaryFromAuto (id : string) (s : runState) : Summary := mkSummary id (Mode_String (rs_mode s)) (rs_enabled s) (areas_of id).

(** [List]: [order] is the order in which Go ranges over the map. *)
Definition List (order : list (string * runState)) : list Summary := (fun p => summaryFromAuto p.1 p.2) <$> order.
Definition Get (id : string) e : option Summary := summaryFromAuto id <$> runStates e !! id.

Definition SetEnabled (id : string) (enabled : bool) e : Engine * option string :=
  match runStates e !! id with
  | None => (e, Some ("automation " +:+ quoted id +:+ " not found"))
  | Some s => (with_runStates (<[id := swapAuto (rs_mode s) (rs_max s) enabled s]> (runStates e)) e, None)
  end.

(** [Trigger]: the match that is fired, with the context of the caller. *)
Definition Trigger (id : string) e : result string Match :=
  match runStates e !! id with
  | None => Err ("automation " +:+ quoted id +:+ " not found")
  | Some s => if negb (rs_enabled s) then Err ("automation " +:+ quoted id +:+ " disabled") else Ok (mkMatch id "manual" None)
  end.

(** [runLoop] on an event: what it fires, with the context of the engine. *)
Definition run_loop (ev : Event) e : Engine * list Match :=
  let '(r, ms) := Dispatch ev (e_triggers e) in (mkEngine (automations e) r (runStates e) (scheduler e), ms).

(** *** The service *)

Definition areaFilter (area : string) (l : list Summary) : list Summary :=
  if is_empty area then l else filter (fun s => contains_eq (s_Areas s) area = true) l.

Definition AutomationService_List (order : list (string * runState)) (area : string) (size : Z) (token : string) : reply Summary :=
  match list_handler (List order) size token with
  | Reply l next => Reply (areaFilter area l) next
  | r => r
  end.

(** [Enable] and [Disable]. *)
Definition AutomationService_SetEnabled (id : string) (enabled : bool) e : Engine * result connect_error Summary :=
  match SetEnabled id enabled e with
  | (e', Some msg) => (e', Err (ToConnect (mkError msg []) (if enabled then "enable_failed" else "disable_failed")))
  | (e', None) =>
      (e', match Get id e' with
           | Some s => Ok s
           | None => Err (ToConnect (mkError ("automation " +:+ quoted id +:+ " not found after update") []) (if enabled then "enable_failed" else "disable_failed"))
           end)
  end.

(** [Trigger]: the id of the run, and what is fired. *)
Definition AutomationService_Trigger (id : string) e : result connect_error (string * Match) :=
  match Trigger id e with Ok m => Ok ("", m) | Err msg => Err (ToConnect (mkError msg []) "trigger_failed") end.

End Control.

(** ** The life of the engine *)

Record life := mkLife { l_started : bool; l_loops : nat; l_cancelled : bool }.

(** [Start] and [Stop]; [sub] is the failure of [Subscribe]. *)
Definition Start (sub : option string) (l : life) : life * option string :=
  if l_started l then (l, None)
  else match sub with
  | Some msg => (mkLife true (l_loops l) false, Some ("automation subscribe: " +:+ msg))
  | None => (mkLife true (S (l_loops l)) false, None)
  end.
Definition Stop (l : life) : life := if l_started l then mkLife false 0 true else l.

(** ** Contexts *)

(** The context of the engine, or of the request with this number. *)
Inductive ctx := EngineCtx | RequestCtx (n : nat).
#[export] Instance ctx_eq_dec : EqDecision ctx.
Proof. solve_decision. Defined.

(** A run state with the contexts of its fires, in their order, of its pump and of its
    runs. *)
Record controlled := mkControlled {
  k_rs : runState;
  k_fires : list ctx;
  k_pump : option ctx;
  k_runs : gmap nat ctx;
  k_stopped : bool;
  k_returned : gset nat;
}.

Definition ctx_done (c : ctx) (k : controlled) : bool :=
  match c with EngineCtx => k_stopped k | RequestCtx n => bool_decide (n ∈ k_returned k) end.

(** The address of the run that [fire_switch] starts, if any. *)
Definition switch_starts (mode : Mode) (s : runState) : option nat :=
  match mode with
  | ModeSingle => if running s then None else Some (rs_next s)
  | ModeRestart => Some (rs_next (call_activeCancel s))
  | ModeParallel => Some (rs_next s)
  | ModeQueued => None
  end.
Definition add_run (r : option nat) (c : ctx) (m : gmap nat ctx) : gmap nat ctx := match r with Some r => <[r := c]> m | None => m end.
Definition pump_starts (s s' : runState) : bool := match rs_pump s, rs_pump s' with PumpNone, PumpStarting => true | _, _ => false end.
Definition takes_run (s : runState) : option nat := match rs_pump s with PumpBusy _ _ r => Some r | _ => None end.

Definition with_k (s : runState) (fires : list ctx) (pump : option ctx) (runs : gmap nat ctx) (k : controlled) : controlled :=
  mkControlled s fires pump runs (k_stopped k) (k_returned k).

Definition k_lookup (c : ctx) (m : Match) (k : controlled) : controlled :=
  with_k (fire_lookup m (k_rs k)) (if rs_live (k_rs k) && rs_enabled (k_rs k) then k_fires k ++ [c] else k_fires k) (k_pump k) (k_runs k) k.
Definition k_take (k : controlled) : controlled :=
  let s' := pump_take (k_rs k) in
  with_k s' (k_fires k) (k_pump k)
    (match rs_pump (k_rs k) with PumpIdle _ _ => add_run (takes_run s') (default EngineCtx (k_pump k)) (k_runs k) | _ => k_runs k end) k.

(** [manual]: whether requests may trigger. *)
Inductive k_step (manual : bool) : controlled -> controlled -> Prop :=
  | k_fire k c m : manual = true \/ c = EngineCtx -> k_step manual k (k_lookup c m k)
  | k_switch k c c1 c2 f1 f2 mode n m :
      k_fires k = c1 ++ c :: c2 -> rs_fires (k_rs k) = f1 ++ Admitted_ mode n m :: f2 -> length c1 = length f1 ->
      let s0 := with_fires (f1 ++ f2) (k_rs k) in
      k_step manual k (with_k (fire_switch mode n m s0) (c1 ++ c2 ++ if bool_decide (mode = ModeQueued) then [c] else []) (k_pump k)
                         (add_run (switch_starts mode s0) c (k_runs k)) k)
  | k_send k c c1 c2 f1 f2 q m s' :
      k_fires k = c1 ++ c :: c2 -> rs_fires (k_rs k) = f1 ++ Sending q m :: f2 -> length c1 = length f1 ->
      fire_send q m (with_fires (f1 ++ f2) (k_rs k)) = Some s' ->
      k_step manual k (with_k s' (c1 ++ c2) (if pump_starts (k_rs k) s' then Some c else k_pump k) (k_runs k) k)
  | k_finish k r : k_step manual k (with_k (finish_run r (k_rs k)) (k_fires k) (k_pump k) (delete r (k_runs k)) k)
  | k_read k : k_step manual k (with_k (pump_read (k_rs k)) (k_fires k) (k_pump k) (k_runs k) k)
  | k_next k : k_step manual k (k_take k)
  | k_pump_done k c : k_pump k = Some c -> ctx_done c k = true -> k_step manual k (with_k (pump_shutdown (k_rs k)) (k_fires k) (k_pump k) (k_runs k) k)
  | k_remove k s' : rs_live (k_rs k) = true -> reload_remove (k_rs k) = Some s' -> k_step manual k (with_k s' (k_fires k) (k_pump k) (k_runs k) k)
  | k_swap k mode n en : rs_live (k_rs k) = true -> k_step manual k (with_k (swapAuto mode n en (k_rs k)) (k_fires k) (k_pump k) (k_runs k) k)
  | k_return k n : k_step manual k (mkControlled (k_rs k) (k_fires k) (k_pump k) (k_runs k) (k_stopped k) ({[n]} ∪ k_returned k))
  | k_stop k : k_step manual k (mkControlled (k_rs k) (k_fires k) (k_pump k) (k_runs k) true (k_returned k)).

Definition fresh (mode : Mode) (n : nat) (en : bool) : controlled := mkControlled (newRunState mode n en) [] None ∅ false ∅.
Definition k_reachable (manual : bool) (k : controlled) : Prop := exists mode n en, rtc (k_step manual) (fresh mode n en) k.

(** ** Contexts only restrict the interleavings *)

Lemma k_step_rs manual k k' : k_step manual k k' -> rtc rs_step (k_rs k) (k_rs k').
Proof.
  destruct 1; cbn; try done; apply rtc_once; first [by eapply step_send | by apply step_switch | by constructor].
Qed.

Lemma k_steps_rs manual k k' : rtc (k_step manual) k k' -> rtc rs_step (k_rs k) (k_rs k').
Proof. induction 1 as [|k1 k2 k3 H _ IH]; [done|]. etrans; [by eapply k_step_rs|done]. Qed.

Lemma k_reachable_rs manual k : k_reachable manual k -> rs_reachable (k_rs k).
Proof. intros (mode & n & en & H). exists mode, n, en. by apply (k_steps_rs manual (fresh mode n en)). Qed.

Lemma rs_steps_inv (P : runState -> Prop) s s' : (forall s1 s2, rs_step s1 s2 -> P s1 -> P s2) -> rtc rs_step s s' -> P s -> P s'.
Proof. intros Hstep. induction 1 as [|s1 s2 s3 H _ IH]; [done|]. intros Hp. by eapply IH, Hstep. Qed.

(** A pump that has returned stays so, and then no queued run is in progress. *)
Lemma rs_step_exited s s' : rs_step s s' -> rs_pump s = PumpExited -> rs_pump s' = PumpExited.
Proof.
  destruct 1 as [s m|s f1 f2 mode n m Hf|s s' f1 f2 q m Hf Hs|s r|s|s|s|s s' Hl Hr|s mode n en Hl]; intros Hp; try done.
  - unfold fire_lookup. by repeat case_match.
  - unfold fire_switch, ensureQueue, call_activeCancel. destruct mode; cbn; repeat case_match; simplify_eq; done.
  - unfold fire_send in Hs. repeat case_match; simplify_eq; unfold startPumpOnce; cbn; by rewrite ?Hp.
  - unfold finish_run. repeat case_match; cbn in *; congruence.
  - unfold pump_read. by rewrite Hp.
  - unfold pump_take. by rewrite Hp.
  - unfold pump_shutdown. by rewrite Hp.
  - unfold reload_remove, call_activeCancel in Hr. repeat case_match; simplify_eq; done.
Qed.

Lemma exited_no_run s : rs_reachable s -> rs_pump s = PumpExited -> forall r x, rs_runs s !! r = Some x -> run_mode x <> ModeQueued.
Proof.
  intros H%rs_reachable_ok Hp r x Hr Hm. destruct (qu_runs _ (ok_queue _ H) r x Hr Hm) as (q & done_ & Hb). congruence.
Qed.

(** ** Without triggers by hand *)

(** The pump of a queue that accepted something waits on that queue or runs. *)
Definition serve_ok (s : runState) : Prop :=
  (forall q m, Sending q m ∈ rs_fires s -> rs_queue s = Some q) /\
  match rs_pump s with
  | PumpNone => forall q c, rs_chans s !! q = Some c -> q_items c = []
  | PumpStarting => is_Some (rs_queue s)
  | PumpIdle q _ | PumpBusy q _ _ => is_Some q /\ q = rs_queue s
  | PumpExited => False
  end.

Lemma serve_same s s' :
  rs_pump s' = rs_pump s -> rs_queue s' = rs_queue s -> rs_chans s' = rs_chans s -> (forall q m, Sending q m ∈ rs_fires s' -> Sending q m ∈ rs_fires s) ->
  serve_ok s -> serve_ok s'.
Proof. intros H1 H2 H3 H4 [Hf Hp]. unfold serve_ok. rewrite H1, H2, H3. split; [|done]. intros q m Hin. by eapply Hf, H4. Qed.

Lemma serve_lookup m s : serve_ok s -> serve_ok (fire_lookup m s).
Proof.
  unfold fire_lookup. destruct (negb (rs_live s)); [done|]. destruct (negb (rs_enabled s)); [done|]. apply serve_same; try done.
  cbn. set_solver.
Qed.

Lemma serve_switch mode n m f1 f2 s :
  serve_ok s -> rs_fires s = f1 ++ Admitted_ mode n m :: f2 -> serve_ok (fire_switch mode n m (with_fires (f1 ++ f2) s)).
Proof.
  intros Hok Hs. assert (Hsub : forall q m', Sending q m' ∈ f1 ++ f2 -> Sending q m' ∈ rs_fires s) by (rewrite Hs; set_solver).
  destruct (decide (mode = ModeQueued)) as [->|Hne].
  2: { destruct mode; try done; unfold fire_switch, call_activeCancel; cbn; repeat case_match; apply (serve_same s); done. }
  destruct Hok as [Hf Hp]. unfold fire_switch, ensureQueue. cbn. destruct (rs_queue s) as [q0|] eqn:Hq; split; cbn; rewrite ?Hq; try done.
  - intros q m' [Hin|Hin]%elem_of_app; [by eapply Hf, Hsub|set_solver].
  - intros q m' [Hin|Hin]%elem_of_app; [by specialize (Hf q m' (Hsub q m' Hin))|set_solver].
  - destruct (rs_pump s) as [| |q ?|q ? ?|]; [|done|by destruct Hp as [[? ->] ?]..|done].
    intros q c. destruct (decide (q = rs_next s)) as [->|Hne]; [rewrite lookup_insert_eq; by intros [= <-]|]. rewrite lookup_insert_ne by done. apply Hp.
Qed.

Lemma serve_send q m f1 f2 s s' :
  serve_ok s -> rs_fires s = f1 ++ Sending q m :: f2 -> fire_send q m (with_fires (f1 ++ f2) s) = Some s' -> serve_ok s'.
Proof.
  intros Hok Hs. assert (Hq : rs_queue s = Some q) by (apply (proj1 Hok q m); rewrite Hs; set_solver).
  assert (Hsub : forall q m', Sending q m' ∈ f1 ++ f2 -> Sending q m' ∈ rs_fires s) by (rewrite Hs; set_solver).
  unfold fire_send. change (rs_chans (with_fires (f1 ++ f2) s)) with (rs_chans s). destruct (rs_chans s !! q) as [c|] eqn:Hc; [|done]. destruct (q_closed c); [done|].
  destruct (length (q_items c) <? q_cap c)%nat; intros [= <-]; [|by apply (serve_same s)]. destruct Hok as [Hf Hp].
  assert (Hf' : forall q m, Sending q m ∈ f1 ++ f2 -> rs_queue s = Some q) by (intros q' m' Hin; by eapply Hf, Hsub).
  unfold startPumpOnce. cbn. destruct (rs_pump s) eqn:Hpump; split; cbn; rewrite ?Hpump; try done; by rewrite Hq.
Qed.

Lemma serve_finish r s : serve_ok s -> serve_ok (finish_run r s).
Proof.
  intros Hok. unfold finish_run. destruct (rs_runs s !! r) as [x|]; [|done].
  destruct (decide (run_mode x = ModeQueued)) as [->|Hne].
  2: { destruct (run_mode x); try done; cbn; repeat case_match; by apply (serve_same s). }
  destruct Hok as [Hf Hp]. cbn. destruct (rs_pump s) eqn:Hpump; split; cbn; rewrite ?Hpump; done.
Qed.

Lemma serve_read s : serve_ok s -> serve_ok (pump_read s).
Proof. intros [Hf Hp]. unfold pump_read. destruct (rs_pump s) eqn:Hpump; split; cbn; rewrite ?Hpump; done. Qed.

Lemma serve_take s : addr_ok s -> serve_ok s -> serve_ok (pump_take s).
Proof.
  intros Ha Hok. unfold pump_take. destruct (rs_pump s) as [| |[q|] ran| |] eqn:Hpump; try done.
  pose proof Hok as [Hf Hp]. rewrite Hpump in Hp. destruct Hp as [_ Hq].
  destruct (ad_queue _ Ha q (eq_sym Hq)) as (c & Hc & Hcl). rewrite Hc. destruct (q_items c) as [|m rest]; [by rewrite Hcl|]. by split.
Qed.

(** What holds of a run state whose fires all come from the engine. *)
Record engine_only (k : controlled) : Prop := {
  eo_rs : rs_ok (k_rs k);
  eo_fires : Forall (fun c => c = EngineCtx) (k_fires k);
  eo_pump : forall c, k_pump k = Some c -> c = EngineCtx;
  eo_serve : k_stopped k = true \/ rs_live (k_rs k) = false \/ serve_ok (k_rs k);
}.

Lemma live_same s s' : rs_step s s' -> rs_live s = false -> rs_live s' = false.
Proof.
  destruct 1 as [s m|s f1 f2 mode n m Hf|s s' f1 f2 q m Hf Hs|s r|s|s|s|s s' Hl Hr|s mode n en Hl]; intros Hp; try done.
  - unfold fire_lookup. by repeat case_match.
  - unfold fire_switch, ensureQueue, call_activeCancel. destruct mode; cbn; repeat case_match; simplify_eq; done.
  - unfold fire_send in Hs. repeat case_match; simplify_eq; unfold startPumpOnce; cbn; by repeat case_match.
  - unfold finish_run. repeat case_match; cbn in *; congruence.
  - unfold pump_read. by repeat case_match.
  - unfold pump_take. by repeat case_match.
  - unfold pump_shutdown. repeat case_match; cbn; try done. assert (H' : forall l s, rs_live (foldl (fun s m => emitSkipped m "shutdown" s) s l) = rs_live s); [|by rewrite H'].
    intros l. induction l as [|x l IH]; intros s0; [done|]. cbn. by rewrite IH.
  - congruence.
Qed.

Lemma engine_only_step k k' : engine_only k -> k_step false k k' -> engine_only k'.
Proof.
  intros [Hr Hf Hp Hs] Hk. pose proof (ok_addr _ Hr) as Ha. pose proof (k_step_rs _ _ _ Hk) as Hrs.
  pose proof (rs_steps_inv rs_ok _ _ (fun s1 s2 H1 H2 => rs_ok_step s1 s2 H2 H1) Hrs Hr) as Hr'.
  pose proof (rs_steps_inv (fun s => rs_live s = false) _ _ live_same Hrs) as Hlive.
  assert (Hkeep : (serve_ok (k_rs k) -> serve_ok (k_rs k')) -> k_stopped k' = k_stopped k -> k_stopped k' = true \/ rs_live (k_rs k') = false \/ serve_ok (k_rs k')).
  { intros H1 ->. destruct Hs as [Hs|[Hs|Hs]]; auto. }
  destruct Hk as [k c m Hc|k c c1 c2 f1 f2 mode n m Hc Hfi Hlen s0|k c c1 c2 f1 f2 q m s' Hc Hfi Hlen Hsend|k r|k|k|k c Hc Hd|k s' Hl Hrm|k mode n en Hl|k n|k];
    try (split; [done|done|done|by left]).
  - destruct Hc as [Hc| ->]; [done|]. split; [done| |done|apply Hkeep; [apply serve_lookup|done]]. cbn.
    case_match; [apply Forall_app; split; [done|by apply Forall_singleton]|done].
  - rewrite Hc in Hf. apply Forall_app in Hf as [Hf1 [-> Hf2]%Forall_cons].
    split; [done| |done|apply Hkeep; [intros ?; by apply serve_switch|done]]. cbn. apply Forall_app; split; [done|]. apply Forall_app; split; [done|]. case_bool_decide; [by apply Forall_singleton|done].
  - rewrite Hc in Hf. apply Forall_app in Hf as [Hf1 [-> Hf2]%Forall_cons].
    split; [done|by apply Forall_app| |apply Hkeep; [intros ?; by eapply serve_send|done]]. cbn. case_match; [by intros ? [= <-]|done].
  - split; [done..|]. apply Hkeep; [apply serve_finish|done].
  - split; [done..|]. apply Hkeep; [apply serve_read|done].
  - split; [done..|]. apply Hkeep; [by apply serve_take|done].
  - apply Hp in Hc as ->. split; [done..|]. left. done.
  - split; [done..|]. right. left. cbn. unfold reload_remove in Hrm. repeat case_match; by simplify_eq.
  - split; [done..|]. apply Hkeep; [|done]. intros [H1 H2]. by split.
  - split; [done..|]. by apply Hkeep.
Qed.

Lemma k_reachable_engine_only k : k_reachable false k -> engine_only k.
Proof.
  intros (mode & n & en & H). assert (H0 : engine_only (fresh mode n en)).
  { split; [|by constructor|done|].
    - apply rs_reachable_ok. exists mode, n, en. constructor.
    - right. right. split; cbn; [intros ? ? ?%not_elem_of_nil; done|done]. }
  induction H as [|k1 k2 k3 Hs _ IH]; [done|]. apply IH. by eapply engine_only_step.
Qed.

(** C32. While only the engine triggers, an accepted trigger is served: as long as the
    engine is not stopped and the automation not removed, the pump that reads its queue
    is there, and by its own steps and the end of its run it comes to run the oldest
    waiting trigger. *)
Theorem queue_never_strands k q c m rest :
  k_reachable false k -> k_stopped k = false -> rs_live (k_rs k) = true ->
  rs_queue (k_rs k) = Some q -> rs_chans (k_rs k) !! q = Some c -> q_items c = m :: rest ->
  exists k' r x, rtc (k_step false) k k' /\ rs_runs (k_rs k') !! r = Some x /\ run_mode x = ModeQueued /\ run_match x = m /\
    q_items <$> rs_chans (k_rs k') !! q = Some rest.
Proof.
  intros [Hr _ _ Hs]%k_reachable_engine_only Hst Hl Hq Hc Hm. destruct Hs as [Hs|[Hs|[_ Hp]]]; [congruence..|].
  assert (Hnext : forall k0 ran, rs_pump (k_rs k0) = PumpIdle (Some q) ran -> rs_chans (k_rs k0) !! q = Some c -> 
    exists k' r x, rtc (k_step false) k0 k' /\ rs_runs (k_rs k') !! r = Some x /\ run_mode x = ModeQueued /\ run_match x = m /\
      q_items <$> rs_chans (k_rs k') !! q = Some rest).
  { intros k0 ran Hi Hc0. exists (k_take k0), (rs_next (k_rs k0)), (mkRun ModeQueued 0 false m). split; [apply rtc_once, k_next|].
    unfold k_take, pump_take. cbn. rewrite Hi, Hc0, Hm. cbn. by rewrite !lookup_insert_eq. }
  destruct (rs_pump (k_rs k)) as [| |q' ran|q' ran r|] eqn:Hpump; [| | | |done].
  - specialize (Hp q c Hc). congruence.
  - destruct (Hnext (with_k (pump_read (k_rs k)) (k_fires k) (k_pump k) (k_runs k) k) []) as (k' & r & x & Hk & H).
    + cbn. unfold pump_read. rewrite Hpump. cbn. by rewrite Hq.
    + cbn. unfold pump_read. by rewrite Hpump.
    + exists k', r, x. split; [|done]. eapply rtc_l; [apply k_read|done].
  - destruct Hp as [_ ->]. rewrite Hq in Hpump. by apply (Hnext k ran).
  - destruct Hp as [_ ->]. rewrite Hq in Hpump. pose proof (qu_pump _ (ok_queue _ Hr)) as Hpo. unfold pump_ok in Hpo. rewrite Hpump in Hpo.
    destruct Hpo as (c' & x & Hc' & Hx & Hmode & _).
    assert (Hfin : finish_run r (k_rs k) = with_pump (PumpIdle (Some q) (ran ++ [run_match x])) (with_runs (delete r (rs_runs (k_rs k))) (k_rs k))).
    { unfold finish_run. rewrite Hx, Hmode. cbn. by rewrite Hpump. }
    destruct (Hnext (with_k (finish_run r (k_rs k)) (k_fires k) (k_pump k) (delete r (k_runs k)) k) (ran ++ [run_match x])) as (k' & r' & x' & Hk & H).
    + cbn. by rewrite Hfin.
    + cbn. by rewrite Hfin.
    + exists k', r', x'. split; [|done]. eapply rtc_l; [apply k_finish|done].
Qed.

(** ** With triggers by hand *)

Lemma exited_forever manual k k' : k_reachable manual k -> rs_pump (k_rs k) = PumpExited -> rtc (k_step manual) k k' ->
  rs_pump (k_rs k') = PumpExited /\ forall r x, rs_runs (k_rs k') !! r = Some x -> run_mode x <> ModeQueued.
Proof.
  intros Hk Hp Hs. assert (Hk' : k_reachable manual k') by (destruct Hk as (mode & n & en & H); exists mode, n, en; by etrans).
  assert (rs_pump (k_rs k') = PumpExited).
  { apply (rs_steps_inv (fun s => rs_pump s = PumpExited) _ _ rs_step_exited (k_steps_rs _ _ _ Hs) Hp). }
  split; [done|]. apply exited_no_run; [by apply k_reachable_rs in Hk'|done].
Qed.

(** Take a step and evaluate the state it leads to. *)
Ltac k_evaluate := match goal with |- rtc _ ?k _ => let k' := eval vm_compute in k in replace k with k' by (vm_compute; reflexivity) end.
Tactic Notation "by_step" uconstr(t) := eapply rtc_l; [eapply t; first [reflexivity | by left | by right]|]; k_evaluate.

Module ControlDemo.

Definition by_hand : Match := mkMatch "porch" "manual" None.
Definition by_lamp : Match := mkMatch "porch" "state_changed" None.

(** The automation of mode queued after its first trigger came by hand: the pump ran it,
    and returned when the request had; the trigger of the lamp then waits. *)
Definition waiting : runState :=
  mkRS ModeQueued 10 true true false None 0 (Some 0%nat) {[ 0%nat := mkQueue 10 [by_lamp] false [by_hand; by_lamp] ]} ∅ [] PumpExited [] 2.
Definition stranded : controlled := mkControlled waiting [] (Some (RequestCtx 0)) ∅ false {[0%nat]}.

Lemma stranded_reachable : k_reachable true stranded.
Proof.
  exists ModeQueued, 10%nat, true.
  by_step (k_fire true _ (RequestCtx 0) by_hand). by_step (k_switch true _ (RequestCtx 0) [] [] [] [] ModeQueued 10 by_hand).
  by_step (k_send true _ (RequestCtx 0) [] [] [] [] 0%nat by_hand). by_step (k_read true). by_step (k_next true). by_step (k_finish true _ 1).
  by_step (k_return true _ 0). by_step (k_pump_done true _ (RequestCtx 0)).
  by_step (k_fire true _ EngineCtx by_lamp). by_step (k_switch true _ EngineCtx [] [] [] [] ModeQueued 10 by_lamp).
  by_step (k_send true _ EngineCtx [] [] [] [] 0%nat by_lamp). apply rtc_refl.
Qed.

(** A queue that serves: the lamp triggered, and its trigger waits for the pump. *)
Definition accepted : controlled :=
  mkControlled
    (mkRS ModeQueued 10 true true false None 0 (Some 0%nat) {[ 0%nat := mkQueue 10 [by_lamp] false [by_lamp] ]} ∅ [] PumpStarting [] 1)
    [] (Some EngineCtx) ∅ false ∅.
Lemma accepted_reachable : k_reachable false accepted.
Proof.
  exists ModeQueued, 10%nat, true.
  by_step (k_fire false _ EngineCtx by_lamp). by_step (k_switch false _ EngineCtx [] [] [] [] ModeQueued 10 by_lamp).
  by_step (k_send false _ EngineCtx [] [] [] [] 0%nat by_lamp). apply rtc_refl.
Qed.

Lemma queue_never_strands_witness :
  exists k' r x, rtc (k_step false) accepted k' /\ rs_runs (k_rs k') !! r = Some x /\ run_mode x = ModeQueued /\ run_match x = by_lamp /\
    q_items <$> rs_chans (k_rs k') !! 0%nat = Some [].
Proof. apply (queue_never_strands accepted 0%nat (mkQueue 10 [by_lamp] false [by_lamp]) by_lamp [] accepted_reachable); reflexivity. Defined.

(** Two automations, listed one per page while Go ranges over the map in another order:
    the second one is on no page. *)
Definition rs0 : runState := newRunState ModeSingle 10 true.
Definition areas0 (id : string) : list string := if String.eqb id "porch" then ["garden"] else [].
Definition page1 : reply Summary := AutomationService_List areas0 [("porch", rs0); ("hall", rs0)] "" 1 "".
Example list_order_matters :
  match page1 with
  | Reply l tok =>
      (s_ID <$> l, match AutomationService_List areas0 [("hall", rs0); ("porch", rs0)] "" 1 tok with Reply l' tok' => (s_ID <$> l', tok') | _ => ([], "?") end)
  | _ => ([], ([], "?"))
  end = (["porch"], (["porch"], "")).
Proof. by vm_compute. Qed.

(** The filter by area acts on a page: an empty page with more to come. *)
Example filtered_page_empty :
  match AutomationService_List areas0 [("hall", rs0); ("porch", rs0)] "garden" 1 "" with Reply l tok => (l, is_empty tok) | _ => ([], true) end = ([], false).
Proof. by vm_compute. Qed.

(** A Start that cannot subscribe: the next one reports success, and nothing runs. *)
Example failed_start_sticks :
  let l := (Start (Some "closed") (mkLife false 0 false)).1 in
  (Start None l).2 = None /\ l_loops (Start None l).1 = 0%nat.
Proof. done. Qed.

End ControlDemo.

(** One trigger by hand can stop a queued automation for good. When it is the first
    trigger of the automation, the pump lives in the context of the request; the pump
    returns with the request and is never started again. The engine runs, the
    automation is enabled and its queue accepts triggers, and none of them is run. *)
Theorem manual_trigger_kills_queue :
  exists k, k_reachable true k /\ k_stopped k = false /\ rs_live (k_rs k) = true /\ rs_enabled (k_rs k) = true /\
    (exists q c, rs_queue (k_rs k) = Some q /\ rs_chans (k_rs k) !! q = Some c /\ q_items c <> []) /\
    forall k', rtc (k_step true) k k' -> forall r x, rs_runs (k_rs k') !! r = Some x -> run_mode x <> ModeQueued.
Proof.
  exists ControlDemo.stranded. split; [apply ControlDemo.stranded_reachable|]. do 3 (split; [done|]). split.
  - by exists 0%nat, (mkQueue 10 [ControlDemo.by_lamp] false [ControlDemo.by_hand; ControlDemo.by_lamp]).
  - intros k' Hk'. by apply (exited_forever true _ _ ControlDemo.stranded_reachable eq_refl Hk').
Qed.

(** ** Switching *)

Section Switch.
Context (areas_of : string -> list string).

(** Enabling or disabling changes that flag of that automation alone; a disabled one
    ignores every fire, by whomever. An unknown automation is an internal error. *)
Theorem enabled_exact id b (e : Engine) :
  match AutomationService_SetEnabled areas_of id b e with
  | (e', Ok s) => runStates e !! id <> None /\ Get areas_of id e' = Some s /\ s_Enabled s = b /\
      (forall id', id' <> id -> runStates e' !! id' = runStates e !! id') /\ automations e' = automations e /\
      (b = false -> forall rs m, runStates e' !! id = Some rs -> fire_lookup m rs = rs)
  | (e', Err c) => runStates e !! id = None /\ e' = e /\ ce_Code c = CodeInternal
  end.
Proof.
  unfold AutomationService_SetEnabled, SetEnabled, Get. destruct (runStates e !! id) as [s|] eqn:Hs; [|by destruct b].
  cbn. rewrite lookup_insert_eq. cbn. do 3 (split; [done|]). split; [by intros id' Hne; rewrite lookup_insert_ne|]. split; [done|].
  intros -> rs m [= <-]. unfold fire_lookup. cbn. by destruct (rs_live s).
Qed.

(** A trigger by hand never names its run. *)
Lemma trigger_without_run id e run m : AutomationService_Trigger id e = Ok (run, m) -> run = "" /\ TriggerKind m = "manual".
Proof. unfold AutomationService_Trigger, Trigger. destruct (runStates e !! id) as [s|]; [|done]. destruct (rs_enabled s); [|done]. by intros [= <- <-]. Qed.

End Switch.
