(* ===== verification/Devices.v ===== *)
(** * Devices and areas

    Models [internal/api/service_device.go], [service_area.go] and [service_zone.go] with
    the adapters the daemon gives them ([deviceReaderAdapter], [deviceWriterAdapter],
    [areaReaderAdapter] and [zoneReaderAdapter] of [internal/daemon/api_adapters.go]), over
    [Registry] and [EventStore].

    [device_edit_ignored]: renaming or moving a device adds an event to the log and
    changes nothing. *)

From S2P Require Import Prelude Codec DriverKit Sorting Events EventStore EventStoreFacts StateCache Registry DaemonFacts Api.

Record ApiDevice := mkApiDevice { av_ID : string; av_FriendlyName : string; av_AreaID : string; av_DriverInstanceID : string }.
Definition api_device (d : Device) : ApiDevice := mkApiDevice (D_ID d) (D_FriendlyName d) "" (D_DriverInstanceID d).

(** ** Reading *)

Section Read.
Context (t : RegTables) (st : AreaState).

(** [deviceReaderAdapter]: the area is not looked at. *)
Definition devices_of : list ApiDevice := api_device <$> ListDevices (mkDeviceFilter "" false) t.
Definition adapter_GetDevice (id : string) : result string ApiDevice :=
  match GetDevice id t with Ok d => Ok (api_device d) | Err msg => Err msg end.

Definition DeviceService_List (area : string) (size : Z) (token : string) : reply ApiDevice := list_handler devices_of size token.
Definition DeviceService_Get (id : string) : result connect_error ApiDevice :=
  match adapter_GetDevice id with Ok d => Ok d | Err msg => Err (ToConnect (mkError msg []) "device_not_found") end.

(** [areaReaderAdapter] and its service: one page, whatever its size. *)
Definition AreaService_List (order : list Area) (size : Z) (token : string) : reply Area :=
  match DecodeCursor token with Err _ => BadPageToken | Ok _ => Reply (ListAreasInMemory order) "" end.
Definition AreaService_Get (id : string) : result connect_error Area :=
  match GetAreaInMemory id st with
  | Some a => Ok a
  | None => Err (ToConnect (mkError ("area " +:+ quoted id +:+ " not found") []) "area_not_found")
  end.

(** [zoneReaderAdapter]: there are no zones. *)
Definition ZoneService_List (size : Z) (token : string) : reply Area :=
  match DecodeCursor token with Err _ => BadPageToken | Ok _ => Reply [] "" end.
Definition ZoneService_Get (id : string) : result connect_error Area :=
  Err (ToConnect (mkError ("zone " +:+ quoted id +:+ " not found") []) "zone_not_found").
End Read.

(** ** Writing *)

Section Write.
Context {M : Type} (marshal : Payload -> result string string).
(** The arguments of [Append]. *)
Context (now new_id : Z) (fl : nat -> TxFaults) (done : nat -> option string).
Implicit Type s : Store M RegTables.

Definition device_event (kind actor id : string) (p : PayloadKind) : Event :=
  mkEvent 0 now kind id ("api:" +:+ actor) uuid_Nil 0 (Some (Some p)).

(** [deviceWriterAdapter]: append, then read the device back. *)
Definition write_device (e : Event) (id : string) s : Store M RegTables * result string ApiDevice :=
  let '(s', r) := Append marshal now new_id fl done e s in
  (s', match r with Err msg => Err msg | Ok _ => adapter_GetDevice (tables (db s')) id end).
Definition RenameDevice (id newName actor : string) s : Store M RegTables * result string ApiDevice :=
  write_device (device_event "device_renamed" actor id (Payload_DeviceRenamed id newName)) id s.
Definition ReassignDevice (id newArea actor : string) s : Store M RegTables * result string ApiDevice :=
  let '(s', r) := write_device (device_event "device_reassigned" actor id (Payload_DeviceReassigned id newArea)) id s in
  (s', match r with Ok d => Ok (mkApiDevice (av_ID d) (av_FriendlyName d) newArea (av_DriverInstanceID d)) | Err msg => Err msg end).

Definition to_connect {A} (reason : string) (r : result string A) : result connect_error A :=
  match r with Ok x => Ok x | Err msg => Err (ToConnect (mkError msg []) reason) end.
Definition DeviceService_Rename (id newName actor : string) s : Store M RegTables * result connect_error ApiDevice :=
  if is_empty newName then (s, Err (ToConnect (mkError "validation failed" [ValidationFailed]) "empty_friendly_name"))
  else let '(s', r) := RenameDevice id newName actor s in (s', to_connect "rename_failed" r).
Definition DeviceService_Reassign (id newArea actor : string) s : Store M RegTables * result connect_error ApiDevice :=
  let '(s', r) := ReassignDevice id newArea actor s in (s', to_connect "reassign_failed" r).
End Write.

(** ** An event that no projector looks at *)

Section Silent.
Context {M T : Type} (marshal : Payload -> result string string).
Implicit Type s : Store M T.

(** The projectors keep the tables on every event with the payload of [e]. *)
Definition silent (regs : list (Projector M T * ProjectorMode)) (e : Event) : Prop :=
  forall p mode e' m t, (p, mode) ∈ regs -> PayloadPtr e' = PayloadPtr e -> (Apply p e' m t).1.2 = t.

Lemma apply_and_advance_silent regs fl e e' m (d : DB T) :
  silent regs e -> PayloadPtr e' = PayloadPtr e -> tables (apply_and_advance regs fl e' m d).1.2 = tables d.
Proof.
  intros Hs He. revert m d. induction regs as [|[p mode] regs IH]; intros m d; cbn [apply_and_advance]; [done|].
  assert (IH' := IH ltac:(intros q md e0 m0 t0 Hin; apply (Hs q md); by right)). clear IH. destruct (negb (is_sync mode)); [apply IH'|].
  unfold applyProjector. pose proof (Hs p mode e' m (tables d) (list_elem_of_here _ _) He) as Ht.
  destruct (Apply p e' m (tables d)) as [[m1 t1] [msg|]]; cbn in Ht; subst t1; [done|]. destruct (f_cursor fl (Name p)); [done|]. by rewrite IH'.
Qed.

Lemma appendTx_silent e payload fl s :
  silent (projectors s) e -> tables (db (appendTx e payload fl s).1.1) = tables (db s).
Proof.
  intros Hs. unfold appendTx. destruct (f_begin fl); [done|]. destruct (f_insert fl 0%nat); [done|]. cbn [insert_event].
  destruct (f_last_id fl 0%nat); [done|].
  match goal with |- context [apply_and_advance ?r ?f ?x ?m ?d] => pose proof (apply_and_advance_silent r f e x m d Hs eq_refl) as Ha; destruct (apply_and_advance r f x m d) as [[m2 d2] [msg|]] end; [done|].
  by destruct (f_commit fl).
Qed.

Lemma Append_silent now new_id fl done e s :
  silent (projectors s) e -> tables (db (Append marshal now new_id fl done e s).1) = tables (db s).
Proof.
  intros Hs. unfold Append. destruct (is_empty (Kind e)); [done|]. destruct (is_empty (Source e)); [done|].
  destruct (PayloadPtr e) as [p|] eqn:Hp; [|done]. destruct (marshal p) as [payload|]; [|done].
  match goal with |- context [withRetry ?f done (s, 0)] =>
    pose proof (withRetry_inv f done (fun st => projectors st.1 = projectors s /\ tables (db st.1) = tables (db s))
      (fun st => tables (db st.1) = tables (db s)) (s, 0)) as Hr; destruct (withRetry f done (s, 0)) as [[s' pos] err] end.
  lapply Hr; clear Hr.
  2: { intros i [s1 p1] [H1 H2]. cbn in H1, H2. cbn [fst].
    assert (Hs1 : silent (projectors s1) (fill_defaults now new_id e)) by (rewrite H1; intros q md e' m t Hin He; apply (Hs q md); [done|by rewrite He]).
    pose proof (appendTx_silent (fill_defaults now new_id e) payload (fl i) s1 Hs1) as Ht.
    pose proof (appendTx_spec (fill_defaults now new_id e) payload (fl i) s1) as Hspec.
    destruct (appendTx _ _ _ s1) as [[s2 pos2] [m2|]]; cbn in Ht |- *; [|congruence]. destruct Hspec as [(_ & Hq & _) _]. split; congruence. }
  intros Hr. specialize (Hr (conj eq_refl eq_refl)). destruct err as [msg|]; [apply Hr|]. cbn in Hr. by destruct (pos >? latestPosition s').
Qed.
End Silent.

(** ** The daemon *)

Section Daemon.
Context (cdc : snapshot_codec) (sd : snap_db) (caps : option Attributes -> result string string) (exec : reg_stmt -> option string).
Context (marshal : Payload -> result string string) (now new_id : Z) (fl : nat -> TxFaults) (done : nat -> option string).
Implicit Type s : Store Cache RegTables.
#[local] Abbreviation daemon_projectors := (daemon_regs cdc sd (registry_projector caps exec)).

Lemma device_events_silent e id name :
  PayloadPtr e = Some (Some (Payload_DeviceRenamed id name)) \/ PayloadPtr e = Some (Some (Payload_DeviceReassigned id name)) ->
  silent daemon_projectors e.
Proof.
  intros He p mode e' m t Hin Hp. unfold daemon_regs in Hin. apply elem_of_cons in Hin as [[= -> _]|[[= -> _]|Hin%not_elem_of_nil]%elem_of_cons]; [done| |done]. cbn. unfold Registry_Apply, GetKind. rewrite Hp.
  by destruct He as [-> | ->].
Qed.

(** Renaming or moving a device through the API changes nothing but the log. The
    event is appended, whether or not the device exists, and no projector looks at it:
    the tables are the same, so the device that the rename returns has its old name, and
    the area that the move returns is gone at the next reading. *)
Theorem device_edit_ignored id value actor s :
  projectors s = daemon_projectors -> value <> "" ->
  let renamed := DeviceService_Rename marshal now new_id fl done id value actor s in
  let moved := DeviceService_Reassign marshal now new_id fl done id value actor s in
  (tables (db renamed.1) = tables (db s) /\ tables (db moved.1) = tables (db s)) /\
  (forall d, renamed.2 = Ok d -> DeviceService_Get (tables (db s)) id = Ok d /\ length (events (db renamed.1)) = S (length (events (db s)))) /\
  (forall d, moved.2 = Ok d -> av_AreaID d = value /\
     exists d', DeviceService_Get (tables (db moved.1)) id = Ok d' /\ av_AreaID d' = "" /\ length (events (db moved.1)) = S (length (events (db s)))).
Proof.
  intros Hp Hv. unfold DeviceService_Rename, DeviceService_Reassign, RenameDevice, ReassignDevice, write_device, device_event.
  destruct (is_empty value) eqn:Hemp; [by apply String.eqb_eq in Hemp|].
  set (e1 := mkEvent _ _ "device_renamed" _ _ _ _ _). set (e2 := mkEvent _ _ "device_reassigned" _ _ _ _ _).
  pose proof (Append_silent marshal now new_id fl done e1 s) as T1. pose proof (Append_silent marshal now new_id fl done e2 s) as T2. rewrite Hp in T1, T2.
  specialize (T1 (device_events_silent e1 id value (or_introl eq_refl))). specialize (T2 (device_events_silent e2 id value (or_intror eq_refl))).
  pose proof (Append_cases marshal now new_id fl done e1 s) as C1. pose proof (Append_cases marshal now new_id fl done e2 s) as C2.
  destruct (Append _ _ _ _ _ e1 s) as [s1 r1], (Append _ _ _ _ _ e2 s) as [s2 r2]. cbn in T1, T2 |- *. rewrite T1, T2. unfold DeviceService_Get.
  split; [done|]. split.
  - intros d. destruct r1; [|done]. destruct C1 as (? & ? & _ & _ & _ & _ & _ & (Hev & _) & _). rewrite Hev, length_app, Nat.add_1_r.
    destruct (adapter_GetDevice (tables (db s)) id); [|done]. by intros [= ->].
  - intros d. destruct r2; [|done]. destruct C2 as (? & ? & _ & _ & _ & _ & _ & (Hev & _) & _). rewrite Hev, length_app, Nat.add_1_r.
    unfold adapter_GetDevice. destruct (GetDevice id (tables (db s))) as [dv|]; [|done]. intros [= <-]. cbn. split; [done|]. by exists (api_device dv).
Qed.
End Daemon.

(** ** A daemon with one device *)

Module DeviceDemo.

Definition marshal (p : Payload) : result string string :=
  match p with
  | Some (Payload_DeviceRenamed _ _) => Ok "ren" | Some (Payload_DeviceReassigned _ _) => Ok "mov"
  | _ => Demo.marshal p
  end.
Definition rename (id : string) := DeviceService_Rename marshal 9 3 (fun _ => no_faults) Example.never id "Desk lamp" "ann" Demo.store2.
Definition move_ (id : string) := DeviceService_Reassign marshal 9 3 (fun _ => no_faults) Example.never id "Desk lamp" "ann" Demo.store2.

Example rename_keeps_name : (rename "dev1").2 = Ok (mkApiDevice "dev1" "" "" "hue").
Proof. by vm_compute. Qed.

(** A device that does not exist: the call fails as an internal error, and the event
    stays in the log. *)
Example rename_unknown :
  (rename "ghost").2 = Err (mkConnectError CodeInternal "internal error" "rename_failed") /\
  length (events (db (rename "ghost").1)) = 3%nat.
Proof. split; by vm_compute. Qed.

Lemma device_edit_ignored_witness :
  (tables (db (rename "dev1").1) = tables (db Demo.store2) /\ tables (db (move_ "dev1").1) = tables (db Demo.store2)) /\
  (forall d, (rename "dev1").2 = Ok d -> DeviceService_Get (tables (db Demo.store2)) "dev1" = Ok d /\
     length (events (db (rename "dev1").1)) = S (length (events (db Demo.store2)))) /\
  (forall d, (move_ "dev1").2 = Ok d -> av_AreaID d = "Desk lamp" /\
     exists d', DeviceService_Get (tables (db (move_ "dev1").1)) "dev1" = Ok d' /\ av_AreaID d' = "" /\
       length (events (db (move_ "dev1").1)) = S (length (events (db Demo.store2)))).
Proof.
  apply (device_edit_ignored Demo.cdc snap_db_ok Demo.caps (fun _ => None) marshal 9 3 (fun _ => no_faults) Example.never "dev1" "Desk lamp" "ann" Demo.store2).
  - reflexivity.
  - done.
Defined.

End DeviceDemo.
