(* ===== verification/AuthAudit.v ===== *)
(** * The audit log

    Models [internal/auth/audit/recorder.go]: the kinds of audit event and the recorder,
    which appends them to the event store. The protobuf encoding of an event is an
    argument.

    [audit_recorded]: a successful call adds the event, and only it, to the log. *)

From S2P Require Import Prelude Events EventStore EventStoreFacts.

Record Identity := mkIdentity { PrincipalID : string; SourceIP : string; UserAgent_ : string; RequestID : string }.

Inductive audit_kind :=
  | LoginSucceeded (authMethod userSlug sessionID credentialID : string)
  | LoginFailed (authMethod attemptedUserSlug reason : string)
  | Logout (userSlug sessionID : string)
  | SessionRefreshed (userSlug sessionID newSessionID : string)
  | SessionReplayDetected (userSlug sessionID : string) (revokedCount : Z)
  | PasswordChanged (userSlug setBy : string)
  | PasskeyRegistered (userSlug credentialID label : string)
  | PasskeyUnregistered (userSlug credentialID label : string)
  | EnrollmentTokenMinted (userSlug intent : string) (expiresAt : Z)
  | EnrollmentTokenRedeemed (userSlug intent : string)
  | TokenMinted (userSlug tokenID label scopeSummary issuedBy : string) (ttlSeconds : Z)
  | TokenRevoked (tokenID revokedBy reason : string)
  | TokenRejected (tokenIDPrefix reason : string)
  | PolicyDenied (actionService actionMethod actionVerb targetKind targetID subReason ruleName : string)
  | PolicyCompiled (generation policyCount compileDurationMs : Z) (compiledBy : string)
  | PolicyBypassed (actionService actionMethod actionVerb reason : string).

Record AuthEvent := mkAuthEvent { ae_Identity : Identity; ae_Kind : audit_kind }.

Section Recorder.
Context {M T : Type} (marshal : Payload -> result string string) (encode : AuthEvent -> string).
Implicit Type s : Store M T.

(** [emit], behind the sixteen methods of the recorder. *)
Definition emit (now new_id : Z) (fl : nat -> TxFaults) (done : nat -> option string) (id : Identity) (k : audit_kind) s : Store M T * option string :=
  AppendAuth marshal now new_id fl done (encode (mkAuthEvent id k)) s.

(** The events of a list of rows, as audit events. *)
Definition audit_event (decode : string -> option AuthEvent) (unmarshal : string -> result string Payload) (r : EventRow) : option AuthEvent :=
  match scanEvent unmarshal r with
  | Ok e => match PayloadPtr e with Some (Some (Payload_AuthEvent b)) => decode b | _ => None end
  | Err _ => None
  end.

(** What is audited is recorded: a call that succeeds adds one row to the log, which
    reads as this event of this caller, under the kind and source of the audit log; one
    that fails adds nothing. *)
Theorem audit_recorded decode unmarshal now new_id fl done id k s :
  (forall p b, marshal p = Ok b -> unmarshal b = Ok p) -> (forall x, decode (encode x) = Some x) ->
  let '(s', err) := emit now new_id fl done id k s in
  match err with
  | Some _ => events (db s') = events (db s)
  | None => exists r, events (db s') = events (db s) ++ [r] /\ row_kind r = "auth_event" /\ row_source r = "auth.audit" /\
      audit_event decode unmarshal r = Some (mkAuthEvent id k)
  end.
Proof.
  intros Hcodec Hdec. unfold emit, AppendAuth. set (e := mkEvent _ _ _ _ _ _ _ _). pose proof (Append_cases marshal now new_id fl done e s) as Ha.
  destruct (Append marshal now new_id fl done e s) as [s' [pos|msg]]; [|by destruct Ha as [_ ->]].
  destruct Ha as (p & payload & Hp & Hm & _ & _ & _ & (Hev & _) & _). injection Hp as <-. eexists. split; [exact Hev|]. split; [done|]. split; [done|].
  unfold audit_event, scanEvent. cbn [row_payload event_row]. rewrite (Hcodec _ _ Hm). cbn. by rewrite Hdec.
Qed.

End Recorder.
