(* ===== verification/Push.v ===== *)
(** * Push subscriptions

    Models [internal/push]: the store of subscriptions and the notifier. A list of
    subscriptions is a Go slice, a length and a backing array, and [List] hands out the
    slice itself, so the arrays are a shared heap here: a reader holds a slice while
    [Unregister] moves the items of its array.

    [store_refines]: the operations are those of a map from principals to lists.
    [notify_exact]: whom an event is sent to. [stale_list]: what a list that was handed
    out becomes; [notified_twice]: the notifier then skips a subscriber and sends to
    another one twice. *)

From S2P Require Import Prelude.

Record Subscription := mkSubscription { Endpoint : string; P256DH : string; Auth : string; UserAgent : string }.
Record IndexedSubscription := mkIndexed { ix_ID : string; ix_Subscription : Subscription }.
#[export] Instance Subscription_eq_dec : EqDecision Subscription.
Proof. solve_decision. Defined.
#[export] Instance IndexedSubscription_eq_dec : EqDecision IndexedSubscription.
Proof. solve_decision. Defined.
Definition zero_sub : IndexedSubscription := mkIndexed "" (mkSubscription "" "" "" "").

(** ** Slices *)

(** A slice that starts at the front of its array; an array is as long as its capacity. *)
Record slice := mkSlice { sl_array : nat; sl_len : nat }.
Record store := mkStore_ { heap : gmap nat (list IndexedSubscription); data : gmap string slice; next_array : nat }.
Definition empty_store : store := mkStore_ ∅ ∅ 0.

(** What a slice reads, with the heap as it is. *)
Definition read (h : gmap nat (list IndexedSubscription)) (sl : slice) : list IndexedSubscription := take (sl_len sl) (default [] (h !! sl_array sl)).

(** [append(sl, x)]: in place while the capacity allows, else in a new array whose
    capacity [grown] Go chooses. *)
Definition append_sub (grown : nat) (sl : option slice) (x : IndexedSubscription) (s : store) : store * slice :=
  let '(a, n) := match sl with Some sl => (default [] (heap s !! sl_array sl), sl_len sl) | None => ([], 0%nat) end in
  match sl with
  | Some sl =>
      if (n <? length a)%nat then (mkStore_ (<[sl_array sl := <[n := x]> a]> (heap s)) (data s) (next_array s), mkSlice (sl_array sl) (S n))
      else (mkStore_ (<[next_array s := take n a ++ x :: replicate grown zero_sub]> (heap s)) (data s) (S (next_array s)), mkSlice (next_array s) (S n))
  | None => (mkStore_ (<[next_array s := x :: replicate grown zero_sub]> (heap s)) (data s) (S (next_array s)), mkSlice (next_array s) 1)
  end.

(** ** The store *)

Definition Register (grown : nat) (id principal : string) (sub : Subscription) (s : store) : store :=
  let '(s', sl) := append_sub grown (data s !! principal) (mkIndexed id sub) s in mkStore_ (heap s') (<[principal := sl]> (data s')) (next_array s').

(** [List]: the slice of the store itself. *)
Definition List_ (principal : string) (s : store) : option slice := data s !! principal.
Definition listed (principal : string) (s : store) : list IndexedSubscription := match List_ principal s with Some sl => read (heap s) sl | None => [] end.

Fixpoint index_of (id : string) (l : list IndexedSubscription) : option nat :=
  match l with [] => None | x :: l => if String.eqb (ix_ID x) id then Some 0%nat else S <$> index_of id l end.

(** [append(subs[:i], subs[i+1:]...)], within the array of [subs]. *)
Definition shift_left (i n : nat) (a : list IndexedSubscription) : list IndexedSubscription := take i a ++ take (n - S i) (drop (S i) a) ++ drop (n - 1) a.

(** [Unregister]; [false] when there is no such subscription. *)
Definition Unregister (principal id : string) (s : store) : store * bool :=
  match data s !! principal with
  | None => (s, false)
  | Some sl =>
      match index_of id (read (heap s) sl) with
      | None => (s, false)
      | Some i =>
          (mkStore_ (<[sl_array sl := shift_left i (sl_len sl) (default [] (heap s !! sl_array sl))]> (heap s))
             (<[principal := mkSlice (sl_array sl) (sl_len sl - 1)]> (data s)) (next_array s), true)
      end
  end.

(** ** The notifier *)

Definition severityRank (s : string) : Z :=
  if String.eqb s "debug" then 0 else if String.eqb s "info" then 1 else if String.eqb s "warn" then 2
  else if String.eqb s "error" then 3 else if String.eqb s "critical" then 4 else 0.

(** The loop over a slice: an item is read when its turn comes; [between i] is what
    others do to the store while item [i] is sent. *)
Fixpoint notify_loop (between : nat -> store -> store) (sl : slice) (i todo : nat) (s : store) : store * list IndexedSubscription :=
  match todo with
  | O => (s, [])
  | S todo =>
      let x := default zero_sub (default [] (heap s !! sl_array sl) !! i) in
      let '(s', sent) := notify_loop between sl (S i) todo (between i s) in (s', x :: sent)
  end.

(** [HandleEvent]: the subscriptions that are sent to. *)
Definition HandleEvent (between : nat -> store -> store) (min_severity severity principal : string) (s : store) : store * list IndexedSubscription :=
  if severityRank severity <? severityRank min_severity then (s, [])
  else match List_ principal s with None => (s, []) | Some sl => notify_loop between sl 0 (sl_len sl) s end.

(** ** The store is a map from principals to lists *)

(** Slices fit their arrays, and no two principals share one. *)
Record store_ok (s : store) : Prop := {
  so_fit : forall p sl, data s !! p = Some sl -> exists a, heap s !! sl_array sl = Some a /\ (sl_len sl <= length a)%nat;
  so_apart : forall p q sl sl', data s !! p = Some sl -> data s !! q = Some sl' -> p <> q -> sl_array sl <> sl_array sl';
  so_next : forall n a, heap s !! n = Some a -> (n < next_array s)%nat;
}.

Lemma store_ok_empty : store_ok empty_store.
Proof. split; cbn; intros *; rewrite lookup_empty; done. Qed.

(** Giving [p] the slice [sl] over the array [a], which no other principal has. *)
Definition put (p : string) (sl : slice) (a : list IndexedSubscription) (n : nat) (s : store) : store := mkStore_ (<[sl_array sl := a]> (heap s)) (<[p := sl]> (data s)) n.

Lemma put_ok p sl a n s :
  store_ok s -> (sl_len sl <= length a)%nat -> (sl_array sl < n)%nat -> (next_array s <= n)%nat ->
  (forall q sl', q <> p -> data s !! q = Some sl' -> sl_array sl' <> sl_array sl) ->
  store_ok (put p sl a n s) /\ forall q, listed q (put p sl a n s) = if decide (q = p) then take (sl_len sl) a else listed q s.
Proof.
  intros [Hf Ha Hn] Hl Hs Hle Hd. split; [split; cbn|].
  - intros q sl'. destruct (decide (q = p)) as [->|Hq]; [rewrite lookup_insert_eq; intros [= <-]; exists a; by rewrite lookup_insert_eq|].
    rewrite lookup_insert_ne by done. intros Hq'. rewrite lookup_insert_ne by (intros H; by apply (Hd q sl')). by eapply Hf.
  - intros q r sl1 sl2. destruct (decide (q = p)) as [->|Hq], (decide (r = p)) as [->|Hr]; rewrite ?lookup_insert_eq, ?lookup_insert_ne by done.
    + done.
    + intros [= <-] H2 _ H. by apply (Hd r sl2).
    + intros H1 [= <-] _ H. by apply (Hd q sl1).
    + by apply Ha.
  - intros m b. destruct (decide (m = sl_array sl)) as [->|Hm]; [done|]. rewrite lookup_insert_ne by done. intros H%Hn. lia.
  - intros q. unfold listed, List_, read. cbn. case_decide as Hq; [subst; by rewrite !lookup_insert_eq|]. rewrite lookup_insert_ne by done.
    destruct (data s !! q) as [sl'|] eqn:Hq'; [|done]. rewrite lookup_insert_ne; [done|]. intros H. by apply (Hd q sl').
Qed.

Definition register_spec (id : string) (sub : Subscription) (l : list IndexedSubscription) : list IndexedSubscription := l ++ [mkIndexed id sub].
Definition unregister_spec (id : string) (l : list IndexedSubscription) : list IndexedSubscription :=
  match index_of id l with Some i => take i l ++ drop (S i) l | None => l end.

Lemma Register_spec grown id p sub s :
  store_ok s -> store_ok (Register grown id p sub s) /\
  forall q, listed q (Register grown id p sub s) = if decide (q = p) then register_spec id sub (listed q s) else listed q s.
Proof.
  intros Hok. pose proof Hok as [Hf Ha Hn]. unfold Register, append_sub, register_spec.
  assert (Hfresh : forall q sl', data s !! q = Some sl' -> sl_array sl' <> next_array s) by (intros q sl' Hq H; destruct (Hf q sl' Hq) as (a & H'%Hn & _); lia).
  destruct (data s !! p) as [sl|] eqn:Hp.
  - destruct (Hf p sl Hp) as (a & Hsl & Hle). rewrite Hsl. cbn -[Nat.ltb take]. destruct (Nat.ltb_spec (sl_len sl) (length a)).
    + destruct (put_ok p (mkSlice (sl_array sl) (S (sl_len sl))) (<[sl_len sl := mkIndexed id sub]> a) (next_array s) s) as [H1 H2]; cbn; rewrite ?length_insert; try done.
      { by eapply Hn. } { intros q sl' Hq Hq'. by eapply Ha. }
      split; [done|]. intros q. etransitivity; [apply H2|]. case_decide as Hq; [|done]. subst. unfold listed, List_, read. rewrite Hp, Hsl. cbn.
      rewrite (take_S_r _ _ (mkIndexed id sub)) by (by apply list_lookup_insert_eq). by rewrite take_insert_ge.
    + destruct (put_ok p (mkSlice (next_array s) (S (sl_len sl))) (take (sl_len sl) a ++ mkIndexed id sub :: replicate grown zero_sub) (S (next_array s)) s) as [H1 H2];
        cbn; rewrite ?length_app, ?length_take; cbn; try lia; try done.
      { intros q sl' _. apply Hfresh. }
      split; [done|]. intros q. etransitivity; [apply H2|]. case_decide as Hq; [|done]. subst. unfold listed, List_, read. rewrite Hp, Hsl. cbn [sl_len].
      change (default [] (Some a)) with a. rewrite (take_ge a) by lia. replace (S (sl_len sl)) with (length a + 1)%nat by lia. by rewrite take_app_add.
  - destruct (put_ok p (mkSlice (next_array s) 1) (mkIndexed id sub :: replicate grown zero_sub) (S (next_array s)) s) as [H1 H2]; cbn; try lia; try done.
    { intros q sl' _. apply Hfresh. }
    split; [done|]. intros q. etransitivity; [apply H2|]. case_decide as Hq; [|done]. subst. unfold listed, List_. by rewrite Hp.
Qed.

Lemma index_of_lt id l i : index_of id l = Some i -> (i < length l)%nat.
Proof.
  revert i. induction l as [|x l IH]; intros i; cbn; [done|]. destruct (String.eqb _ _); [intros [= <-]; lia|].
  destruct (index_of id l) as [j|]; [|done]. intros [= <-]. specialize (IH j eq_refl). lia.
Qed.

(** The array after an item of its slice was removed. *)
Lemma take_shift i n (a : list IndexedSubscription) : (i < n <= length a)%nat -> take (n - 1) (shift_left i n a) = take i (take n a) ++ drop (S i) (take n a).
Proof.
  intros H. unfold shift_left. rewrite app_assoc. rewrite take_app_length'.
  - rewrite take_take, Nat.min_l by lia. f_equal. by rewrite take_drop_commute, Nat.add_comm, Nat.sub_add by lia.
  - rewrite length_app, !length_take, length_drop. lia.
Qed.
Lemma take_shift_all i n (a : list IndexedSubscription) :
  (i < n <= length a)%nat -> take n (shift_left i n a) = take i (take n a) ++ drop (S i) (take n a) ++ option_list (last (take n a)).
Proof.
  intros H. pose proof (take_shift i n a H) as Hs. unfold shift_left in *. rewrite app_assoc in *.
  set (l1 := take i a ++ take (n - S i) (drop (S i) a)) in *. assert (Hl : length l1 = (n - 1)%nat) by (unfold l1; rewrite length_app, !length_take, length_drop; lia).
  rewrite take_app_length' in Hs by done. rewrite app_assoc, <- Hs.
  transitivity (take (length l1 + 1) (l1 ++ drop (n - 1) a)); [f_equal; lia|]. rewrite take_app_add. f_equal.
  rewrite last_lookup, length_take, Nat.min_l, lookup_take_lt by lia. destruct (lookup_lt_is_Some_2 a (pred n)) as [x Hx]; [lia|]. rewrite Hx.
  replace (n - 1)%nat with (pred n) by lia. by rewrite (drop_S _ _ _ Hx).
Qed.
Lemma length_shift i n (a : list IndexedSubscription) : (i < n <= length a)%nat -> length (shift_left i n a) = length a.
Proof. intros H. unfold shift_left. rewrite !length_app, !length_take, !length_drop. lia. Qed.

Lemma Unregister_spec id p s :
  store_ok s -> let '(s', found) := Unregister p id s in
  store_ok s' /\ found = bool_decide (is_Some (index_of id (listed p s))) /\
  forall q, listed q s' = if decide (q = p) then unregister_spec id (listed q s) else listed q s.
Proof.
  intros Hok. pose proof Hok as [Hf Ha Hn]. unfold Unregister, unregister_spec.
  assert (Hsame : index_of id (listed p s) = None -> forall q, listed q s =
     if decide (q = p) then match index_of id (listed q s) with Some i => take i (listed q s) ++ drop (S i) (listed q s) | None => listed q s end else listed q s).
  { intros H q. case_decide; [subst; by rewrite H|done]. }
  destruct (data s !! p) as [sl|] eqn:Hp; [|assert (Hl : listed p s = []) by (unfold listed, List_; by rewrite Hp); rewrite Hl in *; by auto].
  assert (Hl : listed p s = read (heap s) sl) by (unfold listed, List_; by rewrite Hp). rewrite <- Hl.
  destruct (index_of id (listed p s)) as [i|] eqn:Hi; [|by auto]. pose proof (index_of_lt _ _ _ Hi) as Hlt. rewrite Hl in Hlt. unfold read in Hlt.
  destruct (Hf p sl Hp) as (a & Hsl & Hle). rewrite Hsl in Hlt |- *. change (default [] (Some a)) with a in *. rewrite length_take in Hlt.
  destruct (put_ok p (mkSlice (sl_array sl) (sl_len sl - 1)) (shift_left i (sl_len sl) a) (next_array s) s) as [H1 H2]; cbn; rewrite ?length_shift by lia; try lia; try done.
  { by eapply Hn. } { intros q sl' Hq Hq'. by eapply Ha. }
  split; [done|]. split; [done|]. intros q. etransitivity; [apply H2|]. case_decide as Hq; [|done]. subst. rewrite Hi, Hl. unfold read. rewrite Hsl. cbn [sl_len].
  change (default [] (Some a)) with a. apply take_shift. lia.
Qed.

(** Operations on the store, and on a map from principals to lists. *)
Inductive op := OpRegister (grown : nat) (id principal : string) (sub : Subscription) | OpUnregister (principal id : string).
Definition apply_op (o : op) (s : store) : store :=
  match o with OpRegister g id p sub => Register g id p sub s | OpUnregister p id => (Unregister p id s).1 end.
Definition spec_op (o : op) (f : string -> list IndexedSubscription) (q : string) : list IndexedSubscription :=
  match o with
  | OpRegister _ id p sub => if decide (q = p) then register_spec id sub (f q) else f q
  | OpUnregister p id => if decide (q = p) then unregister_spec id (f q) else f q
  end.

Lemma ops_refine os s f :
  store_ok s -> (forall q, listed q s = f q) ->
  store_ok (foldl (fun s o => apply_op o s) s os) /\ forall q, listed q (foldl (fun s o => apply_op o s) s os) = foldl (fun f o => spec_op o f) f os q.
Proof.
  revert s f. induction os as [|o os IH]; intros s f Hok Hf; [done|]. cbn [foldl]. apply IH.
  - destruct o as [g id p sub|p id]; [apply (Register_spec g id p sub s Hok)|]. cbn. pose proof (Unregister_spec id p s Hok) as H. by destruct (Unregister p id s) as [s' b], H.
  - intros q. destruct o as [g id p sub|p id]; cbn.
    + destruct (Register_spec g id p sub s Hok) as [_ H]. rewrite H. by rewrite Hf.
    + pose proof (Unregister_spec id p s Hok) as H. destruct (Unregister p id s) as [s' b]. destruct H as (_ & _ & H). rewrite H. by rewrite Hf.
Qed.

(** The store is a map: after any operations the list of a principal is what the same
    operations make of a plain list, whatever capacities Go chose. *)
Theorem store_refines os q : listed q (foldl (fun s o => apply_op o s) empty_store os) = foldl (fun f o => spec_op o f) (fun _ => []) os q.
Proof. apply (ops_refine os empty_store (fun _ => [])); [apply store_ok_empty|]. intros p. unfold listed, List_. cbn. by rewrite lookup_empty. Qed.

(** ** Who is notified *)

Lemma notify_quiet sl i n s a :
  heap s !! sl_array sl = Some a -> (i + n <= length a)%nat -> notify_loop (fun _ s => s) sl i n s = (s, take n (drop i a)).
Proof.
  intros Ha. revert i. induction n as [|n IH]; intros i Hn; cbn [notify_loop]; [done|]. rewrite Ha. change (default [] (Some a)) with a.
  destruct (lookup_lt_is_Some_2 a i) as [x Hx]; [lia|]. rewrite IH by lia. rewrite (drop_S a x i Hx), Hx. done.
Qed.

(** When nobody touches the store meanwhile, an event goes to every subscription of the
    principal once and in order, or to none when its severity is too low; a severity
    that is not known counts as the lowest. *)
Theorem notify_exact min sev p s :
  store_ok s -> HandleEvent (fun _ s => s) min sev p s = (s, if severityRank sev <? severityRank min then [] else listed p s).
Proof.
  intros [Hf _ _]. unfold HandleEvent, listed. destruct (severityRank sev <? severityRank min); [done|]. unfold List_. destruct (data s !! p) as [sl|] eqn:Hp; [|done].
  destruct (Hf p sl Hp) as (a & Ha & Hle). rewrite (notify_quiet _ _ _ _ a Ha) by lia. unfold read. by rewrite Ha.
Qed.

(** A list that was handed out, after an item of it was removed from the store: the items
    behind it moved up, and the last one is there twice. *)
Theorem stale_list p id s i sl :
  store_ok s -> List_ p s = Some sl -> index_of id (listed p s) = Some i ->
  read (heap (Unregister p id s).1) sl = take i (listed p s) ++ drop (S i) (listed p s) ++ option_list (last (listed p s)).
Proof.
  intros [Hf _ _] Hsl Hi. unfold List_ in Hsl. assert (Hl : listed p s = read (heap s) sl) by (unfold listed, List_; by rewrite Hsl).
  pose proof (index_of_lt _ _ _ Hi) as Hlt. rewrite Hl in Hi, Hlt |- *. unfold Unregister. rewrite Hsl, Hi. cbn [fst heap]. unfold read. cbn. rewrite lookup_insert_eq.
  unfold read in Hlt. destruct (Hf p sl Hsl) as (a & Ha & Hle). rewrite Ha in Hlt |- *. change (default [] (Some a)) with a in *. rewrite length_take in Hlt.
  apply (take_shift_all i (sl_len sl) a). lia.
Qed.

Module PushDemo.

Definition sub (e : string) : Subscription := mkSubscription e "" "" "".
Definition three : store := Register 0 "3" "ann" (sub "c") (Register 2 "2" "ann" (sub "b") (Register 0 "1" "ann" (sub "a") empty_store)).
Definition endpoints (l : list IndexedSubscription) : list string := (fun x => Endpoint (ix_Subscription x)) <$> l.

(** The first subscription is removed while the first message is sent: b gets none, and
    c gets two. *)
Example notified_twice :
  endpoints (HandleEvent (fun i s => if (i =? 0)%nat then (Unregister "ann" "1" s).1 else s) "info" "error" "ann" three).2 = ["a"; "c"; "c"].
Proof. by vm_compute. Qed.

(** A severity the table does not know is dropped, however bad it sounds. *)
Example unknown_severity : (HandleEvent (fun _ s => s) "info" "fatal" "ann" three).2 = [] /\ length (HandleEvent (fun _ s => s) "inof" "debug" "ann" three).2 = 3%nat.
Proof. split; by vm_compute. Qed.

End PushDemo.
